(* ===== verification/_CoqProject ===== *)
-Q . S2P
Prelude.v
Crc32c.v
Format.v
Header.v
Codec.v
TreeNode.v
Geometry.v
Bitmap.v
Region.v
Ident.v
Checkpoint.v
Leaf.v
Posix.v
ReclaimCodec.v
Chain.v
Attrs.v
Object.v
IntentLog.v
SmallBytes.v
Device.v
Cache.v
PowerCut.v
Core.v
Mount.v
Commit.v
Tree.v
TreeSpec.v
TreeReaders.v
TreeVerify.v
CowTree.v
CowStore.v
CowNodes.v
CowEdit.v
CowMutate.v
CowBatch.v
AllocRoot.v
AllocPlace.v
AllocRootSpec.v
AllocBulk.v
Reclaim.v
ReclaimQueue.v
RunSet.v
Alloc.v
AllocSpec.v
AllocTx.v
AllocScan.v
AllocOps.v
AllocBack.v
AllocClaim.v
AllocBegin.v
AllocQueue.v
AllocFinish.v
AllocTree.v
AllocCommit.v
AllocSample.v
AllocPromise.v
