(* ===== verification/Prelude.v ===== *)
(** * AFS+ verification library

    AFS+ is a copy-on-write filesystem written in Rust.  This library models
    the on-disk format, the block devices and the core below the namespace as
    executable functions and proves what makes them correct.  Paths are given
    under crates/ of the source tree.

    ** The program

    - afsplus-format encodes and decodes every metadata block: a 32-byte
      checksummed header, the identification block, the two checkpoint slots,
      region descriptors and bitmap pages, nodes of the shared B+ trees and the
      values in their leaves, object records, attribute sets, owned chains,
      the reclaim queue and the intent log.
    - afsplus-block defines the [BlockDevice] trait and wraps devices: memory
      images, slices, a write-through cache, a power-cut recorder.
    - afsplus-core builds on both.  A transaction edits trees by writing new
      nodes into free blocks, retires the blocks it replaced into the reclaim
      queue, and publishes everything by writing the older of two checkpoint
      slots between barriers.  Mounting selects the newest valid slot.

    ** The files

    Foundations.
    - Prelude.v: machine integers as [Z] at their width (arithmetic that can
      overflow panics), [outcome] (a value, an error, or a panic), folds over
      it, slices of byte lists, the rules [wp] and the tactics.
    - Crc32c.v, Format.v, Header.v: crc32c.rs, lib.rs and le.rs, header.rs.
    - Codec.v: the rules that run encoders and decoders symbolically and the
      classes [ExactCodec] and [ExactValue] that the codecs instantiate.

    The format (one file for each source file of afsplus-format/src).
    - TreeNode.v tree.rs; Geometry.v geometry.rs; Bitmap.v bitmap.rs; Region.v
      region.rs; Ident.v ident.rs; Checkpoint.v checkpoint.rs; Leaf.v
      extent.rs, dir.rs and snapshot.rs; Posix.v posix.rs; ReclaimCodec.v
      reclaim.rs; Chain.v chain.rs and security.rs; Attrs.v attrs.rs; Object.v
      object.rs; IntentLog.v intent_log.rs; SmallBytes.v small_bytes.rs.

    Devices (afsplus-block/src).
    - Device.v: the trait as the class [BlockDevice], the contract
      [DeviceContract] its users are proved against, the state monad [io] with
      the rules [wpi], memory.rs and slice.rs.
    - Cache.v: cache.rs.  PowerCut.v: powercut.rs.

    The core (afsplus-core/src).
    - Core.v: errors and the fixed layout of lib.rs.
    - Mount.v: negotiation and checkpoint selection of mount.rs.
    - Commit.v: the publication sequence of volume.rs.
    - Tree.v: the code of tree.rs; TreeSpec.v: the list of items a tree holds;
      TreeReaders.v and TreeVerify.v: the readers and the verifier.
    - CowTree.v: the code of cow_tree.rs and the allocator interface
      [TreeAllocator]; CowStore.v: the staged images as a map of nodes and the
      contract [AllocatorContract]; CowNodes.v: taking nodes apart and
      building them; CowEdit.v: the meaning of an edit; CowMutate.v: insertion
      and deletion; CowBatch.v: whole batches.
    - AllocRoot.v: the code of allocation_root.rs; AllocPlace.v: the placement
      of its pool; AllocRootSpec.v: its readers, and the pool as an allocator;
      AllocBulk.v: its construction.
    - RunSet.v: the interval sets of alloc.rs.  Alloc.v: the rest of its code,
      from loading bitmaps to finishing a transaction; [tio] threads the
      device and the [TxAllocator].  AllocSpec.v: the allocation state that a
      checkpoint names, as one function from pages to marks; AllocTx.v: the
      caches of a transaction against the committed state; AllocScan.v: the
      search; AllocOps.v: the invariant [tx_inv] of a transaction, allocation
      and retirement; AllocBack.v: releasing; AllocClaim.v: exact claims,
      extension and abandonment; AllocBegin.v: opening; AllocQueue.v:
      the reclaim queue inside a transaction; AllocFinish.v: the emitted
      bitmaps, descriptors and records; AllocTree.v: the allocator as
      an [AllocatorContract] for the trees; AllocCommit.v: finishing, and the
      consistent volume [consistent] a transaction starts from; AllocSample.v:
      a concrete volume; AllocPromise.v: the theorems its callers rely on.
    - Reclaim.v: the code of reclaim.rs; ReclaimQueue.v: the queue as a list.

    ** What the theorems show

    - Checksums: slicing-by-8 computes the bit-serial CRC; a burst of up to 32
      bits is detected; a corrupted block is rejected.
    - Codecs: a decoder accepts exactly what its encoder produces, never
      panics on any bytes, and what it returns satisfies the type's invariant.
    - Geometry: the constant-time admission covers every region; reserved and
      allocatable blocks partition the volume; permanent areas are disjoint;
      the closed form of the pool agrees with enumeration.
    - Devices: a slice cannot touch blocks outside it; a cached device is
      indistinguishable from the device; the enumerated crash images are
      exactly the possible ones.
    - Commit: whatever subset of the unflushed writes survives a power cut, a
      mount selects the old checkpoint with its blocks untouched or the new
      one complete.
    - Trees: on any blocks the readers return; on a tree they answer from its
      items; the verifier accepts exactly the trees; a batch of edits gives
      the tree of the edited list beside the committed tree, which keeps every
      block, and blocks are accounted for exactly.  One theorem shows a batch
      that fails although the edit is legal: deletion can replace a separator
      by a longer one in a full parent.
    - Allocation root: construction succeeds whenever the pool fits and gives
      a readable tree; readers return the stored records.
    - Allocator: a transaction opened on a consistent volume keeps, through
      any sequence of operations, bitmaps that mark exactly the committed
      blocks that were not promoted, the blocks it owns and those it
      quarantined; a run is found whenever one is free; operations accept
      exactly what they are for; the free count is exact; tree edits run on
      it; finishing emits a state that marks what the transaction marked and
      leaves the state of both retained checkpoints in place.  Interval sets
      implement sets of blocks.
    - Reclaim queue: the engine is a first-in first-out queue; a planned
      rebuild cannot fail.

    ** Bounds and fuel

    Loops over lists are structural.  A loop that follows blocks carries fuel
    that bounds it whatever the blocks hold: [WALK_FUEL] and [MUTATION_FUEL]
    are 16, one more than [MAX_TREE_LEVEL], because every step down a tree
    decreases the level and levels above 15 are rejected; the reclaim consumer
    has one unit for every segment reference and inline run; [count_levels]
    has 64 because each turn at least halves a [usize]; [bulk_levels] has 256
    because the level is a [u8].  Running out of fuel is a panic of the model,
    and the theorems exclude panics.  The scan of a bitmap page has one unit
    for every bit up to its end.  Statistics counters are unbounded integers;
    those the free count is computed from are proved to stay in range.  The
    theorems about allocation take a volume of at most 2^31 regions, because
    the code adds two region numbers in 32 bits, and finishing is proved for
    volumes without snapshots.

    ** Not modelled

    Diagnostics that change no result (flight recorder, allocation trace,
    observers, live-node measurement).  Text inside error messages is kept
    without the interpolated numbers.  Of afsplus-block the operating-system
    file backend (pure I/O) and the fault, trace, activity and overlay
    wrappers used by tests.  Of alloc.rs the sealing of snapshot lifetimes.  Of
    afsplus-core the namespace operations of volume.rs and volume/, directories, name keys, extent and object maps,
    snapshots, volume creation and the whole-volume checker: they are clients
    of the parts above and not translated yet.  The virtual file system layer,
    backup archives, checker programs, FUSE and AROS adapters, the C reader and
    the command-line tools are outside this library: adapters, I/O and formats
    of their own. *)

From stdpp Require Export base list numbers strings gmap.
From coqutil Require Export Byte Word.LittleEndianList.
From Stdlib Require Export ZArith Lia.

#[global] Open Scope Z_scope.
#[global] Set Default Goal Selector "!".
Declare Scope afs_scope.
Delimit Scope afs_scope with afs.
#[global] Open Scope afs_scope.

(** ** Outcomes of Rust code

    [Ok] and [Err] are the two constructors of [Result]; [Panic] is a Rust
    panic: an out-of-range index or slice, a failed [expect], a
    [copy_from_slice] between slices of different lengths, or an unchecked
    arithmetic operation that leaves its type (the repository keeps overflow
    checks on in its test profile).  Proving that a computation is not
    [Panic] therefore covers every one of these. *)

Inductive outcome (E A : Type) : Type :=
| Ok (a : A)
| Err (e : E)
| Panic.
Arguments Ok {E A} _.
Arguments Err {E A} _.
Arguments Panic {E A}.

Definition obind {E A B} (c : outcome E A) (k : A -> outcome E B) : outcome E B :=
  match c with
  | Ok a => k a
  | Err e => Err e
  | Panic => Panic
  end.

Notation "'let*' x ':=' c 'in' k" := (obind c (fun x => k))
  (at level 10, x name, c at level 100, k at level 200) : afs_scope.
Notation "'let*' ' p ':=' c 'in' k" := (obind c (fun p => k))
  (at level 10, p strict pattern, c at level 100, k at level 200) : afs_scope.
Notation "'do*' c 'in' k" := (obind c (fun _ => k))
  (at level 10, c at level 100, k at level 200) : afs_scope.

(** [option::ok_or]. *)
Definition ok_or {E A} (o : option A) (e : E) : outcome E A :=
  match o with
  | Some a => Ok a
  | None => Err e
  end.

(** A [for] loop over a slice that threads an accumulator and may leave early. *)
Fixpoint ofold {E A B} (f : B -> A -> outcome E B) (acc : B) (l : list A) : outcome E B :=
  match l with
  | [] => Ok acc
  | x :: l => let* acc := f acc x in ofold f acc l
  end.

(** [for (index, x) in l.iter().enumerate()], the index starting at [i]. *)
Fixpoint ofoldi {E A B} (f : B -> Z -> A -> outcome E B) (acc : B) (i : Z) (l : list A) : outcome E B :=
  match l with
  | [] => Ok acc
  | x :: l => let* acc := f acc i x in ofoldi f acc (i + 1) l
  end.

(** [for index in i..i + n { v.push(f(index)?) }]. *)
Fixpoint collect {E A} (f : Z -> outcome E A) (i : Z) (n : nat) : outcome E (list A) :=
  match n with
  | O => Ok []
  | S n => let* x := f i in let* l := collect f (i + 1) n in Ok (x :: l)
  end.

(** [for _ in 0..n { v.push(f(offset)?); offset += step }]. *)
Fixpoint collect_step {E A} (f : Z -> outcome E A) (offset step : Z) (n : nat) : outcome E (list A) :=
  match n with
  | O => Ok []
  | S n => let* x := f offset in let* l := collect_step f (offset + step) step n in Ok (x :: l)
  end.

(** ** Machine integers

    An integer of [w] bits is a [Z] in range; the predicates below are what
    the Rust types guarantee of a value. *)

Definition u8 (v : Z) : Prop := 0 <= v < 2 ^ 8.
Definition u16 (v : Z) : Prop := 0 <= v < 2 ^ 16.
Definition u32 (v : Z) : Prop := 0 <= v < 2 ^ 32.
Definition u64 (v : Z) : Prop := 0 <= v < 2 ^ 64.
Definition i64 (v : Z) : Prop := - 2 ^ 63 <= v < 2 ^ 63.

(** [usize] of the 64-bit hosts the tools run on. *)
Definition usize (v : Z) : Prop := 0 <= v < 2 ^ 64.

Definition checked_add (w a b : Z) : option Z :=
  if a + b <? 2 ^ w then Some (a + b) else None.
Definition checked_sub (a b : Z) : option Z :=
  if b <=? a then Some (a - b) else None.
Definition checked_mul (w a b : Z) : option Z :=
  if a * b <? 2 ^ w then Some (a * b) else None.
Definition saturating_sub (a b : Z) : Z := Z.max 0 (a - b).
Definition saturating_add (w a b : Z) : Z := Z.min (a + b) (2 ^ w - 1).
Definition saturating_mul (w a b : Z) : Z := Z.min (a * b) (2 ^ w - 1).
Definition div_ceil (a b : Z) : Z := (a + b - 1) / b.

(** The unchecked operators: they panic where the checked ones return [None]. *)
Definition add_w {E} (w a b : Z) : outcome E Z :=
  if a + b <? 2 ^ w then Ok (a + b) else Panic.
Definition sub_w {E} (a b : Z) : outcome E Z :=
  if b <=? a then Ok (a - b) else Panic.
Definition mul_w {E} (w a b : Z) : outcome E Z :=
  if a * b <? 2 ^ w then Ok (a * b) else Panic.

(** [v as u32] and [v as u16]: the cast keeps the low bits. *)
Definition as_u32 (v : Z) : Z := v mod 2 ^ 32.
Definition as_u16 (v : Z) : Z := v mod 2 ^ 16.

(** ** Byte buffers *)

Abbreviation bytes := (list Byte.byte).

Definition zlen {A} (l : list A) : Z := Z.of_nat (length l).
Definition zeros (n : Z) : bytes := replicate (Z.to_nat n) Byte.x00.
Definition sub {A} (l : list A) (a b : Z) : list A :=
  take (Z.to_nat (b - a)) (drop (Z.to_nat a) l).
Definition blit (l : bytes) (off : Z) (src : bytes) : bytes :=
  take (Z.to_nat off) l ++ src ++ drop (Z.to_nat (off + zlen src)) l.

(** [&l[a..b]]. *)
Definition slice {E A} (l : list A) (a b : Z) : outcome E (list A) :=
  if (0 <=? a) && (a <=? b) && (b <=? zlen l) then Ok (sub l a b) else Panic.

(** [l[i]] of a byte slice, read as an integer. *)
Definition index {E} (l : bytes) (i : Z) : outcome E Z :=
  if (0 <=? i) && (i <? zlen l) then
    Ok (byte.unsigned (nth (Z.to_nat i) l Byte.x00))
  else Panic.

(** [l[a..b].copy_from_slice(src)]. *)
Definition put {E} (l : bytes) (a b : Z) (src : bytes) : outcome E bytes :=
  if (0 <=? a) && (a <=? b) && (b <=? zlen l) && (zlen src =? b - a)
  then Ok (blit l a src) else Panic.

(** [l[i] = v] for a [u8] value. *)
Definition put_u8 {E} (l : bytes) (i v : Z) : outcome E bytes :=
  put l i (i + 1) [byte.of_Z v].

#[global] Instance byte_eq_dec : EqDecision Byte.byte := Byte.byte_eq_dec.
Definition bytes_eqb (a b : bytes) : bool := bool_decide (a = b).
Definition all_zero (l : bytes) : bool := forallb (fun b => Byte.eqb b Byte.x00) l.

(** The lexicographic order of byte slices. *)
Fixpoint bytes_cmp (a b : bytes) : comparison :=
  match a, b with
  | [], [] => Eq
  | [], _ => Lt
  | _, [] => Gt
  | x :: a, y :: b =>
      match byte.unsigned x ?= byte.unsigned y with
      | Eq => bytes_cmp a b
      | c => c
      end
  end.
Definition bytes_ltb (a b : bytes) : bool :=
  match bytes_cmp a b with Lt => true | _ => false end.

(** ** Weakest preconditions

    [wp c Q R]: the computation does not panic, a value it returns satisfies
    [Q] and an error it returns satisfies [R].  With [R] everywhere true it
    is safety, with [R] everywhere false it is success. *)

Definition wp {E A} (c : outcome E A) (Q : A -> Prop) (R : E -> Prop) : Prop :=
  match c with
  | Ok a => Q a
  | Err e => R e
  | Panic => False
  end.

Definition any_error {E} : E -> Prop := fun _ => True.
Definition no_error {E} : E -> Prop := fun _ => False.

Section WpRules.
Context {E : Type}.
Implicit Types R : E -> Prop.

Lemma wp_ok {A} (a : A) (Q : A -> Prop) R : Q a -> wp (Ok a) Q R.
Proof. done. Qed.

Lemma wp_err {A} (e : E) (Q : A -> Prop) R : R e -> wp (Err e) Q R.
Proof. done. Qed.

Lemma wp_bind {A B} (c : outcome E A) (k : A -> outcome E B) Q R :
  wp c (fun a => wp (k a) Q R) R -> wp (obind c k) Q R.
Proof. by destruct c. Qed.

Lemma wp_mono {A} (c : outcome E A) (Q Q' : A -> Prop) (R R' : E -> Prop) :
  wp c Q R -> (forall a, Q a -> Q' a) -> (forall e, R e -> R' e) -> wp c Q' R'.
Proof. destruct c; simpl; auto. Qed.

Lemma wp_if {A} (b : bool) (c d : outcome E A) Q R :
  (b = true -> wp c Q R) -> (b = false -> wp d Q R) -> wp (if b then c else d) Q R.
Proof. destruct b; auto. Qed.

Lemma wp_if_false {A} (b : bool) (c d : outcome E A) Q R :
  b = false -> wp d Q R -> wp (if b then c else d) Q R.
Proof. by intros ->. Qed.

Lemma wp_if_true {A} (b : bool) (c d : outcome E A) Q R :
  b = true -> wp c Q R -> wp (if b then c else d) Q R.
Proof. by intros ->. Qed.

Lemma wp_ok_or {A} (o : option A) (e : E) (Q : A -> Prop) R :
  (forall a, o = Some a -> Q a) -> (o = None -> R e) -> wp (ok_or o e) Q R.
Proof. destruct o; simpl; auto. Qed.

Lemma wp_checked_mul w a b e (Q : Z -> Prop) R :
  (a * b < 2 ^ w -> Q (a * b)) -> (2 ^ w <= a * b -> R e) -> wp (ok_or (checked_mul w a b) e) Q R.
Proof. intros. unfold checked_mul. destruct (_ <? _) eqn:?; simpl; auto with lia. Qed.

Lemma wp_checked_add w a b e (Q : Z -> Prop) R :
  (a + b < 2 ^ w -> Q (a + b)) -> (2 ^ w <= a + b -> R e) -> wp (ok_or (checked_add w a b) e) Q R.
Proof. intros. unfold checked_add. destruct (_ <? _) eqn:?; simpl; auto with lia. Qed.

Lemma wp_checked_sub a b e (Q : Z -> Prop) R :
  (b <= a -> Q (a - b)) -> (a < b -> R e) -> wp (ok_or (checked_sub a b) e) Q R.
Proof. intros. unfold checked_sub. destruct (_ <=? _) eqn:?; simpl; auto with lia. Qed.

Lemma wp_slice {A} (l : list A) a b (Q : list A -> Prop) R :
  0 <= a <= b -> b <= zlen l -> Q (sub l a b) -> wp (slice l a b) Q R.
Proof.
  intros ?? HQ. unfold slice. destruct (_ && _) eqn:Hb; [done|]. lia.
Qed.

Lemma wp_index (l : bytes) i (Q : Z -> Prop) R :
  0 <= i < zlen l ->
  Q (byte.unsigned (nth (Z.to_nat i) l Byte.x00)) -> wp (index l i) Q R.
Proof. intros ? HQ. unfold index. destruct (_ && _) eqn:Hb; [done|]. lia. Qed.

Lemma wp_put (l : bytes) a b src (Q : bytes -> Prop) R :
  0 <= a <= b -> b <= zlen l -> zlen src = b - a ->
  Q (blit l a src) -> wp (put l a b src) Q R.
Proof. intros ??? HQ. unfold put. destruct (_ && _) eqn:Hb; [done|]. lia. Qed.

Lemma wp_add_w w a b (Q : Z -> Prop) R :
  a + b < 2 ^ w -> Q (a + b) -> wp (add_w w a b) Q R.
Proof. intros ? HQ. unfold add_w. destruct (_ <? _) eqn:Hb; [done|]. lia. Qed.

Lemma wp_sub_w a b (Q : Z -> Prop) R : b <= a -> Q (a - b) -> wp (sub_w a b) Q R.
Proof. intros ? HQ. unfold sub_w. destruct (_ <=? _) eqn:Hb; [done|]. lia. Qed.

Lemma wp_mul_w w a b (Q : Z -> Prop) R :
  a * b < 2 ^ w -> Q (a * b) -> wp (mul_w w a b) Q R.
Proof. intros ? HQ. unfold mul_w. destruct (_ <? _) eqn:Hb; [done|]. lia. Qed.

Lemma Ok_inj {A} (a b : A) : @Ok E A a = Ok b -> a = b.
Proof. congruence. Qed.

(** The two readings of [wp]. *)
Lemma wp_not_panic {A} (c : outcome E A) Q R : wp c Q R -> c <> Panic.
Proof. by destruct c. Qed.

Lemma wp_of_ok {A} (c : outcome E A) (a : A) Q R : wp c Q R -> c = Ok a -> Q a.
Proof. by intros H ->. Qed.

Lemma wp_no_error {A} (c : outcome E A) (a : A) :
  wp c (fun r => r = a) no_error -> c = Ok a.
Proof. destruct c; simpl; by intros H; inversion H. Qed.

Lemma wp_any {A} (c : outcome E A) (Q : A -> Prop) :
  c <> Panic -> (forall a, c = Ok a -> Q a) -> wp c Q any_error.
Proof. destruct c; simpl; auto; done. Qed.

(** A loop rule with an invariant on the accumulator and what remains. *)
Lemma wp_ofold {A B} (f : B -> A -> outcome E B) (I : B -> list A -> Prop) acc l Q R :
  I acc l ->
  (forall acc x l, I acc (x :: l) -> wp (f acc x) (fun acc => I acc l) R) ->
  (forall acc, I acc [] -> Q acc) ->
  wp (ofold f acc l) Q R.
Proof.
  intros HI Hstep Hend. revert acc HI. induction l as [|x l IH]; intros acc HI; simpl.
  - apply wp_ok; auto.
  - apply wp_bind. eapply wp_mono; [apply Hstep, HI|simpl; auto|auto].
Qed.

(** The loop rule with a running index, and the rule for a collecting loop. *)
Lemma wp_ofoldi {A B} (f : B -> Z -> A -> outcome E B) (I : B -> Z -> list A -> Prop) acc i l Q R :
  I acc i l ->
  (forall acc i x l, I acc i (x :: l) -> wp (f acc i x) (fun acc => I acc (i + 1) l) R) ->
  (forall acc i, I acc i [] -> Q acc) ->
  wp (ofoldi f acc i l) Q R.
Proof.
  intros HI Hstep Hend. revert acc i HI. induction l as [|x l IH]; intros acc i HI; simpl.
  - by eapply Hend.
  - apply wp_bind. eapply wp_mono; [apply Hstep, HI|simpl; auto|auto].
Qed.

Lemma wp_collect_all {A} (f : Z -> outcome E A) (P : A -> Prop) i n (Q : list A -> Prop) R :
  (forall j, i <= j < i + Z.of_nat n -> wp (f j) P R) ->
  (forall l, length l = n -> Forall P l -> Q l) ->
  wp (collect f i n) Q R.
Proof.
  revert i Q. induction n as [|n IH]; intros i Q Hf HQ; cbn [collect].
  - by apply wp_ok, HQ.
  - apply wp_bind. eapply wp_mono; [apply Hf; lia| |done]. intros x Hx. cbv beta.
    apply wp_bind, IH; [intros; apply Hf; lia|]. intros l Hl HF. apply wp_ok, HQ; [by cbn; f_equal|].
    by constructor.
Qed.

Lemma collect_step_eq {A} (f : Z -> outcome E A) offset step n :
  collect_step f offset step n = collect (fun k => f (offset + step * k)) 0 n.
Proof.
  enough (forall i, collect_step f (offset + step * i) step n
    = collect (fun k => f (offset + step * k)) i n) as H.
  { rewrite <- H. f_equal. lia. }
  induction n as [|n IH]; intros i; cbn [collect_step collect]; [done|].
  destruct (f (offset + step * i)); cbn [obind]; [|done..].
  by replace (offset + step * i + step) with (offset + step * (i + 1)) by lia; rewrite IH.
Qed.
End WpRules.

(** [ranges]: the fields of a concrete value are in range. *)
Ltac ranges :=
  lazymatch goal with
  | |- Forall _ _ => constructor; ranges
  | |- _ /\ _ => split; ranges
  | |- _ <= _ => by vm_compute
  | |- _ < _ => by vm_compute
  | |- _ = _ => by vm_compute
  | |- _ => progress hnf; ranges
  end.

(** ** Lemmas on buffers *)

Section Buffers.
Context {A : Type}.
Implicit Types l k : list A.

Lemma zlen_nonneg l : 0 <= zlen l.
Proof. unfold zlen. lia. Qed.

Lemma zlen_nil : zlen (@nil A) = 0.
Proof. done. Qed.

Lemma zlen_cons (x : A) l : zlen (x :: l) = 1 + zlen l.
Proof. unfold zlen. simpl length. lia. Qed.

Lemma zlen_app l k : zlen (l ++ k) = zlen l + zlen k.
Proof. unfold zlen. rewrite length_app. lia. Qed.

Lemma zlen_zero_nil l : zlen l = 0 -> l = [].
Proof. destruct l; [done|]. rewrite zlen_cons. pose proof (zlen_nonneg l). lia. Qed.

Lemma zlen_sub l a b : 0 <= a <= b -> b <= zlen l -> zlen (sub l a b) = b - a.
Proof. intros. unfold zlen, sub in *. rewrite length_take, length_drop. lia. Qed.

Lemma zlen_map {B} (f : A -> B) l : zlen (map f l) = zlen l.
Proof. unfold zlen. by rewrite length_map. Qed.

Lemma sub_all l n : n = zlen l -> sub l 0 n = l.
Proof.
  intros ->. unfold sub, zlen. rewrite drop_0. apply take_ge. lia.
Qed.

Lemma sub_empty l a : sub l a a = [].
Proof. unfold sub. by rewrite Z.sub_diag. Qed.

Lemma sub_sub l a b c d :
  0 <= a -> 0 <= c <= d -> d <= b - a -> sub (sub l a b) c d = sub l (a + c) (a + d).
Proof.
  intros. unfold sub. rewrite skipn_firstn_comm, drop_drop, take_take.
  f_equal; [lia|]. f_equal. lia.
Qed.

Lemma sub_split l a b c :
  0 <= a <= b -> b <= c -> sub l a c = sub l a b ++ sub l b c.
Proof.
  intros. unfold sub.
  replace (Z.to_nat (c - a)) with (Z.to_nat (b - a) + Z.to_nat (c - b))%nat by lia.
  rewrite <- take_take_drop, drop_drop. do 2 f_equal. f_equal. lia.
Qed.

Lemma sub_app_l l k a b : 0 <= a -> b <= zlen l -> sub (l ++ k) a b = sub l a b.
Proof.
  intros. unfold sub, zlen in *. destruct (decide (a <= b)).
  - rewrite drop_app_le by lia. apply take_app_le. rewrite length_drop. lia.
  - by replace (Z.to_nat (b - a)) with 0%nat by lia.
Qed.

Lemma sub_app_r l k a b :
  zlen l <= a -> sub (l ++ k) a b = sub k (a - zlen l) (b - zlen l).
Proof.
  intros. unfold sub, zlen in *. rewrite drop_app_ge by lia.
  f_equal; [lia|]. f_equal. lia.
Qed.

Lemma take_sub l (n : Z) : take (Z.to_nat n) l = sub l 0 n.
Proof. unfold sub. rewrite drop_0. f_equal. lia. Qed.

Lemma drop_sub l (n : Z) : 0 <= n -> drop (Z.to_nat n) l = sub l n (zlen l).
Proof.
  intros. unfold sub, zlen. symmetry. apply take_ge. rewrite length_drop. lia.
Qed.

Lemma sub_3 l a b :
  0 <= a <= b -> b <= zlen l -> l = sub l 0 a ++ sub l a b ++ sub l b (zlen l).
Proof.
  intros. rewrite <- sub_split, <- sub_split by lia. symmetry. by apply sub_all.
Qed.

Lemma sub_single l i (d : A) :
  0 <= i < zlen l -> sub l i (i + 1) = [nth (Z.to_nat i) l d].
Proof.
  intros. unfold sub, zlen in *. replace (Z.to_nat (i + 1 - i)) with 1%nat by lia.
  destruct (drop (Z.to_nat i) l) as [|x t] eqn:Hd.
  - apply (f_equal length) in Hd. rewrite length_drop in Hd. simpl in Hd. lia.
  - simpl. f_equal. rewrite <- (take_drop (Z.to_nat i) l), Hd.
    rewrite app_nth2; rewrite length_take; [|lia].
    by replace (Z.to_nat i - Z.to_nat i `min` length l)%nat with 0%nat by lia.
Qed.

Lemma sub_inj l k n :
  zlen l = zlen k -> n = zlen l -> (forall a b, 0 <= a <= b -> b <= n -> sub l a b = sub k a b) ->
  l = k.
Proof.
  intros Hl -> H. rewrite <- (sub_all l (zlen l)), <- (sub_all k (zlen l)) by done.
  apply H; pose proof (zlen_nonneg l); lia.
Qed.
End Buffers.

Lemma fold_left_cons {A B} (f : A -> B -> A) x l a :
  fold_left f (x :: l) a = fold_left f l (f a x).
Proof. done. Qed.

Lemma zlen_zeros n : 0 <= n -> zlen (zeros n) = n.
Proof. intros. unfold zlen, zeros. rewrite length_replicate. lia. Qed.

Lemma zeros_app m n : 0 <= m -> 0 <= n -> zeros m ++ zeros n = zeros (m + n).
Proof.
  intros. unfold zeros. rewrite <- replicate_add. f_equal. lia.
Qed.

Lemma sub_zeros n a b : 0 <= a <= b -> b <= n -> sub (zeros n) a b = zeros (b - a).
Proof.
  intros. unfold sub, zeros. rewrite drop_replicate, take_replicate. f_equal. lia.
Qed.

Lemma zlen_le_split n v : zlen (le_split n v) = Z.of_nat n.
Proof. unfold zlen. by rewrite length_le_split. Qed.

Lemma zlen_le2 v : zlen (le_split 2 v) = 2.
Proof. apply zlen_le_split. Qed.
Lemma zlen_le4 v : zlen (le_split 4 v) = 4.
Proof. apply zlen_le_split. Qed.
Lemma zlen_le8 v : zlen (le_split 8 v) = 8.
Proof. apply zlen_le_split. Qed.

Lemma zlen_one {A} (x : A) : zlen [x] = 1.
Proof. done. Qed.

Create Rewrite HintDb zlen.
#[export] Hint Rewrite @zlen_nil @zlen_one @zlen_cons @zlen_app @zlen_map zlen_le2 zlen_le4 zlen_le8 : zlen.
#[export] Hint Rewrite zlen_zeros using lia : zlen.

Lemma all_zero_spec (l : bytes) : all_zero l = true <-> l = zeros (zlen l).
Proof.
  unfold all_zero, zeros, zlen. rewrite Nat2Z.id. induction l as [|x l IH]; simpl; [done|].
  rewrite andb_true_iff, IH. split.
  - intros [Hx ->]. apply Byte.byte_dec_bl in Hx as ->. rewrite length_replicate. done.
  - intros H. injection H as -> H. split; [done|].
    by rewrite H at 1.
Qed.

Lemma all_zero_zeros n : all_zero (zeros n) = true.
Proof.
  apply all_zero_spec. unfold zeros, zlen. by rewrite length_replicate, Nat2Z.id.
Qed.

Lemma bytes_eqb_eq (a b : bytes) : bytes_eqb a b = true <-> a = b.
Proof. unfold bytes_eqb. apply bool_decide_eq_true. Qed.

Lemma bytes_eqb_refl (a : bytes) : bytes_eqb a a = true.
Proof. by apply bytes_eqb_eq. Qed.

(** *** Reading back what was written *)

Section Blit.
Implicit Types l src s : bytes.

Lemma zlen_blit l off src :
  0 <= off -> off + zlen src <= zlen l -> zlen (blit l off src) = zlen l.
Proof.
  intros. unfold blit. rewrite take_sub, drop_sub by (pose proof (zlen_nonneg src); lia).
  pose proof (zlen_nonneg src). rewrite !zlen_app, !zlen_sub by lia. lia.
Qed.

Lemma sub_blit_hit l off src a b :
  0 <= off -> off + zlen src <= zlen l -> a = off -> b = off + zlen src ->
  sub (blit l off src) a b = src.
Proof.
  intros H1 H2 -> ->. pose proof (zlen_nonneg src). unfold blit. rewrite take_sub.
  rewrite sub_app_r by (rewrite zlen_sub by lia; lia).
  rewrite zlen_sub by lia. rewrite sub_app_l by lia.
  replace (off - (off - 0)) with 0 by lia. apply sub_all. lia.
Qed.

Lemma sub_blit_before l off src a b s :
  0 <= a -> b <= off -> off + zlen src <= zlen l -> sub l a b = s ->
  sub (blit l off src) a b = s.
Proof.
  intros ??? <-. unfold blit. pose proof (zlen_nonneg src).
  destruct (decide (a <= b)).
  - rewrite take_sub, sub_app_l by (rewrite ?zlen_sub by lia; lia).
    rewrite sub_sub by lia. f_equal; lia.
  - unfold sub. by replace (Z.to_nat (b - a)) with 0%nat by lia.
Qed.

Lemma sub_blit_after l off src a b s :
  0 <= off -> off + zlen src <= a -> a <= b -> b <= zlen l -> sub l a b = s ->
  sub (blit l off src) a b = s.
Proof.
  intros ???? <-. unfold blit. pose proof (zlen_nonneg src).
  rewrite take_sub, drop_sub by lia.
  rewrite !sub_app_r by (rewrite ?zlen_sub by lia; lia).
  rewrite zlen_sub by lia. rewrite sub_sub by lia. f_equal; lia.
Qed.

Lemma blit_whole l src : zlen src = zlen l -> blit l 0 src = src.
Proof.
  intros H. unfold blit. rewrite drop_ge; [by rewrite take_0, app_nil_r|].
  unfold zlen in *. lia.
Qed.

(** [upto p k n] is the prefix of length [k] of [p] padded with zeros to
    [n] bytes: the buffer an encoder has produced once it has written the
    fields below offset [k]. *)
Definition upto (p : bytes) (k n : Z) : bytes := sub p 0 k ++ zeros (n - k).

Lemma zlen_upto p k n : 0 <= k <= zlen p -> k <= n -> zlen (upto p k n) = n.
Proof. intros. unfold upto. rewrite zlen_app, zlen_sub, zlen_zeros by lia. lia. Qed.

Lemma upto_0 p n : zeros n = upto p 0 n.
Proof. unfold upto. by rewrite sub_empty, Z.sub_0_r. Qed.

Lemma upto_write p k k' n :
  0 <= k <= k' -> k' <= zlen p -> k' <= n ->
  blit (upto p k n) k (sub p k k') = upto p k' n.
Proof.
  intros. unfold blit, upto. rewrite take_sub, drop_sub; rewrite zlen_sub by lia; [|lia].
  rewrite zlen_app, zlen_sub, zlen_zeros by lia.
  rewrite sub_app_l by (rewrite ?zlen_sub; lia). rewrite sub_sub by lia.
  rewrite sub_app_r by (rewrite zlen_sub; lia). rewrite zlen_sub by lia.
  rewrite sub_zeros by lia. rewrite (sub_split p 0 k k') by lia.
  rewrite <- app_assoc. f_equal. f_equal. f_equal. lia.
Qed.

Lemma upto_skip p k k' n :
  0 <= k <= k' -> k' <= n -> sub p k k' = zeros (k' - k) -> upto p k n = upto p k' n.
Proof.
  intros ?? Hz. unfold upto. rewrite (sub_split p 0 k k'), Hz by lia.
  rewrite <- app_assoc, zeros_app by lia. do 2 f_equal. lia.
Qed.

Lemma upto_full p n : upto p (zlen p) n = p ++ zeros (n - zlen p).
Proof. unfold upto. by rewrite sub_all. Qed.
End Blit.

(** *** Little-endian fields *)

Lemma le_combine_le_split n v :
  0 <= v < 2 ^ (Z.of_nat n * 8) -> le_combine (le_split n v) = v.
Proof. intros. rewrite le_combine_split. by apply Z.mod_small. Qed.

Lemma le_get2 v : 0 <= v < 2 ^ 16 -> le_combine (le_split 2 v) = v.
Proof. apply (le_combine_le_split 2). Qed.
Lemma le_get4 v : 0 <= v < 2 ^ 32 -> le_combine (le_split 4 v) = v.
Proof. apply (le_combine_le_split 4). Qed.
Lemma le_get8 v : 0 <= v < 2 ^ 64 -> le_combine (le_split 8 v) = v.
Proof. apply (le_combine_le_split 8). Qed.

Lemma le_split_le_combine n (s : bytes) :
  zlen s = Z.of_nat n -> le_split n (le_combine s) = s.
Proof. intros. apply split_le_combine'. unfold zlen in *. lia. Qed.

Lemma le_combine_range (s : bytes) : 0 <= le_combine s < 2 ^ (8 * zlen s).
Proof. apply le_combine_bound. Qed.

Lemma byte_high_bits b k : 8 <= k -> Z.testbit (byte.unsigned b) k = false.
Proof.
  intros Hk. pose proof (byte.unsigned_range b) as Hb.
  by apply (proj1 (Z.bounded_iff_bits_nonneg 8 (byte.unsigned b) ltac:(lia) ltac:(lia)) (proj2 Hb)).
Qed.

Lemma le_combine_cons x (s : bytes) : le_combine (x :: s) = byte.unsigned x + le_combine s * 2 ^ 8.
Proof.
  change (le_combine (x :: s)) with (Z.lor (byte.unsigned x) (Z.shiftl (le_combine s) 8)).
  rewrite <- Z.shiftl_mul_pow2, <- Z.add_lor_land by lia.
  enough (Z.land (byte.unsigned x) (Z.shiftl (le_combine s) 8) = 0) by lia.
  apply Z.bits_inj'. intros i Hi. rewrite Z.land_spec, Z.bits_0, Z.shiftl_spec by lia.
  destruct (decide (i < 8)); [by rewrite (Z.testbit_neg_r (le_combine s)), andb_false_r by lia|].
  by rewrite byte_high_bits by lia.
Qed.

Lemma le_combine_zeros n : le_combine (zeros n) = 0.
Proof. unfold zeros. induction (Z.to_nat n) as [|k IH]; [done|]. cbn [replicate]. by rewrite le_combine_cons, IH. Qed.

Lemma byte_of_unsigned b : byte.of_Z (byte.unsigned b) = b.
Proof. apply byte.of_Z_unsigned. Qed.

Lemma byte_unsigned_of v : u8 v -> byte.unsigned (byte.of_Z v) = v.
Proof. intros. rewrite byte.unsigned_of_Z. by apply Z.mod_small. Qed.

Lemma byte_unsigned_u8 b : u8 (byte.unsigned b).
Proof. apply byte.unsigned_range. Qed.

Lemma land_bit b k : 0 <= k -> (Z.land b (Z.shiftl 1 k) =? 0) = negb (Z.testbit b k).
Proof.
  intros Hk. rewrite Z.shiftl_1_l. destruct (Z.testbit b k) eqn:Hb; simpl.
  - apply Z.eqb_neq. intros H. apply (f_equal (fun z => Z.testbit z k)) in H.
    by rewrite Z.land_spec, Hb, Z.pow2_bits_true, Z.bits_0 in H by done.
  - apply Z.eqb_eq, Z.bits_inj'. intros i Hi. rewrite Z.land_spec, Z.bits_0.
    destruct (decide (i = k)) as [->|Hne]; [by rewrite Hb|].
    by rewrite Z.pow2_bits_false, andb_false_r by done.
Qed.

Lemma as_u32_small v : 0 <= v < 2 ^ 32 -> as_u32 v = v.
Proof. apply Z.mod_small. Qed.

Lemma as_u16_small v : 0 <= v < 2 ^ 16 -> as_u16 v = v.
Proof. apply Z.mod_small. Qed.

(** *** The lexicographic order *)

Lemma bytes_cmp_eq a b : bytes_cmp a b = Eq <-> a = b.
Proof.
  revert b. induction a as [|x a IH]; intros [|y b]; simpl; [done..|].
  destruct (_ ?= _) eqn:Hc.
  - apply Z.compare_eq_iff in Hc. apply byte.unsigned_inj in Hc as ->. rewrite IH.
    split; [by intros ->|by intros [=]].
  - split; [done|]. intros [= -> _]. by rewrite Z.compare_refl in Hc.
  - split; [done|]. intros [= -> _]. by rewrite Z.compare_refl in Hc.
Qed.

Lemma bytes_cmp_antisym a b : bytes_cmp b a = CompOpp (bytes_cmp a b).
Proof.
  revert b. induction a as [|x a IH]; intros [|y b]; simpl; [done..|].
  rewrite Z.compare_antisym. destruct (_ ?= _); simpl; [apply IH|done..].
Qed.

Lemma bytes_ltb_trans a b c : bytes_ltb a b = true -> bytes_ltb b c = true -> bytes_ltb a c = true.
Proof.
  unfold bytes_ltb. revert b c. induction a as [|x a IH]; intros [|y b] [|z c]; simpl; try done.
  specialize (IH b c).
  destruct (byte.unsigned x ?= byte.unsigned y) eqn:H1;
  destruct (byte.unsigned y ?= byte.unsigned z) eqn:H2; try done;
  destruct (byte.unsigned x ?= byte.unsigned z) eqn:H3; try done;
  rewrite ?Z.compare_eq_iff, ?Z.compare_lt_iff, ?Z.compare_gt_iff in *; lia.
Qed.

Lemma bytes_ltb_irrefl a : bytes_ltb a a = false.
Proof. unfold bytes_ltb. by rewrite (proj2 (bytes_cmp_eq a a) eq_refl). Qed.

(** ** Division *)

Lemma div_ceil_bounds a b : 0 < b -> 0 <= a -> a <= div_ceil a b * b < a + b.
Proof.
  intros. unfold div_ceil. pose proof (Z.div_mod (a + b - 1) b ltac:(lia)).
  pose proof (Z.mod_pos_bound (a + b - 1) b ltac:(lia)). nia.
Qed.

Lemma div_ceil_pos a b : 0 < b -> 0 < a -> 0 < div_ceil a b.
Proof. intros. pose proof (div_ceil_bounds a b). nia. Qed.

(** ** Lists *)

Lemma Forall2_fun {X Y} (R : X -> Y -> Prop) (HR : forall x y y', R x y -> R x y' -> y = y') l k k' : Forall2 R l k -> Forall2 R l k' -> k = k'.
Proof.
  intros H. revert k'. induction H as [|x y l k Hxy _ IH]; intros k' H'; [by apply Forall2_nil_inv_l in H'|].
  apply Forall2_cons_inv_l in H' as (y' & k1 & Hy & Hk & ->). f_equal; eauto.
Qed.
