(* ===== verification/Crc32c.v ===== *)
(** * CRC32C (crates/afsplus-format/src/crc32c.rs)

    The table builders, the slicing-by-8 update and the streaming [Hasher]
    of the source, the bit-serial CRC they implement, and the detection
    property the block header relies on. *)

From S2P Require Import Prelude.

(** ** The code *)

Definition CHECKSUM_CRC32C : Z := 1.
Definition POLY_REFLECTED : Z := 0x82F63B78.

(** One iteration of the inner loop of [build_table]. *)
Definition table_bit (crc : Z) : Z :=
  if negb (Z.land crc 1 =? 0) then Z.lxor (Z.shiftr crc 1) POLY_REFLECTED
  else Z.shiftr crc 1.

Definition build_table : list Z :=
  map (fun i => Nat.iter 8 table_bit i) (seqZ 0 256).

Definition TABLE : list Z := build_table.

(** [table[i as usize]]; every index the code uses is below 256. *)
Definition tget (table : list Z) (i : Z) : Z := nth (Z.to_nat i) table 0.

(** The body of the outer loop of [build_tables]: [tables[k]] from [tables[k - 1]]. *)
Definition next_table (previous : list Z) : list Z :=
  map (fun p => Z.lxor (Z.shiftr p 8) (tget TABLE (Z.land p 0xFF))) previous.

Fixpoint build_tables_from (n : nat) (table : list Z) : list (list Z) :=
  match n with
  | O => []
  | S n => table :: build_tables_from n (next_table table)
  end.

Definition build_tables : list (list Z) := build_tables_from 8 TABLE.
Definition TABLES : list (list Z) := build_tables.

Definition tables_at (k : nat) (i : Z) : Z := tget (nth k TABLES []) i.

(** [data.as_chunks::<8>()]: the full chunks, and the rest. *)
Fixpoint as_chunks_n (n : nat) (data : bytes) : list bytes * bytes :=
  match n with
  | O => ([], data)
  | S n => let '(chunks, rest) := as_chunks_n n (drop 8 data) in (take 8 data :: chunks, rest)
  end.
Definition as_chunks (data : bytes) : list bytes * bytes :=
  as_chunks_n (length data / 8) data.

(** Eight bytes through eight tables. *)
Definition update_chunk (crc : Z) (chunk : bytes) : Z :=
  let c i := nth i chunk Byte.x00 in
  let low := Z.lxor (le_combine [c 0%nat; c 1%nat; c 2%nat; c 3%nat]) crc in
  let high := le_combine [c 4%nat; c 5%nat; c 6%nat; c 7%nat] in
  Z.lxor (Z.lxor (Z.lxor (Z.lxor (Z.lxor (Z.lxor (Z.lxor
    (tables_at 7 (Z.land low 0xFF))
    (tables_at 6 (Z.land (Z.shiftr low 8) 0xFF)))
    (tables_at 5 (Z.land (Z.shiftr low 16) 0xFF)))
    (tables_at 4 (Z.shiftr low 24)))
    (tables_at 3 (Z.land high 0xFF)))
    (tables_at 2 (Z.land (Z.shiftr high 8) 0xFF)))
    (tables_at 1 (Z.land (Z.shiftr high 16) 0xFF)))
    (tables_at 0 (Z.shiftr high 24)).

(** One byte through one table. *)
Definition update_byte (crc : Z) (b : Byte.byte) : Z :=
  Z.lxor (Z.shiftr crc 8) (tget TABLE (Z.land (Z.lxor crc (byte.unsigned b)) 0xFF)).

(** The chunks, then the remaining bytes one by one. *)
Definition update_tables (state : Z) (data : bytes) : Z :=
  let '(chunks, rest) := as_chunks data in
  fold_left update_byte rest (fold_left update_chunk chunks state).

Definition u32_not (v : Z) : Z := Z.lxor v 0xFFFFFFFF.

Record Hasher := { state : Z }.
Definition Hasher_new : Hasher := {| state := u32_not 0 |}.
Definition Hasher_update (h : Hasher) (data : bytes) : Hasher :=
  {| state := update_tables (state h) data |}.
Definition Hasher_finalize (h : Hasher) : Z := u32_not (state h).

Definition crc32c (data : bytes) : Z :=
  Hasher_finalize (Hasher_update Hasher_new data).

(** ** The reference: the bit-serial register *)

(** The reflected shift register fed one byte: eight polynomial steps. *)
Definition serial_byte (crc : Z) (b : Byte.byte) : Z :=
  Nat.iter 8 table_bit (Z.lxor crc (byte.unsigned b)).

Definition serial_crc (data : bytes) : Z :=
  u32_not (fold_left serial_byte data (u32_not 0)).

(** ** Linearity of the register *)

Lemma table_bit_alt c :
  table_bit c = Z.lxor (Z.shiftr c 1) (if Z.odd c then POLY_REFLECTED else 0).
Proof.
  unfold table_bit. replace (Z.land c 1) with (Z.b2z (Z.odd c)).
  - destruct (Z.odd c); simpl; [done|]. by rewrite Z.lxor_0_r.
  - change 1 with (Z.ones 1). rewrite Z.land_ones by lia.
    change (2 ^ 1) with 2. by rewrite Zmod_odd; destruct (Z.odd c).
Qed.

Lemma odd_lxor a b : Z.odd (Z.lxor a b) = xorb (Z.odd a) (Z.odd b).
Proof. by rewrite <- !Z.bit0_odd, Z.lxor_spec. Qed.

Lemma lxor_exchange a b c d :
  Z.lxor (Z.lxor a b) (Z.lxor c d) = Z.lxor (Z.lxor a c) (Z.lxor b d).
Proof.
  rewrite !Z.lxor_assoc. f_equal. rewrite <- !Z.lxor_assoc.
  f_equal. apply Z.lxor_comm.
Qed.

Lemma table_bit_lxor a b : table_bit (Z.lxor a b) = Z.lxor (table_bit a) (table_bit b).
Proof.
  rewrite !table_bit_alt, odd_lxor, Z.shiftr_lxor, lxor_exchange. f_equal.
  by destruct (Z.odd a), (Z.odd b); rewrite ?Z.lxor_0_l, ?Z.lxor_0_r, ?Z.lxor_nilpotent.
Qed.

Abbreviation bits n := (Nat.iter n table_bit).

Lemma bits_lxor n a b : bits n (Z.lxor a b) = Z.lxor (bits n a) (bits n b).
Proof. induction n as [|n IH]; simpl; [done|]. by rewrite IH, table_bit_lxor. Qed.

Lemma bits_add n m a : bits (n + m) a = bits n (bits m a).
Proof. apply Nat.iter_add. Qed.

Lemma table_bit_double x : table_bit (2 * x) = x.
Proof.
  rewrite table_bit_alt, Z.odd_mul. change (Z.odd 2) with false. simpl andb. cbv iota.
  rewrite Z.lxor_0_r, Z.shiftr_div_pow2 by lia. change (2 ^ 1) with 2.
  rewrite Z.mul_comm. by apply Z.div_mul.
Qed.

(** Zero bits only shift: the register undoes a left shift. *)
Lemma bits_shiftl n x : bits n (Z.shiftl x (Z.of_nat n)) = x.
Proof.
  revert x. induction n as [|n IH]; intros x.
  - by rewrite Z.shiftl_0_r.
  - replace (S n) with (n + 1)%nat by lia. rewrite bits_add.
    replace (Z.shiftl x (Z.of_nat (n + 1))) with (2 * Z.shiftl x (Z.of_nat n)).
    { simpl (bits 1 _). by rewrite table_bit_double. }
    rewrite !Z.shiftl_mul_pow2 by lia. rewrite Nat2Z.inj_add, Z.pow_add_r by lia. lia.
Qed.

Lemma split_low8 c : c = Z.lxor (Z.shiftl (Z.shiftr c 8) 8) (Z.land c 0xFF).
Proof.
  apply Z.bits_inj'. intros i Hi. rewrite Z.lxor_spec, Z.land_spec.
  change 0xFF with (Z.ones 8). destruct (decide (i < 8)).
  - rewrite Z.shiftl_spec_low, Z.ones_spec_low by lia. by rewrite andb_true_r.
  - rewrite Z.shiftl_spec, Z.shiftr_spec, Z.ones_spec_high by lia.
    rewrite andb_false_r, xorb_false_r. f_equal. lia.
Qed.

(** Eight steps are one table lookup. *)
Lemma bits_8 c : bits 8 c = Z.lxor (Z.shiftr c 8) (bits 8 (Z.land c 0xFF)).
Proof.
  rewrite (split_low8 c) at 1. rewrite bits_lxor. f_equal.
  apply (bits_shiftl 8).
Qed.

Lemma tget_map f i : 0 <= i < 256 -> tget (map f (seqZ 0 256)) i = f i.
Proof.
  intros. unfold tget. rewrite nth_lookup, list_lookup_fmap, lookup_seqZ_lt by lia.
  simpl. f_equal. lia.
Qed.

Lemma land_255_range c : 0 <= Z.land c 0xFF < 256.
Proof. change 0xFF with (Z.ones 8). rewrite Z.land_ones by lia. apply Z.mod_pos_bound. lia. Qed.

Lemma TABLE_spec i : 0 <= i < 256 -> tget TABLE i = bits 8 i.
Proof. apply tget_map. Qed.

Lemma shiftr8_byte b : Z.shiftr (byte.unsigned b) 8 = 0.
Proof.
  rewrite Z.shiftr_div_pow2 by lia. apply Z.div_small, byte_unsigned_u8.
Qed.

Lemma update_byte_serial c b : update_byte c b = serial_byte c b.
Proof.
  unfold update_byte, serial_byte. rewrite bits_8, TABLE_spec by apply land_255_range.
  by rewrite Z.shiftr_lxor, shiftr8_byte, Z.lxor_0_r.
Qed.

Lemma next_table_map f :
  next_table (map f (seqZ 0 256)) = map (fun i => bits 8 (f i)) (seqZ 0 256).
Proof.
  unfold next_table. rewrite map_map. apply map_ext. intros i.
  rewrite (bits_8 (f i)), TABLE_spec by apply land_255_range. done.
Qed.

Lemma TABLES_spec k i : (k < 8)%nat -> 0 <= i < 256 -> tables_at k i = bits (8 * (k + 1)) i.
Proof.
  intros Hk Hi. unfold tables_at, TABLES, build_tables.
  assert (forall n m, (n < m)%nat -> forall j,
    nth n (build_tables_from m (map (fun i => bits (8 * j) i) (seqZ 0 256))) []
    = map (fun i => bits (8 * (n + j)) i) (seqZ 0 256)) as Hgen.
  { induction n as [|n IH]; intros [|m] Hnm j; try lia; [done|].
    cbn [build_tables_from nth]. rewrite next_table_map.
    transitivity (map (fun i => bits (8 * (n + S j)) i) (seqZ 0 256)).
    - rewrite <- (IH m) by lia. do 2 f_equal. apply map_ext. intros x.
      rewrite <- bits_add. f_equal. lia.
    - apply map_ext. intros x. f_equal. lia. }
  change TABLE with (map (fun i => bits (8 * 1) i) (seqZ 0 256)).
  rewrite Hgen by lia. by rewrite tget_map.
Qed.

(** ** A run of bytes is one long shift

    Feeding [d] to the register equals xoring the little-endian value of [d]
    into it and stepping [8 * length d] times. *)

Lemma le_combine_cons_lxor (b : Byte.byte) d :
  le_combine (b :: d) = Z.lxor (byte.unsigned b) (Z.shiftl (le_combine d) 8).
Proof.
  change (le_combine (b :: d)) with (Z.lor (byte.unsigned b) (Z.shiftl (le_combine d) 8)).
  apply Z.bits_inj'. intros i Hi. rewrite Z.lor_spec, Z.lxor_spec.
  destruct (decide (i < 8)).
  - rewrite Z.shiftl_spec_low by lia. by rewrite orb_false_r, xorb_false_r.
  - replace (Z.testbit (byte.unsigned b) i) with false; [done|].
    symmetry. pose proof (byte_unsigned_u8 b) as Hb. unfold u8 in Hb.
    rewrite Z.testbit_false by lia. rewrite Z.div_small; [done|].
    split; [lia|]. apply Z.lt_le_trans with (2 ^ 8); [lia|].
    apply Z.pow_le_mono_r; lia.
Qed.

Lemma serial_run d c :
  fold_left serial_byte d c = bits (8 * length d) (Z.lxor c (le_combine d)).
Proof.
  revert c. induction d as [|b d IH]; intros c.
  - cbn. by rewrite Z.lxor_0_r.
  - rewrite fold_left_cons, IH, le_combine_cons_lxor, <- Z.lxor_assoc.
    replace (8 * length (b :: d))%nat with (8 * length d + 8)%nat by (simpl length; lia).
    rewrite bits_add. f_equal. rewrite (bits_lxor 8). unfold serial_byte.
    f_equal. symmetry. apply (bits_shiftl 8).
Qed.

(** ** The register stays in 32 bits *)

Lemma lxor_range n a b :
  0 <= n -> 0 <= a < 2 ^ n -> 0 <= b < 2 ^ n -> 0 <= Z.lxor a b < 2 ^ n.
Proof.
  intros Hn Ha Hb. assert (0 <= Z.lxor a b) as H0 by (apply Z.lxor_nonneg; lia).
  split; [done|]. rewrite <- (Z.mod_small a (2 ^ n)), <- (Z.mod_small b (2 ^ n)) by done.
  rewrite <- !Z.land_ones by done.
  replace (Z.lxor _ _) with (Z.land (Z.lxor a b) (Z.ones n)).
  - rewrite Z.land_ones by done. apply Z.mod_pos_bound. by apply Z.pow_pos_nonneg.
  - apply Z.bits_inj'. intros i _. rewrite Z.land_spec, !Z.lxor_spec, !Z.land_spec.
    by destruct (Z.testbit a i), (Z.testbit b i), (Z.testbit (Z.ones n) i).
Qed.

Lemma lxor_u32 a b : u32 a -> u32 b -> u32 (Z.lxor a b).
Proof. apply lxor_range. lia. Qed.

Lemma POLY_u32 : u32 POLY_REFLECTED.
Proof. by vm_compute. Qed.

Lemma table_bit_u32 c : u32 c -> u32 (table_bit c).
Proof.
  intros Hc. rewrite table_bit_alt. apply lxor_u32.
  - unfold u32 in *. rewrite Z.shiftr_div_pow2 by lia. change (2 ^ 1) with 2.
    split; [apply Z.div_pos; lia|]. apply Z.div_lt_upper_bound; lia.
  - destruct (Z.odd c); [apply POLY_u32|done].
Qed.

Lemma bits_u32 n c : u32 c -> u32 (bits n c).
Proof. intros. induction n; simpl; auto using table_bit_u32. Qed.

Lemma byte_u32 b : u32 (byte.unsigned b).
Proof. pose proof (byte_unsigned_u8 b). unfold u8, u32 in *. lia. Qed.

Lemma serial_u32 d c : u32 c -> u32 (fold_left serial_byte d c).
Proof.
  revert c. induction d as [|b d IH]; intros c Hc; [done|].
  rewrite fold_left_cons. apply IH, bits_u32, lxor_u32; [done|apply byte_u32].
Qed.

Lemma le4_u32 (d : bytes) : (length d <= 4)%nat -> u32 (le_combine d).
Proof.
  intros. pose proof (le_combine_range d) as Hd. unfold u32, zlen in *.
  split; [lia|]. eapply Z.lt_le_trans; [apply Hd|]. apply Z.pow_le_mono_r; lia.
Qed.

(** ** The table forms compute the bit-serial CRC *)

Lemma bits_low_byte m x :
  bits (8 * S m) x = Z.lxor (bits (8 * S m) (Z.land x 0xFF)) (bits (8 * m) (Z.shiftr x 8)).
Proof.
  replace (8 * S m)%nat with (8 * m + 8)%nat by lia. rewrite !bits_add.
  rewrite (bits_8 x), bits_lxor. apply Z.lxor_comm.
Qed.

Lemma slice_word n x :
  u32 x -> (n + 3 < 8)%nat ->
  Z.lxor (Z.lxor (Z.lxor
    (tables_at (n + 3) (Z.land x 0xFF))
    (tables_at (n + 2) (Z.land (Z.shiftr x 8) 0xFF)))
    (tables_at (n + 1) (Z.land (Z.shiftr x 16) 0xFF)))
    (tables_at n (Z.shiftr x 24)) = bits (8 * (n + 4)) x.
Proof.
  intros Hx Hn. assert (0 <= Z.shiftr x 24 < 256) as Htop.
  { unfold u32 in Hx. rewrite Z.shiftr_div_pow2 by lia.
    split; [apply Z.div_pos; lia|]. apply Z.div_lt_upper_bound; lia. }
  rewrite !TABLES_spec by (lia || apply land_255_range).
  replace (8 * (n + 4))%nat with (8 * S (n + 3))%nat by lia. rewrite bits_low_byte.
  replace (8 * (n + 3))%nat with (8 * S (n + 2))%nat by lia. rewrite (bits_low_byte (n + 2)).
  replace (8 * (n + 2))%nat with (8 * S (n + 1))%nat by lia. rewrite (bits_low_byte (n + 1)).
  rewrite !Z.shiftr_shiftr by lia. simpl (8 + 8). simpl (8 + 8 + 8).
  rewrite !Z.lxor_assoc. repeat (f_equal; [f_equal; lia|]). f_equal; f_equal; lia.
Qed.

Lemma update_chunk_serial c (chunk : bytes) :
  u32 c -> length chunk = 8%nat -> update_chunk c chunk = fold_left serial_byte chunk c.
Proof.
  intros Hc Hlen. do 8 (destruct chunk as [|?c chunk]; [done|]).
  destruct chunk; [|done]. unfold update_chunk. cbn [nth].
  change [c0; c1; c2; c3; c4; c5; c6; c7] with ([c0; c1; c2; c3] ++ [c4; c5; c6; c7]).
  rewrite fold_left_app, !serial_run. cbn [length]. rewrite bits_lxor, <- bits_add.
  rewrite (Z.lxor_comm (le_combine _) c).
  pose proof (slice_word 4 (Z.lxor c (le_combine [c0; c1; c2; c3]))) as Hlow.
  pose proof (slice_word 0 (le_combine [c4; c5; c6; c7])) as Hhigh.
  cbn [Nat.add Nat.mul] in *. rewrite <- Hlow, <- Hhigh.
  - rewrite !Z.lxor_assoc. done.
  - apply le4_u32. simpl. lia.
  - lia.
  - apply lxor_u32; [done|]. apply le4_u32. simpl. lia.
  - lia.
Qed.

Lemma update_rest_serial (d : bytes) c : fold_left update_byte d c = fold_left serial_byte d c.
Proof.
  revert c. induction d as [|b d IHd]; intros c; [done|].
  rewrite !fold_left_cons, update_byte_serial. apply IHd.
Qed.

Lemma as_chunks_n_spec n (data : bytes) chunks rest :
  as_chunks_n n data = (chunks, rest) -> (8 * n <= length data)%nat ->
  data = concat chunks ++ rest /\ Forall (fun ch => length ch = 8%nat) chunks.
Proof.
  revert data chunks rest. induction n as [|n IH]; intros data chunks rest H Hn;
    cbn [as_chunks_n] in H; [by simplify_eq|].
  destruct (as_chunks_n n (drop 8 data)) as [cs r] eqn:Hr. simplify_eq.
  apply IH in Hr as [Hd Hcs]; [|rewrite length_drop; lia]. split.
  - cbn [concat]. rewrite <- app_assoc, <- Hd. symmetry. apply take_drop.
  - constructor; [|done]. rewrite length_take. lia.
Qed.

Lemma update_chunks_serial (chunks : list bytes) c :
  u32 c -> Forall (fun ch => length ch = 8%nat) chunks ->
  fold_left update_chunk chunks c = fold_left serial_byte (concat chunks) c.
Proof.
  intros Hc Hf. revert c Hc. induction Hf as [|ch chunks Hch Hf IH]; intros c Hc; [done|].
  rewrite fold_left_cons, concat_cons, fold_left_app, update_chunk_serial by done.
  by apply IH, serial_u32.
Qed.

Lemma update_tables_serial data c :
  u32 c -> update_tables c data = fold_left serial_byte data c.
Proof.
  intros Hc. unfold update_tables, as_chunks.
  destruct (as_chunks_n _ data) as [chunks rest] eqn:Hd.
  apply as_chunks_n_spec in Hd as [-> Hf]; [|by apply Nat.Div0.mul_div_le].
  by rewrite update_rest_serial, update_chunks_serial, fold_left_app.
Qed.

(** ** Injectivity of the register, and what the checksum detects *)

Lemma table_bit_inj a b : u32 a -> u32 b -> table_bit a = table_bit b -> a = b.
Proof.
  intros Ha Hb. rewrite !table_bit_alt. intros Heq.
  assert (forall c, u32 c ->
    Z.testbit (Z.lxor (Z.shiftr c 1) (if Z.odd c then POLY_REFLECTED else 0)) 31
    = Z.odd c) as Htop.
  { intros c Hc. rewrite Z.lxor_spec, Z.shiftr_spec by lia.
    replace (Z.testbit c (31 + 1)) with false; [by destruct (Z.odd c)|].
    symmetry. rewrite Z.testbit_false by lia. unfold u32 in Hc.
    rewrite Z.div_small; [done|]. simpl (31 + 1). lia. }
  assert (Z.odd a = Z.odd b) as Hodd by (by rewrite <- (Htop a), <- (Htop b), Heq).
  rewrite Hodd in Heq. apply (f_equal (fun z => Z.lxor z (if Z.odd b then POLY_REFLECTED else 0))) in Heq.
  rewrite !Z.lxor_assoc, !Z.lxor_nilpotent, !Z.lxor_0_r in Heq.
  rewrite <- !Z.div2_spec in Heq.
  rewrite (Z.div2_odd a), (Z.div2_odd b), Heq, Hodd. done.
Qed.

Lemma bits_inj n a b : u32 a -> u32 b -> bits n a = bits n b -> a = b.
Proof.
  intros Ha Hb. induction n as [|n IH]; simpl; [done|].
  intros H. apply IH. apply table_bit_inj in H; auto using bits_u32.
Qed.

Lemma lxor_cancel_l a b c : Z.lxor a b = Z.lxor a c -> b = c.
Proof.
  intros H. apply (f_equal (Z.lxor a)) in H.
  by rewrite <- !Z.lxor_assoc, Z.lxor_nilpotent, !Z.lxor_0_l in H.
Qed.

Lemma serial_state_inj d a b :
  u32 a -> u32 b -> fold_left serial_byte d a = fold_left serial_byte d b -> a = b.
Proof.
  revert a b. induction d as [|x d IH]; intros a b Ha Hb; [done|].
  rewrite !fold_left_cons. intros H.
  apply IH in H; [|apply bits_u32, lxor_u32; auto using byte_u32..].
  apply bits_inj in H; [|apply lxor_u32; auto using byte_u32..].
  rewrite !(Z.lxor_comm _ (byte.unsigned x)) in H. by apply lxor_cancel_l in H.
Qed.

Lemma serial_burst_inj c (d e : bytes) :
  u32 c -> length d = length e -> (length d <= 4)%nat ->
  fold_left serial_byte d c = fold_left serial_byte e c -> d = e.
Proof.
  intros Hc Hlen H4. rewrite !serial_run, <- Hlen. intros H.
  apply bits_inj in H; [|apply lxor_u32; [done|apply le4_u32; lia]..].
  apply lxor_cancel_l in H. by apply le_combine_inj.
Qed.

Lemma u32_not_inj a b : u32_not a = u32_not b -> a = b.
Proof. unfold u32_not. rewrite !(Z.lxor_comm _ 0xFFFFFFFF). apply lxor_cancel_l. Qed.

Lemma crc_init_u32 : u32 (u32_not 0).
Proof. by vm_compute. Qed.

Lemma crc32c_serial_fold data : crc32c data = u32_not (fold_left serial_byte data (u32_not 0)).
Proof.
  unfold crc32c, Hasher_finalize, Hasher_update. cbn [state Hasher_new].
  by rewrite update_tables_serial by apply crc_init_u32.
Qed.

Lemma crc32c_u32 data : u32 (crc32c data).
Proof.
  rewrite crc32c_serial_fold. apply lxor_u32; [|by vm_compute].
  apply serial_u32, crc_init_u32.
Qed.

Lemma Hasher_update_app h a b :
  u32 (state h) -> Hasher_update (Hasher_update h a) b = Hasher_update h (a ++ b).
Proof.
  intros Hh. unfold Hasher_update. cbn [state]. f_equal.
  rewrite !(update_tables_serial _ (state h)) by done.
  rewrite fold_left_app. apply update_tables_serial. by apply serial_u32.
Qed.

Lemma crc32c_burst_inj (pre d e post : bytes) :
  length d = length e -> (length d <= 4)%nat ->
  crc32c (pre ++ d ++ post) = crc32c (pre ++ e ++ post) -> d = e.
Proof.
  intros Hlen H4. rewrite !crc32c_serial_fold. intros H. apply u32_not_inj in H.
  rewrite !fold_left_app in H.
  apply serial_state_inj in H; [|repeat apply serial_u32; apply crc_init_u32..].
  apply serial_burst_inj in H; [done|apply serial_u32, crc_init_u32|done..].
Qed.

(** C30: the slicing-by-eight, table-driven checksum of the source is the
    bit-serial CRC32C, for every input. *)
Theorem crc32c_is_serial_crc (data : bytes) : crc32c data = serial_crc data.
Proof. apply crc32c_serial_fold. Qed.

(** two inputs that differ only inside four consecutive bytes never
    have the same checksum: every error burst of up to 32 bits inside four
    bytes is detected, wherever it lies and whatever surrounds it. *)
Theorem crc32c_detects_burst (pre d e post : bytes) :
  length d = length e -> (length d <= 4)%nat -> d <> e ->
  crc32c (pre ++ d ++ post) <> crc32c (pre ++ e ++ post).
Proof. intros Hlen H4 Hne H. by apply Hne, (crc32c_burst_inj pre d e post). Qed.

Lemma crc32c_detects_burst_witness :
  crc32c ([Byte.x41] ++ [Byte.x00; Byte.x01] ++ [Byte.x42])
  <> crc32c ([Byte.x41] ++ [Byte.x80; Byte.x01] ++ [Byte.x42]).
Proof. apply crc32c_detects_burst; [reflexivity|simpl; lia|discriminate]. Defined.

Example crc32c_check_vector :
  crc32c (map byte.of_Z [49; 50; 51; 52; 53; 54; 55; 56; 57]) = 0xE3069283.
Proof. vm_compute. reflexivity. Qed.

Example crc32c_zeros_vector : crc32c (zeros 32) = 0x8A9136AA.
Proof. vm_compute. reflexivity. Qed.
