(* ===== verification/Format.v ===== *)
(** * Shared definitions of the format crate (crates/afsplus-format/src/lib.rs, le.rs)

    The decoding error type, the little-endian accessors, UTF-8 admission as
    [core::str::from_utf8] performs it, [Timespec] and the name rule. *)

From S2P Require Import Prelude.

Definition FORMAT_EPOCH : Z := 1.
Definition DEFAULT_BLOCK_SHIFT : Z := 12.
Definition DEFAULT_BLOCK_SIZE : Z := 4096.
Definition FS_MAGIC : Z := 0x3153554C50534641.
Definition OBJECT_INVALID : Z := 0.
Definition OBJECT_ROOT : Z := 1.
Definition OBJECT_ORPHAN_DIRECTORY : Z := 2.
Definition OBJECT_FIRST_DYNAMIC : Z := 16.
Definition NAME_MAX_UTF8_BYTES : Z := 255.

Inductive FormatError : Type :=
| WrongBufferSize (expected actual : Z)
| WrongBlockType (expected actual : Z)
| UnsupportedHeaderVersion (version : Z)
| ChecksumMismatch (stored computed : Z)
| PayloadTooLarge (payload_len max : Z)
| Invalid (what : string)
| InvalidUtf8
| Overflow (what : string).

Abbreviation result := (outcome FormatError).

#[global] Instance FormatError_eq_dec : EqDecision FormatError.
Proof. solve_decision. Defined.

(** ** le.rs *)

Definition get_le (n : nat) (buf : bytes) : result Z :=
  if zlen buf =? Z.of_nat n then Ok (le_combine buf) else Panic.
Definition get_u16 : bytes -> result Z := get_le 2.
Definition get_u32 : bytes -> result Z := get_le 4.
Definition get_u64 : bytes -> result Z := get_le 8.

(** Two's complement: [i64::from_le_bytes]. *)
Definition to_signed (v : Z) : Z := if v <? 2 ^ 63 then v else v - 2 ^ 64.
Definition get_i64 (buf : bytes) : result Z :=
  let* v := get_u64 buf in Ok (to_signed v).

(** [le::get_u16(&p[a..b])] and the like. *)
Definition get_u16_at (p : bytes) (a b : Z) : result Z := let* s := slice p a b in get_u16 s.
Definition get_u32_at (p : bytes) (a b : Z) : result Z := let* s := slice p a b in get_u32 s.
Definition get_u64_at (p : bytes) (a b : Z) : result Z := let* s := slice p a b in get_u64 s.

(** [le::put_u16(&mut p[a..b], v)] and the like. *)
Definition put_u16 (p : bytes) (a b v : Z) : result bytes := put p a b (le_split 2 v).
Definition put_u32 (p : bytes) (a b v : Z) : result bytes := put p a b (le_split 4 v).
Definition put_u64 (p : bytes) (a b v : Z) : result bytes := put p a b (le_split 8 v).
Definition put_i64 (p : bytes) (a b v : Z) : result bytes := put p a b (le_split 8 v).

(** ** [core::str::from_utf8]

    The well-formed byte sequences of the Unicode standard, as an automaton:
    [Utf8Cont n lo hi] still needs [n] continuation bytes, the next of them
    in [lo, hi]. *)

Inductive utf8_state : Type :=
| Utf8Start
| Utf8Cont (n : nat) (lo hi : Z)
| Utf8Bad.

Definition utf8_lead (b : Z) : utf8_state :=
  if b <=? 0x7F then Utf8Start
  else if b <=? 0xC1 then Utf8Bad
  else if b <=? 0xDF then Utf8Cont 1 0x80 0xBF
  else if b <=? 0xE0 then Utf8Cont 2 0xA0 0xBF
  else if b <=? 0xEC then Utf8Cont 2 0x80 0xBF
  else if b <=? 0xED then Utf8Cont 2 0x80 0x9F
  else if b <=? 0xEF then Utf8Cont 2 0x80 0xBF
  else if b <=? 0xF0 then Utf8Cont 3 0x90 0xBF
  else if b <=? 0xF3 then Utf8Cont 3 0x80 0xBF
  else if b <=? 0xF4 then Utf8Cont 3 0x80 0x8F
  else Utf8Bad.

Definition utf8_step (st : utf8_state) (b : Byte.byte) : utf8_state :=
  let v := byte.unsigned b in
  match st with
  | Utf8Start => utf8_lead v
  | Utf8Cont n lo hi =>
      if (lo <=? v) && (v <=? hi) then
        match n with
        | O | S O => Utf8Start
        | S n => Utf8Cont n 0x80 0xBF
        end
      else Utf8Bad
  | Utf8Bad => Utf8Bad
  end.

Definition utf8_valid (s : bytes) : bool :=
  match fold_left utf8_step s Utf8Start with
  | Utf8Start => true
  | _ => false
  end.

(** [core::str::from_utf8(s).map_err(|_| FormatError::InvalidUtf8)]: a [&str]
    is modelled by its bytes. *)
Definition from_utf8 (s : bytes) : result bytes :=
  if utf8_valid s then Ok s else Err InvalidUtf8.

Definition contains_byte (v : Z) (s : bytes) : bool :=
  existsb (fun b => byte.unsigned b =? v) s.

(** ** [Timespec] *)

Record Timespec := { seconds : Z; nanoseconds : Z }.
Definition Timespec_typed (t : Timespec) : Prop := i64 (seconds t) /\ u32 (nanoseconds t).

#[global] Instance Timespec_eq_dec : EqDecision Timespec.
Proof. solve_decision. Defined.

Definition Timespec_validate (t : Timespec) : result unit :=
  if 1000000000 <=? nanoseconds t then
    Err (Invalid "timestamp nanoseconds out of range")
  else Ok tt.

Definition TIMESPEC_WIRE_SIZE : Z := 12.

(** [self.write(&mut p[a..b])]: both fields inside the named window. *)
Definition Timespec_write (t : Timespec) (p : bytes) (a b : Z) : result bytes :=
  let* buf := slice p a b in
  let* buf := put_i64 buf 0 8 (seconds t) in
  let* buf := put_u32 buf 8 12 (nanoseconds t) in
  put p a b buf.

Definition Timespec_read (buf : bytes) : result Timespec :=
  if zlen buf <? TIMESPEC_WIRE_SIZE then Err (WrongBufferSize TIMESPEC_WIRE_SIZE (zlen buf))
  else
    let* s := slice buf 0 8 in
    let* secs := get_i64 s in
    let* nanos := get_u32_at buf 8 12 in
    let time := {| seconds := secs; nanoseconds := nanos |} in
    do* Timespec_validate time in
    Ok time.

(** ** Names

    [s.chars().any(|c| c == '\0' || c == '/')]: both characters are ASCII, and
    in valid UTF-8 an ASCII byte only ever encodes itself. *)
Definition validate_name (name : bytes) : result unit :=
  if (zlen name =? 0) || (NAME_MAX_UTF8_BYTES <? zlen name) then
    Err (Invalid "name length out of range")
  else
    let* s := from_utf8 name in
    if contains_byte 0 s || contains_byte 47 s then
      Err (Invalid "name contains reserved character")
    else Ok tt.

(** ** Symbolic execution of the accessors *)

Lemma wp_get_le n s (Q : Z -> Prop) R :
  zlen s = Z.of_nat n -> Q (le_combine s) -> wp (get_le n s) Q R.
Proof. intros H HQ. unfold get_le. rewrite (proj2 (Z.eqb_eq _ _) H). done. Qed.

(** A read of known bytes, and a read of an unknown field. *)
Lemma wp_get_at n (p : bytes) a b s (Q : Z -> Prop) R :
  0 <= a -> b = a + Z.of_nat n -> b <= zlen p -> sub p a b = s ->
  Q (le_combine s) -> wp (let* s := slice p a b in get_le n s) Q R.
Proof.
  intros ??? <- HQ. apply wp_bind, wp_slice; [lia..|]. apply wp_get_le; [|done].
  rewrite zlen_sub by lia. lia.
Qed.

Lemma wp_get_u16_at p a b s (Q : Z -> Prop) R :
  0 <= a -> b = a + 2 -> b <= zlen p -> sub p a b = s ->
  Q (le_combine s) -> wp (get_u16_at p a b) Q R.
Proof. intros; subst s. by eapply wp_get_at. Qed.

Lemma wp_get_u32_at p a b s (Q : Z -> Prop) R :
  0 <= a -> b = a + 4 -> b <= zlen p -> sub p a b = s ->
  Q (le_combine s) -> wp (get_u32_at p a b) Q R.
Proof. intros; subst s. by eapply wp_get_at. Qed.

Lemma wp_get_u64_at p a b s (Q : Z -> Prop) R :
  0 <= a -> b = a + 8 -> b <= zlen p -> sub p a b = s ->
  Q (le_combine s) -> wp (get_u64_at p a b) Q R.
Proof. intros; subst s. by eapply wp_get_at. Qed.

Lemma le_combine_sub_range (p : bytes) a b n :
  0 <= a <= b -> b <= zlen p -> n = 8 * (b - a) -> 0 <= le_combine (sub p a b) < 2 ^ n.
Proof. intros ?? ->. rewrite <- (zlen_sub p a b) by lia. apply le_combine_range. Qed.

Lemma wp_from_utf8 s (Q : bytes -> Prop) (R : FormatError -> Prop) :
  (utf8_valid s = true -> Q s) -> (utf8_valid s = false -> R InvalidUtf8) ->
  wp (from_utf8 s) Q R.
Proof. unfold from_utf8. destruct (utf8_valid s); simpl; auto. Qed.

Lemma to_signed_range v : u64 v -> i64 (to_signed v).
Proof. unfold u64, i64, to_signed. intros. destruct (v <? 2 ^ 63) eqn:?; lia. Qed.

Lemma le_split_mod_eq n v w : v mod 2 ^ (Z.of_nat n * 8) = w mod 2 ^ (Z.of_nat n * 8) ->
  le_split n v = le_split n w.
Proof. intros H. rewrite (le_split_mod v), (le_split_mod w). by rewrite H. Qed.

Lemma to_signed_split v : i64 v -> to_signed (le_combine (le_split 8 v)) = v.
Proof.
  intros Hv. rewrite le_combine_split. change (2 ^ (Z.of_nat 8 * 8)) with (2 ^ 64).
  unfold i64, to_signed in *. destruct (decide (0 <= v)).
  - rewrite Z.mod_small by lia. destruct (v <? 2 ^ 63) eqn:?; lia.
  - rewrite <- (Z_mod_plus_full v 1), Z.mod_small by lia.
    destruct (v + 1 * 2 ^ 64 <? 2 ^ 63) eqn:?; lia.
Qed.

Lemma split_to_signed (s : bytes) :
  zlen s = 8 -> le_split 8 (to_signed (le_combine s)) = s.
Proof.
  intros Hs. rewrite <- (le_split_le_combine 8 s) at 2 by (rewrite Hs; done).
  apply le_split_mod_eq. unfold to_signed. destruct (_ <? _); [done|].
  rewrite <- (Z_mod_plus_full (le_combine s) (-1)). done.
Qed.

Lemma validate_name_total name : validate_name name <> Panic.
Proof.
  unfold validate_name, from_utf8. destruct (_ || _); [done|].
  destruct (utf8_valid name); cbn [obind]; [by destruct (_ || _)|done].
Qed.
