(* ===== verification/Header.v ===== *)
(** * Common metadata block header (crates/afsplus-format/src/header.rs)

    Sealing and verification of the 32-byte header that opens every metadata
    block.  [sealed h body] is the one image the header admits for a given
    body; the codecs are verified against the lemmas [wp_seal], [verify_sealed]
    and [wp_verify], never against the header's bytes. *)

From S2P Require Import Prelude Crc32c Format.

(** ** The code *)

Definition HEADER_SIZE : Z := 32.
Definition HEADER_VERSION : Z := 1.
Definition CHECKSUM_OFFSET : Z := 28.

(** A four-character block magic read as a little-endian [u32]. *)
Definition fourcc (s : string) : Z := le_combine (String.list_byte_of_string s).

Module block_type.
Definition IDENTIFICATION : Z := fourcc "AFSI".
Definition CHECKPOINT : Z := fourcc "AFSC".
Definition OBJECT : Z := fourcc "AFSO".
Definition BITMAP : Z := fourcc "AFSB".
Definition REGION_DESCRIPTOR : Z := fourcc "AFSG".
Definition TREE_NODE : Z := fourcc "AFST".
Definition RECLAIM_ROOT : Z := fourcc "AFSH".
Definition RECLAIM_SEGMENT : Z := fourcc "AFSS".
Definition RECLAIM_TABLE : Z := fourcc "AFSL".
Definition SECURITY_DESCRIPTOR : Z := fourcc "AFSX".
Definition ATTRIBUTE_SET : Z := fourcc "AFSA".
Definition INTENT_LOG : Z := fourcc "AFSJ".
End block_type.

Record BlockHeader := {
  bh_block_type : Z;
  bh_flags : Z;
  bh_owner : Z;
  bh_generation : Z;
  bh_payload_len : Z;
}.

Definition BlockHeader_typed (h : BlockHeader) : Prop :=
  u32 (bh_block_type h) /\ u16 (bh_flags h) /\ u64 (bh_owner h) /\
  u64 (bh_generation h) /\ u32 (bh_payload_len h).

Definition seal (h : BlockHeader) (block : bytes) : result bytes :=
  if negb (HEADER_SIZE + bh_payload_len h <=? zlen block) then Panic else
  let* block := put_u32 block 0 4 (bh_block_type h) in
  let* block := put_u16 block 4 6 HEADER_VERSION in
  let* block := put_u16 block 6 8 (bh_flags h) in
  let* block := put_u64 block 8 16 (bh_owner h) in
  let* block := put_u64 block 16 24 (bh_generation h) in
  let* block := put_u32 block 24 28 (bh_payload_len h) in
  let* block := put_u32 block CHECKSUM_OFFSET (CHECKSUM_OFFSET + 4) 0 in
  let sum := crc32c block in
  put_u32 block CHECKSUM_OFFSET (CHECKSUM_OFFSET + 4) sum.

Definition checksums (block : bytes) : result (Z * Z) :=
  let* stored := get_u32_at block CHECKSUM_OFFSET (CHECKSUM_OFFSET + 4) in
  let* head := slice block 0 CHECKSUM_OFFSET in
  let* tail := slice block (CHECKSUM_OFFSET + 4) (zlen block) in
  let hasher := Hasher_new in
  let hasher := Hasher_update hasher head in
  let hasher := Hasher_update hasher (zeros 4) in
  let hasher := Hasher_update hasher tail in
  Ok (stored, Hasher_finalize hasher).

Definition checksum_matches (block : bytes) : result bool :=
  if HEADER_SIZE <=? zlen block then
    let* '(stored, computed) := checksums block in
    Ok (stored =? computed)
  else Ok false.

Definition verify (block : bytes) (expected_type : Z) : result BlockHeader :=
  if zlen block <? HEADER_SIZE then Err (WrongBufferSize HEADER_SIZE (zlen block)) else
  let* '(stored, computed) := checksums block in
  if negb (stored =? computed) then Err (ChecksumMismatch stored computed) else
  let* block_type := get_u32_at block 0 4 in
  if negb (block_type =? expected_type) then Err (WrongBlockType expected_type block_type) else
  let* version := get_u16_at block 4 6 in
  if negb (version =? HEADER_VERSION) then Err (UnsupportedHeaderVersion version) else
  let* payload_len := get_u32_at block 24 28 in
  let max := zlen block - HEADER_SIZE in
  if max <? payload_len then Err (PayloadTooLarge payload_len max) else
  let* tail := slice block (HEADER_SIZE + payload_len) (zlen block) in
  if negb (all_zero tail) then Err (Invalid "block unused tail is nonzero") else
  let* flags := get_u16_at block 6 8 in
  let* owner := get_u64_at block 8 16 in
  let* generation := get_u64_at block 16 24 in
  Ok {| bh_block_type := block_type; bh_flags := flags; bh_owner := owner;
        bh_generation := generation; bh_payload_len := payload_len |}.

Definition payload (h : BlockHeader) (block : bytes) : result bytes :=
  slice block HEADER_SIZE (HEADER_SIZE + bh_payload_len h).

(** [let p = &mut block[HEADER_SIZE..]; ...]: the encoders write their payload
    through a mutable view of the block that ends before the block is sealed. *)
Definition with_payload (block : bytes) (f : bytes -> result bytes) : result bytes :=
  let* p := slice block HEADER_SIZE (zlen block) in
  let* p := f p in
  put block HEADER_SIZE (zlen block) p.

(** ** The sealed image *)

Definition header_bytes (h : BlockHeader) : bytes :=
  le_split 4 (bh_block_type h) ++ le_split 2 HEADER_VERSION ++ le_split 2 (bh_flags h) ++
  le_split 8 (bh_owner h) ++ le_split 8 (bh_generation h) ++ le_split 4 (bh_payload_len h).

Definition sealed (h : BlockHeader) (body : bytes) : bytes :=
  header_bytes h ++ le_split 4 (crc32c (header_bytes h ++ zeros 4 ++ body)) ++ body.

Lemma zlen_header_bytes h : zlen (header_bytes h) = 28.
Proof. unfold header_bytes. by rewrite !zlen_app, !zlen_le_split. Qed.

Lemma zlen_sealed h body : zlen (sealed h body) = 32 + zlen body.
Proof. unfold sealed. rewrite !zlen_app, zlen_header_bytes, zlen_le4. lia. Qed.

(** Writing at the end of a known prefix of a block. *)
Lemma put_next (pre block src : bytes) k k' :
  zlen pre = k -> k' = k + zlen src -> k' <= zlen block ->
  @put FormatError (pre ++ sub block k (zlen block)) k k' src
  = Ok ((pre ++ src) ++ sub block k' (zlen block)).
Proof.
  intros <- -> Hl. pose proof (zlen_nonneg src). pose proof (zlen_nonneg pre).
  unfold put. rewrite zlen_app, zlen_sub by lia. replace (_ && _) with true by lia.
  unfold blit. rewrite take_sub, sub_app_l, sub_all by lia.
  rewrite drop_sub, zlen_app, zlen_sub by lia.
  rewrite sub_app_r, sub_sub by lia. rewrite <- app_assoc. do 4 f_equal; lia.
Qed.

Lemma seal_spec h block :
  HEADER_SIZE + bh_payload_len h <= zlen block -> 0 <= bh_payload_len h ->
  seal h block = Ok (sealed h (sub block 32 (zlen block))).
Proof.
  intros Hlen H0. unfold HEADER_SIZE in Hlen. unfold seal.
  replace (negb _) with false by (unfold HEADER_SIZE; lia).
  unfold put_u32, put_u16, put_u64, CHECKSUM_OFFSET.
  replace block with ([] ++ sub block 0 (zlen block)) at 1 by (by apply sub_all).
  do 7 (rewrite put_next; [cbn [obind]|autorewrite with zlen; lia..]).
  rewrite app_nil_l, <- !app_assoc. change (le_split 4 0) with (zeros 4).
  set (body := sub block (28 + 4) (zlen block)).
  replace (le_split 4 (bh_block_type h) ++ _) with (header_bytes h ++ zeros 4 ++ body)
    by (unfold header_bytes; by rewrite <- !app_assoc).
  set (sum := crc32c _). unfold sealed. fold sum.
  change (sub block 32 (zlen block)) with body. fold sum. clearbody sum. clearbody body.
  assert (zlen (header_bytes h ++ zeros 4 ++ body) = 32 + zlen body) as Hz.
  { rewrite !zlen_app, zlen_header_bytes, zlen_zeros; lia. }
  pose proof (zlen_nonneg body). unfold put. rewrite Hz, zlen_le4.
  replace (_ && _) with true by lia. done.
Qed.

Lemma wp_seal h block (Q : bytes -> Prop) R :
  HEADER_SIZE + bh_payload_len h <= zlen block -> 0 <= bh_payload_len h ->
  Q (sealed h (sub block 32 (zlen block))) -> wp (seal h block) Q R.
Proof. intros. by rewrite seal_spec. Qed.

(** ** Verification accepts exactly the sealed images *)

Lemma checksums_spec block :
  32 <= zlen block ->
  checksums block =
    Ok (le_combine (sub block 28 32),
        crc32c (sub block 0 28 ++ zeros 4 ++ sub block 32 (zlen block))).
Proof.
  intros H. apply wp_no_error. unfold checksums, CHECKSUM_OFFSET.
  apply wp_bind. eapply wp_get_u32_at; [lia..|reflexivity|].
  apply wp_bind, wp_slice; [lia..|]. apply wp_bind, wp_slice; [lia..|].
  apply wp_ok. f_equal. unfold crc32c. f_equal.
  assert (u32 (state Hasher_new)) as Hn by apply crc_init_u32.
  rewrite !Hasher_update_app, <- ?app_assoc; [done|done|].
  cbn [state Hasher_update]. rewrite update_tables_serial by done. by apply serial_u32.
Qed.

Lemma verify_sealed h body :
  BlockHeader_typed h -> bh_payload_len h <= zlen body ->
  sub body (bh_payload_len h) (zlen body) = zeros (zlen body - bh_payload_len h) ->
  verify (sealed h body) (bh_block_type h) = Ok h.
Proof.
  intros (Hbt & Hfl & How & Hge & Hpl) Hlen Htail. unfold u32, u16, u64 in *.
  pose proof (zlen_sealed h body) as Hz. pose proof (zlen_nonneg body).
  assert (sub (sealed h body) 32 (zlen (sealed h body)) = body) as Hbody.
  { unfold sealed. rewrite app_assoc, sub_app_r; rewrite ?zlen_app, ?zlen_header_bytes, ?zlen_le4;
      [|lia]. apply sub_all. lia. }
  apply wp_no_error. unfold verify, HEADER_SIZE. apply wp_if_false; [lia|].
  rewrite checksums_spec, Hbody by lia. cbn [obind].
  assert (forall a b, 0 <= a -> b <= 28 -> sub (sealed h body) a b = sub (header_bytes h) a b) as Hh.
  { intros a b ??. unfold sealed. apply sub_app_l; [done|]. rewrite zlen_header_bytes. lia. }
  assert (sub (sealed h body) 28 32
    = le_split 4 (crc32c (header_bytes h ++ zeros 4 ++ body))) as Hs.
  { unfold sealed. rewrite sub_app_r; rewrite zlen_header_bytes; [|lia].
    rewrite sub_app_l; [|lia|rewrite zlen_le4; lia]. by apply sub_all. }
  rewrite Hs, (Hh 0 28), sub_all by (rewrite ?zlen_header_bytes; lia).
  rewrite le_combine_le_split by apply crc32c_u32. rewrite Z.eqb_refl. cbn [negb].
  assert (Hrd : forall (n : nat) a b v (Q : Z -> Prop), 0 <= a -> b = a + Z.of_nat n -> b <= 28 ->
    sub (header_bytes h) a b = le_split n v -> 0 <= v < 2 ^ (Z.of_nat n * 8) -> Q v ->
    wp (let* s := slice (sealed h body) a b in get_le n s) Q no_error).
  { intros n a b v Q ?? Hb Hv Hr HQ.
    eapply wp_get_at; [done|done|lia|rewrite Hh by lia; exact Hv|]. by rewrite le_combine_le_split. }
  apply wp_bind, (Hrd 4%nat 0 4 (bh_block_type h)); [done|done|done|reflexivity|done|].
  rewrite Z.eqb_refl. cbn [negb].
  apply wp_bind, (Hrd 2%nat 4 6 HEADER_VERSION); [done|done|done|reflexivity|done|].
  rewrite Z.eqb_refl. cbn [negb].
  apply wp_bind, (Hrd 4%nat 24 28 (bh_payload_len h)); [done|done|done|reflexivity|done|].
  apply wp_if_false; [lia|]. apply wp_bind, wp_slice; [lia..|].
  apply wp_if_false.
  { apply negb_false_iff, all_zero_spec.
    replace (sub (sealed h body) _ _) with (sub body (bh_payload_len h) (zlen body)).
    { rewrite Htail, zlen_zeros; [done|lia]. }
    rewrite <- Hbody at 1. rewrite sub_sub by lia. f_equal. lia. }
  apply wp_bind, (Hrd 2%nat 6 8 (bh_flags h)); [done|done|done|reflexivity|done|].
  apply wp_bind, (Hrd 8%nat 8 16 (bh_owner h)); [done|done|done|reflexivity|done|].
  apply wp_bind, (Hrd 8%nat 16 24 (bh_generation h)); [done|done|done|reflexivity|done|].
  apply wp_ok. by destruct h.
Qed.

Lemma payload_sealed h (p : bytes) n :
  zlen p = bh_payload_len h -> 0 <= n -> payload h (sealed h (p ++ zeros n)) = Ok p.
Proof.
  intros Hp Hn. pose proof (zlen_nonneg p). apply wp_no_error. unfold payload, HEADER_SIZE.
  apply wp_slice; [lia|rewrite zlen_sealed, zlen_app, zlen_zeros; lia|].
  unfold sealed. rewrite app_assoc, sub_app_r; rewrite zlen_app, zlen_header_bytes, zlen_le4; [|lia].
  rewrite sub_app_l by lia. apply sub_all. lia.
Qed.

Lemma wp_verify block ty (Q : BlockHeader -> Prop) R :
  (forall h p n, BlockHeader_typed h -> bh_block_type h = ty -> zlen p = bh_payload_len h ->
    0 <= n -> block = sealed h (p ++ zeros n) -> Q h) ->
  (forall e, R e) -> wp (verify block ty) Q R.
Proof.
  intros HQ HR. unfold verify, HEADER_SIZE.
  apply wp_if; [intros; apply wp_err, HR|intros Hlen].
  rewrite checksums_spec by lia. cbn [obind].
  apply wp_if; [intros; apply wp_err, HR|intros Hsum].
  apply wp_bind. eapply wp_get_u32_at; [lia..|reflexivity|].
  apply wp_if; [intros; apply wp_err, HR|intros Hty].
  apply wp_bind. eapply wp_get_u16_at; [lia..|reflexivity|].
  apply wp_if; [intros; apply wp_err, HR|intros Hver].
  apply wp_bind. eapply wp_get_u32_at; [lia..|reflexivity|].
  apply wp_if; [intros; apply wp_err, HR|intros Hmax].
  pose proof (le_combine_sub_range block 24 28 32 ltac:(lia) ltac:(lia) eq_refl) as Hpl.
  apply wp_bind, wp_slice; [lia..|].
  apply wp_if; [intros; apply wp_err, HR|intros Htail].
  apply wp_bind. eapply wp_get_u16_at; [lia..|reflexivity|].
  apply wp_bind. eapply wp_get_u64_at; [lia..|reflexivity|].
  apply wp_bind. eapply wp_get_u64_at; [lia..|reflexivity|]. apply wp_ok.
  apply negb_false_iff in Htail, Hver, Hty, Hsum. apply Z.eqb_eq in Hty, Hver, Hsum.
  apply all_zero_spec in Htail. set (plen := le_combine (sub block 24 28)) in *.
  rewrite zlen_sub in Htail by lia.
  apply (HQ _ (sub block 32 (32 + plen)) (zlen block - (32 + plen))); cbn [bh_block_type bh_payload_len].
  - unfold BlockHeader_typed, u32, u16, u64. cbn [bh_block_type bh_flags bh_owner bh_generation bh_payload_len].
    repeat match goal with |- _ /\ _ => first [apply le_combine_sub_range; lia | split] end.
  - done.
  - rewrite zlen_sub; lia.
  - lia.
  - rewrite <- Htail, <- sub_split by lia. unfold sealed.
    match goal with |- context [header_bytes ?h] => assert (header_bytes h = sub block 0 28) as -> end.
    { unfold header_bytes. cbn. rewrite <- Hver. unfold plen.
      rewrite !le_split_le_combine by (rewrite zlen_sub; lia).
      rewrite <- !sub_split by lia. done. }
    rewrite <- Hsum, le_split_le_combine by (rewrite zlen_sub; lia).
    rewrite <- !sub_split by lia. symmetry. by apply sub_all.
Qed.

Lemma verify_not_panic block ty : verify block ty <> Panic.
Proof. eapply (wp_not_panic _ (fun _ => True)), (wp_verify _ _ _ any_error); done. Qed.

(** C31: header verification accepts a block exactly when it is the sealed
    image of its own header over a payload of the stored length followed by
    zeros: no other byte of an admitted block is free. *)
Theorem verify_exact block ty h :
  verify block ty = Ok h <->
  BlockHeader_typed h /\ bh_block_type h = ty /\
  exists p n, zlen p = bh_payload_len h /\ 0 <= n /\ block = sealed h (p ++ zeros n).
Proof.
  split.
  - intros H. refine (wp_of_ok _ h (fun h => _) any_error _ H).
    apply wp_verify; [|done]. intros h' p n Ht Hty Hp Hn ->. eauto 10.
  - intros (Ht & <- & p & n & Hp & Hn & ->). pose proof (zlen_nonneg p).
    apply verify_sealed; [done|rewrite zlen_app, zlen_zeros by lia; lia|].
    rewrite zlen_app, zlen_zeros, sub_app_r, Hp by lia.
    rewrite sub_zeros by lia. f_equal. lia.
Qed.

(** ** Corruption of a block *)

(** A range of [pre ++ d ++ post] that covers the window [d], or misses it. *)
Lemma sub_cover (pre d post : bytes) a b :
  0 <= a <= zlen pre -> zlen pre + zlen d <= b -> b <= zlen (pre ++ d ++ post) ->
  sub (pre ++ d ++ post) a b
  = sub pre a (zlen pre) ++ d ++ sub post 0 (b - zlen pre - zlen d).
Proof.
  intros Ha Hb Hl. rewrite !zlen_app in Hl. pose proof (zlen_nonneg d).
  rewrite (sub_split _ a (zlen pre) b), sub_app_l by lia. f_equal.
  rewrite sub_app_r, Z.sub_diag by lia.
  rewrite (sub_split _ 0 (zlen d)), sub_app_l, sub_all by lia. f_equal.
  rewrite sub_app_r by lia. f_equal; lia.
Qed.

Lemma sub_miss (pre d e post : bytes) a b :
  0 <= a -> zlen d = zlen e -> b <= zlen pre \/ zlen pre + zlen d <= a ->
  sub (pre ++ d ++ post) a b = sub (pre ++ e ++ post) a b.
Proof.
  intros Ha He H. pose proof (zlen_nonneg d). pose proof (zlen_nonneg pre). destruct H.
  - by rewrite !sub_app_l by lia.
  - rewrite !(sub_app_r pre), !(sub_app_r d), !(sub_app_r e) by lia. f_equal; lia.
Qed.

Definition unsummed (block : bytes) : bytes :=
  sub block 0 28 ++ zeros 4 ++ sub block 32 (zlen block).

(** The bytes the checksum covers, around a window that misses the stored sum. *)
Lemma unsummed_window pre post n :
  exists a b, forall d, zlen d = n -> 32 <= zlen (pre ++ d ++ post) ->
    zlen pre + zlen d <= 28 \/ 32 <= zlen pre -> unsummed (pre ++ d ++ post) = a ++ d ++ b.
Proof.
  destruct (decide (32 <= zlen pre)) as [Hp|Hp].
  - exists (sub pre 0 28 ++ zeros 4 ++ sub pre 32 (zlen pre)), post.
    intros d Hd Hlen _. unfold unsummed.
    rewrite sub_app_l, sub_cover by (rewrite ?zlen_app in *; pose proof (zlen_nonneg post); lia).
    rewrite <- !app_assoc. do 4 f_equal. rewrite !zlen_app. apply sub_all. lia.
  - exists pre, (sub post 0 (28 - zlen pre - n) ++ zeros 4 ++
      sub post (32 - zlen pre - n) (zlen post)).
    intros d Hd Hlen Hw. pose proof (zlen_nonneg pre). pose proof (zlen_nonneg d). unfold unsummed.
    rewrite sub_cover, sub_all, <- !app_assoc by lia. rewrite Hd. do 4 f_equal.
    rewrite !zlen_app in *. rewrite !sub_app_r by lia. f_equal; lia.
Qed.


Definition one_byte_block : bytes :=
  sealed {| bh_block_type := block_type.OBJECT; bh_flags := 0; bh_owner := 1;
            bh_generation := 7; bh_payload_len := 1 |} [Byte.x2a].

