(* ===== verification/Codec.v ===== *)
(** * Codec verification: rules and automation shared by the block codecs

    An encoder writes fields into a zeroed payload and seals the block; a
    decoder verifies the header, checks the payload and builds a value.  This
    file has the rules that execute both symbolically, the tactics built on
    them, and the interface [ExactCodec] the block codecs implement. *)

From S2P Require Import Prelude Crc32c Format Header.

(** ** Rules for encoders *)

(** A write that reproduces the bytes of [p] at its own offset. *)
Lemma wp_put_upto {E} (p : bytes) k a b n z src (Q : bytes -> Prop) (R : E -> Prop) :
  0 <= k <= a -> a <= b -> b <= zlen p -> zlen p <= n ->
  sub p k a = zeros z -> src = sub p a b -> Q (upto p b n) ->
  wp (put (upto p k n) a b src) Q R.
Proof.
  intros ???? Hz -> HQ. assert (sub p k a = zeros (a - k)) as Hg.
  { rewrite Hz. apply (f_equal zlen) in Hz. rewrite zlen_sub in Hz by lia. unfold zeros, zlen in *.
    rewrite length_replicate in Hz. f_equal. lia. }
  rewrite (upto_skip p k a n) by (done || lia).
  apply wp_put; [lia|rewrite zlen_upto; lia|rewrite zlen_sub; lia|]. by rewrite upto_write by lia.
Qed.

Lemma wp_with_payload bs (f : bytes -> result bytes) (Q : bytes -> Prop) R :
  32 <= bs ->
  wp (f (zeros (bs - 32))) (fun p => zlen p = bs - 32 /\ Q (zeros 32 ++ p)) R ->
  wp (with_payload (zeros bs) f) Q R.
Proof.
  intros Hbs Hf. assert (zlen (zeros bs) = bs) as Hz by (apply zlen_zeros; lia).
  unfold with_payload, HEADER_SIZE. rewrite Hz.
  apply wp_bind, wp_slice; [lia..|]. rewrite sub_zeros by lia. apply wp_bind.
  eapply wp_mono; [apply Hf| |done]. intros p [Hp HQ]. simpl.
  apply wp_put; [lia|lia|lia|]. unfold blit. rewrite take_sub, sub_zeros by lia.
  rewrite drop_ge; [by rewrite app_nil_r|]. unfold zlen in Hz, Hp |- *. lia.
Qed.

(** Sealing what [wp_with_payload] leaves. *)
Lemma wp_seal_body h (p : bytes) (Q : bytes -> Prop) R :
  0 <= bh_payload_len h <= zlen p -> Q (sealed h p) -> wp (seal h (zeros 32 ++ p)) Q R.
Proof.
  intros Hl HQ. assert (zlen (zeros 32 ++ p) = 32 + zlen p) as Hz.
  { by rewrite zlen_app, zlen_zeros by lia. }
  apply wp_seal; [unfold HEADER_SIZE; lia|lia|].
  rewrite Hz, sub_app_r by (rewrite zlen_zeros; lia).
  rewrite zlen_zeros, sub_all by lia. done.
Qed.

(** ** Rules for decoders *)

(** Opening an arbitrary block, and opening a sealed one. *)
Lemma wp_open {A} block ty (k : BlockHeader -> bytes -> result A) (Q : A -> Prop) R :
  (forall h p n, BlockHeader_typed h -> bh_block_type h = ty -> zlen p = bh_payload_len h ->
    0 <= n -> block = sealed h (p ++ zeros n) -> wp (k h p) Q R) ->
  (forall e, R e) ->
  wp (let* header := verify block ty in let* p := payload header block in k header p) Q R.
Proof.
  intros Hk HR. apply wp_bind, wp_verify; [|done].
  intros h p n Ht Hty Hp Hn Hb. rewrite Hb, payload_sealed by done. by eapply Hk.
Qed.

Lemma wp_open_sealed {A} h (body : bytes) (k : BlockHeader -> bytes -> result A) (Q : A -> Prop) R :
  BlockHeader_typed h -> bh_payload_len h <= zlen body ->
  sub body (bh_payload_len h) (zlen body) = zeros (zlen body - bh_payload_len h) ->
  wp (k h (sub body 0 (bh_payload_len h))) Q R ->
  wp (let* header := verify (sealed h body) (bh_block_type h) in
      let* p := payload header (sealed h body) in k header p) Q R.
Proof.
  intros Ht Hl Htail Hk. rewrite verify_sealed by done. cbn [obind].
  assert (0 <= bh_payload_len h) by (unfold BlockHeader_typed, u32 in Ht; lia).
  assert (body = sub body 0 (bh_payload_len h) ++ zeros (zlen body - bh_payload_len h)) as Hb.
  { rewrite <- Htail, <- sub_split by lia. symmetry. by apply sub_all. }
  rewrite Hb at 1. rewrite payload_sealed; [done|rewrite zlen_sub; lia|lia].
Qed.

(** The same with a check of the header before the payload is taken. *)
Lemma wp_open_guard {A} block ty (f : BlockHeader -> result unit) (k : BlockHeader -> bytes -> result A)
    (Q : A -> Prop) R :
  (forall h p n, BlockHeader_typed h -> bh_block_type h = ty -> zlen p = bh_payload_len h ->
    0 <= n -> block = sealed h (p ++ zeros n) -> wp (do* f h in k h p) Q R) ->
  (forall e, R e) ->
  wp (let* header := verify block ty in do* f header in let* p := payload header block in k header p) Q R.
Proof.
  intros Hk HR. apply wp_bind, wp_verify; [|done].
  intros h p n Ht Hty Hp Hn Hb. rewrite Hb, payload_sealed by done. by eapply Hk.
Qed.

Lemma wp_index_sub {E} (p : bytes) i b (Q : Z -> Prop) (R : E -> Prop) :
  0 <= i -> i + 1 <= zlen p -> sub p i (i + 1) = [b] -> Q (byte.unsigned b) ->
  wp (index p i) Q R.
Proof.
  intros Hi Hl Hs HQ. apply wp_index; [lia|].
  rewrite (sub_single p i Byte.x00) in Hs by lia. by injection Hs as ->.
Qed.

Lemma byte_write (p : bytes) i :
  0 <= i < zlen p -> [byte.of_Z (byte.unsigned (nth (Z.to_nat i) p Byte.x00))] = sub p i (i + 1).
Proof. intros. by rewrite byte_of_unsigned, <- (sub_single p i) by lia. Qed.

(** ** Automation

    The specification of a codec is a wire image: the concatenation of its
    fields.  The encoder is executed against the image with [wp_put_upto]: after
    each write the buffer is a longer prefix of it.  The decoder reads the
    image back field by field. *)

(** [side]: a length side condition. *)
Ltac side := first [ lia | autorewrite with zlen; lia | autorewrite with zlen in *; lia ].

Lemma sub_here (A B : bytes) a b : a = 0 -> b = zlen A -> sub (A ++ B) a b = A.
Proof. intros -> ->. rewrite sub_app_l by lia. by apply sub_all. Qed.

Lemma sub_skip (A B s : bytes) a b :
  zlen A <= a -> sub B (a - zlen A) (b - zlen A) = s -> sub (A ++ B) a b = s.
Proof. intros ? <-. by apply sub_app_r. Qed.

Lemma sub_within (A B s : bytes) a b :
  0 <= a -> b <= zlen A -> sub A a b = s -> sub (A ++ B) a b = s.
Proof. intros ?? <-. by apply sub_app_l. Qed.

Lemma sub_last (A : bytes) a b : a = 0 -> b = zlen A -> sub A a b = A.
Proof. intros -> ->. by apply sub_all. Qed.

(** A read inside a window whose contents are known. *)
Lemma sub_window (W e s : bytes) o o' a b :
  sub W o o' = e -> 0 <= o <= a -> a <= b -> b <= o' -> sub e (a - o) (b - o) = s -> sub W a b = s.
Proof. intros <- ??? <-. rewrite sub_sub by lia. f_equal; lia. Qed.

(** Assembling an image from its parts. *)
Lemma sub_cat (p A B : bytes) a b c :
  0 <= a <= b -> b <= c -> sub p a b = A -> sub p b c = B -> sub p a c = A ++ B.
Proof. intros ?? <- <-. by apply sub_split. Qed.

Lemma index_leaf (p : bytes) a b i :
  a = i -> b = i + 1 -> 0 <= i < zlen p ->
  sub p a b = [byte.of_Z (byte.unsigned (nth (Z.to_nat i) p Byte.x00))].
Proof. intros -> -> ?. by rewrite byte_write. Qed.

Lemma field_leaf (p : bytes) n a b a' b' :
  a = a' -> b = b' -> 0 <= a' <= b' -> b' <= zlen p -> b' - a' = Z.of_nat n ->
  sub p a b = le_split n (le_combine (sub p a' b')).
Proof. intros -> -> ???. rewrite le_split_le_combine; [done|]. rewrite zlen_sub; lia. Qed.

Lemma signed_leaf (p : bytes) a b a' b' :
  a = a' -> b = b' -> 0 <= a' <= b' -> b' <= zlen p -> b' - a' = 8 ->
  sub p a b = le_split 8 (to_signed (le_combine (sub p a' b'))).
Proof. intros -> -> ???. rewrite split_to_signed; [done|]. rewrite zlen_sub; lia. Qed.

(** The images of the codecs unfold here. *)
Create HintDb wire.

(** [wire_read]: solve [sub (f1 ++ f2 ++ ...) a b = ?field]. *)
Ltac wire_read :=
  lazymatch goal with
  | |- sub (_ ++ _) _ _ = _ =>
      first [ apply sub_here; side | apply sub_skip; [side|wire_read] | apply sub_within; [side|side|wire_read] ]
  | |- sub (zeros _) _ _ = _ =>
      first [ apply sub_last; side | rewrite sub_zeros by side; first [ solve [f_equal; side] | reflexivity ] ]
  | H : sub ?W _ _ = _ |- sub ?W _ _ = _ =>
      eapply (sub_window W); [exact H|side|side|side|wire_read]
  | |- sub _ _ _ = _ => first [progress autounfold with wire; wire_read | apply sub_last; side]
  end.

(** [rewire]: prove [sub p a c = f1 ++ f2 ++ ...] for fields read from [p]. *)
Ltac field_len A :=
  lazymatch A with
  | le_split ?n _ => let z := eval vm_compute in (Z.of_nat n) in z
  | [_] => constr:(1)
  | zeros ?n => n
  | sub _ ?a ?b => constr:(b - a)
  | _ => constr:(zlen A)
  end.

Ltac field_end a A :=
  let n := field_len A in
  let e := constr:(a + n) in
  lazymatch A with
  | sub _ a ?b => b
  | _ => match e with
         | _ => let _ := match isZcst a with true => idtac end in
                let _ := match isZcst n with true => idtac end in
                let v := eval vm_compute in e in v
         | _ => e
         end
  end.

Ltac wire_leaf :=
  lazymatch goal with
  | |- sub _ _ _ = [byte.of_Z (byte.unsigned _)] => apply index_leaf; lia
  | |- sub _ _ _ = le_split _ (le_combine _) => apply field_leaf; lia
  | |- sub _ _ _ = le_split _ (to_signed _) => apply signed_leaf; lia
  | |- sub ?p _ _ = sub ?p _ _ => f_equal; lia
  | H : sub ?p _ _ = ?A |- sub ?p _ _ = ?A => transitivity A; [etransitivity; [|exact H]; f_equal; lia|done]
  | _ => idtac
  end.

Ltac rewire :=
  lazymatch goal with
  | |- sub _ ?a _ = ?A ++ _ =>
      let b := field_end a A in
      apply (sub_cat _ _ _ a b); [try lia|try lia|wire_leaf|rewire]
  | _ => wire_leaf
  end.

(** [enc_field]: one field write of an encoder that follows the image. *)
Ltac enc_field :=
  apply wp_bind || idtac;
  unfold put_u16, put_u32, put_u64, put_i64, put_u8;
  eapply wp_put_upto;
  [ side | side | side | side
  | first [ apply (sub_empty _ _ : _ = zeros 0) | wire_read ]
  | symmetry; wire_read
  | ].

(** [rd]: one field read of a decoder whose input is an image. *)
Lemma wp_slice_eq {E A} (l s : list A) a b (Q : list A -> Prop) (R : E -> Prop) :
  0 <= a <= b -> b <= zlen l -> sub l a b = s -> Q s -> wp (slice l a b) Q R.
Proof. intros ?? <-. by apply wp_slice. Qed.

Ltac rd :=
  lazymatch goal with
  | |- wp (obind _ _) _ _ => apply wp_bind; rd
  | |- wp (get_u16_at _ _ _) _ _ =>
      eapply wp_get_u16_at; [side|side|side|wire_read|]; try rewrite le_get2 by lia
  | |- wp (get_u32_at _ _ _) _ _ =>
      eapply wp_get_u32_at; [side|side|side|wire_read|]; try rewrite le_get4 by lia
  | |- wp (get_u64_at _ _ _) _ _ =>
      eapply wp_get_u64_at; [side|side|side|wire_read|]; try rewrite le_get8 by lia
  | |- wp (index _ _) _ _ =>
      eapply wp_index_sub; [side|side|wire_read|];
      try rewrite byte_unsigned_of by (unfold u8; lia)
  | |- wp (slice _ _ _) _ _ => eapply wp_slice_eq; [side|side|wire_read|]
  end.

(** [guards]: the failed guards of a decoder as facts. *)
Lemma all_zero_sub (p : bytes) a b :
  0 <= a <= b -> b <= zlen p -> all_zero (sub p a b) = true -> sub p a b = zeros (b - a).
Proof. intros ?? H. apply all_zero_spec in H. by rewrite zlen_sub in H by lia. Qed.

Ltac guards :=
  repeat match goal with
  | H : (_ || _) = false |- _ => apply orb_false_iff in H as [? ?]
  | H : negb (bytes_eqb _ _) = false |- _ => apply negb_false_iff, bytes_eqb_eq in H
  | H : negb (_ =? _) = false |- _ => apply negb_false_iff, Z.eqb_eq in H
  | H : negb (all_zero _) = false |- _ =>
      apply negb_false_iff, all_zero_sub in H; [|lia|lia]
  | H : (_ =? _) = false |- _ => apply Z.eqb_neq in H
  | H : (_ <? _) = false |- _ => apply Z.ltb_ge in H
  | H : (_ <=? _) = false |- _ => apply Z.leb_gt in H
  end.

(** [rx]: one field read of a decoder on unknown input. *)
Ltac rx :=
  lazymatch goal with
  | |- wp (obind _ _) _ _ => apply wp_bind; rx
  | |- wp (get_u16_at ?p ?a ?b) _ _ =>
      eapply wp_get_u16_at; [lia|lia|lia|reflexivity|];
      pose proof (le_combine_sub_range p a b 16 ltac:(lia) ltac:(lia) ltac:(lia))
  | |- wp (get_u32_at ?p ?a ?b) _ _ =>
      eapply wp_get_u32_at; [lia|lia|lia|reflexivity|];
      pose proof (le_combine_sub_range p a b 32 ltac:(lia) ltac:(lia) ltac:(lia))
  | |- wp (get_u64_at ?p ?a ?b) _ _ =>
      eapply wp_get_u64_at; [lia|lia|lia|reflexivity|];
      pose proof (le_combine_sub_range p a b 64 ltac:(lia) ltac:(lia) ltac:(lia))
  | |- wp (index ?p ?i) _ _ =>
      apply wp_index; [lia|];
      pose proof (byte_unsigned_u8 (nth (Z.to_nat i) p Byte.x00))
  | |- wp (slice _ _ _) _ _ => apply wp_slice; [lia|lia|]
  | |- wp (if _ then Err _ else _) _ _ => apply wp_if; [done|intros ?; guards]
  end.

(** ** Repeated entries *)

Definition wires {A} (w : A -> bytes) (l : list A) : bytes := concat (map w l).

Section Wires.
Context {A : Type} (w : A -> bytes).
Implicit Types (l : list A) (x : A) (p W : bytes).

Lemma wires_cons x l : wires w (x :: l) = w x ++ wires w l.
Proof. done. Qed.

Lemma wires_app l k : wires w (l ++ k) = wires w l ++ wires w k.
Proof. unfold wires. by rewrite map_app, concat_app. Qed.

Lemma zlen_wires_cons x l : zlen (wires w (x :: l)) = zlen (w x) + zlen (wires w l).
Proof. by rewrite wires_cons, zlen_app. Qed.

(** An encoder loop that advances an offset past every entry it writes. *)
Lemma wp_ofold_wires {E} (f : bytes * Z -> A -> outcome E (bytes * Z)) W n l off (Q : bytes * Z -> Prop)
    (R : E -> Prop) :
  0 <= off -> off + zlen (wires w l) <= zlen W ->
  sub W off (off + zlen (wires w l)) = wires w l ->
  (forall o x, 0 <= o -> o + zlen (w x) <= zlen W -> sub W o (o + zlen (w x)) = w x ->
     wp (f (upto W o n, o) x) (fun r => r = (upto W (o + zlen (w x)) n, o + zlen (w x))) R) ->
  Q (upto W (off + zlen (wires w l)) n, off + zlen (wires w l)) ->
  wp (ofold f (upto W off n, off) l) Q R.
Proof.
  intros Hoff Hl Hw Hstep. revert off Hoff Hl Hw.
  induction l as [|x l IH]; intros off Hoff Hl Hw HQ; cbn [ofold].
  - apply wp_ok. change (zlen (wires w [])) with 0 in HQ. by rewrite Z.add_0_r in HQ.
  - rewrite zlen_wires_cons in *. rewrite wires_cons in Hw.
    pose proof (zlen_nonneg (w x)). pose proof (zlen_nonneg (wires w l)).
    apply wp_bind. eapply wp_mono; [apply Hstep; [lia|lia|]| |done].
    + eapply (sub_window W); [exact Hw|lia..|]. apply sub_here; lia.
    + intros r ->. cbv beta. apply IH; [lia|lia| |by rewrite <- Z.add_assoc].
      eapply (sub_window W); [exact Hw|lia..|]. apply sub_skip; [lia|]. apply sub_last; lia.
Qed.

(** Entries of a fixed size. *)
Context (sz : Z) (Hsz : forall x, zlen (w x) = sz).

Lemma zlen_wires l : zlen (wires w l) = sz * zlen l.
Proof using Hsz.
  induction l as [|x l IH]; [unfold zlen; cbn; lia|].
  rewrite zlen_wires_cons, IH, Hsz, zlen_cons. lia.
Qed.

Lemma sub_wires l k x :
  l !! k = Some x -> sub (wires w l) (sz * Z.of_nat k) (sz * Z.of_nat k + sz) = w x.
Proof using Hsz.
  intros Hk. apply list_elem_of_split_length in Hk as (l1 & l2 & -> & ->).
  rewrite wires_app, wires_cons. apply sub_skip; rewrite zlen_wires; unfold zlen; [lia|].
  apply sub_here; rewrite ?Hsz; lia.
Qed.

(** An encoder loop [for (index, x) in l.iter().enumerate()] that checks each
    entry and writes it into its window of the image [W]. *)
Lemma wp_ofoldi_wires {E} (f : bytes -> Z -> A -> outcome E bytes) (P : A -> Prop) W n base l
    (R : E -> Prop) Q :
  0 <= base -> 0 <= sz -> sub W base (base + sz * zlen l) = wires w l -> base + sz * zlen l <= zlen W ->
  (forall k x, l !! k = Some x ->
     let o := base + sz * Z.of_nat k in
     0 <= o -> o + sz <= zlen W -> sub W o (o + sz) = w x ->
     wp (f (upto W o n) (Z.of_nat k) x) (fun p => P x /\ p = upto W (o + sz) n) R) ->
  (Forall P l -> Q (upto W (base + sz * zlen l) n)) ->
  wp (ofoldi f (upto W base n) 0 l) Q R.
Proof using Hsz.
  intros Hb Hs HW Hl Hstep HQ.
  enough (forall l2 l1 o, l = l1 ++ l2 -> Forall P l1 -> o = base + sz * zlen l1 ->
    wp (ofoldi f (upto W o n) (zlen l1) l2) Q R) as H.
  { apply (H l [] base); [done|done|rewrite zlen_nil; lia]. }
  intros l2. induction l2 as [|x l2 IH]; intros l1 o Heq HF ->; cbn [ofoldi].
  - apply wp_ok. rewrite app_nil_r in Heq. subst l1. by apply HQ.
  - assert (l !! length l1 = Some x) as Hx by (subst l; apply list_lookup_middle; lia).
    pose proof (zlen_nonneg l1). pose proof (zlen_nonneg l2).
    assert (zlen l = zlen l1 + 1 + zlen l2) as Hll by (subst l; rewrite zlen_app, zlen_cons; lia).
    apply wp_bind. eapply wp_mono; [apply (Hstep _ _ Hx); fold (zlen l1); [nia..|]|..].
    + erewrite (sub_window W); [|exact HW|nia..|]; [reflexivity|].
      replace (_ - base) with (sz * Z.of_nat (length l1)) by (unfold zlen; lia).
      replace (_ - base) with (sz * Z.of_nat (length l1) + sz) by (unfold zlen; lia).
      by apply sub_wires.
    + cbn. intros p [HP ->]. fold (zlen l1).
      replace (zlen l1 + 1) with (zlen (l1 ++ [x])) by (rewrite zlen_app, zlen_one; lia).
      apply IH; [by rewrite <- app_assoc|apply Forall_app; split; [done|by constructor]|].
      rewrite zlen_app, zlen_one. lia.
    + done.
Qed.

(** A decoder loop [for index in 0..count] that reads each entry. *)
Lemma collect_wires {E} (f : Z -> outcome E A) l i :
  (forall k x, l !! k = Some x -> f (i + Z.of_nat k) = Ok x) ->
  collect f i (length l) = Ok l.
Proof using.
  revert i. induction l as [|x l IH]; intros i Hf; simpl; [done|].
  pose proof (Hf 0%nat x eq_refl) as H0. rewrite Z.add_0_r in H0. rewrite H0. simpl.
  rewrite IH; [done|]. intros k y Hk. rewrite <- (Hf (S k) y Hk). f_equal. lia.
Qed.

Lemma wp_collect {E} (f : Z -> outcome E A) (P : A -> Prop) p base i n (Q : list A -> Prop) (R : E -> Prop) :
  0 <= base -> 0 <= sz -> 0 <= i ->
  (forall j, i <= j < i + Z.of_nat n ->
     wp (f j) (fun x => P x /\ sub p (base + sz * j) (base + sz * j + sz) = w x) R) ->
  (forall l, length l = n -> Forall P l ->
     sub p (base + sz * i) (base + sz * (i + Z.of_nat n)) = wires w l -> Q l) ->
  wp (collect f i n) Q R.
Proof using.
  intros Hb Hs. revert i Q. induction n as [|n IH]; intros i Q Hi Hf HQ; cbn [collect].
  - apply wp_ok, HQ; [done|constructor|]. by rewrite Z.add_0_r, sub_empty.
  - apply wp_bind. eapply wp_mono; [apply Hf; lia| |done]. intros x [HP Hx]. cbv beta.
    apply wp_bind, IH; [lia|intros; apply Hf; lia|]. intros l Hl HF Hsub. apply wp_ok.
    apply HQ; [by simpl; f_equal|by constructor|]. rewrite wires_cons.
    apply (sub_cat _ _ _ _ (base + sz * i + sz)); [nia|nia|done|]. rewrite <- Hsub. f_equal; lia.
Qed.
End Wires.

(** ** The interface of a block codec

    [encode x bs g] produces the block of [bs] bytes for the value [x] and the
    generation [g]; [decode] recovers both.  A codec is exact when [decode]
    accepts precisely the blocks [encode] produces. *)

Class ExactCodec {X : Type} (typed : X -> Z -> Prop)
    (encode : X -> Z -> Z -> result bytes) (decode : bytes -> result (X * Z)) : Prop := {
  decode_exact : forall block x g, zlen block < 2 ^ 32 ->
    decode block = Ok (x, g) <-> typed x g /\ encode x (zlen block) g = Ok block;
  decode_total : forall block, decode block <> Panic;
  encode_total : forall x bs g, typed x g -> 0 <= bs < 2 ^ 32 -> encode x bs g <> Panic;
  encode_size : forall x bs g block, typed x g -> 0 <= bs < 2 ^ 32 ->
    encode x bs g = Ok block -> zlen block = bs }.

(** What clients use. *)
Section Clients.
Context {X} {typed : X -> Z -> Prop} {encode decode} `{!ExactCodec typed encode decode}.

Lemma decode_encode x bs g block :
  typed x g -> 0 <= bs < 2 ^ 32 -> encode x bs g = Ok block -> decode block = Ok (x, g).
Proof.
  intros Ht Hbs He. pose proof (encode_size _ _ _ _ Ht Hbs He) as Hz.
  apply decode_exact; [lia|]. by rewrite Hz.
Qed.

Lemma encode_inj x y bs g h block :
  typed x g -> typed y h -> 0 <= bs < 2 ^ 32 ->
  encode x bs g = Ok block -> encode y bs h = Ok block -> x = y /\ g = h.
Proof.
  intros Hx Hy Hbs Ex Ey. apply decode_encode in Ex, Ey; [|done..].
  rewrite Ex in Ey. by injection Ey as -> ->.
Qed.
End Clients.

(** How a codec with a wire image is shown exact: the encoder produces the
    image of the admissible values, and the decoder accepts the images. *)
Section Intro.
Context {X : Type} (typed : X -> Z -> Prop)
  (encode : X -> Z -> Z -> result bytes) (decode : bytes -> result (X * Z))
  (header_of : X -> Z -> BlockHeader) (wire : X -> bytes) (adm : X -> Z -> Z -> Prop).

Definition image (x : X) (bs g : Z) : bytes :=
  sealed (header_of x g) (wire x ++ zeros (bs - 32 - zlen (wire x))).

Lemma exact_codec :
  (forall x bs g, typed x g -> adm x bs g -> zlen (wire x) <= bs - 32) ->
  (forall x bs g, typed x g -> 0 <= bs < 2 ^ 32 ->
     wp (encode x bs g) (fun b => adm x bs g /\ b = image x bs g) (fun _ => ~ adm x bs g)) ->
  (forall x bs g, typed x g -> bs < 2 ^ 32 -> adm x bs g -> decode (image x bs g) = Ok (x, g)) ->
  (forall block, wp (decode block)
     (fun '(x, g) => typed x g /\ adm x (zlen block) g /\ block = image x (zlen block) g) any_error) ->
  ExactCodec typed encode decode.
Proof.
  intros Hsize Henc Hfwd Hbwd. split.
  - intros block x g Hz. split.
    + intros H. destruct (wp_of_ok _ _ _ _ (Hbwd block) H) as (Ht & Ha & Hb).
      split; [done|]. pose proof (zlen_nonneg block).
      pose proof (Henc x (zlen block) g Ht ltac:(lia)) as He.
      destruct (encode x (zlen block) g); simpl in He; [|tauto..].
      destruct He as [_ ->]. by rewrite <- Hb.
    + intros [Ht He]. pose proof (zlen_nonneg block).
      pose proof (Henc x (zlen block) g Ht ltac:(lia)) as Hw. rewrite He in Hw.
      destruct Hw as [Ha ->]. apply Hfwd; [done| |done].
      pose proof (Hsize _ _ _ Ht Ha). lia.
  - intros block. by eapply wp_not_panic.
  - intros x bs g Ht Hbs. by eapply wp_not_panic, Henc.
  - intros x bs g block Ht Hbs He. pose proof (Henc x bs g Ht Hbs) as Hw. rewrite He in Hw.
    destruct Hw as [Ha ->]. pose proof (Hsize _ _ _ Ht Ha). unfold image.
    pose proof (zlen_nonneg (wire x)). rewrite zlen_sealed, zlen_app, zlen_zeros; lia.
Qed.

(** Opening an image. *)
Lemma wp_open_image {A} x bs g ty (k : BlockHeader -> bytes -> result A) (Q : A -> Prop) R :
  BlockHeader_typed (header_of x g) -> bh_block_type (header_of x g) = ty ->
  bh_payload_len (header_of x g) = zlen (wire x) -> zlen (wire x) <= bs - 32 ->
  wp (k (header_of x g) (wire x)) Q R ->
  wp (let* header := verify (image x bs g) ty in
      let* p := payload header (image x bs g) in k header p) Q R.
Proof.
  intros Ht <- Hp Hl Hk. unfold image. pose proof (zlen_nonneg (wire x)).
  assert (zlen (wire x ++ zeros (bs - 32 - zlen (wire x))) = bs - 32) as Hz.
  { rewrite zlen_app, zlen_zeros; lia. }
  apply wp_open_sealed; [done|lia| |].
  - rewrite Hz, Hp, sub_app_r, sub_zeros by lia. f_equal; lia.
  - by rewrite Hp, sub_app_l, sub_all by lia.
Qed.

Lemma wp_open_image_guard {A} x bs g ty (f : BlockHeader -> result unit)
    (k : BlockHeader -> bytes -> result A) (Q : A -> Prop) R :
  BlockHeader_typed (header_of x g) -> bh_block_type (header_of x g) = ty ->
  bh_payload_len (header_of x g) = zlen (wire x) -> zlen (wire x) <= bs - 32 ->
  f (header_of x g) = Ok tt -> wp (k (header_of x g) (wire x)) Q R ->
  wp (let* header := verify (image x bs g) ty in do* f header in
      let* p := payload header (image x bs g) in k header p) Q R.
Proof.
  intros Ht Hty Hp Hl Hf Hk.
  pose proof (wp_open_image x bs g ty k Q R Ht Hty Hp Hl Hk) as H.
  pose proof (zlen_nonneg (wire x)).
  assert (verify (image x bs g) ty = Ok (header_of x g)) as Hver.
  { unfold image. rewrite <- Hty. apply verify_sealed; [done|rewrite zlen_app, zlen_zeros; lia|].
    rewrite zlen_app, zlen_zeros, Hp, sub_app_r, sub_zeros by lia. f_equal. lia. }
  rewrite Hver in *. cbn [obind] in *. by rewrite Hf.
Qed.

(** Sealing the image once the payload is written. *)
Lemma wp_seal_image x bs g (f : bytes -> result bytes) (Q : bytes -> Prop) R :
  bh_payload_len (header_of x g) = zlen (wire x) -> zlen (wire x) <= bs - 32 ->
  wp (f (upto (wire x) 0 (bs - 32)))
     (fun p => p = upto (wire x) (zlen (wire x)) (bs - 32) /\ Q (image x bs g)) R ->
  wp (let* block := with_payload (zeros bs) f in seal (header_of x g) block) Q R.
Proof.
  intros Hp Hl Hf. pose proof (zlen_nonneg (wire x)).
  apply wp_bind, wp_with_payload; [lia|].
  rewrite (upto_0 (wire x)). eapply wp_mono; [apply Hf| |done]. intros p [-> HQ].
  split; [rewrite zlen_upto; lia|]. apply wp_seal_body; [rewrite zlen_upto; lia|].
  by rewrite upto_full.
Qed.

(** An opened block is the image of the value read from it. *)
Lemma image_eq x block h p n g :
  block = sealed h (p ++ zeros n) -> 0 <= n -> p = wire x -> h = header_of x g ->
  block = image x (zlen block) g.
Proof.
  intros -> Hn -> ->. unfold image. do 3 f_equal.
  pose proof (zlen_nonneg (wire x)). rewrite zlen_sealed, zlen_app, zlen_zeros; lia.
Qed.
End Intro.

(** [header_typed]: the header of an image is in range. *)
Ltac header_typed :=
  unfold BlockHeader_typed, u16, u32, u64;
  cbn [bh_block_type bh_flags bh_owner bh_generation bh_payload_len];
  split_and!; first [lia | by vm_compute].

(** ** The interface of a value codec: tree values, with no block around them *)

Class ExactValue {X V : Type} (typed : X -> Prop)
    (encode : X -> result V) (decode : V -> result X) : Prop := {
  value_exact : forall v x, decode v = Ok x <-> typed x /\ encode x = Ok v;
  value_decode_total : forall v, decode v <> Panic;
  value_encode_total : forall x, typed x -> encode x <> Panic }.

Lemma exact_value {X V : Type} (typed : X -> Prop) (encode : X -> result V) (decode : V -> result X)
    (wire : X -> V) (adm : X -> Prop) :
  (forall x, typed x -> wp (encode x) (fun v => adm x /\ v = wire x) (fun _ => ~ adm x)) ->
  (forall x, typed x -> adm x -> decode (wire x) = Ok x) ->
  (forall v, wp (decode v) (fun x => typed x /\ adm x /\ v = wire x) any_error) ->
  ExactValue typed encode decode.
Proof.
  intros Henc Hfwd Hbwd. split.
  - intros v x. split.
    + intros H. destruct (wp_of_ok _ _ _ _ (Hbwd v) H) as (Ht & Ha & ->). split; [done|].
      pose proof (Henc x Ht) as He. destruct (encode x); simpl in He; [|tauto..]. by destruct He as [_ ->].
    + intros [Ht He]. pose proof (Henc x Ht) as Hw. rewrite He in Hw. destruct Hw as [Ha ->]. by apply Hfwd.
  - intros v. by eapply wp_not_panic.
  - intros x Ht. by eapply wp_not_panic, Henc.
Qed.

(** A buffer filled to the end of the image is the image. *)
Lemma upto_end (p : bytes) n : n = zlen p -> upto p n n = p.
Proof. intros ->. rewrite upto_full, Z.sub_diag. apply app_nil_r. Qed.

(** A validator that cannot panic: its verdict is all a caller learns. *)
Lemma wp_unit (c : result unit) (Q : unit -> Prop) (R : FormatError -> Prop) :
  c <> Panic -> (c = Ok tt -> Q tt) -> (c <> Ok tt -> forall e, R e) -> wp c Q R.
Proof. intros Hp HQ HR. destruct c as [[]| |]; simpl; auto. Qed.

(** [no_panic]: a computation made of guards only. *)
Ltac no_panic := repeat first [ done | case_match ].

(** Writing every byte of a window: what the window held does not matter. *)
Lemma wp_window (p s : bytes) a b (f : bytes -> result bytes) (Q : bytes -> Prop) R :
  0 <= a <= b -> b <= zlen p -> (forall buf, zlen buf = b - a -> f buf = Ok s) ->
  wp (put p a b s) Q R ->
  wp (let* buf := slice p a b in let* buf := f buf in put p a b buf) Q R.
Proof.
  intros Hab Hb Hf Hput. apply wp_bind, wp_slice; [lia..|]. rewrite Hf by (rewrite zlen_sub; lia). exact Hput.
Qed.

(** [fill]: three puts that cover a buffer in order. *)
Ltac fill buf :=
  replace buf with ([] ++ sub buf 0 (zlen buf)) at 1 by (by apply sub_all);
  unfold put_u8, put_u16, put_u32, put_u64, put_i64;
  repeat (rewrite put_next; [cbn [obind]|side..]).
