(* ===== verification/TreeNode.v ===== *)
(** * B+ tree nodes on disk (crates/afsplus-format/src/tree.rs)

    The generic node codec of the copy-on-write trees: structural validation,
    encoding, decoding, child references and the integer keys whose byte order
    is their numeric order.  [SmallBytes] values are their bytes here; the
    representation is the subject of SmallBytes.v. *)

From Stdlib Require Import Sorted.
From S2P Require Import Prelude Crc32c Format Header Codec.

(** ** The code *)

Definition TREE_FIXED_PAYLOAD : Z := 32.
Definition ITEM_FIXED : Z := 8.
Definition MAX_TREE_LEVEL : Z := 15.
Definition MAX_TREE_KEY_BYTES : Z := 1020.

Inductive TreeKind : Type :=
| ObjectMap
| Directory
| ExtentMap
| AllocationRoot
| SharedExtents
| SnapshotRegistry
| SnapshotLifetimes.

#[global] Instance TreeKind_eq_dec : EqDecision TreeKind.
Proof. solve_decision. Defined.

Definition TreeKind_to_wire (k : TreeKind) : Z :=
  match k with
  | ObjectMap => 1
  | Directory => 2
  | ExtentMap => 3
  | AllocationRoot => 4
  | SharedExtents => 5
  | SnapshotRegistry => 6
  | SnapshotLifetimes => 7
  end.

Definition TreeKind_from_wire (value : Z) : result TreeKind :=
  match value with
  | 1 => Ok ObjectMap
  | 2 => Ok Directory
  | 3 => Ok ExtentMap
  | 4 => Ok AllocationRoot
  | 5 => Ok SharedExtents
  | 6 => Ok SnapshotRegistry
  | 7 => Ok SnapshotLifetimes
  | _ => Err (Invalid "unknown tree kind")
  end.

Record TreeItem := { ti_key : bytes; ti_value : bytes }.
Record ChildRef := { cr_lba : Z; cr_subtree_items : Z }.

Record TreeNode := {
  tn_kind : TreeKind;
  tn_owner : Z;
  tn_level : Z;
  tn_subtree_items : Z;
  tn_leftmost_child : Z;
  tn_leftmost_items : Z;
  tn_items : list TreeItem;
}.

Definition TreeNode_leaf (kind : TreeKind) (owner : Z) : TreeNode :=
  {| tn_kind := kind; tn_owner := owner; tn_level := 0; tn_subtree_items := 0;
     tn_leftmost_child := 0; tn_leftmost_items := 0; tn_items := [] |}.

Definition is_leaf (n : TreeNode) : bool := tn_level n =? 0.

Definition fixed_item_capacity (block_size key_len value_len : Z) : result Z :=
  if (key_len =? 0) || (MAX_TREE_KEY_BYTES <? key_len) || (value_len =? 0) then
    Err (Invalid "tree item length out of range")
  else
    let* item_len :=
      ok_or (match checked_add 64 ITEM_FIXED key_len with
             | Some length => checked_add 64 length value_len
             | None => None
             end) (Overflow "tree item length") in
    let* available :=
      ok_or (checked_sub block_size (HEADER_SIZE + TREE_FIXED_PAYLOAD))
            (Overflow "tree node fixed payload") in
    Ok (available / item_len).

Definition add_item_len (length : Z) (item : TreeItem) : result Z :=
  ok_or (match checked_add 64 length ITEM_FIXED with
         | Some value =>
             match checked_add 64 value (zlen (ti_key item)) with
             | Some value => checked_add 64 value (zlen (ti_value item))
             | None => None
             end
         | None => None
         end) (Overflow "tree node payload length").

Definition encoded_len (n : TreeNode) : result Z :=
  ofold add_item_len TREE_FIXED_PAYLOAD (tn_items n).

Definition fits (n : TreeNode) (block_size : Z) : bool :=
  match encoded_len n with
  | Ok length => length <=? saturating_sub block_size HEADER_SIZE
  | _ => false
  end.

Definition child_ref (item : TreeItem) : result ChildRef :=
  if negb (zlen (ti_value item) =? 16) then Err (Invalid "internal tree child has wrong size") else
  let* lba := get_u64_at (ti_value item) 0 8 in
  let* subtree_items := get_u64_at (ti_value item) 8 16 in
  if (lba =? 0) || (subtree_items =? 0) then Err (Invalid "internal tree child is zero") else
  Ok {| cr_lba := lba; cr_subtree_items := subtree_items |}.

Definition check_item_lengths (_ : unit) (item : TreeItem) : result unit :=
  if (zlen (ti_key item) =? 0) || (MAX_TREE_KEY_BYTES <? zlen (ti_key item)) then
    Err (Invalid "tree key length out of range")
  else if zlen (ti_value item) =? 0 then Err (Invalid "tree value is empty")
  else Ok tt.

(** [for pair in self.items.windows(2)]. *)
Fixpoint check_key_order (items : list TreeItem) : result unit :=
  match items with
  | a :: ((b :: _) as rest) =>
      if bytes_ltb (ti_key a) (ti_key b) then check_key_order rest
      else Err (Invalid "tree keys not strictly ordered")
  | _ => Ok tt
  end.

Definition add_child_items (counted : Z) (item : TreeItem) : result Z :=
  let* child := child_ref item in
  ok_or (checked_add 64 counted (cr_subtree_items child)) (Overflow "tree subtree item count").

Definition TreeNode_validate (n : TreeNode) : result unit :=
  if MAX_TREE_LEVEL <? tn_level n then Err (Invalid "tree level exceeds implementation cap") else
  do* ofold check_item_lengths tt (tn_items n) in
  do* check_key_order (tn_items n) in
  if is_leaf n then
    if negb (tn_leftmost_child n =? 0) || negb (tn_leftmost_items n =? 0) ||
       negb (tn_subtree_items n =? zlen (tn_items n)) then
      Err (Invalid "leaf tree accounting is inconsistent")
    else Ok tt
  else
    if (tn_leftmost_child n =? 0) || (tn_leftmost_items n =? 0) || (zlen (tn_items n) =? 0) then
      Err (Invalid "internal tree node has no children")
    else
      let* counted := ofold add_child_items (tn_leftmost_items n) (tn_items n) in
      if negb (tn_subtree_items n =? counted) then
        Err (Invalid "internal tree item count is inconsistent")
      else Ok tt.

Definition encode_item (st : bytes * Z) (item : TreeItem) : result (bytes * Z) :=
  let '(p, offset) := st in
  if (65535 <? zlen (ti_key item)) || (65535 <? zlen (ti_value item)) then
    Err (Overflow "tree item length")
  else
    let* p := put_u16 p offset (offset + 2) (as_u16 (zlen (ti_key item))) in
    let* p := put_u16 p (offset + 2) (offset + 4) (as_u16 (zlen (ti_value item))) in
    let offset := offset + ITEM_FIXED in
    let* p := put p offset (offset + zlen (ti_key item)) (ti_key item) in
    let offset := offset + zlen (ti_key item) in
    let* p := put p offset (offset + zlen (ti_value item)) (ti_value item) in
    Ok (p, offset + zlen (ti_value item)).

Definition TreeNode_encode (n : TreeNode) (block_size transaction_generation : Z) : result bytes :=
  if transaction_generation =? 0 then Err (Invalid "tree generation must be nonzero") else
  do* TreeNode_validate n in
  let* payload_len := encoded_len n in
  if saturating_sub block_size HEADER_SIZE <? payload_len then
    Err (Overflow "tree node exceeds one block") else
  if 2 ^ 32 - 1 <? zlen (tn_items n) then Err (Overflow "tree node item count") else
  let* block := with_payload (zeros block_size) (fun p =>
    let* p := put_u8 p 0 (TreeKind_to_wire (tn_kind n)) in
    let* p := put_u8 p 1 (tn_level n) in
    let* p := put_u32 p 4 8 (as_u32 (zlen (tn_items n))) in
    let* p := put_u64 p 8 16 (tn_subtree_items n) in
    let* p := put_u64 p 16 24 (tn_leftmost_child n) in
    let* p := put_u64 p 24 32 (tn_leftmost_items n) in
    let* '(p, _) := ofold encode_item (p, TREE_FIXED_PAYLOAD) (tn_items n) in
    Ok p) in
  seal {| bh_block_type := block_type.TREE_NODE; bh_flags := 0; bh_owner := tn_owner n;
          bh_generation := transaction_generation; bh_payload_len := as_u32 payload_len |} block.

(** [for _ in 0..count], the items pushed in order. *)
Fixpoint decode_items (p : bytes) (count : nat) (offset : Z) : result (list TreeItem * Z) :=
  match count with
  | O => Ok ([], offset)
  | S count =>
      if zlen p - offset <? ITEM_FIXED then Err (Invalid "truncated tree item") else
      let* key_len := get_u16_at p offset (offset + 2) in
      let* value_len := get_u16_at p (offset + 2) (offset + 4) in
      let* reserved := slice p (offset + 4) (offset + 8) in
      if negb (bytes_eqb reserved (zeros 4)) then
        Err (Invalid "tree item reserved field is nonzero") else
      let offset := offset + ITEM_FIXED in
      if (zlen p - offset <? key_len) || (zlen p - offset - key_len <? value_len) then
        Err (Invalid "tree item lengths exceed payload") else
      let* key := slice p offset (offset + key_len) in
      let offset := offset + key_len in
      let* value := slice p offset (offset + value_len) in
      let offset := offset + value_len in
      let* '(items, offset) := decode_items p count offset in
      Ok ({| ti_key := key; ti_value := value |} :: items, offset)
  end.

Definition TreeNode_decode_payload (header : BlockHeader) (p : bytes) : result (TreeNode * Z) :=
  if zlen p <? TREE_FIXED_PAYLOAD then Err (Invalid "tree node payload too short") else
  let* reserved := slice p 2 4 in
  if negb (bh_flags header =? 0) || (bh_generation header =? 0) ||
     negb (bytes_eqb reserved (zeros 2)) then
    Err (Invalid "tree node header fields are invalid") else
  let* count := get_u32_at p 4 8 in
  if (zlen p - TREE_FIXED_PAYLOAD) / ITEM_FIXED <? count then
    Err (Invalid "tree item count exceeds payload") else
  let* '(items, offset) := decode_items p (Z.to_nat count) TREE_FIXED_PAYLOAD in
  if negb (offset =? zlen p) then Err (Invalid "tree node payload length mismatch") else
  let* b0 := index p 0 in
  let* kind := TreeKind_from_wire b0 in
  let* level := index p 1 in
  let* subtree_items := get_u64_at p 8 16 in
  let* leftmost_child := get_u64_at p 16 24 in
  let* leftmost_items := get_u64_at p 24 32 in
  let node := {| tn_kind := kind; tn_owner := bh_owner header; tn_level := level;
                 tn_subtree_items := subtree_items; tn_leftmost_child := leftmost_child;
                 tn_leftmost_items := leftmost_items; tn_items := items |} in
  do* TreeNode_validate node in
  Ok (node, bh_generation header).

Definition TreeNode_decode (block : bytes) : result (TreeNode * Z) :=
  let* header := verify block block_type.TREE_NODE in
  let* p := payload header block in
  TreeNode_decode_payload header p.

Definition key_u64 (value : Z) : bytes := rev (le_split 8 value).
Definition key_u32 (value : Z) : bytes := rev (le_split 4 value).

Definition child_value (child : ChildRef) : result bytes :=
  if (cr_lba child =? 0) || (cr_subtree_items child =? 0) then
    Err (Invalid "internal tree child is zero")
  else
    let value := zeros 16 in
    let* value := put_u64 value 0 8 (cr_lba child) in
    put_u64 value 8 16 (cr_subtree_items child).

(** ** The wire image *)

Definition item_wire (item : TreeItem) : bytes :=
  le_split 2 (zlen (ti_key item)) ++ le_split 2 (zlen (ti_value item)) ++ zeros 4 ++
  ti_key item ++ ti_value item.

Definition TreeNode_wire (n : TreeNode) : bytes :=
  [byte.of_Z (TreeKind_to_wire (tn_kind n))] ++ [byte.of_Z (tn_level n)] ++ zeros 2 ++
  le_split 4 (zlen (tn_items n)) ++ le_split 8 (tn_subtree_items n) ++
  le_split 8 (tn_leftmost_child n) ++ le_split 8 (tn_leftmost_items n) ++
  wires item_wire (tn_items n).

Definition TreeNode_header (n : TreeNode) (g : Z) : BlockHeader :=
  {| bh_block_type := block_type.TREE_NODE; bh_flags := 0; bh_owner := tn_owner n;
     bh_generation := g; bh_payload_len := zlen (TreeNode_wire n) |}.

Definition TreeNode_typed (n : TreeNode) (g : Z) : Prop :=
  u64 (tn_owner n) /\ u8 (tn_level n) /\ u64 (tn_subtree_items n) /\
  u64 (tn_leftmost_child n) /\ u64 (tn_leftmost_items n) /\ u64 g.

Definition small_item (item : TreeItem) : Prop :=
  zlen (ti_key item) < 2 ^ 16 /\ zlen (ti_value item) < 2 ^ 16.

Definition TreeNode_adm (n : TreeNode) (bs g : Z) : Prop :=
  g <> 0 /\ TreeNode_validate n = Ok tt /\ Forall small_item (tn_items n) /\
  zlen (TreeNode_wire n) <= bs - 32.

Lemma zlen_item_wire item :
  zlen (item_wire item) = 8 + zlen (ti_key item) + zlen (ti_value item).
Proof. unfold item_wire. autorewrite with zlen. lia. Qed.

Lemma item_wire_eq item : item_wire item =
  le_split 2 (zlen (ti_key item)) ++ le_split 2 (zlen (ti_value item)) ++ zeros 4 ++
  ti_key item ++ ti_value item.
Proof. done. Qed.

Lemma zlen_TreeNode_wire n : zlen (TreeNode_wire n) = 32 + zlen (wires item_wire (tn_items n)).
Proof. unfold TreeNode_wire. autorewrite with zlen. lia. Qed.

#[local] Hint Unfold TreeNode_wire item_wire : wire.
#[local] Hint Rewrite zlen_TreeNode_wire zlen_item_wire : zlen.

Lemma zlen_items_le items : 8 * zlen items <= zlen (wires item_wire items).
Proof.
  induction items as [|x l IH]; [done|]. rewrite zlen_wires_cons, zlen_cons, zlen_item_wire.
  pose proof (zlen_nonneg (ti_key x)). pose proof (zlen_nonneg (ti_value x)). lia.
Qed.

(** ** Structural validation is total *)

Lemma wp_child_ref item (Q : ChildRef -> Prop) R :
  (forall c, zlen (ti_value item) = 16 ->
     ti_value item = le_split 8 (cr_lba c) ++ le_split 8 (cr_subtree_items c) ->
     u64 (cr_lba c) -> u64 (cr_subtree_items c) -> cr_lba c <> 0 -> cr_subtree_items c <> 0 -> Q c) ->
  (forall e, R e) -> wp (child_ref item) Q R.
Proof.
  intros HQ HR. unfold child_ref. apply wp_if; [intros; apply wp_err, HR|intros Hl].
  rx. rx. apply wp_if; [intros; apply wp_err, HR|intros Hz]. apply wp_ok.
  apply HQ; cbn [cr_lba cr_subtree_items]; unfold u64; try lia.
  rewrite <- (sub_all (ti_value item) 16) at 1 by lia. rewire.
Qed.

Lemma validate_total n : TreeNode_validate n <> Panic.
Proof.
  eapply (wp_not_panic _ (fun _ => True)), (wp_mono _ (fun _ => True) _ any_error); [|done..].
  unfold TreeNode_validate. rx. apply wp_bind.
  apply (wp_ofold _ (fun _ _ => True)); [done| |intros _ _].
  { intros [] x l _. unfold check_item_lengths. rx. rx. done. }
  apply wp_bind. assert (wp (check_key_order (tn_items n)) (fun _ => True) any_error) as Ho.
  { induction (tn_items n) as [|a [|b l] IH]; [done..|]. cbn [check_key_order].
    by destruct (bytes_ltb _ _). }
  eapply wp_mono; [exact Ho| |done]. intros _ _. cbv beta.
  apply wp_if; intros _; [by rx|]. rx. apply wp_bind.
  apply (wp_ofold _ (fun _ _ => True)); [done| |].
  - intros c x l _. unfold add_child_items. apply wp_bind, wp_child_ref; [|done].
    intros. by apply wp_ok_or.
  - intros. by rx.
Qed.

Lemma wp_TreeNode_validate n (Q : unit -> Prop) (R : FormatError -> Prop) :
  (TreeNode_validate n = Ok tt -> Q tt) -> (TreeNode_validate n <> Ok tt -> forall e, R e) ->
  wp (TreeNode_validate n) Q R.
Proof.
  intros HQ HR. pose proof (validate_total n). destruct (TreeNode_validate n) as [[]| |] eqn:Hv; simpl; auto.
Qed.

(** ** The encoder writes the image *)

Lemma wp_encoded_len n (Q : Z -> Prop) R :
  Q (zlen (TreeNode_wire n)) -> (2 ^ 64 <= zlen (TreeNode_wire n) -> forall e, R e) ->
  wp (encoded_len n) Q R.
Proof.
  intros HQ HR. rewrite zlen_TreeNode_wire in HQ, HR. unfold encoded_len.
  apply (wp_ofold _ (fun len rest => len + zlen (wires item_wire rest)
    = 32 + zlen (wires item_wire (tn_items n)))); [done| |].
  - intros len x l Hinv. rewrite zlen_wires_cons, zlen_item_wire in Hinv.
    pose proof (zlen_nonneg (wires item_wire l)). unfold add_item_len, ITEM_FIXED, checked_add.
    pose proof (zlen_nonneg (ti_key x)). pose proof (zlen_nonneg (ti_value x)).
    apply wp_ok_or; [intros a|]; repeat case_match; intros; simplify_eq; (done || lia || (apply HR; lia)).
  - intros len Hinv. change (zlen (wires item_wire [])) with 0 in Hinv.
    by replace len with (32 + zlen (wires item_wire (tn_items n))) by lia.
Qed.

Lemma wp_encode_item W n off item :
  let o' := off + zlen (item_wire item) in
  0 <= off -> o' <= zlen W -> zlen W <= n -> sub W off o' = item_wire item ->
  wp (encode_item (upto W off n, off) item)
     (fun r => small_item item /\ r = (upto W o' n, o')) (fun _ => ~ small_item item).
Proof.
  intros o' Hoff Hl Hn Hw. unfold o' in *. rewrite zlen_item_wire in *. unfold item_wire in Hw.
  pose proof (zlen_nonneg (ti_key item)). pose proof (zlen_nonneg (ti_value item)).
  unfold encode_item, ITEM_FIXED. apply wp_if; [intros Hb; apply wp_err; unfold small_item; lia|intros Hs].
  rewrite !as_u16_small by lia.
  enc_field. enc_field. enc_field. enc_field. apply wp_ok. split; [unfold small_item; lia|].
  f_equal; [f_equal; lia|lia].
Qed.

Lemma wp_encode_items W n items off :
  0 <= off -> off + zlen (wires item_wire items) <= zlen W -> zlen W <= n ->
  sub W off (off + zlen (wires item_wire items)) = wires item_wire items ->
  wp (ofold encode_item (upto W off n, off) items)
     (fun r => Forall small_item items /\ fst r = upto W (off + zlen (wires item_wire items)) n)
     (fun _ => ~ Forall small_item items).
Proof.
  revert off. induction items as [|x l IH]; intros off Hoff Hl Hn Hw; cbn [ofold].
  - apply wp_ok. split; [constructor|]. cbn. f_equal. rewrite zlen_nil. lia.
  - rewrite zlen_wires_cons in *. pose proof (zlen_nonneg (wires item_wire l)).
    pose proof (zlen_nonneg (item_wire x)). rewrite wires_cons in Hw.
    assert (sub W off (off + zlen (item_wire x)) = item_wire x) as Hx by wire_read.
    assert (sub W (off + zlen (item_wire x)) (off + zlen (item_wire x) + zlen (wires item_wire l))
      = wires item_wire l) as Hrest.
    { eapply (sub_window W); [exact Hw|lia..|]. apply sub_skip; [lia|]. apply sub_last; lia. }
    apply wp_bind. eapply wp_mono; [apply wp_encode_item; [lia|lia|lia|done]| |].
    + intros r [Hs ->]. cbv beta. eapply wp_mono; [apply IH; [lia|lia|lia|done]| |].
      * intros r [HF Hr]. split; [by constructor|]. rewrite Hr. f_equal. lia.
      * cbv beta. intros _ HF. contradict HF. by inversion HF.
    + cbv beta. intros _ Hs HF. apply Hs. by inversion HF.
Qed.

Lemma TreeKind_wire_u8 k : u8 (TreeKind_to_wire k).
Proof. by destruct k. Qed.

Lemma TreeNode_encode_spec n bs g :
  TreeNode_typed n g -> 0 <= bs < 2 ^ 32 ->
  wp (TreeNode_encode n bs g)
     (fun b => TreeNode_adm n bs g /\ b = image TreeNode_header TreeNode_wire n bs g)
     (fun _ => ~ TreeNode_adm n bs g).
Proof.
  intros Ht Hbs. unfold TreeNode_encode, TreeNode_adm, saturating_sub, HEADER_SIZE.
  apply wp_if; [intros ?; apply wp_err; lia|intros Hg].
  apply wp_bind, wp_TreeNode_validate; [intros Hv|intros Hv _; tauto].
  apply wp_bind, wp_encoded_len; [|intros ? _ (_ & _ & _ & ?); lia].
  pose proof (zlen_TreeNode_wire n) as Hz. pose proof (zlen_items_le (tn_items n)).
  pose proof (zlen_nonneg (tn_items n)).
  apply wp_if; [intros ?; apply wp_err; lia|intros Hfit].
  apply wp_if; [intros ?; apply wp_err; lia|intros Hcount].
  rewrite !as_u32_small by lia.
  apply (wp_seal_image TreeNode_header TreeNode_wire n bs g); [done|lia|].
  do 6 enc_field. apply wp_bind. unfold TREE_FIXED_PAYLOAD. eapply wp_mono.
  - apply wp_encode_items; [lia|lia|lia|]. wire_read.
  - intros [p off] [HF Hp]. cbn [fst] in Hp. apply wp_ok. split; [by rewrite Hp, Hz|].
    repeat split; (done || lia).
  - cbv beta. tauto.
Qed.

(** ** The decoder accepts the images and nothing else *)

Lemma decode_items_image p items off :
  0 <= off -> off + zlen (wires item_wire items) <= zlen p ->
  sub p off (off + zlen (wires item_wire items)) = wires item_wire items ->
  Forall small_item items ->
  decode_items p (length items) off = Ok (items, off + zlen (wires item_wire items)).
Proof.
  revert off. induction items as [|x l IH]; intros off Hoff Hl Hw HF; cbn [decode_items length].
  - do 2 f_equal. change (zlen (wires item_wire [])) with 0. lia.
  - rewrite zlen_wires_cons in *. pose proof (zlen_nonneg (wires item_wire l)).
    pose proof (zlen_nonneg (ti_key x)). pose proof (zlen_nonneg (ti_value x)).
    rewrite wires_cons in Hw. apply Forall_cons in HF as [[Hk Hv] HF].
    rewrite zlen_item_wire in *. rewrite item_wire_eq, <- !app_assoc in Hw.
    unfold ITEM_FIXED. apply wp_no_error. apply wp_if_false; [lia|].
    rd. rd. rd. apply wp_if_false; [by rewrite bytes_eqb_refl|]. apply wp_if_false; [lia|].
    rd. rd. rewrite IH; [|lia|lia| |done].
    { cbn. f_equal; [by destruct x|lia]. }
    eapply (sub_window p); [exact Hw|lia..|]. rewrite !app_assoc.
    apply sub_skip; [side|]. apply sub_last; side.
Qed.

Lemma wp_decode_items p count off :
  0 <= off <= zlen p ->
  wp (decode_items p count off)
     (fun '(items, off') => length items = count /\ off <= off' <= zlen p /\
        sub p off off' = wires item_wire items /\ Forall small_item items) any_error.
Proof.
  revert off. induction count as [|count IH]; intros off Hoff; cbn [decode_items].
  - apply wp_ok. repeat split; [lia|lia|apply sub_empty|constructor].
  - unfold ITEM_FIXED. rx. rx. rx. rx. rx. rx. rx. rx. apply wp_bind.
    eapply wp_mono; [apply IH; lia| |done]. intros [items off'] (Hlen & Ho & Hsub & HF).
    apply wp_ok.
    repeat split; [by cbn; f_equal|lia|lia| |].
    + rewrite wires_cons. rewrite item_wire_eq. cbn [ti_key ti_value].
      rewrite !zlen_sub, !Z.add_simpl_l, <- !app_assoc by lia. rewire.
    + constructor; [|done]. split; cbn; rewrite zlen_sub; lia.
Qed.

Lemma TreeKind_from_to k : TreeKind_from_wire (TreeKind_to_wire k) = Ok k.
Proof. by destruct k. Qed.

Lemma TreeKind_to_from v k : TreeKind_from_wire v = Ok k -> TreeKind_to_wire k = v.
Proof. unfold TreeKind_from_wire. intros H. repeat case_match; by simplify_eq. Qed.

Lemma TreeKind_from_total v : TreeKind_from_wire v <> Panic.
Proof. unfold TreeKind_from_wire. by repeat case_match. Qed.

Lemma TreeNode_decode_image n bs g :
  TreeNode_typed n g -> bs < 2 ^ 32 -> TreeNode_adm n bs g ->
  TreeNode_decode (image TreeNode_header TreeNode_wire n bs g) = Ok (n, g).
Proof.
  intros (Hown & Hlev & Hsub & Hlc & Hli & Hgu) Hbs (Hg & Hv & HF & Hfit).
  unfold u8, u64 in *. pose proof (zlen_TreeNode_wire n) as Hz.
  pose proof (zlen_items_le (tn_items n)). pose proof (zlen_nonneg (tn_items n)).
  apply wp_no_error. unfold TreeNode_decode. apply wp_open_image; [|done|done|done|].
  { unfold TreeNode_header. header_typed. }
  unfold TreeNode_decode_payload, TREE_FIXED_PAYLOAD, ITEM_FIXED. cbn [bh_flags bh_generation TreeNode_header].
  apply wp_if_false; [lia|]. rd. apply wp_if_false; [rewrite bytes_eqb_refl; lia|].
  rd. apply wp_if_false.
  { apply Z.ltb_ge, Z.div_le_lower_bound; lia. }
  apply wp_bind. replace (Z.to_nat (zlen (tn_items n))) with (length (tn_items n)) by (unfold zlen; lia).
  rewrite decode_items_image; [|lia|lia|wire_read|done]. apply wp_ok.
  apply wp_if_false; [lia|]. rd. rewrite byte_unsigned_of by apply TreeKind_wire_u8.
  rewrite TreeKind_from_to. apply wp_bind, wp_ok. rd. rd. rd. rd.
  apply wp_bind. destruct n. cbn in *. by rewrite Hv.
Qed.

Lemma TreeNode_decode_inv block :
  wp (TreeNode_decode block)
     (fun '(n, g) => TreeNode_typed n g /\ TreeNode_adm n (zlen block) g /\
        block = image TreeNode_header TreeNode_wire n (zlen block) g) any_error.
Proof.
  unfold TreeNode_decode. apply wp_open; [|done]. intros h p n Ht Hty Hp Hn Hblock.
  unfold TreeNode_decode_payload, TREE_FIXED_PAYLOAD, ITEM_FIXED.
  rx. rx. rx. rx. rx. apply wp_bind. eapply wp_mono; [apply wp_decode_items; lia| |done].
  intros [items off] (Hlen & Ho & Hit & HF). rx. rx. apply wp_bind.
  apply wp_any; [apply TreeKind_from_total|]. intros k Hk%TreeKind_to_from.
  rx. rx. rx. rx. apply wp_bind, wp_TreeNode_validate; [intros Hv|done]. apply wp_ok.
  set (node := {| tn_kind := k |}) in *.
  assert (p = TreeNode_wire node) as Hw.
  { rewrite <- (sub_all p (zlen p)) at 1 by done. unfold TreeNode_wire, node.
    cbn [tn_kind tn_level tn_subtree_items tn_leftmost_child tn_leftmost_items tn_items].
    rewrite Hk. replace (zlen items) with (le_combine (sub p 4 8)) by (unfold zlen; lia).
    subst off. rewire. }
  assert (h = TreeNode_header node (bh_generation h)) as Hh.
  { unfold TreeNode_header. rewrite <- Hw, Hp, <- Hty, <- H0. by destruct h. }
  unfold BlockHeader_typed in Ht. split_and!.
  - unfold TreeNode_typed, u64 in *. cbn. tauto.
  - split_and!; [done|done|done|]. rewrite Hblock, <- Hw.
    rewrite zlen_sealed, zlen_app, zlen_zeros; lia.
  - by eapply image_eq.
Qed.

#[export] Instance TreeNode_exact : ExactCodec TreeNode_typed TreeNode_encode TreeNode_decode.
Proof.
  apply (exact_codec _ _ _ TreeNode_header TreeNode_wire TreeNode_adm).
  - intros n bs g _ (_ & _ & _ & H). exact H.
  - apply TreeNode_encode_spec.
  - apply TreeNode_decode_image.
  - apply TreeNode_decode_inv.
Qed.

(** ** Keys and child references *)

Definition child_wire (c : ChildRef) : bytes := le_split 8 (cr_lba c) ++ le_split 8 (cr_subtree_items c).
#[local] Hint Unfold child_wire : wire.

Lemma child_ref_child_value c v :
  u64 (cr_lba c) -> u64 (cr_subtree_items c) -> child_value c = Ok v ->
  forall k, child_ref {| ti_key := k; ti_value := v |} = Ok c.
Proof.
  unfold u64. intros Hl Hs. unfold child_value.
  destruct (_ || _) eqn:Hz; [done|]. intros Hv k.
  assert (zlen (child_wire c) = 16) as HW by (unfold child_wire; side).
  assert (v = child_wire c) as ->.
  { refine (wp_of_ok _ _ (fun v => v = child_wire c) no_error _ Hv). rewrite (upto_0 (child_wire c)).
    enc_field. enc_field. rewrite <- HW, upto_full, Z.sub_diag. apply app_nil_r. }
  apply wp_no_error. unfold child_ref. cbn [ti_value].
  apply wp_if_false; [side|]. rd. rd. apply wp_if_false; [done|]. apply wp_ok. by destruct c.
Qed.

(** Strictly increasing keys, as a sorted list. *)
Definition key_lt (a b : TreeItem) : Prop := bytes_ltb (ti_key a) (ti_key b) = true.

Lemma check_key_order_sorted items : check_key_order items = Ok tt <-> StronglySorted key_lt items.
Proof.
  split.
  - intros H. apply Sorted_StronglySorted; [intros ???; apply bytes_ltb_trans|].
    induction items as [|a [|b l] IH]; [repeat constructor..|]. cbn [check_key_order] in H.
    destruct (bytes_ltb _ _) eqn:Hab; [|done]. constructor; [by apply IH|by constructor].
  - intros H%StronglySorted_Sorted. induction H as [|a [|b l] Hl IH Hh]; [done..|].
    cbn [check_key_order]. inversion Hh as [|?? Hab]; subst. unfold key_lt in Hab. by rewrite Hab.
Qed.

(** Big-endian bytes compare like the numbers they spell. *)
Lemma bytes_cmp_app a b x y :
  length a = length b ->
  bytes_cmp (a ++ [x]) (b ++ [y]) =
    match bytes_cmp a b with Eq => byte.unsigned x ?= byte.unsigned y | c => c end.
Proof.
  revert b. induction a as [|u a IH]; intros [|v b] Hl; try done; simpl.
  - by destruct (_ ?= _).
  - injection Hl as Hl. rewrite IH by done. by destruct (byte.unsigned u ?= byte.unsigned v).
Qed.

Lemma bytes_cmp_rev (a b : bytes) :
  length a = length b -> bytes_cmp (rev a) (rev b) = (le_combine a ?= le_combine b).
Proof.
  revert b. induction a as [|x a IH]; intros [|y b] Hl; try done.
  injection Hl as Hl. cbn [rev]. rewrite bytes_cmp_app by (by rewrite !length_rev).
  rewrite IH, !le_combine_cons by done.
  pose proof (byte.unsigned_range x). pose proof (byte.unsigned_range y).
  destruct (le_combine a ?= le_combine b) eqn:Hc;
    rewrite ?Z.compare_eq_iff, ?Z.compare_lt_iff, ?Z.compare_gt_iff in Hc; symmetry.
  - rewrite Hc, !(Z.add_comm (byte.unsigned _)). apply Z.add_compare_mono_l.
  - apply Z.compare_lt_iff. lia.
  - apply Z.compare_gt_iff. lia.
Qed.

Lemma key_u64_cmp a b : u64 a -> u64 b -> bytes_cmp (key_u64 a) (key_u64 b) = (a ?= b).
Proof.
  unfold u64, key_u64. intros. rewrite bytes_cmp_rev by (by rewrite !length_le_split).
  by rewrite !le_get8.
Qed.

Lemma key_u32_cmp a b : u32 a -> u32 b -> bytes_cmp (key_u32 a) (key_u32 b) = (a ?= b).
Proof.
  unfold u32, key_u32. intros. rewrite bytes_cmp_rev by (by rewrite !length_le_split).
  by rewrite !le_get4.
Qed.

(** ** Node capacity *)

Lemma wires_uniform_items items kl vl :
  Forall (fun i => zlen (ti_key i) = kl /\ zlen (ti_value i) = vl) items ->
  zlen (wires item_wire items) = (8 + kl + vl) * zlen items.
Proof.
  induction 1 as [|x l [Hk Hv] _ IH]; [unfold zlen; cbn; lia|].
  rewrite zlen_wires_cons, IH, zlen_item_wire, zlen_cons, Hk, Hv. lia.
Qed.

Lemma fits_iff n bs : 32 <= bs < 2 ^ 64 -> fits n bs = true <-> zlen (TreeNode_wire n) <= bs - 32.
Proof.
  intros Hbs. unfold fits, saturating_sub, HEADER_SIZE.
  pose proof (wp_encoded_len n (fun l => l = zlen (TreeNode_wire n))
    (fun _ => 2 ^ 64 <= zlen (TreeNode_wire n)) eq_refl (fun H _ => H)) as Hl.
  destruct (encoded_len n); simpl in Hl; [subst; lia|lia|done].
Qed.

(** C34: the node codec is exact. A block decodes to a node precisely when it
    is what encoding that node in a block of that size produces, so no two
    blocks decode alike and every block an encoder wrote is read back; neither
    direction panics, on any bytes and any node. *)
Theorem TreeNode_codec_exact block n g bs :
  zlen block < 2 ^ 32 -> 0 <= bs < 2 ^ 32 ->
  (TreeNode_decode block = Ok (n, g) <->
   TreeNode_typed n g /\ TreeNode_encode n (zlen block) g = Ok block) /\
  TreeNode_decode block <> Panic /\
  (TreeNode_typed n g -> TreeNode_encode n bs g <> Panic).
Proof.
  intros Hz Hbs. split_and!; [by apply decode_exact|apply decode_total|intros; by apply encode_total].
Qed.

Definition sample_node : TreeNode :=
  {| tn_kind := ExtentMap; tn_owner := 17; tn_level := 0; tn_subtree_items := 2;
     tn_leftmost_child := 0; tn_leftmost_items := 0;
     tn_items := [ {| ti_key := key_u64 3; ti_value := [Byte.x01] |};
                   {| ti_key := key_u64 258; ti_value := [Byte.x02; Byte.x03] |} ] |}.

Definition sample_node_block : bytes :=
  match TreeNode_encode sample_node 160 9 with Ok b => b | _ => [] end.

Lemma TreeNode_codec_exact_witness :
  TreeNode_decode sample_node_block = Ok (sample_node, 9).
Proof.
  apply (TreeNode_codec_exact sample_node_block sample_node 9 160); [by vm_compute|done|].
  split; [by vm_compute|]. vm_compute. reflexivity.
Defined.

Definition sample_leaf : TreeNode :=
  {| tn_kind := ObjectMap; tn_owner := 1; tn_level := 0; tn_subtree_items := 2;
     tn_leftmost_child := 0; tn_leftmost_items := 0;
     tn_items := [ {| ti_key := key_u64 3; ti_value := zeros 16 |};
                   {| ti_key := key_u64 4; ti_value := zeros 16 |} ] |}.

(** integer keys order like the integers: comparing the encoded keys of
    two numbers as byte strings compares the numbers, at both widths. *)
Theorem integer_keys_ordered a b :
  u64 a -> u64 b ->
  bytes_ltb (key_u64 a) (key_u64 b) = (a <? b) /\
  (a < 2 ^ 32 -> b < 2 ^ 32 -> bytes_ltb (key_u32 a) (key_u32 b) = (a <? b)).
Proof.
  intros Ha Hb. unfold bytes_ltb, Z.ltb. split; [by rewrite key_u64_cmp|].
  intros. rewrite key_u32_cmp; [done|unfold u64, u32 in *; lia..].
Qed.

Lemma integer_keys_ordered_witness : bytes_ltb (key_u64 255) (key_u64 256) = true.
Proof. apply (integer_keys_ordered 255 256); by vm_compute. Defined.

(** [fixed_item_capacity] is exact: a node whose items all have the given
    key and value lengths fits its block precisely when it has at most that
    many items. *)
Theorem fixed_item_capacity_exact n bs key_len value_len cap :
  fixed_item_capacity bs key_len value_len = Ok cap -> 0 <= key_len -> 0 <= value_len -> bs < 2 ^ 64 ->
  Forall (fun i => zlen (ti_key i) = key_len /\ zlen (ti_value i) = value_len) (tn_items n) ->
  fits n bs = true <-> zlen (tn_items n) <= cap.
Proof.
  unfold fixed_item_capacity, checked_add, checked_sub, HEADER_SIZE, TREE_FIXED_PAYLOAD, ITEM_FIXED.
  intros Hcap Hk Hv Hbs HF. repeat (case_match; [|try done]; try done).
  all: try (by simplify_eq). cbn in Hcap. simplify_eq.
  rewrite fits_iff, zlen_TreeNode_wire, (wires_uniform_items _ _ _ HF) by lia.
  split; intros H'.
  - apply Z.div_le_lower_bound; lia.
  - pose proof (Z.mul_div_le (bs - (32 + 32)) (8 + key_len + value_len) ltac:(lia)). nia.
Qed.

Lemma fixed_item_capacity_exact_witness : fits sample_leaf 256 = true <-> zlen (tn_items sample_leaf) <= 6.
Proof.
  apply (fixed_item_capacity_exact sample_leaf 256 8 16 6);
    [by vm_compute|done|done|done|repeat constructor].
Defined.
