(* ===== verification/Geometry.v ===== *)
(** * Allocation-region geometry (crates/afsplus-format/src/geometry.rs)

    The division of a volume into regions, the reserved head of every region
    and the placement of the permanent areas.  The theorems show that the
    constant-time admission check covers every region, that reserved and
    allocatable blocks partition the volume, that the deterministic metadata
    slots are distinct reserved blocks, and that the permanent areas are
    disjoint runs of allocatable blocks. *)

From S2P Require Import Prelude Crc32c Format Header TreeNode.

(** ** The code *)

(** bitmap.rs: region blocks represented by one bitmap block. *)
Definition BITMAP_FIXED_PAYLOAD : Z := 16.
Definition BITMAP_PAGE_BLOCKS : Z := (4096 - HEADER_SIZE - BITMAP_FIXED_PAYLOAD) * 8.

Definition BITMAP_SLOTS : Z := 3.
Definition DESCRIPTOR_SLOTS : Z := 3.
Definition BOOTSTRAP_BLOCKS : Z := 3.
Definition BOOTSTRAP_METADATA_BLOCKS : Z := 4.
Definition ALLOCATION_ROOT_KEY_BYTES : Z := 4.
Definition ALLOCATION_ROOT_VALUE_BYTES : Z := 16.
Definition MAX_REGION_BLOCKS : Z := 262144.
Definition MIN_REGION_BLOCKS : Z := 16.

(** The portable comparison, and the one the m68k target compiles. *)
Definition u64_is_below (left right : Z) : bool := left <? right.
Definition u64_is_below_m68k (left right : Z) : bool :=
  let left_high := Z.shiftr left 32 mod 2 ^ 32 in
  let right_high := Z.shiftr right 32 mod 2 ^ 32 in
  if negb (left_high =? right_high) then left_high <? right_high
  else left mod 2 ^ 32 <? right mod 2 ^ 32.

Record Geometry := { block_size : Z; total_blocks : Z; region_size : Z }.

Definition Geometry_typed (g : Geometry) : Prop :=
  usize (block_size g) /\ u64 (total_blocks g) /\ u32 (region_size g).

(** [u32::is_power_of_two]. *)
Definition is_power_of_two (v : Z) : bool := (0 <? v) && (2 ^ Z.log2 v =? v).

(** Division panics on a zero divisor. *)
Definition region_count (g : Geometry) : result Z :=
  if region_size g =? 0 then Panic else
  Ok (as_u32 (div_ceil (total_blocks g) (region_size g))).

Definition region_base (g : Geometry) (region : Z) : Z := region * region_size g.

Definition region_valid_blocks (g : Geometry) (region : Z) : result Z :=
  let* rest := sub_w (total_blocks g) (region_base g region) in
  Ok (as_u32 (Z.min rest (region_size g))).

Definition region_of (g : Geometry) (lba : Z) : result Z :=
  if region_size g =? 0 then Panic else Ok (as_u32 (lba / region_size g)).

Definition bitmap_page_count (g : Geometry) (region : Z) : result Z :=
  let* valid := region_valid_blocks g region in
  Ok (div_ceil valid BITMAP_PAGE_BLOCKS).

Definition bitmap_page_valid_blocks (g : Geometry) (region page_index : Z) : result Z :=
  let* first := mul_w 32 page_index BITMAP_PAGE_BLOCKS in
  let* valid := region_valid_blocks g region in
  Ok (Z.min (saturating_sub valid first) BITMAP_PAGE_BLOCKS).

Definition bitmap_page_for_index (region_index : Z) : Z * Z :=
  (region_index / BITMAP_PAGE_BLOCKS, region_index mod BITMAP_PAGE_BLOCKS).

Definition region_reserved_blocks (g : Geometry) (region : Z) : result Z :=
  let* pages := bitmap_page_count g region in
  let* slots := mul_w 32 pages BITMAP_SLOTS in
  add_w 32 DESCRIPTOR_SLOTS slots.

(** [self.region_reserved_blocks(region) as u32 + if region == 0 { 3 } else { 0 }]. *)
Definition region_head (g : Geometry) (region : Z) : result Z :=
  let* reserved := region_reserved_blocks g region in
  add_w 32 (as_u32 reserved) (if region =? 0 then BOOTSTRAP_BLOCKS else 0).

Definition region_has_allocatable_blocks (g : Geometry) (region : Z) : result bool :=
  let* reserved := region_head g region in
  let* valid := region_valid_blocks g region in
  Ok (reserved <? valid).

Definition Geometry_validate (g : Geometry) : result unit :=
  if negb (block_size g =? 4096) then Err (Invalid "prototype supports only 4 KiB blocks") else
  if negb (is_power_of_two (region_size g)) || (region_size g <? MIN_REGION_BLOCKS)
     || (MAX_REGION_BLOCKS <? region_size g) then
    Err (Invalid "region size out of prototype range") else
  if total_blocks g =? 0 then Err (Invalid "total_blocks is zero") else
  let regions := div_ceil (total_blocks g) (region_size g) in
  if 2 ^ 32 - 1 <? regions then Err (Invalid "too many allocation regions") else
  let* last_region := sub_w (as_u32 regions) 1 in
  let* first_ok := region_has_allocatable_blocks g 0 in
  (* [||] and [&&] evaluate their right operand only when needed. *)
  let* bad :=
    if negb first_ok then Ok true
    else if negb (last_region =? 0) then
      let* last_ok := region_has_allocatable_blocks g last_region in Ok (negb last_ok)
    else Ok false in
  if (bad : bool) then Err (Invalid "allocation region is all reserved metadata") else Ok tt.

Definition region0_reserved_blocks (g : Geometry) : result Z :=
  let* reserved := region_reserved_blocks g 0 in
  add_w 64 BOOTSTRAP_BLOCKS reserved.

Definition descriptor_slot_lba (g : Geometry) (region slot : Z) : result Z :=
  if negb (slot <? DESCRIPTOR_SLOTS) then Panic else
  let head := if region =? 0 then BOOTSTRAP_BLOCKS else 0 in
  let* a := add_w 64 (region_base g region) head in
  add_w 64 a slot.

Definition bitmap_slot_lba (g : Geometry) (region page_index slot : Z) : result Z :=
  let* pages := bitmap_page_count g region in
  if negb (page_index <? pages) then Panic else
  if negb (slot <? BITMAP_SLOTS) then Panic else
  let head := if region =? 0 then BOOTSTRAP_BLOCKS else 0 in
  let* a := add_w 64 (region_base g region) head in
  let* a := add_w 64 a DESCRIPTOR_SLOTS in
  let* a := add_w 64 a (page_index * BITMAP_SLOTS) in
  add_w 64 a slot.

Definition is_reserved (g : Geometry) (lba : Z) : result bool :=
  if negb (u64_is_below lba (total_blocks g)) then Ok false else
  let* region := region_of g lba in
  let* rel := sub_w lba (region_base g region) in
  let offset := as_u32 rel in
  let* reserved := region_head g region in
  Ok (offset <? reserved).

Definition is_allocatable (g : Geometry) (lba : Z) : result bool :=
  if negb (u64_is_below lba (total_blocks g)) then Ok false else
  let* region := region_of g lba in
  let* rel := sub_w lba (region_base g region) in
  let offset := as_u32 rel in
  let* reserved := region_head g region in
  Ok (reserved <=? offset).

(** [while level > 1]: at most 64 halvings of a [usize]. *)
Fixpoint count_levels (fuel : nat) (fanout level total : Z) : result Z :=
  if level <=? 1 then Ok total else
  match fuel with
  | O => Panic
  | S fuel =>
      let level := div_ceil level fanout in
      let* total := ok_or (checked_add 64 total level) (Overflow "allocation-root node count") in
      count_levels fuel fanout level total
  end.

Definition allocation_root_logical_nodes (g : Geometry) : result Z :=
  let* leaf_capacity :=
    fixed_item_capacity (block_size g) ALLOCATION_ROOT_KEY_BYTES ALLOCATION_ROOT_VALUE_BYTES in
  let* items := fixed_item_capacity (block_size g) ALLOCATION_ROOT_KEY_BYTES 16 in
  let* fanout := add_w 64 items 1 in
  if (leaf_capacity =? 0) || (fanout <? 2) then
    Err (Invalid "block cannot hold an allocation-root node")
  else
    let* regions := region_count g in
    let level := div_ceil regions leaf_capacity in
    count_levels 64 fanout level level.

(** The body of [for lba in region0_reserved_blocks()..total_blocks]; [n] blocks remain. *)
Fixpoint reserved_run_from (g : Geometry) (n : nat) (lba to_skip count : Z) (run : list Z)
    : result (list Z) :=
  match n with
  | O => Err (Invalid "volume cannot hold its reserved metadata areas")
  | S n =>
      let* ok := is_allocatable g lba in
      if negb ok then reserved_run_from g n (lba + 1) to_skip count run
      else if 0 <? to_skip then reserved_run_from g n (lba + 1) (to_skip - 1) count run
      else
        let run := run ++ [lba] in
        if zlen run =? count then Ok run
        else reserved_run_from g n (lba + 1) to_skip count run
  end.

Definition reserved_run (g : Geometry) (skip count : Z) : result (list Z) :=
  if count =? 0 then Ok [] else
  let* start := region0_reserved_blocks g in
  reserved_run_from g (Z.to_nat (total_blocks g - start)) start skip count [].

Definition allocation_root_pool_lbas (g : Geometry) : result (list Z) :=
  let* nodes := allocation_root_logical_nodes g in
  let* blocks := ok_or (checked_mul 64 nodes 3) (Overflow "allocation-root pool size") in
  reserved_run g BOOTSTRAP_METADATA_BLOCKS blocks.

Definition intent_log_slot_lbas (g : Geometry) (log_slots : Z) : result (list Z) :=
  if log_slots =? 0 then Ok [] else
  let* nodes := allocation_root_logical_nodes g in
  let* pool := ok_or (checked_mul 64 nodes 3) (Overflow "allocation-root pool size") in
  let* skip := add_w 64 BOOTSTRAP_METADATA_BLOCKS pool in
  reserved_run g skip log_slots.

(** ** The geometry in closed form *)

Definition regions (g : Geometry) : Z := div_ceil (total_blocks g) (region_size g).
Definition valid (g : Geometry) (r : Z) : Z :=
  Z.min (total_blocks g - r * region_size g) (region_size g).
Definition pages (g : Geometry) (r : Z) : Z := div_ceil (valid g r) BITMAP_PAGE_BLOCKS.
Definition boot (r : Z) : Z := if r =? 0 then BOOTSTRAP_BLOCKS else 0.
Definition head (g : Geometry) (r : Z) : Z := 3 + 3 * pages g r + boot r.
Definition allocatable (g : Geometry) (lba : Z) : bool :=
  (lba <? total_blocks g) && (head g (lba / region_size g) <=? lba mod region_size g).

(** What the fixed-time admission establishes. *)
Class WfGeometry (g : Geometry) : Prop := {
  wf_block_size : block_size g = 4096;
  wf_pow2 : is_power_of_two (region_size g) = true;
  wf_region : 16 <= region_size g <= 262144;
  wf_total : 0 < total_blocks g < 2 ^ 64;
  wf_regions : regions g <= 2 ^ 32 - 1;
  wf_first : head g 0 < valid g 0;
  wf_last : regions g - 1 <> 0 -> head g (regions g - 1) < valid g (regions g - 1);
}.

Ltac geo_unfold :=
  unfold u32, u64, usize, BITMAP_SLOTS, DESCRIPTOR_SLOTS, BOOTSTRAP_BLOCKS, MIN_REGION_BLOCKS,
    MAX_REGION_BLOCKS, BITMAP_PAGE_BLOCKS, BITMAP_FIXED_PAYLOAD, HEADER_SIZE in *.

Section Closed.
Context (g : Geometry).
Context (Hrs : 16 <= region_size g <= 262144).
Context (Htb : 0 < total_blocks g < 2 ^ 64).

Lemma region_in_range r : 0 <= r < regions g -> r * region_size g < total_blocks g.
Proof.
  intros. unfold regions in *.
  pose proof (div_ceil_bounds (total_blocks g) (region_size g) ltac:(lia) ltac:(lia)). nia.
Qed.

Lemma regions_pos : 0 < regions g.
Proof. apply div_ceil_pos; lia. Qed.

Lemma valid_bounds r : 0 <= r < regions g -> 1 <= valid g r <= region_size g.
Proof. intros. pose proof (region_in_range r ltac:(lia)). unfold valid. lia. Qed.

Lemma pages_bounds r : 0 <= r < regions g -> 1 <= pages g r <= 9.
Proof.
  intros. pose proof (valid_bounds r ltac:(lia)). unfold pages.
  pose proof (div_ceil_bounds (valid g r) BITMAP_PAGE_BLOCKS) as H1. geo_unfold. lia.
Qed.

Lemma region_valid_blocks_eq r :
  0 <= r < regions g -> region_valid_blocks g r = Ok (valid g r).
Proof.
  intros. pose proof (region_in_range r ltac:(lia)). pose proof (valid_bounds r ltac:(lia)).
  unfold region_valid_blocks, sub_w, region_base. replace (_ <=? _) with true by lia. cbn [obind].
  f_equal. apply as_u32_small. unfold u32, valid in *. lia.
Qed.

Lemma bitmap_page_count_eq r : 0 <= r < regions g -> bitmap_page_count g r = Ok (pages g r).
Proof. intros. unfold bitmap_page_count. by rewrite region_valid_blocks_eq. Qed.

Lemma region_reserved_blocks_eq r :
  0 <= r < regions g -> region_reserved_blocks g r = Ok (3 + 3 * pages g r).
Proof.
  intros. pose proof (pages_bounds r ltac:(lia)). unfold region_reserved_blocks.
  rewrite bitmap_page_count_eq by done. apply wp_no_error.
  apply wp_bind, wp_ok, wp_bind, wp_mul_w; [geo_unfold; lia|].
  apply wp_add_w; geo_unfold; lia.
Qed.

Lemma head_bounds r : 0 <= r < regions g -> 6 <= head g r <= 33.
Proof.
  intros. pose proof (pages_bounds r ltac:(lia)). unfold head, boot, BOOTSTRAP_BLOCKS.
  destruct (r =? 0); lia.
Qed.

Lemma region_head_eq r : 0 <= r < regions g -> region_head g r = Ok (head g r).
Proof.
  intros. pose proof (head_bounds r ltac:(lia)). unfold region_head.
  rewrite region_reserved_blocks_eq by done. cbn [obind]. unfold head, boot in *.
  rewrite as_u32_small by (geo_unfold; destruct (r =? 0); lia).
  apply wp_no_error, wp_add_w; [geo_unfold; destruct (r =? 0); lia|done].
Qed.

Lemma has_allocatable_eq r :
  0 <= r < regions g -> region_has_allocatable_blocks g r = Ok (head g r <? valid g r).
Proof.
  intros. unfold region_has_allocatable_blocks. by rewrite region_head_eq, region_valid_blocks_eq.
Qed.

(** Full regions of the middle of the volume always have room. *)
Lemma full_region_has_room r :
  0 < r -> r < regions g - 1 -> head g r < valid g r.
Proof.
  intros. assert (valid g r = region_size g) as Hv.
  { unfold valid. pose proof (region_in_range (r + 1) ltac:(lia)). lia. }
  unfold head, boot, pages. rewrite Hv. replace (r =? 0) with false by lia.
  pose proof (div_ceil_bounds (region_size g) BITMAP_PAGE_BLOCKS) as Hd. geo_unfold. lia.
Qed.
End Closed.

(** ** Admission *)

Lemma wp_Geometry_validate g (Q : unit -> Prop) (R : FormatError -> Prop) :
  Geometry_typed g -> (WfGeometry g -> Q tt) -> (forall e, R e) ->
  wp (Geometry_validate g) Q R.
Proof.
  intros (_ & Htot & _) HQ HR. unfold Geometry_validate. geo_unfold.
  apply wp_if; [intros; apply wp_err, HR|intros Hbs].
  apply wp_if; [intros; apply wp_err, HR|intros Hrs].
  apply orb_false_iff in Hrs as [Hrs Hmax]. apply orb_false_iff in Hrs as [Hp2 Hmin].
  apply wp_if; [intros; apply wp_err, HR|intros Htb].
  apply wp_if; [intros; apply wp_err, HR|intros Hreg].
  fold (regions g) in *.
  assert (16 <= region_size g <= 262144) as Hr by lia.
  assert (0 < total_blocks g < 2 ^ 64) as Ht by lia.
  pose proof (regions_pos g Hr Ht) as Hpos.
  rewrite as_u32_small by (unfold u32; lia).
  apply wp_bind, wp_sub_w; [lia|].
  rewrite (has_allocatable_eq g Hr Ht 0) by lia. cbn [obind].
  destruct (head g 0 <? valid g 0) eqn:H0; cbn [negb].
  2: { cbn [obind]. apply wp_err, HR. }
  destruct (regions g - 1 =? 0) eqn:H1; cbn [negb].
  - cbn [obind]. apply wp_ok, HQ. split; try lia. by apply negb_false_iff.
  - rewrite has_allocatable_eq by lia. cbn [obind].
    apply wp_if; [intros; apply wp_err, HR|intros Hl].
    apply wp_ok, HQ. split; try lia. by apply negb_false_iff.
Qed.

Lemma validate_wf g : Geometry_typed g -> Geometry_validate g = Ok tt -> WfGeometry g.
Proof.
  intros Ht H. refine (wp_of_ok _ tt (fun _ => WfGeometry g) any_error _ H). by apply wp_Geometry_validate.
Qed.

Lemma wf_has_room g r : WfGeometry g -> 0 <= r < regions g -> head g r < valid g r.
Proof.
  intros [? ? ? ? ? Hf Hl] Hr. destruct (decide (r = 0)) as [->|]; [done|].
  destruct (decide (r = regions g - 1)) as [->|]; [apply Hl; lia|].
  apply full_region_has_room; lia.
Qed.

(** C32: admission looks at the first and the last region only, yet every
    region of an admitted geometry has a block to allocate; and admission
    never panics. *)
Theorem Geometry_validate_covers_regions g :
  Geometry_typed g ->
  Geometry_validate g <> Panic /\
  (Geometry_validate g = Ok tt ->
   exists n, region_count g = Ok n /\ 0 < n /\
     forall r, 0 <= r < n -> region_has_allocatable_blocks g r = Ok true).
Proof.
  intros Ht. split.
  - eapply (wp_not_panic _ (fun _ => True)), (wp_Geometry_validate _ _ any_error); done.
  - intros H. apply validate_wf in H; [|done]. destruct H as [? ? Hr Htb Hreg Hf Hl] eqn:HW.
    exists (regions g). pose proof (regions_pos g Hr Htb). split; [|split; [done|]].
    + unfold region_count. replace (region_size g =? 0) with false by lia.
      f_equal. apply as_u32_small. unfold u32, regions in *. lia.
    + intros r Hrr. rewrite has_allocatable_eq by done. f_equal.
      apply Z.ltb_lt, wf_has_room; [done|lia].
Qed.

(** ** Reserved and allocatable blocks *)

Section Wf.
Context (g : Geometry) {WF : WfGeometry g}.

Lemma lba_region lba :
  0 <= lba < total_blocks g ->
  0 <= lba / region_size g < regions g /\
  lba = lba / region_size g * region_size g + lba mod region_size g /\
  0 <= lba mod region_size g < valid g (lba / region_size g).
Proof.
  destruct WF. intros Hl. pose proof (Z.div_mod lba (region_size g) ltac:(lia)) as Hdm.
  pose proof (Z.mod_pos_bound lba (region_size g) ltac:(lia)).
  assert (0 <= lba / region_size g) by (apply Z.div_pos; lia).
  pose proof (div_ceil_bounds (total_blocks g) (region_size g)) as Hd. unfold regions, valid.
  split; [split; [done|nia]|]. split; [lia|]. nia.
Qed.

(** The closed forms of the arithmetic, on an admitted geometry. *)
Lemma wf_valid_blocks_eq r : 0 <= r < regions g -> region_valid_blocks g r = Ok (valid g r).
Proof. apply region_valid_blocks_eq; [apply wf_region|apply wf_total]. Qed.

Lemma wf_reserved_blocks_eq r : 0 <= r < regions g -> region_reserved_blocks g r = Ok (3 + 3 * pages g r).
Proof. apply region_reserved_blocks_eq; [apply wf_region|apply wf_total]. Qed.

Lemma wf_valid_bounds r : 0 <= r < regions g -> 1 <= valid g r <= region_size g.
Proof. apply valid_bounds; [apply wf_region|apply wf_total]. Qed.

Lemma wf_pages_bounds r : 0 <= r < regions g -> 1 <= pages g r <= 9.
Proof. apply pages_bounds; [apply wf_region|apply wf_total]. Qed.

Lemma wf_head_bounds r : 0 <= r < regions g -> 6 <= head g r <= 33.
Proof. apply head_bounds; [apply wf_region|apply wf_total]. Qed.

Lemma wf_regions_pos : 0 < regions g.
Proof. apply regions_pos; [apply wf_region|apply wf_total]. Qed.

Lemma region_of_eq lba :
  0 <= lba < total_blocks g -> region_of g lba = Ok (lba / region_size g).
Proof.
  intros Hl. pose proof (lba_region lba Hl). destruct WF. unfold region_of.
  replace (_ =? 0) with false by lia. f_equal. apply as_u32_small. unfold u32. lia.
Qed.

Lemma lba_offset lba :
  0 <= lba < total_blocks g ->
  @sub_w FormatError lba (region_base g (lba / region_size g)) = Ok (lba mod region_size g) /\
  as_u32 (lba mod region_size g) = lba mod region_size g.
Proof.
  intros Hl. pose proof (lba_region lba Hl) as (_ & He & Hm). unfold sub_w, region_base.
  destruct WF. split.
  - replace (_ <=? _) with true by lia. f_equal. lia.
  - apply as_u32_small. unfold u32, valid in *. lia.
Qed.

Lemma is_allocatable_eq lba : 0 <= lba -> is_allocatable g lba = Ok (allocatable g lba).
Proof.
  intros H0. unfold is_allocatable, allocatable, u64_is_below.
  destruct (lba <? total_blocks g) eqn:Hl; [|done]. apply Z.ltb_lt in Hl. cbn [negb].
  rewrite region_of_eq by lia. cbn [obind]. destruct (lba_offset lba) as [-> Ho]; [lia|].
  cbn [obind]. rewrite Ho, region_head_eq; [done|apply wf_region|apply wf_total|].
  apply lba_region. lia.
Qed.

Lemma is_reserved_eq lba :
  0 <= lba ->
  is_reserved g lba
  = Ok ((lba <? total_blocks g) && negb (allocatable g lba)).
Proof.
  intros H0. unfold is_reserved, allocatable, u64_is_below.
  destruct (lba <? total_blocks g) eqn:Hl; [|done]. apply Z.ltb_lt in Hl. cbn [negb].
  rewrite region_of_eq by lia. cbn [obind]. destruct (lba_offset lba) as [-> Ho]; [lia|].
  cbn [obind]. rewrite Ho, region_head_eq; [|apply wf_region|apply wf_total|apply lba_region; lia].
  cbn [obind andb]. f_equal. by rewrite Z.ltb_antisym.
Qed.
End Wf.

(** The fixed metadata slots of a volume. *)
Inductive slot : Type :=
| BootSlot (lba : Z)
| DescriptorSlot (region s : Z)
| BitmapSlot (region page s : Z).

Definition slot_valid (g : Geometry) (x : slot) : Prop :=
  match x with
  | BootSlot lba => 0 <= lba < 3
  | DescriptorSlot r s => 0 <= r < regions g /\ 0 <= s < 3
  | BitmapSlot r p s => 0 <= r < regions g /\ 0 <= p < pages g r /\ 0 <= s < 3
  end.

Definition slot_lba (g : Geometry) (x : slot) : result Z :=
  match x with
  | BootSlot lba => Ok lba
  | DescriptorSlot r s => descriptor_slot_lba g r s
  | BitmapSlot r p s => bitmap_slot_lba g r p s
  end.

(** Where a slot lies: its region and its offset in the region. *)
Definition slot_region (x : slot) : Z :=
  match x with
  | BootSlot _ => 0
  | DescriptorSlot r _ | BitmapSlot r _ _ => r
  end.
Definition slot_offset (x : slot) : Z :=
  match x with
  | BootSlot lba => lba
  | DescriptorSlot r s => boot r + s
  | BitmapSlot r p s => boot r + 3 + 3 * p + s
  end.

Section Slots.
Context (g : Geometry) {WF : WfGeometry g}.

Lemma slot_offset_head x : slot_valid g x -> 0 <= slot_offset x < head g (slot_region x).
Proof.
  pose proof (regions_pos g wf_region wf_total) as Hreg.
  assert (forall r, 0 <= boot r) by (intros r; unfold boot, BOOTSTRAP_BLOCKS; destruct (r =? 0); lia).
  assert (forall r, 0 <= r < regions g -> 1 <= pages g r)
    by (intros; apply pages_bounds; [apply wf_region|apply wf_total|lia]).
  destruct x as [l|r s|r p s]; simpl; intros Hv; unfold head.
  - assert (boot 0 = 3) as -> by done. specialize (H0 0). lia.
  - specialize (H r). specialize (H0 r). lia.
  - specialize (H r). lia.
Qed.

Lemma slot_lba_eq x :
  slot_valid g x -> slot_lba g x = Ok (slot_region x * region_size g + slot_offset x).
Proof.
  intros Hv. pose proof (slot_offset_head x Hv) as Ho. destruct WF as [? ? Hrs Htb Hreg ? ?] eqn:HW.
  assert (0 <= slot_region x < regions g) as Hr.
  { pose proof (regions_pos g Hrs Htb). destruct x; simpl in *; lia. }
  pose proof (head_bounds g Hrs Htb _ Hr).
  pose proof (region_in_range g Hrs Htb _ Hr). pose proof (wf_has_room g _ WF Hr).
  unfold valid in *.
  destruct x as [l|r s|r p s]; simpl in *; apply wp_no_error.
  - apply wp_ok. lia.
  - unfold descriptor_slot_lba, region_base, DESCRIPTOR_SLOTS. apply wp_if_false; [lia|].
    fold (boot r). apply wp_bind, wp_add_w; [lia|]. apply wp_add_w; lia.
  - unfold bitmap_slot_lba, region_base, DESCRIPTOR_SLOTS, BITMAP_SLOTS.
    rewrite bitmap_page_count_eq by done. cbn [obind].
    apply wp_if_false; [lia|]. apply wp_if_false; [lia|]. fold (boot r).
    apply wp_bind, wp_add_w; [lia|]. apply wp_bind, wp_add_w; [lia|].
    apply wp_bind, wp_add_w; [lia|]. apply wp_add_w; lia.
Qed.

(** Every offset below the head of a region is one slot. *)
Lemma slot_of_offset r o :
  0 <= r < regions g -> 0 <= o < head g r ->
  exists x, slot_valid g x /\ slot_region x = r /\ slot_offset x = o.
Proof.
  intros Hr Ho. unfold head in Ho. assert (0 <= boot r <= 3) as Hb.
  { unfold boot, BOOTSTRAP_BLOCKS. destruct (r =? 0); lia. }
  destruct (decide (o < boot r)).
  - assert (r = 0) as ->. { unfold boot in *. destruct (r =? 0) eqn:?; lia. }
    exists (BootSlot o). simpl. lia.
  - destruct (decide (o < boot r + 3)).
    + exists (DescriptorSlot r (o - boot r)). simpl. lia.
    + exists (BitmapSlot r ((o - boot r - 3) / 3) ((o - boot r - 3) mod 3)). simpl.
      pose proof (Z.div_mod (o - boot r - 3) 3 ltac:(lia)).
      pose proof (Z.mod_pos_bound (o - boot r - 3) 3 ltac:(lia)). lia.
Qed.

Lemma slot_inj x y :
  slot_valid g x -> slot_valid g y ->
  slot_region x = slot_region y -> slot_offset x = slot_offset y -> x = y.
Proof.
  assert (boot 0 = 3) as H0 by done.
  assert (forall r, 0 <= boot r) by (intros r; unfold boot, BOOTSTRAP_BLOCKS; destruct (r =? 0); lia).
  destruct x as [l|r s|r p s], y as [l'|r' s'|r' p' s']; simpl; intros Hx Hy Hreg Hoff; subst;
    try lia; try (f_equal; lia).
Qed.
End Slots.

(** the reserved blocks of an admitted volume are tiled by the fixed
    metadata slots: a block is reserved exactly when it is a bootstrap block,
    a descriptor slot or a bitmap slot, and then it is only one of them; every
    other block of the volume is allocatable. *)
Theorem reserved_blocks_tiling g lba :
  WfGeometry g -> 0 <= lba < total_blocks g ->
  exists b, is_reserved g lba = Ok b /\ is_allocatable g lba = Ok (negb b) /\
    (b = true <-> exists x, slot_valid g x /\ slot_lba g x = Ok lba) /\
    (forall x y, slot_valid g x -> slot_valid g y ->
       slot_lba g x = Ok lba -> slot_lba g y = Ok lba -> x = y).
Proof.
  intros WF Hl. pose proof (lba_region g lba Hl) as (Hr & He & Hm).
  exists (negb (allocatable g lba)). rewrite (is_reserved_eq g), (is_allocatable_eq g) by lia.
  replace (lba <? total_blocks g) with true by lia. rewrite negb_involutive.
  assert (forall x, slot_valid g x -> slot_lba g x = Ok lba ->
    slot_region x = lba / region_size g /\ slot_offset x = lba mod region_size g) as Hpos.
  { intros x Hx Hlba. rewrite (slot_lba_eq g) in Hlba by done. apply Ok_inj in Hlba.
    pose proof (slot_offset_head g x Hx). destruct WF as [? ? Hrs Htb ? ? ?] eqn:HW.
    assert (0 <= slot_region x < regions g) as Hrx.
    { pose proof (regions_pos g Hrs Htb). destruct x; simpl in *; lia. }
    pose proof (wf_has_room g _ WF Hrx). unfold valid in *.
    assert (slot_region x = lba / region_size g); [|nia].
    apply (Z.div_unique lba (region_size g) _ (slot_offset x)); lia. }
  split; [done|]. split; [done|]. split.
  - unfold allocatable. replace (lba <? total_blocks g) with true by lia. simpl.
    rewrite negb_true_iff, Z.leb_gt. split.
    + intros Ho. destruct (slot_of_offset g (lba / region_size g) (lba mod region_size g))
        as (x & Hx & Hxr & Hxo); [done|lia|].
      exists x. split; [done|]. rewrite (slot_lba_eq g) by done. f_equal. rewrite Hxr, Hxo. lia.
    + intros (x & Hx & Hlba). destruct (Hpos x Hx Hlba) as [Hxr Hxo].
      pose proof (slot_offset_head g x Hx) as Ho. rewrite Hxr, Hxo in Ho. lia.
  - intros x y Hx Hy Hlx Hly. destruct (Hpos x Hx Hlx), (Hpos y Hy Hly).
    eapply slot_inj; [done..|congruence|congruence].
Qed.

(** ** Permanent areas *)

(** The allocatable blocks of the volume in order. *)
Definition allocatable_from (g : Geometry) (lba : Z) (n : nat) : list Z :=
  List.filter (allocatable g) (seqZ lba (Z.of_nat n)).
Definition allocatable_blocks (g : Geometry) : list Z :=
  allocatable_from g (head g 0) (Z.to_nat (total_blocks g - head g 0)).

Lemma seqZ_S lba n : seqZ lba (Z.of_nat (S n)) = lba :: seqZ (lba + 1) (Z.of_nat n).
Proof. rewrite seqZ_cons by lia. f_equal. f_equal; lia. Qed.

Lemma take_zlen_snoc (run rest : list Z) x count :
  zlen run < count ->
  (run ++ [x]) ++ take (Z.to_nat (count - zlen (run ++ [x]))) rest
  = run ++ take (Z.to_nat (count - zlen run)) (x :: rest).
Proof.
  intros. replace (Z.to_nat (count - zlen run)) with (S (Z.to_nat (count - zlen (run ++ [x])))).
  - simpl. by rewrite <- app_assoc.
  - rewrite zlen_app, zlen_one. lia.
Qed.

Lemma reserved_run_from_eq g n lba skip count run :
  WfGeometry g -> 0 <= lba -> 0 <= skip -> zlen run < count ->
  reserved_run_from g n lba skip count run =
    let rest := drop (Z.to_nat skip) (allocatable_from g lba n) in
    if count <=? zlen run + zlen rest
    then Ok (run ++ take (Z.to_nat (count - zlen run)) rest)
    else Err (Invalid "volume cannot hold its reserved metadata areas").
Proof.
  intros WF. revert lba skip run. induction n as [|n IH]; intros lba skip run Hl Hs Hrun.
  - simpl. unfold allocatable_from. simpl. rewrite drop_nil, zlen_nil.
    replace (_ <=? _) with false by lia. done.
  - cbn [reserved_run_from]. rewrite (is_allocatable_eq g) by done. cbn [obind].
    assert (allocatable_from g lba (S n) =
      (if allocatable g lba then [lba] else []) ++ allocatable_from g (lba + 1) n) as ->.
    { unfold allocatable_from. rewrite seqZ_S. simpl. by destruct (allocatable g lba). }
    destruct (allocatable g lba); cbn [negb app].
    2: { by rewrite IH by lia. }
    destruct (0 <? skip) eqn:Hsk.
    + rewrite IH by lia. cbn zeta.
      by replace (Z.to_nat skip) with (S (Z.to_nat (skip - 1))) by lia.
    + assert (skip = 0) as -> by lia. cbn zeta. rewrite drop_0.
      destruct (zlen (run ++ [lba]) =? count) eqn:Hc.
      * apply Z.eqb_eq in Hc. rewrite zlen_app, zlen_one in Hc. rewrite zlen_cons.
        pose proof (zlen_nonneg (allocatable_from g (lba + 1) n)).
        replace (_ <=? _) with true by lia. replace (count - zlen run) with 1 by lia. done.
      * rewrite IH; [|lia|lia|rewrite zlen_app, zlen_one in *; lia]. cbn zeta.
        rewrite drop_0, take_zlen_snoc by done. rewrite zlen_app, zlen_one, zlen_cons.
        by rewrite Z.add_assoc.
Qed.

Lemma region0_reserved_eq g : WfGeometry g -> region0_reserved_blocks g = Ok (head g 0).
Proof.
  intros WF. pose proof (regions_pos g wf_region wf_total).
  pose proof (head_bounds g wf_region wf_total 0 ltac:(lia)).
  unfold region0_reserved_blocks.
  rewrite (region_reserved_blocks_eq g wf_region wf_total) by lia. cbn [obind].
  assert (3 + (3 + 3 * pages g 0) = head g 0) as Heq by (unfold head, boot, BOOTSTRAP_BLOCKS; simpl; lia).
  apply wp_no_error, wp_add_w; [unfold BOOTSTRAP_BLOCKS; lia|exact Heq].
Qed.

Lemma reserved_run_eq g skip count :
  WfGeometry g -> 0 <= skip -> 0 <= count ->
  reserved_run g skip count =
    let rest := drop (Z.to_nat skip) (allocatable_blocks g) in
    if count <=? zlen rest then Ok (take (Z.to_nat count) rest)
    else Err (Invalid "volume cannot hold its reserved metadata areas").
Proof.
  intros WF Hs Hc. unfold reserved_run. cbn zeta. destruct (count =? 0) eqn:H0.
  - apply Z.eqb_eq in H0 as ->. pose proof (zlen_nonneg (drop (Z.to_nat skip) (allocatable_blocks g))).
    by replace (_ <=? _) with true by lia.
  - rewrite region0_reserved_eq by done. cbn [obind].
    pose proof (regions_pos g wf_region wf_total).
    pose proof (head_bounds g wf_region wf_total 0 ltac:(lia)).
    rewrite reserved_run_from_eq by (done || lia || (rewrite zlen_nil; lia)). cbn zeta.
    fold (allocatable_blocks g). by rewrite zlen_nil, Z.add_0_l, Z.sub_0_r.
Qed.

Lemma reserved_run_Ok g skip count l :
  WfGeometry g -> 0 <= skip -> 0 <= count -> reserved_run g skip count = Ok l ->
  l = take (Z.to_nat count) (drop (Z.to_nat skip) (allocatable_blocks g)) /\ zlen l = count.
Proof.
  intros WF Hs Hc. rewrite reserved_run_eq by done. cbn zeta.
  destruct (_ <=? _) eqn:Hle; [|done]. intros H. apply Ok_inj in H as <-. split; [done|].
  unfold zlen in *. rewrite length_take. lia.
Qed.

(** Each level has at most half as many nodes, rounded up. *)
Lemma count_levels_terminates fuel fanout level total :
  2 <= fanout -> level <= 2 ^ Z.of_nat fuel -> 0 <= total ->
  wp (count_levels fuel fanout level total) (fun n => total <= n) any_error.
Proof.
  intros Hf. revert level total. induction fuel as [|fuel IH]; intros level total Hl Ht;
    cbn [count_levels]; (apply wp_if; [intros _; apply wp_ok; lia|intros Hl1]).
  - simpl in Hl. lia.
  - assert (0 < div_ceil level fanout) by (apply div_ceil_pos; lia).
    apply wp_bind, wp_ok_or; [|done]. intros t Ht'. unfold checked_add in Ht'.
    destruct (_ <? _); [|done]. injection Ht' as <-.
    eapply wp_mono; [apply IH| |done].
    + pose proof (div_ceil_bounds level fanout ltac:(lia) ltac:(lia)).
      rewrite Nat2Z.inj_succ, Z.pow_succ_r in Hl by lia. nia.
    + lia.
    + simpl. lia.
Qed.

Lemma region_count_eq g : WfGeometry g -> region_count g = Ok (regions g).
Proof.
  intros WF. pose proof (regions_pos g wf_region wf_total). destruct WF.
  unfold region_count. replace (region_size g =? 0) with false by lia.
  f_equal. apply as_u32_small. unfold u32, regions in *. lia.
Qed.

Lemma allocation_root_capacity g :
  WfGeometry g -> fixed_item_capacity (block_size g) ALLOCATION_ROOT_KEY_BYTES 16 = Ok 144.
Proof. intros WF. by rewrite wf_block_size. Qed.

Lemma wp_logical_nodes g :
  WfGeometry g -> wp (allocation_root_logical_nodes g) (fun n => 0 < n) any_error.
Proof.
  intros WF. unfold allocation_root_logical_nodes, ALLOCATION_ROOT_VALUE_BYTES.
  rewrite !allocation_root_capacity by done.
  apply wp_bind, wp_ok, wp_bind, wp_ok, wp_bind, wp_add_w; [done|]. apply wp_if_false; [done|].
  rewrite region_count_eq by done. apply wp_bind, wp_ok.
  pose proof (regions_pos g wf_region wf_total). destruct WF.
  pose proof (div_ceil_bounds (regions g) 144 ltac:(lia) ltac:(lia)).
  pose proof (div_ceil_pos (regions g) 144 ltac:(lia) ltac:(lia)).
  eapply wp_mono; [apply count_levels_terminates| |done]; [lia|lia|lia|cbv beta; lia].
Qed.

Lemma allocatable_blocks_elem g x :
  WfGeometry g -> x ∈ allocatable_blocks g -> is_allocatable g x = Ok true.
Proof.
  intros WF Hx. apply list_elem_of_In in Hx. unfold allocatable_blocks, allocatable_from in Hx.
  apply filter_In in Hx as [Hx Ha]. apply list_elem_of_In, elem_of_seqZ in Hx.
  pose proof (regions_pos g wf_region wf_total).
  pose proof (head_bounds g wf_region wf_total 0 ltac:(lia)).
  rewrite (is_allocatable_eq g) by lia. by rewrite Ha.
Qed.

Lemma allocatable_blocks_NoDup g : NoDup (allocatable_blocks g).
Proof.
  apply NoDup_ListNoDup, List.NoDup_filter, NoDup_ListNoDup, NoDup_seqZ.
Qed.

(** C33: the bootstrap blocks, the allocation-root pool and the intent-log
    slots are consecutive runs of the allocatable blocks: no two of these
    blocks coincide and every one of them is allocatable; sizing them
    terminates without panicking. *)
Theorem permanent_areas_disjoint g log_slots pool log :
  WfGeometry g -> u16 log_slots ->
  allocation_root_pool_lbas g = Ok pool -> intent_log_slot_lbas g log_slots = Ok log ->
  allocation_root_logical_nodes g <> Panic /\
  zlen log = log_slots /\ (exists n, allocation_root_logical_nodes g = Ok n /\ zlen pool = 3 * n) /\
  NoDup (take 4 (allocatable_blocks g) ++ pool ++ log) /\
  Forall (fun lba => is_allocatable g lba = Ok true) (pool ++ log).
Proof.
  intros WF Hs Hpool Hlog. pose proof (wp_logical_nodes g WF) as Hn.
  unfold allocation_root_pool_lbas in Hpool. unfold intent_log_slot_lbas in Hlog.
  destruct (allocation_root_logical_nodes g) as [n| |] eqn:Hnodes; [|done|done].
  cbn [obind] in Hpool, Hlog. simpl in Hn.
  unfold checked_mul in Hpool, Hlog. destruct (n * 3 <? 2 ^ 64) eqn:Hn3; [|done].
  cbn [ok_or obind] in Hpool, Hlog.
  apply reserved_run_Ok in Hpool as [Hp Hpl]; [|done|done|lia].
  set (A := allocatable_blocks g) in *.
  assert (log = take (Z.to_nat log_slots) (drop (Z.to_nat (4 + n * 3)) A) /\ zlen log = log_slots)
    as [Hl Hll].
  { unfold u16 in Hs. destruct (log_slots =? 0) eqn:H0.
    - apply Z.eqb_eq in H0 as ->. apply Ok_inj in Hlog as <-. done.
    - unfold add_w, BOOTSTRAP_METADATA_BLOCKS in Hlog. destruct (4 + n * 3 <? 2 ^ 64); [|done].
      cbn [obind] in Hlog. apply reserved_run_Ok in Hlog; [done|done|lia|lia]. }
  split; [done|]. split; [done|]. split; [exists n; split; [done|lia]|].
  assert (take 4 A ++ pool ++ log = take (4 + Z.to_nat (n * 3) + Z.to_nat log_slots) A) as Heq.
  { rewrite Hp, Hl, <- (take_take_drop A (4 + _)), <- (take_take_drop A 4), <- app_assoc.
    unfold BOOTSTRAP_METADATA_BLOCKS.
    by replace (Z.to_nat (4 + n * 3)) with (4 + Z.to_nat (n * 3))%nat by lia. }
  split.
  - rewrite Heq. eapply sublist_NoDup; [apply allocatable_blocks_NoDup|apply sublist_take].
  - apply Forall_forall. intros x Hx. apply allocatable_blocks_elem; [done|].
    eapply elem_of_sublist; [|apply (sublist_take A (4 + Z.to_nat (n * 3) + Z.to_nat log_slots))].
    rewrite <- Heq. apply elem_of_app. by right.
Qed.

(** ** A small volume *)

Definition small_geometry : Geometry :=
  {| block_size := 4096; total_blocks := 60; region_size := 16 |}.

#[export] Instance small_geometry_wf : WfGeometry small_geometry.
Proof. apply validate_wf; [by vm_compute|]. vm_compute. reflexivity. Qed.

Lemma Geometry_validate_covers_regions_witness :
  exists n, region_count small_geometry = Ok n /\ 0 < n /\
     forall r, 0 <= r < n -> region_has_allocatable_blocks small_geometry r = Ok true.
Proof.
  apply (Geometry_validate_covers_regions small_geometry); [by vm_compute|].
  vm_compute. reflexivity.
Defined.

Lemma reserved_blocks_tiling_witness :
  exists b, is_reserved small_geometry 20 = Ok b /\ is_allocatable small_geometry 20 = Ok (negb b).
Proof.
  destruct (reserved_blocks_tiling small_geometry 20) as (b & Hr & Ha & _);
    [apply small_geometry_wf|simpl; lia|]. exists b. by split.
Defined.

Lemma permanent_areas_disjoint_witness :
  NoDup (take 4 (allocatable_blocks small_geometry) ++ [13; 14; 15] ++ [22; 23]).
Proof.
  eapply (permanent_areas_disjoint small_geometry 2 [13; 14; 15] [22; 23]);
    [apply small_geometry_wf|by vm_compute|vm_compute; reflexivity..].
Defined.
