(* ===== verification/Bitmap.v ===== *)
(** * Allocation bitmap pages (crates/afsplus-format/src/bitmap.rs)

    One logical page of a region's allocation bitmap.  The page is shown to
    implement a finite set of block indices, with the sealed trailing bits as
    its representation invariant, and its block codec to be exact. *)

From stdpp Require Import gmap.
From S2P Require Import Prelude Crc32c Format Header Codec TreeNode Geometry.

(** ** The code *)

Record BitmapPage := {
  bp_region : Z;
  bp_page_index : Z;
  bp_first_block : Z;
  bp_valid_blocks : Z;
  bp_bits : bytes;
}.

Definition with_bits (p : BitmapPage) (bits : bytes) : BitmapPage :=
  {| bp_region := bp_region p; bp_page_index := bp_page_index p;
     bp_first_block := bp_first_block p; bp_valid_blocks := bp_valid_blocks p; bp_bits := bits |}.

(** [self.bits[index as usize / 8] |= 1 << (index % 8)]. *)
Definition or_bit (bits : bytes) (index : Z) : result bytes :=
  let* b := Prelude.index bits (index / 8) in
  put_u8 bits (index / 8) (Z.lor b (Z.shiftl 1 (index mod 8))).

Definition seal_trailing_bits (p : BitmapPage) : result BitmapPage :=
  let* total_bits := mul_w 32 (as_u32 (zlen (bp_bits p))) 8 in
  let* bits := ofold or_bit (bp_bits p)
                 (seqZ (bp_valid_blocks p) (total_bits - bp_valid_blocks p)) in
  Ok (with_bits p bits).

Definition all_free (region page_index first_block valid_blocks : Z) : result BitmapPage :=
  seal_trailing_bits
    {| bp_region := region; bp_page_index := page_index; bp_first_block := first_block;
       bp_valid_blocks := valid_blocks; bp_bits := zeros (div_ceil valid_blocks 8) |}.

(** The debug assertions are part of the code: outside the page is a panic. *)
Definition is_allocated (p : BitmapPage) (local_index : Z) : result bool :=
  if negb (local_index <? bp_valid_blocks p) then Panic else
  let* b := Prelude.index (bp_bits p) (local_index / 8) in
  Ok (negb (Z.land b (Z.shiftl 1 (local_index mod 8)) =? 0)).

Definition set_allocated (p : BitmapPage) (local_index : Z) (allocated : bool) :
    result (BitmapPage * bool) :=
  if negb (local_index <? bp_valid_blocks p) then Panic else
  let* b := Prelude.index (bp_bits p) (local_index / 8) in
  let mask := Z.shiftl 1 (local_index mod 8) in
  let was := negb (Z.land b mask =? 0) in
  let b := if allocated then Z.lor b mask else Z.land b (Z.lxor mask 255) in
  let* bits := put_u8 (bp_bits p) (local_index / 8) b in
  Ok (with_bits p bits, negb (Bool.eqb was allocated)).

(** [u8::count_ones]. *)
Definition count_ones (b : Byte.byte) : Z :=
  zlen (List.filter (Z.testbit (byte.unsigned b)) (seqZ 0 8)).

Definition free_blocks (p : BitmapPage) : result Z :=
  let* ones := ofold (fun sum b => add_w 32 sum (count_ones b)) 0 (bp_bits p) in
  let* total_bits := mul_w 32 (as_u32 (zlen (bp_bits p))) 8 in
  let* trailing := sub_w total_bits (bp_valid_blocks p) in
  let* allocated := sub_w ones trailing in
  sub_w (bp_valid_blocks p) allocated.

Definition BitmapPage_encode (p : BitmapPage) (block_size generation : Z) : result bytes :=
  if (bp_valid_blocks p =? 0) || (BITMAP_PAGE_BLOCKS <? bp_valid_blocks p) then
    Err (Invalid "bitmap page valid block count out of range") else
  let* expected_first :=
    ok_or (checked_mul 32 (bp_page_index p) BITMAP_PAGE_BLOCKS) (Overflow "bitmap page first block") in
  if negb (bp_first_block p =? expected_first) then
    Err (Invalid "bitmap page offset does not match page index") else
  let expected_len := div_ceil (bp_valid_blocks p) 8 in
  if negb (zlen (bp_bits p) =? expected_len) then Err (Invalid "bitmap byte length mismatch") else
  let payload_len := BITMAP_FIXED_PAYLOAD + zlen (bp_bits p) in
  if (block_size <? HEADER_SIZE) || (block_size - HEADER_SIZE <? payload_len) then
    Err (Overflow "region bitmap page exceeds one block") else
  let* copy := seal_trailing_bits p in
  let* block := with_payload (zeros block_size) (fun b =>
    let* b := put_u32 b 0 4 (bp_region p) in
    let* b := put_u32 b 4 8 (bp_page_index p) in
    let* b := put_u32 b 8 12 (bp_first_block p) in
    let* b := put_u32 b 12 16 (bp_valid_blocks p) in
    put b 16 (16 + zlen (bp_bits copy)) (bp_bits copy)) in
  seal {| bh_block_type := block_type.BITMAP; bh_flags := 0; bh_owner := bp_region p;
          bh_generation := generation; bh_payload_len := as_u32 payload_len |} block.

(** [if page.bits[index as usize / 8] & (1 << (index % 8)) == 0]. *)
Definition check_sealed_bit (bits : bytes) (_ : unit) (index : Z) : result unit :=
  let* b := Prelude.index bits (index / 8) in
  if Z.land b (Z.shiftl 1 (index mod 8)) =? 0 then Err (Invalid "bitmap trailing bits not sealed")
  else Ok tt.

Definition BitmapPage_decode_payload (header : BlockHeader) (p : bytes) : result (BitmapPage * Z) :=
  if negb (bh_flags header =? 0) then Err (Invalid "bitmap header flags are nonzero") else
  if zlen p <? BITMAP_FIXED_PAYLOAD then Err (Invalid "bitmap payload too short") else
  let* region := get_u32_at p 0 4 in
  let* page_index := get_u32_at p 4 8 in
  let* first_block := get_u32_at p 8 12 in
  let* valid_blocks := get_u32_at p 12 16 in
  if (valid_blocks =? 0) || (BITMAP_PAGE_BLOCKS <? valid_blocks) then
    Err (Invalid "bitmap page valid block count out of range") else
  let* expected_first :=
    ok_or (checked_mul 32 page_index BITMAP_PAGE_BLOCKS) (Overflow "bitmap page first block") in
  if negb (first_block =? expected_first) then
    Err (Invalid "bitmap page offset does not match page index") else
  let byte_len := div_ceil valid_blocks 8 in
  if negb (zlen p =? BITMAP_FIXED_PAYLOAD + byte_len) then
    Err (Invalid "bitmap payload length mismatch") else
  if negb (region =? bh_owner header) then
    Err (Invalid "bitmap region does not match block owner") else
  let* bits := slice p BITMAP_FIXED_PAYLOAD (zlen p) in
  let* total_bits := mul_w 32 (as_u32 (zlen bits)) 8 in
  do* ofold (check_sealed_bit bits) tt (seqZ valid_blocks (total_bits - valid_blocks)) in
  Ok ({| bp_region := region; bp_page_index := page_index; bp_first_block := first_block;
         bp_valid_blocks := valid_blocks; bp_bits := bits |}, bh_generation header).

Definition BitmapPage_decode (block : bytes) : result (BitmapPage * Z) :=
  let* header := verify block block_type.BITMAP in
  let* p := payload header block in
  BitmapPage_decode_payload header p.

(** ** Bits of a byte string *)

Definition bit_at (bits : bytes) (i : Z) : bool :=
  Z.testbit (byte.unsigned (nth (Z.to_nat (i / 8)) bits Byte.x00)) (i mod 8).

Lemma blit_insert (l : bytes) i x : 0 <= i < zlen l -> blit l i [x] = <[Z.to_nat i := x]> l.
Proof.
  intros H. unfold blit, zlen in *. rewrite insert_take_drop by lia. simpl. do 3 f_equal. lia.
Qed.

Lemma nth_insert (l : bytes) (i j : nat) x :
  (i < length l)%nat -> nth j (<[i := x]> l) Byte.x00 = if decide (j = i) then x else nth j l Byte.x00.
Proof.
  intros H. rewrite !nth_lookup. destruct (decide (j = i)) as [->|Hne].
  - by rewrite list_lookup_insert_eq.
  - by rewrite list_lookup_insert_ne.
Qed.

(** Writing one byte with bit [i] set to [v] and the others kept. *)
Lemma bit_at_write (bits : bytes) i j v z :
  0 <= i < 8 * zlen bits -> 0 <= j -> u8 z ->
  (forall k, 0 <= k < 8 -> Z.testbit z k =
     if k =? i mod 8 then v else Z.testbit (byte.unsigned (nth (Z.to_nat (i / 8)) bits Byte.x00)) k) ->
  bit_at (blit bits (i / 8) [byte.of_Z z]) j = if j =? i then v else bit_at bits j.
Proof.
  intros Hi Hj Hu Hz. assert (0 <= i / 8 < zlen bits) as Hd.
  { split; [apply Z.div_pos; lia|]. apply Z.div_lt_upper_bound; lia. }
  rewrite blit_insert by done. unfold bit_at.
  pose proof (Z.mod_pos_bound j 8 ltac:(lia)). pose proof (Z.div_mod j 8 ltac:(lia)).
  pose proof (Z.div_mod i 8 ltac:(lia)). pose proof (Z.div_pos j 8 ltac:(lia) ltac:(lia)).
  rewrite nth_insert by (unfold zlen in *; lia). case_decide as Heq.
  - assert (j / 8 = i / 8) as Hji by lia. rewrite byte_unsigned_of, Hz by done.
    rewrite Hji. destruct (j =? i) eqn:Hc, (j mod 8 =? i mod 8) eqn:Hm; (done || lia).
  - destruct (j =? i) eqn:Hc; [|done]. apply Z.eqb_eq in Hc. subst. done.
Qed.

Lemma bits_ext (a b : bytes) :
  zlen a = zlen b -> (forall i, 0 <= i < 8 * zlen a -> bit_at a i = bit_at b i) -> a = b.
Proof.
  intros Hl H. apply nth_ext with Byte.x00 Byte.x00; [unfold zlen in Hl; lia|]. intros n Hn.
  apply byte.unsigned_inj, Z.bits_inj'. intros k Hk. destruct (decide (k < 8)) as [Hk8|Hk8].
  - specialize (H (8 * Z.of_nat n + k) ltac:(unfold zlen; lia)). unfold bit_at in H.
    rewrite Z.add_comm, Z.mul_comm, Z.div_add, Z.mod_add in H by lia.
    by rewrite Z.div_small, Z.mod_small, Z.add_0_l, !Nat2Z.id in H by lia.
  - by rewrite !byte_high_bits by lia.
Qed.

(** ** The representation invariant *)

(** [bits] is [ceil(valid_blocks / 8)] bytes; trailing bits are 1. *)
Definition trailing_sealed (p : BitmapPage) : Prop :=
  forall i, bp_valid_blocks p <= i < 8 * zlen (bp_bits p) -> bit_at (bp_bits p) i = true.

Definition BitmapPage_wf (p : BitmapPage) : Prop :=
  0 <= bp_valid_blocks p < 2 ^ 32 - 8 /\ zlen (bp_bits p) = div_ceil (bp_valid_blocks p) 8 /\
  trailing_sealed p.

Lemma div_ceil_8 v : v <= 8 * div_ceil v 8 < v + 8.
Proof. unfold div_ceil. pose proof (Z.div_mod (v + 8 - 1) 8). pose proof (Z.mod_pos_bound (v + 8 - 1) 8). lia. Qed.

Lemma byte_index_range i n : 0 <= i < 8 * n -> 0 <= i / 8 < n.
Proof. intros. split; [apply Z.div_pos; lia|apply Z.div_lt_upper_bound; lia]. Qed.

Lemma lor_bit_u8 b k : u8 b -> 0 <= k < 8 -> u8 (Z.lor b (Z.shiftl 1 k)).
Proof.
  unfold u8. intros Hb Hk. assert (0 <= Z.lor b (Z.shiftl 1 k)).
  { apply Z.lor_nonneg. split; [lia|]. apply Z.shiftl_nonneg. lia. }
  split; [done|]. apply Z.bounded_iff_bits_nonneg; [lia|done|]. intros m Hm.
  rewrite Z.lor_spec, Z.shiftl_1_l, Z.pow2_bits_false, orb_false_r by lia.
  by apply (proj1 (Z.bounded_iff_bits_nonneg 8 b ltac:(lia) ltac:(lia)) (proj2 Hb)).
Qed.

Lemma testbit_lor_bit b k j : 0 <= k -> 0 <= j ->
  Z.testbit (Z.lor b (Z.shiftl 1 k)) j = if j =? k then true else Z.testbit b j.
Proof.
  intros. rewrite Z.lor_spec, Z.shiftl_1_l. destruct (Z.eqb_spec j k) as [->|Hne].
  - by rewrite Z.pow2_bits_true, orb_true_r.
  - by rewrite Z.pow2_bits_false, orb_false_r.
Qed.

Lemma testbit_clear_bit b k j : 0 <= k < 8 -> 0 <= j < 8 ->
  Z.testbit (Z.land b (Z.lxor (Z.shiftl 1 k) 255)) j = if j =? k then false else Z.testbit b j.
Proof.
  intros. rewrite Z.land_spec, Z.lxor_spec, Z.shiftl_1_l.
  replace (Z.testbit 255 j) with true
    by (change 255 with (Z.ones 8); symmetry; apply Z.ones_spec_low; lia).
  destruct (Z.eqb_spec j k) as [->|Hne].
  - rewrite Z.pow2_bits_true by lia. apply andb_false_r.
  - rewrite Z.pow2_bits_false by done. apply andb_true_r.
Qed.

Lemma land_u8 b m : u8 b -> 0 <= m -> u8 (Z.land b m).
Proof.
  unfold u8. intros Hb Hm. assert (0 <= Z.land b m) by (apply Z.land_nonneg; lia).
  split; [done|]. apply Z.bounded_iff_bits_nonneg; [lia|done|]. intros i Hi. rewrite Z.land_spec.
  by rewrite (proj1 (Z.bounded_iff_bits_nonneg 8 b ltac:(lia) ltac:(lia)) (proj2 Hb)).
Qed.

Lemma wp_or_bit (bits : bytes) i (Q : bytes -> Prop) R :
  0 <= i < 8 * zlen bits ->
  (forall bits', zlen bits' = zlen bits ->
     (forall j, 0 <= j -> bit_at bits' j = if j =? i then true else bit_at bits j) -> Q bits') ->
  wp (or_bit bits i) Q R.
Proof.
  intros Hi HQ. pose proof (byte_index_range _ _ Hi) as Hd. unfold or_bit.
  pose proof (Z.mod_pos_bound i 8 ltac:(lia)).
  apply wp_bind, wp_index; [done|]. unfold put_u8. apply wp_put; [lia|lia|rewrite zlen_one; lia|].
  apply HQ; [apply zlen_blit; rewrite ?zlen_one; lia|]. intros j Hj.
  apply bit_at_write; [done|done|apply lor_bit_u8; [apply byte_unsigned_u8|lia]|].
  intros k Hk. apply testbit_lor_bit; lia.
Qed.

Lemma wp_seal_trailing p (Q : BitmapPage -> Prop) R :
  0 <= bp_valid_blocks p -> 8 * zlen (bp_bits p) < 2 ^ 32 ->
  (forall bits, zlen bits = zlen (bp_bits p) ->
     (forall j, 0 <= j < 8 * zlen bits ->
        bit_at bits j = (bp_valid_blocks p <=? j) || bit_at (bp_bits p) j) ->
     Q (with_bits p bits)) ->
  wp (seal_trailing_bits p) Q R.
Proof.
  intros Hv Hl HQ. pose proof (zlen_nonneg (bp_bits p)). unfold seal_trailing_bits.
  rewrite as_u32_small by lia. apply wp_bind, wp_mul_w; [lia|]. apply wp_bind.
  set (n := zlen (bp_bits p)) in *. set (v := bp_valid_blocks p) in *.
  apply (wp_ofold _ (fun bits rest => zlen bits = n /\ exists k, v <= k /\
    rest = seqZ k (n * 8 - k) /\ (forall j, 0 <= j < 8 * n ->
      bit_at bits j = ((v <=? j) && (j <? k)) || bit_at (bp_bits p) j))).
  - split; [done|]. exists v. split; [lia|]. split; [done|]. intros j Hj.
    destruct (v <=? j) eqn:?, (j <? v) eqn:?; (done || lia).
  - intros bits i rest (Hz & k & Hk & Hrest & Hbits).
    destruct (decide (k < n * 8)) as [Hlt|Hge]; [|by rewrite seqZ_nil in Hrest by lia].
    rewrite seqZ_cons in Hrest by lia. injection Hrest as -> ->.
    apply wp_or_bit; [lia|]. intros bits' Hz' Hb'. split; [lia|]. exists (k + 1).
    split; [lia|]. split; [f_equal; lia|]. intros j Hj. rewrite Hb', Hbits by lia.
    destruct (j =? k) eqn:?, (v <=? j) eqn:?, (j <? k) eqn:?, (j <? k + 1) eqn:?; (done || lia).
  - intros bits (Hz & k & Hk & Hrest & Hbits). apply wp_ok, HQ; [done|]. intros j Hj.
    rewrite Hbits by lia. assert (n * 8 - k <= 0) as Hend.
    { destruct (decide (k < n * 8)); [|lia]. by rewrite seqZ_cons in Hrest by lia. }
    destruct (v <=? j) eqn:?, (j <? k) eqn:?; (done || lia).
Qed.

Lemma seal_trailing_sealed p :
  0 <= bp_valid_blocks p -> 8 * zlen (bp_bits p) < 2 ^ 32 -> trailing_sealed p ->
  seal_trailing_bits p = Ok p.
Proof.
  intros Hv Hl Hs. apply wp_no_error, wp_seal_trailing; [done|done|]. intros bits Hz Hb.
  replace bits with (bp_bits p); [by destruct p|]. symmetry. apply bits_ext; [done|].
  intros i Hi. rewrite Hb by done. destruct (_ <=? i) eqn:?; [|done]. symmetry. apply Hs. lia.
Qed.

(** ** Counting bits *)

Definition count (f : Z -> bool) (a n : Z) : Z := zlen (List.filter f (seqZ a n)).

Lemma filter_ext_seqZ f g a n :
  (forall i, a <= i < a + n -> f i = g i) -> List.filter f (seqZ a n) = List.filter g (seqZ a n).
Proof. intros H. apply filter_ext_in. intros i Hi%list_elem_of_In%elem_of_seqZ. apply H. lia. Qed.

Lemma count_split f a m n : 0 <= m -> 0 <= n -> count f a (m + n) = count f a m + count f (a + m) n.
Proof. intros. unfold count. by rewrite seqZ_app, List.filter_app, zlen_app. Qed.

Lemma count_shift f a b n : count f (a + b) n = count (fun i => f (a + i)) b n.
Proof.
  unfold count. rewrite <- fmap_add_seqZ. induction (seqZ b n) as [|x l IH]; [done|].
  rewrite fmap_cons. cbn [List.filter]. by destruct (f (a + x)); rewrite ?zlen_cons, IH.
Qed.

Lemma count_all f a n : 0 <= n -> (forall i, a <= i < a + n -> f i = true) -> count f a n = n.
Proof.
  intros Hn H. unfold count. rewrite (filter_ext_seqZ f (fun _ => true)) by done.
  replace (List.filter (fun _ => true) (seqZ a n)) with (seqZ a n).
  - unfold zlen. rewrite length_seqZ. lia.
  - induction (seqZ a n) as [|x l IH]; [done|]. cbn. by rewrite <- IH.
Qed.

Lemma bit_at_cons x bits i :
  0 <= i -> bit_at (x :: bits) i = if i <? 8 then Z.testbit (byte.unsigned x) i else bit_at bits (i - 8).
Proof.
  intros Hi. unfold bit_at. destruct (i <? 8) eqn:H8.
  - by rewrite Z.div_small, Z.mod_small by lia.
  - replace i with ((i - 8) + 1 * 8) at 1 2 by lia. rewrite Z.div_add, Z.mod_add by lia.
    pose proof (Z.div_pos (i - 8) 8 ltac:(lia) ltac:(lia)).
    by replace (Z.to_nat ((i - 8) / 8 + 1)) with (S (Z.to_nat ((i - 8) / 8))) by lia.
Qed.

Lemma count_bytes_cons x bits :
  count (bit_at (x :: bits)) 0 (8 * zlen (x :: bits))
  = count_ones x + count (bit_at bits) 0 (8 * zlen bits).
Proof.
  rewrite zlen_cons. replace (8 * (1 + zlen bits)) with (8 + 8 * zlen bits) by lia.
  pose proof (zlen_nonneg bits). rewrite count_split by lia. f_equal.
  change (0 + 8) with (8 + 0). rewrite (count_shift _ 8 0). unfold count. f_equal.
  apply filter_ext_seqZ. intros i Hi. rewrite bit_at_cons by lia. replace (8 + i <? 8) with false by lia. f_equal. lia.
Qed.

Lemma count_nonneg f a n : 0 <= count f a n.
Proof. apply zlen_nonneg. Qed.

Lemma count_le f a n : 0 <= n -> count f a n <= n.
Proof.
  intros Hn. unfold count, zlen. pose proof (List.filter_length_le f (seqZ a n)) as H.
  rewrite length_seqZ in H. lia.
Qed.

Lemma wp_sum_ones (bits : bytes) acc (Q : Z -> Prop) (R : FormatError -> Prop) :
  acc + 8 * zlen bits < 2 ^ 32 -> Q (acc + count (bit_at bits) 0 (8 * zlen bits)) ->
  wp (ofold (fun sum b => add_w 32 sum (count_ones b)) acc bits) Q R.
Proof.
  revert acc. induction bits as [|x bits IH]; intros acc Hacc HQ; cbn [ofold].
  - apply wp_ok. change (count (bit_at []) 0 (8 * zlen [])) with 0 in HQ. by rewrite Z.add_0_r in HQ.
  - rewrite zlen_cons in Hacc. pose proof (zlen_nonneg bits).
    assert (0 <= count_ones x <= 8).
    { unfold count_ones. pose proof (List.filter_length_le (Z.testbit (byte.unsigned x)) (seqZ 0 8)) as Hc.
      unfold zlen. change (length (seqZ 0 8)) with 8%nat in Hc. lia. }
    apply wp_bind, wp_add_w; [lia|]. apply IH; [lia|].
    rewrite count_bytes_cons in HQ. by rewrite <- Z.add_assoc.
Qed.

(** ** The page as a set of blocks *)

Definition allocated_set (p : BitmapPage) : gset Z :=
  list_to_set (List.filter (bit_at (bp_bits p)) (seqZ 0 (bp_valid_blocks p))).

Lemma elem_of_allocated p i :
  i ∈ allocated_set p <-> 0 <= i < bp_valid_blocks p /\ bit_at (bp_bits p) i = true.
Proof.
  unfold allocated_set. rewrite elem_of_list_to_set, list_elem_of_In, filter_In, <- list_elem_of_In, elem_of_seqZ.
  split; intros [??]; split; (done || lia).
Qed.

Lemma size_allocated p :
  Z.of_nat (size (allocated_set p)) = count (bit_at (bp_bits p)) 0 (bp_valid_blocks p).
Proof.
  unfold allocated_set, count, zlen. f_equal. apply size_list_to_set, NoDup_ListNoDup, List.NoDup_filter.
  apply NoDup_ListNoDup, NoDup_seqZ.
Qed.

Lemma free_blocks_spec p :
  BitmapPage_wf p ->
  free_blocks p = Ok (bp_valid_blocks p - Z.of_nat (size (allocated_set p))).
Proof.
  intros (Hv & Hl & Hs). pose proof (div_ceil_8 (bp_valid_blocks p)).
  apply wp_no_error. unfold free_blocks. rewrite as_u32_small by lia.
  apply wp_bind, wp_sum_ones; [lia|]. apply wp_bind, wp_mul_w; [lia|].
  apply wp_bind, wp_sub_w; [lia|]. rewrite Z.add_0_l, size_allocated.
  replace (8 * zlen (bp_bits p))
    with (bp_valid_blocks p + (zlen (bp_bits p) * 8 - bp_valid_blocks p)) by lia.
  rewrite count_split, Z.add_0_l, (count_all _ (bp_valid_blocks p)) by (lia || (intros; apply Hs; lia)).
  pose proof (count_le (bit_at (bp_bits p)) 0 (bp_valid_blocks p) ltac:(lia)).
  pose proof (count_nonneg (bit_at (bp_bits p)) 0 (bp_valid_blocks p)).
  apply wp_bind, wp_sub_w; [lia|]. apply wp_sub_w; lia.
Qed.

Lemma is_allocated_spec p i :
  BitmapPage_wf p -> 0 <= i < bp_valid_blocks p ->
  is_allocated p i = Ok (bool_decide (i ∈ allocated_set p)).
Proof.
  intros (Hv & Hl & _) Hi. pose proof (div_ceil_8 (bp_valid_blocks p)).
  pose proof (Z.mod_pos_bound i 8 ltac:(lia)).
  apply wp_no_error. unfold is_allocated. apply wp_if_false; [lia|].
  apply wp_bind, wp_index; [apply byte_index_range; lia|]. apply wp_ok.
  rewrite land_bit, negb_involutive by lia. symmetry.
  apply eq_true_iff_eq. rewrite bool_decide_eq_true, elem_of_allocated. unfold bit_at. tauto.
Qed.

(** What [set_allocated] does to the bits. *)
Lemma set_allocated_bits p i (b : bool) :
  BitmapPage_wf p -> 0 <= i < bp_valid_blocks p ->
  exists bits, set_allocated p i b = Ok (with_bits p bits, negb (Bool.eqb (bit_at (bp_bits p) i) b)) /\
    zlen bits = zlen (bp_bits p) /\
    forall j, 0 <= j -> bit_at bits j = if j =? i then b else bit_at (bp_bits p) j.
Proof.
  intros (Hv & Hl & _) Hi. pose proof (div_ceil_8 (bp_valid_blocks p)).
  pose proof (Z.mod_pos_bound i 8 ltac:(lia)).
  pose proof (byte_index_range i (zlen (bp_bits p)) ltac:(lia)) as Hd.
  unfold set_allocated. replace (negb _) with false by lia. unfold Prelude.index.
  replace (_ && _) with true by lia. cbn [obind]. rewrite land_bit, negb_involutive by lia.
  set (old := byte.unsigned _). set (new := if b then _ else _).
  assert (u8 new) as Hu.
  { pose proof (byte_unsigned_u8 (nth (Z.to_nat (i / 8)) (bp_bits p) Byte.x00)). subst new.
    destruct b; [apply lor_bit_u8; [done|lia]|]. apply land_u8; [done|]. apply Z.lxor_nonneg.
    split; [lia|]. intros _. rewrite Z.shiftl_nonneg. lia. }
  unfold put_u8, put. rewrite zlen_one. replace (_ && _) with true by lia. cbn [obind].
  eexists. split; [reflexivity|]. split; [apply zlen_blit; rewrite ?zlen_one; lia|].
  intros j Hj. apply bit_at_write; [lia|done|done|]. intros k Hk. subst new old.
  destruct b; [apply testbit_lor_bit; lia|apply testbit_clear_bit; lia].
Qed.

Lemma with_bits_wf p bits i (b : bool) :
  BitmapPage_wf p -> 0 <= i < bp_valid_blocks p -> zlen bits = zlen (bp_bits p) ->
  (forall j, 0 <= j -> bit_at bits j = if j =? i then b else bit_at (bp_bits p) j) ->
  BitmapPage_wf (with_bits p bits) /\
  allocated_set (with_bits p bits)
  = if b then {[ i ]} ∪ allocated_set p else allocated_set p ∖ {[ i ]}.
Proof.
  intros (Hv & Hl & Hs) Hi Hz Hb. split; [split_and!; cbn; [lia|lia|lia|]|].
  - intros j Hj. cbn in *. rewrite Hb by lia. replace (j =? i) with false by lia. apply Hs. lia.
  - apply set_eq. intros j. rewrite elem_of_allocated. cbn.
    destruct b; rewrite ?elem_of_union, ?elem_of_difference, elem_of_singleton, elem_of_allocated;
      (destruct (decide (0 <= j)); [rewrite Hb by done|lia]); destruct (Z.eqb_spec j i);
      intuition (done || lia || congruence).
Qed.

(** ** The codec *)

Definition BitmapPage_wire (p : BitmapPage) : bytes :=
  le_split 4 (bp_region p) ++ le_split 4 (bp_page_index p) ++ le_split 4 (bp_first_block p) ++
  le_split 4 (bp_valid_blocks p) ++ bp_bits p.

Definition BitmapPage_header (p : BitmapPage) (g : Z) : BlockHeader :=
  {| bh_block_type := block_type.BITMAP; bh_flags := 0; bh_owner := bp_region p;
     bh_generation := g; bh_payload_len := zlen (BitmapPage_wire p) |}.

Definition BitmapPage_typed (p : BitmapPage) (g : Z) : Prop :=
  u32 (bp_region p) /\ u32 (bp_page_index p) /\ u32 (bp_first_block p) /\ u32 (bp_valid_blocks p) /\
  trailing_sealed p /\ u64 g.

Definition BitmapPage_adm (p : BitmapPage) (bs g : Z) : Prop :=
  0 < bp_valid_blocks p <= BITMAP_PAGE_BLOCKS /\
  bp_page_index p * BITMAP_PAGE_BLOCKS < 2 ^ 32 /\
  bp_first_block p = bp_page_index p * BITMAP_PAGE_BLOCKS /\
  zlen (bp_bits p) = div_ceil (bp_valid_blocks p) 8 /\ zlen (BitmapPage_wire p) <= bs - 32.

Lemma zlen_BitmapPage_wire p : zlen (BitmapPage_wire p) = 16 + zlen (bp_bits p).
Proof. unfold BitmapPage_wire. autorewrite with zlen. lia. Qed.

#[local] Hint Unfold BitmapPage_wire : wire.
#[local] Hint Rewrite zlen_BitmapPage_wire : zlen.

Lemma BitmapPage_encode_spec p bs g :
  BitmapPage_typed p g -> 0 <= bs < 2 ^ 32 ->
  wp (BitmapPage_encode p bs g)
     (fun b => BitmapPage_adm p bs g /\ b = image BitmapPage_header BitmapPage_wire p bs g)
     (fun _ => ~ BitmapPage_adm p bs g).
Proof.
  intros (Hr & Hpi & Hfb & Hvb & Hs & Hg) Hbs. unfold u32, u64 in *.
  pose proof (zlen_BitmapPage_wire p) as Hz. pose proof (zlen_nonneg (bp_bits p)).
  pose proof (div_ceil_8 (bp_valid_blocks p)).
  unfold BitmapPage_encode, BitmapPage_adm, HEADER_SIZE, BITMAP_FIXED_PAYLOAD.
  apply wp_if; [intros ?; apply wp_err; lia|intros Hvalid].
  apply wp_bind, wp_checked_mul; [intros Hmul|lia].
  apply wp_if; [intros ?; apply wp_err; lia|intros Hfirst].
  apply wp_if; [intros ?; apply wp_err; lia|intros Hlen].
  apply wp_if; [intros ?; apply wp_err; lia|intros Hfit].
  change BITMAP_PAGE_BLOCKS with 32384 in *.
  apply wp_bind. rewrite seal_trailing_sealed by (done || lia). apply wp_ok.
  rewrite as_u32_small, <- Hz by lia.
  apply (wp_seal_image BitmapPage_header BitmapPage_wire p bs g); [done|lia|].
  do 5 enc_field. split; [by rewrite Hz|]. split; [|done]. lia.
Qed.

Lemma check_sealed_total bits a n (Q : unit -> Prop) :
  0 <= a -> a + n <= 8 * zlen bits ->
  ((forall i, a <= i < a + n -> bit_at bits i = true) -> Q tt) ->
  wp (ofold (check_sealed_bit bits) tt (seqZ a n)) Q any_error.
Proof.
  intros Ha Hn HQ. apply (wp_ofold _ (fun _ rest => exists k, a <= k /\
    rest = seqZ k (a + n - k) /\ forall i, a <= i < k -> bit_at bits i = true)).
  - exists a. split; [lia|]. split; [f_equal; lia|]. lia.
  - intros [] i rest (k & Hk & Hrest & Hall).
    destruct (decide (k < a + n)); [|by rewrite seqZ_nil in Hrest by lia].
    rewrite seqZ_cons in Hrest by lia. injection Hrest as -> ->.
    unfold check_sealed_bit. apply wp_bind, wp_index; [apply byte_index_range; lia|].
    rewrite land_bit by (apply Z.mod_pos_bound; lia).
    apply wp_if; [done|intros Hbit%negb_false_iff]. apply wp_ok. exists (k + 1).
    split; [lia|]. split; [f_equal; lia|]. intros j Hj.
    destruct (decide (j = k)) as [->|]; [done|apply Hall; lia].
  - intros [] (k & Hk & Hrest & Hall). apply HQ. intros i Hi. apply Hall.
    destruct (decide (k < a + n)); [|lia]. by rewrite seqZ_cons in Hrest by lia.
Qed.

Lemma BitmapPage_decode_image p bs g :
  BitmapPage_typed p g -> bs < 2 ^ 32 -> BitmapPage_adm p bs g ->
  BitmapPage_decode (image BitmapPage_header BitmapPage_wire p bs g) = Ok (p, g).
Proof.
  intros (Hr & Hpi & Hfb & Hvb & Hs & Hg) Hbs (Hvalid & Hmul & Hfirst & Hlen & Hfit).
  unfold u32, u64 in *. pose proof (zlen_BitmapPage_wire p) as Hz.
  pose proof (div_ceil_8 (bp_valid_blocks p)). pose proof (zlen_nonneg (bp_bits p)).
  apply wp_no_error. unfold BitmapPage_decode. apply wp_open_image; [|done|done|done|].
  { unfold BitmapPage_header. header_typed. }
  unfold BitmapPage_decode_payload, BITMAP_FIXED_PAYLOAD. cbn [bh_flags bh_generation bh_owner BitmapPage_header].
  apply wp_if_false; [done|]. apply wp_if_false; [lia|]. rd. rd. rd. rd.
  apply wp_if_false; [lia|]. apply wp_bind, wp_checked_mul; [intros _|lia].
  apply wp_if_false; [lia|]. apply wp_if_false; [lia|]. apply wp_if_false; [lia|].
  rd. change BITMAP_PAGE_BLOCKS with 32384 in *. rewrite as_u32_small by lia.
  apply wp_bind, wp_mul_w; [lia|]. apply wp_bind.
  apply (wp_ofold _ (fun _ rest => Forall (fun i => bp_valid_blocks p <= i < 8 * zlen (bp_bits p)) rest)).
  - apply Forall_forall. intros i Hi%elem_of_seqZ. lia.
  - intros [] i rest [Hi Hrest]%Forall_cons. unfold check_sealed_bit.
    apply wp_bind, wp_index; [apply byte_index_range; lia|].
    rewrite land_bit by (apply Z.mod_pos_bound; lia).
    pose proof (Hs i Hi) as Hbit. unfold bit_at in Hbit. rewrite Hbit. by apply wp_ok.
  - intros [] _. apply wp_ok. by destruct p.
Qed.

Lemma BitmapPage_decode_inv block :
  wp (BitmapPage_decode block)
     (fun '(p, g) => BitmapPage_typed p g /\ BitmapPage_adm p (zlen block) g /\
        block = image BitmapPage_header BitmapPage_wire p (zlen block) g) any_error.
Proof.
  unfold BitmapPage_decode. apply wp_open; [|done]. intros h p n Ht Hty Hp Hn Hblock.
  unfold BitmapPage_decode_payload, BITMAP_FIXED_PAYLOAD.
  rx. rx. rx. rx. rx. rx. rx. apply wp_bind, wp_checked_mul; [intros Hmul|done].
  rx. rx. rx. rx. pose proof (div_ceil_8 (le_combine (sub p 12 16))).
  change BITMAP_PAGE_BLOCKS with 32384 in *.
  rewrite as_u32_small; (rewrite zlen_sub by lia); [|lia].
  apply wp_bind, wp_mul_w; [lia|]. apply wp_bind, check_sealed_total; [lia|rewrite zlen_sub; lia|].
  intros Hsealed. apply wp_ok. set (page := {| bp_region := _ |}).
  assert (p = BitmapPage_wire page) as Hw.
  { rewrite <- (sub_all p (zlen p)) at 1 by done. unfold BitmapPage_wire, page.
    cbn [bp_region bp_page_index bp_first_block bp_valid_blocks bp_bits]. rewire. }
  assert (h = BitmapPage_header page (bh_generation h)) as Hh.
  { unfold BitmapPage_header. rewrite <- Hw, Hp, <- Hty. unfold page. cbn [bp_region].
    destruct h; cbn in *; congruence. }
  unfold BlockHeader_typed in Ht. split_and!.
  - unfold BitmapPage_typed, u32, u64 in *. cbn. split_and!; try lia.
    intros i Hi. cbn in *. rewrite zlen_sub in Hi by lia. apply Hsealed. lia.
  - unfold BitmapPage_adm. rewrite <- Hw. change BITMAP_PAGE_BLOCKS with 32384 in *.
    rewrite Hblock, zlen_sealed, zlen_app, zlen_zeros by lia. cbn -[Z.mul div_ceil].
    rewrite zlen_sub by lia. lia.
  - by eapply image_eq.
Qed.

#[export] Instance BitmapPage_exact : ExactCodec BitmapPage_typed BitmapPage_encode BitmapPage_decode.
Proof.
  apply (exact_codec _ _ _ BitmapPage_header BitmapPage_wire BitmapPage_adm).
  - intros p bs g _ (_ & _ & _ & _ & H). exact H.
  - apply BitmapPage_encode_spec.
  - apply BitmapPage_decode_image.
  - apply BitmapPage_decode_inv.
Qed.

(** ** Properties *)

Lemma all_free_spec region page_index first valid :
  0 <= valid < 2 ^ 32 - 8 ->
  exists p, all_free region page_index first valid = Ok p /\ BitmapPage_wf p /\
    bp_valid_blocks p = valid /\ allocated_set p = ∅.
Proof.
  intros Hv. pose proof (div_ceil_8 valid) as Hd.
  assert (zlen (zeros (div_ceil valid 8)) = div_ceil valid 8) as Hz by (apply zlen_zeros; lia).
  unfold all_free. set (p0 := {| bp_region := region |}).
  assert (wp (seal_trailing_bits p0) (fun p => BitmapPage_wf p /\ bp_valid_blocks p = valid /\
    allocated_set p = ∅) no_error) as H.
  { subst p0. apply wp_seal_trailing; cbn; [lia|lia|]. intros bits Hl Hb. rewrite Hz in Hl.
    assert (forall j, 0 <= j -> bit_at (zeros (div_ceil valid 8)) j = false) as H0.
    { intros j Hj. unfold bit_at, zeros. rewrite nth_lookup.
      destruct (_ !! _) as [x|] eqn:Hx; [apply lookup_replicate_1 in Hx as [-> _]|]; cbn;
        apply Z.testbit_0_l. }
    split_and!; cbn.
    - split_and!; cbn; [lia|lia|lia|]. intros j Hj. cbn in Hj. rewrite Hb by lia. apply orb_true_iff. left. cbn. lia.
    - done.
    - apply set_eq. intros j. rewrite elem_of_allocated. cbn. split; [|set_solver].
      intros [Hj Hbit]. rewrite Hb, H0 in Hbit by lia. lia. }
  destruct (seal_trailing_bits p0) as [p| |]; simpl in H; [|done..]. by exists p.
Qed.

(** C21: a bitmap page implements a finite set of block indices. A fresh page
    is the empty set, [is_allocated] is membership, [set_allocated] adds or
    removes one element and reports whether the set changed, [free_blocks]
    counts the complement, and every operation keeps the trailing bits sealed;
    inside the page no operation panics. *)
Theorem bitmap_page_implements_set :
  (forall region page_index first valid, 0 <= valid < 2 ^ 32 - 8 ->
     exists p, all_free region page_index first valid = Ok p /\ BitmapPage_wf p /\
       bp_valid_blocks p = valid /\ allocated_set p = ∅) /\
  (forall p i, BitmapPage_wf p -> 0 <= i < bp_valid_blocks p ->
     is_allocated p i = Ok (bool_decide (i ∈ allocated_set p))) /\
  (forall p i b, BitmapPage_wf p -> 0 <= i < bp_valid_blocks p ->
     exists p', set_allocated p i b = Ok (p', negb (bool_decide (i ∈ allocated_set p <-> b = true))) /\
       BitmapPage_wf p' /\ bp_valid_blocks p' = bp_valid_blocks p /\
       allocated_set p' = if b then {[ i ]} ∪ allocated_set p else allocated_set p ∖ {[ i ]}) /\
  (forall p, BitmapPage_wf p ->
     free_blocks p = Ok (bp_valid_blocks p - Z.of_nat (size (allocated_set p)))).
Proof.
  split; [apply all_free_spec|]. split; [apply is_allocated_spec|]. split; [|apply free_blocks_spec].
  intros p i b Hwf Hi. destruct (set_allocated_bits p i b Hwf Hi) as (bits & Hset & Hz & Hb).
  destruct (with_bits_wf p bits i b Hwf Hi Hz Hb) as [Hwf' Hall].
  exists (with_bits p bits). split; [|done]. rewrite Hset. do 3 f_equal.
  assert (i ∈ allocated_set p <-> bit_at (bp_bits p) i = true) as Hin.
  { rewrite elem_of_allocated. tauto. }
  apply eq_true_iff_eq. rewrite bool_decide_eq_true, Hin, eqb_true_iff.
  destruct (bit_at _ _), b; intuition.
Qed.

(** the bitmap codec is exact on pages whose trailing bits are sealed: a
    block decodes to a page precisely when encoding that page produces the
    block, and neither direction panics. *)
Theorem BitmapPage_codec_exact block p g bs :
  zlen block < 2 ^ 32 -> 0 <= bs < 2 ^ 32 ->
  (BitmapPage_decode block = Ok (p, g) <->
   BitmapPage_typed p g /\ BitmapPage_encode p (zlen block) g = Ok block) /\
  BitmapPage_decode block <> Panic /\
  (BitmapPage_typed p g -> BitmapPage_encode p bs g <> Panic).
Proof.
  intros Hz Hbs. split_and!; [by apply decode_exact|apply decode_total|intros; by apply encode_total].
Qed.

Definition sample_page : BitmapPage :=
  {| bp_region := 2; bp_page_index := 0; bp_first_block := 0; bp_valid_blocks := 12;
     bp_bits := [Byte.x21; Byte.xf4] |}.

Definition sample_page_block : bytes :=
  match BitmapPage_encode sample_page 64 5 with Ok b => b | _ => [] end.

Lemma sample_page_sealed : trailing_sealed sample_page.
Proof.
  intros i Hi. change (12 <= i < 16) in Hi. assert (i = 12 \/ i = 13 \/ i = 14 \/ i = 15) as H by lia.
  destruct H as [ -> | [ -> | [ -> | -> ]]]; reflexivity.
Qed.

Lemma BitmapPage_codec_exact_witness : BitmapPage_decode sample_page_block = Ok (sample_page, 5).
Proof.
  apply (BitmapPage_codec_exact sample_page_block sample_page 5 64); [by vm_compute|done|].
  split; [|vm_compute; reflexivity].
  unfold BitmapPage_typed, u32, u64. split_and!; try apply sample_page_sealed; by vm_compute.
Defined.
