(* ===== verification/Region.v ===== *)
(** * Region descriptors (crates/afsplus-format/src/region.rs)

    The descriptor that binds an allocation region to the slots and
    generations of its bitmap pages: encoding, decoding and validation against
    the geometry. *)

From S2P Require Import Prelude Crc32c Format Header Codec TreeNode Geometry.

(** ** The code *)

Definition REGION_FIXED_PAYLOAD : Z := 16.
Definition PAGE_BINDING_SIZE : Z := 16.

Record BitmapBinding := {
  bb_slot : Z;
  bb_free_blocks : Z;
  bb_generation : Z;
}.

Record RegionDescriptor := {
  rd_region : Z;
  rd_valid_blocks : Z;
  rd_free_blocks : Z;
  rd_pages : list BitmapBinding;
}.

Definition add_free (total : Z) (page : BitmapBinding) : result Z :=
  ok_or (checked_add 32 total (bb_free_blocks page)) (Overflow "region free count").

Definition check_binding (generation : Z) (_ : unit) (page : BitmapBinding) : result unit :=
  if (BITMAP_SLOTS <=? bb_slot page) || (bb_generation page =? 0) || (generation <? bb_generation page) then
    Err (Invalid "region bitmap binding out of range")
  else Ok tt.

Definition encode_binding (p : bytes) (index : Z) (binding : BitmapBinding) : result bytes :=
  let offset := REGION_FIXED_PAYLOAD + index * PAGE_BINDING_SIZE in
  let* p := put_u8 p offset (bb_slot binding) in
  let* p := put_u32 p (offset + 4) (offset + 8) (bb_free_blocks binding) in
  put_u64 p (offset + 8) (offset + 16) (bb_generation binding).

Definition RegionDescriptor_encode (d : RegionDescriptor) (block_size generation : Z) : result bytes :=
  if 2 ^ 32 - 1 <? zlen (rd_pages d) then Err (Overflow "region descriptor page count") else
  let payload_len := REGION_FIXED_PAYLOAD + zlen (rd_pages d) * PAGE_BINDING_SIZE in
  if (block_size <? HEADER_SIZE) || (block_size - HEADER_SIZE <? payload_len) then
    Err (Overflow "region descriptor exceeds one block") else
  let* sum := ofold add_free 0 (rd_pages d) in
  if negb (sum =? rd_free_blocks d) then Err (Invalid "region descriptor free count mismatch") else
  do* ofold (check_binding generation) tt (rd_pages d) in
  let* block := with_payload (zeros block_size) (fun p =>
    let* p := put_u32 p 0 4 (rd_region d) in
    let* p := put_u32 p 4 8 (rd_valid_blocks d) in
    let* p := put_u32 p 8 12 (rd_free_blocks d) in
    let* p := put_u32 p 12 16 (as_u32 (zlen (rd_pages d))) in
    ofoldi encode_binding p 0 (rd_pages d)) in
  seal {| bh_block_type := block_type.REGION_DESCRIPTOR; bh_flags := 0; bh_owner := rd_region d;
          bh_generation := generation; bh_payload_len := as_u32 payload_len |} block.

Definition decode_binding (p : bytes) (index : Z) : result BitmapBinding :=
  let offset := REGION_FIXED_PAYLOAD + index * PAGE_BINDING_SIZE in
  let* slot := Prelude.index p offset in
  let* free_blocks := get_u32_at p (offset + 4) (offset + 8) in
  let* generation := get_u64_at p (offset + 8) (offset + 16) in
  Ok {| bb_slot := slot; bb_free_blocks := free_blocks; bb_generation := generation |}.

Definition RegionDescriptor_decode_payload (header : BlockHeader) (p : bytes) :
    result (RegionDescriptor * Z) :=
  if negb (bh_flags header =? 0) then Err (Invalid "region descriptor header flags are nonzero") else
  if zlen p <? REGION_FIXED_PAYLOAD then Err (Invalid "region descriptor payload too short") else
  let* region := get_u32_at p 0 4 in
  if negb (region =? bh_owner header) then
    Err (Invalid "descriptor region does not match block owner") else
  let* page_count := get_u32_at p 12 16 in
  if ((zlen p - REGION_FIXED_PAYLOAD) / PAGE_BINDING_SIZE <? page_count) ||
     negb (zlen p =? REGION_FIXED_PAYLOAD + page_count * PAGE_BINDING_SIZE) then
    Err (Invalid "region descriptor page count exceeds payload") else
  let* pages := collect (decode_binding p) 0 (Z.to_nat page_count) in
  let* valid_blocks := get_u32_at p 4 8 in
  let* free_blocks := get_u32_at p 8 12 in
  Ok ({| rd_region := region; rd_valid_blocks := valid_blocks; rd_free_blocks := free_blocks;
         rd_pages := pages |}, bh_generation header).

Definition RegionDescriptor_decode (block : bytes) : result (RegionDescriptor * Z) :=
  let* header := verify block block_type.REGION_DESCRIPTOR in
  let* p := payload header block in
  RegionDescriptor_decode_payload header p.

(** One iteration of the loop of [validate]. *)
Definition validate_binding (geo : Geometry) (expected_region descriptor_generation : Z)
    (free page_index : Z) (binding : BitmapBinding) : result Z :=
  let* bad :=
    if (BITMAP_SLOTS <=? bb_slot binding) || (bb_generation binding =? 0) ||
       (descriptor_generation <? bb_generation binding) then Ok true
    else
      let* valid := bitmap_page_valid_blocks geo expected_region (as_u32 page_index) in
      Ok (valid <? bb_free_blocks binding) in
  if (bad : bool) then Err (Invalid "region bitmap binding out of range") else
  ok_or (checked_add 32 free (bb_free_blocks binding)) (Overflow "region free count").

Definition RegionDescriptor_validate (d : RegionDescriptor) (geo : Geometry)
    (expected_region descriptor_generation : Z) : result unit :=
  let* mismatch :=
    if negb (rd_region d =? expected_region) then Ok true else
    let* valid := region_valid_blocks geo expected_region in
    if negb (rd_valid_blocks d =? valid) then Ok true else
    let* pages := bitmap_page_count geo expected_region in
    Ok (negb (zlen (rd_pages d) =? pages)) in
  if (mismatch : bool) then Err (Invalid "region descriptor geometry mismatch") else
  let* free := ofoldi (validate_binding geo expected_region descriptor_generation) 0 0 (rd_pages d) in
  if negb (free =? rd_free_blocks d) then Err (Invalid "region descriptor free count mismatch") else
  Ok tt.

(** ** The wire image *)

Definition binding_wire (b : BitmapBinding) : bytes :=
  [byte.of_Z (bb_slot b)] ++ zeros 3 ++ le_split 4 (bb_free_blocks b) ++ le_split 8 (bb_generation b).

Definition RegionDescriptor_wire (d : RegionDescriptor) : bytes :=
  le_split 4 (rd_region d) ++ le_split 4 (rd_valid_blocks d) ++ le_split 4 (rd_free_blocks d) ++
  le_split 4 (zlen (rd_pages d)) ++ wires binding_wire (rd_pages d).

Definition RegionDescriptor_header (d : RegionDescriptor) (g : Z) : BlockHeader :=
  {| bh_block_type := block_type.REGION_DESCRIPTOR; bh_flags := 0; bh_owner := rd_region d;
     bh_generation := g; bh_payload_len := zlen (RegionDescriptor_wire d) |}.

Definition BitmapBinding_typed (b : BitmapBinding) : Prop :=
  u8 (bb_slot b) /\ u32 (bb_free_blocks b) /\ u64 (bb_generation b).

Definition RegionDescriptor_typed (d : RegionDescriptor) (g : Z) : Prop :=
  u32 (rd_region d) /\ u32 (rd_valid_blocks d) /\ u32 (rd_free_blocks d) /\
  Forall BitmapBinding_typed (rd_pages d) /\ u64 g.

Lemma zlen_binding_wire b : zlen (binding_wire b) = 16.
Proof. unfold binding_wire. side. Qed.

Lemma zlen_RegionDescriptor_wire d : zlen (RegionDescriptor_wire d) = 16 + 16 * zlen (rd_pages d).
Proof. unfold RegionDescriptor_wire. autorewrite with zlen. rewrite (zlen_wires _ 16 zlen_binding_wire). lia. Qed.

#[local] Hint Unfold RegionDescriptor_wire : wire.
#[local] Hint Rewrite zlen_RegionDescriptor_wire zlen_binding_wire (zlen_wires _ 16 zlen_binding_wire) : zlen.

Lemma wp_encode_pages d n bs R :
  n = zlen (rd_pages d) -> 16 + 16 * n <= bs ->
  wp (ofoldi encode_binding (upto (RegionDescriptor_wire d) 16 bs) 0 (rd_pages d))
     (fun p => p = upto (RegionDescriptor_wire d) (16 + 16 * n) bs) R.
Proof.
  intros -> Hbs. pose proof (zlen_nonneg (rd_pages d)).
  apply (wp_ofoldi_wires binding_wire 16 zlen_binding_wire _ (fun _ => True)); [lia|lia|wire_read|side| |done].
  intros k b Hk o Ho Hl Hw. unfold encode_binding, REGION_FIXED_PAYLOAD, PAGE_BINDING_SIZE.
  replace (16 + Z.of_nat k * 16) with o by lia. unfold binding_wire in Hw.
  enc_field. enc_field. enc_field. done.
Qed.

Lemma RegionDescriptor_encode_ok d bs g block :
  RegionDescriptor_typed d g -> 0 <= bs < 2 ^ 32 -> RegionDescriptor_encode d bs g = Ok block ->
  zlen (RegionDescriptor_wire d) <= bs - 32 /\
  block = image RegionDescriptor_header RegionDescriptor_wire d bs g.
Proof.
  intros Ht Hbs. refine (wp_of_ok _ _ (fun block => _) any_error _).
  pose proof (zlen_RegionDescriptor_wire d) as Hz. pose proof (zlen_nonneg (rd_pages d)).
  unfold RegionDescriptor_encode, HEADER_SIZE, REGION_FIXED_PAYLOAD, PAGE_BINDING_SIZE.
  rx. rx. apply wp_bind. apply (wp_ofold _ (fun _ _ => True)); [done| |intros sum _].
  { intros. by apply wp_ok_or. }
  rx. apply wp_bind. apply (wp_ofold _ (fun _ _ => True)); [done| |intros [] _].
  { intros. unfold check_binding. by rx. }
  rewrite !as_u32_small by lia.
  replace (16 + zlen (rd_pages d) * 16) with (zlen (RegionDescriptor_wire d)) by lia.
  apply (wp_seal_image RegionDescriptor_header RegionDescriptor_wire d bs g); [done|lia|].
  do 4 enc_field. eapply wp_mono; [apply (wp_encode_pages d (zlen (rd_pages d)) (bs - 32) any_error); [done|lia]| |done].
  intros p ->. split; [by rewrite Hz|]. split; [lia|done].
Qed.

Lemma decode_binding_image p k b l :
  BitmapBinding_typed b -> l !! k = Some b -> 16 + 16 * zlen l <= zlen p ->
  sub p 16 (16 + 16 * zlen l) = wires binding_wire l -> decode_binding p (Z.of_nat k) = Ok b.
Proof.
  intros (Hs & Hf & Hg) Hk Hl Hw. unfold u8, u32, u64 in *. apply wp_no_error.
  apply lookup_lt_Some in Hk as Hlt.
  assert (sub p (16 + 16 * Z.of_nat k) (16 + 16 * Z.of_nat k + 16) = binding_wire b) as Hb.
  { eapply (sub_window p); [exact Hw|unfold zlen; lia..|].
    rewrite <- (sub_wires binding_wire 16 zlen_binding_wire l k b Hk). f_equal; lia. }
  unfold decode_binding, REGION_FIXED_PAYLOAD, PAGE_BINDING_SIZE.
  replace (16 + Z.of_nat k * 16) with (16 + 16 * Z.of_nat k) by lia. clear Hw.
  set (o := 16 + 16 * Z.of_nat k) in *. assert (0 <= o /\ o + 16 <= zlen p) as [? ?] by (unfold zlen in *; lia).
  clearbody o. unfold binding_wire in Hb. rd. rd. rd. apply wp_ok. by destruct b.
Qed.

Lemma RegionDescriptor_decode_image d bs g :
  RegionDescriptor_typed d g -> zlen (RegionDescriptor_wire d) <= bs - 32 -> bs < 2 ^ 32 ->
  RegionDescriptor_decode (image RegionDescriptor_header RegionDescriptor_wire d bs g) = Ok (d, g).
Proof.
  intros (Hr & Hv & Hf & HF & Hg) Hfit Hbs. unfold u32, u64 in *.
  pose proof (zlen_RegionDescriptor_wire d) as Hz. pose proof (zlen_nonneg (rd_pages d)).
  apply wp_no_error. unfold RegionDescriptor_decode. apply wp_open_image; [|done|done|done|].
  { unfold RegionDescriptor_header. header_typed. }
  unfold RegionDescriptor_decode_payload, REGION_FIXED_PAYLOAD, PAGE_BINDING_SIZE.
  cbn [bh_flags bh_generation bh_owner RegionDescriptor_header].
  apply wp_if_false; [done|]. apply wp_if_false; [lia|]. rd. apply wp_if_false; [lia|]. rd.
  apply wp_if_false.
  { rewrite Hz. replace (16 + 16 * zlen (rd_pages d) - 16) with (zlen (rd_pages d) * 16) by lia.
    rewrite Z.div_mul by lia. lia. }
  apply wp_bind. replace (Z.to_nat (zlen (rd_pages d))) with (length (rd_pages d)) by (unfold zlen; lia).
  rewrite (collect_wires _ (rd_pages d)).
  - apply wp_ok. rd. rd. apply wp_ok. by destruct d.
  - intros k b Hk. rewrite Z.add_0_l. apply (decode_binding_image _ k b (rd_pages d)); [|done|lia|wire_read].
    rewrite Forall_lookup in HF. by eapply HF.
Qed.

(** Decoding is total, and what it returns is in range and consistent with
    the block header. *)
Lemma RegionDescriptor_decode_inv block :
  wp (RegionDescriptor_decode block)
     (fun '(d, g) => RegionDescriptor_typed d g /\ zlen (RegionDescriptor_wire d) <= zlen block - 32) any_error.
Proof.
  unfold RegionDescriptor_decode. apply wp_open; [|done]. intros h p n Ht Hty Hp Hn Hblock.
  unfold RegionDescriptor_decode_payload, REGION_FIXED_PAYLOAD, PAGE_BINDING_SIZE.
  rx. rx. rx. rx. rx. rx. apply wp_bind.
  apply (wp_collect_all _ BitmapBinding_typed).
  { intros j Hj. unfold decode_binding, REGION_FIXED_PAYLOAD, PAGE_BINDING_SIZE.
    rx. rx. rx. apply wp_ok. by split_and!. }
  intros l Hl HF. rx. rx. apply wp_ok. unfold BlockHeader_typed in Ht. split.
  - unfold RegionDescriptor_typed, u32. cbn. split_and!; (done || lia || tauto).
  - rewrite zlen_RegionDescriptor_wire, Hblock, zlen_sealed, zlen_app, zlen_zeros by lia.
    cbn [rd_pages]. unfold zlen at 1. rewrite Hl. lia.
Qed.

(** ** Validation against the geometry *)

Definition page_valid (g : Geometry) (r k : Z) : Z :=
  Z.min (Z.max 0 (valid g r - k * BITMAP_PAGE_BLOCKS)) BITMAP_PAGE_BLOCKS.

Definition binding_ok (g : Geometry) (r gen k : Z) (b : BitmapBinding) : Prop :=
  bb_slot b < BITMAP_SLOTS /\ 0 < bb_generation b <= gen /\ bb_free_blocks b <= page_valid g r k.

Definition free_sum (l : list BitmapBinding) : Z := foldr (fun b n => bb_free_blocks b + n) 0 l.

Lemma free_sum_snoc l b : free_sum (l ++ [b]) = free_sum l + bb_free_blocks b.
Proof. unfold free_sum. induction l as [|x l IH]; simpl; [lia|]. rewrite IH. lia. Qed.

Lemma wp_page_valid geo r k (Q : Z -> Prop) R :
  WfGeometry geo -> 0 <= r < regions geo -> 0 <= k < 16 -> Q (page_valid geo r k) ->
  wp (bitmap_page_valid_blocks geo r k) Q R.
Proof.
  intros Hwf Hr Hk HQ. pose proof (@wf_region geo _). pose proof (@wf_total geo _).
  unfold bitmap_page_valid_blocks, saturating_sub.
  apply wp_bind, wp_mul_w; [change BITMAP_PAGE_BLOCKS with 32384; lia|].
  rewrite (region_valid_blocks_eq geo) by done. exact HQ.
Qed.

Lemma wp_validate_binding geo r g free k b (Q : Z -> Prop) R :
  WfGeometry geo -> 0 <= r < regions geo -> 0 <= k < 16 -> BitmapBinding_typed b ->
  (binding_ok geo r g k b -> free + bb_free_blocks b < 2 ^ 32 -> Q (free + bb_free_blocks b)) ->
  (forall e, R e) -> wp (validate_binding geo r g free k b) Q R.
Proof.
  intros Hwf Hr Hk (Hs & Hf & Hgen) HQ HR. unfold u64, u32 in *. unfold validate_binding.
  rewrite as_u32_small by lia. apply wp_bind, wp_if; intros Hb.
  - apply wp_ok, wp_err, HR.
  - apply wp_bind, wp_page_valid; [done..|]. apply wp_ok. apply wp_if; [intros; apply wp_err, HR|intros Hv].
    apply wp_checked_add; [intros; apply HQ; [unfold binding_ok; lia|lia]|intros; apply HR].
Qed.

Lemma wp_RegionDescriptor_validate d geo r g (Q : unit -> Prop) R :
  WfGeometry geo -> 0 <= r < regions geo -> RegionDescriptor_typed d g ->
  (rd_region d = r -> rd_valid_blocks d = valid geo r -> zlen (rd_pages d) = pages geo r ->
   (forall k b, rd_pages d !! k = Some b -> binding_ok geo r g (Z.of_nat k) b) ->
   rd_free_blocks d = free_sum (rd_pages d) -> Q tt) ->
  (forall e, R e) -> wp (RegionDescriptor_validate d geo r g) Q R.
Proof.
  intros Hwf Hr (_ & _ & _ & HF & _) HQ HR. pose proof (@wf_region geo _) as Hrs. pose proof (@wf_total geo _) as Htb.
  pose proof (pages_bounds geo Hrs Htb r Hr) as Hpb.
  unfold RegionDescriptor_validate.
  rewrite (region_valid_blocks_eq geo), (bitmap_page_count_eq geo) by done. cbn [obind].
  apply wp_bind. apply wp_if; [intros; apply wp_ok, wp_err, HR|intros Hreg].
  apply wp_if; [intros; apply wp_ok, wp_err, HR|intros Hval].
  apply wp_ok, wp_if; [intros; apply wp_err, HR|intros Hpages]. guards.
  apply wp_bind. apply (wp_ofoldi _ (fun free i rest => exists seen, rd_pages d = seen ++ rest /\
    i = zlen seen /\ free = free_sum seen /\
    forall k b, seen !! k = Some b -> binding_ok geo r g (Z.of_nat k) b)).
  - by exists [].
  - intros free i b rest (seen & Hd & -> & -> & Hseen).
    assert (zlen (rd_pages d) = zlen seen + 1 + zlen rest) as Hz by (rewrite Hd, zlen_app, zlen_cons; lia).
    pose proof (zlen_nonneg seen). pose proof (zlen_nonneg rest).
    apply wp_validate_binding; [done|done|lia| | |done].
    { rewrite Hd in HF. apply Forall_app in HF as [_ HF]. by apply Forall_cons in HF as [? _]. }
    intros Hok _. exists (seen ++ [b]). split_and!.
    + by rewrite Hd, <- app_assoc.
    + by rewrite zlen_app, zlen_one.
    + by rewrite free_sum_snoc.
    + intros k b' [Hk|[Hk Hb']]%lookup_app_Some; [by apply Hseen|].
      apply list_lookup_singleton_Some in Hb' as [Hk0 <-].
      replace (Z.of_nat k) with (zlen seen) by (unfold zlen; lia). done.
  - intros free i (seen & Hd & -> & -> & Hseen). rewrite app_nil_r in Hd.
    apply wp_if; [intros; apply wp_err, HR|intros Hfree]. guards.
    apply wp_ok, HQ; [lia|lia|lia| |]; rewrite Hd; (done || lia).
Qed.

(** The bindings never promise more free blocks than the region has. *)
Lemma free_sum_bound geo r g l :
  (forall k b, l !! k = Some b -> binding_ok geo r g (Z.of_nat k) b) -> 0 <= valid geo r ->
  free_sum l <= Z.min (valid geo r) (zlen l * BITMAP_PAGE_BLOCKS).
Proof.
  change BITMAP_PAGE_BLOCKS with 32384. intros Hok Hv.
  induction l as [|b l IH] using rev_ind; [unfold free_sum, zlen; cbn; lia|].
  rewrite free_sum_snoc, zlen_app, zlen_one.
  destruct (Hok (length l) b) as (_ & _ & Hb); [apply list_lookup_middle; done|].
  assert (free_sum l <= Z.min (valid geo r) (zlen l * 32384)).
  { apply IH. intros k b' Hk. apply Hok. by apply lookup_app_l_Some. }
  unfold page_valid in Hb. change BITMAP_PAGE_BLOCKS with 32384 in Hb. fold (zlen l) in Hb. lia.
Qed.

(** A descriptor that fits its region passes validation. *)
Lemma RegionDescriptor_validates geo d r g :
  WfGeometry geo -> 0 <= r < regions geo -> RegionDescriptor_typed d g -> rd_region d = r -> rd_valid_blocks d = valid geo r ->
  zlen (rd_pages d) = pages geo r -> rd_free_blocks d = free_sum (rd_pages d) ->
  (forall k b, rd_pages d !! k = Some b -> binding_ok geo r g (Z.of_nat k) b) -> RegionDescriptor_validate d geo r g = Ok tt.
Proof.
  intros Hwf Hr (_ & _ & Hfr & HF & _) Hreg Hval Hpages Hfree Hok. pose proof (@wf_region geo _) as Hrs. pose proof (@wf_total geo _) as Htb.
  pose proof (pages_bounds geo Hrs Htb r Hr) as Hpb. unfold u32 in Hfr. apply wp_no_error. unfold RegionDescriptor_validate.
  rewrite (region_valid_blocks_eq geo), (bitmap_page_count_eq geo) by done. cbn [obind]. rewrite Hreg, Hval, Hpages, !Z.eqb_refl. cbn [negb obind].
  apply wp_bind. apply (wp_ofoldi _ (fun free i rest => exists seen, rd_pages d = seen ++ rest /\ i = zlen seen /\ free = free_sum seen)).
  - by exists [].
  - intros free i b rest (seen & Hd & -> & ->). assert (zlen (rd_pages d) = zlen seen + 1 + zlen rest) as Hz by (rewrite Hd, zlen_app, zlen_cons; lia).
    pose proof (zlen_nonneg seen). pose proof (zlen_nonneg rest). rewrite Hd in HF. apply Forall_app in HF as [HF1 [(_ & Hb32 & _) HF2]%Forall_cons].
    assert (forall l, Forall BitmapBinding_typed l -> 0 <= free_sum l) as Hnn by (intros l; induction 1 as [|x l (_ & Hx & _) HFl IH]; cbn; [lia|]; fold (free_sum l); unfold u32 in Hx; lia).
    assert (free_sum (rd_pages d) = free_sum seen + bb_free_blocks b + free_sum rest) as Hsum.
    { rewrite Hd. clear. induction seen as [|x l IH]; cbn; [fold (free_sum rest); lia|]. fold (free_sum (l ++ b :: rest)) (free_sum l). lia. }
    pose proof (Hnn seen HF1). pose proof (Hnn rest HF2). unfold u32 in Hb32. destruct (Hok (length seen) b) as (Hs & Hg & Hv); [rewrite Hd; by apply list_lookup_middle|].
    fold (zlen seen) in Hv. unfold validate_binding. rewrite as_u32_small by (unfold u32; lia). apply wp_bind, wp_if; intros Hc; [exfalso; lia|].
    apply wp_bind, wp_page_valid; [done|done|lia|]. apply wp_ok. apply wp_if_false; [lia|]. unfold checked_add. replace (_ <? _) with true by lia. cbn [ok_or]. apply wp_ok.
    exists (seen ++ [b]). split; [by rewrite <- app_assoc|]. split; [by rewrite zlen_app, zlen_one|by rewrite free_sum_snoc].
  - intros free i (seen & Hd & -> & ->). rewrite app_nil_r in Hd. rewrite <- Hd, Hfree, Z.eqb_refl. by apply wp_ok.
Qed.

(** A descriptor whose bindings are in range and whose count is right can be encoded. *)
Lemma wp_add_free l free (Q : Z -> Prop) R :
  Forall BitmapBinding_typed l -> 0 <= free -> free + free_sum l < 2 ^ 32 -> Q (free + free_sum l) -> wp (ofold add_free free l) Q R.
Proof.
  revert free. induction l as [|b l IH]; intros free HF Hf Hs HQ; cbn [ofold].
  - apply wp_ok. by rewrite Z.add_0_r in HQ.
  - apply Forall_cons in HF as [(_ & Hb & _) HF]. cbn in Hs, HQ. fold (free_sum l) in *. unfold u32 in Hb.
    assert (0 <= free_sum l) by (clear -HF; induction HF as [|x l (_ & Hx & _) HF IH]; cbn; [lia|]; fold (free_sum l); unfold u32 in Hx; lia).
    unfold add_free at 1, checked_add. replace (_ <? _) with true by lia. cbn [ok_or obind]. apply IH; [done|lia|lia|]. by rewrite Z.add_assoc in HQ.
Qed.

Lemma RegionDescriptor_encodes d bs g :
  RegionDescriptor_typed d g -> 0 <= bs < 2 ^ 32 -> zlen (RegionDescriptor_wire d) <= bs - 32 -> rd_free_blocks d = free_sum (rd_pages d) ->
  Forall (fun b => bb_slot b < BITMAP_SLOTS /\ 0 < bb_generation b <= g) (rd_pages d) ->
  RegionDescriptor_encode d bs g = Ok (image RegionDescriptor_header RegionDescriptor_wire d bs g).
Proof.
  intros Ht Hbs Hfit Hfree Hb. apply wp_no_error. pose proof (zlen_RegionDescriptor_wire d) as Hz. pose proof (zlen_nonneg (rd_pages d)). pose proof Ht as (_ & _ & Hf & HF & _). unfold u32 in Hf.
  unfold RegionDescriptor_encode, HEADER_SIZE, REGION_FIXED_PAYLOAD, PAGE_BINDING_SIZE. apply wp_if_false; [lia|]. apply wp_if_false; [lia|].
  apply wp_bind, wp_add_free; [done|lia|lia|]. apply wp_if_false; [lia|]. apply wp_bind.
  apply (wp_ofold _ (fun _ l => Forall (fun b => bb_slot b < BITMAP_SLOTS /\ 0 < bb_generation b <= g) l)); [done| |intros [] _].
  { intros [] b l [Hx Hl]%Forall_cons. unfold check_binding. apply wp_if_false; [lia|]. by apply wp_ok. }
  rewrite !as_u32_small by lia. replace (16 + zlen (rd_pages d) * 16) with (zlen (RegionDescriptor_wire d)) by lia.
  apply (wp_seal_image RegionDescriptor_header RegionDescriptor_wire d bs g); [done|lia|].
  do 4 enc_field. eapply wp_mono; [apply (wp_encode_pages d (zlen (rd_pages d)) (bs - 32) no_error); [done|lia]| |done].
  intros p ->. split; [by rewrite Hz|done].
Qed.

(** ** Properties *)

(** an encoded region descriptor is read back unchanged, with its
    generation; and decoding never panics, whatever the block holds. *)
Theorem RegionDescriptor_roundtrip d bs g block :
  RegionDescriptor_typed d g -> 0 <= bs < 2 ^ 32 -> RegionDescriptor_encode d bs g = Ok block ->
  RegionDescriptor_decode block = Ok (d, g) /\ forall b, RegionDescriptor_decode b <> Panic.
Proof.
  intros Ht Hbs He. destruct (RegionDescriptor_encode_ok d bs g block Ht Hbs He) as [Hl ->].
  split; [apply RegionDescriptor_decode_image; (done || lia)|].
  intros b. eapply wp_not_panic, RegionDescriptor_decode_inv.
Qed.

Definition sample_descriptor : RegionDescriptor :=
  {| rd_region := 1; rd_valid_blocks := 16; rd_free_blocks := 7;
     rd_pages := [ {| bb_slot := 2; bb_free_blocks := 7; bb_generation := 3 |} ] |}.

Definition sample_descriptor_block : bytes :=
  match RegionDescriptor_encode sample_descriptor 64 4 with Ok b => b | _ => [] end.

Lemma RegionDescriptor_roundtrip_witness :
  RegionDescriptor_decode sample_descriptor_block = Ok (sample_descriptor, 4).
Proof.
  apply (RegionDescriptor_roundtrip sample_descriptor 64 4 sample_descriptor_block);
    [ranges|done|vm_compute; reflexivity].
Defined.

(** validating a descriptor of a region of an admitted volume never
    panics; a descriptor that passes names the region, describes all its
    pages by bindings in range, and its free count is the sum of theirs and at
    most the region's size. *)
Theorem RegionDescriptor_validate_sound d geo r g :
  WfGeometry geo -> 0 <= r < regions geo -> RegionDescriptor_typed d g ->
  RegionDescriptor_validate d geo r g <> Panic /\
  (RegionDescriptor_validate d geo r g = Ok tt ->
   rd_region d = r /\ region_valid_blocks geo r = Ok (rd_valid_blocks d) /\
   bitmap_page_count geo r = Ok (zlen (rd_pages d)) /\
   (forall k b, rd_pages d !! k = Some b -> binding_ok geo r g (Z.of_nat k) b) /\
   rd_free_blocks d = free_sum (rd_pages d) /\ rd_free_blocks d <= rd_valid_blocks d).
Proof.
  intros Hwf Hr Ht. split.
  - by eapply wp_not_panic, (wp_RegionDescriptor_validate _ _ _ _ (fun _ => True) any_error).
  - refine (wp_of_ok _ _ (fun _ => _) any_error _).
    apply wp_RegionDescriptor_validate; [done..| |done]. intros Hreg Hval Hpages Hok Hfree.
    pose proof (@wf_region geo _) as Hrs. pose proof (@wf_total geo _) as Htb.
    rewrite (region_valid_blocks_eq geo), (bitmap_page_count_eq geo), Hval, Hpages by done.
    split_and!; try done. pose proof (valid_bounds geo Hrs Htb r Hr).
    pose proof (free_sum_bound geo r g _ Hok ltac:(lia)). lia.
Qed.

Lemma RegionDescriptor_validate_sound_witness : RegionDescriptor_validate sample_descriptor small_geometry 1 4 <> Panic.
Proof.
  apply (RegionDescriptor_validate_sound sample_descriptor small_geometry 1 4);
    [apply small_geometry_wf|by vm_compute|ranges].
Defined.

(** The three reserved bytes of a page binding are not read: two
    different blocks, both with valid headers, decode to the same descriptor. *)
Lemma RegionDescriptor_aliases :
  exists a b, a <> b /\ zlen a = zlen b /\ RegionDescriptor_decode a = RegionDescriptor_decode b /\
    RegionDescriptor_decode a = Ok (sample_descriptor, 4).
Proof.
  exists sample_descriptor_block.
  exists (sealed (RegionDescriptor_header sample_descriptor 4)
    (blit (RegionDescriptor_wire sample_descriptor) 17 [Byte.x01])).
  split_and!; vm_compute; (reflexivity || discriminate).
Qed.
