(* ===== verification/Ident.v ===== *)
(** * The identification block (crates/afsplus-format/src/ident.rs)

    The immutable record at block zero: the label rule, the feature bits, the
    name-key algorithm, encoding, decoding and the validation both share. *)

From S2P Require Import Prelude Crc32c Format Header Codec TreeNode Geometry.

(** ** The code *)

Definition IDENT_VERSION : Z := 3.
Definition LABEL_MAX_BYTES : Z := 64.

(** A label is a [&str]: its bytes are valid UTF-8 by its type. *)
Definition validate_label (label : bytes) : result unit :=
  if LABEL_MAX_BYTES <? zlen label then Err (Overflow "volume label") else
  if contains_byte 0 label then Err (Invalid "volume label contains NUL") else
  Ok tt.

Definition INCOMPAT_INTENT_LOG : Z := Z.shiftl 1 0.
Definition INCOMPAT_INTENT_LOG_DATA_UPDATES : Z := Z.shiftl 1 1.
Definition INCOMPAT_PERSISTENT_SNAPSHOTS : Z := Z.shiftl 1 2.
Definition INCOMPAT_SECURITY_DESCRIPTORS : Z := Z.shiftl 1 3.
Definition RO_COMPAT_SHARED_EXTENTS : Z := Z.shiftl 1 0.
Definition RO_COMPAT_ORPHAN_DIRECTORY : Z := Z.shiftl 1 1.
Definition COMPAT_DATA_POLICY : Z := Z.shiftl 1 0.

Definition IDENTITY_LEN : Z := 16.
Definition IDENT_PAYLOAD_LEN : Z := 73 + LABEL_MAX_BYTES + 3 * 8 + 4.
Definition UNICODE_VERSION_16_0_0 : bytes := [Byte.x10; Byte.x00; Byte.x00].

Inductive NameKeyAlgorithm : Type :=
| LegacyIdentity
| UnicodeNfc
| UnicodeNfcCasefold.

#[global] Instance NameKeyAlgorithm_eq_dec : EqDecision NameKeyAlgorithm.
Proof. solve_decision. Defined.

Definition NameKeyAlgorithm_as_u8 (a : NameKeyAlgorithm) : Z :=
  match a with
  | LegacyIdentity => 0
  | UnicodeNfc => 1
  | UnicodeNfcCasefold => 2
  end.

Definition NameKeyAlgorithm_decode (value : Z) : result NameKeyAlgorithm :=
  match value with
  | 0 => Ok LegacyIdentity
  | 1 => Ok UnicodeNfc
  | 2 => Ok UnicodeNfcCasefold
  | _ => Err (Invalid "unsupported directory comparison-key algorithm")
  end.

Record FeatureFlags := { compat : Z; ro_compat : Z; incompat : Z }.

Record Identification := {
  id_uuid : bytes;
  id_block_shift : Z;
  id_checksum_algorithm : Z;
  id_region_size : Z;
  id_log_slots : Z;
  id_features : FeatureFlags;
  id_name_key_algorithm : NameKeyAlgorithm;
  id_unicode_version : bytes;
  id_total_blocks : Z;
  id_checkpoint_slots : Z * Z;
  id_metadata_start : Z;
  id_label : bytes;
}.

(** [1usize << self.block_shift]. *)
Definition id_block_size (i : Identification) : result Z :=
  if id_block_shift i <? 64 then Ok (Z.shiftl 1 (id_block_shift i) mod 2 ^ 64) else Panic.

Definition id_geometry (i : Identification) : result Geometry :=
  let* bs := id_block_size i in
  Ok {| block_size := bs; total_blocks := id_total_blocks i; region_size := id_region_size i |}.

Definition has_bit (flags bit : Z) : bool := negb (Z.land flags bit =? 0).

(** The name-key arm of [validate_geometry]. *)
Definition validate_unicode (a : NameKeyAlgorithm) (version : bytes) : result unit :=
  match a with
  | LegacyIdentity =>
      if bytes_eqb version (zeros 3) then Ok tt
      else Err (Invalid "legacy identity key must not declare Unicode tables")
  | UnicodeNfc | UnicodeNfcCasefold =>
      if bytes_eqb version UNICODE_VERSION_16_0_0 then Ok tt
      else Err (Invalid "unsupported directory Unicode table version")
  end.

Definition validate_geometry (i : Identification) : result unit :=
  let* geo := id_geometry i in
  do* Geometry_validate geo in
  let f := incompat (id_features i) in
  if negb (Bool.eqb (0 <? id_log_slots i) (has_bit f INCOMPAT_INTENT_LOG)) then
    Err (Invalid "intent-log slots and incompatible feature bit disagree") else
  if has_bit f INCOMPAT_INTENT_LOG_DATA_UPDATES && negb (has_bit f INCOMPAT_INTENT_LOG) then
    Err (Invalid "intent-log data updates require the base intent-log feature") else
  do* validate_unicode (id_name_key_algorithm i) (id_unicode_version i) in
  if negb (bool_decide (id_checkpoint_slots i = (1, 2))) then
    Err (Invalid "prototype requires checkpoint slots at LBA 1 and 2") else
  let* geo := id_geometry i in
  let* start := region0_reserved_blocks geo in
  if negb (id_metadata_start i =? start) then
    Err (Invalid "metadata start does not match reserved layout") else
  Ok tt.

Definition Identification_encode (i : Identification) (block_size : Z) : result bytes :=
  if negb (id_block_shift i =? DEFAULT_BLOCK_SHIFT) then
    Err (Invalid "prototype supports only 4 KiB blocks") else
  let* own := id_block_size i in
  if negb (block_size =? own) then Err (WrongBufferSize own block_size) else
  do* validate_label (id_label i) in
  do* validate_geometry i in
  let label := id_label i in
  let* block := with_payload (zeros block_size) (fun p =>
    let* p := put_u64 p 0 8 FS_MAGIC in
    let* p := put_u32 p 8 12 FORMAT_EPOCH in
    let* p := put_u32 p 12 16 IDENT_VERSION in
    let* p := put p 16 32 (id_uuid i) in
    let* p := put_u8 p 32 (id_block_shift i) in
    let* p := put_u8 p 33 (id_checksum_algorithm i) in
    let* p := put_u16 p 34 36 (id_log_slots i) in
    let* p := put_u32 p 36 40 (id_region_size i) in
    let* p := put_u64 p 40 48 (id_total_blocks i) in
    let* p := put_u64 p 48 56 (id_checkpoint_slots i).1 in
    let* p := put_u64 p 56 64 (id_checkpoint_slots i).2 in
    let* p := put_u64 p 64 72 (id_metadata_start i) in
    let* p := put_u8 p 72 (zlen label) in
    let* p := put p 73 (73 + zlen label) label in
    let* p := put_u64 p 137 145 (compat (id_features i)) in
    let* p := put_u64 p 145 153 (ro_compat (id_features i)) in
    let* p := put_u64 p 153 161 (incompat (id_features i)) in
    let* p := put_u8 p 161 (NameKeyAlgorithm_as_u8 (id_name_key_algorithm i)) in
    put p 162 165 (id_unicode_version i)) in
  seal {| bh_block_type := block_type.IDENTIFICATION; bh_flags := 0; bh_owner := 0;
          bh_generation := 0; bh_payload_len := as_u32 IDENT_PAYLOAD_LEN |} block.

Definition Identification_decode_payload (header : BlockHeader) (p : bytes) : result Identification :=
  if negb (bh_flags header =? 0) || negb (bh_owner header =? 0) then
    Err (Invalid "identification header flags or owner are nonzero") else
  if zlen p <? IDENTITY_LEN then Err (Invalid "identification payload too short") else
  let* magic := get_u64_at p 0 8 in
  if negb (magic =? FS_MAGIC) then Err (Invalid "filesystem magic mismatch") else
  let* epoch := get_u32_at p 8 12 in
  if negb (epoch =? FORMAT_EPOCH) then Err (Invalid "unsupported format epoch") else
  let* version := get_u32_at p 12 16 in
  if negb (version =? IDENT_VERSION) then Err (Invalid "unsupported identification version") else
  if negb (zlen p =? IDENT_PAYLOAD_LEN) then
    Err (Invalid "identification payload length is not exact for its version") else
  let* uuid := slice p 16 32 in
  let* block_shift := index p 32 in
  if negb (block_shift =? DEFAULT_BLOCK_SHIFT) then
    Err (Invalid "prototype supports only 4 KiB blocks") else
  let* checksum_algorithm := index p 33 in
  if negb (checksum_algorithm =? CHECKSUM_CRC32C) then
    Err (Invalid "unsupported checksum algorithm") else
  let* log_slots := get_u16_at p 34 36 in
  let* compat := get_u64_at p 137 145 in
  let* ro_compat := get_u64_at p 145 153 in
  let* incompat := get_u64_at p 153 161 in
  let features := {| compat := compat; ro_compat := ro_compat; incompat := incompat |} in
  let* algorithm := index p 161 in
  let* name_key_algorithm := NameKeyAlgorithm_decode algorithm in
  let* unicode_version := slice p 162 165 in
  let* region_size := get_u32_at p 36 40 in
  let* label_len := index p 72 in
  if LABEL_MAX_BYTES <? label_len then Err (Invalid "label length out of range") else
  let* raw := slice p 73 (73 + label_len) in
  let* label := from_utf8 raw in
  do* validate_label label in
  let* total_blocks := get_u64_at p 40 48 in
  let* slot_a := get_u64_at p 48 56 in
  let* slot_b := get_u64_at p 56 64 in
  let* metadata_start := get_u64_at p 64 72 in
  let ident :=
    {| id_uuid := uuid; id_block_shift := block_shift; id_checksum_algorithm := checksum_algorithm;
       id_region_size := region_size; id_log_slots := log_slots; id_features := features;
       id_name_key_algorithm := name_key_algorithm; id_unicode_version := unicode_version;
       id_total_blocks := total_blocks; id_checkpoint_slots := (slot_a, slot_b);
       id_metadata_start := metadata_start; id_label := label |} in
  do* validate_geometry ident in
  Ok ident.

Definition Identification_decode (block : bytes) : result Identification :=
  let* header := verify block block_type.IDENTIFICATION in
  let* p := payload header block in
  Identification_decode_payload header p.

(** ** The wire image *)

Definition Identification_wire (i : Identification) : bytes :=
  le_split 8 FS_MAGIC ++ le_split 4 FORMAT_EPOCH ++ le_split 4 IDENT_VERSION ++ id_uuid i ++
  [byte.of_Z (id_block_shift i)] ++ [byte.of_Z (id_checksum_algorithm i)] ++
  le_split 2 (id_log_slots i) ++ le_split 4 (id_region_size i) ++ le_split 8 (id_total_blocks i) ++
  le_split 8 (id_checkpoint_slots i).1 ++ le_split 8 (id_checkpoint_slots i).2 ++
  le_split 8 (id_metadata_start i) ++ [byte.of_Z (zlen (id_label i))] ++ id_label i ++
  zeros (64 - zlen (id_label i)) ++ le_split 8 (compat (id_features i)) ++
  le_split 8 (ro_compat (id_features i)) ++ le_split 8 (incompat (id_features i)) ++
  [byte.of_Z (NameKeyAlgorithm_as_u8 (id_name_key_algorithm i))] ++ id_unicode_version i.

Definition Identification_header (_ : Identification) (_ : Z) : BlockHeader :=
  {| bh_block_type := block_type.IDENTIFICATION; bh_flags := 0; bh_owner := 0;
     bh_generation := 0; bh_payload_len := IDENT_PAYLOAD_LEN |}.

Definition Identification_typed (i : Identification) : Prop :=
  zlen (id_uuid i) = 16 /\ u8 (id_block_shift i) /\ u8 (id_checksum_algorithm i) /\
  u32 (id_region_size i) /\ u16 (id_log_slots i) /\
  u64 (compat (id_features i)) /\ u64 (ro_compat (id_features i)) /\ u64 (incompat (id_features i)) /\
  zlen (id_unicode_version i) = 3 /\ u64 (id_total_blocks i) /\
  u64 (id_checkpoint_slots i).1 /\ u64 (id_checkpoint_slots i).2 /\ u64 (id_metadata_start i) /\
  utf8_valid (id_label i) = true.

Definition ident_image (i : Identification) : bytes :=
  image Identification_header Identification_wire i 4096 0.

Lemma zlen_Identification_wire i :
  Identification_typed i -> zlen (id_label i) <= 64 -> zlen (Identification_wire i) = 165.
Proof.
  intros (Hu & _ & _ & _ & _ & _ & _ & _ & Hv & _) Hl. unfold Identification_wire. side.
Qed.

(** ** Validation *)

Definition plain_geometry (i : Identification) : Geometry :=
  {| block_size := 4096; total_blocks := id_total_blocks i; region_size := id_region_size i |}.

Lemma id_geometry_eq i : id_block_shift i = 12 -> id_geometry i = Ok (plain_geometry i).
Proof. intros H. unfold id_geometry, id_block_size. by rewrite H. Qed.

Lemma wp_validate_label label (Q : unit -> Prop) R :
  (zlen label <= 64 -> contains_byte 0 label = false -> Q tt) -> (forall e, R e) ->
  wp (validate_label label) Q R.
Proof.
  intros HQ HR. unfold validate_label, LABEL_MAX_BYTES.
  apply wp_if; [intros; apply wp_err, HR|intros Hl]. apply wp_if; [intros; apply wp_err, HR|intros Hz].
  apply wp_ok, HQ; [lia|done].
Qed.

(** What [validate_geometry] establishes. *)
Definition ident_valid (i : Identification) : Prop :=
  WfGeometry (plain_geometry i) /\
  (0 < id_log_slots i <-> has_bit (incompat (id_features i)) INCOMPAT_INTENT_LOG = true) /\
  (has_bit (incompat (id_features i)) INCOMPAT_INTENT_LOG_DATA_UPDATES = true ->
   has_bit (incompat (id_features i)) INCOMPAT_INTENT_LOG = true) /\
  id_unicode_version i = (if decide (id_name_key_algorithm i = LegacyIdentity) then zeros 3
                          else UNICODE_VERSION_16_0_0) /\
  id_checkpoint_slots i = (1, 2) /\ id_metadata_start i = head (plain_geometry i) 0.

Lemma wp_validate_unicode a v (Q : unit -> Prop) R :
  (v = (if decide (a = LegacyIdentity) then zeros 3 else UNICODE_VERSION_16_0_0) -> Q tt) ->
  (forall e, R e) -> wp (validate_unicode a v) Q R.
Proof.
  intros HQ HR. unfold validate_unicode, bytes_eqb.
  destruct a; case_bool_decide; simpl; auto.
Qed.

Lemma wp_validate_geometry i (Q : unit -> Prop) R :
  Identification_typed i -> id_block_shift i = 12 ->
  (Geometry_validate (plain_geometry i) = Ok tt -> ident_valid i -> Q tt) -> (forall e, R e) ->
  wp (validate_geometry i) Q R.
Proof.
  intros Ht Hs HQ HR. unfold validate_geometry. rewrite !id_geometry_eq by done.
  apply wp_bind, wp_ok, wp_bind.
  assert (Geometry_typed (plain_geometry i)) as Hg.
  { unfold Identification_typed in Ht. destruct_and! Ht.
    unfold Geometry_typed, usize. cbn [block_size total_blocks region_size plain_geometry].
    split_and!; (done || lia). }
  destruct (Geometry_validate (plain_geometry i)) as [[]| |] eqn:Hv; [|apply HR|].
  2: { pose proof (wp_Geometry_validate _ (fun _ => True) any_error Hg) as H. rewrite Hv in H. by apply H. }
  pose proof (validate_wf _ Hg Hv) as Hwf. apply wp_ok.
  apply wp_if; [intros; apply wp_err, HR|intros Hlog].
  apply wp_if; [intros; apply wp_err, HR|intros Hdata].
  apply wp_bind, wp_validate_unicode; [intros Hu|done].
  apply wp_if; [intros; apply wp_err, HR|intros Hslots].
  apply wp_bind, wp_ok. rewrite (region0_reserved_eq _ Hwf). apply wp_bind, wp_ok.
  apply wp_if; [intros; apply wp_err, HR|intros Hstart]. guards.
  apply wp_ok, HQ; [done|]. apply negb_false_iff, bool_decide_eq_true in Hslots.
  apply negb_false_iff, Bool.eqb_prop in Hlog. unfold ident_valid. split_and!; try done.
  - rewrite <- Hlog. symmetry. apply Z.ltb_lt.
  - intros Hd. by rewrite Hd, andb_true_l, negb_false_iff in Hdata.
Qed.

(** ** The encoder writes the image *)

#[local] Hint Unfold Identification_wire : wire.

Definition ident_adm (i : Identification) (bs : Z) : Prop :=
  bs = 4096 /\ id_block_shift i = 12 /\ zlen (id_label i) <= 64 /\
  contains_byte 0 (id_label i) = false /\ validate_geometry i = Ok tt.

Lemma Identification_encode_spec i bs :
  Identification_typed i ->
  wp (Identification_encode i bs) (fun b => ident_adm i bs /\ b = ident_image i)
     (fun _ => ~ ident_adm i bs).
Proof.
  intros Ht. unfold Identification_encode, DEFAULT_BLOCK_SHIFT, ident_adm.
  apply wp_if; [intros ?; apply wp_err; lia|intros Hs]. guards.
  assert (id_block_size i = Ok 4096) as -> by (unfold id_block_size; by rewrite Hs).
  apply wp_bind, wp_ok. apply wp_if; [intros ?; apply wp_err; lia|intros Hbs]. guards. subst bs.
  apply wp_bind. unfold validate_label, LABEL_MAX_BYTES.
  apply wp_if; [intros ?; apply wp_err; lia|intros Hl].
  apply wp_if; [intros Hz; apply wp_err; intros (_ & _ & _ & ? & _); congruence|intros Hz]. apply wp_ok, wp_bind.
  pose proof (wp_validate_geometry i (fun _ => True) any_error Ht Hs) as Hv.
  destruct (validate_geometry i) as [[]| |]; [|cbn; intros (_ & _ & _ & _ & ?); done|by apply Hv]. apply wp_ok. clear Hv.
  pose proof (zlen_Identification_wire i Ht ltac:(lia)) as Hw.
  destruct Ht as (Hu & _ & _ & _ & _ & _ & _ & _ & Huv & _). pose proof (zlen_nonneg (id_label i)).
  change (as_u32 IDENT_PAYLOAD_LEN) with IDENT_PAYLOAD_LEN.
  apply (wp_seal_image Identification_header Identification_wire i 4096 0); [by rewrite Hw|lia|].
  do 19 enc_field. split; [by rewrite Hw|]. split; [split_and!; (done || lia)|done].
Qed.

(** ** The decoder *)

Lemma NameKeyAlgorithm_decode_u8 a : NameKeyAlgorithm_decode (NameKeyAlgorithm_as_u8 a) = Ok a.
Proof. by destruct a. Qed.

Lemma NameKeyAlgorithm_u8 a : u8 (NameKeyAlgorithm_as_u8 a).
Proof. by destruct a. Qed.

Lemma wp_NameKeyAlgorithm_decode v (Q : NameKeyAlgorithm -> Prop) R :
  (forall a, Q a) -> (forall e, R e) -> wp (NameKeyAlgorithm_decode v) Q R.
Proof. intros HQ HR. unfold NameKeyAlgorithm_decode. repeat case_match; (apply HQ || apply HR). Qed.

Lemma Identification_decode_image i :
  Identification_typed i -> ident_adm i 4096 -> id_checksum_algorithm i = CHECKSUM_CRC32C ->
  Identification_decode (ident_image i) = Ok i.
Proof.
  intros Ht (_ & Hs & Hl & Hz & Hv) Hsum. pose proof (zlen_Identification_wire i Ht Hl) as Hw.
  unfold Identification_typed in Ht. destruct_and! Ht. unfold u8, u16, u32, u64 in *.
  pose proof (zlen_nonneg (id_label i)).
  apply wp_no_error. unfold Identification_decode, ident_image.
  apply wp_open_image; [unfold Identification_header; header_typed|done|by rewrite Hw|lia|].
  unfold Identification_decode_payload, IDENTITY_LEN, LABEL_MAX_BYTES.
  cbn [bh_flags bh_owner Identification_header].
  change IDENT_PAYLOAD_LEN with 165. rewrite Hw.
  apply wp_if_false; [done|]. apply wp_if_false; [done|].
  rd. apply wp_if_false; [done|]. rd. apply wp_if_false; [done|]. rd. apply wp_if_false; [done|].
  apply wp_if_false; [done|]. rd. rd. apply wp_if_false; [by rewrite Hs|].
  rd. apply wp_if_false; [by rewrite Hsum|]. rd. rd. rd. rd. rd.
  rewrite byte_unsigned_of, NameKeyAlgorithm_decode_u8 by apply NameKeyAlgorithm_u8. apply wp_bind, wp_ok.
  rd. rd. rd. apply wp_if_false; [lia|]. rd. apply wp_bind, wp_from_utf8; [intros _|congruence].
  apply wp_bind. unfold validate_label, LABEL_MAX_BYTES. apply wp_if_false; [lia|].
  rewrite Hz. apply wp_ok. rd. rd. rd. rd.
  destruct i as [? ? ? ? ? [] ? ? ? [] ? ?]. cbn in *. rewrite Hv. done.
Qed.

(** What a decoded identification satisfies, with no assumption on the block. *)
Lemma Identification_decode_inv block :
  wp (Identification_decode block)
     (fun i => Identification_typed i /\ id_checksum_algorithm i = CHECKSUM_CRC32C /\
        ident_adm i 4096 /\ ident_valid i) any_error.
Proof.
  unfold Identification_decode. apply wp_open; [|done]. intros h p n Ht Hty Hp Hn Hblock.
  unfold Identification_decode_payload, IDENTITY_LEN, LABEL_MAX_BYTES.
  change IDENT_PAYLOAD_LEN with 165.
  rx. rx. rx. rx. rx. rx. rx. rx. rx. rx. rx. rx. rx. rx. rx. rx. rx. rx. rx.
  apply wp_bind, wp_NameKeyAlgorithm_decode; [intros a|done].
  rx. rx. rx. rx. unfold u8 in *. rx.
  apply wp_bind, wp_from_utf8; [intros Hutf|done].
  apply wp_bind, wp_validate_label; [intros Hl Hz|done].
  rx. rx. rx. rx. set (i := {| id_uuid := _ |}).
  assert (Identification_typed i) as Hi.
  { unfold Identification_typed, u8, u16, u32, u64. cbn.
    rewrite !zlen_sub by lia. split_and!; (done || lia). }
  apply wp_bind. assert (id_block_shift i = 12) as Hs by done.
  pose proof (wp_validate_geometry i (fun _ => ident_valid i) any_error Hi Hs) as Hv.
  destruct (validate_geometry i) as [[]| |] eqn:Hvg; [|done|by apply Hv]. cbn in Hv.
  apply wp_ok. split_and!; [done|done|done|by apply Hv..].
Qed.

(** ** Properties *)

(** an encoded identification block of a CRC32C volume is read back
    unchanged, and decoding never panics, whatever the block holds. *)
Theorem Identification_roundtrip i bs block :
  Identification_typed i -> id_checksum_algorithm i = CHECKSUM_CRC32C ->
  Identification_encode i bs = Ok block ->
  Identification_decode block = Ok i /\ forall b, Identification_decode b <> Panic.
Proof.
  intros Ht Hsum He. split; [|intros b; eapply wp_not_panic, Identification_decode_inv].
  pose proof (Identification_encode_spec i bs Ht) as H. rewrite He in H. destruct H as [Ha ->].
  destruct Ha as (-> & Ha). apply Identification_decode_image; done || by split.
Qed.

Definition sample_ident : Identification :=
  {| id_uuid := zeros 16; id_block_shift := 12; id_checksum_algorithm := 1; id_region_size := 16;
     id_log_slots := 2; id_features := {| compat := 1; ro_compat := 3; incompat := 3 |};
     id_name_key_algorithm := UnicodeNfc; id_unicode_version := UNICODE_VERSION_16_0_0;
     id_total_blocks := 60; id_checkpoint_slots := (1, 2); id_metadata_start := 9;
     id_label := [Byte.x57; Byte.x6f; Byte.x72; Byte.x6b] |}.

Lemma Identification_roundtrip_witness :
  Identification_decode (match Identification_encode sample_ident 4096 with Ok b => b | _ => [] end)
  = Ok sample_ident.
Proof.
  apply (Identification_roundtrip sample_ident 4096); [ranges|reflexivity|vm_compute; reflexivity].
Defined.



(** The bytes after the label are not read: two different blocks, both with
    valid headers, decode to the same identification. *)
Lemma Identification_aliases :
  exists a b, a <> b /\ zlen a = zlen b /\ Identification_decode a = Identification_decode b /\
    Identification_decode a = Ok sample_ident.
Proof.
  exists (ident_image sample_ident).
  exists (sealed (Identification_header sample_ident 0)
    (blit (Identification_wire sample_ident ++ zeros (4096 - 32 - 165)) 80 [Byte.x01])).
  split_and!; vm_compute; (reflexivity || discriminate).
Qed.
