(* ===== verification/Checkpoint.v ===== *)
(** * Checkpoint records (crates/afsplus-format/src/checkpoint.rs)

    The two-slot commit record: encoding, decoding bound to the volume's UUID,
    and the structural validation mount uses to select a checkpoint. *)

From S2P Require Import Prelude Crc32c Format Header Codec TreeNode Geometry Ident.

(** ** The code *)

Definition LABEL_OFFSET : Z := 96.
Definition CHECKPOINT_FIXED_PAYLOAD : Z := LABEL_OFFSET + 8 + LABEL_MAX_BYTES.
Definition SNAPSHOT_PAYLOAD : Z := CHECKPOINT_FIXED_PAYLOAD + 16.

Record SnapshotRoots := { sr_registry : Z; sr_lifetimes : Z }.

Definition SnapshotRoots_validate (r : SnapshotRoots) : result unit :=
  if (sr_registry r =? 0) || (sr_lifetimes r =? 0) || (sr_registry r =? sr_lifetimes r) then
    Err (Invalid "snapshot roots must be nonzero and distinct")
  else Ok tt.

Record RegionRecord := {
  rr_descriptor_slot : Z;
  rr_free_blocks : Z;
  rr_descriptor_generation : Z;
}.

Record Checkpoint := {
  cp_uuid : bytes;
  cp_generation : Z;
  cp_root_object_id : Z;
  cp_object_map_block : Z;
  cp_allocation_root_block : Z;
  cp_reclaim_root_block : Z;
  cp_next_object_id : Z;
  cp_committed_tx_id : Z;
  cp_free_blocks_total : Z;
  cp_flags : Z;
  cp_shared_extent_root_block : Z;
  cp_label : bytes;
  cp_snapshot_roots : option SnapshotRoots;
}.

Definition Checkpoint_encode (c : Checkpoint) (block_size : Z) : result bytes :=
  if cp_generation c =? 0 then Err (Invalid "checkpoint generation must be nonzero") else
  if negb (cp_root_object_id c =? OBJECT_ROOT) then Err (Invalid "root object ID is invalid") else
  if cp_allocation_root_block c =? 0 then Err (Invalid "checkpoint requires an allocation root") else
  do* validate_label (cp_label c) in
  let* payload_len :=
    match cp_snapshot_roots c with
    | Some roots => do* SnapshotRoots_validate roots in Ok SNAPSHOT_PAYLOAD
    | None => Ok CHECKPOINT_FIXED_PAYLOAD
    end in
  if saturating_sub block_size HEADER_SIZE <? payload_len then Err (Overflow "checkpoint payload") else
  let* block := with_payload (zeros block_size) (fun p =>
    let* p := put p 0 16 (cp_uuid c) in
    let* p := put_u64 p 16 24 (cp_generation c) in
    let* p := put_u64 p 24 32 (cp_root_object_id c) in
    let* p := put_u64 p 32 40 (cp_object_map_block c) in
    let* p := put_u64 p 40 48 (cp_allocation_root_block c) in
    let* p := put_u64 p 48 56 (cp_reclaim_root_block c) in
    let* p := put_u64 p 56 64 (cp_next_object_id c) in
    let* p := put_u64 p 64 72 (cp_committed_tx_id c) in
    let* p := put_u64 p 72 80 (cp_free_blocks_total c) in
    let* p := put_u64 p 80 88 (cp_flags c) in
    let* p := put_u64 p 88 96 (cp_shared_extent_root_block c) in
    let* p := put_u8 p LABEL_OFFSET (zlen (cp_label c)) in
    let* p := put p (LABEL_OFFSET + 8) (LABEL_OFFSET + 8 + zlen (cp_label c)) (cp_label c) in
    match cp_snapshot_roots c with
    | Some roots =>
        let* p := put_u64 p CHECKPOINT_FIXED_PAYLOAD (CHECKPOINT_FIXED_PAYLOAD + 8) (sr_registry roots) in
        put_u64 p (CHECKPOINT_FIXED_PAYLOAD + 8) SNAPSHOT_PAYLOAD (sr_lifetimes roots)
    | None => Ok p
    end) in
  seal {| bh_block_type := block_type.CHECKPOINT; bh_flags := 0; bh_owner := 0;
          bh_generation := cp_generation c; bh_payload_len := as_u32 payload_len |} block.

Definition Checkpoint_decode_payload (expected_uuid : bytes) (header : BlockHeader) (p : bytes) :
    result Checkpoint :=
  if negb (bh_flags header =? 0) || negb (bh_owner header =? 0) then
    Err (Invalid "checkpoint header reserved fields are nonzero") else
  if negb ((bh_payload_len header =? CHECKPOINT_FIXED_PAYLOAD) ||
           (bh_payload_len header =? SNAPSHOT_PAYLOAD)) ||
     (zlen p <? CHECKPOINT_FIXED_PAYLOAD) then
    Err (Invalid "checkpoint payload length mismatch") else
  let* uuid := slice p 0 16 in
  if negb (bytes_eqb uuid expected_uuid) then Err (Invalid "checkpoint UUID does not match volume") else
  let* generation := get_u64_at p 16 24 in
  if (generation =? 0) || negb (generation =? bh_generation header) then
    Err (Invalid "checkpoint generation invalid or inconsistent") else
  let* label_len := index p LABEL_OFFSET in
  let* label_field := slice p (LABEL_OFFSET + 8) CHECKPOINT_FIXED_PAYLOAD in
  let* not_canonical :=
    if LABEL_MAX_BYTES <? label_len then Ok true else
    let* reserved := slice p (LABEL_OFFSET + 1) (LABEL_OFFSET + 8) in
    if negb (bytes_eqb reserved (zeros 7)) then Ok true else
    let* rest := slice label_field label_len (zlen label_field) in
    Ok (negb (all_zero rest)) in
  if (not_canonical : bool) then Err (Invalid "checkpoint label field is not canonical") else
  let* raw := slice label_field 0 label_len in
  let* label := from_utf8 raw in
  do* validate_label label in
  let* root_object_id := get_u64_at p 24 32 in
  let* object_map_block := get_u64_at p 32 40 in
  let* allocation_root_block := get_u64_at p 40 48 in
  let* reclaim_root_block := get_u64_at p 48 56 in
  let* next_object_id := get_u64_at p 56 64 in
  let* committed_tx_id := get_u64_at p 64 72 in
  let* free_blocks_total := get_u64_at p 72 80 in
  let* flags := get_u64_at p 80 88 in
  let* shared_extent_root_block := get_u64_at p 88 96 in
  let* snapshot_roots :=
    if zlen p =? SNAPSHOT_PAYLOAD then
      let* registry := get_u64_at p CHECKPOINT_FIXED_PAYLOAD (CHECKPOINT_FIXED_PAYLOAD + 8) in
      let* lifetimes := get_u64_at p (CHECKPOINT_FIXED_PAYLOAD + 8) SNAPSHOT_PAYLOAD in
      let roots := {| sr_registry := registry; sr_lifetimes := lifetimes |} in
      do* SnapshotRoots_validate roots in
      Ok (Some roots)
    else Ok None in
  let checkpoint :=
    {| cp_uuid := uuid; cp_generation := generation; cp_root_object_id := root_object_id;
       cp_object_map_block := object_map_block; cp_allocation_root_block := allocation_root_block;
       cp_reclaim_root_block := reclaim_root_block; cp_next_object_id := next_object_id;
       cp_committed_tx_id := committed_tx_id; cp_free_blocks_total := free_blocks_total;
       cp_flags := flags; cp_shared_extent_root_block := shared_extent_root_block;
       cp_label := label; cp_snapshot_roots := snapshot_roots |} in
  if negb (root_object_id =? OBJECT_ROOT) then Err (Invalid "root object ID is invalid") else
  if negb (flags =? 0) then Err (Invalid "checkpoint payload reserved flags are nonzero") else
  Ok checkpoint.

Definition Checkpoint_decode (block expected_uuid : bytes) : result Checkpoint :=
  let* header := verify block block_type.CHECKPOINT in
  let* p := payload header block in
  Checkpoint_decode_payload expected_uuid header p.

Definition validate_structural (c : Checkpoint) (geo : Geometry) : result unit :=
  do* match cp_snapshot_roots c with
      | Some roots =>
          do* SnapshotRoots_validate roots in
          let* registry_ok := is_allocatable geo (sr_registry roots) in
          let* bad :=
            if negb registry_ok then Ok true
            else let* lifetimes_ok := is_allocatable geo (sr_lifetimes roots) in Ok (negb lifetimes_ok) in
          if (bad : bool) then Err (Invalid "snapshot roots outside allocatable bounds") else Ok tt
      | None => Ok tt
      end in
  let* allocation_ok := is_allocatable geo (cp_allocation_root_block c) in
  if negb allocation_ok then Err (Invalid "allocation root block out of allocatable bounds") else
  if total_blocks geo <? cp_free_blocks_total c then
    Err (Invalid "checkpoint free total exceeds volume size") else
  let* object_map_ok := is_allocatable geo (cp_object_map_block c) in
  if negb object_map_ok then Err (Invalid "object map block out of allocatable bounds") else
  let* reclaim_ok := is_allocatable geo (cp_reclaim_root_block c) in
  if negb reclaim_ok then Err (Invalid "reclaim root block out of allocatable bounds") else
  let* shared_bad :=
    if negb (cp_shared_extent_root_block c =? 0) then
      let* shared_ok := is_allocatable geo (cp_shared_extent_root_block c) in Ok (negb shared_ok)
    else Ok false in
  if (shared_bad : bool) then Err (Invalid "shared-extent root block out of allocatable bounds") else
  if cp_next_object_id c <? OBJECT_FIRST_DYNAMIC then Err (Invalid "next object ID below dynamic range") else
  Ok tt.

(** ** The wire image *)

Definition roots_wire (r : option SnapshotRoots) : bytes :=
  match r with
  | Some roots => le_split 8 (sr_registry roots) ++ le_split 8 (sr_lifetimes roots)
  | None => []
  end.

Definition Checkpoint_wire (c : Checkpoint) : bytes :=
  cp_uuid c ++ le_split 8 (cp_generation c) ++ le_split 8 (cp_root_object_id c) ++
  le_split 8 (cp_object_map_block c) ++ le_split 8 (cp_allocation_root_block c) ++
  le_split 8 (cp_reclaim_root_block c) ++ le_split 8 (cp_next_object_id c) ++
  le_split 8 (cp_committed_tx_id c) ++ le_split 8 (cp_free_blocks_total c) ++
  le_split 8 (cp_flags c) ++ le_split 8 (cp_shared_extent_root_block c) ++
  [byte.of_Z (zlen (cp_label c))] ++ zeros 7 ++ cp_label c ++ zeros (64 - zlen (cp_label c)) ++
  roots_wire (cp_snapshot_roots c).

Definition Checkpoint_header (c : Checkpoint) (_ : Z) : BlockHeader :=
  {| bh_block_type := block_type.CHECKPOINT; bh_flags := 0; bh_owner := 0;
     bh_generation := cp_generation c; bh_payload_len := zlen (Checkpoint_wire c) |}.

Definition checkpoint_image (c : Checkpoint) (bs : Z) : bytes :=
  image Checkpoint_header Checkpoint_wire c bs 0.

Definition roots_typed (r : option SnapshotRoots) : Prop :=
  match r with Some r => u64 (sr_registry r) /\ u64 (sr_lifetimes r) | None => True end.

Definition Checkpoint_typed (c : Checkpoint) : Prop :=
  zlen (cp_uuid c) = 16 /\ u64 (cp_generation c) /\ u64 (cp_root_object_id c) /\
  u64 (cp_object_map_block c) /\ u64 (cp_allocation_root_block c) /\ u64 (cp_reclaim_root_block c) /\
  u64 (cp_next_object_id c) /\ u64 (cp_committed_tx_id c) /\ u64 (cp_free_blocks_total c) /\
  u64 (cp_flags c) /\ u64 (cp_shared_extent_root_block c) /\ utf8_valid (cp_label c) = true /\
  roots_typed (cp_snapshot_roots c).

Definition roots_ok (r : option SnapshotRoots) : Prop :=
  match r with
  | Some r => sr_registry r <> 0 /\ sr_lifetimes r <> 0 /\ sr_registry r <> sr_lifetimes r
  | None => True
  end.

(** What both directions require of a checkpoint. *)
Definition checkpoint_common (c : Checkpoint) (bs : Z) : Prop :=
  cp_generation c <> 0 /\ cp_root_object_id c = OBJECT_ROOT /\
  zlen (cp_label c) <= 64 /\ contains_byte 0 (cp_label c) = false /\ roots_ok (cp_snapshot_roots c) /\
  zlen (Checkpoint_wire c) <= bs - 32.

Definition checkpoint_adm (c : Checkpoint) (bs : Z) : Prop :=
  checkpoint_common c bs /\ cp_allocation_root_block c <> 0.

Lemma zlen_roots_wire r : zlen (roots_wire r) = match r with Some _ => 16 | None => 0 end.
Proof. destruct r; [cbn [roots_wire]; side|done]. Qed.

Lemma zlen_Checkpoint_wire c :
  zlen (cp_uuid c) = 16 -> zlen (cp_label c) <= 64 ->
  zlen (Checkpoint_wire c) = 168 + zlen (roots_wire (cp_snapshot_roots c)).
Proof. intros Hu Hl. unfold Checkpoint_wire. side. Qed.

Lemma wp_SnapshotRoots_validate r (Q : unit -> Prop) (R : FormatError -> Prop) :
  (roots_ok (Some r) -> Q tt) -> (~ roots_ok (Some r) -> forall e, R e) ->
  wp (SnapshotRoots_validate r) Q R.
Proof.
  intros HQ HR. unfold SnapshotRoots_validate, roots_ok in *.
  apply wp_if; intros H; [apply wp_err, HR; lia|apply wp_ok, HQ; lia].
Qed.

(** ** The encoder writes the image *)

#[local] Hint Unfold Checkpoint_wire : wire.

Lemma roots_window c r :
  zlen (cp_uuid c) = 16 -> zlen (cp_label c) <= 64 -> cp_snapshot_roots c = Some r ->
  sub (Checkpoint_wire c) 168 184 = le_split 8 (sr_registry r) ++ le_split 8 (sr_lifetimes r).
Proof.
  intros Hu Hl Hr. pose proof (zlen_nonneg (cp_label c)). unfold Checkpoint_wire. rewrite Hr.
  cbn [roots_wire]. rewrite !app_assoc, <- app_assoc. apply sub_skip; [side|]. apply sub_last; side.
Qed.

Lemma Checkpoint_encode_spec c bs :
  Checkpoint_typed c -> 0 <= bs < 2 ^ 32 ->
  wp (Checkpoint_encode c bs) (fun b => checkpoint_adm c bs /\ b = checkpoint_image c bs)
     (fun _ => ~ checkpoint_adm c bs).
Proof.
  intros (Hu & _) Hbs. unfold Checkpoint_encode, checkpoint_adm, checkpoint_common, OBJECT_ROOT, HEADER_SIZE.
  apply wp_if; [intros ?; apply wp_err; lia|intros Hg].
  apply wp_if; [intros ?; apply wp_err; lia|intros Hroot].
  apply wp_if; [intros ?; apply wp_err; lia|intros Halloc].
  unfold validate_label, LABEL_MAX_BYTES. apply wp_bind.
  apply wp_if; [intros ?; apply wp_err; lia|intros Hl].
  apply wp_if; [intros Hz; apply wp_err; intros [(_ & _ & _ & ? & _) _]; congruence|intros Hz].
  apply wp_ok. guards. pose proof (zlen_Checkpoint_wire c Hu Hl) as Hw. rewrite zlen_roots_wire in Hw.
  pose proof (zlen_nonneg (cp_label c)). apply wp_bind.
  assert (168 <= zlen (Checkpoint_wire c)) by (destruct (cp_snapshot_roots c); lia).
  eapply (wp_mono _ (fun n => n = zlen (Checkpoint_wire c) /\ roots_ok (cp_snapshot_roots c))
    _ (fun _ => ~ roots_ok (cp_snapshot_roots c))); [|intros n [-> Hok]; cbv beta|tauto].
  { destruct (cp_snapshot_roots c) as [r|]; [|by apply wp_ok].
    apply wp_bind, wp_SnapshotRoots_validate; [intros Hok; by apply wp_ok|done]. }
  unfold saturating_sub. apply wp_if; [intros ?; apply wp_err; lia|intros Hfit].
  rewrite as_u32_small by lia.
  apply (wp_seal_image Checkpoint_header Checkpoint_wire c bs 0); [done|lia|].
  unfold LABEL_OFFSET. do 13 enc_field. change (96 + 8) with 104.
  change SNAPSHOT_PAYLOAD with 184. change CHECKPOINT_FIXED_PAYLOAD with 168.
  destruct (cp_snapshot_roots c) as [r|] eqn:Hr.
  - pose proof (roots_window c r Hu Hl Hr) as Hwin.
    apply wp_bind. eapply wp_put_upto; [lia..|clear Hwin; wire_read|symmetry; wire_read|].
    eapply wp_put_upto; [lia..|apply (sub_empty _ _ : _ = zeros 0)|symmetry; wire_read|].
    split; [by rewrite Hw|]. split; [split_and!; (done || lia)|done].
  - apply wp_ok. split; [|split; [split_and!; (done || lia)|done]].
    rewrite Hw. apply upto_skip; [lia|lia|].
    transitivity (zeros (64 - zlen (cp_label c))); [wire_read|f_equal; lia].
Qed.

(** ** The decoder accepts the images and nothing else *)

Lemma validate_label_ok label :
  zlen label <= 64 -> contains_byte 0 label = false -> validate_label label = Ok tt.
Proof.
  intros Hl Hz. unfold validate_label, LABEL_MAX_BYTES. replace (64 <? _) with false by lia. by rewrite Hz.
Qed.

Lemma label_window c :
  zlen (cp_uuid c) = 16 -> zlen (cp_label c) <= 64 ->
  sub (Checkpoint_wire c) 104 168 = cp_label c ++ zeros (64 - zlen (cp_label c)).
Proof.
  intros Hu Hl. pose proof (zlen_nonneg (cp_label c)).
  apply (sub_cat _ _ _ _ (104 + zlen (cp_label c))); [lia|lia|wire_read..].
Qed.

Lemma Checkpoint_decode_image c bs :
  Checkpoint_typed c -> checkpoint_common c bs -> cp_flags c = 0 -> bs < 2 ^ 32 ->
  Checkpoint_decode (checkpoint_image c bs) (cp_uuid c) = Ok c.
Proof.
  intros Ht (Hg & Hroot & Hl & Hz & Hok & Hfit) Hflags Hbs. unfold Checkpoint_typed in Ht. destruct_and! Ht.
  pose proof (zlen_Checkpoint_wire c ltac:(done) Hl) as Hw. rewrite zlen_roots_wire in Hw.
  unfold u64, OBJECT_ROOT in *. pose proof (zlen_nonneg (cp_label c)).
  assert (168 <= zlen (Checkpoint_wire c)) by (destruct (cp_snapshot_roots c); lia).
  apply wp_no_error. unfold Checkpoint_decode, checkpoint_image.
  apply wp_open_image; [unfold Checkpoint_header; header_typed|done|done|lia|].
  unfold Checkpoint_decode_payload. cbn [bh_flags bh_owner bh_generation bh_payload_len Checkpoint_header].
  change SNAPSHOT_PAYLOAD with 184. change CHECKPOINT_FIXED_PAYLOAD with 168.
  change (LABEL_OFFSET + 8) with 104. change (LABEL_OFFSET + 1) with 97. change LABEL_OFFSET with 96.
  unfold LABEL_MAX_BYTES.
  apply wp_if_false; [done|]. apply wp_if_false; [destruct (cp_snapshot_roots c); lia|].
  rd. rewrite bytes_eqb_refl. apply wp_if_false; [done|]. rd. apply wp_if_false; [lia|]. rd.
  apply wp_bind. eapply wp_slice_eq; [lia|lia|by apply label_window|].
  apply wp_bind, wp_if_false; [lia|]. rd. rewrite bytes_eqb_refl. apply wp_if_false; [done|].
  apply wp_bind. eapply wp_slice_eq; [side|side|apply sub_skip; [lia|apply sub_last; side]|].
  rewrite all_zero_zeros. apply wp_ok. cbn [negb].
  rd. apply wp_bind, wp_from_utf8; [intros _|congruence].
  rewrite validate_label_ok by done. apply wp_bind, wp_ok.
  do 9 rd. apply wp_bind.
  eapply (wp_mono _ (fun r => r = cp_snapshot_roots c) _ no_error); [|intros r ->|done].
  - destruct (cp_snapshot_roots c) as [r|] eqn:Hr.
    + pose proof (roots_window c r ltac:(done) Hl Hr) as Hwin. destruct H12 as [Hr1 Hr2].
      unfold u64 in *. apply wp_if_true; [lia|]. rd. rd. apply wp_bind, wp_SnapshotRoots_validate.
      * intros _. apply wp_ok. by destruct r.
      * intros Hbad. by destruct Hbad.
    + apply wp_if_false; [lia|]. by apply wp_ok.
  - cbv beta. apply wp_if_false; [unfold OBJECT_ROOT; lia|]. apply wp_if_false; [lia|].
    apply wp_ok. by destruct c.
Qed.

Lemma label_canonical (p : bytes) n :
  168 <= zlen p -> 0 <= n <= 64 -> all_zero (sub (sub p 104 168) n 64) = true ->
  sub (sub p 104 168) 0 n = sub p 104 (104 + n) /\ sub p (104 + n) 168 = zeros (64 - n).
Proof.
  intros Hp Hn Hz. rewrite sub_sub in Hz by lia. apply all_zero_sub in Hz; [|lia..].
  split; [rewrite sub_sub by lia; f_equal; lia|].
  replace (64 - n) with (104 + 64 - (104 + n)) by lia. exact Hz.
Qed.

Lemma Checkpoint_decode_inv block uuid :
  zlen uuid = 16 ->
  wp (Checkpoint_decode block uuid)
     (fun c => Checkpoint_typed c /\ cp_uuid c = uuid /\ cp_flags c = 0 /\
        checkpoint_common c (zlen block) /\ block = checkpoint_image c (zlen block)) any_error.
Proof.
  intros Huuid. unfold Checkpoint_decode. apply wp_open; [|done]. intros h p n Ht Hty Hp Hn Hblock.
  unfold Checkpoint_decode_payload.
  change SNAPSHOT_PAYLOAD with 184. change CHECKPOINT_FIXED_PAYLOAD with 168.
  change (LABEL_OFFSET + 8) with 104. change (LABEL_OFFSET + 1) with 97. change LABEL_OFFSET with 96.
  unfold LABEL_MAX_BYTES. rx. rx. rx. rx. rx. rx. rx. rx. unfold u8 in *.
  rewrite zlen_sub by lia. change (168 - 104) with 64. set (len := byte.unsigned _) in *.
  apply wp_bind. eapply (wp_mono _ (fun bad : bool => bad = false -> len <= 64 /\
    sub p 97 104 = zeros 7 /\ all_zero (sub (sub p 104 168) len 64) = true) _ any_error);
    [|intros bad Hbad; cbv beta|done].
  { apply wp_if; [by intros; apply wp_ok|intros Hlen]. rx.
    apply wp_if; [by intros; apply wp_ok|intros Hres]. guards.
    apply wp_bind, wp_slice; [lia|rewrite zlen_sub; lia|]. apply wp_ok. intros Hall%negb_false_iff. done. }
  apply wp_if; [done|intros Hb]. destruct (Hbad Hb) as (Hlen & Hres & Hall).
  destruct (label_canonical p len ltac:(lia) ltac:(lia) Hall) as [Hlab Hpad].
  apply wp_bind, wp_slice; [lia|rewrite zlen_sub; lia|]. rewrite Hlab.
  apply wp_bind, wp_from_utf8; [intros Hutf|done].
  apply wp_bind, wp_validate_label; [intros Hl Hz|done].
  do 9 rx. apply wp_bind.
  eapply (wp_mono _ (fun r => roots_typed r /\ roots_ok r /\
    sub p 168 (zlen p) = roots_wire r) _ any_error); [|intros r (Hrt & Hrok & Hrw); cbv beta|done].
  { apply wp_if; intros Hlen2.
    - rx. rx. apply wp_bind, wp_SnapshotRoots_validate; [intros Hok|done]. apply wp_ok.
      split_and!; [by split|done|]. replace (zlen p) with 184 by lia. cbn [roots_wire sr_registry sr_lifetimes].
      rewire.
    - apply wp_ok. split_and!; [done|done|]. replace (zlen p) with 168 by lia. apply sub_empty. }
  rx. rx. apply wp_ok. set (c := {| cp_uuid := _ |}).
  assert (zlen (sub p 104 (104 + len)) = len) as Hll by (rewrite zlen_sub; lia).
  assert (p = Checkpoint_wire c) as Hw.
  { rewrite <- (sub_all p (zlen p)) at 1 by done. unfold Checkpoint_wire, c.
    cbn [cp_uuid cp_generation cp_root_object_id cp_object_map_block cp_allocation_root_block
      cp_reclaim_root_block cp_next_object_id cp_committed_tx_id cp_free_blocks_total cp_flags
      cp_shared_extent_root_block cp_label cp_snapshot_roots]. rewrite Hll. rewire.
    apply index_leaf; lia. }
  assert (h = Checkpoint_header c 0) as Hh.
  { unfold Checkpoint_header. rewrite <- Hw, Hp, <- Hty. unfold c. cbn [cp_generation].
    destruct h; cbn in *; congruence. }
  split_and!; [..|by eapply image_eq].
  - unfold Checkpoint_typed, u64. cbn. rewrite zlen_sub by lia. split_and!; (done || lia).
  - done.
  - done.
  - unfold checkpoint_common. rewrite <- Hw, Hblock, zlen_sealed, zlen_app, zlen_zeros by lia.
    cbn. split_and!; (done || lia).
Qed.

(** ** Structural validation *)

Lemma wp_is_allocatable geo lba (Q : bool -> Prop) R :
  WfGeometry geo -> 0 <= lba -> Q (allocatable geo lba) -> wp (is_allocatable geo lba) Q R.
Proof. intros Hwf Hl HQ. by rewrite (is_allocatable_eq geo) by done. Qed.

Definition structurally_valid (c : Checkpoint) (geo : Geometry) : Prop :=
  allocatable geo (cp_allocation_root_block c) = true /\
  allocatable geo (cp_object_map_block c) = true /\
  allocatable geo (cp_reclaim_root_block c) = true /\
  (cp_shared_extent_root_block c <> 0 -> allocatable geo (cp_shared_extent_root_block c) = true) /\
  (forall r, cp_snapshot_roots c = Some r -> roots_ok (Some r) /\
     allocatable geo (sr_registry r) = true /\ allocatable geo (sr_lifetimes r) = true) /\
  cp_free_blocks_total c <= total_blocks geo /\ OBJECT_FIRST_DYNAMIC <= cp_next_object_id c.

Definition snapshot_roots_valid (c : Checkpoint) (geo : Geometry) : Prop :=
  forall r, cp_snapshot_roots c = Some r -> roots_ok (Some r) /\
    allocatable geo (sr_registry r) = true /\ allocatable geo (sr_lifetimes r) = true.

Lemma wp_snapshot_roots_check c geo :
  WfGeometry geo -> roots_typed (cp_snapshot_roots c) ->
  wp (match cp_snapshot_roots c with
      | Some roots =>
          do* SnapshotRoots_validate roots in
          let* registry_ok := is_allocatable geo (sr_registry roots) in
          let* bad :=
            if negb registry_ok then Ok true
            else let* lifetimes_ok := is_allocatable geo (sr_lifetimes roots) in Ok (negb lifetimes_ok) in
          if (bad : bool) then Err (Invalid "snapshot roots outside allocatable bounds") else Ok tt
      | None => Ok tt
      end) (fun _ => snapshot_roots_valid c geo) (fun _ => ~ snapshot_roots_valid c geo).
Proof.
  intros Hwf Ht. unfold snapshot_roots_valid.
  destruct (cp_snapshot_roots c) as [r|]; [|by apply wp_ok]. destruct Ht as [Hr1 Hr2]. unfold u64 in *.
  apply wp_bind, wp_SnapshotRoots_validate;
    [intros Hok|intros Hbad _ H; by destruct (H r eq_refl) as [? _]].
  apply wp_bind, wp_is_allocatable; [done|lia|]. apply wp_bind.
  apply wp_if; intros H1.
  - apply wp_ok, wp_err. intros H. destruct (H r eq_refl) as (_ & H2 & _). by rewrite H2 in H1.
  - apply wp_bind, wp_is_allocatable; [done|lia|]. apply wp_ok. apply wp_if; intros H2.
    + apply wp_err. intros H. destruct (H r eq_refl) as (_ & _ & H3). by rewrite H3 in H2.
    + apply wp_ok. intros r' [= <-]. by rewrite negb_false_iff in H1, H2.
Qed.

Lemma wp_validate_structural c geo :
  WfGeometry geo -> Checkpoint_typed c ->
  wp (validate_structural c geo) (fun _ => structurally_valid c geo)
     (fun _ => ~ structurally_valid c geo).
Proof.
  intros Hwf Ht. unfold Checkpoint_typed, u64 in Ht. destruct_and! Ht.
  unfold validate_structural, structurally_valid. fold (snapshot_roots_valid c geo).
  apply wp_bind. eapply wp_mono; [by apply wp_snapshot_roots_check|intros ? Hroots|intros ? Hr; cbv beta in *; tauto].
  cbv beta in *. apply wp_bind, wp_is_allocatable; [done|lia|].
  apply wp_if; [intros Hb%negb_true_iff; apply wp_err; rewrite Hb; intuition congruence|intros Ha%negb_false_iff].
  apply wp_if; [intros Hb; apply wp_err; lia|intros Hfree].
  apply wp_bind, wp_is_allocatable; [done|lia|].
  apply wp_if; [intros Hb%negb_true_iff; apply wp_err; rewrite Hb; intuition congruence|intros Ho%negb_false_iff].
  apply wp_bind, wp_is_allocatable; [done|lia|].
  apply wp_if; [intros Hb%negb_true_iff; apply wp_err; rewrite Hb; intuition congruence|intros Hr%negb_false_iff].
  apply wp_bind. apply (wp_mono _ (fun bad => bad = false <->
    (cp_shared_extent_root_block c <> 0 -> allocatable geo (cp_shared_extent_root_block c) = true))
    _ no_error); [|intros bad Hbad; cbv beta|done].
  { apply wp_if; intros Hsh.
    - apply wp_bind, wp_is_allocatable; [done|lia|]. apply wp_ok. rewrite negb_false_iff.
      apply negb_true_iff, Z.eqb_neq in Hsh. tauto.
    - apply wp_ok. apply negb_false_iff, Z.eqb_eq in Hsh. tauto. }
  apply wp_if; [intros ->; apply wp_err; intuition congruence|intros Hsh]. pose proof (proj1 Hbad Hsh) as Hshared.
  apply wp_if; [intros Hb; apply wp_err; lia|intros Hnext]. apply wp_ok.
  split_and!; (done || lia).
Qed.

(** ** Properties *)


Definition sample_checkpoint : Checkpoint :=
  {| cp_uuid := zeros 16; cp_generation := 5; cp_root_object_id := 1; cp_object_map_block := 10;
     cp_allocation_root_block := 13; cp_reclaim_root_block := 11; cp_next_object_id := 17;
     cp_committed_tx_id := 9; cp_free_blocks_total := 20; cp_flags := 0;
     cp_shared_extent_root_block := 0; cp_label := [Byte.x57; Byte.x6f; Byte.x72; Byte.x6b];
     cp_snapshot_roots := Some {| sr_registry := 24; sr_lifetimes := 25 |} |}.

Definition sample_checkpoint_block : bytes :=
  match Checkpoint_encode sample_checkpoint 256 with Ok b => b | _ => [] end.


(** structural validation on an admitted geometry is total and decides
    exactly this: every root the checkpoint names is an allocatable block, the
    snapshot roots are distinct, the free count fits the volume and the next
    object identifier is dynamic. *)
Theorem validate_structural_exact c geo :
  WfGeometry geo -> Checkpoint_typed c ->
  validate_structural c geo <> Panic /\
  (validate_structural c geo = Ok tt <-> structurally_valid c geo).
Proof.
  intros Hwf Ht. pose proof (wp_validate_structural c geo Hwf Ht) as H. split; [by eapply wp_not_panic|].
  destruct (validate_structural c geo) as [[]| |]; simpl in H; [tauto|by split|done].
Qed.

Lemma validate_structural_exact_witness : validate_structural sample_checkpoint small_geometry <> Panic.
Proof. apply (validate_structural_exact sample_checkpoint small_geometry); [apply small_geometry_wf|ranges]. Defined.
