(* ===== verification/Leaf.v ===== *)
(** * Leaf values of the typed trees
    (crates/afsplus-format/src/extent.rs, dir.rs, snapshot.rs)

    Extent-map items, directory entries, and the snapshot registry, record,
    lifetime and ledger values.  Each codec is an instance of [ExactValue]. *)

From S2P Require Import Prelude Crc32c Format Header Codec TreeNode.

(** [key.try_into().map_err(...)] followed by [u64::from_be_bytes]. *)
Definition from_be_u64 (key : bytes) (what : string) : result Z :=
  if zlen key =? 8 then Ok (le_combine (rev key)) else Err (Invalid what).

(** ** extent.rs *)

Definition EXTENT_KEY_LEN : Z := 8.
Definition EXTENT_VALUE_LEN : Z := 24.
Definition EXTENT_UNWRITTEN : Z := Z.shiftl 1 0.
Definition EXTENT_SHARED : Z := Z.shiftl 1 1.
Definition EXTENT_KNOWN_FLAGS : Z := Z.lor EXTENT_UNWRITTEN EXTENT_SHARED.

Record ExtentItem := {
  ei_logical_start : Z;
  ei_physical_start : Z;
  ei_block_count : Z;
  ei_flags : Z;
}.

(** [flags & !KNOWN] on a [u32]. *)
Definition unknown_bits (flags known : Z) : Z := Z.land flags (Z.lxor known 0xFFFFFFFF).

Definition ExtentItem_validate (e : ExtentItem) : result unit :=
  if ei_block_count e =? 0 then Err (Invalid "zero-length extent") else
  if negb (unknown_bits (ei_flags e) EXTENT_KNOWN_FLAGS =? 0) then
    Err (Invalid "extent has unsupported flags") else
  match checked_add 64 (ei_logical_start e) (ei_block_count e) with
  | None => Err (Overflow "extent logical end")
  | Some _ =>
      match checked_add 64 (ei_physical_start e) (ei_block_count e) with
      | None => Err (Overflow "extent physical end")
      | Some _ => Ok tt
      end
  end.

Definition ExtentItem_encode (e : ExtentItem) : result (bytes * bytes) :=
  do* ExtentItem_validate e in
  let* value := put_u64 (zeros EXTENT_VALUE_LEN) 0 8 (ei_physical_start e) in
  let* value := put_u64 value 8 16 (ei_block_count e) in
  let* value := put_u32 value 16 20 (ei_flags e) in
  Ok (key_u64 (ei_logical_start e), value).

Definition ExtentItem_decode (item : bytes * bytes) : result ExtentItem :=
  let '(key, value) := item in
  let* logical_start := from_be_u64 key "extent key is not eight bytes" in
  if negb (zlen value =? EXTENT_VALUE_LEN) then
    Err (Invalid "extent value is not twenty-four bytes") else
  let* reserved := slice value 20 24 in
  if negb (bytes_eqb reserved (zeros 4)) then Err (Invalid "extent reserved bytes are nonzero") else
  let* physical_start := get_u64_at value 0 8 in
  let* block_count := get_u64_at value 8 16 in
  let* flags := get_u32_at value 16 20 in
  let item := {| ei_logical_start := logical_start; ei_physical_start := physical_start;
                 ei_block_count := block_count; ei_flags := flags |} in
  do* ExtentItem_validate item in
  Ok item.

(** ** dir.rs *)

Record DirEntry := {
  de_key : bytes;
  de_name : bytes;
  de_child_type_hint : Z;
  de_child_id : Z;
}.

Definition TREE_ENTRY_FIXED : Z := 16.

Definition validate_tree_entry (e : DirEntry) : result unit :=
  do* validate_name (de_name e) in
  if de_child_id e =? OBJECT_INVALID then Err (Invalid "directory entry references invalid object") else
  if negb ((1 <=? de_child_type_hint e) && (de_child_type_hint e <=? 3)) then
    Err (Invalid "directory entry has invalid child type hint") else
  Ok tt.

Definition encode_tree_entry_value (e : DirEntry) : result bytes :=
  do* validate_tree_entry e in
  let value := zeros (TREE_ENTRY_FIXED + zlen (de_name e)) in
  let* value := put_u16 value 0 2 (as_u16 (zlen (de_name e))) in
  let* value := put_u8 value 2 (de_child_type_hint e) in
  let* value := put_u64 value 8 16 (de_child_id e) in
  put value TREE_ENTRY_FIXED (zlen value) (de_name e).

Definition decode_tree_entry_value (key value : bytes) : result DirEntry :=
  if zlen value <? TREE_ENTRY_FIXED then Err (Invalid "directory leaf value is truncated") else
  let* name_len := get_u16_at value 0 2 in
  if negb (zlen value =? TREE_ENTRY_FIXED + name_len) then
    Err (Invalid "directory leaf name length mismatch") else
  let* reserved := slice value 3 8 in
  if negb (bytes_eqb reserved (zeros 5)) then
    Err (Invalid "directory leaf reserved bytes are nonzero") else
  let* name := slice value TREE_ENTRY_FIXED (zlen value) in
  let* child_type_hint := index value 2 in
  let* child_id := get_u64_at value 8 16 in
  let entry := {| de_key := key; de_name := name; de_child_type_hint := child_type_hint;
                  de_child_id := child_id |} in
  do* validate_tree_entry entry in
  Ok entry.

(** ** snapshot.rs *)

Definition SNAPSHOT_VALUE_SIZE : Z := 32.

Definition fields (value : bytes) (used : Z) : result unit :=
  if negb (zlen value =? SNAPSHOT_VALUE_SIZE) then Err (Invalid "snapshot value length") else
  let* rest := slice value used (zlen value) in
  if negb (all_zero rest) then Err (Invalid "snapshot reserved bytes") else Ok tt.

Definition snapshot_decode_key (key : bytes) : result Z := from_be_u64 key "snapshot key length".

(** [RegistryState]: the next snapshot identifier. *)
Definition RegistryState_encode (next_id : Z) : result bytes :=
  if next_id =? 0 then Err (Invalid "snapshot next ID is zero") else
  put_u64 (zeros SNAPSHOT_VALUE_SIZE) 0 8 next_id.

Definition RegistryState_decode (value : bytes) : result Z :=
  do* fields value 8 in
  let* next_id := get_u64_at value 0 8 in
  do* RegistryState_encode next_id in
  Ok next_id.

Definition allocate_id (next_id : Z) : result (Z * Z) :=
  do* RegistryState_encode next_id in
  let* next := ok_or (checked_add 64 next_id 1) (Overflow "snapshot ID exhausted") in
  Ok (next_id, next).

Record SnapshotRecord := {
  sn_generation : Z;
  sn_committed_tx_id : Z;
  sn_object_map_root : Z;
}.

Definition SnapshotRecord_validate (r : SnapshotRecord) (max_generation total_blocks : Z) : result unit :=
  if (sn_generation r =? 0) || (max_generation <? sn_generation r) then
    Err (Invalid "snapshot captured generation") else
  if (sn_committed_tx_id r =? 0) || (sn_generation r <? sn_committed_tx_id r) then
    Err (Invalid "snapshot committed transaction ID") else
  if (sn_object_map_root r =? 0) || (total_blocks <=? sn_object_map_root r) then
    Err (Invalid "snapshot object-map root") else
  Ok tt.

Definition SnapshotRecord_encode (max_generation total_blocks : Z) (r : SnapshotRecord) : result bytes :=
  do* SnapshotRecord_validate r max_generation total_blocks in
  let* value := put_u64 (zeros SNAPSHOT_VALUE_SIZE) 0 8 (sn_generation r) in
  let* value := put_u64 value 8 16 (sn_committed_tx_id r) in
  put_u64 value 16 24 (sn_object_map_root r).

Definition SnapshotRecord_decode (max_generation total_blocks : Z) (value : bytes) : result SnapshotRecord :=
  do* fields value 24 in
  let* generation := get_u64_at value 0 8 in
  let* committed_tx_id := get_u64_at value 8 16 in
  let* object_map_root := get_u64_at value 16 24 in
  let record := {| sn_generation := generation; sn_committed_tx_id := committed_tx_id;
                   sn_object_map_root := object_map_root |} in
  do* SnapshotRecord_validate record max_generation total_blocks in
  Ok record.

Record LifetimeRecord := {
  lt_blocks : Z;
  lt_birth : Z;
  lt_retirement : Z;
}.

Definition LifetimeRecord_validate (r : LifetimeRecord) (start max_generation total_blocks : Z) : result unit :=
  if (start =? 0) || (lt_blocks r =? 0) ||
     (match checked_add 64 start (lt_blocks r) with
      | None => true
      | Some e => total_blocks <? e
      end) then
    Err (Invalid "snapshot lifetime physical range") else
  if (lt_birth r =? 0) || (max_generation <? lt_birth r) then Err (Invalid "snapshot lifetime birth") else
  if negb (lt_retirement r =? 0) &&
     ((lt_retirement r <=? lt_birth r) || (max_generation <? lt_retirement r)) then
    Err (Invalid "snapshot lifetime retirement") else
  Ok tt.

Definition LifetimeRecord_encode (start max_generation total_blocks : Z) (r : LifetimeRecord) : result bytes :=
  do* LifetimeRecord_validate r start max_generation total_blocks in
  let* value := put_u64 (zeros SNAPSHOT_VALUE_SIZE) 0 8 (lt_blocks r) in
  let* value := put_u64 value 8 16 (lt_birth r) in
  put_u64 value 16 24 (lt_retirement r).

Definition LifetimeRecord_decode (start max_generation total_blocks : Z) (value : bytes) : result LifetimeRecord :=
  do* fields value 24 in
  let* blocks := get_u64_at value 0 8 in
  let* birth := get_u64_at value 8 16 in
  let* retirement := get_u64_at value 16 24 in
  let record := {| lt_blocks := blocks; lt_birth := birth; lt_retirement := retirement |} in
  do* LifetimeRecord_validate record start max_generation total_blocks in
  Ok record.

Definition lifetime_contains (r : LifetimeRecord) (generation : Z) : bool :=
  (lt_birth r <=? generation) && ((lt_retirement r =? 0) || (generation <? lt_retirement r)).

Record LedgerState := { ls_scan_position : Z; ls_retained_blocks : Z }.

Definition LedgerState_encode (total_blocks : Z) (s : LedgerState) : result bytes :=
  if (total_blocks =? 0) || (total_blocks <=? ls_scan_position s) ||
     (total_blocks <? ls_retained_blocks s) then
    Err (Invalid "snapshot ledger control range") else
  let* value := put_u64 (zeros SNAPSHOT_VALUE_SIZE) 0 8 (ls_scan_position s) in
  put_u64 value 8 16 (ls_retained_blocks s).

Definition LedgerState_decode (total_blocks : Z) (value : bytes) : result LedgerState :=
  do* fields value 16 in
  let* scan_position := get_u64_at value 0 8 in
  let* retained_blocks := get_u64_at value 8 16 in
  let state := {| ls_scan_position := scan_position; ls_retained_blocks := retained_blocks |} in
  do* LedgerState_encode total_blocks state in
  Ok state.

(** ** Extent items *)

Lemma from_be_key v w : 0 <= v < 2 ^ 64 -> from_be_u64 (key_u64 v) w = Ok v.
Proof.
  intros Hv. unfold from_be_u64, key_u64. rewrite rev_involutive, le_get8 by done.
  unfold zlen. by rewrite length_rev, length_le_split.
Qed.

Lemma wp_from_be_u64 key w (Q : Z -> Prop) R :
  (forall v, 0 <= v < 2 ^ 64 -> key = key_u64 v -> Q v) -> (forall e, R e) ->
  wp (from_be_u64 key w) Q R.
Proof.
  intros HQ HR. unfold from_be_u64. destruct (zlen key =? 8) eqn:Hk; [|apply HR]. apply Z.eqb_eq in Hk.
  assert (zlen (rev key) = 8) as Hr by (unfold zlen in *; by rewrite length_rev).
  apply wp_ok, HQ; [pose proof (le_combine_range (rev key)) as H; by rewrite Hr in H|].
  unfold key_u64. rewrite le_split_le_combine by done. by rewrite rev_involutive.
Qed.

Definition extent_value_wire (e : ExtentItem) : bytes :=
  le_split 8 (ei_physical_start e) ++ le_split 8 (ei_block_count e) ++ le_split 4 (ei_flags e) ++ zeros 4.

Definition ExtentItem_wire (e : ExtentItem) : bytes * bytes :=
  (key_u64 (ei_logical_start e), extent_value_wire e).

Definition ExtentItem_typed (e : ExtentItem) : Prop :=
  u64 (ei_logical_start e) /\ u64 (ei_physical_start e) /\ u64 (ei_block_count e) /\ u32 (ei_flags e).

Lemma ExtentItem_validate_total e : ExtentItem_validate e <> Panic.
Proof. unfold ExtentItem_validate. no_panic. Qed.

#[local] Hint Unfold extent_value_wire : wire.

#[export] Instance ExtentItem_exact : ExactValue ExtentItem_typed ExtentItem_encode ExtentItem_decode.
Proof.
  apply (exact_value _ _ _ ExtentItem_wire (fun e => ExtentItem_validate e = Ok tt)).
  - intros e (Hl & Hp & Hb & Hf). unfold ExtentItem_encode, EXTENT_VALUE_LEN.
    assert (zlen (extent_value_wire e) = 24) as Hw by (unfold extent_value_wire; side).
    apply wp_bind, wp_unit; [apply ExtentItem_validate_total|intros Hv|by intros Hv].
    rewrite (upto_0 (extent_value_wire e)). do 3 enc_field. apply wp_ok. split; [done|].
    unfold ExtentItem_wire. by rewrite (upto_skip _ 20 24), upto_end by (lia || wire_read).
  - intros e (Hl & Hp & Hb & Hf) Hv. unfold u64, u32 in *. apply wp_no_error.
    assert (zlen (extent_value_wire e) = 24) as Hw by (unfold extent_value_wire; side).
    unfold ExtentItem_decode, ExtentItem_wire, EXTENT_VALUE_LEN. rewrite from_be_key by done. apply wp_bind, wp_ok.
    apply wp_if_false; [lia|]. rd. rewrite bytes_eqb_refl. apply wp_if_false; [done|]. rd. rd. rd.
    destruct e; cbn in *. rewrite Hv. done.
  - intros [key value]. unfold ExtentItem_decode, EXTENT_VALUE_LEN.
    apply wp_bind, wp_from_be_u64; [intros v Hv Hk|done]. rx. rx. rx. rx. rx. rx.
    apply wp_bind, wp_unit; [apply ExtentItem_validate_total|intros Hval|done]. apply wp_ok.
    split_and!; [by unfold ExtentItem_typed, u64, u32|done|]. unfold ExtentItem_wire. cbn. f_equal; [done|].
    rewrite <- (sub_all value 24) at 1 by lia. unfold extent_value_wire. cbn -[zeros le_split]. rewire.
Qed.

(** ** Directory entries *)

Definition dir_value_wire (e : DirEntry) : bytes :=
  le_split 2 (zlen (de_name e)) ++ [byte.of_Z (de_child_type_hint e)] ++ zeros 5 ++
  le_split 8 (de_child_id e) ++ de_name e.

(** The value is stored under the entry's key. *)
Definition DirEntry_wire (e : DirEntry) : bytes * bytes := (de_key e, dir_value_wire e).

Definition DirEntry_encode (e : DirEntry) : result (bytes * bytes) :=
  let* value := encode_tree_entry_value e in Ok (de_key e, value).

Definition DirEntry_decode (item : bytes * bytes) : result DirEntry :=
  decode_tree_entry_value (fst item) (snd item).

Definition DirEntry_typed (e : DirEntry) : Prop := u8 (de_child_type_hint e) /\ u64 (de_child_id e).

Lemma validate_tree_entry_total e : validate_tree_entry e <> Panic.
Proof.
  unfold validate_tree_entry. pose proof (validate_name_total (de_name e)).
  destruct (validate_name (de_name e)); [|done..]. cbn. by repeat case_match.
Qed.

(** An accepted name is 1 to 255 bytes of UTF-8 without NUL or slash. *)
Lemma validate_name_exact name :
  validate_name name = Ok tt <->
  1 <= zlen name <= 255 /\ utf8_valid name = true /\ contains_byte 0 name = false /\
  contains_byte 47 name = false.
Proof.
  unfold validate_name, from_utf8, NAME_MAX_UTF8_BYTES. pose proof (zlen_nonneg name).
  destruct (_ || _) eqn:Hl; [split; [done|lia]|].
  destruct (utf8_valid name); cbn [obind]; [|split; [done|by intros (_ & ? & _)]].
  destruct (contains_byte 0 name); [split; [done|by intros (_ & _ & ? & _)]|].
  destruct (contains_byte 47 name); cbn [orb]; [split; [done|by intros (_ & _ & _ & ?)]|].
  split; [intros _; split_and!; (done || lia)|done].
Qed.

Lemma validate_tree_entry_name e : validate_tree_entry e = Ok tt -> 1 <= zlen (de_name e) <= 255.
Proof.
  unfold validate_tree_entry. destruct (validate_name (de_name e)) as [[]| |] eqn:Hn; [|done..].
  intros _. by apply validate_name_exact in Hn as [? _].
Qed.

#[local] Hint Unfold dir_value_wire : wire.

#[export] Instance DirEntry_exact : ExactValue DirEntry_typed DirEntry_encode DirEntry_decode.
Proof.
  apply (exact_value _ _ _ DirEntry_wire (fun e => validate_tree_entry e = Ok tt)).
  - intros e (Ht & Hc). unfold DirEntry_encode, encode_tree_entry_value, TREE_ENTRY_FIXED. apply wp_bind, wp_bind.
    apply wp_unit; [apply validate_tree_entry_total|intros Hv|by intros].
    pose proof (validate_tree_entry_name e Hv) as Hn. rewrite as_u16_small by lia.
    assert (zlen (dir_value_wire e) = 16 + zlen (de_name e)) as Hw by (unfold dir_value_wire; side).
    rewrite (upto_0 (dir_value_wire e)). do 3 enc_field.
    rewrite zlen_upto by lia. enc_field. apply wp_ok. split; [done|]. unfold DirEntry_wire. f_equal.
    by apply upto_end.
  - intros e (Ht & Hc) Hv. unfold u8, u64 in *. apply wp_no_error. pose proof (validate_tree_entry_name e Hv) as Hn.
    assert (zlen (dir_value_wire e) = 16 + zlen (de_name e)) as Hw by (unfold dir_value_wire; side).
    unfold DirEntry_decode, decode_tree_entry_value, DirEntry_wire, TREE_ENTRY_FIXED. cbn [fst snd].
    apply wp_if_false; [lia|]. rd. apply wp_if_false; [lia|]. rd. rewrite bytes_eqb_refl.
    apply wp_if_false; [done|]. rd. rd. rd. destruct e; cbn in *. rewrite Hv. done.
  - intros [key value]. unfold DirEntry_decode, decode_tree_entry_value, TREE_ENTRY_FIXED. cbn [fst snd].
    rx. rx. rx. rx. rx. rx. rx. rx.
    apply wp_bind, wp_unit; [apply validate_tree_entry_total|intros Hv|done]. apply wp_ok.
    split_and!; [by split|done|]. unfold DirEntry_wire. cbn [de_key]. f_equal.
    rewrite <- (sub_all value (zlen value)) at 1 by done. unfold dir_value_wire.
    cbn [de_name de_child_type_hint de_child_id]. rewrite zlen_sub by lia.
    replace (zlen value - 16) with (le_combine (sub value 0 2)) by lia. rewire.
Qed.

(** ** Snapshot values *)

Lemma fields_padded (s : bytes) used :
  0 <= used <= 32 -> zlen s = used -> fields (s ++ zeros (32 - used)) used = Ok tt.
Proof.
  intros Hu Hs. apply wp_no_error. unfold fields, SNAPSHOT_VALUE_SIZE.
  assert (zlen (s ++ zeros (32 - used)) = 32) as Hz by side. rewrite Hz.
  apply wp_if_false; [done|]. apply wp_bind.
  eapply wp_slice_eq; [lia|lia|apply sub_skip; [lia|apply sub_last; side]|].
  by rewrite all_zero_zeros.
Qed.

Lemma wp_fields value used (Q : unit -> Prop) R :
  0 <= used <= 32 -> (zlen value = 32 -> sub value used 32 = zeros (32 - used) -> Q tt) ->
  (forall e, R e) -> wp (fields value used) Q R.
Proof.
  intros Hu HQ HR. unfold fields, SNAPSHOT_VALUE_SIZE.
  apply wp_if; [intros; apply wp_err, HR|intros Hl]. guards. rewrite Hl.
  apply wp_bind, wp_slice; [lia..|]. apply wp_if; [intros; apply wp_err, HR|intros Hz]. guards.
  by apply wp_ok, HQ.
Qed.

(** Three 64-bit fields and eight zero bytes. *)
Definition triple_wire (a b c : Z) : bytes := le_split 8 a ++ le_split 8 b ++ le_split 8 c ++ zeros 8.
#[local] Hint Unfold triple_wire : wire.

Lemma zlen_triple_wire a b c : zlen (triple_wire a b c) = 32.
Proof. unfold triple_wire. side. Qed.

Lemma wp_put_triple a b c (Q : bytes -> Prop) (R : FormatError -> Prop) :
  Q (triple_wire a b c) ->
  wp (let* value := put_u64 (zeros 32) 0 8 a in
      let* value := put_u64 value 8 16 b in put_u64 value 16 24 c) Q R.
Proof.
  intros HQ. pose proof (zlen_triple_wire a b c). rewrite (upto_0 (triple_wire a b c)).
  do 3 enc_field. rewrite (upto_skip _ 24 32) by (lia || wire_read). by rewrite upto_end.
Qed.

Lemma wp_get_triple {A} a b c (k : Z -> Z -> Z -> result A) (Q : A -> Prop) R :
  u64 a -> u64 b -> u64 c -> wp (k a b c) Q R ->
  wp (do* fields (triple_wire a b c) 24 in
      let* x := get_u64_at (triple_wire a b c) 0 8 in
      let* y := get_u64_at (triple_wire a b c) 8 16 in
      let* z := get_u64_at (triple_wire a b c) 16 24 in k x y z) Q R.
Proof.
  unfold u64. intros Ha Hb Hc Hk. pose proof (zlen_triple_wire a b c).
  replace (fields (triple_wire a b c) 24) with (@Ok FormatError unit tt).
  { apply wp_bind, wp_ok. rd. rd. rd. exact Hk. }
  symmetry. unfold triple_wire. rewrite !app_assoc.
  rewrite <- (fields_padded ((le_split 8 a ++ le_split 8 b) ++ le_split 8 c) 24); [done|lia|side].
Qed.

Lemma wp_read_triple {A} value (k : Z -> Z -> Z -> result A) (Q : A -> Prop) R :
  (forall a b c, u64 a -> u64 b -> u64 c -> value = triple_wire a b c -> wp (k a b c) Q R) ->
  (forall e, R e) ->
  wp (do* fields value 24 in
      let* x := get_u64_at value 0 8 in
      let* y := get_u64_at value 8 16 in
      let* z := get_u64_at value 16 24 in k x y z) Q R.
Proof.
  intros Hk HR. apply wp_bind, wp_fields; [lia| |done]. intros Hz Hpad. change (32 - 24) with 8 in Hpad.
  rx. rx. rx. apply Hk; [done..|]. rewrite <- (sub_all value 32) at 1 by done. unfold triple_wire. rewire.
Qed.

Definition SnapshotRecord_typed (r : SnapshotRecord) : Prop :=
  u64 (sn_generation r) /\ u64 (sn_committed_tx_id r) /\ u64 (sn_object_map_root r).

#[export] Instance SnapshotRecord_exact max total :
  ExactValue SnapshotRecord_typed (SnapshotRecord_encode max total) (SnapshotRecord_decode max total).
Proof.
  assert (forall r, SnapshotRecord_validate r max total <> Panic) as Htot.
  { intros r. unfold SnapshotRecord_validate. no_panic. }
  apply (exact_value _ _ _
    (fun r => triple_wire (sn_generation r) (sn_committed_tx_id r) (sn_object_map_root r))
    (fun r => SnapshotRecord_validate r max total = Ok tt)).
  - intros r _. apply wp_bind, wp_unit; [apply Htot|intros Hv|by intros]. by apply wp_put_triple.
  - intros r (Hg & Hc & Ho) Hv. apply wp_no_error. apply wp_get_triple; [done..|].
    destruct r; cbn in *. rewrite Hv. done.
  - intros v. apply wp_read_triple; [|done]. intros a b c Ha Hb Hc ->.
    apply wp_bind, wp_unit; [apply Htot|intros Hv|done]. apply wp_ok. by split_and!.
Qed.

Definition LifetimeRecord_typed (r : LifetimeRecord) : Prop :=
  u64 (lt_blocks r) /\ u64 (lt_birth r) /\ u64 (lt_retirement r).

#[export] Instance LifetimeRecord_exact start max total :
  ExactValue LifetimeRecord_typed (LifetimeRecord_encode start max total)
    (LifetimeRecord_decode start max total).
Proof.
  assert (forall r, LifetimeRecord_validate r start max total <> Panic) as Htot.
  { intros r. unfold LifetimeRecord_validate. no_panic. }
  apply (exact_value _ _ _ (fun r => triple_wire (lt_blocks r) (lt_birth r) (lt_retirement r))
    (fun r => LifetimeRecord_validate r start max total = Ok tt)).
  - intros r _. apply wp_bind, wp_unit; [apply Htot|intros Hv|by intros]. by apply wp_put_triple.
  - intros r (Hg & Hc & Ho) Hv. apply wp_no_error. apply wp_get_triple; [done..|].
    destruct r; cbn in *. rewrite Hv. done.
  - intros v. apply wp_read_triple; [|done]. intros a b c Ha Hb Hc ->.
    apply wp_bind, wp_unit; [apply Htot|intros Hv|done]. apply wp_ok. by split_and!.
Qed.

Definition single_wire (a : Z) : bytes := le_split 8 a ++ zeros 24.
Definition pair_wire (a b : Z) : bytes := le_split 8 a ++ le_split 8 b ++ zeros 16.
#[local] Hint Unfold single_wire pair_wire : wire.

Lemma RegistryState_encode_eq n :
  RegistryState_encode n = if n =? 0 then Err (Invalid "snapshot next ID is zero") else Ok (single_wire n).
Proof.
  unfold RegistryState_encode, SNAPSHOT_VALUE_SIZE. destruct (n =? 0); [done|].
  assert (zlen (single_wire n) = 32) as Hz by (unfold single_wire; side).
  apply wp_no_error. rewrite (upto_0 (single_wire n)). enc_field.
  rewrite (upto_skip _ 8 32) by (lia || wire_read). by rewrite upto_end.
Qed.

#[export] Instance RegistryState_exact : ExactValue u64 RegistryState_encode RegistryState_decode.
Proof.
  apply (exact_value _ _ _ single_wire (fun n => n <> 0)).
  - intros n Hn. rewrite RegistryState_encode_eq. destruct (n =? 0) eqn:H0; simpl; [lia|]. split; [lia|done].
  - intros n Hn H0. unfold u64 in Hn. apply wp_no_error. unfold RegistryState_decode.
    assert (zlen (single_wire n) = 32) as Hz by (unfold single_wire; side).
    assert (fields (single_wire n) 8 = Ok tt) as -> by (apply (fields_padded _ 8); [lia|side]).
    apply wp_bind, wp_ok.
    rd. rewrite RegistryState_encode_eq. by replace (n =? 0) with false by lia.
  - intros v. unfold RegistryState_decode. apply wp_bind, wp_fields; [lia| |done]. intros Hz Hpad.
    rx. rewrite RegistryState_encode_eq. destruct (_ =? 0) eqn:H0; [done|]. apply wp_bind, wp_ok, wp_ok.
    split_and!; [done|lia|]. rewrite <- (sub_all v 32) at 1 by done. unfold single_wire.
    change (32 - 8) with 24 in Hpad. rewire.
Qed.

Definition LedgerState_typed (s : LedgerState) : Prop := u64 (ls_scan_position s) /\ u64 (ls_retained_blocks s).
Definition ledger_ok (total : Z) (s : LedgerState) : bool :=
  negb ((total =? 0) || (total <=? ls_scan_position s) || (total <? ls_retained_blocks s)).

Lemma LedgerState_encode_eq total s :
  LedgerState_encode total s =
    if ledger_ok total s then Ok (pair_wire (ls_scan_position s) (ls_retained_blocks s))
    else Err (Invalid "snapshot ledger control range").
Proof.
  unfold LedgerState_encode, ledger_ok, SNAPSHOT_VALUE_SIZE. destruct (_ || _ || _); cbn [negb]; [done|].
  set (W := pair_wire (ls_scan_position s) (ls_retained_blocks s)).
  assert (zlen W = 32) as Hz by (unfold W, pair_wire; side). apply wp_no_error.
  subst W. rewrite (upto_0 (pair_wire (ls_scan_position s) (ls_retained_blocks s))). do 2 enc_field.
  rewrite (upto_skip _ 16 32) by (lia || wire_read). by rewrite upto_end.
Qed.

#[export] Instance LedgerState_exact total :
  ExactValue LedgerState_typed (LedgerState_encode total) (LedgerState_decode total).
Proof.
  apply (exact_value _ _ _ (fun s => pair_wire (ls_scan_position s) (ls_retained_blocks s))
    (fun s => ledger_ok total s = true)).
  - intros s _. rewrite LedgerState_encode_eq. by destruct (ledger_ok total s).
  - intros s (Hs & Hr) Hok. unfold u64 in *. apply wp_no_error. unfold LedgerState_decode.
    assert (zlen (pair_wire (ls_scan_position s) (ls_retained_blocks s)) = 32) as Hz by (unfold pair_wire; side).
    assert (fields (pair_wire (ls_scan_position s) (ls_retained_blocks s)) 16 = Ok tt) as ->.
    { unfold pair_wire. rewrite app_assoc. apply (fields_padded _ 16); [lia|side]. }
    apply wp_bind, wp_ok.
    rd. rd. rewrite LedgerState_encode_eq. destruct s; cbn in *. rewrite Hok. done.
  - intros v. unfold LedgerState_decode. apply wp_bind, wp_fields; [lia| |done]. intros Hz Hpad.
    rx. rx. rewrite LedgerState_encode_eq. destruct (ledger_ok _ _) eqn:Hok; [|done].
    apply wp_bind, wp_ok, wp_ok. split_and!; [by split|done|].
    rewrite <- (sub_all v 32) at 1 by done. unfold pair_wire. cbn [ls_scan_position ls_retained_blocks].
    change (32 - 16) with 16 in Hpad. rewire.
Qed.

(** ** Properties *)

(** extent-map items and directory entries have exact codecs. A key and
    value pair decodes to an item precisely when the item encodes to that pair,
    so readers admit exactly the canonical form; decoding never panics. *)
Theorem tree_values_exact :
  (forall kv e, ExtentItem_decode kv = Ok e <-> ExtentItem_typed e /\ ExtentItem_encode e = Ok kv) /\
  (forall kv, ExtentItem_decode kv <> Panic) /\
  (forall key value e, decode_tree_entry_value key value = Ok e <->
     DirEntry_typed e /\ de_key e = key /\ encode_tree_entry_value e = Ok value) /\
  (forall key value, decode_tree_entry_value key value <> Panic).
Proof.
  split_and!.
  - apply value_exact.
  - apply value_decode_total.
  - intros key value e. pose proof (value_exact (key, value) e (ExactValue := DirEntry_exact)) as H.
    unfold DirEntry_decode, DirEntry_encode in H. cbn [fst snd] in H. rewrite H.
    destruct (encode_tree_entry_value e); cbn [obind].
    + split; [intros [Ht [= <- <-]]; done|intros (Ht & <- & [= <-]); done].
    + split; [by intros [_ ?]|by intros (_ & _ & ?)].
    + split; [by intros [_ ?]|by intros (_ & _ & ?)].
  - intros key value. apply (value_decode_total (key, value) (ExactValue := DirEntry_exact)).
Qed.

(** the four snapshot values (registry state, snapshot record, lifetime
    record, ledger state) have exact codecs in every context, and decoding
    never panics. *)
Theorem snapshot_values_exact :
  (forall v n, RegistryState_decode v = Ok n <-> u64 n /\ RegistryState_encode n = Ok v) /\
  (forall max total v r, SnapshotRecord_decode max total v = Ok r <->
     SnapshotRecord_typed r /\ SnapshotRecord_encode max total r = Ok v) /\
  (forall start max total v r, LifetimeRecord_decode start max total v = Ok r <->
     LifetimeRecord_typed r /\ LifetimeRecord_encode start max total r = Ok v) /\
  (forall total v s, LedgerState_decode total v = Ok s <->
     LedgerState_typed s /\ LedgerState_encode total s = Ok v) /\
  (forall start max total v, RegistryState_decode v <> Panic /\ SnapshotRecord_decode max total v <> Panic /\
     LifetimeRecord_decode start max total v <> Panic /\ LedgerState_decode total v <> Panic).
Proof.
  split; [apply value_exact|]. split; [intros; apply value_exact|]. split; [intros; apply value_exact|].
  split; [intros; apply value_exact|]. intros. split_and!; apply value_decode_total.
Qed.

(** The identifiers a registry hands out, one after the other. *)
Fixpoint allocate_ids (next_id : Z) (k : nat) : result (list Z) :=
  match k with
  | O => Ok []
  | S k => let* '(id, next_id) := allocate_id next_id in
           let* ids := allocate_ids next_id k in Ok (id :: ids)
  end.

(** snapshot identifiers are never reused: whatever number of them a
    registry hands out, they are consecutive and distinct, none is zero, and at
    exhaustion allocation fails instead of wrapping; it never panics. *)
Theorem snapshot_ids_never_reused next_id k :
  u64 next_id ->
  match allocate_ids next_id k with
  | Ok ids => ids = seqZ next_id (Z.of_nat k) /\ NoDup ids /\ ~ In 0 ids
  | Err _ => (0 < k)%nat /\ (next_id = 0 \/ 2 ^ 64 <= next_id + Z.of_nat k)
  | Panic => False
  end.
Proof.
  intros Hn. enough (match allocate_ids next_id k with
    | Ok ids => ids = seqZ next_id (Z.of_nat k) /\ (k = 0%nat \/ next_id <> 0)
    | Err _ => (0 < k)%nat /\ (next_id = 0 \/ 2 ^ 64 <= next_id + Z.of_nat k)
    | Panic => False end) as H.
  { destruct (allocate_ids next_id k) as [ids| |]; [|done..]. destruct H as [-> Hk]. unfold u64 in Hn.
    split_and!; [done|apply NoDup_seqZ|]. intros Hin%list_elem_of_In%elem_of_seqZ. lia. }
  revert next_id Hn. induction k as [|k IH]; intros next_id Hn; cbn [allocate_ids]; [split; [done|by left]|].
  unfold u64 in Hn. unfold allocate_id. rewrite RegistryState_encode_eq.
  destruct (next_id =? 0) eqn:H0; cbn [obind]; [lia|]. unfold checked_add.
  destruct (next_id + 1 <? 2 ^ 64) eqn:Hw; cbn [ok_or obind]; [|lia].
  specialize (IH (next_id + 1) ltac:(unfold u64; lia)).
  destruct (allocate_ids (next_id + 1) k); cbn [obind]; [|lia|done].
  destruct IH as [-> _]. split; [|lia]. rewrite (seqZ_cons next_id) by lia. f_equal. f_equal; lia.
Qed.

Lemma snapshot_ids_never_reused_witness : [7; 8; 9] = seqZ 7 3 /\ NoDup [7; 8; 9] /\ ~ In 0 [7; 8; 9].
Proof. apply (snapshot_ids_never_reused 7 3). by vm_compute. Defined.
