(* ===== verification/Posix.v ===== *)
(** * The POSIX projection of the protection word (crates/afsplus-format/src/posix.rs)

    Reading a POSIX mode from an AmigaDOS protection word and writing one into
    it.  The theorems are the two claims of the source: a mode survives the
    round trip, and a write keeps every bit the projection does not speak for. *)

From S2P Require Import Prelude Format.

(** ** The code *)

Definition PROTECTION_AMIGA_ONLY : Z := 0xF0.
Definition PROTECTION_ARCHIVE : Z := Z.shiftl 1 4.
Definition u32_complement (v : Z) : Z := Z.lxor v 0xFFFFFFFF.

Definition archive_cleared (protection : Z) : Z :=
  Z.land protection (u32_complement PROTECTION_ARCHIVE).

Definition OWNER_DELETE : Z := Z.shiftl 1 0.
Definition OWNER_EXECUTE : Z := Z.shiftl 1 1.
Definition OWNER_WRITE : Z := Z.shiftl 1 2.
Definition OWNER_READ : Z := Z.shiftl 1 3.
Definition GRP_DELETE : Z := Z.shiftl 1 8.
Definition GRP_EXECUTE : Z := Z.shiftl 1 9.
Definition GRP_WRITE : Z := Z.shiftl 1 10.
Definition GRP_READ : Z := Z.shiftl 1 11.
Definition OTR_DELETE : Z := Z.shiftl 1 12.
Definition OTR_EXECUTE : Z := Z.shiftl 1 13.
Definition OTR_WRITE : Z := Z.shiftl 1 14.
Definition OTR_READ : Z := Z.shiftl 1 15.
Definition SGID : Z := Z.shiftl 1 30.
Definition SUID : Z := Z.shiftl 1 31.

Definition MODE_PERMISSION_BITS : Z := 4095.
Definition MODE_STICKY : Z := 512.
Definition MODE_SETUID : Z := 2048.
Definition MODE_SETGID : Z := 1024.

(** [if c { word |= bits; }]. *)
Definition or_if (c : bool) (bits word : Z) : Z := if c then Z.lor word bits else word.

Definition clear (word bits : Z) : bool := Z.land word bits =? 0.
Definition some_set (word bits : Z) : bool := negb (clear word bits).

Definition mode_of (protection : Z) : Z :=
  let mode := 0 in
  let mode := or_if (clear protection OWNER_READ) 256 mode in
  let mode := or_if (clear protection (Z.lor OWNER_WRITE OWNER_DELETE)) 128 mode in
  let mode := or_if (clear protection OWNER_EXECUTE) 64 mode in
  let mode := or_if (some_set protection GRP_READ) 32 mode in
  let mode := or_if (some_set protection GRP_WRITE) 16 mode in
  let mode := or_if (some_set protection GRP_EXECUTE) 8 mode in
  let mode := or_if (some_set protection OTR_READ) 4 mode in
  let mode := or_if (some_set protection OTR_WRITE) 2 mode in
  let mode := or_if (some_set protection OTR_EXECUTE) 1 mode in
  let mode := or_if (some_set protection SUID) MODE_SETUID mode in
  or_if (some_set protection SGID) MODE_SETGID mode.

Definition spoken : Z :=
  Z.lor (Z.lor (Z.lor (Z.lor (Z.lor (Z.lor (Z.lor (Z.lor (Z.lor (Z.lor (Z.lor (Z.lor (Z.lor
    OWNER_READ OWNER_WRITE) OWNER_EXECUTE) OWNER_DELETE) GRP_READ) GRP_WRITE) GRP_EXECUTE)
    GRP_DELETE) OTR_READ) OTR_WRITE) OTR_EXECUTE) OTR_DELETE) SUID) SGID.

Definition with_mode (protection mode : Z) : result Z :=
  if some_set mode MODE_STICKY then
    Err (Invalid "POSIX sticky bit has no AROS protection representation") else
  if negb (Z.land mode (Z.lxor MODE_PERMISSION_BITS 0xFFFF) =? 0) then
    Err (Invalid "POSIX mode carries bits outside 0o7777") else
  let word := Z.land protection (u32_complement spoken) in
  let word := or_if (clear mode 256) OWNER_READ word in
  let word := or_if (clear mode 128) (Z.lor OWNER_WRITE OWNER_DELETE) word in
  let word := or_if (clear mode 64) OWNER_EXECUTE word in
  let word := or_if (some_set mode 32) GRP_READ word in
  let word := or_if (some_set mode 16) (Z.lor GRP_WRITE GRP_DELETE) word in
  let word := or_if (some_set mode 8) GRP_EXECUTE word in
  let word := or_if (some_set mode 4) OTR_READ word in
  let word := or_if (some_set mode 2) (Z.lor OTR_WRITE OTR_DELETE) word in
  let word := or_if (some_set mode 1) OTR_EXECUTE word in
  let word := or_if (some_set mode MODE_SETUID) SUID word in
  let word := or_if (some_set mode MODE_SETGID) SGID word in
  Ok word.

Definition protection_for_mode (mode : Z) : result Z := with_mode 0 mode.

(** ** Bit by bit *)

Lemma testbit_or_if c bits word i :
  Z.testbit (or_if c bits word) i = Z.testbit word i || (c && Z.testbit bits i).
Proof. unfold or_if. destruct c; [by rewrite Z.lor_spec|by rewrite orb_false_r]. Qed.

Lemma clear_bit word k bits : 0 <= k -> bits = Z.shiftl 1 k -> clear word bits = negb (Z.testbit word k).
Proof. intros Hk ->. by apply land_bit. Qed.

Lemma clear_two word a b x y :
  0 <= a -> 0 <= b -> x = Z.shiftl 1 a -> y = Z.shiftl 1 b ->
  clear word (Z.lor x y) = negb (Z.testbit word a || Z.testbit word b).
Proof.
  intros Ha Hb -> ->. unfold clear. rewrite Z.land_lor_distr_r.
  apply eq_true_iff_eq. rewrite Z.eqb_eq, Z.lor_eq_0_iff, <- !Z.eqb_eq, !land_bit by done.
  destruct (Z.testbit word a), (Z.testbit word b); cbn; intuition.
Qed.

(** The mode as a function of the bits of the word. *)
Definition mode_bit (w : Z -> bool) (j : Z) : bool :=
  match j with
  | 0 => w 13 | 1 => w 14 | 2 => w 15 | 3 => w 9 | 4 => w 10 | 5 => w 11
  | 6 => negb (w 1) | 7 => negb (w 2 || w 0) | 8 => negb (w 3)
  | 10 => w 30 | 11 => w 31 | _ => false
  end.

(** The word as a function of the bits of the mode and of the old word. *)
Definition word_bit (m p : Z -> bool) (i : Z) : bool :=
  match i with
  | 0 => negb (m 7) | 1 => negb (m 6) | 2 => negb (m 7) | 3 => negb (m 8)
  | 8 => m 4 | 9 => m 3 | 10 => m 4 | 11 => m 5
  | 12 => m 1 | 13 => m 0 | 14 => m 1 | 15 => m 2
  | 30 => m 10 | 31 => m 11 | _ => p i
  end.

(** [bits_of w]: name the bits of [w], compute the constants, simplify. *)
Ltac bits_of w :=
  repeat match goal with
  | |- context [Z.testbit w ?k] => let b := fresh "b" in set (b := Z.testbit w k); clearbody b
  end.
Ltac bool_simpl := rewrite ?andb_false_r, ?andb_true_r, ?orb_false_r, ?orb_true_r; try done.

Lemma mode_of_eq w :
  mode_of w =
    or_if (Z.testbit w 30) MODE_SETGID (or_if (Z.testbit w 31) MODE_SETUID
    (or_if (Z.testbit w 13) 1 (or_if (Z.testbit w 14) 2 (or_if (Z.testbit w 15) 4
    (or_if (Z.testbit w 9) 8 (or_if (Z.testbit w 10) 16 (or_if (Z.testbit w 11) 32
    (or_if (negb (Z.testbit w 1)) 64 (or_if (negb (Z.testbit w 2 || Z.testbit w 0)) 128
    (or_if (negb (Z.testbit w 3)) 256 0)))))))))).
Proof.
  unfold mode_of, some_set.
  rewrite (clear_bit w 3 OWNER_READ), (clear_two w 2 0 OWNER_WRITE OWNER_DELETE),
    (clear_bit w 1 OWNER_EXECUTE), (clear_bit w 11 GRP_READ), (clear_bit w 10 GRP_WRITE),
    (clear_bit w 9 GRP_EXECUTE), (clear_bit w 15 OTR_READ), (clear_bit w 14 OTR_WRITE),
    (clear_bit w 13 OTR_EXECUTE), (clear_bit w 31 SUID), (clear_bit w 30 SGID) by done.
  by rewrite !negb_involutive.
Qed.

Lemma mode_of_bit w j : 0 <= j < 12 -> Z.testbit (mode_of w) j = mode_bit (Z.testbit w) j.
Proof.
  intros Hj. rewrite mode_of_eq. assert (j ∈ seqZ 0 12) as Hin by (apply elem_of_seqZ; lia).
  cbv in Hin. repeat (apply elem_of_cons in Hin as [->|Hin]); [..|by apply elem_of_nil in Hin].
  all: rewrite !testbit_or_if; cbn [mode_bit]; bits_of w; cbn; bool_simpl.
Qed.

Lemma or_if_bound c bits word n : 0 <= n -> 0 <= bits < 2 ^ n -> 0 <= word < 2 ^ n -> 0 <= or_if c bits word < 2 ^ n.
Proof.
  intros Hn Hb Hw. unfold or_if. destruct c; [|done].
  assert (0 <= Z.lor word bits) by (apply Z.lor_nonneg; lia).
  split; [done|]. apply Z.bounded_iff_bits_nonneg; [lia|done|]. intros i Hi. rewrite Z.lor_spec.
  rewrite (proj1 (Z.bounded_iff_bits_nonneg n word ltac:(lia) ltac:(lia)) (proj2 Hw)) by done.
  by rewrite (proj1 (Z.bounded_iff_bits_nonneg n bits ltac:(lia) ltac:(lia)) (proj2 Hb)).
Qed.

Lemma mode_of_bound w : 0 <= mode_of w < 2 ^ 12.
Proof. rewrite mode_of_eq. repeat (apply or_if_bound; [done|done|]). done. Qed.

Lemma with_mode_eq p m w :
  with_mode p m = Ok w ->
  Z.testbit m 9 = false /\
  w = or_if (Z.testbit m 10) SGID (or_if (Z.testbit m 11) SUID (or_if (Z.testbit m 0) OTR_EXECUTE
    (or_if (Z.testbit m 1) (Z.lor OTR_WRITE OTR_DELETE) (or_if (Z.testbit m 2) OTR_READ
    (or_if (Z.testbit m 3) GRP_EXECUTE (or_if (Z.testbit m 4) (Z.lor GRP_WRITE GRP_DELETE)
    (or_if (Z.testbit m 5) GRP_READ (or_if (negb (Z.testbit m 6)) OWNER_EXECUTE
    (or_if (negb (Z.testbit m 7)) (Z.lor OWNER_WRITE OWNER_DELETE)
    (or_if (negb (Z.testbit m 8)) OWNER_READ (Z.land p (u32_complement spoken)))))))))))).
Proof.
  unfold with_mode, some_set.
  rewrite (clear_bit m 9 MODE_STICKY), (clear_bit m 8 256), (clear_bit m 7 128), (clear_bit m 6 64),
    (clear_bit m 5 32), (clear_bit m 4 16), (clear_bit m 3 8), (clear_bit m 2 4), (clear_bit m 1 2),
    (clear_bit m 0 1), (clear_bit m 11 MODE_SETUID), (clear_bit m 10 MODE_SETGID) by done.
  rewrite !negb_involutive. destruct (Z.testbit m 9); [done|]. destruct (negb _); [done|].
  intros H. apply Ok_inj in H. by split.
Qed.

Lemma with_mode_bit p m w i :
  with_mode p m = Ok w -> 0 <= i < 32 -> Z.testbit w i = word_bit (Z.testbit m) (Z.testbit p) i.
Proof.
  intros [_ ->]%with_mode_eq Hi. assert (i ∈ seqZ 0 32) as Hin by (apply elem_of_seqZ; lia).
  cbv in Hin. repeat (apply elem_of_cons in Hin as [->|Hin]); [..|by apply elem_of_nil in Hin].
  all: rewrite !testbit_or_if, Z.land_spec; cbn [word_bit]; bits_of m; bits_of p; cbn; bool_simpl.
Qed.

Lemma with_mode_ok p m :
  0 <= m < 2 ^ 12 -> Z.testbit m 9 = false -> exists w, with_mode p m = Ok w.
Proof.
  intros Hm H9. unfold with_mode, some_set. rewrite (clear_bit m 9 MODE_STICKY), H9 by done. cbn [negb].
  replace (Z.land m (Z.lxor MODE_PERMISSION_BITS 0xFFFF)) with 0; [by eexists|].
  symmetry. apply Z.bits_inj'. intros i Hi. rewrite Z.land_spec, Z.bits_0.
  destruct (decide (i < 12)).
  - change (Z.lxor MODE_PERMISSION_BITS 0xFFFF) with (Z.shiftl 15 12).
    rewrite Z.shiftl_spec_low by lia. apply andb_false_r.
  - by rewrite (proj1 (Z.bounded_iff_bits_nonneg 12 m ltac:(lia) ltac:(lia)) (proj2 Hm)) by lia.
Qed.

(** ** Properties *)

(** a mode round-trips exactly: writing any mode without the sticky bit
    into any protection word succeeds, and reading the word gives that mode
    back. *)
Theorem mode_roundtrip p m :
  0 <= m < 2 ^ 12 -> Z.land m MODE_STICKY = 0 ->
  exists w, with_mode p m = Ok w /\ mode_of w = m.
Proof.
  intros Hm Hst. assert (Z.testbit m 9 = false) as H9.
  { apply Z.eqb_eq in Hst. change (clear m MODE_STICKY = true) in Hst.
    rewrite (clear_bit m 9) in Hst by done. by apply negb_true_iff. }
  destruct (with_mode_ok p m Hm H9) as [w Hw]. exists w. split; [done|].
  apply Z.bits_inj'. intros j Hj. destruct (decide (j < 12)) as [Hlt|Hge].
  - rewrite mode_of_bit by lia. pose proof (with_mode_bit p m w) as Hb.
    assert (j ∈ seqZ 0 12) as Hin by (apply elem_of_seqZ; lia).
    cbv in Hin. repeat (apply elem_of_cons in Hin as [->|Hin]); [..|by apply elem_of_nil in Hin].
    all: cbn [mode_bit]; rewrite ?Hb by (done || lia); cbn [word_bit]; rewrite ?H9;
      rewrite ?orb_diag, ?negb_involutive; done.
  - pose proof (mode_of_bound w) as Hmo.
    rewrite (proj1 (Z.bounded_iff_bits_nonneg 12 m ltac:(lia) ltac:(lia)) (proj2 Hm)) by lia.
    by rewrite (proj1 (Z.bounded_iff_bits_nonneg 12 (mode_of w) ltac:(lia) ltac:(lia)) (proj2 Hmo)) by lia.
Qed.

Lemma mode_roundtrip_witness : exists w, with_mode 0x70 0x1ED = Ok w /\ mode_of w = 0x1ED.
Proof. apply (mode_roundtrip 0x70 0x1ED); by vm_compute. Defined.

(** writing a mode keeps every bit of the word the projection does not
    speak for, ARCHIVE, PURE and SCRIPT among them, and in each class the
    DELETE bit follows the WRITE bit. *)
Theorem with_mode_keeps_other_bits p m w :
  with_mode p m = Ok w ->
  (forall i, 0 <= i < 32 -> Z.testbit spoken i = false -> Z.testbit w i = Z.testbit p i) /\
  Z.land w PROTECTION_AMIGA_ONLY = Z.land p PROTECTION_AMIGA_ONLY /\
  Z.testbit w 0 = Z.testbit w 2 /\ Z.testbit w 8 = Z.testbit w 10 /\ Z.testbit w 12 = Z.testbit w 14.
Proof.
  intros Hw. assert (forall i, 0 <= i < 32 -> Z.testbit spoken i = false -> Z.testbit w i = Z.testbit p i) as Hk.
  { intros i Hi Hs. rewrite (with_mode_bit p m w i Hw Hi).
    assert (i ∈ seqZ 0 32) as Hin by (apply elem_of_seqZ; lia).
    cbv in Hin. repeat (apply elem_of_cons in Hin as [->|Hin]); [..|by apply elem_of_nil in Hin].
    all: done. }
  split; [done|]. split; [|split_and!; by rewrite !(with_mode_bit p m w _ Hw) by lia].
  apply Z.bits_inj'. intros i Hi. rewrite !Z.land_spec.
  destruct (decide (4 <= i < 8)) as [Hr|Hr].
  - rewrite Hk; [done|lia|]. assert (i = 4 \/ i = 5 \/ i = 6 \/ i = 7) as Hc by lia.
    destruct Hc as [ -> | [ -> | [ -> | -> ]]]; reflexivity.
  - change PROTECTION_AMIGA_ONLY with (Z.shiftl (Z.ones 4) 4). rewrite Z.shiftl_spec by lia.
    destruct (decide (i < 4)); [by rewrite (Z.testbit_neg_r (Z.ones 4)), !andb_false_r by lia|].
    by rewrite Z.ones_spec_high, !andb_false_r by lia.
Qed.

Lemma with_mode_keeps_other_bits_witness :
  Z.land 0x8000AAF0 PROTECTION_AMIGA_ONLY = Z.land 0xF0 PROTECTION_AMIGA_ONLY.
Proof. apply (with_mode_keeps_other_bits 0xF0 0x9ED 0x8000AAF0). vm_compute. reflexivity. Defined.
