(* ===== verification/ReclaimCodec.v ===== *)
(** * Reclaim-queue blocks (crates/afsplus-format/src/reclaim.rs)

    The root, segment and table blocks of the queue of retired runs: their
    validation and their codecs. *)

From S2P Require Import Prelude Crc32c Format Header Codec.

(** ** The code *)

Definition ENTRY_WIRE_SIZE : Z := 20.
Definition REF_WIRE_SIZE : Z := 12.
Definition ROOT_FIXED : Z := 64.
Definition SEGMENT_ENTRY_CAP : Z := 202.
Definition TABLE_REF_CAP : Z := 338.

Record ReclaimEntry := { re_start : Z; re_blocks : Z; re_retire_generation : Z }.

Definition ReclaimEntry_end (e : ReclaimEntry) : result Z :=
  ok_or (checked_add 64 (re_start e) (re_blocks e)) (Invalid "reclaim run end overflows").

Definition ReclaimEntry_validate (e : ReclaimEntry) : result unit :=
  if re_blocks e =? 0 then Err (Invalid "reclaim run has zero blocks") else
  if re_retire_generation e =? 0 then Err (Invalid "reclaim run has zero generation") else
  do* ReclaimEntry_end e in
  Ok tt.

(** [self.write(&mut p[a..b])]. *)
Definition ReclaimEntry_write (e : ReclaimEntry) (p : bytes) (a b : Z) : result bytes :=
  let* buf := slice p a b in
  let* buf :=
    let* buf := put_u64 buf 0 8 (re_start e) in
    let* buf := put_u32 buf 8 12 (re_blocks e) in
    put_u64 buf 12 20 (re_retire_generation e) in
  put p a b buf.

Definition ReclaimEntry_read (buf : bytes) : result ReclaimEntry :=
  let* start := get_u64_at buf 0 8 in
  let* blocks := get_u32_at buf 8 12 in
  let* retire_generation := get_u64_at buf 12 20 in
  let entry := {| re_start := start; re_blocks := blocks; re_retire_generation := retire_generation |} in
  do* ReclaimEntry_validate entry in
  Ok entry.

Record SegmentRef := { sg_lba : Z; sg_entry_count : Z }.
Record TableRef := { tb_lba : Z; tb_ref_count : Z }.

Definition admit_envelope (header : BlockHeader) : result unit :=
  if negb (bh_flags header =? 0) || negb (bh_owner header =? 0) then
    Err (Invalid "reclaim block header flags or owner are nonzero")
  else Ok tt.

(** [write_ref(&mut p[a..b], lba, count)]. *)
Definition write_ref (p : bytes) (a b lba count : Z) : result bytes :=
  let* buf := slice p a b in
  let* buf := let* buf := put_u64 buf 0 8 lba in put_u32 buf 8 12 count in
  put p a b buf.

Record ReclaimCaps := { rc_inline_entries : Z; rc_segment_refs : Z; rc_table_refs : Z }.

Definition ReclaimCaps_default : ReclaimCaps :=
  {| rc_inline_entries := 96; rc_segment_refs := 64; rc_table_refs := 64 |}.

Definition and_then {A B} (o : option A) (k : A -> option B) : option B :=
  match o with Some a => k a | None => None end.

Definition root_payload_len (caps : ReclaimCaps) : result Z :=
  ok_or
    (and_then (checked_mul 64 (rc_table_refs caps) REF_WIRE_SIZE) (fun t =>
     and_then (checked_mul 64 (rc_segment_refs caps) REF_WIRE_SIZE) (fun s =>
     and_then (checked_mul 64 (rc_inline_entries caps) ENTRY_WIRE_SIZE) (fun i =>
     and_then (checked_add 64 ROOT_FIXED t) (fun x =>
     and_then (checked_add 64 x s) (fun x => checked_add 64 x i))))))
    (Invalid "reclaim capacity overflow").

Definition ReclaimCaps_validate (caps : ReclaimCaps) (block_size : Z) : result unit :=
  if (rc_inline_entries caps =? 0) || (rc_segment_refs caps =? 0) || (rc_table_refs caps =? 0) then
    Err (Invalid "reclaim capacity is zero") else
  if block_size <? HEADER_SIZE then Err (Overflow "reclaim root areas exceed one block") else
  let* len := root_payload_len caps in
  if block_size - HEADER_SIZE <? len then Err (Overflow "reclaim root areas exceed one block") else
  Ok tt.

Record ReclaimRoot := {
  rt_pending_blocks : Z;
  rt_appended_blocks_total : Z;
  rt_reclaimed_blocks_total : Z;
  rt_head_segment_offset : Z;
  rt_head_entry_offset : Z;
  rt_head_block_offset : Z;
  rt_caps : ReclaimCaps;
  rt_table_refs : list TableRef;
  rt_segment_refs : list SegmentRef;
  rt_inline_entries : list ReclaimEntry;
}.

Definition ReclaimRoot_empty (caps : ReclaimCaps) : ReclaimRoot :=
  {| rt_pending_blocks := 0; rt_appended_blocks_total := 0; rt_reclaimed_blocks_total := 0;
     rt_head_segment_offset := 0; rt_head_entry_offset := 0; rt_head_block_offset := 0;
     rt_caps := caps; rt_table_refs := []; rt_segment_refs := []; rt_inline_entries := [] |}.

Definition check_table_ref (_ : unit) (t : TableRef) : result unit :=
  if (tb_ref_count t =? 0) || (TABLE_REF_CAP <? tb_ref_count t) then
    Err (Invalid "reclaim table ref count out of range") else Ok tt.

Definition check_segment_ref (_ : unit) (s : SegmentRef) : result unit :=
  if (sg_entry_count s =? 0) || (SEGMENT_ENTRY_CAP <? sg_entry_count s) then
    Err (Invalid "reclaim segment ref count out of range") else Ok tt.

Definition ReclaimRoot_validate (r : ReclaimRoot) (block_size : Z) : result unit :=
  do* ReclaimCaps_validate (rt_caps r) block_size in
  if (rc_table_refs (rt_caps r) <? zlen (rt_table_refs r)) ||
     (rc_segment_refs (rt_caps r) <? zlen (rt_segment_refs r)) ||
     (rc_inline_entries (rt_caps r) <? zlen (rt_inline_entries r)) then
    Err (Invalid "reclaim root area count exceeds capacity") else
  do* ofold check_table_ref tt (rt_table_refs r) in
  do* ofold check_segment_ref tt (rt_segment_refs r) in
  do* match rt_table_refs r with
      | [] => if negb (rt_head_segment_offset r =? 0) then
                Err (Invalid "reclaim cursor names a missing table") else Ok tt
      | t :: _ => if tb_ref_count t <=? rt_head_segment_offset r then
                    Err (Invalid "reclaim cursor beyond the first table") else Ok tt
      end in
  do* match rt_table_refs r, rt_segment_refs r with
      | [], [] => if negb (rt_head_entry_offset r =? 0) || negb (rt_head_block_offset r =? 0) then
                    Err (Invalid "reclaim cursor names a missing segment") else Ok tt
      | [], s :: _ => if sg_entry_count s <=? rt_head_entry_offset r then
                        Err (Invalid "reclaim cursor beyond the head segment") else Ok tt
      | _ :: _, _ => Ok tt
      end in
  let* pending :=
    ok_or (checked_sub (rt_appended_blocks_total r) (rt_reclaimed_blocks_total r))
          (Invalid "reclaimed more blocks than appended") in
  if negb (pending =? rt_pending_blocks r) then
    Err (Invalid "reclaim totals do not match pending count") else
  Ok tt.

Definition write_table (st : bytes * Z) (t : TableRef) : result (bytes * Z) :=
  let '(p, offset) := st in
  let* p := write_ref p offset (offset + REF_WIRE_SIZE) (tb_lba t) (tb_ref_count t) in
  Ok (p, offset + REF_WIRE_SIZE).

Definition write_segment (st : bytes * Z) (s : SegmentRef) : result (bytes * Z) :=
  let '(p, offset) := st in
  let* p := write_ref p offset (offset + REF_WIRE_SIZE) (sg_lba s) (sg_entry_count s) in
  Ok (p, offset + REF_WIRE_SIZE).

Definition write_entry (st : bytes * Z) (e : ReclaimEntry) : result (bytes * Z) :=
  let '(p, offset) := st in
  let* p := ReclaimEntry_write e p offset (offset + ENTRY_WIRE_SIZE) in
  Ok (p, offset + ENTRY_WIRE_SIZE).

Definition ReclaimRoot_encode (r : ReclaimRoot) (block_size generation : Z) : result bytes :=
  do* ReclaimRoot_validate r block_size in
  let caps := rt_caps r in
  let* payload_len := root_payload_len caps in
  let* block := with_payload (zeros block_size) (fun p =>
    let* p := put_u32 p 0 4 1 in
    let* p := put_u64 p 8 16 (rt_pending_blocks r) in
    let* p := put_u64 p 16 24 (rt_appended_blocks_total r) in
    let* p := put_u64 p 24 32 (rt_reclaimed_blocks_total r) in
    let* p := put_u32 p 32 36 (rt_head_segment_offset r) in
    let* p := put_u32 p 36 40 (rt_head_entry_offset r) in
    let* p := put_u32 p 40 44 (rt_head_block_offset r) in
    let* p := put_u16 p 44 46 (rc_inline_entries caps) in
    let* p := put_u16 p 46 48 (rc_segment_refs caps) in
    let* p := put_u16 p 48 50 (rc_table_refs caps) in
    let* p := put_u32 p 52 56 (as_u32 (zlen (rt_table_refs r))) in
    let* p := put_u32 p 56 60 (as_u32 (zlen (rt_segment_refs r))) in
    let* p := put_u32 p 60 64 (as_u32 (zlen (rt_inline_entries r))) in
    let* '(p, _) := ofold write_table (p, ROOT_FIXED) (rt_table_refs r) in
    let offset := ROOT_FIXED + rc_table_refs caps * REF_WIRE_SIZE in
    let* '(p, _) := ofold write_segment (p, offset) (rt_segment_refs r) in
    let offset := ROOT_FIXED + (rc_table_refs caps + rc_segment_refs caps) * REF_WIRE_SIZE in
    let* '(p, _) := ofold write_entry (p, offset) (rt_inline_entries r) in
    Ok p) in
  seal {| bh_block_type := block_type.RECLAIM_ROOT; bh_flags := 0; bh_owner := 0;
          bh_generation := generation; bh_payload_len := as_u32 payload_len |} block.

Definition read_table (p : bytes) (offset : Z) : result TableRef :=
  let* lba := get_u64_at p offset (offset + 8) in
  let* ref_count := get_u32_at p (offset + 8) (offset + 12) in
  Ok {| tb_lba := lba; tb_ref_count := ref_count |}.

Definition read_segment (p : bytes) (offset : Z) : result SegmentRef :=
  let* lba := get_u64_at p offset (offset + 8) in
  let* entry_count := get_u32_at p (offset + 8) (offset + 12) in
  Ok {| sg_lba := lba; sg_entry_count := entry_count |}.

Definition read_entry (p : bytes) (offset : Z) : result ReclaimEntry :=
  let* buf := slice p offset (offset + ENTRY_WIRE_SIZE) in ReclaimEntry_read buf.

(** [ranges.into_iter().any(|range| p[range].iter().any(|byte| *byte != 0))]. *)
Fixpoint any_nonzero (p : bytes) (ranges : list (Z * Z)) : result bool :=
  match ranges with
  | [] => Ok false
  | (a, b) :: ranges =>
      let* s := slice p a b in
      if negb (all_zero s) then Ok true else any_nonzero p ranges
  end.

Definition ReclaimRoot_decode_payload (block_len : Z) (header : BlockHeader) (p : bytes) :
    result (ReclaimRoot * Z) :=
  if zlen p <? ROOT_FIXED then Err (Invalid "reclaim root payload too short") else
  let* version := get_u32_at p 0 4 in
  if negb (version =? 1) then Err (Invalid "unsupported reclaim root version") else
  let* reserved := any_nonzero p [(4, 8); (50, 52)] in
  if (reserved : bool) then Err (Invalid "reclaim root reserved bytes") else
  let* c_inline := get_u16_at p 44 46 in
  let* c_segment := get_u16_at p 46 48 in
  let* c_table := get_u16_at p 48 50 in
  let caps := {| rc_inline_entries := c_inline; rc_segment_refs := c_segment; rc_table_refs := c_table |} in
  do* ReclaimCaps_validate caps block_len in
  let* expected := root_payload_len caps in
  if negb (zlen p =? expected) then Err (Invalid "reclaim root payload length is not exact") else
  let* table_count := get_u32_at p 52 56 in
  let* segment_count := get_u32_at p 56 60 in
  let* inline_count := get_u32_at p 60 64 in
  if (c_table <? table_count) || (c_segment <? segment_count) || (c_inline <? inline_count) then
    Err (Invalid "reclaim root area count exceeds capacity") else
  let* table_refs := collect_step (read_table p) ROOT_FIXED REF_WIRE_SIZE (Z.to_nat table_count) in
  let* segment_refs :=
    collect_step (read_segment p) (ROOT_FIXED + c_table * REF_WIRE_SIZE) REF_WIRE_SIZE
      (Z.to_nat segment_count) in
  let* inline_entries :=
    collect_step (read_entry p) (ROOT_FIXED + (c_table + c_segment) * REF_WIRE_SIZE) ENTRY_WIRE_SIZE
      (Z.to_nat inline_count) in
  let table_end := ROOT_FIXED + c_table * REF_WIRE_SIZE in
  let segment_end := table_end + c_segment * REF_WIRE_SIZE in
  let* unused := any_nonzero p
    [(ROOT_FIXED + table_count * REF_WIRE_SIZE, table_end);
     (table_end + segment_count * REF_WIRE_SIZE, segment_end);
     (segment_end + inline_count * ENTRY_WIRE_SIZE, zlen p)] in
  if (unused : bool) then Err (Invalid "reclaim root unused area slots are nonzero") else
  let* pending_blocks := get_u64_at p 8 16 in
  let* appended := get_u64_at p 16 24 in
  let* reclaimed := get_u64_at p 24 32 in
  let* head_segment := get_u32_at p 32 36 in
  let* head_entry := get_u32_at p 36 40 in
  let* head_block := get_u32_at p 40 44 in
  let root :=
    {| rt_pending_blocks := pending_blocks; rt_appended_blocks_total := appended;
       rt_reclaimed_blocks_total := reclaimed; rt_head_segment_offset := head_segment;
       rt_head_entry_offset := head_entry; rt_head_block_offset := head_block; rt_caps := caps;
       rt_table_refs := table_refs; rt_segment_refs := segment_refs; rt_inline_entries := inline_entries |} in
  do* ReclaimRoot_validate root block_len in
  Ok (root, bh_generation header).

Definition ReclaimRoot_decode (block : bytes) : result (ReclaimRoot * Z) :=
  let* header := verify block block_type.RECLAIM_ROOT in
  do* admit_envelope header in
  let* p := payload header block in
  ReclaimRoot_decode_payload (zlen block) header p.

(** *** Segments and tables *)

Definition encode_segment_entry (p : bytes) (i : Z) (entry : ReclaimEntry) : result bytes :=
  do* ReclaimEntry_validate entry in
  ReclaimEntry_write entry p (8 + i * ENTRY_WIRE_SIZE) (8 + (i + 1) * ENTRY_WIRE_SIZE).

(** A segment is the list of its entries. *)
Definition ReclaimSegment_encode (entries : list ReclaimEntry) (block_size generation : Z) : result bytes :=
  if (zlen entries =? 0) || (SEGMENT_ENTRY_CAP <? zlen entries) then
    Err (Invalid "reclaim segment entry count out of range") else
  let payload_len := 8 + zlen entries * ENTRY_WIRE_SIZE in
  if saturating_sub block_size HEADER_SIZE <? payload_len then
    Err (Overflow "reclaim segment exceeds one block") else
  let* block := with_payload (zeros block_size) (fun p =>
    let* p := put_u32 p 0 4 (as_u32 (zlen entries)) in
    ofoldi encode_segment_entry p 0 entries) in
  seal {| bh_block_type := block_type.RECLAIM_SEGMENT; bh_flags := 0; bh_owner := 0;
          bh_generation := generation; bh_payload_len := as_u32 payload_len |} block.

Definition ReclaimSegment_decode_payload (header : BlockHeader) (p : bytes) : result (list ReclaimEntry * Z) :=
  if zlen p <? 8 then Err (Invalid "reclaim segment payload too short") else
  let* reserved := slice p 4 8 in
  if negb (all_zero reserved) then Err (Invalid "reclaim sealed block reserved bytes") else
  let* count := get_u32_at p 0 4 in
  if (count =? 0) || (SEGMENT_ENTRY_CAP <? count) || ((zlen p - 8) / ENTRY_WIRE_SIZE <? count) then
    Err (Invalid "reclaim segment entry count out of range") else
  if negb (bh_payload_len header =? 8 + count * ENTRY_WIRE_SIZE) then
    Err (Invalid "reclaim segment payload length mismatch") else
  let* entries := collect (fun i =>
    let* buf := slice p (8 + i * ENTRY_WIRE_SIZE) (8 + (i + 1) * ENTRY_WIRE_SIZE) in
    ReclaimEntry_read buf) 0 (Z.to_nat count) in
  Ok (entries, bh_generation header).

Definition ReclaimSegment_decode (block : bytes) : result (list ReclaimEntry * Z) :=
  let* header := verify block block_type.RECLAIM_SEGMENT in
  do* admit_envelope header in
  let* p := payload header block in
  ReclaimSegment_decode_payload header p.

Definition encode_table_ref (p : bytes) (i : Z) (s : SegmentRef) : result bytes :=
  if (sg_entry_count s =? 0) || (SEGMENT_ENTRY_CAP <? sg_entry_count s) then
    Err (Invalid "reclaim table segment count out of range") else
  write_ref p (8 + i * REF_WIRE_SIZE) (8 + (i + 1) * REF_WIRE_SIZE) (sg_lba s) (sg_entry_count s).

(** A table is the list of its segment references. *)
Definition ReclaimTable_encode (refs : list SegmentRef) (block_size generation : Z) : result bytes :=
  if (zlen refs =? 0) || (TABLE_REF_CAP <? zlen refs) then
    Err (Invalid "reclaim table ref count out of range") else
  let payload_len := 8 + zlen refs * REF_WIRE_SIZE in
  if saturating_sub block_size HEADER_SIZE <? payload_len then
    Err (Overflow "reclaim table exceeds one block") else
  let* block := with_payload (zeros block_size) (fun p =>
    let* p := put_u32 p 0 4 (as_u32 (zlen refs)) in
    ofoldi encode_table_ref p 0 refs) in
  seal {| bh_block_type := block_type.RECLAIM_TABLE; bh_flags := 0; bh_owner := 0;
          bh_generation := generation; bh_payload_len := as_u32 payload_len |} block.

Definition decode_table_ref (p : bytes) (i : Z) : result SegmentRef :=
  let offset := 8 + i * REF_WIRE_SIZE in
  let* lba := get_u64_at p offset (offset + 8) in
  let* entry_count := get_u32_at p (offset + 8) (offset + 12) in
  if (entry_count =? 0) || (SEGMENT_ENTRY_CAP <? entry_count) then
    Err (Invalid "reclaim table segment count out of range") else
  Ok {| sg_lba := lba; sg_entry_count := entry_count |}.

Definition ReclaimTable_decode_payload (header : BlockHeader) (p : bytes) : result (list SegmentRef * Z) :=
  if zlen p <? 8 then Err (Invalid "reclaim table payload too short") else
  let* reserved := slice p 4 8 in
  if negb (all_zero reserved) then Err (Invalid "reclaim sealed block reserved bytes") else
  let* count := get_u32_at p 0 4 in
  if (count =? 0) || (TABLE_REF_CAP <? count) || ((zlen p - 8) / REF_WIRE_SIZE <? count) then
    Err (Invalid "reclaim table ref count out of range") else
  if negb (bh_payload_len header =? 8 + count * REF_WIRE_SIZE) then
    Err (Invalid "reclaim table payload length mismatch") else
  let* refs := collect (decode_table_ref p) 0 (Z.to_nat count) in
  Ok (refs, bh_generation header).

Definition ReclaimTable_decode (block : bytes) : result (list SegmentRef * Z) :=
  let* header := verify block block_type.RECLAIM_TABLE in
  do* admit_envelope header in
  let* p := payload header block in
  ReclaimTable_decode_payload header p.

(** ** Entries and references *)

Definition entry_wire (e : ReclaimEntry) : bytes :=
  le_split 8 (re_start e) ++ le_split 4 (re_blocks e) ++ le_split 8 (re_retire_generation e).
Definition segment_wire (s : SegmentRef) : bytes := le_split 8 (sg_lba s) ++ le_split 4 (sg_entry_count s).
Definition table_wire (t : TableRef) : bytes := le_split 8 (tb_lba t) ++ le_split 4 (tb_ref_count t).

Definition entry_typed (e : ReclaimEntry) : Prop :=
  u64 (re_start e) /\ u32 (re_blocks e) /\ u64 (re_retire_generation e).
Definition segment_typed (s : SegmentRef) : Prop := u64 (sg_lba s) /\ u32 (sg_entry_count s).
Definition table_typed (t : TableRef) : Prop := u64 (tb_lba t) /\ u32 (tb_ref_count t).

Lemma zlen_entry_wire e : zlen (entry_wire e) = 20.
Proof. unfold entry_wire. side. Qed.
Lemma zlen_segment_wire s : zlen (segment_wire s) = 12.
Proof. unfold segment_wire. side. Qed.
Lemma zlen_table_wire t : zlen (table_wire t) = 12.
Proof. unfold table_wire. side. Qed.

Lemma wp_entry_write e p a b (Q : bytes -> Prop) R :
  0 <= a -> b = a + 20 -> b <= zlen p -> wp (put p a b (entry_wire e)) Q R ->
  wp (ReclaimEntry_write e p a b) Q R.
Proof.
  intros Ha -> Hb Hput. unfold ReclaimEntry_write.
  apply (wp_window p (entry_wire e) a (a + 20)); [lia|lia| |done].
  intros buf Hbuf. fill buf. replace (zlen buf) with 20 by lia.
  by rewrite sub_empty, app_nil_r, app_nil_l, <- app_assoc.
Qed.

Lemma wp_write_ref lba count p a b (Q : bytes -> Prop) R :
  0 <= a -> b = a + 12 -> b <= zlen p -> wp (put p a b (le_split 8 lba ++ le_split 4 count)) Q R ->
  wp (write_ref p a b lba count) Q R.
Proof.
  intros Ha -> Hb Hput. unfold write_ref.
  apply (wp_window p (le_split 8 lba ++ le_split 4 count) a (a + 12)); [lia|lia| |done].
  intros buf Hbuf. fill buf. replace (zlen buf) with 12 by lia.
  by rewrite sub_empty, app_nil_r, app_nil_l.
Qed.

Lemma entry_validate_total e : ReclaimEntry_validate e <> Panic.
Proof. unfold ReclaimEntry_validate, ReclaimEntry_end, checked_add. by repeat case_match. Qed.

Lemma entry_read_wire e :
  entry_typed e -> ReclaimEntry_validate e = Ok tt -> ReclaimEntry_read (entry_wire e) = Ok e.
Proof.
  intros (Hs & Hb & Hg) Hv. unfold u64, u32 in *. pose proof (zlen_entry_wire e).
  apply wp_no_error. unfold ReclaimEntry_read, entry_wire in *. rd. rd. rd. destruct e. cbn in *. by rewrite Hv.
Qed.

Lemma wp_entry_read buf (Q : ReclaimEntry -> Prop) R :
  zlen buf = 20 ->
  (forall e, entry_typed e -> ReclaimEntry_validate e = Ok tt -> buf = entry_wire e -> Q e) ->
  (forall e, R e) -> wp (ReclaimEntry_read buf) Q R.
Proof.
  intros Hl HQ HR. unfold ReclaimEntry_read. rx. rx. rx.
  apply wp_bind, wp_unit; [apply entry_validate_total|intros Hv|done]. apply wp_ok, HQ; [done|done|].
  rewrite <- (sub_all buf 20) at 1 by done. unfold entry_wire. cbn [re_start re_blocks re_retire_generation]. rewire.
Qed.

(** ** Segment blocks *)

Definition segment_block_wire (entries : list ReclaimEntry) : bytes :=
  le_split 4 (zlen entries) ++ zeros 4 ++ wires entry_wire entries.

Definition segment_header (entries : list ReclaimEntry) (g : Z) : BlockHeader :=
  {| bh_block_type := block_type.RECLAIM_SEGMENT; bh_flags := 0; bh_owner := 0;
     bh_generation := g; bh_payload_len := zlen (segment_block_wire entries) |}.

Definition ReclaimSegment_typed (entries : list ReclaimEntry) (g : Z) : Prop :=
  Forall entry_typed entries /\ u64 g.

Definition segment_adm (entries : list ReclaimEntry) (bs g : Z) : Prop :=
  1 <= zlen entries <= SEGMENT_ENTRY_CAP /\ Forall (fun e => ReclaimEntry_validate e = Ok tt) entries /\
  zlen (segment_block_wire entries) <= bs - 32.

Lemma zlen_segment_block_wire entries : zlen (segment_block_wire entries) = 8 + 20 * zlen entries.
Proof.
  unfold segment_block_wire. autorewrite with zlen. rewrite (zlen_wires _ 20 zlen_entry_wire). lia.
Qed.

#[local] Hint Unfold segment_block_wire : wire.
#[local] Hint Rewrite (zlen_wires _ 20 zlen_entry_wire) (zlen_wires _ 12 zlen_segment_wire)
  (zlen_wires _ 12 zlen_table_wire) : zlen.

Lemma ReclaimSegment_encode_spec entries bs g :
  ReclaimSegment_typed entries g -> 0 <= bs < 2 ^ 32 ->
  wp (ReclaimSegment_encode entries bs g)
     (fun b => segment_adm entries bs g /\ b = image segment_header segment_block_wire entries bs g)
     (fun _ => ~ segment_adm entries bs g).
Proof.
  intros Ht Hbs. pose proof (zlen_segment_block_wire entries) as Hz. pose proof (zlen_nonneg entries).
  unfold ReclaimSegment_encode, segment_adm, saturating_sub, HEADER_SIZE, ENTRY_WIRE_SIZE, SEGMENT_ENTRY_CAP.
  apply wp_if; [intros ?; apply wp_err; lia|intros Hn].
  apply wp_if; [intros ?; apply wp_err; lia|intros Hfit].
  rewrite !as_u32_small by lia.
  replace (8 + zlen entries * 20) with (zlen (segment_block_wire entries)) by lia.
  apply (wp_seal_image segment_header segment_block_wire entries bs g); [done|lia|].
  enc_field. rewrite (upto_skip _ 4 8) by (lia || wire_read).
  apply (wp_ofoldi_wires entry_wire 20 zlen_entry_wire _ (fun e => ReclaimEntry_validate e = Ok tt));
    [lia|lia|wire_read|lia| |].
  - intros k e Hk o Ho Hol Hw. unfold encode_segment_entry, ENTRY_WIRE_SIZE.
    apply wp_bind, wp_unit; [apply entry_validate_total|intros Hv|].
    + replace (8 + Z.of_nat k * 20) with o by lia. replace (8 + (Z.of_nat k + 1) * 20) with (o + 20) by lia.
      apply wp_entry_write; [lia|done|rewrite zlen_upto; lia|].
      eapply wp_put_upto; [lia|lia|lia|lia|apply (sub_empty _ _ : _ = zeros 0)|done|done].
    + intros Hv _ (_ & HF & _). rewrite Forall_lookup in HF. by eapply Hv, HF.
  - intros HF. split; [by rewrite Hz|]. split; [split_and!; (done || lia)|done].
Qed.

Lemma ReclaimSegment_decode_image entries bs g :
  ReclaimSegment_typed entries g -> bs < 2 ^ 32 -> segment_adm entries bs g ->
  ReclaimSegment_decode (image segment_header segment_block_wire entries bs g) = Ok (entries, g).
Proof.
  intros [HT Hg] Hbs (Hn & HF & Hfit). unfold u64, SEGMENT_ENTRY_CAP in *.
  pose proof (zlen_segment_block_wire entries) as Hz.
  apply wp_no_error. unfold ReclaimSegment_decode.
  apply wp_open_image_guard; [unfold segment_header; header_typed|done|done|lia|done|].
  unfold ReclaimSegment_decode_payload, ENTRY_WIRE_SIZE, SEGMENT_ENTRY_CAP.
  cbn [bh_generation bh_payload_len segment_header].
  apply wp_if_false; [lia|]. rd. rewrite all_zero_zeros. apply wp_if_false; [done|]. rd.
  apply wp_if_false.
  { rewrite Hz. replace (8 + 20 * zlen entries - 8) with (zlen entries * 20) by lia.
    rewrite Z.div_mul by lia. lia. }
  apply wp_if_false; [lia|]. apply wp_bind.
  replace (Z.to_nat (zlen entries)) with (length entries) by (unfold zlen; lia).
  rewrite (collect_wires _ entries); [by apply wp_ok|].
  intros k e Hk. rewrite Z.add_0_l. pose proof (lookup_lt_Some _ _ _ Hk).
  rewrite Forall_lookup in HT, HF. apply wp_no_error, wp_bind.
  eapply wp_slice_eq; [lia|unfold zlen in *; lia| |by rewrite entry_read_wire by eauto].
  assert (sub (segment_block_wire entries) 8 (8 + 20 * zlen entries) = wires entry_wire entries) as Hwin by wire_read.
  eapply (sub_window (segment_block_wire entries)); [exact Hwin|unfold zlen in *; lia..|].
  rewrite <- (sub_wires entry_wire 20 zlen_entry_wire entries k e Hk). f_equal; lia.
Qed.

Lemma ReclaimSegment_decode_inv block :
  wp (ReclaimSegment_decode block)
     (fun '(es, g) => ReclaimSegment_typed es g /\ segment_adm es (zlen block) g /\
        block = image segment_header segment_block_wire es (zlen block) g) any_error.
Proof.
  unfold ReclaimSegment_decode. apply wp_open_guard; [|done]. intros h p n Ht Hty Hp Hn Hblock.
  unfold admit_envelope. apply wp_bind, wp_if; [done|intros Henv]. apply wp_ok. guards.
  unfold ReclaimSegment_decode_payload, ENTRY_WIRE_SIZE, SEGMENT_ENTRY_CAP.
  rx. rx. rx. rx. rx. rx. apply wp_bind.
  apply (wp_collect entry_wire 20 _ (fun e => entry_typed e /\ ReclaimEntry_validate e = Ok tt) p 8); [lia|lia|lia| |].
  { intros j Hj. apply wp_bind, wp_slice; [lia..|].
    apply wp_entry_read; [rewrite zlen_sub; lia| |done]. intros e He Hv Hw.
    split; [done|]. rewrite <- Hw. f_equal; lia. }
  intros es Hl HF Hsub. apply wp_ok. apply Forall_and in HF as [HT HF].
  assert (zlen es = le_combine (sub p 0 4)) as Hlen by (unfold zlen; lia).
  assert (p = segment_block_wire es) as Hw.
  { rewrite <- (sub_all p (zlen p)) at 1 by done. unfold segment_block_wire. rewrite Hlen.
    change (8 - 4) with 4 in *. rewire. }
  assert (h = segment_header es (bh_generation h)) as Hh.
  { unfold segment_header. rewrite <- Hw, Hp, <- Hty. destruct h; cbn in *; congruence. }
  unfold BlockHeader_typed in Ht. split_and!; [by split; [|tauto]| |by eapply image_eq].
  unfold segment_adm, SEGMENT_ENTRY_CAP. rewrite <- Hw, Hblock, zlen_sealed, zlen_app, zlen_zeros by lia.
  split_and!; (done || lia).
Qed.

#[export] Instance ReclaimSegment_exact :
  ExactCodec ReclaimSegment_typed ReclaimSegment_encode ReclaimSegment_decode.
Proof.
  apply (exact_codec _ _ _ segment_header segment_block_wire segment_adm).
  - intros es bs g _ (_ & _ & H). exact H.
  - apply ReclaimSegment_encode_spec.
  - apply ReclaimSegment_decode_image.
  - apply ReclaimSegment_decode_inv.
Qed.

(** ** Table blocks *)

Definition table_block_wire (refs : list SegmentRef) : bytes :=
  le_split 4 (zlen refs) ++ zeros 4 ++ wires segment_wire refs.

Definition table_header (refs : list SegmentRef) (g : Z) : BlockHeader :=
  {| bh_block_type := block_type.RECLAIM_TABLE; bh_flags := 0; bh_owner := 0;
     bh_generation := g; bh_payload_len := zlen (table_block_wire refs) |}.

Definition ReclaimTable_typed (refs : list SegmentRef) (g : Z) : Prop :=
  Forall segment_typed refs /\ u64 g.

Definition segment_ref_ok (s : SegmentRef) : Prop := 1 <= sg_entry_count s <= SEGMENT_ENTRY_CAP.

Definition table_adm (refs : list SegmentRef) (bs g : Z) : Prop :=
  1 <= zlen refs <= TABLE_REF_CAP /\ Forall segment_ref_ok refs /\
  zlen (table_block_wire refs) <= bs - 32.

Lemma zlen_table_block_wire refs : zlen (table_block_wire refs) = 8 + 12 * zlen refs.
Proof.
  unfold table_block_wire. autorewrite with zlen. lia.
Qed.

#[local] Hint Unfold table_block_wire : wire.

Lemma ReclaimTable_encode_spec refs bs g :
  ReclaimTable_typed refs g -> 0 <= bs < 2 ^ 32 ->
  wp (ReclaimTable_encode refs bs g)
     (fun b => table_adm refs bs g /\ b = image table_header table_block_wire refs bs g)
     (fun _ => ~ table_adm refs bs g).
Proof.
  intros [HT _] Hbs. pose proof (zlen_table_block_wire refs) as Hz. pose proof (zlen_nonneg refs).
  unfold ReclaimTable_encode, table_adm, saturating_sub, HEADER_SIZE, REF_WIRE_SIZE, TABLE_REF_CAP.
  apply wp_if; [intros ?; apply wp_err; lia|intros Hn].
  apply wp_if; [intros ?; apply wp_err; lia|intros Hfit].
  rewrite !as_u32_small by lia.
  replace (8 + zlen refs * 12) with (zlen (table_block_wire refs)) by lia.
  apply (wp_seal_image table_header table_block_wire refs bs g); [done|lia|].
  enc_field. rewrite (upto_skip _ 4 8) by (lia || wire_read).
  apply (wp_ofoldi_wires segment_wire 12 zlen_segment_wire _ segment_ref_ok); [lia|lia|wire_read|lia| |].
  - intros k s Hk o Ho Hol Hw. unfold encode_table_ref, REF_WIRE_SIZE, segment_ref_ok.
    rewrite Forall_lookup in HT. destruct (HT k s Hk) as [_ Hc]. unfold u32 in Hc.
    apply wp_if; [intros Hb; apply wp_err; intros (_ & HF & _)|intros Hok].
    { rewrite Forall_lookup in HF. pose proof (HF k s Hk) as Hs. unfold segment_ref_ok in Hs. lia. }
    replace (8 + Z.of_nat k * 12) with o by lia. replace (8 + (Z.of_nat k + 1) * 12) with (o + 12) by lia.
    apply wp_write_ref; [lia|done|rewrite zlen_upto; lia|].
    eapply wp_put_upto; [lia|lia|lia|lia|apply (sub_empty _ _ : _ = zeros 0)|done|]. split; [lia|done].
  - intros HF. split; [by rewrite Hz|]. split; [split_and!; (done || lia)|done].
Qed.

(** Reading a reference inside a window of known references. *)
Lemma read_ref_image (p : bytes) (l : list SegmentRef) base k s :
  0 <= base -> base + 12 * zlen l <= zlen p -> l !! k = Some s ->
  sub p base (base + 12 * zlen l) = wires segment_wire l ->
  base + 12 * Z.of_nat k + 12 <= zlen p /\
  sub p (base + 12 * Z.of_nat k) (base + 12 * Z.of_nat k + 12) = segment_wire s.
Proof.
  intros Hb Hl Hk Hw. pose proof (lookup_lt_Some _ _ _ Hk). unfold zlen in Hl, Hw.
  split; [unfold zlen; lia|]. eapply (sub_window p); [exact Hw|lia..|].
  rewrite <- (sub_wires segment_wire 12 zlen_segment_wire l k s Hk). f_equal; lia.
Qed.

Lemma ReclaimTable_decode_image refs bs g :
  ReclaimTable_typed refs g -> bs < 2 ^ 32 -> table_adm refs bs g ->
  ReclaimTable_decode (image table_header table_block_wire refs bs g) = Ok (refs, g).
Proof.
  intros [HT Hg] Hbs (Hn & HF & Hfit). unfold u64, TABLE_REF_CAP in *.
  pose proof (zlen_table_block_wire refs) as Hz.
  apply wp_no_error. unfold ReclaimTable_decode.
  apply wp_open_image_guard; [unfold table_header; header_typed|done|done|lia|done|].
  unfold ReclaimTable_decode_payload, REF_WIRE_SIZE, TABLE_REF_CAP.
  cbn [bh_generation bh_payload_len table_header].
  apply wp_if_false; [lia|]. rd. rewrite all_zero_zeros. apply wp_if_false; [done|]. rd.
  apply wp_if_false.
  { rewrite Hz. replace (8 + 12 * zlen refs - 8) with (zlen refs * 12) by lia.
    rewrite Z.div_mul by lia. lia. }
  apply wp_if_false; [lia|]. apply wp_bind.
  replace (Z.to_nat (zlen refs)) with (length refs) by (unfold zlen; lia).
  assert (sub (table_block_wire refs) 8 (8 + 12 * zlen refs) = wires segment_wire refs) as Hwin by wire_read.
  rewrite (collect_wires _ refs); [by apply wp_ok|].
  intros k s Hk. rewrite Z.add_0_l. rewrite Forall_lookup in HT, HF.
  destruct (HT k s Hk) as [Hl Hc]. pose proof (HF k s Hk) as Hok. unfold segment_ref_ok, u64, u32 in *.
  destruct (read_ref_image (table_block_wire refs) refs 8 k s ltac:(lia) ltac:(lia) Hk Hwin) as [Hr Hw]. clear Hwin.
  apply wp_no_error. unfold decode_table_ref, REF_WIRE_SIZE.
  replace (8 + Z.of_nat k * 12) with (8 + 12 * Z.of_nat k) by lia. unfold segment_wire in Hw.
  rd. rd. apply wp_if_false; [lia|]. apply wp_ok. by destruct s.
Qed.

Lemma ReclaimTable_decode_inv block :
  wp (ReclaimTable_decode block)
     (fun '(rs, g) => ReclaimTable_typed rs g /\ table_adm rs (zlen block) g /\
        block = image table_header table_block_wire rs (zlen block) g) any_error.
Proof.
  unfold ReclaimTable_decode. apply wp_open_guard; [|done]. intros h p n Ht Hty Hp Hn Hblock.
  unfold admit_envelope. apply wp_bind, wp_if; [done|intros Henv]. apply wp_ok. guards.
  unfold ReclaimTable_decode_payload, REF_WIRE_SIZE, TABLE_REF_CAP.
  rx. rx. rx. rx. rx. rx. apply wp_bind.
  apply (wp_collect segment_wire 12 _ (fun s => segment_typed s /\ segment_ref_ok s) p 8); [lia|lia|lia| |].
  { intros j Hj. unfold decode_table_ref, REF_WIRE_SIZE. rx. rx. rx. apply wp_ok.
    unfold segment_typed, segment_ref_ok, u64, u32. cbn. split; [lia|].
    unfold segment_wire. cbn [sg_lba sg_entry_count]. rewire. }
  intros rs Hl HF Hsub. apply wp_ok. apply Forall_and in HF as [HT HF].
  assert (zlen rs = le_combine (sub p 0 4)) as Hlen by (unfold zlen; lia).
  assert (p = table_block_wire rs) as Hw.
  { rewrite <- (sub_all p (zlen p)) at 1 by done. unfold table_block_wire. rewrite Hlen.
    change (8 - 4) with 4 in *. rewire. }
  assert (h = table_header rs (bh_generation h)) as Hh.
  { unfold table_header. rewrite <- Hw, Hp, <- Hty. destruct h; cbn in *; congruence. }
  unfold BlockHeader_typed in Ht. split_and!; [by split; [|tauto]| |by eapply image_eq].
  unfold table_adm, TABLE_REF_CAP. rewrite <- Hw, Hblock, zlen_sealed, zlen_app, zlen_zeros by lia.
  split_and!; (done || lia).
Qed.

#[export] Instance ReclaimTable_exact :
  ExactCodec ReclaimTable_typed ReclaimTable_encode ReclaimTable_decode.
Proof.
  apply (exact_codec _ _ _ table_header table_block_wire table_adm).
  - intros rs bs g _ (_ & _ & H). exact H.
  - apply ReclaimTable_encode_spec.
  - apply ReclaimTable_decode_image.
  - apply ReclaimTable_decode_inv.
Qed.

(** ** The root block *)

Definition caps_typed (c : ReclaimCaps) : Prop :=
  u16 (rc_inline_entries c) /\ u16 (rc_segment_refs c) /\ u16 (rc_table_refs c).

Definition caps_len (c : ReclaimCaps) : Z :=
  64 + 12 * rc_table_refs c + 12 * rc_segment_refs c + 20 * rc_inline_entries c.

Lemma root_payload_len_eq c : caps_typed c -> root_payload_len c = Ok (caps_len c).
Proof.
  intros (Hi & Hs & Ht). unfold u16, root_payload_len, and_then, checked_mul, checked_add,
    REF_WIRE_SIZE, ENTRY_WIRE_SIZE, ROOT_FIXED in *.
  repeat (match goal with |- context [?a <? 2 ^ 64] => replace (a <? 2 ^ 64) with true by lia end; cbv iota beta).
  cbn [ok_or]. f_equal. unfold caps_len. lia.
Qed.

Definition root_wire (r : ReclaimRoot) : bytes :=
  le_split 4 1 ++ zeros 4 ++ le_split 8 (rt_pending_blocks r) ++ le_split 8 (rt_appended_blocks_total r) ++
  le_split 8 (rt_reclaimed_blocks_total r) ++ le_split 4 (rt_head_segment_offset r) ++
  le_split 4 (rt_head_entry_offset r) ++ le_split 4 (rt_head_block_offset r) ++
  le_split 2 (rc_inline_entries (rt_caps r)) ++ le_split 2 (rc_segment_refs (rt_caps r)) ++
  le_split 2 (rc_table_refs (rt_caps r)) ++ zeros 2 ++ le_split 4 (zlen (rt_table_refs r)) ++
  le_split 4 (zlen (rt_segment_refs r)) ++ le_split 4 (zlen (rt_inline_entries r)) ++
  wires table_wire (rt_table_refs r) ++ zeros (12 * (rc_table_refs (rt_caps r) - zlen (rt_table_refs r))) ++
  wires segment_wire (rt_segment_refs r) ++ zeros (12 * (rc_segment_refs (rt_caps r) - zlen (rt_segment_refs r))) ++
  wires entry_wire (rt_inline_entries r) ++ zeros (20 * (rc_inline_entries (rt_caps r) - zlen (rt_inline_entries r))).

Definition root_header (r : ReclaimRoot) (g : Z) : BlockHeader :=
  {| bh_block_type := block_type.RECLAIM_ROOT; bh_flags := 0; bh_owner := 0;
     bh_generation := g; bh_payload_len := caps_len (rt_caps r) |}.

Definition ReclaimRoot_typed (r : ReclaimRoot) (g : Z) : Prop :=
  u64 (rt_pending_blocks r) /\ u64 (rt_appended_blocks_total r) /\ u64 (rt_reclaimed_blocks_total r) /\
  u32 (rt_head_segment_offset r) /\ u32 (rt_head_entry_offset r) /\ u32 (rt_head_block_offset r) /\
  caps_typed (rt_caps r) /\ Forall table_typed (rt_table_refs r) /\
  Forall segment_typed (rt_segment_refs r) /\ Forall entry_typed (rt_inline_entries r) /\ u64 g.

(** The runs the root holds itself are valid runs. *)
Definition inline_valid (r : ReclaimRoot) : Prop :=
  Forall (fun e => ReclaimEntry_validate e = Ok tt) (rt_inline_entries r).

Definition counts_fit (r : ReclaimRoot) : Prop :=
  zlen (rt_table_refs r) <= rc_table_refs (rt_caps r) /\
  zlen (rt_segment_refs r) <= rc_segment_refs (rt_caps r) /\
  zlen (rt_inline_entries r) <= rc_inline_entries (rt_caps r).

Lemma zlen_root_wire r : counts_fit r -> zlen (root_wire r) = caps_len (rt_caps r).
Proof.
  intros (Ht & Hs & Hi). pose proof (zlen_nonneg (rt_table_refs r)).
  pose proof (zlen_nonneg (rt_segment_refs r)). pose proof (zlen_nonneg (rt_inline_entries r)).
  unfold root_wire, caps_len. autorewrite with zlen. lia.
Qed.

Lemma wp_caps_validate c bs (Q : unit -> Prop) R :
  caps_typed c -> (caps_len c <= bs - 32 -> Q tt) -> (forall e, R e) -> wp (ReclaimCaps_validate c bs) Q R.
Proof.
  intros Hc HQ HR. unfold ReclaimCaps_validate, HEADER_SIZE. rewrite root_payload_len_eq by done.
  apply wp_if; [intros; apply wp_err, HR|intros _]. apply wp_if; [intros; apply wp_err, HR|intros Hbs].
  apply wp_bind, wp_ok. apply wp_if; [intros; apply wp_err, HR|intros Hl]. apply wp_ok, HQ. lia.
Qed.

Lemma wp_root_validate r bs :
  caps_typed (rt_caps r) ->
  wp (ReclaimRoot_validate r bs) (fun _ => counts_fit r /\ caps_len (rt_caps r) <= bs - 32 /\
    rt_pending_blocks r = rt_appended_blocks_total r - rt_reclaimed_blocks_total r) any_error.
Proof.
  intros Hc. unfold ReclaimRoot_validate. apply wp_bind, wp_caps_validate; [done|intros Hlen|done].
  rx. apply wp_bind. apply (wp_ofold _ (fun _ _ => True)); [done| |intros [] _].
  { intros [] t l _. unfold check_table_ref. by rx. }
  apply wp_bind. apply (wp_ofold _ (fun _ _ => True)); [done| |intros [] _].
  { intros [] s l _. unfold check_segment_ref. by rx. }
  apply wp_bind, (wp_mono _ (fun _ => True) _ any_error); [|intros ? _; cbv beta|done].
  { destruct (rt_table_refs r); by rx. }
  apply wp_bind, (wp_mono _ (fun _ => True) _ any_error); [|intros ? _; cbv beta|done].
  { destruct (rt_table_refs r), (rt_segment_refs r); (done || by rx). }
  apply wp_bind, wp_checked_sub; [intros Hsub|done]. rx. apply wp_ok. unfold counts_fit. lia.
Qed.

Lemma root_validate_facts r bs :
  caps_typed (rt_caps r) -> ReclaimRoot_validate r bs = Ok tt ->
  counts_fit r /\ caps_len (rt_caps r) <= bs - 32.
Proof. intros Hc H. destruct (wp_of_ok _ _ _ _ (wp_root_validate r bs Hc) H) as (? & ? & _). done. Qed.

Lemma root_validate_total r bs : caps_typed (rt_caps r) -> ReclaimRoot_validate r bs <> Panic.
Proof. intros Hc. by eapply wp_not_panic, wp_root_validate. Qed.

#[local] Hint Unfold root_wire : wire.

(** Where the three areas lie in the image. *)
Lemma root_areas r :
  counts_fit r ->
  let t := zlen (rt_table_refs r) in let s := zlen (rt_segment_refs r) in let i := zlen (rt_inline_entries r) in
  let te := 64 + 12 * rc_table_refs (rt_caps r) in let se := te + 12 * rc_segment_refs (rt_caps r) in
  let W := root_wire r in
  sub W 64 (64 + 12 * t) = wires table_wire (rt_table_refs r) /\
  sub W (64 + 12 * t) te = zeros (te - (64 + 12 * t)) /\
  sub W te (te + 12 * s) = wires segment_wire (rt_segment_refs r) /\
  sub W (te + 12 * s) se = zeros (se - (te + 12 * s)) /\
  sub W se (se + 20 * i) = wires entry_wire (rt_inline_entries r) /\
  sub W (se + 20 * i) (zlen W) = zeros (zlen W - (se + 20 * i)).
Proof.
  intros Hfit. pose proof (zlen_root_wire r Hfit) as Hz. destruct Hfit as (Ht & Hs & Hi).
  pose proof (zlen_nonneg (rt_table_refs r)). pose proof (zlen_nonneg (rt_segment_refs r)).
  pose proof (zlen_nonneg (rt_inline_entries r)). cbv zeta. rewrite Hz. unfold caps_len.
  split_and!.
  - wire_read.
  - etransitivity; [wire_read|f_equal; lia].
  - wire_read.
  - etransitivity; [wire_read|f_equal; lia].
  - wire_read.
  - etransitivity; [wire_read|f_equal; lia].
Qed.

Lemma wp_write_tables W n l off (Q : bytes * Z -> Prop) (R : FormatError -> Prop) :
  0 <= off -> off + 12 * zlen l <= zlen W -> zlen W <= n ->
  sub W off (off + 12 * zlen l) = wires table_wire l ->
  (forall o, Q (upto W (off + 12 * zlen l) n, o)) ->
  wp (ofold write_table (upto W off n, off) l) Q R.
Proof.
  intros Hoff Hl Hn Hw HQ. pose proof (zlen_wires _ 12 zlen_table_wire l) as Hz.
  apply (wp_ofold_wires table_wire); [done|lia|by rewrite Hz| |rewrite Hz; apply HQ].
  intros o t Ho Hol Hwt. rewrite zlen_table_wire in *. unfold write_table, REF_WIRE_SIZE.
  apply wp_bind, wp_write_ref; [lia|done|rewrite zlen_upto; lia|].
  eapply wp_put_upto; [lia|lia|lia|lia|apply (sub_empty _ _ : _ = zeros 0)|done|by apply wp_ok].
Qed.

Lemma wp_write_segments W n l off (Q : bytes * Z -> Prop) (R : FormatError -> Prop) :
  0 <= off -> off + 12 * zlen l <= zlen W -> zlen W <= n ->
  sub W off (off + 12 * zlen l) = wires segment_wire l ->
  (forall o, Q (upto W (off + 12 * zlen l) n, o)) ->
  wp (ofold write_segment (upto W off n, off) l) Q R.
Proof.
  intros Hoff Hl Hn Hw HQ. pose proof (zlen_wires _ 12 zlen_segment_wire l) as Hz.
  apply (wp_ofold_wires segment_wire); [done|lia|by rewrite Hz| |rewrite Hz; apply HQ].
  intros o t Ho Hol Hwt. rewrite zlen_segment_wire in *. unfold write_segment, REF_WIRE_SIZE.
  apply wp_bind, wp_write_ref; [lia|done|rewrite zlen_upto; lia|].
  eapply wp_put_upto; [lia|lia|lia|lia|apply (sub_empty _ _ : _ = zeros 0)|done|by apply wp_ok].
Qed.

Lemma wp_write_entries W n l off (Q : bytes * Z -> Prop) (R : FormatError -> Prop) :
  0 <= off -> off + 20 * zlen l <= zlen W -> zlen W <= n ->
  sub W off (off + 20 * zlen l) = wires entry_wire l ->
  (forall o, Q (upto W (off + 20 * zlen l) n, o)) ->
  wp (ofold write_entry (upto W off n, off) l) Q R.
Proof.
  intros Hoff Hl Hn Hw HQ. pose proof (zlen_wires _ 20 zlen_entry_wire l) as Hz.
  apply (wp_ofold_wires entry_wire); [done|lia|by rewrite Hz| |rewrite Hz; apply HQ].
  intros o e Ho Hol Hwt. rewrite zlen_entry_wire in *. unfold write_entry, ENTRY_WIRE_SIZE.
  apply wp_bind, wp_entry_write; [lia|done|rewrite zlen_upto; lia|].
  eapply wp_put_upto; [lia|lia|lia|lia|apply (sub_empty _ _ : _ = zeros 0)|done|by apply wp_ok].
Qed.

Lemma ReclaimRoot_encode_spec r bs g :
  ReclaimRoot_typed r g -> 0 <= bs < 2 ^ 32 ->
  wp (ReclaimRoot_encode r bs g)
     (fun b => ReclaimRoot_validate r bs = Ok tt /\ b = image root_header root_wire r bs g)
     (fun _ => ReclaimRoot_validate r bs <> Ok tt).
Proof.
  intros Ht Hbs. assert (caps_typed (rt_caps r)) as Hc by (unfold ReclaimRoot_typed in Ht; tauto). clear Ht.
  unfold ReclaimRoot_encode. apply wp_bind, wp_unit; [by apply root_validate_total|intros Hv|done].
  destruct (root_validate_facts r bs Hc Hv) as [Hfit Hlen].
  pose proof (zlen_root_wire r Hfit) as Hz. rewrite root_payload_len_eq by done. apply wp_bind, wp_ok.
  destruct Hc as (Hci & Hcs & Hct). destruct (Hfit) as (Hft & Hfs & Hfi). unfold u16, caps_len in *.
  destruct (root_areas r Hfit) as (Ha1 & Hz1 & Ha2 & Hz2 & Ha3 & Hz3).
  pose proof (zlen_nonneg (rt_table_refs r)). pose proof (zlen_nonneg (rt_segment_refs r)).
  pose proof (zlen_nonneg (rt_inline_entries r)). rewrite !as_u32_small by lia.
  apply (wp_seal_image root_header root_wire r bs g); [by rewrite Hz|lia|].
  clear Ha1 Hz1 Ha2 Hz2 Ha3 Hz3. do 13 enc_field.
  destruct (root_areas r Hfit) as (Ha1 & Hz1 & Ha2 & Hz2 & Ha3 & Hz3).
  unfold ROOT_FIXED, REF_WIRE_SIZE.
  apply wp_bind, wp_write_tables; [lia|lia|lia|done|intros _].
  rewrite (upto_skip _ (64 + 12 * zlen (rt_table_refs r)) (64 + rc_table_refs (rt_caps r) * 12)); [|lia|lia|].
  2: { replace (64 + rc_table_refs (rt_caps r) * 12) with (64 + 12 * rc_table_refs (rt_caps r)) by lia. exact Hz1. }
  replace (64 + rc_table_refs (rt_caps r) * 12) with (64 + 12 * rc_table_refs (rt_caps r)) by lia.
  apply wp_bind, wp_write_segments; [lia|lia|lia|done|intros _].
  set (se := 64 + 12 * rc_table_refs (rt_caps r) + 12 * rc_segment_refs (rt_caps r)) in *.
  replace (64 + (rc_table_refs (rt_caps r) + rc_segment_refs (rt_caps r)) * 12) with se by lia.
  rewrite (upto_skip _ _ se) by (done || lia).
  apply wp_bind, wp_write_entries; [lia|lia|lia|done|intros _].
  apply wp_ok. split; [|done]. rewrite (upto_skip _ _ (zlen (root_wire r))) by (done || lia). done.
Qed.

Lemma any_nonzero_false (p : bytes) l :
  Forall (fun '(a, b) => 0 <= a <= b /\ b <= zlen p /\ sub p a b = zeros (b - a)) l ->
  any_nonzero p l = Ok false.
Proof.
  induction 1 as [|[a b] l (Ha & Hb & Hz) _ IH]; [done|]. cbn [any_nonzero]. apply wp_no_error.
  apply wp_bind, wp_slice; [lia..|]. rewrite Hz, all_zero_zeros. cbn [negb]. by rewrite IH.
Qed.

Lemma wp_any_nonzero (p : bytes) l (Q : bool -> Prop) (R : FormatError -> Prop) :
  Forall (fun '(a, b) => 0 <= a <= b /\ b <= zlen p) l ->
  (forall bad, (bad = false -> Forall (fun '(a, b) => sub p a b = zeros (b - a)) l) -> Q bad) ->
  wp (any_nonzero p l) Q R.
Proof.
  revert Q. induction l as [|[a b] l IH]; intros Q HF HQ; cbn [any_nonzero].
  - apply wp_ok, HQ. by constructor.
  - apply Forall_cons in HF as [[Ha Hb] HF]. apply wp_bind, wp_slice; [lia..|].
    apply wp_if; intros Hz; [by apply wp_ok, HQ|]. apply negb_false_iff, all_zero_sub in Hz; [|lia..].
    apply IH; [done|]. intros bad Hbad. apply HQ. intros Hb'. constructor; [done|by apply Hbad].
Qed.

Lemma caps_of_validate r bs :
  ReclaimRoot_validate r bs = Ok tt -> ReclaimCaps_validate (rt_caps r) bs = Ok tt.
Proof. unfold ReclaimRoot_validate. by destruct (ReclaimCaps_validate (rt_caps r) bs) as [[]| |]. Qed.

Lemma collect_read_tables (p : bytes) l off :
  Forall table_typed l -> 0 <= off -> off + 12 * zlen l <= zlen p ->
  sub p off (off + 12 * zlen l) = wires table_wire l ->
  collect_step (read_table p) off 12 (length l) = Ok l.
Proof.
  intros HT Hoff Hl Hw. rewrite collect_step_eq. apply collect_wires. intros k t Hk.
  rewrite Z.add_0_l. rewrite Forall_lookup in HT. destruct (HT k t Hk) as [H1 H2]. unfold u64, u32 in *.
  pose proof (lookup_lt_Some _ _ _ Hk). apply wp_no_error. unfold read_table.
  assert (sub p (off + 12 * Z.of_nat k) (off + 12 * Z.of_nat k + 12) = table_wire t) as Hwk.
  { eapply (sub_window p); [exact Hw|unfold zlen; lia..|].
    rewrite <- (sub_wires table_wire 12 zlen_table_wire l k t Hk). f_equal; lia. }
  clear Hw. unfold table_wire in Hwk. unfold zlen in Hl. set (o := off + 12 * Z.of_nat k) in *.
  assert (0 <= o /\ o + 12 <= zlen p) as [? ?] by (unfold zlen; lia). clearbody o.
  rd. rd. apply wp_ok. by destruct t.
Qed.

Lemma collect_read_segments (p : bytes) l off :
  Forall segment_typed l -> 0 <= off -> off + 12 * zlen l <= zlen p ->
  sub p off (off + 12 * zlen l) = wires segment_wire l ->
  collect_step (read_segment p) off 12 (length l) = Ok l.
Proof.
  intros HT Hoff Hl Hw. rewrite collect_step_eq. apply collect_wires. intros k s Hk.
  rewrite Z.add_0_l. rewrite Forall_lookup in HT. destruct (HT k s Hk) as [H1 H2]. unfold u64, u32 in *.
  destruct (read_ref_image p l off k s Hoff Hl Hk Hw) as [Hr Hwk]. apply wp_no_error. unfold read_segment.
  clear Hw. unfold segment_wire in Hwk. rd. rd. apply wp_ok. by destruct s.
Qed.

Lemma collect_read_entries (p : bytes) l off :
  Forall entry_typed l -> Forall (fun e => ReclaimEntry_validate e = Ok tt) l ->
  0 <= off -> off + 20 * zlen l <= zlen p ->
  sub p off (off + 20 * zlen l) = wires entry_wire l ->
  collect_step (read_entry p) off 20 (length l) = Ok l.
Proof.
  intros HT HV Hoff Hl Hw. rewrite collect_step_eq. apply collect_wires. intros k e Hk.
  rewrite Z.add_0_l. rewrite Forall_lookup in HT, HV. pose proof (lookup_lt_Some _ _ _ Hk).
  apply wp_no_error. unfold read_entry, ENTRY_WIRE_SIZE. apply wp_bind.
  eapply wp_slice_eq; [unfold zlen in *; lia|unfold zlen in *; lia| |by rewrite entry_read_wire by eauto].
  eapply (sub_window p); [exact Hw|unfold zlen; lia..|].
  rewrite <- (sub_wires entry_wire 20 zlen_entry_wire l k e Hk). f_equal; lia.
Qed.

Lemma ReclaimRoot_decode_image r bs g :
  ReclaimRoot_typed r g -> inline_valid r -> bs < 2 ^ 32 -> ReclaimRoot_validate r bs = Ok tt ->
  ReclaimRoot_decode (image root_header root_wire r bs g) = Ok (r, g).
Proof.
  intros (H1 & H2 & H3 & H4 & H5 & H6 & Hc & HT & HS & HE & Hg) HV Hbs Hv.
  destruct (root_validate_facts r bs Hc Hv) as [Hfit Hlen].
  pose proof (zlen_root_wire r Hfit) as Hz. destruct (Hc) as (Hci & Hcs & Hct).
  destruct (Hfit) as (Hft & Hfs & Hfi). pose proof (zlen_nonneg (rt_table_refs r)).
  pose proof (zlen_nonneg (rt_segment_refs r)). pose proof (zlen_nonneg (rt_inline_entries r)).
  assert (zlen (image root_header root_wire r bs g) = bs) as Hbl.
  { unfold image. rewrite zlen_sealed, zlen_app, zlen_zeros; unfold caps_len, u16 in *; lia. }
  apply wp_no_error. unfold ReclaimRoot_decode. rewrite Hbl.
  apply wp_open_image_guard; [unfold root_header, caps_len, u64, u16 in *; header_typed|done|by rewrite Hz|lia|done|].
  unfold ReclaimRoot_decode_payload, ROOT_FIXED, REF_WIRE_SIZE, ENTRY_WIRE_SIZE.
  cbn [bh_generation root_header]. unfold u64, u32, u16 in *.
  assert (64 <= zlen (root_wire r)) by (unfold caps_len in *; lia).
  apply wp_if_false; [lia|]. rd. apply wp_if_false; [done|].
  rewrite any_nonzero_false; [apply wp_bind, wp_ok; cbv beta iota|].
  2: { repeat constructor; try lia; wire_read. }
  rd. rd. rd. replace {| rc_inline_entries := _ |} with (rt_caps r) by (by destruct (rt_caps r)).
  rewrite (caps_of_validate r bs Hv), root_payload_len_eq by done.
  apply wp_bind, wp_ok, wp_bind, wp_ok. apply wp_if_false; [lia|]. rd. rd. rd. apply wp_if_false; [lia|].
  replace (Z.to_nat (zlen (rt_table_refs r))) with (length (rt_table_refs r)) by (unfold zlen; lia).
  replace (Z.to_nat (zlen (rt_segment_refs r))) with (length (rt_segment_refs r)) by (unfold zlen; lia).
  replace (Z.to_nat (zlen (rt_inline_entries r))) with (length (rt_inline_entries r)) by (unfold zlen; lia).
  destruct (root_areas r Hfit) as (Ha1 & Hz1 & Ha2 & Hz2 & Ha3 & Hz3). unfold caps_len in Hz, Hlen.
  replace (64 + rc_table_refs (rt_caps r) * 12) with (64 + 12 * rc_table_refs (rt_caps r)) by lia.
  set (te := 64 + 12 * rc_table_refs (rt_caps r)) in *.
  set (se := te + 12 * rc_segment_refs (rt_caps r)) in *.
  replace (64 + (rc_table_refs (rt_caps r) + rc_segment_refs (rt_caps r)) * 12) with se by lia.
  rewrite collect_read_tables by (done || lia). apply wp_bind, wp_ok.
  rewrite collect_read_segments by (done || lia). apply wp_bind, wp_ok.
  rewrite collect_read_entries by (done || lia). apply wp_bind, wp_ok.
  replace (64 + zlen (rt_table_refs r) * 12) with (64 + 12 * zlen (rt_table_refs r)) by lia.
  replace (te + zlen (rt_segment_refs r) * 12) with (te + 12 * zlen (rt_segment_refs r)) by lia.
  replace (te + rc_segment_refs (rt_caps r) * 12) with se by lia.
  replace (se + zlen (rt_inline_entries r) * 20) with (se + 20 * zlen (rt_inline_entries r)) by lia.
  rewrite any_nonzero_false; [apply wp_bind, wp_ok; cbv beta iota|repeat constructor; (done || lia)].
  clear Ha1 Hz1 Ha2 Hz2 Ha3 Hz3. do 6 rd.
  replace {| rt_caps := rt_caps r |} with r by (by destruct r). rewrite Hv. done.
Qed.

Lemma wp_collect_tables (p : bytes) off n (Q : list TableRef -> Prop) :
  0 <= off -> off + 12 * Z.of_nat n <= zlen p ->
  (forall l, length l = n -> Forall table_typed l ->
     sub p off (off + 12 * Z.of_nat n) = wires table_wire l -> Q l) ->
  wp (collect_step (read_table p) off 12 n) Q any_error.
Proof.
  intros Hoff Hl HQ. rewrite collect_step_eq.
  apply (wp_collect table_wire 12 _ table_typed p off); [lia|lia|lia| |].
  - intros j Hj. unfold read_table. rx. rx. apply wp_ok. split; [done|].
    unfold table_wire. cbn [tb_lba tb_ref_count]. rewire.
  - intros l Hlen HF Hs. apply HQ; [done|done|]. rewrite <- Hs. f_equal; lia.
Qed.

Lemma wp_collect_segments (p : bytes) off n (Q : list SegmentRef -> Prop) :
  0 <= off -> off + 12 * Z.of_nat n <= zlen p ->
  (forall l, length l = n -> Forall segment_typed l ->
     sub p off (off + 12 * Z.of_nat n) = wires segment_wire l -> Q l) ->
  wp (collect_step (read_segment p) off 12 n) Q any_error.
Proof.
  intros Hoff Hl HQ. rewrite collect_step_eq.
  apply (wp_collect segment_wire 12 _ segment_typed p off); [lia|lia|lia| |].
  - intros j Hj. unfold read_segment. rx. rx. apply wp_ok. split; [done|].
    unfold segment_wire. cbn [sg_lba sg_entry_count]. rewire.
  - intros l Hlen HF Hs. apply HQ; [done|done|]. rewrite <- Hs. f_equal; lia.
Qed.

Lemma wp_collect_entries (p : bytes) off n (Q : list ReclaimEntry -> Prop) :
  0 <= off -> off + 20 * Z.of_nat n <= zlen p ->
  (forall l, length l = n -> Forall entry_typed l -> Forall (fun e => ReclaimEntry_validate e = Ok tt) l ->
     sub p off (off + 20 * Z.of_nat n) = wires entry_wire l -> Q l) ->
  wp (collect_step (read_entry p) off 20 n) Q any_error.
Proof.
  intros Hoff Hl HQ. rewrite collect_step_eq.
  apply (wp_collect entry_wire 20 _ (fun e => entry_typed e /\ ReclaimEntry_validate e = Ok tt) p off); [lia|lia|lia| |].
  - intros j Hj. unfold read_entry, ENTRY_WIRE_SIZE. apply wp_bind, wp_slice; [lia|lia|].
    apply wp_entry_read; [rewrite zlen_sub; lia|by intros e He Hv Hw|done].
  - intros l Hlen HF Hs. apply Forall_and in HF as [HT HV]. apply HQ; [done|done|done|].
    rewrite <- Hs. f_equal; lia.
Qed.

Lemma ReclaimRoot_decode_inv block :
  wp (ReclaimRoot_decode block)
     (fun '(r, g) => ReclaimRoot_typed r g /\ inline_valid r /\ ReclaimRoot_validate r (zlen block) = Ok tt /\
        block = image root_header root_wire r (zlen block) g) any_error.
Proof.
  unfold ReclaimRoot_decode. apply wp_open_guard; [|done]. intros h p n Ht Hty Hp Hn Hblock.
  unfold admit_envelope. apply wp_bind, wp_if; [done|intros Henv]. apply wp_ok. guards.
  unfold ReclaimRoot_decode_payload, ROOT_FIXED, REF_WIRE_SIZE, ENTRY_WIRE_SIZE.
  rx. rx. rx. apply wp_bind, wp_any_nonzero; [repeat constructor; lia|]. intros bad Hres.
  apply wp_if; [done|intros Hbad]. specialize (Hres Hbad).
  apply Forall_cons in Hres as [Hres1 Hres]. apply Forall_cons in Hres as [Hres2 _].
  change (8 - 4) with 4 in Hres1. change (52 - 50) with 2 in Hres2.
  rx. rx. rx. set (caps := {| rc_inline_entries := _ |}) in *.
  assert (caps_typed caps) as Hc by (split_and!; done).
  apply wp_bind, wp_caps_validate; [done|intros Hlen|done]. rewrite root_payload_len_eq by done.
  apply wp_bind, wp_ok. rx. unfold caps_len in *. cbn [rc_inline_entries rc_segment_refs rc_table_refs caps] in *.
  rx. rx. rx. rx. apply wp_bind, wp_collect_tables; [lia|lia|]. intros tables Htl HT Htw.
  apply wp_bind, wp_collect_segments; [lia|lia|]. intros segments Hsl HS Hsw.
  apply wp_bind, wp_collect_entries; [lia|lia|]. intros entries Hel HE HV Hew.
  apply wp_bind, wp_any_nonzero; [repeat constructor; lia|]. intros bad2 Hun.
  apply wp_if; [done|intros Hbad2]. specialize (Hun Hbad2).
  apply Forall_cons in Hun as [Hun1 Hun]. apply Forall_cons in Hun as [Hun2 Hun].
  apply Forall_cons in Hun as [Hun3 _].
  do 6 rx. set (root := {| rt_pending_blocks := _ |}).
  apply wp_bind, wp_unit; [by apply root_validate_total|intros Hv|done]. apply wp_ok.
  assert (p = root_wire root) as Hw.
  { assert (zlen tables = le_combine (sub p 52 56)) as Hnt by (unfold zlen; lia).
    assert (zlen segments = le_combine (sub p 56 60)) as Hns by (unfold zlen; lia).
    assert (zlen entries = le_combine (sub p 60 64)) as Hni by (unfold zlen; lia).
    pose proof (zlen_wires _ 12 zlen_table_wire tables) as Hzt.
    pose proof (zlen_wires _ 12 zlen_segment_wire segments) as Hzs.
    pose proof (zlen_wires _ 20 zlen_entry_wire entries) as Hze.
    rewrite <- (sub_all p (zlen p)) at 1 by done. unfold root_wire, root, caps.
    cbn [rt_pending_blocks rt_appended_blocks_total rt_reclaimed_blocks_total rt_head_segment_offset
      rt_head_entry_offset rt_head_block_offset rt_caps rt_table_refs rt_segment_refs rt_inline_entries
      rc_inline_entries rc_segment_refs rc_table_refs].
    rewrite Hnt, Hns, Hni.
    match type of Hun1 with _ = zeros ?n => replace n with
      (12 * (le_combine (sub p 48 50) - le_combine (sub p 52 56))) in Hun1 by lia end.
    match type of Hun2 with _ = zeros ?n => replace n with
      (12 * (le_combine (sub p 46 48) - le_combine (sub p 56 60))) in Hun2 by lia end.
    match type of Hun3 with _ = zeros ?n => replace n with
      (20 * (le_combine (sub p 44 46) - le_combine (sub p 60 64))) in Hun3 by lia end.
    apply (sub_cat _ _ _ 0 4); [lia|lia|rewrite <- H3; apply field_leaf; lia|].
    rewire. }
  assert (h = root_header root (bh_generation h)) as Hh.
  { unfold root_header, caps_len. destruct h; cbn in *; congruence. }
  unfold BlockHeader_typed in Ht. split_and!; [|done|done|by eapply image_eq].
  unfold ReclaimRoot_typed. cbn. split_and!; (done || tauto).
Qed.

(** Exact on the roots whose inline runs are valid, which the decoder checks
    and the encoder does not. *)
#[export] Instance ReclaimRoot_exact :
  ExactCodec (fun r g => ReclaimRoot_typed r g /\ inline_valid r) ReclaimRoot_encode ReclaimRoot_decode.
Proof.
  apply (exact_codec _ _ _ root_header root_wire (fun r bs _ => ReclaimRoot_validate r bs = Ok tt)).
  - intros r bs g [Ht _] Hv. assert (caps_typed (rt_caps r)) as Hc by (unfold ReclaimRoot_typed in Ht; tauto).
    destruct (root_validate_facts r bs Hc Hv) as [Hfit Hlen]. by rewrite zlen_root_wire.
  - intros r bs g [Ht _] Hbs. by apply ReclaimRoot_encode_spec.
  - intros r bs g [Ht Hi] Hbs Hv. by apply ReclaimRoot_decode_image.
  - intros block. eapply wp_mono; [apply ReclaimRoot_decode_inv| |done]. intros [r g]. tauto.
Qed.

(** ** Properties *)

(** C37: the reclaim-root codec is exact: a block decodes to a root precisely
    when the root's inline runs are valid and it encodes to that block in that
    size; neither direction panics; and a root that decodes has as many blocks
    pending as were appended and not reclaimed, with its three areas within
    their capacities. *)
Theorem reclaim_root_exact block r g bs :
  zlen block < 2 ^ 32 -> 0 <= bs < 2 ^ 32 ->
  (ReclaimRoot_decode block = Ok (r, g) <->
   (ReclaimRoot_typed r g /\ inline_valid r) /\ ReclaimRoot_encode r (zlen block) g = Ok block) /\
  ReclaimRoot_decode block <> Panic /\
  (ReclaimRoot_typed r g -> ReclaimRoot_encode r bs g <> Panic) /\
  (ReclaimRoot_decode block = Ok (r, g) -> counts_fit r /\
   rt_pending_blocks r = rt_appended_blocks_total r - rt_reclaimed_blocks_total r).
Proof.
  intros Hz Hbs. split_and!.
  - by apply (@decode_exact _ _ _ _ ReclaimRoot_exact).
  - apply decode_total.
  - intros Ht. by eapply wp_not_panic, ReclaimRoot_encode_spec.
  - intros Hd. destruct (wp_of_ok _ _ _ _ (ReclaimRoot_decode_inv block) Hd) as (Ht & _ & Hv & _).
    assert (caps_typed (rt_caps r)) as Hc by (unfold ReclaimRoot_typed in Ht; tauto).
    destruct (wp_of_ok _ _ _ _ (wp_root_validate r _ Hc) Hv) as (? & _ & ?). done.
Qed.

Definition sample_root : ReclaimRoot :=
  {| rt_pending_blocks := 7; rt_appended_blocks_total := 9; rt_reclaimed_blocks_total := 2;
     rt_head_segment_offset := 0; rt_head_entry_offset := 1; rt_head_block_offset := 2;
     rt_caps := {| rc_inline_entries := 2; rc_segment_refs := 2; rc_table_refs := 1 |};
     rt_table_refs := []; rt_segment_refs := [ {| sg_lba := 40; sg_entry_count := 3 |} ];
     rt_inline_entries := [ {| re_start := 50; re_blocks := 4; re_retire_generation := 6 |} ] |}.

Definition sample_root_block : bytes :=
  match ReclaimRoot_encode sample_root 256 9 with Ok b => b | _ => [] end.

Lemma reclaim_root_exact_witness : ReclaimRoot_decode sample_root_block = Ok (sample_root, 9).
Proof.
  apply (reclaim_root_exact sample_root_block sample_root 9 256); [by vm_compute|done|].
  split; [|vm_compute; reflexivity].
  split; [ranges; repeat constructor; by vm_compute|repeat constructor; by vm_compute].
Defined.

(** the codecs of the sealed reclaim blocks are exact: a block decodes to
    a list of runs, or of segment references, precisely when the list encodes
    to it, and neither direction panics. *)
Theorem reclaim_segments_exact block entries refs g bs :
  zlen block < 2 ^ 32 -> 0 <= bs < 2 ^ 32 ->
  (ReclaimSegment_decode block = Ok (entries, g) <->
   ReclaimSegment_typed entries g /\ ReclaimSegment_encode entries (zlen block) g = Ok block) /\
  (ReclaimTable_decode block = Ok (refs, g) <->
   ReclaimTable_typed refs g /\ ReclaimTable_encode refs (zlen block) g = Ok block) /\
  ReclaimSegment_decode block <> Panic /\ ReclaimTable_decode block <> Panic /\
  (ReclaimSegment_typed entries g -> ReclaimSegment_encode entries bs g <> Panic) /\
  (ReclaimTable_typed refs g -> ReclaimTable_encode refs bs g <> Panic).
Proof.
  intros Hz Hbs. split_and!;
    [by apply decode_exact|by apply decode_exact|apply decode_total|apply decode_total|..];
    intros; by apply encode_total.
Qed.

Lemma reclaim_segments_exact_witness :
  exists block, ReclaimSegment_decode block =
    Ok ([ {| re_start := 50; re_blocks := 4; re_retire_generation := 6 |} ], 9).
Proof.
  set (es := [ {| re_start := 50; re_blocks := 4; re_retire_generation := 6 |} ]).
  exists (match ReclaimSegment_encode es 128 9 with Ok b => b | _ => [] end).
  apply (reclaim_segments_exact _ es [] 9 128); [by vm_compute|done|].
  split; [split; [repeat constructor; by vm_compute|by vm_compute]|vm_compute; reflexivity].
Defined.
