(* ===== verification/Chain.v ===== *)
(** * Owned chains (crates/afsplus-format/src/chain.rs, security.rs)

    The blocks of an owned chain: one opaque content cut into linked
    segments, each with its position, the total length and the next block.
    A kind of chain is a block type, a bound and the messages; the security
    descriptor chain is one kind.  The codec is exact for every kind. *)

From S2P Require Import Prelude Crc32c Format Header Codec.

Definition CHAIN_FIXED_PAYLOAD : Z := 24.

Record ChainKind := {
  ck_block_type : Z;
  ck_max_bytes : Z;
  ck_label : string;
  ck_length_out_of_range : string;
  ck_owner_or_format_zero : string;
  ck_position_inconsistent : string;
  ck_link_inconsistent : string;
  ck_length_not_exact : string;
  ck_flags_nonzero : string;
  ck_payload_too_short : string;
  ck_reserved_nonzero : string;
}.

Definition segment_capacity (block_size : Z) : Z :=
  saturating_sub block_size (HEADER_SIZE + CHAIN_FIXED_PAYLOAD).

Definition segment_count (kind : ChainKind) (total_len block_size : Z) : option Z :=
  let capacity := segment_capacity block_size in
  if (total_len =? 0) || (ck_max_bytes kind <? total_len) || (capacity =? 0) then None
  else
    let n := div_ceil total_len capacity in
    if n <? 2 ^ 16 then Some n else None.

Record ChainSegment := {
  cs_object_id : Z;
  cs_format : Z;
  cs_version : Z;
  cs_total_len : Z;
  cs_index : Z;
  cs_count : Z;
  cs_next : Z;
  cs_bytes : bytes;
}.

Definition ChainSegment_validate (s : ChainSegment) (kind : ChainKind) (block_size : Z) : result unit :=
  let capacity := segment_capacity block_size in
  let* count := ok_or (segment_count kind (cs_total_len s) block_size)
                      (Invalid (ck_length_out_of_range kind)) in
  if (cs_object_id s =? OBJECT_INVALID) || (cs_format s =? 0) then
    Err (Invalid (ck_owner_or_format_zero kind)) else
  if negb (cs_count s =? count) || (count <=? cs_index s) then
    Err (Invalid (ck_position_inconsistent kind)) else
  let* following := add_w 16 (cs_index s) 1 in
  let last := following =? count in
  if negb (Bool.eqb last (cs_next s =? 0)) then Err (Invalid (ck_link_inconsistent kind)) else
  let* expected :=
    if last then
      let* before := sub_w count 1 in
      let* full := mul_w 64 capacity before in
      sub_w (cs_total_len s) full
    else Ok capacity in
  if negb (zlen (cs_bytes s) =? expected) then Err (Invalid (ck_length_not_exact kind)) else
  Ok tt.

(** [&mut block[a..b]]: edits of a window of the block. *)
Definition with_window (block : bytes) (a b : Z) (f : bytes -> result bytes) : result bytes :=
  let* p := slice block a b in
  let* p := f p in
  put block a b p.

Definition ChainSegment_encode (s : ChainSegment) (kind : ChainKind) (block_size generation : Z) : result bytes :=
  do* ChainSegment_validate s kind block_size in
  let payload_len := CHAIN_FIXED_PAYLOAD + zlen (cs_bytes s) in
  let* block := with_window (zeros block_size) HEADER_SIZE (HEADER_SIZE + payload_len) (fun p =>
    let* p := put_u32 p 0 4 (cs_format s) in
    let* p := put_u16 p 4 6 (cs_version s) in
    let* p := put_u32 p 8 12 (cs_total_len s) in
    let* p := put_u16 p 12 14 (cs_index s) in
    let* p := put_u16 p 14 16 (cs_count s) in
    let* p := put_u64 p 16 24 (cs_next s) in
    put p CHAIN_FIXED_PAYLOAD (zlen p) (cs_bytes s)) in
  seal {| bh_block_type := ck_block_type kind; bh_flags := 0; bh_owner := cs_object_id s;
          bh_generation := generation; bh_payload_len := as_u32 payload_len |} block.

Definition ChainSegment_decode_payload (kind : ChainKind) (block_len : Z) (header : BlockHeader) (p : bytes) :
    result (ChainSegment * Z) :=
  if negb (bh_flags header =? 0) then Err (Invalid (ck_flags_nonzero kind)) else
  if zlen p <? CHAIN_FIXED_PAYLOAD then Err (Invalid (ck_payload_too_short kind)) else
  let* reserved := get_u16_at p 6 8 in
  if negb (reserved =? 0) then Err (Invalid (ck_reserved_nonzero kind)) else
  let* format := get_u32_at p 0 4 in
  let* version := get_u16_at p 4 6 in
  let* total_len := get_u32_at p 8 12 in
  let* index := get_u16_at p 12 14 in
  let* count := get_u16_at p 14 16 in
  let* next := get_u64_at p 16 24 in
  let* content := slice p CHAIN_FIXED_PAYLOAD (zlen p) in
  let segment :=
    {| cs_object_id := bh_owner header; cs_format := format; cs_version := version;
       cs_total_len := total_len; cs_index := index; cs_count := count; cs_next := next;
       cs_bytes := content |} in
  do* ChainSegment_validate segment kind block_len in
  Ok (segment, bh_generation header).

Definition ChainSegment_decode (kind : ChainKind) (block : bytes) : result (ChainSegment * Z) :=
  let* header := verify block (ck_block_type kind) in
  let* p := payload header block in
  ChainSegment_decode_payload kind (zlen block) header p.

(** ** security.rs *)

Module security.

Definition MAX_SECURITY_DESCRIPTOR_BYTES : Z := 65536.

Definition SECURITY_CHAIN : ChainKind := {|
  ck_block_type := block_type.SECURITY_DESCRIPTOR;
  ck_max_bytes := MAX_SECURITY_DESCRIPTOR_BYTES;
  ck_label := "security";
  ck_length_out_of_range := "security descriptor length out of range";
  ck_owner_or_format_zero := "security segment owner or format is zero";
  ck_position_inconsistent := "security segment position inconsistent";
  ck_link_inconsistent := "security segment chain link inconsistent";
  ck_length_not_exact := "security segment length is not exact";
  ck_flags_nonzero := "security segment header flags are nonzero";
  ck_payload_too_short := "security segment payload too short";
  ck_reserved_nonzero := "security segment reserved field is nonzero";
|}.

Definition security_segment_count (total_len block_size : Z) : option Z :=
  segment_count SECURITY_CHAIN total_len block_size.

(** [SecuritySegment] has the fields of [ChainSegment]. *)
Definition SecuritySegment_encode (s : ChainSegment) (block_size generation : Z) : result bytes :=
  ChainSegment_encode s SECURITY_CHAIN block_size generation.
Definition SecuritySegment_decode (block : bytes) : result (ChainSegment * Z) :=
  ChainSegment_decode SECURITY_CHAIN block.

End security.

(** ** The wire image *)

Definition chain_wire (s : ChainSegment) : bytes :=
  le_split 4 (cs_format s) ++ le_split 2 (cs_version s) ++ zeros 2 ++ le_split 4 (cs_total_len s) ++
  le_split 2 (cs_index s) ++ le_split 2 (cs_count s) ++ le_split 8 (cs_next s) ++ cs_bytes s.

Definition chain_header (kind : ChainKind) (s : ChainSegment) (g : Z) : BlockHeader :=
  {| bh_block_type := ck_block_type kind; bh_flags := 0; bh_owner := cs_object_id s;
     bh_generation := g; bh_payload_len := zlen (chain_wire s) |}.

Definition ChainSegment_typed (s : ChainSegment) (g : Z) : Prop :=
  u64 (cs_object_id s) /\ u32 (cs_format s) /\ u16 (cs_version s) /\ u32 (cs_total_len s) /\
  u16 (cs_index s) /\ u16 (cs_count s) /\ u64 (cs_next s) /\ u64 g.

Definition ChainKind_typed (kind : ChainKind) : Prop := u32 (ck_block_type kind) /\ u32 (ck_max_bytes kind).

#[local] Hint Unfold chain_wire : wire.

Lemma zlen_chain_wire s : zlen (chain_wire s) = 24 + zlen (cs_bytes s).
Proof. unfold chain_wire. autorewrite with zlen. lia. Qed.

(** The segment count is the one number of full segments that holds the
    content with a nonempty last segment. *)
Lemma segment_count_Some kind total bs n :
  0 <= total -> segment_count kind total bs = Some n ->
  0 < total <= ck_max_bytes kind /\ 0 < segment_capacity bs /\ 1 <= n < 2 ^ 16 /\
  (n - 1) * segment_capacity bs < total <= n * segment_capacity bs.
Proof.
  intros Ht. unfold segment_count. intros H. destruct (_ || _) eqn:E; [done|]. guards.
  assert (0 <= segment_capacity bs) by (unfold segment_capacity, saturating_sub; lia).
  destruct (_ <? _) eqn:E2; [|done]. injection H as <-.
  pose proof (div_ceil_bounds total (segment_capacity bs) ltac:(lia) ltac:(lia)).
  pose proof (div_ceil_pos total (segment_capacity bs) ltac:(lia) ltac:(lia)). nia.
Qed.

Lemma segment_capacity_pos bs : 0 < segment_capacity bs -> segment_capacity bs = bs - 56.
Proof. unfold segment_capacity, saturating_sub, HEADER_SIZE, CHAIN_FIXED_PAYLOAD. lia. Qed.

(** What validation decides. *)
Definition segment_ok (s : ChainSegment) (kind : ChainKind) (bs : Z) : Prop :=
  segment_count kind (cs_total_len s) bs = Some (cs_count s) /\
  cs_object_id s <> 0 /\ cs_format s <> 0 /\ cs_index s < cs_count s /\
  (cs_index s + 1 = cs_count s <-> cs_next s = 0) /\
  zlen (cs_bytes s) = Z.min (segment_capacity bs) (cs_total_len s - cs_index s * segment_capacity bs).

Lemma wp_segment_validate s kind bs :
  u32 (cs_total_len s) -> 0 <= cs_index s ->
  wp (ChainSegment_validate s kind bs) (fun _ => segment_ok s kind bs) (fun _ => ~ segment_ok s kind bs).
Proof.
  intros Ht Hi. unfold ChainSegment_validate, segment_ok, u32, OBJECT_INVALID in *.
  apply wp_bind, wp_ok_or; [intros count Hc|intros Hc; rewrite Hc; by intros [? _]].
  destruct (segment_count_Some kind (cs_total_len s) bs count (proj1 Ht) Hc) as (Htot & Hcap & Hn & Hlen). rewrite Hc.
  pose proof (segment_capacity_pos bs Hcap).
  apply wp_if; [intros; apply wp_err; lia|intros ?; guards].
  apply wp_if; [intros Hb; apply wp_err; intros ([= ->] & _ & _ & ? & _); lia|intros ?; guards].
  apply wp_bind, wp_add_w; [lia|].
  apply wp_if; [intros Hb; apply wp_err; intros (_ & _ & _ & _ & ? & _)|intros Hlast].
  { destruct (cs_index s + 1 =? count) eqn:?, (cs_next s =? 0) eqn:?; cbn in Hb; lia. }
  apply negb_false_iff, Bool.eqb_prop in Hlast. apply wp_bind.
  apply (wp_mono _ (fun e => e = Z.min (segment_capacity bs) (cs_total_len s - cs_index s * segment_capacity bs))
    _ no_error); [|intros e ->; cbv beta|done].
  - apply wp_if; intros Hl; [|apply wp_ok; nia].
    apply wp_bind, wp_sub_w; [lia|]. apply wp_bind, wp_mul_w; [nia|]. apply wp_sub_w; nia.
  - apply wp_if; [intros Hb; apply wp_err; intros (_ & _ & _ & _ & _ & ?); lia|intros ?; guards]. apply wp_ok.
    assert (count = cs_count s) as -> by lia. split_and!; try done; lia.
Qed.

Lemma segment_ok_fits s kind bs :
  u32 (cs_total_len s) -> 0 <= cs_index s -> segment_ok s kind bs ->
  1 <= zlen (cs_bytes s) /\ zlen (chain_wire s) <= bs - 32.
Proof.
  intros Ht Hi (Hc & _ & _ & Hlt & _ & Hz).
  destruct (segment_count_Some kind (cs_total_len s) bs _ (proj1 Ht) Hc) as (Htot & Hcap & Hn & Hlen).
  pose proof (segment_capacity_pos bs Hcap). rewrite zlen_chain_wire, Hz. nia.
Qed.

(** The same as [wp_seal_image] for an encoder that edits just the window
    its payload fills. *)
Lemma wp_seal_window {X} (header_of : X -> Z -> BlockHeader) (wire : X -> bytes) x bs g
    (f : bytes -> result bytes) (Q : bytes -> Prop) R :
  bh_payload_len (header_of x g) = zlen (wire x) -> zlen (wire x) <= bs - 32 ->
  wp (f (upto (wire x) 0 (zlen (wire x)))) (fun p => p = wire x /\ Q (image header_of wire x bs g)) R ->
  wp (let* block := with_window (zeros bs) 32 (32 + zlen (wire x)) f in seal (header_of x g) block) Q R.
Proof.
  intros Hp Hl Hf. pose proof (zlen_nonneg (wire x)). unfold with_window.
  assert (zlen (zeros bs) = bs) as Hz by (apply zlen_zeros; lia).
  apply wp_bind, wp_bind, wp_slice; [lia..|]. rewrite sub_zeros by lia. apply wp_bind.
  replace (32 + zlen (wire x) - 32) with (zlen (wire x)) by lia. rewrite (upto_0 (wire x)).
  eapply wp_mono; [apply Hf| |done]. intros p [-> HQ]. cbv beta. apply wp_put; [lia..|].
  unfold blit. rewrite take_sub, sub_zeros, drop_sub, Hz, sub_zeros by lia.
  rewrite Z.sub_0_r. apply wp_seal_body; [rewrite zlen_app, zlen_zeros; lia|].
  unfold image in HQ. by replace (bs - (32 + zlen (wire x))) with (bs - 32 - zlen (wire x)) by lia.
Qed.

Section Codec.
Context (kind : ChainKind) (Hkind : ChainKind_typed kind).
Implicit Types (s : ChainSegment) (bs g : Z).

Lemma ChainSegment_encode_spec s bs g :
  ChainSegment_typed s g -> 0 <= bs < 2 ^ 32 ->
  wp (ChainSegment_encode s kind bs g)
     (fun b => segment_ok s kind bs /\ b = image (chain_header kind) chain_wire s bs g)
     (fun _ => ~ segment_ok s kind bs).
Proof using.
  intros Ht Hbs. unfold ChainSegment_typed in Ht. destruct_and! Ht. unfold ChainSegment_encode.
  apply wp_bind. eapply wp_mono; [apply wp_segment_validate; unfold u16 in *; (done || lia)| |done].
  intros ? Hok. cbv beta in *. destruct (segment_ok_fits s kind bs) as [Hb Hl]; [done|unfold u16 in *; lia|done|].
  pose proof (zlen_chain_wire s) as Hz. unfold CHAIN_FIXED_PAYLOAD, HEADER_SIZE.
  rewrite as_u32_small by lia. rewrite <- Hz.
  apply (wp_seal_window (chain_header kind) chain_wire s bs g); [done|lia|].
  do 6 enc_field. apply (wp_put_upto _ _ _ _ _ 0); rewrite ?zlen_upto by lia; try lia.
  - by rewrite sub_empty.
  - symmetry. wire_read.
  - split; [by apply upto_end|done].
Qed.

Lemma ChainSegment_decode_image s bs g :
  ChainSegment_typed s g -> bs < 2 ^ 32 -> segment_ok s kind bs ->
  ChainSegment_decode kind (image (chain_header kind) chain_wire s bs g) = Ok (s, g).
Proof using Hkind.
  intros Ht Hbs Hok. unfold ChainSegment_typed in Ht. destruct_and! Ht. destruct Hkind as [Hk _].
  destruct (segment_ok_fits s kind bs) as [Hb Hl]; [done|unfold u16 in *; lia|done|].
  pose proof (zlen_chain_wire s) as Hz.
  assert (zlen (image (chain_header kind) chain_wire s bs g) = bs) as Hbl.
  { unfold image. rewrite zlen_sealed, zlen_app, zlen_zeros; lia. }
  apply wp_no_error. unfold ChainSegment_decode. rewrite Hbl.
  apply wp_open_image; [unfold chain_header, u64, u32 in *; header_typed|done|done|lia|].
  unfold ChainSegment_decode_payload, CHAIN_FIXED_PAYLOAD. cbn [bh_flags bh_owner bh_generation chain_header].
  apply wp_if_false; [done|]. apply wp_if_false; [lia|]. unfold u64, u32, u16 in *.
  rd. apply wp_if_false; [done|]. do 7 rd.
  replace {| cs_bytes := _ |} with s by (by destruct s). apply wp_bind.
  pose proof (wp_segment_validate s kind bs ltac:(done) ltac:(lia)) as Hv.
  destruct (ChainSegment_validate s kind bs); simpl in *; [done|tauto|done].
Qed.

Lemma ChainSegment_decode_inv block :
  wp (ChainSegment_decode kind block)
     (fun '(s, g) => ChainSegment_typed s g /\ segment_ok s kind (zlen block) /\
        block = image (chain_header kind) chain_wire s (zlen block) g) any_error.
Proof using.
  apply wp_open; [|done]. intros h p n Ht Hty Hp Hn Hblock.
  unfold ChainSegment_decode_payload, CHAIN_FIXED_PAYLOAD. do 11 rx.
  unfold BlockHeader_typed in Ht. destruct_and! Ht.
  set (s := {| cs_object_id := _ |}). apply wp_bind.
  eapply wp_mono; [apply wp_segment_validate; unfold u32; cbn; (done || lia)| |done].
  intros ? Hok. cbv beta in *. apply wp_ok.
  assert (p = chain_wire s) as Hw.
  { rewrite <- (sub_all p (zlen p)) at 1 by done. unfold chain_wire, s.
    cbn [cs_format cs_version cs_total_len cs_index cs_count cs_next cs_bytes].
    apply (sub_cat _ _ _ 0 4); [lia|lia|wire_leaf|]. apply (sub_cat _ _ _ 4 6); [lia|lia|wire_leaf|].
    apply (sub_cat _ _ _ 6 8); [lia|lia| |rewire].
    change (zeros 2) with (le_split 2 0). rewrite <- H2. apply field_leaf; lia. }
  assert (h = chain_header kind s (bh_generation h)) as Hh.
  { unfold chain_header. rewrite <- Hw. destruct h; cbn in *; congruence. }
  split_and!; [|done|by eapply image_eq]. unfold ChainSegment_typed. cbn. split_and!; done.
Qed.

Lemma ChainSegment_exact :
  ExactCodec ChainSegment_typed (fun s => ChainSegment_encode s kind) (ChainSegment_decode kind).
Proof using Hkind.
  apply (exact_codec _ _ _ (chain_header kind) chain_wire (fun s bs _ => segment_ok s kind bs)).
  - intros s bs g Ht Hok. unfold ChainSegment_typed in Ht. destruct_and! Ht.
    apply (segment_ok_fits s kind bs); [done|unfold u16 in *; lia|done].
  - apply ChainSegment_encode_spec.
  - intros. by apply ChainSegment_decode_image.
  - apply ChainSegment_decode_inv.
Qed.
End Codec.

(** ** Properties *)

(** the segment codec is exact for every kind of chain: a block decodes
    to a segment precisely when the segment encodes to it; neither direction
    panics; and the segments that encode are those at a position of a chain
    of their total length, holding the part of the content at that position. *)
Theorem ChainSegment_codec_exact kind block s g bs :
  ChainKind_typed kind -> zlen block < 2 ^ 32 -> 0 <= bs < 2 ^ 32 ->
  (ChainSegment_decode kind block = Ok (s, g) <->
   ChainSegment_typed s g /\ ChainSegment_encode s kind (zlen block) g = Ok block) /\
  ChainSegment_decode kind block <> Panic /\
  (ChainSegment_typed s g ->
   ChainSegment_encode s kind bs g <> Panic /\
   ((exists b, ChainSegment_encode s kind bs g = Ok b) <-> segment_ok s kind bs)).
Proof.
  intros Hk Hz Hbs. pose proof (ChainSegment_exact kind Hk) as Hex. split_and!.
  - by apply (@decode_exact _ _ _ _ Hex).
  - apply decode_total.
  - intros Ht. pose proof (ChainSegment_encode_spec kind s bs g Ht Hbs) as He.
    destruct (ChainSegment_encode s kind bs g) as [b| |]; simpl in He; [|split; [done|split; [by intros [? ?]|done]]|done].
    destruct He as [Hok _]. split; [done|]. split; [by intros _|by intros _; exists b].
Qed.

Definition sample_segment : ChainSegment :=
  {| cs_object_id := 17; cs_format := 1; cs_version := 0; cs_total_len := 10; cs_index := 1; cs_count := 2;
     cs_next := 0; cs_bytes := [Byte.x41; Byte.x42] |}.

Definition sample_segment_block : bytes :=
  match security.SecuritySegment_encode sample_segment 64 3 with Ok b => b | _ => [] end.

Lemma ChainSegment_codec_exact_witness :
  security.SecuritySegment_decode sample_segment_block = Ok (sample_segment, 3).
Proof.
  apply (ChainSegment_codec_exact security.SECURITY_CHAIN sample_segment_block sample_segment 3 64);
    [by vm_compute|by vm_compute|done|]. split; [ranges|vm_compute; reflexivity].
Defined.
