(* ===== verification/Attrs.v ===== *)
(** * Extended attribute sets (crates/afsplus-format/src/attrs.rs)

    The attribute set of an object as one blob, and its codec: the decoder
    admits exactly the blobs the encoder produces, so a set has one
    representation. *)

From Stdlib Require Import Sorted.
From S2P Require Import Prelude Crc32c Format Header Codec Chain.

Definition MAX_ATTRIBUTE_SET_BYTES : Z := 65536.
Definition ATTRIBUTE_NAME_MAX_BYTES : Z := 255.
Definition ATTRIBUTE_VALUE_MAX_BYTES : Z := 65535.
Definition ATTRIBUTE_SET_FORMAT : Z := 1.
Definition ATTRIBUTE_SET_VERSION : Z := 0.
Definition ATTRIBUTE_NAMESPACES : list bytes :=
  map String.list_byte_of_string ["user."; "system."; "security."; "aros."]%string.
Definition SET_HEADER : Z := 4.
Definition ENTRY_HEADER : Z := 4.

Definition ATTRIBUTE_CHAIN : ChainKind := {|
  ck_block_type := block_type.ATTRIBUTE_SET;
  ck_max_bytes := MAX_ATTRIBUTE_SET_BYTES;
  ck_label := "attribute";
  ck_length_out_of_range := "attribute set length out of range";
  ck_owner_or_format_zero := "attribute segment owner or format is zero";
  ck_position_inconsistent := "attribute segment position inconsistent";
  ck_link_inconsistent := "attribute segment chain link inconsistent";
  ck_length_not_exact := "attribute segment length is not exact";
  ck_flags_nonzero := "attribute segment header flags are nonzero";
  ck_payload_too_short := "attribute segment payload too short";
  ck_reserved_nonzero := "attribute segment reserved field is nonzero";
|}.

Definition attribute_segment_count (total_len block_size : Z) : option Z :=
  segment_count ATTRIBUTE_CHAIN total_len block_size.

Definition starts_with (prefix name : bytes) : bool := bytes_eqb (take (length prefix) name) prefix.

Definition validate_attribute_name (name : bytes) : result unit :=
  if ATTRIBUTE_NAME_MAX_BYTES <? zlen name then Err (Overflow "attribute name") else
  if contains_byte 0 name then Err (Invalid "attribute name contains NUL") else
  if negb (existsb (fun prefix => (zlen prefix <? zlen name) && starts_with prefix name)
             ATTRIBUTE_NAMESPACES) then
    Err (Invalid "attribute name outside a namespace") else
  Ok tt.

(** A set is the list of its names and values, in stored order. *)
Abbreviation attribute := (bytes * bytes)%type.

(** [previous.is_some_and(|previous| previous >= name)]. *)
Definition not_after (previous : option bytes) (name : bytes) : bool :=
  match previous with Some p => negb (bytes_ltb p name) | None => false end.

Definition encode_attribute (st : bytes * option bytes) (e : attribute) : result (bytes * option bytes) :=
  let '(out, previous) := st in
  let '(name, value) := e in
  do* validate_attribute_name name in
  if not_after previous name then Err (Invalid "attribute names are not ascending") else
  if 2 ^ 16 <=? zlen value then Err (Overflow "attribute value") else
  let out := out ++ [byte.of_Z (zlen name)] ++ [Byte.x00] ++ le_split 2 (zlen value) ++ name ++ value in
  if MAX_ATTRIBUTE_SET_BYTES <? zlen out then Err (Overflow "attribute set") else
  Ok (out, Some name).

Definition encode_attribute_set (entries : list attribute) : result bytes :=
  if bool_decide (entries = []) then Err (Invalid "attribute set is empty") else
  if 2 ^ 16 <=? zlen entries then Err (Overflow "attribute count") else
  let out := le_split 2 (zlen entries) ++ [Byte.x00; Byte.x00] in
  let* '(out, _) := ofold encode_attribute (out, None) entries in
  Ok out.

(** [bytes.get(a..b)]. *)
Definition get_range (l : bytes) (a b : Z) : option bytes :=
  if (a <=? b) && (b <=? zlen l) then Some (sub l a b) else None.

Definition truncated : FormatError := Invalid "attribute set length is not exact".

Fixpoint decode_attributes (blob : bytes) (n : nat) (at_ : Z) (entries : list attribute) :
    result (Z * list attribute) :=
  match n with
  | O => Ok (at_, entries)
  | S n =>
      let* header := ok_or (get_range blob at_ (at_ + ENTRY_HEADER)) truncated in
      let* name_len := index header 0 in
      if name_len =? 0 then Err (Invalid "attribute name is empty") else
      let* reserved := index header 1 in
      if negb (reserved =? 0) then Err (Invalid "attribute entry reserved byte is nonzero") else
      let* value_len := get_u16_at header 2 4 in
      let at_ := at_ + ENTRY_HEADER in
      let* name := ok_or (get_range blob at_ (at_ + name_len)) truncated in
      let at_ := at_ + name_len in
      let* value := ok_or (get_range blob at_ (at_ + value_len)) truncated in
      let at_ := at_ + value_len in
      let* name := from_utf8 name in
      do* validate_attribute_name name in
      if not_after (option_map fst (last entries)) name then
        Err (Invalid "attribute names are not ascending") else
      decode_attributes blob n at_ (entries ++ [(name, value)])
  end.

Definition decode_attribute_set (blob : bytes) : result (list attribute) :=
  if MAX_ATTRIBUTE_SET_BYTES <? zlen blob then Err (Overflow "attribute set") else
  if zlen blob <? SET_HEADER then Err (Invalid "attribute set too short") else
  let* count := get_u16_at blob 0 2 in
  if count =? 0 then Err (Invalid "attribute set is empty") else
  let* reserved := get_u16_at blob 2 4 in
  if negb (reserved =? 0) then Err (Invalid "attribute set reserved field is nonzero") else
  let* '(at_, entries) := decode_attributes blob (Z.to_nat count) SET_HEADER [] in
  if negb (at_ =? zlen blob) then Err truncated else
  Ok entries.

(** ** The wire image *)

Definition attribute_wire (e : attribute) : bytes :=
  [byte.of_Z (zlen e.1)] ++ [Byte.x00] ++ le_split 2 (zlen e.2) ++ e.1 ++ e.2.

Definition set_wire (entries : list attribute) : bytes :=
  le_split 2 (zlen entries) ++ zeros 2 ++ wires attribute_wire entries.

Definition set_typed (entries : list attribute) : Prop := Forall (fun e => utf8_valid e.1 = true) entries.

Definition attribute_ok (previous : option bytes) (e : attribute) : Prop :=
  validate_attribute_name e.1 = Ok tt /\ not_after previous e.1 = false /\ zlen e.2 < 2 ^ 16.

Fixpoint attributes_ok (previous : option bytes) (entries : list attribute) : Prop :=
  match entries with
  | [] => True
  | e :: entries => attribute_ok previous e /\ attributes_ok (Some e.1) entries
  end.

Definition set_ok (entries : list attribute) : Prop :=
  entries <> [] /\ zlen entries < 2 ^ 16 /\ attributes_ok None entries /\
  zlen (set_wire entries) <= MAX_ATTRIBUTE_SET_BYTES.

Lemma zlen_attribute_wire e : zlen (attribute_wire e) = 4 + zlen e.1 + zlen e.2.
Proof. unfold attribute_wire. autorewrite with zlen. lia. Qed.

Lemma validate_attribute_name_total name : validate_attribute_name name <> Panic.
Proof. unfold validate_attribute_name. no_panic. Qed.

Lemma attribute_name_len name : validate_attribute_name name = Ok tt -> 1 <= zlen name <= 255.
Proof.
  unfold validate_attribute_name, ATTRIBUTE_NAME_MAX_BYTES. destruct (_ <? _) eqn:E1; [done|].
  destruct (contains_byte 0 name); [done|]. destruct (existsb _ _) eqn:E; [|done]. intros _.
  apply existsb_exists in E as (prefix & _ & [Hl _]%andb_prop). pose proof (zlen_nonneg prefix). lia.
Qed.

(** ** The encoder *)

Lemma wp_encode_attribute out previous e :
  wp (encode_attribute (out, previous) e)
     (fun r => attribute_ok previous e /\ r = (out ++ attribute_wire e, Some e.1) /\
        zlen (out ++ attribute_wire e) <= MAX_ATTRIBUTE_SET_BYTES)
     (fun _ => ~ (attribute_ok previous e /\ zlen (out ++ attribute_wire e) <= MAX_ATTRIBUTE_SET_BYTES)).
Proof.
  destruct e as [name value]. unfold encode_attribute, attribute_ok. cbn [fst snd].
  apply wp_bind, wp_unit; [apply validate_attribute_name_total|intros Hn|intros Hn e; tauto].
  apply wp_if; [intros ->; apply wp_err; by intros [(_ & ? & _) _]|intros Ha].
  apply wp_if; [intros Hv; apply wp_err; intros [(_ & _ & ?) _]; lia|intros Hv].
  change ([byte.of_Z (zlen name)] ++ [Byte.x00] ++ le_split 2 (zlen value) ++ name ++ value)
    with (attribute_wire (name, value)).
  apply wp_if; [intros Hl; apply wp_err; intros [_ ?]; lia|intros Hl].
  apply wp_ok. split_and!; (done || lia).
Qed.

Lemma wp_encode_attributes entries out previous :
  zlen out <= MAX_ATTRIBUTE_SET_BYTES ->
  wp (ofold encode_attribute (out, previous) entries)
     (fun r => attributes_ok previous entries /\ r.1 = out ++ wires attribute_wire entries /\
        zlen (out ++ wires attribute_wire entries) <= MAX_ATTRIBUTE_SET_BYTES)
     (fun _ => ~ (attributes_ok previous entries /\
        zlen (out ++ wires attribute_wire entries) <= MAX_ATTRIBUTE_SET_BYTES)).
Proof.
  revert out previous. induction entries as [|e entries IH]; intros out previous Hout; cbn [ofold attributes_ok].
  - apply wp_ok. cbn. by rewrite app_nil_r.
  - rewrite wires_cons, app_assoc. apply wp_bind. eapply wp_mono; [apply wp_encode_attribute|..].
    + intros r (Hok & -> & Hl). cbv beta. eapply wp_mono; [by apply IH|..]; cbv beta; [|tauto].
      intros r (? & ? & ?). tauto.
    + intros er Hno [[Hok _] Hl]. apply Hno. split; [done|]. rewrite zlen_app in Hl.
      pose proof (zlen_nonneg (wires attribute_wire entries)). lia.
Qed.

Lemma encode_attribute_set_spec entries :
  wp (encode_attribute_set entries)
     (fun v => set_ok entries /\ v = set_wire entries) (fun _ => ~ set_ok entries).
Proof.
  unfold encode_attribute_set, set_ok, set_wire. rewrite app_assoc.
  apply wp_if; [intros ->%bool_decide_eq_true; apply wp_err; by intros [? _]|intros Hne%bool_decide_eq_false].
  apply wp_if; [intros ?; apply wp_err; intros (_ & ? & _); lia|intros ?].
  change [Byte.x00; Byte.x00] with (zeros 2). apply wp_bind.
  eapply wp_mono; [apply wp_encode_attributes|..].
  - unfold MAX_ATTRIBUTE_SET_BYTES. autorewrite with zlen. lia.
  - intros [out p] (? & Hout & ?). cbn in Hout. subst out. apply wp_ok. split_and!; (done || lia).
  - cbv beta. tauto.
Qed.

(** ** The decoder *)

Lemma get_range_sub (l s : bytes) a b :
  0 <= a <= b -> b <= zlen l -> sub l a b = s -> get_range l a b = Some s.
Proof. intros ?? <-. unfold get_range. destruct (_ && _) eqn:E; [done|lia]. Qed.

Lemma get_range_Some (l s : bytes) a b : get_range l a b = Some s -> a <= b <= zlen l /\ s = sub l a b.
Proof. unfold get_range. intros H. destruct (_ && _) eqn:E; [|done]. injection H as <-. split; [lia|done]. Qed.

(** One entry of an image is read back. *)
Lemma decode_attribute_step blob n at_ entries e :
  0 <= at_ -> at_ + zlen (attribute_wire e) <= zlen blob ->
  sub blob at_ (at_ + zlen (attribute_wire e)) = attribute_wire e ->
  utf8_valid e.1 = true -> attribute_ok (option_map fst (last entries)) e ->
  decode_attributes blob (S n) at_ entries =
  decode_attributes blob n (at_ + zlen (attribute_wire e)) (entries ++ [e]).
Proof.
  destruct e as [name value]. intros Hat Hl Hw Hu (Hn & Ha & Hv). cbn [fst snd] in *.
  pose proof (attribute_name_len _ Hn) as Hnl. pose proof (zlen_nonneg value).
  rewrite zlen_attribute_wire in *. unfold attribute_wire in Hw. cbn [fst snd] in *.
  cbn [decode_attributes]. unfold ENTRY_HEADER.
  rewrite (get_range_sub blob ([byte.of_Z (zlen name)] ++ [Byte.x00] ++ le_split 2 (zlen value)));
    [|lia|lia|].
  2: { rewrite (app_assoc [Byte.x00]), (app_assoc [byte.of_Z _]) in Hw. wire_read. }
  cbn [ok_or obind].
  replace (index _ 0) with (@Ok FormatError Z (zlen name)).
  2: { symmetry. apply wp_no_error. rd. done. }
  cbn [obind]. rewrite (proj2 (Z.eqb_neq _ _)) by lia.
  replace (index _ 1) with (@Ok FormatError Z 0).
  2: { symmetry. apply wp_no_error. rd. done. }
  cbn [obind]. cbn [Z.eqb negb].
  replace (get_u16_at _ 2 4) with (@Ok FormatError Z (zlen value)).
  2: { symmetry. apply wp_no_error. rd. done. }
  cbn [obind]. rewrite (get_range_sub blob name) by (lia || wire_read). cbn [ok_or obind].
  rewrite (get_range_sub blob value) by (lia || wire_read). cbn [ok_or obind].
  unfold from_utf8. rewrite Hu. cbn [obind]. rewrite Hn. cbn [obind]. rewrite Ha. f_equal. lia.
Qed.

Lemma decode_attributes_wires blob l at_ entries :
  0 <= at_ -> at_ + zlen (wires attribute_wire l) <= zlen blob ->
  sub blob at_ (at_ + zlen (wires attribute_wire l)) = wires attribute_wire l ->
  set_typed l -> attributes_ok (option_map fst (last entries)) l ->
  decode_attributes blob (length l) at_ entries = Ok (at_ + zlen (wires attribute_wire l), entries ++ l).
Proof.
  revert at_ entries. induction l as [|e l IH]; intros at_ entries Hat Hl Hw Ht Hok.
  - cbn. rewrite zlen_nil. by rewrite Z.add_0_r, app_nil_r.
  - inversion Ht as [|?? Hu Ht']; subst. destruct Hok as [He Hok]. cbn [length].
    rewrite zlen_wires_cons in *. rewrite wires_cons in Hw.
    pose proof (zlen_nonneg (attribute_wire e)). pose proof (zlen_nonneg (wires attribute_wire l)).
    rewrite (decode_attribute_step blob _ at_ entries e); [|done|lia| |done|done].
    2: { eapply (sub_window blob); [exact Hw|lia..|]. apply sub_here; lia. }
    rewrite IH; [|lia|lia| |done|by rewrite last_snoc].
    + by rewrite <- app_assoc, Z.add_assoc.
    + eapply (sub_window blob); [exact Hw|lia..|]. apply sub_skip; [lia|]. apply sub_last; lia.
Qed.

(** The bytes an entry was read from are its image. *)
Lemma attribute_bytes blob at_ nl vl :
  let hdr := sub blob at_ (at_ + 4) in
  0 <= at_ -> at_ + 4 + nl + vl <= zlen blob -> 0 <= nl -> 0 <= vl ->
  nl = byte.unsigned (nth (Z.to_nat 0) hdr Byte.x00) -> byte.unsigned (nth (Z.to_nat 1) hdr Byte.x00) = 0 ->
  vl = le_combine (sub hdr 2 4) ->
  sub blob at_ (at_ + 4 + nl + vl) =
  attribute_wire (sub blob (at_ + 4) (at_ + 4 + nl), sub blob (at_ + 4 + nl) (at_ + 4 + nl + vl)).
Proof.
  intros hdr Hat Hl Hn Hv Hnl Hr Hvl. assert (zlen hdr = 4) as Hz by (unfold hdr; rewrite zlen_sub; lia).
  unfold attribute_wire. cbn [fst snd]. rewrite !zlen_sub by lia.
  replace (at_ + 4 + nl - (at_ + 4)) with nl by lia.
  replace (at_ + 4 + nl + vl - (at_ + 4 + nl)) with vl by lia.
  change Byte.x00 with (byte.of_Z 0). rewrite <- Hr.
  assert (sub blob at_ (at_ + 4) = [byte.of_Z nl] ++
    [byte.of_Z (byte.unsigned (nth (Z.to_nat 1) hdr Byte.x00))] ++ le_split 2 vl) as Hh.
  { fold hdr. rewrite <- (sub_all hdr 4) at 1 by done. rewrite Hnl, Hvl. rewire. }
  rewrite (sub_split blob at_ (at_ + 4)), Hh, <- !app_assoc by lia. do 3 f_equal.
  by apply sub_split; lia.
Qed.

(** On any bytes, what is decoded is an image. *)
Lemma wp_decode_attributes blob n at_ entries :
  0 <= at_ <= zlen blob ->
  wp (decode_attributes blob n at_ entries)
     (fun r => exists l, r.2 = entries ++ l /\ length l = n /\ set_typed l /\
        attributes_ok (option_map fst (last entries)) l /\ at_ <= r.1 <= zlen blob /\
        sub blob at_ r.1 = wires attribute_wire l) any_error.
Proof.
  revert at_ entries. induction n as [|n IH]; intros at_ entries Hat; cbn [decode_attributes].
  - apply wp_ok. exists []. cbn. rewrite app_nil_r, sub_empty. split_and!; (done || constructor || lia).
  - apply wp_bind, wp_ok_or; [intros header [Hh ->]%get_range_Some|done]. unfold ENTRY_HEADER in *.
    assert (zlen (sub blob at_ (at_ + 4)) = 4) as Hz by (rewrite zlen_sub; lia).
    rx. rx. rx. rx. rx. unfold u8 in *.
    set (nl := byte.unsigned (nth (Z.to_nat 0) _ _)) in *. set (vl := le_combine _) in *.
    apply wp_bind, wp_ok_or; [intros name [Hn ->]%get_range_Some|done].
    apply wp_bind, wp_ok_or; [intros value [Hv ->]%get_range_Some|done].
    apply wp_bind, wp_from_utf8; [intros Hu|done].
    apply wp_bind, wp_unit; [apply validate_attribute_name_total|intros Hname|done]. rx.
    pose proof (attribute_bytes blob at_ nl vl ltac:(lia) ltac:(lia) ltac:(lia) ltac:(lia)
      eq_refl ltac:(done) eq_refl) as Hwe.
    set (name := sub blob (at_ + 4) _) in *. set (value := sub blob (at_ + 4 + nl) _) in *.
    assert (zlen value = vl) as Hzv by (unfold value; rewrite zlen_sub; lia).
    eapply wp_mono; [apply IH; lia| |done]. intros [at' es] (l & Hes & Hlen & Ht & Hok & Hge & Hw).
    cbn [fst snd] in *. rewrite last_snoc in Hok. exists ((name, value) :: l). split_and!.
    + by rewrite Hes, <- app_assoc.
    + cbn. by f_equal.
    + by constructor.
    + split; [|done]. split_and!; cbn; (done || lia).
    + lia.
    + lia.
    + rewrite wires_cons, <- Hwe, <- Hw. apply sub_split; lia.
Qed.

#[export] Instance attribute_set_exact : ExactValue set_typed encode_attribute_set decode_attribute_set.
Proof.
  apply (exact_value _ _ _ set_wire set_ok).
  - intros. apply encode_attribute_set_spec.
  - intros l Ht (Hne & Hl & Hok & Hz). apply wp_no_error. unfold decode_attribute_set, SET_HEADER.
    pose proof (zlen_nonneg l). pose proof (zlen_nonneg (wires attribute_wire l)).
    assert (zlen (set_wire l) = 4 + zlen (wires attribute_wire l)) as Hzl by (unfold set_wire; side).
    assert (zlen l <> 0) by (intros Hnil; by apply zlen_zero_nil in Hnil).
    apply wp_if_false; [lia|]. apply wp_if_false; [lia|]. unfold set_wire in *. rd.
    apply wp_if_false; [lia|]. rd. apply wp_if_false; [done|].
    replace (Z.to_nat (zlen l)) with (length l) by (unfold zlen; lia).
    rewrite decode_attributes_wires; [|lia|lia|wire_read|done|done]. apply wp_bind, wp_ok.
    apply wp_if_false; [lia|]. by apply wp_ok.
  - intros v. unfold decode_attribute_set, SET_HEADER. do 6 rx.
    apply wp_bind. eapply wp_mono; [apply wp_decode_attributes; lia| |done].
    intros [at_ es] (l & Hes & Hlen & Ht & Hok & Hge & Hw). cbn [fst snd app] in *. subst es. rx. apply wp_ok.
    assert (zlen l = le_combine (sub v 0 2)) as Hzl by (unfold zlen; lia).
    assert (v = set_wire l) as Hv.
    { rewrite <- (sub_all v (zlen v)) at 1 by done. unfold set_wire. rewrite Hzl.
      apply (sub_cat _ _ _ 0 2); [lia|lia|wire_leaf|]. apply (sub_cat _ _ _ 2 4); [lia|lia| |by subst at_].
      change (zeros 2) with (le_split 2 0). rewrite <- H4. apply field_leaf; lia. }
    split_and!; [done| |done]. unfold set_ok. rewrite <- Hv. split_and!; [|lia|done|lia].
    intros ->. rewrite zlen_nil in Hzl. lia.
Qed.

Definition name_lt (a b : attribute) : Prop := bytes_ltb a.1 b.1 = true.

Lemma attributes_ok_sorted l previous : attributes_ok previous l -> StronglySorted name_lt l.
Proof.
  revert previous. induction l as [|e l IH]; intros previous; cbn; [constructor|].
  intros [_ Hok]. constructor; [by eapply IH|]. clear IH. revert e Hok.
  induction l as [|f l IH]; intros e; [constructor|]. intros [(_ & Hlt & _) Hok].
  apply negb_false_iff in Hlt. constructor; [exact Hlt|].
  eapply Forall_impl; [by apply IH|]. intros x Hx. unfold name_lt in *. by eapply bytes_ltb_trans.
Qed.

(** ** Properties *)

(** the attribute-set codec is exact: a blob decodes to a list of
    attributes precisely when their names are UTF-8 and the list encodes to
    the blob; neither direction panics, on any bytes; and a decoded set has
    its names in strictly ascending order, so no name occurs twice. *)
Theorem attribute_set_codec_exact blob entries :
  (decode_attribute_set blob = Ok entries <-> set_typed entries /\ encode_attribute_set entries = Ok blob) /\
  decode_attribute_set blob <> Panic /\ encode_attribute_set entries <> Panic /\
  (decode_attribute_set blob = Ok entries -> StronglySorted name_lt entries /\ zlen blob <= MAX_ATTRIBUTE_SET_BYTES).
Proof.
  pose proof (encode_attribute_set_spec entries) as Hs. split_and!.
  - apply value_exact.
  - apply value_decode_total.
  - by eapply wp_not_panic.
  - intros Hd. apply value_exact in Hd as [_ He]. rewrite He in Hs. destruct Hs as [(_ & _ & Hok & Hz) ->].
    split; [by eapply attributes_ok_sorted|done].
Qed.
