(* ===== verification/Object.v ===== *)
(** * Object records (crates/afsplus-format/src/object.rs)

    The record of a file, directory or symbolic link: fixed fields, then the
    optional security and attribute references and the comment that its flags
    announce, then the target of a link.  Both codecs are exact, and the
    operations that set an optional field keep a valid record valid. *)

From S2P Require Import Prelude Crc32c Format Header Codec Chain Attrs.

Definition OBJECT_PAYLOAD_LEN : Z := 104.
Definition MAX_EXTENT_BLOCKS : Z := 4096.
Definition OBJECT_FLAG_EXTENT_TREE : Z := Z.shiftl 1 0.
Definition OBJECT_FLAG_DATA_IN_PLACE : Z := Z.shiftl 1 1.
Definition OBJECT_FLAG_SECURITY_REF : Z := Z.shiftl 1 2.
Definition OBJECT_FLAG_COMMENT : Z := Z.shiftl 1 3.
Definition OBJECT_FLAG_ATTRIBUTES : Z := Z.shiftl 1 4.
Definition OBJECT_METADATA_FLAGS : Z :=
  Z.lor (Z.lor OBJECT_FLAG_SECURITY_REF OBJECT_FLAG_COMMENT) OBJECT_FLAG_ATTRIBUTES.
Definition COMMENT_MAX_BYTES : Z := 255.

(** [flags & mask != 0], and [!mask] on a [u16]. *)
Definition has (flags mask : Z) : bool := negb (Z.land flags mask =? 0).
Definition not16 (mask : Z) : Z := Z.lxor mask 0xFFFF.

(** ** Comments *)

Record Comment := { cm_len : Z; cm_bytes : bytes }.

Definition Comment_EMPTY : Comment := {| cm_len := 0; cm_bytes := zeros COMMENT_MAX_BYTES |}.

Definition Comment_new (text : bytes) : result Comment :=
  if COMMENT_MAX_BYTES <? zlen text then Err (Overflow "object comment") else
  if contains_byte 0 text then Err (Invalid "object comment contains NUL") else
  let* content := put (zeros COMMENT_MAX_BYTES) 0 (zlen text) text in
  Ok {| cm_len := zlen text; cm_bytes := content |}.

Definition Comment_as_str (c : Comment) : result bytes :=
  let* text := slice (cm_bytes c) 0 (cm_len c) in
  if utf8_valid text then Ok text else Ok [].

Definition Comment_is_empty (c : Comment) : bool := cm_len c =? 0.
Definition Comment_wire_len (c : Comment) : Z := if Comment_is_empty c then 0 else 1 + cm_len c.

(** ** References *)

Definition SECURITY_REF_PROJECTION_DIVERGED : Z := Z.shiftl 1 0.
Definition SECURITY_REF_LEN : Z := 16.
Definition ATTRIBUTE_REF_LEN : Z := 16.

Record SecurityRef := { sx_first_block : Z; sx_total_len : Z; sx_segment_count : Z; sx_flags : Z }.

Definition SecurityRef_validate (s : SecurityRef) (block_size : Z) : result unit :=
  if (sx_first_block s =? 0) || has (sx_flags s) (not16 SECURITY_REF_PROJECTION_DIVERGED) ||
     negb (bool_decide (security.security_segment_count (sx_total_len s) block_size = Some (sx_segment_count s))) then
    Err (Invalid "invalid security reference") else Ok tt.

Record AttributeRef := { ar_first_block : Z; ar_total_len : Z; ar_segment_count : Z }.

Definition AttributeRef_validate (a : AttributeRef) (block_size : Z) : result unit :=
  if (ar_first_block a =? 0) ||
     negb (bool_decide (attribute_segment_count (ar_total_len a) block_size = Some (ar_segment_count a))) then
    Err (Invalid "invalid attribute reference") else Ok tt.

(** ** The record *)

Inductive ObjectType : Type := File | Directory | Symlink | Internal.

Definition ObjectType_to_wire (t : ObjectType) : Z :=
  match t with File => 1 | Directory => 2 | Symlink => 3 | Internal => 4 end.

Definition ObjectType_from_wire (v : Z) : result ObjectType :=
  if v =? 1 then Ok File else if v =? 2 then Ok Directory else
  if v =? 3 then Ok Symlink else if v =? 4 then Ok Internal else
  Err (Invalid "unknown object type").

#[global] Instance ObjectType_eq_dec : EqDecision ObjectType.
Proof. solve_decision. Defined.

Record ObjectRecord := {
  ob_object_id : Z;
  ob_object_type : ObjectType;
  ob_flags : Z;
  ob_link_count : Z;
  ob_size_bytes : Z;
  ob_allocated_bytes : Z;
  ob_created : Timespec;
  ob_modified : Timespec;
  ob_changed : Timespec;
  ob_protection : Z;
  ob_owner_uid : Z;
  ob_owner_gid : Z;
  ob_content_generation : Z;
  ob_data_root : Z;
  ob_data_blocks : Z;
  ob_security : option SecurityRef;
  ob_attributes : option AttributeRef;
  ob_comment : Comment;
}.

Definition is_some {A} (o : option A) : bool := match o with Some _ => true | None => false end.

Definition security_end (r : ObjectRecord) : Z :=
  if is_some (ob_security r) then OBJECT_PAYLOAD_LEN + SECURITY_REF_LEN else OBJECT_PAYLOAD_LEN.
Definition attributes_end (r : ObjectRecord) : Z :=
  if is_some (ob_attributes r) then security_end r + ATTRIBUTE_REF_LEN else security_end r.
Definition fixed_payload_len (r : ObjectRecord) : Z := attributes_end r + Comment_wire_len (ob_comment r).

Definition set_metadata (r : ObjectRecord) (flags : Z) (s : option SecurityRef) (a : option AttributeRef)
    (c : Comment) : ObjectRecord :=
  {| ob_object_id := ob_object_id r; ob_object_type := ob_object_type r; ob_flags := flags;
     ob_link_count := ob_link_count r; ob_size_bytes := ob_size_bytes r;
     ob_allocated_bytes := ob_allocated_bytes r; ob_created := ob_created r; ob_modified := ob_modified r;
     ob_changed := ob_changed r; ob_protection := ob_protection r; ob_owner_uid := ob_owner_uid r;
     ob_owner_gid := ob_owner_gid r; ob_content_generation := ob_content_generation r;
     ob_data_root := ob_data_root r; ob_data_blocks := ob_data_blocks r;
     ob_security := s; ob_attributes := a; ob_comment := c |}.

(** [self.flags |= flag] or [self.flags &= !flag]. *)
Definition set_flag (flags flag : Z) (on : bool) : Z :=
  if on then Z.lor flags flag else Z.land flags (not16 flag).

Definition with_comment (r : ObjectRecord) (c : Comment) : ObjectRecord :=
  set_metadata r (set_flag (ob_flags r) OBJECT_FLAG_COMMENT (negb (Comment_is_empty c)))
    (ob_security r) (ob_attributes r) c.
Definition with_attributes (r : ObjectRecord) (a : option AttributeRef) : ObjectRecord :=
  set_metadata r (set_flag (ob_flags r) OBJECT_FLAG_ATTRIBUTES (is_some a)) (ob_security r) a (ob_comment r).
Definition with_security (r : ObjectRecord) (s : option SecurityRef) : ObjectRecord :=
  set_metadata r (set_flag (ob_flags r) OBJECT_FLAG_SECURITY_REF (is_some s)) s (ob_attributes r) (ob_comment r).

(** ** Validation *)

Definition KNOWN_OBJECT_FLAGS : Z :=
  Z.lor (Z.lor (Z.lor (Z.lor OBJECT_FLAG_EXTENT_TREE OBJECT_FLAG_DATA_IN_PLACE) OBJECT_FLAG_SECURITY_REF)
    OBJECT_FLAG_COMMENT) OBJECT_FLAG_ATTRIBUTES.

Definition validate_common (r : ObjectRecord) (block_size : Z) : result unit :=
  do* Timespec_validate (ob_created r) in
  do* Timespec_validate (ob_modified r) in
  do* Timespec_validate (ob_changed r) in
  if ob_object_id r =? OBJECT_INVALID then Err (Invalid "object ID zero is invalid") else
  if ob_link_count r =? 0 then Err (Invalid "link count zero without orphan support") else
  if has (ob_flags r) (not16 KNOWN_OBJECT_FLAGS) then Err (Invalid "object has unsupported flags") else
  if negb (Bool.eqb (has (ob_flags r) OBJECT_FLAG_SECURITY_REF) (is_some (ob_security r))) then
    Err (Invalid "security reference flag and field disagree") else
  do* match ob_security r with Some s => SecurityRef_validate s block_size | None => Ok tt end in
  if negb (Bool.eqb (has (ob_flags r) OBJECT_FLAG_ATTRIBUTES) (is_some (ob_attributes r))) then
    Err (Invalid "attribute reference flag and field disagree") else
  do* match ob_attributes r with Some a => AttributeRef_validate a block_size | None => Ok tt end in
  if Bool.eqb (has (ob_flags r) OBJECT_FLAG_COMMENT) (Comment_is_empty (ob_comment r)) then
    Err (Invalid "comment flag and field disagree") else
  Ok tt.

Definition validate_directory (r : ObjectRecord) : result unit :=
  if has (ob_flags r) (not16 OBJECT_METADATA_FLAGS) then Err (Invalid "directory has file extent flags") else
  if ob_data_root r =? 0 then Err (Invalid "directory must reference a directory block") else
  if negb (ob_size_bytes r =? 0) || negb (ob_data_blocks r =? 0) then
    Err (Invalid "directory size fields must be zero") else
  Ok tt.

Definition validate_file (r : ObjectRecord) (block_size : Z) : result unit :=
  let* expected_allocated :=
    ok_or (checked_mul 64 (ob_data_blocks r) block_size) (Overflow "allocated byte count") in
  if negb (ob_allocated_bytes r =? expected_allocated) then
    Err (Invalid "allocated bytes do not match data block count") else
  if has (ob_flags r) OBJECT_FLAG_EXTENT_TREE then
    if ob_data_root r =? 0 then Err (Invalid "extent-tree file has no tree root") else Ok tt
  else if MAX_EXTENT_BLOCKS <? ob_data_blocks r then Err (Invalid "file extent exceeds prototype cap")
  else if ob_data_blocks r =? 0 then
    if negb (ob_data_root r =? 0) || negb (ob_size_bytes r =? 0) then
      Err (Invalid "empty file with data references") else Ok tt
  else
    let* _ := ok_or (checked_add 64 (ob_data_root r) (ob_data_blocks r))
                    (Overflow "file extent end overflows block address") in
    let* capacity := mul_w 64 (ob_data_blocks r) block_size in
    let* before := sub_w (ob_data_blocks r) 1 in
    let* minimum := mul_w 64 before block_size in
    if (ob_data_root r =? 0) || (capacity <? ob_size_bytes r) || (ob_size_bytes r <=? minimum) then
      Err (Invalid "file size inconsistent with extent") else
    Ok tt.

Definition ObjectRecord_validate (r : ObjectRecord) (block_size : Z) : result unit :=
  do* validate_common r block_size in
  match ob_object_type r with
  | Directory => validate_directory r
  | File => validate_file r block_size
  | Symlink | Internal => Err (Invalid "object type not implemented in prototype")
  end.

(** ** Encoding *)

Definition write_security (p : bytes) (at_ : Z) (s : SecurityRef) : result bytes :=
  let* p := put_u64 p at_ (at_ + 8) (sx_first_block s) in
  let* p := put_u32 p (at_ + 8) (at_ + 12) (sx_total_len s) in
  let* p := put_u16 p (at_ + 12) (at_ + 14) (sx_segment_count s) in
  put_u16 p (at_ + 14) (at_ + 16) (sx_flags s).

Definition write_attributes (p : bytes) (at_ : Z) (a : AttributeRef) : result bytes :=
  let* p := put_u64 p at_ (at_ + 8) (ar_first_block a) in
  let* p := put_u32 p (at_ + 8) (at_ + 12) (ar_total_len a) in
  put_u16 p (at_ + 12) (at_ + 14) (ar_segment_count a).

Definition write_comment (p : bytes) (at_ : Z) (c : Comment) : result bytes :=
  let* p := put_u8 p at_ (cm_len c) in
  let* text := slice (cm_bytes c) 0 (cm_len c) in
  put p (at_ + 1) (at_ + 1 + cm_len c) text.

Definition write_fields (r : ObjectRecord) (p : bytes) : result bytes :=
  let* p := put_u64 p 0 8 (ob_object_id r) in
  let* p := put_u8 p 8 (ObjectType_to_wire (ob_object_type r)) in
  let* p := put_u16 p 10 12 (ob_flags r) in
  let* p := put_u32 p 12 16 (ob_link_count r) in
  let* p := put_u64 p 16 24 (ob_size_bytes r) in
  let* p := put_u64 p 24 32 (ob_allocated_bytes r) in
  let* p := Timespec_write (ob_created r) p 32 44 in
  let* p := Timespec_write (ob_modified r) p 44 56 in
  let* p := Timespec_write (ob_changed r) p 56 68 in
  let* p := put_u32 p 68 72 (ob_protection r) in
  let* p := put_u64 p 72 80 (ob_content_generation r) in
  let* p := put_u64 p 80 88 (ob_data_root r) in
  let* p := put_u64 p 88 96 (ob_data_blocks r) in
  let* p := put_u32 p 96 100 (ob_owner_uid r) in
  let* p := put_u32 p 100 104 (ob_owner_gid r) in
  let* p := match ob_security r with Some s => write_security p OBJECT_PAYLOAD_LEN s | None => Ok p end in
  let* p := match ob_attributes r with Some a => write_attributes p (security_end r) a | None => Ok p end in
  if negb (Comment_is_empty (ob_comment r)) then write_comment p (attributes_end r) (ob_comment r) else Ok p.

Definition seal_record (r : ObjectRecord) (block : bytes) (generation payload_len : Z) : result bytes :=
  seal {| bh_block_type := block_type.OBJECT; bh_flags := 0; bh_owner := ob_object_id r;
          bh_generation := generation; bh_payload_len := as_u32 payload_len |} block.

Definition ObjectRecord_encode (r : ObjectRecord) (block_size transaction_generation : Z) : result bytes :=
  let minimum := HEADER_SIZE + fixed_payload_len r in
  if block_size <? minimum then Err (WrongBufferSize minimum block_size) else
  do* ObjectRecord_validate r block_size in
  let* block := with_payload (zeros block_size) (write_fields r) in
  seal_record r block transaction_generation (fixed_payload_len r).

(** ** Decoding *)

Definition read_security (p : bytes) (at_ : Z) : result SecurityRef :=
  let* first_block := get_u64_at p at_ (at_ + 8) in
  let* total_len := get_u32_at p (at_ + 8) (at_ + 12) in
  let* segment_count := get_u16_at p (at_ + 12) (at_ + 14) in
  let* flags := get_u16_at p (at_ + 14) (at_ + 16) in
  Ok {| sx_first_block := first_block; sx_total_len := total_len; sx_segment_count := segment_count;
        sx_flags := flags |}.

Definition read_attributes (p : bytes) (at_ : Z) : result AttributeRef :=
  let* reserved := get_u16_at p (at_ + 14) (at_ + 16) in
  if negb (reserved =? 0) then Err (Invalid "attribute reference reserved field is nonzero") else
  let* first_block := get_u64_at p at_ (at_ + 8) in
  let* total_len := get_u32_at p (at_ + 8) (at_ + 12) in
  let* segment_count := get_u16_at p (at_ + 12) (at_ + 14) in
  Ok {| ar_first_block := first_block; ar_total_len := total_len; ar_segment_count := segment_count |}.

Definition not_exact : FormatError := Invalid "object payload length is not exact".

(** [p.get(i)]. *)
Definition get_byte (p : bytes) (i : Z) : option Z :=
  if (0 <=? i) && (i <? zlen p) then Some (byte.unsigned (nth (Z.to_nat i) p Byte.x00)) else None.

Definition read_comment (p : bytes) (at_ : Z) : result Comment :=
  let* length := ok_or (get_byte p at_) not_exact in
  let* text := ok_or (get_range p (at_ + 1) (at_ + 1 + length)) not_exact in
  if length =? 0 then Err (Invalid "object comment flag without comment") else
  let* text := from_utf8 text in
  Comment_new text.

Definition read_time (p : bytes) (a b : Z) : result Timespec := let* s := slice p a b in Timespec_read s.

Definition decode_fields_payload (header : BlockHeader) (p : bytes) : result (ObjectRecord * BlockHeader) :=
  if zlen p <? OBJECT_PAYLOAD_LEN then Err (Invalid "object record payload too short") else
  if negb (bh_flags header =? 0) then Err (Invalid "object header flags are nonzero") else
  let* reserved := index p 9 in
  if negb (reserved =? 0) then Err (Invalid "object reserved byte is nonzero") else
  let* flags := get_u16_at p 10 12 in
  let security_end :=
    if has flags OBJECT_FLAG_SECURITY_REF then OBJECT_PAYLOAD_LEN + SECURITY_REF_LEN else OBJECT_PAYLOAD_LEN in
  let attributes_end :=
    if has flags OBJECT_FLAG_ATTRIBUTES then security_end + ATTRIBUTE_REF_LEN else security_end in
  if zlen p <? attributes_end then Err not_exact else
  let* attributes :=
    if negb (attributes_end =? security_end) then
      let* a := read_attributes p security_end in Ok (Some a) else Ok None in
  let* comment := if has flags OBJECT_FLAG_COMMENT then read_comment p attributes_end else Ok Comment_EMPTY in
  let fixed := attributes_end + Comment_wire_len comment in
  let* type_byte := index p 8 in
  let is_symlink := type_byte =? ObjectType_to_wire Symlink in
  if negb is_symlink && negb (zlen p =? fixed) then Err not_exact else
  let* object_id := get_u64_at p 0 8 in
  let* object_type := ObjectType_from_wire type_byte in
  let* link_count := get_u32_at p 12 16 in
  let* size_bytes := get_u64_at p 16 24 in
  let* allocated_bytes := get_u64_at p 24 32 in
  let* created := read_time p 32 44 in
  let* modified := read_time p 44 56 in
  let* changed := read_time p 56 68 in
  let* protection := get_u32_at p 68 72 in
  let* content_generation := get_u64_at p 72 80 in
  let* data_root := get_u64_at p 80 88 in
  let* data_blocks := get_u64_at p 88 96 in
  let* owner_uid := get_u32_at p 96 100 in
  let* owner_gid := get_u32_at p 100 104 in
  let* security :=
    if negb (security_end =? OBJECT_PAYLOAD_LEN) then
      let* s := read_security p OBJECT_PAYLOAD_LEN in Ok (Some s) else Ok None in
  let record :=
    {| ob_object_id := object_id; ob_object_type := object_type; ob_flags := flags;
       ob_link_count := link_count; ob_size_bytes := size_bytes; ob_allocated_bytes := allocated_bytes;
       ob_created := created; ob_modified := modified; ob_changed := changed; ob_protection := protection;
       ob_owner_uid := owner_uid; ob_owner_gid := owner_gid; ob_content_generation := content_generation;
       ob_data_root := data_root; ob_data_blocks := data_blocks; ob_security := security;
       ob_attributes := attributes; ob_comment := comment |} in
  if negb (object_id =? bh_owner header) then Err (Invalid "object ID does not match block owner") else
  Ok (record, header).

Definition decode_fields (block : bytes) : result (ObjectRecord * BlockHeader) :=
  let* header := verify block block_type.OBJECT in
  let* p := payload header block in
  decode_fields_payload header p.

Definition decode_with_generation (block : bytes) : result (ObjectRecord * Z) :=
  let* '(record, header) := decode_fields block in
  do* ObjectRecord_validate record (zlen block) in
  Ok (record, bh_generation header).

Definition ObjectRecord_decode (block : bytes) : result ObjectRecord :=
  let* '(record, _) := decode_with_generation block in Ok record.

(** ** Symbolic links *)

Record SymlinkRecord := { sl_record : ObjectRecord; sl_target : bytes }.

Definition maximum_target_bytes (block_size : Z) : Z :=
  saturating_sub block_size (HEADER_SIZE + OBJECT_PAYLOAD_LEN).

Definition SymlinkRecord_validate (s : SymlinkRecord) (block_size : Z) : result unit :=
  let record := sl_record s in
  do* validate_common record block_size in
  let fixed := fixed_payload_len record in
  if negb (bool_decide (ob_object_type record = Symlink)) || has (ob_flags record) (not16 OBJECT_METADATA_FLAGS) ||
     negb (ob_data_root record =? 0) || negb (ob_data_blocks record =? 0) ||
     negb (ob_allocated_bytes record =? 0) || negb (ob_size_bytes record =? zlen (sl_target s)) ||
     (zlen (sl_target s) =? 0) || contains_byte 0 (sl_target s) ||
     (saturating_sub block_size (HEADER_SIZE + fixed) <? zlen (sl_target s)) ||
     (2 ^ 32 - 1 - fixed <? zlen (sl_target s)) then
    Err (Invalid "invalid inline symlink record") else
  Ok tt.

Definition SymlinkRecord_encode (s : SymlinkRecord) (block_size generation : Z) : result bytes :=
  do* SymlinkRecord_validate s block_size in
  let fixed := fixed_payload_len (sl_record s) in
  let payload_len := fixed + zlen (sl_target s) in
  let* block := with_payload (zeros block_size) (write_fields (sl_record s)) in
  let* block := put block (HEADER_SIZE + fixed) (HEADER_SIZE + payload_len) (sl_target s) in
  seal_record (sl_record s) block generation payload_len.

Definition from_verified_fields (block : bytes) (record : ObjectRecord) (header : BlockHeader) :
    result SymlinkRecord :=
  let* p := payload header block in
  let* reserved := if negb (bh_flags header =? 0) then Ok true else
    let* b := index p 9 in Ok (negb (b =? 0)) in
  if (reserved : bool) then Err (Invalid "symlink reserved fields are nonzero") else
  let* rest := slice p (fixed_payload_len record) (zlen p) in
  if negb (utf8_valid rest) then Err (Invalid "symlink target is not UTF-8") else
  let result := {| sl_record := record; sl_target := rest |} in
  do* SymlinkRecord_validate result (zlen block) in
  Ok result.

Definition SymlinkRecord_decode (block : bytes) : result (SymlinkRecord * Z) :=
  let* '(record, header) := decode_fields block in
  let* link := from_verified_fields block record header in
  Ok (link, bh_generation header).

Definition decode_metadata_with_generation (block : bytes) : result (ObjectRecord * Z) :=
  let* '(record, header) := decode_fields block in
  if bool_decide (ob_object_type record = Symlink) then
    let* link := from_verified_fields block record header in
    Ok (sl_record link, bh_generation header)
  else
    do* ObjectRecord_validate record (zlen block) in
    Ok (record, bh_generation header).

(** ** The wire image *)

Definition time_wire (t : Timespec) : bytes := le_split 8 (seconds t) ++ le_split 4 (nanoseconds t).

Definition base_wire (r : ObjectRecord) : bytes :=
  le_split 8 (ob_object_id r) ++ [byte.of_Z (ObjectType_to_wire (ob_object_type r))] ++ zeros 1 ++
  le_split 2 (ob_flags r) ++ le_split 4 (ob_link_count r) ++ le_split 8 (ob_size_bytes r) ++
  le_split 8 (ob_allocated_bytes r) ++ time_wire (ob_created r) ++ time_wire (ob_modified r) ++
  time_wire (ob_changed r) ++ le_split 4 (ob_protection r) ++ le_split 8 (ob_content_generation r) ++
  le_split 8 (ob_data_root r) ++ le_split 8 (ob_data_blocks r) ++ le_split 4 (ob_owner_uid r) ++
  le_split 4 (ob_owner_gid r).

Definition security_wire (s : SecurityRef) : bytes :=
  le_split 8 (sx_first_block s) ++ le_split 4 (sx_total_len s) ++ le_split 2 (sx_segment_count s) ++
  le_split 2 (sx_flags s).
Definition attributes_wire (a : AttributeRef) : bytes :=
  le_split 8 (ar_first_block a) ++ le_split 4 (ar_total_len a) ++ le_split 2 (ar_segment_count a) ++ zeros 2.
Definition comment_wire (c : Comment) : bytes :=
  if Comment_is_empty c then [] else [byte.of_Z (cm_len c)] ++ sub (cm_bytes c) 0 (cm_len c).
Definition opt_wire {A} (w : A -> bytes) (o : option A) : bytes :=
  match o with Some a => w a | None => [] end.

Definition fields_wire (r : ObjectRecord) : bytes :=
  base_wire r ++ opt_wire security_wire (ob_security r) ++ opt_wire attributes_wire (ob_attributes r) ++
  comment_wire (ob_comment r).

(** A comment is what [Comment::new] makes of a string. *)
Definition Comment_typed (c : Comment) : Prop :=
  exists text, utf8_valid text = true /\ Comment_new text = Ok c.

Definition SecurityRef_typed (s : SecurityRef) : Prop :=
  u64 (sx_first_block s) /\ u32 (sx_total_len s) /\ u16 (sx_segment_count s) /\ u16 (sx_flags s).
Definition AttributeRef_typed (a : AttributeRef) : Prop :=
  u64 (ar_first_block a) /\ u32 (ar_total_len a) /\ u16 (ar_segment_count a).
Definition opt_typed {A} (P : A -> Prop) (o : option A) : Prop :=
  match o with Some a => P a | None => True end.

Definition ObjectRecord_typed (r : ObjectRecord) : Prop :=
  u64 (ob_object_id r) /\ u16 (ob_flags r) /\ u32 (ob_link_count r) /\ u64 (ob_size_bytes r) /\
  u64 (ob_allocated_bytes r) /\ Timespec_typed (ob_created r) /\ Timespec_typed (ob_modified r) /\
  Timespec_typed (ob_changed r) /\ u32 (ob_protection r) /\ u32 (ob_owner_uid r) /\ u32 (ob_owner_gid r) /\
  u64 (ob_content_generation r) /\ u64 (ob_data_root r) /\ u64 (ob_data_blocks r) /\
  opt_typed SecurityRef_typed (ob_security r) /\ opt_typed AttributeRef_typed (ob_attributes r) /\
  Comment_typed (ob_comment r).

(** The parts of a valid record that its layout depends on. *)
Definition times_valid (r : ObjectRecord) : Prop :=
  Timespec_validate (ob_created r) = Ok tt /\ Timespec_validate (ob_modified r) = Ok tt /\
  Timespec_validate (ob_changed r) = Ok tt.
Definition congruent (r : ObjectRecord) : Prop :=
  has (ob_flags r) OBJECT_FLAG_SECURITY_REF = is_some (ob_security r) /\
  has (ob_flags r) OBJECT_FLAG_ATTRIBUTES = is_some (ob_attributes r) /\
  has (ob_flags r) OBJECT_FLAG_COMMENT = negb (Comment_is_empty (ob_comment r)).

Lemma zlen_time_wire t : zlen (time_wire t) = 12.
Proof. unfold time_wire. side. Qed.
Lemma zlen_security_wire s : zlen (security_wire s) = 16.
Proof. unfold security_wire. side. Qed.
Lemma zlen_attributes_wire a : zlen (attributes_wire a) = 16.
Proof. unfold attributes_wire. side. Qed.
#[local] Hint Rewrite zlen_time_wire zlen_security_wire zlen_attributes_wire : zlen.
Lemma zlen_base_wire r : zlen (base_wire r) = 104.
Proof. unfold base_wire. side. Qed.
#[local] Hint Rewrite zlen_base_wire : zlen.

(** *** Comments *)

Lemma Comment_new_spec text :
  wp (Comment_new text)
     (fun c => cm_len c = zlen text /\ zlen text <= 255 /\ contains_byte 0 text = false /\
        cm_bytes c = text ++ zeros (255 - zlen text)) any_error.
Proof.
  unfold Comment_new, COMMENT_MAX_BYTES. pose proof (zlen_nonneg text). rx. rx.
  apply wp_bind, wp_put; [lia|rewrite zlen_zeros; lia|lia|]. apply wp_ok. cbn. split_and!; [lia|lia|done|].
  unfold blit. rewrite take_sub, sub_empty, drop_sub by lia. rewrite zlen_zeros, sub_zeros by lia. done.
Qed.

Lemma Comment_facts c :
  Comment_typed c ->
  0 <= cm_len c <= 255 /\ zlen (cm_bytes c) = 255 /\
  utf8_valid (sub (cm_bytes c) 0 (cm_len c)) = true /\ Comment_new (sub (cm_bytes c) 0 (cm_len c)) = Ok c.
Proof.
  intros (text & Hu & Hn). pose proof (zlen_nonneg text).
  destruct (wp_of_ok _ _ _ _ (Comment_new_spec text) Hn) as (Hl & Hle & _ & Hb).
  assert (sub (cm_bytes c) 0 (cm_len c) = text) as ->.
  { rewrite Hl, Hb, sub_app_l by lia. by apply sub_all. }
  split_and!; [lia|lia| |done|done]. rewrite Hb, zlen_app, zlen_zeros; lia.
Qed.

Lemma Comment_empty_typed : Comment_typed Comment_EMPTY.
Proof. by exists []. Qed.

Lemma Comment_empty_eq c : Comment_typed c -> Comment_is_empty c = true -> c = Comment_EMPTY.
Proof.
  intros (text & Hu & Hn) He%Z.eqb_eq.
  destruct (wp_of_ok _ _ _ _ (Comment_new_spec text) Hn) as (Hl & Hle & _ & Hb).
  assert (text = []) as -> by (apply zlen_zero_nil; lia). destruct c. cbn in *. by subst.
Qed.

Lemma zlen_comment_wire c : Comment_typed c -> zlen (comment_wire c) = Comment_wire_len c.
Proof.
  intros (Hl & Hz & _)%Comment_facts. unfold comment_wire, Comment_wire_len.
  destruct (Comment_is_empty c); [done|]. rewrite zlen_app, zlen_sub by lia. rewrite zlen_one. lia.
Qed.

Lemma zlen_opt_security o : zlen (opt_wire security_wire o) = if is_some o then 16 else 0.
Proof. destruct o; cbn; [by rewrite zlen_security_wire|done]. Qed.
Lemma zlen_opt_attributes o : zlen (opt_wire attributes_wire o) = if is_some o then 16 else 0.
Proof. destruct o; cbn; [by rewrite zlen_attributes_wire|done]. Qed.

Lemma zlen_fields_wire r : Comment_typed (ob_comment r) -> zlen (fields_wire r) = fixed_payload_len r.
Proof.
  intros Hc. unfold fields_wire, fixed_payload_len, attributes_end, security_end, OBJECT_PAYLOAD_LEN,
    SECURITY_REF_LEN, ATTRIBUTE_REF_LEN.
  rewrite !zlen_app, zlen_base_wire, zlen_opt_security, zlen_opt_attributes, zlen_comment_wire by done.
  destruct (is_some (ob_security r)), (is_some (ob_attributes r)); lia.
Qed.

Lemma fixed_bounds r : Comment_typed (ob_comment r) ->
  104 <= security_end r <= attributes_end r /\ attributes_end r <= fixed_payload_len r <= 392.
Proof.
  intros (Hl & _)%Comment_facts. unfold fixed_payload_len, attributes_end, security_end, Comment_wire_len,
    OBJECT_PAYLOAD_LEN, SECURITY_REF_LEN, ATTRIBUTE_REF_LEN.
  destruct (is_some (ob_security r)), (is_some (ob_attributes r)), (Comment_is_empty (ob_comment r)); lia.
Qed.

(** *** Where the parts lie *)

Lemma fields_parts r (W : bytes) :
  Comment_typed (ob_comment r) ->
  fixed_payload_len r <= zlen W ->
  sub W 0 (fixed_payload_len r) = fields_wire r <->
  sub W 0 104 = base_wire r /\
  sub W 104 (security_end r) = opt_wire security_wire (ob_security r) /\
  sub W (security_end r) (attributes_end r) = opt_wire attributes_wire (ob_attributes r) /\
  sub W (attributes_end r) (fixed_payload_len r) = comment_wire (ob_comment r).
Proof.
  intros Hc Hl. destruct (fixed_bounds r Hc) as [H1 H2].
  assert (security_end r = 104 + zlen (opt_wire security_wire (ob_security r))) as Hs.
  { rewrite zlen_opt_security. unfold security_end, OBJECT_PAYLOAD_LEN, SECURITY_REF_LEN. by case_match. }
  assert (attributes_end r = security_end r + zlen (opt_wire attributes_wire (ob_attributes r))) as Ha.
  { rewrite zlen_opt_attributes. unfold attributes_end, ATTRIBUTE_REF_LEN. case_match; lia. }
  assert (fixed_payload_len r = attributes_end r + zlen (comment_wire (ob_comment r))) as Hf.
  { rewrite zlen_comment_wire by done. done. }
  split.
  - unfold fields_wire. intros Hw. pose proof (zlen_base_wire r). split_and!.
    all: eapply (sub_window W); [exact Hw|lia..|].
    + apply sub_here; lia.
    + apply sub_skip; [lia|]. apply sub_here; lia.
    + apply sub_skip; [lia|]. apply sub_skip; [lia|]. apply sub_here; lia.
    + apply sub_skip; [lia|]. apply sub_skip; [lia|]. apply sub_skip; [lia|]. apply sub_last; lia.
  - intros (Hb & Hsec & Hatt & Hcom). unfold fields_wire.
    apply (sub_cat _ _ _ _ 104); [lia|lia|done|]. apply (sub_cat _ _ _ _ (security_end r)); [lia|lia|done|].
    by apply (sub_cat _ _ _ _ (attributes_end r)); [lia|lia| |].
Qed.

(** *** Encoding *)

Lemma wp_time_write t (W : bytes) a b n (Q : bytes -> Prop) R :
  0 <= a -> b = a + 12 -> b <= zlen W -> zlen W <= n -> sub W a b = time_wire t ->
  Q (upto W b n) -> wp (Timespec_write t (upto W a n) a b) Q R.
Proof.
  intros Ha -> Hb Hn Hw HQ. unfold Timespec_write. apply wp_bind, wp_slice; [lia|rewrite zlen_upto; lia|].
  set (buf := sub _ _ _). assert (zlen buf = 12) by (unfold buf; rewrite zlen_sub; rewrite ?zlen_upto; lia).
  assert ((let* buf := put_i64 buf 0 8 (seconds t) in put_u32 buf 8 12 (nanoseconds t)) = Ok (time_wire t)) as Hf.
  { fill buf. replace (zlen buf) with 12 by lia. by rewrite sub_empty, app_nil_r, app_nil_l. }
  destruct (put_i64 buf 0 8 (seconds t)) as [b1| |]; cbn [obind] in *; [|done..]. rewrite Hf. cbn [obind].
  apply (wp_put_upto W _ _ _ _ 0); try done; try lia. by rewrite sub_empty.
Qed.

Lemma wp_write_security s (W : bytes) at_ n (Q : bytes -> Prop) R :
  0 <= at_ -> at_ + 16 <= zlen W -> zlen W <= n -> sub W at_ (at_ + 16) = security_wire s ->
  Q (upto W (at_ + 16) n) -> wp (write_security (upto W at_ n) at_ s) Q R.
Proof.
  intros Hat Hl Hn Hw HQ. unfold write_security, security_wire in *. do 4 enc_field. done.
Qed.

Lemma wp_write_attributes a (W : bytes) at_ n (Q : bytes -> Prop) R :
  0 <= at_ -> at_ + 16 <= zlen W -> zlen W <= n -> sub W at_ (at_ + 16) = attributes_wire a ->
  Q (upto W (at_ + 16) n) -> wp (write_attributes (upto W at_ n) at_ a) Q R.
Proof.
  intros Hat Hl Hn Hw HQ. unfold write_attributes, attributes_wire in *. do 3 enc_field.
  rewrite (upto_skip W (at_ + 14) (at_ + 16)); [done|lia|lia|].
  replace (at_ + 16 - (at_ + 14)) with 2 by lia. wire_read.
Qed.

Lemma wp_write_comment c (W : bytes) at_ n (Q : bytes -> Prop) R :
  Comment_typed c -> Comment_is_empty c = false ->
  0 <= at_ -> at_ + Comment_wire_len c <= zlen W -> zlen W <= n ->
  sub W at_ (at_ + Comment_wire_len c) = comment_wire c ->
  Q (upto W (at_ + Comment_wire_len c) n) -> wp (write_comment (upto W at_ n) at_ c) Q R.
Proof.
  intros Hc He Hat Hl Hn Hw HQ. destruct (Comment_facts c Hc) as (Hcl & Hcz & _).
  unfold write_comment, comment_wire, Comment_wire_len in *. rewrite He in *.
  assert (zlen (sub (cm_bytes c) 0 (cm_len c)) = cm_len c) by (rewrite zlen_sub; lia).
  enc_field. apply wp_bind, wp_slice; [lia..|]. replace (at_ + (1 + cm_len c)) with (at_ + 1 + cm_len c) in * by lia.
  enc_field. done.
Qed.

Lemma sub_nothing (l : bytes) a b : a = b -> sub l a b = zeros 0.
Proof. intros ->. apply sub_empty. Qed.

(** [window Hb], [enc_field_in Hb]: the tactics above with the one window that
    holds the field. *)
Ltac window Hb := eapply sub_window; [exact Hb|lia|lia|lia|wire_read].
Ltac enc_field_in Hb :=
  apply wp_bind;
  unfold put_u16, put_u32, put_u64, put_u8;
  eapply wp_put_upto;
  [ lia | lia | lia | lia | first [ apply sub_nothing; lia | window Hb ] | symmetry; window Hb | ].

Lemma wp_write_fields r (W : bytes) n (Q : bytes -> Prop) R :
  Comment_typed (ob_comment r) -> fixed_payload_len r <= zlen W -> zlen W <= n ->
  sub W 0 (fixed_payload_len r) = fields_wire r ->
  Q (upto W (fixed_payload_len r) n) -> wp (write_fields r (upto W 0 n)) Q R.
Proof.
  intros Hc Hl Hn Hw HQ. destruct (fixed_bounds r Hc) as [H1 H2].
  apply fields_parts in Hw as (Hb & Hs & Ha & Hcm); [|done|done].
  unfold write_fields, base_wire in *.
  do 6 enc_field_in Hb. do 3 (apply wp_bind, wp_time_write; [lia..|window Hb|]). do 6 enc_field_in Hb.
  unfold OBJECT_PAYLOAD_LEN.
  apply wp_bind, (wp_mono _ (fun p => p = upto W (security_end r) n) _ R); [|intros ? ->; cbv beta|done].
  { unfold security_end, OBJECT_PAYLOAD_LEN, SECURITY_REF_LEN in *.
    destruct (ob_security r); cbn [is_some opt_wire] in *; [by apply wp_write_security; (lia || done)|by apply wp_ok]. }
  apply wp_bind, (wp_mono _ (fun p => p = upto W (attributes_end r) n) _ R); [|intros ? ->; cbv beta|done].
  { unfold attributes_end, ATTRIBUTE_REF_LEN in *.
    destruct (ob_attributes r); cbn [is_some opt_wire] in *; [by apply wp_write_attributes; (lia || done)|by apply wp_ok]. }
  unfold fixed_payload_len in *. destruct (Comment_is_empty (ob_comment r)) eqn:He; cbn [negb].
  - apply wp_ok. unfold Comment_wire_len in HQ. by rewrite He, Z.add_0_r in HQ.
  - by apply wp_write_comment; (lia || done).
Qed.

(** *** Decoding the parts of an image *)

Lemma read_time_wire t (p : bytes) a b :
  0 <= a -> b = a + 12 -> b <= zlen p -> sub p a b = time_wire t ->
  Timespec_typed t -> Timespec_validate t = Ok tt -> read_time p a b = Ok t.
Proof.
  intros Ha -> Hb Hw [Hs Hn] Hv. unfold i64, u32 in *. apply wp_no_error. unfold read_time, Timespec_read.
  apply wp_bind, wp_slice; [lia..|]. rewrite Hw. clear Hw.
  assert (zlen (time_wire t) = 12) as Hz by apply zlen_time_wire. unfold TIMESPEC_WIRE_SIZE.
  apply wp_if_false; [lia|]. unfold time_wire in *. rd.
  unfold get_i64, get_u64. apply wp_bind, wp_bind, wp_get_le; [side|].
  rewrite to_signed_split by done. apply wp_ok. rd.
  destruct t as [s n]. cbn [seconds nanoseconds] in *. rewrite Hv. done.
Qed.

Lemma read_security_wire s (p : bytes) at_ :
  0 <= at_ -> at_ + 16 <= zlen p -> sub p at_ (at_ + 16) = security_wire s -> SecurityRef_typed s ->
  read_security p at_ = Ok s.
Proof.
  intros Hat Hl Hw (? & ? & ? & ?). unfold u64, u32, u16 in *. apply wp_no_error.
  unfold read_security, security_wire in *. do 4 rd. by destruct s.
Qed.

Lemma read_attributes_wire a (p : bytes) at_ :
  0 <= at_ -> at_ + 16 <= zlen p -> sub p at_ (at_ + 16) = attributes_wire a -> AttributeRef_typed a ->
  read_attributes p at_ = Ok a.
Proof.
  intros Hat Hl Hw (? & ? & ?). unfold u64, u32, u16 in *. apply wp_no_error.
  unfold read_attributes, attributes_wire in *. rd. apply wp_if_false; [done|]. do 3 rd. by destruct a.
Qed.

Lemma read_comment_wire c (p : bytes) at_ :
  0 <= at_ -> Comment_typed c -> Comment_is_empty c = false -> at_ + Comment_wire_len c <= zlen p ->
  sub p at_ (at_ + Comment_wire_len c) = comment_wire c -> read_comment p at_ = Ok c.
Proof.
  intros Hat Hc He Hl Hw. destruct (Comment_facts c Hc) as (Hcl & Hcz & Hu & Hnew).
  unfold Comment_wire_len, comment_wire, Comment_is_empty in *. rewrite He in *.
  assert (zlen (sub (cm_bytes c) 0 (cm_len c)) = cm_len c) by (rewrite zlen_sub; lia).
  unfold read_comment. assert (get_byte p at_ = Some (cm_len c)) as ->.
  { unfold get_byte. destruct (_ && _) eqn:E; [|lia]. f_equal.
    assert (sub p at_ (at_ + 1) = [byte.of_Z (cm_len c)]) as H1 by wire_read.
    rewrite (sub_single p at_ Byte.x00) in H1 by lia. injection H1 as ->.
    apply byte_unsigned_of. unfold u8. lia. }
  cbn [ok_or obind]. rewrite (get_range_sub p (sub (cm_bytes c) 0 (cm_len c))); [|lia|lia|wire_read].
  cbn [ok_or obind]. rewrite He. unfold from_utf8. rewrite Hu. exact Hnew.
Qed.

(** *** Decoding unknown bytes *)

Lemma wp_read_time (p : bytes) a b (Q : Timespec -> Prop) :
  0 <= a -> b = a + 12 -> b <= zlen p ->
  (forall t, Timespec_typed t -> Timespec_validate t = Ok tt -> sub p a b = time_wire t -> Q t) ->
  wp (read_time p a b) Q any_error.
Proof.
  intros Ha -> Hb HQ. unfold read_time, Timespec_read, TIMESPEC_WIRE_SIZE. rx.
  set (s := sub p a (a + 12)). assert (zlen s = 12) as Hz by (unfold s; rewrite zlen_sub; lia).
  rx. rx. unfold get_i64, get_u64. apply wp_bind, wp_bind, wp_get_le; [rewrite zlen_sub; lia|]. apply wp_ok.
  pose proof (le_combine_sub_range s 0 8 64 ltac:(lia) ltac:(lia) ltac:(lia)). rx.
  apply wp_bind, wp_unit; [unfold Timespec_validate; no_panic|intros Hv|done]. apply wp_ok, HQ; [|done|].
  - split; [by apply to_signed_range|done].
  - fold s. rewrite <- (sub_all s 12) at 1 by done. unfold time_wire. cbn [seconds nanoseconds]. rewire.
Qed.

Lemma wp_read_security (p : bytes) at_ :
  0 <= at_ -> at_ + 16 <= zlen p ->
  wp (read_security p at_) (fun s => SecurityRef_typed s /\ sub p at_ (at_ + 16) = security_wire s) any_error.
Proof.
  intros Ha Hb. unfold read_security. do 4 rx. apply wp_ok. split; [done|].
  unfold security_wire. cbn [sx_first_block sx_total_len sx_segment_count sx_flags]. rewire.
Qed.

Lemma wp_read_attributes (p : bytes) at_ :
  0 <= at_ -> at_ + 16 <= zlen p ->
  wp (read_attributes p at_) (fun a => AttributeRef_typed a /\ sub p at_ (at_ + 16) = attributes_wire a) any_error.
Proof.
  intros Ha Hb. unfold read_attributes. do 5 rx. apply wp_ok. split; [done|].
  unfold attributes_wire. cbn [ar_first_block ar_total_len ar_segment_count]. rewire.
  change (zeros 2) with (le_split 2 0). rewrite <- H0. apply field_leaf; lia.
Qed.

Lemma wp_read_comment (p : bytes) at_ :
  0 <= at_ <= zlen p ->
  wp (read_comment p at_) (fun c => Comment_typed c /\ Comment_is_empty c = false /\
    at_ + Comment_wire_len c <= zlen p /\ sub p at_ (at_ + Comment_wire_len c) = comment_wire c) any_error.
Proof.
  intros Ha. unfold read_comment, get_byte.
  destruct (_ && _) eqn:E; [|done]. cbn [ok_or obind]. set (n := byte.unsigned _) in *.
  pose proof (byte_unsigned_u8 (nth (Z.to_nat at_) p Byte.x00)) as Hn. fold n in Hn. unfold u8 in Hn.
  apply wp_bind, wp_ok_or; [intros text [Hr ->]%get_range_Some|done]. rx.
  apply wp_bind, wp_from_utf8; [intros Hu|done]. set (text := sub p _ _) in *.
  assert (zlen text = n) as Hz by (unfold text; rewrite zlen_sub; lia).
  apply wp_any; [by eapply wp_not_panic, Comment_new_spec|]. intros c Hc.
  assert (Comment_typed c) as Hct by (by exists text).
  destruct (wp_of_ok _ _ _ _ (Comment_new_spec text) Hc) as (Hl & Hle & _ & Hcb).
  assert (Comment_is_empty c = false) as He by (unfold Comment_is_empty; lia).
  unfold Comment_wire_len, comment_wire. rewrite He. split_and!; [done|done|lia|].
  rewrite Hl, Hcb, sub_app_l, sub_all by lia. apply (sub_cat _ _ _ _ (at_ + 1)); [lia|lia| |].
  - rewrite Hz. unfold n. rewrite byte_of_unsigned. apply sub_single. lia.
  - rewrite Hz. unfold text. f_equal. lia.
Qed.

(** *** The fields of a record *)

Lemma type_wire_roundtrip t : ObjectType_from_wire (ObjectType_to_wire t) = Ok t.
Proof. by destruct t. Qed.

Lemma wp_type_from_wire v (Q : ObjectType -> Prop) :
  (forall t, v = ObjectType_to_wire t -> Q t) -> wp (ObjectType_from_wire v) Q any_error.
Proof.
  intros HQ. unfold ObjectType_from_wire.
  repeat (apply wp_if; [intros ->%Z.eqb_eq; by apply wp_ok, HQ|intros _]). done.
Qed.

Lemma type_wire_inj t v : ObjectType_to_wire t = ObjectType_to_wire v -> t = v.
Proof. by destruct t, v. Qed.

Definition length_ok (r : ObjectRecord) (p : bytes) : Prop :=
  fixed_payload_len r <= zlen p /\ (ob_object_type r = Symlink \/ zlen p = fixed_payload_len r).

Lemma decode_fields_image r h (p : bytes) :
  ObjectRecord_typed r -> times_valid r -> congruent r -> length_ok r p ->
  sub p 0 (fixed_payload_len r) = fields_wire r ->
  bh_flags h = 0 -> bh_owner h = ob_object_id r ->
  decode_fields_payload h p = Ok (r, h).
Proof.
  intros Ht (Hv1 & Hv2 & Hv3) (Cs & Ca & Cc) [Hlen Hty] Hw Hf Ho.
  unfold ObjectRecord_typed in Ht. destruct_and! Ht.
  destruct (fixed_bounds r ltac:(done)) as [H1' H2'].
  apply fields_parts in Hw as (Hb & Hs & Ha & Hcm); [|done|done].
  assert (match ob_security r with Some s => read_security p 104 = Ok s | None => True end) as Rs.
  { unfold security_end, OBJECT_PAYLOAD_LEN, SECURITY_REF_LEN in *.
    destruct (ob_security r); cbn [is_some opt_wire opt_typed] in *; [apply read_security_wire; (lia || done)|done]. }
  assert (match ob_attributes r with Some a => read_attributes p (security_end r) = Ok a | None => True end) as Ra.
  { unfold attributes_end, ATTRIBUTE_REF_LEN in *.
    destruct (ob_attributes r); cbn [is_some opt_wire opt_typed] in *; [apply read_attributes_wire; (lia || done)|done]. }
  assert (if Comment_is_empty (ob_comment r) then True else read_comment p (attributes_end r) = Ok (ob_comment r)) as Rc.
  { destruct (Comment_is_empty (ob_comment r)) eqn:He; [done|]. apply read_comment_wire; (lia || done). }
  clear Hs Ha Hcm. unfold base_wire in Hb.
  pose proof (read_time_wire (ob_created r) p 32 44 ltac:(lia) ltac:(lia) ltac:(lia) ltac:(wire_read) ltac:(done) Hv1) as R1.
  pose proof (read_time_wire (ob_modified r) p 44 56 ltac:(lia) ltac:(lia) ltac:(lia) ltac:(wire_read) ltac:(done) Hv2) as R2.
  pose proof (read_time_wire (ob_changed r) p 56 68 ltac:(lia) ltac:(lia) ltac:(lia) ltac:(wire_read) ltac:(done) Hv3) as R3.
  unfold u64, u32, u16 in *. apply wp_no_error.
  unfold decode_fields_payload, OBJECT_PAYLOAD_LEN. apply wp_if_false; [lia|]. apply wp_if_false; [by rewrite Hf|].
  apply wp_bind. eapply (wp_index_sub p 9 Byte.x00); [lia|lia|wire_read|]. apply wp_if_false; [done|].
  rd. rewrite Cs, Ca, Cc.
  change (if is_some (ob_security r) then 104 + SECURITY_REF_LEN else 104) with (security_end r).
  change (if is_some (ob_attributes r) then security_end r + ATTRIBUTE_REF_LEN else security_end r)
    with (attributes_end r). cbv zeta. apply wp_if_false; [lia|].
  apply wp_bind, (wp_mono _ (fun a => a = ob_attributes r) _ no_error); [|intros ? ->; cbv beta|done].
  { unfold attributes_end, ATTRIBUTE_REF_LEN. destruct (ob_attributes r) as [a|]; cbn [is_some].
    - apply wp_if_true; [lia|]. by rewrite Ra.
    - apply wp_if_false; [lia|]. done. }
  apply wp_bind, (wp_mono _ (fun c => c = ob_comment r) _ no_error); [|intros ? ->; cbv beta|done].
  { destruct (Comment_is_empty (ob_comment r)) eqn:He; cbn [negb]; [|by rewrite Rc].
    apply wp_ok. symmetry. by apply Comment_empty_eq. }
  change (attributes_end r + Comment_wire_len (ob_comment r)) with (fixed_payload_len r).
  rd. rewrite byte_unsigned_of by (by destruct (ob_object_type r)).
  apply wp_if_false.
  { destruct Hty as [ -> | -> ]; [done|]. by rewrite Z.eqb_refl, andb_false_r. }
  rd. rewrite type_wire_roundtrip. apply wp_bind, wp_ok. rd. rd. rd. rewrite R1, R2, R3.
  apply wp_bind, wp_ok, wp_bind, wp_ok, wp_bind, wp_ok. do 6 rd.
  apply wp_bind, (wp_mono _ (fun s => s = ob_security r) _ no_error); [|intros ? ->; cbv beta|done].
  { unfold security_end, OBJECT_PAYLOAD_LEN, SECURITY_REF_LEN. destruct (ob_security r) as [s|]; cbn [is_some].
    - apply wp_if_true; [done|]. by rewrite Rs.
    - by apply wp_if_false. }
  apply wp_if_false; [by rewrite Ho, Z.eqb_refl|]. apply wp_ok. by destruct r.
Qed.

Lemma zero_byte (p : bytes) i :
  0 <= i < zlen p -> byte.unsigned (nth (Z.to_nat i) p Byte.x00) = 0 -> sub p i (i + 1) = zeros 1.
Proof.
  intros Hi Hz. rewrite (sub_single p i Byte.x00) by lia.
  by rewrite <- (byte_of_unsigned (nth _ _ _)), Hz.
Qed.

Lemma wp_decode_fields_payload h (p : bytes) :
  wp (decode_fields_payload h p)
     (fun '(r, h') => h' = h /\ ObjectRecord_typed r /\ times_valid r /\ congruent r /\ length_ok r p /\
        sub p 0 (fixed_payload_len r) = fields_wire r /\ bh_flags h = 0 /\ bh_owner h = ob_object_id r) any_error.
Proof.
  unfold decode_fields_payload, OBJECT_PAYLOAD_LEN. do 5 rx.
  set (flags := le_combine (sub p 10 12)) in *.
  set (se := if has flags OBJECT_FLAG_SECURITY_REF then _ else _).
  set (ae := if has flags OBJECT_FLAG_ATTRIBUTES then _ else _).
  assert (104 <= se <= ae /\ se <= 120 /\ ae <= 136) as Hse.
  { unfold ae, se, SECURITY_REF_LEN, ATTRIBUTE_REF_LEN. repeat case_match; lia. }
  cbv zeta. rx.
  apply wp_bind, (wp_mono _ (fun a => has flags OBJECT_FLAG_ATTRIBUTES = is_some a /\
    opt_typed AttributeRef_typed a /\ sub p se ae = opt_wire attributes_wire a) _ any_error);
    [|intros attributes (Ca & Ta & Wa); cbv beta|done].
  { unfold ae, ATTRIBUTE_REF_LEN in *. destruct (has flags OBJECT_FLAG_ATTRIBUTES).
    - apply wp_if_true; [lia|]. apply wp_bind. eapply wp_mono; [apply wp_read_attributes; lia| |done].
      intros a [? ?]. by apply wp_ok.
    - apply wp_if_false; [lia|]. apply wp_ok. cbn. by rewrite sub_empty. }
  apply wp_bind, (wp_mono _ (fun c => has flags OBJECT_FLAG_COMMENT = negb (Comment_is_empty c) /\
    Comment_typed c /\ ae + Comment_wire_len c <= zlen p /\
    sub p ae (ae + Comment_wire_len c) = comment_wire c) _ any_error);
    [|intros comment (Cc & Tc & Lc & Wc); cbv beta|done].
  { destruct (has flags OBJECT_FLAG_COMMENT).
    - eapply wp_mono; [apply wp_read_comment; lia| |done]. intros c (? & He & ? & ?). by rewrite He.
    - apply wp_ok. rewrite Z.add_0_r, sub_empty. split_and!; [done|apply Comment_empty_typed|lia|done]. }
  rx. rx. rename H4 into Hlen.
  apply wp_bind. eapply wp_get_u64_at; [lia|lia|lia|reflexivity|].
  pose proof (le_combine_sub_range p 0 8 64 ltac:(lia) ltac:(lia) ltac:(lia)).
  apply wp_bind, wp_type_from_wire. intros ty Hty. rx. rx. rx.
  apply wp_bind, wp_read_time; [lia..|intros t1 T1 V1 W1]. apply wp_bind, wp_read_time; [lia..|intros t2 T2 V2 W2].
  apply wp_bind, wp_read_time; [lia..|intros t3 T3 V3 W3]. do 6 rx.
  apply wp_bind, (wp_mono _ (fun s => has flags OBJECT_FLAG_SECURITY_REF = is_some s /\
    opt_typed SecurityRef_typed s /\ sub p 104 se = opt_wire security_wire s) _ any_error);
    [|intros security (Cs & Ts & Ws); cbv beta|done].
  { unfold se, SECURITY_REF_LEN in *. destruct (has flags OBJECT_FLAG_SECURITY_REF).
    - apply wp_if_true; [done|]. apply wp_bind. eapply wp_mono; [apply wp_read_security; lia| |done].
      intros s [? ?]. by apply wp_ok.
    - apply wp_if_false; [done|]. apply wp_ok. cbn. by rewrite sub_empty. }
  rx. apply wp_ok.
  set (r := {| ob_object_id := _ |}).
  assert (security_end r = se) as Ese by (unfold security_end, se; cbn [ob_security r]; by rewrite <- Cs).
  assert (attributes_end r = ae) as Eae.
  { unfold attributes_end, ae. rewrite Ese. cbn [ob_attributes r]. by rewrite <- Ca. }
  assert (fixed_payload_len r = ae + Comment_wire_len comment) as Efx by (unfold fixed_payload_len; by rewrite Eae).
  pose proof (zlen_time_wire t1). pose proof (zlen_time_wire t2). pose proof (zlen_time_wire t3).
  assert (sub p 9 10 = zeros 1) as Hz by (apply (zero_byte p 9); (lia || done)).
  assert (sub p 0 104 = base_wire r) as Hb.
  { unfold base_wire, r, flags. cbn [ob_object_id ob_object_type ob_flags ob_link_count ob_size_bytes
      ob_allocated_bytes ob_created ob_modified ob_changed ob_protection ob_owner_uid ob_owner_gid
      ob_content_generation ob_data_root ob_data_blocks]. rewrite <- Hty. clear - H H1 H2 Hz W1 W2 W3 H17 H18 H19. rewire. }
  split_and!; [done|unfold ObjectRecord_typed; cbn; split_and!; done|done|done| | |done|done].
  - unfold length_ok. rewrite Efx. split; [done|]. apply andb_false_iff in H6 as [H6|H6]; guards; [left|by right].
    apply type_wire_inj. by rewrite <- H6.
  - apply fields_parts; [done|lia|]. rewrite Efx, Ese, Eae. done.
Qed.

(** ** The codec of records *)

Definition object_header (r : ObjectRecord) (len g : Z) : BlockHeader :=
  {| bh_block_type := block_type.OBJECT; bh_flags := 0; bh_owner := ob_object_id r;
     bh_generation := g; bh_payload_len := len |}.

Definition record_header (r : ObjectRecord) (g : Z) : BlockHeader := object_header r (zlen (fields_wire r)) g.

Definition Object_typed (r : ObjectRecord) (g : Z) : Prop := ObjectRecord_typed r /\ u64 g.

(** Everything validation checks of the flags and the optional fields. *)
Definition optional_fields_ok (r : ObjectRecord) (bs : Z) : Prop :=
  has (ob_flags r) (not16 KNOWN_OBJECT_FLAGS) = false /\ congruent r /\
  opt_typed (fun s => SecurityRef_validate s bs = Ok tt) (ob_security r) /\
  opt_typed (fun a => AttributeRef_validate a bs = Ok tt) (ob_attributes r).

Lemma wp_common r bs :
  wp (validate_common r bs)
     (fun _ => times_valid r /\ ob_object_id r <> 0 /\ ob_link_count r <> 0 /\ optional_fields_ok r bs)
     (fun _ => ~ (times_valid r /\ ob_object_id r <> 0 /\ ob_link_count r <> 0 /\ optional_fields_ok r bs)).
Proof.
  unfold validate_common, times_valid, optional_fields_ok, congruent, OBJECT_INVALID.
  do 3 (apply wp_bind, wp_unit; [unfold Timespec_validate; no_panic|intros ?|intros ? _; tauto]).
  apply wp_if; [intros ?; apply wp_err; lia|intros ?]. apply wp_if; [intros ?; apply wp_err; lia|intros ?].
  apply wp_if; [intros ->; apply wp_err; intros (_ & _ & _ & ? & _); done|intros ?].
  apply wp_if; [intros Hb; apply wp_err; intros (_ & _ & _ & _ & (Hs & _) & _)|intros Cs%negb_false_iff%Bool.eqb_prop].
  { by rewrite Hs, Bool.eqb_reflx in Hb. }
  apply wp_bind, wp_unit; [unfold SecurityRef_validate; no_panic|intros Vs|intros Vs _ (_ & _ & _ & _ & _ & ? & _)].
  2: { by destruct (ob_security r). }
  apply wp_if; [intros Hb; apply wp_err; intros (_ & _ & _ & _ & (_ & Ha & _) & _)|intros Ca%negb_false_iff%Bool.eqb_prop].
  { by rewrite Ha, Bool.eqb_reflx in Hb. }
  apply wp_bind, wp_unit; [unfold AttributeRef_validate; no_panic|intros Va|intros Va _ (_ & _ & _ & _ & _ & _ & ?)].
  2: { by destruct (ob_attributes r). }
  apply wp_if; intros Hb; [apply wp_err; intros (_ & _ & _ & _ & (_ & _ & Hcc) & _)|apply wp_ok].
  { rewrite Hcc in Hb. by destruct (Comment_is_empty (ob_comment r)). }
  split_and!; try done; try lia; [|by destruct (ob_security r)|by destruct (ob_attributes r)].
  by destruct (has (ob_flags r) OBJECT_FLAG_COMMENT), (Comment_is_empty (ob_comment r)).
Qed.

Lemma validate_common_iff r bs :
  validate_common r bs = Ok tt <->
  times_valid r /\ ob_object_id r <> 0 /\ ob_link_count r <> 0 /\ optional_fields_ok r bs.
Proof. pose proof (wp_common r bs) as H. destruct (validate_common r bs) as [[]| |]; cbn in H; [tauto|split; [done|tauto]|done]. Qed.

Lemma validate_common_total r bs : validate_common r bs <> Panic.
Proof. by eapply wp_not_panic, wp_common. Qed.

Lemma validate_common_facts r bs : validate_common r bs = Ok tt -> times_valid r /\ congruent r.
Proof. intros (? & _ & _ & _ & ? & _)%validate_common_iff. done. Qed.

Lemma wp_validate_file r bs :
  ObjectRecord_typed r -> 0 <= bs -> wp (validate_file r bs) (fun _ => True) any_error.
Proof.
  intros Ht Hbs. unfold ObjectRecord_typed in Ht. destruct_and! Ht. unfold validate_file, u64, MAX_EXTENT_BLOCKS in *.
  apply wp_bind, wp_checked_mul; [intros Hm|done]. rx. apply wp_if; intros _; [by rx|]. rx.
  apply wp_if; intros Hd; [by rx|]. guards. apply wp_bind, wp_checked_add; [intros Ha|done].
  apply wp_bind, wp_mul_w; [nia|]. apply wp_bind, wp_sub_w; [lia|]. apply wp_bind, wp_mul_w; [nia|]. by rx.
Qed.

Lemma object_validate_total r bs : ObjectRecord_typed r -> 0 <= bs -> ObjectRecord_validate r bs <> Panic.
Proof.
  intros Ht Hbs. unfold ObjectRecord_validate. pose proof (validate_common_total r bs).
  destruct (validate_common r bs); cbn [obind]; [|done..]. destruct (ob_object_type r); try done.
  - by eapply wp_not_panic, wp_validate_file.
  - unfold validate_directory. no_panic.
Qed.

Lemma object_validate_facts r bs :
  ObjectRecord_validate r bs = Ok tt -> times_valid r /\ congruent r /\ ob_object_type r <> Symlink.
Proof.
  unfold ObjectRecord_validate. destruct (validate_common r bs) as [[]| |] eqn:Hc; cbn [obind]; [|done..].
  destruct (validate_common_facts r bs Hc). by destruct (ob_object_type r).
Qed.

Lemma ObjectRecord_encode_spec r bs g :
  Object_typed r g -> 0 <= bs < 2 ^ 32 ->
  wp (ObjectRecord_encode r bs g)
     (fun b => (fixed_payload_len r <= bs - 32 /\ ObjectRecord_validate r bs = Ok tt) /\
        b = image record_header fields_wire r bs g)
     (fun _ => ~ (fixed_payload_len r <= bs - 32 /\ ObjectRecord_validate r bs = Ok tt)).
Proof.
  intros [Ht Hg] Hbs. assert (Comment_typed (ob_comment r)) as Hc by (unfold ObjectRecord_typed in Ht; tauto).
  unfold ObjectRecord_encode, HEADER_SIZE. apply wp_if; [intros ?; apply wp_err; lia|intros Hl].
  apply wp_bind, wp_unit; [apply object_validate_total; (done || lia)|intros Hv|intros ? _; tauto].
  pose proof (zlen_fields_wire r Hc) as Hz. destruct (fixed_bounds r Hc). unfold seal_record.
  rewrite as_u32_small, <- Hz by lia.
  apply (wp_seal_image record_header fields_wire r bs g); [done|lia|].
  apply wp_write_fields; [done|lia|lia|by rewrite <- Hz, sub_all|]. split; [by rewrite Hz|]. split_and!; (done || lia).
Qed.

(** Decoding the fields of an image of a record, or of a record and more. *)
Lemma decode_fields_sealed r rest n g :
  ObjectRecord_typed r -> times_valid r -> congruent r -> u64 g -> 0 <= n ->
  (ob_object_type r = Symlink \/ rest = []) -> fixed_payload_len r + zlen rest < 2 ^ 32 ->
  decode_fields (sealed (object_header r (fixed_payload_len r + zlen rest) g) ((fields_wire r ++ rest) ++ zeros n)) =
  Ok (r, object_header r (fixed_payload_len r + zlen rest) g).
Proof.
  intros Ht Hv Hcg Hg Hn Hr Hl. assert (Comment_typed (ob_comment r)) as Hc by (unfold ObjectRecord_typed in Ht; tauto).
  pose proof (zlen_fields_wire r Hc) as Hz. destruct (fixed_bounds r Hc). pose proof (zlen_nonneg rest).
  assert (zlen (fields_wire r ++ rest) = fixed_payload_len r + zlen rest) as Hp by (rewrite zlen_app; lia).
  assert (BlockHeader_typed (object_header r (fixed_payload_len r + zlen rest) g)) as Hh.
  { unfold ObjectRecord_typed in Ht. destruct_and! Ht. unfold object_header, u64 in *. header_typed. }
  unfold decode_fields. change block_type.OBJECT with (bh_block_type (object_header r (fixed_payload_len r + zlen rest) g)).
  rewrite verify_sealed; [|done|cbn [bh_payload_len object_header]; rewrite zlen_app, zlen_zeros; lia|].
  2: { cbn [bh_payload_len object_header].
       rewrite zlen_app, zlen_zeros, sub_app_r, sub_zeros by lia. f_equal. lia. }
  cbn [obind]. rewrite payload_sealed by done. cbn [obind].
  apply decode_fields_image; try done.
  - split; [rewrite Hp; lia|]. destruct Hr as [ ? | -> ]; [by left|right]. rewrite Hp, zlen_nil. lia.
  - rewrite sub_app_l, sub_all by lia. done.
Qed.

Lemma wp_decode_fields block (Q : ObjectRecord * BlockHeader -> Prop) :
  (forall r h p n, BlockHeader_typed h -> bh_block_type h = block_type.OBJECT -> zlen p = bh_payload_len h -> 0 <= n ->
     block = sealed h (p ++ zeros n) -> ObjectRecord_typed r -> times_valid r -> congruent r -> length_ok r p ->
     sub p 0 (fixed_payload_len r) = fields_wire r -> bh_flags h = 0 -> bh_owner h = ob_object_id r -> Q (r, h)) ->
  wp (decode_fields block) Q any_error.
Proof.
  intros HQ. unfold decode_fields. apply wp_open; [|done]. intros h p n Hh Hty Hp Hn Hb.
  eapply wp_mono; [apply wp_decode_fields_payload| |done].
  intros [r h'] (-> & Ht & Hv & Hc & Hl & Hw & Hf & Ho). by eapply HQ.
Qed.

#[export] Instance ObjectRecord_exact : ExactCodec Object_typed ObjectRecord_encode decode_with_generation.
Proof.
  apply (exact_codec _ _ _ record_header fields_wire
    (fun r bs _ => fixed_payload_len r <= bs - 32 /\ ObjectRecord_validate r bs = Ok tt)).
  - intros r bs g [Ht _] [Hl _]. rewrite zlen_fields_wire; [done|unfold ObjectRecord_typed in Ht; tauto].
  - apply ObjectRecord_encode_spec.
  - intros r bs g [Ht Hg] Hbs [Hl Hv].
    assert (Comment_typed (ob_comment r)) as Hc by (unfold ObjectRecord_typed in Ht; tauto).
    pose proof (zlen_fields_wire r Hc) as Hz. destruct (fixed_bounds r Hc).
    destruct (object_validate_facts r bs Hv) as (Htv & Hcg & _).
    unfold decode_with_generation. pose proof (decode_fields_sealed r [] (bs - 32 - fixed_payload_len r) g) as Hd.
    change (zlen []) with 0 in Hd. rewrite Z.add_0_r, app_nil_r in Hd. unfold image, record_header. rewrite Hz.
    rewrite Hd; [|done|done|done|done|lia|by right|lia]. cbn [obind].
    rewrite zlen_sealed, zlen_app, zlen_zeros, Hz by lia.
    replace (32 + (fixed_payload_len r + (bs - 32 - fixed_payload_len r))) with bs by lia. by rewrite Hv.
  - intros block. unfold decode_with_generation. apply wp_bind, wp_decode_fields.
    intros r h p n Hh Hty Hp Hn Hb Ht Htv Hcg [Hl1 Hl2] Hw Hf Ho.
    pose proof (zlen_nonneg block).
    apply wp_bind, wp_unit; [by apply object_validate_total|intros Hv|done]. apply wp_ok.
    destruct (object_validate_facts r _ Hv) as (_ & _ & Hns). destruct Hl2 as [?|Hl2]; [done|].
    assert (p = fields_wire r) as Hpw by (rewrite <- Hw, <- Hl2; by rewrite sub_all).
    assert (h = record_header r (bh_generation h)) as Hhe.
    { unfold record_header, object_header. rewrite <- Hpw. destruct h; cbn in *; congruence. }
    assert (zlen block = 32 + zlen p + n) as Hbl by (rewrite Hb, zlen_sealed, zlen_app, zlen_zeros; lia).
    unfold BlockHeader_typed in Hh. split_and!; [split; [done|tauto]|lia|done|]. by eapply image_eq.
Qed.

(** ** The codec of symbolic links *)

Definition symlink_wire (s : SymlinkRecord) : bytes := fields_wire (sl_record s) ++ sl_target s.
Definition symlink_header (s : SymlinkRecord) (g : Z) : BlockHeader :=
  object_header (sl_record s) (zlen (symlink_wire s)) g.
Definition SymlinkRecord_typed (s : SymlinkRecord) (g : Z) : Prop :=
  ObjectRecord_typed (sl_record s) /\ utf8_valid (sl_target s) = true /\ u64 g.

Lemma symlink_validate_total s bs : SymlinkRecord_validate s bs <> Panic.
Proof.
  unfold SymlinkRecord_validate. pose proof (validate_common_total (sl_record s) bs).
  destruct (validate_common (sl_record s) bs); cbn [obind]; [no_panic|done..].
Qed.

Lemma symlink_validate_facts s bs :
  SymlinkRecord_validate s bs = Ok tt ->
  times_valid (sl_record s) /\ congruent (sl_record s) /\ ob_object_type (sl_record s) = Symlink /\
  1 <= zlen (sl_target s) /\ zlen (sl_target s) <= bs - 32 - fixed_payload_len (sl_record s).
Proof.
  unfold SymlinkRecord_validate, HEADER_SIZE, saturating_sub.
  destruct (validate_common (sl_record s) bs) as [[]| |] eqn:Hc; cbn [obind]; [|done..].
  destruct (validate_common_facts _ _ Hc). pose proof (zlen_nonneg (sl_target s)).
  destruct (_ || _) eqn:E; [done|]. intros _. guards. split_and!; try done; try lia.
  match goal with H : negb (bool_decide _) = false |- _ => by apply negb_false_iff, bool_decide_eq_true in H end.
Qed.

Lemma upto_prefix (A W : bytes) k n :
  0 <= k <= zlen W -> A ++ upto W k n = upto (A ++ W) (zlen A + k) (zlen A + n).
Proof.
  intros Hk. unfold upto. pose proof (zlen_nonneg A). rewrite (sub_split (A ++ W) 0 (zlen A)) by lia.
  rewrite sub_app_l, (sub_all A), sub_app_r, <- app_assoc by lia. f_equal. f_equal; [f_equal; lia|f_equal; lia].
Qed.

Lemma SymlinkRecord_encode_spec s bs g :
  SymlinkRecord_typed s g -> 0 <= bs < 2 ^ 32 ->
  wp (SymlinkRecord_encode s bs g)
     (fun b => SymlinkRecord_validate s bs = Ok tt /\ b = image symlink_header symlink_wire s bs g)
     (fun _ => SymlinkRecord_validate s bs <> Ok tt).
Proof.
  intros (Ht & Hu & Hg) Hbs. assert (Comment_typed (ob_comment (sl_record s))) as Hc by (unfold ObjectRecord_typed in Ht; tauto).
  unfold SymlinkRecord_encode, HEADER_SIZE.
  apply wp_bind, wp_unit; [apply symlink_validate_total|intros Hv|done].
  destruct (symlink_validate_facts s bs Hv) as (_ & _ & _ & H1 & Hl).
  pose proof (zlen_fields_wire _ Hc) as Hz. destruct (fixed_bounds _ Hc).
  set (fixed := fixed_payload_len (sl_record s)) in *.
  assert (zlen (symlink_wire s) = fixed + zlen (sl_target s)) as Hzs by (unfold symlink_wire; rewrite zlen_app; lia).
  apply wp_bind, wp_with_payload; [lia|]. rewrite (upto_0 (symlink_wire s)).
  apply wp_write_fields; [done|lia|lia|unfold symlink_wire; fold fixed; by rewrite sub_app_l, sub_all by lia|].
  fold fixed. split; [rewrite zlen_upto; lia|].
  rewrite upto_prefix by lia. rewrite zlen_zeros by lia. apply wp_bind.
  apply (wp_put_upto _ _ _ _ _ 0); [lia|lia|rewrite zlen_app, zlen_zeros; lia|rewrite zlen_app, zlen_zeros; lia|..].
  { by rewrite sub_empty. }
  { rewrite sub_app_r, zlen_zeros by (rewrite ?zlen_zeros; lia). unfold symlink_wire.
    symmetry. apply sub_skip; [lia|]. apply sub_last; lia. }
  replace (32 + (fixed + zlen (sl_target s))) with (zlen (zeros 32) + zlen (symlink_wire s))
    by (rewrite zlen_zeros; lia).
  replace (32 + (bs - 32)) with (zlen (zeros 32) + (bs - 32)) by (rewrite zlen_zeros; lia).
  rewrite <- upto_prefix, upto_full by lia. unfold seal_record. rewrite as_u32_small, <- Hzs by lia.
  apply wp_seal_body; [cbn [bh_payload_len]; rewrite zlen_app, zlen_zeros; lia|]. done.
Qed.

(** What reading the target adds, on any sealed block. *)
Lemma wp_from_verified_fields r h (p : bytes) n (Q : SymlinkRecord -> Prop) (R : FormatError -> Prop) :
  zlen p = bh_payload_len h -> 0 <= n -> length_ok r p -> Comment_typed (ob_comment r) -> bh_flags h = 0 ->
  sub p 0 (fixed_payload_len r) = fields_wire r ->
  (forall t, p = fields_wire r ++ t -> utf8_valid t = true ->
     SymlinkRecord_validate {| sl_record := r; sl_target := t |} (zlen (sealed h (p ++ zeros n))) = Ok tt ->
     Q {| sl_record := r; sl_target := t |}) ->
  (forall t, p = fields_wire r ++ t ->
     utf8_valid t = false \/
     SymlinkRecord_validate {| sl_record := r; sl_target := t |} (zlen (sealed h (p ++ zeros n))) <> Ok tt ->
     forall e, R e) ->
  wp (from_verified_fields (sealed h (p ++ zeros n)) r h) Q R.
Proof.
  intros Hp Hn [Hl _] Hc Hf Hw HQ HR. destruct (fixed_bounds r Hc). pose proof (zlen_fields_wire r Hc) as Hz.
  set (t := sub p (fixed_payload_len r) (zlen p)).
  assert (p = fields_wire r ++ t) as Hpt.
  { rewrite <- Hw. unfold t. rewrite <- sub_split by lia. symmetry. by apply sub_all. }
  destruct (proj1 (fields_parts r p Hc Hl) Hw) as (Hb & _). unfold base_wire in Hb.
  unfold from_verified_fields. rewrite payload_sealed by done. cbn [obind]. rewrite Hf.
  apply wp_bind, (wp_mono _ (fun b => b = false) _ R); [|intros ? ->; cbv beta iota|done].
  { apply wp_if_false; [done|]. apply wp_bind.
    eapply (wp_index_sub p 9 Byte.x00); [lia|lia|window Hb|]. by apply wp_ok. }
  apply wp_bind, wp_slice; [lia..|]. fold t. clear Hb.
  apply wp_if; [intros Hu%negb_true_iff; apply wp_err; by eapply (HR t); [|left]|intros Hu%negb_false_iff].
  apply wp_bind, wp_unit; [apply symlink_validate_total|intros Hv|intros Hv e; by eapply (HR t); [|right]].
  apply wp_ok. by apply HQ.
Qed.

#[export] Instance SymlinkRecord_exact : ExactCodec SymlinkRecord_typed SymlinkRecord_encode SymlinkRecord_decode.
Proof.
  apply (exact_codec _ _ _ symlink_header symlink_wire (fun s bs _ => SymlinkRecord_validate s bs = Ok tt)).
  - intros s bs g (Ht & _) Hv. destruct (symlink_validate_facts s bs Hv) as (_ & _ & _ & _ & Hl).
    unfold symlink_wire. rewrite zlen_app, zlen_fields_wire; [lia|unfold ObjectRecord_typed in Ht; tauto].
  - apply SymlinkRecord_encode_spec.
  - intros [r t] bs g (Ht & Hu & Hg) Hbs Hv. cbn [sl_record sl_target] in *.
    assert (Comment_typed (ob_comment r)) as Hc by (unfold ObjectRecord_typed in Ht; tauto).
    pose proof (zlen_fields_wire r Hc) as Hz. destruct (fixed_bounds r Hc).
    destruct (symlink_validate_facts _ bs Hv) as (Htv & Hcg & Hsy & H1 & Hl). cbn [sl_record sl_target] in *.
    assert (zlen (fields_wire r ++ t) = fixed_payload_len r + zlen t) as Hzs by (rewrite zlen_app; lia).
    unfold SymlinkRecord_decode, image, symlink_header, symlink_wire. cbn [sl_record sl_target]. rewrite Hzs.
    rewrite decode_fields_sealed; [|done|done|done|done|lia|by left|lia]. cbn [obind].
    set (h := object_header r _ g). set (n := bs - 32 - _).
    assert (zlen (sealed h ((fields_wire r ++ t) ++ zeros n)) = bs) as Hbl.
    { rewrite zlen_sealed, zlen_app, zlen_zeros; lia. }
    apply wp_no_error, wp_bind, wp_from_verified_fields; [done|lia|split; [lia|by left]|done|done| |..].
    + by rewrite sub_app_l, sub_all by lia.
    + intros t' ->%app_inv_head _ _. by apply wp_ok.
    + intros t' <-%app_inv_head [Hbad|Hbad] e; [congruence|]. by rewrite Hbl in Hbad.
  - intros block. unfold SymlinkRecord_decode. apply wp_bind, wp_decode_fields.
    intros r h p n Hh Hty Hp Hn Hb Ht Htv Hcg Hl Hw Hf Ho.
    assert (Comment_typed (ob_comment r)) as Hc by (unfold ObjectRecord_typed in Ht; tauto).
    apply wp_bind. rewrite Hb. apply wp_from_verified_fields; try done.
    intros t Hpt Hu Hv. apply wp_ok. set (s := {| sl_record := r; sl_target := t |}) in *.
    assert (h = symlink_header s (bh_generation h)) as Hhe.
    { unfold symlink_header, symlink_wire, s, object_header. cbn [sl_record sl_target]. rewrite <- Hpt.
      destruct h; cbn in *; congruence. }
    unfold BlockHeader_typed in Hh. split_and!; [split_and!; (done || tauto)|done|].
    by eapply (image_eq _ _ s _ h p n).
Qed.

(** ** Flags *)

Lemma set_flag_other f m k on :
  Z.land m k = 0 -> Z.land (not16 m) k = k -> has (set_flag f m on) k = has f k.
Proof.
  intros H1 H2. unfold has, set_flag. destruct on.
  - by rewrite Z.land_lor_distr_l, H1, Z.lor_0_r.
  - by rewrite <- Z.land_assoc, H2.
Qed.

Lemma set_flag_same f m on : m <> 0 -> Z.land (not16 m) m = 0 -> has (set_flag f m on) m = on.
Proof.
  intros H1 H2. unfold has, set_flag. destruct on.
  - replace (Z.land (Z.lor f m) m) with m; [by destruct (m =? 0) eqn:?; [lia|]|].
    apply Z.bits_inj'. intros n _. rewrite Z.land_spec, Z.lor_spec.
    by destruct (Z.testbit f n), (Z.testbit m n).
  - by rewrite <- Z.land_assoc, H2, Z.land_0_r.
Qed.

(** Replacing the optional fields congruently. *)
Lemma validate_update r bs flags s a c :
  let r' := set_metadata r flags s a c in
  ObjectRecord_validate r bs = Ok tt ->
  has flags (not16 OBJECT_METADATA_FLAGS) = has (ob_flags r) (not16 OBJECT_METADATA_FLAGS) ->
  has flags OBJECT_FLAG_EXTENT_TREE = has (ob_flags r) OBJECT_FLAG_EXTENT_TREE ->
  (optional_fields_ok r bs -> optional_fields_ok r' bs) ->
  ObjectRecord_validate r' bs = Ok tt.
Proof.
  intros r' Hv Hm He Ho. unfold ObjectRecord_validate in *.
  destruct (validate_common r bs) as [[]| |] eqn:Hc; cbn [obind] in Hv; [|done..].
  apply validate_common_iff in Hc as (Ht & Hi & Hl & Hok).
  rewrite (proj2 (validate_common_iff r' bs)) by (split_and!; auto). cbn [obind].
  unfold r' in *. destruct r. cbn in *. unfold validate_directory, validate_file in *. cbn in *.
  by rewrite Hm, He.
Qed.

(** The metadata reader is the two decoders. *)
Lemma from_verified_symlink block r h link :
  from_verified_fields block r h = Ok link -> sl_record link = r /\ ob_object_type r = Symlink.
Proof.
  unfold from_verified_fields. intros H.
  repeat match type of H with
  | obind ?c _ = _ => destruct c eqn:?; cbn [obind] in H; [|done..]
  | (if ?b then _ else _) = _ => destruct b eqn:?; [done|]
  end.
  apply Ok_inj in H as <-. split; [done|].
  match goal with H : SymlinkRecord_validate _ _ = Ok ?u |- _ =>
    destruct u; by apply symlink_validate_facts in H as (_ & _ & ? & _) end.
Qed.

Lemma metadata_decodes block r g :
  decode_metadata_with_generation block = Ok (r, g) <->
  decode_with_generation block = Ok (r, g) \/
  exists t, SymlinkRecord_decode block = Ok ({| sl_record := r; sl_target := t |}, g).
Proof.
  unfold decode_metadata_with_generation, decode_with_generation, SymlinkRecord_decode in *.
  destruct (decode_fields block) as [[r' h]| |]; cbn [obind] in *; [|split; [done|by intros [?|[? ?]]]..].
  case_bool_decide as Hsy.
  - destruct (ObjectRecord_validate r' (zlen block)) as [[]| |] eqn:Hv; cbn [obind].
    { by apply object_validate_facts in Hv as (_ & _ & ?). }
    all: destruct (from_verified_fields block r' h) as [[r1 t]| |]; cbn [obind sl_record];
      [|split; [done|by intros [?|[? ?]]]..]; (split; [|by intros [?|[t' [= -> -> ->]]]]);
      intros [= -> ->]; right; by exists t.
  - destruct (from_verified_fields block r' h) as [link| |] eqn:Hl; cbn [obind].
    { by apply from_verified_symlink in Hl as [_ ?]. }
    all: split; [by left|by intros [?|[? ?]]].
Qed.

(** ** Properties *)

(** C38: the codecs of object records are exact. A block decodes to a record
    of a file or directory, or to a symbolic link, precisely when that value
    encodes to the block; the metadata reader accepts exactly the blocks one of
    the two decoders accepts, with the same record; nothing panics. *)
Theorem object_codecs_exact block r s g :
  zlen block < 2 ^ 32 ->
  (decode_with_generation block = Ok (r, g) <->
   Object_typed r g /\ ObjectRecord_encode r (zlen block) g = Ok block) /\
  (SymlinkRecord_decode block = Ok (s, g) <->
   SymlinkRecord_typed s g /\ SymlinkRecord_encode s (zlen block) g = Ok block) /\
  (decode_metadata_with_generation block = Ok (r, g) <->
   decode_with_generation block = Ok (r, g) \/
   exists t, SymlinkRecord_decode block = Ok ({| sl_record := r; sl_target := t |}, g)) /\
  decode_metadata_with_generation block <> Panic /\
  (Object_typed r g -> ObjectRecord_encode r (zlen block) g <> Panic) /\
  (SymlinkRecord_typed s g -> SymlinkRecord_encode s (zlen block) g <> Panic).
Proof.
  intros Hz. pose proof (zlen_nonneg block).
  assert (decode_with_generation block <> Panic) as Hp1 by apply decode_total.
  assert (SymlinkRecord_decode block <> Panic) as Hp2 by apply decode_total.
  split_and!; [by apply decode_exact|by apply decode_exact|apply metadata_decodes| |intros; by apply encode_total..].
  destruct (decode_metadata_with_generation block) as [[r' g']| |] eqn:Hd; [done..|].
  unfold decode_metadata_with_generation, decode_with_generation, SymlinkRecord_decode in *.
  destruct (decode_fields block) as [[r' h]| |]; cbn [obind] in *; [|done..].
  case_bool_decide.
  - by destruct (from_verified_fields block r' h).
  - by destruct (ObjectRecord_validate r' (zlen block)).
Qed.

Definition sample_record : ObjectRecord :=
  {| ob_object_id := 17; ob_object_type := File; ob_flags := 24; ob_link_count := 1; ob_size_bytes := 300;
     ob_allocated_bytes := 512; ob_created := {| seconds := -5; nanoseconds := 7 |};
     ob_modified := {| seconds := 9; nanoseconds := 8 |}; ob_changed := {| seconds := 9; nanoseconds := 9 |};
     ob_protection := 3; ob_owner_uid := 1000; ob_owner_gid := 100; ob_content_generation := 4;
     ob_data_root := 40; ob_data_blocks := 2; ob_security := None;
     ob_attributes := Some {| ar_first_block := 50; ar_total_len := 300; ar_segment_count := 2 |};
     ob_comment := {| cm_len := 2; cm_bytes := [Byte.x68; Byte.x69] ++ zeros 253 |} |}.

Definition sample_record_block : bytes :=
  match ObjectRecord_encode sample_record 256 6 with Ok b => b | _ => [] end.

Definition sample_link : SymlinkRecord :=
  {| sl_record := {| ob_object_id := 18; ob_object_type := Symlink; ob_flags := 0; ob_link_count := 1;
       ob_size_bytes := 1; ob_allocated_bytes := 0; ob_created := {| seconds := 0; nanoseconds := 0 |};
       ob_modified := {| seconds := 0; nanoseconds := 0 |}; ob_changed := {| seconds := 0; nanoseconds := 0 |};
       ob_protection := 0; ob_owner_uid := 0; ob_owner_gid := 0; ob_content_generation := 0;
       ob_data_root := 0; ob_data_blocks := 0; ob_security := None; ob_attributes := None;
       ob_comment := Comment_EMPTY |}; sl_target := [Byte.x61] |}.

Lemma sample_record_typed : Object_typed sample_record 6.
Proof.
  unfold Object_typed, ObjectRecord_typed, Timespec_typed, sample_record, u16, u32, u64, i64. cbn [ob_object_id
    ob_flags ob_link_count ob_size_bytes ob_allocated_bytes ob_created ob_modified ob_changed ob_protection
    ob_owner_uid ob_owner_gid ob_content_generation ob_data_root ob_data_blocks ob_security ob_attributes
    ob_comment seconds nanoseconds opt_typed].
  unfold AttributeRef_typed, u16, u32, u64. cbn [ar_first_block ar_total_len ar_segment_count].
  split_and!; try lia. exists [Byte.x68; Byte.x69]. by split.
Qed.

Lemma object_codecs_exact_witness : decode_with_generation sample_record_block = Ok (sample_record, 6).
Proof.
  assert (zlen sample_record_block < 2 ^ 32) as Hz by (by vm_compute).
  apply (proj1 (object_codecs_exact sample_record_block sample_record sample_link 6 Hz)).
  split; [apply sample_record_typed|vm_compute; reflexivity].
Defined.

(** setting or removing the comment, the attribute reference or the
    security reference of a valid record, with a valid reference, gives a
    valid record: the flags keep announcing exactly the fields present. *)
Theorem metadata_updates_valid r bs s a c :
  ObjectRecord_validate r bs = Ok tt ->
  opt_typed (fun s => SecurityRef_validate s bs = Ok tt) s ->
  opt_typed (fun a => AttributeRef_validate a bs = Ok tt) a ->
  ObjectRecord_validate (with_security r s) bs = Ok tt /\
  ObjectRecord_validate (with_attributes r a) bs = Ok tt /\
  ObjectRecord_validate (with_comment r c) bs = Ok tt.
Proof.
  intros Hv Hs Ha. unfold with_security, with_attributes, with_comment.
  split_and!; (apply validate_update; [done|by apply set_flag_other..|]); intros (Hk & (Cs & Ca & Cc) & Vs & Va);
    unfold optional_fields_ok, congruent, set_metadata; cbn [ob_flags ob_security ob_attributes ob_comment];
    split_and!; first [done|by apply set_flag_same|by rewrite set_flag_other].
Qed.

Lemma metadata_updates_valid_witness :
  ObjectRecord_validate (with_security sample_record
    (Some {| sx_first_block := 60; sx_total_len := 10; sx_segment_count := 1; sx_flags := 0 |})) 256 = Ok tt.
Proof.
  apply (metadata_updates_valid sample_record 256
    (Some {| sx_first_block := 60; sx_total_len := 10; sx_segment_count := 1; sx_flags := 0 |}) None Comment_EMPTY);
    vm_compute; reflexivity.
Defined.
