(* ===== verification/IntentLog.v ===== *)
(** * Intent-log records (crates/afsplus-format/src/intent_log.rs)

    A record carries one group of logged operations and is bound to the
    checkpoint generation it extends.  Every record that encodes is read back;
    every block that decodes gives a record of valid operations whose data
    extents do not overlap, and re-encoding that record loses nothing. *)

From S2P Require Import Prelude Crc32c Format Header Codec Object.

Definition LOG_FIXED_PAYLOAD : Z := 32.
Definition OP_FIXED : Z := 64.
Definition EXTENT_WIRE : Z := 12.
Definition PREVIOUS_LOG_RECORD_VERSION : Z := 2.
Definition LOG_RECORD_VERSION : Z := 3.
Definition MAX_LOG_EXTENTS : Z := 16.
Definition MAX_LOG_OPS : Z := 64.

(** A data extent: physical start and number of blocks. *)
Abbreviation extent := (Z * Z)%type.

Inductive LogOp : Type :=
| LogCreate (parent_id : Z) (name : bytes) (expected_object_id size_bytes content_crc : Z)
    (timestamp : Timespec) (extents : list extent)
| LogDelete (parent_id : Z) (name : bytes) (timestamp : Timespec)
| LogRename (source_parent_id : Z) (source_name : bytes) (target_parent_id : Z) (target_name : bytes)
    (replace : bool) (timestamp : Timespec)
| LogWrite (object_id logical_start expected_size_bytes new_size_bytes content_crc : Z)
    (timestamp : Timespec) (extents : list extent)
| LogTruncate (object_id logical_start expected_size_bytes new_size_bytes content_crc : Z)
    (timestamp : Timespec) (extents : list extent).

Definition wire_len_with_fixed (op : LogOp) (fixed : Z) : Z :=
  match op with
  | LogCreate _ name _ _ _ _ extents => fixed + zlen extents * EXTENT_WIRE + zlen name
  | LogDelete _ name _ => fixed + zlen name
  | LogRename _ source_name _ target_name _ _ => fixed + zlen source_name + zlen target_name
  | LogWrite _ _ _ _ _ _ extents | LogTruncate _ _ _ _ _ _ extents => fixed + zlen extents * EXTENT_WIRE
  end.

Definition wire_len (op : LogOp) : Z := wire_len_with_fixed op OP_FIXED.

Definition timestamp (op : LogOp) : Timespec :=
  match op with
  | LogCreate _ _ _ _ _ t _ | LogDelete _ _ t | LogRename _ _ _ _ _ t
  | LogWrite _ _ _ _ _ t _ | LogTruncate _ _ _ _ _ t _ => t
  end.

Definition data_extents (op : LogOp) : list extent :=
  match op with
  | LogCreate _ _ _ _ _ _ extents | LogWrite _ _ _ _ _ _ extents | LogTruncate _ _ _ _ _ _ extents => extents
  | LogDelete _ _ _ | LogRename _ _ _ _ _ _ => []
  end.

Definition is_existing_file_update (op : LogOp) : bool :=
  match op with LogWrite _ _ _ _ _ _ _ | LogTruncate _ _ _ _ _ _ _ => true | _ => false end.

(** ** Validation *)

Definition check_overlap (start end_ : Z) (_ : unit) (other : extent) : result unit :=
  let* other_end := add_w 64 other.1 other.2 in
  if (other.1 <? end_) && (start <? other_end) then Err (Invalid "logged data extents overlap") else Ok tt.

(** The loop over [extents], with the prefix [extents[..index]] it compares
    against and the running total. *)
Fixpoint validate_extents (before extents : list extent) (total : Z) : result Z :=
  match extents with
  | [] => Ok total
  | (start, blocks) :: extents =>
      if blocks =? 0 then Err (Invalid "logged extent has zero blocks") else
      let* end_ := ok_or (checked_add 64 start blocks) (Invalid "logged extent end overflows") in
      do* ofold (check_overlap start end_) tt before in
      let* total := ok_or (checked_add 64 total blocks) (Invalid "logged extent total overflows") in
      validate_extents (before ++ [(start, blocks)]) extents total
  end.

Definition validate_data_extents (extents : list extent) : result Z :=
  if MAX_LOG_EXTENTS <? zlen extents then Err (Invalid "logged operation has too many extents") else
  validate_extents [] extents 0.

Definition validate_create (expected_object_id size_bytes : Z) (extents : list extent) : result unit :=
  if expected_object_id =? 0 then Err (Invalid "logged create without object ID") else
  let* total := validate_data_extents extents in
  if ((zlen extents =? 0) && negb (size_bytes =? 0)) ||
     (negb (zlen extents =? 0) &&
      ((size_bytes =? 0) || (total <? div_ceil size_bytes DEFAULT_BLOCK_SIZE))) then
    Err (Invalid "logged size inconsistent with extents") else
  Ok tt.

Definition validate_write (object_id logical_start expected_size_bytes new_size_bytes : Z)
    (extents : list extent) : result unit :=
  if object_id =? 0 then Err (Invalid "logged write without object ID") else
  let* blocks := validate_data_extents extents in
  if blocks =? 0 then Err (Invalid "logged write without replacement data") else
  let* logical_end := ok_or (checked_add 64 logical_start blocks) (Invalid "logged write range overflows") in
  if (new_size_bytes <? expected_size_bytes) || (new_size_bytes =? 0) then
    Err (Invalid "logged write has invalid size transition") else
  let file_blocks := div_ceil new_size_bytes DEFAULT_BLOCK_SIZE in
  if (file_blocks <? logical_end) ||
     ((expected_size_bytes <? new_size_bytes) && negb (logical_end =? file_blocks)) then
    Err (Invalid "logged write range is inconsistent with file size") else
  Ok tt.

Definition validate_truncate (object_id logical_start expected_size_bytes new_size_bytes content_crc : Z)
    (extents : list extent) : result unit :=
  if object_id =? 0 then Err (Invalid "logged truncate without object ID") else
  if expected_size_bytes =? new_size_bytes then Err (Invalid "logged truncate does not change size") else
  let* blocks := validate_data_extents extents in
  if 1 <? blocks then Err (Invalid "logged truncate has more than one tail block") else
  if (new_size_bytes =? 0) && negb (blocks =? 0) then Err (Invalid "empty truncate carries tail data") else
  if blocks =? 0 then
    if negb (logical_start =? 0) || negb (content_crc =? 0) then
      Err (Invalid "data-free truncate carries tail fields") else Ok tt
  else if (expected_size_bytes <=? new_size_bytes) || (new_size_bytes mod DEFAULT_BLOCK_SIZE =? 0) ||
          negb (logical_start =? new_size_bytes / DEFAULT_BLOCK_SIZE) then
    Err (Invalid "logged truncate tail is inconsistent with file size") else
  Ok tt.

Definition LogOp_validate (op : LogOp) : result unit :=
  do* Timespec_validate (timestamp op) in
  match op with
  | LogCreate _ name expected_object_id size_bytes _ _ extents =>
      do* validate_name name in validate_create expected_object_id size_bytes extents
  | LogDelete _ name _ => validate_name name
  | LogRename _ source_name _ target_name _ _ => do* validate_name source_name in validate_name target_name
  | LogWrite object_id logical_start expected new _ _ extents =>
      validate_write object_id logical_start expected new extents
  | LogTruncate object_id logical_start expected new crc _ extents =>
      validate_truncate object_id logical_start expected new crc extents
  end.

(** ** Encoding *)

Record LogRecord := { lr_uuid : bytes; lr_base_generation : Z; lr_sequence : Z; lr_ops : list LogOp }.

Definition write_extent (st : bytes * Z) (e : extent) : result (bytes * Z) :=
  let '(p, at_) := st in
  let* p := put_u64 p at_ (at_ + 8) e.1 in
  let* p := put_u32 p (at_ + 8) (at_ + 12) e.2 in
  Ok (p, at_ + EXTENT_WIRE).

(** [entry = &mut p[offset..]]: the fields of one operation, at [o]. *)
Definition write_create (p : bytes) (o : Z) (parent_id : Z) (name : bytes)
    (expected_object_id size_bytes content_crc : Z) (t : Timespec) (extents : list extent) : result bytes :=
  let* p := put_u8 p o 1 in
  let* p := put_u16 p (o + 2) (o + 4) (as_u16 (zlen name)) in
  let* p := put_u16 p (o + 6) (o + 8) (as_u16 (zlen extents)) in
  let* p := put_u64 p (o + 8) (o + 16) parent_id in
  let* p := put_u64 p (o + 24) (o + 32) expected_object_id in
  let* p := put_u64 p (o + 32) (o + 40) size_bytes in
  let* p := put_u32 p (o + 40) (o + 44) content_crc in
  let* p := Timespec_write t p (o + 48) (o + 60) in
  let* '(p, at_) := ofold write_extent (p, o + OP_FIXED) extents in
  put p at_ (at_ + zlen name) name.

Definition write_delete (p : bytes) (o : Z) (parent_id : Z) (name : bytes) (t : Timespec) : result bytes :=
  let* p := put_u8 p o 2 in
  let* p := put_u16 p (o + 2) (o + 4) (as_u16 (zlen name)) in
  let* p := put_u64 p (o + 8) (o + 16) parent_id in
  let* p := Timespec_write t p (o + 48) (o + 60) in
  put p (o + OP_FIXED) (o + OP_FIXED + zlen name) name.

Definition write_rename (p : bytes) (o : Z) (source_parent_id : Z) (source_name : bytes)
    (target_parent_id : Z) (target_name : bytes) (replace : bool) (t : Timespec) : result bytes :=
  let* p := put_u8 p o 3 in
  let* p := put_u8 p (o + 1) (Z.b2z replace) in
  let* p := put_u16 p (o + 2) (o + 4) (as_u16 (zlen source_name)) in
  let* p := put_u16 p (o + 4) (o + 6) (as_u16 (zlen target_name)) in
  let* p := put_u64 p (o + 8) (o + 16) source_parent_id in
  let* p := put_u64 p (o + 16) (o + 24) target_parent_id in
  let* p := Timespec_write t p (o + 48) (o + 60) in
  let at_ := o + OP_FIXED in
  let* p := put p at_ (at_ + zlen source_name) source_name in
  let at_ := at_ + zlen source_name in
  put p at_ (at_ + zlen target_name) target_name.

Definition write_update (p : bytes) (o : Z) (op_type object_id logical_start expected new crc : Z)
    (t : Timespec) (extents : list extent) : result bytes :=
  let* p := put_u8 p o op_type in
  let* p := put_u16 p (o + 6) (o + 8) (as_u16 (zlen extents)) in
  let* p := put_u64 p (o + 8) (o + 16) object_id in
  let* p := put_u64 p (o + 16) (o + 24) logical_start in
  let* p := put_u64 p (o + 24) (o + 32) expected in
  let* p := put_u64 p (o + 32) (o + 40) new in
  let* p := put_u32 p (o + 40) (o + 44) crc in
  let* p := Timespec_write t p (o + 48) (o + 60) in
  let* '(p, _) := ofold write_extent (p, o + OP_FIXED) extents in
  Ok p.

Definition write_op (p : bytes) (o : Z) (op : LogOp) : result bytes :=
  match op with
  | LogCreate parent name oid size crc t extents => write_create p o parent name oid size crc t extents
  | LogDelete parent name t => write_delete p o parent name t
  | LogRename sp sn tp tn rep t => write_rename p o sp sn tp tn rep t
  | LogWrite oid ls es ns crc t extents => write_update p o 4 oid ls es ns crc t extents
  | LogTruncate oid ls es ns crc t extents => write_update p o 5 oid ls es ns crc t extents
  end.

Definition encode_op (st : bytes * Z) (op : LogOp) : result (bytes * Z) :=
  let '(p, offset) := st in
  do* LogOp_validate op in
  let* p := write_op p offset op in
  Ok (p, offset + wire_len op).

Definition ops_len (ops : list LogOp) : Z := foldr (fun op n => wire_len op + n) 0 ops.

Definition LogRecord_encode (r : LogRecord) (block_size : Z) : result bytes :=
  if (zlen (lr_ops r) =? 0) || (MAX_LOG_OPS <? zlen (lr_ops r)) then
    Err (Invalid "log record operation count out of range") else
  if (lr_sequence r =? 0) || (lr_base_generation r =? 0) then
    Err (Invalid "log record binding out of range") else
  let payload_len := LOG_FIXED_PAYLOAD + ops_len (lr_ops r) in
  if (block_size <? HEADER_SIZE) || (block_size - HEADER_SIZE <? payload_len) then
    Err (Overflow "fsync group exceeds one log record") else
  let* block := with_payload (zeros block_size) (fun p =>
    let* p := put p 0 16 (lr_uuid r) in
    let* p := put_u64 p 16 24 (lr_base_generation r) in
    let* p := put_u32 p 24 28 (lr_sequence r) in
    let* p := put_u16 p 28 30 (as_u16 (zlen (lr_ops r))) in
    let record_version :=
      if existsb is_existing_file_update (lr_ops r) then LOG_RECORD_VERSION
      else PREVIOUS_LOG_RECORD_VERSION in
    let* p := put_u16 p 30 32 record_version in
    let* '(p, _) := ofold encode_op (p, LOG_FIXED_PAYLOAD) (lr_ops r) in
    Ok p) in
  seal {| bh_block_type := block_type.INTENT_LOG; bh_flags := 0; bh_owner := 0;
          bh_generation := lr_base_generation r; bh_payload_len := as_u32 payload_len |} block.

(** ** Decoding *)

Definition read_extent (p : bytes) (at_ : Z) : result extent :=
  let* start := get_u64_at p at_ (at_ + 8) in
  let* blocks := get_u32_at p (at_ + 8) (at_ + 12) in
  Ok (start, blocks).

(** The variable part of an operation, or a refusal of its type and counts. *)
Definition variable_len (op_type source_len target_len extent_count record_version : Z) : result Z :=
  if (op_type =? 1) && (target_len =? 0) then Ok (extent_count * EXTENT_WIRE + source_len)
  else if (op_type =? 2) && (target_len =? 0) && (extent_count =? 0) then Ok source_len
  else if (op_type =? 3) && (extent_count =? 0) then Ok (source_len + target_len)
  else if ((op_type =? 4) || (op_type =? 5)) && (record_version =? LOG_RECORD_VERSION) &&
          (source_len =? 0) && (target_len =? 0) then Ok (extent_count * EXTENT_WIRE)
  else Err (Invalid "unknown log operation type").

Definition read_op (p : bytes) (o op_type source_len target_len extent_count : Z) (t : Timespec) : result LogOp :=
  if op_type =? 1 then
    let* extents := collect_step (read_extent p) (o + OP_FIXED) EXTENT_WIRE (Z.to_nat extent_count) in
    let at_ := o + OP_FIXED + EXTENT_WIRE * extent_count in
    let* parent_id := get_u64_at p (o + 8) (o + 16) in
    let* name := slice p at_ (at_ + source_len) in
    let* expected_object_id := get_u64_at p (o + 24) (o + 32) in
    let* size_bytes := get_u64_at p (o + 32) (o + 40) in
    let* content_crc := get_u32_at p (o + 40) (o + 44) in
    Ok (LogCreate parent_id name expected_object_id size_bytes content_crc t extents)
  else if op_type =? 2 then
    let* parent_id := get_u64_at p (o + 8) (o + 16) in
    let* name := slice p (o + OP_FIXED) (o + OP_FIXED + source_len) in
    Ok (LogDelete parent_id name t)
  else if op_type =? 3 then
    let at_ := o + OP_FIXED in
    let* source_parent_id := get_u64_at p (o + 8) (o + 16) in
    let* source_name := slice p at_ (at_ + source_len) in
    let* target_parent_id := get_u64_at p (o + 16) (o + 24) in
    let* target_name := slice p (at_ + source_len) (at_ + source_len + target_len) in
    let* replace := index p (o + 1) in
    Ok (LogRename source_parent_id source_name target_parent_id target_name (negb (replace =? 0)) t)
  else if (op_type =? 4) || (op_type =? 5) then
    let* extents := collect_step (read_extent p) (o + OP_FIXED) EXTENT_WIRE (Z.to_nat extent_count) in
    let* f0 := get_u64_at p (o + 8) (o + 16) in
    let* f1 := get_u64_at p (o + 16) (o + 24) in
    let* f2 := get_u64_at p (o + 24) (o + 32) in
    let* f3 := get_u64_at p (o + 32) (o + 40) in
    let* f4 := get_u32_at p (o + 40) (o + 44) in
    if op_type =? 4 then Ok (LogWrite f0 f1 f2 f3 f4 t extents)
    else Ok (LogTruncate f0 f1 f2 f3 f4 t extents)
  else Panic.

Definition decode_op (p : bytes) (offset record_version : Z) : result LogOp :=
  let* rest := sub_w (zlen p) offset in
  if rest <? OP_FIXED then Err (Invalid "truncated log operation") else
  let* op_type := index p offset in
  let* source_len := get_u16_at p (offset + 2) (offset + 4) in
  let* target_len := get_u16_at p (offset + 4) (offset + 6) in
  let* extent_count := get_u16_at p (offset + 6) (offset + 8) in
  if MAX_LOG_EXTENTS <? extent_count then Err (Invalid "logged create has too many extents") else
  let* variable := variable_len op_type source_len target_len extent_count record_version in
  if rest - OP_FIXED <? variable then Err (Invalid "log operation exceeds payload") else
  let* t := read_time p (offset + 48) (offset + 60) in
  let* op := read_op p offset op_type source_len target_len extent_count t in
  do* LogOp_validate op in
  Ok op.

Fixpoint decode_ops (p : bytes) (record_version : Z) (n : nat) (offset : Z) : result (list LogOp * Z) :=
  match n with
  | O => Ok ([], offset)
  | S n =>
      let* op := decode_op p offset record_version in
      let* '(ops, offset) := decode_ops p record_version n (offset + wire_len_with_fixed op OP_FIXED) in
      Ok (op :: ops, offset)
  end.

Definition LogRecord_decode_payload (header : BlockHeader) (p : bytes) : result LogRecord :=
  if negb (bh_flags header =? 0) || negb (bh_owner header =? 0) then
    Err (Invalid "log record header flags or owner are nonzero") else
  if zlen p <? LOG_FIXED_PAYLOAD then Err (Invalid "log record payload too short") else
  let* uuid := slice p 0 16 in
  let* base_generation := get_u64_at p 16 24 in
  if (base_generation =? 0) || negb (base_generation =? bh_generation header) then
    Err (Invalid "log record generation inconsistent") else
  let* sequence := get_u32_at p 24 28 in
  if sequence =? 0 then Err (Invalid "log record sequence is zero") else
  let* op_count := get_u16_at p 28 30 in
  if (op_count =? 0) || (MAX_LOG_OPS <? op_count) then
    Err (Invalid "log record operation count out of range") else
  let* record_version := get_u16_at p 30 32 in
  if negb ((record_version =? PREVIOUS_LOG_RECORD_VERSION) || (record_version =? LOG_RECORD_VERSION)) then
    Err (Invalid "unsupported intent-log record version") else
  let* '(ops, offset) := decode_ops p record_version (Z.to_nat op_count) LOG_FIXED_PAYLOAD in
  if negb (offset =? bh_payload_len header) then Err (Invalid "log record payload length mismatch") else
  Ok {| lr_uuid := uuid; lr_base_generation := base_generation; lr_sequence := sequence; lr_ops := ops |}.

Definition LogRecord_decode (block : bytes) : result LogRecord :=
  let* header := verify block block_type.INTENT_LOG in
  let* p := payload header block in
  LogRecord_decode_payload header p.

(** ** Extents *)

Definition extent_typed (e : extent) : Prop := u64 e.1 /\ u32 e.2.
Definition extent_ok (e : extent) : Prop := e.2 <> 0 /\ e.1 + e.2 < 2 ^ 64.
Definition apart (e f : extent) : Prop := e.1 + e.2 <= f.1 \/ f.1 + f.2 <= e.1.
Definition pairwise_apart (l : list extent) : Prop :=
  forall i j e f, (i < j)%nat -> l !! i = Some e -> l !! j = Some f -> apart e f.
Definition blocks_sum (l : list extent) : Z := foldr (fun e n => e.2 + n) 0 l.

Lemma pairwise_snoc l e : pairwise_apart l -> Forall (fun f => apart f e) l -> pairwise_apart (l ++ [e]).
Proof.
  intros Hl Hf i j a b Hij Ha Hb. rewrite Forall_forall in Hf. apply lookup_app_Some in Hb as [Hb|[Hlen Hb]].
  - pose proof (lookup_lt_Some _ _ _ Hb). rewrite lookup_app_l in Ha by lia. by apply (Hl i j).
  - apply list_lookup_singleton_Some in Hb as [Hj <-]. rewrite lookup_app_l in Ha by lia.
    apply Hf. by eapply list_elem_of_lookup_2.
Qed.

Lemma wp_validate_extents before l total :
  Forall extent_typed before -> Forall extent_ok before -> pairwise_apart before -> Forall extent_typed l ->
  wp (validate_extents before l total)
     (fun t => t = total + blocks_sum l /\ Forall extent_ok l /\ pairwise_apart (before ++ l)) any_error.
Proof.
  revert before total. induction l as [|[s n] l IH]; intros before total Hbt Hb Hp Ht; cbn [validate_extents].
  - apply wp_ok. rewrite app_nil_r. cbn. split_and!; [lia|done|done].
  - inversion Ht as [|?? [Hs Hn] Ht']; subst. cbn [fst snd] in *. unfold u64, u32 in *. rx.
    apply wp_bind, wp_checked_add; [intros Hend|done]. apply wp_bind.
    apply (wp_ofold _ (fun _ rest => exists done, before = done ++ rest /\ Forall (fun f => apart f (s, n)) done));
      [by exists []| |intros [] (done & Heq & Hd)].
    + intros [] f rest (done & Heq & Hd). unfold check_overlap.
      assert (In f before) as Hin by (rewrite Heq; apply in_or_app; right; by left).
      rewrite List.Forall_forall in Hb, Hbt. destruct (Hb f Hin) as [Hf0 Hf1], (Hbt f Hin) as [Hf2 Hf3].
      unfold u64, u32 in *. apply wp_bind, wp_add_w; [lia|]. rx. apply wp_ok. exists (done ++ [f]).
      split; [by rewrite <- app_assoc|]. apply Forall_app. split; [done|]. constructor; [|done].
      unfold apart. cbn. lia.
    + rewrite app_nil_r in Heq. subst done. apply wp_bind, wp_checked_add; [intros Htot|done].
      eapply wp_mono; [apply IH| |done].
      * apply Forall_app. split; [done|]. constructor; [split; done|done].
      * apply Forall_app. split; [done|]. constructor; [split; cbn; lia|done].
      * by apply pairwise_snoc.
      * done.
      * intros t (-> & Hok & Hpw). rewrite <- app_assoc in Hpw.
        change (blocks_sum ((s, n) :: l)) with (n + blocks_sum l). split_and!; [lia| |done].
        constructor; [split; cbn; lia|done].
Qed.

Lemma wp_validate_data_extents l :
  Forall extent_typed l ->
  wp (validate_data_extents l)
     (fun t => t = blocks_sum l /\ zlen l <= 16 /\ Forall extent_ok l /\ pairwise_apart l) any_error.
Proof.
  intros Ht. unfold validate_data_extents, MAX_LOG_EXTENTS. rx.
  eapply wp_mono; [apply wp_validate_extents; (done || by intros ? ? ? ? ?)| |done].
  intros t (-> & ? & ?). done.
Qed.

(** ** Operations *)

Definition op_typed (op : LogOp) : Prop :=
  match op with
  | LogCreate parent _ oid size crc t xs =>
      u64 parent /\ u64 oid /\ u64 size /\ u32 crc /\ Timespec_typed t /\ Forall extent_typed xs
  | LogDelete parent _ t => u64 parent /\ Timespec_typed t
  | LogRename sp _ tp _ _ t => u64 sp /\ u64 tp /\ Timespec_typed t
  | LogWrite oid ls es ns crc t xs | LogTruncate oid ls es ns crc t xs =>
      u64 oid /\ u64 ls /\ u64 es /\ u64 ns /\ u32 crc /\ Timespec_typed t /\ Forall extent_typed xs
  end.

Definition op_valid (op : LogOp) : Prop := LogOp_validate op = Ok tt.

Definition op_names (op : LogOp) : list bytes :=
  match op with
  | LogCreate _ name _ _ _ _ _ | LogDelete _ name _ => [name]
  | LogRename _ sn _ tn _ _ => [sn; tn]
  | _ => []
  end.

Lemma wp_name name (Q : unit -> Prop) :
  (validate_name name = Ok tt -> zlen name <= 255 -> Q tt) -> wp (validate_name name) Q any_error.
Proof.
  intros HQ. apply wp_any; [apply validate_name_total|]. intros [] Hv. apply HQ; [done|].
  unfold validate_name, NAME_MAX_UTF8_BYTES in Hv. destruct (_ || _) eqn:E; [done|]. lia.
Qed.

(** What a valid operation guarantees about its variable parts. *)
Lemma wp_op_validate op :
  op_typed op ->
  wp (LogOp_validate op)
     (fun _ => Timespec_validate (timestamp op) = Ok tt /\ Forall (fun n => zlen n <= 255) (op_names op) /\
        zlen (data_extents op) <= 16 /\ Forall extent_ok (data_extents op) /\
        pairwise_apart (data_extents op)) any_error.
Proof.
  intros Ht. unfold LogOp_validate.
  apply wp_bind, wp_unit; [unfold Timespec_validate; no_panic|intros Hv|done].
  destruct op; cbn [op_typed timestamp data_extents op_names] in *; destruct_and! Ht.
  - apply wp_bind, wp_name. intros _ Hn. unfold validate_create. rx. apply wp_bind.
    eapply wp_mono; [by apply wp_validate_data_extents| |done]. intros tot (_ & ? & ? & ?). rx. apply wp_ok.
    split_and!; try done. by constructor.
  - apply wp_name. intros _ Hn. split_and!; [done|repeat (constructor; [done|]); constructor|done|done|by intros ? ? ? ? ?].
  - apply wp_bind, wp_name. intros _ Hn. apply wp_name. intros _ Hn'.
    split_and!; [done|repeat (constructor; [done|]); constructor|done|done|by intros ? ? ? ? ?].
  - unfold validate_write. rx. apply wp_bind. eapply wp_mono; [by apply wp_validate_data_extents| |done].
    intros tot (_ & ? & ? & ?). rx. apply wp_bind, wp_checked_add; [intros _|done]. rx. rx. apply wp_ok.
    by split_and!.
  - unfold validate_truncate. rx. rx. apply wp_bind. eapply wp_mono; [by apply wp_validate_data_extents| |done].
    intros tot (_ & ? & ? & ?). rx. rx.
    apply wp_if; intros _; rx; apply wp_ok; by split_and!.
Qed.

Lemma op_validate_total op : op_typed op -> LogOp_validate op <> Panic.
Proof. intros Ht. by eapply wp_not_panic, wp_op_validate. Qed.

(** ** Wire images *)

Definition log_extent_wire (e : extent) : bytes := le_split 8 e.1 ++ le_split 4 e.2.

Definition create_wire (parent : Z) (name : bytes) (oid size crc : Z) (t : Timespec) (xs : list extent) : bytes :=
  [byte.of_Z 1] ++ zeros 1 ++ le_split 2 (zlen name) ++ zeros 2 ++ le_split 2 (zlen xs) ++ le_split 8 parent ++
  zeros 8 ++ le_split 8 oid ++ le_split 8 size ++ le_split 4 crc ++ zeros 4 ++ time_wire t ++ zeros 4 ++
  wires log_extent_wire xs ++ name.

Definition delete_wire (parent : Z) (name : bytes) (t : Timespec) : bytes :=
  [byte.of_Z 2] ++ zeros 1 ++ le_split 2 (zlen name) ++ zeros 4 ++ le_split 8 parent ++ zeros 32 ++
  time_wire t ++ zeros 4 ++ name.

Definition rename_wire (sp : Z) (sn : bytes) (tp : Z) (tn : bytes) (rep : bool) (t : Timespec) : bytes :=
  [byte.of_Z 3] ++ [byte.of_Z (Z.b2z rep)] ++ le_split 2 (zlen sn) ++ le_split 2 (zlen tn) ++ zeros 2 ++
  le_split 8 sp ++ le_split 8 tp ++ zeros 24 ++ time_wire t ++ zeros 4 ++ sn ++ tn.

Definition update_wire (ty oid ls es ns crc : Z) (t : Timespec) (xs : list extent) : bytes :=
  [byte.of_Z ty] ++ zeros 5 ++ le_split 2 (zlen xs) ++ le_split 8 oid ++ le_split 8 ls ++ le_split 8 es ++
  le_split 8 ns ++ le_split 4 crc ++ zeros 4 ++ time_wire t ++ zeros 4 ++ wires log_extent_wire xs.

Definition op_wire (op : LogOp) : bytes :=
  match op with
  | LogCreate parent name oid size crc t xs => create_wire parent name oid size crc t xs
  | LogDelete parent name t => delete_wire parent name t
  | LogRename sp sn tp tn rep t => rename_wire sp sn tp tn rep t
  | LogWrite oid ls es ns crc t xs => update_wire 4 oid ls es ns crc t xs
  | LogTruncate oid ls es ns crc t xs => update_wire 5 oid ls es ns crc t xs
  end.

Lemma zlen_log_extent_wire e : zlen (log_extent_wire e) = 12.
Proof. unfold log_extent_wire. side. Qed.
#[local] Hint Rewrite zlen_time_wire (zlen_wires _ 12 zlen_log_extent_wire) : zlen.

Lemma zlen_op_wire op : zlen (op_wire op) = wire_len op.
Proof.
  destruct op; unfold op_wire, create_wire, delete_wire, rename_wire, update_wire, wire_len, wire_len_with_fixed,
    OP_FIXED, EXTENT_WIRE; autorewrite with zlen; lia.
Qed.

Lemma zlen_ops ops : zlen (wires op_wire ops) = ops_len ops.
Proof.
  induction ops as [|op ops IH]; [done|]. rewrite zlen_wires_cons, zlen_op_wire, IH. done.
Qed.

(** *** Writing one operation *)

Lemma wp_write_extents W n l off (Q : bytes * Z -> Prop) (R : FormatError -> Prop) :
  0 <= off -> off + 12 * zlen l <= zlen W -> zlen W <= n ->
  sub W off (off + 12 * zlen l) = wires log_extent_wire l ->
  Q (upto W (off + 12 * zlen l) n, off + 12 * zlen l) ->
  wp (ofold write_extent (upto W off n, off) l) Q R.
Proof.
  intros Hoff Hl Hn Hw HQ. rewrite <- (zlen_wires _ 12 zlen_log_extent_wire) in *.
  apply (wp_ofold_wires log_extent_wire); [done|done|done| |done].
  intros o x Ho Hox Hx. rewrite zlen_log_extent_wire in *. clear Hw HQ.
  unfold write_extent, log_extent_wire in *. do 2 enc_field. by apply wp_ok.
Qed.

(** Entry writes leave gaps of zeros: [skip Hb o] closes one. *)
Ltac skip_gap Hb e :=
  lazymatch goal with
  | |- context [upto ?W ?k ?n] =>
      rewrite (upto_skip W k e n); [|lia|lia|
        etransitivity; [window Hb|f_equal; lia]]
  end.

Lemma wp_write_create W n o parent name oid size crc t xs (Q : bytes -> Prop) R :
  zlen name <= 255 -> zlen xs <= 16 -> 0 <= o -> zlen W <= n ->
  let l := 64 + 12 * zlen xs + zlen name in
  o + l <= zlen W -> sub W o (o + l) = create_wire parent name oid size crc t xs ->
  Q (upto W (o + l) n) -> wp (write_create (upto W o n) o parent name oid size crc t xs) Q R.
Proof.
  intros Hname Hxs Ho Hn l Hl Hw HQ. pose proof (zlen_nonneg name). pose proof (zlen_nonneg xs).
  unfold write_create, create_wire, OP_FIXED, l in *. rewrite !as_u16_small by lia.
  do 7 enc_field_in Hw. skip_gap Hw (o + 48). apply wp_bind, wp_time_write; [lia..|window Hw|].
  skip_gap Hw (o + 64). apply wp_bind, wp_write_extents; [lia|lia|lia|window Hw|].
  apply (wp_put_upto _ _ _ _ _ 0); [lia|lia|lia|lia|by rewrite sub_empty|symmetry; window Hw|].
  by replace (o + 64 + 12 * zlen xs + zlen name) with (o + (64 + 12 * zlen xs + zlen name)) by lia.
Qed.

Lemma wp_write_delete W n o parent name t (Q : bytes -> Prop) R :
  zlen name <= 255 -> 0 <= o -> zlen W <= n ->
  o + (64 + zlen name) <= zlen W -> sub W o (o + (64 + zlen name)) = delete_wire parent name t ->
  Q (upto W (o + (64 + zlen name)) n) -> wp (write_delete (upto W o n) o parent name t) Q R.
Proof.
  intros Hname Ho Hn Hl Hw HQ. pose proof (zlen_nonneg name).
  unfold write_delete, delete_wire, OP_FIXED in *. rewrite !as_u16_small by lia.
  do 3 enc_field_in Hw. skip_gap Hw (o + 48). apply wp_bind, wp_time_write; [lia..|window Hw|].
  skip_gap Hw (o + 64).
  apply (wp_put_upto _ _ _ _ _ 0); [lia|lia|lia|lia|by rewrite sub_empty|symmetry; window Hw|].
  by replace (o + 64 + zlen name) with (o + (64 + zlen name)) by lia.
Qed.

Lemma wp_write_rename W n o sp sn tp tn rep t (Q : bytes -> Prop) R :
  zlen sn <= 255 -> zlen tn <= 255 -> 0 <= o -> zlen W <= n ->
  let l := 64 + zlen sn + zlen tn in
  o + l <= zlen W -> sub W o (o + l) = rename_wire sp sn tp tn rep t ->
  Q (upto W (o + l) n) -> wp (write_rename (upto W o n) o sp sn tp tn rep t) Q R.
Proof.
  intros Hsn Htn Ho Hn l Hl Hw HQ. pose proof (zlen_nonneg sn). pose proof (zlen_nonneg tn).
  unfold write_rename, rename_wire, OP_FIXED, l in *. rewrite !as_u16_small by lia.
  do 6 enc_field_in Hw. skip_gap Hw (o + 48). apply wp_bind, wp_time_write; [lia..|window Hw|].
  skip_gap Hw (o + 64). apply wp_bind.
  apply (wp_put_upto _ _ _ _ _ 0); [lia|lia|lia|lia|by rewrite sub_empty|symmetry; window Hw|].
  apply (wp_put_upto _ _ _ _ _ 0); [lia|lia|lia|lia|by rewrite sub_empty|symmetry; window Hw|].
  by replace (o + 64 + zlen sn + zlen tn) with (o + (64 + zlen sn + zlen tn)) by lia.
Qed.

Lemma wp_write_update W n o ty oid ls es ns crc t xs (Q : bytes -> Prop) R :
  zlen xs <= 16 -> 0 <= o -> zlen W <= n ->
  let l := 64 + 12 * zlen xs in
  o + l <= zlen W -> sub W o (o + l) = update_wire ty oid ls es ns crc t xs ->
  Q (upto W (o + l) n) -> wp (write_update (upto W o n) o ty oid ls es ns crc t xs) Q R.
Proof.
  intros Hxs Ho Hn l Hl Hw HQ. pose proof (zlen_nonneg xs).
  unfold write_update, update_wire, OP_FIXED, l in *. rewrite !as_u16_small by lia.
  do 7 enc_field_in Hw. skip_gap Hw (o + 48). apply wp_bind, wp_time_write; [lia..|window Hw|].
  skip_gap Hw (o + 64). apply wp_bind, wp_write_extents; [lia|lia|lia|window Hw|]. apply wp_ok.
  by replace (o + 64 + 12 * zlen xs) with (o + (64 + 12 * zlen xs)) by lia.
Qed.

Lemma wp_encode_op W n o op :
  op_typed op -> 0 <= o -> o + wire_len op <= zlen W -> zlen W <= n -> sub W o (o + wire_len op) = op_wire op ->
  wp (encode_op (upto W o n, o) op) (fun r => op_valid op /\ r = (upto W (o + wire_len op) n, o + wire_len op))
     (fun _ => ~ op_valid op).
Proof.
  intros Ht Ho Hl Hn Hw. unfold encode_op, op_valid.
  apply wp_bind, wp_unit; [by apply op_validate_total|intros Hv|done].
  destruct (wp_of_ok _ _ _ _ (wp_op_validate op Ht) Hv) as (_ & Hnames & Hxs & _).
  apply wp_bind. unfold wire_len, wire_len_with_fixed, OP_FIXED, EXTENT_WIRE in *.
  destruct op as [parent name oid size crc t xs|parent name t|sp sn tp tn rep t|oid ls es ns crc t xs|
    oid ls es ns crc t xs]; cbn [write_op op_wire op_names data_extents] in *.
  - inversion Hnames; subst. rewrite (Z.mul_comm (zlen xs)) in *.
    by apply wp_write_create.
  - inversion Hnames; subst. by apply wp_write_delete.
  - apply Forall_cons in Hnames as [? [? _]%Forall_cons]. by apply wp_write_rename.
  - rewrite (Z.mul_comm (zlen xs)) in *. by apply wp_write_update.
  - rewrite (Z.mul_comm (zlen xs)) in *. by apply wp_write_update.
Qed.

Lemma wp_encode_ops W n l o :
  Forall op_typed l -> 0 <= o -> o + ops_len l <= zlen W -> zlen W <= n ->
  sub W o (o + ops_len l) = wires op_wire l ->
  wp (ofold encode_op (upto W o n, o) l)
     (fun r => Forall op_valid l /\ r = (upto W (o + ops_len l) n, o + ops_len l)) (fun _ => ~ Forall op_valid l).
Proof.
  revert o. induction l as [|op l IH]; intros o Ht Ho Hl Hn Hw; cbn [ofold].
  - apply wp_ok. cbn. by rewrite Z.add_0_r.
  - inversion Ht; subst. change (ops_len (op :: l)) with (wire_len op + ops_len l) in *.
    rewrite wires_cons in Hw. pose proof (zlen_op_wire op) as Hz. pose proof (zlen_ops l) as Hzl.
    pose proof (zlen_nonneg (op_wire op)). pose proof (zlen_nonneg (wires op_wire l)).
    apply wp_bind. eapply wp_mono; [apply wp_encode_op; try done; try lia|..].
    + eapply (sub_window W); [exact Hw|lia..|]. apply sub_here; lia.
    + intros r [Hv ->]. cbv beta. eapply wp_mono; [apply IH; try done; try lia|..].
      * eapply (sub_window W); [exact Hw|lia..|]. apply sub_skip; [lia|]. apply sub_last; lia.
      * intros r [Hvs ->]. split; [by constructor|]. by rewrite Z.add_assoc.
      * intros e Hno Hall. by inversion Hall.
    + intros e Hno Hall. by inversion Hall.
Qed.

(** ** Records *)

Definition version_of (ops : list LogOp) : Z :=
  if existsb is_existing_file_update ops then LOG_RECORD_VERSION else PREVIOUS_LOG_RECORD_VERSION.

Definition log_wire (r : LogRecord) : bytes :=
  lr_uuid r ++ le_split 8 (lr_base_generation r) ++ le_split 4 (lr_sequence r) ++
  le_split 2 (zlen (lr_ops r)) ++ le_split 2 (version_of (lr_ops r)) ++ wires op_wire (lr_ops r).

Definition log_header (r : LogRecord) (_ : Z) : BlockHeader :=
  {| bh_block_type := block_type.INTENT_LOG; bh_flags := 0; bh_owner := 0;
     bh_generation := lr_base_generation r; bh_payload_len := zlen (log_wire r) |}.

Definition LogRecord_typed (r : LogRecord) : Prop :=
  zlen (lr_uuid r) = 16 /\ u64 (lr_base_generation r) /\ u32 (lr_sequence r) /\ Forall op_typed (lr_ops r).

Definition log_adm (r : LogRecord) (bs : Z) : Prop :=
  1 <= zlen (lr_ops r) <= 64 /\ lr_sequence r <> 0 /\ lr_base_generation r <> 0 /\
  zlen (log_wire r) <= bs - 32 /\ Forall op_valid (lr_ops r).

Lemma zlen_log_wire r : LogRecord_typed r -> zlen (log_wire r) = 32 + ops_len (lr_ops r).
Proof. intros [Hu _]. unfold log_wire. autorewrite with zlen. rewrite zlen_ops. lia. Qed.

#[local] Hint Unfold log_wire : wire.

Lemma LogRecord_encode_spec r bs :
  LogRecord_typed r -> 0 <= bs < 2 ^ 32 ->
  wp (LogRecord_encode r bs) (fun b => log_adm r bs /\ b = image log_header log_wire r bs 0)
     (fun _ => ~ log_adm r bs).
Proof.
  intros Ht Hbs. pose proof (zlen_log_wire r Ht) as Hz. destruct Ht as (Hu & Hg & Hs & Hops).
  pose proof (zlen_nonneg (lr_ops r)). pose proof (zlen_ops (lr_ops r)) as Hzo.
  pose proof (zlen_nonneg (wires op_wire (lr_ops r))).
  unfold LogRecord_encode, log_adm, MAX_LOG_OPS, LOG_FIXED_PAYLOAD, HEADER_SIZE.
  apply wp_if; [intros ?; apply wp_err; lia|intros ?]. apply wp_if; [intros ?; apply wp_err; lia|intros ?].
  rewrite <- Hz. apply wp_if; [intros ?; apply wp_err; lia|intros ?].
  rewrite (as_u32_small (zlen (log_wire r))), as_u16_small by lia.
  change (if existsb is_existing_file_update (lr_ops r) then LOG_RECORD_VERSION else PREVIOUS_LOG_RECORD_VERSION)
    with (version_of (lr_ops r)). cbv zeta.
  apply (wp_seal_image log_header log_wire r bs 0); [done|lia|].
  do 5 enc_field. apply wp_bind.
  eapply wp_mono; [apply wp_encode_ops; [done|lia|lia|lia|]|..].
  - unfold log_wire. rewrite <- Hzo. wire_read.
  - intros st [Hv ->]. apply wp_ok. rewrite <- Hz. split; [done|]. split_and!; (done || lia).
  - cbv beta. tauto.
Qed.

(** *** Reading one operation back *)

Lemma collect_read_extents (p : bytes) l off :
  Forall extent_typed l -> 0 <= off -> off + 12 * zlen l <= zlen p ->
  sub p off (off + 12 * zlen l) = wires log_extent_wire l ->
  collect_step (read_extent p) off 12 (length l) = Ok l.
Proof.
  intros HT Hoff Hl Hw. rewrite collect_step_eq. apply collect_wires. intros k e Hk.
  rewrite Z.add_0_l. rewrite Forall_lookup in HT. destruct (HT _ _ Hk) as [H1 H2]. unfold u64, u32 in *.
  assert (Z.of_nat k < zlen l) by (apply lookup_lt_Some in Hk; unfold zlen; lia).
  assert (sub p (off + 12 * Z.of_nat k) (off + 12 * Z.of_nat k + 12) = log_extent_wire e) as Hwk.
  { eapply (sub_window p); [exact Hw|lia..|].
    rewrite <- (sub_wires log_extent_wire 12 zlen_log_extent_wire l k e Hk). f_equal; lia. }
  clear Hw. unfold log_extent_wire in Hwk. apply wp_no_error. unfold read_extent.
  rd. rd. apply wp_ok. by destruct e.
Qed.

(** [rd_in Hb]: read one field through the window [Hb]. *)
Ltac rd_in Hb :=
  lazymatch goal with
  | |- wp (obind _ _) _ _ => apply wp_bind; rd_in Hb
  | |- wp (get_u16_at _ _ _) _ _ =>
      eapply wp_get_u16_at; [lia|lia|lia|window Hb|]; try rewrite le_get2 by lia
  | |- wp (get_u32_at _ _ _) _ _ =>
      eapply wp_get_u32_at; [lia|lia|lia|window Hb|]; try rewrite le_get4 by lia
  | |- wp (get_u64_at _ _ _) _ _ =>
      eapply wp_get_u64_at; [lia|lia|lia|window Hb|]; try rewrite le_get8 by lia
  | |- wp (index _ _) _ _ =>
      eapply wp_index_sub; [lia|lia|window Hb|]; try rewrite byte_unsigned_of by (unfold u8; lia)
  | |- wp (slice _ _ _) _ _ => eapply wp_slice_eq; [lia|lia|window Hb|]
  end.

Section DecodeImage.
Context (p : bytes) (o ver : Z) (Ho : 0 <= o).

Lemma decode_create parent name oid size crc t xs :
  let op := LogCreate parent name oid size crc t xs in
  op_typed op -> op_valid op -> o + (64 + 12 * zlen xs + zlen name) <= zlen p ->
  sub p o (o + (64 + 12 * zlen xs + zlen name)) = op_wire op -> decode_op p o ver = Ok op.
Proof using Ho.
  intros op Ht Hv Hl Hw. destruct (wp_of_ok _ _ _ _ (wp_op_validate op Ht) Hv) as (Htv & Hnames & Hxs & _).
  cbn [op op_typed op_names data_extents timestamp op_wire] in *. unfold create_wire in Hw.
  destruct_and! Ht. apply Forall_cons in Hnames as [Hname _]. unfold u64, u32 in *.
  pose proof (zlen_nonneg name). pose proof (zlen_nonneg xs).
  assert (read_time p (o + 48) (o + 60) = Ok t) as Rt by (apply read_time_wire; [lia..|window Hw|done|done]).
  assert (collect_step (read_extent p) (o + 64) 12 (length xs) = Ok xs) as Rx.
  { apply collect_read_extents; [done|lia|lia|window Hw]. }
  apply wp_no_error. unfold decode_op, OP_FIXED, MAX_LOG_EXTENTS.
  apply wp_bind, wp_sub_w; [lia|]. apply wp_if_false; [lia|]. rd_in Hw. rd_in Hw. rd_in Hw. rd_in Hw.
  rewrite le_combine_zeros. apply wp_if_false; [lia|]. unfold variable_len, EXTENT_WIRE.
  cbn [Z.eqb Pos.eqb andb]. apply wp_bind, wp_ok. apply wp_if_false; [lia|].
  rewrite Rt. apply wp_bind, wp_ok, wp_bind. unfold read_op, OP_FIXED, EXTENT_WIRE. cbn [Z.eqb Pos.eqb].
  replace (Z.to_nat (zlen xs)) with (length xs) by (unfold zlen; lia). rewrite Rx. apply wp_bind, wp_ok.
  do 5 rd_in Hw. apply wp_ok. fold op. unfold op_valid in Hv. by rewrite Hv.
Qed.

Lemma decode_delete parent name t :
  let op := LogDelete parent name t in
  op_typed op -> op_valid op -> o + (64 + zlen name) <= zlen p ->
  sub p o (o + (64 + zlen name)) = op_wire op -> decode_op p o ver = Ok op.
Proof using Ho.
  intros op Ht Hv Hl Hw. destruct (wp_of_ok _ _ _ _ (wp_op_validate op Ht) Hv) as (Htv & Hnames & Hxs & _).
  cbn [op op_typed op_names data_extents timestamp op_wire] in *. unfold delete_wire in Hw.
  destruct_and! Ht. apply Forall_cons in Hnames as [Hname _]. unfold u64, u32 in *.
  pose proof (zlen_nonneg name).
  assert (read_time p (o + 48) (o + 60) = Ok t) as Rt by (apply read_time_wire; [lia..|window Hw|done|done]).
  apply wp_no_error. unfold decode_op, OP_FIXED, MAX_LOG_EXTENTS.
  apply wp_bind, wp_sub_w; [lia|]. apply wp_if_false; [lia|]. rd_in Hw. rd_in Hw. rd_in Hw. rd_in Hw.
  rewrite !le_combine_zeros. apply wp_if_false; [lia|]. unfold variable_len, EXTENT_WIRE.
  cbn [Z.eqb Pos.eqb andb]. apply wp_bind, wp_ok. apply wp_if_false; [lia|].
  rewrite Rt. apply wp_bind, wp_ok, wp_bind. unfold read_op, OP_FIXED. cbn [Z.eqb Pos.eqb].
  do 2 rd_in Hw. apply wp_ok. fold op. unfold op_valid in Hv. by rewrite Hv.
Qed.

Lemma decode_rename sp sn tp tn rep t :
  let op := LogRename sp sn tp tn rep t in
  op_typed op -> op_valid op -> o + (64 + zlen sn + zlen tn) <= zlen p ->
  sub p o (o + (64 + zlen sn + zlen tn)) = op_wire op -> decode_op p o ver = Ok op.
Proof using Ho.
  intros op Ht Hv Hl Hw. destruct (wp_of_ok _ _ _ _ (wp_op_validate op Ht) Hv) as (Htv & Hnames & Hxs & _).
  cbn [op op_typed op_names data_extents timestamp op_wire] in *. unfold rename_wire in Hw.
  destruct_and! Ht. apply Forall_cons in Hnames as [Hsn [Htn _]%Forall_cons]. unfold u64, u32 in *.
  pose proof (zlen_nonneg sn). pose proof (zlen_nonneg tn).
  assert (read_time p (o + 48) (o + 60) = Ok t) as Rt by (apply read_time_wire; [lia..|window Hw|done|done]).
  apply wp_no_error. unfold decode_op, OP_FIXED, MAX_LOG_EXTENTS.
  apply wp_bind, wp_sub_w; [lia|]. apply wp_if_false; [lia|]. rd_in Hw. rd_in Hw. rd_in Hw. rd_in Hw.
  rewrite le_combine_zeros. apply wp_if_false; [lia|]. unfold variable_len, EXTENT_WIRE.
  cbn [Z.eqb Pos.eqb andb]. apply wp_bind, wp_ok. apply wp_if_false; [lia|].
  rewrite Rt. apply wp_bind, wp_ok, wp_bind. unfold read_op, OP_FIXED. cbn [Z.eqb Pos.eqb].
  do 4 rd_in Hw. apply wp_bind. eapply wp_index_sub; [lia|lia|window Hw|]. apply wp_ok.
  replace (negb (byte.unsigned (byte.of_Z (Z.b2z rep)) =? 0)) with rep by (by destruct rep).
  fold op. unfold op_valid in Hv. by rewrite Hv.
Qed.

Lemma decode_update (w : bool) oid ls es ns crc t xs :
  let op := if w then LogWrite oid ls es ns crc t xs else LogTruncate oid ls es ns crc t xs in
  ver = 3 -> op_typed op -> op_valid op -> o + (64 + 12 * zlen xs) <= zlen p ->
  sub p o (o + (64 + 12 * zlen xs)) = op_wire op -> decode_op p o ver = Ok op.
Proof using Ho.
  intros op -> Ht Hv Hl Hw. destruct (wp_of_ok _ _ _ _ (wp_op_validate op Ht) Hv) as (Htv & _ & Hxs & _).
  set (ty := if w then 4 else 5).
  assert (op_wire op = update_wire ty oid ls es ns crc t xs) as Hop by (by destruct w).
  assert (timestamp op = t /\ data_extents op = xs) as [Hts Hde] by (by destruct w).
  assert (u64 oid /\ u64 ls /\ u64 es /\ u64 ns /\ u32 crc /\ Timespec_typed t /\ Forall extent_typed xs) as Hty
    by (by destruct w).
  rewrite Hop in Hw. rewrite Hts in Htv. rewrite Hde in Hxs. unfold update_wire in Hw. destruct_and! Hty.
  unfold u64, u32 in *. pose proof (zlen_nonneg xs).
  assert (read_time p (o + 48) (o + 60) = Ok t) as Rt by (apply read_time_wire; [lia..|window Hw|done|done]).
  assert (collect_step (read_extent p) (o + 64) 12 (length xs) = Ok xs) as Rx.
  { apply collect_read_extents; [done|lia|lia|window Hw]. }
  apply wp_no_error. unfold decode_op, OP_FIXED, MAX_LOG_EXTENTS.
  apply wp_bind, wp_sub_w; [lia|]. apply wp_if_false; [lia|].
  apply wp_bind. eapply wp_index_sub; [lia|lia|window Hw|].
  replace (byte.unsigned (byte.of_Z ty)) with ty by (unfold ty; by destruct w).
  rd_in Hw. rd_in Hw. rd_in Hw. rewrite !le_combine_zeros. apply wp_if_false; [lia|].
  apply wp_bind, (wp_mono _ (fun v => v = zlen xs * 12) _ no_error); [|intros ? ->; cbv beta|done].
  { unfold variable_len, ty. destruct w; done. }
  apply wp_if_false; [lia|]. rewrite Rt. apply wp_bind, wp_ok, wp_bind. unfold read_op, OP_FIXED, EXTENT_WIRE.
  replace (Z.to_nat (zlen xs)) with (length xs) by (unfold zlen; lia). rewrite Rx.
  unfold ty. destruct w; cbn [Z.eqb Pos.eqb orb]; apply wp_bind, wp_ok; do 5 rd_in Hw; apply wp_ok;
    fold op; unfold op_valid in Hv; by rewrite Hv.
Qed.
End DecodeImage.

Lemma decode_op_image p o ver op :
  0 <= o -> op_typed op -> op_valid op -> (is_existing_file_update op = true -> ver = 3) ->
  o + wire_len op <= zlen p -> sub p o (o + wire_len op) = op_wire op -> decode_op p o ver = Ok op.
Proof.
  intros Ho Ht Hv Hver. unfold wire_len, wire_len_with_fixed, OP_FIXED, EXTENT_WIRE.
  destruct op as [parent name oid size crc t xs|parent name t|sp sn tp tn rep t|oid ls es ns crc t xs|
    oid ls es ns crc t xs]; try rewrite (Z.mul_comm (zlen xs)); intros Hl Hw.
  - by apply decode_create.
  - by apply decode_delete.
  - by apply decode_rename.
  - apply (decode_update p o ver Ho true); auto.
  - apply (decode_update p o ver Ho false); auto.
Qed.

Lemma decode_ops_image p ver l o :
  0 <= o -> Forall op_typed l -> Forall op_valid l -> (existsb is_existing_file_update l = true -> ver = 3) ->
  o + ops_len l <= zlen p -> sub p o (o + ops_len l) = wires op_wire l ->
  decode_ops p ver (length l) o = Ok (l, o + ops_len l).
Proof.
  revert o. induction l as [|op l IH]; intros o Ho Ht Hv Hver Hl Hw; cbn [decode_ops length].
  - by rewrite Z.add_0_r.
  - apply Forall_cons in Ht as [? ?], Hv as [? ?]. cbn [existsb] in Hver.
    change (ops_len (op :: l)) with (wire_len op + ops_len l) in *. rewrite wires_cons in Hw.
    pose proof (zlen_op_wire op). pose proof (zlen_ops l).
    pose proof (zlen_nonneg (op_wire op)). pose proof (zlen_nonneg (wires op_wire l)).
    rewrite (decode_op_image p o ver op); [|done|done|done| |lia|].
    2: { intros Hu. apply Hver. by rewrite Hu. }
    2: { eapply (sub_window p); [exact Hw|lia..|]. apply sub_here; lia. }
    cbn [obind]. fold (wire_len op). rewrite IH; [|lia|done|done| |lia|].
    + cbn [obind]. by rewrite Z.add_assoc.
    + intros Hu. apply Hver. rewrite Hu. by destruct (is_existing_file_update op).
    + eapply (sub_window p); [exact Hw|lia..|]. apply sub_skip; [lia|]. apply sub_last; lia.
Qed.

Lemma LogRecord_decode_image r bs :
  LogRecord_typed r -> bs < 2 ^ 32 -> log_adm r bs -> LogRecord_decode (image log_header log_wire r bs 0) = Ok r.
Proof.
  intros Ht Hbs (Hn & Hs & Hg & Hl & Hv). pose proof (zlen_log_wire r Ht) as Hz. destruct Ht as (Hu & Hug & Hus & Hops).
  pose proof (zlen_ops (lr_ops r)) as Hzo. pose proof (zlen_nonneg (wires op_wire (lr_ops r))). unfold u64, u32 in *.
  apply wp_no_error. unfold LogRecord_decode.
  apply wp_open_image; [unfold log_header; header_typed|done|done|lia|].
  unfold LogRecord_decode_payload, LOG_FIXED_PAYLOAD, MAX_LOG_OPS. cbn [bh_flags bh_owner bh_generation bh_payload_len log_header].
  apply wp_if_false; [done|]. apply wp_if_false; [lia|]. rd. rd. apply wp_if_false; [lia|]. rd. apply wp_if_false; [lia|].
  rd. apply wp_if_false; [lia|]. apply wp_bind. eapply wp_get_u16_at; [lia|lia|lia|wire_read|].
  assert (le_combine (le_split 2 (version_of (lr_ops r))) = version_of (lr_ops r)) as ->.
  { apply le_get2. unfold version_of, LOG_RECORD_VERSION, PREVIOUS_LOG_RECORD_VERSION. case_match; lia. }
  apply wp_if_false; [unfold version_of; by case_match|].
  replace (Z.to_nat (zlen (lr_ops r))) with (length (lr_ops r)) by (unfold zlen; lia).
  rewrite decode_ops_image; [|lia|done|done| |lia|].
  - apply wp_bind, wp_ok. cbv beta iota. apply wp_if_false; [lia|]. apply wp_ok. by destruct r.
  - unfold version_of. by intros ->.
  - unfold log_wire. rewrite <- Hzo. wire_read.
Qed.

(** *** Reading unknown bytes *)

Lemma wp_read_extents (p : bytes) off n (Q : list extent -> Prop) :
  0 <= off -> off + 12 * Z.of_nat n <= zlen p ->
  (forall l, length l = n -> Forall extent_typed l -> Q l) ->
  wp (collect_step (read_extent p) off 12 n) Q any_error.
Proof.
  intros Hoff Hl HQ. rewrite collect_step_eq. apply (wp_collect_all _ extent_typed); [|done].
  intros j Hj. unfold read_extent. rx. rx. by apply wp_ok.
Qed.

Lemma wp_variable_len ty sl tl xc ver (Q : Z -> Prop) :
  (forall v, v = (if ty =? 1 then xc * 12 + sl else if ty =? 2 then sl else if ty =? 3 then sl + tl else xc * 12) ->
     ty = 1 \/ ty = 2 \/ ty = 3 \/ ((ty = 4 \/ ty = 5) /\ ver = 3) -> Q v) ->
  wp (variable_len ty sl tl xc ver) Q any_error.
Proof.
  intros HQ. unfold variable_len, EXTENT_WIRE, LOG_RECORD_VERSION.
  repeat (apply wp_if; intros ?; [apply wp_ok, HQ; [|lia]; repeat case_match; (done || lia)|]). done.
Qed.

Lemma wp_decode_op p o ver :
  0 <= o <= zlen p ->
  wp (decode_op p o ver)
     (fun op => op_typed op /\ op_valid op /\ o + wire_len op <= zlen p /\
        (is_existing_file_update op = true -> ver = 3)) any_error.
Proof.
  intros Ho. unfold decode_op, OP_FIXED, MAX_LOG_EXTENTS. apply wp_bind, wp_sub_w; [lia|].
  do 6 rx. apply wp_bind, wp_variable_len. intros v Hv Hty. rx. apply wp_bind, wp_read_time; [lia..|].
  intros t Tt Vt _. set (ty := byte.unsigned _) in *. set (sl := le_combine (sub p (o + 2) _)) in *.
  set (tl := le_combine (sub p (o + 4) _)) in *. set (xc := le_combine (sub p (o + 6) _)) in *.
  assert (wp (read_op p o ty sl tl xc t)
    (fun op => op_typed op /\ wire_len op = 64 + v /\ (is_existing_file_update op = true -> ver = 3)) any_error) as Hr.
  { unfold read_op, OP_FIXED, EXTENT_WIRE, wire_len, wire_len_with_fixed. unfold OP_FIXED, EXTENT_WIRE.
    apply wp_if; intros E1; [|apply wp_if; intros E2; [|apply wp_if; intros E3;
      [|apply wp_if; intros E4; [|lia]]]]; rewrite ?E1, ?E2, ?E3 in Hv.
    - apply wp_bind, wp_read_extents; [lia|lia|intros xs Hxl Hxt]. do 5 rx. apply wp_ok. cbn.
      rewrite zlen_sub by lia. unfold zlen at 1. split_and!; (done || lia || by intros ?).
    - do 2 rx. apply wp_ok. cbn. rewrite zlen_sub by lia. split_and!; (done || lia || by intros ?).
    - do 5 rx. apply wp_ok. cbn. rewrite !zlen_sub by lia. split_and!; (done || lia || by intros ?).
    - apply wp_bind, wp_read_extents; [lia|lia|intros xs Hxl Hxt]. do 5 rx.
      apply wp_if; intros E5; apply wp_ok; cbn; unfold zlen at 1; split_and!; (done || lia). }
  apply wp_bind. eapply wp_mono; [exact Hr| |done]. intros op (Ht & Hl & Hu).
  apply wp_bind, wp_unit; [by apply op_validate_total|intros Hval|done]. apply wp_ok. split_and!; (done || lia).
Qed.

Lemma wp_decode_ops p ver n o :
  0 <= o <= zlen p ->
  wp (decode_ops p ver n o)
     (fun '(l, e) => length l = n /\ Forall op_typed l /\ Forall op_valid l /\ e = o + ops_len l /\ e <= zlen p) any_error.
Proof.
  revert o. induction n as [|n IH]; intros o Ho; cbn [decode_ops].
  - apply wp_ok. cbn. split_and!; (done || constructor || lia).
  - apply wp_bind. eapply wp_mono; [by apply wp_decode_op| |done]. intros op (Ht & Hv & Hl & _).
    fold (wire_len op). apply wp_bind.
    assert (0 <= wire_len op) by (rewrite <- zlen_op_wire; apply zlen_nonneg).
    eapply wp_mono; [apply IH; lia| |done]. intros [l e] (Hn & Hts & Hvs & -> & He). apply wp_ok.
    change (ops_len (op :: l)) with (wire_len op + ops_len l).
    split_and!; [by cbn; f_equal|by constructor|by constructor|lia|lia].
Qed.

Lemma LogRecord_decode_sound block :
  wp (LogRecord_decode block) (fun r => LogRecord_typed r /\ log_adm r (zlen block)) any_error.
Proof.
  apply wp_open; [|done]. intros h p n Hh Hty Hp Hn Hblock.
  assert (zlen block = 32 + zlen p + n) as Hbl by (rewrite Hblock, zlen_sealed, zlen_app, zlen_zeros; lia).
  unfold LogRecord_decode_payload, LOG_FIXED_PAYLOAD, MAX_LOG_OPS. do 11 rx.
  apply wp_bind. eapply wp_mono; [apply wp_decode_ops; lia| |done].
  intros [l e] (Hl & Ht & Hv & -> & He). rx. apply wp_ok.
  assert (zlen (sub p 0 16) = 16) as Hu by (rewrite zlen_sub; lia).
  match goal with |- LogRecord_typed ?r /\ _ => assert (LogRecord_typed r) as Hr by done end.
  split; [done|]. unfold log_adm. rewrite (zlen_log_wire _ Hr). cbn [lr_ops lr_sequence lr_base_generation].
  unfold zlen at 1 2. split_and!; (done || lia).
Qed.

(** ** Properties *)

(** The data extents of every operation are nonempty, end below the address
    limit and do not overlap. *)
Definition extents_sound (r : LogRecord) : Prop :=
  Forall (fun op => Forall extent_ok (data_extents op) /\ pairwise_apart (data_extents op)) (lr_ops r).


Definition sample_log : LogRecord :=
  {| lr_uuid := zeros 16; lr_base_generation := 7; lr_sequence := 1;
     lr_ops := [ LogCreate 1 [Byte.x61] 20 5000 99 {| seconds := 1; nanoseconds := 2 |} [(100, 1); (102, 1)];
                 LogTruncate 20 1 9000 5000 77 {| seconds := 3; nanoseconds := 4 |} [(110, 1)] ] |}.


(** The reserved bytes of an operation are not read: two different blocks
    decode to the same record. *)
Lemma LogRecord_aliases :
  exists a b, a <> b /\ zlen a = zlen b /\ LogRecord_decode a = LogRecord_decode b /\
    LogRecord_decode a = Ok sample_log.
Proof.
  exists (match LogRecord_encode sample_log 512 with Ok b => b | _ => [] end).
  exists (sealed (log_header sample_log 0)
    (blit (log_wire sample_log) (32 + 44) [Byte.x01] ++ zeros (480 - zlen (log_wire sample_log)))).
  split_and!; vm_compute; (reflexivity || discriminate).
Qed.
