(* ===== verification/SmallBytes.v ===== *)
(** * Byte strings with inline storage (crates/afsplus-format/src/small_bytes.rs)

    A short string lives in a fixed array next to its length, a long one in a
    vector.  The representation is invisible: construction, reading, equality
    and ordering agree with the plain byte string. *)

From S2P Require Import Prelude Crc32c Format Header Codec.

Definition INLINE : Z := 22.

Inductive SmallBytes : Type :=
| Inline (len : Z) (content : bytes)
| Heap (vector : bytes).

Definition SmallBytes_new : SmallBytes := Inline 0 (zeros INLINE).

Definition from_slice (source : bytes) : result SmallBytes :=
  if zlen source <=? INLINE then
    let* content := put (zeros INLINE) 0 (zlen source) source in
    Ok (Inline (zlen source mod 2 ^ 8) content)
  else Ok (Heap source).

(** [impl From<Vec<u8>>]. *)
Definition from_vec (source : bytes) : result SmallBytes :=
  if zlen source <=? INLINE then from_slice source else Ok (Heap source).

Definition as_slice (s : SmallBytes) : result bytes :=
  match s with
  | Inline len content => slice content 0 len
  | Heap vector => Ok vector
  end.

Definition into_vec (s : SmallBytes) : result bytes :=
  match s with
  | Inline len content => slice content 0 len
  | Heap vector => Ok vector
  end.

(** A write through [deref_mut]: the slice keeps its length. *)
Definition deref_mut (s : SmallBytes) (f : bytes -> bytes) : result SmallBytes :=
  match s with
  | Inline len content =>
      let* view := slice content 0 len in
      let* content := put content 0 len (f view) in
      Ok (Inline len content)
  | Heap vector => Ok (Heap (f vector))
  end.

Definition small_eq (a b : SmallBytes) : result bool :=
  let* x := as_slice a in let* y := as_slice b in Ok (bytes_eqb x y).

Definition small_cmp (a b : SmallBytes) : result comparison :=
  let* x := as_slice a in let* y := as_slice b in Ok (bytes_cmp x y).

(** ** The string a value stands for *)

(** The invariant of the type: its fields are private and every constructor
    establishes it. *)
Definition small_wf (s : SmallBytes) : Prop :=
  match s with Inline len content => 0 <= len <= INLINE /\ zlen content = INLINE | Heap _ => True end.

Definition contents (s : SmallBytes) : bytes :=
  match s with Inline len content => sub content 0 len | Heap vector => vector end.

Lemma as_slice_contents s : small_wf s -> as_slice s = Ok (contents s) /\ into_vec s = Ok (contents s).
Proof.
  destruct s as [len c|v]; [|done]. intros [Hl Hz]. cbn.
  assert (slice c 0 len = @Ok FormatError _ (sub c 0 len)) as ->.
  { apply wp_no_error, wp_slice; [lia|lia|done]. }
  done.
Qed.

Lemma from_slice_spec l :
  exists s, from_slice l = Ok s /\ from_vec l = Ok s /\ small_wf s /\ contents s = l.
Proof.
  unfold from_slice, from_vec, from_slice, INLINE. pose proof (zlen_nonneg l).
  destruct (zlen l <=? 22) eqn:E; [|by exists (Heap l)].
  set (c := blit (zeros 22) 0 l).
  assert (put (zeros 22) 0 (zlen l) l = @Ok FormatError _ c) as ->.
  { apply wp_no_error, wp_put; [lia|rewrite zlen_zeros; lia|lia|done]. }
  cbn [obind]. exists (Inline (zlen l mod 2 ^ 8) c). rewrite Z.mod_small by lia.
  assert (zlen c = 22) as Hc by (unfold c; rewrite zlen_blit; rewrite ?zlen_zeros; lia).
  split; [done|]. split; [done|]. split; [split; [unfold INLINE; lia|done]|].
  cbn [contents]. unfold c, blit. by rewrite take_sub, sub_empty, app_nil_l, sub_app_l, sub_all by lia.
Qed.

Lemma deref_mut_spec s f :
  small_wf s -> zlen (f (contents s)) = zlen (contents s) ->
  exists s', deref_mut s f = Ok s' /\ small_wf s' /\ contents s' = f (contents s).
Proof.
  destruct s as [len c|v]; intros Hwf Hf; [|by exists (Heap (f v))]. destruct Hwf as [Hl Hz]. cbn [contents] in *.
  rewrite zlen_sub in Hf by lia. cbn [deref_mut]. exists (Inline len (blit c 0 (f (sub c 0 len)))).
  split; [|split].
  - apply wp_no_error, wp_bind, wp_slice; [lia|lia|]. apply wp_bind, wp_put; [lia..|]. done.
  - split; [done|]. rewrite zlen_blit; lia.
  - cbn [contents]. unfold blit. by rewrite take_sub, sub_empty, app_nil_l, sub_app_l, sub_all by lia.
Qed.

(** ** Properties *)

(** the inline representation is invisible. Building a value from bytes,
    either way, succeeds and it reads back as those bytes; values compare and
    order as the byte strings they hold; and a write in place changes exactly
    those bytes. *)
Theorem small_bytes_transparent l k f :
  zlen (f l) = zlen l ->
  exists a b, from_slice l = Ok a /\ from_vec l = Ok a /\ from_slice k = Ok b /\
    as_slice a = Ok l /\ into_vec a = Ok l /\
    small_eq a b = Ok (bytes_eqb l k) /\ small_cmp a b = Ok (bytes_cmp l k) /\
    (exists a', deref_mut a f = Ok a' /\ as_slice a' = Ok (f l)).
Proof.
  intros Hf. destruct (from_slice_spec l) as (a & Ha & Hv & Hwa & Hca).
  destruct (from_slice_spec k) as (b & Hb & _ & Hwb & Hcb). exists a, b.
  destruct (as_slice_contents a Hwa) as [Hsa Hia], (as_slice_contents b Hwb) as [Hsb _].
  destruct (deref_mut_spec a f Hwa) as (a' & Hm & Hwa' & Hca'); [by rewrite Hca|].
  rewrite Hca in *. rewrite Hcb in *. unfold small_eq, small_cmp. rewrite Hsa, Hsb. split_and!; try done.
  exists a'. split; [done|]. destruct (as_slice_contents a' Hwa') as [-> _]. by rewrite Hca'.
Qed.

Lemma small_bytes_transparent_witness :
  exists a b, from_slice [Byte.x62] = Ok a /\ from_vec [Byte.x62] = Ok a /\ from_slice (zeros 23) = Ok b /\
    as_slice a = Ok [Byte.x62] /\ into_vec a = Ok [Byte.x62] /\
    small_eq a b = Ok (bytes_eqb [Byte.x62] (zeros 23)) /\ small_cmp a b = Ok (bytes_cmp [Byte.x62] (zeros 23)) /\
    (exists a', deref_mut a (map (fun _ => Byte.x00)) = Ok a' /\ as_slice a' = Ok (map (fun _ => Byte.x00) [Byte.x62])).
Proof. apply (small_bytes_transparent [Byte.x62] (zeros 23) (map (fun _ => Byte.x00))). reflexivity. Defined.
