(* ===== verification/Device.v ===== *)
(** * Block devices (crates/afsplus-block/src: lib.rs, memory.rs, slice.rs)

    The [BlockDevice] trait, the contract its implementations keep towards
    the core, and two backends: the sparse memory image and a partition
    slice.  The slice is proved to keep the contract for any inner device
    that keeps it. *)

From S2P Require Import Prelude.

(** ** Code with a mutable state

    [io S E A] is code that mutates an [S], and returns or fails.  An error
    keeps the state reached when it was raised, as a [&mut self] method does. *)

Definition io (S E A : Type) : Type := S -> S * outcome E A.

Definition iret {S E A} (a : A) : io S E A := fun s => (s, Ok a).
Definition ierr {S E A} (e : E) : io S E A := fun s => (s, Err e).
Definition ibind {S E A B} (m : io S E A) (k : A -> io S E B) : io S E B := fun s =>
  match m s with
  | (s, Ok a) => k a s
  | (s, Err e) => (s, Err e)
  | (s, Panic) => (s, Panic)
  end.
Definition ilift {S E A} (c : outcome E A) : io S E A := fun s => (s, c).
Definition iget {S E A} (f : S -> A) : io S E A := fun s => (s, Ok (f s)).
Definition imodify {S E} (f : S -> S) : io S E unit := fun s => (f s, Ok tt).

(** A method of a field: [self.inner.method(..)]. *)
Definition izoom {S T E A} (get : S -> T) (set : T -> S -> S) (m : io T E A) : io S E A := fun s =>
  let '(t, r) := m (get s) in (set t s, r).

Notation "'let!' x ':=' c 'in' k" := (ibind c (fun x => k))
  (at level 10, x name, c at level 100, k at level 200) : afs_scope.
Notation "'let!' ' p ':=' c 'in' k" := (ibind c (fun p => k))
  (at level 10, p strict pattern, c at level 100, k at level 200) : afs_scope.
Notation "'do!' c 'in' k" := (ibind c (fun _ => k))
  (at level 10, c at level 100, k at level 200) : afs_scope.

(** [for x in l { f(x)?; }], and the same with the running index. *)
Fixpoint ieach {S E A} (f : A -> io S E unit) (l : list A) : io S E unit :=
  match l with
  | [] => iret tt
  | x :: l => do! f x in ieach f l
  end.

Fixpoint ieachi {S E A} (f : Z -> A -> io S E unit) (i : Z) (l : list A) : io S E unit :=
  match l with
  | [] => iret tt
  | x :: l => do! f i x in ieachi f (i + 1) l
  end.

(** Weakest precondition: no panic, [Q] of a result and the final state, [R] of an error
    and the final state. *)
Definition wpi {S E A} (m : io S E A) (s : S) (Q : A -> S -> Prop) (R : E -> S -> Prop) : Prop :=
  match m s with
  | (s, Ok a) => Q a s
  | (s, Err e) => R e s
  | (s, Panic) => False
  end.

Section WpiRules.
Context {S E : Type}.
Implicit Types R : E -> S -> Prop.

Lemma wpi_ret {A} (a : A) s (Q : A -> S -> Prop) R : Q a s -> wpi (iret a) s Q R.
Proof. done. Qed.

Lemma wpi_err {A} (e : E) s (Q : A -> S -> Prop) R : R e s -> wpi (ierr e) s Q R.
Proof. done. Qed.

Lemma wpi_bind {A B} (m : io S E A) (k : A -> io S E B) s Q R :
  wpi m s (fun a s => wpi (k a) s Q R) R -> wpi (ibind m k) s Q R.
Proof. unfold wpi, ibind. by destruct (m s) as [? [?|?|]]. Qed.

Lemma wpi_mono {A} (m : io S E A) s (Q Q' : A -> S -> Prop) (R R' : E -> S -> Prop) :
  wpi m s Q R -> (forall a s, Q a s -> Q' a s) -> (forall e s, R e s -> R' e s) -> wpi m s Q' R'.
Proof. unfold wpi. destruct (m s) as [? [?|?|]]; auto. Qed.

Lemma wpi_lift {A} (c : outcome E A) s (Q : A -> S -> Prop) R :
  wp c (fun a => Q a s) (fun e => R e s) -> wpi (ilift c) s Q R.
Proof. by destruct c. Qed.

Lemma wpi_if {A} (b : bool) (m n : io S E A) s Q R :
  (b = true -> wpi m s Q R) -> (b = false -> wpi n s Q R) -> wpi (if b then m else n) s Q R.
Proof. destruct b; auto. Qed.

(** What holds of a run that is known. *)
Lemma wpi_run {A} (m : io S E A) s s' a (Q : A -> S -> Prop) R :
  wpi m s Q R -> m s = (s', Ok a) -> Q a s'.
Proof. unfold wpi. by intros H E'; rewrite E' in H. Qed.
End WpiRules.

Lemma wpi_zoom {S T E A} (get : T -> S) (set : S -> T -> T) (m : io S E A) t Q R :
  wpi m (get t) (fun a s => Q a (set s t)) (fun e s => R e (set s t)) -> wpi (izoom get set m) t Q R.
Proof. unfold wpi, izoom. by destruct (m (get t)) as [? [?|?|]]. Qed.

Lemma wpi_get {S E X} (f : S -> X) s (Q : X -> S -> Prop) (R : E -> S -> Prop) : Q (f s) s -> wpi (iget f) s Q R.
Proof. done. Qed.

Lemma wpi_modify {S E} (f : S -> S) s (Q : unit -> S -> Prop) (R : E -> S -> Prop) : Q tt (f s) -> wpi (imodify f) s Q R.
Proof. done. Qed.

(** Remember the run itself. *)
Lemma wpi_keep {S E A} (m : io S E A) s (Q : A -> S -> Prop) (R : E -> S -> Prop) :
  wpi m s Q R ->
  wpi m s (fun a t => Q a t /\ m s = (t, Ok a)) (fun e t => R e t /\ m s = (t, Err e)).
Proof. unfold wpi. by destruct (m s) as [? [?|?|]]. Qed.

(** ** lib.rs *)

Inductive BlockError : Type :=
| OutOfBounds (lba total_blocks : Z)
| WrongBlockBuffer (expected actual : Z)
| Injected (point : string)
| BlockIo (message : string).

(** The trait.  A read takes the length of the caller's buffer and returns
    the bytes it is filled with.  [V] is what callers attach to a block. *)
Class BlockDevice (V D : Type) := {
  dev_block_size : D -> Z;
  dev_total_blocks : D -> Z;
  read_block : Z -> Z -> io D BlockError bytes;
  write_block : Z -> bytes -> io D BlockError unit;
  flush : io D BlockError unit;
  attached : D -> Z -> option V;
  attach : D -> Z -> V -> D;
}.
#[global] Hint Mode BlockDevice - ! : typeclass_instances.

Definition check_access (lba total_blocks buf_len block_size : Z) : outcome BlockError unit :=
  if total_blocks <=? lba then Err (OutOfBounds lba total_blocks) else
  if negb (buf_len =? block_size) then Err (WrongBlockBuffer block_size buf_len) else
  Ok tt.

Lemma wp_check_access lba total len bs (Q : unit -> Prop) (R : BlockError -> Prop) :
  (lba < total -> len = bs -> Q tt) -> (total <= lba -> R (OutOfBounds lba total)) ->
  (lba < total -> len <> bs -> R (WrongBlockBuffer bs len)) ->
  wp (check_access lba total len bs) Q R.
Proof.
  intros. unfold check_access. apply wp_if; intros; [apply wp_err; auto with lia|].
  apply wp_if; intros; [apply wp_err; auto with lia|]. apply wp_ok; auto with lia.
Qed.

Lemma check_access_ok lba total len bs u :
  check_access lba total len bs = Ok u -> lba < total /\ len = bs.
Proof. unfold check_access. destruct (_ <=? _) eqn:?; [done|]. destruct (negb _) eqn:?; [done|]. lia. Qed.

(** ** The contract of a device

    [view d a] is the content of block [a].  A successful read returns it, a
    successful write replaces it, and a failed write may have changed the
    written block but no other.  [decodes v b] is what callers promise of a
    value they attach to a block holding [b], and get back. *)

Section Contract.
Context {V D : Type} `{!BlockDevice V D}.

Definition inside (d : D) (a : Z) : Prop := 0 <= a < dev_total_blocks d.

Definition same_shape (d d' : D) : Prop :=
  dev_block_size d' = dev_block_size d /\ dev_total_blocks d' = dev_total_blocks d.

(** [d'] holds what [d] holds, except for the blocks of [P]. *)
Definition agree_off (ok : D -> Prop) (view : D -> Z -> bytes) (P : Z -> Prop) (d d' : D) : Prop :=
  ok d' /\ same_shape d d' /\ forall a, inside d a -> ~ P a -> view d' a = view d a.

Lemma agree_refl (ok : D -> Prop) view P d : ok d -> agree_off ok view P d d.
Proof. done. Qed.

Lemma agree_trans (ok : D -> Prop) view P d d' d'' :
  agree_off ok view P d d' -> agree_off ok view P d' d'' -> agree_off ok view P d d''.
Proof.
  intros (? & [Hb Ht] & Hv) (? & [Hb' Ht'] & Hv'). split; [done|]. split; [split; congruence|].
  intros a Ha HP. rewrite Hv'; [by apply Hv| |done]. unfold inside in *. by rewrite Ht.
Qed.

Lemma agree_mono (ok : D -> Prop) view (P P' : Z -> Prop) d d' :
  agree_off ok view P d d' -> (forall a, P a -> P' a) -> agree_off ok view P' d d'.
Proof. intros (? & ? & Hv) HP. split; [done|]. split; [done|]. intros a ??. apply Hv; auto. Qed.
End Contract.

Class DeviceContract (V D : Type) {device : BlockDevice V D} (decodes : V -> bytes -> Prop) := {
  dev_ok : D -> Prop;
  view : D -> Z -> bytes;
  ok_view d a : dev_ok d -> inside d a -> zlen (view d a) = dev_block_size d;
  ok_size d : dev_ok d -> u64 (dev_total_blocks d) /\ 0 < dev_block_size d < 2 ^ 32;
  read_contract d lba n : dev_ok d -> u64 lba ->
    wpi (read_block lba n) d
      (fun b d' => inside d lba /\ n = dev_block_size d /\ b = view d lba /\
                   agree_off dev_ok view (fun _ => False) d d')
      (fun _ d' => agree_off dev_ok view (fun _ => False) d d');
  write_contract d lba data : dev_ok d -> u64 lba ->
    wpi (write_block lba data) d
      (fun _ d' => inside d lba /\ zlen data = dev_block_size d /\ view d' lba = data /\
                   agree_off dev_ok view (fun a => a = lba) d d')
      (fun _ d' => agree_off dev_ok view (fun a => a = lba) d d');
  flush_contract d : dev_ok d ->
    wpi flush d (fun _ d' => agree_off dev_ok view (fun _ => False) d d')
                (fun _ d' => agree_off dev_ok view (fun _ => False) d d');
  attached_contract d a v : dev_ok d -> attached d a = Some v -> inside d a /\ decodes v (view d a);
  attach_contract d a v : dev_ok d -> (inside d a -> decodes v (view d a)) ->
    agree_off dev_ok view (fun _ => False) d (attach d a v);
}.
#[global] Hint Mode DeviceContract - ! - - : typeclass_instances.

(** A device that refuses a request only for its address or size. *)
Class ReliableDevice (V D : Type) {device : BlockDevice V D} (decodes : V -> bytes -> Prop)
    {contract : DeviceContract V D decodes} := {
  read_answer (d : D) lba n : dev_ok d -> u64 lba ->
    snd (read_block lba n d) =
      (do* check_access lba (dev_total_blocks d) n (dev_block_size d) in Ok (view d lba));
  write_answer (d : D) lba data : dev_ok d -> u64 lba ->
    snd (write_block lba data d) = check_access lba (dev_total_blocks d) (zlen data) (dev_block_size d);
  write_refused (d : D) lba data e : dev_ok d -> u64 lba -> snd (write_block lba data d) = Err e ->
    agree_off dev_ok view (fun _ => False) d (fst (write_block lba data d));
  flush_answer (d : D) : dev_ok d -> snd (flush d) = Ok tt;
}.

(** ** memory.rs *)

Definition is_power_of_two (n : Z) : bool := (0 <? n) && (Z.land n (n - 1) =? 0).

Record MemoryBackend := {
  mb_block_size : Z;
  mb_total_blocks : Z;
  mb_blocks : gmap Z bytes;
}.

Definition MemoryBackend_new {E} (block_size total_blocks : Z) : outcome E MemoryBackend :=
  if is_power_of_two block_size && (512 <=? block_size) then
    Ok {| mb_block_size := block_size; mb_total_blocks := total_blocks; mb_blocks := ∅ |}
  else Panic.

Definition mb_insert (lba : Z) (data : bytes) (m : MemoryBackend) : MemoryBackend :=
  {| mb_block_size := mb_block_size m; mb_total_blocks := mb_total_blocks m;
     mb_blocks := <[lba := data]> (mb_blocks m) |}.

Definition apply_raw {E} (m : MemoryBackend) (lba : Z) (data : bytes) : outcome E MemoryBackend :=
  if zlen data =? mb_block_size m then Ok (mb_insert lba data m) else Panic.

Definition peek (m : MemoryBackend) (lba : Z) : bytes :=
  match mb_blocks m !! lba with
  | Some data => data
  | None => zeros (mb_block_size m)
  end.

(** [copy_from_slice] of a stored block panics when the lengths differ. *)
Definition memory_read_block (lba len : Z) : io MemoryBackend BlockError bytes := fun m =>
  (m, do* check_access lba (mb_total_blocks m) len (mb_block_size m) in
      match mb_blocks m !! lba with
      | Some data => if zlen data =? len then Ok data else Panic
      | None => Ok (zeros len)
      end).

Definition memory_write_block (lba : Z) (data : bytes) : io MemoryBackend BlockError unit := fun m =>
  match check_access lba (mb_total_blocks m) (zlen data) (mb_block_size m) with
  | Ok _ => (mb_insert lba data m, Ok tt)
  | Err e => (m, Err e)
  | Panic => (m, Panic)
  end.

#[global] Instance memory_device : BlockDevice Empty_set MemoryBackend := {
  dev_block_size := mb_block_size;
  dev_total_blocks := mb_total_blocks;
  read_block := memory_read_block;
  write_block := memory_write_block;
  flush := iret tt;
  attached _ _ := None;
  attach d _ _ := d;
}.

Definition memory_ok (m : MemoryBackend) : Prop :=
  u64 (mb_total_blocks m) /\ 0 < mb_block_size m < 2 ^ 32 /\
  map_Forall (fun _ data => zlen data = mb_block_size m) (mb_blocks m).

Lemma peek_len m a : memory_ok m -> zlen (peek m a) = mb_block_size m.
Proof.
  intros (_ & ? & Hm). unfold peek. destruct (_ !! a) as [b|] eqn:Hb; [by apply (Hm a)|].
  apply zlen_zeros. lia.
Qed.

Lemma mb_insert_ok m lba data :
  memory_ok m -> zlen data = mb_block_size m -> memory_ok (mb_insert lba data m).
Proof. intros (? & ? & ?) ?. split; [done|]. split; [done|]. by apply map_Forall_insert_2. Qed.

Lemma peek_insert_eq m lba data : peek (mb_insert lba data m) lba = data.
Proof. unfold peek, mb_insert; cbn [mb_blocks]. by rewrite lookup_insert_eq. Qed.

Lemma peek_insert_ne m lba data a : a <> lba -> peek (mb_insert lba data m) a = peek m a.
Proof. intros. unfold peek, mb_insert; cbn [mb_blocks mb_block_size]. by rewrite lookup_insert_ne. Qed.

Lemma memory_read_run m lba :
  memory_ok m -> 0 <= lba < mb_total_blocks m ->
  memory_read_block lba (mb_block_size m) m = (m, Ok (peek m lba)).
Proof.
  intros (_ & ? & Hm) ?. unfold memory_read_block, check_access, peek.
  rewrite (proj2 (Z.leb_gt _ _)), Z.eqb_refl by lia. cbn [negb obind].
  destruct (_ !! lba) as [b|] eqn:Hb; [|done].
  by rewrite (proj2 (Z.eqb_eq _ _) (Hm _ _ Hb)).
Qed.

Lemma memory_write_run m lba data :
  0 <= lba < mb_total_blocks m -> zlen data = mb_block_size m ->
  memory_write_block lba data m = (mb_insert lba data m, Ok tt).
Proof.
  intros ? Hd. unfold memory_write_block, check_access.
  by rewrite (proj2 (Z.leb_gt _ _)), Hd, Z.eqb_refl by lia.
Qed.

Definition no_values : Empty_set -> bytes -> Prop := fun _ _ => True.

Lemma memory_refuses lba len m (Q : unit -> Prop) :
  (lba < mb_total_blocks m -> len = mb_block_size m -> Q tt) ->
  wp (check_access lba (mb_total_blocks m) len (mb_block_size m)) Q any_error.
Proof. intros. by apply wp_check_access. Qed.

#[global] Instance memory_contract : DeviceContract Empty_set MemoryBackend no_values.
Proof.
  refine {| dev_ok := memory_ok; view := peek |}.
  - intros d a ??. by apply peek_len.
  - by intros d (? & ? & _).
  - intros d lba n Hd Hl. pose proof (memory_refuses lba n d (fun _ => lba < mb_total_blocks d /\ n = mb_block_size d)) as Hc.
    unfold wpi; cbn [read_block memory_device]. destruct (check_access lba (mb_total_blocks d) n (mb_block_size d)) as [[]|e|] eqn:Hca.
    + destruct (Hc ltac:(auto)) as [? ->]. rewrite memory_read_run by (unfold u64 in *; auto with lia).
      split; [split; [apply Hl|done]|done].
    + unfold memory_read_block. by rewrite Hca.
    + by destruct (Hc ltac:(auto)).
  - intros d lba data Hd Hl. pose proof (memory_refuses lba (zlen data) d (fun _ => lba < mb_total_blocks d /\ zlen data = mb_block_size d)) as Hc.
    unfold wpi; cbn [write_block memory_device]. unfold memory_write_block.
    destruct (check_access lba (mb_total_blocks d) (zlen data) (mb_block_size d)) as [[]|e|].
    + destruct (Hc ltac:(auto)) as [? Hz]. split; [split; [apply Hl|done]|]. split; [done|].
      split; [apply peek_insert_eq|]. split; [by apply mb_insert_ok|]. split; [done|].
      intros. by apply peek_insert_ne.
    + done.
    + by destruct (Hc ltac:(auto)).
  - intros d Hd. done.
  - done.
  - done.
Defined.

#[global] Instance memory_reliable : ReliableDevice Empty_set MemoryBackend no_values.
Proof.
  split; cbn [read_block write_block flush dev_total_blocks dev_block_size memory_device view memory_contract].
  - intros d lba n Hd Hl. unfold memory_read_block. cbn [snd].
    destruct (check_access _ _ _ _) as [[]|e|] eqn:Hc; [|done..]. cbn [obind].
    apply check_access_ok in Hc as [? ->]. unfold u64 in *.
    pose proof (memory_read_run d lba Hd ltac:(lia)) as Hr. unfold memory_read_block, check_access in Hr.
    rewrite (proj2 (Z.leb_gt _ _)), Z.eqb_refl in Hr by lia. by injection Hr.
  - intros d lba data Hd Hl. unfold memory_write_block. by destruct (check_access _ _ _ _) as [[]|e|].
  - intros d lba data e Hd Hl. unfold memory_write_block. by destruct (check_access _ _ _ _) as [[]|e'|].
  - done.
Qed.

(** ** slice.rs *)

Record SliceBackend (D : Type) := {
  sb_inner : D;
  sb_start : Z;
  sb_blocks : Z;
}.
Arguments sb_inner {D} _.
Arguments sb_start {D} _.
Arguments sb_blocks {D} _.
Arguments Build_SliceBackend {D} _ _ _.

Section Slice.
Context {V D : Type} `{device : !BlockDevice V D}.

Definition SliceBackend_new (inner : D) (start blocks : Z) : outcome BlockError (SliceBackend D) :=
  let capacity := dev_total_blocks inner in
  let* refused :=
    if (capacity <=? start) || (blocks =? 0) then Ok true
    else let* room := sub_w capacity start in Ok (room <? blocks) in
  if (refused : bool) then Err (OutOfBounds start capacity) else
  Ok {| sb_inner := inner; sb_start := start; sb_blocks := blocks |}.

Definition set_sb_inner (inner : D) (s : SliceBackend D) : SliceBackend D :=
  {| sb_inner := inner; sb_start := sb_start s; sb_blocks := sb_blocks s |}.

Definition slice_read_block (lba len : Z) : io (SliceBackend D) BlockError bytes := fun s =>
  (do! ilift (check_access lba (sb_blocks s) len (dev_block_size (sb_inner s))) in
   let! at_ := ilift (add_w 64 (sb_start s) lba) in
   izoom sb_inner set_sb_inner (read_block at_ len)) s.

Definition slice_write_block (lba : Z) (data : bytes) : io (SliceBackend D) BlockError unit := fun s =>
  (do! ilift (check_access lba (sb_blocks s) (zlen data) (dev_block_size (sb_inner s))) in
   let! at_ := ilift (add_w 64 (sb_start s) lba) in
   izoom sb_inner set_sb_inner (write_block at_ data)) s.

#[global] Instance slice_device : BlockDevice V (SliceBackend D) := {
  dev_block_size s := dev_block_size (sb_inner s);
  dev_total_blocks := sb_blocks;
  read_block := slice_read_block;
  write_block := slice_write_block;
  flush := izoom sb_inner set_sb_inner flush;
  attached _ _ := None;
  attach s _ _ := s;
}.

Context {decodes : V -> bytes -> Prop} {contract : DeviceContract V D decodes}.

(** The window lies inside the parent. *)
Definition slice_ok (s : SliceBackend D) : Prop :=
  dev_ok (sb_inner s) /\ 0 <= sb_start s /\ 0 <= sb_blocks s /\
  sb_start s + sb_blocks s <= dev_total_blocks (sb_inner s).

Definition slice_view (s : SliceBackend D) (a : Z) : bytes := view (sb_inner s) (sb_start s + a).

Definition in_window (s : SliceBackend D) (a : Z) : Prop := sb_start s <= a < sb_start s + sb_blocks s.

Lemma SliceBackend_new_ok inner start blocks :
  dev_ok inner -> u64 start -> u64 blocks ->
  wp (SliceBackend_new inner start blocks)
     (fun s => slice_ok s /\ s = {| sb_inner := inner; sb_start := start; sb_blocks := blocks |} /\ 0 < blocks)
     (fun e => e = OutOfBounds start (dev_total_blocks inner) /\
               (blocks = 0 \/ dev_total_blocks inner < start + blocks)).
Proof.
  intros Hi Hs Hb. unfold u64 in *. unfold SliceBackend_new.
  destruct (_ || _) eqn:Hc; cbn [obind].
  - apply wp_err. split; [done|]. lia.
  - unfold sub_w. rewrite (proj2 (Z.leb_le _ _)) by lia. cbn [obind].
    apply wp_if; intros; [apply wp_err; split; [done|]; lia|]. apply wp_ok.
    unfold slice_ok; cbn. repeat split; try done; lia.
Qed.

(** An access reaches the parent only inside the window, at the translated
    address. *)
Lemma slice_access {A} s lba len (m : Z -> io D BlockError A) (Q : A -> _ -> Prop) R :
  slice_ok s -> u64 lba ->
  (lba < sb_blocks s -> len = dev_block_size (sb_inner s) ->
   wpi (m (sb_start s + lba)) (sb_inner s)
     (fun a i => Q a (set_sb_inner i s)) (fun e i => R e (set_sb_inner i s))) ->
  (forall e, R e s) ->
  wpi (fun s => (do! ilift (check_access lba (sb_blocks s) len (dev_block_size (sb_inner s))) in
                 let! at_ := ilift (add_w 64 (sb_start s) lba) in
                 izoom sb_inner set_sb_inner (m at_)) s) s Q R.
Proof.
  intros (Hi & ?) ? Hm HR. unfold wpi at 1. fold (wpi
    (do! ilift (check_access lba (sb_blocks s) len (dev_block_size (sb_inner s))) in
     let! at_ := ilift (add_w 64 (sb_start s) lba) in
     izoom sb_inner set_sb_inner (m at_)) s Q R).
  apply wpi_bind, wpi_lift, wp_check_access; [|auto..].
  intros Hl Hn. apply wpi_bind, wpi_lift, wp_add_w.
  - destruct (ok_size _ Hi) as [Ht _]. unfold u64 in *. lia.
  - apply wpi_zoom. by apply Hm.
Qed.

Lemma slice_agree s i (P P' : Z -> Prop) :
  slice_ok s -> agree_off dev_ok view P (sb_inner s) i ->
  (forall a, P (sb_start s + a) -> P' a) ->
  agree_off slice_ok slice_view P' s (set_sb_inner i s).
Proof.
  intros (Hi & ? & ? & ?) (Hi' & [Hbs Ht] & Hv) HP.
  split; [split; [done|]; cbn; rewrite Ht; auto|]. split; [by split|].
  intros a [??] Ha. cbn in *. unfold slice_view; cbn. apply Hv; [split; lia|]. auto.
Qed.

(** The two ends of a check: refused by the slice, or admitted by the slice
    and by the parent. *)
Lemma slice_at s lba : slice_ok s -> u64 lba -> lba < sb_blocks s -> u64 (sb_start s + lba).
Proof. intros (Hi & ?) ??. destruct (ok_size _ Hi) as [Ht _]. unfold u64 in *. lia. Qed.

Lemma slice_run s lba n :
  slice_ok s -> u64 lba ->
  (check_access lba (sb_blocks s) n (dev_block_size (sb_inner s)) = Ok tt /\
   (lba < sb_blocks s /\ n = dev_block_size (sb_inner s)) /\
   @add_w BlockError 64 (sb_start s) lba = Ok (sb_start s + lba)) \/
  exists e, check_access lba (sb_blocks s) n (dev_block_size (sb_inner s)) = Err e.
Proof.
  intros Hs Hl. unfold check_access. destruct (_ <=? _) eqn:Hb; [by right; eexists|].
  destruct (negb _) eqn:?; [by right; eexists|]. left. split; [done|]. split; [lia|].
  pose proof (slice_at s lba Hs Hl ltac:(lia)) as Ha. unfold add_w, u64 in *.
  by rewrite (proj2 (Z.ltb_lt _ _)) by lia.
Qed.

Lemma slice_check s lba n :
  slice_ok s -> lba < sb_blocks s /\ n = dev_block_size (sb_inner s) ->
  check_access (sb_start s + lba) (dev_total_blocks (sb_inner s)) n (dev_block_size (sb_inner s)) = Ok tt.
Proof.
  intros (_ & ? & ? & ?) [? ->]. unfold check_access.
  by rewrite (proj2 (Z.leb_gt _ _)), Z.eqb_refl by lia.
Qed.

#[global] Instance slice_contract : DeviceContract V (SliceBackend D) decodes.
Proof.
  refine {| dev_ok := slice_ok; view := slice_view |}.
  - intros s a (Hi & ? & ? & ?) [??]. cbn in *. apply ok_view; [done|]. split; lia.
  - intros s (Hi & ? & ? & ?). cbn. destruct (ok_size _ Hi) as [Ht Hb]. split; [|done]. unfold u64 in *. lia.
  - intros s lba n Hs Hl. apply (slice_access s lba n (fun at_ => read_block at_ n)); [done..| |].
    + intros Hlt ->. pose proof Hs as (Hi & ? & ? & ?).
      eapply wpi_mono; [apply read_contract; [done|]|..].
      * destruct (ok_size _ Hi) as [Ht _]. unfold u64 in *. lia.
      * intros b i (? & _ & -> & Ha). split; [split; [apply Hl|done]|]. split; [done|]. split; [done|].
        by apply (slice_agree _ _ _ _ Hs Ha).
      * intros e i Ha. by apply (slice_agree _ _ _ _ Hs Ha).
    + intros e. by apply agree_refl.
  - intros s lba data Hs Hl. apply (slice_access s lba (zlen data) (fun at_ => write_block at_ data)); [done..| |].
    + intros Hlt Hz. pose proof Hs as (Hi & ? & ? & ?).
      eapply wpi_mono; [apply write_contract; [done|]|..].
      * destruct (ok_size _ Hi) as [Ht _]. unfold u64 in *. lia.
      * intros b i (? & _ & Hw & Ha). split; [split; [apply Hl|done]|]. split; [done|]. split; [done|].
        apply (slice_agree _ _ _ _ Hs Ha). cbn. lia.
      * intros e i Ha. apply (slice_agree _ _ _ _ Hs Ha). cbn. lia.
    + intros e. by apply agree_refl.
  - intros s Hs. apply wpi_zoom. eapply wpi_mono; [apply flush_contract, Hs|..];
      intros ? i Ha; by apply (slice_agree _ _ _ _ Hs Ha).
  - done.
  - intros s a v Hs _. by apply agree_refl.
Defined.

Context {reliable : ReliableDevice V D decodes}.

#[global] Instance slice_reliable : ReliableDevice V (SliceBackend D) decodes.
Proof.
  split; cbn [read_block write_block flush dev_total_blocks dev_block_size slice_device view slice_contract dev_ok].
  - intros s lba n Hs Hl. destruct (slice_run s lba n Hs Hl) as [(Hc & Hin & Ha)|[e Hc]];
      unfold slice_read_block, ibind, ilift; rewrite Hc; [|done]. cbn [obind].
    rewrite Ha. unfold izoom.
    pose proof (read_answer (sb_inner s) (sb_start s + lba) n) as Hr.
    destruct (read_block _ n (sb_inner s)) as [i r]. cbn [snd] in *.
    rewrite Hr; [|apply Hs|by apply slice_at, Hin]. by rewrite (slice_check s lba n Hs Hin).
  - intros s lba data Hs Hl. destruct (slice_run s lba (zlen data) Hs Hl) as [(Hc & Hin & Ha)|[e Hc]];
      unfold slice_write_block, ibind, ilift; rewrite Hc; [|done].
    rewrite Ha. unfold izoom.
    pose proof (write_answer (sb_inner s) (sb_start s + lba) data) as Hr.
    destruct (write_block _ data (sb_inner s)) as [i r]. cbn [snd] in *.
    rewrite Hr; [|apply Hs|by apply slice_at, Hin]. by rewrite (slice_check s lba _ Hs Hin).
  - intros s lba data e Hs Hl. destruct (slice_run s lba (zlen data) Hs Hl) as [(Hc & Hin & Ha)|[e' Hc]];
      unfold slice_write_block, ibind, ilift; rewrite Hc; [|by intros; apply agree_refl].
    rewrite Ha. unfold izoom.
    pose proof (write_answer (sb_inner s) (sb_start s + lba) data) as Hr.
    destruct (write_block _ data (sb_inner s)) as [i r]. cbn [snd] in *.
    rewrite Hr; [|apply Hs|by apply slice_at, Hin]. by rewrite (slice_check s lba _ Hs Hin).
  - intros s Hs. unfold izoom. pose proof (flush_answer (sb_inner s)) as Hf.
    destruct (flush (sb_inner s)). by apply Hf, Hs.
Qed.
End Slice.

(** ** A flat store as the reference for a sequence of requests *)

Inductive dev_op : Type :=
| OpRead (lba len : Z)
| OpWrite (lba : Z) (data : bytes)
| OpFlush.

Definition op_typed (op : dev_op) : Prop :=
  match op with OpRead lba _ | OpWrite lba _ => u64 lba | OpFlush => True end.

(** What the store answers, and what it holds afterwards. *)
Definition store_op (total bs : Z) (c : Z -> bytes) (op : dev_op) :
    (Z -> bytes) * outcome BlockError bytes :=
  match op with
  | OpRead lba len => (c, do* check_access lba total len bs in Ok (c lba))
  | OpWrite lba data =>
      match check_access lba total (zlen data) bs with
      | Ok _ => (fun a => if a =? lba then data else c a, Ok [])
      | Err e => (c, Err e)
      | Panic => (c, Panic)
      end
  | OpFlush => (c, Ok [])
  end.

Fixpoint store_run (total bs : Z) (c : Z -> bytes) (ops : list dev_op) :
    (Z -> bytes) * list (outcome BlockError bytes) :=
  match ops with
  | [] => (c, [])
  | op :: ops =>
      let '(c, r) := store_op total bs c op in
      let '(c, rs) := store_run total bs c ops in (c, r :: rs)
  end.

Section Runs.
Context {V D : Type} `{device : !BlockDevice V D}.

Definition run_op (op : dev_op) : io D BlockError bytes :=
  match op with
  | OpRead lba len => read_block lba len
  | OpWrite lba data => do! write_block lba data in iret []
  | OpFlush => do! flush in iret []
  end.

Fixpoint run_ops (ops : list dev_op) (d : D) : D * list (outcome BlockError bytes) :=
  match ops with
  | [] => (d, [])
  | op :: ops =>
      let '(d, r) := run_op op d in
      let '(d, rs) := run_ops ops d in (d, r :: rs)
  end.

Context {decodes : V -> bytes -> Prop} {contract : DeviceContract V D decodes}.

(** Whatever happens, an operation keeps the invariant and the shape, and
    touches no block but the one it writes. *)
Lemma run_op_agree d op :
  dev_ok d -> op_typed op ->
  agree_off dev_ok view (fun a => match op with OpWrite lba _ => a = lba | _ => False end)
    d (fst (run_op op d)).
Proof.
  intros Hd Ht. destruct op as [lba n|lba data|]; cbn [run_op op_typed] in *.
  - pose proof (read_contract d lba n Hd Ht) as H. unfold wpi in H.
    destruct (read_block lba n d) as [d' [b|e|]]; cbn [fst]; [apply H|apply H|done].
  - pose proof (write_contract d lba data Hd Ht) as H. unfold wpi, ibind in *.
    destruct (write_block lba data d) as [d' [b|e|]]; cbn [fst]; [apply H|apply H|done].
  - pose proof (flush_contract d Hd) as H. unfold wpi, ibind in *.
    destruct (flush d) as [d' [b|e|]]; cbn [fst]; [apply H|apply H|done].
Qed.

Context {reliable : ReliableDevice V D decodes}.

Definition holds (d : D) (c : Z -> bytes) : Prop := forall a, inside d a -> view d a = c a.

Lemma run_op_store d op c :
  dev_ok d -> op_typed op -> holds d c ->
  snd (run_op op d) = snd (store_op (dev_total_blocks d) (dev_block_size d) c op) /\
  holds (fst (run_op op d)) (fst (store_op (dev_total_blocks d) (dev_block_size d) c op)).
Proof.
  intros Hd Ht Hc. pose proof (run_op_agree d op Hd Ht) as (_ & [_ Hs] & Hv).
  assert (forall (d' : D) a, dev_total_blocks d' = dev_total_blocks d -> inside d' a -> inside d a) as Hin.
  { unfold inside. intros d' a ->. done. }
  destruct op as [lba n|lba data|]; cbn [run_op op_typed store_op] in *.
  - split; [|intros a Ha; rewrite Hv; eauto]. rewrite read_answer by done. cbn [snd].
    destruct (check_access _ _ _ _) eqn:E; [|done..]. cbn [obind].
    apply check_access_ok in E as [? _]. unfold u64 in *. rewrite Hc; [done|]. split; lia.
  - pose proof (write_answer d lba data Hd Ht) as Ha. pose proof (write_contract d lba data Hd Ht) as Hw.
    pose proof (write_refused d lba data) as Hr. unfold ibind, wpi in *.
    destruct (write_block lba data d) as [d' r]; cbn [snd fst] in *. rewrite Ha in Hw, Hr |- *.
    rewrite Ha in Hv, Hs. destruct (check_access _ _ _ _) as [[]|e|]; cbn [fst snd] in *; [|split; [done|]|done].
    + destruct Hw as (_ & _ & Hw & _). split; [done|]. intros a Hi. destruct (Z.eqb_spec a lba) as [->|]; [done|].
      rewrite Hv; eauto.
    + destruct (Hr e Hd Ht eq_refl) as (_ & [_ Hs'] & Hv'). intros a Hi. rewrite Hv'; eauto.
  - split; [|intros a Ha; rewrite Hv; eauto]. pose proof (flush_answer d Hd) as Ha. unfold ibind.
    destruct (flush d) as [d' r]. cbn [snd] in *. by rewrite Ha.
Qed.

Lemma run_ops_store ops : forall d c,
  dev_ok d -> Forall op_typed ops -> holds d c ->
  snd (run_ops ops d) = snd (store_run (dev_total_blocks d) (dev_block_size d) c ops).
Proof.
  induction ops as [|op ops IH]; intros d c Hd Ht Hc; [done|].
  apply Forall_cons in Ht as [Hop Ht]. cbn [run_ops store_run].
  pose proof (run_op_agree d op Hd Hop) as (Hd' & [Hbs Hn] & _).
  destruct (run_op_store d op c Hd Hop Hc) as [Ha Hh].
  destruct (run_op op d) as [d' r], (store_op _ _ c op) as [c' r']. cbn [fst snd] in *. subst r'.
  specialize (IH d' c' Hd' Ht Hh). rewrite Hn, Hbs in IH.
  destruct (run_ops ops d'), (store_run _ _ c' ops). cbn [snd] in *. by rewrite IH.
Qed.
End Runs.

(** ** A slice never reaches outside its window *)

Section Isolation.
Context {V D : Type} `{device : !BlockDevice V D} {decodes : V -> bytes -> Prop}.
Context {contract : DeviceContract V D decodes}.

Definition isolated (s s' : SliceBackend D) : Prop :=
  slice_ok s' /\ sb_start s' = sb_start s /\ sb_blocks s' = sb_blocks s /\
  same_shape (sb_inner s) (sb_inner s') /\
  forall a, inside (sb_inner s) a -> ~ in_window s a -> view (sb_inner s') a = view (sb_inner s) a.

Lemma isolated_set s i (P : Z -> Prop) :
  slice_ok s -> agree_off dev_ok view P (sb_inner s) i -> (forall a, P a -> in_window s a) ->
  isolated s (set_sb_inner i s).
Proof.
  intros Hs Ha HP. destruct (slice_agree s i P (fun _ => True) Hs Ha ltac:(done)) as [? _].
  destruct Ha as (_ & Hsh & Hv). do 4 (split; [done|]). intros a Hi Hw. apply Hv; auto.
Qed.

Lemma run_op_isolated s op : slice_ok s -> op_typed op -> isolated s (fst (run_op op s)).
Proof.
  intros Hs Ht.
  enough (wpi (run_op op) s (fun _ => isolated s) (fun _ => isolated s)) as H.
  { unfold wpi in H. by destruct (run_op op s) as [? [?|?|]]. }
  assert (isolated s s) as Hrefl by done.
  destruct op as [lba n|lba data|]; cbn [run_op op_typed] in *.
  - apply (slice_access s lba n (fun at_ => read_block at_ n)); [done..| |done].
    intros ? ->. eapply wpi_mono; [apply read_contract; [apply Hs|by apply slice_at]|..].
    + intros b i (_ & _ & _ & Ha). by apply (isolated_set s i _ Hs Ha).
    + intros e i Ha. by apply (isolated_set s i _ Hs Ha).
  - apply wpi_bind. apply (slice_access s lba (zlen data) (fun at_ => write_block at_ data)); [done..| |done].
    intros ? _. unfold u64 in Ht. eapply wpi_mono; [apply write_contract; [apply Hs|by apply slice_at]|..].
    + intros b i (_ & _ & _ & Ha). apply wpi_ret, (isolated_set s i _ Hs Ha). unfold in_window. lia.
    + intros e i Ha. apply (isolated_set s i _ Hs Ha). unfold in_window. lia.
  - apply wpi_bind, wpi_zoom. eapply wpi_mono; [apply flush_contract, Hs|..].
    + intros b i Ha. by apply wpi_ret, (isolated_set s i _ Hs Ha).
    + intros e i Ha. by apply (isolated_set s i _ Hs Ha).
Qed.

Lemma run_ops_isolated ops : forall s,
  slice_ok s -> Forall op_typed ops -> isolated s (fst (run_ops ops s)).
Proof.
  induction ops as [|op ops IH]; intros s Hs Ht; [done|]. apply Forall_cons in Ht as [Hop Ht].
  cbn [run_ops]. destruct (run_op_isolated s op Hs Hop) as (Hs' & Hst & Hbl & [Hb Hn] & Hv).
  destruct (run_op op s) as [s' r]. cbn [fst] in *.
  destruct (IH s' Hs' Ht) as (Hs'' & Hst' & Hbl' & [Hb' Hn'] & Hv').
  destruct (run_ops ops s') as [s'' rs]. cbn [fst] in *.
  split; [done|]. split; [congruence|]. split; [congruence|]. split; [split; congruence|].
  intros a Ha Hw. rewrite Hv'; [by apply Hv|unfold inside in *; by rewrite Hn|].
  unfold in_window in *. by rewrite Hst, Hbl.
Qed.
End Isolation.

(** C40: A partition view admits only a nonempty interval of its parent, and
    whatever requests are made of it, in range or not, and whichever of them
    fail, no block of the parent outside that interval changes. *)
Theorem slice_isolates {V D : Type} {device : BlockDevice V D} {decodes : V -> bytes -> Prop}
    {contract : DeviceContract V D decodes} (parent : D) (start blocks : Z) (s : SliceBackend D)
    (ops : list dev_op) :
  dev_ok parent -> u64 start -> u64 blocks ->
  SliceBackend_new parent start blocks = Ok s -> Forall op_typed ops ->
  0 < blocks /\ start + blocks <= dev_total_blocks parent /\
  forall a, inside parent a -> ~ (start <= a < start + blocks) ->
    view (sb_inner (fst (run_ops ops s))) a = view parent a.
Proof.
  intros Hp Hs Hb Hnew Ht.
  destruct (wp_of_ok _ _ _ _ (SliceBackend_new_ok parent start blocks Hp Hs Hb) Hnew) as (Hok & -> & ?).
  split; [done|]. split; [apply Hok|].
  destruct (run_ops_isolated ops _ Hok Ht) as (_ & _ & _ & _ & Hv). apply Hv.
Qed.

Definition twelve_blocks : MemoryBackend :=
  {| mb_block_size := 512; mb_total_blocks := 12; mb_blocks := ∅ |}.

Lemma twelve_blocks_ok : memory_ok twelve_blocks.
Proof. split; [by vm_compute|]. split; [by vm_compute|]. apply map_Forall_empty. Qed.

Lemma slice_isolates_witness :
  let s := {| sb_inner := twelve_blocks; sb_start := 2; sb_blocks := 8 |} in
  let ops := [OpWrite 0 (replicate 512 Byte.x63); OpWrite 8 (zeros 512)] in
  SliceBackend_new twelve_blocks 2 8 = Ok s /\ view (sb_inner (fst (run_ops ops s))) 1 = zeros 512.
Proof.
  intros s ops. split; [reflexivity|].
  destruct (slice_isolates twelve_blocks 2 8 s ops) as (_ & _ & H).
  - exact twelve_blocks_ok.
  - by vm_compute.
  - by vm_compute.
  - reflexivity.
  - repeat constructor; by vm_compute.
  - rewrite H; [reflexivity|by vm_compute|cbn; lia].
Defined.
