(* ===== verification/Cache.v ===== *)
(** * The block cache (crates/afsplus-block/src/cache.rs)

    A bounded write-through cache: an index from block to slot, the slots in
    a doubly linked recency list held in a vector, the block contents in one
    flat buffer and a list of free slots.  The invariant ties the four
    together, and the cache keeps the contract of a device. *)

From S2P Require Import Prelude Device.

(** ** The code *)

Definition NONE : Z := 2 ^ 32 - 1.
Definition NO_REQUEST : Z := 2 ^ 64 - 1.

(** The counters and the pending request, shared with the control handles. *)
Record Shared := {
  sh_requested : Z;
  sh_capacity : Z;
  sh_hits : Z;
  sh_misses : Z;
  sh_evictions : Z;
  sh_invalidations : Z;
}.

Record Slot (V : Type) := {
  sl_lba : Z;
  sl_previous : Z;
  sl_next : Z;
  sl_decoded : option V;
}.
Arguments sl_lba {V} _.
Arguments sl_previous {V} _.
Arguments sl_next {V} _.
Arguments sl_decoded {V} _.
Arguments Build_Slot {V} _ _ _ _.

(** [cd_memory] stands for the host allocator: the answers it will give to
    the reservations of [set_capacity], an exhausted list refusing. *)
Record CachedDevice (V D : Type) := {
  cd_inner : D;
  cd_capacity : Z;
  cd_index : gmap Z Z;
  cd_slots : list (Slot V);
  cd_data : bytes;
  cd_free : list Z;
  cd_newest : Z;
  cd_oldest : Z;
  cd_shared : Shared;
  cd_memory : list bool;
}.
Arguments cd_inner {V D} _.
Arguments cd_capacity {V D} _.
Arguments cd_index {V D} _.
Arguments cd_slots {V D} _.
Arguments cd_data {V D} _.
Arguments cd_free {V D} _.
Arguments cd_newest {V D} _.
Arguments cd_oldest {V D} _.
Arguments cd_shared {V D} _.
Arguments cd_memory {V D} _.
Arguments Build_CachedDevice {V D} _ _ _ _ _ _ _ _ _ _.

(** [fetch_add] wraps. *)
Definition wrapping_add64 (a b : Z) : Z := (a + b) mod 2 ^ 64.

Definition count_hit (s : Shared) : Shared :=
  {| sh_requested := sh_requested s; sh_capacity := sh_capacity s;
     sh_hits := wrapping_add64 (sh_hits s) 1; sh_misses := sh_misses s;
     sh_evictions := sh_evictions s; sh_invalidations := sh_invalidations s |}.
Definition count_miss (s : Shared) : Shared :=
  {| sh_requested := sh_requested s; sh_capacity := sh_capacity s;
     sh_hits := sh_hits s; sh_misses := wrapping_add64 (sh_misses s) 1;
     sh_evictions := sh_evictions s; sh_invalidations := sh_invalidations s |}.
Definition count_evictions (n : Z) (s : Shared) : Shared :=
  {| sh_requested := sh_requested s; sh_capacity := sh_capacity s;
     sh_hits := sh_hits s; sh_misses := sh_misses s;
     sh_evictions := wrapping_add64 (sh_evictions s) n; sh_invalidations := sh_invalidations s |}.
Definition count_invalidation (s : Shared) : Shared :=
  {| sh_requested := sh_requested s; sh_capacity := sh_capacity s;
     sh_hits := sh_hits s; sh_misses := sh_misses s;
     sh_evictions := sh_evictions s; sh_invalidations := wrapping_add64 (sh_invalidations s) 1 |}.
Definition set_requested (r : Z) (s : Shared) : Shared :=
  {| sh_requested := r; sh_capacity := sh_capacity s;
     sh_hits := sh_hits s; sh_misses := sh_misses s;
     sh_evictions := sh_evictions s; sh_invalidations := sh_invalidations s |}.
Definition set_shared_capacity (c : Z) (s : Shared) : Shared :=
  {| sh_requested := sh_requested s; sh_capacity := c;
     sh_hits := sh_hits s; sh_misses := sh_misses s;
     sh_evictions := sh_evictions s; sh_invalidations := sh_invalidations s |}.

(** [CacheControl::request_capacity] and [CacheControl::capacity]. *)
Definition request_capacity (capacity : Z) (s : Shared) : Shared :=
  set_requested (Z.min capacity (NO_REQUEST - 1)) s.
Definition control_capacity (s : Shared) : Z :=
  if sh_requested s =? NO_REQUEST then sh_capacity s else sh_requested s.

Section Code.
Context {V W D : Type} `{device : !BlockDevice W D}.
Implicit Types c : CachedDevice V D.

Definition set_slots (slots : list (Slot V)) c : CachedDevice V D :=
  {| cd_inner := cd_inner c; cd_capacity := cd_capacity c; cd_index := cd_index c; cd_slots := slots;
     cd_data := cd_data c; cd_free := cd_free c; cd_newest := cd_newest c; cd_oldest := cd_oldest c;
     cd_shared := cd_shared c; cd_memory := cd_memory c |}.
Definition set_ends (newest oldest : Z) c : CachedDevice V D :=
  {| cd_inner := cd_inner c; cd_capacity := cd_capacity c; cd_index := cd_index c; cd_slots := cd_slots c;
     cd_data := cd_data c; cd_free := cd_free c; cd_newest := newest; cd_oldest := oldest;
     cd_shared := cd_shared c; cd_memory := cd_memory c |}.
Definition set_data (data : bytes) c : CachedDevice V D :=
  {| cd_inner := cd_inner c; cd_capacity := cd_capacity c; cd_index := cd_index c; cd_slots := cd_slots c;
     cd_data := data; cd_free := cd_free c; cd_newest := cd_newest c; cd_oldest := cd_oldest c;
     cd_shared := cd_shared c; cd_memory := cd_memory c |}.
Definition set_index (index : gmap Z Z) c : CachedDevice V D :=
  {| cd_inner := cd_inner c; cd_capacity := cd_capacity c; cd_index := index; cd_slots := cd_slots c;
     cd_data := cd_data c; cd_free := cd_free c; cd_newest := cd_newest c; cd_oldest := cd_oldest c;
     cd_shared := cd_shared c; cd_memory := cd_memory c |}.
Definition set_free (free : list Z) c : CachedDevice V D :=
  {| cd_inner := cd_inner c; cd_capacity := cd_capacity c; cd_index := cd_index c; cd_slots := cd_slots c;
     cd_data := cd_data c; cd_free := free; cd_newest := cd_newest c; cd_oldest := cd_oldest c;
     cd_shared := cd_shared c; cd_memory := cd_memory c |}.
Definition set_shared (f : Shared -> Shared) c : CachedDevice V D :=
  {| cd_inner := cd_inner c; cd_capacity := cd_capacity c; cd_index := cd_index c; cd_slots := cd_slots c;
     cd_data := cd_data c; cd_free := cd_free c; cd_newest := cd_newest c; cd_oldest := cd_oldest c;
     cd_shared := f (cd_shared c); cd_memory := cd_memory c |}.
Definition set_inner (inner : D) c : CachedDevice V D :=
  {| cd_inner := inner; cd_capacity := cd_capacity c; cd_index := cd_index c; cd_slots := cd_slots c;
     cd_data := cd_data c; cd_free := cd_free c; cd_newest := cd_newest c; cd_oldest := cd_oldest c;
     cd_shared := cd_shared c; cd_memory := cd_memory c |}.

(** [self.slots[slot as usize]], read and updated in place. *)
Definition slot_get {E} (slots : list (Slot V)) (slot : Z) : outcome E (Slot V) :=
  match slots !! Z.to_nat slot with Some e => Ok e | None => Panic end.
Definition slot_update {E} (slots : list (Slot V)) (slot : Z) (f : Slot V -> Slot V) :
    outcome E (list (Slot V)) :=
  let* e := slot_get slots slot in Ok (<[Z.to_nat slot := f e]> slots).

Definition with_previous (p : Z) (e : Slot V) : Slot V :=
  {| sl_lba := sl_lba e; sl_previous := p; sl_next := sl_next e; sl_decoded := sl_decoded e |}.
Definition with_next (n : Z) (e : Slot V) : Slot V :=
  {| sl_lba := sl_lba e; sl_previous := sl_previous e; sl_next := n; sl_decoded := sl_decoded e |}.
Definition with_decoded (v : option V) (e : Slot V) : Slot V :=
  {| sl_lba := sl_lba e; sl_previous := sl_previous e; sl_next := sl_next e; sl_decoded := v |}.
(** [slot.lba = lba; slot.decoded = None]. *)
Definition renamed (lba : Z) (e : Slot V) : Slot V :=
  {| sl_lba := lba; sl_previous := sl_previous e; sl_next := sl_next e; sl_decoded := None |}.

Definition unlink {E} (slot : Z) c : outcome E (CachedDevice V D) :=
  let* entry := slot_get (cd_slots c) slot in
  let previous := sl_previous entry in
  let next := sl_next entry in
  let* c :=
    if previous =? NONE then Ok (set_ends next (cd_oldest c) c)
    else let* slots := slot_update (cd_slots c) previous (with_next next) in Ok (set_slots slots c) in
  if next =? NONE then Ok (set_ends (cd_newest c) previous c)
  else let* slots := slot_update (cd_slots c) next (with_previous previous) in Ok (set_slots slots c).

Definition push_newest {E} (slot : Z) c : outcome E (CachedDevice V D) :=
  let* slots := slot_update (cd_slots c) slot (with_previous NONE) in
  let* slots := slot_update slots slot (with_next (cd_newest c)) in
  let* slots :=
    if negb (cd_newest c =? NONE) then slot_update slots (cd_newest c) (with_previous slot) else Ok slots in
  Ok (set_ends slot (if cd_oldest c =? NONE then slot else cd_oldest c) (set_slots slots c)).

Definition block_range {E} (slot : Z) c : outcome E (Z * Z) :=
  let bs := dev_block_size (cd_inner c) in
  let* at_ := mul_w 64 slot bs in
  let* end_ := add_w 64 at_ bs in
  Ok (at_, end_).

(** [self.data[self.block_range(slot)].copy_from_slice(block)]. *)
Definition store_block {E} (slot : Z) (block : bytes) c : outcome E (CachedDevice V D) :=
  let* '(a, b) := block_range slot c in
  let* data := put (cd_data c) a b block in
  Ok (set_data data c).

Definition rename_slot {E} (slot lba : Z) c : outcome E (CachedDevice V D) :=
  let* slots := slot_update (cd_slots c) slot (renamed lba) in
  Ok (set_slots slots c).

(** The victim of an eviction, reused for [lba]. *)
Definition evict_into {E} (lba : Z) (block : bytes) c : outcome E (Z * CachedDevice V D) :=
  let victim := cd_oldest c in
  let* c := unlink victim c in
  let* e := slot_get (cd_slots c) victim in
  let c := set_index (delete (sl_lba e) (cd_index c)) c in
  let c := set_shared (count_evictions 1) c in
  let* c := rename_slot victim lba c in
  let* c := store_block victim block c in
  Ok (victim, c).

(** The slot a block that is not cached goes to.  [Vec::pop] takes the last
    free slot, kept here at the head. *)
Definition take_slot {E} (lba : Z) (block : bytes) c : outcome E (Z * CachedDevice V D) :=
  match cd_free c with
  | slot :: free =>
      let* c := rename_slot slot lba (set_free free c) in
      let* c := store_block slot block c in
      Ok (slot, c)
  | [] =>
      if zlen (cd_slots c) <? cd_capacity c then
        let slot := as_u32 (zlen (cd_slots c)) in
        let new := {| sl_lba := lba; sl_previous := NONE; sl_next := NONE; sl_decoded := None |} in
        Ok (slot, set_data (cd_data c ++ block) (set_slots (cd_slots c ++ [new]) c))
      else evict_into lba block c
  end.

Definition insert_block {E} (lba : Z) (block : bytes) c : outcome E (CachedDevice V D) :=
  if cd_capacity c =? 0 then Ok c else
  match cd_index c !! lba with
  | Some slot =>
      let* c := store_block slot block c in
      let* slots := slot_update (cd_slots c) slot (with_decoded None) in
      let* c := unlink slot (set_slots slots c) in
      push_newest slot c
  | None =>
      let* '(slot, c) := take_slot lba block c in
      push_newest slot (set_index (<[lba := slot]> (cd_index c)) c)
  end.

Definition invalidate {E} (lba : Z) c : outcome E (CachedDevice V D) :=
  match cd_index c !! lba with
  | Some slot =>
      let c := set_index (delete lba (cd_index c)) c in
      let* slots := slot_update (cd_slots c) slot (with_decoded None) in
      let* c := unlink slot (set_slots slots c) in
      Ok (set_shared count_invalidation (set_free (slot :: cd_free c) c))
  | None => Ok c
  end.

(** The loop of [set_capacity] that keeps the most recent blocks; it runs
    at most once per slot. *)
Fixpoint keep_recent {E} (fuel : nat) (capacity slot : Z) (kept : list (Z * bytes)) c :
    outcome E (list (Z * bytes)) :=
  if (slot =? NONE) || (capacity <=? zlen kept) then Ok kept else
  match fuel with
  | O => Panic
  | S fuel =>
      let* '(a, b) := block_range slot c in
      let* e := slot_get (cd_slots c) slot in
      let* block := slice (cd_data c) a b in
      keep_recent fuel capacity (sl_next e) (kept ++ [(sl_lba e, block)]) c
  end.

Definition emptied (capacity : Z) c : CachedDevice V D :=
  {| cd_inner := cd_inner c; cd_capacity := capacity; cd_index := ∅; cd_slots := []; cd_data := [];
     cd_free := []; cd_newest := NONE; cd_oldest := NONE; cd_shared := cd_shared c;
     cd_memory := cd_memory c |}.

Definition set_memory (memory : list bool) c : CachedDevice V D :=
  {| cd_inner := cd_inner c; cd_capacity := cd_capacity c; cd_index := cd_index c; cd_slots := cd_slots c;
     cd_data := cd_data c; cd_free := cd_free c; cd_newest := cd_newest c; cd_oldest := cd_oldest c;
     cd_shared := cd_shared c; cd_memory := memory |}.

Definition set_capacity {E} (capacity : Z) c : outcome E (bool * CachedDevice V D) :=
  let '(granted, c) :=
    match cd_memory c with
    | answer :: memory => (answer, set_memory memory c)
    | [] => (false, c)
    end in
  if negb granted then Ok (false, c) else
  let* kept := keep_recent (S (length (cd_slots c))) capacity (cd_newest c) [] c in
  let* dropped := sub_w (Z.of_nat (size (cd_index c))) (zlen kept) in
  let c := set_shared (fun s => set_shared_capacity capacity (count_evictions dropped s)) c in
  let* c := ofold (fun c '(lba, block) => insert_block lba block c) (emptied capacity c) (rev kept) in
  Ok (true, c).

Definition CachedDevice_new {E} (inner : D) (capacity : Z) (memory : list bool) :
    outcome E (CachedDevice V D) :=
  let cache :=
    {| cd_inner := inner; cd_capacity := 0; cd_index := ∅; cd_slots := []; cd_data := []; cd_free := [];
       cd_newest := NONE; cd_oldest := NONE;
       cd_shared := {| sh_requested := NO_REQUEST; sh_capacity := 0; sh_hits := 0; sh_misses := 0;
                       sh_evictions := 0; sh_invalidations := 0 |};
       cd_memory := memory |} in
  let* '(_, c) := set_capacity capacity cache in Ok c.

Definition take_request {E} c : outcome E (CachedDevice V D) :=
  let requested := sh_requested (cd_shared c) in
  let c := set_shared (set_requested NO_REQUEST) c in
  if negb (requested =? NO_REQUEST) then
    let* '(_, c) := set_capacity requested c in Ok c
  else Ok c.

(** A method that only touches the cache's own fields. *)
Definition own {A} (f : CachedDevice V D -> outcome BlockError (A * CachedDevice V D)) :
    io (CachedDevice V D) BlockError A := fun c =>
  match f c with
  | Ok (a, c) => (c, Ok a)
  | Err e => (c, Err e)
  | Panic => (c, Panic)
  end.
Definition own_ (f : CachedDevice V D -> outcome BlockError (CachedDevice V D)) :
    io (CachedDevice V D) BlockError unit := own (fun c => let* c := f c in Ok (tt, c)).

Definition hit (slot : Z) c : outcome BlockError (bytes * CachedDevice V D) :=
  let* '(a, b) := block_range slot c in
  let* block := slice (cd_data c) a b in
  let* c := unlink slot c in
  let* c := push_newest slot c in
  Ok (block, set_shared count_hit c).

Definition cached_read_block (lba len : Z) : io (CachedDevice V D) BlockError bytes :=
  do! own_ take_request in
  let! cached := iget (fun c =>
    match cd_index c !! lba with
    | Some slot => if len =? dev_block_size (cd_inner c) then Some slot else None
    | None => None
    end) in
  match cached with
  | Some slot => own (hit slot)
  | None =>
      let! buf := izoom cd_inner set_inner (read_block lba len) in
      do! imodify (set_shared count_miss) in
      do! own_ (insert_block lba buf) in
      iret buf
  end.

Definition cached_write_block (lba : Z) (data : bytes) : io (CachedDevice V D) BlockError unit :=
  do! own_ take_request in
  fun c =>
    match izoom cd_inner set_inner (write_block lba data) c with
    | (c, Ok _) => own_ (insert_block lba data) c
    | (c, Err error) => (do! own_ (invalidate lba) in ierr error) c
    | (c, Panic) => (c, Panic)
    end.

Definition cached_attached c (lba : Z) : option V :=
  match cd_index c !! lba with
  | Some slot => match cd_slots c !! Z.to_nat slot with Some e => sl_decoded e | None => None end
  | None => None
  end.

Definition cached_attach c (lba : Z) (value : V) : CachedDevice V D :=
  match cd_index c !! lba with
  | Some slot =>
      match slot_update (E := BlockError) (cd_slots c) slot (with_decoded (Some value)) with
      | Ok slots => set_slots slots c
      | _ => c
      end
  | None => c
  end.

#[global] Instance cached_device : BlockDevice V (CachedDevice V D) := {
  dev_block_size c := dev_block_size (cd_inner c);
  dev_total_blocks c := dev_total_blocks (cd_inner c);
  read_block := cached_read_block;
  write_block := cached_write_block;
  flush := izoom cd_inner set_inner flush;
  attached := cached_attached;
  attach := cached_attach;
}.
End Code.

(** ** The recency list *)

Section Links.
Context {V : Type}.
Implicit Types sl : list (Slot V).

(** The slots of [l] follow one another, the first after [p] and the last before [n]. *)
Fixpoint linked sl (p : Z) (l : list Z) (n : Z) : Prop :=
  match l with
  | [] => True
  | s :: r =>
      (exists e, sl !! Z.to_nat s = Some e /\ sl_previous e = p /\ sl_next e = hd n r) /\ linked sl s r n
  end.

Definition link_at sl (s : Z) : option (Z * Z) :=
  match sl !! Z.to_nat s with Some e => Some (sl_previous e, sl_next e) | None => None end.

Lemma linked_app sl p l r n :
  linked sl p (l ++ r) n <-> linked sl p l (hd n r) /\ linked sl (List.last l p) r n.
Proof.
  revert p. induction l as [|s l IH]; intros p; [by cbn; tauto|].
  cbn [app linked]. rewrite IH. replace (hd n (l ++ r)) with (hd (hd n r) l) by (by destruct l).
  replace (List.last (s :: l) p) with (List.last l s); [tauto|].
  clear. revert s. induction l as [|t l IH]; intros s; [done|]. cbn in *. by destruct l.
Qed.

Lemma linked_ext sl sl' p l n :
  (forall s, s ∈ l -> link_at sl' s = link_at sl s) -> linked sl p l n -> linked sl' p l n.
Proof.
  revert p. induction l as [|s l IH]; intros p Hl; [done|]. cbn [linked]. intros [(e & He & <- & Hn) Hr].
  split; [|apply IH; [|done]; intros; apply Hl; by constructor].
  specialize (Hl s ltac:(by constructor)). unfold link_at in Hl. rewrite He in Hl.
  destruct (sl' !! Z.to_nat s) as [e'|]; [|done]. injection Hl as Hp Hn'. exists e'. by rewrite Hn'.
Qed.

Lemma link_at_insert_ne sl s t e :
  0 <= s -> 0 <= t -> s <> t -> link_at (<[Z.to_nat t := e]> sl) s = link_at sl s.
Proof. intros. unfold link_at. rewrite list_lookup_insert_ne by lia. done. Qed.

Lemma linked_insert_ne sl p l n t e :
  t ∉ l -> 0 <= t -> Forall (fun s => 0 <= s) l -> linked sl p l n ->
  linked (<[Z.to_nat t := e]> sl) p l n.
Proof.
  intros Ht ? Hl. apply linked_ext. intros s Hs. rewrite Forall_forall in Hl.
  apply link_at_insert_ne; [by apply Hl|done|]. by intros ->.
Qed.

(** Changing the two ends. *)
Lemma linked_set_next sl p l x n n' e :
  NoDup (l ++ [x]) -> Forall (fun s => 0 <= s) (l ++ [x]) -> linked sl p (l ++ [x]) n ->
  sl !! Z.to_nat x = Some e ->
  linked (<[Z.to_nat x := with_next n' e]> sl) p (l ++ [x]) n'.
Proof.
  intros Hd Hp Hl He. apply linked_app in Hl as [Hl [(e' & He' & Hpr & _) _]]. rewrite He in He'. injection He' as <-.
  apply NoDup_app in Hd as (_ & Hd & _). apply Forall_app in Hp as [Hp [Hx _]%Forall_cons].
  apply linked_app. split.
  - apply linked_insert_ne; [|done..]. intros Hin. apply (Hd x Hin). by constructor.
  - cbn. split; [|done]. exists (with_next n' e). split; [|done].
    apply list_lookup_insert_eq. by eapply lookup_lt_Some.
Qed.

Lemma linked_set_previous sl p x r n p' e :
  NoDup (x :: r) -> Forall (fun s => 0 <= s) (x :: r) -> linked sl p (x :: r) n ->
  sl !! Z.to_nat x = Some e ->
  linked (<[Z.to_nat x := with_previous p' e]> sl) p' (x :: r) n.
Proof.
  intros Hd Hp [(e' & He' & _ & Hn) Hl] He. rewrite He in He'. injection He' as <-.
  apply NoDup_cons in Hd as [Hd _]. apply Forall_cons in Hp as [Hx Hp]. split.
  - exists (with_previous p' e). split; [|done]. apply list_lookup_insert_eq. by eapply lookup_lt_Some.
  - by apply linked_insert_ne.
Qed.

(** Two slot vectors that differ in their links only. *)
Definition payload_at sl (i : nat) : option (Z * option V) :=
  match sl !! i with Some e => Some (sl_lba e, sl_decoded e) | None => None end.
Definition same_payload sl sl' : Prop := forall i, payload_at sl' i = payload_at sl i.

Lemma same_payload_insert sl i e f :
  sl !! i = Some e -> sl_lba (f e) = sl_lba e -> sl_decoded (f e) = sl_decoded e ->
  same_payload sl (<[i := f e]> sl).
Proof.
  intros He Hl Hd j. unfold payload_at. destruct (decide (i = j)) as [<-|].
  - rewrite list_lookup_insert_eq by (by eapply lookup_lt_Some). by rewrite He, Hl, Hd.
  - by rewrite list_lookup_insert_ne.
Qed.

Lemma same_payload_trans sl sl' sl'' :
  same_payload sl sl' -> same_payload sl' sl'' -> same_payload sl sl''.
Proof. intros H H' i. by rewrite H', H. Qed.

Lemma same_payload_length sl sl' : same_payload sl sl' -> length sl' = length sl.
Proof.
  intros H. apply Nat.le_antisymm; apply Nat.nlt_ge; intros Hlt.
  - specialize (H (length sl)). unfold payload_at in H.
    rewrite (lookup_ge_None_2 sl) in H by done.
    destruct (lookup_lt_is_Some_2 sl' _ Hlt) as [e He]. by rewrite He in H.
  - specialize (H (length sl')). unfold payload_at in H.
    rewrite (lookup_ge_None_2 sl') in H by done.
    destruct (lookup_lt_is_Some_2 sl _ Hlt) as [e He]. by rewrite He in H.
Qed.

Lemma wp_slot_update {E} sl s f e (Q : list (Slot V) -> Prop) (R : E -> Prop) :
  sl !! Z.to_nat s = Some e -> Q (<[Z.to_nat s := f e]> sl) -> wp (slot_update sl s f) Q R.
Proof. intros He HQ. unfold slot_update, slot_get. by rewrite He. Qed.

Lemma wp_slot_get {E} sl s e (Q : Slot V -> Prop) (R : E -> Prop) :
  sl !! Z.to_nat s = Some e -> Q e -> wp (slot_get sl s) Q R.
Proof. intros He HQ. unfold slot_get. by rewrite He. Qed.
End Links.

Section Moves.
Context {V D : Type}.
Implicit Types c : CachedDevice V D.

Definition links c (order : list Z) : Prop :=
  linked (cd_slots c) NONE order NONE /\ cd_newest c = hd NONE order /\
  cd_oldest c = List.last order NONE /\ NoDup order /\ Forall (fun s => 0 <= s < NONE) order.

Definition relinked c c' : Prop :=
  exists sl a b, c' = set_ends a b (set_slots sl c) /\ same_payload (cd_slots c) sl.

Lemma relinked_refl c : relinked c c.
Proof. exists (cd_slots c), (cd_newest c), (cd_oldest c). by destruct c. Qed.

Lemma relinked_trans c c' c'' : relinked c c' -> relinked c' c'' -> relinked c c''.
Proof.
  intros (sl & a & b & -> & H) (sl' & a' & b' & -> & H'). exists sl', a', b'. split; [done|].
  by eapply same_payload_trans.
Qed.

Lemma last_default_snoc {A} (l : list A) x d : List.last (l ++ [x]) d = x.
Proof. apply List.last_last. Qed.

Lemma last_default_app {A} (l : list A) x r d : List.last (l ++ x :: r) d = List.last (x :: r) d.
Proof. induction l as [|y l IH]; [done|]. cbn in *. rewrite <- IH. by destruct l. Qed.

Lemma slot_nonneg (l : list Z) : Forall (fun s => 0 <= s < NONE) l -> Forall (fun s => 0 <= s) l.
Proof. intros. eapply Forall_impl; [done|]. cbn. lia. Qed.

(** First half of [unlink]: the predecessor, or the newest end, skips the slot. *)
Lemma wp_unlink_before {E} c l s r next (Q : CachedDevice V D -> Prop) (R : E -> Prop) :
  links c (l ++ s :: r) -> next = hd NONE r ->
  (forall c', relinked c c' ->
    linked (cd_slots c') NONE l next -> linked (cd_slots c') s r NONE ->
    cd_newest c' = hd NONE (l ++ r) -> cd_oldest c' = cd_oldest c -> Q c') ->
  wp (if List.last l NONE =? NONE then Ok (set_ends next (cd_oldest c) c)
      else let* slots := slot_update (cd_slots c) (List.last l NONE) (with_next next) in Ok (set_slots slots c)) Q R.
Proof.
  intros (Hl & Hn & Ho & Hd & Hr) -> HQ. apply linked_app in Hl as [Hl [_ Hlr]].
  apply NoDup_app in Hd as (Hdl & Hlr' & Hdr). apply Forall_app in Hr as [Hl0 [Hs0 Hr0]%Forall_cons].
  destruct l as [|x l _] using rev_ind.
  - apply wp_ok, HQ; [|done..]. by exists (cd_slots c), (hd NONE r), (cd_oldest c); destruct c.
  - rewrite last_default_snoc. apply Forall_app in Hl0 as [Hl1 [Hx0 _]%Forall_cons].
    rewrite (proj2 (Z.eqb_neq _ _)) by (unfold NONE in *; lia).
    pose proof Hl as Hl'. apply linked_app in Hl' as [_ [(e & He & _) _]].
    apply wp_bind. eapply wp_slot_update; [done|]. apply wp_ok, HQ.
    + exists (<[Z.to_nat x := with_next (hd NONE r) e]> (cd_slots c)), (cd_newest c), (cd_oldest c).
      split; [by destruct c|]. by apply same_payload_insert.
    + eapply linked_set_next; [done| |done|done]. apply slot_nonneg, Forall_app. split; [done|]. by constructor.
    + cbn. apply linked_insert_ne; [|lia|by apply slot_nonneg|done].
      intros Hin. apply (Hlr' x); [|by apply list_elem_of_further]. apply elem_of_app. right. by constructor.
    + cbn. rewrite Hn. rewrite <- !app_assoc. by destruct l.
    + done.
Qed.

Lemma wp_unlink {E} c l s r (Q : CachedDevice V D -> Prop) (R : E -> Prop) :
  links c (l ++ s :: r) ->
  (forall c', relinked c c' -> links c' (l ++ r) -> Q c') -> wp (unlink s c) Q R.
Proof.
  intros HL HQ. pose proof HL as (Hl & Hn & Ho & Hd & Hr). unfold unlink.
  pose proof Hl as Hl'. apply linked_app in Hl' as [_ [(e & He & Hep & Hen) _]].
  apply wp_bind. eapply wp_slot_get; [done|]. rewrite Hep, Hen. apply wp_bind.
  eapply (wp_unlink_before c l s r); [done|done|]. intros c' Hc' Hl' Hr' Hn' Ho'.
  apply NoDup_app in Hd as (Hdl & Hlr & Hdr). apply Forall_app in Hr as [Hl0 [Hs0 Hr0]%Forall_cons].
  apply NoDup_cons in Hdr as [Hs Hdr].
  assert (NoDup (l ++ r)) as Hd'.
  { apply NoDup_app. repeat split; [done| |done]. intros x Hx ?. apply (Hlr x Hx). by constructor. }
  assert (Forall (fun s => 0 <= s < NONE) (l ++ r)) as Hf by (by apply Forall_app).
  destruct r as [|y r]; cbn [hd] in *.
  - apply wp_ok, HQ.
    + eapply relinked_trans; [done|]. by exists (cd_slots c'), (cd_newest c'), (List.last l NONE).
    + rewrite app_nil_r in *. by split.
  - apply Forall_cons in Hr0 as [Hy0 Hr0]. rewrite (proj2 (Z.eqb_neq _ _)) by (unfold NONE in *; lia).
    pose proof Hr' as [(e' & He' & _) _]. apply wp_bind. eapply wp_slot_update; [done|]. apply wp_ok, HQ.
    + eapply relinked_trans; [done|].
      exists (<[Z.to_nat y := with_previous (List.last l NONE) e']> (cd_slots c')), (cd_newest c'), (cd_oldest c').
      split; [by destruct c'|]. by apply same_payload_insert.
    + split; [|split; [done|split; [|done]]]; cbn [cd_slots cd_oldest set_slots].
      * apply linked_app. cbn [hd]. split.
        -- apply linked_insert_ne; [|lia|by apply slot_nonneg|done]. intros Hin. apply (Hlr y Hin).
           constructor. by constructor.
        -- eapply linked_set_previous; [done| |done|done]. constructor; [lia|]. by apply slot_nonneg.
      * rewrite Ho', Ho, !last_default_app. done.
Qed.

Lemma wp_push_newest {E} c s order (Q : CachedDevice V D -> Prop) (R : E -> Prop) :
  links c order -> s ∉ order -> 0 <= s < NONE -> s < zlen (cd_slots c) ->
  (forall c', relinked c c' -> links c' (s :: order) -> Q c') -> wp (push_newest s c) Q R.
Proof.
  intros (Hl & Hn & Ho & Hd & Hr) Hs Hs0 Hlen HQ. unfold push_newest. rewrite Hn.
  destruct (lookup_lt_is_Some_2 (cd_slots c) (Z.to_nat s)) as [e He]; [unfold zlen in *; lia|].
  apply wp_bind. eapply wp_slot_update; [done|].
  apply wp_bind. eapply wp_slot_update; [by apply list_lookup_insert_eq; eapply lookup_lt_Some|].
  rewrite list_insert_insert_eq.
  set (sl := <[Z.to_nat s := _]> (cd_slots c)).
  assert (same_payload (cd_slots c) sl) as Hsl
    by (by apply (same_payload_insert _ _ _ (fun e => with_next (hd NONE order) (with_previous NONE e)))).
  assert (linked sl NONE order NONE) as Hl' by (apply linked_insert_ne; [done|lia|by apply slot_nonneg|done]).
  assert (sl !! Z.to_nat s = Some (with_next (hd NONE order) (with_previous NONE e))) as Hes
    by (by apply list_lookup_insert_eq; eapply lookup_lt_Some).
  assert (exists sl', wp (E := E)
    (if negb (hd NONE order =? NONE) then slot_update sl (hd NONE order) (with_previous s) else Ok sl)
    (fun r => r = sl') no_error /\ same_payload sl sl' /\ linked sl' s order NONE /\
    sl' !! Z.to_nat s = Some (with_next (hd NONE order) (with_previous NONE e))) as (sl' & Hw & Hp & Hl'' & Hes').
  { destruct order as [|x order]; cbn [hd] in *.
    - rewrite Z.eqb_refl. exists sl. by repeat split.
    - apply Forall_cons in Hr as [Hx Hr]. rewrite (proj2 (Z.eqb_neq _ _)) by (unfold NONE in *; lia). cbn [negb].
      pose proof Hl' as [(ex & Hex & _) _]. eexists. split; [by eapply wp_slot_update|].
      apply not_elem_of_cons in Hs as [Hsx Hs].
      split; [by apply same_payload_insert|]. split.
      + eapply linked_set_previous; [done| |done|done]. constructor; [lia|]. by apply slot_nonneg.
      + by rewrite list_lookup_insert_ne by lia. }
  apply wp_bind. eapply wp_mono; [exact Hw| |done]. intros ? ->. apply wp_ok, HQ.
  - exists sl', s, (if cd_oldest c =? NONE then s else cd_oldest c). split; [done|]. by eapply same_payload_trans.
  - split; [|split; [done|split]]; cbn [cd_slots cd_oldest set_ends set_slots].
    + split; [|done]. eexists. split; [exact Hes'|]. by cbn.
    + rewrite Ho. destruct order as [|x order]; [done|]. rewrite (proj2 (Z.eqb_neq _ _)); [done|].
      assert (List.last (x :: order) NONE ∈ x :: order) as Hin.
      { destruct (exists_last (l := x :: order) ltac:(done)) as (l' & y & ->). rewrite last_default_snoc.
        apply elem_of_app. right. by constructor. }
      rewrite Forall_forall in Hr. specialize (Hr _ Hin). cbn beta in Hr. lia.
    + split; [by constructor|]. by constructor.
Qed.
End Moves.

(** ** Events *)

(** Requests of the layer above, and capacities asked for through a control
    handle between them. *)
Inductive cache_event : Type :=
| Request (op : dev_op)
| Resize (capacity : Z).

Definition event_typed (ev : cache_event) : Prop :=
  match ev with Request op => op_typed op | Resize capacity => 0 <= capacity <= NONE end.

Definition requests (evs : list cache_event) : list dev_op :=
  flat_map (fun ev => match ev with Request op => [op] | Resize _ => [] end) evs.

(** ** The invariant *)

Section Cache.
Context {V W D : Type} `{device : !BlockDevice W D} {inner_decodes : W -> bytes -> Prop}.
Context {contract : DeviceContract W D inner_decodes} {decodes : V -> bytes -> Prop}.
Implicit Types c : CachedDevice V D.

Abbreviation bs c := (dev_block_size (cd_inner c)).

Definition lba_at c (s : Z) : Z :=
  match cd_slots c !! Z.to_nat s with Some e => sl_lba e | None => 0 end.

Definition block_at c (s : Z) : bytes := sub (cd_data c) (s * bs c) (s * bs c + bs c).

(** Slot [s] caches what the device holds. *)
Definition cached_at c (s : Z) : Prop :=
  inside (cd_inner c) (lba_at c s) /\ block_at c s = view (cd_inner c) (lba_at c s) /\
  forall e v, cd_slots c !! Z.to_nat s = Some e -> sl_decoded e = Some v ->
    decodes v (view (cd_inner c) (lba_at c s)).

(** The slots are those in recency order and the spare ones. *)
Record shape c (order spare : list Z) : Prop := {
  sh_links : links c order;
  sh_nodup : NoDup (order ++ spare);
  sh_slots s : s ∈ order ++ spare <-> 0 <= s < zlen (cd_slots c);
  sh_data : zlen (cd_data c) = zlen (cd_slots c) * bs c;
  sh_cap : zlen (cd_slots c) <= cd_capacity c <= NONE;
}.

Definition indexed c (order : list Z) : Prop :=
  map_to_list (cd_index c) ≡ₚ map (fun s => (lba_at c s, s)) order.

(** Every listed slot is current, except for blocks of [P]. *)
Definition held c (P : Z -> Prop) (order : list Z) : Prop :=
  forall s, s ∈ order -> ~ P (lba_at c s) -> cached_at c s.

Definition cache_inv c (order : list Z) : Prop :=
  shape c order (cd_free c) /\ indexed c order /\ held c (fun _ => False) order.

(** What the cache's own bookkeeping leaves alone. *)
Definition frame c c' : Prop :=
  cd_inner c' = cd_inner c /\ cd_capacity c' = cd_capacity c /\
  sh_requested (cd_shared c') = sh_requested (cd_shared c).

Lemma frame_refl c : frame c c.
Proof. done. Qed.
Lemma frame_trans c c' c'' : frame c c' -> frame c' c'' -> frame c c''.
Proof. unfold frame. intros (-> & -> & ->) (-> & -> & ->). done. Qed.

(** *** Changes of links *)

Lemma relinked_frame c c' : relinked c c' -> frame c c'.
Proof. by intros (? & ? & ? & -> & _). Qed.

Lemma relinked_fields c c' :
  relinked c c' -> cd_index c' = cd_index c /\ cd_free c' = cd_free c /\ cd_data c' = cd_data c /\
  zlen (cd_slots c') = zlen (cd_slots c).
Proof.
  intros (? & ? & ? & -> & Hp). repeat split. cbn. unfold zlen. by rewrite (same_payload_length _ _ Hp).
Qed.

Lemma relinked_lba c c' s : relinked c c' -> lba_at c' s = lba_at c s.
Proof.
  intros (sl & ? & ? & -> & Hp). specialize (Hp (Z.to_nat s)). unfold payload_at in Hp.
  unfold lba_at. cbn. destruct (sl !! _), (cd_slots c !! _); [|done..]. by injection Hp.
Qed.

Lemma relinked_cached c c' s : relinked c c' -> cached_at c s -> cached_at c' s.
Proof.
  intros Hr. unfold cached_at, block_at. rewrite (relinked_lba c c' s Hr).
  pose proof (relinked_frame _ _ Hr) as (-> & _). destruct (relinked_fields _ _ Hr) as (_ & _ & -> & _).
  intros (? & ? & Hd). split; [done|]. split; [done|]. intros e v He Hv.
  destruct Hr as (sl & ? & ? & -> & Hp). specialize (Hp (Z.to_nat s)). unfold payload_at in Hp. cbn in He.
  rewrite He in Hp. destruct (cd_slots c !! _) as [e'|] eqn:He'; [|done]. injection Hp as _ Hp.
  apply (Hd e'); [done|]. by rewrite <- Hp.
Qed.

Lemma relinked_held c c' P order : relinked c c' -> held c P order -> held c' P order.
Proof.
  intros Hr Hh s Hs HP. rewrite (relinked_lba _ _ _ Hr) in HP. by eapply relinked_cached, Hh.
Qed.

Lemma relinked_indexed c c' order : relinked c c' -> indexed c order -> indexed c' order.
Proof.
  intros Hr Hi. unfold indexed. destruct (relinked_fields _ _ Hr) as (-> & _). rewrite Hi.
  apply reflexive_eq, map_ext. intros s. by rewrite (relinked_lba _ _ _ Hr).
Qed.

Lemma shape_slot c order spare s :
  shape c order spare -> s ∈ order ++ spare -> 0 <= s < NONE /\ s < zlen (cd_slots c).
Proof. intros [_ _ Hs _ ?] Hin. apply Hs in Hin. lia. Qed.

Lemma shape_unlink {E} c l s r spare (Q : CachedDevice V D -> Prop) (R : E -> Prop) :
  shape c (l ++ s :: r) spare ->
  (forall c', relinked c c' -> shape c' (l ++ r) (s :: spare) -> Q c') -> wp (unlink s c) Q R.
Proof.
  intros [Hl Hd Hs Hda Hc] HQ. apply (wp_unlink c l s r); [done|]. intros c' Hr Hl'. apply HQ; [done|].
  destruct (relinked_fields _ _ Hr) as (_ & _ & Hdat & Hz).
  destruct (relinked_frame _ _ Hr) as (Hi & Hcap & _).
  assert ((l ++ s :: r) ++ spare ≡ₚ (l ++ r) ++ s :: spare) as HP by solve_Permutation.
  split; [done| | | |]; rewrite ?Hz, ?Hdat, ?Hi, ?Hcap; [|intros t|done|done].
  - by rewrite <- HP.
  - by rewrite <- HP.
Qed.

Lemma shape_push {E} c order s spare (Q : CachedDevice V D -> Prop) (R : E -> Prop) :
  shape c order (s :: spare) ->
  (forall c', relinked c c' -> shape c' (s :: order) spare -> Q c') -> wp (push_newest s c) Q R.
Proof.
  intros Hsh HQ. destruct (shape_slot c order (s :: spare) s Hsh) as [? ?];
    [apply elem_of_app; right; by constructor|].
  destruct Hsh as [Hl Hd Hs Hda Hc].
  assert (order ++ s :: spare ≡ₚ (s :: order) ++ spare) as HP by solve_Permutation.
  apply (wp_push_newest c s order); [done| |done|done|].
  { intros Hin. apply NoDup_app in Hd as (_ & Hd & _). apply (Hd s Hin). by constructor. }
  intros c' Hr Hl'. apply HQ; [done|].
  destruct (relinked_fields _ _ Hr) as (_ & _ & Hdat & Hz).
  destruct (relinked_frame _ _ Hr) as (Hi & Hcap & _).
  split; [done| | | |]; rewrite ?Hz, ?Hdat, ?Hi, ?Hcap; [|intros t|done|done].
  - by rewrite <- HP.
  - by rewrite <- HP.
Qed.


Lemma bs_range c : dev_ok (cd_inner c) -> 0 < bs c < 2 ^ 32.
Proof. intros H. by destruct (ok_size _ H). Qed.

Lemma wp_block_range {E} s c (Q : Z * Z -> Prop) (R : E -> Prop) :
  dev_ok (cd_inner c) -> 0 <= s < NONE -> Q (s * bs c, s * bs c + bs c) -> wp (block_range s c) Q R.
Proof.
  intros Hi Hs HQ. pose proof (bs_range c Hi). unfold NONE in Hs. unfold block_range.
  apply wp_bind, wp_mul_w; [nia|]. apply wp_bind, wp_add_w; [nia|]. by apply wp_ok.
Qed.

Lemma slot_extent c order spare s :
  dev_ok (cd_inner c) -> shape c order spare -> s ∈ order ++ spare ->
  0 <= s * bs c /\ s * bs c + bs c <= zlen (cd_data c).
Proof.
  intros Hi Hsh Hs. pose proof (bs_range c Hi). destruct (shape_slot _ _ _ _ Hsh Hs).
  rewrite (sh_data _ _ _ Hsh). nia.
Qed.

Lemma wp_store_block {E} c order spare s block (Q : CachedDevice V D -> Prop) (R : E -> Prop) :
  dev_ok (cd_inner c) -> shape c order spare -> s ∈ order ++ spare -> zlen block = bs c ->
  Q (set_data (blit (cd_data c) (s * bs c) block) c) -> wp (store_block s block c) Q R.
Proof.
  intros Hi Hsh Hs Hb HQ. unfold store_block. pose proof (bs_range c Hi).
  destruct (shape_slot _ _ _ _ Hsh Hs). destruct (slot_extent _ _ _ _ Hi Hsh Hs).
  apply wp_bind, wp_block_range; [done..|]. apply wp_bind, wp_put; [lia|lia|lia|]. by apply wp_ok.
Qed.

(** Rewriting one slot: its block, and its fields other than the links. *)
Definition rewritten (s : Z) (block : bytes) (f : Slot V -> Slot V) (e : Slot V) c : CachedDevice V D :=
  set_slots (<[Z.to_nat s := f e]> (cd_slots c)) (set_data (blit (cd_data c) (s * bs c) block) c).

Section Rewritten.
Context (c : CachedDevice V D) (order spare : list Z) (s : Z) (block : bytes) (f : Slot V -> Slot V) (e : Slot V).
Hypothesis Hi : dev_ok (cd_inner c).
Hypothesis Hsh : shape c order spare.
Hypothesis Hs : s ∈ order ++ spare.
Hypothesis He : cd_slots c !! Z.to_nat s = Some e.
Hypothesis Hb : zlen block = bs c.
Hypothesis Hp : sl_previous (f e) = sl_previous e.
Hypothesis Hn : sl_next (f e) = sl_next e.

Lemma rewritten_shape : shape (rewritten s block f e c) order spare.
Proof.
  destruct (slot_extent _ _ _ _ Hi Hsh Hs). pose proof Hsh as [(Hl & Hne & Ho & Hd & Hr) ? ? Hda ?].
  assert (zlen (<[Z.to_nat s := f e]> (cd_slots c)) = zlen (cd_slots c)) as Hz
    by (unfold zlen; by rewrite length_insert).
  unfold rewritten. split; cbn; rewrite ?Hz; [|done|done| |done].
  - split; [|by split]. cbn. eapply linked_ext; [|done]. intros t Ht. unfold link_at.
    destruct (decide (Z.to_nat s = Z.to_nat t)) as [Heq|]; [|by rewrite list_lookup_insert_ne].
    rewrite <- Heq, list_lookup_insert_eq by (by eapply lookup_lt_Some). by rewrite He, Hp, Hn.
  - rewrite <- Hda. apply zlen_blit; [done|]. by rewrite Hb.
Qed.

Lemma rewritten_lba : lba_at (rewritten s block f e c) s = sl_lba (f e).
Proof.
  unfold lba_at, rewritten; cbn. by rewrite list_lookup_insert_eq by (by eapply lookup_lt_Some).
Qed.

Lemma rewritten_lba_ne t : 0 <= t -> t <> s -> lba_at (rewritten s block f e c) t = lba_at c t.
Proof.
  intros. destruct (shape_slot _ _ _ _ Hsh Hs). unfold lba_at, rewritten; cbn.
  by rewrite list_lookup_insert_ne by lia.
Qed.

Lemma rewritten_cached_ne t :
  t ∈ order ++ spare -> t <> s -> cached_at c t -> cached_at (rewritten s block f e c) t.
Proof.
  intros Ht Hne (Hin & Hbl & Hd). pose proof (bs_range c Hi).
  destruct (shape_slot _ _ _ _ Hsh Hs), (shape_slot _ _ _ _ Hsh Ht).
  destruct (slot_extent _ _ _ _ Hi Hsh Hs), (slot_extent _ _ _ _ Hi Hsh Ht).
  unfold cached_at. rewrite rewritten_lba_ne by lia. split; [done|]. split.
  - unfold block_at, rewritten; cbn. rewrite <- Hbl. destruct (decide (t < s)).
    + apply sub_blit_before; [lia|nia|lia|done].
    + apply sub_blit_after; [lia|nia|lia|lia|done].
  - intros e' v. unfold rewritten; cbn. rewrite list_lookup_insert_ne by lia. apply Hd.
Qed.

Lemma rewritten_cached :
  sl_decoded (f e) = None -> inside (cd_inner c) (sl_lba (f e)) -> block = view (cd_inner c) (sl_lba (f e)) ->
  cached_at (rewritten s block f e c) s.
Proof.
  intros Hnone Hin Hv. destruct (slot_extent _ _ _ _ Hi Hsh Hs). unfold cached_at. rewrite rewritten_lba.
  split; [done|]. split.
  - unfold block_at, rewritten; cbn. rewrite sub_blit_hit; [done|lia|lia|done|by rewrite Hb].
  - intros e' v. unfold rewritten; cbn. rewrite list_lookup_insert_eq by (by eapply lookup_lt_Some).
    intros [= <-]. by rewrite Hnone.
Qed.

Lemma rewritten_indexed :
  sl_lba (f e) = sl_lba e -> indexed c order -> indexed (rewritten s block f e c) order.
Proof.
  intros Hl Hx. unfold indexed. change (cd_index (rewritten s block f e c)) with (cd_index c). rewrite Hx.
  apply reflexive_eq, map_ext_in. intros t Ht. f_equal.
  apply list_elem_of_In in Ht. destruct (shape_slot _ _ _ t Hsh) as [? ?]; [by apply elem_of_app; left|].
  destruct (decide (t = s)) as [->|]; [|by rewrite rewritten_lba_ne by lia].
  rewrite rewritten_lba, Hl. unfold lba_at. by rewrite He.
Qed.

Lemma rewritten_held (P : Z -> Prop) :
  held c P order ->
  forall t, t ∈ order -> t <> s -> ~ P (lba_at c t) -> cached_at (rewritten s block f e c) t.
Proof.
  intros Hh t Ht Hne HP. apply rewritten_cached_ne; [by apply elem_of_app; left|done|]. by apply Hh.
Qed.
End Rewritten.

(** *** The index *)

Lemma indexed_lookup c order lba s :
  indexed c order -> cd_index c !! lba = Some s <-> s ∈ order /\ lba_at c s = lba.
Proof.
  intros Hx. rewrite <- elem_of_map_to_list, Hx, list_elem_of_In, in_map_iff. setoid_rewrite <- list_elem_of_In.
  split; [by intros (t & [= <- <-] & Ht)|]. intros [Hs <-]. by exists s.
Qed.

Lemma indexed_none c order lba s :
  indexed c order -> cd_index c !! lba = None -> s ∈ order -> lba_at c s <> lba.
Proof.
  intros Hx Hn Hs Hl. assert (cd_index c !! lba = Some s) as He by (by apply (indexed_lookup c order)).
  congruence.
Qed.

Lemma held_weaken c P order : held c (fun _ => False) order -> held c P order.
Proof. intros Hh s Hs _. exact (Hh s Hs (fun H => H)). Qed.

Lemma indexed_inj c order lba s t :
  indexed c order -> s ∈ order /\ lba_at c s = lba -> t ∈ order -> lba_at c t = lba -> t = s.
Proof.
  intros Hx Hs Ht Hl. apply (indexed_lookup c order lba s Hx) in Hs.
  assert (cd_index c !! lba = Some t) as He by (by apply (indexed_lookup c order)). congruence.
Qed.

Lemma shape_empty c order spare : shape c order spare -> cd_capacity c = 0 -> order = [].
Proof.
  intros [_ _ Hs _ Hc] H0. destruct order as [|s order]; [done|].
  pose proof (proj1 (Hs s) ltac:(by left)). lia.
Qed.

Lemma indexed_perm c order order' : order ≡ₚ order' -> indexed c order -> indexed c order'.
Proof. unfold indexed. intros HP ->. by rewrite HP. Qed.

Lemma indexed_insert c order s lba :
  indexed c order -> cd_index c !! lba = None -> lba_at c s = lba ->
  indexed (set_index (<[lba := s]> (cd_index c)) c) (s :: order).
Proof.
  intros Hx Hn Hl. unfold indexed. cbn. change (lba_at (set_index _ c)) with (lba_at c).
  rewrite map_to_list_insert by done. by rewrite Hx, Hl.
Qed.

Lemma indexed_delete c l s r :
  indexed c (l ++ s :: r) -> indexed (set_index (delete (lba_at c s) (cd_index c)) c) (l ++ r).
Proof.
  intros Hx. unfold indexed. cbn. change (lba_at (set_index _ c)) with (lba_at c).
  apply (Permutation_cons_inv (a := (lba_at c s, s))). rewrite map_to_list_delete.
  - rewrite Hx, !map_app. cbn. solve_Permutation.
  - apply (indexed_lookup c (l ++ s :: r)); [done|]. split; [|done]. apply elem_of_app. right. by constructor.
Qed.

(** *** Inserting a block *)

(** A slot that has been given the new block and waits to be linked. *)
Definition taken (lba : Z) c (r : Z * CachedDevice V D) : Prop :=
  exists order, frame c (snd r) /\ shape (snd r) order (fst r :: cd_free (snd r)) /\
    indexed (snd r) order /\ held (snd r) (fun _ => False) order /\
    cd_index (snd r) !! lba = None /\ lba_at (snd r) (fst r) = lba /\ cached_at (snd r) (fst r).

Lemma slot_entry c order spare s :
  shape c order spare -> s ∈ order ++ spare -> exists e, cd_slots c !! Z.to_nat s = Some e.
Proof.
  intros Hsh Hs. destruct (shape_slot _ _ _ _ Hsh Hs). apply lookup_lt_is_Some_2. unfold zlen in *. lia.
Qed.

(** Reusing a spare slot. *)
Lemma taken_spare {E} c order s free lba (R : E -> Prop) :
  let block := view (cd_inner c) lba in
  dev_ok (cd_inner c) -> inside (cd_inner c) lba -> cd_free c = free ->
  shape c order (s :: free) -> indexed c order -> held c (fun _ => False) order ->
  cd_index c !! lba = None ->
  wp (let* c := rename_slot s lba c in let* c := store_block s block c in Ok (s, c)) (taken lba c) R.
Proof.
  intros block Hi Hin Hf Hsh Hx Hh Hn. unfold rename_slot.
  assert (s ∈ order ++ s :: free) as Hs by (apply elem_of_app; right; by constructor).
  destruct (slot_entry _ _ _ _ Hsh Hs) as [e He].
  assert (zlen block = bs c) as Hb by (by apply ok_view).
  apply wp_bind, wp_bind. eapply wp_slot_update; [done|]. apply wp_ok. apply wp_bind.
  pose proof (rewritten_shape c order (s :: free) s block (renamed lba) e Hi Hsh Hs He Hb eq_refl eq_refl) as Hsh'.
  assert (shape (set_slots (<[Z.to_nat s:=renamed lba e]> (cd_slots c)) c) order (s :: free)) as Hsh0.
  { destruct Hsh' as [H1 H2 H3 H4 H5]. split; [exact H1|done|exact H3| |exact H5].
    cbn in *. destruct (slot_extent _ _ _ _ Hi Hsh Hs).
    rewrite zlen_blit in H4; [done|lia|by rewrite Hb]. }
  eapply wp_store_block; [done|exact Hsh0|done|done|]. apply wp_ok.
  exists order. cbn [fst snd]. change (set_data _ _) with (rewritten s block (renamed lba) e c).
  split; [done|]. split; [cbn; by rewrite Hf|].
  assert (forall t, t ∈ order -> t <> s) as Hne.
  { intros t Ht ->. destruct Hsh as [_ Hd _ _ _]. apply NoDup_app in Hd as (_ & Hd & _).
    apply (Hd s Ht). by constructor. }
  split; [|split; [|split; [done|split]]].
  - unfold indexed. change (cd_index (rewritten _ _ _ _ c)) with (cd_index c). rewrite Hx.
    apply reflexive_eq, map_ext_in. intros t Ht%list_elem_of_In. f_equal.
    destruct (shape_slot _ _ _ t Hsh) as [? _]; [by apply elem_of_app; left|].
    symmetry. eapply rewritten_lba_ne; [done..|lia|by apply Hne].
  - intros t Ht _. eapply rewritten_held; [done..|by apply Hne|tauto].
  - by eapply rewritten_lba.
  - eapply rewritten_cached; done.
Qed.

(** Growing the slot vector. *)
Lemma taken_new c order lba :
  let block := view (cd_inner c) lba in
  let new := {| sl_lba := lba; sl_previous := NONE; sl_next := NONE; sl_decoded := None |} in
  dev_ok (cd_inner c) -> inside (cd_inner c) lba -> cd_free c = [] -> cache_inv c order ->
  zlen (cd_slots c) < cd_capacity c -> cd_index c !! lba = None ->
  taken lba c (as_u32 (zlen (cd_slots c)),
               set_data (cd_data c ++ block) (set_slots (cd_slots c ++ [new]) c)).
Proof.
  intros block new Hi Hin Hf (Hsh & Hx & Hh) Hlt Hn. set (s := zlen (cd_slots c)) in *. unfold NONE in *.
  pose proof Hsh as [(Hl & Hends) Hd Hs Hda Hc]. rewrite Hf, app_nil_r in *. unfold NONE in Hc.
  pose proof (zlen_nonneg (cd_slots c)). rewrite as_u32_small by lia.
  assert (zlen block = bs c) as Hb by (by apply ok_view). pose proof (bs_range c Hi).
  set (c' := set_data _ _). exists order. cbn [fst snd].
  assert (forall t, t ∈ order -> cd_slots c' !! Z.to_nat t = cd_slots c !! Z.to_nat t) as Hlk.
  { intros t Ht%Hs. cbn. apply lookup_app_l. unfold s, zlen in *. lia. }
  assert (cd_slots c' !! Z.to_nat s = Some new) as Hnew.
  { cbn. unfold s, zlen. rewrite Nat2Z.id, lookup_app_r by lia. by rewrite Nat.sub_diag. }
  assert (forall t, t ∈ order -> lba_at c' t = lba_at c t) as Hla by (intros t Ht; unfold lba_at; by rewrite Hlk).
  split; [done|]. split; [|split; [|split; [|split; [done|split]]]].
  - split.
    + split; [|done]. eapply linked_ext; [|done]. intros t Ht. unfold link_at. by rewrite Hlk.
    + apply NoDup_app. cbn. rewrite Hf. repeat split; [done| |apply NoDup_singleton].
      intros t Ht%Hs Hts%list_elem_of_singleton. unfold s in *. lia.
    + intros t. cbn. rewrite Hf, elem_of_app, list_elem_of_singleton, Hs, zlen_app, zlen_one. fold s. lia.
    + cbn. rewrite !zlen_app, zlen_one, Hda, Hb. fold s. lia.
    + cbn. rewrite zlen_app, zlen_one. unfold NONE. fold s. lia.
  - unfold indexed. change (cd_index c') with (cd_index c). rewrite Hx.
    apply reflexive_eq, map_ext_in. intros t Ht%list_elem_of_In. by rewrite Hla.
  - intros t Ht _. destruct (Hh t Ht ltac:(tauto)) as (? & Hbl & Hdec). unfold cached_at. rewrite Hla, Hlk by done.
    change (cd_inner c') with (cd_inner c). split; [done|]. split; [|done]. rewrite <- Hbl. unfold block_at. cbn. apply Hs in Ht. apply sub_app_l; nia.
  - unfold lba_at. by rewrite Hnew.
  - unfold cached_at, lba_at. rewrite Hnew. split; [done|]. split; [|by intros ? ? [= <-]].
    unfold block_at. cbn. rewrite sub_app_r by (rewrite Hda; fold s; lia).
    replace (s * bs c - zlen (cd_data c)) with 0 by (rewrite Hda; fold s; lia).
    apply (sub_all block). rewrite Hda, Hb. fold s. lia.
Qed.

Lemma taken_frame lba c c' r : frame c c' -> taken lba c' r -> taken lba c r.
Proof. intros Hf (order & Hf' & H). exists order. split; [by eapply frame_trans|done]. Qed.

Lemma wp_evict_into {E} c order lba (R : E -> Prop) :
  dev_ok (cd_inner c) -> inside (cd_inner c) lba -> cd_free c = [] -> cache_inv c order ->
  cd_capacity c <> 0 -> cd_capacity c <= zlen (cd_slots c) -> cd_index c !! lba = None ->
  wp (evict_into lba (view (cd_inner c) lba) c) (taken lba c) R.
Proof.
  intros Hi Hin Hf (Hsh & Hx & Hh) Hc0 Hfull Hn. pose proof Hsh as [(_ & _ & Ho & _) _ Hs _ Hc].
  pose proof (zlen_nonneg (cd_slots c)). rewrite Hf, app_nil_r in Hs.
  assert (order <> []) as Hne by (intros ->; apply (not_elem_of_nil 0), Hs; lia).
  destruct (exists_last Hne) as (l & s & ->). rewrite last_default_snoc in Ho. unfold evict_into. rewrite Ho.
  apply wp_bind, (shape_unlink c l s [] (cd_free c)); [done|]. rewrite app_nil_r. intros c1 Hr Hsh1.
  assert (s ∈ l ++ s :: cd_free c) as Hin1 by (apply elem_of_app; right; by constructor).
  destruct (slot_entry _ _ _ _ Hsh1 Hin1) as [e He]. apply wp_bind. eapply wp_slot_get; [done|]. cbv zeta.
  assert (sl_lba e = lba_at c1 s) as -> by (unfold lba_at; by rewrite He).
  destruct (relinked_fields _ _ Hr) as (Hx1 & Hf1 & _). destruct (relinked_frame _ _ Hr) as (Hi1 & Hfr1).
  set (c2 := set_shared _ _).
  assert (frame c c2) as Hfr by (by destruct (relinked_frame _ _ Hr)).
  replace (view (cd_inner c) lba) with (view (cd_inner c2) lba) by (cbn; by rewrite Hi1).
  eapply wp_mono; [apply (taken_spare c2 l s (cd_free c))| |done].
  - cbn. by rewrite Hi1.
  - cbn. by rewrite Hi1.
  - done.
  - by destruct Hsh1.
  - apply (relinked_indexed c c1) in Hx; [|done]. apply (indexed_delete c1 l s []) in Hx.
    by rewrite app_nil_r in Hx.
  - apply (relinked_held c c1) in Hh; [|done]. intros t Ht. apply Hh, elem_of_app. by left.
  - cbn. apply lookup_delete_None. right. by rewrite Hx1.
  - intros r. by apply taken_frame.
Qed.

Lemma wp_take_slot {E} c order lba (R : E -> Prop) :
  dev_ok (cd_inner c) -> inside (cd_inner c) lba -> cache_inv c order ->
  cd_capacity c <> 0 -> cd_index c !! lba = None ->
  wp (take_slot lba (view (cd_inner c) lba) c) (taken lba c) R.
Proof.
  intros Hi Hin Hc Hc0 Hn. unfold take_slot. destruct (cd_free c) as [|s free] eqn:Hf.
  - apply wp_if; intros Hlt.
    + apply wp_ok. eapply taken_new; [done..|lia|done].
    + eapply wp_evict_into; [done..|lia|done].
  - pose proof Hc as (Hsh & Hx & Hh). rewrite Hf in Hsh.
    eapply wp_mono; [apply (taken_spare (set_free free c) order s free); try done|by intros r; apply taken_frame|done].
    by destruct Hsh.
Qed.

(** The cache after an insertion or an invalidation: current for every block. *)
Definition settled c c' : Prop := frame c c' /\ exists order, cache_inv c' order.

Lemma wp_insert_block {E} c order lba (R : E -> Prop) :
  dev_ok (cd_inner c) -> inside (cd_inner c) lba ->
  shape c order (cd_free c) -> indexed c order -> held c (fun a => a = lba) order ->
  wp (insert_block lba (view (cd_inner c) lba) c) (settled c) R.
Proof.
  intros Hi Hin Hsh Hx Hh. unfold insert_block. apply wp_if; intros Hc0.
  { apply wp_ok. split; [done|]. exists order. split; [done|]. split; [done|].
    assert (order = []) as -> by (eapply shape_empty; [done|lia]). intros s Hs. by apply not_elem_of_nil in Hs. }
  destruct (cd_index c !! lba) as [s|] eqn:Hl.
  - apply (indexed_lookup c order lba s Hx) in Hl as [Hs Hls].
    assert (s ∈ order ++ cd_free c) as Hs' by (by apply elem_of_app; left).
    destruct (slot_entry _ _ _ _ Hsh Hs') as [e He].
    assert (zlen (view (cd_inner c) lba) = bs c) as Hb by (by apply ok_view).
    assert (sl_lba e = lba) as Hel by (unfold lba_at in Hls; by rewrite He in Hls).
    apply wp_bind. eapply wp_store_block; [done..|]. apply wp_bind. eapply wp_slot_update; [done|].
    change (set_slots _ _) with (rewritten s (view (cd_inner c) lba) (with_decoded None) e c).
    pose proof (rewritten_shape c order (cd_free c) s _ (with_decoded None) e Hi Hsh Hs' He Hb eq_refl eq_refl) as Hsh1.
    assert (indexed (rewritten s (view (cd_inner c) lba) (with_decoded None) e c) order) as Hx1
      by (by eapply rewritten_indexed).
    assert (held (rewritten s (view (cd_inner c) lba) (with_decoded None) e c) (fun _ => False) order) as Hh1.
    { intros t Ht _. destruct (decide (t = s)) as [->|Hne].
      - eapply rewritten_cached; try done; cbn; by rewrite Hel.
      - eapply rewritten_held; [done..|]. intros Heq. apply Hne.
        by apply (indexed_inj c order lba). }
    clear Hx Hh Hsh. destruct (list_elem_of_split _ _ Hs) as (l & r & Hlr). subst order.
    apply wp_bind, (shape_unlink _ l s r (cd_free c)); [done|]. intros c2 Hr2 Hsh2.
    eapply (shape_push c2 (l ++ r) s (cd_free c)); [done|]. intros c3 Hr3 Hsh3.
    pose proof (relinked_trans _ _ _ Hr2 Hr3) as Hr. split; [exact (relinked_frame _ _ Hr)|].
    exists (s :: l ++ r). destruct (relinked_fields _ _ Hr) as (_ & Hf & _). split; [by rewrite Hf|].
    assert (l ++ s :: r ≡ₚ s :: l ++ r) as HP by solve_Permutation.
    split; [eapply relinked_indexed, indexed_perm; done|].
    eapply relinked_held; [done|]. intros t Ht. apply Hh1. by rewrite HP.
  - assert (cache_inv c order) as Hinv.
    { split; [done|]. split; [done|]. intros s Hs _. apply Hh; [done|]. by eapply indexed_none. }
    apply wp_bind. eapply wp_mono; [apply (wp_take_slot c order lba); [done..|lia|done]| |done].
    intros [s c1] (order1 & Hfr & Hsh1 & Hx1 & Hh1 & Hn1 & Hl1 & Hc1). cbn [fst snd] in *.
    eapply (shape_push _ order1 s (cd_free c1)); [by destruct Hsh1|]. intros c2 Hr Hsh2.
    split; [eapply frame_trans; [exact Hfr|exact (relinked_frame _ _ Hr)]|].
    exists (s :: order1). destruct (relinked_fields _ _ Hr) as (_ & Hf & _). split; [by rewrite Hf|].
    split; [eapply relinked_indexed; [done|]; by apply indexed_insert|].
    eapply relinked_held; [done|]. intros t Ht _. apply elem_of_cons in Ht as [->|Ht]; [exact Hc1|exact (Hh1 t Ht (fun H => H))].
Qed.

Lemma wp_invalidate {E} c order lba (R : E -> Prop) :
  dev_ok (cd_inner c) ->
  shape c order (cd_free c) -> indexed c order -> held c (fun a => a = lba) order ->
  wp (invalidate lba c) (settled c) R.
Proof.
  intros Hi Hsh Hx Hh. unfold invalidate. destruct (cd_index c !! lba) as [s|] eqn:Hl.
  - apply (indexed_lookup c order lba s Hx) in Hl as [Hs Hls].
    assert (s ∈ order ++ cd_free c) as Hs' by (by apply elem_of_app; left).
    destruct (slot_entry _ _ _ _ Hsh Hs') as [e He]. cbv zeta.
    apply wp_bind. eapply wp_slot_update; [done|]. set (c1 := set_slots _ _).
    assert (forall t, lba_at c1 t = lba_at c t) as Hla.
    { intros t. unfold lba_at, c1. cbn. destruct (decide (Z.to_nat s = Z.to_nat t)) as [Heq|].
      - rewrite <- Heq, He, list_lookup_insert_eq by (by eapply lookup_lt_Some). done.
      - by rewrite list_lookup_insert_ne. }
    destruct (list_elem_of_split _ _ Hs) as (l & r & Hlr). subst order.
    assert (shape c1 (l ++ s :: r) (cd_free c)) as Hsh1.
    { destruct Hsh as [(H1 & H1') H2 H3 H4 H5]. unfold c1. split; cbn; unfold zlen in *; rewrite ?length_insert; try done.
      split; [|done]. eapply linked_ext; [|done]. intros t _. unfold link_at. cbn.
      destruct (decide (Z.to_nat s = Z.to_nat t)) as [Heq|]; [|by rewrite list_lookup_insert_ne].
      rewrite <- Heq, He, list_lookup_insert_eq by (by eapply lookup_lt_Some). done. }
    apply wp_bind, (shape_unlink c1 l s r (cd_free c)); [done|]. intros c2 Hr Hsh2. apply wp_ok.
    split; [exact (relinked_frame _ _ Hr)|]. exists (l ++ r).
    destruct (relinked_fields _ _ Hr) as (Hix & Hf & _). split; [|split].
    + destruct Hsh2. split; cbn; rewrite ?Hf; try done.
    + apply (indexed_delete c l s r) in Hx. rewrite Hls in Hx. unfold indexed in *. cbn. rewrite Hix. cbn. rewrite Hx.
      apply reflexive_eq, map_ext. intros t. f_equal.
      transitivity (lba_at c1 t); symmetry; [exact (Hla t)|exact (relinked_lba c1 c2 t Hr)].
    + intros t Ht _. change (cached_at c2 t). eapply relinked_cached; [done|].
      assert (t ∈ l ++ s :: r) as Ht' by (rewrite elem_of_app, elem_of_cons; apply elem_of_app in Ht; tauto).
      assert (t <> s) as Hne.
      { intros ->. pose proof (sh_nodup _ _ _ Hsh) as Hd. apply NoDup_app in Hd as [Hd _].
        assert (l ++ s :: r ≡ₚ s :: l ++ r) as HP by solve_Permutation. rewrite HP in Hd.
        by apply NoDup_cons in Hd as [? _]. }
      destruct (Hh t Ht') as (? & ? & Hd).
      { intros Heq. apply Hne. by apply (indexed_inj c (l ++ s :: r) lba). }
      unfold cached_at. rewrite Hla. split; [done|]. split; [done|]. intros e' v. cbn.
      destruct (shape_slot _ _ _ t Hsh1) as [? _]; [by apply elem_of_app; left|].
      destruct (shape_slot _ _ _ s Hsh1) as [? _]; [by apply elem_of_app; left|].
      rewrite list_lookup_insert_ne by lia. apply Hd.
  - apply wp_ok. split; [done|]. exists order. split; [done|]. split; [done|].
    intros s Hs _. apply Hh; [done|]. by eapply indexed_none.
Qed.

(** *** Changing the capacity *)

Lemma shape_count c order spare : shape c order spare -> (length order <= length (cd_slots c))%nat.
Proof.
  intros [_ Hd Hs _ _].
  assert (order ++ spare ≡ₚ map Z.of_nat (seq 0 (length (cd_slots c)))) as HP.
  { apply NoDup_Permutation; [done| |].
    - apply (NoDup_fmap_2 Z.of_nat), NoDup_seq.
    - intros s. rewrite Hs, list_elem_of_In, in_map_iff. setoid_rewrite in_seq. unfold zlen. split.
      + intros ?. exists (Z.to_nat s). lia.
      + intros (n & <- & ?). lia. }
  apply Permutation_length in HP. rewrite length_app, length_map, length_seq in HP. lia.
Qed.

Lemma indexed_size c order : indexed c order -> size (cd_index c) = length order.
Proof. intros Hx. rewrite <- length_map_to_list. rewrite Hx. apply length_map. Qed.

Lemma wp_keep_recent {E} c order spare capacity (R : E -> Prop) :
  dev_ok (cd_inner c) -> shape c order spare ->
  forall fuel rest p kept (Q : list (Z * bytes) -> Prop),
  (length rest < fuel)%nat -> linked (cd_slots c) p rest NONE -> (forall s, s ∈ rest -> s ∈ order) ->
  (forall some, some `prefix_of` rest -> Q (kept ++ map (fun s => (lba_at c s, block_at c s)) some)) ->
  wp (keep_recent fuel capacity (hd NONE rest) kept c) Q R.
Proof.
  intros Hi Hsh fuel. induction fuel as [|fuel IH]; intros rest p kept Q Hf Hl Hin HQ; [lia|].
  cbn [keep_recent]. apply wp_if; intros Hstop.
  { apply wp_ok. specialize (HQ [] ltac:(apply prefix_nil)). by rewrite app_nil_r in HQ. }
  destruct rest as [|s rest]; [by cbn in Hstop|]. cbn [hd] in *.
  assert (s ∈ order ++ spare) as Hs by (apply elem_of_app; left; apply Hin; by left).
  destruct (shape_slot _ _ _ _ Hsh Hs), (slot_extent _ _ _ _ Hi Hsh Hs). pose proof (bs_range c Hi).
  destruct Hl as [(e & He & _ & Hn) Hl].
  apply wp_bind, wp_block_range; [done..|]. apply wp_bind. eapply wp_slot_get; [done|].
  apply wp_bind, wp_slice; [lia|lia|]. rewrite Hn. eapply IH; [cbn in Hf; lia|done| |].
  - intros t Ht. apply Hin. by right.
  - intros some Hp. rewrite <- app_assoc. specialize (HQ (s :: some) ltac:(by apply prefix_cons)).
    cbn in HQ. unfold lba_at at 1 in HQ. by rewrite He in HQ.
Qed.

Lemma wp_reinsert {E} (l : list (Z * bytes)) (R : E -> Prop) : forall c order,
  dev_ok (cd_inner c) -> cache_inv c order ->
  Forall (fun '(lba, block) => inside (cd_inner c) lba /\ block = view (cd_inner c) lba) l ->
  wp (ofold (fun c '(lba, block) => insert_block lba block c) c l) (settled c) R.
Proof.
  induction l as [|[lba block] l IH]; intros c order Hi Hc Hl; cbn [ofold].
  { apply wp_ok. split; [done|]. by exists order. }
  apply Forall_cons in Hl as [[Hin ->] Hl]. destruct Hc as (Hsh & Hx & Hh). apply wp_bind.
  eapply wp_mono; [eapply (wp_insert_block c order lba)| |done]; try done.
  { by apply held_weaken. }
  intros c1 [Hfr [order1 Hinv]]. destruct Hfr as (Hi1 & Hfr).
  eapply wp_mono; [eapply (IH c1 order1)| |done]; [by rewrite Hi1|done|by rewrite Hi1|].
  intros c2 [Hfr2 Hinv2]. split; [|done]. by eapply frame_trans; [|exact Hfr2].
Qed.

Definition resized c c' : Prop :=
  cd_inner c' = cd_inner c /\ sh_requested (cd_shared c') = sh_requested (cd_shared c) /\
  exists order, cache_inv c' order.

Lemma emptied_inv c capacity : 0 <= capacity <= NONE -> cache_inv (emptied capacity c) [].
Proof.
  intros Hc. split; [|split].
  - split; [by repeat split; constructor|constructor| |done|].
    + intros s. cbn. rewrite elem_of_nil. unfold zlen. cbn. lia.
    + cbn. unfold zlen. cbn. lia.
  - unfold indexed. cbn. by rewrite map_to_list_empty.
  - intros s Hs. by apply not_elem_of_nil in Hs.
Qed.

Lemma wp_set_capacity {E} c order capacity (R : E -> Prop) :
  dev_ok (cd_inner c) -> cache_inv c order -> 0 <= capacity <= NONE ->
  wp (set_capacity capacity c) (fun r => resized c (snd r)) R.
Proof.
  intros Hi Hc Hcap. unfold set_capacity.
  set (answer := match cd_memory c with a :: m => (a, set_memory m c) | [] => (false, c) end).
  assert (resized c (snd answer) /\ cache_inv (snd answer) order /\ cd_inner (snd answer) = cd_inner c /\
          sh_requested (cd_shared (snd answer)) = sh_requested (cd_shared c)) as (Hres & Hc' & Hi' & Hq').
  { assert (forall c1, cd_inner c1 = cd_inner c -> cd_shared c1 = cd_shared c -> cache_inv c1 order ->
      resized c c1 /\ cache_inv c1 order /\ cd_inner c1 = cd_inner c /\
      sh_requested (cd_shared c1) = sh_requested (cd_shared c)) as H.
    { intros c1 Hi1 Hs1 Hc1. rewrite Hs1. split; [|done]. split; [done|]. split; [by rewrite Hs1|by exists order]. }
    unfold answer. destruct (cd_memory c) as [|a m]; cbn [snd]; apply H; try done.
    all: destruct Hc as ([? ? ? ? ?] & ? & ?); split; by split. }
  clearbody answer. destruct answer as [granted c1]. cbn [snd] in *.
  apply wp_if; intros _; [by apply wp_ok|]. pose proof Hc' as (Hsh & Hx & Hh).
  pose proof Hsh as [(Hl & Hn & _) _ _ _ _]. rewrite Hn.
  apply wp_bind. eapply (wp_keep_recent c1 order (cd_free c1)); [by rewrite Hi'|done| |exact Hl|done|].
  { pose proof (shape_count _ _ _ Hsh). lia. }
  intros some [rest Hsome]. cbn [app]. apply wp_bind, wp_sub_w.
  { rewrite (indexed_size _ _ Hx), Hsome, length_app. unfold zlen. rewrite length_map. lia. }
  cbv zeta. set (c2 := set_shared _ c1). apply wp_bind.
  eapply wp_mono; [eapply (wp_reinsert _ R (emptied capacity c2) [])| |done].
  - cbn. by rewrite Hi'.
  - by apply emptied_inv.
  - apply Forall_rev, Forall_forall. intros [lba block] Hin%list_elem_of_In%in_map_iff.
    destruct Hin as (s & [= <- <-] & Hs). apply list_elem_of_In in Hs.
    destruct (Hh s) as (? & Hb & _); [rewrite Hsome; by apply elem_of_app; left|tauto|]. done.
  - intros c3 [(Hi3 & _ & Hq3) [order3 Hinv3]]. apply wp_ok. cbn [snd].
    split; [rewrite Hi3; exact Hi'|]. split; [rewrite Hq3; exact Hq'|]. by exists order3.
Qed.

(** ** The cache as a device *)

(** A capacity of more than [u32::MAX] blocks has no slot numbers: 16 TiB of
    cache at 4 KiB blocks. *)
Definition request_ok (r : Z) : Prop := r = NO_REQUEST \/ 0 <= r <= NONE.

Definition cached_ok c : Prop :=
  dev_ok (cd_inner c) /\ request_ok (sh_requested (cd_shared c)) /\ exists order, cache_inv c order.

Definition cached_view c (a : Z) : bytes := view (cd_inner c) a.

Lemma wpi_own {A} (f : CachedDevice V D -> outcome BlockError (A * CachedDevice V D)) c Q R :
  wp (f c) (fun r => Q (fst r) (snd r)) (fun e => R e c) -> wpi (own f) c Q R.
Proof. unfold wpi, own. by destruct (f c) as [[]| |]. Qed.

Lemma wpi_own_ (f : CachedDevice V D -> outcome BlockError (CachedDevice V D)) c Q R :
  wp (f c) (Q tt) (fun e => R e c) -> wpi (own_ f) c Q R.
Proof. intros H. apply wpi_own, wp_bind. eapply wp_mono; [exact H|done|done]. Qed.

Lemma shared_inv f c order : cache_inv c order -> cache_inv (set_shared f c) order.
Proof. intros ([? ? ? ? ?] & ? & ?). split; by split. Qed.

Lemma wp_take_request {E} c (R : E -> Prop) :
  cached_ok c -> wp (take_request c) (fun c' => cached_ok c' /\ cd_inner c' = cd_inner c) R.
Proof.
  intros (Hi & Hr & order & Hc). unfold take_request. apply wp_if; intros Hq.
  - apply wp_bind. eapply wp_mono; [eapply (wp_set_capacity _ order)| |done].
    + done.
    + by apply shared_inv.
    + destruct Hr as [Hr|]; [|done]. rewrite Hr in Hq. by cbn in Hq.
    + intros [b c'] (Hi' & Hq' & Hinv). cbn [snd] in *. apply wp_ok. split; [|done].
      split; [by rewrite Hi'|]. split; [|done]. rewrite Hq'. by left.
  - apply wp_ok. split; [|done]. split; [done|]. split; [by left|]. exists order. by apply shared_inv.
Qed.

(** A change of the inner device the cache has not followed yet. *)
Lemma set_inner_inv c d P order :
  cache_inv c order -> agree_off dev_ok view P (cd_inner c) d ->
  shape (set_inner d c) order (cd_free c) /\ indexed (set_inner d c) order /\ held (set_inner d c) P order.
Proof.
  intros ([? ? ? Hd ?] & Hx & Hh) (Hok & [Hb Ht] & Hv). split; [|split].
  - split; try done. cbn. by rewrite Hb.
  - done.
  - intros s Hs HP. destruct (Hh s Hs ltac:(tauto)) as (Hin & Hbl & Hdec).
    change (lba_at (set_inner d c) s) with (lba_at c s) in *. unfold cached_at.
    change (lba_at (set_inner d c) s) with (lba_at c s). cbn.
    assert (view d (lba_at c s) = view (cd_inner c) (lba_at c s)) as -> by (by apply Hv).
    split; [unfold inside in *; by rewrite Ht|]. split; [|done].
    unfold block_at in *. cbn. by rewrite Hb.
Qed.

Lemma settled_ok c c' :
  dev_ok (cd_inner c) -> request_ok (sh_requested (cd_shared c)) -> settled c c' ->
  cached_ok c' /\ cd_inner c' = cd_inner c.
Proof.
  intros Hd Hr ((Hi & _ & Hq) & Hinv). split; [|by rewrite Hi].
  split; [by rewrite Hi|]. split; [by rewrite Hq|done].
Qed.

Lemma wp_hit c lba s order :
  cached_ok c -> cache_inv c order -> cd_index c !! lba = Some s ->
  wp (hit s c) (fun r => inside (cd_inner c) lba /\ fst r = view (cd_inner c) lba /\
                         cached_ok (snd r) /\ cd_inner (snd r) = cd_inner c) no_error.
Proof.
  intros (Hi & Hr & _) (Hsh & Hx & Hh) Hl. apply (indexed_lookup c order lba s Hx) in Hl as [Hs Hl].
  assert (s ∈ order ++ cd_free c) as Hs' by (by apply elem_of_app; left).
  destruct (shape_slot _ _ _ _ Hsh Hs'), (slot_extent _ _ _ _ Hi Hsh Hs'). pose proof (bs_range c Hi).
  destruct (Hh s Hs ltac:(tauto)) as (Hin & Hb & _). rewrite Hl in Hin, Hb. unfold hit.
  apply wp_bind, wp_block_range; [done..|]. apply wp_bind, wp_slice; [lia|lia|].
  destruct (list_elem_of_split _ _ Hs) as (l & r & ->).
  apply wp_bind, (shape_unlink c l s r (cd_free c)); [done|]. intros c1 Hr1 Hsh1.
  apply wp_bind, (shape_push c1 (l ++ r) s (cd_free c)); [done|]. intros c2 Hr2 Hsh2. apply wp_ok. cbn [fst snd].
  pose proof (relinked_trans _ _ _ Hr1 Hr2) as Hr12. destruct (relinked_frame _ _ Hr12) as (Hi2 & _ & Hq2).
  destruct (relinked_fields _ _ Hr12) as (_ & Hf2 & _).
  assert (l ++ s :: r ≡ₚ s :: l ++ r) as HP by solve_Permutation.
  do 2 (split; [done|]). split; [|exact Hi2]. split; [cbn; by rewrite Hi2|]. split; [cbn; by rewrite Hq2|].
  exists (s :: l ++ r). apply shared_inv. split; [by rewrite Hf2|].
  split; [eapply relinked_indexed, indexed_perm; done|].
  eapply relinked_held; [done|]. intros t Ht. apply Hh. by rewrite HP.
Qed.

Lemma cached_agree c c' d P :
  cached_ok c' -> cd_inner c' = d -> agree_off dev_ok view P (cd_inner c) d ->
  agree_off cached_ok cached_view P c c'.
Proof. intros Hc' <- (_ & Hs & Hv). done. Qed.

Lemma cached_read_contract c lba n :
  cached_ok c -> u64 lba ->
  wpi (cached_read_block lba n) c
    (fun b c' => inside c lba /\ n = dev_block_size c /\ b = cached_view c lba /\
                 agree_off cached_ok cached_view (fun _ => False) c c')
    (fun e c' => agree_off cached_ok cached_view (fun _ => False) c c' /\
                 snd (read_block lba n (cd_inner c)) = Err e).
Proof.
  intros Hc Hl. apply wpi_bind, wpi_own_. eapply wp_mono; [by apply (wp_take_request c no_error)| |done].
  intros c1 [Hc1 Hi1]. apply wpi_bind. unfold wpi at 1, iget.
  pose proof Hc1 as (Hd & Hr & order & Hinv).
  assert (forall c', cached_ok c' -> cd_inner c' = cd_inner c -> agree_off cached_ok cached_view (fun _ => False) c c')
    as Hag by (intros c' ? Hi'; eapply cached_agree; [done..|]; apply agree_refl; by rewrite <- Hi1).
  assert (wpi (let! buf := izoom cd_inner set_inner (read_block lba n) in
               do! imodify (set_shared count_miss) in do! own_ (insert_block lba buf) in iret buf) c1
    (fun b c' => inside c lba /\ n = dev_block_size c /\ b = cached_view c lba /\
                 agree_off cached_ok cached_view (fun _ => False) c c')
    (fun e c' => agree_off cached_ok cached_view (fun _ => False) c c' /\
                 snd (read_block lba n (cd_inner c)) = Err e)) as Hmiss.
  { apply wpi_bind, wpi_zoom. eapply wpi_mono; [by apply wpi_keep, read_contract|..].
    - intros b d [(Hin & -> & -> & Ha) _]. pose proof Ha as (Hd' & _ & Hv). apply wpi_bind. unfold wpi at 1, imodify.
      apply (shared_inv count_miss) in Hinv.
      destruct (set_inner_inv (set_shared count_miss c1) d _ order Hinv Ha) as (Hsh & Hx & Hh).
      rewrite <- (Hv lba Hin (fun H => H)). apply wpi_bind, wpi_own_.
      assert (inside d lba) as Hind by (destruct Ha as (_ & [_ Ht] & _); unfold inside in *; by rewrite Ht).
      eapply wp_mono; [eapply (wp_insert_block (set_inner d (set_shared count_miss c1)) order lba no_error); try done|..].
      + intros s Hs _. exact (Hh s Hs (fun H => H)).
      + intros c2 Hse. destruct (settled_ok (set_inner d (set_shared count_miss c1)) c2 Hd' Hr Hse) as [Hc2 Hi2].
        cbn in Hi2. apply wpi_ret. rewrite (Hv lba Hin (fun H => H)). unfold inside, cached_view in *. cbn. rewrite <- Hi1.
        do 3 (split; [done|]). eapply cached_agree; [done..|]. by rewrite <- Hi1.
      + done.
    - intros e d [Ha Hrun]. split; [|by rewrite <- Hi1, Hrun]. pose proof Ha as (Hd' & _ & _). eapply cached_agree; [|done|by rewrite <- Hi1].
      destruct (set_inner_inv c1 d _ order Hinv Ha) as (Hsh & Hx & Hh). split; [done|]. split; [done|].
      by exists order. }
  destruct (cd_index c1 !! lba) as [s|] eqn:Hx; [|exact Hmiss]. destruct (Z.eqb_spec n (dev_block_size (cd_inner c1))); [|exact Hmiss].
  apply wpi_own. eapply wp_mono; [by eapply wp_hit| |done].
  - intros [b c2] (Hin & Hb & Hc2 & Hi2). cbn [fst snd] in *. rewrite Hi1 in *. do 3 (split; [done|]).
    by apply Hag.
Qed.

Lemma cached_write_contract c lba data :
  cached_ok c -> u64 lba ->
  wpi (cached_write_block lba data) c
    (fun _ c' => inside c lba /\ zlen data = dev_block_size c /\ cached_view c' lba = data /\
                 agree_off cached_ok cached_view (fun a => a = lba) c c')
    (fun e c' => agree_off cached_ok cached_view (fun a => a = lba) c c' /\
                 write_block lba data (cd_inner c) = (cd_inner c', Err e)).
Proof.
  intros Hc Hl. apply wpi_bind, wpi_own_. eapply wp_mono; [by apply (wp_take_request c no_error)| |done].
  intros c1 [Hc1 Hi1]. pose proof Hc1 as (Hd & Hr & order & Hinv).
  pose proof (write_contract (cd_inner c1) lba data Hd Hl) as Hw. unfold wpi, izoom in *.
  destruct (write_block lba data (cd_inner c1)) as [d [u|e|]] eqn:Hrun; [| |done].
  - destruct Hw as (Hin & Hz & Hvd & Ha). rewrite <- Hvd in *. pose proof Ha as (Hd' & [_ Ht] & _).
    destruct (set_inner_inv c1 d _ order Hinv Ha) as (Hsh & Hx & Hh).
    fold (wpi (own_ (insert_block lba (view d lba))) (set_inner d c1)
      (fun _ c' => inside c lba /\ zlen (view d lba) = dev_block_size c /\ cached_view c' lba = view d lba /\
                   agree_off cached_ok cached_view (fun a => a = lba) c c')
      (fun e c' => agree_off cached_ok cached_view (fun a => a = lba) c c' /\
                   write_block lba data (cd_inner c) = (cd_inner c', Err e))).
    apply wpi_own_. eapply wp_mono; [eapply (wp_insert_block (set_inner d c1) order lba no_error); try done|..].
    + unfold inside in *. cbn. by rewrite Ht.
    + intros c2 Hse. destruct (settled_ok (set_inner d c1) c2 Hd' Hr Hse) as [Hc2 Hi2]. cbn in Hi2.
      unfold inside, cached_view in *. cbn. rewrite <- Hi1, Hi2. do 3 (split; [done|]).
      eapply cached_agree; [done..|]. by rewrite <- Hi1.
    + done.
  - pose proof Hw as (Hd' & _). destruct (set_inner_inv c1 d _ order Hinv Hw) as (Hsh & Hx & Hh).
    fold (wpi (do! own_ (invalidate lba) in ierr e) (set_inner d c1)
      (fun (_ : unit) c' => inside c lba /\ zlen data = dev_block_size c /\ cached_view c' lba = data /\
                   agree_off cached_ok cached_view (fun a => a = lba) c c')
      (fun e c' => agree_off cached_ok cached_view (fun a => a = lba) c c' /\
                   write_block lba data (cd_inner c) = (cd_inner c', Err e))).
    apply wpi_bind, wpi_own_. eapply wp_mono; [by eapply (wp_invalidate (set_inner d c1) order lba no_error)| |done].
    intros c2 Hse. destruct (settled_ok (set_inner d c1) c2 Hd' Hr Hse) as [Hc2 Hi2]. cbn in Hi2.
    apply wpi_err. split; [|by rewrite <- Hi1, Hrun, Hi2]. eapply cached_agree; [done..|]. by rewrite <- Hi1.
Qed.

(** Attaching changes one decoded value. *)
Lemma cached_attach_inv c order lba v :
  cache_inv c order -> (inside (cd_inner c) lba -> decodes v (view (cd_inner c) lba)) ->
  cache_inv (cached_attach c lba v) order.
Proof.
  intros Hc Hv. pose proof Hc as (Hsh & Hx & Hh). unfold cached_attach.
  destruct (cd_index c !! lba) as [s|] eqn:Hl; [|done].
  apply (indexed_lookup c order lba s Hx) in Hl as [Hs Hl]. unfold slot_update, slot_get.
  assert (s ∈ order ++ cd_free c) as Hs' by (by apply elem_of_app; left).
  destruct (slot_entry _ _ _ _ Hsh Hs') as [e He]. rewrite He. cbn [obind]. set (c1 := set_slots _ c).
  assert (forall t, cd_slots c1 !! Z.to_nat t =
    if decide (Z.to_nat s = Z.to_nat t) then Some (with_decoded (Some v) e) else cd_slots c !! Z.to_nat t) as Hlk.
  { intros t. cbn. case_decide as Heq; [|by rewrite list_lookup_insert_ne].
    rewrite <- Heq. apply list_lookup_insert_eq. by eapply lookup_lt_Some. }
  assert (forall t, lba_at c1 t = lba_at c t) as Hla.
  { intros t. unfold lba_at. rewrite Hlk. case_decide as Heq; [|done]. rewrite <- Heq. by rewrite He. }
  split; [|split].
  - destruct Hsh as [(H1 & H1') H2 H3 H4 H5]. unfold c1. split; cbn; unfold zlen in *; rewrite ?length_insert; try done.
    split; [|done]. eapply linked_ext; [|done]. intros t _. unfold link_at. fold c1. rewrite Hlk.
    case_decide as Heq; [|done]. rewrite <- Heq. by rewrite He.
  - unfold indexed. change (cd_index c1) with (cd_index c). rewrite Hx.
    apply reflexive_eq, map_ext. intros t. by rewrite Hla.
  - intros t Ht _. destruct (Hh t Ht ltac:(tauto)) as (Hin & Hb & Hd). unfold cached_at. rewrite Hla.
    split; [done|]. split; [done|]. intros e' v'. rewrite Hlk. case_decide as Heq; [|by apply Hd].
    intros [= <-] [= <-]. destruct (shape_slot _ _ _ s Hsh Hs').
    destruct (shape_slot _ _ _ t Hsh) as [? _]; [by apply elem_of_app; left|].
    assert (t = s) as -> by lia. rewrite Hl in *. by apply Hv.
Qed.

#[global] Instance cached_contract : DeviceContract V (CachedDevice V D) decodes.
Proof.
  refine {| dev_ok := cached_ok; view := cached_view |}.
  - intros c a (Hd & _) Ha. exact (ok_view (cd_inner c) a Hd Ha).
  - intros c (Hd & _). exact (ok_size (cd_inner c) Hd).
  - intros c lba n Hc Hl. eapply wpi_mono; [by apply cached_read_contract|done|by intros ? ? [? _]].
  - intros c lba data Hc Hl. eapply wpi_mono; [by apply cached_write_contract|done|by intros ? ? [? _]].
  - intros c Hc. pose proof Hc as (Hd & Hr & order & Hinv). apply wpi_zoom.
    assert (forall d, agree_off dev_ok view (fun _ => False) (cd_inner c) d ->
      agree_off cached_ok cached_view (fun _ => False) c (set_inner d c)) as H.
    { intros d Ha. destruct (set_inner_inv c d _ order Hinv Ha) as (Hsh & Hx & Hh).
      eapply cached_agree; [|done|done]. split; [by destruct Ha|]. split; [done|]. by exists order. }
    eapply wpi_mono; [by apply flush_contract|..]; intros; by apply H.
  - intros c a v (_ & _ & order & Hsh & Hx & Hh) Ha. cbn in Ha. unfold cached_attached in Ha.
    destruct (cd_index c !! a) as [s|] eqn:Hl; [|done]. destruct (cd_slots c !! Z.to_nat s) as [e|] eqn:He; [|done].
    apply (indexed_lookup c order a s Hx) in Hl as [Hs Hl].
    destruct (Hh s Hs ltac:(tauto)) as (Hin & _ & Hd). rewrite Hl in *. split; [done|]. by eapply Hd.
  - intros c a v (Hd & Hr & order & Hinv) Hv. cbn in *.
    assert (cd_inner (cached_attach c a v) = cd_inner c /\ cd_shared (cached_attach c a v) = cd_shared c) as [Hi Hs].
    { unfold cached_attach. destruct (_ !! a); [|done]. by destruct (slot_update _ _ _). }
    apply (cached_agree c _ (cd_inner c)); [|done|by apply agree_refl]. split; [by rewrite Hi|]. split; [by rewrite Hs|].
    exists order. by apply cached_attach_inv.
Defined.

Context {reliable : ReliableDevice W D inner_decodes}.

Lemma check_access_inside c lba n :
  inside c lba -> n = dev_block_size c -> check_access lba (dev_total_blocks c) n (dev_block_size c) = Ok tt.
Proof. intros [??] ->. unfold check_access. by rewrite (proj2 (Z.leb_gt _ _)), Z.eqb_refl by lia. Qed.

#[global] Instance cached_reliable : ReliableDevice V (CachedDevice V D) decodes.
Proof.
  split.
  - intros c lba n Hc Hl. pose proof (cached_read_contract c lba n Hc Hl) as H. unfold wpi in H.
    cbn [read_block cached_device]. destruct (cached_read_block lba n c) as [c' [b|e|]]; [| |done].
    + destruct H as (Hin & Hn & -> & _). by rewrite check_access_inside.
    + destruct H as [_ H]. rewrite read_answer in H by (done || apply Hc). cbn [snd]. cbn.
      destruct (check_access _ _ _ _); [done|by injection H as ->|done].
  - intros c lba data Hc Hl. pose proof (cached_write_contract c lba data Hc Hl) as H. unfold wpi in H.
    cbn [write_block cached_device]. destruct (cached_write_block lba data c) as [c' [[]|e|]]; [| |done].
    + destruct H as (Hin & Hn & _). by rewrite check_access_inside.
    + destruct H as [_ H]. apply (f_equal snd) in H. by rewrite write_answer in H by (done || apply Hc).
  - intros c lba data e Hc Hl. cbn [write_block cached_device].
    pose proof (cached_write_contract c lba data Hc Hl) as H.
    pose proof (write_refused (cd_inner c) lba data e) as Hw. unfold wpi in H.
    intros Hs. destruct (cached_write_block lba data c) as [c' [b|e'|]] eqn:Hrun; cbn [snd] in Hs; [done| |done].
    injection Hs as ->. destruct H as [(Hc' & Hsh & Hv) H]. cbn [fst]. split; [done|]. split; [done|].
    intros a Ha _. destruct (decide (a = lba)) as [->|]; [|by apply Hv].
    rewrite H in Hw. destruct (Hw ltac:(apply Hc) Hl eq_refl) as (_ & _ & Hv'). exact (Hv' lba Ha (fun H => H)).
  - intros c Hc. cbn. unfold izoom. pose proof (flush_answer (cd_inner c)) as Hf.
    destruct (flush (cd_inner c)). by apply Hf, Hc.
Qed.
(** ** Transparency *)

Fixpoint run_events (evs : list cache_event) c : CachedDevice V D * list (outcome BlockError bytes) :=
  match evs with
  | [] => (c, [])
  | Request op :: evs =>
      let '(c, r) := run_op op c in
      let '(c, rs) := run_events evs c in (c, r :: rs)
  | Resize capacity :: evs => run_events evs (set_shared (request_capacity capacity) c)
  end.

Lemma run_events_store evs : forall c st,
  dev_ok c -> Forall event_typed evs -> holds c st ->
  snd (run_events evs c) = snd (store_run (dev_total_blocks c) (dev_block_size c) st (requests evs)) /\
  dev_ok (fst (run_events evs c)).
Proof.
  induction evs as [|[op|capacity] evs IH]; intros c st Hc Ht Hst; [done|..];
    apply Forall_cons in Ht as [Hev Ht]; cbn [run_events event_typed] in *.
  - change (requests (Request op :: evs)) with (op :: requests evs). cbn [store_run].
    pose proof (run_op_agree c op Hc Hev) as (Hc' & [Hbs Hn] & _).
    destruct (run_op_store c op st Hc Hev Hst) as [Ha Hh].
    destruct (run_op op c) as [c' r], (store_op _ _ st op) as [st' r']. cbn [fst snd] in *. subst r'.
    specialize (IH c' st' Hc' Ht Hh). rewrite Hn, Hbs in IH.
    destruct (run_events evs c'), (store_run _ _ st' (requests evs)). cbn [fst snd] in *.
    destruct IH as [-> IH]. done.
  - apply (IH (set_shared (request_capacity capacity) c) st); [|done|done].
    destruct Hc as (Hd & _ & order & Hinv). split; [done|]. split; [|exists order; by apply shared_inv].
    right. cbn. unfold NO_REQUEST, NONE in *. lia.
Qed.

Lemma cached_bounded c : dev_ok c -> Z.of_nat (size (cd_index c)) <= cd_capacity c.
Proof.
  intros (_ & _ & order & Hsh & Hx & _). rewrite (indexed_size c order Hx).
  pose proof (shape_count _ _ _ Hsh). destruct Hsh as [_ _ _ _ Hcap]. unfold zlen in Hcap. lia.
Qed.

Lemma CachedDevice_new_ok inner capacity memory :
  dev_ok inner -> 0 <= capacity <= NONE ->
  wp (E := BlockError) (CachedDevice_new inner capacity memory)
     (fun c => dev_ok c /\ cd_inner c = inner) no_error.
Proof.
  intros Hi Hc. unfold CachedDevice_new. cbv zeta. apply wp_bind.
  eapply wp_mono; [eapply (wp_set_capacity _ [] capacity no_error)| |done]; [done| |done|].
  - set (c0 := Build_CachedDevice _ _ _ _ _ _ _ _ _ _).
    exact (emptied_inv c0 0 ltac:(unfold NONE; lia)).
  - intros [b c] (Hi' & Hq & Hinv). cbn [snd] in *. apply wp_ok. split; [|done].
    split; [by rewrite Hi'|]. split; [|done]. rewrite Hq. by left.
Qed.
End Cache.



(** C29: A value a caller attached to a block is handed out only while it is
    the decoded form of what the block holds: whatever is written, evicted,
    invalidated or resized in between, [attached] never answers with a value
    older than the bytes. *)
Theorem cached_values_current {V W D : Type} {device : BlockDevice W D} {inner_decodes : W -> bytes -> Prop}
    {contract : DeviceContract W D inner_decodes} (decodes : V -> bytes -> Prop) (c : CachedDevice V D)
    (lba : Z) (v : V) (ops : list dev_op) (a : Z) (w : V) :
  cached_ok (decodes := decodes) c -> decodes v (cached_view c lba) -> Forall op_typed ops ->
  attached (fst (run_ops ops (attach c lba v))) a = Some w ->
  decodes w (cached_view (fst (run_ops ops (attach c lba v))) a).
Proof.
  intros Hc Hv Ht Ha. change (dev_ok (decodes := decodes) c) in Hc.
  enough (dev_ok (decodes := decodes) (fst (run_ops ops (attach c lba v)))) as Hok.
  { by apply (attached_contract _ _ _ Hok) in Ha as [_ ?]. }
  destruct (attach_contract (decodes := decodes) c lba v Hc (fun _ => Hv)) as (Hc' & _). clear -Hc' Ht.
  revert Hc'. generalize (attach c lba v). induction ops as [|op ops IH]; intros c' Hc'; [done|].
  apply Forall_cons in Ht as [Hop Ht]. cbn [run_ops].
  destruct (run_op_agree c' op Hc' Hop) as (Hc'' & _). destruct (run_op op c') as [c'' r]. cbn [fst] in *.
  specialize (IH Ht c'' Hc''). by destruct (run_ops ops c'').
Qed.

(** The first byte of a block, as a value kept beside it. *)
Definition first_byte_is (v : Z) (block : bytes) : Prop := hd 0 (map byte.unsigned block) = v.

Definition cached_twelve : CachedDevice Z MemoryBackend :=
  match CachedDevice_new (E := BlockError) twelve_blocks 2 [true] with
  | Ok c => fst (run_ops [OpRead 3 512] c)
  | _ => {| cd_inner := twelve_blocks; cd_capacity := 0; cd_index := ∅; cd_slots := []; cd_data := [];
            cd_free := []; cd_newest := NONE; cd_oldest := NONE;
            cd_shared := {| sh_requested := NO_REQUEST; sh_capacity := 0; sh_hits := 0; sh_misses := 0;
                            sh_evictions := 0; sh_invalidations := 0 |}; cd_memory := [] |}
  end.

Lemma cached_twelve_ok : cached_ok (decodes := first_byte_is) cached_twelve.
Proof.
  unfold cached_twelve.
  pose proof (CachedDevice_new_ok (decodes := first_byte_is) twelve_blocks 2 [true] twelve_blocks_ok ltac:(by vm_compute)) as H.
  destruct (CachedDevice_new twelve_blocks 2 [true]) as [c| |]; [|done..]. destruct H as [Hc _].
  cbn [run_ops]. pose proof (run_op_agree c (OpRead 3 512) Hc ltac:(by vm_compute)) as (H & _).
  by destruct (run_op (OpRead 3 512) c).
Qed.

Lemma cached_values_current_witness :
  attached (fst (run_ops [OpRead 3 512] (attach cached_twelve 3 0))) 3 = Some 0 /\
  first_byte_is 0 (cached_view (fst (run_ops [OpRead 3 512] (attach cached_twelve 3 0))) 3).
Proof.
  split; [vm_compute; reflexivity|].
  apply (cached_values_current first_byte_is cached_twelve 3 0 [OpRead 3 512] 3 0).
  - exact cached_twelve_ok.
  - vm_compute. reflexivity.
  - repeat constructor; by vm_compute.
  - vm_compute. reflexivity.
Defined.
