(* ===== verification/PowerCut.v ===== *)
(** * The power-cut model (crates/afsplus-block/src/powercut.rs)

    A recording wrapper around a device, and the enumeration of the durable
    images a power cut can leave: writes before the last completed flush are
    durable, of the later ones any subset may be, and one may be torn. *)

From S2P Require Import Prelude Device.

(** ** The code *)

Inductive RecordedOp : Type :=
| RecWrite (lba : Z) (data : bytes)
| RecFlush.

Record RecordingBackend (D : Type) := {
  rb_inner : D;
  rb_log : list RecordedOp;
}.
Arguments rb_inner {D} _.
Arguments rb_log {D} _.
Arguments Build_RecordingBackend {D} _ _.

Section Recording.
Context {V D : Type} `{device : !BlockDevice V D}.

Definition RecordingBackend_new (inner : D) : RecordingBackend D := {| rb_inner := inner; rb_log := [] |}.

Definition set_rb_inner (inner : D) (r : RecordingBackend D) : RecordingBackend D :=
  {| rb_inner := inner; rb_log := rb_log r |}.
Definition rb_push (op : RecordedOp) (r : RecordingBackend D) : RecordingBackend D :=
  {| rb_inner := rb_inner r; rb_log := rb_log r ++ [op] |}.

Definition recording_write_block (lba : Z) (data : bytes) : io (RecordingBackend D) BlockError unit :=
  do! izoom rb_inner set_rb_inner (write_block lba data) in
  imodify (rb_push (RecWrite lba data)).

Definition recording_flush : io (RecordingBackend D) BlockError unit :=
  do! izoom rb_inner set_rb_inner flush in
  imodify (rb_push RecFlush).

#[global] Instance recording_device : BlockDevice V (RecordingBackend D) := {
  dev_block_size r := dev_block_size (rb_inner r);
  dev_total_blocks r := dev_total_blocks (rb_inner r);
  read_block lba len := izoom rb_inner set_rb_inner (read_block lba len);
  write_block := recording_write_block;
  flush := recording_flush;
  attached _ _ := None;
  attach r _ _ := r;
}.
End Recording.

(** The parts a state's description is formatted from. *)
Inductive CrashDescription : Type :=
| UnflushedSubset (crash_point subset writes : Z)
| TornWrite (crash_point index lba tear : Z).

Record CrashState := { cs_image : MemoryBackend; cs_description : CrashDescription }.

Definition TEAR_OFFSETS : list Z := [64; 2048; 4064].
Definition MAX_ENUMERATED_TAIL : Z := 12.

(** [prefix.iter().rposition(Flush).map(|i| i + 1).unwrap_or(0)]. *)
Fixpoint after_last_flush (prefix : list RecordedOp) (i found : Z) : Z :=
  match prefix with
  | [] => found
  | RecFlush :: prefix => after_last_flush prefix (i + 1) (i + 1)
  | RecWrite _ _ :: prefix => after_last_flush prefix (i + 1) found
  end.

Definition writes_of (ops : list RecordedOp) : list (Z * bytes) :=
  omap (fun op => match op with RecWrite lba data => Some (lba, data) | RecFlush => None end) ops.

Definition apply_writes {E} (image : MemoryBackend) (ws : list (Z * bytes)) : outcome E MemoryBackend :=
  ofold (fun image '(lba, data) => apply_raw image lba data) image ws.

(** One subset of the tail, given by its mask. *)
Definition subset_image {E} (durable : MemoryBackend) (tail : list (Z * bytes)) (subset : Z) :
    outcome E MemoryBackend :=
  ofoldi (fun image i '(lba, data) =>
    if negb (Z.land subset (Z.shiftl 1 i) =? 0) then apply_raw image lba data else Ok image)
    durable 0 tail.

Definition torn_image {E} (durable : MemoryBackend) (tail : list (Z * bytes)) (i lba : Z) (data : bytes)
    (tear : Z) : outcome E MemoryBackend :=
  let* image := apply_writes durable (sub tail 0 i) in
  let torn := peek image lba in
  let* src := slice data 0 tear in
  let* torn := put torn 0 tear src in
  apply_raw image lba torn.

(** The states are returned in the order [visit] is called on them. *)
Definition for_each_crash_state_with_budget {E} (base : MemoryBackend) (log : list RecordedOp)
    (crash_point max_tail_writes : Z) : outcome E (list CrashState) :=
  if negb (max_tail_writes <=? 20) then Panic else
  if negb (crash_point <=? zlen log) then Panic else
  let* prefix := slice log 0 crash_point in
  let last_flush := after_last_flush prefix 0 0 in
  let* durable := apply_writes base (writes_of (sub prefix 0 last_flush)) in
  let tail := writes_of (sub prefix last_flush (zlen prefix)) in
  if negb (zlen tail <=? max_tail_writes) then Panic else
  let* subsets := collect (fun subset =>
    let* image := subset_image durable tail subset in
    Ok {| cs_image := image; cs_description := UnflushedSubset crash_point subset (zlen tail) |})
    0 (Z.to_nat (Z.shiftl 1 (zlen tail))) in
  ofoldi (fun states i '(lba, data) =>
    ofold (fun states tear =>
      if zlen data <=? tear then Ok states else
      let* image := torn_image durable tail i lba data tear in
      Ok (states ++ [{| cs_image := image; cs_description := TornWrite crash_point i lba tear |}]))
      states TEAR_OFFSETS) subsets 0 tail.

Definition crash_states {E} (base : MemoryBackend) (log : list RecordedOp) (crash_point : Z) :
    outcome E (list CrashState) :=
  for_each_crash_state_with_budget base log crash_point MAX_ENUMERATED_TAIL.

(** ** What the enumeration produces *)

Definition apply_all (m : MemoryBackend) (ws : list (Z * bytes)) : MemoryBackend :=
  fold_left (fun m '(lba, data) => mb_insert lba data m) ws m.

(** The first [t] bytes of the new block over the old one. *)
Definition tear_over (old new : bytes) (t : Z) : bytes := sub new 0 t ++ sub old t (zlen old).

Definition sized (bs : Z) (ws : list (Z * bytes)) : Prop := Forall (fun w => zlen (snd w) = bs) ws.

(** The part of the log that is durable, and the part that is not. *)
Inductive split_at_flush : list RecordedOp -> list (Z * bytes) -> list (Z * bytes) -> Prop :=
| split_none ops : (forall op, op ∈ ops -> op <> RecFlush) -> split_at_flush ops [] (writes_of ops)
| split_flush before after :
    (forall op, op ∈ after -> op <> RecFlush) ->
    split_at_flush (before ++ RecFlush :: after) (writes_of before) (writes_of after).

(** The images the model of durability allows. *)
Inductive crash_image (durable : MemoryBackend) (tail : list (Z * bytes)) : MemoryBackend -> Prop :=
| image_subset kept : kept `sublist_of` tail -> crash_image durable tail (apply_all durable kept)
| image_torn before lba data after t :
    tail = before ++ (lba, data) :: after -> t ∈ TEAR_OFFSETS -> t < zlen data ->
    crash_image durable tail
      (mb_insert lba (tear_over (peek (apply_all durable before) lba) data t) (apply_all durable before)).

Section Enumeration.
Context {E : Type}.

Lemma apply_all_cons m lba d ws : apply_all m ((lba, d) :: ws) = apply_all (mb_insert lba d m) ws.
Proof. done. Qed.

Lemma apply_all_size m ws : mb_block_size (apply_all m ws) = mb_block_size m.
Proof. revert m. induction ws as [|[lba d] ws IH]; intros m; [done|]. by rewrite apply_all_cons, IH. Qed.

Lemma apply_all_total m ws : mb_total_blocks (apply_all m ws) = mb_total_blocks m.
Proof. revert m. induction ws as [|[lba d] ws IH]; intros m; [done|]. by rewrite apply_all_cons, IH. Qed.

Lemma apply_all_app m ws ws' : apply_all m (ws ++ ws') = apply_all (apply_all m ws) ws'.
Proof. apply fold_left_app. Qed.

Lemma apply_all_ok m ws : memory_ok m -> sized (mb_block_size m) ws -> memory_ok (apply_all m ws).
Proof.
  revert m. induction ws as [|[lba d] ws IH]; intros m Hm Hs; [done|].
  apply Forall_cons in Hs as [Hd Hs]. rewrite apply_all_cons. apply IH; [by apply mb_insert_ok|done].
Qed.

Lemma apply_all_peek m ws a : (forall w, w ∈ ws -> fst w <> a) -> peek (apply_all m ws) a = peek m a.
Proof.
  revert m. induction ws as [|[lba d] ws IH]; intros m Hw; [done|].
  rewrite apply_all_cons, IH by (intros; apply Hw; by right). apply peek_insert_ne.
  intros ->. by apply (Hw (lba, d) ltac:(by left)).
Qed.

Lemma apply_writes_run m ws :
  sized (mb_block_size m) ws -> @apply_writes E m ws = Ok (apply_all m ws).
Proof.
  unfold apply_writes. revert m. induction ws as [|[lba d] ws IH]; intros m Hs; [done|].
  apply Forall_cons in Hs as [Hd Hs]. cbn [ofold]. rewrite apply_all_cons. cbn in Hd.
  unfold apply_raw at 1. rewrite Hd, Z.eqb_refl. cbn [obind]. by apply IH.
Qed.

(** The subset a mask stands for. *)
Fixpoint select {A} (mask : Z) (l : list A) : list A :=
  match l with
  | [] => []
  | x :: l => if Z.odd mask then x :: select (Z.div2 mask) l else select (Z.div2 mask) l
  end.

Lemma select_sublist {A} mask (l : list A) : select mask l `sublist_of` l.
Proof. revert mask. induction l as [|x l IH]; intros mask; cbn; [done|]. destruct (Z.odd mask); by constructor. Qed.

Lemma select_all {A} (k l : list A) :
  k `sublist_of` l -> exists mask, 0 <= mask < 2 ^ zlen l /\ select mask l = k.
Proof.
  induction 1 as [|x k l _ (m & Hm & IH)|x k l _ (m & Hm & IH)].
  - exists 0. done.
  - exists (2 * m + 1). rewrite zlen_cons, Z.pow_add_r by (pose proof (zlen_nonneg l); lia).
    split; [lia|]. cbn [select]. rewrite Z.odd_add, Z.odd_mul. cbn [Z.odd xorb andb].
    rewrite Z.div2_div. replace ((2 * m + 1) / 2) with m; [by rewrite IH|].
    rewrite Z.add_comm, Z.mul_comm, Z.div_add by lia. done.
  - exists (2 * m). rewrite zlen_cons, Z.pow_add_r by (pose proof (zlen_nonneg l); lia).
    split; [lia|]. cbn [select]. rewrite Z.odd_mul. cbn [Z.odd andb].
    rewrite Z.div2_div, Z.mul_comm, Z.div_mul by lia. done.
Qed.

Lemma subset_image_from tail mask : forall m i,
  sized (mb_block_size m) tail -> 0 <= i ->
  @ofoldi E _ _ (fun image i '(lba, data) =>
    if negb (Z.land mask (Z.shiftl 1 i) =? 0) then apply_raw image lba data else Ok image) m i tail
  = Ok (apply_all m (select (Z.shiftr mask i) tail)).
Proof.
  induction tail as [|[lba d] tail IH]; intros m i Hs Hi; [done|]. apply Forall_cons in Hs as [Hd Hs].
  cbn [ofoldi select]. cbn in Hd. rewrite <- Z.bit0_odd, Z.shiftr_spec, Z.add_0_l by lia.
  replace (Z.div2 (Z.shiftr mask i)) with (Z.shiftr mask (i + 1))
    by (rewrite Z.div2_spec, Z.shiftr_shiftr by lia; done).
  rewrite land_bit, negb_involutive by lia. destruct (Z.testbit mask i); cbn [obind].
  - unfold apply_raw at 1. rewrite Hd, Z.eqb_refl. cbn [obind]. rewrite apply_all_cons. apply IH; [done|lia].
  - apply IH; [done|lia].
Qed.

Lemma subset_image_run m tail mask :
  sized (mb_block_size m) tail -> @subset_image E m tail mask = Ok (apply_all m (select mask tail)).
Proof. intros Hs. unfold subset_image. rewrite subset_image_from by (done || lia). by rewrite Z.shiftr_0_r. Qed.

Lemma torn_image_run m tail before lba data after t :
  memory_ok m -> sized (mb_block_size m) tail -> tail = before ++ (lba, data) :: after ->
  0 <= t < zlen data ->
  @torn_image E m tail (zlen before) lba data t =
    Ok (mb_insert lba (tear_over (peek (apply_all m before) lba) data t) (apply_all m before)).
Proof.
  intros Hm Hs -> Ht. unfold sized in Hs. apply Forall_app in Hs as [Hb [Hd _]%Forall_cons]. cbn in Hd.
  unfold torn_image. rewrite sub_app_l, sub_all by lia. rewrite apply_writes_run by done. cbn [obind].
  unfold slice. rewrite (proj2 (andb_true_iff _ _)) by lia. cbn [obind].
  pose proof (peek_len (apply_all m before) lba ltac:(by apply apply_all_ok)) as Hp. rewrite apply_all_size in Hp.
  unfold put. rewrite (proj2 (andb_true_iff _ _)) by (rewrite zlen_sub; lia). cbn [obind].
  unfold apply_raw. rewrite zlen_blit by (rewrite ?zlen_sub; lia).
  rewrite apply_all_size, Hp, Z.eqb_refl. do 2 f_equal. unfold tear_over, blit.
  rewrite zlen_sub by lia. cbn [Z.to_nat take app]. rewrite Z.add_0_l, Z.sub_0_r, drop_sub by lia. done.
Qed.

(** *** The last flush *)

Lemma after_last_flush_none ops : forall i found,
  (forall op, op ∈ ops -> op <> RecFlush) -> after_last_flush ops i found = found.
Proof.
  induction ops as [|[lba d|] ops IH]; intros i found Ho; cbn; [done| |].
  - apply IH. intros. apply Ho. by right.
  - by destruct (Ho RecFlush ltac:(by left)).
Qed.

Lemma after_last_flush_some before after : forall i found,
  (forall op, op ∈ after -> op <> RecFlush) ->
  after_last_flush (before ++ RecFlush :: after) i found = i + zlen before + 1.
Proof.
  induction before as [|[lba d|] before IH]; intros i found Ho; cbn [app after_last_flush].
  - rewrite after_last_flush_none by done. unfold zlen. cbn. lia.
  - rewrite IH, zlen_cons by done. lia.
  - rewrite IH, zlen_cons by done. lia.
Qed.

Lemma writes_of_app a b : writes_of (a ++ b) = writes_of a ++ writes_of b.
Proof. apply omap_app. Qed.

Lemma split_code ops ws tail :
  split_at_flush ops ws tail ->
  writes_of (sub ops 0 (after_last_flush ops 0 0)) = ws /\
  writes_of (sub ops (after_last_flush ops 0 0) (zlen ops)) = tail.
Proof.
  destruct 1 as [ops Ho|before after Ho].
  - rewrite after_last_flush_none by done. by rewrite sub_empty, sub_all.
  - rewrite after_last_flush_some by done. pose proof (zlen_nonneg before). pose proof (zlen_nonneg after).
    replace (before ++ RecFlush :: after) with ((before ++ [RecFlush]) ++ after) by (by rewrite <- app_assoc).
    assert (zlen (before ++ [RecFlush]) = 0 + zlen before + 1) as Hz by (rewrite zlen_app, zlen_one; lia).
    rewrite sub_app_l, sub_all, sub_app_r by lia. rewrite writes_of_app. cbn. rewrite app_nil_r. split; [done|].
    rewrite Hz, Z.sub_diag, zlen_app, Hz. f_equal. apply sub_all. lia.
Qed.

Lemma split_exists ops : exists ws tail, split_at_flush ops ws tail.
Proof.
  assert ((forall op, op ∈ ops -> op <> RecFlush) \/
          exists before after, ops = before ++ RecFlush :: after /\ forall op, op ∈ after -> op <> RecFlush) as H.
  { induction ops as [|op ops [Hn|(before & after & -> & Ho)]].
    - left. intros op Hop. by apply not_elem_of_nil in Hop.
    - destruct op as [lba d|]; [left|right; by exists [], ops].
      intros op [->|Hop]%elem_of_cons; [done|by apply Hn].
    - right. by exists (op :: before), after. }
  destruct H as [Hn|(before & after & -> & Ho)]; [by eexists _, _; apply split_none|].
  by eexists _, _; apply split_flush.
Qed.

(** *** The two families of images *)

Definition images (states : list CrashState) (img : MemoryBackend) : Prop :=
  exists st, st ∈ states /\ cs_image st = img.

Lemma subsets_run m tail (k : Z) :
  sized (mb_block_size m) tail ->
  wp (E := E) (collect (fun subset =>
    let* image := subset_image m tail subset in
    Ok {| cs_image := image; cs_description := UnflushedSubset k subset (zlen tail) |})
    0 (Z.to_nat (Z.shiftl 1 (zlen tail))))
    (fun states => forall img, images states img <->
       exists kept, kept `sublist_of` tail /\ img = apply_all m kept) no_error.
Proof.
  intros Hs. rewrite Z.shiftl_1_l.
  assert (forall n i, exists states, collect (E := E) (fun subset =>
    let* image := subset_image m tail subset in
    Ok {| cs_image := image; cs_description := UnflushedSubset k subset (zlen tail) |}) i n = Ok states /\
    forall img, images states img <->
      exists mask, i <= mask < i + Z.of_nat n /\ img = apply_all m (select mask tail)) as H.
  { induction n as [|n IH]; intros i; cbn [collect].
    - exists []. split; [done|]. intros img. split; [|by intros (? & ? & _); lia].
      intros (st & Hst & _). by apply not_elem_of_nil in Hst.
    - rewrite subset_image_run by done. cbn [obind]. destruct (IH (i + 1)) as (states & -> & Himg). cbn [obind].
      eexists. split; [done|]. intros img. split.
      + intros (st & [->|Hst]%elem_of_cons & <-); [exists i; cbn; split; [lia|done]|].
        destruct (proj1 (Himg (cs_image st)) ltac:(by exists st)) as (mask & ? & ->). exists mask. split; [lia|done].
      + intros (mask & ? & ->). destruct (decide (mask = i)) as [->|].
        * eexists. split; [by left|done].
        * destruct (proj2 (Himg (apply_all m (select mask tail)))) as (st & ? & ?); [exists mask; split; [lia|done]|].
          exists st. split; [by right|done]. }
  destruct (H (Z.to_nat (2 ^ zlen tail)) 0) as (states & -> & Himg). intros img. rewrite Himg.
  assert (0 < 2 ^ zlen tail) by (apply Z.pow_pos_nonneg; [lia|apply zlen_nonneg]).
  split.
  - intros (mask & _ & ->). exists (select mask tail). split; [apply select_sublist|done].
  - intros (kept & Hk & ->). destruct (select_all _ _ Hk) as (mask & ? & <-). exists mask. split; [lia|done].
Qed.

(** A torn write among the first ones of the tail. *)
Definition torn_in (m : MemoryBackend) (seen : list (Z * bytes)) (img : MemoryBackend) : Prop :=
  exists before lba data after t, seen = before ++ (lba, data) :: after /\ t ∈ TEAR_OFFSETS /\ t < zlen data /\
    img = mb_insert lba (tear_over (peek (apply_all m before) lba) data t) (apply_all m before).

Lemma torn_in_snoc m seen lba data img :
  torn_in m (seen ++ [(lba, data)]) img <->
  torn_in m seen img \/
  exists t, t ∈ TEAR_OFFSETS /\ t < zlen data /\
    img = mb_insert lba (tear_over (peek (apply_all m seen) lba) data t) (apply_all m seen).
Proof.
  split.
  - intros (before & lba' & data' & after & t & Heq & Ht & Hl & ->).
    destruct after as [|w after _] using rev_ind.
    + apply app_inj_tail in Heq as [-> [= -> ->]]. right. by exists t.
    + rewrite app_comm_cons, app_assoc in Heq. apply app_inj_tail in Heq as [-> <-].
      left. by exists before, lba', data', after, t.
  - intros [(before & lba' & data' & after & t & -> & Ht & Hl & ->)|(t & Ht & Hl & ->)].
    + exists before, lba', data', (after ++ [(lba, data)]), t. by rewrite <- app_assoc.
    + by exists seen, lba, data, [], t.
Qed.

Lemma tears_of_write m tail seen lba data rest k states0 :
  memory_ok m -> sized (mb_block_size m) tail -> tail = seen ++ (lba, data) :: rest ->
  wp (E := E) (ofold (fun states tear =>
      if zlen data <=? tear then Ok states else
      let* image := torn_image m tail (zlen seen) lba data tear in
      Ok (states ++ [{| cs_image := image; cs_description := TornWrite k (zlen seen) lba tear |}]))
      states0 TEAR_OFFSETS)
    (fun states => forall img, images states img <-> images states0 img \/
       exists t, t ∈ TEAR_OFFSETS /\ t < zlen data /\
         img = mb_insert lba (tear_over (peek (apply_all m seen) lba) data t) (apply_all m seen)) no_error.
Proof.
  intros Hm Hs Heq. assert (Forall (fun t => 0 <= t) TEAR_OFFSETS) as Hpos by (by repeat constructor).
  revert Hpos states0. generalize TEAR_OFFSETS as ts. induction ts as [|t ts IH]; intros Hpos states0; cbn [ofold].
  { apply wp_ok. intros img. split; [by left|]. intros [?|(t & Ht & _)]; [done|]. by apply not_elem_of_nil in Ht. }
  apply Forall_cons in Hpos as [Ht Hpos]. apply wp_bind, wp_if; intros Hl.
  - apply wp_ok. eapply wp_mono; [by apply IH| |done]. intros states H img. cbv beta in H. rewrite H. split.
    + intros [?|(t' & ? & ?)]; [by left|right; exists t'; split; [by right|done]].
    + intros [?|(t' & [->|?]%elem_of_cons & ? & ?)]; [by left|lia|right; by exists t'].
  - rewrite (torn_image_run m tail seen lba data rest) by (done || lia). cbn [obind]. apply wp_ok.
    eapply wp_mono; [by apply IH| |done]. intros states H img. cbv beta in H. rewrite H. unfold images. setoid_rewrite elem_of_app. split.
    + intros [(st & [?|Hst%list_elem_of_singleton] & <-)|(t' & ? & ?)].
      * left. by exists st.
      * right. exists t. subst st. split; [by left|]. split; [lia|done].
      * right. exists t'. split; [by right|done].
    + intros [(st & ? & ?)|(t' & [->|?]%elem_of_cons & ? & ->)].
      * left. exists st. split; [by left|done].
      * left. eexists. split; [right; by apply list_elem_of_singleton|done].
      * right. by exists t'.
Qed.

Lemma tears_run m tail k states0 :
  memory_ok m -> sized (mb_block_size m) tail ->
  wp (E := E) (ofoldi (fun states i '(lba, data) =>
    ofold (fun states tear =>
      if zlen data <=? tear then Ok states else
      let* image := torn_image m tail i lba data tear in
      Ok (states ++ [{| cs_image := image; cs_description := TornWrite k i lba tear |}]))
      states TEAR_OFFSETS) states0 0 tail)
    (fun states => forall img, images states img <-> images states0 img \/ torn_in m tail img) no_error.
Proof.
  intros Hm Hs. apply (wp_ofoldi _ (fun states i rest => exists seen, tail = seen ++ rest /\ i = zlen seen /\
    forall img, images states img <-> images states0 img \/ torn_in m seen img)).
  - exists []. do 2 (split; [done|]). intros img. split; [by left|]. intros [?|(b & ? & ? & ? & ? & Hb & _)]; [done|].
    by destruct b.
  - intros states i [lba data] rest (seen & Heq & -> & Himg).
    eapply wp_mono; [by eapply tears_of_write| |done]. intros states' Himg'. cbv beta in Himg'.
    exists (seen ++ [(lba, data)]). split; [by rewrite <- app_assoc|]. split; [by rewrite zlen_app|].
    intros img. rewrite Himg', Himg, torn_in_snoc. tauto.
  - intros states i (seen & Heq & _ & Himg). rewrite app_nil_r in Heq. by subst seen.
Qed.
End Enumeration.


Definition two_write_log : list RecordedOp :=
  [RecWrite 1 (replicate 512 Byte.x61); RecFlush; RecWrite 2 (replicate 512 Byte.x62)].

