(* ===== verification/Core.v ===== *)
(** * Shared definitions of the core (crates/afsplus-core/src/lib.rs)

    The error type of the core, its conversions and the fixed layout. *)

From S2P Require Import Prelude Format Device.

Definition IDENT_LBA : Z := 0.
Definition CKPT_SLOT_A : Z := 1.
Definition CKPT_SLOT_B : Z := 2.
Definition MIN_TOTAL_BLOCKS : Z := 16.

(** The diagnostic of one checkpoint slot: the parts its text is formatted from. *)
Inductive SlotStatus : Type :=
| StatusValid (generation : Z)
| StatusStructural (error : FormatError)
| StatusInvalid (error : FormatError).

Inductive CoreError : Type :=
| CBlock (e : BlockError)
| CFormat (e : FormatError)
| NoValidCheckpoint (slot_a slot_b : SlotStatus)
| AmbiguousCheckpoints (generation : Z)
| Corrupt (what : string)
| AlreadyExists
| NotFound
| NotDirectory
| IsDirectory
| DirectoryNotEmpty
| InvalidMove (what : string)
| InvalidMetadata (what : string)
| InvalidName (e : FormatError)
| NoSpace
| PrototypeLimit (what : string)
| UnsupportedGeometry (what : string)
| WindowOpen
| WindowPoisoned
| ReadOnlyMount
| Stale
| Busy
| FeatureDisabled (what : string)
| UnsupportedIncompatFeatures (bits : Z)
| ReadOnlyRequiredFeatures (bits : Z)
| SecurityProjectionRefused.

(** The conversions [?] applies. *)
Definition of_format {A} (c : result A) : outcome CoreError A :=
  match c with Ok a => Ok a | Err e => Err (CFormat e) | Panic => Panic end.

Definition of_block {S A} (m : io S BlockError A) : io S CoreError A := fun s =>
  match m s with
  | (s, Ok a) => (s, Ok a)
  | (s, Err e) => (s, Err (CBlock e))
  | (s, Panic) => (s, Panic)
  end.

(** [map_err(|e| CoreError::Corrupt(..))] of a decoder. *)
Definition or_corrupt {A} (what : string) (c : result A) : outcome CoreError A :=
  match c with Ok a => Ok a | Err _ => Err (Corrupt what) | Panic => Panic end.

(** Read a block and decode it. *)
Definition read_decoded {V D X} {device : BlockDevice V D} (what : string) (decode : bytes -> result X) (lba len : Z) : io D CoreError X :=
  let! buf := of_block (read_block lba len) in
  ilift (or_corrupt what (decode buf)).

Lemma wp_of_format {A} (c : result A) (Q : A -> Prop) (R : CoreError -> Prop) :
  wp c Q (fun e => R (CFormat e)) -> wp (of_format c) Q R.
Proof. by destruct c. Qed.

Lemma wpi_of_block {S A} (m : io S BlockError A) s (Q : A -> S -> Prop) (R : CoreError -> S -> Prop) :
  wpi m s Q (fun e => R (CBlock e)) -> wpi (of_block m) s Q R.
Proof. unfold wpi, of_block. by destruct (m s) as [? [?|?|]]. Qed.

(** [!bits] of a [u64]. *)
Definition not64 (bits : Z) : Z := Z.lxor bits (2 ^ 64 - 1).
