(* ===== verification/Mount.v ===== *)
(** * Mount (crates/afsplus-core/src/mount.rs)

    Feature negotiation and the structural selection of a checkpoint: both
    slots are decoded and validated without further reads, and the newest
    admissible one is chosen.  Loading the state the chosen checkpoint names
    is not part of this file. *)

From S2P Require Import Prelude Crc32c Format Header Codec TreeNode Geometry Ident Checkpoint Device Core.

(** ** The code *)

Inductive MountMode : Type := ReadWrite | ReadOnly | NoChanges | Recovery.

Definition allows_user_writes (mode : MountMode) : bool :=
  match mode with ReadWrite => true | _ => false end.

Definition writes_during_mount (mode : MountMode) : bool :=
  match mode with ReadWrite | Recovery => true | _ => false end.

Definition SUPPORTED_INCOMPAT_FEATURES : Z :=
  Z.lor (Z.lor INCOMPAT_INTENT_LOG INCOMPAT_INTENT_LOG_DATA_UPDATES) INCOMPAT_SECURITY_DESCRIPTORS.
Definition SUPPORTED_RO_COMPAT_FEATURES : Z := Z.lor RO_COMPAT_SHARED_EXTENTS RO_COMPAT_ORPHAN_DIRECTORY.

(** [snapshots] says whether the caller passed snapshot limits. *)
Definition negotiate_features (ident : Identification) (mode : MountMode) (snapshots : bool) :
    outcome CoreError unit :=
  let supported :=
    Z.lor SUPPORTED_INCOMPAT_FEATURES (if snapshots then INCOMPAT_PERSISTENT_SNAPSHOTS else 0) in
  let unknown_incompat := Z.land (incompat (id_features ident)) (not64 supported) in
  if negb (unknown_incompat =? 0) then Err (UnsupportedIncompatFeatures unknown_incompat) else
  let unknown_ro_compat := Z.land (ro_compat (id_features ident)) (not64 SUPPORTED_RO_COMPAT_FEATURES) in
  if negb (unknown_ro_compat =? 0) && writes_during_mount mode then
    Err (ReadOnlyRequiredFeatures unknown_ro_compat) else
  Ok tt.

Record Selection := {
  sel_chosen : Checkpoint;
  sel_chosen_slot : Z;
  sel_other : option Checkpoint;
  sel_slot_status : SlotStatus * SlotStatus;
  sel_fell_back_to_older : bool;
}.

Definition claimed_generation (block : bytes) : outcome CoreError (option Z) :=
  if zlen block <? HEADER_SIZE then Ok None else
  let* kind := of_format (get_u32_at block 0 4) in
  if negb (kind =? block_type.CHECKPOINT) then Ok None else
  let* generation := of_format (get_u64_at block 16 24) in
  Ok (Some generation).

Record SlotRead := {
  sr_candidate : option Checkpoint;
  sr_status : SlotStatus;
  sr_claimed : option Z;
}.

(** What a slot's block says, the read apart. *)
Definition slot_read (ident : Identification) (geo : Geometry) (buf : bytes) : outcome CoreError SlotRead :=
  match Checkpoint_decode buf (id_uuid ident) with
  | Ok checkpoint =>
      match validate_structural checkpoint geo with
      | Ok _ => Ok {| sr_candidate := Some checkpoint;
                      sr_status := StatusValid (cp_generation checkpoint); sr_claimed := None |}
      | Err error => Ok {| sr_candidate := None; sr_status := StatusStructural error;
                           sr_claimed := Some (cp_generation checkpoint) |}
      | Panic => Panic
      end
  | Err error =>
      let* claimed := claimed_generation buf in
      Ok {| sr_candidate := None; sr_status := StatusInvalid error; sr_claimed := claimed |}
  | Panic => Panic
  end.

(** [ident.checkpoint_slots[slot]]. *)
Definition slot_lba (ident : Identification) (slot : Z) : Z :=
  if slot =? 0 then fst (id_checkpoint_slots ident) else snd (id_checkpoint_slots ident).

Definition newer_claim (claimed : option Z) (chosen : Checkpoint) : bool :=
  match claimed with Some rejected => cp_generation chosen <? rejected | None => false end.

Definition is_some {A} (o : option A) : bool := match o with Some _ => true | None => false end.

(** The choice between the two slots. *)
Definition choose (ident : Identification) (a b : SlotRead) : outcome CoreError Selection :=
  let slot_status := (sr_status a, sr_status b) in
  let* selection :=
    match sr_candidate a, sr_candidate b with
    | None, None => Err (NoValidCheckpoint (fst slot_status) (snd slot_status))
    | Some chosen, None =>
        Ok {| sel_fell_back_to_older := newer_claim (sr_claimed b) chosen; sel_chosen := chosen;
              sel_chosen_slot := 0; sel_other := None; sel_slot_status := slot_status |}
    | None, Some chosen =>
        Ok {| sel_fell_back_to_older := newer_claim (sr_claimed a) chosen; sel_chosen := chosen;
              sel_chosen_slot := 1; sel_other := None; sel_slot_status := slot_status |}
    | Some ckpt_a, Some ckpt_b =>
        if cp_generation ckpt_a =? cp_generation ckpt_b then
          Err (AmbiguousCheckpoints (cp_generation ckpt_a)) else
        let '(chosen_slot, chosen, other) :=
          if cp_generation ckpt_b <? cp_generation ckpt_a then (0, ckpt_a, ckpt_b) else (1, ckpt_b, ckpt_a) in
        Ok {| sel_chosen := chosen; sel_chosen_slot := chosen_slot; sel_other := Some other;
              sel_slot_status := slot_status; sel_fell_back_to_older := false |}
    end in
  let snapshots_enabled := negb (Z.land (incompat (id_features ident)) INCOMPAT_PERSISTENT_SNAPSHOTS =? 0) in
  if negb (Bool.eqb (is_some (cp_snapshot_roots (sel_chosen selection))) snapshots_enabled) then
    Err (Corrupt "selected checkpoint snapshot extension disagrees with incompatible feature") else
  Ok selection.

Section Code.
Context {V D : Type} {device : BlockDevice V D}.

Definition read_checkpoint_candidate (ident : Identification) (geo : Geometry) (slot : Z) :
    io D CoreError SlotRead :=
  let! buf := of_block (read_block (slot_lba ident slot) (block_size geo)) in
  ilift (slot_read ident geo buf).

Definition select_checkpoint (ident : Identification) : io D CoreError Selection :=
  let! geo := ilift (of_format (id_geometry ident)) in
  let! a := read_checkpoint_candidate ident geo 0 in
  let! b := read_checkpoint_candidate ident geo 1 in
  ilift (choose ident a b).

(** [mount_stages] up to the load of the state: identification, negotiation,
    selection, and the congruence of features and roots. *)
Definition mount_select (mode : MountMode) (snapshots : bool) : io D CoreError (Identification * Selection) :=
  let! bs := iget dev_block_size in
  if negb (bs =? DEFAULT_BLOCK_SIZE) then ierr (UnsupportedGeometry "prototype supports only 4 KiB blocks") else
  let! buf := of_block (read_block IDENT_LBA bs) in
  let! ident := ilift (of_format (Identification_decode buf)) in
  do! ilift (negotiate_features ident mode snapshots) in
  let! total := iget dev_total_blocks in
  if total <? id_total_blocks ident then
    ierr (Corrupt "identification declares more blocks than the device has") else
  let! selection := select_checkpoint ident in
  if negb (cp_shared_extent_root_block (sel_chosen selection) =? 0) &&
     (Z.land (ro_compat (id_features ident)) RO_COMPAT_SHARED_EXTENTS =? 0) then
    ierr (Corrupt "shared-extent root present without the shared-extents feature") else
  iret (ident, selection).
End Code.

(** ** What selection means *)

(** An identification that was admitted. *)
Definition mountable (ident : Identification) : Prop :=
  ident_valid ident /\ id_block_shift ident = 12 /\ zlen (id_uuid ident) = 16.

(** A slot's block holds an admissible checkpoint of the volume. *)
Definition admissible (ident : Identification) (buf : bytes) (c : Checkpoint) : Prop :=
  Checkpoint_decode buf (id_uuid ident) = Ok c /\ structurally_valid c (plain_geometry ident).

Definition candidate (ident : Identification) (buf : bytes) : option Checkpoint :=
  match Checkpoint_decode buf (id_uuid ident) with
  | Ok c => match validate_structural c (plain_geometry ident) with Ok _ => Some c | _ => None end
  | _ => None
  end.

Lemma wp_claimed_generation block : wp (claimed_generation block) (fun _ => True) no_error.
Proof.
  unfold claimed_generation, HEADER_SIZE. apply wp_if; intros; [by apply wp_ok|].
  assert (forall a b n, 0 <= a -> b = a + Z.of_nat n -> b <= zlen block ->
    wp (let* s := slice block a b in get_le n s) (fun _ => True) no_error) as H'.
  { intros a b n ? -> ?. apply wp_bind, wp_slice; [lia|lia|]. unfold get_le. rewrite zlen_sub by lia.
    apply wp_if; intros; [by apply wp_ok|lia]. }
  apply wp_bind, wp_of_format. eapply wp_mono; [apply (H' 0 4 4%nat); lia| |done]. intros kind _.
  apply wp_if; intros; [by apply wp_ok|].
  apply wp_bind, wp_of_format. eapply wp_mono; [apply (H' 16 24 8%nat); lia| |done]. intros. by apply wp_ok.
Qed.

Lemma negotiate_total ident mode snapshots :
  wp (negotiate_features ident mode snapshots) (fun _ => True) any_error.
Proof. unfold negotiate_features. cbv zeta. by do 2 (apply wp_if; intros; [by apply wp_err|]). Qed.

Section Slots.
Context (ident : Identification) (Hm : mountable ident).

Lemma candidate_admissible buf c : candidate ident buf = Some c <-> admissible ident buf c.
Proof.
  destruct Hm as ((Hwf & _) & _ & Hu). unfold candidate, admissible.
  pose proof (Checkpoint_decode_inv buf (id_uuid ident) Hu) as Hd.
  destruct (Checkpoint_decode buf (id_uuid ident)) as [c'| |]; cbn in Hd; [|by split; [|intros [??]]..].
  destruct Hd as (Ht & _). pose proof (wp_validate_structural c' _ Hwf Ht) as Hv.
  destruct (validate_structural c' (plain_geometry ident)); cbn in Hv; [| |done].
  - split; [by intros [= <-]|by intros [[= <-] _]].
  - split; [done|]. by intros [[= <-] ?].
Qed.

Lemma wp_slot_read buf :
  wp (slot_read ident (plain_geometry ident) buf) (fun r => sr_candidate r = candidate ident buf) no_error.
Proof.
  destruct Hm as ((Hwf & _) & _ & Hu). unfold slot_read, candidate.
  pose proof (Checkpoint_decode_inv buf (id_uuid ident) Hu) as Hd.
  destruct (Checkpoint_decode buf (id_uuid ident)) as [c'| |]; cbn in Hd; [| |done].
  - destruct Hd as (Ht & _). pose proof (wp_validate_structural c' _ Hwf Ht) as Hv.
    by destruct (validate_structural c' (plain_geometry ident)).
  - apply wp_bind. eapply wp_mono; [apply wp_claimed_generation| |done]. intros. by apply wp_ok.
Qed.
End Slots.

(** The outcome of the choice, from the two candidates. *)
Definition snapshots_agree (ident : Identification) (c : Checkpoint) : Prop :=
  is_some (cp_snapshot_roots c) =
  negb (Z.land (incompat (id_features ident)) INCOMPAT_PERSISTENT_SNAPSHOTS =? 0).

Definition chosen_from (a b : option Checkpoint) (sel : Selection) : Prop :=
  (sel_chosen_slot sel = 0 /\ a = Some (sel_chosen sel) /\ sel_other sel = b \/
   sel_chosen_slot sel = 1 /\ b = Some (sel_chosen sel) /\ sel_other sel = a) /\
  forall o, sel_other sel = Some o -> cp_generation o < cp_generation (sel_chosen sel).

Definition refused_from (ident : Identification) (a b : option Checkpoint) (e : CoreError) : Prop :=
  match e with
  | NoValidCheckpoint _ _ => a = None /\ b = None
  | AmbiguousCheckpoints g => exists c d, a = Some c /\ b = Some d /\ cp_generation c = g /\ cp_generation d = g
  | Corrupt _ => exists sel, chosen_from a b sel /\ ~ snapshots_agree ident (sel_chosen sel)
  | _ => False
  end.

Lemma wp_choose ident a b :
  wp (choose ident a b)
     (fun sel => chosen_from (sr_candidate a) (sr_candidate b) sel /\ snapshots_agree ident (sel_chosen sel))
     (refused_from ident (sr_candidate a) (sr_candidate b)).
Proof.
  unfold choose. cbv zeta. apply wp_bind.
  eapply (wp_mono _ (chosen_from (sr_candidate a) (sr_candidate b))
    _ (refused_from ident (sr_candidate a) (sr_candidate b))); [| |done].
  - destruct (sr_candidate a) as [ca|], (sr_candidate b) as [cb|]; cbn.
    + apply wp_if; intros Hg; [apply wp_err; cbn; exists ca, cb; split_and!; try done; lia|].
      destruct (_ <? _) eqn:Hlt; apply wp_ok; split; cbn; try tauto; intros o [= <-]; lia.
    + split; cbn; [tauto|done].
    + split; cbn; [tauto|done].
    + done.
  - intros sel Hsel. cbv beta. unfold snapshots_agree. apply wp_if; intros Hs.
    + apply wp_err. exists sel. split; [done|]. unfold snapshots_agree. intros Heq. rewrite Heq, Bool.eqb_reflx in Hs. done.
    + apply wp_ok. split; [done|]. by apply negb_false_iff, Bool.eqb_prop in Hs.
Qed.

Section Devices.
Context {V D : Type} {device : BlockDevice V D} {decodes : V -> bytes -> Prop}.
Context {contract : DeviceContract V D decodes}.

Abbreviation unchanged := (agree_off dev_ok view (fun _ => False)).

Lemma wpi_read_checkpoint_candidate ident slot (d0 d : D) :
  mountable ident -> dev_ok d -> unchanged d0 d -> 0 <= slot <= 1 ->
  wpi (read_checkpoint_candidate ident (plain_geometry ident) slot) d
    (fun r d' => sr_candidate r = candidate ident (view d0 (slot_lba ident slot)) /\ unchanged d0 d')
    (fun e d' => (exists b, e = CBlock b) /\ unchanged d0 d').
Proof.
  intros Hm Hd Hu Hs. pose proof Hm as ((_ & _ & _ & _ & Hsl & _) & _).
  assert (u64 (slot_lba ident slot)) as Hlba.
  { unfold slot_lba. rewrite Hsl. by destruct (slot =? 0). }
  apply wpi_bind, wpi_of_block. eapply wpi_mono; [by apply read_contract|..].
  - intros buf d' (Hin & _ & -> & Ha). apply wpi_lift.
    eapply wp_mono; [by apply wp_slot_read| |done]. intros r ->. cbv beta.
    split; [|by eapply agree_trans]. f_equal. destruct Hu as (_ & [_ Ht] & Hv). apply Hv; [|tauto].
    unfold inside in *. by rewrite <- Ht.
  - intros e d' Ha. split; [by eexists|by eapply agree_trans].
Qed.

Lemma wpi_select_checkpoint ident (d0 d : D) :
  mountable ident -> dev_ok d -> unchanged d0 d ->
  let a := candidate ident (view d0 (slot_lba ident 0)) in
  let b := candidate ident (view d0 (slot_lba ident 1)) in
  wpi (select_checkpoint ident) d
    (fun sel d' => unchanged d0 d' /\ chosen_from a b sel /\ snapshots_agree ident (sel_chosen sel))
    (fun e d' => unchanged d0 d' /\ ((exists be, e = CBlock be) \/ refused_from ident a b e)).
Proof.
  intros Hm Hd Hu a b. unfold select_checkpoint. apply wpi_bind, wpi_lift, wp_of_format.
  pose proof Hm as (_ & Hsh & _). rewrite id_geometry_eq by done. apply wp_ok.
  apply wpi_bind. eapply wpi_mono; [by apply (wpi_read_checkpoint_candidate ident 0 d0 d)|..].
  2: { intros e d' [? ?]. auto. }
  intros ra d1 [Ha Hu1]. apply wpi_bind.
  eapply wpi_mono; [apply (wpi_read_checkpoint_candidate ident 1 d0 d1); [done|apply Hu1|done|done]|..].
  2: { intros e d' [? ?]. auto. }
  intros rb d2 [Hb Hu2]. apply wpi_lift. eapply wp_mono; [apply wp_choose|..]; rewrite Ha, Hb; auto.
Qed.
End Devices.

(** C3: Whatever a device holds, the first stages of a mount never panic and
    never change it.  When they succeed, the identification and the chosen
    checkpoint are those the device holds, no incompatible feature is unknown
    (and no read-only one on a mount that writes), the chosen checkpoint is
    structurally valid, every admissible checkpoint of the other slot is
    older, and its optional roots agree with the features. *)
Theorem mount_select_sound {V D : Type} {device : BlockDevice V D} {decodes : V -> bytes -> Prop}
    {contract : DeviceContract V D decodes} (d : D) (mode : MountMode) (snapshots : bool) :
  dev_ok d ->
  wpi (mount_select mode snapshots) d
    (fun r d' => let '(ident, sel) := r in
       agree_off dev_ok view (fun _ => False) d d' /\
       Identification_decode (view d IDENT_LBA) = Ok ident /\ negotiate_features ident mode snapshots = Ok tt /\
       id_total_blocks ident <= dev_total_blocks d /\
       (sel_chosen_slot sel = 0 \/ sel_chosen_slot sel = 1) /\
       admissible ident (view d (slot_lba ident (sel_chosen_slot sel))) (sel_chosen sel) /\
       (forall c, admissible ident (view d (slot_lba ident (1 - sel_chosen_slot sel))) c ->
          cp_generation c < cp_generation (sel_chosen sel)) /\
       snapshots_agree ident (sel_chosen sel) /\
       (cp_shared_extent_root_block (sel_chosen sel) <> 0 ->
          has_bit (ro_compat (id_features ident)) RO_COMPAT_SHARED_EXTENTS = true))
    (fun _ d' => agree_off dev_ok view (fun _ => False) d d').
Proof.
  intros Hd. pose proof (agree_refl dev_ok view (fun _ => False) d Hd) as Hrefl.
  unfold mount_select. apply wpi_bind. unfold wpi at 1, iget. apply wpi_if; intros; [done|].
  apply wpi_bind, wpi_of_block. eapply wpi_mono; [by apply read_contract|..]; [|done].
  intros buf d1 (_ & _ & -> & Hu1). apply wpi_bind, wpi_lift, wp_of_format.
  pose proof (Identification_decode_inv (view d IDENT_LBA)) as Hi.
  destruct (Identification_decode (view d IDENT_LBA)) as [ident| |] eqn:Hdec; [|done|done]. apply wp_ok.
  destruct Hi as (Ht & _ & Ha & Hv).
  assert (mountable ident) as Hm by (split; [done|]; split; [by apply Ha|by destruct Ht]).
  apply wpi_bind, wpi_lift. destruct (negotiate_features ident mode snapshots) as [[]| |] eqn:Hn; [|done|].
  2: { by pose proof (negotiate_total ident mode snapshots) as Hp; rewrite Hn in Hp. }
  apply wp_ok. apply wpi_bind. unfold wpi at 1, iget. apply wpi_if; intros Htot; [done|].
  apply wpi_bind. eapply wpi_mono; [apply (wpi_select_checkpoint ident d d1); [done|apply Hu1|done]|..].
  2: { by intros e d' [? _]. }
  intros sel d2 (Hu2 & (Hc & Ho) & Hs). apply wpi_if; intros Hsh; [done|]. apply wpi_ret.
  destruct Hu1 as (_ & [_ Htb] & _). rewrite Htb in Htot.
  split; [done|]. split; [done|]. split; [done|]. split; [lia|]. split; [tauto|].
  assert (forall s c, candidate ident (view d (slot_lba ident s)) = Some c <->
    admissible ident (view d (slot_lba ident s)) c) as Hca by (intros; by apply candidate_admissible).
  split; [|split; [|split; [done|]]].
  - destruct Hc as [(-> & Hc & _)|(-> & Hc & _)]; by apply Hca.
  - intros c Hc'%Hca. apply Ho. destruct Hc as [(Hsl & _ & Hot)|(Hsl & _ & Hot)]; by rewrite Hsl in Hc'; rewrite Hot.
  - intros Hne. unfold has_bit. destruct (Z.land _ _ =? 0); [|done]. rewrite andb_true_r in Hsh. lia.
Qed.

(** A volume of 60 blocks with an identification and one checkpoint. *)
Definition plain_checkpoint (generation : Z) : Checkpoint :=
  {| cp_uuid := zeros 16; cp_generation := generation; cp_root_object_id := 1; cp_object_map_block := 10;
     cp_allocation_root_block := 13; cp_reclaim_root_block := 11; cp_next_object_id := 17;
     cp_committed_tx_id := generation; cp_free_blocks_total := 20; cp_flags := 0;
     cp_shared_extent_root_block := 0; cp_label := []; cp_snapshot_roots := None |}.

Definition sample_volume : MemoryBackend :=
  {| mb_block_size := 4096; mb_total_blocks := 60;
     mb_blocks := <[0 := ident_image sample_ident]> (<[1 := checkpoint_image (plain_checkpoint 5) 4096]> ∅) |}.

Definition sample_selection : Selection :=
  {| sel_chosen := plain_checkpoint 5; sel_chosen_slot := 0; sel_other := None;
     sel_slot_status := (StatusValid 5, StatusInvalid (ChecksumMismatch 0 2566472073));
     sel_fell_back_to_older := false |}.

Lemma sample_volume_ok : memory_ok sample_volume.
Proof.
  split; [by vm_compute|]. split; [by vm_compute|]. cbn [mb_blocks sample_volume].
  apply map_Forall_insert_2; [vm_compute; reflexivity|].
  apply map_Forall_insert_2; [vm_compute; reflexivity|]. apply map_Forall_empty.
Qed.

Lemma mount_select_sound_witness :
  mount_select ReadWrite false sample_volume = (sample_volume, Ok (sample_ident, sample_selection)) /\
  admissible sample_ident (view sample_volume 1) (plain_checkpoint 5).
Proof.
  assert (mount_select ReadWrite false sample_volume = (sample_volume, Ok (sample_ident, sample_selection))) as E
    by (vm_compute; reflexivity).
  split; [exact E|].
  pose proof (mount_select_sound sample_volume ReadWrite false sample_volume_ok) as H.
  destruct (wpi_run _ _ _ _ _ _ H E) as (_ & _ & _ & _ & _ & Ha & _). exact Ha.
Defined.
