(* ===== verification/Commit.v ===== *)
(** * Publication of a transaction (crates/afsplus-core/src/volume.rs)

    The three phases every commit ends with: user data and a barrier, COW
    metadata and a barrier, then the alternate checkpoint slot and the commit
    barrier.  The crash-safety theorem composes them with the power-cut model
    and with checkpoint selection. *)

From S2P Require Import Prelude Crc32c Format Header Codec TreeNode Geometry Ident Checkpoint.
From S2P Require Import Device PowerCut Core Mount.

(** ** The code *)

Inductive CommitData : Type :=
| Prepared (writes : list (Z * bytes))
| Borrowed (runs : list (Z * bytes)).

Definition CommitData_blocks (data : CommitData) (block_size : Z) : outcome CoreError Z :=
  match data with
  | Prepared writes => Ok (zlen writes)
  | Borrowed runs => ofold (fun n '(_, b) => add_w 64 n (div_ceil (zlen b) block_size)) 0 runs
  end.

(** [bytes.chunks_exact(block_size)]. *)
Definition chunks_exact (block_size : Z) (b : bytes) : list bytes :=
  map (fun i => sub b (Z.of_nat i * block_size) (Z.of_nat i * block_size + block_size))
    (seq 0 (Z.to_nat (zlen b / block_size))).
Definition chunks_remainder (block_size : Z) (b : bytes) : bytes :=
  sub b (zlen b / block_size * block_size) (zlen b).

Section Code.
Context {V D : Type} {device : BlockDevice V D}.

Definition write_run (block_size start : Z) (b : bytes) : io D CoreError unit :=
  do! ieachi (fun offset chunk =>
        let! lba := ilift (add_w 64 start offset) in
        of_block (write_block lba chunk)) 0 (chunks_exact block_size b) in
  let remainder := chunks_remainder block_size b in
  if negb (zlen remainder =? 0) then
    let! tail := ilift (put (zeros block_size) 0 (zlen remainder) remainder) in
    let! lba := ilift (add_w 64 start (zlen b / block_size)) in
    of_block (write_block lba tail)
  else iret tt.

Definition CommitData_write_to (data : CommitData) : io D CoreError unit :=
  match data with
  | Prepared writes => ieach (fun '(lba, block) => of_block (write_block lba block)) writes
  | Borrowed runs =>
      let! block_size := iget dev_block_size in
      ieach (fun '(start, b) => write_run block_size start b) runs
  end.

(** The publication part of [commit_transaction_body]; [slot_lba] is
    [self.ident.checkpoint_slots[1 - self.current_slot]]. *)
Definition publish (data : CommitData) (meta_writes bitmap_writes descriptor_writes : list (Z * bytes))
    (slot_lba : Z) (new_checkpoint : Checkpoint) : io D CoreError unit :=
  let! block_size := iget dev_block_size in
  let! data_blocks := ilift (CommitData_blocks data block_size) in
  do! CommitData_write_to data in
  do! (if negb (data_blocks =? 0) then of_block flush else iret tt) in
  do! ieach (fun '(lba, block) => of_block (write_block lba block))
        (meta_writes ++ bitmap_writes ++ descriptor_writes) in
  do! of_block flush in
  let! checkpoint_bytes := ilift (of_format (Checkpoint_encode new_checkpoint block_size)) in
  do! of_block (write_block slot_lba checkpoint_bytes) in
  of_block flush.
End Code.

(** ** What the data phase writes *)

Fixpoint numbered (lba : Z) (l : list bytes) : list (Z * bytes) :=
  match l with
  | [] => []
  | block :: l => (lba, block) :: numbered (lba + 1) l
  end.

Definition run_writes (block_size start : Z) (b : bytes) : list (Z * bytes) :=
  numbered start (chunks_exact block_size b) ++
  (if zlen (chunks_remainder block_size b) =? 0 then []
   else [(start + zlen b / block_size,
          chunks_remainder block_size b ++ zeros (block_size - zlen (chunks_remainder block_size b)))]).

Definition data_writes (data : CommitData) (block_size : Z) : list (Z * bytes) :=
  match data with
  | Prepared writes => writes
  | Borrowed runs => flat_map (fun '(start, b) => run_writes block_size start b) runs
  end.

(** ** Runs on a recorded memory image *)

(** The recorder after the writes [ws]. *)
Definition recorded (ws : list (Z * bytes)) (r : RecordingBackend MemoryBackend) :
    RecordingBackend MemoryBackend :=
  {| rb_inner := apply_all (rb_inner r) ws;
     rb_log := rb_log r ++ map (fun '(lba, data) => RecWrite lba data) ws |}.

Definition flushed (r : RecordingBackend MemoryBackend) : RecordingBackend MemoryBackend :=
  {| rb_inner := rb_inner r; rb_log := rb_log r ++ [RecFlush] |}.

(** Writes a device of this shape accepts. *)
Definition in_range (total bs : Z) (ws : list (Z * bytes)) : Prop :=
  Forall (fun '(lba, data) => 0 <= lba < total /\ zlen data = bs) ws.

Abbreviation accepts r ws :=
  (in_range (mb_total_blocks (rb_inner r)) (mb_block_size (rb_inner r)) ws).

Lemma recorded_app ws ws' r : recorded (ws ++ ws') r = recorded ws' (recorded ws r).
Proof. unfold recorded. cbn. by rewrite apply_all_app, map_app, app_assoc. Qed.

Lemma recorded_nil r : recorded [] r = r.
Proof. unfold recorded. destruct r. cbn. by rewrite app_nil_r. Qed.

Lemma accepts_recorded ws ws' r : accepts (recorded ws r) ws' <-> accepts r ws'.
Proof. cbn. by rewrite apply_all_size, apply_all_total. Qed.

Lemma recording_write_run (r : RecordingBackend MemoryBackend) lba data :
  accepts r [(lba, data)] ->
  of_block (write_block lba data) r = (recorded [(lba, data)] r, Ok tt).
Proof.
  intros [[Hl Hd] _]%Forall_cons. unfold of_block. cbn [write_block recording_device].
  unfold recording_write_block, ibind, izoom. cbn [write_block memory_device].
  by rewrite memory_write_run.
Qed.

Lemma recording_flush_run (r : RecordingBackend MemoryBackend) : of_block flush r = (flushed r, Ok tt).
Proof. done. Qed.

Lemma ieach_write_run ws : forall r : RecordingBackend MemoryBackend,
  accepts r ws ->
  ieach (fun '(lba, block) => of_block (write_block lba block)) ws r = (recorded ws r, Ok tt).
Proof.
  induction ws as [|[lba data] ws IH]; intros r Hr; [by rewrite recorded_nil|].
  apply Forall_cons in Hr as [Hw Hr]. cbn [ieach]. unfold ibind.
  rewrite recording_write_run by (by constructor). change ((lba, data) :: ws) with ([(lba, data)] ++ ws).
  rewrite recorded_app. apply IH. by apply accepts_recorded.
Qed.

Lemma ieachi_write_run start l : forall i (r : RecordingBackend MemoryBackend),
  0 <= start -> 0 <= i -> u64 (mb_total_blocks (rb_inner r)) -> accepts r (numbered (start + i) l) ->
  ieachi (fun offset chunk =>
    let! lba := ilift (add_w 64 start offset) in of_block (write_block lba chunk)) i l r
  = (recorded (numbered (start + i) l) r, Ok tt).
Proof.
  induction l as [|chunk l IH]; intros i r Hs Hi Ht Hr; [by rewrite recorded_nil|].
  cbn [ieachi numbered] in *. apply Forall_cons in Hr as [Hw Hr]. unfold ibind at 1 2.
  unfold ilift, add_w. unfold u64 in Ht. rewrite (proj2 (Z.ltb_lt _ _)) by lia.
  rewrite recording_write_run by (by constructor).
  change ((start + i, chunk) :: numbered (start + i + 1) l) with ([(start + i, chunk)] ++ numbered (start + i + 1) l).
  rewrite recorded_app. replace (start + i + 1) with (start + (i + 1)) in * by lia.
  apply IH; [done|lia| |by apply accepts_recorded]. cbn. done.
Qed.

Lemma zlen_remainder bs b : 0 < bs -> zlen (chunks_remainder bs b) = zlen b mod bs.
Proof.
  intros Hb. unfold chunks_remainder. pose proof (zlen_nonneg b).
  pose proof (Z.div_mod (zlen b) bs ltac:(lia)). pose proof (Z.mod_pos_bound (zlen b) bs Hb).
  pose proof (Z.div_pos (zlen b) bs ltac:(lia) Hb). rewrite zlen_sub by lia. lia.
Qed.

Lemma zlen_numbered lba l : zlen (numbered lba l) = zlen l.
Proof.
  revert lba. induction l as [|b l IH]; intros lba; [done|]. cbn [numbered]. by rewrite !zlen_cons, IH.
Qed.

Lemma zlen_run_writes bs start b : 0 < bs -> zlen (run_writes bs start b) = div_ceil (zlen b) bs.
Proof.
  intros Hb. unfold run_writes, chunks_exact. rewrite zlen_app, zlen_numbered, zlen_map, zlen_remainder by done.
  pose proof (zlen_nonneg b). pose proof (Z.div_mod (zlen b) bs ltac:(lia)).
  pose proof (Z.mod_pos_bound (zlen b) bs Hb). pose proof (Z.div_pos (zlen b) bs ltac:(lia) Hb).
  unfold zlen at 1. rewrite length_seq. rewrite Z2Nat.id by lia. unfold div_ceil.
  destruct (Z.eqb_spec (zlen b mod bs) 0) as [Hm|Hm].
  - rewrite zlen_nil. apply Z.div_unique with (bs - 1); lia.
  - rewrite zlen_one. apply Z.div_unique with (zlen b mod bs - 1); lia.
Qed.

Lemma write_run_run start b (r : RecordingBackend MemoryBackend) :
  0 < mb_block_size (rb_inner r) -> u64 (mb_total_blocks (rb_inner r)) -> 0 <= start ->
  accepts r (run_writes (mb_block_size (rb_inner r)) start b) ->
  write_run (mb_block_size (rb_inner r)) start b r =
    (recorded (run_writes (mb_block_size (rb_inner r)) start b) r, Ok tt).
Proof.
  intros Hb Ht Hs Hr. set (bs := mb_block_size (rb_inner r)) in *. unfold write_run, run_writes in *.
  apply Forall_app in Hr as [Hc Hr]. unfold ibind at 1.
  rewrite (ieachi_write_run start (chunks_exact bs b) 0) by (rewrite ?Z.add_0_r; done || lia).
  rewrite Z.add_0_r. destruct (Z.eqb_spec (zlen (chunks_remainder bs b)) 0) as [Hz|Hz]; cbn [negb].
  { by rewrite app_nil_r. }
  pose proof (zlen_remainder bs b Hb) as Hm. pose proof (Z.mod_pos_bound (zlen b) bs Hb).
  pose proof Hr as [[Hlt _] _]%Forall_cons. cbn in Hlt. unfold u64 in Ht.
  unfold ibind, ilift, put, add_w. rewrite zlen_zeros by lia.
  rewrite (proj2 (andb_true_iff _ _)) by lia. rewrite (proj2 (Z.ltb_lt _ _)) by lia.
  assert (blit (zeros bs) 0 (chunks_remainder bs b) =
    chunks_remainder bs b ++ zeros (bs - zlen (chunks_remainder bs b))) as ->.
  { unfold blit. cbn [Z.to_nat take app]. rewrite Z.add_0_l, drop_sub, zlen_zeros, sub_zeros by lia. done. }
  rewrite recorded_app. apply recording_write_run. by apply accepts_recorded.
Qed.

Lemma runs_run bs runs : forall r : RecordingBackend MemoryBackend,
  mb_block_size (rb_inner r) = bs -> 0 < bs -> u64 (mb_total_blocks (rb_inner r)) ->
  Forall (fun '(start, _) => 0 <= start) runs ->
  accepts r (flat_map (fun '(start, b) => run_writes bs start b) runs) ->
  ieach (fun '(start, b) => write_run bs start b) runs r =
    (recorded (flat_map (fun '(start, b) => run_writes bs start b) runs) r, Ok tt).
Proof.
  induction runs as [|[start b] runs IH]; intros r Hbs Hb Ht Hpos Hr; [by rewrite recorded_nil|].
  apply Forall_cons in Hpos as [Hs Hpos]. cbn [flat_map ieach] in *. apply Forall_app in Hr as [Hw Hr].
  unfold ibind at 1. subst bs. rewrite write_run_run by done. rewrite recorded_app.
  apply IH; [cbn; by rewrite apply_all_size|done|cbn; by rewrite apply_all_total|done|by apply accepts_recorded].
Qed.

Lemma write_to_run data (r : RecordingBackend MemoryBackend) :
  0 < mb_block_size (rb_inner r) -> u64 (mb_total_blocks (rb_inner r)) ->
  (forall runs, data = Borrowed runs -> Forall (fun '(start, _) => 0 <= start) runs) ->
  accepts r (data_writes data (mb_block_size (rb_inner r))) ->
  CommitData_write_to data r = (recorded (data_writes data (mb_block_size (rb_inner r))) r, Ok tt).
Proof.
  intros Hb Ht Hpos Hr. destruct data as [ws|runs]; cbn [CommitData_write_to data_writes] in *.
  - by apply ieach_write_run.
  - unfold ibind at 1, iget. change (dev_block_size r) with (mb_block_size (rb_inner r)).
    apply runs_run; try done. by apply Hpos.
Qed.

Lemma blocks_run data bs :
  0 < bs -> zlen (data_writes data bs) < 2 ^ 64 ->
  CommitData_blocks data bs = Ok (zlen (data_writes data bs)).
Proof.
  intros Hb. destruct data as [ws|runs]; [done|]. cbn [data_writes CommitData_blocks]. intros Hn.
  assert (forall n, 0 <= n -> n + zlen (flat_map (fun '(start, b) => run_writes bs start b) runs) < 2 ^ 64 ->
    ofold (fun n '(_, b) => add_w (E := CoreError) 64 n (div_ceil (zlen b) bs)) n runs
    = Ok (n + zlen (flat_map (fun '(start, b) => run_writes bs start b) runs))) as H; [|by apply (H 0)].
  clear Hn. induction runs as [|[start b] runs IH]; intros n Hn Hlt; cbn [flat_map ofold] in *.
  - rewrite zlen_nil. by rewrite Z.add_0_r.
  - rewrite zlen_app in *. rewrite zlen_run_writes in * by done.
    pose proof (zlen_nonneg (flat_map (fun '(start, b) => run_writes bs start b) runs)).
    pose proof (zlen_nonneg (run_writes bs start b)) as Hz. rewrite zlen_run_writes in Hz by done.
    unfold add_w at 1. rewrite (proj2 (Z.ltb_lt _ _)) by lia. cbn [obind]. rewrite IH by lia. f_equal. lia.
Qed.

(** ** Crash safety *)

Record Transaction := {
  tx_data : CommitData;
  tx_meta : list (Z * bytes);
  tx_bitmaps : list (Z * bytes);
  tx_descriptors : list (Z * bytes);
  tx_checkpoint : Checkpoint;
}.

Definition tx_body (tx : Transaction) : list (Z * bytes) :=
  tx_meta tx ++ tx_bitmaps tx ++ tx_descriptors tx.
Definition tx_writes (tx : Transaction) : list (Z * bytes) := data_writes (tx_data tx) 4096 ++ tx_body tx.

(** The allocator's promise: a transaction writes whole blocks of the
    device and never a checkpoint slot. *)
Definition copy_on_write (ident : Identification) (m : MemoryBackend) (tx : Transaction) : Prop :=
  in_range (mb_total_blocks m) 4096 (tx_writes tx) /\
  (forall w, w ∈ tx_writes tx -> fst w <> slot_lba ident 0 /\ fst w <> slot_lba ident 1) /\
  (forall runs, tx_data tx = Borrowed runs -> Forall (fun '(start, _) => 0 <= start) runs) /\
  zlen (data_writes (tx_data tx) 4096) < 2 ^ 64.

(** A checkpoint that may follow [old] on the volume. *)
Definition successor (ident : Identification) (old c : Checkpoint) : Prop :=
  Checkpoint_typed c /\ cp_uuid c = id_uuid ident /\ cp_flags c = 0 /\ checkpoint_adm c 4096 /\
  structurally_valid c (plain_geometry ident) /\ snapshots_agree ident c /\
  cp_generation old < cp_generation c.

(** The checksum tells a torn checkpoint from a whole one: a tear of the new
    block over the old content is either no admissible checkpoint, or has
    left the new block complete. *)
Definition tears_detected (ident : Identification) (old_block new_block : bytes) : Prop :=
  forall t, t ∈ TEAR_OFFSETS ->
    candidate ident (tear_over old_block new_block t) = None \/ tear_over old_block new_block t = new_block.

Definition mounted (ident : Identification) (m : MemoryBackend) (sel : Selection) : Prop :=
  mountable ident /\ memory_ok m /\ mb_block_size m = 4096 /\ 2 < mb_total_blocks m /\
  select_checkpoint ident m = (m, Ok sel).

Definition new_slot (ident : Identification) (sel : Selection) : Z := slot_lba ident (1 - sel_chosen_slot sel).

(** *** Selection on an image *)

Section Select.
Context (ident : Identification) (m : MemoryBackend).
Hypothesis Hm : mountable ident.
Hypothesis Hok : memory_ok m.
Hypothesis Hbs : mb_block_size m = 4096.
Hypothesis Htot : 2 < mb_total_blocks m.

Abbreviation cand s := (candidate ident (peek m (slot_lba ident s))).

Lemma slot_lba_range s : 1 <= slot_lba ident s <= 2.
Proof. destruct Hm as ((_ & _ & _ & _ & Hs & _) & _). unfold slot_lba. rewrite Hs. destruct (s =? 0); cbn; lia. Qed.

Lemma candidate_run s :
  exists r, read_checkpoint_candidate ident (plain_geometry ident) s m = (m, Ok r) /\ sr_candidate r = cand s.
Proof.
  pose proof (slot_lba_range s). unfold read_checkpoint_candidate, ibind, of_block. cbn [read_block memory_device].
  cbn [block_size plain_geometry]. rewrite <- Hbs, memory_read_run by (done || lia).
  pose proof (wp_slot_read ident Hm (peek m (slot_lba ident s))) as Hr. unfold ilift.
  destruct (slot_read _ _ _) as [r| |]; [|done..]. by exists r.
Qed.

Lemma select_run :
  exists r, select_checkpoint ident m = (m, r) /\
    wp r (fun sel => chosen_from (cand 0) (cand 1) sel /\ snapshots_agree ident (sel_chosen sel))
         (refused_from ident (cand 0) (cand 1)).
Proof.
  unfold select_checkpoint, ibind at 1, ilift at 1. pose proof Hm as (_ & Hsh & _).
  rewrite id_geometry_eq by done. cbn [of_format].
  destruct (candidate_run 0) as (ra & Ha & <-), (candidate_run 1) as (rb & Hb & <-).
  unfold ibind. rewrite Ha, Hb. eexists. split; [done|]. apply wp_choose.
Qed.

(** The newest candidate wins. *)
Lemma select_newest s c :
  s = 0 \/ s = 1 -> cand s = Some c -> snapshots_agree ident c ->
  (forall o, cand (1 - s) = Some o -> cp_generation o < cp_generation c) ->
  exists sel, select_checkpoint ident m = (m, Ok sel) /\ sel_chosen sel = c /\ sel_chosen_slot sel = s.
Proof.
  intros Hs Hc Hag Ho. destruct select_run as (r & Hr & Hwp).
  assert (forall sel, chosen_from (cand 0) (cand 1) sel -> sel_chosen sel = c /\ sel_chosen_slot sel = s) as Hsel.
  { intros sel [Hch Hlt]. destruct Hs as [-> | ->]; cbn [Z.sub Z.add Z.opp] in *.
    - destruct Hch as [(H1 & H2 & H3)|(H1 & H2 & H3)]; [split; congruence|].
      specialize (Ho _ H2). rewrite Hc in H3. specialize (Hlt _ H3). lia.
    - destruct Hch as [(H1 & H2 & H3)|(H1 & H2 & H3)]; [|split; congruence].
      specialize (Ho _ H2). rewrite Hc in H3. specialize (Hlt _ H3). lia. }
  destruct r as [sel|e|]; [|exfalso|done].
  - destruct Hwp as [Hch _]. exists sel. split; [done|]. by apply Hsel.
  - cbn [wp] in Hwp. destruct e; try done; cbn [refused_from] in Hwp.
    + destruct Hs as [-> | ->], Hwp as [Ha Hb]; congruence.
    + destruct Hwp as (x & y & Hx & Hy & Hgx & Hgy). destruct Hs as [-> | ->]; cbn [Z.sub Z.add Z.opp] in *.
      * specialize (Ho _ Hy). rewrite Hx in Hc. injection Hc as ->. lia.
      * specialize (Ho _ Hx). rewrite Hy in Hc. injection Hc as ->. lia.
    + destruct Hwp as (sel & Hch & Hn). destruct (Hsel sel Hch) as [Heq _]. by rewrite Heq in Hn.
Qed.
End Select.

Lemma mounted_facts ident m sel :
  mounted ident m sel ->
  (sel_chosen_slot sel = 0 \/ sel_chosen_slot sel = 1) /\
  candidate ident (peek m (slot_lba ident (sel_chosen_slot sel))) = Some (sel_chosen sel) /\
  snapshots_agree ident (sel_chosen sel) /\
  forall o, candidate ident (peek m (new_slot ident sel)) = Some o -> cp_generation o < cp_generation (sel_chosen sel).
Proof.
  intros (Hm & Hok & Hbs & Ht & Hsel). destruct (select_run ident m Hm Hok Hbs Ht) as (r & Hr & Hwp).
  rewrite Hsel in Hr. injection Hr as <-. destruct Hwp as [[Hch Hlt] Hag]. unfold new_slot.
  destruct Hch as [(Hs & Hc & Ho)|(Hs & Hc & Ho)]; rewrite Hs;
    [change (1 - 0) with 1|change (1 - 1) with 0]; (split; [auto|]); (split; [done|]); (split; [done|]);
    intros o Hx; apply Hlt; by rewrite Ho.
Qed.

(** *** The log of a publication *)

Definition barrier (data : CommitData) : list RecordedOp :=
  if zlen (data_writes data 4096) =? 0 then [] else [RecFlush].

Definition rec_writes (ws : list (Z * bytes)) : list RecordedOp := map (fun '(lba, data) => RecWrite lba data) ws.

(** Everything before the publication barrier. *)
Definition tx_log (tx : Transaction) : list RecordedOp :=
  rec_writes (data_writes (tx_data tx) 4096) ++ barrier (tx_data tx) ++ rec_writes (tx_body tx).

Lemma writes_of_rec ws : writes_of (rec_writes ws) = ws.
Proof. induction ws as [|[lba d] ws IH]; [done|]. cbn. f_equal. exact IH. Qed.

Lemma writes_of_tx tx : writes_of (tx_log tx) = tx_writes tx.
Proof.
  unfold tx_log, tx_writes. rewrite !writes_of_app, !writes_of_rec.
  unfold barrier. by destruct (_ =? 0).
Qed.

Lemma checkpoint_bytes c old ident :
  mountable ident -> successor ident old c ->
  Checkpoint_encode c 4096 = Ok (checkpoint_image c 4096) /\ zlen (checkpoint_image c 4096) = 4096 /\
  candidate ident (checkpoint_image c 4096) = Some c.
Proof.
  intros Hm (Ht & Hu & Hf & Ha & Hv & Hag & Hg).
  pose proof (Checkpoint_encode_spec c 4096 Ht ltac:(lia)) as He.
  destruct (Checkpoint_encode c 4096) as [b| |]; [|by destruct He|done]. destruct He as [_ ->].
  split; [done|]. destruct Ha as [Hcom _]. pose proof Hcom as (_ & _ & _ & _ & _ & Hfit). split.
  - unfold checkpoint_image, image. rewrite zlen_sealed, zlen_app, zlen_zeros by lia. lia.
  - apply candidate_admissible; [done|]. split; [|done]. rewrite <- Hu. apply Checkpoint_decode_image; done || lia.
Qed.

Lemma publish_run ident m sel tx :
  mounted ident m sel -> copy_on_write ident m tx -> successor ident (sel_chosen sel) (tx_checkpoint tx) ->
  exists r, publish (tx_data tx) (tx_meta tx) (tx_bitmaps tx) (tx_descriptors tx) (new_slot ident sel)
      (tx_checkpoint tx) (RecordingBackend_new m) = (r, Ok tt) /\
    rb_log r = tx_log tx ++
      [RecFlush; RecWrite (new_slot ident sel) (checkpoint_image (tx_checkpoint tx) 4096); RecFlush].
Proof.
  intros (Hm & Hok & Hbs & Ht & _) (Hr & _ & Hpos & Hn) Hsucc.
  destruct (checkpoint_bytes _ _ _ Hm Hsucc) as (Henc & Hz & _).
  pose proof (slot_lba_range ident Hm (1 - sel_chosen_slot sel)) as Hslot. fold (new_slot ident sel) in Hslot.
  apply Forall_app in Hr as [Hd Hb]. pose proof Hok as (Hu & _).
  unfold publish, ibind at 1, iget. change (dev_block_size (RecordingBackend_new m)) with (mb_block_size m). rewrite Hbs.
  unfold ibind at 1, ilift at 1. rewrite blocks_run by (done || lia).
  unfold ibind at 1. pose proof (write_to_run (tx_data tx) (RecordingBackend_new m)) as Hw. cbn [rb_inner RecordingBackend_new] in Hw.
  rewrite Hbs in Hw. rewrite Hw by (done || lia). clear Hw.
  set (r1 := recorded _ _).
  assert (exists r2, (if negb (zlen (data_writes (tx_data tx) 4096) =? 0) then of_block flush else iret tt) r1 = (r2, Ok tt)
    /\ rb_inner r2 = rb_inner r1 /\ rb_log r2 = rb_log r1 ++ barrier (tx_data tx)) as (r2 & Hr2 & Hi2 & Hl2).
  { unfold barrier. destruct (_ =? 0); cbn [negb]; eexists; (split; [done|]); (split; [done|]); [by rewrite app_nil_r|done]. }
  unfold ibind at 1. rewrite Hr2. unfold ibind at 1.
  assert (mb_total_blocks (rb_inner r2) = mb_total_blocks m /\ mb_block_size (rb_inner r2) = 4096) as [Ht2 Hb2].
  { rewrite Hi2. cbn. by rewrite apply_all_total, apply_all_size. }
  rewrite ieach_write_run by (by rewrite Ht2, Hb2). unfold ibind at 1. rewrite recording_flush_run.
  unfold ibind at 1, ilift at 1. rewrite Henc. cbn [of_format]. unfold ibind at 1. rewrite recording_write_run.
  2: { cbn. rewrite apply_all_total, apply_all_size, Ht2, Hb2. constructor; [|done]. split; [lia|done]. }
  rewrite recording_flush_run. eexists. split; [done|]. cbn. rewrite Hl2. unfold r1. cbn. unfold tx_log.
  by rewrite <- !app_assoc.
Qed.

(** *** The images of each phase *)

Lemma split_unique ops d t d' t' : split_at_flush ops d t -> split_at_flush ops d' t' -> d = d' /\ t = t'.
Proof. intros [<- <-]%split_code [<- <-]%split_code. done. Qed.

Lemma split_writes ops d t : split_at_flush ops d t -> writes_of ops = d ++ t.
Proof. destruct 1; [done|]. by rewrite writes_of_app. Qed.

Lemma crash_image_frame m d t img a :
  crash_image (apply_all m d) t img -> (forall w, w ∈ d ++ t -> fst w <> a) -> peek img a = peek m a.
Proof.
  intros [kept Hk|before lba data after tr -> _ _] Ha.
  - rewrite !apply_all_peek; [done|..].
    + intros w Hw. apply Ha, elem_of_app. by left.
    + intros w Hw. apply Ha, elem_of_app. right. by eapply elem_of_sublist.
  - rewrite peek_insert_ne.
    + rewrite !apply_all_peek; [done|..]; intros w Hw; apply Ha; rewrite !elem_of_app; tauto.
    + intros ->. apply (Ha (lba, data)); [|done]. rewrite !elem_of_app. right. right. by left.
Qed.

Lemma zlen_tear old new t : zlen old = zlen new -> 0 <= t -> t <= zlen new -> zlen (tear_over old new t) = zlen new.
Proof. intros. unfold tear_over. rewrite zlen_app, !zlen_sub by lia. lia. Qed.

Lemma tear_nonneg t : t ∈ TEAR_OFFSETS -> 0 <= t.
Proof. unfold TEAR_OFFSETS. rewrite !elem_of_cons, elem_of_nil. lia. Qed.

Lemma sublist_of_one {A} (k : list A) x : k `sublist_of` [x] -> k = [] \/ k = [x].
Proof. intros Hk. destruct (select_all k [x] Hk) as (mask & _ & <-). cbn. destruct (Z.odd mask); auto. Qed.

Lemma crash_image_shape m d t img :
  memory_ok m -> sized (mb_block_size m) (d ++ t) -> crash_image (apply_all m d) t img ->
  memory_ok img /\ mb_block_size img = mb_block_size m /\ mb_total_blocks img = mb_total_blocks m.
Proof.
  intros Hm [Hd Ht]%Forall_app [kept Hk|before lba data after tr -> Htr Hlt].
  - rewrite <- apply_all_app. split; [|by rewrite apply_all_size, apply_all_total].
    apply apply_all_ok; [done|]. apply Forall_app. split; [done|].
    apply Forall_forall. intros w Hw. eapply elem_of_sublist in Hw; [|done]. by eapply Forall_forall in Ht.
  - unfold sized in Ht. apply Forall_app in Ht as [Hb [Hda _]%Forall_cons]. cbn in Hda.
    assert (memory_ok (apply_all (apply_all m d) before)) as Hok.
    { rewrite <- apply_all_app. apply apply_all_ok; [done|]. by apply Forall_app. }
    split; [|unfold mb_insert; cbn [mb_block_size mb_total_blocks]; by rewrite !apply_all_size, !apply_all_total].
    apply mb_insert_ok; [done|].
    pose proof (peek_len _ lba Hok) as Hp. rewrite !apply_all_size in *. pose proof (tear_nonneg tr Htr).
    rewrite zlen_tear by lia. done.
Qed.

(** Where a crash falls in the log of a publication. *)
Lemma prefix_cases (pre : list RecordedOp) x y z k :
  0 <= k <= zlen (pre ++ [x; y; z]) ->
  (k <= zlen pre /\ sub (pre ++ [x; y; z]) 0 k = sub pre 0 k) \/
  (k = zlen pre + 1 /\ sub (pre ++ [x; y; z]) 0 k = pre ++ [x]) \/
  (k = zlen pre + 2 /\ sub (pre ++ [x; y; z]) 0 k = pre ++ [x; y]) \/
  (k = zlen pre + 3 /\ sub (pre ++ [x; y; z]) 0 k = pre ++ [x; y; z]).
Proof.
  intros Hk. rewrite zlen_app in Hk. change (zlen [x; y; z]) with 3 in Hk. pose proof (zlen_nonneg pre).
  destruct (decide (k <= zlen pre)); [left; split; [done|by apply sub_app_l]|right].
  assert (forall j l l', [x; y; z] = l ++ l' -> zlen l = j -> sub (pre ++ [x; y; z]) 0 (zlen pre + j) = pre ++ l) as H'.
  { intros j l l' -> <-. rewrite app_assoc, sub_app_l by (rewrite ?zlen_app; lia). apply sub_all. by rewrite zlen_app. }
  assert (k = zlen pre + 1 \/ k = zlen pre + 2 \/ k = zlen pre + 3) as [-> | [-> | ->]] by lia.
  - left. split; [done|]. by apply (H' 1 [x] [y; z]).
  - right. left. split; [done|]. by apply (H' 2 [x; y] [z]).
  - right. right. split; [done|]. by apply (H' 3 [x; y; z] []).
Qed.

(** An image that mounts as before the transaction, with every block it did
    not write as it was. *)
Definition recovers_old (ident : Identification) (m : MemoryBackend) (sel : Selection) (tx : Transaction)
    (img : MemoryBackend) : Prop :=
  exists sel', select_checkpoint ident img = (img, Ok sel') /\
    sel_chosen sel' = sel_chosen sel /\ sel_chosen_slot sel' = sel_chosen_slot sel /\
    forall a, a <> new_slot ident sel -> (forall w, w ∈ tx_writes tx -> fst w <> a) -> peek img a = peek m a.

(** An image that mounts the new checkpoint, with every write of the
    transaction in place. *)
Definition recovers_new (ident : Identification) (m : MemoryBackend) (sel : Selection) (tx : Transaction)
    (img : MemoryBackend) : Prop :=
  exists sel', select_checkpoint ident img = (img, Ok sel') /\
    sel_chosen sel' = tx_checkpoint tx /\ sel_chosen_slot sel' = 1 - sel_chosen_slot sel /\
    forall a, a <> new_slot ident sel -> peek img a = peek (apply_all m (tx_writes tx)) a.

Section CrashSafety.
Context (ident : Identification) (m : MemoryBackend) (sel : Selection) (tx : Transaction).
Hypothesis Hmount : mounted ident m sel.
Hypothesis Hcow : copy_on_write ident m tx.
Hypothesis Hsucc : successor ident (sel_chosen sel) (tx_checkpoint tx).

Abbreviation new := (checkpoint_image (tx_checkpoint tx) 4096).
Abbreviation slot := (new_slot ident sel).
Abbreviation old_slot := (slot_lba ident (sel_chosen_slot sel)).

Lemma slots_apart : slot <> old_slot.
Proof.
  destruct (mounted_facts _ _ _ Hmount) as ([Hs|Hs] & _); destruct Hmount as (((_ & _ & _ & _ & Hsl & _) & _) & _);
    unfold new_slot, slot_lba; rewrite Hs, Hsl; done.
Qed.

Lemma tx_avoids_slots w : w ∈ tx_writes tx -> fst w <> slot /\ fst w <> old_slot.
Proof.
  intros Hw. destruct Hcow as (_ & Ha & _). specialize (Ha w Hw).
  destruct (mounted_facts _ _ _ Hmount) as ([Hs|Hs] & _); unfold new_slot; rewrite Hs;
    [change (1 - 0) with 1|change (1 - 1) with 0]; tauto.
Qed.

Lemma tx_sized : sized (mb_block_size m) (tx_writes tx).
Proof.
  destruct Hmount as (_ & _ & -> & _). destruct Hcow as (Hr & _). unfold in_range, sized in *.
  eapply Forall_impl; [exact Hr|]. by intros [lba d] [_ ?].
Qed.

(** The old checkpoint is selected whenever its slot is as it was and the
    other holds no newer one. *)
Lemma old_selected img :
  memory_ok img -> mb_block_size img = mb_block_size m -> mb_total_blocks img = mb_total_blocks m ->
  peek img old_slot = peek m old_slot ->
  (candidate ident (peek img slot) = None \/ peek img slot = peek m slot) ->
  (forall a, a <> slot -> (forall w, w ∈ tx_writes tx -> fst w <> a) -> peek img a = peek m a) ->
  recovers_old ident m sel tx img.
Proof.
  intros Hok Hb Ht Hold Hnew Hfr. destruct (mounted_facts _ _ _ Hmount) as (Hs & Hc & Hag & Ho).
  destruct Hmount as (Hm & _ & Hbs & Htot & _).
  destruct (select_newest ident img Hm Hok ltac:(congruence) ltac:(lia) (sel_chosen_slot sel) (sel_chosen sel))
    as (sel' & H1 & H2 & H3); [done|by rewrite Hold|done| |].
  - intros o Hx. fold slot in Hx. destruct Hnew as [Hn|Hn]; [congruence|]. apply Ho. by rewrite <- Hn.
  - by exists sel'.
Qed.

(** The new one is, as soon as its block is complete. *)
Lemma new_selected img :
  memory_ok img -> mb_block_size img = mb_block_size m -> mb_total_blocks img = mb_total_blocks m ->
  peek img old_slot = peek m old_slot -> peek img slot = new ->
  (forall a, a <> slot -> peek img a = peek (apply_all m (tx_writes tx)) a) ->
  recovers_new ident m sel tx img.
Proof.
  intros Hok Hb Ht Hold Hnew Hfr. destruct (mounted_facts _ _ _ Hmount) as (Hs & Hc & Hag & Ho).
  destruct Hmount as (Hm & _ & Hbs & Htot & _). pose proof Hsucc as (_ & _ & _ & _ & _ & Hagn & Hgen).
  destruct (checkpoint_bytes _ _ _ Hm Hsucc) as (_ & _ & Hcand).
  destruct (select_newest ident img Hm Hok ltac:(congruence) ltac:(lia) (1 - sel_chosen_slot sel) (tx_checkpoint tx))
    as (sel' & H1 & H2 & H3); [lia|fold slot; by rewrite Hnew|done| |].
  - intros o. replace (1 - (1 - sel_chosen_slot sel)) with (sel_chosen_slot sel) by lia. rewrite Hold, Hc.
    by intros [= <-].
  - by exists sel'.
Qed.

(** Before the checkpoint is written. *)
Lemma crash_before d t img :
  (forall w, w ∈ d ++ t -> w ∈ tx_writes tx) ->
  crash_image (apply_all m d) t img -> recovers_old ident m sel tx img.
Proof.
  intros Hin Himg. destruct Hmount as (_ & Hok & _).
  assert (sized (mb_block_size m) (d ++ t)) as Hsz.
  { apply Forall_forall. intros w Hw. pose proof tx_sized as H. unfold sized in H. rewrite Forall_forall in H. by apply H, Hin. }
  destruct (crash_image_shape m d t img Hok Hsz Himg) as (Hio & Hib & Hit).
  assert (forall a, (forall w, w ∈ tx_writes tx -> fst w <> a) -> peek img a = peek m a) as Hfr.
  { intros a Ha. eapply crash_image_frame; [done|]. intros w Hw. by apply Ha, Hin. }
  apply old_selected; [done..| | |auto].
  - apply Hfr. intros w Hw. by apply tx_avoids_slots.
  - right. apply Hfr. intros w Hw. by apply tx_avoids_slots.
Qed.

Hypothesis Htear : tears_detected ident (peek m slot) new.

Lemma complete_image :
  memory_ok (apply_all m (tx_writes tx)) /\ peek (apply_all m (tx_writes tx)) slot = peek m slot /\
  peek (apply_all m (tx_writes tx)) old_slot = peek m old_slot.
Proof.
  destruct Hmount as (_ & Hok & _). split; [apply apply_all_ok; [done|apply tx_sized]|].
  split; apply apply_all_peek; intros w Hw; by apply tx_avoids_slots.
Qed.

(** The checkpoint write, whole or torn, over a complete transaction. *)
Lemma slot_written block :
  zlen block = 4096 ->
  (candidate ident block = None -> recovers_old ident m sel tx (mb_insert slot block (apply_all m (tx_writes tx)))) /\
  (block = new -> recovers_new ident m sel tx (mb_insert slot block (apply_all m (tx_writes tx)))).
Proof.
  intros Hz. destruct complete_image as (Hok & Hs & Ho). pose proof slots_apart as Hne.
  pose proof Hmount as (_ & _ & Hbs & _).
  assert (memory_ok (mb_insert slot block (apply_all m (tx_writes tx)))) as Hok'
    by (apply mb_insert_ok; [done|rewrite apply_all_size; congruence]).
  assert (peek (mb_insert slot block (apply_all m (tx_writes tx))) old_slot = peek m old_slot) as Ho'
    by (rewrite peek_insert_ne; done).
  split; intros Hb; [apply old_selected|apply new_selected]; try done; cbn [mb_insert mb_block_size mb_total_blocks];
    rewrite ?apply_all_size, ?apply_all_total; try done.
  - left. by rewrite peek_insert_eq.
  - intros a Ha Hw. rewrite peek_insert_ne by done. by apply apply_all_peek.
  - by rewrite peek_insert_eq.
  - intros a Ha. by rewrite peek_insert_ne.
Qed.

Lemma crash_during img :
  crash_image (apply_all m (tx_writes tx)) [(slot, new)] img ->
  recovers_old ident m sel tx img \/ recovers_new ident m sel tx img.
Proof.
  destruct Hmount as (Hm & _). destruct (checkpoint_bytes _ _ _ Hm Hsucc) as (_ & Hz & _).
  destruct complete_image as (Hok & Hs & _). intros Himg.
  inversion Himg as [kept Hk Heq|before lba data after t Heq Ht Hlt Himg']; subst.
  - destruct (sublist_of_one _ _ Hk) as [-> | ->].
    + left. apply (crash_before (tx_writes tx) []); [|by apply image_subset]. intros w. by rewrite app_nil_r.
    + right. by apply slot_written.
  - destruct before as [|? before]; [|by destruct before]. injection Heq as <- <- <-. cbn [apply_all fold_left] in *.
    change (fold_left _ (tx_writes tx) m) with (apply_all m (tx_writes tx)) in *. rewrite Hs.
    destruct (Htear t Ht) as [Hn|Hn].
    + left. apply slot_written; [|done].
      rewrite <- Hs. rewrite zlen_tear; [done| |by apply tear_nonneg, Ht|lia].
      rewrite (peek_len _ _ Hok), apply_all_size. destruct Hmount as (_ & _ & -> & _). done.
    + right. rewrite Hn. by apply slot_written.
Qed.
End CrashSafety.


(** A transaction of one data block and one metadata block on the sample volume. *)
Definition sample_tx : Transaction :=
  {| tx_data := Borrowed [(20, [Byte.x61; Byte.x62])]; tx_meta := [(21, zeros 4096)]; tx_bitmaps := [];
     tx_descriptors := []; tx_checkpoint := plain_checkpoint 6 |}.

Lemma sample_mountable : mountable sample_ident.
Proof.
  split; [|split; vm_compute; reflexivity].
  pose proof (Identification_decode_inv (ident_image sample_ident)) as H.
  assert (Identification_decode (ident_image sample_ident) = Ok sample_ident) as Hd by (vm_compute; reflexivity).
  rewrite Hd in H. apply H.
Qed.

Lemma sample_successor : successor sample_ident (plain_checkpoint 5) (plain_checkpoint 6).
Proof.
  assert (Checkpoint_typed (plain_checkpoint 6)) as Ht by (unfold Checkpoint_typed; split_and!; by vm_compute).
  assert (candidate sample_ident (checkpoint_image (plain_checkpoint 6) 4096) = Some (plain_checkpoint 6)) as Hc
    by (vm_compute; reflexivity).
  apply candidate_admissible in Hc as [_ Hv]; [|exact sample_mountable].
  pose proof (Checkpoint_encode_spec (plain_checkpoint 6) 4096 Ht ltac:(lia)) as He.
  assert (Checkpoint_encode (plain_checkpoint 6) 4096 = Ok (checkpoint_image (plain_checkpoint 6) 4096)) as Hr
    by (vm_compute; reflexivity).
  rewrite Hr in He. destruct He as [Ha _]. by repeat (split; [done|]).
Qed.

