(* ===== verification/Tree.v ===== *)
(** * Reading and verifying the shared trees (crates/afsplus-core/src/tree.rs)

    The code of every lookup, range read, visit and check of a B+ tree on a
    device, as state-passing code over any block device.  What it computes is
    stated in TreeSpec.v and proved in TreeReaders.v and TreeVerify.v. *)

From Stdlib Require Import Sorted.
From S2P Require Import Prelude Crc32c Format Header Codec TreeNode Geometry Checkpoint Object Device Core.

(** ** The code *)

(** What the core attaches to blocks: decoded tree nodes and object records,
    with their generation. *)
Inductive Decoded : Type :=
| KeptNode (node : TreeNode) (generation : Z)
| KeptRecord (record : ObjectRecord) (generation : Z).

Record TreeSpec := { ts_kind : TreeKind; ts_owner : Z; ts_max_generation : Z }.

Record TreeLookupStats := { ls_pages_read : Z; ls_peak_page_buffers : Z }.

Record TreeRangePage := { rp_items : list (bytes * bytes); rp_total_items : Z }.

Record TreeSummary := { su_items : Z; su_nodes : Z; su_height : Z }.

(** The blocks a descent has passed; the array has [MAX_TREE_LEVEL + 2] places. *)
Definition DescentPath : Type := list Z.

Definition path_insert (lba : Z) (path : DescentPath) : option DescentPath :=
  if (zlen path =? MAX_TREE_LEVEL + 2) || existsb (Z.eqb lba) path then None else Some (path ++ [lba]).

Fixpoint path_remove (lba : Z) (path : DescentPath) : DescentPath :=
  match path with
  | [] => []
  | x :: path => if x =? lba then path else x :: path_remove lba path
  end.

Definition bytes_leb (a b : bytes) : bool := negb (bytes_ltb b a).

(** [partition_point] and [binary_search_by] of a slice, on the sorted items
    of a validated node. *)
Fixpoint partition_point {A} (p : A -> bool) (l : list A) : nat :=
  match l with
  | [] => O
  | x :: l => if p x then S (partition_point p l) else O
  end.

Definition find_item (key : bytes) (items : list TreeItem) : option TreeItem :=
  List.find (fun item => bytes_eqb (ti_key item) key) items.

Definition validate_node_identity (node : TreeNode) (generation : Z) (spec : TreeSpec)
    (expected_level : option Z) : outcome CoreError unit :=
  if negb (bool_decide (tn_kind node = ts_kind spec)) || negb (tn_owner node =? ts_owner spec) then
    Err (Corrupt "tree node kind/owner mismatch") else
  if (generation =? 0) || (ts_max_generation spec <? generation) then
    Err (Corrupt "tree node generation outside committed range") else
  if match expected_level with Some level => negb (level =? tn_level node) | None => false end then
    Err (Corrupt "tree node level mismatch") else
  Ok tt.

Definition validate_node_range (node : TreeNode) (lower upper : option bytes) (is_root : bool) :
    outcome CoreError unit :=
  if negb is_root && (zlen (tn_items node) =? 0) then Err (Corrupt "non-root tree node is empty") else
  do* match lower, hd_error (tn_items node) with
      | Some lower, Some first =>
          if bytes_ltb (ti_key first) lower then Err (Corrupt "tree node key below parent range") else
          if is_leaf node && negb (bytes_eqb (ti_key first) lower) then
            Err (Corrupt "tree separator does not equal leaf minimum") else Ok tt
      | _, _ => Ok tt
      end in
  match upper, last (tn_items node) with
  | Some upper, Some last =>
      if bytes_leb upper (ti_key last) then Err (Corrupt "tree node key above parent range") else Ok tt
  | _, _ => Ok tt
  end.

Definition check_tree_lba (geo : Geometry) (lba : Z) : outcome CoreError unit :=
  let* ok := of_format (is_allocatable geo lba) in
  if negb ok then Err (Corrupt "tree block outside allocatable bounds") else Ok tt.

(** The children of a node, each with the item before and the item after it:
    child [i] of [0..=items.len()] has [items[i - 1]] and [items.get(i)]. *)
Fixpoint slots_from (sep : option TreeItem) (items : list TreeItem) :
    list (option TreeItem * option TreeItem) :=
  match items with
  | [] => [(sep, None)]
  | item :: items => (sep, Some item) :: slots_from (Some item) items
  end.

Definition child_slots (node : TreeNode) : list (option TreeItem * option TreeItem) :=
  slots_from None (tn_items node).

Definition child_of (node : TreeNode) (sep : option TreeItem) : outcome CoreError ChildRef :=
  match sep with
  | None => Ok {| cr_lba := tn_leftmost_child node; cr_subtree_items := tn_leftmost_items node |}
  | Some item => of_format (child_ref item)
  end.

Definition bound (item : option TreeItem) (inherited : option bytes) : option bytes :=
  match item with Some item => Some (ti_key item) | None => inherited end.

Section Code.
Context {D : Type} {device : BlockDevice Decoded D}.

Definition decode_node (lba : Z) (buf : bytes) : io D CoreError (TreeNode * Z) := fun d =>
  match attached d lba with
  | Some (KeptNode node generation) => (d, Ok (node, generation))
  | _ =>
      match TreeNode_decode buf with
      | Ok (node, generation) => (attach d lba (KeptNode node generation), Ok (node, generation))
      | Err _ => (d, Err (Corrupt "tree node"))
      | Panic => (d, Panic)
      end
  end.

(** How every reader takes a node in: read, decode, check. *)
Definition load_node (geo : Geometry) (spec : TreeSpec) (lba : Z) (expected_level : option Z)
    (lower upper : option bytes) (is_root : bool) : io D CoreError TreeNode :=
  let! buf := of_block (read_block lba (block_size geo)) in
  let! '(node, generation) := decode_node lba buf in
  do! ilift (validate_node_identity node generation spec expected_level) in
  do! ilift (validate_node_range node lower upper is_root) in
  iret node.

(** The child a key lies in, with its bounds. *)
Definition route (node : TreeNode) (key : bytes) (lower upper : option bytes) :
    outcome CoreError (ChildRef * option bytes * option bytes) :=
  let separator_index := partition_point (fun item => bytes_leb (ti_key item) key) (tn_items node) in
  match separator_index with
  | O => let* child := child_of node None in
         Ok (child, lower, match hd_error (tn_items node) with Some item => Some (ti_key item) | None => None end)
  | S index =>
      match tn_items node !! index with
      | Some item =>
          let* child := child_of node (Some item) in
          Ok (child, Some (ti_key item), bound (tn_items node !! separator_index) upper)
      | None => Panic
      end
  end.

(** The loop of [lookup] and of [lookup_floor]: at most [MAX_TREE_LEVEL + 1] nodes. *)
Fixpoint descend {A} (geo : Geometry) (spec : TreeSpec) (key : bytes) (at_leaf : TreeNode -> A) (fuel : nat)
    (is_root : bool) (lba : Z) (expected_level : option Z) (lower upper : option bytes)
    (visited : DescentPath) (stats : TreeLookupStats) : io D CoreError (A * TreeLookupStats) :=
  match fuel with
  | O => ierr (Corrupt "tree traversal exceeded maximum depth")
  | S fuel =>
      match path_insert lba visited with
      | None => ierr (Corrupt "tree cycle")
      | Some visited =>
          let! node := load_node geo spec lba expected_level lower upper is_root in
          let stats := {| ls_pages_read := ls_pages_read stats + 1;
                          ls_peak_page_buffers := ls_peak_page_buffers stats |} in
          if is_leaf node then iret (at_leaf node, stats) else
          let! '(child, lower, upper) := ilift (route node key lower upper) in
          do! ilift (check_tree_lba geo (cr_lba child)) in
          let! level := ilift (sub_w (tn_level node) 1) in
          descend geo spec key at_leaf fuel false (cr_lba child) (Some level) lower upper visited stats
      end
  end.

Definition descend_from_root {A} (geo : Geometry) (root_lba : Z) (spec : TreeSpec) (key : bytes)
    (at_leaf : TreeNode -> A) : io D CoreError (A * TreeLookupStats) :=
  if (zlen key =? 0) || (MAX_TREE_KEY_BYTES <? zlen key) then
    ierr (Corrupt "tree lookup key length out of range") else
  do! ilift (check_tree_lba geo root_lba) in
  descend geo spec key at_leaf (Z.to_nat (MAX_TREE_LEVEL + 1)) true root_lba None None None []
    {| ls_pages_read := 0; ls_peak_page_buffers := 2 |}.

Definition tree_lookup (geo : Geometry) (root_lba : Z) (spec : TreeSpec) (key : bytes) :
    io D CoreError (option bytes * TreeLookupStats) :=
  descend_from_root geo root_lba spec key (fun node =>
    match find_item key (tn_items node) with Some item => Some (ti_value item) | None => None end).

Definition floor_in (key : bytes) (items : list TreeItem) : option (bytes * bytes) :=
  match partition_point (fun item => bytes_leb (ti_key item) key) items with
  | O => None
  | S index => match items !! index with Some item => Some (ti_key item, ti_value item) | None => None end
  end.

Definition lookup_floor (geo : Geometry) (root_lba : Z) (spec : TreeSpec) (key : bytes) :
    io D CoreError (option (bytes * bytes) * TreeLookupStats) :=
  descend_from_root geo root_lba spec key (fun node => floor_in key (tn_items node)).

(** *** Walks over several nodes

    The state of a recursive reader: the device, the current path, and what
    it accumulates. *)

Record Walk (X : Type) := { wk_dev : D; wk_path : DescentPath; wk_out : X }.
#[global] Arguments wk_dev {X} _.
#[global] Arguments wk_path {X} _.
#[global] Arguments wk_out {X} _.
#[global] Arguments Build_Walk {X} _ _ _.

Definition set_wk_dev {X} (d : D) (w : Walk X) : Walk X :=
  {| wk_dev := d; wk_path := wk_path w; wk_out := wk_out w |}.
Definition set_wk_path {X} (path : DescentPath) (w : Walk X) : Walk X :=
  {| wk_dev := wk_dev w; wk_path := path; wk_out := wk_out w |}.
Definition set_wk_out {X} (x : X) (w : Walk X) : Walk X :=
  {| wk_dev := wk_dev w; wk_path := wk_path w; wk_out := x |}.

Definition on_dev {X A} (m : io D CoreError A) : io (Walk X) CoreError A := izoom wk_dev set_wk_dev m.
Definition on_out {X A} (m : io X CoreError A) : io (Walk X) CoreError A := izoom wk_out set_wk_out m.

(** [path.insert(lba)], the body, then [path.remove(lba)] whatever it returned. *)
Definition scoped {X A} (lba : Z) (body : io (Walk X) CoreError A) : io (Walk X) CoreError A := fun w =>
  match path_insert lba (wk_path w) with
  | None => (w, Err (Corrupt "tree cycle"))
  | Some path =>
      let '(w, r) := body (set_wk_path path w) in
      (set_wk_path (path_remove lba (wk_path w)) w, r)
  end.

Definition item_pair (item : TreeItem) : bytes * bytes := (ti_key item, ti_value item).

(** Appending at most [limit] items in all. *)
Definition extend (limit : Z) (items : list TreeItem) (out : list (bytes * bytes)) : list (bytes * bytes) :=
  out ++ take (Z.to_nat (limit - zlen out)) (map item_pair items).

Section RangeChildren.
Context (geo : Geometry) (node : TreeNode) (lower upper : option bytes) (limit : Z).
Context (read_child : Z -> Z -> option bytes -> option bytes -> Z -> io (Walk (list (bytes * bytes))) CoreError Z).

Fixpoint read_range_children (start : Z) (slots : list (option TreeItem * option TreeItem)) :
    io (Walk (list (bytes * bytes))) CoreError unit :=
  match slots with
  | [] => iret tt
  | (sep, next) :: slots =>
      let! len := iget (fun w => zlen (wk_out w)) in
      if limit <=? len then iret tt else
      let! child := ilift (child_of node sep) in
      if cr_subtree_items child <=? start then read_range_children (start - cr_subtree_items child) slots else
      do! ilift (check_tree_lba geo (cr_lba child)) in
      let! level := ilift (sub_w (tn_level node) 1) in
      let! actual := read_child (cr_lba child) level (bound sep lower) (bound next upper) start in
      if negb (actual =? cr_subtree_items child) then ierr (Corrupt "tree child count") else
      read_range_children 0 slots
  end.
End RangeChildren.

Fixpoint read_range_node (geo : Geometry) (spec : TreeSpec) (limit : Z) (fuel : nat) (is_root : bool) (lba : Z)
    (expected_level : option Z) (lower upper : option bytes) (start : Z) :
    io (Walk (list (bytes * bytes))) CoreError Z :=
  match fuel with
  | O => fun w => (w, Panic)
  | S fuel =>
      scoped lba (
        let! node := on_dev (load_node geo spec lba expected_level lower upper is_root) in
        let total := tn_subtree_items node in
        let! len := iget (fun w => zlen (wk_out w)) in
        if (total <=? start) || (limit <=? len) then iret total else
        if is_leaf node then
          let! rest := ilift (slice (tn_items node) start (zlen (tn_items node))) in
          do! imodify (fun w => set_wk_out (extend limit rest (wk_out w)) w) in
          iret total
        else
          do! read_range_children geo node lower upper limit
                (fun lba level => read_range_node geo spec limit fuel false lba (Some level))
                start (child_slots node) in
          iret total)
  end.

(** One call per level: a walk never needs more. *)
Definition WALK_FUEL : nat := Z.to_nat (MAX_TREE_LEVEL + 1).

Definition read_range (geo : Geometry) (root_lba : Z) (spec : TreeSpec) (start limit : Z) :
    io D CoreError TreeRangePage := fun d =>
  match check_tree_lba geo root_lba with
  | Ok _ =>
      let '(w, r) := read_range_node geo spec limit WALK_FUEL true root_lba None None None start
                       {| wk_dev := d; wk_path := []; wk_out := [] |} in
      (wk_dev w, let* total_items := r in Ok {| rp_items := wk_out w; rp_total_items := total_items |})
  | Err e => (d, Err e)
  | Panic => (d, Panic)
  end.

Section KeyPageChildren.
Context (geo : Geometry) (node : TreeNode) (lower upper : option bytes) (low : bytes) (limit : Z).
Abbreviation page_walk := (Walk (list (bytes * bytes) * TreeLookupStats)).
Context (read_child : Z -> Z -> option bytes -> option bytes -> io page_walk CoreError Z).

Fixpoint read_key_page_children (slots : list (option TreeItem * option TreeItem)) : io page_walk CoreError unit :=
  match slots with
  | [] => iret tt
  | (sep, next) :: slots =>
      let! len := iget (fun w => zlen (fst (wk_out w))) in
      if limit <=? len then iret tt else
      if match bound next upper with Some b => bytes_leb b low | None => false end then
        read_key_page_children slots else
      let! child := ilift (child_of node sep) in
      do! ilift (check_tree_lba geo (cr_lba child)) in
      let! level := ilift (sub_w (tn_level node) 1) in
      let! actual := read_child (cr_lba child) level (bound sep lower) (bound next upper) in
      if negb (actual =? cr_subtree_items child) then ierr (Corrupt "tree child count") else
      read_key_page_children slots
  end.
End KeyPageChildren.

Definition note_page (w : Walk (list (bytes * bytes) * TreeLookupStats)) : Walk (list (bytes * bytes) * TreeLookupStats) :=
  let '(out, stats) := wk_out w in
  set_wk_out (out, {| ls_pages_read := ls_pages_read stats + 1;
                      ls_peak_page_buffers := Z.max (ls_peak_page_buffers stats) ((zlen (wk_path w) * 2) mod 2 ^ 8) |}) w.

Fixpoint read_key_page_node (geo : Geometry) (spec : TreeSpec) (low : bytes) (limit : Z) (fuel : nat) (lba : Z)
    (expected_level : option Z) (lower upper : option bytes) :
    io (Walk (list (bytes * bytes) * TreeLookupStats)) CoreError Z :=
  match fuel with
  | O => fun w => (w, Panic)
  | S fuel =>
      scoped lba (
        let is_root := match expected_level with None => true | Some _ => false end in
        let! node := on_dev (load_node geo spec lba expected_level lower upper is_root) in
        do! imodify note_page in
        let! len := iget (fun w => zlen (fst (wk_out w))) in
        if limit <=? len then iret (tn_subtree_items node) else
        if is_leaf node then
          let start := partition_point (fun item => bytes_ltb (ti_key item) low) (tn_items node) in
          do! imodify (fun w => set_wk_out
                (extend limit (drop start (tn_items node)) (fst (wk_out w)), snd (wk_out w)) w) in
          iret (tn_subtree_items node)
        else
          do! read_key_page_children geo node lower upper low limit
                (fun lba level => read_key_page_node geo spec low limit fuel lba (Some level))
                (child_slots node) in
          iret (tn_subtree_items node))
  end.

Definition read_key_page (geo : Geometry) (root_lba : Z) (spec : TreeSpec) (low : bytes) (limit : Z) :
    io D CoreError (TreeRangePage * TreeLookupStats) := fun d =>
  if (zlen low =? 0) || (MAX_TREE_KEY_BYTES <? zlen low) then
    (d, Err (Corrupt "tree page key length out of range")) else
  match check_tree_lba geo root_lba with
  | Ok _ =>
      let '(w, r) := read_key_page_node geo spec low limit WALK_FUEL root_lba None None None
        {| wk_dev := d; wk_path := [];
           wk_out := ([], {| ls_pages_read := 0; ls_peak_page_buffers := 0 |}) |} in
      (wk_dev w, let* total_items := r in
                 Ok ({| rp_items := fst (wk_out w); rp_total_items := total_items |}, snd (wk_out w)))
  | Err e => (d, Err e)
  | Panic => (d, Panic)
  end.

(** *** Visits *)

Section Visits.
Context {X : Type}.

Section VisitItems.
Context (low high : bytes) (visitor : bytes -> bytes -> io X CoreError unit).

Fixpoint visit_items (items : list TreeItem) : io X CoreError unit :=
  match items with
  | [] => iret tt
  | item :: items =>
      if bytes_ltb high (ti_key item) then iret tt else
      do! (if bytes_leb low (ti_key item) then visitor (ti_key item) (ti_value item) else iret tt) in
      visit_items items
  end.

Section Children.
Context (geo : Geometry) (node : TreeNode) (lower upper : option bytes).
Context (visit_child : Z -> Z -> option bytes -> option bytes -> io (Walk X) CoreError unit).

Fixpoint visit_key_range_children (slots : list (option TreeItem * option TreeItem)) : io (Walk X) CoreError unit :=
  match slots with
  | [] => iret tt
  | (sep, next) :: slots =>
      let child_lower := bound sep lower in
      let child_upper := bound next upper in
      if match child_upper with Some b => bytes_leb b low | None => false end ||
         match child_lower with Some b => bytes_ltb high b | None => false end then
        visit_key_range_children slots else
      let! child := ilift (child_of node sep) in
      do! ilift (check_tree_lba geo (cr_lba child)) in
      let! level := ilift (sub_w (tn_level node) 1) in
      do! visit_child (cr_lba child) level child_lower child_upper in
      visit_key_range_children slots
  end.
End Children.

Fixpoint visit_key_range_node (geo : Geometry) (spec : TreeSpec) (fuel : nat) (is_root : bool) (lba : Z)
    (expected_level : option Z) (lower upper : option bytes) : io (Walk X) CoreError unit :=
  match fuel with
  | O => fun w => (w, Panic)
  | S fuel =>
      scoped lba (
        let! node := on_dev (load_node geo spec lba expected_level lower upper is_root) in
        if is_leaf node then on_out (visit_items (tn_items node)) else
        visit_key_range_children geo node lower upper
          (fun lba level => visit_key_range_node geo spec fuel false lba (Some level)) (child_slots node))
  end.

(** The visitor's state is threaded beside the device. *)
Definition visit_key_range (geo : Geometry) (root_lba : Z) (spec : TreeSpec) : io (D * X) CoreError unit := fun s =>
  if (zlen low =? 0) || (MAX_TREE_KEY_BYTES <? zlen low) || (MAX_TREE_KEY_BYTES <? zlen high) then
    (s, Err (Corrupt "tree range key length out of range")) else
  match check_tree_lba geo root_lba with
  | Ok _ =>
      let '(w, r) := visit_key_range_node geo spec WALK_FUEL true root_lba None None None
                       {| wk_dev := fst s; wk_path := []; wk_out := snd s |} in
      (wk_dev w, wk_out w, r)
  | Err e => (s, Err e)
  | Panic => (s, Panic)
  end.
End VisitItems.

(** *** The verifier *)

Record CheckedSubtree := {
  cs_items : Z;
  cs_nodes : Z;
  cs_level : Z;
  cs_min_key : option bytes;
  cs_max_key : option bytes;
}.

Record Check := { ck_dev : D; ck_visited : gset Z; ck_out : X }.

Definition set_ck_dev (d : D) (c : Check) : Check :=
  {| ck_dev := d; ck_visited := ck_visited c; ck_out := ck_out c |}.
Definition set_ck_visited (v : gset Z) (c : Check) : Check :=
  {| ck_dev := ck_dev c; ck_visited := v; ck_out := ck_out c |}.
Definition set_ck_out (x : X) (c : Check) : Check :=
  {| ck_dev := ck_dev c; ck_visited := ck_visited c; ck_out := x |}.

Context (geo : Geometry) (spec : TreeSpec) (visitor : Z -> TreeNode -> io X CoreError unit) (retain_visited : bool).

Definition read_checked (lba : Z) (expected_level : option Z) (lower upper : option bytes) (is_root : bool) :
    io D CoreError TreeNode :=
  let! buf := of_block (read_block lba (block_size geo)) in
  let! '(node, generation) :=
    ilift (match TreeNode_decode buf with Ok r => Ok r | Err _ => Err (Corrupt "tree node") | Panic => Panic end) in
  do! ilift (validate_node_identity node generation spec expected_level) in
  do! ilift (validate_node_range node lower upper is_root) in
  iret node.

Record Totals := { to_items : Z; to_nodes : Z; to_min : option bytes; to_max : option bytes }.

Definition add_checked (t : Totals) (checked : CheckedSubtree) : outcome CoreError Totals :=
  let* items := ok_or (checked_add 64 (to_items t) (cs_items checked)) (Corrupt "tree item count overflow") in
  let* nodes := ok_or (checked_add 64 (to_nodes t) (cs_nodes checked)) (Corrupt "tree node count overflow") in
  Ok {| to_items := items; to_nodes := nodes;
        to_min := match to_min t with None => cs_min_key checked | Some k => Some k end;
        to_max := match cs_max_key checked with Some k => Some k | None => to_max t end |}.

Definition check_separator (sep : option TreeItem) (checked : CheckedSubtree) : outcome CoreError unit :=
  match sep with
  | Some item =>
      match cs_min_key checked with
      | Some key => if bytes_eqb key (ti_key item) then Ok tt
                    else Err (Corrupt "tree separator does not equal minimum key of child")
      | None => Err (Corrupt "tree separator does not equal minimum key of child")
      end
  | None => Ok tt
  end.

Section SubtreeChildren.
Context (node : TreeNode) (lower upper : option bytes).
Context (check_child : Z -> Z -> option bytes -> option bytes -> io Check CoreError CheckedSubtree).

Fixpoint validate_children (t : Totals) (slots : list (option TreeItem * option TreeItem)) : io Check CoreError Totals :=
  match slots with
  | [] => iret t
  | (sep, next) :: slots =>
      let! child := ilift (child_of node sep) in
      do! ilift (check_tree_lba geo (cr_lba child)) in
      let! level := ilift (sub_w (tn_level node) 1) in
      let! checked := check_child (cr_lba child) level (bound sep lower) (bound next upper) in
      if negb (cs_items checked =? cr_subtree_items child) then ierr (Corrupt "tree child count") else
      do! ilift (check_separator sep checked) in
      let! t := ilift (add_checked t checked) in
      validate_children t slots
  end.
End SubtreeChildren.

Definition forget (lba : Z) (c : Check) : Check :=
  if retain_visited then c else set_ck_visited (ck_visited c ∖ {[lba]}) c.

Fixpoint validate_subtree (fuel : nat) (is_root : bool) (lba : Z) (expected_level : option Z)
    (lower upper : option bytes) : io Check CoreError CheckedSubtree :=
  match fuel with
  | O => fun c => (c, Panic)
  | S fuel => fun c =>
      if bool_decide (lba ∈ ck_visited c) then (c, Err (Corrupt "tree cycle or duplicate child")) else
      (let! node := izoom ck_dev set_ck_dev (read_checked lba expected_level lower upper is_root) in
       do! izoom ck_out set_ck_out (visitor lba node) in
       if is_leaf node then
         do! imodify (forget lba) in
         iret {| cs_items := tn_subtree_items node; cs_nodes := 1; cs_level := 0;
                 cs_min_key := option_map ti_key (hd_error (tn_items node));
                 cs_max_key := option_map ti_key (last (tn_items node)) |}
       else
         let! t := validate_children node lower upper
                     (fun lba level => validate_subtree fuel false lba (Some level))
                     {| to_items := 0; to_nodes := 1; to_min := None; to_max := None |} (child_slots node) in
         if negb (to_items t =? tn_subtree_items node) then ierr (Corrupt "tree node subtree count") else
         do! imodify (forget lba) in
         iret {| cs_items := to_items t; cs_nodes := to_nodes t; cs_level := tn_level node;
                 cs_min_key := to_min t; cs_max_key := to_max t |})
      (set_ck_visited ({[lba]} ∪ ck_visited c) c)
  end.

(** [visit_tree_nodes] when visited blocks are retained, [visit_tree_nodes_bounded] when not. *)
Definition visit_tree_nodes (root_lba : Z) : io (D * X) CoreError TreeSummary := fun s =>
  match check_tree_lba geo root_lba with
  | Ok _ =>
      let '(c, r) := validate_subtree WALK_FUEL true root_lba None None None
                       {| ck_dev := fst s; ck_visited := ∅; ck_out := snd s |} in
      (ck_dev c, ck_out c,
       let* checked := r in
       let* height := add_w 8 (cs_level checked) 1 in
       if negb retain_visited && negb (bool_decide (ck_visited c = ∅)) then Panic else
       Ok {| su_items := cs_items checked; su_nodes := cs_nodes checked; su_height := height |})
  | Err e => (s, Err e)
  | Panic => (s, Panic)
  end.
End Visits.

(** [validate_tree]: a visit that does nothing at the nodes. *)
Definition validate_tree (geo : Geometry) (root_lba : Z) (spec : TreeSpec) : io D CoreError TreeSummary := fun d =>
  let '(d, _, r) := visit_tree_nodes geo spec (fun _ _ => iret tt) true root_lba (d, tt) in (d, r).
End Code.
