(* ===== verification/TreeSpec.v ===== *)
(** * What the tree readers compute (crates/afsplus-core/src/tree.rs)

    [tree_at] says what list of items a tree on a device holds.  A tree that
    satisfies it is strictly sorted and within its bounds; lookups, range
    reads and visits answer from the list; the verifier accepts only such
    trees; and none of them panics or writes, whatever the device holds. *)

From Stdlib Require Import Sorted.
From S2P Require Import Prelude Crc32c Format Header Codec TreeNode Geometry Checkpoint Object Device Core Tree.

(** ** Keys *)

Lemma bytes_leb_refl a : bytes_leb a a = true.
Proof. unfold bytes_leb. by rewrite bytes_ltb_irrefl. Qed.

Lemma bytes_ltb_leb a b : bytes_ltb a b = true -> bytes_leb a b = true.
Proof.
  intros H. unfold bytes_leb. destruct (bytes_ltb b a) eqn:H'; [|done].
  pose proof (bytes_ltb_trans _ _ _ H H') as H''. by rewrite bytes_ltb_irrefl in H''.
Qed.

Lemma bytes_leb_lt_eq a b : bytes_leb a b = true <-> bytes_ltb a b = true \/ a = b.
Proof.
  split.
  - unfold bytes_leb, bytes_ltb. rewrite (bytes_cmp_antisym a b). destruct (bytes_cmp a b) eqn:Hc; cbn; [|by left|done].
    right. by apply bytes_cmp_eq.
  - intros [?| ->]; [by apply bytes_ltb_leb|apply bytes_leb_refl].
Qed.

Lemma bytes_leb_false a b : bytes_leb a b = false <-> bytes_ltb b a = true.
Proof. unfold bytes_leb. by rewrite negb_false_iff. Qed.

Lemma bytes_ltb_false a b : bytes_ltb a b = false <-> bytes_leb b a = true.
Proof. unfold bytes_leb. by rewrite negb_true_iff. Qed.

Lemma bytes_leb_ltb_trans a b c : bytes_leb a b = true -> bytes_ltb b c = true -> bytes_ltb a c = true.
Proof. intros [H| ->]%bytes_leb_lt_eq; [by apply bytes_ltb_trans|done]. Qed.

Lemma bytes_ltb_leb_trans a b c : bytes_ltb a b = true -> bytes_leb b c = true -> bytes_ltb a c = true.
Proof. intros H [H'| ->]%bytes_leb_lt_eq; [by eapply bytes_ltb_trans|done]. Qed.

Lemma bytes_leb_trans a b c : bytes_leb a b = true -> bytes_leb b c = true -> bytes_leb a c = true.
Proof.
  intros H [H'| ->]%bytes_leb_lt_eq; [|done]. apply bytes_ltb_leb. by eapply bytes_leb_ltb_trans.
Qed.

Lemma ltb_not_eqb a b : bytes_ltb a b = true -> bytes_eqb a b = false /\ bytes_eqb b a = false.
Proof.
  intros H. split; apply not_true_iff_false; intros He%bytes_eqb_eq; subst; by rewrite bytes_ltb_irrefl in H.
Qed.

(** A key within the bounds of a subtree. *)
Definition above (lower : option bytes) (k : bytes) : Prop :=
  match lower with Some l => bytes_leb l k = true | None => True end.
Definition below (upper : option bytes) (k : bytes) : Prop :=
  match upper with Some u => bytes_ltb k u = true | None => True end.
Definition within (lower upper : option bytes) (items : list TreeItem) : Prop :=
  Forall (fun item => above lower (ti_key item) /\ below upper (ti_key item)) items.

Abbreviation sorted := (StronglySorted key_lt).

Lemma sorted_app l k :
  sorted (l ++ k) <-> sorted l /\ sorted k /\ forall x y, x ∈ l -> y ∈ k -> key_lt x y.
Proof.
  induction l as [|a l IH]; cbn.
  - split; [|by intros (_ & ? & _)]. intros H. split; [constructor|]. split; [done|]. by intros x y ?%not_elem_of_nil.
  - split.
    + intros H. apply StronglySorted_inv in H as [H Ha]. apply IH in H as (Hl & Hk & Hlk).
      apply Forall_app in Ha as [Hal Hak]. split; [by constructor|]. split; [done|].
      intros x y [->|Hx]%elem_of_cons Hy; [|by apply Hlk]. rewrite Forall_forall in Hak. by apply Hak.
    + intros (Hl & Hk & Hlk). apply StronglySorted_inv in Hl as [Hl Ha]. constructor.
      * apply IH. split; [done|]. split; [done|]. intros x y Hx Hy. apply Hlk; [by right|done].
      * apply Forall_app. split; [done|]. apply Forall_forall. intros y Hy. apply Hlk; [by left|done].
Qed.

(** ** Valid nodes *)

(** What decoding establishes of a node and its generation. *)
Definition valid_node (node : TreeNode) (g : Z) : Prop := TreeNode_typed node g /\ TreeNode_validate node = Ok tt.

Lemma decode_valid node g block : TreeNode_decode block = Ok (node, g) -> valid_node node g.
Proof.
  intros Hdec. pose proof (TreeNode_decode_inv block) as H. rewrite Hdec in H. destruct H as (? & (_ & ? & _) & _). done.
Qed.

(** What validation establishes. *)
Lemma node_valid node g :
  valid_node node g ->
  0 <= tn_level node <= MAX_TREE_LEVEL /\ sorted (tn_items node) /\
  if is_leaf node then tn_subtree_items node = zlen (tn_items node)
  else tn_items node <> [] /\ tn_leftmost_items node <> 0 /\ u64 (tn_leftmost_items node) /\
       u64 (tn_leftmost_child node) /\
       ofold add_child_items (tn_leftmost_items node) (tn_items node) = Ok (tn_subtree_items node).
Proof.
  intros [(_ & Hl & _ & Hc & Hi & _) Hv]. unfold TreeNode_validate, u8 in *.
  destruct (MAX_TREE_LEVEL <? tn_level node) eqn:Hm; [done|].
  destruct (ofold check_item_lengths tt (tn_items node)) as [[]| |]; [|done..]. cbn [obind] in Hv.
  destruct (check_key_order (tn_items node)) as [[]| |] eqn:Ho; [|done..]. cbn [obind] in Hv.
  apply check_key_order_sorted in Ho. split; [lia|]. split; [done|].
  destruct (is_leaf node).
  - destruct (_ || _ || _) eqn:Hb; [done|]. lia.
  - destruct (_ || _ || _) eqn:Hb; [done|].
    destruct (ofold add_child_items _ _) as [n| |]; [|done..]. cbn [obind] in Hv.
    destruct (negb _) eqn:He; [done|]. apply orb_false_iff in Hb as [[? ?]%orb_false_iff Hz].
    split; [intros Hn; by rewrite Hn in Hz|]. split; [lia|]. split; [done|]. split; [done|]. f_equal. lia.
Qed.

Lemma sum_children items n total :
  0 <= n -> ofold add_child_items n items = Ok total ->
  exists refs, Forall2 (fun item r => child_ref item = Ok r /\ u64 (cr_lba r) /\ 0 < cr_subtree_items r) items refs /\
    total = n + foldr (fun r s => cr_subtree_items r + s) 0 refs.
Proof.
  revert n. induction items as [|item items IH]; intros n Hn; cbn [ofold].
  - intros [= <-]. exists []. split; [constructor|]. cbn. lia.
  - unfold add_child_items at 1.
    pose proof (wp_child_ref item (fun c => u64 (cr_lba c) /\ u64 (cr_subtree_items c) /\ cr_subtree_items c <> 0) any_error) as H.
    destruct (child_ref item) as [r| |] eqn:Hr; [|done..]. cbn [obind].
    destruct H as (Hu & Hs & Hz); [auto|done|]. unfold checked_add.
    destruct (_ <? _) eqn:Hlt; [|done]. cbn [ok_or obind]. unfold u64 in *.
    intros (refs & HF & ->)%IH; [|lia]. exists (r :: refs). cbn [foldr]. split; [|lia]. constructor; [|done].
    split; [done|]. split; [done|]. lia.
Qed.

Definition count_children (refs : list ChildRef) : Z := foldr (fun r s => cr_subtree_items r + s) 0 refs.

(** The child of a slot. *)
Definition child_in (node : TreeNode) (slot : option TreeItem * option TreeItem) (r : ChildRef) : Prop :=
  child_of node (fst slot) = Ok r /\ u64 (cr_lba r) /\ 0 < cr_subtree_items r.

(** Every slot of a validated branch has a child, and their counts add up. *)
Lemma node_children node g :
  valid_node node g -> is_leaf node = false ->
  exists refs, Forall2 (child_in node) (child_slots node) refs /\
    tn_subtree_items node = count_children refs.
Proof.
  intros Hdec Hb. destruct (node_valid _ _ Hdec) as (_ & _ & Hv). rewrite Hb in Hv.
  destruct Hv as (Hne & Hz & Hu & Hc & Hsum). apply sum_children in Hsum as (refs & HF & Ht); [|unfold u64 in *; lia].
  exists ({| cr_lba := tn_leftmost_child node; cr_subtree_items := tn_leftmost_items node |} :: refs).
  split; [|done]. unfold child_slots.
  assert (forall sep r0 items, child_of node sep = Ok r0 -> u64 (cr_lba r0) -> 0 < cr_subtree_items r0 ->
    Forall2 (fun item r => child_ref item = Ok r /\ u64 (cr_lba r) /\ 0 < cr_subtree_items r) items refs ->
    Forall2 (child_in node) (slots_from sep items) (r0 :: refs)) as Hslots.
  { clear. induction refs as [|r refs IH]; intros sep r0 items H0 Hu Hp HF.
    - apply Forall2_nil_inv_r in HF as ->. constructor; [done|constructor].
    - apply Forall2_cons_inv_r in HF as (item & items' & (Hr & ? & ?) & HF & ->). constructor; [done|]. apply IH; [|done..]. cbn [child_of]. by rewrite Hr. }
  apply Hslots; [done|done| |done]. cbn. unfold u64 in *. lia.
Qed.

(** What the range check establishes of a sorted node. *)
Lemma node_range_within node lower upper is_root :
  validate_node_range node lower upper is_root = Ok tt -> sorted (tn_items node) ->
  within lower upper (tn_items node) /\ (is_root = false -> tn_items node <> []) /\
  (is_leaf node = true -> forall l first, lower = Some l -> hd_error (tn_items node) = Some first -> ti_key first = l).
Proof.
  unfold validate_node_range. intros H Hs.
  destruct (negb is_root && (zlen (tn_items node) =? 0)) eqn:He; [done|].
  destruct (match lower with Some _ => _ | None => _ end) as [[]| |] eqn:Hlo; [|done..]. cbn [obind] in H.
  split; [apply Forall_and; split|split].
  - apply Forall_forall. intros x Hx. destruct lower as [l|]; [|done]. cbn.
    destruct (tn_items node) as [|first items]; [by apply not_elem_of_nil in Hx|]. cbn in Hlo.
    destruct (bytes_ltb (ti_key first) l) eqn:Hl; [done|]. apply bytes_ltb_false in Hl.
    apply elem_of_cons in Hx as [->|Hx]; [done|]. apply StronglySorted_inv in Hs as [_ Hf].
    rewrite Forall_forall in Hf. eapply bytes_leb_trans; [done|]. by apply bytes_ltb_leb, Hf.
  - apply Forall_forall. intros x Hx. destruct upper as [u|]; [|done]. cbn.
    destruct (tn_items node) as [|final items _] using rev_ind; [by apply not_elem_of_nil in Hx|].
    rewrite last_snoc in H. destruct (bytes_leb u (ti_key final)) eqn:Hu; [done|]. apply bytes_leb_false in Hu.
    apply elem_of_app in Hx as [Hx|Hx%list_elem_of_singleton]; [|by subst].
    apply sorted_app in Hs as (_ & _ & Hf). eapply bytes_ltb_trans; [|done]. apply Hf; [done|by left].
  - intros -> Hn. by rewrite Hn in He.
  - intros Hleaf l first -> Hf. rewrite Hf, Hleaf in Hlo. destruct (bytes_ltb _ _); [done|].
    destruct (bytes_eqb (ti_key first) l) eqn:Hn; [|done]. by apply bytes_eqb_eq in Hn.
Qed.

(** ** Trees *)

(** Where the nodes of a tree come from: the node of a block with its generation. *)
Class ValidNodes (nd : Z -> result (TreeNode * Z)) : Prop :=
  nodes_valid lba node g : nd lba = Ok (node, g) -> valid_node node g.

(** The nodes a device's blocks decode to. *)
Definition decoded (v : Z -> bytes) (lba : Z) : result (TreeNode * Z) := TreeNode_decode (v lba).

#[export] Instance decoded_nodes v : ValidNodes (decoded v).
Proof. intros lba node g. apply decode_valid. Qed.

Section Trees.
Context (geo : Geometry) (spec : TreeSpec) (nd : Z -> result (TreeNode * Z)) {valid : ValidNodes nd}.

(** Block [lba] holds a node that belongs to the tree and fits the bounds. *)
Definition node_at (lba : Z) (level : option Z) (lower upper : option bytes) (is_root : bool) (node : TreeNode) : Prop :=
  exists g, nd lba = Ok (node, g) /\ validate_node_identity node g spec level = Ok tt /\
    validate_node_range node lower upper is_root = Ok tt.

(** [tree_at n lower upper is_root lba items nodes]: block [lba] is the root of
    a tree of height [n + 1] that holds [items] and consists of [nodes], in preorder. *)
Inductive tree_at : nat -> option bytes -> option bytes -> bool -> Z -> list TreeItem -> list (Z * TreeNode) -> Prop :=
| leaf_at lower upper is_root lba node :
    node_at lba None lower upper is_root node -> tn_level node = 0 ->
    tree_at 0 lower upper is_root lba (tn_items node) [(lba, node)]
| branch_at n lower upper is_root lba node items nodes :
    node_at lba None lower upper is_root node -> tn_level node = Z.of_nat (S n) ->
    children_at n node lower upper (child_slots node) items nodes ->
    tree_at (S n) lower upper is_root lba items ((lba, node) :: nodes)
with children_at : nat -> TreeNode -> option bytes -> option bytes -> list (option TreeItem * option TreeItem) ->
    list TreeItem -> list (Z * TreeNode) -> Prop :=
| no_children n node lower upper : children_at n node lower upper [] [] []
| more_children n node lower upper sep next slots child items nodes items' nodes' :
    child_of node sep = Ok child -> check_tree_lba geo (cr_lba child) = Ok tt ->
    tree_at n (bound sep lower) (bound next upper) false (cr_lba child) items nodes ->
    zlen items = cr_subtree_items child ->
    children_at n node lower upper slots items' nodes' ->
    children_at n node lower upper ((sep, next) :: slots) (items ++ items') (nodes ++ nodes').

Scheme tree_at_rec := Minimality for tree_at Sort Prop
  with children_at_rec := Minimality for children_at Sort Prop.
Combined Scheme tree_at_mutual from tree_at_rec, children_at_rec.

(** A tree under its root pointer. *)
Definition tree_of (root_lba : Z) (items : list TreeItem) (nodes : list (Z * TreeNode)) : Prop :=
  check_tree_lba geo root_lba = Ok tt /\ exists n, tree_at n None None true root_lba items nodes.

Lemma tree_root n lower upper is_root lba items nodes :
  tree_at n lower upper is_root lba items nodes ->
  exists node, node_at lba None lower upper is_root node /\ tn_level node = Z.of_nat n /\ hd_error nodes = Some (lba, node).
Proof. intros [?????? Hl|????????? Hl]; eauto. Qed.

(** The smallest key of a bounded subtree is its lower bound. *)
Definition starts_at (lower : option bytes) (items : list TreeItem) : Prop :=
  forall l first, lower = Some l -> hd_error items = Some first -> ti_key first = l.

Definition tree_facts (lower upper : option bytes) (is_root : bool) (items : list TreeItem)
    (nodes : list (Z * TreeNode)) : Prop :=
  sorted items /\ within lower upper items /\ (is_root = false -> items <> []) /\ starts_at lower items /\
  exists lba node, hd_error nodes = Some (lba, node) /\ tn_subtree_items node = zlen items.

Definition children_facts (node : TreeNode) (lower upper : option bytes)
    (slots : list (option TreeItem * option TreeItem)) (items : list TreeItem) : Prop :=
  (forall refs, Forall2 (child_in node) slots refs -> zlen items = count_children refs) /\
  forall sep seps, slots = slots_from sep seps -> sorted seps -> within (bound sep lower) upper seps ->
    (forall x y, sep = Some x -> y ∈ seps -> key_lt x y) ->
    sorted items /\ within (bound sep lower) upper items /\ items <> [] /\ starts_at (bound sep lower) items.

Lemma starts_at_app lower a b : a <> [] -> starts_at lower a -> starts_at lower (a ++ b).
Proof. intros Ha H l first Hl. destruct a; [done|]. by apply H. Qed.

Lemma within_upper lower u upper items :
  below upper u -> within lower (Some u) items -> within lower upper items.
Proof.
  intros Hu H. eapply Forall_impl; [exact H|]. cbn. intros x [? Hx]. split; [done|]. destruct upper; [|done].
  by eapply bytes_ltb_trans.
Qed.

Lemma within_lower l lower upper items :
  above lower l -> within (Some l) upper items -> within lower upper items.
Proof.
  intros Hl H. eapply Forall_impl; [exact H|]. cbn. intros x [Hx ?]. split; [|done]. destruct lower; [|done].
  by eapply bytes_leb_trans.
Qed.

(** Two neighbouring subtrees. *)
Lemma join_children lower upper k a b :
  above lower k -> below upper k -> within lower (Some k) a -> within (Some k) upper b ->
  sorted a -> sorted b -> sorted (a ++ b) /\ within lower upper (a ++ b).
Proof.
  intros Hl Hu Ha Hb Hsa Hsb. split.
  - apply sorted_app. split; [done|]. split; [done|]. intros x y Hx Hy. unfold within in *.
    rewrite Forall_forall in Ha. rewrite Forall_forall in Hb. destruct (Ha x Hx) as [_ Hxk]. destruct (Hb y Hy) as [Hky _].
    by eapply bytes_ltb_leb_trans.
  - apply Forall_app. split; [by eapply within_upper|by eapply within_lower].
Qed.

Lemma tree_at_facts :
  (forall n lower upper is_root lba items nodes, tree_at n lower upper is_root lba items nodes ->
    tree_facts lower upper is_root items nodes) /\
  (forall n node lower upper slots items nodes, children_at n node lower upper slots items nodes ->
    children_facts node lower upper slots items).
Proof.
  apply tree_at_mutual.
  - intros lower upper is_root lba node (g & Hd & _ & Hr) Hl.
    destruct (node_valid _ _ (nodes_valid _ _ _ Hd)) as (_ & Hs & Hc). assert (is_leaf node = true) as Hleaf by (unfold is_leaf; lia).
    rewrite Hleaf in Hc. destruct (node_range_within _ _ _ _ Hr Hs) as (? & ? & Hm).
    split; [done|]. split; [done|]. split; [done|]. split; [exact (Hm Hleaf)|by exists lba, node].
  - intros n lower upper is_root lba node items nodes (g & Hd & _ & Hr) Hl _ [Hcount Hch].
    destruct (node_valid _ _ (nodes_valid _ _ _ Hd)) as (_ & Hs & _). assert (is_leaf node = false) as Hleaf by (unfold is_leaf; lia).
    destruct (node_range_within _ _ _ _ Hr Hs) as (Hw & _ & _).
    destruct (Hch None (tn_items node) eq_refl Hs Hw) as (? & ? & ? & ?); [done|].
    destruct (node_children _ _ (nodes_valid _ _ _ Hd) Hleaf) as (refs & HF & Ht).
    split; [done|]. split; [done|]. split; [done|]. split; [done|]. exists lba, node. split; [done|].
    rewrite Ht. symmetry. by apply Hcount.
  - intros n node lower upper. split.
    + intros refs ->%Forall2_nil_inv_l. done.
    + intros sep [|]; done.
  - intros n node lower upper sep next slots child items nodes items' nodes' Hc _ _ Hfacts Hcount _ [Hcount' Hch].
    destruct Hfacts as (Hs & Hw & Hne & Hst & _). specialize (Hne eq_refl). split.
    + intros refs (r & refs' & (Hr & _) & HF & ->)%Forall2_cons_inv_l. cbn in Hr. rewrite zlen_app, (Hcount' _ HF).
      unfold count_children. cbn [foldr]. rewrite Hc in Hr. apply Ok_inj in Hr as <-. lia.
    + intros s [|y seps] Heq Hss Hws Hlt; cbn [slots_from] in Heq; injection Heq as -> -> ->.
      { assert (items' = []) as ->.
        { apply zlen_zero_nil. by rewrite (Hcount' [] ltac:(constructor)). }
        by rewrite app_nil_r. }
      cbn [bound] in *. apply StronglySorted_inv in Hss as [Hss Hy].
      apply Forall_cons in Hws as [[Hya Hyb] Hws].
      destruct (Hch (Some y) seps eq_refl Hss) as (Hs' & Hw' & Hne' & Hst').
      { unfold within in *. apply Forall_forall. intros x Hx. rewrite Forall_forall in Hy, Hws.
        split; [|by apply Hws]. cbn. by apply bytes_ltb_leb, Hy. }
      { intros ? z [= <-] Hz. rewrite Forall_forall in Hy. by apply Hy. }
      destruct (join_children _ _ _ _ _ Hya Hyb Hw Hw' Hs Hs'). split; [done|]. split; [done|].
      split; [by destruct items|by apply starts_at_app].
Qed.

(** A node of a subtree: decoded from its block, within the bounds, not above the root. *)
Definition member (n : nat) (lower upper : option bytes) (is_root : bool) (p : Z * TreeNode) : Prop :=
  (exists g, nd (fst p) = Ok (snd p, g)) /\ within lower upper (tn_items (snd p)) /\
  tn_level (snd p) <= Z.of_nat n /\ (is_root = false -> tn_items (snd p) <> []).

Definition no_shared (nodes : list (Z * TreeNode)) : Prop := NoDup nodes.*1.

Lemma member_up n lower u upper p : below upper u -> member n lower (Some u) false p -> member n lower upper false p.
Proof. intros Hu (? & Hw & ? & ?). split; [done|]. split; [by eapply within_upper|done]. Qed.

Lemma member_low n l lower upper p : above lower l -> member n (Some l) upper false p -> member n lower upper false p.
Proof. intros Hl (? & Hw & ? & ?). split; [done|]. split; [by eapply within_lower|done]. Qed.

(** No block is in two neighbouring subtrees. *)
Lemma members_apart n lower upper k a b :
  Forall (member n lower (Some k) false) a -> Forall (member n (Some k) upper false) b ->
  no_shared a -> no_shared b -> no_shared (a ++ b).
Proof.
  intros Ha Hb Hna Hnb. unfold no_shared. rewrite fmap_app. apply NoDup_app. split; [done|]. split; [|done].
  intros x ([x1 n1] & -> & Hx)%list_elem_of_fmap ([x2 n2] & Heq & Hy)%list_elem_of_fmap. cbn in Heq. subst x2.
  rewrite Forall_forall in Ha. rewrite Forall_forall in Hb.
  destruct (Ha _ Hx) as ((g & Hd) & Hw & _ & Hne). destruct (Hb _ Hy) as ((g' & Hd') & Hw' & _ & _).
  cbn in *. rewrite Hd in Hd'. injection Hd' as <- <-. unfold within in *.
  destruct (tn_items n1) as [|i rest]; [by apply Hne|]. apply Forall_cons in Hw as [[_ Hu] _].
  apply Forall_cons in Hw' as [[Hl _] _]. cbn in *. apply bytes_ltb_false in Hl. congruence.
Qed.

Lemma tree_at_nodes :
  (forall n lower upper is_root lba items nodes, tree_at n lower upper is_root lba items nodes ->
    Forall (member n lower upper is_root) nodes /\ no_shared nodes) /\
  (forall n node lower upper slots items nodes, children_at n node lower upper slots items nodes ->
    forall sep seps, slots = slots_from sep seps -> sorted seps -> within (bound sep lower) upper seps ->
    Forall (member n (bound sep lower) upper false) nodes /\ no_shared nodes).
Proof.
  apply tree_at_mutual.
  - intros lower upper is_root lba node (g & Hd & _ & Hr) Hl. destruct (node_valid _ _ (nodes_valid _ _ _ Hd)) as (_ & Hs & _).
    destruct (node_range_within _ _ _ _ Hr Hs) as (? & ? & _). split; [|apply NoDup_singleton].
    constructor; [|constructor]. split; [by exists g|]. split; [done|]. split; [cbn; lia|done].
  - intros n lower upper is_root lba node items nodes (g & Hd & _ & Hr) Hl _ Hch.
    destruct (node_valid _ _ (nodes_valid _ _ _ Hd)) as (_ & Hs & _). destruct (node_range_within _ _ _ _ Hr Hs) as (Hw & Hne & _).
    destruct (Hch None (tn_items node) eq_refl Hs Hw) as [HF HN]. split.
    + constructor; [split; [by exists g|]; split; [done|]; split; [cbn; lia|done]|].
      eapply Forall_impl; [exact HF|]. intros p (? & ? & ? & Hnp). split; [done|]. split; [done|]. split; [lia|].
      intros _. by apply Hnp.
    + unfold no_shared. cbn. apply NoDup_cons. split; [|done].
      intros ([x n1] & Heq & Hx)%list_elem_of_fmap. cbn in Heq. subst x.
      rewrite Forall_forall in HF. destruct (HF _ Hx) as ((g' & Hd') & _ & Hlv & _). cbn in *.
      rewrite Hd in Hd'. injection Hd' as <- <-. lia.
  - intros n node lower upper sep seps _ _ _. split; [constructor|apply NoDup_nil_2].
  - intros n node lower upper sep next slots child items nodes items' nodes' _ _ Ht [HF HN] _ Hcs Hch s [|y seps] Heq Hss Hws;
      cbn [slots_from] in Heq; injection Heq as -> -> ->; cbn [bound] in *.
    { inversion Hcs; subst. by rewrite app_nil_r. }
    apply StronglySorted_inv in Hss as [Hss Hy]. apply Forall_cons in Hws as [[Hya Hyb] Hws].
    destruct (Hch (Some y) seps eq_refl Hss) as [HF' HN'].
    { unfold within in *. apply Forall_forall. intros x Hx. rewrite Forall_forall in Hy, Hws.
      split; [|by apply Hws]. cbn. by apply bytes_ltb_leb, Hy. }
    split; [|by eapply members_apart]. apply Forall_app. split.
    + eapply Forall_impl; [exact HF|]. intros p. by apply member_up.
    + eapply Forall_impl; [exact HF'|]. intros p. by apply member_low.
Qed.

Lemma node_at_fun lba lower upper is_root node lower' upper' is_root' node' :
  node_at lba None lower upper is_root node -> node_at lba None lower' upper' is_root' node' -> node = node'.
Proof. intros (g & H & _) (g' & H' & _). congruence. Qed.

(** The content of the blocks determines the tree. *)
Lemma tree_at_unique :
  (forall n lower upper is_root lba items nodes, tree_at n lower upper is_root lba items nodes ->
    forall n' items' nodes', tree_at n' lower upper is_root lba items' nodes' -> n' = n /\ items' = items /\ nodes' = nodes) /\
  (forall n node lower upper slots items nodes, children_at n node lower upper slots items nodes ->
    forall items' nodes', children_at n node lower upper slots items' nodes' -> items' = items /\ nodes' = nodes).
Proof.
  apply tree_at_mutual.
  - intros lower upper is_root lba node Hn Hl n' items' nodes' H. inversion H as [? ? ? ? node' Hn'|? ? ? ? ? node' ? ? Hn' Hl']; subst;
      rewrite (node_at_fun _ _ _ _ _ _ _ _ _ Hn Hn') in *; [done|lia].
  - intros n lower upper is_root lba node items nodes Hn Hl _ IH n' items' nodes' H.
    inversion H as [? ? ? ? node' Hn' Hl'|m ? ? ? ? node' ? below Hn' Hl' Hch]; subst;
      rewrite (node_at_fun _ _ _ _ _ _ _ _ _ Hn Hn') in *; [lia|].
    assert (m = n) as -> by lia. by destruct (IH _ _ Hch) as [-> ->].
  - intros n node lower upper items' nodes' H. by inversion H.
  - intros n node lower upper sep next slots child items nodes items' nodes' Hc _ _ IHt _ _ IHc items2 nodes2 H.
    inversion H as [|? ? ? ? ? ? ? child' xs xn ys yn Hc' _ Ht _ Hrest]; subst. rewrite Hc in Hc'. apply Ok_inj in Hc' as <-.
    destruct (IHt _ _ _ Ht) as (_ & -> & ->). by destruct (IHc _ _ Hrest) as [-> ->].
Qed.

Context {WF : WfGeometry geo}.

Definition in_volume (p : Z * TreeNode) : Prop := 0 <= fst p < total_blocks geo.

Lemma check_in_volume lba node : 0 <= lba -> check_tree_lba geo lba = Ok tt -> in_volume (lba, node).
Proof.
  unfold check_tree_lba, in_volume. intros H0. rewrite is_allocatable_eq by done. cbn. unfold allocatable.
  destruct (lba <? total_blocks geo) eqn:Hl; [lia|done].
Qed.

Lemma tree_at_volume :
  (forall n lower upper is_root lba items nodes, tree_at n lower upper is_root lba items nodes ->
    0 <= lba -> check_tree_lba geo lba = Ok tt -> Forall in_volume nodes) /\
  (forall n node lower upper slots items nodes, children_at n node lower upper slots items nodes ->
    forall refs, Forall2 (child_in node) slots refs -> Forall in_volume nodes).
Proof.
  apply tree_at_mutual.
  - intros lower upper is_root lba node _ _ ??. constructor; [by apply check_in_volume|constructor].
  - intros n lower upper is_root lba node items nodes (g & Hd & _) Hl _ IH ??. constructor; [by apply check_in_volume|].
    destruct (node_children _ _ (nodes_valid _ _ _ Hd)) as (refs & HF & _); [unfold is_leaf; lia|]. by eapply IH.
  - constructor.
  - intros n node lower upper sep next slots child items nodes items' nodes' Hc Hg _ IHt _ _ IHc refs.
    intros (r & refs' & (Hr & Hu & _) & HF & ->)%Forall2_cons_inv_l. cbn in Hr. rewrite Hc in Hr. apply Ok_inj in Hr as <-.
    apply Forall_app. split; [|by eapply IHc]. apply IHt; [apply Hu|done].
Qed.

(** A tree has no more nodes than the volume has blocks. *)
Lemma tree_nodes_bounded root items nodes : 0 <= root -> tree_of root items nodes -> zlen nodes <= total_blocks geo.
Proof.
  intros H0 [Hg [n Ht]]. destruct (proj1 tree_at_nodes _ _ _ _ _ _ _ Ht) as [_ Hnd].
  pose proof (proj1 tree_at_volume _ _ _ _ _ _ _ Ht H0 Hg) as Hv.
  replace (zlen nodes) with (Z.of_nat (length nodes.*1)) by (unfold zlen; by rewrite length_fmap).
  assert (length nodes.*1 <= length (seqZ 0 (total_blocks geo)))%nat as H.
  { apply submseteq_length, NoDup_submseteq; [done|]. intros x (p & -> & Hp)%list_elem_of_fmap.
    rewrite Forall_forall in Hv. apply elem_of_seqZ. specialize (Hv p Hp). unfold in_volume in Hv. lia. }
  rewrite length_seqZ in H. pose proof (wf_total (g := geo)). lia.
Qed.
End Trees.
