(* ===== verification/TreeReaders.v ===== *)
(** * The tree readers answer from the tree (crates/afsplus-core/src/tree.rs)

    For every device that keeps the block contract: lookups, floors, range
    reads, key pages and visits return, never panic and write nothing,
    whatever the blocks hold; on a tree they answer from the list of its
    items, and can fail only when the device fails. *)

From Stdlib Require Import Sorted.
From S2P Require Import Prelude Crc32c Format Header Codec TreeNode Geometry Checkpoint Object Device Cache Core Tree TreeSpec.

(** What the core attaches to a block is what the block decodes to. *)
Definition core_decodes (x : Decoded) (block : bytes) : Prop :=
  match x with
  | KeptNode node g => TreeNode_decode block = Ok (node, g)
  | KeptRecord record g => decode_metadata_with_generation block = Ok (record, g)
  end.

(** The only errors a reader of a sound tree passes on. *)
Definition only_io (e : CoreError) : Prop := exists b, e = CBlock b.

(** ** Visits that stop *)

Section Stops.
Context {X A : Type} (f : A -> io X CoreError unit).

Lemma ieach_app a b x : ieach f (a ++ b) x = (do! ieach f a in ieach f b) x.
Proof.
  revert x. induction a as [|i a IH]; intros x; [done|]. cbn. unfold ibind in *.
  destruct (f i x) as [x' [[]|e|]]; [|done|done]. by rewrite IH.
Qed.

Lemma ieach_then a b x x1 : ieach f a x = (x1, Ok tt) -> ieach f (a ++ b) x = ieach f b x1.
Proof. intros H. rewrite ieach_app. unfold ibind. by rewrite H. Qed.

Lemma ieach_returns l x : (forall i s, snd (f i s) <> Panic) -> snd (ieach f l x) <> Panic.
Proof.
  intros Hf. revert x. induction l as [|i l IH]; intros x; [done|]. cbn. unfold ibind.
  pose proof (Hf i x). destruct (f i x) as [x' [[]|e|]]; [apply IH|done|done].
Qed.

(** What a failed walk left: the visitor's own error, or a device error after a prefix. *)
Definition stopped (l : list A) (x : X) (e : CoreError) (x' : X) : Prop :=
  ieach f l x = (x', Err e) \/ only_io e /\ exists seen rest, l = seen ++ rest /\ ieach f seen x = (x', Ok tt).

Lemma stopped_first a b x e x' : stopped a x e x' -> stopped (a ++ b) x e x'.
Proof.
  intros [H|(? & seen & rest & -> & ?)].
  - left. rewrite ieach_app. unfold ibind. by rewrite H.
  - right. split; [done|]. exists seen, (rest ++ b). by rewrite app_assoc.
Qed.

Lemma stopped_second a b x x1 e x' : ieach f a x = (x1, Ok tt) -> stopped b x1 e x' -> stopped (a ++ b) x e x'.
Proof.
  intros Ha [H|(? & seen & rest & -> & Hs)].
  - left. by rewrite (ieach_then _ _ _ _ Ha).
  - right. split; [done|]. exists (a ++ seen), rest. by rewrite (ieach_then _ _ _ _ Ha), app_assoc.
Qed.

Lemma stopped_start l x e : only_io e -> stopped l x e x.
Proof. intros He. right. split; [done|]. by exists [], l. Qed.
End Stops.

(** ** Routing *)

Lemma partition_point_le {A} (p : A -> bool) l : (partition_point p l <= length l)%nat.
Proof. induction l as [|x l IH]; cbn; [done|]. destruct (p x); lia. Qed.

Lemma slots_lookup sep items i :
  (i <= length items)%nat ->
  slots_from sep items !! i = Some (match i with O => sep | S j => items !! j end, items !! i).
Proof.
  revert sep i. induction items as [|x items IH]; intros sep [|i] Hi; cbn in *; [done|lia|done|].
  rewrite IH by lia. by destruct i.
Qed.

(** The slot a key is routed to. *)
Definition routed (node : TreeNode) (key : bytes) : option (option TreeItem * option TreeItem) :=
  child_slots node !! partition_point (fun item => bytes_leb (ti_key item) key) (tn_items node).

Lemma route_eq node key lower upper :
  tn_items node <> [] ->
  exists sep next, routed node key = Some (sep, next) /\
    route node key lower upper = (let* child := child_of node sep in Ok (child, bound sep lower, bound next upper)).
Proof.
  intros Hne. unfold routed, route. set (p := fun item => bytes_leb (ti_key item) key).
  pose proof (partition_point_le p (tn_items node)) as Hle. unfold child_slots. rewrite slots_lookup by done.
  destruct (partition_point p (tn_items node)) as [|i].
  - exists None, (tn_items node !! 0%nat). split; [done|]. by destruct (tn_items node).
  - destruct (lookup_lt_is_Some_2 (tn_items node) i) as [x ->]; [lia|]. by exists (Some x), (tn_items node !! S i).
Qed.

Lemma routed_child node g key :
  valid_node node g -> is_leaf node = false ->
  exists sep next child, routed node key = Some (sep, next) /\ child_of node sep = Ok child /\
    u64 (cr_lba child) /\ 0 < cr_subtree_items child /\ tn_items node <> [].
Proof.
  intros Hd Hb. destruct (node_valid _ _ Hd) as (_ & _ & Hv). rewrite Hb in Hv. destruct Hv as (Hne & _).
  destruct (route_eq node key None None Hne) as (sep & next & Hr & _).
  destruct (node_children _ _ Hd Hb) as (refs & HF & _).
  destruct (Forall2_lookup_l _ _ _ _ _ HF Hr) as (child & _ & Hc & ? & ?). by exists sep, next, child.
Qed.

Section Routes.
Context (geo : Geometry) (spec : TreeSpec) (nd : Z -> result (TreeNode * Z)) {valid : ValidNodes nd} (key : bytes).

(** The routed child holds every item near the key: the items of the children
    before it end below its first item, the children after it start above the key. *)
Lemma children_route n node lower upper seps sep items nodes :
  children_at geo spec nd n node lower upper (slots_from sep seps) items nodes ->
  sorted seps -> within (bound sep lower) upper seps -> (forall x y, sep = Some x -> y ∈ seps -> key_lt x y) ->
  exists sep' next child a b c bn,
    slots_from sep seps !! partition_point (fun item => bytes_leb (ti_key item) key) seps = Some (sep', next) /\
    child_of node sep' = Ok child /\ check_tree_lba geo (cr_lba child) = Ok tt /\
    tree_at geo spec nd n (bound sep' lower) (bound next upper) false (cr_lba child) b bn /\
    zlen b = cr_subtree_items child /\ items = a ++ b ++ c /\
    (a = [] /\ sep' = sep \/ exists x, sep' = Some x /\ bytes_leb (ti_key x) key = true) /\
    (forall x, x ∈ c -> bytes_ltb key (ti_key x) = true).
Proof.
  revert sep items nodes. induction seps as [|y seps IH]; intros sep items nodes Hch Hs Hw Hlt; cbn [slots_from] in *;
    inversion Hch as [|? ? ? ? ? ? ? child xs xn ys yn Hc Hg Ht Hz Hrest]; subst.
  - inversion Hrest; subst. exists sep, None, child, [], xs, [], xn. rewrite app_nil_r. cbn.
    repeat (split; [done|]). split; [by left|]. by intros x ?%not_elem_of_nil.
  - apply StronglySorted_inv in Hs as [Hs Hy]. apply Forall_cons in Hw as [[Hya Hyb] Hw].
    assert (within (bound (Some y) lower) upper seps) as Hw'.
    { unfold within in *. apply Forall_forall. intros x Hx. rewrite Forall_forall in Hy, Hw.
      split; [|by apply Hw]. cbn. by apply bytes_ltb_leb, Hy. }
    assert (forall x z, Some y = Some x -> z ∈ seps -> key_lt x z) as Hlt'.
    { intros ? z [= <-] Hz'. rewrite Forall_forall in Hy. by apply Hy. }
    cbn [partition_point]. destruct (bytes_leb (ti_key y) key) eqn:Hyk.
    + destruct (IH (Some y) ys yn Hrest Hs Hw' Hlt') as (sep' & next & child' & a & b & c & bn & Hi & Hc' & Hg' & Ht' & Hz' & -> & Ha & Hcs).
      exists sep', next, child', (xs ++ a), b, c, bn. cbn.
      do 5 (split; [done|]). split; [by rewrite app_assoc|]. split; [|done].
      destruct Ha as [[-> ->]|?]; [right; by exists y|by right].
    + exists sep, (Some y), child, [], xs, ys, xn. cbn. do 6 (split; [done|]). split; [by left|].
      destruct (proj2 (tree_at_facts geo spec nd) _ _ _ _ _ _ _ Hrest) as [_ Hf].
      destruct (Hf (Some y) seps eq_refl Hs Hw' Hlt') as (_ & Hin & _). intros x Hx. unfold within in Hin.
      rewrite Forall_forall in Hin. destruct (Hin x Hx) as [Hxl _]. cbn in Hxl.
      apply bytes_leb_false in Hyk. by eapply bytes_ltb_leb_trans.
Qed.
End Routes.

Lemma identity_level node g spec level :
  validate_node_identity node g spec level = Ok tt <->
  validate_node_identity node g spec None = Ok tt /\ (forall l, level = Some l -> tn_level node = l).
Proof.
  unfold validate_node_identity. destruct (_ || _); [split; [done|by intros [? _]]|].
  destruct (_ || _); [split; [done|by intros [? _]]|].
  destruct level as [l|]; cbn; [|split; [done|by intros [? _]]]. destruct (l =? tn_level node) eqn:Hl; cbn.
  - split; [|done]. split; [done|]. intros ? [= <-]. lia.
  - split; [done|]. intros [_ H]. specialize (H l eq_refl). lia.
Qed.

Lemma validate_range_total node lower upper is_root : validate_node_range node lower upper is_root <> Panic.
Proof.
  unfold validate_node_range. destruct (_ && _); [done|].
  destruct (match lower with Some _ => _ | None => _ end) as [[]| |] eqn:Hlo; cbn [obind]; [|done|].
  - by repeat case_match.
  - by repeat case_match.
Qed.

Lemma node_at_level spec nd lba level lower upper is_root node :
  node_at spec nd lba level lower upper is_root node <->
  node_at spec nd lba None lower upper is_root node /\ (forall l, level = Some l -> tn_level node = l).
Proof.
  unfold node_at. split.
  - intros (g & ? & [? ?]%identity_level & ?). split; [by exists g|done].
  - intros [(g & ? & ? & ?) ?]. exists g. split; [done|]. split; [by apply identity_level|done].
Qed.

Lemma node_at_inj spec nd lba level level' lower upper is_root node lower' upper' is_root' node' :
  node_at spec nd lba level lower upper is_root node -> node_at spec nd lba level' lower' upper' is_root' node' ->
  node = node'.
Proof. intros (g & H & _) (g' & H' & _). congruence. Qed.

(** The first child of a slot list, and the others. *)
Lemma child_inv geo spec nd n node lower upper sep next slots r items nodes :
  child_of node sep = Ok r -> children_at geo spec nd n node lower upper ((sep, next) :: slots) items nodes ->
  exists xs xn ys yn, items = xs ++ ys /\ nodes = xn ++ yn /\ check_tree_lba geo (cr_lba r) = Ok tt /\
    zlen xs = cr_subtree_items r /\
    tree_at geo spec nd n (bound sep lower) (bound next upper) false (cr_lba r) xs xn /\
    children_at geo spec nd n node lower upper slots ys yn.
Proof.
  intros Hc Hch. inversion Hch as [|? ? ? ? ? ? ? child xs xn ys yn Hc' Hg Ht Hz Hrest]; subst.
  rewrite Hc in Hc'. apply Ok_inj in Hc' as <-. by exists xs, xn, ys, yn.
Qed.

(** The expected level of a subtree of height [n + 1]. *)
Definition level_fits (level : option Z) (n : nat) : Prop := forall l, level = Some l -> l = Z.of_nat n.

Lemma tree_node_at geo spec nd n lower upper is_root lba items nodes level node :
  tree_at geo spec nd n lower upper is_root lba items nodes ->
  node_at spec nd lba level lower upper is_root node -> tn_level node = Z.of_nat n /\ level_fits level n.
Proof.
  intros Ht Hn. destruct (tree_root _ _ _ _ _ _ _ _ _ _ Ht) as (node' & Hn' & Hl & _).
  rewrite (node_at_inj _ _ _ _ _ _ _ _ _ _ _ _ _ Hn Hn'). split; [done|].
  apply node_at_level in Hn as [Hn Hlev]. rewrite (node_at_inj _ _ _ _ _ _ _ _ _ _ _ _ _ Hn Hn') in Hlev.
  intros l Hl'. by rewrite <- (Hlev l Hl').
Qed.

(** The loaded node of a tree, and what it holds. *)
Section Loaded.
Context (geo : Geometry) (spec : TreeSpec) (nd : Z -> result (TreeNode * Z)) {valid : ValidNodes nd} (n : nat) (lower upper : option bytes) (is_root : bool).
Context (lba : Z) (items : list TreeItem) (nodes : list (Z * TreeNode)) (level : option Z) (node : TreeNode).
Hypothesis Ht : tree_at geo spec nd n lower upper is_root lba items nodes.
Hypothesis Hn : node_at spec nd lba level lower upper is_root node.

Lemma loaded_count : tn_subtree_items node = zlen items.
Proof.
  destruct (tree_root _ _ _ _ _ _ _ _ _ _ Ht) as (node' & Hn' & _ & Hh).
  destruct (proj1 (tree_at_facts geo spec _) _ _ _ _ _ _ _ Ht) as (_ & _ & _ & _ & lba' & node2 & Hh2 & Ht2).
  rewrite Hh in Hh2. injection Hh2 as <- <-. by rewrite (node_at_inj _ _ _ _ _ _ _ _ _ _ _ _ _ Hn Hn').
Qed.

Lemma loaded_leaf : is_leaf node = true -> n = 0%nat /\ items = tn_items node /\ nodes = [(lba, node)].
Proof.
  destruct (tree_node_at _ _ _ _ _ _ _ _ _ _ _ _ Ht Hn) as [Hln _]. unfold is_leaf. intros Hleaf.
  inversion Ht as [? ? ? ? node' Hn'|]; subst; [|lia].
  by rewrite (node_at_inj _ _ _ _ _ _ _ _ _ _ _ _ _ Hn Hn').
Qed.

Lemma loaded_branch : is_leaf node = false ->
  exists m below, n = S m /\ tn_level node = Z.of_nat (S m) /\ nodes = (lba, node) :: below /\
    children_at geo spec nd m node lower upper (child_slots node) items below.
Proof.
  destruct (tree_node_at _ _ _ _ _ _ _ _ _ _ _ _ Ht Hn) as [Hln _]. unfold is_leaf. intros Hleaf.
  inversion Ht as [|m ? ? ? ? node' ? below Hn' Hl Hch]; subst; [lia|].
  rewrite (node_at_inj _ _ _ _ _ _ _ _ _ _ _ _ _ Hn' Hn) in *. by exists m, below.
Qed.
End Loaded.

(** The blocks on the path are ancestors: their nodes have higher levels. *)
Definition path_above (nd : Z -> result (TreeNode * Z)) (n : nat) (path : DescentPath) : Prop :=
  zlen path + Z.of_nat n <= MAX_TREE_LEVEL /\
  Forall (fun a => exists node g, nd a = Ok (node, g) /\ Z.of_nat n < tn_level node) path.

Lemma path_insert_Some lba path path' :
  path_insert lba path = Some path' -> path' = path ++ [lba] /\ lba ∉ path.
Proof.
  unfold path_insert. destruct (_ =? _); [done|]. destruct (existsb _ _) eqn:He; [done|]. intros [= <-]. split; [done|].
  intros Hin%list_elem_of_In. rewrite <- not_true_iff_false, existsb_exists in He. apply He. exists lba. split; [done|lia].
Qed.

Lemma path_remove_app lba path : lba ∉ path -> path_remove lba (path ++ [lba]) = path.
Proof.
  induction path as [|x path IH]; cbn; [by rewrite Z.eqb_refl|]. intros [? ?]%not_elem_of_cons.
  replace (x =? lba) with false by lia. by rewrite IH.
Qed.

Section Paths.
Context (spec : TreeSpec) (nd : Z -> result (TreeNode * Z)) {valid : ValidNodes nd}.

(** A descent through a sound tree meets no cycle. *)
Lemma path_insert_tree n lba lower upper is_root node path :
  node_at spec nd lba None lower upper is_root node -> tn_level node = Z.of_nat n -> path_above nd n path ->
  path_insert lba path <> None.
Proof.
  intros (g & Hd & _) Hl [Hz HF]. unfold path_insert. destruct (_ =? _) eqn:Hlen; [unfold MAX_TREE_LEVEL in *; lia|].
  destruct (existsb _ _) eqn:He; [|done]. apply existsb_exists in He as (x & Hin%list_elem_of_In & Hx).
  rewrite Forall_forall in HF. destruct (HF x Hin) as (node' & g' & Hd' & Hl'). replace x with lba in * by lia.
  rewrite Hd in Hd'. injection Hd' as <- <-. lia.
Qed.

Lemma path_above_child n lba lower upper is_root node path :
  node_at spec nd lba None lower upper is_root node -> tn_level node = Z.of_nat (S n) -> path_above nd (S n) path ->
  path_above nd n (path ++ [lba]).
Proof.
  intros (g & Hd & _) Hl [Hz HF]. split; [rewrite zlen_app, zlen_one; lia|]. apply Forall_app. split.
  - eapply Forall_impl; [exact HF|]. intros a (n1 & g' & ? & ?). exists n1, g'. split; [done|lia].
  - constructor; [|constructor]. exists node, g. split; [done|lia].
Qed.

Lemma path_above_root n lower upper is_root lba node :
  node_at spec nd lba None lower upper is_root node -> tn_level node = Z.of_nat n -> path_above nd n [].
Proof.
  intros (g & Hd & _) Hl. destruct (node_valid _ _ (nodes_valid _ _ _ Hd)) as (? & _). split; [rewrite zlen_nil; lia|constructor].
Qed.
End Paths.

(** ** Answers of point reads *)

Section Answers.
Context (key : bytes).

(** The items up to the key; the last one is the floor. *)
Definition up_to (items : list TreeItem) : list TreeItem := List.filter (fun item => bytes_leb (ti_key item) key) items.
Definition floor_of (items : list TreeItem) : option (bytes * bytes) := option_map item_pair (last (up_to items)).
Definition value_of (items : list TreeItem) : option bytes := option_map ti_value (find_item key items).

Definition before_key (items : list TreeItem) : Prop := forall x, x ∈ items -> bytes_ltb (ti_key x) key = true.
Definition after_key (items : list TreeItem) : Prop := forall x, x ∈ items -> bytes_ltb key (ti_key x) = true.

(** What a routed child's left neighbours are. *)
Lemma left_before a b c :
  sorted (a ++ b ++ c) -> (a = [] \/ exists first, hd_error b = Some first /\ bytes_leb (ti_key first) key = true) ->
  before_key a.
Proof.
  intros Hs [->|(first & Hf & Hk)] x Hx; [by apply not_elem_of_nil in Hx|].
  destruct b as [|i b]; [done|]. injection Hf as ->. apply sorted_app in Hs as (_ & _ & Hs).
  eapply bytes_ltb_leb_trans; [apply Hs; [done|by left]|done].
Qed.

Lemma find_none items : (forall x, x ∈ items -> bytes_eqb (ti_key x) key = false) -> find_item key items = None.
Proof.
  induction items as [|x items IH]; [done|]. intros H. cbn. rewrite H by by left. apply IH. intros y Hy. apply H. by right.
Qed.

Lemma find_app a b : find_item key (a ++ b) = match find_item key a with Some x => Some x | None => find_item key b end.
Proof. induction a as [|x a IH]; [done|]. cbn. by destruct (bytes_eqb (ti_key x) key). Qed.

Lemma value_local a b c :
  sorted (a ++ b ++ c) -> (a = [] \/ exists first, hd_error b = Some first /\ bytes_leb (ti_key first) key = true) ->
  after_key c -> value_of (a ++ b ++ c) = value_of b.
Proof.
  intros Hs Ha Hc. pose proof (left_before _ _ _ Hs Ha) as Hb. unfold value_of. rewrite !find_app, (find_none a), (find_none c).
  - by destruct (find_item key b).
  - intros x Hx. exact (proj2 (ltb_not_eqb _ _ (Hc x Hx))).
  - intros x Hx. exact (proj1 (ltb_not_eqb _ _ (Hb x Hx))).
Qed.

Lemma up_to_after items : after_key items -> up_to items = [].
Proof.
  induction items as [|x items IH]; [done|]. intros H. cbn.
  rewrite (proj2 (bytes_leb_false _ _)) by (apply H; by left). apply IH. intros y Hy. apply H. by right.
Qed.

Lemma floor_local a b c :
  sorted (a ++ b ++ c) -> (a = [] \/ exists first, hd_error b = Some first /\ bytes_leb (ti_key first) key = true) ->
  after_key c -> floor_of (a ++ b ++ c) = floor_of b.
Proof.
  intros Hs Ha Hc. unfold floor_of. f_equal. unfold up_to. rewrite !List.filter_app.
  fold (up_to a) (up_to b) (up_to c). rewrite (up_to_after c Hc), app_nil_r. destruct Ha as [->|(first & Hf & Hk)]; [done|].
  destruct b as [|i b]; [done|]. injection Hf as ->. cbn. rewrite Hk. by rewrite last_app_cons.
Qed.

(** The prefix [partition_point] finds on sorted items. *)
Lemma partition_up_to items : sorted items ->
  up_to items = take (partition_point (fun item => bytes_leb (ti_key item) key) items) items.
Proof.
  induction items as [|x items IH]; [done|]. intros [Hs Hx]%StronglySorted_inv. cbn.
  destruct (bytes_leb (ti_key x) key) eqn:Hk; cbn; [f_equal; by apply IH|]. apply up_to_after. intros y Hy.
  apply bytes_leb_false in Hk. rewrite Forall_forall in Hx. by eapply bytes_ltb_trans, Hx.
Qed.

Lemma floor_in_eq items : sorted items -> floor_in key items = floor_of items.
Proof.
  intros Hs. unfold floor_in, floor_of. rewrite partition_up_to by done.
  pose proof (partition_point_le (fun item => bytes_leb (ti_key item) key) items) as Hle.
  destruct (partition_point _ items) as [|i]; [done|].
  destruct (lookup_lt_is_Some_2 items i) as [x Hx]; [lia|]. rewrite Hx.
  by rewrite (take_S_r _ _ _ Hx), last_snoc.
Qed.
End Answers.

(** ** Reading nodes *)

Lemma wpi_guard {S E A} (c : outcome E unit) (m : io S E A) s (Q : A -> S -> Prop) (R : E -> S -> Prop) :
  c <> Panic -> (c = Ok tt -> wpi m s Q R) -> (forall e, c = Err e -> R e s) -> wpi (do! ilift c in m) s Q R.
Proof. intros Hc HQ HR. unfold wpi, ibind, ilift. destruct c as [[]|e|]; [by apply HQ|by apply HR|done]. Qed.

Section Readers.
Context {D : Type} {device : BlockDevice Decoded D} {contract : DeviceContract Decoded D core_decodes}.
Context (geo : Geometry) {WF : WfGeometry geo} (spec : TreeSpec).

Abbreviation ok := (dev_ok (decodes := core_decodes)).
Abbreviation content := (view (decodes := core_decodes)).

(** [d'] is [d] after reads only. *)
Definition reads (d d' : D) : Prop := agree_off ok content (fun _ => False) d d'.

Lemma reads_view d d' a : reads d d' -> inside d a -> content d' a = content d a.
Proof. intros (_ & _ & H) Ha. exact (H a Ha (fun H => H)). Qed.

Lemma reads_inside d d' a : reads d d' -> inside d' a -> inside d a.
Proof. intros (_ & [_ Ht] & _). unfold inside. by rewrite Ht. Qed.

Lemma wpi_decode_node d lba :
  ok d -> inside d lba ->
  wpi (decode_node lba (content d lba)) d
    (fun '(node, g) d' => reads d d' /\ TreeNode_decode (content d lba) = Ok (node, g))
    (fun e d' => reads d d' /\ forall node g, TreeNode_decode (content d lba) <> Ok (node, g)).
Proof.
  intros Hd Hi. unfold wpi, decode_node.
  pose proof (TreeNode_decode_inv (content d lba)) as Hinv.
  destruct (attached d lba) as [[node g|record g]|] eqn:Ha.
  { split; [by apply agree_refl|]. by destruct (attached_contract d lba _ Hd Ha) as [_ ?]. }
  all: destruct (TreeNode_decode (content d lba)) as [[node' g']|e|] eqn:Hdec; [|split; [by apply agree_refl|done]|done].
  all: split; [|done]; by apply attach_contract.
Qed.

Lemma wpi_load_node d0 d lba level lower upper is_root :
  reads d0 d -> u64 lba ->
  wpi (load_node geo spec lba level lower upper is_root) d
    (fun node d' => reads d0 d' /\ inside d0 lba /\ node_at spec (decoded (content d0)) lba level lower upper is_root node)
    (fun e d' => reads d0 d' /\ (only_io e \/ forall node, ~ node_at spec (decoded (content d0)) lba level lower upper is_root node)).
Proof.
  intros Hd Hl. unfold load_node. apply wpi_bind, wpi_of_block.
  eapply wpi_mono; [apply (read_contract (decodes := core_decodes)); [apply Hd|done]| |].
  2: { intros e d' ?. split; [by eapply agree_trans|]. left. by exists e. }
  intros buf d1 (Hi & _ & -> & Hr). assert (reads d0 d1) as Hd1 by by eapply agree_trans.
  assert (inside d0 lba) as Hi0 by exact (reads_inside _ _ _ Hd Hi).
  assert (content d lba = content d0 lba) as Hc by by apply reads_view.
  assert (content d1 lba = content d0 lba) as Hc1 by by apply reads_view.
  rewrite Hc, <- Hc1. apply wpi_bind.
  eapply wpi_mono; [apply wpi_decode_node; [apply Hd1|]| |].
  { destruct Hd1 as (_ & [_ Ht] & _). unfold inside. by rewrite Ht. }
  2: { intros e d' [? Hn]. split; [by eapply agree_trans|]. right. intros node (g & Hdec & _).
       unfold decoded in Hdec. rewrite <- Hc1 in Hdec. by apply Hn in Hdec. }
  intros [node g] d2 [Hr2 Hdec]. rewrite Hc1 in Hdec. fold (decoded (content d0) lba) in Hdec. assert (reads d0 d2) as Hd2 by by eapply agree_trans.
  apply wpi_guard.
  { unfold validate_node_identity. by repeat case_match. }
  2: { intros e He. split; [done|]. right. intros node' (g' & Hdec' & Hid & _). congruence. }
  intros Hid. apply wpi_guard.
  { apply validate_range_total. }
  2: { intros e He. split; [done|]. right. intros node' (g' & Hdec' & _ & Hra). congruence. }
  intros Hra. apply wpi_ret. split; [done|]. split; [done|]. by exists g.
Qed.

Lemma wp_check_tree_lba lba (Q : unit -> Prop) (R : CoreError -> Prop) :
  u64 lba -> (check_tree_lba geo lba = Ok tt -> Q tt) -> (check_tree_lba geo lba <> Ok tt -> forall e, R e) ->
  wp (check_tree_lba geo lba) Q R.
Proof.
  intros Hl HQ HR. assert (check_tree_lba geo lba <> Panic).
  { unfold check_tree_lba. rewrite is_allocatable_eq by (done || unfold u64 in *; lia). cbn. by case_match. }
  destruct (check_tree_lba geo lba) as [[]|e|]; [by apply HQ|by apply HR|done].
Qed.

(** ** Descents *)

Section Descent.
Context {A : Type} (key : bytes) (answer : list TreeItem -> A).

(** The answer depends only on the child the key is routed to. *)
Hypothesis local : forall a b c, sorted (a ++ b ++ c) ->
  (a = [] \/ exists first, hd_error b = Some first /\ bytes_leb (ti_key first) key = true) ->
  (forall x, x ∈ c -> bytes_ltb key (ti_key x) = true) -> answer (a ++ b ++ c) = answer b.

Lemma branch_answer nd {valid : ValidNodes nd} n lower upper is_root lba items nodes node :
  tree_at geo spec nd (S n) lower upper is_root lba items nodes ->
  node_at spec nd lba None lower upper is_root node ->
  exists sep next child b bn, routed node key = Some (sep, next) /\ child_of node sep = Ok child /\
    check_tree_lba geo (cr_lba child) = Ok tt /\
    tree_at geo spec nd n (bound sep lower) (bound next upper) false (cr_lba child) b bn /\ answer items = answer b.
Proof.
  intros Ht Hn. inversion Ht as [|? ? ? ? ? node' ? ? Hn' Hl Hch]; subst.
  assert (node' = node) as -> by by eapply node_at_inj. destruct Hn as (g & Hd & _ & Hr).
  destruct (node_valid _ _ (nodes_valid _ _ _ Hd)) as (_ & Hs & _). destruct (node_range_within _ _ _ _ Hr Hs) as (Hw & _).
  destruct (children_route geo spec nd key _ _ _ _ _ _ _ _ Hch Hs Hw) as
    (sep & next & child & a & b & c & bn & Hi & Hc & Hg & Htb & _ & -> & Ha & Hcs); [done|].
  exists sep, next, child, b, bn. do 4 (split; [done|]). apply local; [|destruct Ha as [[-> _]|(x & -> & Hx)]; [by left|]|done].
  - apply (proj1 (tree_at_facts geo spec nd)) in Ht. apply Ht.
  - right. destruct (proj1 (tree_at_facts geo spec nd) _ _ _ _ _ _ _ Htb) as (_ & _ & Hne & Hst & _).
    destruct b as [|first b]; [by destruct (Hne eq_refl)|]. exists first. split; [done|].
    by rewrite (Hst (ti_key x) first eq_refl eq_refl).
Qed.

Lemma wpi_descend d0 fuel : forall is_root lba level lower upper visited stats d,
  reads d0 d -> u64 lba ->
  wpi (descend geo spec key (fun node => answer (tn_items node)) fuel is_root lba level lower upper visited stats) d
    (fun r d' => reads d0 d' /\ forall n items nodes,
       tree_at geo spec (decoded (content d0)) n lower upper is_root lba items nodes ->
       fst r = answer items /\ ls_pages_read (snd r) = ls_pages_read stats + Z.of_nat n + 1)
    (fun e d' => reads d0 d' /\ forall n items nodes,
       tree_at geo spec (decoded (content d0)) n lower upper is_root lba items nodes ->
       level_fits level n -> (n < fuel)%nat -> path_above (decoded (content d0)) n visited -> only_io e).
Proof.
  induction fuel as [|fuel IH]; intros is_root lba level lower upper visited stats d Hd Hl; cbn [descend].
  { apply wpi_err. split; [done|]. intros. lia. }
  destruct (path_insert lba visited) as [visited'|] eqn:Hpi.
  2: { apply wpi_err. split; [done|]. intros n items nodes Ht _ _ Hp.
       destruct (tree_root _ _ _ _ _ _ _ _ _ _ Ht) as (node & Hn & Hln & _).
       by destruct (path_insert_tree _ _ _ _ _ _ _ _ _ Hn Hln Hp). }
  apply path_insert_Some in Hpi as [-> _]. apply wpi_bind.
  eapply wpi_mono; [by apply (wpi_load_node d0)| |].
  2: { intros e d' [? He]. split; [done|]. intros n items nodes Ht Hfit _ _. destruct He as [?|He]; [done|].
       destruct (tree_root _ _ _ _ _ _ _ _ _ _ Ht) as (node & Hn & Hln & _). destruct (He node).
       apply node_at_level. split; [done|]. intros l Hl'. by rewrite (Hfit l Hl'). }
  intros node d1 (Hd1 & Hin & Hn). apply wpi_if; intros Hleaf.
  { apply wpi_ret. split; [done|]. intros n items nodes Ht. destruct (tree_node_at _ _ _ _ _ _ _ _ _ _ _ _ Ht Hn) as [Hln _].
    unfold is_leaf in Hleaf. assert (n = 0%nat) as -> by lia. inversion Ht as [? ? ? ? node' Hn'|]; subst.
    rewrite (node_at_inj _ _ _ _ _ _ _ _ _ _ _ _ _ Hn Hn'). cbn. split; [done|lia]. }
  pose proof Hn as (g & Hdec & _ & _).
  destruct (routed_child _ _ key (nodes_valid _ _ _ Hdec) Hleaf) as (sep & next & child & Hro & Hc & Hu & _ & Hne).
  destruct (route_eq node key lower upper Hne) as (sep' & next' & Hro' & Hre). rewrite Hro in Hro'. injection Hro' as <- <-.
  rewrite Hre, Hc. cbn [obind]. apply wpi_bind, wpi_lift, wp_ok. apply node_at_level in Hn as [Hn _].
  assert (forall n items nodes, tree_at geo spec (decoded (content d0)) n lower upper is_root lba items nodes ->
    exists m b bn, n = S m /\ tn_level node = Z.of_nat (S m) /\ check_tree_lba geo (cr_lba child) = Ok tt /\
      tree_at geo spec (decoded (content d0)) m (bound sep lower) (bound next upper) false (cr_lba child) b bn /\
      answer items = answer b) as Htree.
  { intros n items nodes Ht. destruct (tree_node_at _ _ _ _ _ _ _ _ _ _ _ _ Ht Hn) as [Hln _].
    unfold is_leaf in Hleaf. destruct n as [|m]; [lia|].
    destruct (branch_answer _ _ _ _ _ _ _ _ _ Ht Hn) as (sep2 & next2 & child2 & b & bn & Hr2 & Hc2 & Hg2 & Ht2 & Ha2).
    rewrite Hro in Hr2. injection Hr2 as <- <-. rewrite Hc in Hc2. apply Ok_inj in Hc2 as <-. by exists m, b, bn. }
  apply wpi_bind, wpi_lift, wp_check_tree_lba; [done|intros Hg|].
  2: { intros Hg e. split; [done|]. intros n items nodes Ht. by destruct (Htree _ _ _ Ht) as (m & b & bn & _ & _ & ? & _). }
  destruct (node_valid _ _ (nodes_valid _ _ _ Hdec)) as ([Hlow _] & _). unfold is_leaf in Hleaf.
  apply wpi_bind, wpi_lift, wp_sub_w; [lia|]. eapply wpi_mono; [by apply IH| |]; cbn beta.
  - intros r d2 [? Hq]. split; [done|]. intros n items nodes Ht.
    destruct (Htree _ _ _ Ht) as (m & b & bn & -> & _ & _ & Htm & ->). destruct (Hq _ _ _ Htm) as [-> ->].
    cbn [ls_pages_read]. split; [done|lia].
  - intros e d2 [? Hq]. split; [done|]. intros n items nodes Ht _ Hf Hp.
    destruct (Htree _ _ _ Ht) as (m & b & bn & -> & Hln & _ & Htm & _). apply (Hq _ _ _ Htm).
    + intros l [= <-]. lia.
    + lia.
    + by eapply path_above_child.
Qed.

Lemma wpi_descend_from_root d root :
  ok d -> u64 root ->
  wpi (descend_from_root geo root spec key (fun node => answer (tn_items node))) d
    (fun r d' => reads d d' /\ forall items nodes, tree_of geo spec (decoded (content d)) root items nodes ->
       fst r = answer items /\ exists node, hd_error nodes = Some (root, node) /\ ls_pages_read (snd r) = tn_level node + 1)
    (fun e d' => reads d d' /\ forall items nodes, tree_of geo spec (decoded (content d)) root items nodes ->
       1 <= zlen key <= MAX_TREE_KEY_BYTES -> only_io e).
Proof.
  intros Hd Hu. unfold descend_from_root. assert (reads d d) as Hr by by apply agree_refl.
  apply wpi_if; intros Hk; [apply wpi_err; split; [done|]; intros; lia|].
  apply wpi_bind, wpi_lift, wp_check_tree_lba; [done|intros Hg|].
  2: { intros Hg e. split; [done|]. by intros items nodes [? _]. }
  eapply wpi_mono; [by apply (wpi_descend d)| |]; cbn beta.
  - intros r d' [? Hq]. split; [done|]. intros items nodes [_ [n Ht]]. destruct (Hq _ _ _ Ht) as [-> ->]. split; [done|].
    destruct (tree_root _ _ _ _ _ _ _ _ _ _ Ht) as (node & _ & Hl & Hh). exists node. split; [done|]. cbn. lia.
  - intros e d' [? Hq]. split; [done|]. intros items nodes [_ [n Ht]] _.
    destruct (tree_root _ _ _ _ _ _ _ _ _ _ Ht) as (node & Hn & Hl & _). pose proof Hn as (g & Hdec & _).
    destruct (node_valid _ _ (nodes_valid _ _ _ Hdec)) as (Hlev & _). apply (Hq _ _ _ Ht); [done| |exact (path_above_root spec _ _ _ _ _ _ _ Hn Hl)].
    unfold MAX_TREE_LEVEL in *. lia.
Qed.
End Descent.

Lemma floor_in_local key a b c :
  sorted (a ++ b ++ c) -> (a = [] \/ exists first, hd_error b = Some first /\ bytes_leb (ti_key first) key = true) ->
  after_key key c -> floor_in key (a ++ b ++ c) = floor_in key b.
Proof.
  intros Hs Ha Hc. rewrite !floor_in_eq; [by apply floor_local| |done].
  apply sorted_app in Hs as (_ & Hs & _). by apply sorted_app in Hs as (? & _).
Qed.

Lemma wpi_tree_lookup d root key :
  ok d -> u64 root ->
  wpi (tree_lookup geo root spec key) d
    (fun r d' => reads d d' /\ forall items nodes, tree_of geo spec (decoded (content d)) root items nodes ->
       fst r = value_of key items /\ exists node, hd_error nodes = Some (root, node) /\ ls_pages_read (snd r) = tn_level node + 1)
    (fun e d' => reads d d' /\ forall items nodes, tree_of geo spec (decoded (content d)) root items nodes ->
       1 <= zlen key <= MAX_TREE_KEY_BYTES -> only_io e).
Proof. intros. by apply (wpi_descend_from_root key (value_of key) (value_local key)). Qed.

Lemma wpi_lookup_floor d root key :
  ok d -> u64 root ->
  wpi (lookup_floor geo root spec key) d
    (fun r d' => reads d d' /\ forall items nodes, tree_of geo spec (decoded (content d)) root items nodes ->
       fst r = floor_of key items /\ exists node, hd_error nodes = Some (root, node) /\ ls_pages_read (snd r) = tn_level node + 1)
    (fun e d' => reads d d' /\ forall items nodes, tree_of geo spec (decoded (content d)) root items nodes ->
       1 <= zlen key <= MAX_TREE_KEY_BYTES -> only_io e).
Proof.
  intros. eapply wpi_mono; [by apply (wpi_descend_from_root key (floor_in key) (floor_in_local key))| |done].
  cbn beta. intros r d' [? Hq]. split; [done|]. intros items nodes Ht. destruct (Hq _ _ Ht) as [-> ?]. split; [|done].
  destruct Ht as [_ [n Ht]]. apply floor_in_eq. by apply (proj1 (tree_at_facts geo spec _)) in Ht as (? & _).
Qed.

(** ** Walks *)

Section Walks.
Context {X : Type} (d0 : D).

(** A step of a walk keeps the path, only reads, and establishes [Q] of its
    result and the accumulated value, or [R] of its error. *)
Definition walks {A} (w : Walk X) (m : io (Walk X) CoreError A) (Q : A -> X -> Prop) (R : CoreError -> X -> Prop) : Prop :=
  wpi m w (fun a w' => wk_path w' = wk_path w /\ reads d0 (wk_dev w') /\ Q a (wk_out w'))
          (fun e w' => reads d0 (wk_dev w') /\ R e (wk_out w')).

Lemma walks_ret {A} w (a : A) Q R : reads d0 (wk_dev w) -> Q a (wk_out w) -> walks w (iret a) Q R.
Proof. done. Qed.

Lemma walks_err {A} w e (Q : A -> X -> Prop) R : reads d0 (wk_dev w) -> R e (wk_out w) -> walks w (ierr e) Q R.
Proof. done. Qed.

Lemma walks_if {A} w (b : bool) (m m' : io (Walk X) CoreError A) Q R :
  (b = true -> walks w m Q R) -> (b = false -> walks w m' Q R) -> walks w (if b then m else m') Q R.
Proof. destruct b; auto. Qed.

Lemma walks_bind {A B} w (m : io (Walk X) CoreError A) (k : A -> io (Walk X) CoreError B) Q Q' R R' :
  walks w m Q R ->
  (forall a w', wk_path w' = wk_path w -> reads d0 (wk_dev w') -> Q a (wk_out w') -> walks w' (k a) Q' R') ->
  (forall e x, R e x -> R' e x) -> walks w (ibind m k) Q' R'.
Proof.
  intros Hm Hk HR. apply wpi_bind. eapply wpi_mono; [exact Hm| |].
  - intros a w' (Hp & Hr & Hq). eapply wpi_mono; [by apply Hk| |done]. intros b w2 (Hp2 & ?). split; [congruence|done].
  - intros e w' [? ?]. split; [done|]. by apply HR.
Qed.

Lemma walks_lift {A B} w (c : outcome CoreError A) (k : A -> io (Walk X) CoreError B) Q R :
  reads d0 (wk_dev w) -> wp c (fun a => walks w (k a) Q R) (fun e => R e (wk_out w)) -> walks w (let! a := ilift c in k a) Q R.
Proof. intros Hr H. unfold walks, wpi, ibind, ilift. by destruct c. Qed.

Lemma walks_get {A B} w (f : Walk X -> A) (k : A -> io (Walk X) CoreError B) Q R :
  walks w (k (f w)) Q R -> walks w (let! a := iget f in k a) Q R.
Proof. done. Qed.

Lemma walks_modify {B} w (f : Walk X -> Walk X) (k : io (Walk X) CoreError B) Q R :
  wk_path (f w) = wk_path w -> walks (f w) k Q R -> walks w (do! imodify f in k) Q R.
Proof. intros Hp H. unfold walks in *. by rewrite Hp in H. Qed.

(** Every reader of a node: enter the path, load the node, go on, leave the path. *)
Lemma walks_scoped {A} w lba level lower upper is_root (body : TreeNode -> io (Walk X) CoreError A) Q R :
  reads d0 (wk_dev w) -> u64 lba ->
  (forall node w', node_at spec (decoded (content d0)) lba level lower upper is_root node -> lba ∉ wk_path w ->
     wk_path w' = wk_path w ++ [lba] -> reads d0 (wk_dev w') -> wk_out w' = wk_out w -> walks w' (body node) Q R) ->
  (forall e, only_io e \/ path_insert lba (wk_path w) = None \/
     (forall node, ~ node_at spec (decoded (content d0)) lba level lower upper is_root node) -> R e (wk_out w)) ->
  walks w (scoped lba (let! node := on_dev (load_node geo spec lba level lower upper is_root) in body node)) Q R.
Proof.
  intros Hr Hu Hb HR. unfold walks, wpi, scoped. destruct (path_insert lba (wk_path w)) as [path|] eqn:Hpi; [|auto].
  apply path_insert_Some in Hpi as [-> Hni]. set (w1 := set_wk_path (wk_path w ++ [lba]) w).
  assert (walks w1 (let! node := on_dev (load_node geo spec lba level lower upper is_root) in body node) Q R) as H.
  { eapply (walks_bind _ _ _ (fun node x => node_at spec (decoded (content d0)) lba level lower upper is_root node /\ x = wk_out w)
      _ (fun e x => (only_io e \/ (forall node, ~ node_at spec (decoded (content d0)) lba level lower upper is_root node)) /\ x = wk_out w)).
    - apply wpi_zoom. eapply wpi_mono; [by apply (wpi_load_node d0)| |].
      + intros node d' (? & _ & ?). done.
      + intros e d' [? ?]. done.
    - intros node w' Hp Hr' [Hn Ho]. by apply Hb.
    - intros e x [He ->]. apply HR. destruct He; auto. }
  unfold walks, wpi in H. destruct (ibind _ _ w1) as [w2 [a|e|]]; [|done|done].
  destruct H as (Hp & Hr2 & Hq). cbn. rewrite Hp. cbn. split; [|done]. by rewrite path_remove_app.
Qed.

(** The subtree a reader is called on is sound. *)
Definition sound_at (lba : Z) (level : option Z) (lower upper : option bytes) (is_root : bool) (path : DescentPath)
    (n : nat) (items : list TreeItem) (nodes : list (Z * TreeNode)) : Prop :=
  tree_at geo spec (decoded (content d0)) n lower upper is_root lba items nodes /\ level_fits level n /\ path_above (decoded (content d0)) n path.

Lemma sound_loads lba level lower upper is_root path n items nodes e :
  sound_at lba level lower upper is_root path n items nodes ->
  only_io e \/ path_insert lba path = None \/ (forall node, ~ node_at spec (decoded (content d0)) lba level lower upper is_root node) ->
  only_io e.
Proof.
  intros (Ht & Hf & Hp) [?|[Hi|Hn]]; [done|exfalso..];
    destruct (tree_root _ _ _ _ _ _ _ _ _ _ Ht) as (node & Hat & Hl & _).
  - by eapply path_insert_tree in Hi.
  - destruct (Hn node). apply node_at_level. split; [done|]. intros l Hl'. by rewrite (Hf l Hl').
Qed.
End Walks.

(** Enough calls remain for the levels below. *)
Definition fuel_for (level : option Z) (fuel : nat) : Prop :=
  match level with Some l => l < Z.of_nat fuel | None => MAX_TREE_LEVEL < Z.of_nat fuel end.

Lemma fuel_child nd {valid : ValidNodes nd} lba level lower upper is_root node fuel :
  node_at spec nd lba level lower upper is_root node -> fuel_for level (S fuel) ->
  0 <= tn_level node /\ fuel_for (Some (tn_level node - 1)) fuel.
Proof.
  intros Hn Hf. apply node_at_level in Hn as [(g & Hd & _) Hl]. destruct (node_valid _ _ (nodes_valid _ _ _ Hd)) as (? & _).
  split; [lia|]. unfold fuel_for in *. destruct level as [l|]; [rewrite (Hl l eq_refl)|]; lia.
Qed.

Lemma fuel_none level : fuel_for level 0 -> (forall l, level = Some l -> 0 <= l) -> False.
Proof. destruct level as [l|]; cbn; intros Hf Hl; [specialize (Hl l eq_refl)|unfold MAX_TREE_LEVEL in *]; lia. Qed.

Section Range.
Context (d0 : D) (limit : Z).
Abbreviation out := (list (bytes * bytes)).

Lemma extend_full items (o : out) : limit <= zlen o -> extend limit items o = o.
Proof. intros H. unfold extend. replace (Z.to_nat (limit - zlen o)) with 0%nat by lia. by rewrite take_0, app_nil_r. Qed.

Lemma extend_app a b (o : out) : extend limit b (extend limit a o) = extend limit (a ++ b) o.
Proof.
  unfold extend. rewrite <- app_assoc, map_app, take_app, zlen_app. do 2 f_equal.
  f_equal. unfold zlen. rewrite length_take, length_map. lia.
Qed.

Lemma extend_nil (o : out) : extend limit [] o = o.
Proof. unfold extend. cbn [map]. by rewrite take_nil, app_nil_r. Qed.

(** The page of a subtree, from item number [start]. *)
Definition range_of (start : Z) (items : list TreeItem) (o : out) : out := extend limit (drop (Z.to_nat start) items) o.

Section Children.
Context (node : TreeNode) (lower upper : option bytes).
Context (read_child : Z -> Z -> option bytes -> option bytes -> Z -> io (Walk (D := D) out) CoreError Z).
Hypothesis branch : 1 <= tn_level node.
Hypothesis child_reads : forall lba lo up start w, reads d0 (wk_dev w) -> u64 lba -> 0 <= start ->
  walks d0 w (read_child lba (tn_level node - 1) lo up start)
    (fun total o => forall n items nodes, tree_at geo spec (decoded (content d0)) n lo up false lba items nodes ->
       total = zlen items /\ o = range_of start items (wk_out w))
    (fun e _ => forall n items nodes,
       sound_at d0 lba (Some (tn_level node - 1)) lo up false (wk_path w) n items nodes -> only_io e).

Lemma walks_range_children slots refs : Forall2 (child_in node) slots refs -> forall start w,
  reads d0 (wk_dev w) -> 0 <= start ->
  walks d0 w (read_range_children geo node lower upper limit read_child start slots)
    (fun _ o => forall n items nodes, children_at geo spec (decoded (content d0)) n node lower upper slots items nodes ->
       o = range_of start items (wk_out w))
    (fun e _ => forall n items nodes, children_at geo spec (decoded (content d0)) n node lower upper slots items nodes ->
       tn_level node = Z.of_nat (S n) -> path_above (decoded (content d0)) n (wk_path w) -> only_io e).
Proof.
  unfold range_of in *.
  induction 1 as [|[sep next] r slots refs (Hc & Hu & Hpos) HF IH]; intros start w Hr Hs; cbn [read_range_children].
  { apply walks_ret; [done|]. intros n items nodes Hch. inversion Hch; subst. by rewrite drop_nil, extend_nil. }
  cbn [fst] in Hc. apply walks_get, walks_if; intros Hfull.
  { apply walks_ret; [done|]. intros. rewrite extend_full; [done|lia]. }
  apply walks_lift; [done|]. rewrite Hc. apply wp_ok.
  pose proof (fun n items nodes => child_inv geo spec (decoded (content d0)) n node lower upper sep next slots r items nodes Hc) as Hsplit.
  apply walks_if; intros Hskip.
  { eapply wpi_mono; [apply (IH (start - cr_subtree_items r) w Hr ltac:(lia))| |]; cbn beta.
    - intros _ w' (? & ? & Hq). split; [done|]. split; [done|]. intros n items nodes Hch.
      destruct (Hsplit _ _ _ Hch) as (xs & xn & ys & yn & -> & -> & _ & Hz & _ & Hrest).
      rewrite (Hq _ _ _ Hrest), drop_app_ge by (unfold zlen in *; lia). do 2 f_equal. unfold zlen in *. lia.
    - intros e w' [? Hq]. split; [done|]. intros n items nodes Hch.
      destruct (Hsplit _ _ _ Hch) as (xs & xn & ys & yn & -> & -> & _ & _ & _ & Hrest). by apply (Hq _ _ _ Hrest). }
  apply walks_lift; [done|]. apply wp_check_tree_lba; [done|intros Hg|].
  2: { intros Hg e n items nodes Hch. by destruct (Hsplit _ _ _ Hch) as (? & ? & ? & ? & _ & _ & ? & _). }
  apply walks_lift; [done|]. apply wp_sub_w; [done|].
  eapply walks_bind; [by apply child_reads| |].
  2: { cbn beta. intros e x Hq n items nodes Hch Hl Hp.
       destruct (Hsplit _ _ _ Hch) as (xs & xn & ys & yn & _ & _ & _ & _ & Ht & _). apply (Hq n xs xn).
       split; [done|]. split; [|done]. intros l [= <-]. lia. }
  cbn beta. intros total w1 Hp1 Hr1 Hq. apply walks_if; intros Htot.
  { apply walks_err; [done|]. intros n items nodes Hch.
    destruct (Hsplit _ _ _ Hch) as (xs & xn & ys & yn & _ & _ & _ & Hz & Ht & _). destruct (Hq _ _ _ Ht). lia. }
  eapply wpi_mono; [apply (IH 0 w1 Hr1 ltac:(lia))| |]; cbn beta.
  - intros _ w' (? & ? & Hq'). split; [congruence|]. split; [done|]. intros n items nodes Hch.
    destruct (Hsplit _ _ _ Hch) as (xs & xn & ys & yn & -> & -> & _ & Hz & Ht & Hrest).
    destruct (Hq _ _ _ Ht) as [_ Ho]. rewrite (Hq' _ _ _ Hrest), Ho, extend_app. f_equal.
    rewrite drop_app_le by (unfold zlen in *; lia). done.
  - intros e w' [? Hq']. split; [done|]. intros n items nodes Hch Hl Hp.
    destruct (Hsplit _ _ _ Hch) as (xs & xn & ys & yn & _ & _ & _ & _ & _ & Hrest). apply (Hq' _ _ _ Hrest Hl). by rewrite Hp1.
Qed.
End Children.

Lemma walks_range_node fuel : forall is_root lba level lower upper start w,
  reads d0 (wk_dev w) -> u64 lba -> 0 <= start -> fuel_for level fuel -> (forall l, level = Some l -> 0 <= l) ->
  walks d0 w (read_range_node geo spec limit fuel is_root lba level lower upper start)
    (fun total o => forall n items nodes, tree_at geo spec (decoded (content d0)) n lower upper is_root lba items nodes ->
       total = zlen items /\ o = range_of start items (wk_out w))
    (fun e _ => forall n items nodes, sound_at d0 lba level lower upper is_root (wk_path w) n items nodes -> only_io e).
Proof.
  induction fuel as [|fuel IH]; intros is_root lba level lower upper start w Hr Hu Hs Hf Hlv.
  { by destruct (fuel_none _ Hf Hlv). }
  cbn [read_range_node]. apply walks_scoped; [done|done| |].
  2: { intros e He n items nodes Hsound. by eapply sound_loads. }
  intros node w1 Hn _ Hp1 Hr1 Ho1. pose proof Hn as (g & Hd & _).
  destruct (fuel_child _ _ _ _ _ _ _ _ Hn Hf) as [Hlow Hf'].
  apply walks_get, walks_if; intros Hstop.
  { apply walks_ret; [done|]. intros n items nodes Ht. pose proof (loaded_count _ _ _ _ _ _ _ _ _ _ _ _ Ht Hn) as Hc.
    rewrite Ho1 in *. split; [done|]. rewrite Hc in Hstop. unfold range_of. apply orb_true_iff in Hstop as [?|?].
    - rewrite drop_ge by (unfold zlen in *; lia). by rewrite extend_nil.
    - rewrite extend_full; [done|lia]. }
  apply orb_false_iff in Hstop as [Hst _]. apply walks_if; intros Hleaf.
  { destruct (node_valid _ _ (nodes_valid _ _ _ Hd)) as (_ & _ & Hc). rewrite Hleaf in Hc.
    apply walks_lift; [done|]. apply wp_slice; [lia..|]. apply walks_modify; [done|]. apply walks_ret; [done|].
    intros n items nodes Ht. split; [exact (loaded_count _ _ _ _ _ _ _ _ _ _ _ _ Ht Hn)|]. cbn. rewrite Ho1. unfold range_of.
    destruct (loaded_leaf _ _ _ _ _ _ _ _ _ _ _ _ Ht Hn Hleaf) as (_ & -> & _). f_equal. unfold sub.
    apply take_ge. rewrite length_drop. unfold zlen. lia. }
  destruct (node_children _ _ (nodes_valid _ _ _ Hd) Hleaf) as (refs & HF & _).
  assert (1 <= tn_level node) as Hlev by (unfold is_leaf in Hleaf; lia).
  eapply walks_bind; [apply (walks_range_children node lower upper _ Hlev) with (refs := refs); [|done|done|done]| |].
  - intros lba' lo up start' w' ???. apply IH; [done..|]. intros l [= <-]. lia.
  - cbn beta. intros [] w2 Hp2 Hr2 Hq. apply walks_ret; [done|]. intros n items nodes Ht. split; [exact (loaded_count _ _ _ _ _ _ _ _ _ _ _ _ Ht Hn)|].
    destruct (loaded_branch _ _ _ _ _ _ _ _ _ _ _ _ Ht Hn Hleaf) as (m & below & _ & _ & _ & Hch).
    by rewrite (Hq _ _ _ Hch), Ho1.
  - cbn beta. intros e x Hq n items nodes (Ht & _ & Hp).
    destruct (loaded_branch _ _ _ _ _ _ _ _ _ _ _ _ Ht Hn Hleaf) as (m & below & -> & Hln & _ & Hch).
    apply (Hq _ _ _ Hch Hln). rewrite Hp1. apply node_at_level in Hn as [Hn _]. by eapply path_above_child.
Qed.
End Range.

(** A walk from the root. *)
Lemma wpi_walk_root {X A} d root (x : X) (m : io (Walk X) CoreError A) (Q : A -> X -> list TreeItem -> Prop)
    (R : CoreError -> X -> list TreeItem -> Prop) :
  let w := {| wk_dev := d; wk_path := []; wk_out := x |} in
  check_tree_lba geo root = Ok tt ->
  walks d w m
    (fun a o => forall n items nodes, tree_at geo spec (decoded (content d)) n None None true root items nodes -> Q a o items)
    (fun e o => forall n items nodes, sound_at d root None None None true (wk_path w) n items nodes -> R e o items) ->
  wpi m w
    (fun a w' => reads d (wk_dev w') /\ forall items nodes, tree_of geo spec (decoded (content d)) root items nodes -> Q a (wk_out w') items)
    (fun e w' => reads d (wk_dev w') /\ forall items nodes, tree_of geo spec (decoded (content d)) root items nodes -> R e (wk_out w') items).
Proof.
  intros w Hg H. eapply wpi_mono; [exact H| |]; cbn beta.
  - intros a w' (_ & ? & Hq). split; [done|]. intros items nodes [_ [n Ht]]. by eapply Hq.
  - intros e w' [? Hq]. split; [done|]. intros items nodes [_ [n Ht]]. apply (Hq n items nodes). split; [done|].
    split; [done|]. destruct (tree_root _ _ _ _ _ _ _ _ _ _ Ht) as (node & Hn & Hl & _). exact (path_above_root spec _ _ _ _ _ _ _ Hn Hl).
Qed.

Lemma extend_empty limit items : extend limit items [] = take (Z.to_nat limit) (map item_pair items).
Proof. unfold extend. cbn [app]. by rewrite zlen_nil, Z.sub_0_r. Qed.

Lemma wpi_read_range d root start limit :
  ok d -> u64 root -> 0 <= start ->
  wpi (read_range geo root spec start limit) d
    (fun page d' => reads d d' /\ forall items nodes, tree_of geo spec (decoded (content d)) root items nodes ->
       page = {| rp_items := take (Z.to_nat limit) (map item_pair (drop (Z.to_nat start) items)); rp_total_items := zlen items |})
    (fun e d' => reads d d' /\ forall items nodes, tree_of geo spec (decoded (content d)) root items nodes -> only_io e).
Proof.
  intros Hd Hu Hs. unfold wpi, read_range. assert (reads d d) as Hr by by apply agree_refl.
  pose proof (wp_check_tree_lba root (fun _ => True) any_error Hu ltac:(done) ltac:(done)) as Hp.
  destruct (check_tree_lba geo root) as [[]|e|] eqn:Hg; [|split; [done|]; intros ? ? [? _]; congruence|done].
  pose proof (wpi_walk_root d root [] (read_range_node geo spec limit WALK_FUEL true root None None None start)
    (fun total o items => total = zlen items /\ o = range_of limit start items []) (fun e _ _ => only_io e) Hg) as H.
  cbv zeta in H. specialize (H ltac:(by apply walks_range_node)). unfold wpi in H.
  destruct (read_range_node _ _ _ _ _ _ _ _ _ _) as [w [total|e|]]; [|done|done].
  cbn [obind]. destruct H as [? Hq]. split; [done|]. intros items nodes Ht. destruct (Hq _ _ Ht) as [-> ->].
  unfold range_of. by rewrite extend_empty.
Qed.

(** ** Key pages *)

Section Page.
Context (d0 : D) (low : bytes) (limit : Z).
Abbreviation out := (list (bytes * bytes) * TreeLookupStats)%type.

Definition from_key (items : list TreeItem) : list TreeItem := List.filter (fun item => bytes_leb low (ti_key item)) items.

Lemma from_key_below u items : bytes_leb u low = true -> within None (Some u) items -> from_key items = [].
Proof.
  intros Hu. induction 1 as [|x items [_ Hx] _ IH]; [done|]. cbn in *.
  rewrite (proj2 (bytes_leb_false _ _)); [done|]. by eapply bytes_ltb_leb_trans.
Qed.

Lemma from_key_drop items : sorted items ->
  drop (partition_point (fun item => bytes_ltb (ti_key item) low) items) items = from_key items.
Proof.
  induction 1 as [|x items Hs IH Hx]; [done|]. cbn. destruct (bytes_ltb (ti_key x) low) eqn:Hk.
  - rewrite (proj2 (bytes_leb_false _ _) Hk). cbn. exact IH.
  - apply bytes_ltb_false in Hk. rewrite Hk. cbn. f_equal. symmetry. unfold from_key.
    rewrite forallb_filter_id; [done|]. apply forallb_forall. intros y Hy%list_elem_of_In. rewrite Forall_forall in Hx.
    apply bytes_ltb_leb. by eapply bytes_leb_ltb_trans, Hx.
Qed.

Section PageChildren.
Context (node : TreeNode) (lower upper : option bytes).
Context (read_child : Z -> Z -> option bytes -> option bytes -> io (Walk (D := D) out) CoreError Z).
Hypothesis branch : 1 <= tn_level node.
Hypothesis child_reads : forall lba lo up w, reads d0 (wk_dev w) -> u64 lba ->
  walks d0 w (read_child lba (tn_level node - 1) lo up)
    (fun total o => forall n items nodes, tree_at geo spec (decoded (content d0)) n lo up false lba items nodes ->
       total = zlen items /\ fst o = extend limit (from_key items) (fst (wk_out w)))
    (fun e _ => forall n items nodes,
       sound_at d0 lba (Some (tn_level node - 1)) lo up false (wk_path w) n items nodes -> only_io e).

Lemma walks_page_children slots refs : Forall2 (child_in node) slots refs -> forall w,
  reads d0 (wk_dev w) ->
  walks d0 w (read_key_page_children geo node lower upper low limit read_child slots)
    (fun _ o => forall n items nodes, children_at geo spec (decoded (content d0)) n node lower upper slots items nodes ->
       fst o = extend limit (from_key items) (fst (wk_out w)))
    (fun e _ => forall n items nodes, children_at geo spec (decoded (content d0)) n node lower upper slots items nodes ->
       tn_level node = Z.of_nat (S n) -> path_above (decoded (content d0)) n (wk_path w) -> only_io e).
Proof.
  induction 1 as [|[sep next] r slots refs (Hc & Hu & Hpos) HF IH]; intros w Hr; cbn [read_key_page_children].
  { apply walks_ret; [done|]. intros n items nodes Hch. inversion Hch; subst. cbn. by rewrite extend_nil. }
  cbn [fst] in Hc. apply walks_get, walks_if; intros Hfull.
  { apply walks_ret; [done|]. intros. rewrite extend_full; [done|lia]. }
  pose proof (fun n items nodes => child_inv geo spec (decoded (content d0)) n node lower upper sep next slots r items nodes Hc) as Hsplit.
  apply walks_if; intros Hskip.
  { eapply wpi_mono; [by apply (IH w)| |]; cbn beta.
    - intros _ w' (? & ? & Hq). split; [done|]. split; [done|]. intros n items nodes Hch.
      destruct (Hsplit _ _ _ Hch) as (xs & xn & ys & yn & -> & -> & _ & _ & Ht & Hrest). rewrite (Hq _ _ _ Hrest).
      destruct (proj1 (tree_at_facts geo spec _) _ _ _ _ _ _ _ Ht) as (_ & Hw & _).
      destruct (bound next upper) as [u|]; [|done]. unfold from_key. rewrite List.filter_app. f_equal.
      fold (from_key xs). rewrite (from_key_below u xs); [done|done|]. eapply Forall_impl; [exact Hw|]. by intros x [_ ?].
    - intros e w' [? Hq]. split; [done|]. intros n items nodes Hch.
      destruct (Hsplit _ _ _ Hch) as (xs & xn & ys & yn & _ & _ & _ & _ & _ & Hrest). by apply (Hq _ _ _ Hrest). }
  apply walks_lift; [done|]. rewrite Hc. apply wp_ok.
  apply walks_lift; [done|]. apply wp_check_tree_lba; [done|intros Hg|].
  2: { intros Hg e n items nodes Hch. by destruct (Hsplit _ _ _ Hch) as (? & ? & ? & ? & _ & _ & ? & _). }
  apply walks_lift; [done|]. apply wp_sub_w; [done|].
  eapply walks_bind; [by apply child_reads| |].
  2: { cbn beta. intros e x Hq n items nodes Hch Hl Hp.
       destruct (Hsplit _ _ _ Hch) as (xs & xn & ys & yn & _ & _ & _ & _ & Ht & _). apply (Hq n xs xn).
       split; [done|]. split; [|done]. intros l [= <-]. lia. }
  cbn beta. intros total w1 Hp1 Hr1 Hq. apply walks_if; intros Htot.
  { apply walks_err; [done|]. intros n items nodes Hch.
    destruct (Hsplit _ _ _ Hch) as (xs & xn & ys & yn & _ & _ & _ & Hz & Ht & _). destruct (Hq _ _ _ Ht). lia. }
  eapply wpi_mono; [by apply (IH w1)| |]; cbn beta.
  - intros _ w' (? & ? & Hq'). split; [congruence|]. split; [done|]. intros n items nodes Hch.
    destruct (Hsplit _ _ _ Hch) as (xs & xn & ys & yn & -> & -> & _ & _ & Ht & Hrest).
    destruct (Hq _ _ _ Ht) as [_ Ho]. rewrite (Hq' _ _ _ Hrest), Ho, extend_app. unfold from_key. by rewrite List.filter_app.
  - intros e w' [? Hq']. split; [done|]. intros n items nodes Hch Hl Hp.
    destruct (Hsplit _ _ _ Hch) as (xs & xn & ys & yn & _ & _ & _ & _ & _ & Hrest). apply (Hq' _ _ _ Hrest Hl). by rewrite Hp1.
Qed.
End PageChildren.

Lemma walks_page_node fuel : forall lba level lower upper w,
  let is_root := match level with None => true | Some _ => false end in
  reads d0 (wk_dev w) -> u64 lba -> fuel_for level fuel -> (forall l, level = Some l -> 0 <= l) ->
  walks d0 w (read_key_page_node geo spec low limit fuel lba level lower upper)
    (fun total o => forall n items nodes, tree_at geo spec (decoded (content d0)) n lower upper is_root lba items nodes ->
       total = zlen items /\ fst o = extend limit (from_key items) (fst (wk_out w)))
    (fun e _ => forall n items nodes, sound_at d0 lba level lower upper is_root (wk_path w) n items nodes -> only_io e).
Proof.
  induction fuel as [|fuel IH]; intros lba level lower upper w is_root Hr Hu Hf Hlv.
  { by destruct (fuel_none _ Hf Hlv). }
  cbn [read_key_page_node]. fold is_root. apply walks_scoped; [done|done| |].
  2: { intros e He n items nodes Hsound. by eapply sound_loads. }
  intros node w1 Hn _ Hp1 Hr1 Ho1. pose proof Hn as (g & Hd & _).
  destruct (fuel_child _ _ _ _ _ _ _ _ Hn Hf) as [Hlow Hf'].
  assert (wk_path (note_page w1) = wk_path w1 /\ wk_dev (note_page w1) = wk_dev w1 /\
          fst (wk_out (note_page w1)) = fst (wk_out w)) as (Hp2 & Hd2 & Ho2).
  { unfold note_page. rewrite Ho1. by destruct (wk_out w). }
  apply walks_modify; [done|]. set (w2 := note_page w1) in *. rewrite <- Hd2 in Hr1.
  apply walks_get, walks_if; intros Hstop.
  { apply walks_ret; [done|]. intros n items nodes Ht. split; [exact (loaded_count _ _ _ _ _ _ _ _ _ _ _ _ Ht Hn)|].
    rewrite <- Ho2, extend_full; [done|lia]. }
  apply walks_if; intros Hleaf.
  { apply walks_modify; [done|]. apply walks_ret; [done|]. intros n items nodes Ht. split; [exact (loaded_count _ _ _ _ _ _ _ _ _ _ _ _ Ht Hn)|]. cbn.
    destruct (loaded_leaf _ _ _ _ _ _ _ _ _ _ _ _ Ht Hn Hleaf) as (_ & -> & _). rewrite Ho2.
    rewrite from_key_drop; [done|]. by destruct (node_valid _ _ (nodes_valid _ _ _ Hd)) as (_ & ? & _). }
  destruct (node_children _ _ (nodes_valid _ _ _ Hd) Hleaf) as (refs & HF & _).
  assert (1 <= tn_level node) as Hlev by (unfold is_leaf in Hleaf; lia).
  eapply walks_bind; [apply (walks_page_children node lower upper _ Hlev) with (refs := refs); [|done|done]| |].
  - intros lba' lo up w' ??. apply (IH lba' (Some (tn_level node - 1))); [done..|]. intros l [= <-]. lia.
  - cbn beta. intros [] w3 Hp3 Hr3 Hq. apply walks_ret; [done|]. intros n items nodes Ht. split; [exact (loaded_count _ _ _ _ _ _ _ _ _ _ _ _ Ht Hn)|].
    destruct (loaded_branch _ _ _ _ _ _ _ _ _ _ _ _ Ht Hn Hleaf) as (m & below & _ & _ & _ & Hch).
    by rewrite (Hq _ _ _ Hch), Ho2.
  - cbn beta. intros e x Hq n items nodes (Ht & _ & Hp).
    destruct (loaded_branch _ _ _ _ _ _ _ _ _ _ _ _ Ht Hn Hleaf) as (m & below & -> & Hln & _ & Hch).
    apply (Hq _ _ _ Hch Hln). rewrite Hp2, Hp1. apply node_at_level in Hn as [Hn _]. by eapply path_above_child.
Qed.
End Page.

Lemma wpi_read_key_page d root low limit :
  ok d -> u64 root ->
  wpi (read_key_page geo root spec low limit) d
    (fun r d' => reads d d' /\ forall items nodes, tree_of geo spec (decoded (content d)) root items nodes ->
       fst r = {| rp_items := take (Z.to_nat limit) (map item_pair (from_key low items)); rp_total_items := zlen items |})
    (fun e d' => reads d d' /\ forall items nodes, tree_of geo spec (decoded (content d)) root items nodes ->
       1 <= zlen low <= MAX_TREE_KEY_BYTES -> only_io e).
Proof.
  intros Hd Hu. unfold wpi, read_key_page. assert (reads d d) as Hr by by apply agree_refl.
  destruct (_ || _) eqn:Hk; [split; [done|]; intros; lia|].
  pose proof (wp_check_tree_lba root (fun _ => True) any_error Hu ltac:(done) ltac:(done)) as Hp.
  destruct (check_tree_lba geo root) as [[]|e|] eqn:Hg; [|split; [done|]; intros ? ? [? _]; congruence|done].
  set (x0 := ([], {| ls_pages_read := 0; ls_peak_page_buffers := 0 |}) : list (bytes * bytes) * TreeLookupStats).
  pose proof (wpi_walk_root d root x0 (read_key_page_node geo spec low limit WALK_FUEL root None None None)
    (fun total o items => total = zlen items /\ fst o = extend limit (from_key low items) []) (fun e _ _ => only_io e) Hg) as H.
  cbv zeta in H. specialize (H ltac:(by apply walks_page_node)). unfold wpi in H.
  destruct (read_key_page_node _ _ _ _ _ _ _ _ _) as [w [total|e|]]; [| |done].
  - cbn [obind]. destruct H as [? Hq]. split; [done|]. intros items nodes Ht. destruct (Hq _ _ Ht) as [-> Ho].
    cbn [fst]. by rewrite Ho, extend_empty.
  - cbn [obind]. destruct H as [? Hq]. split; [done|]. intros items nodes Ht _. by eapply Hq.
Qed.

(** ** Visits *)

Section Visit.
Context {X : Type} (d0 : D) (low high : bytes) (visitor : bytes -> bytes -> io X CoreError unit).
Hypothesis visitor_returns : forall k x s, snd (visitor k x s) <> Panic.

Definition span (items : list TreeItem) : list TreeItem :=
  List.filter (fun item => bytes_leb low (ti_key item) && bytes_leb (ti_key item) high) items.
Definition visit_each (items : list TreeItem) : io X CoreError unit :=
  ieach (fun item => visitor (ti_key item) (ti_value item)) items.

Lemma span_app a b : span (a ++ b) = span a ++ span b.
Proof. apply List.filter_app. Qed.

Lemma span_above h items : within (Some h) None items -> bytes_ltb high h = true -> span items = [].
Proof.
  intros Hw Hh. induction Hw as [|x items [Hx _] _ IH]; [done|]. cbn in *.
  rewrite (proj2 (bytes_leb_false _ high)); [by rewrite andb_false_r|]. by eapply bytes_ltb_leb_trans.
Qed.

Lemma span_below u items : within None (Some u) items -> bytes_leb u low = true -> span items = [].
Proof.
  intros Hw Hu. induction Hw as [|x items [_ Hx] _ IH]; [done|]. cbn in *.
  rewrite (proj2 (bytes_leb_false low _)); [done|]. by eapply bytes_ltb_leb_trans.
Qed.

(** Stopping at the first key past [high] misses nothing in a sorted node. *)
Lemma visit_items_eq items x : sorted items -> visit_items low high visitor items x = visit_each (span items) x.
Proof.
  revert x. induction items as [|i items IH]; intros x Hs; [done|]. apply StronglySorted_inv in Hs as [Hs Hi]. cbn.
  destruct (bytes_ltb high (ti_key i)) eqn:Hh.
  - rewrite (proj2 (bytes_leb_false _ high) Hh), andb_false_r. fold (span items). rewrite (span_above (ti_key i)); [done| |done].
    eapply Forall_impl; [exact Hi|]. cbn. intros y Hy. split; [by apply bytes_ltb_leb|done].
  - rewrite (proj1 (bytes_ltb_false high _) Hh), andb_true_r. destruct (bytes_leb low (ti_key i)); [|by apply IH].
    cbn. unfold ibind. destruct (visitor _ _ x) as [x' [[]|e|]]; [by apply IH|done|done].
Qed.

Abbreviation visit_stopped items := (stopped (fun item => visitor (ti_key item) (ti_value item)) (span items)).

Section VisitChildren.
Context (node : TreeNode) (lower upper : option bytes).
Context (visit_child : Z -> Z -> option bytes -> option bytes -> io (Walk (D := D) X) CoreError unit).
Hypothesis branch : 1 <= tn_level node.
Hypothesis child_visits : forall lba lo up w, reads d0 (wk_dev w) -> u64 lba ->
  walks d0 w (visit_child lba (tn_level node - 1) lo up)
    (fun _ o => forall n items nodes, tree_at geo spec (decoded (content d0)) n lo up false lba items nodes ->
       visit_each (span items) (wk_out w) = (o, Ok tt))
    (fun e o => forall n items nodes,
       sound_at d0 lba (Some (tn_level node - 1)) lo up false (wk_path w) n items nodes -> visit_stopped items (wk_out w) e o).

Lemma walks_visit_children slots refs : Forall2 (child_in node) slots refs -> forall w,
  reads d0 (wk_dev w) ->
  walks d0 w (visit_key_range_children low high geo node lower upper visit_child slots)
    (fun _ o => forall n items nodes, children_at geo spec (decoded (content d0)) n node lower upper slots items nodes ->
       visit_each (span items) (wk_out w) = (o, Ok tt))
    (fun e o => forall n items nodes, children_at geo spec (decoded (content d0)) n node lower upper slots items nodes ->
       tn_level node = Z.of_nat (S n) -> path_above (decoded (content d0)) n (wk_path w) -> visit_stopped items (wk_out w) e o).
Proof.
  induction 1 as [|[sep next] r slots refs (Hc & Hu & Hpos) HF IH]; intros w Hr; cbn [visit_key_range_children].
  { apply walks_ret; [done|]. intros n items nodes Hch. by inversion Hch; subst. }
  cbn [fst] in Hc.
  pose proof (fun n items nodes => child_inv geo spec (decoded (content d0)) n node lower upper sep next slots r items nodes Hc) as Hsplit.
  apply walks_if; intros Hskip.
  { assert (forall n xs xn, tree_at geo spec (decoded (content d0)) n (bound sep lower) (bound next upper) false (cr_lba r) xs xn ->
      span xs = []) as Hempty.
    { intros n xs xn Ht. destruct (proj1 (tree_at_facts geo spec _) _ _ _ _ _ _ _ Ht) as (_ & Hw & _).
      apply orb_true_iff in Hskip as [Hskip|Hskip].
      - destruct (bound next upper) as [u|]; [|done]. apply (span_below u); [|done].
        eapply Forall_impl; [exact Hw|]. by intros x [_ ?].
      - destruct (bound sep lower) as [l|]; [|done]. apply (span_above l); [|done].
        eapply Forall_impl; [exact Hw|]. by intros x [? _]. }
    eapply wpi_mono; [by apply (IH w)| |]; cbn beta.
    - intros _ w' (? & ? & Hq). split; [done|]. split; [done|]. intros n items nodes Hch.
      destruct (Hsplit _ _ _ Hch) as (xs & xn & ys & yn & -> & -> & _ & _ & Ht & Hrest).
      rewrite span_app, (Hempty _ _ _ Ht). by apply (Hq _ _ _ Hrest).
    - intros e w' [? Hq]. split; [done|]. intros n items nodes Hch Hl Hp.
      destruct (Hsplit _ _ _ Hch) as (xs & xn & ys & yn & -> & -> & _ & _ & Ht & Hrest).
      rewrite span_app. eapply stopped_second; [by rewrite (Hempty _ _ _ Ht)|]. by apply (Hq _ _ _ Hrest). }
  apply walks_lift; [done|]. rewrite Hc. apply wp_ok.
  apply walks_lift; [done|]. apply wp_check_tree_lba; [done|intros Hg|].
  2: { intros Hg e n items nodes Hch. by destruct (Hsplit _ _ _ Hch) as (? & ? & ? & ? & _ & _ & ? & _). }
  apply walks_lift; [done|]. apply wp_sub_w; [done|].
  eapply walks_bind; [by apply child_visits| |].
  2: { cbn beta. intros e x Hq n items nodes Hch Hl Hp.
       destruct (Hsplit _ _ _ Hch) as (xs & xn & ys & yn & -> & _ & _ & _ & Ht & _). rewrite span_app. apply stopped_first, (Hq n xs xn).
       split; [done|]. split; [|done]. intros l [= <-]. lia. }
  cbn beta. intros [] w1 Hp1 Hr1 Hq. eapply wpi_mono; [by apply (IH w1)| |]; cbn beta.
  - intros _ w' (? & ? & Hq'). split; [congruence|]. split; [done|]. intros n items nodes Hch.
    destruct (Hsplit _ _ _ Hch) as (xs & xn & ys & yn & -> & -> & _ & _ & Ht & Hrest).
    rewrite span_app. unfold visit_each. rewrite (ieach_then _ _ _ _ _ (Hq _ _ _ Ht)). by apply (Hq' _ _ _ Hrest).
  - intros e w' [? Hq']. split; [done|]. intros n items nodes Hch Hl Hp.
    destruct (Hsplit _ _ _ Hch) as (xs & xn & ys & yn & -> & _ & _ & _ & Ht & Hrest).
    rewrite span_app. eapply stopped_second; [by eapply Hq|]. apply (Hq' _ _ _ Hrest Hl). by rewrite Hp1.
Qed.
End VisitChildren.

Lemma walks_visit_node fuel : forall is_root lba level lower upper w,
  reads d0 (wk_dev w) -> u64 lba -> fuel_for level fuel -> (forall l, level = Some l -> 0 <= l) ->
  walks d0 w (visit_key_range_node low high visitor geo spec fuel is_root lba level lower upper)
    (fun _ o => forall n items nodes, tree_at geo spec (decoded (content d0)) n lower upper is_root lba items nodes ->
       visit_each (span items) (wk_out w) = (o, Ok tt))
    (fun e o => forall n items nodes, sound_at d0 lba level lower upper is_root (wk_path w) n items nodes ->
       visit_stopped items (wk_out w) e o).
Proof.
  induction fuel as [|fuel IH]; intros is_root lba level lower upper w Hr Hu Hf Hlv.
  { by destruct (fuel_none _ Hf Hlv). }
  cbn [visit_key_range_node]. apply walks_scoped; [done|done| |].
  2: { intros e He n items nodes Hsound. apply stopped_start. by eapply sound_loads. }
  intros node w1 Hn _ Hp1 Hr1 Ho1. pose proof Hn as (g & Hd & _).
  destruct (fuel_child _ _ _ _ _ _ _ _ Hn Hf) as [Hlow Hf']. apply walks_if; intros Hleaf.
  { destruct (node_valid _ _ (nodes_valid _ _ _ Hd)) as (_ & Hs & _). unfold walks, wpi, on_out, izoom. rewrite Ho1, visit_items_eq by done.
    pose proof (ieach_returns (fun item => visitor (ti_key item) (ti_value item)) (span (tn_items node)) (wk_out w)
      (fun i s => visitor_returns _ _ s)) as Hret. fold (visit_each (span (tn_items node))) in Hret.
    destruct (visit_each (span (tn_items node)) (wk_out w)) as [x [[]|e|]] eqn:Hv; [| |done]; cbn.
    - split; [done|]. split; [done|]. intros n items nodes Ht.
      by destruct (loaded_leaf _ _ _ _ _ _ _ _ _ _ _ _ Ht Hn Hleaf) as (_ & -> & _).
    - split; [done|]. intros n items nodes (Ht & _). left.
      by destruct (loaded_leaf _ _ _ _ _ _ _ _ _ _ _ _ Ht Hn Hleaf) as (_ & -> & _). }
  destruct (node_children _ _ (nodes_valid _ _ _ Hd) Hleaf) as (refs & HF & _).
  assert (1 <= tn_level node) as Hlev by (unfold is_leaf in Hleaf; lia).
  eapply wpi_mono; [apply (walks_visit_children node lower upper _ Hlev) with (refs := refs); [|done|done]| |]; cbn beta.
  - intros lba' lo up w' ??. apply IH; [done..|]. intros l [= <-]. lia.
  - intros [] w2 (Hp2 & Hr2 & Hq). split; [done|]. split; [done|]. intros n items nodes Ht.
    destruct (loaded_branch _ _ _ _ _ _ _ _ _ _ _ _ Ht Hn Hleaf) as (m & below & _ & _ & _ & Hch).
    rewrite <- Ho1. by eapply Hq.
  - intros e w2 [? Hq]. split; [done|]. intros n items nodes (Ht & _ & Hp).
    destruct (loaded_branch _ _ _ _ _ _ _ _ _ _ _ _ Ht Hn Hleaf) as (m & below & -> & Hln & _ & Hch).
    rewrite <- Ho1. apply (Hq _ _ _ Hch Hln). rewrite Hp1. apply node_at_level in Hn as [Hn _]. by eapply path_above_child.
Qed.
End Visit.

Lemma wpi_visit_key_range {X} low high (visitor : bytes -> bytes -> io X CoreError unit) d x root :
  (forall k y s, snd (visitor k y s) <> Panic) -> ok d -> u64 root ->
  wpi (visit_key_range low high visitor geo root spec) (d, x)
    (fun _ s => reads d (fst s) /\ forall items nodes, tree_of geo spec (decoded (content d)) root items nodes ->
       visit_each visitor (span low high items) x = (snd s, Ok tt))
    (fun e s => reads d (fst s) /\ forall items nodes, tree_of geo spec (decoded (content d)) root items nodes ->
       1 <= zlen low <= MAX_TREE_KEY_BYTES -> zlen high <= MAX_TREE_KEY_BYTES -> stopped (fun item => visitor (ti_key item) (ti_value item)) (span low high items) x e (snd s)).
Proof.
  intros Hv Hd Hu. unfold wpi, visit_key_range. assert (reads d d) as Hr by by apply agree_refl.
  destruct (_ || _) eqn:Hk; [split; [done|]; intros; lia|].
  pose proof (wp_check_tree_lba root (fun _ => True) any_error Hu ltac:(done) ltac:(done)) as Hp.
  destruct (check_tree_lba geo root) as [[]|e|] eqn:Hg; [|split; [done|]; intros ? ? [? _]; congruence|done].
  pose proof (wpi_walk_root d root x (visit_key_range_node low high visitor geo spec WALK_FUEL true root None None None)
    (fun _ o items => visit_each visitor (span low high items) x = (o, Ok tt))
    (fun e o items => stopped (fun item => visitor (ti_key item) (ti_value item)) (span low high items) x e o) Hg) as H.
  cbv zeta in H. specialize (H ltac:(by apply walks_visit_node)). unfold wpi in H. cbn [fst snd].
  destruct (visit_key_range_node _ _ _ _ _ _ _ _ _ _ _) as [w [[]|e|]]; [done| |done].
  destruct H as [? Hq]. split; [done|]. intros items nodes Ht _ _. by eapply Hq.
Qed.
End Readers.

(** ** What the readers promise *)

Definition tree_height (nodes : list (Z * TreeNode)) : Z :=
  match nodes with (_, node) :: _ => tn_level node + 1 | [] => 0 end.

(** The reader returns, only reads, and on a tree it answers [Q] of the tree's
    items or passes on an error of the device. *)
Definition answers {D : Type} {device : BlockDevice Decoded D} {contract : DeviceContract Decoded D core_decodes}
    {A : Type} (geo : Geometry) (spec : TreeSpec) (d : D) (root : Z) (m : io D CoreError A)
    (Q : A -> list TreeItem -> list (Z * TreeNode) -> Prop) : Prop :=
  wpi m d
    (fun a d' => reads d d' /\ forall items nodes, tree_of geo spec (decoded (view (decodes := core_decodes) d)) root items nodes ->
       Q a items nodes)
    (fun e d' => reads d d' /\ forall items nodes, tree_of geo spec (decoded (view (decodes := core_decodes) d)) root items nodes ->
       only_io e).

Lemma answers_run {D : Type} {device : BlockDevice Decoded D} {contract : DeviceContract Decoded D core_decodes}
    {A : Type} geo spec (d : D) root (m : io D CoreError A) Q items nodes :
  answers geo spec d root m Q -> tree_of geo spec (decoded (view (decodes := core_decodes) d)) root items nodes ->
  forall a, snd (m d) = Ok a -> Q a items nodes.
Proof. unfold answers, wpi. intros H Ht a Ha. destruct (m d) as [d' r]. cbn in Ha. subst r. destruct H as [_ H]. by apply H. Qed.

(** C20: Point reads of a tree, on any device that keeps the block contract
    and for any block content: [lookup] and [lookup_floor] return without a
    panic and without writing.  When the blocks hold a tree, [lookup] answers
    the value of the key in the list of the tree's items, [lookup_floor] the
    last item at or below the key, each after reading one page per level; an
    error is then an error of the device. *)
Theorem tree_point_reads {D : Type} {device : BlockDevice Decoded D} {contract : DeviceContract Decoded D core_decodes}
    (geo : Geometry) (spec : TreeSpec) (d : D) (root : Z) (key : bytes) :
  WfGeometry geo -> dev_ok (decodes := core_decodes) d -> u64 root -> 1 <= zlen key <= MAX_TREE_KEY_BYTES ->
  answers geo spec d root (tree_lookup geo root spec key) (fun r items nodes =>
    fst r = value_of key items /\ ls_pages_read (snd r) = tree_height nodes) /\
  answers geo spec d root (lookup_floor geo root spec key) (fun r items nodes =>
    fst r = floor_of key items /\ ls_pages_read (snd r) = tree_height nodes).
Proof.
  intros WF Hd Hu Hk.
  assert (forall nodes n, (exists node, hd_error nodes = Some (root, node) /\ n = tn_level node + 1) -> n = tree_height nodes) as Hh.
  { intros nodes n (node & Hh & ->). destruct nodes; [done|]. injection Hh as ->. done. }
  split; (eapply wpi_mono; [first [by apply (wpi_tree_lookup geo spec d)|by apply (wpi_lookup_floor geo spec d)]| |]; cbn beta).
  1, 3: intros r d' [? Hq]; split; [done|]; intros items nodes Ht; destruct (Hq _ _ Ht); auto.
  all: intros e d' [? Hq]; split; [done|]; intros items nodes Ht; by apply (Hq _ _ Ht).
Qed.


(** [visit_key_range] calls its visitor on exactly the items of the tree
    with [low <= key <= high], once each and in key order, and stops at the
    visitor's first error.  When the device fails, the visitor has seen a
    prefix of them.  On any other block content it returns an error or an
    answer, without a panic and without writing. *)
Theorem tree_visits_in_order {D X : Type} {device : BlockDevice Decoded D} {contract : DeviceContract Decoded D core_decodes}
    (geo : Geometry) (spec : TreeSpec) (d : D) (root : Z) (low high : bytes)
    (visitor : bytes -> bytes -> io X CoreError unit) (x : X) :
  WfGeometry geo -> dev_ok (decodes := core_decodes) d -> u64 root ->
  1 <= zlen low <= MAX_TREE_KEY_BYTES -> zlen high <= MAX_TREE_KEY_BYTES ->
  (forall key value s, snd (visitor key value s) <> Panic) ->
  wpi (visit_key_range low high visitor geo root spec) (d, x)
    (fun _ s => reads d (fst s) /\ forall items nodes, tree_of geo spec (decoded (view (decodes := core_decodes) d)) root items nodes ->
       visit_each visitor (span low high items) x = (snd s, Ok tt))
    (fun e s => reads d (fst s) /\ forall items nodes, tree_of geo spec (decoded (view (decodes := core_decodes) d)) root items nodes ->
       visit_each visitor (span low high items) x = (snd s, Err e) \/
       only_io e /\ exists seen rest, span low high items = seen ++ rest /\ visit_each visitor seen x = (snd s, Ok tt)).
Proof.
  intros WF Hd Hu Hl Hh Hv. eapply wpi_mono; [by apply (wpi_visit_key_range geo spec)|done|]; cbn beta.
  intros e s [? Hq]. split; [done|]. intros items nodes Ht. by apply (Hq _ _ Ht).
Qed.

(** ** A sample tree *)

Definition sample_item (k v : Z) : TreeItem := {| ti_key := key_u64 k; ti_value := le_split 2 v |}.

Definition left_leaf : TreeNode :=
  {| tn_kind := ExtentMap; tn_owner := 17; tn_level := 0; tn_subtree_items := 2; tn_leftmost_child := 0;
     tn_leftmost_items := 0; tn_items := [sample_item 1 11; sample_item 3 33] |}.
Definition right_leaf : TreeNode :=
  {| tn_kind := ExtentMap; tn_owner := 17; tn_level := 0; tn_subtree_items := 2; tn_leftmost_child := 0;
     tn_leftmost_items := 0; tn_items := [sample_item 5 55; sample_item 9 99] |}.
Definition sample_root : TreeNode :=
  {| tn_kind := ExtentMap; tn_owner := 17; tn_level := 1; tn_subtree_items := 4; tn_leftmost_child := 45;
     tn_leftmost_items := 2;
     tn_items := [ {| ti_key := key_u64 5; ti_value := le_split 8 46 ++ le_split 8 2 |} ] |}.

Definition node_block (node : TreeNode) : bytes :=
  match TreeNode_encode node 4096 7 with Ok b => b | _ => zeros 4096 end.

Definition tree_volume : MemoryBackend :=
  {| mb_block_size := 4096; mb_total_blocks := 60;
     mb_blocks := <[44 := node_block sample_root]> (<[45 := node_block left_leaf]> (<[46 := node_block right_leaf]> ∅)) |}.

Lemma tree_volume_ok : memory_ok tree_volume.
Proof.
  split; [by vm_compute|]. split; [by vm_compute|]. cbn [mb_blocks tree_volume].
  repeat (apply map_Forall_insert_2; [vm_compute; reflexivity|]). apply map_Forall_empty.
Qed.

(** A volume behind a cache of two blocks. *)
Definition cached_volume (volume : MemoryBackend) : CachedDevice Decoded MemoryBackend :=
  match CachedDevice_new (E := BlockError) volume 2 [true] with
  | Ok c => c
  | _ => {| cd_inner := volume; cd_capacity := 0; cd_index := ∅; cd_slots := []; cd_data := [];
            cd_free := []; cd_newest := NONE; cd_oldest := NONE;
            cd_shared := {| sh_requested := NO_REQUEST; sh_capacity := 0; sh_hits := 0; sh_misses := 0;
                            sh_evictions := 0; sh_invalidations := 0 |}; cd_memory := [] |}
  end.

Lemma cached_volume_ok volume :
  memory_ok volume -> dev_ok (decodes := core_decodes) (cached_volume volume) /\ cd_inner (cached_volume volume) = volume.
Proof.
  intros Hv. unfold cached_volume. pose proof (CachedDevice_new_ok (decodes := core_decodes) volume 2 [true] Hv ltac:(by vm_compute)) as H.
  by destruct (CachedDevice_new volume 2 [true]) as [c| |].
Qed.

Definition tree_device : CachedDevice Decoded MemoryBackend := cached_volume tree_volume.

Lemma tree_device_ok : dev_ok (decodes := core_decodes) tree_device /\ cd_inner tree_device = tree_volume.
Proof. apply cached_volume_ok, tree_volume_ok. Qed.

Definition sample_spec : TreeSpec := {| ts_kind := ExtentMap; ts_owner := 17; ts_max_generation := 9 |}.

Definition sample_items : list TreeItem := [sample_item 1 11; sample_item 3 33; sample_item 5 55; sample_item 9 99].
Definition sample_nodes : list (Z * TreeNode) := [(44, sample_root); (45, left_leaf); (46, right_leaf)].

Lemma sample_tree : tree_of small_geometry sample_spec (decoded (peek tree_volume)) 44 sample_items sample_nodes.
Proof.
  assert (forall lba node lower upper is_root, TreeNode_decode (peek tree_volume lba) = Ok (node, 7) ->
    validate_node_identity node 7 sample_spec None = Ok tt -> validate_node_range node lower upper is_root = Ok tt ->
    node_at sample_spec (decoded (peek tree_volume)) lba None lower upper is_root node) as Hnode by (intros; by exists 7).
  split; [vm_compute; reflexivity|]. exists 1%nat.
  apply (branch_at small_geometry sample_spec (decoded (peek tree_volume)) 0%nat None None true 44 sample_root sample_items
    [(45, left_leaf); (46, right_leaf)]); [apply Hnode; vm_compute; reflexivity|reflexivity|].
  apply (more_children small_geometry sample_spec (decoded (peek tree_volume)) 0%nat sample_root None None None
    (hd_error (tn_items sample_root)) [(hd_error (tn_items sample_root), None)]
    {| cr_lba := 45; cr_subtree_items := 2 |} (tn_items left_leaf) [(45, left_leaf)] (tn_items right_leaf) [(46, right_leaf)]);
    [reflexivity|vm_compute; reflexivity|apply leaf_at; [apply Hnode; vm_compute; reflexivity|reflexivity]|reflexivity|].
  apply (more_children small_geometry sample_spec (decoded (peek tree_volume)) 0%nat sample_root None None (hd_error (tn_items sample_root))
    None [] {| cr_lba := 46; cr_subtree_items := 2 |} (tn_items right_leaf) [(46, right_leaf)] [] []);
    [vm_compute; reflexivity|vm_compute; reflexivity|apply leaf_at; [apply Hnode; vm_compute; reflexivity|reflexivity]|
     reflexivity|constructor].
Qed.

Lemma sample_tree_device :
  tree_of small_geometry sample_spec (decoded (view (decodes := core_decodes) tree_device)) 44 sample_items sample_nodes.
Proof.
  change (view (decodes := core_decodes) tree_device) with (peek (cd_inner tree_device)).
  rewrite (proj2 tree_device_ok). exact sample_tree.
Qed.

Lemma tree_point_reads_witness :
  snd (tree_lookup small_geometry 44 sample_spec (key_u64 3) tree_device) =
    Ok (Some (le_split 2 33), {| ls_pages_read := 2; ls_peak_page_buffers := 2 |}) /\
  value_of (key_u64 3) sample_items = Some (le_split 2 33).
Proof.
  destruct (tree_point_reads small_geometry sample_spec tree_device 44 (key_u64 3)
    small_geometry_wf (proj1 tree_device_ok) ltac:(by vm_compute) ltac:(by vm_compute)) as [H _].
  assert (snd (tree_lookup small_geometry 44 sample_spec (key_u64 3) tree_device) =
    Ok (Some (le_split 2 33), {| ls_pages_read := 2; ls_peak_page_buffers := 2 |})) as E by (vm_compute; reflexivity).
  split; [exact E|].
  destruct (answers_run _ _ _ _ _ _ _ _ H sample_tree_device _ E) as [Hv _]. exact (eq_sym Hv).
Defined.


(** A visitor that collects what it is given, and refuses the key 9. *)
Definition collecting (key value : bytes) : io (list bytes) CoreError unit := fun s =>
  if bytes_eqb key (key_u64 9) then (s, Err NoSpace) else (s ++ [value], Ok tt).

Lemma collecting_returns key value s : snd (collecting key value s) <> Panic.
Proof. unfold collecting. by destruct (bytes_eqb key _). Qed.

Definition sample_visit : CachedDevice Decoded MemoryBackend * list bytes * outcome CoreError unit :=
  visit_key_range (key_u64 2) (key_u64 8) collecting small_geometry 44 sample_spec (tree_device, []).

Lemma tree_visits_in_order_witness :
  snd sample_visit = Ok tt /\
  visit_each collecting (span (key_u64 2) (key_u64 8) sample_items) [] = (snd (fst sample_visit), Ok tt).
Proof.
  pose proof (tree_visits_in_order small_geometry sample_spec tree_device 44 (key_u64 2) (key_u64 8) collecting []
    small_geometry_wf (proj1 tree_device_ok) ltac:(by vm_compute) ltac:(by vm_compute) ltac:(by vm_compute)
    collecting_returns) as H.
  assert (snd sample_visit = Ok tt) as E by (vm_compute; reflexivity). split; [exact E|].
  unfold wpi in H. fold sample_visit in H. revert H E. destruct sample_visit as [s o]. intros H E. cbn [fst snd] in *.
  rewrite E in H. destruct H as [_ H]. exact (H _ _ sample_tree_device).
Defined.
