(* ===== verification/TreeVerify.v ===== *)
(** * The tree verifier (crates/afsplus-core/src/tree.rs, visit_tree_nodes and validate_tree)

    The verifier accepts exactly the trees: a summary is returned only for
    blocks that hold a tree, its numbers are those of the tree, and the
    visitor has seen every node once in preorder; on a tree it can fail only
    by the device or the visitor. *)

From Stdlib Require Import Sorted.
From S2P Require Import Prelude Crc32c Format Header Codec TreeNode Geometry Checkpoint Object Device Cache Core Tree TreeSpec TreeReaders.

Section Verifier.
Context {D X : Type} {device : BlockDevice Decoded D} {contract : DeviceContract Decoded D core_decodes}.
Context (geo : Geometry) {WF : WfGeometry geo} (spec : TreeSpec).
Context (visitor : Z -> TreeNode -> io X CoreError unit) (retain : bool) (d0 : D).
Hypothesis visitor_returns : forall lba node x, snd (visitor lba node x) <> Panic.

Abbreviation content := (view (decodes := core_decodes)).
Abbreviation tree := (tree_at geo spec (decoded (content d0))).
Abbreviation children := (children_at geo spec (decoded (content d0))).

Definition visit_node (p : Z * TreeNode) : io X CoreError unit := visitor (fst p) (snd p).

Lemma wpi_read_checked d lba level lower upper is_root :
  reads d0 d -> u64 lba ->
  wpi (read_checked geo spec lba level lower upper is_root) d
    (fun node d' => reads d0 d' /\ node_at spec (decoded (content d0)) lba level lower upper is_root node)
    (fun e d' => reads d0 d' /\ (only_io e \/ forall node, ~ node_at spec (decoded (content d0)) lba level lower upper is_root node)).
Proof.
  intros Hd Hl. unfold read_checked. apply wpi_bind, wpi_of_block.
  eapply wpi_mono; [apply (read_contract (decodes := core_decodes)); [apply Hd|done]| |].
  2: { intros e d' ?. split; [by eapply agree_trans|]. left. by exists e. }
  intros buf d1 (Hi & _ & -> & Hr). assert (reads d0 d1) as Hd1 by by eapply agree_trans.
  rewrite (reads_view d0 d lba Hd (reads_inside _ _ _ Hd Hi)).
  pose proof (TreeNode_decode_inv (content d0 lba)) as Hinv. apply wpi_bind, wpi_lift.
  fold (decoded (content d0) lba) in *. destruct (decoded (content d0) lba) as [[node g]|e|] eqn:Hdec; [|cbn|done].
  2: { split; [done|]. right. intros node (g & Hdec' & _). congruence. }
  apply wp_ok, wpi_guard.
  { unfold validate_node_identity. by repeat case_match. }
  2: { intros e He. split; [done|]. right. intros node' (g' & Hdec' & Hid & _). congruence. }
  intros Hid. apply wpi_guard; [apply validate_range_total| |].
  2: { intros e He. split; [done|]. right. intros node' (g' & Hdec' & _ & Hra). congruence. }
  intros Hra. apply wpi_ret. split; [done|]. by exists g.
Qed.

(** ** What a check establishes *)

Definition first_key (items : list TreeItem) : option bytes := option_map ti_key (hd_error items).
Definition last_key (items : list TreeItem) : option bytes := option_map ti_key (last items).

Definition summary (n : nat) (items : list TreeItem) (nodes : list (Z * TreeNode)) : CheckedSubtree :=
  {| cs_items := zlen items; cs_nodes := zlen nodes; cs_level := Z.of_nat n;
     cs_min_key := first_key items; cs_max_key := last_key items |}.

(** The visited set after a walk over [nodes]. *)
Definition visited_after (nodes : list (Z * TreeNode)) (visited : gset Z) : gset Z :=
  if retain then list_to_set nodes.*1 ∪ visited else visited.

Definition apart (nodes : list (Z * TreeNode)) (visited : gset Z) : Prop := forall p, p ∈ nodes -> fst p ∉ visited.

Definition checks {A} (c : Check (D := D) (X := X)) (m : io Check CoreError A) (Q : A -> gset Z -> X -> Prop)
    (R : CoreError -> X -> Prop) : Prop :=
  wpi m c (fun a c' => reads d0 (ck_dev c') /\ Q a (ck_visited c') (ck_out c'))
          (fun e c' => reads d0 (ck_dev c') /\ R e (ck_out c')).

Lemma checks_bind {A B} c (m : io Check CoreError A) (k : A -> io Check CoreError B) Q Q' R R' :
  checks c m Q R ->
  (forall a c', reads d0 (ck_dev c') -> Q a (ck_visited c') (ck_out c') -> checks c' (k a) Q' R') ->
  (forall e x, R e x -> R' e x) -> checks c (ibind m k) Q' R'.
Proof.
  intros Hm Hk HR. apply wpi_bind. eapply wpi_mono; [exact Hm| |].
  - intros a c' (Hr & Hq). by apply Hk.
  - intros e c' [? ?]. split; [done|]. by apply HR.
Qed.

Lemma checks_lift {A B} c (o : outcome CoreError A) (k : A -> io Check CoreError B) Q R :
  reads d0 (ck_dev c) -> wp o (fun a => checks c (k a) Q R) (fun e => R e (ck_out c)) -> checks c (let! a := ilift o in k a) Q R.
Proof. intros Hr H. unfold checks, wpi, ibind, ilift. by destruct o. Qed.

Lemma checks_if {A} c (b : bool) (m m' : io Check CoreError A) Q R :
  (b = true -> checks c m Q R) -> (b = false -> checks c m' Q R) -> checks c (if b then m else m') Q R.
Proof. destruct b; auto. Qed.

Lemma checks_ret {A} c (a : A) Q R : reads d0 (ck_dev c) -> Q a (ck_visited c) (ck_out c) -> checks c (iret a) Q R.
Proof. done. Qed.

Lemma checks_err {A} c e (Q : A -> gset Z -> X -> Prop) R : reads d0 (ck_dev c) -> R e (ck_out c) -> checks c (ierr e) Q R.
Proof. done. Qed.

Lemma checks_visit {B} c lba node (k : io Check CoreError B) Q R :
  reads d0 (ck_dev c) ->
  (forall c', ck_dev c' = ck_dev c -> ck_visited c' = ck_visited c -> visitor lba node (ck_out c) = (ck_out c', Ok tt) -> checks c' k Q R) ->
  (forall e x, visitor lba node (ck_out c) = (x, Err e) -> R e x) ->
  checks c (do! izoom ck_out set_ck_out (visitor lba node) in k) Q R.
Proof.
  intros Hr Hk HR. unfold checks, wpi, ibind, izoom. pose proof (visitor_returns lba node (ck_out c)).
  destruct (visitor lba node (ck_out c)) as [x [[]|e|]] eqn:Hv; [|split; [done|by apply HR]|done]. by apply Hk.
Qed.

(** ** The children of a node *)

Definition totals_after (t : Totals) (items : list TreeItem) (nodes : list (Z * TreeNode)) : Totals :=
  {| to_items := to_items t + zlen items; to_nodes := to_nodes t + zlen nodes;
     to_min := match to_min t with None => first_key items | Some k => Some k end;
     to_max := match last_key items with Some k => Some k | None => to_max t end |}.

Lemma totals_nil t : totals_after t [] [] = t.
Proof. destruct t as [i n [k|] m]; unfold totals_after; cbn; by rewrite !Z.add_0_r. Qed.

Lemma totals_app t xs xn ys yn : totals_after (totals_after t xs xn) ys yn = totals_after t (xs ++ ys) (xn ++ yn).
Proof.
  unfold totals_after. cbn [to_items to_nodes to_min to_max]. rewrite !zlen_app, !Z.add_assoc. f_equal.
  - destruct (to_min t); [done|]. by destruct xs.
  - destruct ys as [|y ys _] using rev_ind; [by rewrite app_nil_r|]. unfold last_key. by rewrite app_assoc, !last_snoc.
Qed.

Lemma add_checked_eq t n items nodes :
  0 <= to_items t -> 0 <= to_nodes t ->
  (to_items t + zlen items < 2 ^ 64 -> to_nodes t + zlen nodes < 2 ^ 64 ->
   add_checked t (summary n items nodes) = Ok (totals_after t items nodes)) /\
  wp (add_checked t (summary n items nodes)) (fun t' => t' = totals_after t items nodes) any_error.
Proof.
  intros Hi Hn. unfold add_checked, checked_add. cbn [cs_items cs_nodes cs_min_key cs_max_key summary].
  split.
  - intros. replace (_ <? _) with true by lia. cbn [ok_or obind]. by replace (_ <? _) with true by lia.
  - destruct (_ <? _); [|done]. cbn [ok_or obind]. by destruct (_ <? _).
Qed.

Lemma visited_after_app a b visited : visited_after b (visited_after a visited) = visited_after (a ++ b) visited.
Proof. unfold visited_after. destruct retain; [|done]. rewrite fmap_app, list_to_set_app_L, (assoc_L (∪)). by rewrite (comm_L (∪) (list_to_set b.*1)). Qed.

Lemma apart_after a b visited : apart (a ++ b) visited -> no_shared (a ++ b) -> apart b (visited_after a visited).
Proof.
  unfold apart, no_shared, visited_after. intros Ha Hn p Hp. rewrite fmap_app in Hn. apply NoDup_app in Hn as (_ & Hn & _).
  assert (fst p ∉ visited) by (apply Ha, elem_of_app; by right). destruct retain; [|done].
  intros [Hin|?]%elem_of_union; [|done]. apply elem_of_list_to_set in Hin. apply (Hn _ Hin). by apply list_elem_of_fmap_2.
Qed.

Section Children.
Context (node : TreeNode) (lower upper : option bytes) (n : nat).
Context (check_child : Z -> Z -> option bytes -> option bytes -> io (Check (D := D) (X := X)) CoreError CheckedSubtree).
Hypothesis branch : tn_level node = Z.of_nat (S n).
Hypothesis child_checked : forall lba lo up c, reads d0 (ck_dev c) -> u64 lba ->
  checks c (check_child lba (tn_level node - 1) lo up)
    (fun a visited x => exists items nodes, tree n lo up false lba items nodes /\ a = summary n items nodes /\
       visited = visited_after nodes (ck_visited c) /\ ieach visit_node nodes (ck_out c) = (x, Ok tt))
    (fun e x => forall items nodes, tree n lo up false lba items nodes -> apart nodes (ck_visited c) ->
       zlen nodes < 2 ^ 64 -> stopped visit_node nodes (ck_out c) e x).

(** A child that was checked is the child of the tree. *)
Lemma child_separator sep next child items nodes :
  tree n (bound sep lower) (bound next upper) false child items nodes -> check_separator sep (summary n items nodes) = Ok tt.
Proof.
  intros Ht. destruct sep as [item|]; [|done].
  destruct (proj1 (tree_at_facts geo spec _) _ _ _ _ _ _ _ Ht) as (_ & _ & Hne & Hst & _). cbn.
  destruct items as [|first items]; [by destruct (Hne eq_refl)|]. cbn.
  by rewrite (Hst (ti_key item) first eq_refl eq_refl), (proj2 (bytes_eqb_eq _ _)).
Qed.

Lemma checks_children slots refs : Forall2 (child_in node) slots refs -> forall t c,
  reads d0 (ck_dev c) -> 0 <= to_items t -> 0 <= to_nodes t ->
  checks c (validate_children geo node lower upper check_child t slots)
    (fun t' visited x => exists items nodes, children n node lower upper slots items nodes /\
       t' = totals_after t items nodes /\ visited = visited_after nodes (ck_visited c) /\
       ieach visit_node nodes (ck_out c) = (x, Ok tt))
    (fun e x => forall items nodes, children n node lower upper slots items nodes -> apart nodes (ck_visited c) ->
       no_shared nodes -> to_items t + zlen items < 2 ^ 64 -> to_nodes t + zlen nodes < 2 ^ 64 ->
       stopped visit_node nodes (ck_out c) e x).
Proof.
  induction 1 as [|[sep next] r slots refs (Hc & Hu & Hpos) HF IH]; intros t c Hr Hti Htn; cbn [validate_children].
  { apply checks_ret; [done|]. exists [], []. split; [constructor|]. rewrite totals_nil. unfold visited_after. split; [done|].
    split; [|done]. destruct retain; [|done]. cbn. by rewrite (left_id_L ∅ (∪)). }
  cbn [fst] in Hc. apply checks_lift; [done|]. rewrite Hc. apply wp_ok.
  pose proof (fun items nodes => child_inv geo spec (decoded (content d0)) n node lower upper sep next slots r items nodes Hc) as Hsplit.
  apply checks_lift; [done|]. apply wp_check_tree_lba; [done|done|intros Hg|].
  2: { intros Hg e items nodes Hch. by destruct (Hsplit _ _ Hch) as (? & ? & ? & ? & _ & _ & ? & _). }
  apply checks_lift; [done|]. apply wp_sub_w; [lia|]. eapply checks_bind; [by apply child_checked| |]; cbn beta.
  2: { intros e x Hq items nodes Hch Ha _ _ Hz. destruct (Hsplit _ _ Hch) as (xs & xn & ys & yn & -> & -> & _ & _ & Ht & _).
       rewrite zlen_app in Hz. pose proof (zlen_nonneg yn). apply stopped_first, (Hq xs xn Ht); [|lia].
       intros p Hp. apply Ha, elem_of_app. by left. }
  intros a c1 Hr1 (xs & xn & Ht & -> & Hv1 & Hx1).
  assert (forall items nodes, children n node lower upper ((sep, next) :: slots) items nodes ->
    exists ys yn, items = xs ++ ys /\ nodes = xn ++ yn /\ zlen xs = cr_subtree_items r /\
      children n node lower upper slots ys yn) as Hrest.
  { intros items nodes Hch. destruct (Hsplit _ _ Hch) as (xs' & xn' & ys & yn & -> & -> & _ & Hz & Ht' & Hrest).
    destruct (proj1 (tree_at_unique geo spec _) _ _ _ _ _ _ _ Ht _ _ _ Ht') as (_ & -> & ->). by exists ys, yn. }
  apply checks_if; intros Hcount.
  { apply checks_err; [done|]. intros items nodes Hch. destruct (Hrest _ _ Hch) as (_ & _ & _ & _ & Hz & _).
    cbn [cs_items summary] in Hcount. lia. }
  apply checks_lift; [done|]. rewrite (child_separator _ _ _ _ _ Ht). apply wp_ok.
  destruct (add_checked_eq t n xs xn Hti Htn) as [Hadd Hadd']. apply checks_lift; [done|].
  destruct (add_checked t (summary n xs xn)) as [t1|e|]; [|cbn|done].
  2: { intros items nodes Hch Ha _ Hz Hz'. destruct (Hrest _ _ Hch) as (ys & yn & -> & -> & _).
       rewrite zlen_app in Hz. rewrite zlen_app in Hz'. pose proof (zlen_nonneg yn). pose proof (zlen_nonneg ys).
       by specialize (Hadd ltac:(lia) ltac:(lia)). }
  cbn in Hadd'. subst t1. apply wp_ok. pose proof (zlen_nonneg xs). pose proof (zlen_nonneg xn).
  eapply wpi_mono; [apply (IH (totals_after t xs xn) c1 Hr1); cbn; lia| |]; cbn beta.
  - intros t' c' (? & ys & yn & Hch & -> & -> & Hx). split; [done|]. exists (xs ++ ys), (xn ++ yn).
    split; [eapply more_children; try done; cbn [cs_items summary] in Hcount; lia|].
    rewrite totals_app, Hv1, visited_after_app. split; [done|]. split; [done|]. by rewrite (ieach_then _ _ _ _ _ Hx1).
  - intros e c' [? Hq]. split; [done|]. intros items nodes Hch Ha Hn Hz Hz'. destruct (Hrest _ _ Hch) as (ys & yn & -> & -> & _ & Hys).
    eapply stopped_second; [exact Hx1|]. apply (Hq ys yn Hys).
    + rewrite Hv1. by apply apart_after.
    + unfold no_shared in *. rewrite fmap_app in Hn. by apply NoDup_app in Hn as (_ & _ & ?).
    + cbn. rewrite zlen_app in Hz. lia.
    + cbn. rewrite zlen_app in Hz'. lia.
Qed.
End Children.

(** Entering and leaving a block. *)
Lemma leave_visited lba node nodes visited :
  lba ∉ visited ->
  (if retain then visited_after nodes ({[lba]} ∪ visited) else visited_after nodes ({[lba]} ∪ visited) ∖ {[lba]}) =
  visited_after ((lba, node) :: nodes) visited.
Proof.
  intros Hni. unfold visited_after. destruct retain; cbn.
  - rewrite (assoc_L (∪)). by rewrite (comm_L (∪) (list_to_set _) {[lba]}).
  - rewrite difference_union_distr_l_L, difference_diag_L, (left_id_L ∅ (∪)). apply difference_disjoint_L.
    apply disjoint_singleton_r. done.
Qed.

Lemma forget_eq lba (c : Check (D := D) (X := X)) :
  ck_dev (forget retain lba c) = ck_dev c /\ ck_out (forget retain lba c) = ck_out c /\
  ck_visited (forget retain lba c) = if retain then ck_visited c else ck_visited c ∖ {[lba]}.
Proof. unfold forget. by destruct retain. Qed.

Lemma checks_leave {A} c lba (a : A) Q R :
  reads d0 (ck_dev c) -> Q a (if retain then ck_visited c else ck_visited c ∖ {[lba]}) (ck_out c) ->
  checks c (do! imodify (forget retain lba) in iret a) Q R.
Proof.
  intros Hr Hq. unfold checks, wpi, ibind, imodify, iret. destruct (forget_eq lba c) as (-> & -> & ->). done.
Qed.

Section Subtree.
Context (c : Check (D := D) (X := X)) (is_root : bool) (lba : Z) (level : option Z) (lower upper : option bytes).

(** A subtree was accepted, or refused. *)
Definition accepted (a : CheckedSubtree) (visited : gset Z) (x : X) : Prop :=
  exists n items nodes, tree n lower upper is_root lba items nodes /\ level_fits level n /\
    a = summary n items nodes /\ visited = visited_after nodes (ck_visited c) /\
    ieach visit_node nodes (ck_out c) = (x, Ok tt).
Definition refused (e : CoreError) (x : X) : Prop :=
  forall n items nodes, tree n lower upper is_root lba items nodes -> level_fits level n ->
    apart nodes (ck_visited c) -> zlen nodes < 2 ^ 64 -> stopped visit_node nodes (ck_out c) e x.

Context (node : TreeNode) (c2 : Check (D := D) (X := X)).
Hypothesis Hr : reads d0 (ck_dev c2).
Hypothesis Hn : node_at spec (decoded (content d0)) lba level lower upper is_root node.
Hypothesis Hni : lba ∉ ck_visited c.
Hypothesis Hv : ck_visited c2 = {[lba]} ∪ ck_visited c.
Hypothesis Hx : visitor lba node (ck_out c) = (ck_out c2, Ok tt).

Lemma checks_leaf :
  is_leaf node = true ->
  checks c2 (do! imodify (forget retain lba) in
             iret {| cs_items := tn_subtree_items node; cs_nodes := 1; cs_level := 0;
                     cs_min_key := option_map ti_key (hd_error (tn_items node));
                     cs_max_key := option_map ti_key (last (tn_items node)) |}) accepted refused.
Proof.
  intros Hleaf. apply node_at_level in Hn as [Hn' Hl]. pose proof Hn' as (g & Hd & _).
  destruct (node_valid _ _ (nodes_valid _ _ _ Hd)) as (_ & _ & Hc). rewrite Hleaf in Hc. unfold is_leaf in Hleaf.
  assert (tree 0 lower upper is_root lba (tn_items node) [(lba, node)]) as Ht by (apply leaf_at; [done|lia]).
  apply checks_leave; [done|]. exists 0%nat, (tn_items node), [(lba, node)]. split; [done|].
  split; [intros l Hl'; rewrite <- (Hl l Hl'); lia|]. split; [unfold summary; by rewrite Hc|].
  split; [|cbn; unfold ibind, visit_node; cbn; by rewrite Hx].
  rewrite <- (leave_visited lba node [] (ck_visited c) Hni), Hv. unfold visited_after. cbn. destruct retain; [|done]. by rewrite (left_id_L ∅ (∪)).
Qed.

Lemma checks_branch (check_child : Z -> Z -> option bytes -> option bytes -> io Check CoreError CheckedSubtree) n :
  tn_level node = Z.of_nat (S n) ->
  (forall child lo up c, reads d0 (ck_dev c) -> u64 child ->
    checks c (check_child child (tn_level node - 1) lo up)
      (fun a visited x => exists items nodes, tree n lo up false child items nodes /\ a = summary n items nodes /\
         visited = visited_after nodes (ck_visited c) /\ ieach visit_node nodes (ck_out c) = (x, Ok tt))
      (fun e x => forall items nodes, tree n lo up false child items nodes -> apart nodes (ck_visited c) ->
         zlen nodes < 2 ^ 64 -> stopped visit_node nodes (ck_out c) e x)) ->
  checks c2 (let! t := validate_children geo node lower upper check_child
                         {| to_items := 0; to_nodes := 1; to_min := None; to_max := None |} (child_slots node) in
             if negb (to_items t =? tn_subtree_items node) then ierr (Corrupt "tree node subtree count") else
             do! imodify (forget retain lba) in
             iret {| cs_items := to_items t; cs_nodes := to_nodes t; cs_level := tn_level node;
                     cs_min_key := to_min t; cs_max_key := to_max t |}) accepted refused.
Proof.
  intros Hlev Hchild. pose proof Hn as (g & Hd & _). assert (is_leaf node = false) as Hleaf by (unfold is_leaf; lia).
  destruct (node_children _ _ (nodes_valid _ _ _ Hd) Hleaf) as (refs & HF & _).
  assert (forall x, ieach visit_node [(lba, node)] (ck_out c) = (x, Ok tt) <-> x = ck_out c2) as Hfirst.
  { intros x. cbn. unfold ibind, visit_node. cbn. rewrite Hx. split; [by intros [= <-]|by intros ->]. }
  eapply checks_bind; [apply (checks_children node lower upper n check_child Hlev Hchild) with (refs := refs); done| |]; cbn beta.
  2: { intros e x Hq n' items nodes Ht _ Ha Hz.
       destruct (loaded_branch _ _ _ _ _ _ _ _ _ _ _ _ Ht Hn Hleaf) as (m & below & -> & Hm & -> & Hch).
       assert (m = n) as -> by lia. pose proof (loaded_count _ _ _ _ _ _ _ _ _ _ _ _ Ht Hn) as Hcnt.
       destruct ((nodes_valid _ _ _ Hd)) as [(_ & _ & [_ Hu64] & _) _].
       destruct (proj1 (tree_at_nodes geo spec _) _ _ _ _ _ _ _ Ht) as [_ Hns]. unfold no_shared in Hns. cbn in Hns.
       apply NoDup_cons in Hns as [Hni' Hns]. rewrite zlen_cons in Hz.
       apply (stopped_second _ [(lba, node)] below _ (ck_out c2)); [by apply Hfirst|].
       apply (Hq items below Hch); [|done|cbn; lia|cbn; lia].
       intros p Hp. rewrite Hv. intros [Hin%elem_of_singleton|Hin]%elem_of_union.
       - apply Hni'. rewrite <- Hin. by apply list_elem_of_fmap_2.
       - apply (Ha p); [by right|done]. }
  intros t c3 Hr3 (items & nodes & Hch & -> & Hv3 & Hx3). apply checks_if; intros Hcount.
  { apply checks_err; [done|]. intros n' items' nodes' Ht _ _ _.
    destruct (loaded_branch _ _ _ _ _ _ _ _ _ _ _ _ Ht Hn Hleaf) as (m & below & -> & Hm & -> & Hch').
    assert (m = n) as -> by lia. pose proof (loaded_count _ _ _ _ _ _ _ _ _ _ _ _ Ht Hn) as Hcnt.
    destruct (proj2 (tree_at_unique geo spec _) _ _ _ _ _ _ _ Hch _ _ Hch') as [-> ->]. cbn in Hcount. lia. }
  apply checks_leave; [done|]. exists (S n), items, ((lba, node) :: nodes). apply node_at_level in Hn as [Hn' Hl].
  split; [by eapply branch_at|]. split; [intros l Hl'; rewrite <- (Hl l Hl'); lia|]. split.
  - unfold summary, totals_after. cbn [to_items to_nodes to_min to_max]. rewrite zlen_cons, Hlev. f_equal; try lia.
    by destruct (last_key items).
  - split; [|by rewrite (ieach_then _ [(lba, node)] nodes _ (ck_out c2)) by by apply Hfirst].
    rewrite Hv3, Hv. by apply leave_visited.
Qed.
End Subtree.

Lemma checks_subtree fuel : forall is_root lba level lower upper c,
  reads d0 (ck_dev c) -> u64 lba -> fuel_for level fuel -> (forall l, level = Some l -> 0 <= l) ->
  checks c (validate_subtree geo spec visitor retain fuel is_root lba level lower upper)
    (accepted c is_root lba level lower upper) (refused c is_root lba level lower upper).
Proof.
  induction fuel as [|fuel IH]; intros is_root lba level lower upper c Hr Hu Hf Hlv.
  { by destruct (fuel_none _ Hf Hlv). }
  cbn [validate_subtree]. unfold checks at 1, wpi at 1. case_bool_decide as Hin.
  { split; [done|]. intros n items nodes Ht _ Ha _. destruct (tree_root _ _ _ _ _ _ _ _ _ _ Ht) as (node & _ & _ & Hh).
    destruct (Ha (lba, node)); [|done]. destruct nodes; [done|]. injection Hh as ->. by left. }
  set (c1 := set_ck_visited ({[lba]} ∪ ck_visited c) c).
  match goal with |- context [match ?m c1 with (_, _) => _ end] => change (checks c1 m
    (accepted c is_root lba level lower upper) (refused c is_root lba level lower upper)) end.
  eapply (checks_bind _ _ _
    (fun node visited x => node_at spec (decoded (content d0)) lba level lower upper is_root node /\ visited = ck_visited c1 /\ x = ck_out c)
    _ (fun e x => (only_io e \/ forall node, ~ node_at spec (decoded (content d0)) lba level lower upper is_root node) /\ x = ck_out c)).
  { apply wpi_zoom. eapply wpi_mono; [by apply wpi_read_checked| |].
    - intros node d' [? ?]. done.
    - intros e d' [? ?]. done. }
  2: { intros e x [He ->] n items nodes Ht Hfit _ _. destruct He as [?|He]; [by apply stopped_start|].
       destruct (tree_root _ _ _ _ _ _ _ _ _ _ Ht) as (node & Hn & Hl & _). destruct (He node).
       apply node_at_level. split; [done|]. intros l Hl'. by rewrite (Hfit l Hl'). }
  intros node c2 Hr2 (Hn & Hv2 & Ho2). pose proof Hn as (g & Hd & _).
  destruct (fuel_child _ _ _ _ _ _ _ _ _ Hn Hf) as [Hlow Hf']. apply checks_visit; [done| |].
  2: { intros e x Hx n items nodes Ht _ _ _. left. destruct (tree_root _ _ _ _ _ _ _ _ _ _ Ht) as (node' & Hn' & _ & Hh).
       rewrite <- (node_at_inj _ _ _ _ _ _ _ _ _ _ _ _ _ Hn Hn') in Hh. destruct nodes as [|p nodes]; [done|].
       injection Hh as ->. cbn. unfold ibind, visit_node. cbn. rewrite <- Ho2. by rewrite Hx. }
  intros c3 Hd3 Hv3 Hx3. rewrite <- Hd3 in Hr2. rewrite Hv2 in Hv3. rewrite Ho2 in Hx3. apply checks_if; intros Hleaf.
  { by apply checks_leaf. }
  unfold is_leaf in Hleaf. apply (checks_branch _ _ _ _ _ _ _ _ Hr2 Hn Hin Hv3 Hx3 _ (Z.to_nat (tn_level node - 1))); [lia|].
  intros child lo up c4 ??. eapply wpi_mono; [apply (IH false child (Some (tn_level node - 1)) lo up c4); [done..|]| |].
  - intros l [= <-]. lia.
  - intros a c5 (? & n & items & nodes & Ht & Hfit & -> & ? & ?). specialize (Hfit _ eq_refl).
    assert (n = Z.to_nat (tn_level node - 1)) as -> by lia. split; [done|]. by exists items, nodes.
  - intros e c5 [? Hq]. split; [done|]. intros items nodes Ht. apply (Hq _ _ _ Ht). intros l [= <-]. lia.
Qed.
End Verifier.

(** The summary of a tree. *)
Definition tree_summary (items : list TreeItem) (nodes : list (Z * TreeNode)) : TreeSummary :=
  {| su_items := zlen items; su_nodes := zlen nodes; su_height := tree_height nodes |}.

Lemma summary_height geo spec nd {valid : ValidNodes nd} n lower upper is_root lba items nodes :
  tree_at geo spec nd n lower upper is_root lba items nodes -> tree_height nodes = Z.of_nat n + 1 /\ Z.of_nat n <= MAX_TREE_LEVEL.
Proof.
  intros Ht. destruct (tree_root _ _ _ _ _ _ _ _ _ _ Ht) as (node & (g & Hd & _) & Hl & Hh).
  destruct (node_valid _ _ (nodes_valid _ _ _ Hd)) as (? & _). destruct nodes as [|p nodes]; [done|]. injection Hh as ->. cbn. lia.
Qed.

Lemma wpi_visit_tree_nodes {D X : Type} {device : BlockDevice Decoded D} {contract : DeviceContract Decoded D core_decodes}
    (geo : Geometry) (spec : TreeSpec) (visitor : Z -> TreeNode -> io X CoreError unit) (retain : bool) (root : Z) (d : D) (x : X) :
  WfGeometry geo -> (forall lba node y, snd (visitor lba node y) <> Panic) -> dev_ok (decodes := core_decodes) d -> u64 root ->
  wpi (visit_tree_nodes geo spec visitor retain root) (d, x)
    (fun s st => reads d (fst st) /\ exists items nodes,
       tree_of geo spec (decoded (view (decodes := core_decodes) d)) root items nodes /\ s = tree_summary items nodes /\
       ieach (visit_node visitor) nodes x = (snd st, Ok tt))
    (fun e st => reads d (fst st) /\ forall items nodes,
       tree_of geo spec (decoded (view (decodes := core_decodes) d)) root items nodes -> stopped (visit_node visitor) nodes x e (snd st)).
Proof.
  intros WF Hvis Hd Hu. unfold wpi, visit_tree_nodes. assert (reads d d) as Hr by by apply agree_refl. cbn [fst snd].
  pose proof (wp_check_tree_lba geo root (fun _ => True) any_error Hu ltac:(done) ltac:(done)) as Hp.
  destruct (check_tree_lba geo root) as [[]|e|] eqn:Hg; [|split; [done|]; intros ? ? [? _]; congruence|done].
  pose proof (checks_subtree geo spec visitor retain d Hvis WALK_FUEL true root None None None
    {| ck_dev := d; ck_visited := ∅; ck_out := x |} Hr Hu ltac:(done) ltac:(done)) as H.
  unfold checks, wpi in H. destruct (validate_subtree _ _ _ _ _ _ _ _ _ _ _) as [c [a|e|]]; cbn [obind]; [| |done].
  - destruct H as (Hr' & n & items & nodes & Ht & _ & -> & Hv & Hx). cbn [ck_visited ck_out] in *.
    destruct (summary_height _ _ _ _ _ _ _ _ _ _ Ht) as [Hh Hmax]. unfold MAX_TREE_LEVEL in Hmax.
    unfold add_w. cbn [cs_level summary cs_items cs_nodes]. replace (_ <? _) with true by lia. cbn [obind].
    unfold visited_after in Hv. replace (negb retain && negb (bool_decide (ck_visited c = ∅))) with false.
    2: { destruct retain; [done|]. by rewrite Hv, bool_decide_eq_true_2. }
    split; [done|]. exists items, nodes. split; [split; [done|by exists n]|]. split; [|done]. unfold tree_summary. by rewrite Hh.
  - destruct H as [Hr' Hq]. split; [done|]. intros items nodes Ht. pose proof Ht as [_ [n Htn]].
    apply (Hq n items nodes Htn); [done|done|].
    pose proof (tree_nodes_bounded geo spec _ root items nodes (proj1 Hu) Ht). pose proof (wf_total (g := geo)). lia.
Qed.

(** C7: The verifier decides trees.  Over any block content
    [visit_tree_nodes] (and its bounded variant) returns without a panic and
    without writing.  It succeeds only when the blocks hold a tree; the
    summary then counts its items, nodes and levels, no block occurs twice,
    the items are strictly sorted, and the visitor has been called on every
    node once, parents before children.  On a tree it fails only with the
    visitor's error or an error of the device.  [validate_tree] is the same
    without a visitor. *)
Theorem tree_verifier_exact {D X : Type} {device : BlockDevice Decoded D} {contract : DeviceContract Decoded D core_decodes}
    (geo : Geometry) (spec : TreeSpec) (visitor : Z -> TreeNode -> io X CoreError unit) (retain : bool) (root : Z) (d : D) (x : X) :
  WfGeometry geo -> dev_ok (decodes := core_decodes) d -> u64 root -> (forall lba node y, snd (visitor lba node y) <> Panic) ->
  wpi (visit_tree_nodes geo spec visitor retain root) (d, x)
    (fun s st => reads d (fst st) /\ exists items nodes,
       tree_of geo spec (decoded (view (decodes := core_decodes) d)) root items nodes /\ s = tree_summary items nodes /\
       NoDup (map fst nodes) /\ StronglySorted key_lt items /\ ieach (visit_node visitor) nodes x = (snd st, Ok tt))
    (fun e st => reads d (fst st) /\ forall items nodes,
       tree_of geo spec (decoded (view (decodes := core_decodes) d)) root items nodes -> stopped (visit_node visitor) nodes x e (snd st)) /\
  wpi (validate_tree geo root spec) d
    (fun s d' => reads d d' /\ exists items nodes,
       tree_of geo spec (decoded (view (decodes := core_decodes) d)) root items nodes /\ s = tree_summary items nodes)
    (fun e d' => reads d d' /\ forall items nodes,
       tree_of geo spec (decoded (view (decodes := core_decodes) d)) root items nodes -> only_io e).
Proof.
  intros WF Hd Hu Hvis. split.
  - eapply wpi_mono; [by apply wpi_visit_tree_nodes| |done]; cbn beta.
    intros s st (? & items & nodes & Ht & -> & Hx). split; [done|]. exists items, nodes. pose proof Ht as [_ [n Htn]].
    split; [done|]. split; [done|]. split; [apply (proj1 (tree_at_nodes geo spec _) _ _ _ _ _ _ _ Htn)|].
    split; [apply (proj1 (tree_at_facts geo spec _) _ _ _ _ _ _ _ Htn)|done].
  - unfold wpi, validate_tree.
    pose proof (wpi_visit_tree_nodes geo spec (fun _ _ => iret tt) true root d tt WF ltac:(done) Hd Hu) as H. unfold wpi in H.
    destruct (visit_tree_nodes _ _ _ _ _ _) as [[d' []] [s|e|]]; [| |done]; cbn [fst snd] in *.
    + destruct H as (? & items & nodes & ? & -> & _). split; [done|]. by exists items, nodes.
    + destruct H as [? Hq]. split; [done|]. intros items nodes Ht. destruct (Hq _ _ Ht) as [Hx|[? _]]; [|done].
      assert (forall l, ieach (visit_node (fun (_ : Z) (_ : TreeNode) => iret tt)) l tt = (tt, Ok tt)) as He.
      { induction l as [|? ? IH]; [done|]. cbn. exact IH. }
      by rewrite He in Hx.
Qed.

(** A visitor that counts. *)
Definition counting (lba : Z) (node : TreeNode) : io Z CoreError unit := fun n => (n + zlen (tn_items node), Ok tt).

Lemma tree_verifier_exact_witness :
  snd (visit_tree_nodes small_geometry sample_spec counting false 44 (tree_device, 0)) =
    Ok {| su_items := 4; su_nodes := 3; su_height := 2 |} /\
  tree_summary sample_items sample_nodes = {| su_items := 4; su_nodes := 3; su_height := 2 |}.
Proof.
  destruct (tree_verifier_exact small_geometry sample_spec counting false 44 tree_device 0
    small_geometry_wf (proj1 tree_device_ok) ltac:(by vm_compute) ltac:(done)) as [H _].
  assert (snd (visit_tree_nodes small_geometry sample_spec counting false 44 (tree_device, 0)) =
    Ok {| su_items := 4; su_nodes := 3; su_height := 2 |}) as E by (vm_compute; reflexivity).
  split; [exact E|]. revert H E. unfold wpi. generalize (visit_tree_nodes small_geometry sample_spec counting false 44 (tree_device, 0)).
  intros [s r] H E. cbn [snd] in E. rewrite E in H. destruct H as (_ & items & nodes & [_ [n Ht]] & Hs & _).
  destruct sample_tree_device as [_ [n' Ht']].
  destruct (proj1 (tree_at_unique _ _ _) _ _ _ _ _ _ _ Ht _ _ _ Ht') as (_ & Hi & Hn). rewrite Hi, Hn. exact (eq_sym Hs).
Defined.
