(* ===== verification/CowTree.v ===== *)
(** * Copy-on-write changes of the shared trees (crates/afsplus-core/src/cow_tree.rs)

    The code that inserts, replaces and deletes items: node splitting and
    rebalancing, the staged images with their spill to free blocks, and the
    cache of decoded nodes.  What it computes is proved in the CowStore, CowNodes and
    CowMutate files.

    Counters are unbounded.  Left out are the flight-recorder events, the
    allocation trace and the measurement of live decoded nodes
    ([NodeResidency]), none of which the code reads back. *)

From S2P Require Import Prelude Format Header TreeNode Geometry Device Core Tree.

(** ** Statistics *)

Inductive StatField : Set :=
| node_reads | device_reads | nodes_allocated | committed_nodes_retired | final_nodes_written
| splits | root_splits | deletes | merges | redistributions | root_collapses
| staged_nodes_discarded | staged_spill_writes | staged_spill_reloads
| max_resident_staged_nodes | deferred_encodes | max_staged_nodes_before_eviction | max_depth.

#[export] Instance StatField_eq_dec : EqDecision StatField.
Proof. solve_decision. Defined.

Definition TreeMutationStats : Type := StatField -> Z.

Definition no_stats : TreeMutationStats := fun _ => 0.
Definition stat_add (f : StatField) (s : TreeMutationStats) : TreeMutationStats :=
  fun g => if decide (g = f) then s g + 1 else s g.
Definition stat_max (f : StatField) (v : Z) (s : TreeMutationStats) : TreeMutationStats :=
  fun g => if decide (g = f) then Z.max (s g) v else s g.
Definition stat_set (f : StatField) (v : Z) (s : TreeMutationStats) : TreeMutationStats :=
  fun g => if decide (g = f) then v else s g.

(** [include]: work is summed, residency and depth keep their maximum. *)
Definition stats_include (s other : TreeMutationStats) : TreeMutationStats := fun g =>
  match g with
  | max_resident_staged_nodes | max_staged_nodes_before_eviction | max_depth => Z.max (s g) (other g)
  | _ => s g + other g
  end.

(** ** The allocator *)

Class TreeAllocator (D A : Type) := {
  tree_cache_pages : A -> Z;
  record_tree_mutation : TreeMutationStats -> A -> A;
  allocate_tree_block : io (D * A) CoreError Z;
  retire_tree_block : Z -> io (D * A) CoreError unit;
  release_tree_block : Z -> io (D * A) CoreError unit;
}.

(** ** Children of a node *)

Record ChildDesc := { ch_min_key : option bytes; ch_reference : ChildRef }.

Definition set_min_key (key : option bytes) (child : ChildDesc) : ChildDesc :=
  {| ch_min_key := key; ch_reference := ch_reference child |}.

(** [children[0].min_key = key]. *)
Definition set_first_min {E} (key : option bytes) (children : list ChildDesc) : outcome E (list ChildDesc) :=
  match children with
  | child :: children => Ok (set_min_key key child :: children)
  | [] => Panic
  end.

Definition leftmost_desc (node : TreeNode) : ChildDesc :=
  {| ch_min_key := None;
     ch_reference := {| cr_lba := tn_leftmost_child node; cr_subtree_items := tn_leftmost_items node |} |}.

Definition item_desc (item : TreeItem) : outcome CoreError ChildDesc :=
  let* reference := of_format (child_ref item) in
  Ok {| ch_min_key := Some (ti_key item); ch_reference := reference |}.

Definition children_from_node (node : TreeNode) : outcome CoreError (list ChildDesc) :=
  ofold (fun children item => let* child := item_desc item in Ok (children ++ [child]))
    [leftmost_desc node] (tn_items node).

Definition child_at (node : TreeNode) (index : nat) : outcome CoreError ChildDesc :=
  match index with
  | O => Ok (leftmost_desc node)
  | S i => match tn_items node !! i with
           | Some item => item_desc item
           | None => Err (Corrupt "tree child index out of range")
           end
  end.

(** Sorting the blocks and comparing neighbours finds the same repeats. *)
Definition check_children_unique (node : TreeNode) : outcome CoreError unit :=
  let* blocks := ofold (fun blocks item => let* child := of_format (child_ref item) in Ok (blocks ++ [cr_lba child]))
                   [tn_leftmost_child node] (tn_items node) in
  if bool_decide (NoDup blocks) then Ok tt
  else Err (Corrupt "internal tree node references a child more than once").

Definition set_child_fields (node : TreeNode) (subtree leftmost leftmost_n : Z) (items : list TreeItem) : TreeNode :=
  {| tn_kind := tn_kind node; tn_owner := tn_owner node; tn_level := tn_level node;
     tn_subtree_items := subtree; tn_leftmost_child := leftmost; tn_leftmost_items := leftmost_n;
     tn_items := items |}.

Definition set_items (items : list TreeItem) (node : TreeNode) : TreeNode :=
  set_child_fields node (zlen items) (tn_leftmost_child node) (tn_leftmost_items node) items.

Definition replace_child (node : TreeNode) (index : nat) (child : ChildDesc) (previous_items : Z) :
    outcome CoreError TreeNode :=
  let* '(leftmost, leftmost_n, items) :=
    match index with
    | O => Ok (cr_lba (ch_reference child), cr_subtree_items (ch_reference child), tn_items node)
    | S i =>
        let* key := ok_or (ch_min_key child) (Corrupt "non-leftmost child has no minimum") in
        if zlen (tn_items node) <=? Z.of_nat i then Err (Corrupt "tree child index out of range") else
        let* value := of_format (child_value (ch_reference child)) in
        Ok (tn_leftmost_child node, tn_leftmost_items node,
            <[i := {| ti_key := key; ti_value := value |}]> (tn_items node))
    end in
  let* total :=
    ok_or (match checked_sub (tn_subtree_items node) previous_items with
           | Some total => checked_add 64 total (cr_subtree_items (ch_reference child))
           | None => None
           end) (Corrupt "tree item count overflow") in
  Ok (set_child_fields node total leftmost leftmost_n items).

Definition child_range {E} (node : TreeNode) (index : nat) (lower upper : option bytes) :
    outcome E (option bytes * option bytes) :=
  let* child_lower :=
    match index with
    | O => Ok lower
    | S i => match tn_items node !! i with Some item => Ok (Some (ti_key item)) | None => Panic end
    end in
  Ok (child_lower, bound (tn_items node !! index) upper).

(** ** Building, splitting and joining nodes *)

Definition add_child_item (st : Z * list TreeItem) (child : ChildDesc) : outcome CoreError (Z * list TreeItem) :=
  let* total := ok_or (checked_add 64 (fst st) (cr_subtree_items (ch_reference child))) (Corrupt "tree item count overflow") in
  let* key := ok_or (ch_min_key child) (Corrupt "non-leftmost child has no minimum") in
  let* value := of_format (child_value (ch_reference child)) in
  Ok (total, snd st ++ [{| ti_key := key; ti_value := value |}]).

Definition internal_from_children (template : TreeNode) (children : list ChildDesc) : outcome CoreError TreeNode :=
  match children with
  | first :: ((_ :: _) as rest) =>
      let* '(total, items) := ofold add_child_item (cr_subtree_items (ch_reference first), []) rest in
      Ok (set_child_fields template total (cr_lba (ch_reference first)) (cr_subtree_items (ch_reference first)) items)
  | _ => Err (Corrupt "internal tree node has fewer than two children")
  end.

Definition internal_allow_one (template : TreeNode) (children : list ChildDesc) : outcome CoreError TreeNode :=
  match children with
  | [] => Err (Corrupt "internal tree node lost every child")
  | [child] =>
      let r := ch_reference child in
      Ok (set_child_fields template (cr_subtree_items r) (cr_lba r) (cr_subtree_items r) [])
  | _ => internal_from_children template children
  end.

Definition needs_rebalance (node : TreeNode) (block_size : Z) : outcome CoreError bool :=
  let* len := of_format (encoded_len node) in
  let* twice_payload := ok_or (checked_mul 64 len 2) (Corrupt "tree node size overflow") in
  Ok ((zlen (tn_items node) =? 0) || (twice_payload <=? block_size)).

Definition encoded_items_len (items : list TreeItem) : outcome CoreError Z :=
  ofold (fun length item =>
    ok_or (match checked_add 64 length 8 with
           | Some value =>
               match checked_add 64 value (zlen (ti_key item)) with
               | Some value => checked_add 64 value (zlen (ti_value item))
               | None => None
               end
           | None => None
           end) (Corrupt "tree node size overflow")) 32 items.

Definition encoded_children_len (children : list ChildDesc) : outcome CoreError Z :=
  match children with
  | _ :: ((_ :: _) as rest) =>
      ofold (fun length child =>
        let* key := ok_or (ch_min_key child) (Corrupt "internal child has no minimum") in
        ok_or (match checked_add 64 length (8 + 16) with
               | Some value => checked_add 64 value (zlen key)
               | None => None
               end) (Corrupt "tree node size overflow")) 32 rest
  | _ => Err (Corrupt "internal split side has fewer than two children")
  end.

(** [best.is_none_or(|(best_difference, _)| difference < best_difference)]. *)
Definition better (best : option (Z * nat)) (difference : Z) (split : nat) : option (Z * nat) :=
  match best with
  | Some (best_difference, _) => if difference <? best_difference then Some (difference, split) else best
  | None => Some (difference, split)
  end.

(** The prefix sums of the item lengths, without the last item. *)
Fixpoint item_prefixes (base length : Z) (items : list TreeItem) : outcome CoreError (list Z) :=
  match items with
  | [] => Ok [length]
  | item :: items =>
      let* with_item := encoded_items_len [item] in
      let* next := ok_or (match checked_sub with_item base with
                          | Some item => checked_add 64 length item
                          | None => None
                          end) (Corrupt "tree node size overflow") in
      let* rest := item_prefixes base next items in
      Ok (length :: rest)
  end.

Fixpoint best_leaf_split (capacity base total : Z) (split : nat) (lens : list Z) (best : option (Z * nat)) :
    outcome CoreError (option (Z * nat)) :=
  match lens with
  | left_len :: ((_ :: _) as lens) =>
      let* rest := sub_w total left_len in
      let* right_len := add_w 64 base rest in
      best_leaf_split capacity base total (S split) lens
        (if (left_len <=? capacity) && (right_len <=? capacity)
         then better best (Z.abs (left_len - right_len)) split else best)
  | _ => Ok best
  end.

Definition split_leaf (node : TreeNode) (block_size : Z) : outcome CoreError (TreeNode * TreeNode) :=
  let capacity := saturating_sub block_size HEADER_SIZE in
  let* base := encoded_items_len [] in
  let* prefix := item_prefixes base base (tn_items node) in
  match last prefix with
  | None => Panic
  | Some total =>
      let* best := best_leaf_split capacity base total 1 (tail prefix) None in
      match best with
      | None => Err (PrototypeLimit "tree leaf item cannot be split to fit")
      | Some (_, split) =>
          Ok (set_items (take split (tn_items node)) node,
              {| tn_kind := tn_kind node; tn_owner := tn_owner node; tn_level := tn_level node;
                 tn_subtree_items := zlen (drop split (tn_items node)); tn_leftmost_child := 0;
                 tn_leftmost_items := 0; tn_items := drop split (tn_items node) |})
      end
  end.

(** [for split in 2..children.len().saturating_sub(1)], [n] of them left. *)
Fixpoint best_internal_split (capacity : Z) (children : list ChildDesc) (split n : nat) (best : option (Z * nat)) :
    outcome CoreError (option (Z * nat)) :=
  match n with
  | O => Ok best
  | S n =>
      let* left_len := encoded_children_len (take split children) in
      let* right_len := encoded_children_len (drop split children) in
      best_internal_split capacity children (S split) n
        (if (left_len <=? capacity) && (right_len <=? capacity)
         then better best (Z.abs (left_len - right_len)) split else best)
  end.

Definition split_internal (node : TreeNode) (children : list ChildDesc) (block_size : Z) :
    outcome CoreError (TreeNode * TreeNode * bytes) :=
  let capacity := saturating_sub block_size HEADER_SIZE in
  let* best := best_internal_split capacity children 2 (length children - 1 - 2) None in
  match best with
  | None => Err (PrototypeLimit "internal tree node cannot be split to fit")
  | Some (_, split) =>
      match children !! split with
      | None => Panic
      | Some child =>
          let* promoted := ok_or (ch_min_key child) (Corrupt "internal split has no promoted key") in
          let* left_node := internal_from_children node (take split children) in
          let* right_children := set_first_min None (drop split children) in
          let* right_node := internal_from_children (set_child_fields node 0 0 0 []) right_children in
          Ok (left_node, right_node, promoted)
      end
  end.

Record PendingNode := {
  pn_old_lba : Z;
  pn_old_staged : bool;
  pn_node : TreeNode;
  pn_min_key : option bytes;
}.

Definition NodeImage : Type := TreeNode * option bytes.

Definition first_min (node : TreeNode) : option bytes := option_map ti_key (hd_error (tn_items node)).

Definition rebalance_pair (left right : PendingNode) (block_size : Z) : outcome CoreError (list NodeImage) :=
  let l := pn_node left in
  let r := pn_node right in
  if negb (tn_level l =? tn_level r) || negb (bool_decide (tn_kind l = tn_kind r)) || negb (tn_owner l =? tn_owner r) then
    Err (Corrupt "tree rebalance siblings are incompatible") else
  if is_leaf l then
    if match last (tn_items l), hd_error (tn_items r) with
       | Some a, Some b => bytes_leb (ti_key b) (ti_key a)
       | _, _ => false
       end then Err (Corrupt "tree rebalance siblings overlap") else
    let combined := set_items (tn_items l ++ tn_items r) l in
    if fits combined block_size then Ok [(combined, first_min combined)] else
    let* '(left_node, right_node) := split_leaf combined block_size in
    Ok [(left_node, first_min left_node); (right_node, first_min right_node)]
  else
    let* children := children_from_node l in
    let* children := set_first_min (pn_min_key left) children in
    let* right_children := children_from_node r in
    let* right_children := set_first_min (pn_min_key right) right_children in
    if match pn_min_key right with None => true | Some _ => false end then
      Err (Corrupt "right rebalance sibling has no minimum") else
    let children := children ++ right_children in
    let combined_min := pn_min_key left in
    let* combined := internal_from_children l children in
    if fits combined block_size then Ok [(combined, combined_min)] else
    let* '(left_node, right_node, right_min) := split_internal combined children block_size in
    Ok [(left_node, combined_min); (right_node, Some right_min)].

Definition validate_key (key : bytes) : outcome CoreError unit :=
  if (zlen key =? 0) || (MAX_TREE_KEY_BYTES <? zlen key) then
    Err (Corrupt "tree mutation key length out of range") else Ok tt.

Definition validate_upsert (key value : bytes) : outcome CoreError unit :=
  do* validate_key key in
  if zlen value =? 0 then Err (Corrupt "tree upsert value is empty") else Ok tt.

(** ** The staged images and the decoded cache *)

Inductive Resident : Type :=
| ResidentBytes (block : bytes)
| Deferred
| Spilled.

Definition in_memory (r : Resident) : bool := match r with Spilled => false | _ => true end.

Record StagedImage := { si_resident : Resident; si_last_used : Z }.
Record DecodedNode := { dn_node : TreeNode; dn_generation : Z; dn_last_used : Z }.

(** A [BTreeSet] of access time and block, the oldest access first. *)
Definition pair_leb (a b : Z * Z) : bool :=
  (fst a <? fst b) || ((fst a =? fst b) && (snd a <=? snd b)).

Fixpoint least (l : list (Z * Z)) : option (Z * Z) :=
  match l with
  | [] => None
  | x :: l =>
      match least l with
      | Some y => if pair_leb x y then Some x else Some y
      | None => Some x
      end
  end.

Definition pop_first (s : gset (Z * Z)) : option ((Z * Z) * gset (Z * Z)) :=
  match least (elements s) with
  | Some x => Some (x, s ∖ {[x]})
  | None => None
  end.

(** The keys of a [BTreeMap], in order. *)
Fixpoint insert_key (k : Z) (l : list Z) : list Z :=
  match l with
  | [] => [k]
  | x :: l => if k <=? x then k :: x :: l else x :: insert_key k l
  end.
Definition sorted_keys {A} (m : gmap Z A) : list Z := foldr (fun p => insert_key (fst p)) [] (map_to_list m).

Record MutationContext (D A : Type) := {
  mc_dev : D;
  mc_tx : A;
  mc_writes : gmap Z StagedImage;
  mc_resident : Z;
  mc_clock : Z;
  mc_lru : gset (Z * Z);
  mc_decoded : gmap Z DecodedNode;
  mc_decoded_lru : gset (Z * Z);
  mc_stats : TreeMutationStats;
}.
#[global] Arguments mc_dev {D A} _.
#[global] Arguments mc_tx {D A} _.
#[global] Arguments mc_writes {D A} _.
#[global] Arguments mc_resident {D A} _.
#[global] Arguments mc_clock {D A} _.
#[global] Arguments mc_lru {D A} _.
#[global] Arguments mc_decoded {D A} _.
#[global] Arguments mc_decoded_lru {D A} _.
#[global] Arguments mc_stats {D A} _.

Section Fields.
Context {D A : Type}.
Implicit Types c : MutationContext D A.

Definition set_mc_dev_tx (p : D * A) c : MutationContext D A :=
  {| mc_dev := fst p; mc_tx := snd p; mc_writes := mc_writes c; mc_resident := mc_resident c; mc_clock := mc_clock c;
     mc_lru := mc_lru c; mc_decoded := mc_decoded c; mc_decoded_lru := mc_decoded_lru c; mc_stats := mc_stats c |}.
Definition set_mc_dev (d : D) c : MutationContext D A := set_mc_dev_tx (d, mc_tx c) c.
Definition set_mc_writes (w : gmap Z StagedImage) c : MutationContext D A :=
  {| mc_dev := mc_dev c; mc_tx := mc_tx c; mc_writes := w; mc_resident := mc_resident c; mc_clock := mc_clock c;
     mc_lru := mc_lru c; mc_decoded := mc_decoded c; mc_decoded_lru := mc_decoded_lru c; mc_stats := mc_stats c |}.
Definition set_mc_resident (n : Z) c : MutationContext D A :=
  {| mc_dev := mc_dev c; mc_tx := mc_tx c; mc_writes := mc_writes c; mc_resident := n; mc_clock := mc_clock c;
     mc_lru := mc_lru c; mc_decoded := mc_decoded c; mc_decoded_lru := mc_decoded_lru c; mc_stats := mc_stats c |}.
Definition set_mc_clock (n : Z) c : MutationContext D A :=
  {| mc_dev := mc_dev c; mc_tx := mc_tx c; mc_writes := mc_writes c; mc_resident := mc_resident c; mc_clock := n;
     mc_lru := mc_lru c; mc_decoded := mc_decoded c; mc_decoded_lru := mc_decoded_lru c; mc_stats := mc_stats c |}.
Definition set_mc_lru (s : gset (Z * Z)) c : MutationContext D A :=
  {| mc_dev := mc_dev c; mc_tx := mc_tx c; mc_writes := mc_writes c; mc_resident := mc_resident c; mc_clock := mc_clock c;
     mc_lru := s; mc_decoded := mc_decoded c; mc_decoded_lru := mc_decoded_lru c; mc_stats := mc_stats c |}.
Definition set_mc_decoded (m : gmap Z DecodedNode) (s : gset (Z * Z)) c : MutationContext D A :=
  {| mc_dev := mc_dev c; mc_tx := mc_tx c; mc_writes := mc_writes c; mc_resident := mc_resident c; mc_clock := mc_clock c;
     mc_lru := mc_lru c; mc_decoded := m; mc_decoded_lru := s; mc_stats := mc_stats c |}.
Definition on_stats (f : TreeMutationStats -> TreeMutationStats) c : MutationContext D A :=
  {| mc_dev := mc_dev c; mc_tx := mc_tx c; mc_writes := mc_writes c; mc_resident := mc_resident c; mc_clock := mc_clock c;
     mc_lru := mc_lru c; mc_decoded := mc_decoded c; mc_decoded_lru := mc_decoded_lru c; mc_stats := f (mc_stats c) |}.
End Fields.

Record Replacement := { re_children : list ChildDesc; re_level : Z }.

Section Mutation.
Context {D A : Type} {device : BlockDevice Decoded D} {allocator : TreeAllocator D A}.
Context (geo : Geometry) (spec : TreeSpec) (new_generation cache_pages decoded_limit : Z).
Abbreviation ctx := (MutationContext D A).
Abbreviation act := (io ctx CoreError).

Definition tally (f : StatField) : act unit := imodify (on_stats (stat_add f)).
Definition on_device {X} (m : io D BlockError X) : act X := of_block (izoom mc_dev set_mc_dev m).
Definition on_allocator {X} (m : io (D * A) CoreError X) : act X :=
  izoom (fun c => (mc_dev c, mc_tx c)) set_mc_dev_tx m.

Definition next_access : act Z := fun c =>
  let clock := Z.min (mc_clock c + 1) (2 ^ 64 - 1) in (set_mc_clock clock c, Ok clock).

Definition decoded_drop (lba : Z) : ctx -> ctx := fun c =>
  match mc_decoded c !! lba with
  | Some e => set_mc_decoded (delete lba (mc_decoded c)) (mc_decoded_lru c ∖ {[(dn_last_used e, lba)]}) c
  | None => c
  end.

Definition take_decoded (lba : Z) : act (option (TreeNode * Z)) := fun c =>
  match mc_decoded c !! lba with
  | Some e => (decoded_drop lba c, Ok (Some (dn_node e, dn_generation e)))
  | None => (c, Ok None)
  end.

Definition set_resident (lba : Z) (r : Resident) : ctx -> ctx := fun c =>
  match mc_writes c !! lba with
  | Some image => set_mc_writes (<[lba := {| si_resident := r; si_last_used := si_last_used image |}]> (mc_writes c)) c
  | None => c
  end.

Definition materialize (lba : Z) : act unit :=
  let! resident := iget (fun c => option_map si_resident (mc_writes c !! lba)) in
  match resident with
  | Some Deferred =>
      let! node := iget (fun c => mc_decoded c !! lba) in
      let! node := ilift (ok_or node (Corrupt "deferred tree image has no decoded node")) in
      let! encoded := ilift (of_format (TreeNode_encode (dn_node node) (block_size geo) new_generation)) in
      do! tally deferred_encodes in
      imodify (set_resident lba (ResidentBytes encoded))
  | _ => iret tt
  end.

(** The eviction loop of [cache_decoded]; each round pops one entry. *)
Fixpoint trim_decoded (fuel : nat) : act unit := fun c =>
  if Z.of_nat (size (mc_decoded c)) <=? decoded_limit then (c, Ok tt) else
  match fuel with
  | O => (c, Panic)
  | S fuel =>
      match pop_first (mc_decoded_lru c) with
      | None => (c, Ok tt)
      | Some ((_, victim), lru) =>
          (do! materialize victim in
           do! imodify (fun c => set_mc_decoded (delete victim (mc_decoded c)) (mc_decoded_lru c) c) in
           trim_decoded fuel) (set_mc_decoded (mc_decoded c) lru c)
      end
  end.

Definition cache_decoded (lba : Z) (node : TreeNode) (generation : Z) : act unit :=
  if decoded_limit =? 0 then iret tt else
  do! imodify (decoded_drop lba) in
  let! last_used := next_access in
  do! imodify (fun c => set_mc_decoded
        (<[lba := {| dn_node := node; dn_generation := generation; dn_last_used := last_used |}]> (mc_decoded c))
        ({[(last_used, lba)]} ∪ mc_decoded_lru c) c) in
  let! fuel := iget (fun c => S (size (mc_decoded_lru c))) in
  trim_decoded fuel.

Definition decoded_forget (lba : Z) : act unit :=
  do! materialize lba in
  imodify (decoded_drop lba).

Definition allocate_block : act Z :=
  let! lba := on_allocator allocate_tree_block in
  do! decoded_forget lba in
  iret lba.

Definition retire_block (lba : Z) : act unit :=
  do! decoded_forget lba in
  on_allocator (retire_tree_block lba).

Definition release_block (lba : Z) : act unit :=
  do! decoded_forget lba in
  on_allocator (release_tree_block lba).

(** One round of [enforce_cache_limit]: spill the image used longest ago. *)
Definition spill_oldest : act unit := fun c =>
  match pop_first (mc_lru c) with
  | None => (c, Err (Corrupt "staged cache accounting mismatch"))
  | Some ((_, lba), lru) =>
      (do! materialize lba in
       let! resident := iget (fun c => option_map si_resident (mc_writes c !! lba)) in
       do! imodify (set_resident lba Spilled) in
       match resident with
       | Some (ResidentBytes block) =>
           do! on_device (write_block lba block) in
           do! imodify (decoded_drop lba) in
           let! resident := iget mc_resident in
           let! resident := ilift (sub_w resident 1) in
           do! imodify (set_mc_resident resident) in
           tally staged_spill_writes
       | _ => ierr (Corrupt "staged cache victim has no image")
       end) (set_mc_lru lru c)
  end.

Fixpoint spill_excess (fuel : nat) : act unit :=
  let! resident := iget mc_resident in
  if resident <=? cache_pages then iret tt else
  match fuel with
  | O => fun c => (c, Panic)
  | S fuel => do! spill_oldest in spill_excess fuel
  end.

Definition enforce_cache_limit : act unit :=
  let! resident := iget mc_resident in
  do! imodify (on_stats (stat_max max_staged_nodes_before_eviction resident)) in
  do! spill_excess (Z.to_nat resident) in
  let! resident := iget mc_resident in
  imodify (on_stats (stat_max max_resident_staged_nodes resident)).

Definition remove_staged (lba : Z) : act (option StagedImage) :=
  do! imodify (decoded_drop lba) in
  let! image := iget (fun c => mc_writes c !! lba) in
  match image with
  | None => iret None
  | Some image =>
      do! imodify (fun c => set_mc_writes (delete lba (mc_writes c)) c) in
      if in_memory (si_resident image) then
        do! imodify (fun c => set_mc_lru (mc_lru c ∖ {[(si_last_used image, lba)]}) c) in
        let! resident := iget mc_resident in
        let! resident := ilift (sub_w resident 1) in
        do! imodify (set_mc_resident resident) in
        iret (Some image)
      else iret (Some image)
  end.

(** The image takes its place in the map and in the order of use. *)
Definition stage_image (lba : Z) (resident : Resident) : act unit :=
  let! access := next_access in
  let! previous := iget (fun c => mc_writes c !! lba) in
  do! imodify (fun c => set_mc_writes
        (<[lba := {| si_resident := resident; si_last_used := access |}]> (mc_writes c)) c) in
  do! match previous with
      | Some image =>
          if in_memory (si_resident image)
          then imodify (fun c => set_mc_lru (mc_lru c ∖ {[(si_last_used image, lba)]}) c) else iret tt
      | None => iret tt
      end in
  do! (if match previous with Some image => negb (in_memory (si_resident image)) | None => true end
       then imodify (fun c => set_mc_resident (mc_resident c + 1) c) else iret tt) in
  imodify (fun c => set_mc_lru ({[(access, lba)]} ∪ mc_lru c) c).

Definition stage_node (lba : Z) (node : TreeNode) : act unit :=
  do! imodify (decoded_drop lba) in
  let! resident :=
    ilift (if decoded_limit =? 0 then
             let* block := of_format (TreeNode_encode node (block_size geo) new_generation) in Ok (ResidentBytes block)
           else Ok Deferred) in
  do! stage_image lba resident in
  do! cache_decoded lba node new_generation in
  enforce_cache_limit.

Definition validate_read (node : TreeNode) (generation : Z) (is_staged : bool) (expected_level : option Z) :
    outcome CoreError unit :=
  let validation_spec :=
    {| ts_kind := ts_kind spec; ts_owner := ts_owner spec;
       ts_max_generation := if is_staged then new_generation else ts_max_generation spec |} in
  do* validate_node_identity node generation validation_spec expected_level in
  if is_staged && negb (generation =? new_generation) then
    Err (Corrupt "staged tree node generation mismatch") else Ok tt.

(** The image of a staged block, encoded or reloaded where it has to be. *)
Definition read_staged (lba : Z) : act bytes :=
  let! access := next_access in
  do! materialize lba in
  let! image := iget (fun c => mc_writes c !! lba) in
  let! image := ilift (ok_or image (Corrupt "staged tree membership changed during read")) in
  do! (if in_memory (si_resident image)
       then imodify (fun c => set_mc_lru (mc_lru c ∖ {[(si_last_used image, lba)]}) c) else iret tt) in
  do! imodify (fun c => set_mc_writes
        (<[lba := {| si_resident := si_resident image; si_last_used := access |}]> (mc_writes c)) c) in
  match si_resident image with
  | ResidentBytes block =>
      do! imodify (fun c => set_mc_lru ({[(access, lba)]} ∪ mc_lru c) c) in
      iret block
  | _ =>
      let! block := on_device (read_block lba (block_size geo)) in
      do! tally device_reads in
      do! tally staged_spill_reloads in
      do! imodify (set_resident lba (ResidentBytes block)) in
      do! imodify (fun c => set_mc_resident (mc_resident c + 1) c) in
      do! imodify (fun c => set_mc_lru ({[(access, lba)]} ∪ mc_lru c) c) in
      do! enforce_cache_limit in
      iret block
  end.

Definition read_node (lba : Z) (expected_level : option Z) (lower upper : option bytes) (is_root : bool) (depth : Z) :
    act (TreeNode * bool * Z) :=
  if MAX_TREE_LEVEL <? depth then ierr (Corrupt "tree mutation exceeded maximum depth") else
  do! ilift (check_tree_lba geo lba) in
  let! is_staged := iget (fun c => bool_decide (is_Some (mc_writes c !! lba))) in
  let! taken := take_decoded lba in
  match taken with
  | Some (node, generation) =>
      do! tally node_reads in
      do! imodify (on_stats (stat_max max_depth (depth + 1))) in
      do! ilift (validate_read node generation is_staged expected_level) in
      do! ilift (validate_node_range node lower upper is_root) in
      iret (node, is_staged, generation)
  | None =>
      let! block := (if is_staged then read_staged lba
                     else let! block := on_device (read_block lba (block_size geo)) in
                          do! tally device_reads in
                          iret block) in
      do! tally node_reads in
      do! imodify (on_stats (stat_max max_depth (depth + 1))) in
      let! '(node, generation) :=
        ilift (match TreeNode_decode block with Ok r => Ok r | Err _ => Err (Corrupt "tree node") | Panic => Panic end) in
      do! ilift (validate_read node generation is_staged expected_level) in
      do! ilift (validate_node_range node lower upper is_root) in
      do! ilift (if is_leaf node then Ok tt else check_children_unique node) in
      iret (node, is_staged, generation)
  end.

Fixpoint allocate_blocks (n : nat) (lbas : list Z) : act (list Z) :=
  match n with
  | O => iret lbas
  | S n =>
      let! lba := allocate_block in
      do! tally nodes_allocated in
      allocate_blocks n (lbas ++ [lba])
  end.

(** Stages each node at its block; [zip] stops at the shorter list. *)
Fixpoint stage_all (nodes : list NodeImage) (lbas : list Z) (children : list ChildDesc) : act (list ChildDesc) :=
  match nodes, lbas with
  | (node, min_key) :: nodes, lba :: lbas =>
      do! stage_node lba node in
      stage_all nodes lbas
        (children ++ [{| ch_min_key := min_key;
                         ch_reference := {| cr_lba := lba; cr_subtree_items := tn_subtree_items node |} |}])
  | _, _ => iret children
  end.

Definition same_levels (nodes : list NodeImage) (level : Z) : bool :=
  forallb (fun image => tn_level (fst image) =? level) nodes.

Definition persist (old_lba : Z) (old_staged : bool) (nodes : list NodeImage) : act Replacement :=
  let! level := ilift (ok_or (option_map (fun image => tn_level (fst image)) (hd_error nodes)) (Corrupt "empty tree replacement")) in
  if negb (same_levels nodes level) then ierr (Corrupt "tree replacement mixes node levels") else
  let! lbas := (if old_staged then iret [old_lba]
                else do! retire_block old_lba in do! tally committed_nodes_retired in iret []) in
  let! lbas := allocate_blocks (length nodes - length lbas) lbas in
  let! children := stage_all nodes lbas [] in
  iret {| re_children := children; re_level := level |}.

Fixpoint take_sources (sources : list (Z * bool)) (reusable : list Z) : act (list Z) :=
  match sources with
  | [] => iret reusable
  | (lba, staged) :: sources =>
      if staged then
        let! present := iget (fun c => bool_decide (is_Some (mc_writes c !! lba))) in
        if negb present then ierr (Corrupt "staged tree source has no write image") else
        take_sources sources (reusable ++ [lba])
      else
        do! retire_block lba in
        do! tally committed_nodes_retired in
        take_sources sources reusable
  end.

(** [while reusable.len() > outputs.len()], popping from the end. *)
Fixpoint release_extra (n : nat) (reusable : list Z) : act (list Z) :=
  match n with
  | O => iret reusable
  | S n =>
      match last reusable with
      | None => fun c => (c, Panic)
      | Some lba =>
          do! remove_staged lba in
          do! release_block lba in
          do! tally staged_nodes_discarded in
          release_extra n (take (length reusable - 1) reusable)
      end
  end.

Definition persist_sources (sources : list (Z * bool)) (outputs : list NodeImage) : act (list ChildDesc) :=
  let! level := ilift (ok_or (option_map (fun image => tn_level (fst image)) (hd_error outputs)) (Corrupt "empty tree replacement")) in
  if negb (same_levels outputs level) then ierr (Corrupt "tree replacement mixes node levels") else
  let! reusable := take_sources sources [] in
  let! reusable := allocate_blocks (length outputs - length reusable) reusable in
  let! reusable := release_extra (length reusable - length outputs) reusable in
  stage_all outputs reusable [].

Definition discard_pending (pending : PendingNode) : act unit :=
  if pn_old_staged pending then
    let! removed := remove_staged (pn_old_lba pending) in
    match removed with
    | None => ierr (Corrupt "staged tree source has no write image")
    | Some _ =>
        do! release_block (pn_old_lba pending) in
        tally staged_nodes_discarded
    end
  else
    do! retire_block (pn_old_lba pending) in
    tally committed_nodes_retired.

(** ** Insertion *)

(** [items.binary_search_by(key)], then replacement or insertion there. *)
Fixpoint upsert_item (key value : bytes) (items : list TreeItem) : list TreeItem :=
  match items with
  | [] => [{| ti_key := key; ti_value := value |}]
  | item :: items =>
      if bytes_eqb (ti_key item) key then {| ti_key := ti_key item; ti_value := value |} :: items
      else if bytes_ltb (ti_key item) key then item :: upsert_item key value items
      else {| ti_key := key; ti_value := value |} :: item :: items
  end.

Definition child_index (node : TreeNode) (key : bytes) : nat :=
  partition_point (fun item => bytes_leb (ti_key item) key) (tn_items node).

(** [children.splice(a..=b, new)]. *)
Definition splice {E X} (l : list X) (a b : nat) (new : list X) : outcome E (list X) :=
  if bool_decide (b < length l)%nat && bool_decide (a <= S b)%nat then Ok (take a l ++ new ++ drop (S b) l) else Panic.

(** A node that overflowed its block becomes two. *)
Definition persist_split (lba : Z) (staged : bool) (known_min : option bytes) (node : TreeNode) (children : list ChildDesc) :
    act Replacement :=
  let! '(left_node, right_node, right_min) := ilift (split_internal node children (block_size geo)) in
  do! tally splits in
  persist lba staged [(left_node, known_min); (right_node, Some right_min)].

Definition upsert_leaf (lba : Z) (staged : bool) (node : TreeNode) (known_min : option bytes) (key value : bytes) :
    act Replacement :=
  let node := set_items (upsert_item key value (tn_items node)) node in
  if fits node (block_size geo) then persist lba staged [(node, first_min node)] else
  let! '(left_node, right_node) := ilift (split_leaf node (block_size geo)) in
  do! tally splits in
  let left_min := match known_min with Some k => Some k | None => first_min left_node end in
  persist lba staged [(left_node, left_min); (right_node, first_min right_node)].

(** The way back up: the parent takes in what its child became. *)
Definition upsert_parent (lba : Z) (staged : bool) (node : TreeNode) (known_min : option bytes) (index : nat)
    (child : ChildDesc) (replacement : Replacement) : act Replacement :=
  match re_children replacement with
  | [single] =>
      let! node := ilift (replace_child node index single (cr_subtree_items (ch_reference child))) in
      if fits node (block_size geo) then persist lba staged [(node, known_min)] else
      let! children := ilift (children_from_node node) in
      persist_split lba staged known_min node children
  | _ =>
      let! children := ilift (children_from_node node) in
      let! children := ilift (splice children index index (re_children replacement)) in
      let! children := (match index with O => ilift (set_first_min None children) | S _ => iret children end) in
      let! node := ilift (internal_from_children node children) in
      if fits node (block_size geo) then persist lba staged [(node, known_min)] else
      persist_split lba staged known_min node children
  end.

Fixpoint upsert_node (fuel : nat) (lba : Z) (expected_level : option Z) (known_min lower upper : option bytes)
    (is_root : bool) (depth : Z) (key value : bytes) : act Replacement :=
  if MAX_TREE_LEVEL <? depth then ierr (Corrupt "tree mutation exceeded maximum depth") else
  match fuel with
  | O => fun c => (c, Panic)
  | S fuel =>
      do! imodify (on_stats (stat_max max_depth (depth + 1))) in
      let! '(node, staged, generation) := read_node lba expected_level lower upper is_root depth in
      if is_leaf node then upsert_leaf lba staged node known_min key value else
      let index := child_index node key in
      let! '(child_lower, child_upper) := ilift (child_range node index lower upper) in
      let! child := ilift (child_at node index) in
      let! child_level := ilift (sub_w (tn_level node) 1) in
      do! cache_decoded lba node generation in
      let! replacement := upsert_node fuel (cr_lba (ch_reference child)) (Some child_level) (ch_min_key child)
                            child_lower child_upper false (depth + 1) key value in
      let! '(node, staged, _) := read_node lba expected_level lower upper is_root depth in
      upsert_parent lba staged node known_min index child replacement
  end.

(** ** Deletion *)

Fixpoint delete_item (key : bytes) (items : list TreeItem) : option (list TreeItem) :=
  match items with
  | [] => None
  | item :: items =>
      if bytes_eqb (ti_key item) key then Some items
      else match delete_item key items with Some items => Some (item :: items) | None => None end
  end.

(** The edited child and its sibling share their items anew. *)
Definition join_sibling (index sibling_index : nat) (edited : PendingNode) (sibling_desc : ChildDesc) (child_level : Z)
    (sibling_lower sibling_upper : option bytes) (depth : Z) : act (nat * nat * list ChildDesc) :=
  let! '(sibling_node, sibling_staged, _) :=
    read_node (cr_lba (ch_reference sibling_desc)) (Some child_level) sibling_lower sibling_upper false (depth + 1) in
  let sibling := {| pn_old_lba := cr_lba (ch_reference sibling_desc); pn_old_staged := sibling_staged;
                    pn_node := sibling_node; pn_min_key := ch_min_key sibling_desc |} in
  let '(left_index, l, r) :=
    if bool_decide (index < sibling_index)%nat then (index, edited, sibling) else (sibling_index, sibling, edited) in
  let! outputs := ilift (rebalance_pair l r (block_size geo)) in
  let! replacement := persist_sources [(pn_old_lba l, pn_old_staged l); (pn_old_lba r, pn_old_staged r)] outputs in
  do! tally (if bool_decide (length outputs = 1%nat) then merges else redistributions) in
  iret (left_index, (left_index + 1)%nat, replacement).

(** What becomes of the edited child: joined with a sibling, or written alone. *)
Definition settle_child (lba : Z) (expected_level : option Z) (known_min lower upper : option bytes) (is_root : bool)
    (depth : Z) (index : nat) (child_level : Z) (edited : PendingNode) : act (nat * nat * list ChildDesc) :=
  let! rebalance := ilift (needs_rebalance (pn_node edited) (block_size geo)) in
  if rebalance then
    let! '(parent, _, parent_generation) := read_node lba expected_level lower upper is_root depth in
    let! parent_children := ilift (children_from_node parent) in
    let! parent_children := ilift (set_first_min known_min parent_children) in
    let! sibling_index := ilift (if bool_decide (index + 1 < length parent_children)%nat then Ok (index + 1)%nat
                                 else match index with S i => Ok i | O => Panic end) in
    let! '(sibling_lower, sibling_upper) := ilift (child_range parent sibling_index lower upper) in
    let! sibling_desc := ilift (match parent_children !! sibling_index with Some d => Ok d | None => Panic end) in
    do! cache_decoded lba parent parent_generation in
    join_sibling index sibling_index edited sibling_desc child_level sibling_lower sibling_upper depth
  else
    let! replacement := persist_sources [(pn_old_lba edited, pn_old_staged edited)] [(pn_node edited, pn_min_key edited)] in
    iret (index, index, replacement).

Fixpoint delete_node (fuel : nat) (lba : Z) (expected_level : option Z) (known_min lower upper : option bytes)
    (is_root : bool) (depth : Z) (key : bytes) : act PendingNode :=
  if MAX_TREE_LEVEL <? depth then ierr (Corrupt "tree mutation exceeded maximum depth") else
  match fuel with
  | O => fun c => (c, Panic)
  | S fuel =>
      let! '(node, staged, generation) := read_node lba expected_level lower upper is_root depth in
      if is_leaf node then
        let! items := ilift (ok_or (delete_item key (tn_items node)) NotFound) in
        let node := set_items items node in
        iret {| pn_old_lba := lba; pn_old_staged := staged; pn_node := node; pn_min_key := first_min node |}
      else
        let index := child_index node key in
        let! '(child_lower, child_upper) := ilift (child_range node index lower upper) in
        let! child := ilift (child_at node index) in
        let child := match index with O => set_min_key known_min child | S _ => child end in
        let! child_level := ilift (sub_w (tn_level node) 1) in
        do! cache_decoded lba node generation in
        let! edited := delete_node fuel (cr_lba (ch_reference child)) (Some child_level) (ch_min_key child)
                         child_lower child_upper false (depth + 1) key in
        let! '(replace_start, replace_end, replacement) :=
          settle_child lba expected_level known_min lower upper is_root depth index child_level edited in
        let! '(node, staged, _) := read_node lba expected_level lower upper is_root depth in
        let! children := ilift (children_from_node node) in
        let! children := ilift (set_first_min known_min children) in
        let! children := ilift (splice children replace_start replace_end replacement) in
        match children with
        | [] => fun c => (c, Panic)
        | first :: _ =>
            let min_key := match ch_min_key first with Some k => Some k | None => known_min end in
            let! node := ilift (internal_allow_one node children) in
            iret {| pn_old_lba := lba; pn_old_staged := staged; pn_node := node; pn_min_key := min_key |}
        end
  end.

(** ** A batch *)

Inductive TreeOperation : Type :=
| Upsert (key value : bytes)
| Delete (key : bytes).

(** One more level above a root that split. *)
Definition grow_root (replacement : Replacement) : act Z :=
  if re_level replacement =? MAX_TREE_LEVEL then ierr (PrototypeLimit "tree height limit reached") else
  match re_children replacement with
  | first :: second :: _ =>
      let l := ch_reference first in
      let! level := ilift (add_w 8 (re_level replacement) 1) in
      let! total := ilift (ok_or (checked_add 64 (cr_subtree_items l) (cr_subtree_items (ch_reference second)))
                                 (Corrupt "tree item count overflow")) in
      let! key := ilift (ok_or (ch_min_key second) (Corrupt "split child has no minimum key")) in
      let! value := ilift (of_format (child_value (ch_reference second))) in
      let! lba := allocate_block in
      do! tally nodes_allocated in
      do! stage_node lba {| tn_kind := ts_kind spec; tn_owner := ts_owner spec; tn_level := level;
                            tn_subtree_items := total; tn_leftmost_child := cr_lba l;
                            tn_leftmost_items := cr_subtree_items l;
                            tn_items := [{| ti_key := key; ti_value := value |}] |} in
      do! tally root_splits in
      iret lba
  | _ => fun c => (c, Panic)
  end.

Definition MUTATION_FUEL : nat := Z.to_nat (MAX_TREE_LEVEL + 1).

Definition apply_operation (root : Z) (operation : TreeOperation) : act Z :=
  match operation with
  | Upsert key value =>
      do! ilift (validate_upsert key value) in
      let! replacement := upsert_node MUTATION_FUEL root None None None None true 0 key value in
      match re_children replacement with
      | [single] => iret (cr_lba (ch_reference single))
      | _ => grow_root replacement
      end
  | Delete key =>
      do! ilift (validate_key key) in
      let! pending := delete_node MUTATION_FUEL root None None None None true 0 key in
      let! root :=
        (if (0 <? tn_level (pn_node pending)) && (zlen (tn_items (pn_node pending)) =? 0) then
           do! discard_pending pending in
           do! tally root_collapses in
           iret (tn_leftmost_child (pn_node pending))
         else
           let! replacement := persist_sources [(pn_old_lba pending, pn_old_staged pending)]
                                 [(pn_node pending, pn_min_key pending)] in
           match replacement with
           | first :: _ => iret (cr_lba (ch_reference first))
           | [] => fun c => (c, Panic)
           end) in
      do! tally deletes in
      iret root
  end.

Fixpoint apply_operations (root : Z) (operations : list TreeOperation) : act Z :=
  match operations with
  | [] => iret root
  | operation :: operations =>
      let! root := apply_operation root operation in
      apply_operations root operations
  end.

Definition is_deferred (image : StagedImage) : bool := match si_resident image with Deferred => true | _ => false end.

(** The images handed to the caller: those that were not spilled. *)
Definition staged_writes (writes : gmap Z StagedImage) : list (Z * bytes) :=
  omap (fun lba => match writes !! lba with
                   | Some {| si_resident := ResidentBytes block |} => Some (lba, block)
                   | _ => None
                   end) (sorted_keys writes).

Definition finish : act unit :=
  do! imodify (fun c => on_stats (stat_set final_nodes_written (Z.of_nat (size (mc_writes c)))) c) in
  let! pending := iget (fun c => sorted_keys (filter (fun p => is_deferred (snd p)) (mc_writes c))) in
  do! ieach materialize pending in
  do! imodify (set_mc_decoded ∅ ∅) in
  imodify (fun c => set_mc_dev_tx (mc_dev c, record_tree_mutation (mc_stats c) (mc_tx c)) c).
End Mutation.

Record TreeMutation := {
  tm_root_lba : Z;
  tm_writes : list (Z * bytes);
  tm_stats : TreeMutationStats;
}.

Definition DECODED_CACHE_NODES : Z := 8.

Section Entry.
Context {D A : Type} {device : BlockDevice Decoded D} {allocator : TreeAllocator D A}.

Definition mutate_many_inner (geo : Geometry) (root_lba : Z) (spec : TreeSpec) (new_generation : Z)
    (operations : list TreeOperation) (cache_pages : Z) (new_empty_root : bool) : io (D * A) CoreError TreeMutation := fun s =>
  if cache_pages =? 0 then (s, Err (PrototypeLimit "tree mutation cache must retain at least one page")) else
  if new_generation <=? ts_max_generation spec then
    (s, Err (Corrupt "tree mutation generation is not newer than committed state")) else
  match check_tree_lba geo root_lba with
  | Ok _ =>
      let decoded_limit := Z.min (cache_pages / 16) DECODED_CACHE_NODES in
      let start :=
        {| mc_dev := fst s; mc_tx := snd s; mc_writes := ∅; mc_resident := 0; mc_clock := 0; mc_lru := ∅;
           mc_decoded := ∅; mc_decoded_lru := ∅; mc_stats := no_stats |} in
      let '(c, r) :=
        (do! (if new_empty_root then
                do! stage_node geo new_generation cache_pages decoded_limit root_lba
                      (TreeNode_leaf (ts_kind spec) (ts_owner spec)) in
                imodify (on_stats (stat_set nodes_allocated 1))
              else iret tt) in
         let! root := apply_operations geo spec new_generation cache_pages decoded_limit root_lba operations in
         do! finish geo new_generation in
         iret root) start in
      ((mc_dev c, mc_tx c),
       let* root := r in
       Ok {| tm_root_lba := root; tm_writes := staged_writes (mc_writes c); tm_stats := mc_stats c |})
  | Err e => (s, Err e)
  | Panic => (s, Panic)
  end.

Definition mutate_many_with_cache_limit (geo : Geometry) (root_lba : Z) (spec : TreeSpec) (new_generation : Z)
    (operations : list TreeOperation) (cache_pages : Z) : io (D * A) CoreError TreeMutation :=
  mutate_many_inner geo root_lba spec new_generation operations cache_pages false.

Definition mutate_many (geo : Geometry) (root_lba : Z) (spec : TreeSpec) (new_generation : Z)
    (operations : list TreeOperation) : io (D * A) CoreError TreeMutation := fun s =>
  mutate_many_with_cache_limit geo root_lba spec new_generation operations (tree_cache_pages (D := D) (snd s)) s.

Definition mutate_new_empty_tree (geo : Geometry) (root_lba : Z) (spec : TreeSpec) (new_generation : Z)
    (operations : list TreeOperation) : io (D * A) CoreError TreeMutation := fun s =>
  mutate_many_inner geo root_lba spec new_generation operations (tree_cache_pages (D := D) (snd s)) true s.

Definition upsert_many (geo : Geometry) (root_lba : Z) (spec : TreeSpec) (new_generation : Z)
    (entries : list (bytes * bytes)) : io (D * A) CoreError TreeMutation :=
  mutate_many geo root_lba spec new_generation (map (fun '(key, value) => Upsert key value) entries).

Definition delete_many (geo : Geometry) (root_lba : Z) (spec : TreeSpec) (new_generation : Z)
    (keys : list bytes) : io (D * A) CoreError TreeMutation :=
  mutate_many geo root_lba spec new_generation (map Delete keys).
End Entry.
