(* ===== verification/CowStore.v ===== *)
(** * The working store of a tree mutation (crates/afsplus-core/src/cow_tree.rs)

    Staged images, spills and decoded nodes together hold one map from
    blocks to nodes, the overlay.  Every operation of the store is specified
    by what it does to the overlay; none writes a block that the committed
    state uses. *)

From S2P Require Import Prelude Crc32c Format Header Codec TreeNode Geometry Checkpoint Object Device Core Tree TreeSpec TreeReaders CowTree.

(** ** What the store relies on in the allocator *)

Class AllocatorContract (D A : Type) {device : BlockDevice Decoded D} {contract : DeviceContract Decoded D core_decodes}
    {allocator : TreeAllocator D A} (geo : Geometry) := {
  tx_ok : D -> A -> Prop;
  (** Blocks the committed state uses; they do not change during a transaction. *)
  committed : A -> Z -> Prop;
  (** Blocks the transaction allocated and has not released. *)
  owned : A -> gset Z;
  (** Committed blocks it has quarantined. *)
  quarantined : A -> gset Z;
  owned_free d a lba : tx_ok d a -> lba ∈ owned a -> ~ committed a lba /\ u64 lba /\ check_tree_lba geo lba = Ok tt;
  tx_ok_frame d d' a : tx_ok d a ->
    agree_off (dev_ok (decodes := core_decodes)) (view (decodes := core_decodes)) (fun b => b ∈ owned a) d d' -> tx_ok d' a;
  allocate_contract d a : dev_ok (decodes := core_decodes) d -> tx_ok d a ->
    wpi allocate_tree_block (d, a)
      (fun lba s => reads d (fst s) /\ tx_ok (fst s) (snd s) /\ (lba ∉ owned a) /\ owned (snd s) = ({[lba]} ∪ owned a) /\
                    committed (snd s) = committed a /\ quarantined (snd s) = quarantined a)
      (fun _ s => reads d (fst s));
  retire_contract d a lba : dev_ok (decodes := core_decodes) d -> tx_ok d a -> committed a lba ->
    wpi (retire_tree_block lba) (d, a)
      (fun _ s => reads d (fst s) /\ tx_ok (fst s) (snd s) /\ owned (snd s) = owned a /\
                  committed (snd s) = committed a /\ quarantined (snd s) = {[lba]} ∪ quarantined a)
      (fun _ s => reads d (fst s));
  release_contract d a lba : dev_ok (decodes := core_decodes) d -> tx_ok d a -> lba ∈ owned a ->
    wpi (release_tree_block lba) (d, a)
      (fun _ s => reads d (fst s) /\ tx_ok (fst s) (snd s) /\ owned (snd s) = owned a ∖ {[lba]} /\
                  committed (snd s) = committed a /\ quarantined (snd s) = quarantined a)
      (fun _ s => reads d (fst s));
  record_contract d a stats : tx_ok d a -> tx_ok d (record_tree_mutation stats a) /\
    owned (record_tree_mutation stats a) = owned a /\ committed (record_tree_mutation stats a) = committed a /\
    quarantined (record_tree_mutation stats a) = quarantined a;
}.

(** ** Counting the images in memory *)

Definition in_ram (w : gmap Z StagedImage) : Z :=
  Z.of_nat (size (filter (fun p => in_memory (si_resident (snd p)) = true) w)).

Definition ram_of (image : option StagedImage) : Z :=
  match image with Some i => if in_memory (si_resident i) then 1 else 0 | None => 0 end.

Lemma in_ram_delete lba w : in_ram (delete lba w) = in_ram w - ram_of (w !! lba).
Proof.
  unfold in_ram, ram_of. rewrite map_filter_delete. destruct (w !! lba) as [i|] eqn:Hw.
  - destruct (in_memory (si_resident i)) eqn:Hm.
    + rewrite map_size_delete. rewrite (proj2 (map_lookup_filter_Some _ _ lba i)) by done.
      assert (size (filter (fun p : Z * StagedImage => in_memory (si_resident (snd p)) = true) w) <> 0%nat).
      { intros Hz%map_size_empty_inv. assert (filter (fun p : Z * StagedImage => in_memory (si_resident (snd p)) = true) w !! lba = Some i) as H
          by by apply map_lookup_filter_Some. by rewrite Hz, lookup_empty in H. }
      lia.
    + rewrite delete_id; [lia|]. apply map_lookup_filter_None. right. intros i'. rewrite Hw. intros [= <-]. cbn. congruence.
  - rewrite delete_id; [lia|]. apply map_lookup_filter_None. by left.
Qed.

Lemma in_ram_insert lba image w : in_ram (<[lba := image]> w) = in_ram w - ram_of (w !! lba) + ram_of (Some image).
Proof.
  rewrite <- insert_delete_eq. rewrite <- in_ram_delete. unfold in_ram, ram_of.
  destruct (in_memory (si_resident image)) eqn:Hm.
  - rewrite map_filter_insert_True by done. rewrite map_size_insert.
    rewrite (proj2 (map_lookup_filter_None _ _ lba)) by (left; apply lookup_delete_eq). lia.
  - rewrite map_filter_insert_False by (cbn; congruence). rewrite delete_delete_eq. lia.
Qed.

Lemma in_ram_nonneg w : 0 <= in_ram w.
Proof. unfold in_ram. lia. Qed.

Lemma in_ram_pos lba w image : w !! lba = Some image -> in_memory (si_resident image) = true -> 1 <= in_ram w.
Proof.
  intros Hw Hm. pose proof (in_ram_delete lba w) as H. pose proof (in_ram_nonneg (delete lba w)). rewrite Hw in H.
  unfold ram_of in H. rewrite Hm in H. lia.
Qed.

Section Store.
Context {D A : Type} {device : BlockDevice Decoded D} {contract : DeviceContract Decoded D core_decodes}.
Context {allocator : TreeAllocator D A} (geo : Geometry) {WF : WfGeometry geo}.
Context {alloc_contract : AllocatorContract D A geo}.
Context (spec : TreeSpec) (new_generation cache_pages decoded_limit : Z).
Hypothesis generation_typed : u64 new_generation.
Hypothesis limit_nonneg : 0 <= decoded_limit.
(** The device when the mutation began, and the blocks in use then. *)
Context (d0 : D) (P : Z -> Prop).

Abbreviation ctx := (MutationContext D A).
Abbreviation content := (view (decodes := core_decodes)).
Abbreviation ok := (dev_ok (decodes := core_decodes)).

(** No committed block has changed. *)
Definition kept (d : D) : Prop := agree_off ok content (fun b => ~ P b) d0 d.

(** The node of a block: the staged one, or what the device held. *)
Definition overlay (ov : gmap Z TreeNode) (lba : Z) : result (TreeNode * Z) :=
  match ov !! lba with
  | Some node => Ok (node, new_generation)
  | None => decoded (content d0) lba
  end.

(** An image stands for a node; [hole] says that the decoded node was taken out. *)
Definition image_holds (c : ctx) (hole : Prop) (lba : Z) (node : TreeNode) (r : Resident) : Prop :=
  match r with
  | ResidentBytes block => TreeNode_decode block = Ok (node, new_generation) /\ zlen block = block_size geo
  | Deferred => decoded_limit <> 0 /\ (hole \/ is_Some (mc_decoded c !! lba))
  | Spilled => inside (mc_dev c) lba /\ TreeNode_decode (content (mc_dev c) lba) = Ok (node, new_generation)
  end.

Definition decoded_holds (ov : gmap Z TreeNode) (lba : Z) (e : DecodedNode) : Prop :=
  overlay ov lba = Ok (dn_node e, dn_generation e) /\ (ov !! lba = None -> P lba).

Record Inv (H : gset Z) (ov : gmap Z TreeNode) (c : ctx) : Prop := {
  inv_dev : kept (mc_dev c);
  inv_tx : tx_ok (mc_dev c) (mc_tx c);
  inv_committed : committed (mc_tx c) = P;
  inv_dom lba : is_Some (mc_writes c !! lba) <-> is_Some (ov !! lba);
  inv_owned lba : is_Some (ov !! lba) -> lba ∈ owned (mc_tx c);
  inv_image lba node image : ov !! lba = Some node -> mc_writes c !! lba = Some image ->
    image_holds c (lba ∈ H) lba node (si_resident image);
  inv_decoded lba e : mc_decoded c !! lba = Some e -> decoded_holds ov lba e;
  inv_resident : mc_resident c = in_ram (mc_writes c);
  inv_valid lba node : ov !! lba = Some node -> valid_node node new_generation;
}.

(** What every failure leaves. *)
Definition failed (_ : CoreError) (c : ctx) : Prop := kept (mc_dev c).

Lemma inv_holes H H' ov c : Inv H ov c -> (forall lba, lba ∈ H -> is_Some (ov !! lba) -> lba ∈ H') -> Inv H' ov c.
Proof.
  intros [] Hsub. split; try done. intros lba node image Hov Hw. specialize (inv_image0 _ _ _ Hov Hw).
  destruct (si_resident image); try done. destruct inv_image0 as (? & [Hh|?]); [|by split; [|right]].
  split; [done|]. left. apply Hsub; [done|by rewrite Hov].
Qed.

Lemma overlay_valid ov : (forall lba node, ov !! lba = Some node -> valid_node node new_generation) -> ValidNodes (overlay ov).
Proof.
  intros Hv lba node g. unfold overlay. destruct (ov !! lba) as [n|] eqn:Hov; [|apply decode_valid].
  intros [= <- <-]. by eapply Hv.
Qed.

(** Changes that touch none of the fields an invariant speaks of. *)
Lemma inv_stats H ov c f : Inv H ov c -> Inv H ov (on_stats f c).
Proof. by intros []. Qed.

Lemma wpi_tally H ov c f Q R : Inv H ov c -> (forall c', Inv H ov c' -> mc_tx c' = mc_tx c -> Q tt c') -> wpi (tally f) c Q R.
Proof. intros HI HQ. apply HQ; [by apply inv_stats|done]. Qed.

Lemma encode_image node block :
  valid_node node new_generation -> TreeNode_encode node (block_size geo) new_generation = Ok block ->
  TreeNode_decode block = Ok (node, new_generation) /\ zlen block = block_size geo.
Proof.
  intros [Ht _] He. assert (0 <= block_size geo < 2 ^ 32) by (rewrite wf_block_size; lia). split.
  - by eapply (decode_encode (encode := TreeNode_encode)).
  - by eapply (encode_size (encode := TreeNode_encode)).
Qed.

(** ** Single steps *)

Lemma inv_set_resident H ov c lba node r :
  Inv H ov c -> ov !! lba = Some node -> (forall i, mc_writes c !! lba = Some i -> in_memory (si_resident i) = in_memory r) ->
  image_holds c (lba ∈ H) lba node r -> Inv H ov (set_resident lba r c).
Proof.
  intros HI Hov Hm Hr. unfold set_resident. destruct (mc_writes c !! lba) as [i|] eqn:Hw; [|done].
  destruct HI. split; cbn; try done.
  - intros l. destruct (decide (l = lba)) as [->|]; [rewrite lookup_insert_eq, Hov; by split|by rewrite lookup_insert_ne].
  - intros l n image Hn. destruct (decide (l = lba)) as [->|].
    + rewrite lookup_insert_eq. intros [= <-]. rewrite Hov in Hn. injection Hn as <-. done.
    + rewrite lookup_insert_ne by done. intros Hl. by specialize (inv_image0 _ _ _ Hn Hl).
  - rewrite in_ram_insert, Hw. unfold ram_of. cbn. rewrite (Hm i eq_refl). lia.
Qed.

Lemma inv_decoded_drop H ov c lba :
  Inv H ov c -> Inv ({[lba]} ∪ H) ov (decoded_drop lba c).
Proof.
  intros HI. unfold decoded_drop. destruct (mc_decoded c !! lba) as [e|] eqn:He.
  2: { eapply inv_holes; [done|]. intros. by apply elem_of_union_r. }
  destruct HI. split; cbn; try done.
  - intros l n image Hn Hl. specialize (inv_image0 _ _ _ Hn Hl). unfold image_holds in *. cbn.
    destruct (si_resident image); try done. destruct inv_image0 as [? Hd]. split; [done|].
    destruct (decide (l = lba)) as [->|]; [left; by apply elem_of_union_l, elem_of_singleton|]. rewrite lookup_delete_ne by done.
    destruct Hd; [left; by apply elem_of_union_r|by right].
  - intros l e'. rewrite lookup_delete_Some. intros [_ ?]. by apply inv_decoded0.
Qed.

(** An image that is not deferred needs no decoded node. *)
Lemma inv_unhole H ov c lba :
  Inv ({[lba]} ∪ H) ov c -> (forall i, mc_writes c !! lba = Some i -> si_resident i = Deferred -> lba ∈ H) -> Inv H ov c.
Proof.
  intros HI Hnd. destruct HI. split; try done. intros l n image Hn Hl. specialize (inv_image0 _ _ _ Hn Hl).
  unfold image_holds in *. destruct (si_resident image) eqn:Hr; try done. destruct inv_image0 as [? [Hh|?]]; split; try done; [|by right].
  left. apply elem_of_union in Hh as [Heq%elem_of_singleton|?]; [|done]. subst l. by eapply Hnd.
Qed.

Lemma inv_unstaged H ov c lba : Inv ({[lba]} ∪ H) ov c -> ov !! lba = None -> Inv H ov c.
Proof.
  intros HI Hov. eapply inv_holes; [done|]. intros l Hl Hs. apply elem_of_union in Hl as [->%elem_of_singleton|?]; [|done].
  rewrite Hov in Hs. by destruct Hs.
Qed.

Lemma wpi_materialize H ov c lba :
  Inv H ov c ->
  wpi (materialize geo new_generation lba) c
    (fun _ c' => Inv H ov c' /\ (forall i, mc_writes c' !! lba = Some i -> si_resident i <> Deferred) /\
       mc_dev c' = mc_dev c /\ mc_tx c' = mc_tx c /\ mc_decoded c' = mc_decoded c /\ mc_decoded_lru c' = mc_decoded_lru c /\
       mc_lru c' = mc_lru c /\ (forall l, l <> lba -> mc_writes c' !! l = mc_writes c !! l) /\
       (forall i, mc_writes c' !! lba = Some i -> exists j, mc_writes c !! lba = Some j /\ si_last_used j = si_last_used i /\
          in_memory (si_resident j) = in_memory (si_resident i))) failed.
Proof.
  intros HI. unfold materialize. apply wpi_bind, wpi_ret.
  destruct (mc_writes c !! lba) as [i|] eqn:Hw; cbn [option_map].
  2: { apply wpi_ret. split; [done|]. split; [by rewrite Hw|]. by rewrite Hw. }
  destruct (si_resident i) eqn:Hr.
  1, 3: apply wpi_ret; split; [done|]; rewrite Hw; split; [by intros ? [= <-]; rewrite Hr|];
        do 6 (split; [done|]); intros ? [= <-]; by exists i.
  destruct (proj1 (inv_dom _ _ _ HI lba)) as [node Hov]; [by rewrite Hw|].
  pose proof (inv_dev _ _ _ HI) as Hk.
  apply wpi_bind, wpi_ret. destruct (mc_decoded c !! lba) as [e|] eqn:He; [|exact Hk].
  destruct (inv_decoded _ _ _ HI _ _ He) as [Hd _]. unfold overlay in Hd. rewrite Hov in Hd. injection Hd as Hnode _.
  pose proof (inv_valid _ _ _ HI _ _ Hov) as Hv. rewrite Hnode in Hv.
  assert (0 <= block_size geo < 2 ^ 32) by (rewrite wf_block_size; lia).
  pose proof (encode_total (encode := TreeNode_encode) (dn_node e) (block_size geo) new_generation (proj1 Hv) ltac:(done)) as Htot.
  unfold wpi, ibind, ilift, tally, imodify. cbn [ok_or].
  destruct (TreeNode_encode (dn_node e) (block_size geo) new_generation) as [block|err|] eqn:Hb; cbn [of_format]; [|exact Hk|done].
  destruct (encode_image _ _ Hv Hb) as [Hdec Hlen]. rewrite <- Hnode in Hdec.
  set (c1 := on_stats (stat_add deferred_encodes) c). assert (Inv H ov c1) as HI1 by by apply inv_stats.
  assert (mc_writes c1 !! lba = Some i) as Hw1 by done.
  split; [apply (inv_set_resident H ov c1 lba node); [done|done|by intros ? [= <-]%(eq_trans (eq_sym Hw1)); rewrite Hr|done]|].
  unfold set_resident. rewrite Hw1. cbn. rewrite lookup_insert_eq. split; [by intros ? [= <-]|].
  do 5 (split; [done|]). split; [intros l Hl; by rewrite lookup_insert_ne|].
  intros ? [= <-]. exists i. by rewrite Hr.
Qed.

(** A block the overlay knows: staged, or committed and not staged. *)
Definition at_block (ov : gmap Z TreeNode) (lba : Z) (node : TreeNode) (g : Z) : Prop :=
  overlay ov lba = Ok (node, g) /\ (ov !! lba = None -> P lba).

Lemma inv_set_decoded H H' ov c m s :
  Inv H' ov c -> (forall lba e, m !! lba = Some e -> decoded_holds ov lba e) ->
  (forall lba i, mc_writes c !! lba = Some i -> si_resident i = Deferred -> lba ∈ H \/ is_Some (m !! lba)) ->
  Inv H ov (set_mc_decoded m s c).
Proof.
  intros [] Hm Hd. split; cbn; try done. intros l n image Hn Hl. specialize (inv_image0 _ _ _ Hn Hl). unfold image_holds in *. cbn.
  destruct (si_resident image) eqn:Hr; try done. split; [by destruct inv_image0|]. by eapply Hd.
Qed.

Lemma inv_deferred H ov c lba i :
  Inv H ov c -> mc_writes c !! lba = Some i -> si_resident i = Deferred ->
  decoded_limit <> 0 /\ (lba ∈ H \/ is_Some (mc_decoded c !! lba)).
Proof.
  intros HI Hw Hr. destruct (proj1 (inv_dom _ _ _ HI lba)) as [node Hov]; [by rewrite Hw|].
  pose proof (inv_image _ _ _ HI _ _ _ Hov Hw) as Him. by rewrite Hr in Him.
Qed.

Lemma pop_first_size s x s' : pop_first s = Some (x, s') -> (size s' < size s)%nat.
Proof.
  unfold pop_first. destruct (least (elements s)) as [y|] eqn:Hl; [|done]. intros [= -> <-].
  assert (x ∈ elements s) as Hx.
  { revert x Hl. induction (elements s) as [|z l IH]; intros x; cbn; [done|]. destruct (least l) as [m|] eqn:Hm; cbn.
    - destruct (pair_leb z m); intros [= <-]; [by left|]. right. by apply IH.
    - intros [= <-]. by left. }
  apply elem_of_elements in Hx. apply subset_size. split; [apply subseteq_difference_l; done|].
  intros Hsub. specialize (Hsub _ Hx). apply elem_of_difference in Hsub as [_ Hn]. by apply Hn, elem_of_singleton.
Qed.

(** What the cache of decoded nodes does to everything else: nothing. *)
Definition same_tx (c c' : ctx) : Prop := mc_dev c' = mc_dev c /\ mc_tx c' = mc_tx c.

Lemma same_tx_trans c c' c'' : same_tx c c' -> same_tx c' c'' -> same_tx c c''.
Proof. intros [? ?] [? ?]. split; congruence. Qed.

Lemma drop_frame lba (c : ctx) :
  mc_writes (decoded_drop lba c) = mc_writes c /\ same_tx c (decoded_drop lba c).
Proof. unfold decoded_drop. by destruct (mc_decoded c !! lba). Qed.

Lemma wpi_trim_decoded H ov fuel : forall c,
  Inv H ov c -> (size (mc_decoded_lru c) < fuel)%nat ->
  wpi (trim_decoded geo new_generation decoded_limit fuel) c (fun _ c' => Inv H ov c' /\ same_tx c c') failed.
Proof.
  induction fuel as [|fuel IH]; intros c HI Hf; [lia|]. unfold wpi. cbn [trim_decoded].
  destruct (_ <=? _); [done|]. destruct (pop_first (mc_decoded_lru c)) as [[[t victim] lru]|] eqn:Hpop; [|done].
  apply pop_first_size in Hpop. set (c1 := set_mc_decoded (mc_decoded c) lru c).
  assert (Inv H ov c1) as HI1.
  { apply (inv_set_decoded H H); [done|apply HI|]. intros l i Hw Hr. by eapply inv_deferred. }
  match goal with |- match ?m c1 with (_, _) => _ end => change (wpi m c1 (fun _ c' => Inv H ov c' /\ same_tx c c') failed) end.
  apply wpi_bind. eapply wpi_mono; [by apply (wpi_materialize H ov)| |done].
  cbn beta. intros _ c2 (HI2 & Hnd & Hdev & Htx & Hdec & Hlru & _). apply wpi_bind.
  set (c3 := set_mc_decoded (delete victim (mc_decoded c2)) (mc_decoded_lru c2) c2).
  assert (Inv H ov c3) as HI3.
  { apply (inv_set_decoded H H); [done| |].
    - intros l e. rewrite lookup_delete_Some. intros [_ ?]. by apply HI2.
    - intros l i Hw Hr. destruct (inv_deferred _ _ _ _ _ HI2 Hw Hr) as [_ [?|?]]; [by left|]. right.
      rewrite lookup_delete_ne; [done|]. intros ->. by destruct (Hnd i). }
  change (wpi (trim_decoded geo new_generation decoded_limit fuel) c3 (fun _ c' => Inv H ov c' /\ same_tx c c') failed).
  eapply wpi_mono; [apply IH; [done|]| |done].
  - cbn. rewrite Hlru. cbn. lia.
  - intros _ c4 [? Hs]. split; [done|]. eapply same_tx_trans; [|exact Hs]. by split; cbn.
Qed.

Lemma wpi_cache_decoded H ov c lba node g :
  Inv ({[lba]} ∪ H) ov c -> at_block ov lba node g ->
  wpi (cache_decoded geo new_generation decoded_limit lba node g) c (fun _ c' => Inv H ov c' /\ same_tx c c') failed.
Proof.
  intros HI Hat. unfold cache_decoded. destruct (decoded_limit =? 0) eqn:Hz.
  { apply wpi_ret. split; [|done]. apply (inv_unhole _ _ _ lba HI). intros i Hw Hr.
    destruct (inv_deferred _ _ _ _ _ HI Hw Hr). lia. }
  apply wpi_bind, wpi_bind. set (c1 := decoded_drop lba c).
  assert (Inv ({[lba]} ∪ H) ov c1) as HI1.
  { eapply inv_holes; [by apply inv_decoded_drop|]. intros l Hl _. rewrite (assoc_L (∪)), (idemp_L (∪)) in Hl. done. }
  assert (same_tx c c1) as Hs1 by apply drop_frame.
  unfold next_access. set (t := Z.min (mc_clock c1 + 1) (2 ^ 64 - 1)). set (c2 := set_mc_clock t c1).
  assert (Inv ({[lba]} ∪ H) ov c2) as HI2 by (by destruct HI1).
  match goal with |- wpi _ _ ?Q ?R => unfold wpi at 1; cbn [fst snd] end.
  set (c3 := set_mc_decoded (<[lba := {| dn_node := node; dn_generation := g; dn_last_used := t |}]> (mc_decoded c2))
               ({[(t, lba)]} ∪ mc_decoded_lru c2) c2).
  assert (Inv H ov c3) as HI3.
  { apply (inv_set_decoded H ({[lba]} ∪ H)); [done| |].
    - intros l e. destruct (decide (l = lba)) as [->|]; [rewrite lookup_insert_eq; by intros [= <-]|].
      rewrite lookup_insert_ne by done. apply HI2.
    - intros l i Hw Hr. destruct (decide (l = lba)) as [->|]; [right; by rewrite lookup_insert_eq|].
      rewrite lookup_insert_ne by done. destruct (inv_deferred _ _ _ _ _ HI2 Hw Hr) as [_ [Hl|?]]; [|by right].
      apply elem_of_union in Hl as [?%elem_of_singleton|?]; [done|by left]. }
  eapply wpi_mono; [apply (wpi_trim_decoded H ov _ c3 HI3); apply Nat.lt_succ_diag_r| |done]. cbn beta.
  intros _ c4 [? Hs]. split; [done|]. eapply same_tx_trans; [exact Hs1|]. exact Hs.
Qed.

Lemma wpi_decoded_forget H ov c lba :
  Inv H ov c ->
  wpi (decoded_forget geo new_generation lba) c (fun _ c' => Inv H ov c' /\ same_tx c c') failed.
Proof.
  intros HI. unfold decoded_forget. apply wpi_bind. eapply wpi_mono; [by apply (wpi_materialize H ov)| |done].
  cbn beta. intros _ c1 (HI1 & Hnd & Hd & Ht & _). unfold wpi, imodify. split.
  - apply (inv_unhole _ _ _ lba); [by apply inv_decoded_drop|]. intros i Hw Hr.
    rewrite (proj1 (drop_frame _ _)) in Hw. by destruct (Hnd i).
  - eapply same_tx_trans; [|apply drop_frame]. by split.
Qed.

(** ** The allocator *)

Lemma kept_reads d d' : kept d -> reads d d' -> kept d'.
Proof. intros Hk Hr. eapply agree_trans; [exact Hk|]. eapply agree_mono; [exact Hr|done]. Qed.

(** The device was only read and the ghost state of the allocator moved on. *)
Lemma inv_tx_step H ov c d a :
  Inv H ov c -> reads (mc_dev c) d -> tx_ok d a -> committed a = P ->
  (forall lba, is_Some (ov !! lba) -> lba ∈ owned a) -> Inv H ov (set_mc_dev_tx (d, a) c).
Proof.
  intros [] Hr Ha Hc Ho. split; cbn; try done; [by eapply kept_reads|].
  intros l n image Hn Hl. specialize (inv_image0 _ _ _ Hn Hl). unfold image_holds in *. cbn.
  destruct (si_resident image); try done. destruct inv_image0 as [Hi Hdec].
  rewrite (reads_view _ _ _ Hr Hi). split; [|done]. destruct Hr as (_ & [_ Ht] & _). unfold inside in *. by rewrite Ht.
Qed.

Definition ghost_is (c : ctx) (o q : gset Z) : Prop := owned (mc_tx c) = o /\ quarantined (mc_tx c) = q.

Lemma ghost_same c c' o q : same_tx c c' -> ghost_is c o q -> ghost_is c' o q.
Proof. intros [_ Ht]. unfold ghost_is. by rewrite Ht. Qed.

Lemma wpi_allocate_block H ov c o q :
  Inv H ov c -> ghost_is c o q ->
  wpi (allocate_block geo new_generation) c
    (fun lba c' => Inv H ov c' /\ ghost_is c' ({[lba]} ∪ o) q /\ (lba ∉ o) /\ ov !! lba = None) failed.
Proof.
  intros HI [<- <-]. unfold allocate_block. apply wpi_bind, wpi_zoom.
  pose proof (inv_dev _ _ _ HI) as Hk.
  eapply wpi_mono; [apply (allocate_contract (geo := geo)); [apply Hk|apply HI]| |].
  2: { intros e [d a] Hr. unfold failed. cbn. by eapply kept_reads. }
  intros lba [d a] (Hr & Ha & Hni & Ho & Hc & Hq). cbn [fst snd] in *.
  assert (ov !! lba = None) as Hov.
  { destruct (ov !! lba) as [n|] eqn:Hn; [|done]. destruct Hni. apply (inv_owned _ _ _ HI). by rewrite Hn. }
  assert (Inv H ov (set_mc_dev_tx (d, a) c)) as HI1.
  { apply inv_tx_step; [done|done|done|by rewrite Hc; apply HI|]. intros l Hl. rewrite Ho. apply elem_of_union_r.
    by apply (inv_owned _ _ _ HI). }
  apply wpi_bind. eapply wpi_mono; [by apply (wpi_decoded_forget H ov)| |done]. intros _ c2 [HI2 Hs].
  apply wpi_ret. split; [done|]. split; [|done]. eapply ghost_same; [exact Hs|]. by split; cbn.
Qed.

Lemma wpi_retire_block H ov c lba o q :
  Inv H ov c -> ghost_is c o q -> P lba ->
  wpi (retire_block geo new_generation lba) c (fun _ c' => Inv H ov c' /\ ghost_is c' o ({[lba]} ∪ q)) failed.
Proof.
  intros HI Hg HP. unfold retire_block. apply wpi_bind. eapply wpi_mono; [by apply (wpi_decoded_forget H ov)| |done].
  intros _ c1 [HI1 Hs]. eapply ghost_same in Hg; [|exact Hs]. destruct Hg as [<- <-]. apply wpi_zoom.
  eapply wpi_mono; [apply (retire_contract (geo := geo)); [apply (inv_dev _ _ _ HI1)|apply HI1|by rewrite (inv_committed _ _ _ HI1)]| |].
  2: { intros e [d a] Hr. unfold failed. cbn. eapply kept_reads; [apply (inv_dev _ _ _ HI1)|done]. }
  intros _ [d a] (Hr & Ha & Ho & Hc & Hq). cbn [fst snd] in *. split; [|by split; cbn].
  apply inv_tx_step; [done|done|done|by rewrite Hc; apply HI1|]. intros l Hl. rewrite Ho. by apply (inv_owned _ _ _ HI1).
Qed.

Lemma wpi_release_block H ov c lba o q :
  Inv H ov c -> ghost_is c o q -> lba ∈ o -> ov !! lba = None ->
  wpi (release_block geo new_generation lba) c (fun _ c' => Inv H ov c' /\ ghost_is c' (o ∖ {[lba]}) q) failed.
Proof.
  intros HI Hg Hin Hov. unfold release_block. apply wpi_bind. eapply wpi_mono; [by apply (wpi_decoded_forget H ov)| |done].
  intros _ c1 [HI1 Hs]. eapply ghost_same in Hg; [|exact Hs]. destruct Hg as [<- <-]. apply wpi_zoom.
  eapply wpi_mono; [apply (release_contract (geo := geo)); [apply (inv_dev _ _ _ HI1)|apply HI1|done]| |].
  2: { intros e [d a] Hr. unfold failed. cbn. eapply kept_reads; [apply (inv_dev _ _ _ HI1)|done]. }
  intros _ [d a] (Hr & Ha & Ho & Hc & Hq). cbn [fst snd] in *. split; [|by split; cbn].
  apply inv_tx_step; [done|done|done|by rewrite Hc; apply HI1|]. intros l Hl. rewrite Ho. apply elem_of_difference.
  split; [by apply (inv_owned _ _ _ HI1)|]. intros ->%elem_of_singleton. rewrite Hov in Hl. by destruct Hl.
Qed.

(** ** Spilling *)

Lemma drop_resident lba n (c : ctx) : set_mc_resident n (decoded_drop lba c) = decoded_drop lba (set_mc_resident n c).
Proof. unfold decoded_drop. cbn. by destruct (mc_decoded c !! lba). Qed.

Lemma staged_owned H ov c lba : Inv H ov c -> is_Some (mc_writes c !! lba) ->
  lba ∈ owned (mc_tx c) /\ ~ P lba /\ u64 lba.
Proof.
  intros HI Hw. assert (lba ∈ owned (mc_tx c)) as Ho by (apply (inv_owned _ _ _ HI); by apply (inv_dom _ _ _ HI)).
  destruct (owned_free (geo := geo) _ _ _ (inv_tx _ _ _ HI) Ho) as (HP & Hu & _). rewrite (inv_committed _ _ _ HI) in HP. done.
Qed.

(** An image moved from memory to its block. *)
Lemma inv_spill H ov c d lba i block :
  Inv H ov c -> mc_writes c !! lba = Some i -> si_resident i = ResidentBytes block ->
  agree_off ok content (fun a => a = lba) (mc_dev c) d -> inside (mc_dev c) lba -> content d lba = block ->
  Inv H ov (set_mc_resident (mc_resident c - 1) (set_mc_dev d (set_resident lba Spilled c))).
Proof.
  intros HI Hw Hr Ha Hin Hc. destruct (staged_owned _ _ _ lba HI) as (Ho & HnP & Hu); [by rewrite Hw|].
  destruct (proj1 (inv_dom _ _ _ HI lba)) as [node Hov]; [by rewrite Hw|].
  pose proof (inv_image _ _ _ HI _ _ _ Hov Hw) as Him. rewrite Hr in Him. destruct Him as [Hdec _].
  unfold set_resident. rewrite Hw. destruct HI. split; cbn; try done.
  - eapply agree_trans; [exact inv_dev0|]. eapply agree_mono; [exact Ha|]. cbn. by intros a ->.
  - eapply (tx_ok_frame (geo := geo)); [done|]. eapply agree_mono; [exact Ha|]. cbn. by intros a ->.
  - intros l. destruct (decide (l = lba)) as [->|]; [rewrite lookup_insert_eq, Hov; by split|by rewrite lookup_insert_ne].
  - intros l n image Hn. destruct Ha as (_ & [_ Ht] & Hv). destruct (decide (l = lba)) as [->|Hne].
    + rewrite lookup_insert_eq. intros [= <-]. cbn. rewrite Hov in Hn. injection Hn as <-. rewrite Hc. split; [|done].
      unfold inside in *. by rewrite Ht.
    + rewrite lookup_insert_ne by done. intros Hl. specialize (inv_image0 _ _ _ Hn Hl). unfold image_holds in *. cbn.
      destruct (si_resident image); try done. destruct inv_image0 as [Hi Hd]. rewrite (Hv l Hi Hne). split; [|done].
      unfold inside in *. by rewrite Ht.
  - rewrite in_ram_insert, Hw. unfold ram_of. rewrite Hr. cbn. lia.
Qed.

Lemma wpi_spill_oldest H ov c :
  Inv H ov c ->
  wpi (spill_oldest geo new_generation) c
    (fun _ c' => Inv H ov c' /\ mc_tx c' = mc_tx c /\ mc_resident c' = mc_resident c - 1 /\ 1 <= mc_resident c) failed.
Proof.
  intros HI. unfold wpi, spill_oldest. destruct (pop_first (mc_lru c)) as [[[t lba] lru]|]; [|exact (inv_dev _ _ _ HI)].
  set (c1 := set_mc_lru lru c). assert (Inv H ov c1) as HI1 by (by destruct HI).
  match goal with |- match ?m c1 with (_, _) => _ end => change (wpi m c1
    (fun _ c' => Inv H ov c' /\ mc_tx c' = mc_tx c /\ mc_resident c' = mc_resident c - 1 /\ 1 <= mc_resident c) failed) end.
  apply wpi_bind. eapply wpi_mono; [by apply (wpi_materialize H ov)| |done]. cbn beta.
  intros _ c2 (HI2 & Hnd & Hdev & Htx & Hdec & Hlru & _ & Hother & Hself).
  assert (mc_resident c2 = mc_resident c) as Hres.
  { rewrite (inv_resident _ _ _ HI2), (inv_resident _ _ _ HI).
    assert (in_ram (delete lba (mc_writes c2)) = in_ram (delete lba (mc_writes c))) as Hd.
    { f_equal. apply map_eq. intros l. destruct (decide (l = lba)) as [->|]; [by rewrite !lookup_delete_eq|].
      rewrite !lookup_delete_ne by done. by apply Hother. }
    rewrite !in_ram_delete in Hd. enough (ram_of (mc_writes c2 !! lba) = ram_of (mc_writes c !! lba)) by lia.
    destruct (mc_writes c2 !! lba) as [i|] eqn:Hi.
    - destruct (Hself i eq_refl) as (j & Hj & _ & Hm). change (mc_writes c !! lba = Some j) in Hj. rewrite Hj. cbn. by rewrite Hm.
    - destruct (mc_writes c !! lba) as [j|] eqn:Hj; [|done].
      assert (is_Some (mc_writes c2 !! lba)) as [? ?]; [|congruence].
      apply (inv_dom _ _ _ HI2), (inv_dom _ _ _ HI). by rewrite Hj. }
  apply wpi_bind, wpi_ret, wpi_bind. unfold wpi at 1, imodify.
  pose proof (inv_dev _ _ _ HI2) as Hk2.
  destruct (mc_writes c2 !! lba) as [i|] eqn:Hw; cbn [option_map].
  2: { unfold wpi, ierr, failed, set_resident. by rewrite Hw. }
  assert (mc_dev (set_resident lba Spilled c2) = mc_dev c2 /\ mc_tx (set_resident lba Spilled c2) = mc_tx c2 /\
          mc_resident (set_resident lba Spilled c2) = mc_resident c2) as (Hsd & Hst & Hsr) by (unfold set_resident; by rewrite Hw).
  destruct (si_resident i) as [block| |] eqn:Hr.
  2, 3: unfold wpi, ierr, failed; by rewrite Hsd.
  destruct (staged_owned _ _ _ lba HI2) as (Ho & HnP & Hu); [by rewrite Hw|].
  apply wpi_bind, wpi_of_block, wpi_zoom. rewrite Hsd.
  eapply wpi_mono; [apply (write_contract (decodes := core_decodes)); [apply Hk2|done]| |].
  2: { intros e d Ha. unfold failed. cbn. eapply agree_trans; [exact Hk2|]. eapply agree_mono; [exact Ha|]. cbn. by intros a ->. }
  intros _ d (Hin & _ & Hc & Ha).
  pose proof (inv_spill _ _ _ _ _ _ _ HI2 Hw Hr Ha Hin Hc) as HI3.
  assert (1 <= mc_resident c2) as Hpos.
  { rewrite (inv_resident _ _ _ HI2). eapply in_ram_pos; [exact Hw|by rewrite Hr]. }
  set (c3 := set_mc_dev d (set_resident lba Spilled c2)) in *.
  assert (mc_resident (decoded_drop lba c3) = mc_resident c2) as Hr3.
  { unfold decoded_drop. by destruct (mc_decoded c3 !! lba). }
  unfold wpi, ibind, imodify, iget, ilift. rewrite Hr3. unfold sub_w. replace (1 <=? mc_resident c2) with true by lia. cbn [obind].
  unfold tally, imodify. rewrite drop_resident. split.
  - apply inv_stats, (inv_unhole _ _ _ lba); [by apply inv_decoded_drop|]. intros j Hj Hjr.
    rewrite (proj1 (drop_frame _ _)) in Hj. unfold c3 in Hj. cbn in Hj. unfold set_resident in Hj. rewrite Hw in Hj. cbn in Hj.
    rewrite lookup_insert_eq in Hj. by injection Hj as <-.
  - cbn. rewrite (proj2 (proj2 (drop_frame _ _))). unfold c3. cbn. split; [by rewrite Hst, Htx|]. split; [|lia].
    unfold decoded_drop. destruct (mc_decoded _ !! lba); cbn; lia.
Qed.

Lemma wpi_spill_excess H ov fuel : forall c,
  Inv H ov c -> mc_resident c <= Z.of_nat fuel -> 0 <= cache_pages ->
  wpi (spill_excess geo new_generation cache_pages fuel) c (fun _ c' => Inv H ov c' /\ mc_tx c' = mc_tx c) failed.
Proof.
  induction fuel as [|fuel IH]; intros c HI Hf Hc; cbn [spill_excess]; apply wpi_bind, wpi_ret; (apply wpi_if; intros Hle; [by apply wpi_ret|]).
  - lia.
  - apply wpi_bind. eapply wpi_mono; [by apply wpi_spill_oldest| |done]. intros _ c1 (HI1 & Ht1 & Hr1 & _).
    eapply wpi_mono; [apply IH; [done|lia|done]| |done]. intros _ c2 [? ?]. split; [done|congruence].
Qed.

Hypothesis pages_nonneg : 0 <= cache_pages.

Lemma wpi_enforce_cache_limit H ov c :
  Inv H ov c -> wpi (enforce_cache_limit geo new_generation cache_pages) c (fun _ c' => Inv H ov c' /\ mc_tx c' = mc_tx c) failed.
Proof.
  intros HI. unfold enforce_cache_limit. apply wpi_bind, wpi_ret, wpi_bind. unfold wpi at 1, imodify.
  apply wpi_bind. eapply wpi_mono; [apply (wpi_spill_excess H ov); [by apply inv_stats| |done]| |done].
  - cbn. rewrite (inv_resident _ _ _ HI). pose proof (in_ram_nonneg (mc_writes c)). lia.
  - intros _ c1 [HI1 Ht]. apply wpi_bind, wpi_get, wpi_modify. split; [by apply inv_stats|done].
Qed.

(** ** Changing the set of staged blocks *)

Lemma overlay_ne ov lba l : l <> lba -> forall node, overlay (<[lba := node]> ov) l = overlay ov l /\ overlay (delete lba ov) l = overlay ov l.
Proof. intros Hl node. unfold overlay. by rewrite lookup_insert_ne, lookup_delete_ne. Qed.

Lemma inv_remove H ov c lba lru n :
  Inv H ov c -> mc_decoded c !! lba = None -> n = in_ram (delete lba (mc_writes c)) ->
  Inv H (delete lba ov) (set_mc_resident n (set_mc_lru lru (set_mc_writes (delete lba (mc_writes c)) c))).
Proof.
  intros HI Hd Hn. destruct HI. split; cbn; try done.
  - intros l. destruct (decide (l = lba)) as [->|]; [by rewrite !lookup_delete_eq|by rewrite !lookup_delete_ne].
  - intros l Hl. apply inv_owned0. destruct (decide (l = lba)) as [->|]; [by rewrite lookup_delete_eq in Hl; destruct Hl|].
    by rewrite lookup_delete_ne in Hl.
  - intros l nd i. rewrite !lookup_delete_Some. intros [_ ?] [_ ?]. by eapply inv_image0.
  - intros l e He. assert (l <> lba) as Hne by congruence. destruct (inv_decoded0 _ _ He) as [Ho Hp]. split.
    + by rewrite (proj2 (overlay_ne ov lba l Hne (dn_node e))).
    + by rewrite lookup_delete_ne.
  - intros l nd. rewrite lookup_delete_Some. intros [_ ?]. by eapply inv_valid0.
Qed.

Lemma dropped lba (c : ctx) : mc_decoded (decoded_drop lba c) !! lba = None.
Proof. unfold decoded_drop. destruct (mc_decoded c !! lba) eqn:He; [apply lookup_delete_eq|done]. Qed.

Lemma drop_inv_resident H ov c lba : Inv H ov c -> mc_resident (decoded_drop lba c) = in_ram (mc_writes c).
Proof. intros HI. rewrite <- (inv_resident _ _ _ HI). unfold decoded_drop. by destruct (mc_decoded c !! lba). Qed.

Lemma wpi_remove_staged H ov c lba :
  Inv ({[lba]} ∪ H) ov c ->
  wpi (remove_staged lba) c
    (fun r c' => Inv H (delete lba ov) c' /\ mc_tx c' = mc_tx c /\ (r = None -> ov !! lba = None)) failed.
Proof.
  intros HI. unfold remove_staged. apply wpi_bind, wpi_modify, wpi_bind, wpi_get.
  set (c1 := decoded_drop lba c). destruct (drop_frame lba c) as [Hw [_ Ht]]. fold c1 in Hw, Ht.
  assert (Inv ({[lba]} ∪ H) ov c1) as HI1.
  { eapply inv_holes; [by apply inv_decoded_drop|]. intros l Hl _. by rewrite (assoc_L (∪)), (idemp_L (∪)) in Hl. }
  assert (Inv H (delete lba ov) (set_mc_resident (in_ram (delete lba (mc_writes c1)))
    (set_mc_lru (mc_lru c1) (set_mc_writes (delete lba (mc_writes c1)) c1)))) as HI2.
  { apply (inv_unstaged _ _ _ lba); [|apply lookup_delete_eq]. apply inv_remove; [done|apply dropped|done]. }
  pose proof (drop_inv_resident _ _ _ lba HI) as Hres. fold c1 in Hres. rewrite Hw.
  destruct (mc_writes c !! lba) as [i|] eqn:Hi.
  2: { apply wpi_ret. assert (ov !! lba = None) as Hov.
       { destruct (ov !! lba) eqn:Ho; [|done]. assert (is_Some (mc_writes c !! lba)) as [? ?]; [|congruence].
         apply (inv_dom _ _ _ HI). by rewrite Ho. }
       split; [|done]. rewrite delete_id by done. by apply (inv_unstaged _ _ _ lba). }
  apply wpi_bind, wpi_modify, wpi_if; intros Hm.
  - apply wpi_bind, wpi_modify, wpi_bind, wpi_get. cbn. apply wpi_bind, wpi_lift.
    assert (1 <= mc_resident c1). { rewrite Hres. by eapply in_ram_pos. }
    apply wp_sub_w; [lia|]. apply wpi_bind, wpi_modify, wpi_ret. split; [|split; [done|done]].
    destruct HI2. split; cbn; try done. rewrite in_ram_delete, Hw, Hi. unfold ram_of. rewrite Hm. lia.
  - apply wpi_ret. split; [|split; [done|done]].
    destruct HI2. split; cbn; try done. rewrite in_ram_delete, Hw, Hi. unfold ram_of. rewrite Hm. lia.
Qed.

(** A node staged at a block of the transaction. *)
Lemma inv_stage H ov c lba node r t clock lru n :
  Inv H ov c -> mc_decoded c !! lba = None -> lba ∈ owned (mc_tx c) -> valid_node node new_generation ->
  (forall c', image_holds c' True lba node r) -> n = in_ram (<[lba := {| si_resident := r; si_last_used := t |}]> (mc_writes c)) ->
  Inv ({[lba]} ∪ H) (<[lba := node]> ov)
    (set_mc_lru lru (set_mc_resident n
      (set_mc_writes (<[lba := {| si_resident := r; si_last_used := t |}]> (mc_writes c)) (set_mc_clock clock c)))).
Proof.
  intros HI Hd Ho Hv Hr Hn. destruct HI. split; cbn; try done.
  - intros l. destruct (decide (l = lba)) as [->|]; [by rewrite !lookup_insert_eq|by rewrite !lookup_insert_ne].
  - intros l Hl. destruct (decide (l = lba)) as [->|]; [done|]. rewrite lookup_insert_ne in Hl by done. by apply inv_owned0.
  - intros l nd i. destruct (decide (l = lba)) as [->|].
    + rewrite !lookup_insert_eq. intros [= <-] [= <-]. specialize (Hr c). unfold image_holds in *. cbn.
      destruct r; [done| |].
      * split; [by destruct Hr|]. left. by apply elem_of_union_l, elem_of_singleton.
      * done.
    + rewrite !lookup_insert_ne by done. intros Hnd Hi. specialize (inv_image0 _ _ _ Hnd Hi). unfold image_holds in *. cbn.
      destruct (si_resident i); try done. destruct inv_image0 as [? [?|?]]; split; try done; [left; by apply elem_of_union_r|by right].
  - intros l e He. assert (l <> lba) as Hne by congruence. destruct (inv_decoded0 _ _ He) as [Hov Hp]. split.
    + by rewrite (proj1 (overlay_ne ov lba l Hne node)).
    + by rewrite lookup_insert_ne.
  - intros l nd. destruct (decide (l = lba)) as [->|]; [rewrite lookup_insert_eq; by intros [= <-]|].
    rewrite lookup_insert_ne by done. apply inv_valid0.
Qed.

Lemma wpi_stage_image H ov c lba node r :
  Inv ({[lba]} ∪ H) ov c -> mc_decoded c !! lba = None -> lba ∈ owned (mc_tx c) -> valid_node node new_generation ->
  in_memory r = true -> (forall c', image_holds c' True lba node r) ->
  wpi (stage_image lba r) c (fun _ c' => Inv ({[lba]} ∪ H) (<[lba := node]> ov) c' /\ mc_tx c' = mc_tx c) failed.
Proof.
  intros HI Hd Ho Hv Hmem Hr. unfold wpi, stage_image, ibind, next_access, iget, imodify, iret. cbn [mc_writes set_mc_clock].
  set (t := Z.min (mc_clock c + 1) (2 ^ 64 - 1)). set (image := {| si_resident := r; si_last_used := t |}).
  assert (forall n lru, n = in_ram (<[lba := image]> (mc_writes c)) ->
    Inv ({[lba]} ∪ H) (<[lba := node]> ov) (set_mc_lru lru (set_mc_resident n
      (set_mc_writes (<[lba := image]> (mc_writes c)) (set_mc_clock t c))))) as Hst.
  { intros n lru Hn. eapply inv_holes; [by apply (inv_stage ({[lba]} ∪ H))|].
    intros l Hl _. by rewrite (assoc_L (∪)), (idemp_L (∪)) in Hl. }
  pose proof (inv_resident _ _ _ HI) as Hn. pose proof (in_ram_insert lba image (mc_writes c)) as Hin.
  unfold ram_of in Hin. cbn [si_resident image] in Hin. rewrite Hmem in Hin.
  destruct (mc_writes c !! lba) as [i|] eqn:Hi; [destruct (in_memory (si_resident i)) eqn:Him|]; cbn [negb]; (split; [|done]).
  - apply (Hst (mc_resident c)). lia.
  - apply (Hst (mc_resident c + 1)). lia.
  - apply (Hst (mc_resident c + 1)). lia.
Qed.

Lemma wpi_stage_node H ov c lba node :
  Inv ({[lba]} ∪ H) ov c -> lba ∈ owned (mc_tx c) -> valid_node node new_generation ->
  wpi (stage_node geo new_generation cache_pages decoded_limit lba node) c
    (fun _ c' => Inv H (<[lba := node]> ov) c' /\ mc_tx c' = mc_tx c) failed.
Proof.
  intros HI Ho Hv. unfold stage_node. apply wpi_bind, wpi_modify. set (c1 := decoded_drop lba c).
  destruct (drop_frame lba c) as [Hw [Hd Ht]]. fold c1 in Hw, Ht, Hd.
  assert (Inv ({[lba]} ∪ H) ov c1) as HI1.
  { eapply inv_holes; [by apply inv_decoded_drop|]. intros l Hl _. by rewrite (assoc_L (∪)), (idemp_L (∪)) in Hl. }
  apply wpi_bind, wpi_lift.
  assert (0 <= block_size geo < 2 ^ 32) by (rewrite wf_block_size; lia).
  assert (wp (if decoded_limit =? 0
    then let* block := of_format (TreeNode_encode node (block_size geo) new_generation) in Ok (ResidentBytes block)
    else Ok Deferred) (fun r => in_memory r = true /\ forall c', image_holds c' True lba node r) (fun _ => True)) as Hres.
  { destruct (decoded_limit =? 0) eqn:Hz.
    - pose proof (encode_total (encode := TreeNode_encode) node (block_size geo) new_generation (proj1 Hv) ltac:(done)).
      destruct (TreeNode_encode node (block_size geo) new_generation) as [b| |] eqn:He; [|done|done].
      cbn. split; [done|]. intros _. by apply encode_image.
    - apply wp_ok. split; [done|]. intros c'. cbn. split; [lia|by left]. }
  eapply wp_mono; [exact Hres| |intros e _; exact (inv_dev _ _ _ HI1)].
  intros r [Hmem Hr]. apply wpi_bind.
  eapply wpi_mono; [apply (wpi_stage_image H ov c1 lba node r); [done|apply dropped|by rewrite Ht|done..]| |done].
  intros _ c4 [HI4 Ht4]. apply wpi_bind.
  eapply wpi_mono; [apply (wpi_cache_decoded H (<[lba := node]> ov)); [done|]| |done].
  - split; [unfold overlay; by rewrite lookup_insert_eq|]. by rewrite lookup_insert_eq.
  - intros _ c5 [HI5 [_ Ht5]]. eapply wpi_mono; [by apply (wpi_enforce_cache_limit H)| |done].
    intros _ c6 [HI6 Ht6]. split; [done|congruence].
Qed.

(** ** Reading *)

Lemma inv_touch H ov c lba i t lru n :
  Inv H ov c -> mc_writes c !! lba = Some i -> n = mc_resident c ->
  Inv H ov (set_mc_lru lru (set_mc_resident n
    (set_mc_writes (<[lba := {| si_resident := si_resident i; si_last_used := t |}]> (mc_writes c)) c))).
Proof.
  intros HI Hi ->. destruct HI. split; cbn; try done.
  - intros l. destruct (decide (l = lba)) as [->|]; [|by rewrite lookup_insert_ne].
    rewrite lookup_insert_eq, <- inv_dom0, Hi. by split.
  - intros l n image Hn. destruct (decide (l = lba)) as [->|]; [|rewrite lookup_insert_ne by done; by apply inv_image0].
    rewrite lookup_insert_eq. intros [= <-]. exact (inv_image0 _ _ _ Hn Hi).
  - rewrite in_ram_insert, Hi. unfold ram_of. cbn. lia.
Qed.

(** The image read back into memory. *)
Lemma inv_reload H ov c lba i node block :
  Inv H ov c -> mc_writes c !! lba = Some i -> in_memory (si_resident i) = false -> ov !! lba = Some node ->
  TreeNode_decode block = Ok (node, new_generation) -> zlen block = block_size geo ->
  Inv H ov (set_mc_resident (mc_resident c + 1) (set_resident lba (ResidentBytes block) c)).
Proof.
  intros HI Hi Hm Hov Hdec Hlen. unfold set_resident. rewrite Hi. destruct HI. split; cbn; try done.
  - intros l. destruct (decide (l = lba)) as [->|]; [rewrite lookup_insert_eq, Hov; by split|by rewrite lookup_insert_ne].
  - intros l n image Hn. destruct (decide (l = lba)) as [->|]; [|rewrite lookup_insert_ne by done; by apply inv_image0].
    rewrite lookup_insert_eq. intros [= <-]. rewrite Hov in Hn. by injection Hn as <-.
  - rewrite in_ram_insert, Hi. unfold ram_of. rewrite Hm. cbn. lia.
Qed.

Lemma wpi_read_staged H ov c lba node :
  Inv H ov c -> ov !! lba = Some node ->
  wpi (read_staged geo new_generation cache_pages lba) c
    (fun block c' => Inv H ov c' /\ mc_tx c' = mc_tx c /\ TreeNode_decode block = Ok (node, new_generation)) failed.
Proof.
  intros HI Hov. unfold read_staged. apply wpi_bind. unfold next_access, wpi at 1.
  set (t := Z.min (mc_clock c + 1) (2 ^ 64 - 1)). set (c1 := set_mc_clock t c). assert (Inv H ov c1) as HI1 by (by destruct HI).
  apply wpi_bind. eapply wpi_mono; [by apply (wpi_materialize H ov)| |done]. cbn beta.
  intros _ c2 (HI2 & Hnd & Hdev & Htx & _). apply wpi_bind, wpi_get.
  destruct (proj2 (inv_dom _ _ _ HI2 lba)) as [i Hi]; [by rewrite Hov|]. rewrite Hi. cbn [ok_or].
  apply wpi_bind, wpi_lift, wp_ok. pose proof (inv_image _ _ _ HI2 _ _ _ Hov Hi) as Him.
  destruct (staged_owned _ _ _ lba HI2) as (_ & _ & Hu); [by rewrite Hi|].
  apply wpi_bind. apply (wpi_mono _ _ (fun _ c3 => exists lru, c3 = set_mc_lru lru c2) _ failed); [|intros _ c3 [lru ->]|done].
  { apply wpi_if; intros _; [apply wpi_modify; by eexists|apply wpi_ret; exists (mc_lru c2); by destruct c2]. }
  apply wpi_bind, wpi_modify. cbn [mc_writes set_mc_lru].
  pose proof (fun lru => inv_touch _ _ _ _ _ t lru _ HI2 Hi eq_refl) as HI3.
  destruct (si_resident i) as [block| |] eqn:Hr.
  - apply wpi_bind, wpi_modify, wpi_ret. split; [apply (HI3 ({[(t, lba)]} ∪ lru))|]. split; [done|]. apply Him.
  - by destruct (Hnd i).
  - set (c4 := set_mc_writes _ _). assert (Inv H ov c4) as HI4 by apply (HI3 lru).
    destruct Him as [Hin Hdec]. pose proof (inv_dev _ _ _ HI2) as Hk. apply wpi_bind, wpi_of_block, wpi_zoom.
    eapply wpi_mono; [apply (read_contract (decodes := core_decodes)); [apply Hk|done]| |].
    2: { intros e d Ha. unfold failed. cbn. by eapply kept_reads. }
    intros block d (_ & Hlen & -> & Ha).
    assert (Inv H ov (set_mc_dev d c4)) as HI5.
    { apply inv_tx_step; [done|done| | |].
      - eapply (tx_ok_frame (geo := geo)); [apply HI4|]. eapply agree_mono; [exact Ha|done].
      - apply HI4.
      - apply HI4. }
    apply wpi_bind, wpi_modify, wpi_bind, wpi_modify, wpi_bind, wpi_modify, wpi_bind, wpi_modify, wpi_bind, wpi_modify.
    set (c5 := on_stats (stat_add staged_spill_reloads) (on_stats (stat_add device_reads) (set_mc_dev d c4))).
    assert (Inv H ov c5) as HI5' by (by apply inv_stats, inv_stats).
    assert (mc_writes c5 !! lba = Some {| si_resident := Spilled; si_last_used := t |}) as Hw5 by apply lookup_insert_eq.
    assert (Inv H ov (set_mc_resident (mc_resident c5 + 1) (set_resident lba (ResidentBytes (content (mc_dev c2) lba)) c5))) as HI6.
    { eapply inv_reload; [done|exact Hw5|done|done|done|]. rewrite Hlen. apply ok_view; [apply Hk|done]. }
    apply wpi_bind. eapply wpi_mono; [apply (wpi_enforce_cache_limit H ov)| |done].
    { set (X := set_resident lba (ResidentBytes (content (mc_dev c2) lba)) c5) in *.
      change (Inv H ov (set_mc_lru ({[(t, lba)]} ∪ mc_lru (set_mc_resident (mc_resident X + 1) X))
        (set_mc_resident (mc_resident X + 1) X))).
      replace (mc_resident X) with (mc_resident c5) by (unfold X, set_resident; by rewrite Hw5). destruct HI6. by split. }
    intros _ c7 [HI7 Ht7]. apply wpi_ret. split; [done|]. split; [|done]. rewrite Ht7.
    change (mc_tx (set_resident lba (ResidentBytes (content (mc_dev c2) lba)) c5) = mc_tx c).
    unfold set_resident. rewrite Hw5. exact Htx.
Qed.

Lemma children_unique_total node g : valid_node node g -> is_leaf node = false -> check_children_unique node <> Panic.
Proof.
  intros Hv Hb. destruct (node_valid _ _ Hv) as (_ & _ & Hn). rewrite Hb in Hn. destruct Hn as (_ & _ & _ & _ & Hsum).
  unfold check_children_unique. revert Hsum. generalize (tn_leftmost_items node) [tn_leftmost_child node].
  induction (tn_items node) as [|item items IH]; intros n blocks; cbn [ofold obind]; [by case_bool_decide|].
  unfold add_child_items at 1. destruct (child_ref item) as [r| |]; cbn [obind of_format]; [|done|done].
  destruct (checked_add 64 n (cr_subtree_items r)) as [m|]; cbn [ok_or obind]; [|done]. apply IH.
Qed.

Lemma validate_read_total node g staged level : validate_read spec new_generation node g staged level <> Panic.
Proof. unfold validate_read, validate_node_identity. repeat case_match; try done; by simplify_eq. Qed.

Lemma wpi_checks (o1 o2 o3 : outcome CoreError unit) {X} (x : X) c (Q : X -> ctx -> Prop) (R : CoreError -> ctx -> Prop) :
  o1 <> Panic -> o2 <> Panic -> o3 <> Panic -> (o1 = Ok tt -> o2 = Ok tt -> Q x c) -> (forall e, R e c) ->
  wpi (do! ilift o1 in do! ilift o2 in do! ilift o3 in iret x) c Q R.
Proof.
  intros H1 H2 H3 HQ HR. apply wpi_guard; [done| |auto]. intros E1. apply wpi_guard; [done| |auto]. intros E2.
  apply wpi_guard; [done| |auto]. intros _. apply wpi_ret. by apply HQ.
Qed.

Lemma wpi_read_node H ov c lba level lower upper is_root depth :
  Inv H ov c -> u64 lba -> is_Some (ov !! lba) \/ P lba ->
  wpi (read_node geo spec new_generation cache_pages lba level lower upper is_root depth) c
    (fun r c' => let '(node, staged, g) := r in
       Inv ({[lba]} ∪ H) ov c' /\ mc_tx c' = mc_tx c /\ at_block ov lba node g /\
       staged = bool_decide (is_Some (ov !! lba)) /\ validate_read spec new_generation node g staged level = Ok tt /\
       validate_node_range node lower upper is_root = Ok tt) failed.
Proof.
  intros HI Hu Hk. unfold read_node. pose proof (inv_dev _ _ _ HI) as Hdev.
  apply wpi_if; intros _; [exact Hdev|]. apply wpi_bind, wpi_lift, wp_check_tree_lba; [done|done|intros _|intros; exact Hdev].
  apply wpi_bind, wpi_get. replace (bool_decide (is_Some (mc_writes c !! lba))) with (bool_decide (is_Some (ov !! lba)))
    by (apply bool_decide_ext; symmetry; apply HI).
  set (staged := bool_decide (is_Some (ov !! lba))).
  assert (ov !! lba = None -> P lba) as HP. { intros Hn. destruct Hk as [Hs|?]; [|done]. rewrite Hn in Hs. by destruct Hs. }
  apply wpi_bind. unfold take_decoded, wpi at 1. destruct (mc_decoded c !! lba) as [e|] eqn:He.
  - pose proof (inv_decoded_drop _ _ _ lba HI) as HI1. set (c1 := decoded_drop lba c) in *.
    apply wpi_bind, wpi_modify, wpi_bind, wpi_modify. destruct (inv_decoded _ _ _ HI _ _ He) as [Ho _].
    assert (Inv ({[lba]} ∪ H) ov (on_stats (stat_max max_depth (depth + 1)) (on_stats (stat_add node_reads) c1))) as HI2
      by by apply inv_stats, inv_stats.
    pose proof (inv_dev _ _ _ HI2) as Hdev2. apply wpi_guard; [apply validate_read_total| |intros; exact Hdev2]. intros Hid.
    apply wpi_guard; [apply validate_range_total| |intros; exact Hdev2]. intros Hra. apply wpi_ret.
    split; [done|]. split; [apply drop_frame|]. by split.
  - apply wpi_bind.
    apply (wpi_mono _ _ (fun block c' => Inv ({[lba]} ∪ H) ov c' /\ mc_tx c' = mc_tx c /\ TreeNode_decode block = overlay ov lba) _ failed); [| |done].
    { assert (forall c', Inv H ov c' -> Inv ({[lba]} ∪ H) ov c') as Hweak.
      { intros c' HI'. eapply inv_holes; [exact HI'|]. intros. by apply elem_of_union_r. }
      unfold staged, overlay. destruct (ov !! lba) as [node|] eqn:Hov.
      - rewrite bool_decide_eq_true_2 by done. eapply wpi_mono; [by apply (wpi_read_staged H ov c lba node)| |done].
        intros block c' (? & ? & ?). split; [by apply Hweak|]. done.
      - rewrite bool_decide_eq_false_2 by (by intros []). apply wpi_bind, wpi_of_block, wpi_zoom.
        eapply wpi_mono; [apply (read_contract (decodes := core_decodes)); [apply Hdev|done]| |].
        2: { intros e d Ha. unfold failed. cbn. by eapply kept_reads. }
        intros block d (Hin & Hlen & -> & Ha). apply wpi_bind, wpi_modify, wpi_ret. split; [|split; [done|]].
        + apply Hweak, inv_stats, inv_tx_step; [done|done| |apply HI|apply HI].
          eapply (tx_ok_frame (geo := geo)); [apply HI|]. eapply agree_mono; [exact Ha|done].
        + unfold decoded. f_equal. destruct Hdev as (_ & [_ Ht] & Hv). apply Hv; [|intros Hn; by apply Hn, HP].
          unfold inside in *. by rewrite <- Ht. }
    cbn beta. intros block c1 (HI1 & Ht1 & Hdec). apply wpi_bind, wpi_modify, wpi_bind, wpi_modify.
    assert (Inv ({[lba]} ∪ H) ov (on_stats (stat_max max_depth (depth + 1)) (on_stats (stat_add node_reads) c1))) as HI2
      by by apply inv_stats, inv_stats.
    pose proof (inv_dev _ _ _ HI2) as Hdev2. apply wpi_bind, wpi_lift.
    pose proof (TreeNode_decode_inv block) as Hnp. destruct (TreeNode_decode block) as [[node g]|e|] eqn:Hd; [|exact Hdev2|done].
    apply wp_ok. clear Hnp. pose proof (decode_valid _ _ _ Hd) as Hv.
    apply wpi_checks; [apply validate_read_total|apply validate_range_total| | |intros; exact Hdev2].
    + destruct (is_leaf node) eqn:Hleaf; [done|by eapply children_unique_total].
    + intros Hid Hra. split; [done|]. split; [done|]. split; [by split|]. done.
Qed.
End Store.
