(* ===== verification/CowNodes.v ===== *)
(** * Nodes of a changing tree (crates/afsplus-core/src/cow_tree.rs)

    Child descriptors and the subtrees they stand for: taking a node apart,
    building it, splitting it and joining two of them keep the list of items
    and the bounds. *)

From Stdlib Require Import Sorted.
From S2P Require Import Prelude Crc32c Format Header Codec TreeNode Geometry Checkpoint Object Device Core Tree TreeSpec TreeReaders CowTree.

(** ** Valid nodes *)

Definition item_ok (item : TreeItem) : Prop :=
  1 <= zlen (ti_key item) <= MAX_TREE_KEY_BYTES /\ 1 <= zlen (ti_value item).

Lemma check_lengths_iff items : ofold check_item_lengths tt items = Ok tt <-> Forall item_ok items.
Proof.
  induction items as [|x items IH]; cbn [ofold]; [done|]. rewrite Forall_cons, <- IH. unfold check_item_lengths at 1, item_ok.
  pose proof (zlen_nonneg (ti_key x)). pose proof (zlen_nonneg (ti_value x)).
  destruct (_ || _) eqn:Hk; cbn [obind]; [split; [done|intros [[? ?] _]; unfold MAX_TREE_KEY_BYTES in *; lia]|].
  destruct (zlen (ti_value x) =? 0) eqn:Hv; cbn [obind]; [split; [done|intros [[? ?] _]; lia]|].
  split; [intros H'|by intros [_ ?]]. split; [unfold MAX_TREE_KEY_BYTES in *; lia|done].
Qed.

Lemma valid_items node g : valid_node node g -> Forall item_ok (tn_items node).
Proof.
  intros [_ Hv]. unfold TreeNode_validate in Hv. destruct (_ <? _); [done|].
  destruct (ofold check_item_lengths tt (tn_items node)) as [[]| |] eqn:He; [|done..]. by apply check_lengths_iff.
Qed.

Lemma valid_leaf kind owner g items :
  u64 owner -> u64 g -> zlen items < 2 ^ 64 -> sorted items -> Forall item_ok items ->
  valid_node {| tn_kind := kind; tn_owner := owner; tn_level := 0; tn_subtree_items := zlen items;
                tn_leftmost_child := 0; tn_leftmost_items := 0; tn_items := items |} g.
Proof.
  intros Ho Hg Hz Hs Hi. pose proof (zlen_nonneg items). split.
  - unfold TreeNode_typed, u64, u8 in *. cbn. lia.
  - unfold TreeNode_validate. cbn [tn_level tn_items]. rewrite (proj2 (check_lengths_iff items) Hi). cbn [obind].
    rewrite (proj2 (check_key_order_sorted items) Hs). cbn. by rewrite Z.eqb_refl.
Qed.

Lemma valid_at node g g' : valid_node node g -> u64 g' -> valid_node node g'.
Proof. intros [(? & ? & ? & ? & ? & _) ?] ?. split; [|done]. unfold TreeNode_typed. tauto. Qed.

Lemma valid_leaf_inv node g :
  valid_node node g -> is_leaf node = true ->
  node = {| tn_kind := tn_kind node; tn_owner := tn_owner node; tn_level := 0; tn_subtree_items := zlen (tn_items node);
            tn_leftmost_child := 0; tn_leftmost_items := 0; tn_items := tn_items node |} /\
  u64 (tn_owner node) /\ zlen (tn_items node) < 2 ^ 64.
Proof.
  intros [Ht Hv] Hl. unfold TreeNode_validate in Hv. destruct (_ <? _); [done|].
  destruct (ofold check_item_lengths tt (tn_items node)) as [[]| |]; [|done..]. cbn [obind] in Hv.
  destruct (check_key_order (tn_items node)) as [[]| |]; [|done..]. cbn [obind] in Hv. rewrite Hl in Hv.
  destruct (_ || _ || _) eqn:He; [done|]. unfold is_leaf in Hl. destruct Ht as (? & _ & [? ?] & _).
  split; [|split; [done|lia]]. destruct node; cbn in *. f_equal; lia.
Qed.

(** Children as the items of a branch. *)
Definition child_item (child : ChildDesc) (item : TreeItem) : Prop :=
  ch_min_key child = Some (ti_key item) /\ child_ref item = Ok (ch_reference child).

Definition ref_ok (r : ChildRef) : Prop := u64 (cr_lba r) /\ cr_lba r <> 0 /\ 0 < cr_subtree_items r < 2 ^ 64.

Lemma child_ref_ok item r : child_ref item = Ok r -> ref_ok r /\ zlen (ti_value item) = 16.
Proof.
  intros Hr. refine (wp_of_ok (child_ref item) r (fun r => ref_ok r /\ zlen (ti_value item) = 16) any_error _ Hr).
  apply wp_child_ref; [|done]. unfold ref_ok, u64. intros. repeat split; lia.
Qed.

Lemma wp_child_value r : wp (child_value r) (fun v => zlen v = 16) (fun _ => cr_lba r = 0 \/ cr_subtree_items r = 0).
Proof.
  unfold child_value. apply wp_if; intros Hz; [apply wp_err; lia|]. cbv zeta. unfold put_u64.
  apply wp_bind, wp_put; [lia|rewrite zlen_zeros; lia|by rewrite zlen_le8|].
  assert (zlen (blit (zeros 16) 0 (le_split 8 (cr_lba r))) = 16) as H1 by (rewrite zlen_blit; rewrite ?zlen_zeros, ?zlen_le8; lia).
  apply wp_put; [lia|lia|by rewrite zlen_le8|]. rewrite zlen_blit; rewrite ?H1, ?zlen_le8; lia.
Qed.

Lemma child_value_ok r : ref_ok r -> exists v, child_value r = Ok v /\ zlen v = 16.
Proof.
  intros (_ & Hz & Hs). pose proof (wp_child_value r) as H. destruct (child_value r) as [v|e|]; [by exists v|cbn in H; lia|done].
Qed.

Lemma child_value_total r : child_value r <> Panic.
Proof. pose proof (wp_child_value r) as H. by destruct (child_value r). Qed.

Lemma valid_branch kind owner level g subtree child n0 items :
  u64 owner -> u64 g -> 1 <= level <= MAX_TREE_LEVEL -> u64 subtree -> ref_ok {| cr_lba := child; cr_subtree_items := n0 |} ->
  items <> [] -> sorted items -> Forall item_ok items -> ofold add_child_items n0 items = Ok subtree ->
  valid_node {| tn_kind := kind; tn_owner := owner; tn_level := level; tn_subtree_items := subtree;
                tn_leftmost_child := child; tn_leftmost_items := n0; tn_items := items |} g.
Proof.
  intros Ho Hg Hlv Hs (Hc & Hc0 & Hn) Hne Hso Hi Hsum. cbn in Hc, Hc0, Hn. unfold MAX_TREE_LEVEL in *. split.
  - unfold TreeNode_typed, u64, u8 in *. cbn. lia.
  - unfold TreeNode_validate, is_leaf, MAX_TREE_LEVEL. cbn [tn_level tn_items tn_leftmost_child tn_leftmost_items tn_subtree_items].
    replace (15 <? level) with false by lia. rewrite (proj2 (check_lengths_iff items) Hi). cbn [obind].
    rewrite (proj2 (check_key_order_sorted items) Hso). cbn [obind]. replace (level =? 0) with false by lia.
    destruct (zlen items =? 0) eqn:Hz; [by apply Z.eqb_eq, zlen_zero_nil in Hz|].
    replace (_ || _) with false by lia. rewrite Hsum. cbn [obind]. by rewrite Z.eqb_refl.
Qed.

(** ** Trees under a change of the store *)

Definition upper_le (upper upper' : option bytes) : Prop :=
  match upper, upper' with
  | _, None => True
  | Some u, Some u' => bytes_leb u u' = true
  | None, Some _ => False
  end.

Lemma upper_le_refl u : upper_le u u.
Proof. destruct u; [apply bytes_leb_refl|done]. Qed.

Lemma range_weaken node lower upper is_root lower' upper' is_root' :
  validate_node_range node lower upper is_root = Ok tt -> lower' = lower \/ lower' = None -> upper_le upper upper' ->
  (is_root = true -> is_root' = true) -> validate_node_range node lower' upper' is_root' = Ok tt.
Proof.
  unfold validate_node_range. intros H Hl Hu Hr.
  assert (negb is_root' && (zlen (tn_items node) =? 0) = false) as ->.
  { destruct is_root'; [done|]. destruct is_root; [by specialize (Hr eq_refl)|]. cbn in *. by destruct (_ =? 0). }
  destruct (negb is_root && _); [done|].
  destruct (match lower with Some _ => _ | None => _ end) as [[]| |] eqn:Hlo; [|done..]. cbn [obind] in H.
  assert (match lower', hd_error (tn_items node) with
    | Some lower, Some first =>
        if bytes_ltb (ti_key first) lower then Err (Corrupt "tree node key below parent range") else
        if is_leaf node && negb (bytes_eqb (ti_key first) lower) then
          Err (Corrupt "tree separator does not equal leaf minimum") else Ok tt
    | _, _ => Ok tt
    end = Ok tt) as -> by (destruct Hl as [->| ->]; done). cbn [obind].
  destruct upper' as [u'|]; [|done]. destruct upper as [u|]; [|done]. destruct (last (tn_items node)) as [x|]; [|done].
  destruct (bytes_leb u (ti_key x)) eqn:Hx; [done|]. apply bytes_leb_false in Hx.
  cbn in Hu. rewrite (proj2 (bytes_leb_false _ _)); [done|]. by eapply bytes_ltb_leb_trans.
Qed.

(** The same range check from what it means. *)
Lemma range_intro node lower upper is_root :
  (is_root = false -> tn_items node <> []) -> within lower upper (tn_items node) ->
  (is_leaf node = true -> starts_at lower (tn_items node)) -> validate_node_range node lower upper is_root = Ok tt.
Proof.
  intros Hne Hw Hst. unfold validate_node_range, within in *.
  assert (negb is_root && (zlen (tn_items node) =? 0) = false) as ->.
  { destruct is_root; [done|]. cbn. destruct (zlen (tn_items node) =? 0) eqn:Hz; [|done].
    apply Z.eqb_eq, zlen_zero_nil in Hz. by destruct (Hne eq_refl). }
  assert (match lower, hd_error (tn_items node) with
    | Some lower, Some first =>
        if bytes_ltb (ti_key first) lower then Err (Corrupt "tree node key below parent range") else
        if is_leaf node && negb (bytes_eqb (ti_key first) lower) then
          Err (Corrupt "tree separator does not equal leaf minimum") else Ok tt
    | _, _ => Ok tt
    end = Ok tt) as ->.
  { destruct lower as [l|]; [|done]. destruct (tn_items node) as [|x items] eqn:Hi; [done|]. cbn.
    apply Forall_cons in Hw as [[Hx _] _]. cbn in Hx. rewrite (proj2 (bytes_ltb_false _ _) Hx).
    destruct (is_leaf node); [|done]. by rewrite (Hst eq_refl l x eq_refl eq_refl), (proj2 (bytes_eqb_eq _ _)). }
  cbn [obind]. destruct upper as [u|]; [|done]. destruct (last (tn_items node)) as [x|] eqn:Hx; [|done].
  rewrite Forall_forall in Hw. destruct (Hw x) as [_ Hb]; [by apply last_Some_elem_of|]. cbn in Hb.
  by rewrite (proj2 (bytes_leb_false _ _) Hb).
Qed.

Section Store.
Context (geo : Geometry) {WF : WfGeometry geo} (spec : TreeSpec).

Lemma nonzero_lba lba : 0 <= lba -> check_tree_lba geo lba = Ok tt -> lba <> 0.
Proof.
  intros H0. unfold check_tree_lba. rewrite is_allocatable_eq by done. cbn. unfold allocatable. intros H ->.
  pose proof (wf_region (g := geo)) as Hr. pose proof (wf_total (g := geo)) as Ht.
  destruct (head_bounds geo Hr Ht 0) as [Hh _]; [pose proof (regions_pos geo Hr Ht); lia|].
  rewrite Z.div_0_l, Z.mod_0_l in H by lia. destruct (0 <? total_blocks geo); [|done]. cbn in H.
  destruct (head geo 0 <=? 0) eqn:He; [|done]. lia.
Qed.

Section Frame.
Context (nd nd' : Z -> result (TreeNode * Z)).

Lemma tree_frame :
  (forall n lower upper is_root lba items nodes, tree_at geo spec nd n lower upper is_root lba items nodes ->
    (forall p, p ∈ nodes -> nd' (fst p) = nd (fst p)) -> tree_at geo spec nd' n lower upper is_root lba items nodes) /\
  (forall n node lower upper slots items nodes, children_at geo spec nd n node lower upper slots items nodes ->
    (forall p, p ∈ nodes -> nd' (fst p) = nd (fst p)) -> children_at geo spec nd' n node lower upper slots items nodes).
Proof.
  apply tree_at_mutual.
  - intros lower upper is_root lba node (g & Hd & Hid & Hr) Hl Hag. apply leaf_at; [|done]. exists g.
    pose proof (Hag (lba, node) ltac:(by left)) as He. cbn in He. by rewrite He.
  - intros n lower upper is_root lba node items nodes (g & Hd & Hid & Hr) Hl _ IH Hag. eapply branch_at; [|done|].
    + exists g. pose proof (Hag (lba, node) ltac:(by left)) as He. cbn in He. by rewrite He.
    + apply IH. intros p Hp. apply Hag. by right.
  - constructor.
  - intros n node lower upper sep next slots child items nodes items' nodes' Hc Hg _ IHt Hz _ IHc Hag.
    eapply more_children; [done|done| |done|].
    + apply IHt. intros p Hp. apply Hag, elem_of_app. by left.
    + apply IHc. intros p Hp. apply Hag, elem_of_app. by right.
Qed.
End Frame.

Context (nd : Z -> result (TreeNode * Z)).

Lemma tree_weaken :
  (forall n lower upper is_root lba items nodes, tree_at geo spec nd n lower upper is_root lba items nodes ->
    forall lower' upper' is_root', lower' = lower \/ lower' = None -> upper_le upper upper' -> (is_root = true -> is_root' = true) ->
    tree_at geo spec nd n lower' upper' is_root' lba items nodes) /\
  (forall n node lower upper slots items nodes, children_at geo spec nd n node lower upper slots items nodes ->
    forall lower' upper', lower' = lower \/ lower' = None -> upper_le upper upper' ->
    children_at geo spec nd n node lower' upper' slots items nodes).
Proof.
  apply tree_at_mutual.
  - intros lower upper is_root lba node (g & Hd & Hid & Hr) Hlv lower' upper' is_root' Hl Hu Hroot. apply leaf_at; [|done].
    exists g. split; [done|]. split; [done|]. by eapply range_weaken.
  - intros n lower upper is_root lba node items nodes (g & Hd & Hid & Hr) Hlv _ IH lower' upper' is_root' Hl Hu Hroot.
    eapply branch_at; [|done|by apply IH]. exists g. split; [done|]. split; [done|]. by eapply range_weaken.
  - constructor.
  - intros n node lower upper sep next slots child items nodes items' nodes' Hc Hg _ IHt Hz _ IHc lower' upper' Hl Hu.
    eapply more_children; [done|done| |done|by apply IHc]. apply IHt; [| |done].
    + destruct sep; [by left|done].
    + destruct next; [apply bytes_leb_refl|done].
Qed.

Context {valid : ValidNodes nd}.

Lemma tree_items_ok :
  (forall n lower upper is_root lba items nodes, tree_at geo spec nd n lower upper is_root lba items nodes -> Forall item_ok items) /\
  (forall n node lower upper slots items nodes, children_at geo spec nd n node lower upper slots items nodes -> Forall item_ok items).
Proof.
  apply tree_at_mutual.
  - intros lower upper is_root lba node (g & Hd & _) _. by eapply valid_items, nodes_valid.
  - done.
  - constructor.
  - intros. by apply Forall_app.
Qed.

(** ** Descriptors *)

(** A descriptor stands for a subtree. *)
Definition desc_tree (n : nat) (lower upper : option bytes) (d : ChildDesc) (items : list TreeItem)
    (nodes : list (Z * TreeNode)) : Prop :=
  tree_at geo spec nd n lower upper false (cr_lba (ch_reference d)) items nodes /\
  zlen items = cr_subtree_items (ch_reference d) /\ check_tree_lba geo (cr_lba (ch_reference d)) = Ok tt /\
  u64 (cr_lba (ch_reference d)).

(** Neighbouring subtrees, each bounded by the minimum of the next. *)
Inductive descs_at (n : nat) : option bytes -> option bytes -> list ChildDesc -> list TreeItem -> list (Z * TreeNode) -> Prop :=
| one_desc lower upper d items nodes : desc_tree n lower upper d items nodes -> descs_at n lower upper [d] items nodes
| more_descs lower upper d d2 ds k xs xn ys yn :
    ch_min_key d2 = Some k -> desc_tree n lower (Some k) d xs xn -> descs_at n (Some k) upper (d2 :: ds) ys yn ->
    descs_at n lower upper (d :: d2 :: ds) (xs ++ ys) (xn ++ yn).

Lemma desc_ref_ok n lower upper d items nodes : desc_tree n lower upper d items nodes -> ref_ok (ch_reference d).
Proof.
  intros (Ht & Hz & Hg & Hu). split; [done|]. split; [apply nonzero_lba; [apply Hu|done]|].
  destruct (proj1 (tree_at_facts geo spec nd) _ _ _ _ _ _ _ Ht) as (_ & _ & Hne & _). specialize (Hne eq_refl).
  destruct (tree_root _ _ _ _ _ _ _ _ _ _ Ht) as (node & Hn & _). pose proof (loaded_count _ _ _ _ _ _ _ _ _ _ _ _ Ht Hn) as Hc.
  destruct Hn as (g & Hd & _). destruct (nodes_valid _ _ _ Hd) as [(_ & _ & [_ Hu64] & _) _].
  destruct items as [|x items]; [done|]. rewrite zlen_cons in *. pose proof (zlen_nonneg items). lia.
Qed.

Lemma descs_facts n lower upper ds items nodes :
  descs_at n lower upper ds items nodes ->
  Forall (fun d => ref_ok (ch_reference d)) ds /\ sorted items /\ within lower upper items /\ items <> [] /\
  starts_at lower items /\ Forall item_ok items /\ zlen items = foldr (fun d s => cr_subtree_items (ch_reference d) + s) 0 ds.
Proof.
  induction 1 as [lower upper d items nodes H|lower upper d d2 ds k xs xn ys yn Hk H Hrest IH].
  - pose proof (desc_ref_ok _ _ _ _ _ _ H) as Hr. destruct H as (Ht & Hz & _).
    destruct (proj1 (tree_at_facts geo spec nd) _ _ _ _ _ _ _ Ht) as (? & ? & Hne & ? & _).
    split; [by constructor|]. split; [done|]. split; [done|]. split; [by apply Hne|]. split; [done|].
    split; [by apply (proj1 tree_items_ok) in Ht|]. cbn. lia.
  - pose proof (desc_ref_ok _ _ _ _ _ _ H) as Hr. destruct H as (Ht & Hz & _).
    destruct (proj1 (tree_at_facts geo spec nd) _ _ _ _ _ _ _ Ht) as (Hs & Hw & Hne & Hst & _).
    destruct IH as (HF & Hs' & Hw' & Hne' & Hst' & Hok & Hsum). specialize (Hne eq_refl).
    assert (bytes_leb k k = true) by apply bytes_leb_refl.
    assert (above lower k) as Hal.
    { destruct xs as [|x xs]; [done|]. apply Forall_cons in Hw as [[Hx Hxu] _]. destruct lower; [|done]. cbn in *.
      apply bytes_ltb_leb. by eapply bytes_leb_ltb_trans. }
    assert (below upper k) as Hbu.
    { destruct ys as [|y ys]; [done|]. apply Forall_cons in Hw' as [[_ Hyu] _]. rewrite (Hst' k y eq_refl eq_refl) in Hyu. done. }
    destruct (join_children _ _ _ _ _ Hal Hbu Hw Hw' Hs Hs'). split; [by constructor|]. split; [done|]. split; [done|].
    split; [by destruct xs|]. split; [by apply starts_at_app|]. split; [apply Forall_app; split; [by apply (proj1 tree_items_ok) in Ht|done]|].
    rewrite zlen_app, Hsum, Hz. cbn [foldr]. lia.
Qed.

(** The separators of a branch built from descriptors. *)
Lemma descs_separators n lower upper d ds items nodes seps :
  descs_at n lower upper (d :: ds) items nodes -> Forall2 child_item ds seps ->
  sorted seps /\ Forall item_ok seps /\
  Forall (fun s => below upper (ti_key s) /\ match lower with Some l => bytes_ltb l (ti_key s) = true | None => True end) seps.
Proof.
  intros H. remember (d :: ds) as all eqn:Hall. revert d ds Hall seps.
  induction H as [lower upper d items nodes H|lower upper d d2 ds k xs xn ys yn Hk H Hrest IH]; intros d' ds' [= <- <-] seps HF.
  { apply Forall2_nil_inv_l in HF as ->. split; [constructor|]. split; constructor. }
  apply Forall2_cons_inv_l in HF as (s & seps' & (Hks & Href) & HF & ->). rewrite Hk in Hks. injection Hks as ->.
  destruct (IH d2 ds eq_refl seps' HF) as (Hs & Hok & Hb).
  destruct (descs_facts _ _ _ _ _ _ Hrest) as (_ & _ & Hw' & Hne' & Hst' & Hiok & _).
  destruct ys as [|y ys]; [done|]. apply Forall_cons in Hw' as [[_ Hyu] _]. pose proof (Hst' _ y eq_refl eq_refl) as Hy.
  apply Forall_cons in Hiok as [[Hyk _] _]. rewrite Hy in Hyu, Hyk.
  destruct (child_ref_ok _ _ Href) as [_ Hlen].
  destruct H as (Ht & _). destruct (proj1 (tree_at_facts geo spec nd) _ _ _ _ _ _ _ Ht) as (_ & Hw & Hne & _).
  specialize (Hne eq_refl). destruct xs as [|x xs]; [done|]. apply Forall_cons in Hw as [[Hxl Hxu] _]. cbn in Hxu.
  assert (match lower with Some l => bytes_ltb l (ti_key s) = true | None => True end) as Hls.
  { destruct lower as [l|]; [|done]. cbn in Hxl. by eapply bytes_leb_ltb_trans. }
  split.
  - constructor; [done|]. eapply Forall_impl; [exact Hb|]. by intros z [_ ?].
  - split; [constructor; [|done]; split; [done|lia]|]. constructor; [done|]. eapply Forall_impl; [exact Hb|].
    cbn. intros z [? Hz]. split; [done|]. destruct lower as [l|]; [|done]. by eapply bytes_ltb_trans.
Qed.

(** The descriptors of a branch; the first may carry any minimum, which the
    branch does not store. *)
Definition descs_of (node : TreeNode) (ds : list ChildDesc) : Prop :=
  match ds with
  | d :: ds => ch_reference d = ch_reference (leftmost_desc node) /\ Forall2 child_item ds (tn_items node)
  | [] => False
  end.

Lemma children_descs n node lower upper sep seps d ds items nodes :
  children_at geo spec nd n node lower upper (slots_from sep seps) items nodes ->
  child_of node sep = Ok (ch_reference d) -> u64 (cr_lba (ch_reference d)) -> Forall2 child_item ds seps ->
  descs_at n (bound sep lower) upper (d :: ds) items nodes.
Proof.
  revert sep d ds items nodes. induction seps as [|y seps IH]; intros sep d ds items nodes Hch Hd Hu HF; cbn [slots_from] in Hch;
    destruct (child_inv _ _ _ _ _ _ _ _ _ _ _ _ _ Hd Hch) as (xs & xn & ys & yn & -> & -> & Hg & Hz & Ht & Hrest).
  - apply Forall2_nil_inv_r in HF as ->. inversion Hrest; subst. rewrite !app_nil_r. by apply one_desc.
  - apply Forall2_cons_inv_r in HF as (d2 & ds' & (Hk & Href) & HF & ->).
    eapply more_descs; [exact Hk|done|]. apply (IH (Some y)); [done|cbn; by rewrite Href|by apply child_ref_ok in Href as [[? _] _]|done].
Qed.

Lemma descs_children n node lower upper sep seps d ds items nodes :
  descs_at n (bound sep lower) upper (d :: ds) items nodes ->
  child_of node sep = Ok (ch_reference d) -> Forall2 child_item ds seps ->
  children_at geo spec nd n node lower upper (slots_from sep seps) items nodes.
Proof.
  revert sep d ds items nodes. induction seps as [|y seps IH]; intros sep d ds items nodes Hds Hd HF; cbn [slots_from].
  - apply Forall2_nil_inv_r in HF as ->. inversion Hds as [? ? ? ? ? (Ht & Hz & Hg & _)|]; subst.
    rewrite <- (app_nil_r items), <- (app_nil_r nodes). eapply more_children; [done..|constructor].
  - apply Forall2_cons_inv_r in HF as (d2 & ds' & (Hk & Href) & HF & ->).
    inversion Hds as [|? ? ? ? ? k xs xn ys yn Hk' (Ht & Hz & Hg & _) Hrest]; subst.
    rewrite Hk in Hk'. injection Hk' as <-. eapply more_children; [done..|].
    apply (IH (Some y) d2 ds'); [done|cbn; by rewrite Href|done].
Qed.

(** [children_from_node] on any node. *)
Lemma children_from_node_spec node :
  wp (children_from_node node)
    (fun ds => exists d tl, ds = d :: tl /\ ch_min_key d = None /\ descs_of node ds)
    (fun _ => exists item, item ∈ tn_items node /\ forall r, child_ref item <> Ok r).
Proof.
  unfold children_from_node.
  apply (wp_ofold _ (fun ds todo => exists pre tl, tn_items node = pre ++ todo /\ ds = leftmost_desc node :: tl /\ Forall2 child_item tl pre)).
  - exists [], []. repeat split. constructor.
  - intros ds item todo (pre & tl & Hi & -> & HF). unfold item_desc. apply wp_bind, wp_bind.
    assert (child_ref item <> Panic) as Hnp by (eapply wp_not_panic, (wp_child_ref item (fun _ => True) any_error); done).
    destruct (child_ref item) as [r|e|] eqn:Hr; [|cbn; exists item; split; [rewrite Hi; apply elem_of_app; right; by left|intros r; by rewrite Hr]|done].
    cbn. exists (pre ++ [item]), (tl ++ [{| ch_min_key := Some (ti_key item); ch_reference := r |}]).
    split; [by rewrite Hi, <- app_assoc|]. split; [done|]. apply Forall2_app; [done|]. by repeat constructor.
  - intros ds (pre & tl & Hi & -> & HF). exists (leftmost_desc node), tl. rewrite app_nil_r in Hi. subst pre. done.
Qed.

Lemma valid_child_items node g : valid_node node g -> is_leaf node = false ->
  Forall (fun item => exists r, child_ref item = Ok r) (tn_items node) /\ ref_ok (ch_reference (leftmost_desc node)).
Proof.
  intros Hv Hl. destruct (node_valid _ _ Hv) as (_ & _ & Hc). rewrite Hl in Hc. destruct Hc as (_ & Hz & Hu & Hu' & Hsum).
  apply sum_children in Hsum as (refs & HF & _); [|apply Hu]. split.
  - apply Forall_forall. intros x Hx. apply list_elem_of_lookup in Hx as (i & Hi). destruct (Forall2_lookup_l _ _ _ _ _ HF Hi) as (r & _ & Hr & _). by exists r.
  - unfold ref_ok, u64 in *. cbn. destruct Hv as [_ Hv]. unfold TreeNode_validate in Hv. rewrite Hl in Hv.
    destruct (_ <? _); [done|]. destruct (ofold _ _ _) as [[]| |]; [|done..]. cbn [obind] in Hv.
    destruct (check_key_order _) as [[]| |]; [|done..]. cbn [obind] in Hv. destruct (_ || _ || _) eqn:He; [done|]. lia.
Qed.

Lemma valid_children node g : valid_node node g -> is_leaf node = false ->
  exists d tl, children_from_node node = Ok (d :: tl) /\ ch_min_key d = None /\ descs_of node (d :: tl).
Proof.
  intros Hv Hl. pose proof (children_from_node_spec node) as H. destruct (valid_child_items _ _ Hv Hl) as [HF _].
  destruct (children_from_node node) as [ds|e|]; [|exfalso|done].
  - destruct H as (d & tl & -> & Hd & H). by exists d, tl.
  - destruct H as (item & Hi & H). rewrite Forall_forall in HF. destruct (HF item Hi) as (r & Hr). by apply (H r).
Qed.

Lemma tree_descs n lower upper node g ds items nodes :
  valid_node node g -> is_leaf node = false -> descs_of node ds ->
  children_at geo spec nd n node lower upper (child_slots node) items nodes -> descs_at n lower upper ds items nodes.
Proof.
  intros Hv Hl Hds Hch. destruct ds as [|d ds]; [done|]. destruct Hds as [Hd HF].
  apply (children_descs n node lower upper None (tn_items node)); [done|cbn; by rewrite Hd| |done].
  rewrite Hd. by destruct (valid_child_items _ _ Hv Hl) as [_ [? _]].
Qed.

Lemma descs_tree n lower upper node ds items nodes :
  descs_of node ds -> descs_at n lower upper ds items nodes ->
  children_at geo spec nd n node lower upper (child_slots node) items nodes.
Proof.
  intros Hds Hat. destruct ds as [|d ds]; [done|]. destruct Hds as [Hd HF].
  apply (descs_children n node lower upper None (tn_items node) d ds); [done|cbn; by rewrite Hd|done].
Qed.

(** ** Building a branch *)

Definition total_of (ds : list ChildDesc) : Z := foldr (fun d s => cr_subtree_items (ch_reference d) + s) 0 ds.

Lemma total_cons d ds : total_of (d :: ds) = cr_subtree_items (ch_reference d) + total_of ds.
Proof. done. Qed.

Lemma internal_from_children_spec template d tl :
  Forall (fun d => ref_ok (ch_reference d)) (d :: tl) ->
  wp (internal_from_children template (d :: tl))
    (fun node => exists items, tl <> [] /\ Forall2 child_item tl items /\ u64 (total_of (d :: tl)) /\
       node = set_child_fields template (total_of (d :: tl)) (cr_lba (ch_reference d)) (cr_subtree_items (ch_reference d)) items)
    any_error.
Proof.
  intros Hrefs. destruct tl as [|d2 tl]; [done|]. cbn [internal_from_children]. set (rest := d2 :: tl) in *.
  apply Forall_cons in Hrefs as [Hd Hrest]. apply wp_bind.
  apply (wp_ofold _ (fun st todo => exists pre, rest = pre ++ todo /\ u64 (fst st) /\ Forall2 child_item pre (snd st) /\
     fst st + total_of todo = total_of (d :: rest))).
  - exists []. split; [done|]. split; [destruct Hd as (_ & _ & ?); unfold u64; cbn; lia|]. split; [constructor|]. done.
  - intros [total items] c todo (pre & Hr & Hu & HF & Hsum). cbn [fst snd] in *. unfold add_child_item. cbn [fst snd].
    assert (ref_ok (ch_reference c)) as Hc. { rewrite Hr in Hrest. apply Forall_app in Hrest as [_ Hrest]. by apply Forall_cons in Hrest as [? _]. }
    apply wp_bind, wp_checked_add; [|done]. intros Hlt. apply wp_bind. destruct (ch_min_key c) as [k|] eqn:Hk; [|done].
    apply wp_ok, wp_bind. destruct (child_value_ok _ Hc) as (v & Hv & _). rewrite Hv. cbn. destruct Hc as (Hcu & _ & Hcs).
    pose proof (child_ref_child_value _ _ Hcu ltac:(unfold u64; lia) Hv k) as Hcr.
    exists (pre ++ [c]). split; [by rewrite Hr, <- app_assoc|]. split; [unfold u64 in *; lia|]. split.
    + apply Forall2_app; [done|]. by repeat constructor.
    + cbn in Hsum. unfold total_of. lia.
  - intros [total items] (pre & Hr & Hu & HF & Hsum). cbn [fst snd] in *. rewrite app_nil_r in Hr. subst pre.
    replace (total_of (d :: rest)) with total in * by (unfold total_of in *; cbn in *; lia).
    apply wp_ok. exists items. done.
Qed.
End Store.

(** ** Neighbouring subtrees taken apart and put together *)

Section Splice.
Context (geo : Geometry) {WF : WfGeometry geo} (spec : TreeSpec) (nd : Z -> result (TreeNode * Z)) {valid : ValidNodes nd}.

Abbreviation descs_at := (descs_at geo spec nd).

Definition first_key (ds : list ChildDesc) : option bytes :=
  match ds with d :: _ => ch_min_key d | [] => None end.

Lemma descs_nonempty n lower upper ds items nodes : descs_at n lower upper ds items nodes -> ds <> [].
Proof. by intros []. Qed.

Lemma descs_split n lower upper a b items nodes :
  descs_at n lower upper (a ++ b) items nodes -> a <> [] -> b <> [] ->
  exists k xs ys xn yn, first_key b = Some k /\ items = xs ++ ys /\ nodes = xn ++ yn /\
    descs_at n lower (Some k) a xs xn /\ descs_at n (Some k) upper b ys yn.
Proof.
  revert lower items nodes. induction a as [|d a IH]; intros lower items nodes H Ha Hb; [done|]. clear Ha.
  destruct a as [|d2 a].
  - destruct b as [|d2 b]; [done|]. inversion H as [|? ? ? ? ? k xs xn ys yn Hk Ht Hrest]; subst.
    exists k, xs, ys, xn, yn. do 3 (split; [done|]). split; [by apply one_desc|done].
  - inversion H as [|? ? ? ? ? k xs xn ys yn Hk Ht Hrest]; subst.
    destruct (IH (Some k) ys yn Hrest ltac:(done) Hb) as (k' & xs' & ys' & xn' & yn' & Hk' & -> & -> & Hl & Hr).
    exists k', (xs ++ xs'), ys', (xn ++ xn'), yn'. rewrite !app_assoc. do 3 (split; [done|]). split; [|done].
    by eapply more_descs.
Qed.

Lemma descs_join n lower upper k a b xs ys xn yn :
  descs_at n lower (Some k) a xs xn -> descs_at n (Some k) upper b ys yn -> first_key b = Some k ->
  descs_at n lower upper (a ++ b) (xs ++ ys) (xn ++ yn).
Proof.
  intros H Hb Hk. remember (Some k) as m eqn:Hm. induction H as [lower ? d xs xn H|lower ? d d2 ds k' xs xn zs zn Hk' H Hrest IH]; subst.
  - destruct b as [|d2 b]; [by apply descs_nonempty in Hb|]. by eapply more_descs.
  - rewrite <- !app_assoc. cbn. eapply more_descs; [done|done|]. by apply IH.
Qed.

Lemma descs_weaken n lower upper ds items nodes lower' upper' :
  descs_at n lower upper ds items nodes -> lower' = lower \/ lower' = None -> upper_le upper upper' ->
  descs_at n lower' upper' ds items nodes.
Proof.
  intros H. revert lower'. induction H as [lower upper d xs xn (Ht & H)|lower upper d d2 ds k xs xn ys yn Hk (Ht & H) Hrest IH]; intros lower' Hl Hu.
  - apply one_desc. split; [|done]. by eapply (proj1 (tree_weaken _ _ _)).
  - eapply more_descs; [done| |apply IH; [by left|done]]. split; [|done]. eapply (proj1 (tree_weaken _ _ _)); [done|done|apply upper_le_refl|done].
Qed.

(** The minimum of the first descriptor is not part of the statement. *)
Lemma descs_first n lower upper d d' ds items nodes :
  ch_reference d' = ch_reference d -> descs_at n lower upper (d :: ds) items nodes -> descs_at n lower upper (d' :: ds) items nodes.
Proof.
  intros He H. assert (forall lo up xs xn, desc_tree geo spec nd n lo up d xs xn -> desc_tree geo spec nd n lo up d' xs xn) as Hd
    by (intros ????; unfold desc_tree; by rewrite He).
  inversion H; subst; [apply one_desc|eapply more_descs]; eauto.
Qed.

(** A possibly empty run of neighbours. *)
Definition run_at (n : nat) (lower upper : option bytes) (ds : list ChildDesc) (items : list TreeItem) (nodes : list (Z * TreeNode)) : Prop :=
  match ds with [] => items = [] /\ nodes = [] | _ => descs_at n lower upper ds items nodes end.

(** The bounds of a run [m] between [a] and [b]. *)
Definition run_lower (lower : option bytes) (a m : list ChildDesc) : option bytes := match a with [] => lower | _ => first_key m end.
Definition run_upper (upper : option bytes) (b : list ChildDesc) : option bytes := match b with [] => upper | _ => first_key b end.

Lemma descs_focus n lower upper a m b items nodes :
  descs_at n lower upper (a ++ m ++ b) items nodes -> m <> [] ->
  exists xs ys zs xn yn zn, items = xs ++ ys ++ zs /\ nodes = xn ++ yn ++ zn /\
    run_at n lower (run_lower lower a m) a xs xn /\
    descs_at n (run_lower lower a m) (run_upper upper b) m ys yn /\
    run_at n (run_upper upper b) upper b zs zn /\ (a <> [] -> is_Some (first_key m)).
Proof.
  intros H Hm.
  assert (exists xs ys xn yn, items = xs ++ ys /\ nodes = xn ++ yn /\ run_at n lower (run_lower lower a m) a xs xn /\
    descs_at n (run_lower lower a m) upper (m ++ b) ys yn /\ (a <> [] -> is_Some (first_key m))) as (xs & ys & xn & yn & -> & -> & Ha & H2 & Hs).
  { destruct a as [|d a]; [by exists [], items, [], nodes|].
    apply descs_split in H as (k & xs & ys & xn & yn & Hk & -> & -> & Ha & Hb); [|done|by destruct m].
    exists xs, ys, xn, yn. destruct m as [|e m]; [done|]. cbn in Hk |- *. rewrite Hk. done. }
  destruct b as [|e b].
  - rewrite app_nil_r in H2. exists xs, ys, [], xn, yn, []. rewrite !app_nil_r. done.
  - apply descs_split in H2 as (k & ys' & zs & yn' & zn & Hk & -> & -> & Hm' & Hb); [|done..].
    exists xs, ys', zs, xn, yn', zn. cbn in Hk |- *. rewrite Hk. done.
Qed.

Lemma descs_unfocus n lower lower' upper a m b xs ys zs xn yn zn lo :
  run_at n lower lo a xs xn -> descs_at n lower' (run_upper upper b) m ys yn -> run_at n (run_upper upper b) upper b zs zn ->
  (a <> [] -> upper_le lo lower' /\ lower' <> None /\ first_key m = lower') -> (b <> [] -> is_Some (first_key b)) ->
  descs_at n (match a with [] => lower' | _ => lower end) upper (a ++ m ++ b) (xs ++ ys ++ zs) (xn ++ yn ++ zn).
Proof.
  intros Ha Hm Hb Hal Hbs.
  assert (descs_at n lower' upper (m ++ b) (ys ++ zs) (yn ++ zn)) as Hmb.
  { destruct b as [|e b]; [destruct Hb as [-> ->]; by rewrite !app_nil_r|]. destruct (Hbs ltac:(done)) as [k Hk].
    cbn [run_upper run_at] in *. rewrite Hk in Hm, Hb. by eapply descs_join. }
  destruct a as [|d a]; [by destruct Ha as [-> ->]|]. destruct (Hal ltac:(done)) as (Hle & Hne & Hf). destruct lower' as [k|]; [|done].
  eapply descs_join; [|done|]; [|by destruct m; [apply descs_nonempty in Hm|]]. eapply descs_weaken; [exact Ha|by left|done].
Qed.
End Splice.

Lemma descs_frame geo spec nd nd' n lower upper ds items nodes :
  descs_at geo spec nd n lower upper ds items nodes -> (forall p, p ∈ nodes -> nd' (fst p) = nd (fst p)) ->
  descs_at geo spec nd' n lower upper ds items nodes.
Proof.
  induction 1 as [lower upper d xs xn (Ht & H)|lower upper d d2 ds k xs xn ys yn Hk (Ht & H) Hrest IH]; intros Hag.
  - apply one_desc. split; [|done]. by eapply (proj1 (tree_frame _ _ _ _)).
  - eapply more_descs; [done| |apply IH; intros p Hp; apply Hag, elem_of_app; by right]. split; [|done].
    eapply (proj1 (tree_frame _ _ _ _)); [done|]. intros p Hp. apply Hag, elem_of_app. by left.
Qed.

(** ** Splitting *)

Lemma fits_count node bs : 32 <= bs < 2 ^ 64 -> fits node bs = true -> zlen (tn_items node) < 2 ^ 64.
Proof.
  intros Hbs Hf%fits_iff; [|done]. rewrite zlen_TreeNode_wire in Hf. pose proof (zlen_items_le (tn_items node)).
  pose proof (zlen_nonneg (tn_items node)). lia.
Qed.

Lemma wp_item_len item : wp (encoded_items_len [item]) (fun n => 40 <= n < 2 ^ 64) any_error.
Proof.
  unfold encoded_items_len. cbn [ofold]. apply wp_bind, wp_ok_or; [|done]. intros n. unfold checked_add.
  pose proof (zlen_nonneg (ti_key item)). pose proof (zlen_nonneg (ti_value item)).
  repeat case_match; intros; simplify_eq; cbn; lia.
Qed.

Lemma wp_item_prefixes items : forall len, 0 <= len < 2 ^ 64 ->
  wp (item_prefixes 32 len items)
    (fun lens => length lens = S (length items) /\ exists total, last lens = Some total /\ len + zlen items <= total < 2 ^ 64 /\
                 Forall (fun x => len <= x <= total) lens) any_error.
Proof.
  induction items as [|item items IH]; intros len Hlen; cbn [item_prefixes].
  - apply wp_ok. split; [done|]. exists len. split; [done|]. split; [change (zlen (A := TreeItem) []) with 0; lia|]. repeat constructor; lia.
  - apply wp_bind. eapply wp_mono; [apply wp_item_len| |done]. cbn beta. intros w Hw. apply wp_bind, wp_ok_or; [|done].
    intros next Hn. unfold checked_sub, checked_add in Hn. replace (32 <=? w) with true in Hn by lia.
    destruct (_ <? _) eqn:Hlt; [|done]. injection Hn as <-. apply wp_bind. eapply wp_mono; [apply IH; lia| |done].
    cbn beta. intros lens (Hl & total & Hlast & Hb & HF). apply wp_ok. split; [cbn; lia|]. exists total.
    rewrite zlen_cons. pose proof (zlen_nonneg items). split; [by destruct lens|]. split; [lia|].
    constructor; [lia|]. eapply Forall_impl; [exact HF|]. cbn. lia.
Qed.

Definition split_between (lo hi : nat) (best : option (Z * nat)) : Prop :=
  forall difference split, best = Some (difference, split) -> (lo <= split < hi)%nat.

Lemma better_between lo hi best difference split (fit : bool) : split_between lo hi best -> (lo <= split < hi)%nat ->
  split_between lo hi (if fit then better best difference split else best).
Proof.
  intros Hb Hs. destruct fit; [|done]. unfold better. destruct best as [[d s]|]; [destruct (_ <? _)|]; try done; intros ? ? [= <- <-]; done.
Qed.

Lemma wp_best_leaf_split capacity total lo hi lens : forall split best,
  Forall (fun x => 32 <= x <= total) lens -> total < 2 ^ 64 -> split_between lo hi best ->
  (lo <= split)%nat -> (split + length lens <= S hi)%nat ->
  wp (best_leaf_split capacity 32 total split lens best) (split_between lo hi) any_error.
Proof.
  induction lens as [|x lens IH]; intros split best HF Ht Hb Hlo Hhi; [done|]. destruct lens as [|y lens]; [done|].
  apply Forall_cons in HF as [Hx HF]. cbn beta in Hx. cbn [best_leaf_split]. apply wp_bind, wp_sub_w; [lia|]. apply wp_bind, wp_add_w; [lia|].
  cbn [length] in *. apply IH; [done|done| |lia|cbn; lia]. apply better_between; [done|lia].
Qed.

Lemma split_leaf_spec node bs :
  wp (split_leaf node bs)
    (fun r => let '(l, r) := r in exists a b, tn_items node = a ++ b /\ a <> [] /\ b <> [] /\ zlen (tn_items node) < 2 ^ 64 /\
       l = set_items a node /\
       r = {| tn_kind := tn_kind node; tn_owner := tn_owner node; tn_level := tn_level node; tn_subtree_items := zlen b;
              tn_leftmost_child := 0; tn_leftmost_items := 0; tn_items := b |}) any_error.
Proof.
  unfold split_leaf. cbv zeta. change (encoded_items_len []) with (Ok (E := CoreError) 32). cbn [obind].
  apply wp_bind. eapply wp_mono; [apply wp_item_prefixes; lia| |done]. cbn beta. intros lens (Hl & total & Hlast & Hb & HF).
  rewrite Hlast. apply wp_bind. destruct lens as [|x lens]; [done|]. apply Forall_cons in HF as [_ HF]. cbn [tail].
  eapply wp_mono; [apply (wp_best_leaf_split _ _ 1 (length (tn_items node))); [done|lia| |lia|cbn in Hl; lia]| |done].
  { by intros ? ?. }
  intros [[d s]|] Hs; [|done]. specialize (Hs d s eq_refl). apply wp_ok. exists (take s (tn_items node)), (drop s (tn_items node)).
  split; [by rewrite take_drop|]. pose proof (zlen_nonneg (tn_items node)). split; [|split; [|split; [lia|done]]].
  - intros He%(f_equal length). rewrite length_take in He. cbn in He. lia.
  - intros He%(f_equal length). rewrite length_drop in He. cbn in He. lia.
Qed.

Lemma wp_best_internal_split capacity children lo hi n : forall split best,
  split_between lo hi best -> (lo <= split)%nat -> (split + n <= hi)%nat ->
  wp (best_internal_split capacity children split n best) (split_between lo hi) any_error.
Proof.
  assert (forall ds, wp (encoded_children_len ds) (fun _ => True) any_error) as Hlen.
  { intros [|d [|d2 ds]]; [done..|]. unfold encoded_children_len. apply (wp_ofold _ (fun _ _ => True)); [done| |done].
    intros len c l _. apply wp_bind, wp_ok_or; [|done]. intros k _. by apply wp_ok_or. }
  induction n as [|n IH]; intros split best Hb Hlo Hhi; [done|]. cbn [best_internal_split].
  apply wp_bind. eapply wp_mono; [apply Hlen| |done]. intros l _. apply wp_bind. eapply wp_mono; [apply Hlen| |done]. intros r _.
  apply IH; [|lia|lia]. apply better_between; [done|lia].
Qed.

Lemma split_internal_spec node ds bs :
  Forall (fun d => ref_ok (ch_reference d)) ds ->
  wp (split_internal node ds bs)
    (fun r => let '(l, r, k) := r in exists a b, ds = a ++ b /\ a <> [] /\ b <> [] /\ first_key b = Some k /\
       internal_from_children node a = Ok l /\
       exists b', set_first_min (E := CoreError) None b = Ok b' /\ internal_from_children (set_child_fields node 0 0 0 []) b' = Ok r) any_error.
Proof.
  intros Hrefs. unfold split_internal. cbv zeta. apply wp_bind.
  eapply wp_mono; [apply (wp_best_internal_split _ _ 2 (Nat.max 2 (length ds - 1))); [by intros ? ?|lia|lia]| |done].
  intros [[difference s]|] Hs; [|done]. specialize (Hs _ _ eq_refl).
  destruct (lookup_lt_is_Some_2 ds s) as [d Hd]; [lia|]. rewrite Hd. apply wp_bind, wp_ok_or; [|done]. intros k Hk.
  assert (exists b, drop s ds = d :: b) as [b Hb] by (exists (drop (S s) ds); by apply drop_S).
  assert (exists d0 a, take s ds = d0 :: a) as (d0 & a & Ha).
  { destruct ds as [|d0 ds]; [done|]. destruct s as [|s]; [lia|]. by exists d0, (take s ds). }
  rewrite Ha, Hb. rewrite <- (take_drop s ds), Ha, Hb in Hrefs. apply Forall_app in Hrefs as [Hra Hrb].
  apply wp_bind. apply (wp_mono _ (fun l => internal_from_children node (d0 :: a) = Ok l) _ any_error); [|intros l Hl|done].
  { apply wp_any; [|done]. eapply wp_not_panic, internal_from_children_spec; done. }
  cbn [set_first_min obind]. apply wp_bind.
  apply (wp_mono _ (fun r => internal_from_children (set_child_fields node 0 0 0 []) (set_min_key None d :: b) = Ok r) _ any_error); [|intros r Hr|done].
  { apply wp_any; [|done]. eapply wp_not_panic, internal_from_children_spec. apply Forall_cons in Hrb as [? ?]. by constructor. }
  apply wp_ok. exists (d0 :: a), (d :: b). split; [by rewrite <- (take_drop s ds), Ha, Hb at 1|]. do 4 (split; [done|]). by eexists.
Qed.

(** ** Nodes ready to be staged *)

Section Build.
Context (geo : Geometry) {WF : WfGeometry geo} (spec : TreeSpec) (g : Z).
Hypothesis generation_ok : u64 g /\ 0 < g <= ts_max_generation spec.
Hypothesis owner_ok : u64 (ts_owner spec).

(** A node of the tree's kind, owner and height. *)
Definition of_tree (n : nat) (node : TreeNode) : Prop :=
  tn_kind node = ts_kind spec /\ tn_owner node = ts_owner spec /\ tn_level node = Z.of_nat n.

Section Source.
Context (nd : Z -> result (TreeNode * Z)) {valid : ValidNodes nd}.

(** A node that becomes the root of a subtree once it is stored. *)
Definition ready (n : nat) (lower upper : option bytes) (is_root : bool) (node : TreeNode) (items : list TreeItem)
    (kids : list (Z * TreeNode)) : Prop :=
  valid_node node g /\ of_tree n node /\ validate_node_range node lower upper is_root = Ok tt /\
  tn_subtree_items node = zlen items /\
  match n with
  | O => items = tn_items node /\ kids = []
  | S m => children_at geo spec nd m node lower upper (child_slots node) items kids
  end.

(** Neighbours that are about to be stored, as [descs_at]. *)
Inductive images_at (n : nat) : option bytes -> option bytes -> list NodeImage -> list TreeItem -> list (list (Z * TreeNode)) -> Prop :=
| one_image lower upper node min items kids :
    ready n lower upper false node items kids -> images_at n lower upper [(node, min)] items [kids]
| more_images lower upper node min node2 images k xs xn ys yn :
    ready n lower (Some k) false node xs xn -> images_at n (Some k) upper ((node2, Some k) :: images) ys yn ->
    images_at n lower upper ((node, min) :: (node2, Some k) :: images) (xs ++ ys) (xn :: yn).

Definition leaf_node (items : list TreeItem) : TreeNode :=
  {| tn_kind := ts_kind spec; tn_owner := ts_owner spec; tn_level := 0; tn_subtree_items := zlen items;
     tn_leftmost_child := 0; tn_leftmost_items := 0; tn_items := items |}.

Lemma leaf_ready lower upper is_root items :
  zlen items < 2 ^ 64 -> sorted items -> Forall item_ok items -> within lower upper items -> starts_at lower items ->
  (is_root = false -> items <> []) -> ready 0 lower upper is_root (leaf_node items) items [].
Proof.
  intros Hz Hs Hi Hw Hst Hne. split; [apply valid_leaf; tauto|]. split; [done|]. split; [by apply range_intro|]. done.
Qed.

Lemma leaf_of node g' : valid_node node g' -> of_tree 0 node -> node = leaf_node (tn_items node) /\ zlen (tn_items node) < 2 ^ 64.
Proof.
  intros Hv (Hk & Ho & Hl). destruct (valid_leaf_inv _ _ Hv) as (-> & _ & Hz); [unfold is_leaf; lia|].
  split; [|done]. cbn in *. unfold leaf_node. by rewrite Hk, Ho.
Qed.

(** Two nodes of a split leaf. *)
Lemma leaves_ready lower upper a b min :
  zlen (a ++ b) < 2 ^ 64 -> sorted (a ++ b) -> Forall item_ok (a ++ b) -> within lower upper (a ++ b) -> starts_at lower (a ++ b) ->
  a <> [] -> b <> [] ->
  images_at 0 lower upper [(leaf_node a, min); (leaf_node b, first_min (leaf_node b))] (a ++ b) [[]; []].
Proof.
  intros Hz Hs Hi Hw Hst Ha Hb. apply sorted_app in Hs as (Hsa & Hsb & Hab). apply Forall_app in Hi as [Hia Hib].
  apply Forall_app in Hw as [Hwa Hwb]. rewrite zlen_app in Hz. pose proof (zlen_nonneg a). pose proof (zlen_nonneg b).
  destruct b as [|y b]; [done|]. cbn [first_min leaf_node tn_items hd_error option_map]. apply more_images.
  - apply leaf_ready; [lia|done|done| |by destruct a|done]. unfold within in *. apply Forall_forall. intros x Hx.
    rewrite Forall_forall in Hwa. split; [by apply Hwa|]. cbn. apply Hab; [done|by left].
  - apply one_image, leaf_ready; [lia|done|done| | |done].
    + apply StronglySorted_inv in Hsb as [_ Hy]. unfold within in *. apply Forall_cons in Hwb as [[_ Hyu] Hwb].
      constructor; [split; [apply bytes_leb_refl|done]|]. apply Forall_forall. intros x Hx. rewrite Forall_forall in Hy, Hwb.
      split; [by apply bytes_ltb_leb, Hy|by apply Hwb].
    + by intros l first [= <-] [= <-].
Qed.

Lemma ofold_total tl items : forall n, Forall2 child_item tl items -> 0 <= n -> n + total_of tl < 2 ^ 64 ->
  ofold add_child_items n items = Ok (n + total_of tl).
Proof.
  intros n HF. revert n. induction HF as [|d item tl items [_ Hr] HF IH]; intros n Hn Hlt; [cbn; f_equal; lia|].
  destruct (child_ref_ok _ _ Hr) as [(_ & _ & Hc) _]. rewrite total_cons in *.
  assert (0 <= total_of tl) as Hp.
  { clear -HF. induction HF as [|d' ? tl ? [_ Hr]]; [done|]. rewrite total_cons. destruct (child_ref_ok _ _ Hr) as [(_ & _ & ?) _]. lia. }
  cbn [ofold]. unfold add_child_items at 1. rewrite Hr. cbn [obind]. unfold checked_add. replace (_ <? _) with true by lia.
  cbn [ok_or obind]. rewrite IH by lia. f_equal. lia.
Qed.

(** A branch over neighbouring subtrees. *)
Lemma built_ready m lower upper is_root template d tl seps items kids :
  descs_at geo spec nd m lower upper (d :: tl) items kids -> Forall2 child_item tl seps -> tl <> [] -> total_of (d :: tl) < 2 ^ 64 ->
  of_tree (S m) template -> Z.of_nat (S m) <= MAX_TREE_LEVEL ->
  let node := set_child_fields template (total_of (d :: tl)) (cr_lba (ch_reference d)) (cr_subtree_items (ch_reference d)) seps in
  ready (S m) lower upper is_root node items kids /\ descs_of node (d :: tl) /\ of_tree (S m) node.
Proof.
  intros Hds HF Hne Hlt (Hk & Ho & Hl) Hm node.
  destruct (descs_facts geo spec nd _ _ _ _ _ _ Hds) as (Hrefs & _ & _ & _ & _ & _ & Hsum). change (zlen items = total_of (d :: tl)) in Hsum.
  destruct (descs_separators geo spec nd _ _ _ _ _ _ _ _ Hds HF) as (Hs & Hi & Hb). apply Forall_cons in Hrefs as [Hd _].
  assert (seps <> []) as Hne' by (intros ->; by apply Forall2_nil_inv_r in HF).
  assert (descs_of node (d :: tl)) as Hof by (split; [by destruct d as [? []]|done]).
  split; [|done]. split; [|split; [done|split; [|split; [done|by eapply descs_tree]]]].
  - apply valid_branch; [by cbn; rewrite Ho|tauto|cbn; lia|pose proof (zlen_nonneg items); split; lia|by destruct d as [? []]|done..|].
    apply ofold_total; [done|destruct Hd as (_ & _ & ?); lia|done].
  - apply range_intro; [done| |intros H; unfold is_leaf in H; cbn in H; lia]. cbn. eapply Forall_impl; [exact Hb|].
    cbn. intros x [? Hlo]. split; [|done]. destruct lower; [|done]. by apply bytes_ltb_leb.
Qed.

Lemma branch_ready m lower upper is_root template ds node items kids :
  descs_at geo spec nd m lower upper ds items kids -> internal_from_children template ds = Ok node -> of_tree (S m) template ->
  Z.of_nat (S m) <= MAX_TREE_LEVEL ->
  ready (S m) lower upper is_root node items kids /\ descs_of node ds /\ of_tree (S m) node.
Proof.
  intros Hds Hn Ht Hm. destruct ds as [|d tl]; [done|]. destruct (descs_facts geo spec nd _ _ _ _ _ _ Hds) as (Hrefs & _).
  destruct (wp_of_ok _ _ _ _ (internal_from_children_spec template d tl Hrefs) Hn) as (seps & Hne & HF & [_ Hu] & ->).
  by apply built_ready.
Qed.

(** A stored subtree, and the node at its root. *)
Lemma tree_ready n lower upper is_root lba items nodes :
  tree_at geo spec nd n lower upper is_root lba items nodes ->
  exists node g' kids, nd lba = Ok (node, g') /\ nodes = (lba, node) :: kids /\ valid_node node g' /\ of_tree n node /\
    validate_node_range node lower upper is_root = Ok tt /\
    match n with
    | O => items = tn_items node /\ kids = []
    | S m => children_at geo spec nd m node lower upper (child_slots node) items kids
    end.
Proof.
  intros H. inversion H as [? ? ? ? node (g' & Hd & Hid & Hr) Hl|m ? ? ? ? node ? kids (g' & Hd & Hid & Hr) Hl Hch]; subst;
    pose proof (nodes_valid _ _ _ Hd) as Hv; exists node, g'; eexists; (split; [done|]; split; [done|]; split; [done|]);
    unfold validate_node_identity in Hid; (destruct (_ || _) eqn:He in Hid; [done|]); apply orb_false_iff in He as [Hk Ho];
    apply negb_false_iff in Hk; apply bool_decide_eq_true_1 in Hk; (split; [split; [done|split; [lia|done]]|done]).
Qed.
End Source.

(** What is ready stays ready while the nodes below it stay. *)
Lemma ready_frame nd nd' n lower upper is_root node items kids :
  ready nd n lower upper is_root node items kids -> (forall p, p ∈ kids -> nd' (fst p) = nd (fst p)) ->
  ready nd' n lower upper is_root node items kids.
Proof.
  intros (? & ? & ? & ? & H) Hag. do 4 (split; [done|]). destruct n; [done|]. by eapply (proj2 (tree_frame _ _ _ _)).
Qed.

Lemma ready_tree nd n lower upper is_root node items kids lba :
  ready nd n lower upper is_root node items kids -> nd lba = Ok (node, g) ->
  tree_at geo spec nd n lower upper is_root lba items ((lba, node) :: kids).
Proof.
  intros (Hv & (Hk & Ho & Hl) & Hr & Hz & H) Hd.
  assert (node_at spec nd lba None lower upper is_root node) as Hn.
  { exists g. split; [done|]. split; [|done]. unfold validate_node_identity. rewrite bool_decide_eq_true_2 by done. cbn.
    replace (negb (tn_owner node =? ts_owner spec)) with false by lia. by replace (_ || _) with false by lia. }
  destruct n; [destruct H as [-> ->]; by apply leaf_at|by eapply branch_at].
Qed.
End Build.

(** ** Stored images *)

Section Stored.
Context (geo : Geometry) {WF : WfGeometry geo} (spec : TreeSpec) (g : Z).
Hypothesis generation_ok : u64 g /\ 0 < g <= ts_max_generation spec.
Hypothesis owner_ok : u64 (ts_owner spec).

Abbreviation ready := (ready geo spec g).
Abbreviation images_at := (images_at geo spec g).
Abbreviation descs_at := (descs_at geo spec).

Definition image_desc (image : NodeImage) (lba : Z) : ChildDesc :=
  {| ch_min_key := snd image; ch_reference := {| cr_lba := lba; cr_subtree_items := tn_subtree_items (fst image) |} |}.

(** The nodes of the subtrees once the images are stored at the blocks. *)
Fixpoint stored_nodes (images : list NodeImage) (lbas : list Z) (kids : list (list (Z * TreeNode))) : list (Z * TreeNode) :=
  match images, lbas, kids with
  | image :: images, lba :: lbas, k :: kids => ((lba, fst image) :: k) ++ stored_nodes images lbas kids
  | _, _, _ => []
  end.

Lemma images_stored nd nd' n lower upper images items kids lbas :
  images_at nd n lower upper images items kids -> length lbas = length images ->
  Forall (fun lba => u64 lba /\ check_tree_lba geo lba = Ok tt) lbas ->
  Forall2 (fun image lba => nd' lba = Ok (fst image, g)) images lbas ->
  (forall p, p ∈ concat kids -> nd' (fst p) = nd (fst p)) ->
  descs_at nd' n lower upper (zip_with image_desc images lbas) items (stored_nodes images lbas kids).
Proof.
  intros H. revert lbas. induction H as [lower upper node min items kids H|lower upper node min node2 images k xs xn ys yn H Hrest IH];
    intros lbas Hlen Hl Hat Hag.
  - destruct lbas as [|lba [|? ?]]; [done| |done]. cbn. rewrite app_nil_r. apply Forall2_cons_1 in Hat as [Hat _]. apply Forall_cons in Hl as [[? ?] _].
    apply one_desc. split; [|split; [destruct H as (_ & _ & _ & H & _); by rewrite <- H|done]].
    eapply (ready_tree geo spec g generation_ok), Hat. eapply (ready_frame geo spec g); [exact H|]. intros p Hp. apply Hag. cbn. by rewrite app_nil_r.
  - destruct lbas as [|lba [|lba2 lbas]]; [done|done|]. apply Forall2_cons_1 in Hat as [Hat1 Hat]. apply Forall_cons in Hl as [[? ?] Hl].
    cbn [zip_with stored_nodes]. eapply more_descs; [done| |].
    + split; [|split; [destruct H as (_ & _ & _ & H & _); by rewrite <- H|done]]. eapply (ready_tree geo spec g generation_ok), Hat1.
      eapply (ready_frame geo spec g); [exact H|]. intros p Hp. apply Hag, elem_of_app. by left.
    + apply (IH (lba2 :: lbas)); [cbn in *; lia|done|done|]. intros p Hp. apply Hag, elem_of_app. by right.
Qed.

Lemma images_frame nd nd' n lower upper images items kids :
  images_at nd n lower upper images items kids -> (forall p, p ∈ concat kids -> nd' (fst p) = nd (fst p)) ->
  images_at nd' n lower upper images items kids.
Proof.
  induction 1 as [lower upper node min items kids H|lower upper node min node2 images k xs xn ys yn H Hrest IH]; intros Hag.
  - apply one_image. eapply ready_frame; [exact H|]. intros p Hp. apply Hag. cbn. by rewrite app_nil_r.
  - apply more_images; [|apply IH; intros p Hp; apply Hag; cbn; apply elem_of_app; by right].
    eapply ready_frame; [exact H|]. intros p Hp. apply Hag, elem_of_app. by left.
Qed.

(** ** A node out of its block *)

Section Source.
Context (nd : Z -> result (TreeNode * Z)) {valid : ValidNodes nd}.

Definition min_within (lower min : option bytes) : Prop :=
  match min with Some k => above lower k | None => lower = None end.

(** An edited node: a leaf that may have lost its last item, or a branch that
    may have one child left.  A branch starts at its minimum. *)
Definition pending (n : nat) (lower upper : option bytes) (p : PendingNode) (items : list TreeItem) (kids : list (Z * TreeNode)) : Prop :=
  of_tree spec n (pn_node p) /\
  match n with
  | O => pn_node p = leaf_node spec items /\ kids = [] /\ zlen items < 2 ^ 64 /\ sorted items /\ Forall item_ok items /\ within lower upper items
  | S m => exists d tl, children_from_node (pn_node p) = Ok (d :: tl) /\ descs_at nd m (pn_min_key p) upper (d :: tl) items kids /\
      min_within lower (pn_min_key p) /\
      (tn_items (pn_node p) <> [] -> ready nd n (pn_min_key p) upper false (pn_node p) items kids)
  end.

Lemma within_first lower upper items : sorted items -> within lower upper items ->
  within (option_map ti_key (hd_error items)) upper items /\ starts_at (option_map ti_key (hd_error items)) items.
Proof.
  intros Hs Hw. destruct items as [|x items]; [split; [constructor|by intros ?]|]. cbn. apply StronglySorted_inv in Hs as [_ Hx].
  unfold within in *. apply Forall_cons in Hw as [[_ Hxu] Hw]. split; [|by intros l first [= <-] [= <-]].
  constructor; [split; [apply bytes_leb_refl|done]|]. apply Forall_forall. intros y Hy. rewrite Forall_forall in Hx, Hw.
  split; [by apply bytes_ltb_leb, Hx|by apply Hw].
Qed.

Lemma first_within lower upper items : items <> [] -> within lower upper items -> min_within lower (option_map ti_key (hd_error items)).
Proof. intros Hne Hw. destruct items; [done|]. cbn. by apply Forall_cons in Hw as [[? _] _]. Qed.

(** Written alone. *)
Lemma pending_ready n lower upper p items kids :
  pending n lower upper p items kids -> tn_items (pn_node p) <> [] -> (n = O -> pn_min_key p = first_min (pn_node p)) ->
  images_at nd n (pn_min_key p) upper [(pn_node p, pn_min_key p)] items [kids] /\ min_within lower (pn_min_key p).
Proof.
  intros [Ht H] Hne Hmin. destruct n as [|m].
  - destruct H as (Hn & -> & Hz & Hs & Hi & Hw). rewrite (Hmin eq_refl), Hn in *. cbn [tn_items leaf_node] in Hne. unfold first_min. cbn [tn_items leaf_node].
    destruct (within_first _ _ _ Hs Hw). split; [by apply one_image, leaf_ready|by eapply first_within].
  - destruct H as (d & tl & _ & _ & Hm & Hr). split; [by apply one_image, Hr|done].
Qed.

(** A sibling taken out of its block. *)
Lemma sibling_pending n lower upper lba items nodes node g' staged :
  tree_at geo spec nd n lower upper false lba items nodes -> nd lba = Ok (node, g') ->
  exists kids, nodes = (lba, node) :: kids /\ items <> [] /\
    pending n lower upper {| pn_old_lba := lba; pn_old_staged := staged; pn_node := node; pn_min_key := lower |} items kids.
Proof.
  intros Ht Hd. destruct (proj1 (tree_at_facts geo spec nd) _ _ _ _ _ _ _ Ht) as (Hs & Hw & Hne & _).
  pose proof (proj1 (tree_items_ok geo spec nd) _ _ _ _ _ _ _ Ht) as Hi.
  destruct (tree_root _ _ _ _ _ _ _ _ _ _ Ht) as (node1 & Hn1 & _). pose proof (loaded_count _ _ _ _ _ _ _ _ _ _ _ _ Ht Hn1) as Hc.
  destruct (tree_ready _ _ _ _ _ _ _ _ _ _ Ht) as (node' & g'' & kids & Hd' & -> & Hv & Hot & Hr & Hk).
  rewrite Hd in Hd'. injection Hd' as <- <-. exists kids. split; [done|]. split; [by apply Hne|]. split; [done|]. cbn [pn_node pn_min_key].
  destruct n as [|m].
  - destruct Hk as [-> ->]. destruct (leaf_of spec node g' Hv Hot). done.
  - destruct (valid_children node g' Hv) as (d & tl & Hcf & _ & Hds); [destruct Hot as (_ & _ & ?); unfold is_leaf; lia|].
    exists d, tl. split; [done|]. split; [eapply tree_descs; try done; destruct Hot as (_ & _ & ?); unfold is_leaf; lia|].
    split; [destruct lower; [apply bytes_leb_refl|done]|]. intros Hnn.
    split; [apply (valid_at node g'); [done|apply generation_ok]|]. split; [done|]. split; [done|]. split; [|done].
    destruct Hn1 as (g1 & Hd1 & _). rewrite Hd in Hd1. by injection Hd1 as <- <-.
Qed.

(** ** Joining siblings *)

(** What joining two neighbours gives: the same items in one node or two. *)
Definition joined (n : nat) (lower upper : option bytes) (outputs : list NodeImage) (items : list TreeItem) (kids : list (Z * TreeNode)) : Prop :=
  exists min tail kidss, map snd outputs = min :: tail /\ (length outputs <= 2)%nat /\ images_at nd n min upper outputs items kidss /\
    concat kidss = kids /\ min_within lower min.

Lemma join_leaves lower upper k l r xs ys xn yn bs :
  32 <= bs < 2 ^ 64 ->
  pending 0 lower (Some k) l xs xn -> pending 0 (Some k) upper r ys yn -> above lower k -> below upper k -> xs ++ ys <> [] ->
  wp (rebalance_pair l r bs) (fun outputs => joined 0 lower upper outputs (xs ++ ys) (xn ++ yn)) any_error.
Proof.
  intros Hbs (_ & Hl & -> & Hzl & Hsl & Hil & Hwl) (_ & Hr & -> & Hzr & Hsr & Hir & Hwr) Hlo Hup Hne.
  unfold rebalance_pair. cbv zeta. rewrite Hl, Hr. apply wp_if; intros _; [done|]. change (is_leaf (leaf_node spec xs)) with true. cbv iota.
  apply wp_if; intros _; [done|]. change (set_items _ _) with (leaf_node spec (xs ++ ys)).
  destruct (join_children lower upper k xs ys Hlo Hup Hwl Hwr Hsl Hsr) as [Hs Hw].
  assert (Forall item_ok (xs ++ ys)) as Hi by by apply Forall_app.
  destruct (within_first lower upper (xs ++ ys) Hs Hw) as [Hwf Hst]. pose proof (first_within lower upper (xs ++ ys) Hne Hw) as Hmin.
  apply wp_if; intros Hf.
  - apply wp_ok. apply fits_count in Hf; [|done]. eexists _, _, _. split; [done|]. split; [cbn; lia|].
    split; [by apply one_image, leaf_ready|]. done.
  - apply wp_bind. eapply wp_mono; [apply split_leaf_spec| |done]. intros [ln rn] (a & b & Hab & Ha & Hb & Hz & -> & ->). cbn [tn_items leaf_node] in *.
    apply wp_ok. change (set_items a (leaf_node spec (xs ++ ys))) with (leaf_node spec a).
    change {| tn_items := b |} with (leaf_node spec b). eexists _, _, [[]; []]. split; [done|]. split; [done|]. rewrite Hab in *.
    split; [|split; [done|]]; [|by destruct a]. apply leaves_ready; try done; by destruct a.
Qed.

Lemma set_first_pending min d tl : set_first_min (E := CoreError) min (d :: tl) = Ok (set_min_key min d :: tl).
Proof. done. Qed.

Lemma join_branches m lower upper k l r xs ys xn yn bs :
  Z.of_nat (S m) <= MAX_TREE_LEVEL ->
  pending (S m) lower (Some k) l xs xn -> pending (S m) (Some k) upper r ys yn ->
  wp (rebalance_pair l r bs) (fun outputs => joined (S m) lower upper outputs (xs ++ ys) (xn ++ yn)) any_error.
Proof.
  intros Hm (Hol & dl & tl & Hcl & Hdl & Hml & _) (Hor & dr & tr & Hcr & Hdr & Hmr & _).
  unfold rebalance_pair. cbv zeta. apply wp_if; intros _; [done|].
  replace (is_leaf (pn_node l)) with false by (destruct Hol as (_ & _ & ?); unfold is_leaf; lia).
  rewrite Hcl. cbn [obind]. rewrite set_first_pending. cbn [obind]. rewrite Hcr. cbn [obind]. rewrite set_first_pending. cbn [obind].
  destruct (pn_min_key r) as [k'|] eqn:Hkr; [|done]. cbn in Hmr.
  set (ds := (set_min_key (pn_min_key l) dl :: tl) ++ set_min_key (Some k') dr :: tr).
  assert (descs_at nd m (pn_min_key l) upper ds (xs ++ ys) (xn ++ yn)) as Hds.
  { eapply descs_join; [| |done]; [eapply descs_weaken; [by eapply descs_first, Hdl|by left|done]|by eapply descs_first, Hdr]. }
  apply wp_bind, wp_any.
  { destruct (descs_facts geo spec nd _ _ _ _ _ _ Hds) as (Hrefs & _). by eapply wp_not_panic, internal_from_children_spec. }
  intros combined Hc. destruct (branch_ready geo spec g generation_ok owner_ok nd m _ _ false _ _ _ _ _ Hds Hc Hol Hm) as (Hr & _ & Hot).
  apply wp_if; intros _.
  - apply wp_ok. eexists _, _, [_]. split; [done|]. split; [cbn; lia|]. split; [by apply one_image|]. split; [cbn; by rewrite app_nil_r|done].
  - destruct (descs_facts geo spec nd _ _ _ _ _ _ Hds) as (Hrefs & _). apply wp_bind.
    eapply wp_mono; [by apply split_internal_spec| |done]. intros [[ln rn] rk] (a & b & Hab & Ha & Hb & Hfk & Hln & b' & Hb' & Hrn).
    rewrite Hab in Hds. apply descs_split in Hds as (k2 & xs' & ys' & xn' & yn' & Hk2 & -> & -> & Hda & Hdb); [|done..].
    rewrite Hfk in Hk2. injection Hk2 as <-. destruct b as [|db b]; [done|]. injection Hb' as <-.
    apply wp_ok. eexists _, _, [xn'; yn']. split; [done|]. split; [done|]. split; [|split; [cbn; by rewrite app_nil_r|done]].
    apply more_images; [by eapply branch_ready|]. apply one_image.
    eapply (branch_ready geo spec g generation_ok owner_ok nd m _ _ false _ (set_min_key None db :: b)); [by eapply descs_first, Hdb|exact Hrn|done|done].
Qed.

Lemma join_pair n lower upper k l r xs ys xn yn bs :
  32 <= bs < 2 ^ 64 -> Z.of_nat n <= MAX_TREE_LEVEL ->
  pending n lower (Some k) l xs xn -> pending n (Some k) upper r ys yn -> above lower k -> below upper k -> xs ++ ys <> [] ->
  wp (rebalance_pair l r bs) (fun outputs => joined n lower upper outputs (xs ++ ys) (xn ++ yn)) any_error.
Proof. destruct n; intros; [by eapply join_leaves|by eapply join_branches]. Qed.
End Source.
End Stored.
