(* ===== verification/CowEdit.v ===== *)
(** * Editing a tree (crates/afsplus-core/src/cow_tree.rs)

    The reference meaning of an edit on the sorted list of items, and the
    edits of a branch: the child a key is routed to, and what replacing that
    child or joining it with a sibling does to the neighbours. *)

From Stdlib Require Import Sorted.
From S2P Require Import Prelude Crc32c Format Header Codec TreeNode Geometry Checkpoint Object Device Core Tree TreeSpec TreeReaders CowTree CowNodes.

(** ** Lists of items *)

Definition keys_below (items : list TreeItem) (key : bytes) : Prop := forall x, x ∈ items -> bytes_ltb (ti_key x) key = true.
Definition keys_above (items : list TreeItem) (key : bytes) : Prop := forall x, x ∈ items -> bytes_ltb key (ti_key x) = true.

Lemma ltb_not_eq a b : bytes_ltb a b = true -> bytes_eqb a b = false.
Proof.
  intros H. destruct (bytes_eqb a b) eqn:He; [|done]. apply bytes_eqb_eq in He as ->.
  pose proof (bytes_leb_refl b) as Hr. apply bytes_ltb_false in Hr. congruence.
Qed.

Lemma ltb_not_gt a b : bytes_ltb a b = true -> bytes_eqb b a = false /\ bytes_ltb b a = false.
Proof.
  intros H. split; [|by apply bytes_ltb_false, bytes_ltb_leb].
  destruct (bytes_eqb b a) eqn:He; [|done]. apply bytes_eqb_eq in He as ->.
  pose proof (bytes_leb_refl a) as Hr. apply bytes_ltb_false in Hr. congruence.
Qed.

Lemma bytes_leb_antisym a b : bytes_leb a b = true -> bytes_leb b a = true -> a = b.
Proof. intros [H| ->]%bytes_leb_lt_eq Hb; [|done]. apply bytes_ltb_false in Hb. congruence. Qed.

Lemma upsert_item_mid key value xs ys zs :
  keys_below xs key -> keys_above zs key -> upsert_item key value (xs ++ ys ++ zs) = xs ++ upsert_item key value ys ++ zs.
Proof.
  intros Hx Hz. induction xs as [|x xs IH]; cbn [app].
  - clear Hx. induction ys as [|y ys IH]; cbn [app upsert_item delete_item].
    + destruct zs as [|z zs]; [done|]. cbn [upsert_item]. destruct (ltb_not_gt _ _ (Hz z ltac:(by left))) as [-> ->]. done.
    + destruct (bytes_eqb _ _); [done|]. destruct (bytes_ltb _ _); [|done]. by rewrite IH.
  - pose proof (Hx x ltac:(by left)) as Hl. cbn [upsert_item delete_item]. rewrite (ltb_not_eq _ _ Hl), Hl. rewrite IH; [done|]. intros y Hy. apply Hx. by right.
Qed.

Lemma delete_item_mid key xs ys zs :
  keys_below xs key -> keys_above zs key ->
  delete_item key (xs ++ ys ++ zs) = option_map (fun ys => xs ++ ys ++ zs) (delete_item key ys).
Proof.
  intros Hx Hz. induction xs as [|x xs IH]; cbn [app].
  - clear Hx. induction ys as [|y ys IH]; cbn [app upsert_item delete_item].
    + induction zs as [|z zs IH]; [done|]. cbn [delete_item]. destruct (ltb_not_gt _ _ (Hz z ltac:(by left))) as [-> _].
      rewrite IH; [done|]. intros y Hy. apply Hz. by right.
    + destruct (bytes_eqb _ _); [done|]. rewrite IH. by destruct (delete_item key ys).
  - pose proof (Hx x ltac:(by left)) as Hl. cbn [upsert_item delete_item]. rewrite (ltb_not_eq _ _ Hl). rewrite IH; [|intros y Hy; apply Hx; by right].
    by destruct (delete_item key ys).
Qed.

Lemma upsert_item_elem key value items x :
  x ∈ upsert_item key value items -> x = {| ti_key := key; ti_value := value |} \/ x ∈ items.
Proof.
  induction items as [|y items IH]; cbn [upsert_item]; [intros ->%list_elem_of_singleton; by left|].
  destruct (bytes_eqb (ti_key y) key) eqn:He; [apply bytes_eqb_eq in He|destruct (bytes_ltb _ _)].
  - rewrite He. intros [->|?]%elem_of_cons; [by left|right; by right].
  - intros [->|[->|?]%IH]%elem_of_cons; [right; by left|by left|right; by right].
  - intros [->|?]%elem_of_cons; [by left|by right].
Qed.

Lemma upsert_item_sorted key value items : sorted items -> sorted (upsert_item key value items).
Proof.
  induction items as [|y items IH]; cbn [upsert_item]; intros Hs; [by repeat constructor|]. apply StronglySorted_inv in Hs as [Hs Hy].
  destruct (bytes_eqb (ti_key y) key) eqn:He; [by constructor|]. destruct (bytes_ltb (ti_key y) key) eqn:Hl.
  - constructor; [by apply IH|]. apply Forall_forall. intros x [->|Hx]%upsert_item_elem; [done|]. rewrite Forall_forall in Hy. by apply Hy.
  - apply bytes_ltb_false in Hl. assert (bytes_ltb key (ti_key y) = true) as Hk.
    { destruct (bytes_ltb key (ti_key y)) eqn:Hk; [done|]. apply bytes_ltb_false in Hk.
      rewrite (bytes_leb_antisym _ _ Hk Hl) in He. by rewrite (proj2 (bytes_eqb_eq _ _)) in He. }
    constructor; [by constructor|]. constructor; [done|]. eapply Forall_impl; [exact Hy|]. intros x Hx. by eapply bytes_ltb_trans.
Qed.

Lemma upsert_item_nonempty key value items : upsert_item key value items <> [].
Proof. destruct items as [|y items]; cbn; [done|]. by repeat case_match. Qed.

Lemma upsert_item_ok key value items :
  item_ok {| ti_key := key; ti_value := value |} -> Forall item_ok items -> Forall item_ok (upsert_item key value items).
Proof.
  intros Hk Hi. rewrite Forall_forall in Hi. apply Forall_forall. intros x [->|Hx]%upsert_item_elem; [done|by apply Hi].
Qed.

Lemma upsert_item_within key value lower upper items :
  above lower key -> below upper key -> within lower upper items -> within lower upper (upsert_item key value items).
Proof.
  intros Hl Hu Hw. unfold within in *. rewrite Forall_forall in Hw. apply Forall_forall. intros x [->|Hx]%upsert_item_elem; [done|by apply Hw].
Qed.

Lemma upsert_item_starts key value lower items :
  above lower key -> items <> [] -> starts_at lower items -> starts_at lower (upsert_item key value items).
Proof.
  intros Hl Hne Hst l first -> Hf. destruct items as [|y items]; [done|]. specialize (Hst l y eq_refl eq_refl). cbn [upsert_item above] in *. subst l.
  destruct (bytes_eqb (ti_key y) key); [by injection Hf as <-|]. destruct (bytes_ltb (ti_key y) key) eqn:Hlt; [by injection Hf as <-|].
  apply bytes_ltb_false in Hlt. injection Hf as <-. cbn. by apply bytes_leb_antisym.
Qed.

Lemma delete_item_sub key items items' : delete_item key items = Some items' -> sublist items' items.
Proof.
  revert items'. induction items as [|y items IH]; intros items'; cbn [delete_item]; [done|]. destruct (bytes_eqb _ _).
  - intros [= <-]. by constructor.
  - destruct (delete_item key items) as [l|]; [|done]. intros [= <-]. constructor. by apply IH.
Qed.

Lemma sublist_all {X} (Q : X -> Prop) l k : sublist l k -> Forall Q k -> Forall Q l.
Proof. induction 1 as [|x l k ? IH|x l k ? IH]; [done| |]; intros [? ?]%Forall_cons; [constructor; [done|]|]; by apply IH. Qed.

Lemma sublist_sorted (l k : list TreeItem) : sublist l k -> sorted k -> sorted l.
Proof.
  induction 1 as [|x l k Hsub IH|x l k Hsub IH]; intros Hs; [done| |]; apply StronglySorted_inv in Hs as [Hs Hx]; [|by apply IH].
  constructor; [by apply IH|]. by eapply sublist_all.
Qed.

Lemma sublist_zlen {X} (l k : list X) : sublist l k -> zlen l <= zlen k.
Proof. intros H%sublist_length. unfold zlen. lia. Qed.

(** ** The child of a key *)

(** The descriptor at a position, as [child_at] and [child_range] see it. *)
Lemma child_at_spec node a c b :
  descs_of node (a ++ c :: b) ->
  exists c', child_at node (length a) = Ok c' /\ ch_reference c' = ch_reference c /\
    ch_min_key c' = (match a with [] => None | _ => ch_min_key c end).
Proof.
  intros H. destruct a as [|d a]; cbn in H |- *; destruct H as [Hd HF]; [by exists (leftmost_desc node)|].
  apply Forall2_app_inv_l in HF as (i1 & i2 & HF1 & HF2 & Hi). apply Forall2_cons_inv_l in HF2 as (item & i3 & [Hk Hr] & _ & ->).
  rewrite Hi, list_lookup_middle by (by apply Forall2_length in HF1). unfold item_desc. rewrite Hr. cbn. by eexists.
Qed.

Lemma items_at node a c b : descs_of node (a ++ c :: b) -> tn_items node !! length a = match b with [] => None | _ => tn_items node !! length a end.
Proof.
  intros H. destruct b; [|done]. apply lookup_ge_None. destruct a as [|d a]; cbn in H; destruct H as [_ HF]; apply Forall2_length in HF;
    rewrite ?length_app in HF; cbn in *; lia.
Qed.

Lemma child_range_spec {E} node a c b lower upper :
  descs_of node (a ++ c :: b) -> child_range (E := E) node (length a) lower upper = Ok (run_lower lower a [c], run_upper upper b).
Proof.
  intros H. unfold child_range. assert (bound (tn_items node !! length a) upper = run_upper upper b) as ->.
  { destruct b as [|c2 b]; [by rewrite (items_at node a c []) by done|].
    assert (exists pre item post, tn_items node = pre ++ item :: post /\ length pre = length a /\ child_item c2 item) as (pre & item & post & Hi & Hl & [Hk _]).
    { destruct a as [|d a]; cbn in H; destruct H as [_ HF]; [apply Forall2_cons_inv_l in HF as (item & post & Hc & _ & Hi); by exists [], item, post|].
      apply Forall2_app_inv_l in HF as (i1 & i2 & HF1 & HF2 & Hi). apply Forall2_cons_inv_l in HF2 as (item & i3 & _ & HF2 & ->).
      apply Forall2_cons_inv_l in HF2 as (item2 & post & Hc & _ & ->). exists (i1 ++ [item]), item2, post.
      rewrite <- app_assoc, length_app. apply Forall2_length in HF1. cbn. split; [done|]. split; [lia|done]. }
    rewrite Hi, list_lookup_middle by done. cbn. by rewrite Hk. }
  destruct a as [|d a]; [done|]. cbn in H |- *. destruct H as [_ HF].
  apply Forall2_app_inv_l in HF as (i1 & i2 & HF1 & HF2 & Hi). apply Forall2_cons_inv_l in HF2 as (item & i3 & [Hk Hr] & _ & ->).
  rewrite Hi, list_lookup_middle by (by apply Forall2_length in HF1). cbn. by rewrite Hk.
Qed.

Lemma partition_split {X} (p : X -> bool) l :
  l = take (partition_point p l) l ++ drop (partition_point p l) l /\ Forall (fun x => p x = true) (take (partition_point p l) l) /\
  forall x, hd_error (drop (partition_point p l) l) = Some x -> p x = false.
Proof.
  split; [by rewrite take_drop|]. induction l as [|y l [IH1 IH2]]; cbn; [by split|]. destruct (p y) eqn:Hp; cbn; [by split; [constructor|]|].
  split; [constructor|]. by intros x [= <-].
Qed.

(** The child a key is routed to: its minimum is not above the key, the next one's is. *)
Lemma route_descs node ds key :
  descs_of node ds ->
  exists a c b, ds = a ++ c :: b /\ length a = child_index node key /\
    (a <> [] -> exists k, ch_min_key c = Some k /\ bytes_leb k key = true) /\
    (b <> [] -> exists k, first_key b = Some k /\ bytes_ltb key k = true).
Proof.
  destruct ds as [|d tl]; [done|]. intros [_ HF]. unfold child_index. set (p := fun item => bytes_leb (ti_key item) key).
  destruct (partition_split p (tn_items node)) as (Hi & Ht & Hd). set (i := partition_point p (tn_items node)) in *.
  assert (length (take i (tn_items node)) = i) as Hlen by (rewrite length_take; pose proof (partition_point_le p (tn_items node)); lia).
  rewrite Hi in HF. apply Forall2_app_inv_r in HF as (t1 & t2 & HF1 & HF2 & ->).
  assert (t2 <> [] -> exists k, first_key t2 = Some k /\ bytes_ltb key k = true) as Hb.
  { intros Hne. destruct HF2 as [|c item t2 its [Hk _] HF2]; [done|]. exists (ti_key item). split; [done|].
    apply bytes_leb_false. by apply Hd. }
  destruct t1 as [|c t1 _] using rev_ind.
  - apply Forall2_length in HF1. exists [], d, t2. split; [done|]. cbn in *. split; [lia|]. done.
  - apply Forall2_app_inv_l in HF1 as (j1 & j2 & HF1 & HFc & Hj). apply Forall2_cons_inv_l in HFc as (item & j3 & [Hk _] & HFn & ->).
    apply Forall2_nil_inv_l in HFn as ->. exists (d :: t1), c, t2. split; [by rewrite <- app_assoc|].
    rewrite Hj in Hlen, Ht. apply Forall2_length in HF1. rewrite length_app in Hlen. cbn in *. split; [lia|]. split; [|done].
    intros _. exists (ti_key item). split; [done|]. apply Forall_app in Ht as [_ Ht]. by apply Forall_cons in Ht as [? _].
Qed.

Lemma splice_spec {E X} (a m b new : list X) i j :
  length a = i -> length m = (S j - i)%nat -> m <> [] -> splice (E := E) (a ++ m ++ b) i j new = Ok (a ++ new ++ b).
Proof.
  intros <- Hm Hne. unfold splice. assert (length m <> 0)%nat by (by destruct m).
  rewrite (bool_decide_eq_true_2 _) by (rewrite !length_app; lia). rewrite (bool_decide_eq_true_2 _) by lia. cbn.
  rewrite take_app_length. replace (S j) with (length (a ++ m)) by (rewrite length_app; lia). by rewrite (app_assoc a m b), drop_app_length.
Qed.

Section Edits.
Context (geo : Geometry) {WF : WfGeometry geo} (spec : TreeSpec) (g : Z).
Hypothesis generation_ok : u64 g /\ 0 < g <= ts_max_generation spec.
Hypothesis owner_ok : u64 (ts_owner spec).
Context (nd : Z -> result (TreeNode * Z)) {valid : ValidNodes nd}.

Lemma run_within n lower upper ds items nodes : run_at geo spec nd n lower upper ds items nodes -> within lower upper items.
Proof. destruct ds; [intros [-> _]; constructor|]. by intros (_ & _ & ? & _)%descs_facts. Qed.

(** Everything but the routed child lies away from the key. *)
Lemma focus_key n lower upper a c b items nodes key :
  descs_at geo spec nd n lower upper (a ++ c :: b) items nodes ->
  (a <> [] -> exists k, ch_min_key c = Some k /\ bytes_leb k key = true) ->
  (b <> [] -> exists k, first_key b = Some k /\ bytes_ltb key k = true) -> above lower key -> below upper key ->
  exists xs ys zs xn yn zn, items = xs ++ ys ++ zs /\ nodes = xn ++ yn ++ zn /\
    run_at geo spec nd n lower (run_lower lower a [c]) a xs xn /\
    desc_tree geo spec nd n (run_lower lower a [c]) (run_upper upper b) c ys yn /\
    run_at geo spec nd n (run_upper upper b) upper b zs zn /\
    keys_below xs key /\ keys_above zs key /\ above (run_lower lower a [c]) key /\ below (run_upper upper b) key.
Proof.
  intros H Ha Hb Hl Hu. destruct (descs_focus geo spec nd n lower upper a [c] b items nodes H) as (xs & ys & zs & xn & yn & zn & -> & -> & Hxs & Hys & Hzs & _); [done|].
  exists xs, ys, zs, xn, yn, zn. do 2 (split; [done|]). split; [done|]. split; [by inversion Hys|]. split; [done|].
  pose proof (run_within _ _ _ _ _ _ Hxs) as Hwx. pose proof (run_within _ _ _ _ _ _ Hzs) as Hwz. unfold within in *.
  rewrite Forall_forall in Hwx, Hwz. split; [|split; [|split]].
  - intros x Hx. destruct a as [|d a]; [destruct Hxs as [-> _]; by apply not_elem_of_nil in Hx|]. destruct (Ha ltac:(done)) as (k & Hk & Hle).
    destruct (Hwx x Hx) as [_ Hx']. cbn in Hx'. rewrite Hk in Hx'. by eapply bytes_ltb_leb_trans.
  - intros x Hx. destruct b as [|d b]; [destruct Hzs as [-> _]; by apply not_elem_of_nil in Hx|]. destruct (Hb ltac:(done)) as (k & Hk & Hlt).
    destruct (Hwz x Hx) as [Hx' _]. cbn [run_upper] in Hx'. rewrite Hk in Hx'. by eapply bytes_ltb_leb_trans.
  - destruct a as [|d a]; [done|]. destruct (Ha ltac:(done)) as (k & Hk & Hle). cbn. by rewrite Hk.
  - destruct b as [|d b]; [done|]. destruct (Hb ltac:(done)) as (k & Hk & Hlt). cbn [run_upper]. by rewrite Hk.
Qed.

(** One child for another. *)
Lemma replace_child_spec m lower upper is_root node a c s b items kids :
  descs_of node (a ++ c :: b) -> tn_items node <> [] -> of_tree spec (S m) node -> Z.of_nat (S m) <= MAX_TREE_LEVEL ->
  tn_subtree_items node = total_of (a ++ c :: b) ->
  descs_at geo spec nd m lower upper (a ++ s :: b) items kids ->
  wp (replace_child node (length a) s (cr_subtree_items (ch_reference c)))
    (fun node' => ready geo spec g nd (S m) lower upper is_root node' items kids /\ descs_of node' (a ++ s :: b) /\ of_tree spec (S m) node') any_error.
Proof.
  intros Hof Hne Hot Hm Htot Hds. destruct (descs_facts geo spec nd _ _ _ _ _ _ Hds) as (Hrefs & _).
  assert (forall x, total_of (a ++ x :: b) = total_of a + cr_subtree_items (ch_reference x) + total_of b) as Hsum.
  { intros x. clear. induction a as [|d a IH]; [done|]. cbn [app]. rewrite !total_cons, IH. lia. }
  unfold replace_child. apply wp_bind. destruct a as [|d a].
  - apply wp_ok. destruct Hof as [Hc HF]. cbn [length]. apply wp_bind, wp_ok_or; [|done]. intros total Ht. apply wp_ok. cbn [app] in *.
    assert (total = total_of (s :: b) /\ total < 2 ^ 64) as [-> Hlt].
    { unfold checked_sub, checked_add in Ht. rewrite !total_cons in *. destruct (_ <=? _); [|done]. destruct (_ <? _) eqn:Hb; [|done]. injection Ht as <-. lia. }
    apply (built_ready geo spec g generation_ok owner_ok nd); try done. intros ->. by apply Forall2_nil_inv_l in HF.
  - cbn [length]. destruct (ch_min_key s) as [k|] eqn:Hk; [|done]. cbn [ok_or obind].
    destruct Hof as [Hd HF]. apply Forall2_app_inv_l in HF as (i1 & i2 & HF1 & HF2 & Hi).
    apply Forall2_cons_inv_l in HF2 as (item & i3 & _ & HF3 & ->).
    apply wp_if; [done|]. intros _. rewrite Forall_app in Hrefs. destruct Hrefs as [Hrd Hrs]. apply Forall_cons in Hrs as [Hrs _].
    destruct (child_value_ok _ Hrs) as (v & Hv & _). rewrite Hv. cbn [of_format obind]. destruct Hrs as (Hsu & _ & Hss).
    pose proof (child_ref_child_value _ _ Hsu ltac:(unfold u64; lia) Hv k) as Hcr. apply wp_ok, wp_bind, wp_ok_or; [|done]. intros total Ht. apply wp_ok.
    assert (<[length a:={| ti_key := k; ti_value := v |}]> (tn_items node) = i1 ++ {| ti_key := k; ti_value := v |} :: i3) as ->.
    { rewrite Hi. apply Forall2_length in HF1. rewrite HF1. replace (length i1) with (length i1 + 0)%nat by lia. by rewrite insert_app_r. }
    assert (total = total_of (d :: (a ++ s :: b)) /\ total < 2 ^ 64) as [-> Hlt].
    { unfold checked_sub, checked_add in Ht. pose proof (Hsum c) as Hc. pose proof (Hsum s) as Hs'. cbn [app] in *.
      destruct (_ <=? _); [|done]. destruct (_ <? _) eqn:Hb; [|done]. injection Ht as <-. lia. }
    replace (tn_leftmost_child node) with (cr_lba (ch_reference d)) by (by rewrite Hd).
    replace (tn_leftmost_items node) with (cr_subtree_items (ch_reference d)) by (by rewrite Hd).
    apply (built_ready geo spec g generation_ok owner_ok nd); try done; [|by destruct a].
    apply Forall2_app; [done|]. by constructor.
Qed.
End Edits.
