(* ===== verification/CowMutate.v ===== *)
(** * The copy-on-write tree is the edited tree (crates/afsplus-core/src/cow_tree.rs)

    Insertion, deletion and whole batches against the reference meaning of an
    edit on the sorted list of items.  Blocks are accounted for throughout: a
    committed block that leaves the tree is quarantined, a block of the
    transaction that leaves it is released, and every image that is written
    belongs to the tree that results. *)

From Stdlib Require Import Sorted.
From S2P Require Import Prelude Crc32c Format Header Codec TreeNode Geometry Checkpoint Object Device Core Tree TreeSpec TreeReaders CowTree CowStore CowNodes CowEdit.

(** ** Steps of the store *)

Section Steps.
Context (P : Z -> Prop).

(** A block the overlay and the committed state leave alone. *)
Definition fresh (ov : gmap Z TreeNode) (x : Z) : Prop := ov !! x = None /\ ~ P x.

Definition placed (ov : gmap Z TreeNode) (s : gset Z) : Prop := forall x, x ∈ s -> is_Some (ov !! x) \/ P x.

(** The nodes in [s] become the nodes in [s']: only those and fresh blocks
    change, what leaves is quarantined where it was committed, and nothing
    else stays staged. *)
Record step (ov : gmap Z TreeNode) (q s : gset Z) (ov' : gmap Z TreeNode) (q' s' : gset Z) : Prop := {
  step_ov x : x ∉ s -> ~ fresh ov x -> ov' !! x = ov !! x;
  step_new x : x ∈ s' -> x ∈ s \/ fresh ov x;
  step_placed : placed ov' s';
  step_q x : x ∈ q' <-> x ∈ q \/ (x ∈ s /\ P x /\ x ∉ s');
  step_live x : is_Some (ov' !! x) -> x ∈ s' \/ ((x ∉ s) /\ is_Some (ov !! x));
}.

Lemma step_refl ov q s : placed ov s -> step ov q s ov q s.
Proof.
  intros Hp. split; [done|tauto|done|tauto|]. intros x Hx. destruct (decide (x ∈ s)); tauto.
Qed.

Lemma not_fresh ov x : is_Some (ov !! x) \/ P x -> ~ fresh ov x.
Proof. intros [[node H]|H] [Hn Hp]; [congruence|done]. Qed.

Lemma step_unfresh ov q s ov' q' s' x : step ov q s ov' q' s' -> fresh ov' x -> x ∈ s \/ fresh ov x.
Proof.
  intros H [Hn Hp]. destruct (decide (x ∈ s)); [by left|]. right. split; [|done].
  destruct (ov !! x) as [node|] eqn:He; [|done]. rewrite (step_ov _ _ _ _ _ _ H) in Hn; [congruence|done|].
  intros [? _]. congruence.
Qed.

Lemma step_trans ov q s ov1 q1 s1 ov2 q2 s2 : step ov q s ov1 q1 s1 -> step ov1 q1 s1 ov2 q2 s2 -> step ov q s ov2 q2 s2.
Proof.
  intros H1 H2. split.
  - intros x Hx Hf. pose proof (step_ov _ _ _ _ _ _ H1 x Hx Hf) as He. rewrite <- He. apply (step_ov _ _ _ _ _ _ H2).
    + intros [?|?]%(step_new _ _ _ _ _ _ H1); done.
    + intros [Hn Hp]. apply Hf. split; [congruence|done].
  - intros x [Hx|Hx]%(step_new _ _ _ _ _ _ H2); [by apply (step_new _ _ _ _ _ _ H1)|by eapply step_unfresh].
  - apply H2.
  - intros x. rewrite (step_q _ _ _ _ _ _ H2), (step_q _ _ _ _ _ _ H1). split.
    + intros [[?|(Hs & Hp & Hn)]|(Hs & Hp & Hn)]; [by left| |].
      * right. split; [done|]. split; [done|]. intros [?|[_ ?]]%(step_new _ _ _ _ _ _ H2); done.
      * right. split; [|done]. apply (step_new _ _ _ _ _ _ H1) in Hs as [?|[_ ?]]; done.
    + intros [?|(Hs & Hp & Hn)]; [by left; left|]. destruct (decide (x ∈ s1)); [right; done|left; right; done].
  - intros x [?|(Hn & Hx)]%(step_live _ _ _ _ _ _ H2); [by left|].
    apply (step_live _ _ _ _ _ _ H1) in Hx as [?|?]; [done|by right].
Qed.

(** A step leaves the other nodes of the tree where they are. *)
Lemma step_frame ov q s ov' q' s' r :
  step ov q s ov' q' s' -> r ## s -> placed ov r -> step ov q (r ∪ s) ov' q' (r ∪ s').
Proof.
  intros H Hd Hp. assert (forall x, x ∈ r -> ov' !! x = ov !! x) as Hr.
  { intros x Hx. apply (step_ov _ _ _ _ _ _ H); [by eauto|by apply not_fresh, Hp]. }
  split.
  - intros x Hx. rewrite elem_of_union in Hx. apply (step_ov _ _ _ _ _ _ H). tauto.
  - intros x [?|Hx]%elem_of_union; [left; apply elem_of_union; by left|].
    apply (step_new _ _ _ _ _ _ H) in Hx as [?|?]; [left; apply elem_of_union; by right|by right].
  - intros x [Hx|Hx]%elem_of_union; [rewrite Hr by done; by apply Hp|by apply (step_placed _ _ _ _ _ _ H)].
  - intros x. rewrite (step_q _ _ _ _ _ _ H), !elem_of_union. specialize (Hd x). tauto.
  - intros x Hx. rewrite !elem_of_union. destruct (decide (x ∈ r)); [by left; left|].
    apply (step_live _ _ _ _ _ _ H) in Hx as [?|?]; tauto.
Qed.

Lemma step_apart ov q s ov' q' s' r : step ov q s ov' q' s' -> r ## s -> placed ov r -> r ## s'.
Proof.
  intros H Hd Hp x Hr Hs. apply (step_new _ _ _ _ _ _ H) in Hs as [?|Hf]; [by apply (Hd x)|]. by apply (not_fresh ov x); [apply Hp|].
Qed.

Lemma step_still_placed ov q s ov' q' s' r : step ov q s ov' q' s' -> r ## s -> placed ov r -> placed ov' r.
Proof.
  intros H Hd Hp x Hx. rewrite (step_ov _ _ _ _ _ _ H); [by apply Hp|by eauto|by apply not_fresh, Hp].
Qed.

Lemma placed_union ov a b : placed ov (a ∪ b) <-> placed ov a /\ placed ov b.
Proof.
  split; [intros H; split; intros x Hx; apply H, elem_of_union; tauto|]. intros [Ha Hb] x [?|?]%elem_of_union; [by apply Ha|by apply Hb].
Qed.
End Steps.

(** The overlay after a list of images is stored. *)
Fixpoint staged_map (ov : gmap Z TreeNode) (images : list NodeImage) (lbas : list Z) : gmap Z TreeNode :=
  match images, lbas with
  | image :: images, lba :: lbas => staged_map (<[lba := fst image]> ov) images lbas
  | _, _ => ov
  end.

Lemma staged_map_other images lbas : forall ov x, x ∉ lbas -> staged_map ov images lbas !! x = ov !! x.
Proof.
  revert lbas. induction images as [|image images IH]; intros [|lba lbas] ov x Hx; try done. cbn.
  apply not_elem_of_cons in Hx as [? ?]. rewrite IH by done. by rewrite lookup_insert_ne.
Qed.

Lemma staged_map_at images lbas : forall ov, NoDup lbas -> length lbas = length images ->
  Forall2 (fun image lba => staged_map ov images lbas !! lba = Some (fst image)) images lbas.
Proof.
  revert lbas. induction images as [|image images IH]; intros [|lba lbas] ov Hd Hl; try done. apply NoDup_cons in Hd as [Hn Hd].
  constructor; [|apply IH; [done|cbn in *; lia]]. cbn. rewrite staged_map_other by done. apply lookup_insert_eq.
Qed.

(** Sources make room for images. *)
Lemma step_place P ov ov1 q q' s images lbas :
  length lbas = length images -> NoDup lbas -> placed P ov s -> (forall x, is_Some (ov !! x) -> ~ P x) ->
  (forall x, x ∈ lbas -> (x ∈ s /\ is_Some (ov !! x)) \/ fresh P ov x) ->
  (forall x, x ∉ s -> ov1 !! x = ov !! x) -> (forall x, x ∈ s -> is_Some (ov1 !! x) -> x ∈ lbas) ->
  (forall x, x ∈ q' <-> x ∈ q \/ (x ∈ s /\ ov !! x = None)) ->
  step P ov q s (staged_map ov1 images lbas) q' (list_to_set lbas).
Proof.
  intros Hl Hd Hp Hdis Hlb Hov Hdel Hq. split.
  - intros x Hx Hf. rewrite staged_map_other; [by apply Hov|]. intros [[? _]|?]%Hlb; done.
  - intros x [[? _]|?]%elem_of_list_to_set%Hlb; [by left|by right].
  - intros x (i & Hi)%elem_of_list_to_set%list_elem_of_lookup.
    destruct (Forall2_lookup_r _ _ _ _ _ (staged_map_at images lbas ov1 Hd Hl) Hi) as (image & _ & ->). by left.
  - intros x. rewrite Hq, elem_of_list_to_set. split; (intros [?|Hx]; [by left|right]).
    + destruct Hx as [Hs Hn]. split; [done|]. destruct (Hp x Hs) as [[? ?]|HP]; [congruence|]. split; [done|].
      intros [[_ [? ?]]|[_ ?]]%Hlb; [congruence|done].
    + destruct Hx as (Hs & HP & _). split; [done|]. destruct (ov !! x) eqn:He; [|done]. by destruct (Hdis x).
  - intros x Hx. destruct (decide (x ∈ lbas)); [left; by apply elem_of_list_to_set|]. rewrite staged_map_other in Hx by done.
    right. assert (x ∉ s) as Hs by (intros Hs; by apply Hdel in Hx). split; [done|]. by rewrite <- Hov.
Qed.

(** Sources that leave nothing behind. *)
Lemma step_drop P ov ov1 q q' s :
  placed P ov s -> (forall x, is_Some (ov !! x) -> ~ P x) -> (forall x, x ∉ s -> ov1 !! x = ov !! x) ->
  (forall x, x ∈ s -> ov1 !! x = None) -> (forall x, x ∈ q' <-> x ∈ q \/ (x ∈ s /\ ov !! x = None)) -> step P ov q s ov1 q' ∅.
Proof.
  intros Hp Hdis Hov Hdel Hq. pose proof (step_place P ov ov1 q q' s [] []) as H. cbn in H. apply H; [done|apply NoDup_nil_2|done|done| |done| |done].
  - by intros x ?%not_elem_of_nil.
  - intros x Hx Hs. rewrite Hdel in Hs by done. by destruct Hs.
Qed.

(** ** Storing nodes *)

Section Mutate.
Context {D A : Type} {device : BlockDevice Decoded D} {contract : DeviceContract Decoded D core_decodes}.
Context {allocator : TreeAllocator D A} (geo : Geometry) {WF : WfGeometry geo}.
Context {alloc_contract : AllocatorContract D A geo}.
Context (spec : TreeSpec) (new_generation cache_pages decoded_limit : Z).
Hypothesis generation_typed : u64 new_generation.
Hypothesis generation_newer : 0 <= ts_max_generation spec < new_generation.
Hypothesis owner_typed : u64 (ts_owner spec).
Hypothesis limit_nonneg : 0 <= decoded_limit.
Hypothesis pages_nonneg : 0 <= cache_pages.
Context (d0 : D) (P : Z -> Prop).

Abbreviation ctx := (MutationContext D A).
Abbreviation act := (io ctx CoreError).
Abbreviation Inv := (Inv geo new_generation decoded_limit d0 P).
Abbreviation overlay := (overlay new_generation d0).
Abbreviation failed := (failed d0 P).
Abbreviation step := (step P).
Abbreviation placed := (placed P).

(** The tree may hold nodes of the new generation. *)
Definition grown : TreeSpec :=
  {| ts_kind := ts_kind spec; ts_owner := ts_owner spec; ts_max_generation := new_generation |}.

Lemma grown_generation : u64 new_generation /\ 0 < new_generation <= ts_max_generation grown.
Proof. cbn. split; [done|lia]. Qed.

(** The store between two operations: the overlay, and the quarantined blocks. *)
Definition store (H : gset Z) (ov : gmap Z TreeNode) (q : gset Z) (c : ctx) : Prop :=
  Inv H ov c /\ quarantined (mc_tx c) = q.

Lemma store_valid H ov q c : store H ov q c -> ValidNodes (overlay ov).
Proof. intros [HI _]. apply overlay_valid. apply HI. Qed.

Lemma store_staged H ov q c x : store H ov q c -> is_Some (ov !! x) -> ~ P x.
Proof.
  intros [HI _] Hx. rewrite <- (inv_committed _ _ _ _ _ _ _ _ HI).
  by apply (owned_free (mc_dev c) (mc_tx c) x), (inv_owned _ _ _ _ _ _ _ _ HI); [apply HI|].
Qed.

Lemma store_same H ov q c c' : store H ov q c -> mc_tx c' = mc_tx c -> Inv H ov c' -> store H ov q c'.
Proof. intros [_ Hq] He HI. split; [done|]. by rewrite He. Qed.

Lemma step_overlay ov q s ov' q' s' x : step ov q s ov' q' s' -> x ∉ s -> is_Some (ov !! x) \/ P x -> overlay ov' x = overlay ov x.
Proof. intros H Hx Hp. unfold CowStore.overlay. by rewrite (step_ov _ _ _ _ _ _ _ H) by (done || by apply not_fresh). Qed.

Lemma wpi_stage_all images : forall lbas children ov q c,
  store (list_to_set lbas) ov q c -> NoDup lbas -> (forall x, x ∈ lbas -> x ∈ owned (mc_tx c)) ->
  length lbas = length images -> Forall (fun image => valid_node (fst image) new_generation) images ->
  wpi (stage_all geo new_generation cache_pages decoded_limit images lbas children) c
    (fun r c' => store ∅ (staged_map ov images lbas) q c' /\ r = children ++ zip_with image_desc images lbas /\ mc_tx c' = mc_tx c) failed.
Proof.
  induction images as [|[node min] images IH]; intros [|lba lbas] children ov q c [HI Hq] Hd Ho Hl Hv; try done.
  { apply wpi_ret. cbn. rewrite app_nil_r. done. }
  apply NoDup_cons in Hd as [Hn Hd]. apply Forall_cons in Hv as [Hv1 Hv]. cbn [stage_all staged_map zip_with list_to_set] in *.
  apply wpi_bind. eapply wpi_mono; [apply (wpi_stage_node geo new_generation cache_pages decoded_limit limit_nonneg d0 P pages_nonneg (list_to_set lbas) ov c lba node)| |done];
    [exact HI|apply Ho; by left|done|]. intros _ c' [HI' Ht]. eapply wpi_mono; [apply (IH lbas _ (<[lba := node]> ov) q)| |done].
  - split; [done|by rewrite Ht].
  - done.
  - intros x Hx. rewrite Ht. apply Ho. by right.
  - cbn in Hl. lia.
  - done.
  - intros r c'' (Hs & -> & Ht'). split; [done|]. split; [|congruence]. by rewrite <- app_assoc.
Qed.

Lemma wpi_allocate_blocks n : forall lbas H ov q c,
  store H ov q c -> NoDup lbas -> (forall x, x ∈ lbas -> x ∈ owned (mc_tx c)) ->
  wpi (allocate_blocks geo new_generation n lbas) c
    (fun r c' => store H ov q c' /\ NoDup r /\ (forall x, x ∈ r -> x ∈ owned (mc_tx c')) /\
                 exists new, r = lbas ++ new /\ length new = n /\ forall x, x ∈ new -> fresh P ov x) failed.
Proof.
  induction n as [|n IH]; intros lbas H ov q c [HI Hq] Hd Ho; cbn [allocate_blocks].
  { apply wpi_ret. split; [done|]. split; [done|]. split; [done|]. exists []. rewrite app_nil_r. split; [done|]. split; [done|].
    by intros x ?%not_elem_of_nil. }
  apply wpi_bind. eapply wpi_mono; [apply (wpi_allocate_block geo new_generation decoded_limit d0 P H ov c (owned (mc_tx c)) q)| |done]; [done|done|].
  intros lba c' (HI' & [Ho' Hq'] & Hn & Hov). apply wpi_bind.
  eapply (wpi_tally geo new_generation decoded_limit d0 P); [exact HI'|]. intros c1 HI1 Ht1.
  eapply wpi_mono; [apply (IH (lbas ++ [lba]) H ov q)| |done].
  - split; [done|by rewrite Ht1].
  - apply NoDup_app. split; [done|]. split; [|apply NoDup_singleton]. intros x Hx ->%list_elem_of_singleton. by apply Hn, Ho.
  - intros x [Hx| ->%list_elem_of_singleton]%elem_of_app; rewrite Ht1, Ho'; apply elem_of_union; [right; by apply Ho|left; by apply elem_of_singleton].
  - intros r c2 (Hs & Hdr & Hor & new & -> & Hlen & Hf). split; [done|]. split; [done|]. split; [done|]. exists (lba :: new).
    rewrite <- app_assoc. split; [done|]. split; [by cbn; f_equal|]. intros x [->|Hx]%elem_of_cons; [|by apply Hf].
    split; [done|]. rewrite <- (inv_committed _ _ _ _ _ _ _ _ HI1).
    apply (owned_free (mc_dev c1) (mc_tx c1) lba); [apply HI1|]. rewrite Ht1, Ho'. apply elem_of_union. left. by apply elem_of_singleton.
Qed.

(** The blocks of a list of nodes. *)
Definition blocks (nodes : list (Z * TreeNode)) : gset Z := list_to_set nodes.*1.

Lemma blocks_app a b : blocks (a ++ b) = blocks a ∪ blocks b.
Proof. unfold blocks. rewrite fmap_app. apply leibniz_equiv, list_to_set_app. Qed.

Lemma elem_of_blocks x nodes : x ∈ blocks nodes <-> exists node, (x, node) ∈ nodes.
Proof.
  unfold blocks. rewrite elem_of_list_to_set, list_elem_of_fmap. split.
  - intros ([y node] & -> & Hy). by exists node.
  - intros (node & H). by exists (x, node).
Qed.

Lemma stored_blocks images lbas kids : length lbas = length images -> length kids = length images ->
  blocks (stored_nodes images lbas kids) = list_to_set lbas ∪ blocks (concat kids).
Proof.
  revert lbas kids. induction images as [|image images IH]; intros [|lba lbas] [|k kids] Hl Hk; try done.
  cbn [stored_nodes concat list_to_set]. rewrite !blocks_app, IH by (cbn in *; lia). cbn [app]. unfold blocks at 1. cbn. fold (blocks k).
  apply set_eq. intros x. rewrite !elem_of_union. tauto.
Qed.

(** What replacing the nodes in [s] by neighbouring subtrees establishes. *)
Definition replaced (n : nat) (lower upper : option bytes) (items : list TreeItem) (ov : gmap Z TreeNode) (q s : gset Z)
    (ds : list ChildDesc) (c : ctx) : Prop :=
  exists ov' q' nodes, store ∅ ov' q' c /\ descs_at geo grown (overlay ov') n lower upper ds items nodes /\
    step ov q s ov' q' (blocks nodes).

Lemma images_valid nd n lower upper images items kids : images_at geo grown new_generation nd n lower upper images items kids ->
  Forall (fun image => valid_node (fst image) new_generation) images /\ length kids = length images /\
  Forall (fun image => tn_level (fst image) = Z.of_nat n) images.
Proof.
  induction 1 as [lower upper node min items kids H|lower upper node min node2 images k xs xn ys yn H Hrest (IH & IHl & IHn)].
  - destruct H as (? & (_ & _ & ?) & _). split; [by apply Forall_singleton|]. split; [done|by apply Forall_singleton].
  - destruct H as (? & (_ & _ & ?) & _). split; [by constructor|]. split; [cbn in *; lia|by constructor].
Qed.

(** Images at blocks of their own, in the place of the nodes in [s]. *)
Definition stored (ov : gmap Z TreeNode) (q s : gset Z) (images : list NodeImage) (ds : list ChildDesc) (c : ctx) : Prop :=
  exists lbas ov' q', store ∅ ov' q' c /\ length lbas = length images /\ ds = zip_with image_desc images lbas /\
    step ov q s ov' q' (list_to_set lbas) /\ Forall2 (fun image lba => ov' !! lba = Some (fst image)) images lbas /\
    Forall (fun lba => u64 lba /\ check_tree_lba geo lba = Ok tt) lbas.

Lemma wpi_store_images images lbas ov ov1 q q' s c :
  Forall (fun image => valid_node (fst image) new_generation) images ->
  store (list_to_set lbas) ov1 q' c -> NoDup lbas -> (forall x, x ∈ lbas -> x ∈ owned (mc_tx c)) -> length lbas = length images ->
  step ov q s (staged_map ov1 images lbas) q' (list_to_set lbas) ->
  wpi (stage_all geo new_generation cache_pages decoded_limit images lbas []) c (stored ov q s images) failed.
Proof.
  intros Hv Hst Hd Ho Hl Hstep. eapply wpi_mono; [by apply (wpi_stage_all images lbas [] ov1 q' c)| |done]. intros ds c' (Hst' & -> & Ht).
  exists lbas, (staged_map ov1 images lbas), q'. do 4 (split; [done|]). split; [by apply staged_map_at|].
  apply Forall_forall. intros x Hx. destruct Hst as [HI _]. destruct (owned_free (mc_dev c) (mc_tx c) x) as (_ & ? & ?); [apply HI|by apply Ho|done].
Qed.

Lemma image_mins images lbas : length lbas = length images -> map ch_min_key (zip_with image_desc images lbas) = map snd images.
Proof.
  revert lbas. induction images as [|image images IH]; intros [|lba lbas] Hl; try done. cbn. f_equal. apply IH. cbn in Hl. lia.
Qed.

(** Below stored images nothing moves. *)
Lemma stored_replaced n lower upper images items kids ov q s ds c :
  images_at geo grown new_generation (overlay ov) n lower upper images items kids ->
  s ## blocks (concat kids) -> placed ov (blocks (concat kids)) -> stored ov q s images ds c ->
  replaced n lower upper items ov q (s ∪ blocks (concat kids)) ds c /\ map ch_min_key ds = map snd images.
Proof.
  intros Him Hdis Hpl (lbas & ov' & q' & Hst & Hl & -> & Hstep & Hat & Hok). destruct (images_valid _ _ _ _ _ _ _ Him) as (_ & Hk & _).
  split; [|by apply image_mins]. exists ov', q', (stored_nodes images lbas kids). split; [done|]. split.
  - eapply (images_stored geo grown new_generation grown_generation); [exact Him|done|done| |].
    + eapply Forall2_impl; [exact Hat|]. intros image lba Hl'. unfold CowStore.overlay. by rewrite Hl'.
    + intros p Hp. assert (fst p ∈ blocks (concat kids)) as Hb by (apply elem_of_blocks; exists (snd p); by destruct p).
      eapply step_overlay; [exact Hstep|intros Hs; by apply (Hdis (fst p))|by apply Hpl].
  - rewrite stored_blocks by done. rewrite (union_comm_L s), (union_comm_L (list_to_set lbas)). apply step_frame; [done| |done].
    intros x Hx Hs. by apply (Hdis x).
Qed.

Lemma store_failed H ov q c : store H ov q c -> forall e, failed e c.
Proof. intros [HI _] e. apply HI. Qed.

Lemma wpi_count H ov q c f Q : store H ov q c ->
  (forall c', store H ov q c' -> mc_tx c' = mc_tx c -> Q tt c') -> wpi (tally f) c Q failed.
Proof.
  intros [HI Hq] HQ. eapply (wpi_tally geo new_generation decoded_limit d0 P); [exact HI|]. intros c1 HI1 Ht1.
  apply HQ; [|done]. split; [done|by rewrite Ht1].
Qed.

Lemma wpi_retire {X} (k : act X) H ov q c lba Q : store H ov q c -> P lba ->
  (forall c', store H ov ({[lba]} ∪ q) c' -> owned (mc_tx c') = owned (mc_tx c) -> wpi k c' Q failed) ->
  wpi (do! retire_block geo new_generation lba in do! tally committed_nodes_retired in k) c Q failed.
Proof.
  intros [HI Hq] Hp Hk. apply wpi_bind. eapply wpi_mono; [apply (wpi_retire_block geo new_generation decoded_limit d0 P H ov c lba (owned (mc_tx c)) q)| |done]; [done|done|done|].
  intros _ c' (HI' & Ho' & Hq'). apply wpi_bind. eapply wpi_count; [by split|]. intros c1 Hs1 Ht1. apply Hk; [done|by rewrite Ht1].
Qed.

Lemma wpi_release {X} (k : act X) H ov q c lba Q : store ({[lba]} ∪ H) ov q c -> lba ∈ owned (mc_tx c) ->
  (forall c', store H (delete lba ov) q c' -> owned (mc_tx c') = owned (mc_tx c) ∖ {[lba]} -> wpi k c' Q failed) ->
  wpi (do! remove_staged lba in do! release_block geo new_generation lba in do! tally staged_nodes_discarded in k) c Q failed.
Proof.
  intros [HI Hq] Ho Hk. apply wpi_bind. eapply wpi_mono; [apply (wpi_remove_staged geo new_generation decoded_limit d0 P H ov c lba HI)| |done].
  intros _ c1 (HI1 & Ht1 & _). apply wpi_bind.
  eapply wpi_mono; [apply (wpi_release_block geo new_generation decoded_limit d0 P H (delete lba ov) c1 lba (owned (mc_tx c)) q)| |done];
    [done|by split; rewrite Ht1|done|apply lookup_delete_eq|].
  intros _ c2 (HI2 & Ho2 & Hq2). apply wpi_bind. eapply wpi_count; [by split|]. intros c3 Hs3 Ht3. apply Hk; [done|by rewrite Ht3].
Qed.

(** The blocks of the sources, new blocks, and of these the ones in use. *)
Lemma step_sources ov ov1 q q' s images reusable new lbas :
  length lbas = length images -> NoDup lbas -> placed ov s -> (forall x, is_Some (ov !! x) -> ~ P x) ->
  (forall x, x ∈ reusable <-> x ∈ s /\ is_Some (ov !! x)) -> (forall x, x ∈ new -> fresh P ov x) ->
  (forall x, x ∈ lbas -> x ∈ reusable ++ new) ->
  (forall x, x ∈ reusable ++ new -> x ∉ lbas -> ov1 !! x = None) -> (forall x, x ∉ reusable ++ new \/ x ∈ lbas -> ov1 !! x = ov !! x) ->
  (forall x, x ∈ q' <-> x ∈ q \/ (x ∈ s /\ ov !! x = None)) ->
  step ov q s (staged_map ov1 images lbas) q' (list_to_set lbas).
Proof.
  intros Hl Hd Hp Hdis Hre Hnew Hlb Hgone Hsame Hq. apply step_place; [done..| | | |done].
  - intros x Hx%Hlb. apply elem_of_app in Hx as [?%Hre|?%Hnew]; [by left|by right].
  - intros x Hx. destruct (decide (x ∈ reusable ++ new)) as [Hi|Hi]; [|apply Hsame; by left].
    destruct (decide (x ∈ lbas)) as [Hi'|Hi']; [apply Hsame; by right|]. rewrite Hgone by done.
    apply elem_of_app in Hi as [[? _]%Hre|[? _]%Hnew]; [done|congruence].
  - intros x Hx Hs. destruct (decide (x ∈ lbas)) as [Hi'|Hi']; [done|]. destruct (decide (x ∈ reusable ++ new)) as [Hi|Hi].
    + rewrite Hgone in Hs by done. by destruct Hs.
    + exfalso. apply Hi, elem_of_app. left. apply Hre. split; [done|]. rewrite <- Hsame; [done|by left].
Qed.

Lemma wpi_release_extra n : forall reusable ov q c,
  store (list_to_set reusable) ov q c -> NoDup reusable -> (forall x, x ∈ reusable -> x ∈ owned (mc_tx c)) -> (n <= length reusable)%nat ->
  wpi (release_extra geo new_generation n reusable) c
    (fun r c' => r = take (length reusable - n) reusable /\ exists ov1, store (list_to_set r) ov1 q c' /\ NoDup r /\
       (forall x, x ∈ r -> x ∈ owned (mc_tx c')) /\ (forall x, x ∈ reusable -> x ∉ r -> ov1 !! x = None) /\
       (forall x, x ∉ reusable \/ x ∈ r -> ov1 !! x = ov !! x)) failed.
Proof.
  induction n as [|n IH]; intros reusable ov q c Hs Hd Ho Hn; cbn [release_extra].
  { apply wpi_ret. rewrite Nat.sub_0_r, firstn_all. split; [done|]. by exists ov. }
  destruct reusable as [|lba reusable _] using rev_ind; [cbn in Hn; lia|]. rewrite last_snoc. rewrite length_app in *. cbn [length] in *.
  apply NoDup_app in Hd as (Hd & Hdis & _). assert (lba ∉ reusable) as Hnl by (intros Hi; by apply (Hdis lba Hi); left).
  apply (wpi_release _ (list_to_set reusable) ov q).
  { destruct Hs as [HI Hq]. split; [|done]. by rewrite list_to_set_app_L, list_to_set_singleton_L, (union_comm_L _) in HI. }
  { apply Ho, elem_of_app. right. by left. }
  intros c' Hs' Ho'. replace (length reusable + 1 - 1)%nat with (length reusable) by lia. rewrite take_app_length.
  eapply wpi_mono; [apply (IH reusable (delete lba ov) q c' Hs' Hd)| |done].
  { intros x Hx. rewrite Ho'. apply elem_of_difference. split; [apply Ho, elem_of_app; by left|]. intros ->%elem_of_singleton. done. }
  { lia. }
  intros r c2 (-> & ov1 & Hs1 & Hd1 & Ho1 & Hg & Hsame). replace (length reusable + 1 - S n)%nat with (length reusable - n)%nat by lia.
  rewrite take_app_le by lia. split; [done|]. exists ov1. split; [done|]. split; [done|]. split; [done|]. split.
  - intros x [Hx| ->%list_elem_of_singleton]%elem_of_app Hn'; [by apply Hg|]. rewrite Hsame by by left. apply lookup_delete_eq.
  - intros x Hx. assert (x <> lba) as Hne.
    { intros ->. destruct Hx as [Hx|Hx]; [apply Hx, elem_of_app; right; by left|]. apply Hnl.
      rewrite <- (take_drop (length reusable - n) reusable). apply elem_of_app. by left. }
    rewrite Hsame; [by rewrite lookup_delete_ne|]. destruct Hx as [Hx|Hx]; [left|by right]. intros Hi. apply Hx, elem_of_app. by left.
Qed.

Definition source_ok (ov : gmap Z TreeNode) (source : Z * bool) : Prop :=
  (is_Some (ov !! fst source) \/ P (fst source)) /\ snd source = bool_decide (is_Some (ov !! fst source)).

Lemma wpi_take_sources sources : forall H ov reusable q c,
  store H ov q c -> Forall (source_ok ov) sources ->
  wpi (take_sources geo new_generation sources reusable) c
    (fun r c' => exists q', store H ov q' c' /\ owned (mc_tx c') = owned (mc_tx c) /\ r = reusable ++ (filter (fun s => snd s = true) sources).*1 /\
       (forall x, x ∈ q' <-> x ∈ q \/ (x ∈ sources.*1 /\ ov !! x = None))) failed.
Proof.
  induction sources as [|[lba staged] sources IH]; intros H ov reusable q c Hs Hok; cbn [take_sources].
  { apply wpi_ret. exists q. split; [done|]. split; [done|]. split; [by rewrite app_nil_r|]. intros x. split; [by left|].
    intros [?|[Hx _]]; [done|]. by apply not_elem_of_nil in Hx. }
  apply Forall_cons in Hok as [[Hp Hst] Hok]. cbn [fst snd] in *. destruct staged.
  - symmetry in Hst. apply bool_decide_eq_true_1 in Hst. apply wpi_bind, wpi_get. apply wpi_if; intros _; [by apply (store_failed _ _ _ _ Hs)|].
    eapply wpi_mono; [by apply (IH H ov _ q c)| |done]. intros r c' (q' & Hs' & Ho & -> & Hq). exists q'. split; [done|]. split; [done|].
    rewrite filter_cons_True by done. split; [by rewrite <- app_assoc|]. intros x. rewrite Hq. cbn. rewrite elem_of_cons. split; [tauto|].
    intros [?|[[->|?] Hn]]; [by left| |by right]. rewrite Hn in Hst. by destruct Hst.
  - symmetry in Hst. apply bool_decide_eq_false_1 in Hst. destruct Hp as [?|Hp]; [done|].
    apply (wpi_retire _ H ov q c lba); [done|done|]. intros c1 Hs1 Ho1.
    eapply wpi_mono; [by apply (IH H ov reusable ({[lba]} ∪ q) c1)| |done]. intros r c' (q' & Hs' & Ho & -> & Hq). exists q'. split; [done|]. split; [congruence|].
    rewrite filter_cons_False by done. split; [done|]. intros x. rewrite Hq, elem_of_union, elem_of_singleton. cbn. rewrite elem_of_cons.
    assert (ov !! lba = None) by (destruct (ov !! lba); [by destruct Hst|done]).
    split; [intros [[->|?]|?]; tauto|]. intros [?|[[->|?] ?]]; tauto.
Qed.

Lemma filter_sources ov sources x : Forall (source_ok ov) sources ->
  x ∈ (filter (fun s => snd s = true) sources).*1 <-> x ∈ sources.*1 /\ is_Some (ov !! x).
Proof.
  intros Hok. rewrite Forall_forall in Hok. rewrite !list_elem_of_fmap. split.
  - intros ([y b] & -> & [Hb Hy]%list_elem_of_filter). cbn in *. subst b. destruct (Hok _ Hy) as [_ He]. cbn in He.
    symmetry in He. apply bool_decide_eq_true_1 in He. split; [by exists (y, true)|done].
  - intros [([y b] & -> & Hy) Hs]. cbn in *. destruct (Hok _ Hy) as [_ He]. cbn in He. rewrite bool_decide_eq_true_2 in He by done. subst b.
    exists (y, true). split; [done|]. by apply list_elem_of_filter.
Qed.

Lemma filter_nodup (sources : list (Z * bool)) : NoDup sources.*1 -> NoDup (filter (fun s => snd s = true) sources).*1.
Proof.
  induction sources as [|[x b] sources IH]; [done|]. rewrite fmap_cons. intros [Hn Hd]%NoDup_cons. destruct b.
  - rewrite filter_cons_True by done. cbn. apply NoDup_cons. split; [|by apply IH]. intros (p & Hp & [_ Hin]%list_elem_of_filter)%list_elem_of_fmap.
    apply Hn, list_elem_of_fmap. by exists p.
  - rewrite filter_cons_False by done. by apply IH.
Qed.

Lemma store_holes H H' ov q c : store H ov q c -> (forall x, x ∈ H -> is_Some (ov !! x) -> x ∈ H') -> store H' ov q c.
Proof. intros [HI Hq] Hh. split; [|done]. by eapply inv_holes. Qed.

Lemma sources_placed ov sources : Forall (source_ok ov) sources -> placed ov (list_to_set sources.*1).
Proof.
  intros Hok x Hx. apply elem_of_list_to_set, list_elem_of_fmap in Hx as (p & -> & Hp). rewrite Forall_forall in Hok. by apply Hok.
Qed.

(** The nodes at the sources become the images. *)
Lemma wpi_store_sources sources images ov q c :
  store (list_to_set sources.*1) ov q c -> Forall (source_ok ov) sources -> NoDup sources.*1 ->
  Forall (fun image => valid_node (fst image) new_generation) images ->
  wpi (persist_sources geo new_generation cache_pages decoded_limit sources images) c (stored ov q (list_to_set sources.*1) images) failed.
Proof.
  intros Hs Hok Hd Hv. unfold persist_sources. pose proof (store_failed _ _ _ _ Hs) as Hf.
  apply wpi_bind, wpi_lift, wp_ok_or; [|intros; apply Hf]. intros level _. apply wpi_if; intros _; [apply Hf|].
  apply wpi_bind. eapply wpi_mono; [by apply (wpi_take_sources sources (list_to_set sources.*1) ov [] q c)| |done].
  intros r0 c1 (q1 & Hs1 & Ho1 & -> & Hq1). cbn [app]. set (reusable := (filter (fun s => snd s = true) sources).*1) in *.
  assert (forall x, x ∈ reusable <-> x ∈ (list_to_set sources.*1 : gset Z) /\ is_Some (ov !! x)) as Hre.
  { intros x. rewrite elem_of_list_to_set. by apply filter_sources. }
  apply wpi_bind. eapply wpi_mono; [apply (wpi_allocate_blocks (length images - length reusable) reusable _ ov q1 c1 Hs1)| |done].
  { by apply filter_nodup. }
  { intros x [_ Hx]%Hre. by apply (inv_owned _ _ _ _ _ _ _ _ (proj1 Hs1)). }
  intros lbas c2 (Hs2 & Hd2 & Ho2 & new & -> & Hnew & Hfresh). apply wpi_bind.
  eapply wpi_mono; [apply (wpi_release_extra (length (reusable ++ new) - length images) (reusable ++ new) ov q1 c2)| |done]; [|done|done|lia|].
  { eapply store_holes; [exact Hs2|]. intros x Hx Hx'. apply elem_of_list_to_set, elem_of_app. left. by apply Hre. }
  intros r c3 (Hr & ov1 & Hs3 & Hd3 & Ho3 & Hgone & Hsame).
  assert (length r = length images) as Hlen by (rewrite Hr, length_take, length_app; lia).
  apply (wpi_store_images images r ov ov1 q q1 (list_to_set sources.*1) c3); [done..|].
  apply (step_sources ov ov1 q q1 _ images reusable new r); try done; [by apply sources_placed| | |].
  - intros x. by apply (store_staged _ _ _ _ x Hs).
  - intros x. rewrite Hr. intros Hx. rewrite <- (take_drop (length (reusable ++ new) - (length (reusable ++ new) - length images)) (reusable ++ new)).
    apply elem_of_app. by left.
  - intros x. by rewrite Hq1, elem_of_list_to_set.
Qed.

Lemma wpi_persist_sources n lower upper sources images items kids ov q c :
  store (list_to_set sources.*1) ov q c -> Forall (source_ok ov) sources -> NoDup sources.*1 ->
  images_at geo grown new_generation (overlay ov) n lower upper images items kids ->
  list_to_set sources.*1 ## blocks (concat kids) -> placed ov (blocks (concat kids)) ->
  wpi (persist_sources geo new_generation cache_pages decoded_limit sources images) c
    (fun ds c' => replaced n lower upper items ov q (list_to_set sources.*1 ∪ blocks (concat kids)) ds c' /\
                  map ch_min_key ds = map snd images) failed.
Proof.
  intros Hs Hok Hd Him Hdis Hpl. destruct (images_valid _ _ _ _ _ _ _ Him) as (Hv & _).
  eapply wpi_mono; [by apply wpi_store_sources| |done]. intros ds c'. by apply stored_replaced.
Qed.

Lemma wpi_persist n lower upper lba staged images items kids ov q c :
  store {[lba]} ov q c -> source_ok ov (lba, staged) ->
  images_at geo grown new_generation (overlay ov) n lower upper images items kids ->
  lba ∉ blocks (concat kids) -> placed ov (blocks (concat kids)) ->
  wpi (persist geo new_generation cache_pages decoded_limit lba staged images) c
    (fun r c' => replaced n lower upper items ov q ({[lba]} ∪ blocks (concat kids)) (re_children r) c' /\
                 map ch_min_key (re_children r) = map snd images /\ re_level r = Z.of_nat n) failed.
Proof.
  intros Hs Hok Him Hdis Hpl. unfold persist. pose proof (store_failed _ _ _ _ Hs) as Hf.
  apply wpi_bind, wpi_lift, wp_ok_or; [|intros; apply Hf]. intros level Hlevel. apply wpi_if; intros _; [apply Hf|].
  destruct (images_valid _ _ _ _ _ _ _ Him) as (_ & _ & Hlv).
  assert (level = Z.of_nat n) as -> by (destruct Hlv; [done|by injection Hlevel as <-]).
  set (reusable := (filter (fun s => snd s = true) [(lba, staged)]).*1).
  assert (forall x, x ∈ reusable <-> x ∈ ({[lba]} : gset Z) /\ is_Some (ov !! x)) as Hre.
  { intros x. unfold reusable. rewrite (filter_sources ov) by (by constructor). cbn. by rewrite list_elem_of_singleton, elem_of_singleton. }
  apply wpi_bind. eapply (wpi_mono _ _ (fun r c' => exists q', store {[lba]} ov q' c' /\ r = reusable /\
      (forall x, x ∈ q' <-> x ∈ q \/ (x ∈ ({[lba]} : gset Z) /\ ov !! x = None))) _ failed); [| |done].
  { destruct staged.
    - apply wpi_ret. exists q. split; [done|]. split; [done|]. intros x. split; [by left|]. intros [?|[->%elem_of_singleton Hn]]; [done|].
      destruct Hok as [_ He]. cbn in He. symmetry in He. apply bool_decide_eq_true_1 in He. rewrite Hn in He. by destruct He.
    - destruct Hok as [Hp He]. cbn in Hp, He. symmetry in He. apply bool_decide_eq_false_1 in He. destruct Hp as [?|Hp]; [done|].
      apply (wpi_retire _ {[lba]} ov q c lba); [done|done|]. intros c1 Hs1 _. apply wpi_ret. exists ({[lba]} ∪ q). split; [done|]. split; [done|].
      intros x. rewrite elem_of_union, elem_of_singleton. assert (ov !! lba = None) by (destruct (ov !! lba); [by destruct He|done]).
      split; [intros [->|?]; [by right|by left]|intros [?|[-> _]]; [by right|by left]]. }
  intros r0 c1 (q1 & Hs1 & -> & Hq1). apply wpi_bind.
  eapply wpi_mono; [apply (wpi_allocate_blocks (length images - length reusable) reusable _ ov q1 c1 Hs1)| |done].
  { apply filter_nodup. cbn. apply NoDup_singleton. }
  { intros x [_ Hx]%Hre. by apply (inv_owned _ _ _ _ _ _ _ _ (proj1 Hs1)). }
  intros lbas c2 (Hs2 & Hd2 & Ho2 & new & -> & Hnew & Hfresh). apply wpi_bind.
  assert (length (reusable ++ new) = length images) as Hlen.
  { rewrite length_app, Hnew. assert (length reusable <= 1)%nat by (unfold reusable; rewrite length_fmap; apply (length_filter _ [(lba, staged)])).
    destruct images; [by inversion Him|]. cbn [length]. lia. }
  eapply wpi_mono; [apply (wpi_store_images images (reusable ++ new) ov ov q q1 {[lba]} c2)| |done]; [by destruct (images_valid _ _ _ _ _ _ _ Him)| |done|done|done| |].
  - eapply store_holes; [exact Hs2|]. intros x Hx Hx'. apply elem_of_list_to_set, elem_of_app. left. by apply Hre.
  - apply (step_sources ov ov q q1 _ images reusable new); try done.
    + intros x ->%elem_of_singleton. by destruct Hok.
    + intros x. by apply (store_staged _ _ _ _ x Hs).
  - intros ds c4 Hst. apply wpi_ret. cbn [re_children re_level]. destruct (stored_replaced n lower upper images items kids ov q {[lba]} ds c4 Him) as [? ?]; [|done|done|done].
    by intros x ->%elem_of_singleton.
Qed.

(** ** Insertion *)

Lemma grown_owner : u64 (ts_owner grown).
Proof. done. Qed.

Lemma block_size_ok : 32 <= block_size geo < 2 ^ 64.
Proof. rewrite wf_block_size. lia. Qed.

Lemma wpi_read H ov q c lba level lower upper is_root depth :
  store H ov q c -> u64 lba -> is_Some (ov !! lba) \/ P lba ->
  wpi (read_node geo spec new_generation cache_pages lba level lower upper is_root depth) c
    (fun r c' => let '(node, staged, g) := r in
       store ({[lba]} ∪ H) ov q c' /\ at_block new_generation d0 P ov lba node g /\ source_ok ov (lba, staged) /\
       overlay ov lba = Ok (node, g)) failed.
Proof.
  intros Hs Hu Hl.
  eapply wpi_mono; [by apply (wpi_read_node geo spec new_generation cache_pages decoded_limit d0 P pages_nonneg H ov c lba level lower upper is_root depth (proj1 Hs))| |done].
  intros [[node staged] g] c' (HI & Htx & Hat & -> & _). split; [split; [done|rewrite Htx; apply Hs]|]. split; [done|]. split; [done|apply Hat].
Qed.

Definition first_of (mins : list (option bytes)) : option bytes := match mins with k :: _ => k | [] => None end.

Lemma first_key_mins ds : first_key ds = first_of (map ch_min_key ds).
Proof. by destruct ds. Qed.

(** What an insertion below [lba] leaves: one subtree or two, starting where
    the caller expects. *)
Definition upserted (n : nat) (known_min lower upper : option bytes) (items : list TreeItem) (ov : gmap Z TreeNode) (q s : gset Z)
    (r : Replacement) (c : ctx) : Prop :=
  replaced n lower upper items ov q s (re_children r) c /\
  (forall k, known_min = Some k -> first_key (re_children r) = Some k) /\
  re_level r = Z.of_nat n /\ (length (re_children r) <= 2)%nat.

Lemma wpi_persist_upserted n known_min lower upper lba staged images items kids ov q c :
  store {[lba]} ov q c -> source_ok ov (lba, staged) ->
  images_at geo grown new_generation (overlay ov) n lower upper images items kids ->
  lba ∉ blocks (concat kids) -> placed ov (blocks (concat kids)) ->
  (length images <= 2)%nat -> (forall k, known_min = Some k -> first_of (map snd images) = Some k) ->
  wpi (persist geo new_generation cache_pages decoded_limit lba staged images) c
    (upserted n known_min lower upper items ov q ({[lba]} ∪ blocks (concat kids))) failed.
Proof.
  intros Hs Hok Him Hdis Hpl Hlen Hk. eapply wpi_mono; [by eapply wpi_persist| |done].
  intros r c' (Hrep & Hmins & Hlv). split; [done|]. split; [intros k Hk'; rewrite first_key_mins, Hmins; by apply Hk|].
  split; [done|]. by rewrite <- (length_map ch_min_key), Hmins, length_map.
Qed.

Lemma wpi_upsert_leaf known_min lower upper lba staged items key value ov q c :
  store {[lba]} ov q c -> source_ok ov (lba, staged) ->
  zlen items < 2 ^ 64 -> sorted items -> Forall item_ok items -> within lower upper items -> starts_at lower items ->
  (items = [] -> lower = None) -> (forall k, known_min = Some k -> lower = Some k) ->
  above lower key -> below upper key -> item_ok {| ti_key := key; ti_value := value |} ->
  wpi (upsert_leaf geo new_generation cache_pages decoded_limit lba staged (leaf_node grown items) known_min key value) c
    (upserted 0 known_min lower upper (upsert_item key value items) ov q {[lba]}) failed.
Proof.
  intros Hs Hok Hz Hso Hi Hw Hst Hemp Hkm Hlo Hup Hkey. unfold upsert_leaf. cbv zeta.
  change (set_items (upsert_item key value (tn_items (leaf_node grown items))) (leaf_node grown items)) with (leaf_node grown (upsert_item key value items)).
  set (items' := upsert_item key value items).
  assert (sorted items') as Hso' by by apply upsert_item_sorted. assert (Forall item_ok items') as Hi' by by apply upsert_item_ok.
  assert (within lower upper items') as Hw' by by apply upsert_item_within.
  assert (starts_at lower items') as Hst'.
  { destruct (decide (items = [])) as [He|He]; [rewrite (Hemp He); by intros ? ? [=]|by apply upsert_item_starts]. }
  assert (items' <> []) as Hne by apply upsert_item_nonempty.
  assert (forall a b, items' = a ++ b -> a <> [] -> forall k, known_min = Some k -> first_min (leaf_node grown a) = Some k) as Hfirst.
  { intros a b Hab Ha k Hk. destruct a as [|x a]; [done|]. unfold first_min. cbn. f_equal. apply (Hst' k x); [by apply Hkm|by rewrite Hab]. }
  assert ({[lba]} = ({[lba]} ∪ blocks (concat [[]]) : gset Z)) as Hb1 by (by cbn; rewrite (right_id_L ∅ (∪))).
  assert (placed ov (blocks [])) as Hp0 by (intros x ?%not_elem_of_empty; done).
  apply wpi_if; intros Hf.
  - apply fits_count in Hf; [|apply block_size_ok]. rewrite Hb1. apply (wpi_persist_upserted 0 known_min lower upper lba staged _ items' [[]] ov q c);
      [done|done| |apply not_elem_of_empty|done|cbn; lia|].
    + apply one_image. by apply (leaf_ready geo grown new_generation grown_generation grown_owner).
    + intros k Hk. apply (Hfirst items' []); [by rewrite app_nil_r|done|done].
  - apply wpi_bind, wpi_lift. eapply wp_mono; [apply split_leaf_spec| |intros; by apply (store_failed _ _ _ _ Hs)].
    intros [l r] (a & b & Hab & Ha & Hb & Hlt & -> & ->). cbn [tn_items leaf_node] in Hab, Hlt.
    apply wpi_bind. eapply wpi_count; [exact Hs|]. intros c1 Hs1 _.
    change (set_items a (leaf_node grown items')) with (leaf_node grown a). change {| tn_items := b |} with (leaf_node grown b).
    rewrite Hb1. apply (wpi_persist_upserted 0 known_min lower upper lba staged _ items' [[]; []] ov q c1);
      [done|done| |apply not_elem_of_empty|done|done|].
    + rewrite Hab in *. apply (leaves_ready geo grown new_generation grown_generation grown_owner); done.
    + intros k Hk. cbn. by rewrite Hk.
Qed.

Lemma wpi_persist_split m known_min lower upper lba staged node ds items kids ov q c :
  store {[lba]} ov q c -> source_ok ov (lba, staged) -> of_tree grown (S m) node -> Z.of_nat (S m) <= MAX_TREE_LEVEL ->
  descs_at geo grown (overlay ov) m lower upper ds items kids -> lba ∉ blocks kids -> placed ov (blocks kids) ->
  wpi (persist_split geo new_generation cache_pages decoded_limit lba staged known_min node ds) c
    (upserted (S m) known_min lower upper items ov q ({[lba]} ∪ blocks kids)) failed.
Proof.
  intros Hs Hok Hot Hm Hds Hdis Hpl. pose proof (store_valid _ _ _ _ Hs) as Hv. unfold persist_split.
  destruct (descs_facts geo grown (overlay ov) _ _ _ _ _ _ Hds) as (Hrefs & _).
  apply wpi_bind, wpi_lift. eapply wp_mono; [by apply split_internal_spec| |intros; by apply (store_failed _ _ _ _ Hs)].
  intros [[l r] k] (a & b & -> & Ha & Hb & Hk & Hl & b' & Hb' & Hr).
  apply descs_split in Hds as (k' & xs & ys & xn & yn & Hk' & -> & -> & Hda & Hdb); [|done..]. rewrite Hk in Hk'. injection Hk' as <-.
  destruct b as [|d b]; [done|]. injection Hb' as <-.
  apply wpi_bind. eapply wpi_count; [exact Hs|]. intros c1 Hs1 _.
  assert (xn ++ yn = concat [xn; yn]) as Hc by (cbn; by rewrite app_nil_r). rewrite Hc in *.
  apply wpi_persist_upserted; [done|done| |done|done|done|by intros k0 ->].
  apply more_images; [by eapply (branch_ready geo grown new_generation grown_generation grown_owner (overlay ov))|]. apply one_image.
  eapply (branch_ready geo grown new_generation grown_generation grown_owner (overlay ov) m _ _ false _ (set_min_key None d :: b));
    [by eapply descs_first, Hdb|exact Hr|done|done].
Qed.

(** A branch over new neighbours, in one node or two. *)
Lemma wpi_persist_branch m known_min lower upper lba staged node ds items kids ov q c :
  store {[lba]} ov q c -> source_ok ov (lba, staged) -> Z.of_nat (S m) <= MAX_TREE_LEVEL -> of_tree grown (S m) node ->
  ready geo grown new_generation (overlay ov) (S m) lower upper false node items kids ->
  descs_at geo grown (overlay ov) m lower upper ds items kids -> lba ∉ blocks kids -> placed ov (blocks kids) ->
  wpi (if fits node (block_size geo) then persist geo new_generation cache_pages decoded_limit lba staged [(node, known_min)]
       else persist_split geo new_generation cache_pages decoded_limit lba staged known_min node ds) c
    (upserted (S m) known_min lower upper items ov q ({[lba]} ∪ blocks kids)) failed.
Proof.
  intros Hs Hok Hm Hot Hr Hds Hdis Hpl. apply wpi_if; intros _; [|by apply wpi_persist_split].
  assert (kids = concat [kids]) as Hc by (cbn; by rewrite app_nil_r). rewrite Hc in *.
  apply wpi_persist_upserted; [done|done| |done|done|cbn; lia|by intros k0 ->]. rewrite <- Hc in *. by apply one_image.
Qed.

Lemma wpi_upsert_parent m known_min lower upper lba staged node g a c0 b child replacement items kids ov q c :
  store {[lba]} ov q c -> source_ok ov (lba, staged) -> valid_node node g -> of_tree grown (S m) node -> Z.of_nat (S m) <= MAX_TREE_LEVEL ->
  children_from_node node = Ok (a ++ c0 :: b) -> descs_of node (a ++ c0 :: b) -> tn_subtree_items node = total_of (a ++ c0 :: b) ->
  ch_reference child = ch_reference c0 ->
  descs_at geo grown (overlay ov) m lower upper (a ++ re_children replacement ++ b) items kids ->
  lba ∉ blocks kids -> placed ov (blocks kids) ->
  wpi (upsert_parent geo new_generation cache_pages decoded_limit lba staged node known_min (length a) child replacement) c
    (upserted (S m) known_min lower upper items ov q ({[lba]} ∪ blocks kids)) failed.
Proof.
  intros Hs Hok Hvn Hot Hm Hcf Hof Htot Href Hds Hdis Hpl. pose proof (store_valid _ _ _ _ Hs) as Hv. pose proof (store_failed _ _ _ _ Hs) as Hf.
  assert (forall level, tn_level level = Z.of_nat (S m) -> is_leaf level = false) as Hbr by (intros ? ?; unfold is_leaf; lia).
  assert (is_leaf node = false) as Hlf by (apply Hbr, Hot).
  assert (wpi (let! children := ilift (children_from_node node) in
      let! children := ilift (splice children (length a) (length a) (re_children replacement)) in
      let! children := (match length a with O => ilift (set_first_min None children) | S _ => iret children end) in
      let! node := ilift (internal_from_children node children) in
      if fits node (block_size geo) then persist geo new_generation cache_pages decoded_limit lba staged [(node, known_min)]
      else persist_split geo new_generation cache_pages decoded_limit lba staged known_min node children) c
    (upserted (S m) known_min lower upper items ov q ({[lba]} ∪ blocks kids)) failed) as Hmulti.
  { rewrite Hcf. apply wpi_bind, wpi_lift, wp_ok, wpi_bind, wpi_lift.
    change (a ++ c0 :: b) with (a ++ [c0] ++ b). rewrite splice_spec by (done || cbn; lia). apply wp_ok.
    assert (exists ds, wpi (match length a with O => ilift (set_first_min None (a ++ re_children replacement ++ b))
        | S _ => iret (a ++ re_children replacement ++ b) end) c (fun r c' => r = ds /\ c' = c) failed /\
        descs_at geo grown (overlay ov) m lower upper ds items kids) as (ds & Hw & Hd).
    { destruct (a ++ re_children replacement ++ b) as [|d ds] eqn:Hall; [by apply descs_nonempty in Hds|]. destruct a.
      - exists (set_min_key None d :: ds). split; [done|]. by eapply descs_first, Hds.
      - by exists (d :: ds). }
    apply wpi_bind. eapply wpi_mono; [exact Hw| |done]. intros r c' [-> ->]. destruct (descs_facts geo grown (overlay ov) _ _ _ _ _ _ Hd) as (Hrefs & _).
    destruct ds as [|d ds]; [by apply descs_nonempty in Hd|]. apply wpi_bind, wpi_lift. eapply wp_mono; [apply (wp_any _ (fun node' => internal_from_children node (d :: ds) = Ok node'))| |done].
    { by eapply wp_not_panic, internal_from_children_spec. }
    { done. }
    intros node' Hn'. destruct (branch_ready geo grown new_generation grown_generation grown_owner (overlay ov) m _ _ false _ _ _ _ _ Hd Hn' Hot Hm) as (Hr & _ & Hot').
    by apply wpi_persist_branch. }
  unfold upsert_parent. destruct (re_children replacement) as [|s [|s2 rest]] eqn:Hre; [exact Hmulti| |exact Hmulti].
  apply wpi_bind, wpi_lift. rewrite Href.
  destruct (node_valid _ _ Hvn) as (_ & _ & Hc). rewrite Hlf in Hc. destruct Hc as (Hne & _).
  eapply wp_mono; [by eapply (replace_child_spec geo grown new_generation grown_generation grown_owner (overlay ov) m lower upper false node a c0 s b items kids)| |intros; apply Hf].
  intros node' (Hr & Hof' & Hot').
  assert (forall ds, descs_of node' ds -> descs_at geo grown (overlay ov) m lower upper ds items kids) as Hnd.
  { intros ds Hd. destruct Hr as (Hvn' & _ & _ & _ & Hch). eapply (tree_descs geo grown (overlay ov)); [exact Hvn'|apply Hbr, Hot'|done|done]. }
  apply wpi_if; intros Hfit.
  - pose proof (wpi_persist_branch m known_min lower upper lba staged node' (a ++ s :: b) items kids ov q c Hs Hok Hm Hot' Hr Hds Hdis Hpl) as Hp. by rewrite Hfit in Hp.
  - destruct (valid_children node' new_generation) as (d & tl & Hcf' & _ & Hd'); [apply Hr|apply Hbr, Hot'|].
    rewrite Hcf'. apply wpi_bind, wpi_lift, wp_ok. apply wpi_persist_split; try done. by apply Hnd.
Qed.

(** ** Below a branch *)

(** A step in one subtree, seen from the branch above it. *)
Lemma child_step ov q ov1 q1 lba node xn yn zn s :
  NoDup ((lba, node) :: xn ++ yn ++ zn).*1 -> placed ov (blocks ((lba, node) :: xn ++ yn ++ zn)) -> step ov q (blocks yn) ov1 q1 s ->
  let r : gset Z := {[lba]} ∪ (blocks xn ∪ blocks zn) in
  step ov q (blocks ((lba, node) :: xn ++ yn ++ zn)) ov1 q1 (r ∪ s) /\ r ## s /\ placed ov1 r /\
  (forall x, x ∈ r -> overlay ov1 x = overlay ov x) /\ lba ∉ blocks xn ∪ blocks zn.
Proof.
  intros Hd Hp Hs r. rewrite fmap_cons, !fmap_app in Hd. apply NoDup_cons in Hd as [Hl Hd]. cbn in Hl.
  apply NoDup_app in Hd as (_ & Hx & Hd). apply NoDup_app in Hd as (_ & Hy & _).
  assert (blocks ((lba, node) :: xn ++ yn ++ zn) = r ∪ blocks yn) as Hall.
  { change ((lba, node) :: xn ++ yn ++ zn) with ([(lba, node)] ++ xn ++ yn ++ zn). rewrite !blocks_app. unfold r, blocks at 1. cbn.
    apply set_eq. intros x. rewrite !elem_of_union, !elem_of_singleton. rewrite elem_of_empty. tauto. }
  assert (r ## blocks yn) as Hdis.
  { intros x Hr Hyn. apply elem_of_list_to_set in Hyn. unfold r in Hr. rewrite !elem_of_union, elem_of_singleton in Hr. destruct Hr as [->|[Hr|Hr]].
    - apply Hl. rewrite !elem_of_app. tauto.
    - apply elem_of_list_to_set in Hr. apply (Hx x Hr). rewrite elem_of_app. by left.
    - apply elem_of_list_to_set in Hr. by apply (Hy x Hyn). }
  rewrite Hall in *. apply placed_union in Hp as [Hp _]. split; [by apply step_frame|]. split; [by eapply step_apart|].
  split; [by eapply step_still_placed|]. split.
  - intros x Hr. eapply step_overlay; [exact Hs|intros ?; by apply (Hdis x)|by apply Hp].
  - rewrite elem_of_union. unfold blocks. rewrite !elem_of_list_to_set. intros Hin. apply Hl. rewrite !elem_of_app. tauto.
Qed.

Lemma run_frame nd nd' n lower upper ds items nodes : run_at geo grown nd n lower upper ds items nodes ->
  (forall x, x ∈ blocks nodes -> nd' x = nd x) -> run_at geo grown nd' n lower upper ds items nodes.
Proof.
  intros H Hag. destruct ds; [done|]. cbn [run_at] in *. eapply descs_frame; [exact H|]. intros [x node] Hp. apply Hag, elem_of_blocks. by exists node.
Qed.

Lemma replaced_step n lower upper items ov q s ov1 q1 s1 ds c :
  step ov q s ov1 q1 s1 -> replaced n lower upper items ov1 q1 s1 ds c -> replaced n lower upper items ov q s ds c.
Proof. intros H (ov' & q' & nodes & ? & ? & ?). exists ov', q', nodes. split; [done|]. split; [done|]. by eapply step_trans. Qed.

Lemma blocks_around (lba : Z) xn s zn : {[lba]} ∪ (blocks xn ∪ blocks zn) ∪ s = {[lba]} ∪ (blocks xn ∪ s ∪ blocks zn).
Proof. apply set_eq. intros x. rewrite !elem_of_union. tauto. Qed.

Lemma branch_not_leaf m node : of_tree grown (S m) node -> is_leaf node = false.
Proof. intros (_ & _ & H). unfold is_leaf. lia. Qed.

Lemma tree_placed ov n lower upper is_root lba items nodes :
  tree_at geo grown (overlay ov) n lower upper is_root lba items nodes -> placed ov (blocks nodes) -> is_Some (ov !! lba) \/ P lba.
Proof.
  intros Ht Hp. apply Hp, elem_of_blocks. destruct (tree_root _ _ _ _ _ _ _ _ _ _ Ht) as (node & _ & _ & Hn). exists node.
  destruct nodes; [done|]. injection Hn as ->. by left.
Qed.

Lemma wpi_cache H ov q c lba node g : store ({[lba]} ∪ H) ov q c -> at_block new_generation d0 P ov lba node g ->
  wpi (cache_decoded geo new_generation decoded_limit lba node g) c (fun _ c' => store H ov q c') failed.
Proof.
  intros [HI Hq] Hat. eapply wpi_mono; [by apply (wpi_cache_decoded geo new_generation decoded_limit limit_nonneg d0 P H ov c lba node g)| |done].
  intros _ c' [HI' [_ Ht]]. split; [done|]. by rewrite Ht.
Qed.

(** The child [c0] a key leads to, between its left and right neighbours. *)
Record descent (ov : gmap Z TreeNode) (m : nat) (lower upper : option bytes) (lba : Z) (key : bytes) (node : TreeNode) (g : Z)
    (items : list TreeItem) (nodes : list (Z * TreeNode)) (a : list ChildDesc) (c0 : ChildDesc) (b : list ChildDesc)
    (xs ys zs : list TreeItem) (xn yn zn : list (Z * TreeNode)) : Prop := {
  de_valid : valid_node node g;
  de_tree : of_tree grown (S m) node;
  de_level : Z.of_nat (S m) <= MAX_TREE_LEVEL;
  de_items : items = xs ++ ys ++ zs;
  de_nodes : nodes = (lba, node) :: xn ++ yn ++ zn;
  de_distinct : NoDup nodes.*1;
  de_children : children_from_node node = Ok (a ++ c0 :: b);
  de_descs : descs_of node (a ++ c0 :: b);
  de_first : first_key (a ++ c0 :: b) = None;
  de_total : tn_subtree_items node = total_of (a ++ c0 :: b);
  de_index : length a = child_index node key;
  de_before : run_at geo grown (overlay ov) m lower (run_lower lower a [c0]) a xs xn;
  de_child : desc_tree geo grown (overlay ov) m (run_lower lower a [c0]) (run_upper upper b) c0 ys yn;
  de_after : run_at geo grown (overlay ov) m (run_upper upper b) upper b zs zn;
  de_below : keys_below xs key;
  de_above : keys_above zs key;
  de_lower : above (run_lower lower a [c0]) key;
  de_upper : below (run_upper upper b) key;
  de_min : a <> [] -> is_Some (ch_min_key c0);
  de_next : b <> [] -> is_Some (first_key b);
}.

Lemma descend ov m lower upper is_root lba items nodes node g key :
  ValidNodes (overlay ov) -> tree_at geo grown (overlay ov) (S m) lower upper is_root lba items nodes -> overlay ov lba = Ok (node, g) ->
  above lower key -> below upper key ->
  exists a c0 b xs ys zs xn yn zn, descent ov m lower upper lba key node g items nodes a c0 b xs ys zs xn yn zn.
Proof.
  intros Hval Ht Hn Hlo Hup. destruct (proj1 (tree_at_nodes geo grown (overlay ov)) _ _ _ _ _ _ _ Ht) as [_ Hnd].
  destruct (tree_root _ _ _ _ _ _ _ _ _ _ Ht) as (node1 & Hn1 & _). pose proof (loaded_count _ _ _ _ _ _ _ _ _ _ _ _ Ht Hn1) as Hcount.
  destruct Hn1 as (g1 & Hn1 & _). rewrite Hn in Hn1. injection Hn1 as <- <-.
  destruct (tree_ready geo grown _ _ _ _ _ _ _ _ Ht) as (node' & g' & kids & Hn' & -> & Hv & Hot & _ & Hch). rewrite Hn in Hn'. injection Hn' as <- <-.
  destruct (valid_children node g Hv (branch_not_leaf _ _ Hot)) as (d & tl & Hcf & Hmin & Hof).
  pose proof (tree_descs geo grown (overlay ov) m lower upper node g _ _ _ Hv (branch_not_leaf _ _ Hot) Hof Hch) as Hds.
  destruct (descs_facts geo grown (overlay ov) _ _ _ _ _ _ Hds) as (_ & _ & _ & _ & _ & _ & Hsum).
  destruct (route_descs node _ key Hof) as (a & c0 & b & Heq & Hidx & Ha & Hb).
  assert (first_key (a ++ c0 :: b) = None) as Hfirst by (by rewrite <- Heq). rewrite Heq in *.
  destruct (focus_key geo grown (overlay ov) m lower upper a c0 b items kids key Hds Ha Hb Hlo Hup)
    as (xs & ys & zs & xn & yn & zn & -> & -> & Hbe & Hc & Haf & Hkb & Hka & Hlo' & Hup').
  exists a, c0, b, xs, ys, zs, xn, yn, zn. split; try done.
  - destruct (node_valid _ _ Hv) as [Hl _]. destruct Hot as (_ & _ & Hl'). lia.
  - unfold total_of. lia.
  - intros He. destruct (Ha He) as (k & Hk & _). by exists k.
  - intros He. destruct (Hb He) as (k & Hk & _). by exists k.
Qed.

Lemma upserted_step n known_min lower upper items ov q s ov1 q1 s1 r c :
  step ov q s ov1 q1 s1 -> upserted n known_min lower upper items ov1 q1 s1 r c -> upserted n known_min lower upper items ov q s r c.
Proof. intros H [Hr ?]. split; [by eapply replaced_step|done]. Qed.

Lemma wpi_note H ov q c f Q : store H ov q c -> (forall c', store H ov q c' -> Q tt c') -> wpi (imodify (on_stats f)) c Q failed.
Proof. intros [HI Hq] HQ. apply wpi_modify, HQ. split; [by apply inv_stats|done]. Qed.

Lemma wpi_upsert_node key value fuel : item_ok {| ti_key := key; ti_value := value |} ->
  forall n lba level known_min lower upper is_root depth ov q c items nodes,
  MAX_TREE_LEVEL - depth < Z.of_nat fuel -> store ∅ ov q c ->
  tree_at geo grown (overlay ov) n lower upper is_root lba items nodes -> u64 lba -> placed ov (blocks nodes) ->
  (is_root = true -> lower = None) -> (forall k, known_min = Some k -> lower = Some k) -> above lower key -> below upper key ->
  wpi (upsert_node geo spec new_generation cache_pages decoded_limit fuel lba level known_min lower upper is_root depth key value) c
    (upserted n known_min lower upper (upsert_item key value items) ov q (blocks nodes)) failed.
Proof.
  intros Hkey. induction fuel as [|fuel IH]; intros n lba level known_min lower upper is_root depth ov q c items nodes Hfuel Hs Ht Hu Hp Hroot Hkm Hlo Hup;
    cbn [upsert_node]; (apply wpi_if; intros Hdepth; [by apply (store_failed _ _ _ _ Hs)|]); [lia|].
  pose proof (store_valid _ _ _ _ Hs) as Hval. pose proof (tree_placed _ _ _ _ _ _ _ _ Ht Hp) as Hl.
  apply wpi_bind. eapply wpi_note; [exact Hs|]. intros c1 Hs1. apply wpi_bind.
  eapply wpi_mono; [by apply (wpi_read ∅ ov q c1)| |done]. intros [[node staged] g] c2 (Hs2 & Hat & Hsrc & Hn).
  destruct n as [|m].
  - destruct (tree_ready geo grown _ _ _ _ _ _ _ _ Ht) as (node' & g' & kids & Hn' & -> & Hv & Hot & Hr & -> & ->).
    rewrite Hn in Hn'. injection Hn' as <- <-. destruct (leaf_of grown node g Hv Hot) as [Hleaf Hz].
    destruct (proj1 (tree_at_facts geo grown (overlay ov)) _ _ _ _ _ _ _ Ht) as (Hso & Hw & Hne & Hst & _).
    pose proof (valid_items _ _ Hv) as Hi. replace (is_leaf node) with true by (destruct Hot as (_ & _ & ?); unfold is_leaf; lia).
    assert (blocks [(lba, node)] = {[lba]}) as -> by (unfold blocks; cbn; by rewrite (right_id_L ∅ (∪))).
    rewrite (right_id_L ∅ (∪)) in Hs2. rewrite Hleaf at 1. apply wpi_upsert_leaf; try done.
    intros He. destruct is_root; [by apply Hroot|]. by specialize (Hne eq_refl).
  - destruct (descend ov m lower upper is_root lba items nodes node g key Hval Ht Hn Hlo Hup) as (a & c0 & b & xs & ys & zs & xn & yn & zn & De).
    rewrite (branch_not_leaf _ _ (de_tree _ _ _ _ _ _ _ _ _ _ _ _ _ _ _ _ _ _ _ De)). cbv zeta.
    destruct De as [Hv Hot Hlev Hitems Hnodes Hnd Hcf Hof Hfirst Htot Hidx Hbe (Hct & Hcz & Hcl & Hcu) Haf Hkb Hka Hlo' Hup' Hmin Hnext].
    rewrite <- Hidx, (child_range_spec node a c0 b) by done. apply wpi_bind, wpi_lift, wp_ok.
    destruct (child_at_spec node a c0 b Hof) as (ch & Hch & Href & Hchm). rewrite Hch. apply wpi_bind, wpi_lift, wp_ok.
    apply wpi_bind, wpi_lift, wp_sub_w; [destruct Hot as (_ & _ & ?); lia|]. apply wpi_bind.
    eapply wpi_mono; [by apply (wpi_cache ∅ ov q c2 lba node g)| |done]. intros [] c3 Hs3. apply wpi_bind. rewrite Href.
    rewrite Hnodes in Hp, Hnd. assert (placed ov (blocks yn)) as Hpy.
    { change ((lba, node) :: xn ++ yn ++ zn) with ([(lba, node)] ++ xn ++ yn ++ zn) in Hp. rewrite !blocks_app, !placed_union in Hp. tauto. }
    eapply wpi_mono; [apply (IH m (cr_lba (ch_reference c0)) _ (ch_min_key ch) (run_lower lower a [c0]) (run_upper upper b) false (depth + 1) ov q c3 ys yn)| |done];
      [lia|done|done|done|done|done| |done|done|].
    { rewrite Hchm. destruct a; [done|]. intros k Hk. done. }
    intros rep c4 ((ov1 & q1 & yn' & Hs4 & Hds & Hstep) & Hfk & _ & Hlen). apply wpi_bind.
    destruct (child_step ov q ov1 q1 lba node xn yn zn (blocks yn') Hnd Hp Hstep) as (Hst & Hap & Hpl & Hov & Hlz).
    assert (lba ∈ {[lba]} ∪ (blocks xn ∪ blocks zn)) as Hin by (apply elem_of_union; left; by apply elem_of_singleton).
    eapply wpi_mono; [apply (wpi_read ∅ ov1 q1 c4 lba); [done|done|by apply Hpl]| |done].
    intros [[node1 staged1] g1] c5 (Hs5 & _ & Hsrc1 & Hn1). rewrite Hov, Hn in Hn1 by done. injection Hn1 as <- <-.
    rewrite (right_id_L ∅ (∪)) in Hs5. pose proof (store_valid _ _ _ _ Hs5) as Hval1. rewrite blocks_around in Hst. rewrite Hnodes, Hitems.
    eapply wpi_mono; [apply (wpi_upsert_parent m known_min lower upper lba staged1 node g a c0 b ch rep (xs ++ upsert_item key value ys ++ zs) (xn ++ yn' ++ zn) ov1 q1 c5)| |done];
      try done.
    + replace lower with (match a with [] => run_lower lower a [c0] | _ => lower end) at 1 by (by destruct a).
      eapply (descs_unfocus geo grown (overlay ov1)); [|exact Hds| |intros Ha; split; [apply upper_le_refl|]|done].
      * eapply run_frame; [exact Hbe|]. intros x Hx. apply Hov. rewrite !elem_of_union. tauto.
      * eapply run_frame; [exact Haf|]. intros x Hx. apply Hov. rewrite !elem_of_union. tauto.
      * destruct a as [|d a]; [done|]. cbn [run_lower first_key] in *. destruct (Hmin Ha) as [k Hk]. rewrite Hk in *.
        split; [done|]. by apply Hfk.
    + rewrite elem_of_union in Hlz. rewrite !blocks_app, !elem_of_union. intros [?|[?|?]]; [tauto| |tauto]. by apply (Hap lba).
    + rewrite !blocks_app, !placed_union in *. destruct Hpl as (_ & ? & ?). split; [done|]. split; [apply Hstep|done].
    + intros r c6. rewrite upsert_item_mid by done. apply upserted_step.
      by replace (blocks (xn ++ yn' ++ zn)) with (blocks xn ∪ blocks yn' ∪ blocks zn) by (by rewrite !blocks_app, (assoc_L (∪))).
Qed.

(** ** Deletion *)

Lemma min_within_refl k : min_within k k.
Proof. destruct k; [apply bytes_leb_refl|done]. Qed.

(** What an edit below [lba] leaves: the edited node out of its block. *)
Definition edited (n : nat) (lower upper : option bytes) (items : list TreeItem) (ov : gmap Z TreeNode) (q s : gset Z)
    (lba : Z) (p : PendingNode) (c : ctx) : Prop :=
  exists ov' q' kids, store {[lba]} ov' q' c /\ pn_old_lba p = lba /\ source_ok ov' (lba, pn_old_staged p) /\
    pending geo grown new_generation (overlay ov') n lower upper p items kids /\ (n = O -> pn_min_key p = first_min (pn_node p)) /\
    step ov q s ov' q' ({[lba]} ∪ blocks kids) /\ lba ∉ blocks kids.

(** What settling an edited child leaves: the children [i] to [j] of the branch
    stand for [ds], and the branch starts at [min]. *)
Definition settled (m : nat) (lower upper : option bytes) (all : list ChildDesc) (items : list TreeItem) (ov : gmap Z TreeNode) (q s : gset Z)
    (r : nat * nat * list ChildDesc) (c : ctx) : Prop :=
  let '(i, j, ds) := r in
  exists a mid b ov' q' kids min, all = a ++ mid ++ b /\ length a = i /\ length mid = (S j - i)%nat /\ mid <> [] /\ ds <> [] /\
    store ∅ ov' q' c /\ descs_at geo grown (overlay ov') m min upper (a ++ ds ++ b) items kids /\
    step ov q s ov' q' (blocks kids) /\ min = (match a with [] => first_key ds | _ => lower end) /\ min_within lower min.

Lemma settle_join m lower upper a mid b lo min items xs zs xn zn ov q s ds c j :
  mid <> [] -> length mid = (S j - length a)%nat ->
  run_at geo grown (overlay ov) m lower lo a xs xn -> run_at geo grown (overlay ov) m (run_upper upper b) upper b zs zn ->
  (b <> [] -> is_Some (first_key b)) -> (a = [] -> lo = lower) -> (a <> [] -> lo <> None) ->
  replaced m min (run_upper upper b) items ov q s ds c -> first_key ds = min -> min_within lo min ->
  blocks xn ∪ blocks zn ## s -> placed ov (blocks xn ∪ blocks zn) ->
  settled m lower upper (a ++ mid ++ b) (xs ++ items ++ zs) ov q (blocks xn ∪ s ∪ blocks zn) (length a, j, ds) c.
Proof.
  intros Hne Hj Ha Hb Hbs Ha0 Ha1 (ov' & q' & nodes & Hs & Hds & Hstep) Hfk Hmin Hdis Hpl.
  exists a, mid, b, ov', q', (xn ++ nodes ++ zn), (match a with [] => first_key ds | _ => lower end).
  assert (forall x, x ∈ blocks xn ∪ blocks zn -> overlay ov' x = overlay ov x) as Hov.
  { intros x Hx. eapply step_overlay; [exact Hstep|intros ?; by apply (Hdis x)|by apply Hpl]. }
  pose proof (store_valid _ _ _ _ Hs) as Hval.
  do 4 (split; [done|]). split; [by eapply descs_nonempty|]. split; [done|]. split; [|split; [|split; [done|]]].
  - rewrite Hfk. eapply (descs_unfocus geo grown (overlay ov')); [|exact Hds| | |done].
    + eapply run_frame; [exact Ha|]. intros x Hx. apply Hov. rewrite elem_of_union. tauto.
    + eapply run_frame; [exact Hb|]. intros x Hx. apply Hov. rewrite elem_of_union. tauto.
    + intros Hn. specialize (Ha1 Hn). destruct lo as [l|]; [|done]. destruct min as [k|]; [done|]. done.
  - replace (blocks xn ∪ s ∪ blocks zn) with (blocks xn ∪ blocks zn ∪ s) by (apply set_eq; intros x; rewrite !elem_of_union; tauto).
    replace (blocks (xn ++ nodes ++ zn)) with (blocks xn ∪ blocks zn ∪ blocks nodes) by (rewrite !blocks_app; apply set_eq; intros x; rewrite !elem_of_union; tauto).
    by apply step_frame.
  - destruct a; [rewrite Hfk, <- (Ha0 eq_refl); done|apply min_within_refl].
Qed.

(** The neighbours on both sides of the nodes in [s]. *)
Record around (ov : gmap Z TreeNode) (m : nat) (lower upper lo : option bytes) (a b : list ChildDesc) (xs zs : list TreeItem)
    (xn zn : list (Z * TreeNode)) (s : gset Z) : Prop := {
  ar_before : run_at geo grown (overlay ov) m lower lo a xs xn;
  ar_after : run_at geo grown (overlay ov) m (run_upper upper b) upper b zs zn;
  ar_next : b <> [] -> is_Some (first_key b);
  ar_first : a = [] -> lo = lower;
  ar_inner : a <> [] -> lo <> None;
  ar_apart : blocks xn ∪ blocks zn ## s;
  ar_placed : placed ov (blocks xn ∪ blocks zn);
  ar_distinct : NoDup (xn ++ zn).*1;
}.

Lemma distinct_apart (a b : list (Z * TreeNode)) : NoDup (a ++ b).*1 -> blocks a ## blocks b.
Proof.
  rewrite fmap_app. intros (_ & H & _)%NoDup_app x Ha Hb. unfold blocks in *. rewrite elem_of_list_to_set in Ha, Hb. by apply (H x).
Qed.

Lemma distinct_sub (a b c : list (Z * TreeNode)) : NoDup (a ++ b ++ c).*1 ->
  NoDup (a ++ c).*1 /\ blocks a ∪ blocks c ## blocks b.
Proof.
  rewrite !fmap_app. intros (Ha & Hx & Hbc)%NoDup_app. apply NoDup_app in Hbc as (Hb & Hy & Hc). split.
  - apply NoDup_app. split; [done|]. split; [|done]. intros x Hxa Hxc. apply (Hx x Hxa), elem_of_app. by right.
  - intros x Hxa Hxb. unfold blocks in *. rewrite elem_of_union, !elem_of_list_to_set in Hxa. rewrite elem_of_list_to_set in Hxb.
    destruct Hxa as [Hxa|Hxa]; [apply (Hx x Hxa), elem_of_app; by left|by apply (Hy x Hxb)].
Qed.

Lemma apart_less (a b c s : gset Z) : a ∪ (b ∪ c) ## s -> a ∪ c ## b -> a ∪ c ## s ∪ b.
Proof. intros H1 H2 x Hx Hs. rewrite elem_of_union in Hx, Hs. destruct Hs as [Hs|Hs]; [apply (H1 x)|apply (H2 x)]; rewrite ?elem_of_union; tauto. Qed.

Lemma around_right ov m lower upper lo a c1 b xs zs xn zn s : ValidNodes (overlay ov) ->
  around ov m lower upper lo a (c1 :: b) xs zs xn zn s ->
  exists ys zs' yn zn', zs = ys ++ zs' /\ zn = yn ++ zn' /\ desc_tree geo grown (overlay ov) m (ch_min_key c1) (run_upper upper b) c1 ys yn /\
    around ov m lower upper lo a b xs zs' xn zn' (s ∪ blocks yn) /\ placed ov (blocks yn) /\ blocks yn ## s.
Proof.
  intros Hval [Hbe Haf Hnext Hf Hi Hap Hpl Hd]. cbn [run_at run_upper] in Haf.
  destruct (descs_focus geo grown (overlay ov) m _ upper [] [c1] b zs zn Haf) as (xs0 & ys & zs' & xn0 & yn & zn' & -> & -> & [-> ->] & Hc & Hb & _); [done|].
  exists ys, zs', yn, zn'. do 2 (split; [done|]). split; [by inversion Hc|].
  cbn [app] in *. destruct (distinct_sub _ _ _ Hd) as [Hd' Hap']. rewrite !blocks_app in *. rewrite !placed_union in Hpl.
  split; [split; try done|]; [| | |split; [tauto|]].
  - intros Hne. destruct b as [|d b]; [done|]. inversion Haf; subst. by eexists.
  - by apply apart_less.
  - rewrite placed_union. tauto.
  - intros x Hx Hs. apply (Hap x); [rewrite !elem_of_union; tauto|done].
Qed.

Lemma around_left ov m lower upper lo a c1 b xs zs xn zn s : ValidNodes (overlay ov) ->
  around ov m lower upper lo (a ++ [c1]) b xs zs xn zn s ->
  exists xs' ys xn' yn, xs = xs' ++ ys /\ xn = xn' ++ yn /\ desc_tree geo grown (overlay ov) m (run_lower lower a [c1]) lo c1 ys yn /\
    around ov m lower upper (run_lower lower a [c1]) a b xs' zs xn' zn (s ∪ blocks yn) /\ placed ov (blocks yn) /\ blocks yn ## s.
Proof.
  intros Hval [Hbe Haf Hnext Hf Hi Hap Hpl Hd].
  assert (descs_at geo grown (overlay ov) m lower lo (a ++ [c1] ++ []) xs xn) as Hbe' by (by destruct a).
  destruct (descs_focus geo grown (overlay ov) m lower lo a [c1] [] xs xn Hbe') as (xs' & ys & zs0 & xn' & yn & zn0 & -> & -> & Ha & Hc & [-> ->] & Hmin); [done|].
  exists xs', ys, xn', yn. rewrite !app_nil_r in *. do 2 (split; [done|]). split; [by inversion Hc|].
  rewrite <- app_assoc in Hd. destruct (distinct_sub _ _ _ Hd) as [Hd' Hap']. rewrite !blocks_app in *. rewrite !placed_union in Hpl.
  split; [split; try done|]; [| | | |split; [tauto|]].
  - by intros ->.
  - intros Hne. destruct (Hmin Hne) as [k Hk]. destruct a; [done|]. cbn in Hk |- *. by rewrite Hk.
  - apply apart_less; [|done]. by rewrite (assoc_L (∪)).
  - rewrite placed_union. tauto.
  - intros x Hx Hs. apply (Hap x); [rewrite !elem_of_union; tauto|done].
Qed.

Lemma wpi_settle_alone m lower upper lo a c0 b xs zs xn zn p items kids ov q c :
  let old := pn_old_lba p in
  store {[old]} ov q c -> source_ok ov (old, pn_old_staged p) ->
  pending geo grown new_generation (overlay ov) m lo (run_upper upper b) p items kids ->
  tn_items (pn_node p) <> [] -> (m = O -> pn_min_key p = first_min (pn_node p)) ->
  around ov m lower upper lo a b xs zs xn zn ({[old]} ∪ blocks kids) -> old ∉ blocks kids -> placed ov (blocks kids) ->
  wpi (let! replacement := persist_sources geo new_generation cache_pages decoded_limit [(old, pn_old_staged p)] [(pn_node p, pn_min_key p)] in
       iret (length a, length a, replacement)) c
    (settled m lower upper (a ++ c0 :: b) (xs ++ items ++ zs) ov q (blocks xn ∪ ({[old]} ∪ blocks kids) ∪ blocks zn)) failed.
Proof.
  intros old Hs Hsrc Hpend Hne Hmin [Hbe Haf Hnext Hf Hi Hap Hpl Hd] Hold Hpk. apply wpi_bind.
  destruct (pending_ready geo grown new_generation grown_generation grown_owner (overlay ov) _ _ _ _ _ _ Hpend Hne Hmin) as [Him Hmw].
  assert (list_to_set [(old, pn_old_staged p)].*1 = ({[old]} : gset Z)) as He by (cbn; by rewrite (right_id_L ∅ (∪))).
  assert (blocks (concat [kids]) = blocks kids) as Hk by (cbn; by rewrite app_nil_r).
  eapply wpi_mono; [apply (wpi_persist_sources m (pn_min_key p) (run_upper upper b) [(old, pn_old_staged p)] [(pn_node p, pn_min_key p)] items [kids] ov q c)| |done];
    rewrite ?He, ?Hk; [done|by constructor|apply NoDup_singleton|exact Him| |done|].
  { intros x ->%elem_of_singleton. done. }
  intros ds c' [Hrep Hmins]. apply wpi_ret. apply (settle_join m lower upper a [c0] b lo (pn_min_key p)); try done; [cbn; lia|].
  by rewrite first_key_mins, Hmins.
Qed.

Lemma wpi_settle_pair m lower upper lo k a c0 c1 b xs zs xn zn l r litems ritems lkids rkids ov q c :
  let s : gset Z := {[pn_old_lba l]} ∪ ({[pn_old_lba r]} ∪ blocks (lkids ++ rkids)) in
  store ({[pn_old_lba l]} ∪ {[pn_old_lba r]}) ov q c -> Z.of_nat m <= MAX_TREE_LEVEL ->
  source_ok ov (pn_old_lba l, pn_old_staged l) -> source_ok ov (pn_old_lba r, pn_old_staged r) ->
  pending geo grown new_generation (overlay ov) m lo (Some k) l litems lkids ->
  pending geo grown new_generation (overlay ov) m (Some k) (run_upper upper b) r ritems rkids ->
  above lo k -> below (run_upper upper b) k -> litems ++ ritems <> [] ->
  around ov m lower upper lo a b xs zs xn zn s -> pn_old_lba l <> pn_old_lba r ->
  pn_old_lba l ∉ blocks (lkids ++ rkids) -> pn_old_lba r ∉ blocks (lkids ++ rkids) -> placed ov (blocks (lkids ++ rkids)) ->
  wpi (let! outputs := ilift (rebalance_pair l r (block_size geo)) in
       let! replacement := persist_sources geo new_generation cache_pages decoded_limit
         [(pn_old_lba l, pn_old_staged l); (pn_old_lba r, pn_old_staged r)] outputs in
       do! tally (if bool_decide (length outputs = 1%nat) then merges else redistributions) in
       iret (length a, (length a + 1)%nat, replacement)) c
    (settled m lower upper (a ++ c0 :: c1 :: b) (xs ++ (litems ++ ritems) ++ zs) ov q (blocks xn ∪ s ∪ blocks zn)) failed.
Proof.
  intros s Hs Hm Hsl Hsr Hpl' Hpr Hlo Hup Hne [Hbe Haf Hnext Hf Hi Hap Hpl Hd] Hlr Hl Hr Hpk. pose proof (store_valid _ _ _ _ Hs) as Hval.
  apply wpi_bind, wpi_lift. eapply wp_mono;
    [by apply (join_pair geo grown new_generation grown_generation grown_owner (overlay ov) m lo (run_upper upper b) k l r litems ritems lkids rkids (block_size geo) block_size_ok Hm)
    | |intros; by apply (store_failed _ _ _ _ Hs)].
  intros outputs (min & tail & kidss & Hmins & _ & Him & Hk & Hmw). apply wpi_bind.
  set (sources := [(pn_old_lba l, pn_old_staged l); (pn_old_lba r, pn_old_staged r)]).
  assert (list_to_set sources.*1 = ({[pn_old_lba l]} ∪ {[pn_old_lba r]} : gset Z)) as He by (cbn; by rewrite (right_id_L ∅ (∪))).
  eapply wpi_mono; [apply (wpi_persist_sources m min (run_upper upper b) sources outputs (litems ++ ritems) kidss ov q c)| |done];
    rewrite ?He, ?Hk; [done|constructor; [done|by apply Forall_singleton]| |exact Him| |done|].
  { cbn. apply NoDup_cons. split; [by intros ?%list_elem_of_singleton|apply NoDup_singleton]. }
  { intros x Hx Hx'. rewrite elem_of_union, !elem_of_singleton in Hx. by destruct Hx as [->| ->]. }
  intros ds c' [Hrep Hdm]. apply wpi_bind. pose proof Hrep as (ov' & q' & nodes & Hs' & Hrest). eapply wpi_count; [exact Hs'|]. intros c2 Hs2 _. apply wpi_ret.
  rewrite <- (assoc_L (∪)) in Hrep, Hrest. apply (settle_join m lower upper a [c0; c1] b lo min); try done; [cbn; lia| |].
  - by exists ov', q', nodes.
  - rewrite first_key_mins, Hdm. by rewrite Hmins.
Qed.

(** Reading the sibling of the edited child. *)
Lemma wpi_read_sibling m lo up d lba items nodes s ov q c level depth :
  store s ov q c -> tree_at geo grown (overlay ov) m lo up false lba items nodes -> u64 lba -> placed ov (blocks nodes) ->
  cr_lba (ch_reference d) = lba -> ch_min_key d = lo -> NoDup nodes.*1 ->
  wpi (read_node geo spec new_generation cache_pages lba level lo up false depth) c
    (fun r c' => let '(node, staged, _) := r in exists kids, store ({[lba]} ∪ s) ov q c' /\ source_ok ov (lba, staged) /\
       pending geo grown new_generation (overlay ov) m lo up {| pn_old_lba := lba; pn_old_staged := staged; pn_node := node; pn_min_key := ch_min_key d |} items kids /\
       nodes = (lba, node) :: kids /\ items <> [] /\ lba ∉ blocks kids) failed.
Proof.
  intros Hs Ht Hu Hp Hl Hmin Hd. pose proof (store_valid _ _ _ _ Hs) as Hval.
  eapply wpi_mono; [apply (wpi_read s ov q c lba); [done|done|by eapply tree_placed]| |done].
  intros [[node staged] g] c' (Hs' & _ & Hsrc & Hn).
  destruct (sibling_pending geo grown new_generation grown_generation (overlay ov) m lo up lba items nodes node g staged Ht Hn) as (kids & -> & Hne & Hpend).
  exists kids. rewrite Hmin. do 5 (split; [done|]). rewrite fmap_cons in Hd. apply NoDup_cons in Hd as [Hd _].
  unfold blocks. by rewrite elem_of_list_to_set.
Qed.

Lemma first_below lower upper k items : items <> [] -> within lower upper items -> starts_at (Some k) items -> below upper k.
Proof. intros Hne Hw Hst. destruct items as [|x items]; [done|]. apply Forall_cons in Hw as [[_ Hx] _]. by rewrite <- (Hst k x eq_refl eq_refl). Qed.

Lemma within_gap lower k items : items <> [] -> within lower (Some k) items -> forall l, lower = Some l -> bytes_ltb l k = true.
Proof. intros Hne Hw l ->. destruct items as [|x items]; [done|]. apply Forall_cons in Hw as [[Hx Hu] _]. cbn in *. by eapply bytes_leb_ltb_trans. Qed.

Lemma settled_eq m lower upper all items ov q s items' s' r c :
  settled m lower upper all items ov q s r c -> items' = items -> s' = s -> settled m lower upper all items' ov q s' r c.
Proof. by intros ? -> ->. Qed.

Lemma wpi_join_right m lower upper lo k a c0 c1 b d xs zs xn zn p items kids ov q c level depth :
  let old := pn_old_lba p in
  store {[old]} ov q c -> source_ok ov (old, pn_old_staged p) -> Z.of_nat m <= MAX_TREE_LEVEL ->
  pending geo grown new_generation (overlay ov) m lo (Some k) p items kids -> ch_min_key c1 = Some k -> (forall l, lo = Some l -> bytes_ltb l k = true) ->
  around ov m lower upper lo a (c1 :: b) xs zs xn zn ({[old]} ∪ blocks kids) -> old ∉ blocks kids -> placed ov (blocks kids) ->
  ch_reference d = ch_reference c1 -> ch_min_key d = Some k ->
  wpi (join_sibling geo spec new_generation cache_pages decoded_limit (length a) (length a + 1) p d level (Some k) (run_upper upper b) depth) c
    (settled m lower upper (a ++ c0 :: c1 :: b) (xs ++ items ++ zs) ov q (blocks xn ∪ ({[old]} ∪ blocks kids) ∪ blocks zn)) failed.
Proof.
  intros old Hs Hsrc Hm Hpend Hk Hgap Har Hold Hpk Href Hdm. pose proof (store_valid _ _ _ _ Hs) as Hval.
  destruct (around_right ov m lower upper lo a c1 b xs zs xn zn _ Hval Har) as (ys & zs' & yn & zn' & -> & -> & (Ht & _ & _ & Hu) & Har' & Hpy & Hap).
  rewrite Hk in Ht. destruct (proj1 (tree_at_facts geo grown (overlay ov)) _ _ _ _ _ _ _ Ht) as (_ & Hw & Hne & Hst & _). specialize (Hne eq_refl).
  destruct (proj1 (tree_at_nodes geo grown (overlay ov)) _ _ _ _ _ _ _ Ht) as [_ Hnd].
  unfold join_sibling. rewrite Href. apply wpi_bind.
  eapply wpi_mono; [by apply (wpi_read_sibling m (Some k) (run_upper upper b) d (cr_lba (ch_reference c1)) ys yn {[old]} ov q c); rewrite ?Href| |done].
  intros [[node staged] g] c1' (skids & Hs1 & Hsrc1 & Hpend1 & -> & _ & Hsk). rewrite bool_decide_eq_true_2 by lia. set (sib := cr_lba (ch_reference c1)) in *.
  rewrite (union_comm_L {[sib]}) in Hs1. change ((sib, node) :: skids) with ([(sib, node)] ++ skids) in *. rewrite !blocks_app in *.
  assert (blocks [(sib, node)] = {[sib]}) as Hb by (unfold blocks; cbn; by rewrite (right_id_L ∅ (∪))). rewrite Hb in *.
  set (r := {| pn_old_lba := sib |}) in *. assert (sib ∉ {[old]} ∪ blocks kids) as Hsib by (intros ?; apply (Hap sib); [rewrite elem_of_union, elem_of_singleton; tauto|done]).
  assert (forall x, x ∈ blocks skids -> x ∉ {[old]} ∪ blocks kids) as Hsk' by (intros x Hx ?; apply (Hap x); [rewrite elem_of_union; tauto|done]).
  assert ({[old]} ∪ blocks kids ∪ ({[sib]} ∪ blocks skids) = {[old]} ∪ ({[sib]} ∪ blocks (kids ++ skids))) as Hset.
  { rewrite blocks_app. apply set_eq. intros x. rewrite !elem_of_union. tauto. }
  rewrite Hset in Har'. rewrite elem_of_union, elem_of_singleton in Hsib. apply placed_union in Hpy as [_ Hpy].
  eapply wpi_mono; [apply (wpi_settle_pair m lower upper lo k a c0 c1 b xs zs' xn zn' p r items ys kids skids ov q c1')| |done]; try done.
  - destruct lo as [l|]; [|done]. by apply bytes_ltb_leb, Hgap.
  - by eapply first_below.
  - by destruct items.
  - intros He. apply Hsib. by left.
  - rewrite blocks_app, elem_of_union. intros [?|Hx]; [done|]. apply (Hsk' _ Hx), elem_of_union. left. by apply elem_of_singleton.
  - rewrite blocks_app, elem_of_union. cbn. tauto.
  - by rewrite blocks_app, placed_union.
  - intros res c2 Hres. eapply settled_eq; [exact Hres|by rewrite !app_assoc|].
    rewrite blocks_app. cbn. apply set_eq. intros x. rewrite !elem_of_union. tauto.
Qed.

Lemma wpi_join_left m lower upper k a c0 c1 b d xs zs xn zn p items kids ov q c level depth :
  let old := pn_old_lba p in
  store {[old]} ov q c -> source_ok ov (old, pn_old_staged p) -> Z.of_nat m <= MAX_TREE_LEVEL ->
  pending geo grown new_generation (overlay ov) m (Some k) (run_upper upper b) p items kids -> below (run_upper upper b) k ->
  around ov m lower upper (Some k) (a ++ [c1]) b xs zs xn zn ({[old]} ∪ blocks kids) -> old ∉ blocks kids -> placed ov (blocks kids) ->
  ch_reference d = ch_reference c1 -> ch_min_key d = run_lower lower a [c1] ->
  wpi (join_sibling geo spec new_generation cache_pages decoded_limit (length a + 1) (length a) p d level (run_lower lower a [c1]) (Some k) depth) c
    (settled m lower upper (a ++ c1 :: c0 :: b) (xs ++ items ++ zs) ov q (blocks xn ∪ ({[old]} ∪ blocks kids) ∪ blocks zn)) failed.
Proof.
  intros old Hs Hsrc Hm Hpend Hup Har Hold Hpk Href Hdm. pose proof (store_valid _ _ _ _ Hs) as Hval.
  destruct (around_left ov m lower upper (Some k) a c1 b xs zs xn zn _ Hval Har) as (xs' & ys & xn' & yn & -> & -> & (Ht & _ & _ & Hu) & Har' & Hpy & Hap).
  destruct (proj1 (tree_at_facts geo grown (overlay ov)) _ _ _ _ _ _ _ Ht) as (_ & Hw & Hne & _ & _). specialize (Hne eq_refl).
  destruct (proj1 (tree_at_nodes geo grown (overlay ov)) _ _ _ _ _ _ _ Ht) as [_ Hnd].
  unfold join_sibling. rewrite Href. apply wpi_bind.
  eapply wpi_mono; [by apply (wpi_read_sibling m (run_lower lower a [c1]) (Some k) d (cr_lba (ch_reference c1)) ys yn {[old]} ov q c); rewrite ?Href| |done].
  intros [[node staged] g] c1' (skids & Hs1 & Hsrc1 & Hpend1 & -> & _ & Hsk). rewrite bool_decide_eq_false_2 by lia. set (sib := cr_lba (ch_reference c1)) in *.
  change ((sib, node) :: skids) with ([(sib, node)] ++ skids) in *. rewrite !blocks_app in *.
  assert (blocks [(sib, node)] = {[sib]}) as Hb by (unfold blocks; cbn; by rewrite (right_id_L ∅ (∪))). rewrite Hb in *.
  set (l := {| pn_old_lba := sib |}) in *. assert (sib ∉ {[old]} ∪ blocks kids) as Hsib by (intros ?; apply (Hap sib); [rewrite elem_of_union, elem_of_singleton; tauto|done]).
  assert (forall x, x ∈ blocks skids -> x ∉ {[old]} ∪ blocks kids) as Hsk' by (intros x Hx ?; apply (Hap x); [rewrite elem_of_union; tauto|done]).
  assert ({[old]} ∪ blocks kids ∪ ({[sib]} ∪ blocks skids) = {[sib]} ∪ ({[old]} ∪ blocks (skids ++ kids))) as Hset.
  { rewrite blocks_app. apply set_eq. intros x. rewrite !elem_of_union. tauto. }
  rewrite Hset in Har'. rewrite elem_of_union, elem_of_singleton in Hsib. apply placed_union in Hpy as [_ Hpy].
  eapply wpi_mono; [apply (wpi_settle_pair m lower upper (run_lower lower a [c1]) k a c1 c0 b xs' zs xn' zn l p ys items skids kids ov q c1')| |done]; try done.
  - destruct (run_lower lower a [c1]) as [lo|]; [|done]. apply bytes_ltb_leb. by eapply within_gap.
  - by destruct ys.
  - intros He. apply Hsib. by left.
  - rewrite blocks_app, elem_of_union. cbn. tauto.
  - rewrite blocks_app, elem_of_union. intros [Hx|?]; [|done]. apply (Hsk' _ Hx), elem_of_union. left. by apply elem_of_singleton.
  - by rewrite blocks_app, placed_union.
  - intros res c2 Hres. eapply settled_eq; [exact Hres|by rewrite <- !app_assoc|].
    rewrite blocks_app. cbn. apply set_eq. intros x. rewrite !elem_of_union. tauto.
Qed.

Lemma needs_rebalance_total node bs : wp (needs_rebalance node bs) (fun r => r = false -> tn_items node <> []) any_error.
Proof.
  unfold needs_rebalance. apply wp_bind, wp_of_format, wp_encoded_len; [|done]. apply wp_bind, wp_ok_or; [|done].
  intros twice _. apply wp_ok. intros H He. rewrite He in H. done.
Qed.

(** The minimum of the leftmost child, put back. *)
Definition with_first (k : option bytes) (ds : list ChildDesc) : list ChildDesc :=
  match ds with d :: ds => set_min_key k d :: ds | [] => [] end.

Lemma set_first_with k ds : ds <> [] -> set_first_min (E := CoreError) k ds = Ok (with_first k ds).
Proof. by destruct ds. Qed.

Lemma with_first_lookup k a c b : with_first k (a ++ c :: b) !! length a = Some (match a with [] => set_min_key k c | _ => c end).
Proof. destruct a; [done|]. cbn. apply list_lookup_middle. done. Qed.

Lemma with_first_length k ds : length (with_first k ds) = length ds.
Proof. by destruct ds. Qed.

Lemma wpi_settle_child m lower upper lba level is_root depth child_level node g a c0 b xs zs xn zn p items kids ov q c :
  let old := pn_old_lba p in let lo := run_lower lower a [c0] in
  store {[old]} ov q c -> source_ok ov (old, pn_old_staged p) -> Z.of_nat m <= MAX_TREE_LEVEL ->
  pending geo grown new_generation (overlay ov) m lo (run_upper upper b) p items kids ->
  (m = O -> pn_min_key p = first_min (pn_node p)) ->
  (forall l u, lo = Some l -> run_upper upper b = Some u -> bytes_ltb l u = true) ->
  around ov m lower upper lo a b xs zs xn zn ({[old]} ∪ blocks kids) -> old ∉ blocks kids -> placed ov (blocks kids) ->
  overlay ov lba = Ok (node, g) -> u64 lba -> is_Some (ov !! lba) \/ P lba ->
  children_from_node node = Ok (a ++ c0 :: b) -> descs_of node (a ++ c0 :: b) -> tn_items node <> [] ->
  (a <> [] -> is_Some (ch_min_key c0)) ->
  wpi (settle_child geo spec new_generation cache_pages decoded_limit lba level lower lower upper is_root depth (length a) child_level p) c
    (settled m lower upper (a ++ c0 :: b) (xs ++ items ++ zs) ov q (blocks xn ∪ ({[old]} ∪ blocks kids) ∪ blocks zn)) failed.
Proof.
  intros old lo Hs Hsrc Hm Hpend Hmin Hgap Har Hold Hpk Hn Hu Hpl Hcf Hof Hne Hamin. unfold settle_child.
  apply wpi_bind, wpi_lift. eapply wp_mono; [apply needs_rebalance_total| |intros; by apply (store_failed _ _ _ _ Hs)].
  intros [] Hreb; [|by apply (wpi_settle_alone m lower upper lo); auto].
  apply wpi_bind. eapply wpi_mono; [by apply (wpi_read {[old]} ov q c lba)| |done]. intros [[node' st] g'] c2 (Hs2 & Hat & _ & Hn').
  rewrite Hn in Hn'. injection Hn' as <- <-. rewrite Hcf. apply wpi_bind, wpi_lift, wp_ok. rewrite set_first_with by (by destruct a).
  apply wpi_bind, wpi_lift, wp_ok. rewrite with_first_length, length_app. cbn [length]. destruct b as [|c1 b].
  - destruct a as [|c1 a _] using rev_ind; [destruct Hof as [_ HF]; by apply Forall2_nil_inv_l in HF|].
    rewrite bool_decide_eq_false_2 by (cbn; lia). rewrite length_app. cbn [length]. replace (length a + 1)%nat with (S (length a)) by lia. rewrite <- app_assoc in Hof |- *. cbn [app] in *.
    apply wpi_bind, wpi_lift, wp_ok. rewrite (child_range_spec node a c1 [c0]) by done. apply wpi_bind, wpi_lift, wp_ok.
    rewrite with_first_lookup. apply wpi_bind, wpi_lift, wp_ok. apply wpi_bind.
    eapply wpi_mono; [by apply (wpi_cache {[old]} ov q c2 lba node g)| |done]. intros [] c3 Hs3.
    destruct Hamin as [k Hk]; [by destruct a|]. assert (lo = Some k) as Hlo by (unfold lo; by destruct a). cbn [run_upper first_key] in *. rewrite Hk, Hlo in *.
    replace (S (length a)) with (length a + 1)%nat by lia. apply (wpi_join_left m lower upper k a c0 c1 []); try done.
    + destruct upper as [u|]; [|done]. by apply (Hgap k u).
    + by destruct a.
    + by destruct a.
  - rewrite bool_decide_eq_true_2 by (cbn; lia). apply wpi_bind, wpi_lift, wp_ok.
    assert (length a + 1 = length (a ++ [c0]))%nat as Hlen by (rewrite length_app; cbn; lia).
    assert (a ++ c0 :: c1 :: b = (a ++ [c0]) ++ c1 :: b) as Hall by (by rewrite <- app_assoc).
    rewrite Hlen at 1. rewrite (child_range_spec node (a ++ [c0]) c1 b) by (by rewrite <- Hall). apply wpi_bind, wpi_lift, wp_ok.
    rewrite Hall, Hlen at 1. rewrite with_first_lookup. apply wpi_bind, wpi_lift, wp_ok. apply wpi_bind.
    eapply wpi_mono; [by apply (wpi_cache {[old]} ov q c2 lba node g)| |done]. intros [] c3 Hs3.
    destruct (ar_next _ _ _ _ _ _ _ _ _ _ _ _ Har) as [k Hk]; [done|]. cbn [first_key run_upper] in *.
    assert (run_lower lower (a ++ [c0]) [c1] = Some k) as -> by (destruct a; by cbn). rewrite Hk in *.
    apply (wpi_join_right m lower upper lo k a c0 c1 b); try done; [intros l Hl; by apply (Hgap l k)|by destruct a|by destruct a].
Qed.

Lemma with_first_splice k a mid b : mid <> [] ->
  exists mid', with_first k (a ++ mid ++ b) = with_first k a ++ mid' ++ b /\ length mid' = length mid /\ mid' <> [].
Proof. destruct a as [|d a]; [|by exists mid]. destruct mid as [|d mid]; [done|]. intros _. by exists (set_min_key k d :: mid). Qed.

Lemma with_first_key k a ds b : ds <> [] -> first_key (with_first k a ++ ds ++ b) = match a with [] => first_key ds | _ => k end.
Proof. intros Hne. destruct a; [by destruct ds|done]. Qed.

Lemma descs_with_first nd m lower upper k a ds items kids : descs_at geo grown nd m lower upper (a ++ ds) items kids ->
  descs_at geo grown nd m lower upper (with_first k a ++ ds) items kids.
Proof. destruct a as [|d a]; [done|]. cbn. by apply descs_first. Qed.

Lemma allow_one_pending nd m lower upper node ds min items kids lba staged : ValidNodes nd ->
  descs_at geo grown nd m min upper ds items kids -> of_tree grown (S m) node -> Z.of_nat (S m) <= MAX_TREE_LEVEL -> min_within lower min ->
  wp (internal_allow_one node ds)
    (fun node' => pending geo grown new_generation nd (S m) lower upper
       {| pn_old_lba := lba; pn_old_staged := staged; pn_node := node'; pn_min_key := min |} items kids) any_error.
Proof.
  intros Hval Hds Hot Hm Hmin. destruct (descs_facts geo grown nd _ _ _ _ _ _ Hds) as (Hrefs & _).
  destruct ds as [|d [|d2 ds]]; [done| |].
  - apply wp_ok. split; [done|]. eexists _, []. split; [done|]. split; [|done]. eapply descs_first, Hds. by destruct d as [? []].
  - cbn [internal_allow_one]. apply wp_any; [by eapply wp_not_panic, internal_from_children_spec|]. intros node' Hn'.
    destruct (branch_ready geo grown new_generation grown_generation grown_owner nd m min upper false _ _ _ _ _ Hds Hn' Hot Hm) as (Hr & _ & Hot').
    split; [done|]. cbn [pn_node pn_min_key]. destruct (valid_children node' new_generation) as (e & tl & Hcf & _ & Hof); [apply Hr|by eapply branch_not_leaf|].
    exists e, tl. split; [done|]. split; [|done]. destruct Hr as (Hv & _ & _ & _ & Hch). eapply (tree_descs geo grown nd); [exact Hv|by eapply branch_not_leaf|done|done].
Qed.

Lemma wpi_delete_leaf lba staged node lower upper key items nodes ov q c is_root :
  store {[lba]} ov q c -> source_ok ov (lba, staged) -> (exists g, overlay ov lba = Ok (node, g)) ->
  tree_at geo grown (overlay ov) 0 lower upper is_root lba items nodes -> placed ov (blocks nodes) ->
  wpi (let! items := ilift (ok_or (delete_item key (tn_items node)) NotFound) in
       let node := set_items items node in
       iret {| pn_old_lba := lba; pn_old_staged := staged; pn_node := node; pn_min_key := first_min node |}) c
    (fun p c' => exists items', delete_item key items = Some items' /\ edited 0 lower upper items' ov q (blocks nodes) lba p c') failed.
Proof.
  intros Hs Hsrc [g Hn] Ht Hp. pose proof (store_valid _ _ _ _ Hs) as Hval.
  destruct (proj1 (tree_at_facts geo grown (overlay ov)) _ _ _ _ _ _ _ Ht) as (Hso & Hw & _).
  destruct (tree_ready geo grown _ _ _ _ _ _ _ _ Ht) as (node' & g' & kids & Hn' & -> & Hv & Hot & Hr & -> & ->).
  rewrite Hn in Hn'. injection Hn' as <- <-. destruct (leaf_of grown node g Hv Hot) as [Hleaf Hz]. pose proof (valid_items _ _ Hv) as Hi.
  apply wpi_bind, wpi_lift, wp_ok_or; [|intros; by apply (store_failed _ _ _ _ Hs)]. intros items' Hdel.
  pose proof (delete_item_sub _ _ _ Hdel) as Hsub. cbv zeta. apply wpi_ret. exists items'. split; [done|].
  assert (blocks [(lba, node)] = {[lba]} ∪ blocks []) as Hb by done. exists ov, q, []. do 3 (split; [done|]). split; [|split; [done|]].
  - rewrite Hleaf. pose proof (sublist_zlen _ _ Hsub). split; [done|]. cbn [pn_node]. split; [done|]. split; [done|]. split; [lia|].
    split; [by eapply sublist_sorted|]. split; by eapply sublist_all.
  - rewrite Hb in *. split; [by apply step_refl|apply not_elem_of_empty].
Qed.

(** The neighbours of an edited child, after the edit. *)
Lemma descent_around ov q ov1 q1 m lower upper lba key node g items nodes a c0 b xs ys zs xn yn zn s :
  descent ov m lower upper lba key node g items nodes a c0 b xs ys zs xn yn zn -> placed ov (blocks nodes) -> step ov q (blocks yn) ov1 q1 s ->
  around ov1 m lower upper (run_lower lower a [c0]) a b xs zs xn zn s /\
  step ov q (blocks nodes) ov1 q1 ({[lba]} ∪ (blocks xn ∪ s ∪ blocks zn)) /\ (lba ∉ blocks xn ∪ s ∪ blocks zn) /\
  overlay ov1 lba = overlay ov lba /\ (is_Some (ov1 !! lba) \/ P lba).
Proof.
  intros [_ _ _ _ Hnodes Hnd _ _ _ _ _ Hbe _ Haf _ _ _ _ Hmin Hnext] Hp Hstep. rewrite Hnodes in *.
  destruct (child_step ov q ov1 q1 lba node xn yn zn s Hnd Hp Hstep) as (Hst & Hap & Hpl & Hov & Hlz). rewrite blocks_around in Hst.
  assert (lba ∈ {[lba]} ∪ (blocks xn ∪ blocks zn)) as Hin by (apply elem_of_union; left; by apply elem_of_singleton).
  split; [|split; [done|split; [|split; [by apply Hov|by apply Hpl]]]].
  - pose proof Hpl as [_ Hpl']%placed_union. rewrite fmap_cons in Hnd. apply NoDup_cons in Hnd as [_ Hnd].
    split; [|..|by destruct (distinct_sub _ _ _ Hnd)].
    + eapply run_frame; [exact Hbe|]. intros x Hx. apply Hov. rewrite !elem_of_union. tauto.
    + eapply run_frame; [exact Haf|]. intros x Hx. apply Hov. rewrite !elem_of_union. tauto.
    + done.
    + by intros ->.
    + intros Hne. destruct (Hmin Hne) as [k Hk]. destruct a; [done|]. cbn. by rewrite Hk.
    + intros x Hx Hs. apply (Hap x); [|done]. rewrite elem_of_union. by right.
    + done.
  - rewrite !elem_of_union in *. intros [[?|Hs]|?]; [tauto| |tauto]. apply (Hap lba); [rewrite !elem_of_union; tauto|done].
Qed.

(** The way back up from a settled child. *)
Lemma wpi_delete_parent m lower upper lba level is_root depth node g all items s ov q i j ds c :
  settled m lower upper all items ov q s (i, j, ds) c -> u64 lba -> overlay ov lba = Ok (node, g) -> is_Some (ov !! lba) \/ P lba -> lba ∉ s ->
  children_from_node node = Ok all -> of_tree grown (S m) node -> Z.of_nat (S m) <= MAX_TREE_LEVEL ->
  wpi (let! '(node, staged, _) := read_node geo spec new_generation cache_pages lba level lower upper is_root depth in
       let! children := ilift (children_from_node node) in
       let! children := ilift (set_first_min lower children) in
       let! children := ilift (splice children i j ds) in
       match children with
       | [] => fun c => (c, Panic)
       | first :: _ =>
           let min_key := match ch_min_key first with Some k => Some k | None => lower end in
           let! node := ilift (internal_allow_one node children) in
           iret {| pn_old_lba := lba; pn_old_staged := staged; pn_node := node; pn_min_key := min_key |}
       end) c
    (edited (S m) lower upper items ov q ({[lba]} ∪ s) lba) failed.
Proof.
  intros (a & mid & b & ov' & q' & kids & min & -> & Hi & Hj & Hmid & Hdsn & Hs & Hds & Hstep & Hmin & Hmw) Hu Hn Hpl Hlba Hcf Hot Hm.
  pose proof (store_valid _ _ _ _ Hs) as Hval.
  assert (overlay ov' lba = Ok (node, g)) as Hn' by (rewrite <- Hn; by eapply step_overlay).
  assert (({[lba]} : gset Z) ## s) as Hdis by (intros x ->%elem_of_singleton; done).
  assert (placed ov {[lba]}) as Hpl0 by (intros x ->%elem_of_singleton; done).
  pose proof (step_still_placed _ _ _ _ _ _ _ _ Hstep Hdis Hpl0) as Hpl1. pose proof (step_apart _ _ _ _ _ _ _ _ Hstep Hdis Hpl0) as Hap1.
  apply wpi_bind. eapply wpi_mono; [apply (wpi_read ∅ ov' q' c lba); [done|done|by apply Hpl1, elem_of_singleton]| |done].
  intros [[node' staged] g'] c1 (Hs1 & _ & Hsrc & Hn1). rewrite Hn' in Hn1. injection Hn1 as <- <-. rewrite (right_id_L ∅ (∪)) in Hs1.
  rewrite Hcf. apply wpi_bind, wpi_lift, wp_ok. rewrite set_first_with by (by destruct a, mid). apply wpi_bind, wpi_lift, wp_ok.
  destruct (with_first_splice lower a mid b Hmid) as (mid' & Heq & Hlen & Hmid'). rewrite Heq, (splice_spec _ mid' b ds) by (by rewrite ?with_first_length, ?Hlen).
  apply wpi_bind, wpi_lift, wp_ok. apply (descs_with_first _ _ _ _ lower) in Hds. pose proof (with_first_key lower a ds b Hdsn) as Hfk. rewrite <- Hmin in Hfk.
  destruct (with_first lower a ++ ds ++ b) as [|first rest]; [by apply descs_nonempty in Hds|]. cbn [first_key] in Hfk. cbv zeta.
  assert (match ch_min_key first with Some k => Some k | None => lower end = min) as ->.
  { rewrite Hfk. destruct min as [k|]; [done|]. by cbn in Hmw. }
  apply wpi_bind, wpi_lift. eapply wp_mono; [by apply (allow_one_pending (overlay ov') m lower upper node (first :: rest) min items kids lba staged)| |intros; by apply (store_failed _ _ _ _ Hs1)].
  intros node' Hpend. apply wpi_ret. exists ov', q', kids. do 3 (split; [done|]). split; [done|]. split; [done|]. split; [by apply step_frame|].
  intros Hx. apply (Hap1 lba); [by apply elem_of_singleton|done].
Qed.

Lemma edited_step n lower upper items ov q s ov1 q1 s1 lba p c :
  step ov q s ov1 q1 s1 -> edited n lower upper items ov1 q1 s1 lba p c -> edited n lower upper items ov q s lba p c.
Proof.
  intros H (ov' & q' & kids & ? & ? & ? & ? & ? & ? & ?). exists ov', q', kids. do 5 (split; [done|]). split; [by eapply step_trans|done].
Qed.

Lemma wpi_delete_node key fuel : forall n lba level lower upper is_root depth ov q c items nodes,
  MAX_TREE_LEVEL - depth < Z.of_nat fuel -> store ∅ ov q c ->
  tree_at geo grown (overlay ov) n lower upper is_root lba items nodes -> u64 lba -> placed ov (blocks nodes) -> above lower key -> below upper key ->
  wpi (delete_node geo spec new_generation cache_pages decoded_limit fuel lba level lower lower upper is_root depth key) c
    (fun p c' => exists items', delete_item key items = Some items' /\ edited n lower upper items' ov q (blocks nodes) lba p c') failed.
Proof.
  induction fuel as [|fuel IH]; intros n lba level lower upper is_root depth ov q c items nodes Hfuel Hs Ht Hu Hp Hlo Hup;
    cbn [delete_node]; (apply wpi_if; intros Hdepth; [by apply (store_failed _ _ _ _ Hs)|]); [lia|].
  pose proof (store_valid _ _ _ _ Hs) as Hval. pose proof (tree_placed _ _ _ _ _ _ _ _ Ht Hp) as Hl.
  apply wpi_bind. eapply wpi_mono; [by apply (wpi_read ∅ ov q c)| |done]. intros [[node staged] g] c2 (Hs2 & Hat & Hsrc & Hn).
  destruct n as [|m].
  { destruct (tree_ready geo grown _ _ _ _ _ _ _ _ Ht) as (node' & g' & kids & Hn' & _ & _ & (_ & _ & Hlv) & _). rewrite Hn in Hn'. injection Hn' as <- <-.
    replace (is_leaf node) with true by (unfold is_leaf; lia). rewrite (right_id_L ∅ (∪)) in Hs2. eapply wpi_delete_leaf; [done|done|by exists g|done|done]. }
  destruct (descend ov m lower upper is_root lba items nodes node g key Hval Ht Hn Hlo Hup) as (a & c0 & b & xs & ys & zs & xn & yn & zn & De).
  pose proof De as [Hv Hot Hlev Hitems Hnodes Hnd Hcf Hof Hfirst Htot Hidx Hbe (Hct & Hcz & Hcl & Hcu) Haf Hkb Hka Hlo' Hup' Hmin Hnext].
  rewrite (branch_not_leaf _ _ Hot). cbv zeta. rewrite <- Hidx, (child_range_spec node a c0 b) by done. apply wpi_bind, wpi_lift, wp_ok.
  destruct (child_at_spec node a c0 b Hof) as (ch & Hch & Href & Hchm). rewrite Hch. apply wpi_bind, wpi_lift, wp_ok.
  apply wpi_bind, wpi_lift, wp_sub_w; [destruct Hot as (_ & _ & ?); lia|]. apply wpi_bind.
  eapply wpi_mono; [by apply (wpi_cache ∅ ov q c2 lba node g)| |done]. intros [] c3 Hs3. apply wpi_bind.
  set (child := match length a with O => set_min_key lower ch | S _ => ch end).
  assert (ch_reference child = ch_reference c0) as Hcr by (unfold child; by destruct a).
  assert (ch_min_key child = run_lower lower a [c0]) as Hcm by (unfold child; by destruct a). rewrite Hcr, Hcm.
  assert (placed ov (blocks yn)) as Hpy.
  { rewrite Hnodes in Hp. change ((lba, node) :: xn ++ yn ++ zn) with ([(lba, node)] ++ xn ++ yn ++ zn) in Hp. rewrite !blocks_app, !placed_union in Hp. tauto. }
  eapply wpi_mono; [apply (IH m (cr_lba (ch_reference c0)) _ (run_lower lower a [c0]) (run_upper upper b) false (depth + 1) ov q c3 ys yn)| |done];
    [lia|done|done|done|done|done|done|].
  intros p c4 (ys' & Hdel & ov1 & q1 & kids & Hs4 & Hold & Hsrc4 & Hpend & Hpm & Hstep & Hok). rewrite <- Hold in *.
  destruct (descent_around _ _ _ _ _ _ _ _ _ _ _ _ _ _ _ _ _ _ _ _ _ _ _ De Hp Hstep) as (Har & Hst & Hlba & Hov & Hpl).
  destruct (proj1 (tree_at_facts geo grown (overlay ov)) _ _ _ _ _ _ _ Hct) as (_ & Hcw & Hcne & _ & _).
  destruct (node_valid _ _ Hv) as (_ & _ & Hne). rewrite (branch_not_leaf _ _ Hot) in Hne. destruct Hne as [Hne _].
  apply wpi_bind. eapply wpi_mono; [apply (wpi_settle_child m lower upper lba level is_root depth (tn_level node - 1) node g a c0 b xs zs xn zn p ys' kids ov1 q1 c4)| |done]; try done.
  - lia.
  - intros l u Hl' Hu'. eapply within_gap; [by apply Hcne| |exact Hl']. by rewrite <- Hu'.
  - by destruct (proj1 (placed_union _ _ _ _) (step_placed _ _ _ _ _ _ _ Hstep)).
  - by rewrite Hov.
  - intros [[i j] ds] c5 Hset. eapply wpi_mono; [by apply (wpi_delete_parent m lower upper lba level is_root depth node g _ _ _ ov1 q1 i j ds c5 Hset); rewrite ?Hov| |done].
    intros p' c6 Hed. exists (xs ++ ys' ++ zs). split; [|by eapply edited_step]. rewrite Hitems, delete_item_mid by done. by rewrite Hdel.
Qed.

(** ** A batch of edits *)

(** The tree under a root block. *)
Definition rooted (ov : gmap Z TreeNode) (root : Z) (items : list TreeItem) (nodes : list (Z * TreeNode)) : Prop :=
  u64 root /\ tree_of geo grown (overlay ov) root items nodes.

(** The reference meaning of an operation on the sorted list of items. *)
Definition edit (operation : TreeOperation) (items : list TreeItem) : option (list TreeItem) :=
  match operation with
  | Upsert key value => Some (upsert_item key value items)
  | Delete key => delete_item key items
  end.

Fixpoint edits (operations : list TreeOperation) (items : list TreeItem) : option (list TreeItem) :=
  match operations with
  | [] => Some items
  | operation :: operations => match edit operation items with Some items => edits operations items | None => None end
  end.

Definition moved (ov : gmap Z TreeNode) (q : gset Z) (s : gset Z) (items : list TreeItem) (root : Z) (c : ctx) : Prop :=
  exists ov' q' nodes, store ∅ ov' q' c /\ rooted ov' root items nodes /\ step ov q s ov' q' (blocks nodes).

Lemma desc_rooted ov n lower d items nodes : desc_tree geo grown (overlay ov) n lower None d items nodes ->
  rooted ov (cr_lba (ch_reference d)) items nodes.
Proof.
  intros (Ht & _ & Hg & Hu). split; [done|]. split; [done|]. exists n. eapply (proj1 (tree_weaken geo grown (overlay ov))); [exact Ht|by right|done|done].
Qed.

Lemma moved_step ov q s ov1 q1 s1 items root c : step ov q s ov1 q1 s1 -> moved ov1 q1 s1 items root c -> moved ov q s items root c.
Proof. intros H (ov' & q' & nodes & ? & ? & ?). exists ov', q', nodes. do 2 (split; [done|]). by eapply step_trans. Qed.

Lemma stored_moved n node min items kids ov q s d c :
  ready geo grown new_generation (overlay ov) n None None true node items kids -> s ## blocks kids -> placed ov (blocks kids) ->
  stored ov q s [(node, min)] [d] c -> moved ov q (s ∪ blocks kids) items (cr_lba (ch_reference d)) c.
Proof.
  intros Hr Hdis Hpl (lbas & ov' & q' & Hst & Hl & Hd & Hstep & Hat & Hok). destruct lbas as [|lba [|? ?]]; [done| |done].
  injection Hd as ->. cbn. apply Forall2_cons_1 in Hat as [Hat _]. cbn in Hat. apply Forall_cons in Hok as [[Hu Hg] _].
  exists ov', q', ((lba, node) :: kids). split; [done|]. split.
  - split; [done|]. split; [done|]. exists n. apply (ready_tree geo grown new_generation grown_generation); [|unfold CowStore.overlay; by rewrite Hat].
    eapply ready_frame; [exact Hr|]. intros [x nd'] Hp. assert (x ∈ blocks kids) as Hb by (apply elem_of_blocks; by exists nd').
    eapply step_overlay; [exact Hstep|intros ?; by apply (Hdis x)|by apply Hpl].
  - change ((lba, node) :: kids) with ([(lba, node)] ++ kids). rewrite blocks_app. rewrite (union_comm_L s), (union_comm_L (blocks [_])).
    apply step_frame; [done| |done]. intros x Hx Hs. by apply (Hdis x).
Qed.

Lemma wpi_grow_root n items ov q s r c :
  replaced n None None items ov q s (re_children r) c -> re_level r = Z.of_nat n -> (2 <= length (re_children r) <= 2)%nat -> Z.of_nat n <= MAX_TREE_LEVEL ->
  wpi (grow_root geo spec new_generation cache_pages decoded_limit r) c (moved ov q s items) failed.
Proof.
  intros (ov1 & q1 & nodes & Hs & Hds & Hstep) Hlev Hlen Hn. unfold grow_root. pose proof (store_failed _ _ _ _ Hs) as Hf. rewrite Hlev.
  pose proof (store_valid _ _ _ _ Hs) as Hval.
  apply wpi_if; intros Hmax; [apply Hf|]. destruct (re_children r) as [|f [|sec [|? ?]]]; cbn in Hlen; try lia. cbv zeta.
  unfold MAX_TREE_LEVEL in *. apply wpi_bind, wpi_lift, wp_add_w; [lia|].
  apply wpi_bind, wpi_lift, wp_checked_add; [|intros; apply Hf]. intros Htot. apply wpi_bind, wpi_lift, wp_ok_or; [|intros; apply Hf]. intros k Hk.
  destruct (descs_facts geo grown (overlay ov1) _ _ _ _ _ _ Hds) as (Hrefs & _). apply Forall_cons in Hrefs as [Hrf Hrs]. apply Forall_cons in Hrs as [Hrs _].
  destruct (child_value_ok _ Hrs) as (v & Hv & _). rewrite Hv. apply wpi_bind, wpi_lift, wp_ok. destruct Hrs as (Hsu & _ & Hss).
  pose proof (child_ref_child_value _ _ Hsu ltac:(unfold u64; lia) Hv k) as Hcr. apply wpi_bind.
  set (node := {| tn_items := [{| ti_key := k; ti_value := v |}] |}).
  assert (total_of [f; sec] = cr_subtree_items (ch_reference f) + cr_subtree_items (ch_reference sec)) as Hsum by (unfold total_of; cbn; lia).
  destruct (built_ready geo grown new_generation grown_generation grown_owner (overlay ov1) n None None true node f [sec] [{| ti_key := k; ti_value := v |}] items nodes)
    as (Hr & _); [done|by repeat constructor|done|by rewrite Hsum|split; [done|split; [done|cbn; lia]]|unfold MAX_TREE_LEVEL; lia|].
  rewrite Hsum in Hr. change (ready geo grown new_generation (overlay ov1) (S n) None None true node items nodes) in Hr.
  pose proof Hs as [HI Hq]. eapply wpi_mono; [apply (wpi_allocate_block geo new_generation decoded_limit d0 P ∅ ov1 c (owned (mc_tx c)) q1)| |done]; [done|done|].
  intros lba c1 (HI1 & [Ho1 Hq1] & Hno & Hov). apply wpi_bind. eapply (wpi_count ∅ ov1 q1); [done|]. intros c2 [HI2 Hq2] Ht2. apply wpi_bind.
  assert (lba ∈ owned (mc_tx c2)) as Hown by (rewrite Ht2, Ho1; apply elem_of_union; left; by apply elem_of_singleton).
  assert (fresh P ov1 lba) as Hfresh.
  { split; [done|]. rewrite <- (inv_committed _ _ _ _ _ _ _ _ HI2). apply (owned_free (mc_dev c2) (mc_tx c2) lba); [apply HI2|done]. }
  eapply wpi_mono; [apply (wpi_stage_node geo new_generation cache_pages decoded_limit limit_nonneg d0 P pages_nonneg ∅ ov1 c2 lba node)| |done];
    [eapply inv_holes; [exact HI2|intros x Hx; by apply not_elem_of_empty in Hx]|done|apply Hr|].
  intros _ c3 [HI3 Ht3]. apply wpi_bind. eapply (wpi_count ∅ (<[lba := node]> ov1) q1); [split; [done|by rewrite Ht3]|]. intros c4 Hs4 _. apply wpi_ret.
  apply (moved_step ov q s ov1 q1 (∅ ∪ blocks nodes)); [by rewrite (left_id_L ∅ (∪))|].
  apply (stored_moved (S n) node None items nodes ov1 q1 ∅ (image_desc (node, None) lba)); [done|by intros x ?%not_elem_of_empty|apply Hstep|].
  exists [lba], (<[lba := node]> ov1), q1. split; [done|]. split; [done|]. split; [done|]. split; [|split].
  - apply (step_place P ov1 ov1 q1 q1 ∅ [(node, None)] [lba]);
      [done|apply NoDup_singleton|intros x Hx; by apply not_elem_of_empty in Hx| | |done| |].
    + intros x. by apply (store_staged _ _ _ _ x Hs).
    + intros x ->%list_elem_of_singleton. by right.
    + intros x Hx. by apply not_elem_of_empty in Hx.
    + intros x. rewrite elem_of_empty. tauto.
  - constructor; [|constructor]. apply lookup_insert_eq.
  - apply Forall_singleton. destruct (owned_free (mc_dev c2) (mc_tx c2) lba) as (_ & ? & ?); [apply HI2|done|done].
Qed.

Lemma wpi_discard ov q c p : store {[pn_old_lba p]} ov q c -> source_ok ov (pn_old_lba p, pn_old_staged p) ->
  wpi (discard_pending geo new_generation p) c
    (fun _ c' => exists ov' q', store ∅ ov' q' c' /\ step ov q {[pn_old_lba p]} ov' q' ∅) failed.
Proof.
  intros Hs [Hp Hst]. cbn in Hp, Hst. unfold discard_pending. set (lba := pn_old_lba p) in *.
  assert (forall x, is_Some (ov !! x) -> ~ P x) as Hdis by (intros x; by apply (store_staged _ _ _ _ x Hs)).
  assert (placed ov {[lba]}) as Hpl by (intros x ->%elem_of_singleton; done). destruct (pn_old_staged p); symmetry in Hst.
  - apply bool_decide_eq_true_1 in Hst. destruct Hs as [HI Hq]. apply wpi_bind.
    eapply wpi_mono; [apply (wpi_remove_staged geo new_generation decoded_limit d0 P ∅ ov c lba); by rewrite (right_id_L ∅ (∪))| |done].
    intros r c1 (HI1 & Ht1 & Hr). destruct r as [image|]; [|apply HI1]. apply wpi_bind.
    eapply wpi_mono; [apply (wpi_release_block geo new_generation decoded_limit d0 P ∅ (delete lba ov) c1 lba (owned (mc_tx c)) q)| |done];
      [done|by split; rewrite Ht1|by apply HI|apply lookup_delete_eq|].
    intros _ c2 (HI2 & Ho2 & Hq2). eapply wpi_count; [by split|]. intros c3 Hs3 _. exists (delete lba ov), q. split; [done|].
    apply step_drop; [done|done| | |].
    + intros x Hx. rewrite lookup_delete_ne; [done|]. intros ->. by apply Hx, elem_of_singleton.
    + intros x ->%elem_of_singleton. apply lookup_delete_eq.
    + intros x. split; [by left|]. intros [?|[->%elem_of_singleton Hn]]; [done|]. rewrite Hn in Hst. by destruct Hst.
  - apply bool_decide_eq_false_1 in Hst. destruct Hp as [?|Hp]; [done|]. assert (ov !! lba = None) as Hn by (destruct (ov !! lba); [by destruct Hst|done]).
    destruct Hs as [HI Hq]. apply wpi_bind. eapply wpi_mono; [apply (wpi_retire_block geo new_generation decoded_limit d0 P {[lba]} ov c lba (owned (mc_tx c)) q)| |done]; [done|done|done|].
    intros _ c1 (HI1 & _ & Hq1). eapply (wpi_count {[lba]} ov ({[lba]} ∪ q)); [done|]. intros c2 Hs2 _. exists ov, ({[lba]} ∪ q). split.
    { eapply store_holes; [exact Hs2|]. intros x ->%elem_of_singleton Hx. rewrite Hn in Hx. by destruct Hx. }
    apply step_drop; [done|done|done| |].
    + by intros x ->%elem_of_singleton.
    + intros x. rewrite elem_of_union, elem_of_singleton. split; [intros [->|?]; [by right|by left]|intros [?|[-> _]]; [by right|by left]].
Qed.

Lemma validate_key_ok key : wp (validate_key key) (fun _ => 1 <= zlen key <= MAX_TREE_KEY_BYTES) any_error.
Proof.
  unfold validate_key. apply wp_if; intros H; [done|]. apply wp_ok. pose proof (zlen_nonneg key). apply orb_false_iff in H as [? ?]. lia.
Qed.

Lemma validate_upsert_ok key value : wp (validate_upsert key value) (fun _ => item_ok {| ti_key := key; ti_value := value |}) any_error.
Proof.
  unfold validate_upsert. apply wp_bind. eapply wp_mono; [apply validate_key_ok| |done]. intros [] Hk. apply wp_if; intros H; [done|]. apply wp_ok.
  split; [done|]. cbn. pose proof (zlen_nonneg value). lia.
Qed.

(** An edited root that stays. *)
Lemma pending_root n items kids ov p : ValidNodes (overlay ov) ->
  of_tree grown n (pn_node p) -> (0 <? tn_level (pn_node p)) && (zlen (tn_items (pn_node p)) =? 0) = false ->
  pending geo grown new_generation (overlay ov) n None None p items kids ->
  ready geo grown new_generation (overlay ov) n None None true (pn_node p) items kids.
Proof.
  intros Hval (_ & _ & Hl) Hc [Hot Hpend]. destruct n as [|m].
  - destruct Hpend as (-> & -> & Hz & Hs & Hi & Hw). by apply (leaf_ready geo grown new_generation grown_generation grown_owner).
  - destruct Hpend as (d & tl & _ & _ & _ & Hr). destruct Hr as (Hv & ? & Hra & Hsub & Hch).
    { intros He. rewrite He in Hc. apply andb_false_iff in Hc as [Hc|Hc]; [lia|done]. }
    split; [done|]. split; [done|]. split; [eapply range_weaken; [exact Hra|by right|done|done]|]. split; [done|].
    eapply (proj2 (tree_weaken geo grown (overlay ov))); [exact Hch|by right|done].
Qed.

(** The root after a deletion: written again, or replaced by its only child. *)
Lemma wpi_settle_root n items ov q s root p c :
  edited n None None items ov q s root p c ->
  wpi (if (0 <? tn_level (pn_node p)) && (zlen (tn_items (pn_node p)) =? 0) then
         do! discard_pending geo new_generation p in
         do! tally root_collapses in
         iret (tn_leftmost_child (pn_node p))
       else
         let! replacement := persist_sources geo new_generation cache_pages decoded_limit [(pn_old_lba p, pn_old_staged p)] [(pn_node p, pn_min_key p)] in
         match replacement with
         | first :: _ => iret (cr_lba (ch_reference first))
         | [] => fun c => (c, Panic)
         end) c (moved ov q s items) failed.
Proof.
  intros (ov1 & q1 & kids & Hs & <- & Hsrc & [Hot Hpend] & _ & Hstep & Hnk). pose proof (store_valid _ _ _ _ Hs) as Hval.
  destruct (proj1 (placed_union _ _ _ _) (step_placed _ _ _ _ _ _ _ Hstep)) as [_ Hpk].
  apply wpi_if; intros Hc.
  - destruct n as [|m]; [destruct Hot as (_ & _ & Hl); lia|]. destruct Hpend as (d & tl & Hcf & Hds & _ & _).
    assert (tn_items (pn_node p) = []) as Hi by (apply zlen_zero_nil; lia). unfold children_from_node in Hcf. rewrite Hi in Hcf. injection Hcf as <- <-.
    apply wpi_bind. eapply wpi_mono; [by apply (wpi_discard ov1 q1 c p)| |done]. intros [] c1 (ov2 & q2 & Hs2 & Hstep2). apply wpi_bind.
    eapply wpi_count; [exact Hs2|]. intros c2 Hs3 _. apply wpi_ret. apply (moved_step ov q s ov1 q1 _ items _ c2 Hstep).
    inversion Hds as [? ? ? ? ? Hd|]; subst. exists ov2, q2, kids. split; [done|]. assert (blocks kids ## {[pn_old_lba p]}) as Hdis by (intros x Hx ->%elem_of_singleton; done). split.
    + apply (desc_rooted ov2 m (pn_min_key p) (leftmost_desc (pn_node p))). destruct Hd as (Ht & Hd). split; [|done].
      eapply (proj1 (tree_frame geo grown (overlay ov1) (overlay ov2))); [exact Ht|]. intros [x nd'] Hx.
      assert (x ∈ blocks kids) as Hb by (apply elem_of_blocks; by exists nd'). eapply step_overlay; [exact Hstep2|intros ?; by apply (Hdis x)|by apply Hpk].
    + rewrite (union_comm_L {[_]}). rewrite <- (right_id_L ∅ (∪) (blocks kids)) at 2. by apply step_frame.
  - apply wpi_bind. eapply wpi_mono; [apply (wpi_store_sources [(pn_old_lba p, pn_old_staged p)] [(pn_node p, pn_min_key p)] ov1 q1 c)| |done].
    + cbn. by rewrite (right_id_L ∅ (∪)).
    + by apply Forall_singleton.
    + apply NoDup_singleton.
    + apply Forall_singleton. cbn. apply (pending_root n items kids ov1 p); done.
    + intros ds c1 Hst. pose proof Hst as (lbas & _ & _ & _ & Hl & -> & _). destruct lbas as [|lba [|? ?]]; [done| |done]. apply wpi_ret.
      apply (moved_step ov q s ov1 q1 _ items _ c1 Hstep).
      apply (stored_moved n (pn_node p) (pn_min_key p) items kids ov1 q1 {[pn_old_lba p]} _ c1); [apply (pending_root n items kids ov1 p); done| |done|].
      * intros x ->%elem_of_singleton. done.
      * cbn in Hst. by rewrite (right_id_L ∅ (∪)) in Hst.
Qed.

Lemma wpi_apply_operation operation root items nodes ov q c :
  store ∅ ov q c -> rooted ov root items nodes -> placed ov (blocks nodes) ->
  wpi (apply_operation geo spec new_generation cache_pages decoded_limit root operation) c
    (fun root' c' => exists items', edit operation items = Some items' /\ moved ov q (blocks nodes) items' root' c') failed.
Proof.
  intros Hs (Hu & Hg & n & Ht) Hp. pose proof (store_failed _ _ _ _ Hs) as Hf. pose proof (store_valid _ _ _ _ Hs) as Hval.
  assert (Z.of_nat n <= MAX_TREE_LEVEL) as Hn.
  { destruct (tree_ready geo grown _ _ _ _ _ _ _ _ Ht) as (node & g & kids & _ & _ & Hv & (_ & _ & Hl) & _). destruct (node_valid _ _ Hv). lia. }
  destruct operation as [key value|key]; cbn [apply_operation edit].
  - apply wpi_bind, wpi_lift. eapply wp_mono; [apply validate_upsert_ok| |intros; apply Hf]. intros [] Hk. apply wpi_bind.
    eapply wpi_mono; [by apply (wpi_upsert_node key value MUTATION_FUEL Hk n root None None None None true 0 ov q c items nodes)| |done].
    intros r c1 (Hrep & _ & Hlev & Hlen).
    pose proof Hrep as (ov' & q' & nodes' & Hs' & Hds & Hstep). destruct (re_children r) as [|d [|d2 ds]] eqn:Hr; [by apply descs_nonempty in Hds| |].
    + apply wpi_ret. eexists. split; [done|]. exists ov', q', nodes'. split; [done|]. split; [|done]. inversion Hds; subst. by eapply desc_rooted.
    + eapply wpi_mono; [eapply (wpi_grow_root n); [rewrite Hr; exact Hrep|done|rewrite Hr; cbn in *; lia|done]| |done].
      intros root' c' Hm. by eexists.
  - apply wpi_bind, wpi_lift. eapply wp_mono; [apply validate_key_ok| |intros; apply Hf]. intros [] _. apply wpi_bind.
    eapply wpi_mono; [by apply (wpi_delete_node key MUTATION_FUEL n root None None None true 0 ov q c items nodes)| |done].
    intros p c1 (items' & Hdel & Hed). apply wpi_bind. eapply wpi_mono; [by apply (wpi_settle_root n items' ov q (blocks nodes) root)| |done].
    intros root' c2 (ov2 & q2 & nodes2 & Hs2 & Hrest). apply wpi_bind. eapply wpi_count; [exact Hs2|]. intros c3 Hs3 _. apply wpi_ret.
    exists items'. split; [done|]. by exists ov2, q2, nodes2.
Qed.

Lemma wpi_apply_operations operations : forall root items nodes ov q c,
  store ∅ ov q c -> rooted ov root items nodes -> placed ov (blocks nodes) ->
  wpi (apply_operations geo spec new_generation cache_pages decoded_limit root operations) c
    (fun root' c' => exists items', edits operations items = Some items' /\ moved ov q (blocks nodes) items' root' c') failed.
Proof.
  induction operations as [|operation operations IH]; intros root items nodes ov q c Hs Hr Hp; cbn [apply_operations edits].
  - apply wpi_ret. exists items. split; [done|]. exists ov, q, nodes. split; [done|]. split; [done|]. by apply step_refl.
  - apply wpi_bind. eapply wpi_mono; [by apply (wpi_apply_operation operation root items nodes ov q c)| |done].
    intros root1 c1 (items1 & -> & ov1 & q1 & nodes1 & Hs1 & Hr1 & Hstep).
    eapply wpi_mono; [apply (IH root1 items1 nodes1 ov1 q1 c1 Hs1 Hr1), Hstep| |done]. intros root2 c2 (items2 & He & Hm).
    exists items2. split; [done|]. by eapply moved_step.
Qed.

(** ** The images at the end *)

Lemma wpi_materialize_all l : forall ov q c,
  store ∅ ov q c -> (forall lba i, mc_writes c !! lba = Some i -> si_resident i = Deferred -> lba ∈ l) ->
  wpi (ieach (materialize geo new_generation) l) c
    (fun _ c' => store ∅ ov q c' /\ forall lba i, mc_writes c' !! lba = Some i -> si_resident i <> Deferred) failed.
Proof.
  induction l as [|x l IH]; intros ov q c Hs Hd; cbn [ieach].
  { apply wpi_ret. split; [done|]. intros lba i Hi Hr. by apply (not_elem_of_nil lba), (Hd lba i). }
  apply wpi_bind. eapply wpi_mono; [apply (wpi_materialize geo new_generation decoded_limit d0 P ∅ ov c x (proj1 Hs))| |done].
  intros _ c1 (HI1 & Hx & _ & Ht1 & _ & _ & _ & Hother & _). apply IH; [split; [done|rewrite Ht1; apply Hs]|].
  intros lba i Hi Hr. destruct (decide (lba = x)) as [->|Hne]; [by destruct (Hx i Hi)|]. rewrite Hother in Hi by done.
  specialize (Hd lba i Hi Hr). by apply elem_of_cons in Hd as [?|?].
Qed.

Lemma insert_key_perm k l : insert_key k l ≡ₚ k :: l.
Proof. induction l as [|x l IH]; cbn; [done|]. destruct (k <=? x); [done|]. rewrite IH. apply Permutation_swap. Qed.

Lemma sorted_keys_perm {X} (w : gmap Z X) : sorted_keys w ≡ₚ (map_to_list w).*1.
Proof.
  unfold sorted_keys. induction (map_to_list w) as [|[k x] l IH]; cbn; [done|]. by rewrite insert_key_perm, IH.
Qed.

Lemma elem_of_sorted_keys {X} (w : gmap Z X) k : k ∈ sorted_keys w <-> is_Some (w !! k).
Proof.
  rewrite sorted_keys_perm, list_elem_of_fmap. split.
  - intros ([k' x] & -> & H%elem_of_map_to_list). by exists x.
  - intros [x H]. exists (k, x). split; [done|]. by apply elem_of_map_to_list.
Qed.

Lemma sorted_keys_nodup {X} (w : gmap Z X) : NoDup (sorted_keys w).
Proof. rewrite sorted_keys_perm. apply NoDup_fst_map_to_list. Qed.

Lemma wpi_finish ov q c : store ∅ ov q c ->
  wpi (finish geo new_generation) c
    (fun _ c' => store ∅ ov q c' /\ forall lba i, mc_writes c' !! lba = Some i -> si_resident i <> Deferred) failed.
Proof.
  intros Hs. unfold finish. apply wpi_bind, wpi_modify. set (c1 := on_stats _ c). assert (store ∅ ov q c1) as Hs1 by (split; [apply inv_stats|]; apply Hs).
  apply wpi_bind, wpi_get, wpi_bind. eapply wpi_mono; [apply (wpi_materialize_all _ ov q c1 Hs1)| |done].
  { intros lba i Hi Hr. apply elem_of_sorted_keys. exists i. apply map_lookup_filter_Some. split; [done|]. cbn. unfold is_deferred. by rewrite Hr. }
  intros _ c2 [[HI2 Hq2] Hnd]. apply wpi_bind, wpi_modify, wpi_modify. cbn [mc_writes set_mc_dev_tx set_mc_decoded].
  destruct (record_contract (mc_dev c2) (mc_tx c2) (mc_stats c2) (inv_tx _ _ _ _ _ _ _ _ HI2)) as (Htx & Ho & Hc & Hq).
  split; [|done]. split; [|cbn; by rewrite Hq]. apply inv_tx_step.
  - apply (inv_set_decoded geo new_generation decoded_limit d0 P ∅ ∅); [done|by intros lba e; rewrite lookup_empty|]. intros lba i Hi Hr. by destruct (Hnd lba i Hi).
  - apply agree_refl. apply (inv_dev _ _ _ _ _ _ _ _ HI2).
  - done.
  - cbn. rewrite Hc. apply HI2.
  - intros lba Hl. cbn. rewrite Ho. by apply HI2.
Qed.

Lemma staged_writes_elem w lba block : (lba, block) ∈ staged_writes w <-> exists i, w !! lba = Some i /\ si_resident i = ResidentBytes block.
Proof.
  unfold staged_writes. rewrite list_elem_of_omap. split.
  - intros (x & Hx & He). destruct (w !! x) as [[r t]|] eqn:Hw; [|done]. destruct r; try done. injection He as <- <-. by eexists.
  - intros ([r t] & Hw & Hr). cbn in Hr. subst r. exists lba. split; [apply elem_of_sorted_keys; by eexists|]. by rewrite Hw.
Qed.

Lemma staged_writes_keys w : sublist (staged_writes w).*1 (sorted_keys w).
Proof.
  unfold staged_writes. induction (sorted_keys w) as [|k l IH]; cbn; [constructor|].
  destruct (w !! k) as [[[] t]|]; cbn; by constructor.
Qed.

(** The blocks as they stand once the returned writes are made. *)
Definition written (v : Z -> bytes) (writes : list (Z * bytes)) (lba : Z) : bytes :=
  match (list_to_map writes : gmap Z bytes) !! lba with Some block => block | None => v lba end.

Lemma written_overlay ov q c x :
  store ∅ ov q c -> (forall lba i, mc_writes c !! lba = Some i -> si_resident i <> Deferred) ->
  is_Some (ov !! x) \/ P x /\ inside d0 x ->
  decoded (written (view (decodes := core_decodes) (mc_dev c)) (staged_writes (mc_writes c))) x = overlay ov x.
Proof.
  intros [HI _] Hnd Hx. set (writes := staged_writes (mc_writes c)). unfold decoded, written, CowStore.overlay.
  assert (NoDup writes.*1) as Hd by (eapply sublist_NoDup; [apply (sorted_keys_nodup (mc_writes c))|apply staged_writes_keys]).
  destruct ((list_to_map writes : gmap Z bytes) !! x) as [block|] eqn:Hw.
  - apply elem_of_list_to_map_2, staged_writes_elem in Hw as (i & Hi & Hr).
    destruct (proj1 (inv_dom _ _ _ _ _ _ _ _ HI x)) as [node Hn]; [by exists i|]. rewrite Hn.
    pose proof (inv_image _ _ _ _ _ _ _ _ HI _ _ _ Hn Hi) as Him. rewrite Hr in Him. by destruct Him.
  - assert (forall i, mc_writes c !! x = Some i -> si_resident i = Spilled) as Hsp.
    { intros i Hi. destruct (si_resident i) as [block| |] eqn:Hr; [|by destruct (Hnd x i Hi)|done].
      apply not_elem_of_list_to_map_2 in Hw. destruct Hw. apply list_elem_of_fmap. exists (x, block). split; [done|]. apply staged_writes_elem. by exists i. }
    destruct (ov !! x) as [node|] eqn:Hn.
    + destruct (proj2 (inv_dom _ _ _ _ _ _ _ _ HI x)) as [i Hi]; [by exists node|].
      pose proof (inv_image _ _ _ _ _ _ _ _ HI _ _ _ Hn Hi) as Him. rewrite (Hsp i Hi) in Him. by destruct Him.
    + destruct Hx as [[? ?]|[Hp Hin]]; [done|]. destruct (inv_dev _ _ _ _ _ _ _ _ HI) as (_ & _ & Hv). unfold decoded. f_equal. apply Hv; [done|]. intros Hnp. by apply Hnp.
Qed.
End Mutate.
