(* ===== verification/CowBatch.v ===== *)
(** * Batches of tree mutations (crates/afsplus-core/src/cow_tree.rs)

    The entry points: a batch applied to a committed tree gives the tree of
    the edited items, beside the committed one, which stays as it was. *)

From Stdlib Require Import Sorted.
From S2P Require Import Prelude Crc32c Format Header Codec TreeNode Geometry Checkpoint Object Device Cache Core Tree TreeSpec TreeReaders TreeVerify CowTree CowStore CowNodes CowEdit CowMutate.

(** ** Trees of an older generation *)

Lemma tree_grown geo spec new_generation nd :
  ts_max_generation spec <= new_generation ->
  (forall n lower upper is_root lba items nodes, tree_at geo spec nd n lower upper is_root lba items nodes ->
    tree_at geo (grown spec new_generation) nd n lower upper is_root lba items nodes) /\
  (forall n node lower upper slots items nodes, children_at geo spec nd n node lower upper slots items nodes ->
    children_at geo (grown spec new_generation) nd n node lower upper slots items nodes).
Proof.
  intros Hle. assert (forall lba lower upper is_root node, node_at spec nd lba None lower upper is_root node ->
    node_at (grown spec new_generation) nd lba None lower upper is_root node) as Hn.
  { intros lba lower upper is_root node (g & Hd & Hid & Hr). exists g. split; [done|]. split; [|done]. unfold validate_node_identity in *. cbn.
    destruct (_ || _); [done|]. destruct (_ || _) eqn:Hg in Hid; [done|]. apply orb_false_iff in Hg as [Hz Hm].
    rewrite Hz. cbn. by replace (new_generation <? g) with false by lia. }
  apply tree_at_mutual.
  - intros. apply leaf_at; [by apply Hn|done].
  - intros. eapply branch_at; [by apply Hn|done|done].
  - constructor.
  - intros. eapply more_children; eauto.
Qed.

Section Entry.
Context {D A : Type} {device : BlockDevice Decoded D} {contract : DeviceContract Decoded D core_decodes}.
Context {allocator : TreeAllocator D A} (geo : Geometry) {WF : WfGeometry geo}.
Context {alloc_contract : AllocatorContract D A geo} (spec : TreeSpec) (new_generation : Z).

Abbreviation content := (view (decodes := core_decodes)).
Abbreviation ok := (dev_ok (decodes := core_decodes)).

(** The committed blocks hold what they held. *)
Definition untouched (a : A) (d d' : D) : Prop := agree_off ok content (fun b => ~ committed a b) d d'.

(** What a batch that succeeds has established: the tree of the edited items
    once the writes are made, whose old blocks are quarantined, whose new
    blocks belong to the transaction, and to which every write belongs. *)
Definition batch_done (d : D) (a : A) (items : list TreeItem) (old : gset Z) (operations : list TreeOperation)
    (m : TreeMutation) (s : D * A) : Prop :=
  exists items' nodes', edits operations items = Some items' /\
    tree_of geo (grown spec new_generation) (decoded (written (content (fst s)) (tm_writes m))) (tm_root_lba m) items' nodes' /\
    (forall x, x ∈ quarantined (snd s) <-> x ∈ quarantined a \/ (x ∈ old /\ committed a x /\ x ∉ blocks nodes')) /\
    (forall x, x ∈ blocks nodes' -> committed a x \/ x ∈ owned (snd s)) /\
    (forall lba block, (lba, block) ∈ tm_writes m -> lba ∈ blocks nodes' /\ lba ∈ owned (snd s)) /\
    untouched a d (fst s) /\ tx_ok (fst s) (snd s) /\ committed (snd s) = committed a.

Section Batch.
Context (cache_pages : Z) (operations : list TreeOperation) (d : D) (a : A).
Hypothesis generation_typed : u64 new_generation.
Hypothesis generations : 0 <= ts_max_generation spec.
Hypothesis pages_nonneg : 0 <= cache_pages.
Hypothesis volume_fits : total_blocks geo <= dev_total_blocks d.
Hypothesis owner_typed : u64 (ts_owner spec).
Hypothesis newer : ts_max_generation spec < new_generation.

Let decoded_limit : Z := Z.min (cache_pages / 16) DECODED_CACHE_NODES.

Lemma decoded_limit_nonneg : 0 <= decoded_limit.
Proof. unfold decoded_limit, DECODED_CACHE_NODES. pose proof (Z.div_pos cache_pages 16). lia. Qed.

Abbreviation store := (store geo new_generation decoded_limit d (committed a)).
Abbreviation overlay := (overlay new_generation d).

Lemma wpi_batch root items nodes ov q c :
  store ∅ ov q c -> rooted geo spec new_generation d ov root items nodes -> placed (committed a) ov (blocks nodes) ->
  (forall x, is_Some (ov !! x) -> x ∈ blocks nodes) ->
  wpi (let! root := apply_operations geo spec new_generation cache_pages decoded_limit root operations in
       do! finish geo new_generation in iret root) c
    (fun root' c' => exists items' nodes' ov' q', edits operations items = Some items' /\ store ∅ ov' q' c' /\
       rooted geo spec new_generation d ov' root' items' nodes' /\ step (committed a) ov q (blocks nodes) ov' q' (blocks nodes') /\
       (forall lba i, mc_writes c' !! lba = Some i -> si_resident i <> Deferred) /\ (forall x, is_Some (ov' !! x) -> x ∈ blocks nodes'))
    (CowStore.failed d (committed a)).
Proof.
  intros Hs Hr Hp Hl. apply wpi_bind.
  eapply wpi_mono; [apply (wpi_apply_operations geo spec new_generation cache_pages decoded_limit generation_typed (conj generations newer) owner_typed
    decoded_limit_nonneg pages_nonneg d (committed a) operations root items nodes ov q c Hs Hr Hp)| |done].
  intros root' c1 (items' & He & ov' & q' & nodes' & Hs1 & Hr1 & Hstep). apply wpi_bind.
  eapply wpi_mono; [apply (wpi_finish geo new_generation decoded_limit d (committed a) ov' q' c1 Hs1)| |done].
  intros _ c2 [Hs2 Hnd]. apply wpi_ret. exists items', nodes', ov', q'. do 5 (split; [done|]).
  intros x [?|[Hn Hx]]%(step_live _ _ _ _ _ _ _ Hstep); [done|]. by destruct Hn; apply Hl.
Qed.

Lemma run_done root' items old nodes' items' ov ov' q' (c : MutationContext D A) stats :
  edits operations items = Some items' -> store ∅ ov' q' c -> rooted geo spec new_generation d ov' root' items' nodes' ->
  step (committed a) ov (quarantined a) old ov' q' (blocks nodes') ->
  (forall lba i, mc_writes c !! lba = Some i -> si_resident i <> Deferred) -> (forall x, is_Some (ov' !! x) -> x ∈ blocks nodes') ->
  batch_done d a items old operations {| tm_root_lba := root'; tm_writes := staged_writes (mc_writes c); tm_stats := stats |} (mc_dev c, mc_tx c).
Proof.
  intros He Hs (Hu & Hg & n & Ht) Hstep Hnd Hlive. pose proof (store_valid _ _ _ _ _ _ _ _ _ Hs) as Hval. pose proof Hs as [HI Hq].
  exists items', nodes'. cbn [fst snd tm_root_lba tm_writes]. split; [done|]. split; [|split; [|split; [|split]]].
  - split; [done|]. exists n. eapply (proj1 (tree_frame geo (grown spec new_generation) (overlay ov') _)); [exact Ht|].
    intros p Hp. apply (written_overlay geo new_generation decoded_limit d (committed a) ov' q' c (fst p) Hs Hnd).
    destruct (step_placed _ _ _ _ _ _ _ Hstep (fst p)) as [?|Hc]; [apply elem_of_blocks; exists (snd p); by destruct p|by left|right]. split; [done|].
    pose proof (proj1 (tree_at_volume geo (grown spec new_generation) (overlay ov')) _ _ _ _ _ _ _ Ht (proj1 Hu) Hg) as Hv.
    rewrite Forall_forall in Hv. specialize (Hv p Hp). unfold in_volume, inside in *. lia.
  - intros x. rewrite Hq. apply Hstep.
  - intros x Hx. destruct (step_placed _ _ _ _ _ _ _ Hstep x Hx) as [Hs'|?]; [right|by left]. by apply HI.
  - intros lba block (i & Hi & _)%staged_writes_elem. assert (is_Some (ov' !! lba)) as Hs' by (apply (inv_dom _ _ _ _ _ _ _ _ HI); by exists i).
    split; [by apply Hlive|by apply HI].
  - split; [apply HI|]. split; [apply HI|]. apply (inv_committed _ _ _ _ _ _ _ _ HI).
Qed.

Abbreviation start := {| mc_dev := d; mc_tx := a; mc_writes := ∅; mc_resident := 0; mc_clock := 0; mc_lru := ∅;
                         mc_decoded := ∅; mc_decoded_lru := ∅; mc_stats := no_stats |}.

Lemma store_start (H : gset Z) : ok d -> tx_ok d a -> store H ∅ (quarantined a) start.
Proof.
  intros Hd Ht. split; [|done]. split; cbn; try done.
  - intros lba. by rewrite !lookup_empty.
  - intros lba Hl. rewrite lookup_empty in Hl. by destruct Hl.
Qed.

(** The checks of the entry point, and the context it sets up. *)
Lemma wpi_inner root (new_empty : bool) (Q : TreeMutation -> D * A -> Prop) :
  ok d -> check_tree_lba geo root = Ok tt ->
  wpi (do! (if new_empty then
              do! stage_node geo new_generation cache_pages decoded_limit root (TreeNode_leaf (ts_kind spec) (ts_owner spec)) in
              imodify (on_stats (stat_set nodes_allocated 1))
            else iret tt) in
       let! root := apply_operations geo spec new_generation cache_pages decoded_limit root operations in
       do! finish geo new_generation in
       iret root) start
    (fun root c => Q {| tm_root_lba := root; tm_writes := staged_writes (mc_writes c); tm_stats := mc_stats c |} (mc_dev c, mc_tx c))
    (CowStore.failed d (committed a)) ->
  wpi (mutate_many_inner geo root spec new_generation operations cache_pages new_empty) (d, a) Q (fun _ s => untouched a d (fst s)).
Proof.
  intros Hd Hg H. unfold mutate_many_inner, wpi at 1. pose proof (agree_refl ok content (fun b => ~ committed a b) d Hd) as Hk.
  destruct (_ =? 0); [done|]. replace (new_generation <=? ts_max_generation spec) with false by lia. rewrite Hg. cbv zeta. cbn [fst snd].
  fold decoded_limit. unfold wpi in H.
  match type of H with (let (_, _) := ?x in _) => destruct x as [c [root'|e|]]; done end.
Qed.

(** The batch on a tree that is committed. *)
Lemma wpi_on_committed root items nodes :
  ok d -> tx_ok d a -> u64 root -> tree_of geo spec (decoded (content d)) root items nodes -> (forall x, x ∈ blocks nodes -> committed a x) ->
  wpi (mutate_many_inner geo root spec new_generation operations cache_pages false) (d, a)
    (batch_done d a items (blocks nodes) operations) (fun _ s => untouched a d (fst s)).
Proof.
  intros Hd Ha Hu [Hg [n Ht]] Hc. apply wpi_inner; [done|done|]. apply wpi_bind, wpi_ret.
  eapply wpi_mono; [apply (wpi_batch root items nodes ∅ (quarantined a) start (store_start ∅ Hd Ha))| |done].
  - split; [done|]. split; [done|]. exists n. apply (proj1 (tree_grown geo spec new_generation _ (Z.lt_le_incl _ _ newer))) in Ht.
    eapply (proj1 (tree_frame geo (grown spec new_generation) _ _)); [exact Ht|]. intros p _. unfold CowStore.overlay. by rewrite lookup_empty.
  - intros x Hx. right. by apply Hc.
  - intros x Hx. rewrite lookup_empty in Hx. by destruct Hx.
  - intros root' c (items' & nodes' & ov' & q' & He & Hs & Hr & Hstep & Hnd & Hl). by eapply run_done.
Qed.

(** The batch on an empty tree, whose root the transaction has just allocated. *)
Lemma wpi_on_empty root :
  ok d -> tx_ok d a -> root ∈ owned a ->
  wpi (mutate_many_inner geo root spec new_generation operations cache_pages true) (d, a)
    (batch_done d a [] {[root]} operations) (fun _ s => untouched a d (fst s)).
Proof.
  intros Hd Ha Ho. destruct (owned_free d a root Ha Ho) as (Hnc & Hu & Hg). apply wpi_inner; [done|done|]. apply wpi_bind, wpi_bind.
  change (TreeNode_leaf (ts_kind spec) (ts_owner spec)) with (leaf_node (grown spec new_generation) []). set (leaf := leaf_node _ []).
  assert (ready geo (grown spec new_generation) new_generation (overlay {[root := leaf]}) 0 None None true leaf [] []) as Hready.
  { apply leaf_ready; [split; [done|cbn; lia]|done|done|apply SSorted_nil|constructor|constructor|by intros ? ? [=]|done]. }
  eapply wpi_mono; [apply (wpi_stage_node geo new_generation cache_pages decoded_limit decoded_limit_nonneg d (committed a) pages_nonneg ∅ ∅ start root leaf)| |done];
    [apply (store_start _ Hd Ha)|done|apply Hready|].
  assert (blocks [(root, leaf)] = {[root]}) as Hb by (unfold blocks; cbn; by rewrite (right_id_L ∅ (∪))).
  intros _ c1 [HI1 Ht1]. apply wpi_modify. rewrite insert_empty in HI1. set (c2 := on_stats _ c1).
  assert (store ∅ {[root := leaf]} (quarantined a) c2) as Hs2 by (split; [by apply inv_stats|]; cbn; by rewrite Ht1).
  eapply wpi_mono; [apply (wpi_batch root [] [(root, leaf)] {[root := leaf]} (quarantined a) c2 Hs2)| |done].
  - split; [done|]. split; [done|]. exists O. apply (ready_tree geo (grown spec new_generation) new_generation); [split; [done|cbn; lia]|done|].
    unfold CowStore.overlay. by rewrite lookup_singleton_eq.
  - rewrite Hb. intros x ->%elem_of_singleton. left. by rewrite lookup_singleton_eq.
  - intros x [node Hx]. apply lookup_singleton_Some in Hx as [<- _]. rewrite Hb. by apply elem_of_singleton.
  - intros root' c (items' & nodes' & ov' & q' & He & Hs & Hr & Hstep & Hnd & Hl). rewrite Hb in Hstep. by eapply run_done.
Qed.
End Batch.
End Entry.

Lemma tree_owner {D : Type} {device : BlockDevice Decoded D} {contract : DeviceContract Decoded D core_decodes} geo spec (d : D) root items nodes :
  tree_of geo spec (decoded (view (decodes := core_decodes) d)) root items nodes -> u64 (ts_owner spec).
Proof.
  intros [_ [n Ht]]. destruct (tree_ready geo spec _ _ _ _ _ _ _ _ Ht) as (node & g & kids & _ & _ & [(Hu & _) _] & (_ & <- & _) & _). done.
Qed.

(** C2: a batch of insertions and deletions refines the same edits on the
    sorted list of items.  It never panics, and whatever happens no block of
    the committed state changes.  When it succeeds, the blocks with the
    returned writes hold a valid tree of exactly the edited items: keys in
    order, counts and bounds right, no block used twice.  Every returned write
    is a node of that tree in a block of the transaction; every committed node
    that left the tree is quarantined, and no other block is. *)
Theorem tree_batch_refines {D A : Type} {device : BlockDevice Decoded D} {contract : DeviceContract Decoded D core_decodes}
    {allocator : TreeAllocator D A} (geo : Geometry) {alloc_contract : AllocatorContract D A geo} (spec : TreeSpec)
    (new_generation : Z) (operations : list TreeOperation) (root : Z) (items : list TreeItem) (nodes : list (Z * TreeNode)) (d : D) (a : A) :
  WfGeometry geo -> dev_ok (decodes := core_decodes) d -> tx_ok d a -> total_blocks geo <= dev_total_blocks d ->
  u64 root -> u64 new_generation -> 0 <= ts_max_generation spec -> 0 <= tree_cache_pages (D := D) a ->
  tree_of geo spec (decoded (view (decodes := core_decodes) d)) root items nodes -> (forall x, x ∈ blocks nodes -> committed a x) ->
  wpi (mutate_many geo root spec new_generation operations) (d, a)
    (batch_done geo spec new_generation d a items (blocks nodes) operations) (fun _ s => untouched geo a d (fst s)).
Proof.
  intros WF Hd Ha Hv Hr Hg Hm Hp Ht Hc. pose proof (tree_owner _ _ _ _ _ _ Ht) as Ho.
  unfold mutate_many, wpi at 1. destruct (new_generation <=? ts_max_generation spec) eqn:Hn.
  - unfold mutate_many_with_cache_limit, mutate_many_inner. rewrite Hn. destruct (_ =? 0); by apply agree_refl.
  - apply wpi_on_committed; [done..|lia|done|done|done|done|done].
Qed.

(** C19: a tree created in a transaction refines the same edits on the empty
    list.  Its root is a block the transaction owns; the rest is as for a
    batch on a committed tree. *)
Theorem tree_creation_refines {D A : Type} {device : BlockDevice Decoded D} {contract : DeviceContract Decoded D core_decodes}
    {allocator : TreeAllocator D A} (geo : Geometry) {alloc_contract : AllocatorContract D A geo} (spec : TreeSpec)
    (new_generation : Z) (operations : list TreeOperation) (root : Z) (d : D) (a : A) :
  WfGeometry geo -> dev_ok (decodes := core_decodes) d -> tx_ok d a -> total_blocks geo <= dev_total_blocks d ->
  u64 (ts_owner spec) -> u64 new_generation -> 0 <= ts_max_generation spec -> 0 <= tree_cache_pages (D := D) a -> root ∈ owned a ->
  wpi (mutate_new_empty_tree geo root spec new_generation operations) (d, a)
    (batch_done geo spec new_generation d a [] {[root]} operations) (fun _ s => untouched geo a d (fst s)).
Proof.
  intros WF Hd Ha Hv Ho Hg Hm Hp Hr. unfold mutate_new_empty_tree, wpi at 1. destruct (new_generation <=? ts_max_generation spec) eqn:Hn.
  - unfold mutate_many_inner. rewrite Hn. destruct (_ =? 0); by apply agree_refl.
  - apply wpi_on_empty; [done..|lia|done|done|done].
Qed.

(** ** A transaction with a pool of free blocks *)

Record Pool := { pool_pages : Z; pool_free : list Z; pool_owned : gset Z; pool_quarantined : gset Z; pool_committed : list Z }.

#[export] Instance pool_allocator {D : Type} : TreeAllocator D Pool := {|
  tree_cache_pages := pool_pages;
  record_tree_mutation _ a := a;
  allocate_tree_block := fun '(d, a) =>
    match pool_free a with
    | [] => ((d, a), Err NoSpace)
    | lba :: free => ((d, {| pool_pages := pool_pages a; pool_free := free; pool_owned := {[lba]} ∪ pool_owned a;
                             pool_quarantined := pool_quarantined a; pool_committed := pool_committed a |}), Ok lba)
    end;
  retire_tree_block lba := fun '(d, a) =>
    ((d, {| pool_pages := pool_pages a; pool_free := pool_free a; pool_owned := pool_owned a;
            pool_quarantined := {[lba]} ∪ pool_quarantined a; pool_committed := pool_committed a |}), Ok tt);
  release_tree_block lba := fun '(d, a) =>
    ((d, {| pool_pages := pool_pages a; pool_free := pool_free a; pool_owned := pool_owned a ∖ {[lba]};
            pool_quarantined := pool_quarantined a; pool_committed := pool_committed a |}), Ok tt);
|}.

(** Free and owned blocks lie apart from the committed ones. *)
Definition pool_ok (geo : Geometry) (a : Pool) : Prop :=
  NoDup (pool_free a) /\ (forall x, x ∈ pool_free a -> x ∉ pool_owned a) /\
  (forall x, x ∈ pool_free a \/ x ∈ pool_owned a -> (x ∉ pool_committed a) /\ u64 x /\ check_tree_lba geo x = Ok tt).

#[export] Instance pool_contract {D : Type} {device : BlockDevice Decoded D} {contract : DeviceContract Decoded D core_decodes} geo :
  AllocatorContract D Pool geo.
Proof.
  refine {| tx_ok _ a := pool_ok geo a; committed a x := x ∈ pool_committed a; owned := pool_owned; quarantined := pool_quarantined |}.
  - intros d a lba (_ & _ & H) Hl. apply H. by right.
  - done.
  - intros d a Hd (Hn & Hf & H). unfold allocate_tree_block, pool_allocator, wpi. destruct (pool_free a) as [|lba free] eqn:He; [by apply agree_refl|].
    apply NoDup_cons in Hn as [Hl Hn]. split; [by apply agree_refl|]. split; [|split; [apply Hf; by left|done]]. split; [done|]. cbn. split.
    + intros x Hx. rewrite elem_of_union, elem_of_singleton. intros [->|Ho]; [done|]. apply (Hf x); [by right|done].
    + intros x [Hx|Hx]; [apply H; left; by right|]. rewrite elem_of_union, elem_of_singleton in Hx. destruct Hx as [->|Hx]; apply H; [left; by left|by right].
  - intros d a lba Hd (Hn & Hf & H) _. split; [by apply agree_refl|]. done.
  - intros d a lba Hd (Hn & Hf & H) _. split; [by apply agree_refl|]. split; [|done]. split; [done|]. cbn. split.
    + intros x Hx [Ho _]%elem_of_difference. by apply (Hf x).
    + intros x [Hx|[Hx _]%elem_of_difference]; apply H; [by left|by right].
  - done.
Defined.

Definition sample_pool : Pool :=
  {| pool_pages := 64; pool_free := [54; 55; 56; 57; 58]; pool_owned := {[59]}; pool_quarantined := ∅; pool_committed := [44; 45; 46] |}.

Lemma sample_pool_ok : pool_ok small_geometry sample_pool.
Proof.
  assert (NoDup [59; 54; 55; 56; 57; 58; 44; 45; 46]) as Hd by (apply (bool_decide_eq_true_1 _); by vm_compute).
  assert (Forall (fun x => u64 x /\ check_tree_lba small_geometry x = Ok tt) [59; 54; 55; 56; 57; 58]) as Hok.
  { repeat (apply Forall_cons; split; [split; [unfold u64; lia|by vm_compute]|]). by constructor. }
  rewrite Forall_forall in Hok. change [59; 54; 55; 56; 57; 58; 44; 45; 46] with ([59] ++ [54; 55; 56; 57; 58] ++ [44; 45; 46]) in Hd.
  apply NoDup_app in Hd as (_ & H1 & Hd). apply NoDup_app in Hd as (Hn & H2 & _). split; [done|]. split.
  - cbn. intros x Hx ->%elem_of_singleton. apply (H1 59); [by left|]. apply elem_of_app. by left.
  - intros x Hx. cbn [pool_free pool_owned pool_committed sample_pool] in *. split.
    + intros Hc. destruct Hx as [Hx|Hx]; [by apply (H2 x)|]. apply elem_of_singleton in Hx as ->. apply (H1 59); [by left|]. apply elem_of_app. by right.
    + apply Hok. destruct Hx as [Hx| ->%elem_of_singleton]; [by right|by left].
Qed.

Definition sample_operations : list TreeOperation := [Upsert (key_u64 4) (le_split 2 44); Delete (key_u64 9); Delete (key_u64 5)].

Definition sample_batch := mutate_many small_geometry 44 sample_spec 10 sample_operations (tree_device, sample_pool).

Lemma tree_batch_refines_witness :
  (exists m, snd sample_batch = Ok m /\
     batch_done small_geometry sample_spec 10 tree_device sample_pool sample_items (blocks sample_nodes) sample_operations m (fst sample_batch)) /\
  edits sample_operations sample_items = Some [sample_item 1 11; sample_item 3 33; sample_item 4 44].
Proof.
  split; [|by vm_compute].
  pose proof (tree_batch_refines small_geometry sample_spec 10 sample_operations 44 sample_items sample_nodes tree_device sample_pool
    small_geometry_wf (proj1 tree_device_ok) sample_pool_ok ltac:(by vm_compute) ltac:(by vm_compute) ltac:(by vm_compute) ltac:(by vm_compute)
    ltac:(by vm_compute) sample_tree_device) as H.
  assert (match snd sample_batch with Ok _ => true | _ => false end = true) as E by (vm_compute; reflexivity).
  unfold wpi in H. fold sample_batch in H. revert H E. destruct sample_batch as [s [m|e|]]; intros H E; [|discriminate E..].
  exists m. split; [reflexivity|]. apply H. intros x (node & Hx)%elem_of_blocks. change (x ∈ [44; 45; 46]).
  apply (list_elem_of_fmap_2 fst) in Hx. exact Hx.
Defined.

Definition sample_creation :=
  mutate_new_empty_tree small_geometry 59 sample_spec 10 [Upsert (key_u64 4) (le_split 2 44)] (tree_device, sample_pool).

Lemma tree_creation_refines_witness :
  exists m, snd sample_creation = Ok m /\
    batch_done small_geometry sample_spec 10 tree_device sample_pool [] {[59]} [Upsert (key_u64 4) (le_split 2 44)] m (fst sample_creation).
Proof.
  pose proof (tree_creation_refines small_geometry sample_spec 10 [Upsert (key_u64 4) (le_split 2 44)] 59 tree_device sample_pool
    small_geometry_wf (proj1 tree_device_ok) sample_pool_ok ltac:(by vm_compute) ltac:(by vm_compute) ltac:(by vm_compute) ltac:(by vm_compute)
    ltac:(by vm_compute) (proj2 (elem_of_singleton (C := gset Z) 59 59) eq_refl)) as H.
  assert (match snd sample_creation with Ok _ => true | _ => false end = true) as E by (vm_compute; reflexivity).
  unfold wpi in H. fold sample_creation in H. revert H E. destruct sample_creation as [s [m|e|]]; intros H E; [|discriminate E..].
  exists m. split; [reflexivity|exact H].
Defined.

(** ** A deletion that does not fit

    A root whose separators leave less than one block of slack: the smallest key of its second child is short, the next key of that child is long.
    Deleting the short key makes the long one the separator of the child. *)

Definition wide_leaf (items : list (bytes * nat)) : TreeNode :=
  {| tn_kind := ExtentMap; tn_owner := 17; tn_level := 0; tn_subtree_items := zlen items; tn_leftmost_child := 0; tn_leftmost_items := 0;
     tn_items := map (fun i => {| ti_key := fst i; ti_value := repeat Byte.x01 (snd i) |}) items |}.

Definition wide_key : bytes := repeat Byte.x10 8.

Definition wide_child (key : bytes) (lba items : Z) : TreeItem := {| ti_key := key; ti_value := le_split 8 lba ++ le_split 8 items |}.

Definition wide_root : TreeNode :=
  {| tn_kind := ExtentMap; tn_owner := 17; tn_level := 1; tn_subtree_items := 7; tn_leftmost_child := 45; tn_leftmost_items := 1;
     tn_items := [wide_child wide_key 46 2; wide_child (repeat Byte.x20 1020) 47 1; wide_child (repeat Byte.x30 1020) 40 1;
                  wide_child (repeat Byte.x40 1020) 41 1; wide_child (repeat Byte.x50 700) 42 1] |}.

Definition wide_volume : MemoryBackend :=
  {| mb_block_size := 4096; mb_total_blocks := 60;
     mb_blocks :=
       <[44 := node_block wide_root]> (<[45 := node_block (wide_leaf [(repeat Byte.x01 8, 10%nat)])]>
       (<[46 := node_block (wide_leaf [(wide_key, 10%nat); (repeat Byte.x11 1020, 1100%nat)])]>
       (<[47 := node_block (wide_leaf [(repeat Byte.x20 1020, 10%nat)])]> (<[40 := node_block (wide_leaf [(repeat Byte.x30 1020, 10%nat)])]>
       (<[41 := node_block (wide_leaf [(repeat Byte.x40 1020, 10%nat)])]> (<[42 := node_block (wide_leaf [(repeat Byte.x50 700, 10%nat)])]> ∅)))))) |}.

Definition wide_device : CachedDevice Decoded MemoryBackend := cached_volume wide_volume.

Lemma wide_device_ok : dev_ok (decodes := core_decodes) wide_device.
Proof.
  apply cached_volume_ok. split; [by vm_compute|]. split; [by vm_compute|]. cbn [mb_blocks wide_volume].
  repeat (apply map_Forall_insert_2; [vm_compute; reflexivity|]). apply map_Forall_empty.
Qed.

Lemma wide_tree : exists items nodes, tree_of small_geometry sample_spec (decoded (view (decodes := core_decodes) wide_device)) 44 items nodes.
Proof.
  pose proof (wpi_visit_tree_nodes small_geometry sample_spec counting false 44 wide_device 0 small_geometry_wf ltac:(done) wide_device_ok
    ltac:(by vm_compute)) as H.
  assert (match snd (visit_tree_nodes small_geometry sample_spec counting false 44 (wide_device, 0)) with Ok _ => true | _ => false end = true) as E
    by (vm_compute; reflexivity).
  unfold wpi in H. destruct (visit_tree_nodes _ _ _ _ _ _) as [s [r|e|]]; [|discriminate E..]. destruct H as (_ & items & nodes & Ht & _). by exists items, nodes.
Qed.

(** C27: a deletion can fail on a sound tree with free blocks left. On a device that holds a tree whose root is almost full, deleting a key the tree
    holds, when that key is the smallest of a child and the next one is longer, reports that a tree node exceeds one block: the deletion
    replaces the separator in the parent and has no split for it, while an insertion that lengthens a separator splits the parent. *)
Theorem deletion_overflows_full_parent :
  exists items nodes, tree_of small_geometry sample_spec (decoded (view (decodes := core_decodes) wide_device)) 44 items nodes /\
    value_of wide_key items = Some (repeat Byte.x01 10) /\ pool_free sample_pool = [54; 55; 56; 57; 58] /\
    snd (mutate_many small_geometry 44 sample_spec 10 [Delete wide_key] (wide_device, sample_pool)) =
      Err (CFormat (Overflow "tree node exceeds one block")).
Proof.
  destruct wide_tree as (items & nodes & Ht). exists items, nodes. split; [done|]. split; [|split; [done|vm_compute; reflexivity]].
  pose proof (wpi_tree_lookup small_geometry sample_spec wide_device 44 wide_key wide_device_ok ltac:(by vm_compute)) as H.
  assert (match snd (tree_lookup small_geometry 44 sample_spec wide_key wide_device) with Ok r => fst r | _ => None end = Some (repeat Byte.x01 10)) as E
    by (vm_compute; reflexivity).
  unfold wpi in H. destruct (tree_lookup _ _ _ _ _) as [s [r|e|]]; [|discriminate E..]. cbn [snd] in E. destruct H as [_ H].
  destruct (H _ _ Ht) as [<- _]. done.
Qed.
