(* ===== verification/AllocRoot.v ===== *)
(** * The allocation root and its node pool (crates/afsplus-core/src/allocation_root.rs)

    The tree of region records a checkpoint names, its construction when a
    volume is made, its readers, and the permanently allocated pool its nodes
    come from.  The code; what it computes is the subject of AllocRootSpec.v. *)

From S2P Require Import Prelude Crc32c Format Header Codec TreeNode Geometry Checkpoint Device Core Tree CowTree.

Definition VALUE_BYTES : Z := 16.

Definition allocation_spec (max_generation : Z) : TreeSpec :=
  {| ts_kind := AllocationRoot; ts_owner := 0; ts_max_generation := max_generation |}.

(** ** Records *)

Inductive RecordValidation : Type := Valid | DescriptorSlot | DescriptorGeneration.

Definition validate_record (record : RegionRecord) : RecordValidation :=
  if DESCRIPTOR_SLOTS <=? rr_descriptor_slot record then DescriptorSlot else
  if rr_descriptor_generation record =? 0 then DescriptorGeneration else Valid.

Definition check_record (record : RegionRecord) : outcome CoreError unit :=
  match validate_record record with
  | Valid => Ok tt
  | DescriptorSlot => Err (Corrupt "allocation-root descriptor slot out of range")
  | DescriptorGeneration => Err (Corrupt "allocation-root descriptor generation is zero")
  end.

(** [value]: the fields are stored into a zeroed array. *)
Definition record_value (record : RegionRecord) : outcome CoreError bytes :=
  do* check_record record in
  let encoded := zeros VALUE_BYTES in
  let* encoded := put_u8 encoded 0 (rr_descriptor_slot record) in
  let* encoded := put encoded 4 8 (le_split 4 (rr_free_blocks record)) in
  put encoded 8 16 (le_split 8 (rr_descriptor_generation record)).

Definition decode_key (encoded : bytes) : outcome CoreError Z :=
  if zlen encoded =? 4 then Ok (le_combine (rev encoded)) else Err (Corrupt "allocation-root key is not four bytes").

Definition decode_value (encoded : bytes) (geo : Geometry) (region max_generation : Z) : outcome CoreError RegionRecord :=
  if negb (zlen encoded =? VALUE_BYTES) then Err (Corrupt "allocation-root value has wrong size") else
  let* reserved := slice encoded 1 4 in
  if negb (bytes_eqb reserved (zeros 3)) then Err (Corrupt "allocation-root value has nonzero reserved bytes") else
  let* descriptor_slot := index encoded 0 in
  let* free_blocks := of_format (get_u32_at encoded 4 8) in
  let* descriptor_generation := of_format (get_u64_at encoded 8 16) in
  let record := {| rr_descriptor_slot := descriptor_slot; rr_free_blocks := free_blocks; rr_descriptor_generation := descriptor_generation |} in
  do* check_record record in
  let* count := of_format (region_count geo) in
  let* exceeds :=
    if count <=? region then Ok true
    else let* valid := of_format (region_valid_blocks geo region) in Ok (valid <? rr_free_blocks record) in
  if (exceeds : bool) then Err (Corrupt "allocation-root record exceeds geometry") else
  if max_generation <? rr_descriptor_generation record then Err (Corrupt "allocation-root record is from the future") else
  Ok record.

Definition record_item (region : Z) (record : RegionRecord) : outcome CoreError TreeItem :=
  let* value := record_value record in
  Ok {| ti_key := key_u32 region; ti_value := value |}.

Definition initial_leaf (region : Z) (record : RegionRecord) : outcome CoreError TreeNode :=
  let* item := record_item region record in
  Ok {| tn_kind := AllocationRoot; tn_owner := 0; tn_level := 0; tn_subtree_items := 1; tn_leftmost_child := 0;
        tn_leftmost_items := 0; tn_items := [item] |}.

(** ** The reserved pool *)

Definition placement_error {A} (c : result A) : outcome CoreError A :=
  match c with
  | Ok a => Ok a
  | Err (Invalid message) => Err (UnsupportedGeometry message)
  | Err other => Err (CFormat other)
  | Panic => Panic
  end.

Definition reserved_pool_lbas (geo : Geometry) : outcome CoreError (list Z) := placement_error (allocation_root_pool_lbas geo).

Definition reserved_pool_block_count (geo : Geometry) : outcome CoreError Z :=
  let* nodes := placement_error (allocation_root_logical_nodes geo) in
  ok_or (checked_mul 64 nodes 3) (Corrupt "allocation-root pool size overflow").

Definition allocatable_at (geo : Geometry) (ordinal : Z) : outcome CoreError Z :=
  let* valid := of_format (region_valid_blocks geo 0) in
  let* reserved := of_format (region0_reserved_blocks geo) in
  let* first_capacity := sub_w valid reserved in
  let* lba :=
    if ordinal <? first_capacity then add_w 64 reserved ordinal
    else
      let* slots := mul_w 64 (div_ceil (region_size geo) BITMAP_PAGE_BLOCKS) BITMAP_SLOTS in
      let* full_reserved := add_w 64 DESCRIPTOR_SLOTS slots in
      let* capacity := sub_w (region_size geo) full_reserved in
      let* remainder := sub_w ordinal first_capacity in
      if capacity =? 0 then Panic else
      let* region := add_w 64 1 (remainder / capacity) in
      let* count := of_format (region_count geo) in
      if count <=? region then Err (UnsupportedGeometry "volume cannot hold allocation-root pool") else
      let* head := of_format (region_reserved_blocks geo (as_u32 region)) in
      let* base := add_w 64 (region_base geo (as_u32 region)) head in
      add_w 64 base (remainder mod capacity) in
  let* ok := of_format (is_allocatable geo lba) in
  if negb ok then Err (UnsupportedGeometry "volume cannot hold allocation-root pool") else Ok lba.

Definition reserved_pool_bounds (geo : Geometry) : outcome CoreError (Z * Z) :=
  do* of_format (Geometry_validate geo) in
  let* count := reserved_pool_block_count geo in
  let* first := allocatable_at geo BOOTSTRAP_METADATA_BLOCKS in
  let* ordinal := add_w 64 BOOTSTRAP_METADATA_BLOCKS count in
  let* ordinal := sub_w ordinal 1 in
  let* last := allocatable_at geo ordinal in
  let* bound := add_w 64 last 1 in
  Ok (first, bound).

Definition reserved_span_before_log (geo : Geometry) : outcome CoreError Z :=
  let* lbas := reserved_pool_lbas geo in
  add_w 64 BOOTSTRAP_METADATA_BLOCKS (zlen lbas).

(** ** Building the tree of a new volume *)

Record BuiltAllocationRoot := { br_root_lba : Z; br_pool_lbas : list Z; br_nodes : list (Z * TreeNode) }.

Record BulkChild := { bc_lba : Z; bc_min_key : bytes; bc_items : Z }.

Definition leaf_capacity (block_size : Z) : outcome CoreError Z :=
  let* capacity := of_format (fixed_item_capacity block_size 4 VALUE_BYTES) in
  if capacity =? 0 then Err (UnsupportedGeometry "block cannot hold one allocation-root record") else Ok capacity.

Definition internal_fanout (block_size : Z) : outcome CoreError Z :=
  let* separators := of_format (fixed_item_capacity block_size 4 16) in
  let* fanout := add_w 64 separators 1 in
  if fanout <? 2 then Err (UnsupportedGeometry "block cannot hold an internal allocation-root node") else Ok fanout.

Definition balanced_groups (total maximum : Z) : outcome CoreError (list Z) :=
  if (total =? 0) || (maximum =? 0) then Err (Corrupt "cannot partition empty allocation-root level") else
  let groups := div_ceil total maximum in
  let base := total / groups in
  let remainder := total mod groups in
  if (1 <? groups) && (base <? 2) then Err (UnsupportedGeometry "allocation-root fanout cannot form valid internal nodes") else
  Ok (map (fun index => base + (if index <? remainder then 1 else 0)) (seqZ 0 groups)).

(** The pool blocks left, the nodes made, the children of the next level, and the position in the level below. *)
Record Bulk := { bk_lbas : list Z; bk_nodes : list (Z * TreeNode); bk_level : list BulkChild; bk_offset : Z }.

Definition pool_next (lbas : list Z) : outcome CoreError (Z * list Z) :=
  match lbas with [] => Err (Corrupt "allocation-root active pool exhausted") | lba :: lbas => Ok (lba, lbas) end.

Definition bulk_leaf (records : list RegionRecord) (b : Bulk) (group_len : Z) : outcome CoreError Bulk :=
  let* '(lba, lbas) := pool_next (bk_lbas b) in
  let* items := ofoldi (fun items region record => let* item := record_item (as_u32 region) record in Ok (items ++ [item]))
                  [] (bk_offset b) (sub records (bk_offset b) (bk_offset b + group_len)) in
  let node := {| tn_kind := AllocationRoot; tn_owner := 0; tn_level := 0; tn_subtree_items := zlen items; tn_leftmost_child := 0;
                 tn_leftmost_items := 0; tn_items := items |} in
  match items with
  | [] => Panic
  | item :: _ =>
      Ok {| bk_lbas := lbas; bk_nodes := bk_nodes b ++ [(lba, node)];
            bk_level := bk_level b ++ [ {| bc_lba := lba; bc_min_key := ti_key item; bc_items := zlen items |} ];
            bk_offset := bk_offset b + group_len |}
  end.

Definition bulk_separator (acc : Z * list TreeItem) (child : BulkChild) : outcome CoreError (Z * list TreeItem) :=
  let* total := ok_or (checked_add 64 (fst acc) (bc_items child)) (Corrupt "allocation-root item count overflow") in
  let* value := of_format (child_value {| cr_lba := bc_lba child; cr_subtree_items := bc_items child |}) in
  Ok (total, snd acc ++ [ {| ti_key := bc_min_key child; ti_value := value |} ]).

Definition bulk_internal (level : Z) (below : list BulkChild) (b : Bulk) (group_len : Z) : outcome CoreError Bulk :=
  let* children := slice below (bk_offset b) (bk_offset b + group_len) in
  let* '(lba, lbas) := pool_next (bk_lbas b) in
  match children with
  | [] => Panic
  | first :: rest =>
      let* '(total, items) := ofold bulk_separator (bc_items first, []) rest in
      let node := {| tn_kind := AllocationRoot; tn_owner := 0; tn_level := level; tn_subtree_items := total;
                     tn_leftmost_child := bc_lba first; tn_leftmost_items := bc_items first; tn_items := items |} in
      Ok {| bk_lbas := lbas; bk_nodes := bk_nodes b ++ [(lba, node)];
            bk_level := bk_level b ++ [ {| bc_lba := lba; bc_min_key := bc_min_key first; bc_items := total |} ];
            bk_offset := bk_offset b + group_len |}
  end.

(** [while level_nodes.len() > 1]: the level is a [u8], so 256 turns are enough. *)
Fixpoint bulk_levels (fuel : nat) (fanout level : Z) (b : Bulk) : outcome CoreError Bulk :=
  match fuel with
  | O => Panic
  | S fuel =>
      if zlen (bk_level b) <=? 1 then Ok b else
      let* level := ok_or (checked_add 8 level 1) (Corrupt "allocation-root level overflow") in
      let* groups := balanced_groups (zlen (bk_level b)) fanout in
      let* b := ofold (bulk_internal level (bk_level b))
                  {| bk_lbas := bk_lbas b; bk_nodes := bk_nodes b; bk_level := []; bk_offset := 0 |} groups in
      bulk_levels fuel fanout level b
  end.

Definition bulk_build (geo : Geometry) (records : list RegionRecord) : outcome CoreError BuiltAllocationRoot :=
  let* count := of_format (region_count geo) in
  if negb (zlen records =? count) || (zlen records =? 0) then Err (Corrupt "allocation-root bulk build record count mismatch") else
  let* capacity := leaf_capacity (block_size geo) in
  let* fanout := internal_fanout (block_size geo) in
  let* groups := balanced_groups (zlen records) capacity in
  let* pool_lbas := reserved_pool_lbas geo in
  let logical_nodes := zlen pool_lbas / 3 in
  let* b := ofold (bulk_leaf records)
              {| bk_lbas := sub pool_lbas 0 logical_nodes; bk_nodes := []; bk_level := []; bk_offset := 0 |} groups in
  let* b := bulk_levels 256 fanout 0 b in
  match bk_lbas b with
  | _ :: _ => Err (Corrupt "allocation-root logical node count mismatch")
  | [] =>
      if negb (zlen (bk_nodes b) =? logical_nodes) then Err (Corrupt "allocation-root logical node count mismatch") else
      match bk_level b with
      | [] => Panic
      | root :: _ => Ok {| br_root_lba := bc_lba root; br_pool_lbas := pool_lbas; br_nodes := bk_nodes b |}
      end
  end.

(** ** Reading the tree *)

Record LoadedAllocationRoot := { la_records : list RegionRecord; la_tree_blocks : list Z; la_summary : TreeSummary }.

(** The blocks and the records a walk has collected. *)
Record Collected := { co_blocks : list Z; co_records : list (Z * RegionRecord) }.

Definition collect_item (geo : Geometry) (max_generation : Z) (records : list (Z * RegionRecord)) (item : TreeItem)
    : outcome CoreError (list (Z * RegionRecord)) :=
  let* region := decode_key (ti_key item) in
  let* record := decode_value (ti_value item) geo region max_generation in
  Ok (records ++ [(region, record)]).

(** A record that fails to decode leaves those before it collected: the closure pushes as it goes. *)
Fixpoint collect_items (geo : Geometry) (max_generation : Z) (items : list TreeItem) : io Collected CoreError unit :=
  match items with
  | [] => iret tt
  | item :: items => fun c =>
      match collect_item geo max_generation (co_records c) item with
      | Ok records => collect_items geo max_generation items {| co_blocks := co_blocks c; co_records := records |}
      | Err e => (c, Err e)
      | Panic => (c, Panic)
      end
  end.

Definition collect_node (geo : Geometry) (max_generation lba : Z) (node : TreeNode) : io Collected CoreError unit :=
  do! imodify (fun c => {| co_blocks := co_blocks c ++ [lba]; co_records := co_records c |}) in
  if is_leaf node then collect_items geo max_generation (tn_items node) else iret tt.

Definition in_region_order (records : list (Z * RegionRecord)) : bool :=
  forallb (fun p => fst (snd p) =? fst p) (zip (seqZ 0 (zlen records)) records).

Section Readers.
Context {D : Type} {device : BlockDevice Decoded D}.

Definition lookup_record (geo : Geometry) (root_lba max_generation region : Z) : io D CoreError (option RegionRecord) :=
  let! count := ilift (of_format (region_count geo)) in
  if count <=? region then ierr (Corrupt "allocation-root region outside geometry") else
  let! '(encoded, _) := tree_lookup geo root_lba (allocation_spec max_generation) (key_u32 region) in
  match encoded with
  | None => iret None
  | Some encoded => let! record := ilift (decode_value encoded geo region max_generation) in iret (Some record)
  end.

(** [load_all]. *)
Definition load_allocation_root (geo : Geometry) (root_lba max_generation : Z) : io D CoreError LoadedAllocationRoot := fun d =>
  let '(s, r) := visit_tree_nodes geo (allocation_spec max_generation) (collect_node geo max_generation) true root_lba
                   (d, {| co_blocks := []; co_records := [] |}) in
  (fst s,
   let* summary := r in
   let* count := of_format (region_count geo) in
   if negb (zlen (co_records (snd s)) =? count) || negb (in_region_order (co_records (snd s))) then
     Err (Corrupt "allocation root does not contain exactly one record per region") else
   Ok {| la_records := map snd (co_records (snd s)); la_tree_blocks := co_blocks (snd s); la_summary := summary |}).

Definition load_tree_blocks (geo : Geometry) (root_lba max_generation : Z) : io D CoreError (list Z) := fun d =>
  let '(s, r) := visit_tree_nodes geo (allocation_spec max_generation) (fun lba _ => imodify (fun blocks => blocks ++ [lba])) true root_lba (d, []) in
  (fst s, let* _ := r in Ok (snd s)).
End Readers.

(** ** The pool as an allocator *)

Record ReservedTreePool := {
  rp_tree_cache_pages : Z;
  rp_pool : gset Z;
  rp_available : gset Z;
  rp_allocated_here : gset Z;
  rp_retired_here : gset Z;
}.

Definition ReservedTreePool_new (pool_lbas current_tree older_tree : list Z) : outcome CoreError ReservedTreePool :=
  let pool : gset Z := list_to_set pool_lbas in
  if bool_decide (pool = ∅) then Err (Corrupt "allocation-root node pool is empty") else
  let* available := ofold (fun available lba =>
    if negb (bool_decide (lba ∈ pool)) then Err (Corrupt "allocation-root node lies outside its reserved pool")
    else Ok (available ∖ {[lba]})) pool (current_tree ++ older_tree) in
  Ok {| rp_tree_cache_pages := 2 ^ 64 - 1; rp_pool := pool; rp_available := available; rp_allocated_here := ∅; rp_retired_here := ∅ |}.

Definition with_tree_cache_pages (pages : Z) (p : ReservedTreePool) : ReservedTreePool :=
  {| rp_tree_cache_pages := pages; rp_pool := rp_pool p; rp_available := rp_available p; rp_allocated_here := rp_allocated_here p;
     rp_retired_here := rp_retired_here p |}.

Definition allocated_nodes (p : ReservedTreePool) : gset Z := rp_allocated_here p.
Definition retired_nodes (p : ReservedTreePool) : gset Z := rp_retired_here p.

(** [BTreeSet::pop_first]: the smallest element. *)
Definition pop_first (s : gset Z) : option (Z * gset Z) :=
  match elements s with
  | [] => None
  | x :: rest => let first := foldr Z.min x rest in Some (first, s ∖ {[first]})
  end.

Section Pool.
Context {D : Type}.

Definition pool_allocate : io (D * ReservedTreePool) CoreError Z := fun s =>
  let p := snd s in
  match pop_first (rp_available p) with
  | None => (s, Err NoSpace)
  | Some (lba, available) =>
      ((fst s, {| rp_tree_cache_pages := rp_tree_cache_pages p; rp_pool := rp_pool p; rp_available := available;
                  rp_allocated_here := {[lba]} ∪ rp_allocated_here p; rp_retired_here := rp_retired_here p ∖ {[lba]} |}), Ok lba)
  end.

Definition pool_retire (lba : Z) : io (D * ReservedTreePool) CoreError unit := fun s =>
  let p := snd s in
  if negb (bool_decide (lba ∈ rp_pool p)) || bool_decide (lba ∈ rp_allocated_here p) || bool_decide (lba ∈ rp_retired_here p) then
    (s, Err (Corrupt "allocation-root pool block retired invalidly")) else
  ((fst s, {| rp_tree_cache_pages := rp_tree_cache_pages p; rp_pool := rp_pool p; rp_available := rp_available p;
              rp_allocated_here := rp_allocated_here p; rp_retired_here := {[lba]} ∪ rp_retired_here p |}), Ok tt).

Definition pool_release (lba : Z) : io (D * ReservedTreePool) CoreError unit := fun s =>
  let p := snd s in
  if negb (bool_decide (lba ∈ rp_pool p)) || negb (bool_decide (lba ∈ rp_allocated_here p)) then
    (s, Err (Corrupt "allocation-root pool block released invalidly")) else
  ((fst s, {| rp_tree_cache_pages := rp_tree_cache_pages p; rp_pool := rp_pool p; rp_available := {[lba]} ∪ rp_available p;
              rp_allocated_here := rp_allocated_here p ∖ {[lba]}; rp_retired_here := rp_retired_here p |}), Ok tt).

#[global] Instance reserved_pool_allocator : TreeAllocator D ReservedTreePool := {
  tree_cache_pages := rp_tree_cache_pages;
  record_tree_mutation _ p := p;
  allocate_tree_block := pool_allocate;
  retire_tree_block := pool_retire;
  release_tree_block := pool_release;
}.
End Pool.
