(* ===== verification/AllocPlace.v ===== *)
(** * Placement of the allocation-root pool (allocation_root.rs: allocatable_at, reserved_pool_bounds)

    The closed form that finds the n-th allocatable block agrees with the
    enumeration of the geometry, and the envelope of the pool computed from it
    is the pool's first and last block. *)

From S2P Require Import Prelude Format Geometry Core AllocRoot.

Section Place.
Context (geo : Geometry) {WF : WfGeometry geo}.

Lemma allocatable_from_app a n m : allocatable_from geo a (n + m) = allocatable_from geo a n ++ allocatable_from geo (a + Z.of_nat n) m.
Proof. unfold allocatable_from. rewrite Nat2Z.inj_add, seqZ_app by lia. apply List.filter_app. Qed.

Lemma allocatable_from_snoc a n :
  allocatable_from geo a (S n) = allocatable_from geo a n ++ (if allocatable geo (a + Z.of_nat n) then [a + Z.of_nat n] else []).
Proof.
  replace (S n) with (n + 1)%nat by lia. rewrite allocatable_from_app. unfold allocatable_from at 2.
  change (seqZ (a + Z.of_nat n) (Z.of_nat 1)) with [a + Z.of_nat n]. cbn [List.filter]. by destruct (allocatable _ _).
Qed.

(** A block of the list, by the number of allocatable blocks before it. *)
Lemma allocatable_from_lookup a n x :
  a <= x < a + Z.of_nat n -> allocatable geo x = true ->
  allocatable_from geo a n !! length (allocatable_from geo a (Z.to_nat (x - a))) = Some x.
Proof.
  intros Hx Ha. replace n with (S (Z.to_nat (x - a)) + (n - S (Z.to_nat (x - a))))%nat by lia.
  rewrite allocatable_from_app, allocatable_from_snoc. replace (a + Z.of_nat (Z.to_nat (x - a))) with x by lia. rewrite Ha, <- app_assoc.
  apply list_lookup_middle. done.
Qed.

Lemma region_quotient r o : 0 <= o < region_size geo -> (r * region_size geo + o) / region_size geo = r /\ (r * region_size geo + o) mod region_size geo = o.
Proof. intros Ho. split; [rewrite Z.div_add_l, Z.div_small by lia; lia|rewrite Z.add_comm, Z.mod_add, Z.mod_small by lia; lia]. Qed.

Lemma region_count_upto r n : 0 <= r < regions geo -> Z.of_nat n <= valid geo r ->
  zlen (allocatable_from geo (r * region_size geo) n) = Z.max 0 (Z.of_nat n - head geo r).
Proof.
  intros Hr. pose proof (wf_head_bounds geo r Hr). induction n as [|n IH]; intros Hn; [change (zlen _) with 0; lia|].
  rewrite allocatable_from_snoc, zlen_app, IH by lia. pose proof (wf_valid_bounds geo r Hr).
  destruct (region_quotient r (Z.of_nat n)) as [Hq Hm]; [lia|]. unfold allocatable. rewrite Hq, Hm.
  unfold valid in Hn. replace (_ <? total_blocks geo) with true by lia. destruct (head geo r <=? Z.of_nat n) eqn:?; cbn [andb];
    [rewrite zlen_one|change (zlen (@nil Z)) with 0]; lia.
Qed.

(** Capacities of the regions. *)
Definition room (r : Z) : Z := valid geo r - head geo r.
Definition full_room : Z := region_size geo - (3 + 3 * div_ceil (region_size geo) BITMAP_PAGE_BLOCKS).

Lemma full_region r : 0 <= r -> r + 1 < regions geo -> valid geo r = region_size geo.
Proof.
  intros H0 Hr. unfold valid, regions in *. pose proof (wf_total (g := geo)). pose proof (wf_region (g := geo)).
  pose proof (div_ceil_bounds (total_blocks geo) (region_size geo) ltac:(lia) ltac:(lia)). nia.
Qed.

Lemma inner_room r : 0 < r -> r + 1 < regions geo -> room r = full_room.
Proof. intros H0 Hr. unfold room, full_room, head, pages, boot. rewrite full_region by lia. replace (r =? 0) with false by lia. lia. Qed.

Lemma region_sizes : exists k, 4 <= k <= 18 /\ region_size geo = 2 ^ k.
Proof.
  pose proof (wf_pow2 (g := geo)) as H. pose proof (wf_region (g := geo)) as [Hlo Hhi]. unfold is_power_of_two in H. exists (Z.log2 (region_size geo)).
  apply andb_true_iff in H as [_ H%Z.eqb_eq]. split; [|done].
  change 16 with (2 ^ 4) in Hlo. change 262144 with (2 ^ 18) in Hhi. split; [by apply Z.log2_le_pow2; [lia|]|].
  rewrite <- (Z.log2_pow2 18) by lia. by apply Z.log2_le_mono.
Qed.

(** A shorter region holds no more blocks: no page boundary of a power of two falls just below it. *)
Lemma room_monotone v : 1 <= v <= region_size geo -> v - 3 * div_ceil v BITMAP_PAGE_BLOCKS <= region_size geo - 3 * div_ceil (region_size geo) BITMAP_PAGE_BLOCKS.
Proof.
  intros Hv. destruct region_sizes as (k & Hk & Hs). rewrite Hs in *. clear Hs.
  pose proof (div_ceil_bounds v BITMAP_PAGE_BLOCKS ltac:(done) ltac:(lia)) as Hd. set (q := div_ceil v BITMAP_PAGE_BLOCKS) in *. clearbody q.
  change BITMAP_PAGE_BLOCKS with 32384 in *.
  assert (k = 4 \/ k = 5 \/ k = 6 \/ k = 7 \/ k = 8 \/ k = 9 \/ k = 10 \/ k = 11 \/ k = 12 \/ k = 13 \/ k = 14 \/ k = 15 \/ k = 16 \/ k = 17 \/ k = 18) as Hc by lia.
  repeat (destruct Hc as [->|Hc]); [..|subst k]; match goal with |- context [div_ceil ?a ?b] => let c := eval vm_compute in (div_ceil a b) in change (div_ceil a b) with c end; lia.
Qed.

Lemma room_bounds r : 0 < r < regions geo -> 1 <= room r <= full_room.
Proof.
  intros Hr. split.
  - destruct (decide (r + 1 = regions geo)) as [He|Hne]; [|rewrite inner_room by lia; unfold full_room; pose proof (wf_region (g := geo)); pose proof (room_monotone 7 ltac:(lia)) as H7; change (div_ceil 7 BITMAP_PAGE_BLOCKS) with 1 in H7; lia].
    unfold room. pose proof (wf_last (g := geo)) as Hl. replace r with (regions geo - 1) by lia. specialize (Hl ltac:(lia)). lia.
  - unfold room, full_room, head, pages, boot. replace (r =? 0) with false by lia. pose proof (room_monotone (valid geo r) (wf_valid_bounds geo r ltac:(lia))). lia.
Qed.

(** The allocatable blocks before a region. *)
Definition before (r : Z) : Z := if r =? 0 then 0 else room 0 + (r - 1) * full_room.

Lemma before_succ r : 0 <= r -> r + 1 < regions geo -> before (r + 1) = before r + room r.
Proof.
  intros H0 Hr. unfold before. replace (r + 1 =? 0) with false by lia. destruct (r =? 0) eqn:He; [replace r with 0 by lia; lia|]. rewrite (inner_room r) by lia. lia.
Qed.

Lemma before_region r : 0 <= r < regions geo -> zlen (allocatable_from geo 0 (Z.to_nat (r * region_size geo))) = before r.
Proof.
  intros [H0 Hr]. revert Hr. pattern r. apply natlike_ind; [done| |done]. clear r H0. intros r H0 IH Hr. pose proof (wf_region (g := geo)).
  replace (Z.to_nat (Z.succ r * region_size geo)) with (Z.to_nat (r * region_size geo) + Z.to_nat (region_size geo))%nat by lia.
  rewrite allocatable_from_app, zlen_app, IH by lia. replace (0 + Z.of_nat (Z.to_nat (r * region_size geo))) with (r * region_size geo) by lia.
  pose proof (full_region r ltac:(lia) ltac:(lia)) as Hf. rewrite region_count_upto by lia. pose proof (before_succ r H0 ltac:(lia)) as Hs. unfold Z.succ. rewrite Hs.
  f_equal. unfold room. rewrite Hf. destruct (decide (r = 0)) as [->|]; [pose proof (wf_first (g := geo))|pose proof (room_bounds r ltac:(lia)); unfold room in *]; lia.
Qed.

Lemma allocatable_blocks_all : allocatable_blocks geo = allocatable_from geo 0 (Z.to_nat (total_blocks geo)).
Proof.
  pose proof (wf_regions_pos geo). pose proof (wf_head_bounds geo 0 ltac:(lia)). pose proof (wf_first (g := geo)) as Hf. unfold valid in Hf.
  replace (Z.to_nat (total_blocks geo)) with (Z.to_nat (head geo 0) + Z.to_nat (total_blocks geo - head geo 0))%nat by lia.
  rewrite allocatable_from_app. pose proof (region_count_upto 0 (Z.to_nat (head geo 0)) ltac:(lia) ltac:(unfold valid; lia)) as Hz.
  rewrite Z.max_l in Hz by lia. apply zlen_zero_nil in Hz. rewrite Z.mul_0_l in Hz. rewrite Hz. unfold allocatable_blocks. cbn. do 2 f_equal. lia.
Qed.

Lemma allocatable_blocks_lookup r o :
  0 <= r < regions geo -> 0 <= o < room r -> allocatable_blocks geo !! Z.to_nat (before r + o) = Some (r * region_size geo + head geo r + o).
Proof.
  intros Hr Ho. pose proof (wf_head_bounds geo r Hr). pose proof (wf_valid_bounds geo r Hr). unfold room in Ho.
  destruct (region_quotient r (head geo r + o)) as [Hq Hm]; [lia|]. set (x := r * region_size geo + (head geo r + o)) in *.
  replace (r * region_size geo + head geo r + o) with x by (unfold x; lia). assert (x < total_blocks geo) as Hx by (unfold x, valid in *; lia).
  assert (allocatable geo x = true) as Ha by (unfold allocatable; rewrite Hq, Hm; lia). pose proof (wf_region (g := geo)).
  assert (0 <= r * region_size geo) by lia.
  pose proof (allocatable_from_lookup 0 (Z.to_nat (total_blocks geo)) x ltac:(lia) Ha) as Hl. rewrite <- allocatable_blocks_all in Hl. rewrite <- Hl. f_equal.
  replace (Z.to_nat (x - 0)) with (Z.to_nat (r * region_size geo) + Z.to_nat (head geo r + o))%nat by lia. rewrite allocatable_from_app.
  replace (0 + Z.of_nat (Z.to_nat (r * region_size geo))) with (r * region_size geo) by lia.
  pose proof (before_region r Hr) as Hb. pose proof (region_count_upto r (Z.to_nat (head geo r + o)) Hr ltac:(lia)) as Hc.
  rewrite length_app. unfold zlen in Hb, Hc. lia.
Qed.

Lemma zlen_allocatable_blocks : zlen (allocatable_blocks geo) = before (regions geo - 1) + room (regions geo - 1).
Proof.
  pose proof (wf_regions_pos geo) as Hp. set (r := regions geo - 1). assert (0 <= r < regions geo) as Hr by lia. rewrite allocatable_blocks_all.
  pose proof (wf_region (g := geo)). pose proof (div_ceil_bounds (total_blocks geo) (region_size geo) ltac:(lia) ltac:(pose proof (wf_total (g := geo)); lia)) as Hd.
  fold (regions geo) in Hd. assert (valid geo r = total_blocks geo - r * region_size geo) as Hv by (unfold valid, r; lia).
  assert (0 <= r * region_size geo) by lia. pose proof (wf_valid_bounds geo r Hr).
  replace (Z.to_nat (total_blocks geo)) with (Z.to_nat (r * region_size geo) + Z.to_nat (valid geo r))%nat by lia.
  rewrite allocatable_from_app, zlen_app, before_region by done. replace (0 + Z.of_nat (Z.to_nat (r * region_size geo))) with (r * region_size geo) by lia.
  rewrite region_count_upto by lia. f_equal. unfold room. destruct (decide (r = 0)) as [->|]; [pose proof (wf_first (g := geo))|pose proof (room_bounds r ltac:(lia)); unfold room in *]; lia.
Qed.

Lemma full_room_pos : 1 <= full_room.
Proof.
  pose proof (wf_region (g := geo)). pose proof (room_monotone 7 ltac:(lia)) as H7. change (div_ceil 7 BITMAP_PAGE_BLOCKS) with 1 in H7. unfold full_room. lia.
Qed.

Lemma beyond_last r o : 0 < r < regions geo -> room r <= o < full_room -> total_blocks geo <= r * region_size geo + head geo r + o /\ r = regions geo - 1.
Proof.
  intros Hr Ho. destruct (decide (r + 1 < regions geo)) as [Hlt|]; [rewrite inner_room in Ho by lia; lia|]. split; [|lia].
  unfold room, valid in Ho. pose proof (wf_region (g := geo)). pose proof (wf_total (g := geo)).
  pose proof (div_ceil_bounds (total_blocks geo) (region_size geo) ltac:(lia) ltac:(lia)) as Hd. fold (regions geo) in Hd. nia.
Qed.

Lemma wp_first_region ordinal :
  0 <= ordinal < room 0 -> allocatable_blocks geo !! Z.to_nat ordinal = Some (head geo 0 + ordinal).
Proof.
  intros Ho. pose proof (wf_regions_pos geo). pose proof (allocatable_blocks_lookup 0 ordinal ltac:(lia) Ho) as Hl. change (before 0) with 0 in Hl.
  by rewrite Z.mul_0_l, !Z.add_0_l in Hl.
Qed.

Lemma listed_allocatable i x : allocatable_blocks geo !! i = Some x -> 0 <= x -> allocatable geo x = true.
Proof.
  intros Hl Hx. pose proof (allocatable_blocks_elem geo _ WF (list_elem_of_lookup_2 _ _ _ Hl)) as He. rewrite (is_allocatable_eq geo) in He by done. by apply Ok_inj in He.
Qed.

Lemma listed_bounds i x : allocatable_blocks geo !! i = Some x -> head geo 0 <= x < total_blocks geo.
Proof.
  intros Hx%list_elem_of_lookup_2. unfold allocatable_blocks, allocatable_from in Hx. apply list_elem_of_In, filter_In in Hx as [Hx _].
  apply list_elem_of_In, elem_of_seqZ in Hx. lia.
Qed.

Lemma wp_allocatable_at ordinal :
  u64 ordinal ->
  wp (allocatable_at geo ordinal) (fun lba => allocatable_blocks geo !! Z.to_nat ordinal = Some lba)
    (fun e => e = UnsupportedGeometry "volume cannot hold allocation-root pool" /\ zlen (allocatable_blocks geo) <= ordinal).
Proof.
  intros Hu. pose proof (wf_regions_pos geo) as Hp. pose proof (wf_head_bounds geo 0 ltac:(lia)). pose proof (wf_valid_bounds geo 0 ltac:(lia)).
  pose proof (wf_first (g := geo)). pose proof (wf_region (g := geo)). pose proof (wf_regions (g := geo)). pose proof full_room_pos as Hfp. unfold u64 in Hu.
  unfold allocatable_at. rewrite wf_valid_blocks_eq, region0_reserved_eq, region_count_eq by (done || lia). cbn [of_format obind].
  apply wp_bind, wp_sub_w; [lia|]. fold (room 0). apply wp_bind. apply wp_if; intros Hcap.
  - assert (ordinal < region_size geo) by (unfold room in Hcap; lia). pose proof (wp_first_region ordinal ltac:(lia)) as Hl. apply wp_add_w; [lia|].
    rewrite (is_allocatable_eq geo), (listed_allocatable _ _ Hl ltac:(lia)) by lia. by apply wp_ok.
  - assert (0 <= div_ceil (region_size geo) BITMAP_PAGE_BLOCKS <= 9) as Hpg.
    { pose proof (div_ceil_bounds (region_size geo) BITMAP_PAGE_BLOCKS ltac:(done) ltac:(lia)) as Hd. change BITMAP_PAGE_BLOCKS with 32384 in *. lia. }
    unfold full_room in Hfp. unfold BITMAP_SLOTS, DESCRIPTOR_SLOTS. apply wp_bind, wp_mul_w; [lia|]. apply wp_bind, wp_add_w; [lia|]. apply wp_bind, wp_sub_w; [lia|].
    replace (region_size geo - (3 + div_ceil (region_size geo) BITMAP_PAGE_BLOCKS * 3)) with full_room by (unfold full_room; lia). fold full_room in Hfp.
    apply wp_bind, wp_sub_w; [lia|]. set (rem := ordinal - room 0). assert (room 0 + rem = ordinal) as Hrem by (unfold rem; lia).
    assert (0 <= room 0) by (unfold room; lia). apply wp_if_false; [lia|].
    pose proof (Z.div_mod rem full_room ltac:(lia)) as Hdm. pose proof (Z.mod_pos_bound rem full_room ltac:(lia)) as Hmb.
    assert (0 <= rem / full_room) by (apply Z.div_pos; lia). assert (rem / full_room <= rem) by (apply Z.div_le_upper_bound; nia).
    set (q := rem / full_room) in *. set (o := rem mod full_room) in *. pose proof zlen_allocatable_blocks as Hlen.
    destruct (decide (rem = 2 ^ 64 - 1)) as [Hbig|]; [unfold room in *; lia|].
    apply wp_bind, wp_add_w; [lia|]. apply wp_if; intros Hq.
    + apply wp_err. split; [done|]. rewrite Hlen. unfold before. destruct (regions geo - 1 =? 0) eqn:Hone; [replace (regions geo - 1) with 0 by lia; lia|].
      pose proof (room_bounds (regions geo - 1) ltac:(lia)). assert ((regions geo - 1) * full_room <= q * full_room) by (apply Z.mul_le_mono_nonneg_r; lia). lia.
    + rewrite as_u32_small by (unfold u32; lia). 
      rewrite (wf_reserved_blocks_eq geo (1 + q)) by lia. cbn [of_format obind]. unfold region_base.
      pose proof (wf_pages_bounds geo (1 + q) ltac:(lia)). assert (head geo (1 + q) = 3 + 3 * pages geo (1 + q)) as Hh by (unfold head, boot; replace (1 + q =? 0) with false by lia; lia).
      rewrite <- Hh. assert (full_room <= region_size geo) by (unfold full_room; lia). assert (0 <= (1 + q) * region_size geo < 2 ^ 32 * 262144) by nia.
      apply wp_bind, wp_add_w; [lia|]. apply wp_add_w; [lia|]. rewrite (is_allocatable_eq geo) by lia. cbn [of_format obind].
      assert (before (1 + q) + o = ordinal) as Hord by (unfold before; replace (1 + q =? 0) with false by lia; lia).
      destruct (decide (o < room (1 + q))) as [Hin|Hout].
      * pose proof (allocatable_blocks_lookup (1 + q) o ltac:(lia) ltac:(lia)) as Hl. rewrite Hord in Hl. rewrite (listed_allocatable _ _ Hl ltac:(lia)). by apply wp_ok.
      * destruct (beyond_last (1 + q) o) as [Hbe Hlast]; [lia|lia|]. unfold allocatable. replace (_ <? total_blocks geo) with false by lia. apply wp_err.
        split; [done|]. rewrite Hlen, <- Hlast. lia.
Qed.

Lemma allocatable_from_increasing a n i j x y :
  allocatable_from geo a n !! i = Some x -> allocatable_from geo a n !! j = Some y -> (i < j)%nat -> x < y.
Proof.
  assert (forall n a x, x ∈ allocatable_from geo a n -> a <= x) as Hge.
  { intros m b z Hz. unfold allocatable_from in Hz. apply list_elem_of_In, filter_In in Hz as [Hz _]. apply list_elem_of_In, elem_of_seqZ in Hz. lia. }
  revert a i j. induction n as [|n IH]; intros a i j Hx Hy Hij; [done|]. change (S n) with (1 + n)%nat in Hx, Hy. rewrite allocatable_from_app in Hx, Hy.
  replace (a + Z.of_nat 1) with (a + 1) in Hx, Hy by lia. change (allocatable_from geo a 1) with (if allocatable geo a then [a] else []) in Hx, Hy.
  destruct (allocatable geo a); cbn [app] in Hx, Hy; [|by eapply IH].
  destruct j as [|j]; [lia|]. cbn in Hy. destruct i as [|i]; cbn in Hx; [|eapply IH; [done|done|lia]].
  injection Hx as <-. apply list_elem_of_lookup_2, Hge in Hy. lia.
Qed.

Lemma count_levels_grows cf level total n : count_levels cf 145 level total = Ok n -> total <= n.
Proof.
  revert level total. induction cf as [|cf IH]; intros level total; cbn [count_levels]; destruct (level <=? 1) eqn:Hl; try (intros H%Ok_inj; lia); [done|].
  unfold checked_add. destruct (_ <? _); [|done]. cbn [ok_or obind]. intros H%IH. pose proof (div_ceil_pos level 145 ltac:(lia) ltac:(lia)). lia.
Qed.

Lemma count_levels_bound cf level total n : 0 <= level -> count_levels cf 145 level total = Ok n -> n <= total + level.
Proof.
  revert level total. induction cf as [|cf IH]; intros level total H0; cbn [count_levels]; destruct (level <=? 1) eqn:Hl; try (intros H%Ok_inj; lia); [done|].
  unfold checked_add. destruct (_ <? _); [|done]. cbn [ok_or obind]. pose proof (div_ceil_bounds level 145 ltac:(lia) ltac:(lia)).
  pose proof (div_ceil_pos level 145 ltac:(lia) ltac:(lia)). intros Hc%IH; lia.
Qed.

Lemma logical_nodes_count n :
  allocation_root_logical_nodes geo = Ok n -> count_levels 64 145 (div_ceil (regions geo) 144) (div_ceil (regions geo) 144) = Ok n.
Proof.
  unfold allocation_root_logical_nodes, ALLOCATION_ROOT_VALUE_BYTES. rewrite !allocation_root_capacity by done. generalize count_levels as levels.
  intros levels. cbn [obind]. rewrite region_count_eq by done. done.
Qed.

Lemma logical_nodes_bound n : allocation_root_logical_nodes geo = Ok n -> 0 < n < 2 ^ 33.
Proof.
  intros Hn. pose proof (wf_regions_pos geo). pose proof (wf_regions (g := geo)). pose proof (wp_of_ok _ _ _ _ (wp_logical_nodes geo WF) Hn) as Hp. cbn beta in Hp.
  pose proof (div_ceil_bounds (regions geo) 144 ltac:(lia) ltac:(lia)). pose proof (div_ceil_pos (regions geo) 144 ltac:(lia) ltac:(lia)).
  apply logical_nodes_count, count_levels_bound in Hn; lia.
Qed.

Lemma wp_pool_bounds :
  Geometry_validate geo = Ok tt ->
  wp (reserved_pool_bounds geo)
    (fun '(lo, hi) => exists pool, reserved_pool_lbas geo = Ok pool /\ hd_error pool = Some lo /\ last pool = Some (hi - 1) /\ Forall (fun lba => lo <= lba < hi) pool)
    (fun _ => exists e, reserved_pool_lbas geo = Err e).
Proof.
  intros Hv. unfold reserved_pool_bounds, reserved_pool_block_count, reserved_pool_lbas, allocation_root_pool_lbas. rewrite Hv. cbn [of_format obind].
  pose proof (wp_logical_nodes geo WF) as Hn. destruct (allocation_root_logical_nodes geo) as [n|e|] eqn:Hln; [|destruct e; cbn; by eexists|done]. apply logical_nodes_bound in Hln.
  cbn [placement_error obind]. unfold checked_mul. destruct (n * 3 <? 2 ^ 64) eqn:Hmul; [|cbn; by eexists]. cbn [ok_or obind].
  rewrite reserved_run_eq by (done || lia). cbn zeta. set (A := allocatable_blocks geo). unfold BOOTSTRAP_METADATA_BLOCKS.
  assert (zlen (drop (Z.to_nat 4) A) = Z.max 0 (zlen A - 4)) as Hdrop by (unfold zlen; rewrite length_drop; lia). rewrite Hdrop.
  assert (zlen A <= 4 + n * 3 - 1 -> exists e, placement_error (if n * 3 <=? Z.max 0 (zlen A - 4) then Ok (take (Z.to_nat (n * 3)) (drop (Z.to_nat 4) A)) else
    Err (Invalid "volume cannot hold its reserved metadata areas")) = Err e) as Herr.
  { intros Hle. replace (_ <=? _) with false by lia. by eexists. }
  apply wp_bind. eapply wp_mono; [apply wp_allocatable_at; done| |intros e [_ He]; fold A in He; apply Herr; lia]. intros lo Hlo. cbn beta in Hlo. fold A in Hlo.
  apply wp_bind, wp_add_w; [lia|]. apply wp_bind, wp_sub_w; [lia|]. apply wp_bind. eapply wp_mono; [apply wp_allocatable_at; unfold u64; lia| |intros e [_ He]; fold A in He; apply Herr; lia].
  intros top Htop. cbn beta in Htop. fold A in Htop. pose proof (lookup_lt_Some _ _ _ Htop) as Hlt.
  assert ((n * 3 <=? Z.max 0 (zlen A - 4)) = true) as -> by (unfold zlen; lia). set (pool := take (Z.to_nat (n * 3)) (drop (Z.to_nat 4) A)).
  pose proof (listed_bounds _ _ Htop). pose proof (wf_total (g := geo)).
  apply wp_bind, wp_add_w; [lia|]. apply wp_ok. exists pool. split; [done|].
  assert (forall i, (i < Z.to_nat (n * 3))%nat -> pool !! i = A !! (4 + i)%nat) as Hpool by (intros i Hi; unfold pool; by rewrite lookup_take_lt, lookup_drop).
  assert (length pool = Z.to_nat (n * 3)) as Hlp by (unfold pool; rewrite length_take, length_drop; lia).
  split; [|split].
  - pose proof (Hpool 0%nat ltac:(lia)) as Hz. change (A !! (4 + 0)%nat) with (A !! Z.to_nat 4) in Hz. rewrite Hlo in Hz. by destruct pool.
  - rewrite last_lookup, Hlp, Hpool by lia. rewrite Z.add_simpl_r. rewrite <- Htop. f_equal. lia.
  - apply Forall_forall. intros x Hx. apply list_elem_of_lookup in Hx as (i & Hi). pose proof (lookup_lt_Some _ _ _ Hi) as Hil. rewrite Hpool in Hi by lia.
    assert (forall a b y z, A !! a = Some y -> A !! b = Some z -> (a <= b)%nat -> y <= z) as Hmono.
    { intros a b y z Hy Hz Hab. destruct (decide (a = b)) as [<-|]; [rewrite Hy in Hz; injection Hz as <-; lia|].
      pose proof (allocatable_from_increasing _ _ a b y z Hy Hz ltac:(lia)). lia. }
    pose proof (Hmono _ _ _ _ Hlo Hi ltac:(lia)). pose proof (Hmono _ _ _ _ Hi Htop ltac:(lia)). lia.
Qed.
End Place.

(** C24: on every geometry the admission accepts, the closed form finds the
    n-th allocatable block of the volume exactly when there is one, and the
    pool's envelope is computed exactly when the pool fits: it starts at the
    pool's first block, ends after its last and contains every one. *)
Theorem pool_placement_exact geo :
  Geometry_typed geo -> Geometry_validate geo = Ok tt ->
  (forall ordinal, u64 ordinal ->
     wp (allocatable_at geo ordinal) (fun lba => allocatable_blocks geo !! Z.to_nat ordinal = Some lba)
       (fun e => e = UnsupportedGeometry "volume cannot hold allocation-root pool" /\ allocatable_blocks geo !! Z.to_nat ordinal = None)) /\
  wp (reserved_pool_bounds geo)
    (fun '(lo, hi) => exists pool, reserved_pool_lbas geo = Ok pool /\ hd_error pool = Some lo /\ last pool = Some (hi - 1) /\ Forall (fun lba => lo <= lba < hi) pool)
    (fun _ => exists e, reserved_pool_lbas geo = Err e).
Proof.
  intros Ht Hv. pose proof (validate_wf geo Ht Hv) as WF. split; [|by apply wp_pool_bounds].
  intros ordinal Hu. eapply wp_mono; [by apply wp_allocatable_at|done|]. intros e [-> He]. split; [done|]. apply lookup_ge_None_2. unfold zlen, u64 in *. lia.
Qed.

Lemma pool_placement_exact_witness :
  Geometry_validate small_geometry = Ok tt /\
  wp (allocatable_at small_geometry 10) (fun lba => allocatable_blocks small_geometry !! Z.to_nat 10 = Some lba)
    (fun e => e = UnsupportedGeometry "volume cannot hold allocation-root pool" /\ allocatable_blocks small_geometry !! Z.to_nat 10 = None).
Proof.
  split; [by vm_compute|]. refine (proj1 (pool_placement_exact small_geometry _ _) 10 _); by vm_compute.
Defined.
