(* ===== verification/AllocRootSpec.v ===== *)
(** * The allocation root is a map from regions to records

    What the code of AllocRoot.v computes: the record codec, the placement of
    the pool, the tree built for a new volume, the readers, and the pool as an
    implementation of the allocator the tree mutation is proved against. *)

From S2P Require Import Prelude Crc32c Format Header Codec TreeNode Geometry Checkpoint Device Core Tree TreeSpec TreeReaders TreeVerify.
From S2P Require Import CowTree CowStore CowNodes CowEdit CowMutate CowBatch AllocRoot.

(** ** The pool *)

Definition protected (p : ReservedTreePool) : gset Z := rp_pool p ∖ (rp_available p ∪ rp_allocated_here p).

Record pool_inv (geo : Geometry) (p : ReservedTreePool) : Prop := {
  pi_inside : rp_available p ∪ rp_allocated_here p ⊆ rp_pool p;
  pi_disjoint : rp_available p ## rp_allocated_here p;
  pi_retired : rp_retired_here p ⊆ protected p;
  pi_places : forall lba, lba ∈ rp_pool p -> u64 lba /\ check_tree_lba geo lba = Ok tt;
}.

Lemma foldr_min_elem x l : foldr Z.min x l ∈ x :: l /\ forall y, y ∈ x :: l -> foldr Z.min x l <= y.
Proof.
  induction l as [|z l [IH1 IH2]]; cbn [foldr].
  - split; [left|]. intros y ->%list_elem_of_singleton. lia.
  - split.
    + destruct (Z.min_spec z (foldr Z.min x l)) as [[_ ->]|[_ ->]]; [right; left|]. apply elem_of_cons in IH1 as [->|]; [left|right; by right].
    + intros y [->|[->|Hy]%elem_of_cons]%elem_of_cons; [|lia|].
      * specialize (IH2 x ltac:(left)). lia.
      * specialize (IH2 y ltac:(by right)). lia.
Qed.

(** [pop_first] takes the smallest element of a nonempty set. *)
Lemma pop_first_spec (s : gset Z) :
  match pop_first s with
  | None => s = ∅
  | Some (x, rest) => x ∈ s /\ rest = s ∖ {[x]} /\ forall y, y ∈ s -> x <= y
  end.
Proof.
  unfold pop_first. destruct (elements s) as [|x rest] eqn:He; [by apply elements_empty_inv, leibniz_equiv in He|].
  destruct (foldr_min_elem x rest) as [Hin Hmin]. rewrite <- He in Hin, Hmin. split; [by apply elem_of_elements in Hin|]. split; [done|].
  intros y Hy. apply Hmin. by apply elem_of_elements.
Qed.

Section PoolContract.
Context {D : Type} {device : BlockDevice Decoded D} {contract : DeviceContract Decoded D core_decodes} (geo : Geometry).

#[global] Instance reserved_pool_contract : AllocatorContract D ReservedTreePool geo.
Proof.
  refine {| tx_ok := fun _ p => pool_inv geo p; committed := fun p lba => lba ∈ protected p; owned := rp_allocated_here; quarantined := rp_retired_here |}.
  - intros d a lba [Hin Hd Hr Hp] Ho. split; [unfold protected; set_solver|]. apply Hp. set_solver.
  - done.
  - intros d a Hd [Hin Hdis Hr Hp]. unfold wpi, allocate_tree_block. cbn. unfold pool_allocate. cbn [snd fst].
    pose proof (pop_first_spec (rp_available a)) as H. destruct (pop_first (rp_available a)) as [[lba rest]|]; [|by apply agree_refl].
    destruct H as (Hl & -> & _). cbn [fst snd rp_allocated_here rp_retired_here].
    assert (protected {| rp_tree_cache_pages := rp_tree_cache_pages a; rp_pool := rp_pool a; rp_available := rp_available a ∖ {[lba]};
      rp_allocated_here := {[lba]} ∪ rp_allocated_here a; rp_retired_here := rp_retired_here a ∖ {[lba]} |} = protected a) as Hpr.
    { unfold protected. cbn. apply set_eq. intros x. destruct (decide (x = lba)); set_solver. }
    assert (rp_retired_here a ∖ {[lba]} = rp_retired_here a) as Hret by (apply set_eq; unfold protected in Hr; set_solver).
    split; [by apply agree_refl|]. split; [|split; [set_solver|split; [done|split; [|done]]]].
    + constructor; cbn; [set_solver|set_solver|rewrite Hpr; set_solver|done].
    + by rewrite Hpr.
  - intros d a lba Hd [Hin Hdis Hr Hp] Hc. unfold wpi, retire_tree_block. cbn. unfold pool_retire. cbn [snd fst].
    destruct (_ || _); [by apply agree_refl|]. cbn [fst snd rp_allocated_here rp_retired_here].
    split; [by apply agree_refl|]. split; [|done]. constructor; cbn; [done|done|set_solver|done].
  - intros d a lba Hd [Hin Hdis Hr Hp] Ho. unfold wpi, release_tree_block. cbn. unfold pool_release. cbn [snd fst].
    destruct (_ || _); [by apply agree_refl|]. cbn [fst snd rp_allocated_here rp_retired_here].
    assert (protected {| rp_tree_cache_pages := rp_tree_cache_pages a; rp_pool := rp_pool a; rp_available := {[lba]} ∪ rp_available a;
      rp_allocated_here := rp_allocated_here a ∖ {[lba]}; rp_retired_here := rp_retired_here a |} = protected a) as Hpr.
    { unfold protected. cbn. apply set_eq. intros x. destruct (decide (x = lba)); set_solver. }
    split; [by apply agree_refl|]. split; [|split; [done|split; [by rewrite Hpr|done]]].
    constructor; cbn; [set_solver|set_solver|by rewrite Hpr|done].
  - done.
Defined.
End PoolContract.

(** A new pool offers every pool block but those of the two retained trees. *)
Lemma wp_pool_new geo pool_lbas current older :
  (forall lba, lba ∈ pool_lbas -> u64 lba /\ check_tree_lba geo lba = Ok tt) ->
  wp (ReservedTreePool_new pool_lbas current older)
    (fun p => pool_inv geo p /\ rp_allocated_here p = ∅ /\ rp_retired_here p = ∅ /\
       (forall lba, lba ∈ protected p <-> lba ∈ current \/ lba ∈ older) /\ forall lba, lba ∈ rp_available p <-> lba ∈ pool_lbas /\ ~ (lba ∈ current) /\ ~ (lba ∈ older))
    (fun _ => pool_lbas = [] \/ exists lba, (lba ∈ current \/ lba ∈ older) /\ ~ (lba ∈ pool_lbas)).
Proof.
  intros Hp. unfold ReservedTreePool_new. set (pool := list_to_set pool_lbas : gset Z).
  assert (forall lba, lba ∈ pool <-> lba ∈ pool_lbas) as Hpool by (intros; apply elem_of_list_to_set).
  apply wp_if; intros Hne.
  { apply bool_decide_eq_true in Hne. apply wp_err. left. destruct pool_lbas as [|x l]; [done|]. exfalso.
    apply (not_elem_of_empty (C := gset Z) x). rewrite <- Hne, Hpool. left. }
  assert (forall l (avail : gset Z), wp (ofold (fun available lba =>
    if negb (bool_decide (lba ∈ pool)) then Err (Corrupt "allocation-root node lies outside its reserved pool")
    else Ok (available ∖ {[lba]})) avail l)
    (fun avail' => (forall lba, lba ∈ avail' <-> lba ∈ avail /\ ~ (lba ∈ l)) /\ forall lba, lba ∈ l -> lba ∈ pool)
    (fun _ => exists lba, lba ∈ l /\ ~ (lba ∈ pool))) as Hfold.
  { induction l as [|x l IH]; intros avail; cbn [ofold].
    - apply wp_ok. split; [|intros lba Hx; by apply not_elem_of_nil in Hx]. intros lba. rewrite (elem_of_nil lba). tauto.
    - apply wp_bind. destruct (bool_decide (x ∈ pool)) eqn:Hx; cbn [negb].
      + apply bool_decide_eq_true in Hx. apply wp_ok. eapply wp_mono; [apply IH| |].
        * cbn beta. intros a' [H1 H2]. split; [intros lba; rewrite H1, elem_of_difference, elem_of_singleton, elem_of_cons; tauto|]. intros lba [->|?]%elem_of_cons; auto.
        * intros e (y & Hy & Hn). exists y. split; [by right|done].
      + apply bool_decide_eq_false in Hx. apply wp_err. exists x. split; [left|done]. }
  apply wp_bind. eapply wp_mono; [apply Hfold| |]; cbn beta.
  - intros avail [H1 H2]. apply wp_ok. cbn. unfold protected. cbn.
    assert (forall lba, lba ∈ pool ∖ (avail ∪ ∅) <-> lba ∈ current \/ lba ∈ older) as Hprot.
    { intros lba. rewrite elem_of_difference, elem_of_union, H1. pose proof (H2 lba) as H3. rewrite elem_of_app in H3 |- *.
      pose proof (not_elem_of_empty (C := gset Z) lba). destruct (decide (lba ∈ current)), (decide (lba ∈ older)); tauto. }
    split; [|split; [done|split; [done|split; [done|]]]].
    + constructor; cbn; [intros lba [Hl|Hl]%elem_of_union; [by apply H1 in Hl as [? _]|by apply elem_of_empty in Hl]|set_solver|set_solver|].
      intros lba Hl. by apply Hp, Hpool.
    + intros lba. rewrite H1, Hpool, elem_of_app. tauto.
  - intros e (y & Hy & Hn). right. exists y. rewrite elem_of_app in Hy. rewrite Hpool in Hn. done.
Qed.

(** ** The record codec *)

Definition record_typed (record : RegionRecord) : Prop :=
  u8 (rr_descriptor_slot record) /\ u32 (rr_free_blocks record) /\ u64 (rr_descriptor_generation record).

Definition record_wire (record : RegionRecord) : bytes :=
  [byte.of_Z (rr_descriptor_slot record)] ++ zeros 3 ++ le_split 4 (rr_free_blocks record) ++ le_split 8 (rr_descriptor_generation record).

(** A record that can describe [region] at generation [g]. *)
Definition record_fits (geo : Geometry) (region g : Z) (record : RegionRecord) : Prop :=
  region < regions geo /\ rr_free_blocks record <= valid geo region /\ rr_descriptor_generation record <= g.

Lemma zlen_record_wire record : zlen (record_wire record) = 16.
Proof. unfold record_wire. side. Qed.

#[local] Hint Unfold record_wire : wire.

Lemma check_record_spec record (Q : unit -> Prop) (R : CoreError -> Prop) :
  (rr_descriptor_slot record < DESCRIPTOR_SLOTS -> rr_descriptor_generation record <> 0 -> Q tt) ->
  (~ (rr_descriptor_slot record < DESCRIPTOR_SLOTS /\ rr_descriptor_generation record <> 0) -> forall e, R e) ->
  wp (check_record record) Q R.
Proof.
  intros HQ HR. unfold check_record, validate_record. destruct (_ <=? _) eqn:?; [apply wp_err, HR; lia|].
  destruct (_ =? 0) eqn:?; [apply wp_err, HR; lia|]. apply wp_ok, HQ; lia.
Qed.

Lemma wp_record_value record :
  record_typed record ->
  wp (record_value record)
    (fun v => v = record_wire record /\ rr_descriptor_slot record < DESCRIPTOR_SLOTS /\ rr_descriptor_generation record <> 0)
    (fun _ => ~ (rr_descriptor_slot record < DESCRIPTOR_SLOTS /\ rr_descriptor_generation record <> 0)).
Proof.
  intros (Hs & Hf & Hg). pose proof (zlen_record_wire record). unfold record_value, VALUE_BYTES. apply wp_bind, check_record_spec; [intros H1 H2|by intros H1 _].
  rewrite (upto_0 (record_wire record)). do 3 enc_field. rewrite upto_end by lia. done.
Qed.

Lemma wp_decode_bounds geo region g record (Q : RegionRecord -> Prop) (R : CoreError -> Prop) :
  WfGeometry geo -> 0 <= region ->
  (record_fits geo region g record -> Q record) -> (~ record_fits geo region g record -> forall e, R e) ->
  wp (let* count := of_format (region_count geo) in
      let* exceeds := if count <=? region then Ok true
                      else let* valid := of_format (region_valid_blocks geo region) in Ok (valid <? rr_free_blocks record) in
      if (exceeds : bool) then Err (Corrupt "allocation-root record exceeds geometry") else
      if g <? rr_descriptor_generation record then Err (Corrupt "allocation-root record is from the future") else Ok record) Q R.
Proof.
  intros WF Hr HQ HR. rewrite region_count_eq by done. cbn [of_format obind]. unfold record_fits in *.
  destruct (regions geo <=? region) eqn:Hc; cbn [obind]; [apply wp_err, HR; lia|].
  rewrite (wf_valid_blocks_eq geo region) by lia. cbn [of_format obind]. apply wp_if; intros Hv; [apply wp_err, HR; lia|].
  apply wp_if; intros Hg; [apply wp_err, HR; lia|]. apply wp_ok, HQ. lia.
Qed.

Lemma decode_value_wire geo region g record :
  WfGeometry geo -> 0 <= region -> record_typed record -> record_fits geo region g record ->
  rr_descriptor_slot record < DESCRIPTOR_SLOTS -> rr_descriptor_generation record <> 0 ->
  decode_value (record_wire record) geo region g = Ok record.
Proof.
  intros WF Hr (Hs & Hf & Hg) Hfit H1 H2. unfold u32, u64 in *. apply wp_no_error. pose proof (zlen_record_wire record).
  unfold decode_value, VALUE_BYTES. apply wp_if_false; [lia|]. rd. rewrite bytes_eqb_refl. apply wp_if_false; [done|]. unfold u8 in Hs. rd.
  apply wp_bind, wp_of_format. rd. apply wp_bind, wp_of_format. rd. cbn zeta.
  replace {| rr_descriptor_slot := rr_descriptor_slot record; rr_free_blocks := rr_free_blocks record;
             rr_descriptor_generation := rr_descriptor_generation record |} with record by (by destruct record).
  apply wp_bind, check_record_spec; [intros _ _|intros []; done]. by apply wp_decode_bounds.
Qed.

Lemma wp_decode_value geo region g v :
  WfGeometry geo -> 0 <= region ->
  wp (decode_value v geo region g)
    (fun record => record_typed record /\ record_fits geo region g record /\
       (rr_descriptor_slot record < DESCRIPTOR_SLOTS /\ rr_descriptor_generation record <> 0) /\ v = record_wire record)
    any_error.
Proof.
  intros WF Hr. unfold decode_value, VALUE_BYTES. rx. rx. rx. rx. apply wp_bind, wp_of_format. rx. apply wp_bind, wp_of_format. rx.
  apply wp_bind, check_record_spec; [intros Hslot Hgen|done]. apply wp_decode_bounds; [done|done| |done]. intros Hfit.
  split_and!; [by unfold record_typed, u64, u32|done|done|done|]. rewrite <- (sub_all v 16) at 1 by lia.
  unfold record_wire. cbn -[zeros le_split app nth]. rewire.
Qed.

(** A record is read back as it was written, and nothing else is read. *)
Lemma decode_value_exact geo region g v record :
  WfGeometry geo -> 0 <= region ->
  decode_value v geo region g = Ok record <-> record_typed record /\ record_fits geo region g record /\ record_value record = Ok v.
Proof.
  intros WF Hr. split.
  - intros H. destruct (wp_of_ok _ _ _ _ (wp_decode_value geo region g v WF Hr) H) as (Ht & Hf & Hok & ->). split; [done|]. split; [done|].
    pose proof (wp_record_value record Ht) as He. destruct (record_value record) as [w|e|]; [by destruct He as [-> _]|done|done].
  - intros (Ht & Hf & He). destruct (wp_of_ok _ _ _ _ (wp_record_value record Ht) He) as (-> & H1 & H2). by apply decode_value_wire.
Qed.

Lemma decode_value_total geo region g v : WfGeometry geo -> 0 <= region -> decode_value v geo region g <> Panic.
Proof. intros. by eapply wp_not_panic, wp_decode_value. Qed.

(** ** The tree of records *)

Definition region_item (region : Z) (record : RegionRecord) : TreeItem := {| ti_key := key_u32 region; ti_value := record_wire record |}.
Definition region_items (records : list RegionRecord) : list TreeItem := zip_with region_item (seqZ 0 (zlen records)) records.

Definition record_sound (geo : Geometry) (region g : Z) (record : RegionRecord) : Prop :=
  record_typed record /\ record_fits geo region g record /\ rr_descriptor_slot record < DESCRIPTOR_SLOTS /\ rr_descriptor_generation record <> 0.

(** One record per region. *)
Definition records_sound (geo : Geometry) (g : Z) (records : list RegionRecord) : Prop :=
  zlen records = regions geo /\ forall i record, records !! i = Some record -> record_sound geo (Z.of_nat i) g record.

(** The tree under [root] holds one sound record per region. *)
Definition allocation_root_at (geo : Geometry) (v : Z -> bytes) (g root : Z) (records : list RegionRecord) (nodes : list (Z * TreeNode)) : Prop :=
  tree_of geo (allocation_spec g) (decoded v) root (region_items records) nodes /\ records_sound geo g records.

Lemma region_items_lookup records i : region_items records !! i = region_item (Z.of_nat i) <$> records !! i.
Proof.
  unfold region_items. rewrite lookup_zip_with. destruct (records !! i) as [record|] eqn:Hr; cbn.
  - rewrite (proj2 (lookup_seqZ 0 (zlen records) i (Z.of_nat i))); [done|]. apply lookup_lt_Some in Hr. unfold zlen. lia.
  - destruct (seqZ _ _ !! i); done.
Qed.

Lemma length_region_items records : length (region_items records) = length records.
Proof. unfold region_items. rewrite length_zip_with, length_seqZ. unfold zlen. lia. Qed.

Lemma key_u32_inj a b : u32 a -> u32 b -> key_u32 a = key_u32 b -> a = b.
Proof. intros Ha Hb H. pose proof (key_u32_cmp a b Ha Hb) as Hc. rewrite H, (key_u32_cmp b b Hb Hb) in Hc. rewrite Z.compare_refl in Hc. symmetry in Hc. by apply Z.compare_eq. Qed.

Lemma decode_key_spec k : wp (decode_key k) (fun r => u32 r /\ k = key_u32 r) any_error.
Proof.
  unfold decode_key. destruct (zlen k =? 4) eqn:Hk; [|done]. apply Z.eqb_eq in Hk.
  assert (zlen (rev k) = 4) as Hr by (unfold zlen in *; by rewrite length_rev). apply wp_ok. split.
  - pose proof (le_combine_range (rev k)) as H. by rewrite Hr in H.
  - unfold key_u32. rewrite le_split_le_combine by done. by rewrite rev_involutive.
Qed.

Lemma decode_key_u32 r : u32 r -> decode_key (key_u32 r) = Ok r.
Proof.
  unfold u32. intros Hr. unfold decode_key, key_u32. rewrite rev_involutive.
  replace (zlen (rev (le_split 4 r)) =? 4) with true; [f_equal; by rewrite le_get4 by lia|].
  symmetry. apply Z.eqb_eq. unfold zlen. by rewrite length_rev, length_le_split.
Qed.

Lemma value_of_region records region :
  u32 region -> zlen records < 2 ^ 32 ->
  value_of (key_u32 region) (region_items records) = record_wire <$> records !! Z.to_nat region.
Proof.
  unfold u32. intros Hr Hz. unfold value_of.
  destruct (records !! Z.to_nat region) as [record|] eqn:Hl; cbn.
  - assert (region_items records !! Z.to_nat region = Some (region_item region record)) as Hi
      by (rewrite region_items_lookup, Hl; cbn; do 2 f_equal; lia).
    rewrite <- (take_drop_middle _ _ _ Hi), find_app, find_none; cbn.
    + by rewrite bytes_eqb_refl.
    + intros x Hx. apply list_elem_of_lookup in Hx as [j Hj].
      assert ((j < Z.to_nat region)%nat) as Hlt by (apply lookup_lt_Some in Hj; rewrite length_take in Hj; lia).
      rewrite lookup_take_lt, region_items_lookup in Hj by done. destruct (records !! j) as [rj|] eqn:Hrj; [|done]. cbn in Hj. injection Hj as <-. cbn.
      destruct (bytes_eqb _ _) eqn:E; [|done]. apply bytes_eqb_eq, key_u32_inj in E; unfold u32; lia.
  - rewrite find_none; [done|]. intros x Hx. apply list_elem_of_lookup in Hx as [j Hj]. rewrite region_items_lookup in Hj.
    destruct (records !! j) as [rj|] eqn:Hrj; [|done]. cbn in Hj. injection Hj as <-. cbn.
    destruct (bytes_eqb _ _) eqn:E; [|done]. apply lookup_lt_Some in Hrj. unfold zlen in Hz.
    apply bytes_eqb_eq, key_u32_inj in E; [|unfold u32; lia..]. subst region. rewrite Nat2Z.id in Hl. apply lookup_ge_None in Hl. lia.
Qed.

(** ** The readers *)

Section RootReaders.
Context (geo : Geometry) {WF : WfGeometry geo}.
Context {D : Type} {device : BlockDevice Decoded D} {contract : DeviceContract Decoded D core_decodes}.

Abbreviation content := (view (decodes := core_decodes)).

(** A record read by its region. *)
Lemma wpi_lookup_record (d : D) g root region :
  dev_ok (decodes := core_decodes) d -> u64 root -> 0 <= region ->
  wpi (lookup_record geo root g region) d
    (fun r d' => reads d d' /\ forall records nodes, allocation_root_at geo (content d) g root records nodes -> r = records !! Z.to_nat region)
    (fun e d' => reads d d' /\ forall records nodes, allocation_root_at geo (content d) g root records nodes -> region < regions geo -> only_io e).
Proof.
  intros Hd Hu Hr. assert (reads d d) as Hrd by by apply agree_refl. pose proof (wf_regions (g := geo)). unfold lookup_record. rewrite region_count_eq by done.
  apply wpi_bind, wpi_lift, wp_ok. apply wpi_if; intros Hc; [apply wpi_err; split; [done|]; intros; lia|].
  assert (u32 region) as Hur by (unfold u32; lia).
  assert (1 <= zlen (key_u32 region) <= MAX_TREE_KEY_BYTES) as Hk by (unfold key_u32, zlen, MAX_TREE_KEY_BYTES; rewrite length_rev, length_le_split; lia).
  apply wpi_bind. eapply wpi_mono; [by apply (wpi_tree_lookup geo (allocation_spec g))| |]; cbn beta.
  2: { intros e d1 [? He]. split; [done|]. intros records nodes [Ht _] _. by eapply He. }
  intros [encoded stats] d1 [Hr1 Hv]. cbn [fst] in Hv.
  assert (forall records nodes, allocation_root_at geo (content d) g root records nodes -> encoded = record_wire <$> records !! Z.to_nat region /\
    records_sound geo g records) as Henc.
  { intros records nodes [Ht Hs]. split; [|done]. destruct (Hv _ _ Ht) as [-> _]. apply value_of_region; [done|]. destruct Hs as [-> _]. lia. }
  assert (forall records nodes, allocation_root_at geo (content d) g root records nodes ->
    exists record, records !! Z.to_nat region = Some record /\ encoded = Some (record_wire record) /\ decode_value (record_wire record) geo region g = Ok record) as Hdec.
  { intros records nodes Hroot. destruct (Henc _ _ Hroot) as [He [Hz Hs]].
    destruct (lookup_lt_is_Some_2 records (Z.to_nat region)) as [record Hl]; [unfold zlen in Hz; lia|]. exists record. rewrite Hl in He.
    destruct (Hs _ _ Hl) as (Ht & Hf & Hslot & Hgen). rewrite Z2Nat.id in Hf by lia. split; [done|]. split; [done|]. by apply decode_value_wire. }
  clear Henc. destruct encoded as [encoded|].
  - apply wpi_bind, wpi_lift. pose proof (decode_value_total geo region g encoded WF Hr) as Hnp.
    destruct (decode_value encoded geo region g) as [record|e|] eqn:Ed; [apply wp_ok, wpi_ret|apply wp_err|done]; (split; [done|]); intros records nodes Hroot;
      destruct (Hdec _ _ Hroot) as (r & Hl & [= ->] & E); congruence.
  - apply wpi_ret. split; [done|]. intros records nodes Hroot. by destruct (Hdec _ _ Hroot) as (r & Hl & ? & E).
Qed.

(** The items in the leaves of a walk. *)
Definition leaf_items (nodes : list (Z * TreeNode)) : list TreeItem := flat_map (fun p => if is_leaf (snd p) then tn_items (snd p) else []) nodes.

Lemma leaf_items_app a b : leaf_items (a ++ b) = leaf_items a ++ leaf_items b.
Proof. apply flat_map_app. Qed.

Lemma tree_leaf_items spec nd :
  (forall n lower upper is_root lba items nodes, tree_at geo spec nd n lower upper is_root lba items nodes -> leaf_items nodes = items) /\
  (forall n node lower upper slots items nodes, children_at geo spec nd n node lower upper slots items nodes -> leaf_items nodes = items).
Proof.
  apply tree_at_mutual.
  - intros lower upper is_root lba node _ Hl. unfold leaf_items, is_leaf. cbn. rewrite Hl. cbn. apply app_nil_r.
  - intros n lower upper is_root lba node items nodes _ Hl _ IH. unfold leaf_items, is_leaf in *. cbn [flat_map snd].
    by replace (tn_level node =? 0) with false by lia.
  - done.
  - intros n node lower upper sep next slots child items nodes items' nodes' _ _ _ IH _ _ IH'. by rewrite leaf_items_app, IH, IH'.
Qed.

Definition recorded (g : Z) (item : TreeItem) (p : Z * RegionRecord) : Prop :=
  decode_key (ti_key item) = Ok (fst p) /\ decode_value (ti_value item) geo (fst p) g = Ok (snd p).

Lemma recorded_item g item p :
  recorded g item p <-> u32 (fst p) /\ item = region_item (fst p) (snd p) /\ record_sound geo (fst p) g (snd p).
Proof.
  destruct item as [k v], p as [r record]. unfold recorded, region_item, record_sound. cbn. split.
  - intros [Hk Hv]. destruct (wp_of_ok _ _ _ _ (decode_key_spec k) Hk) as [Hu ->]. unfold u32 in Hu.
    destruct (wp_of_ok _ _ _ _ (wp_decode_value geo r g v WF ltac:(lia)) Hv) as (? & ? & ? & ->). done.
  - intros (Hu & [= -> ->] & Ht & Hf & Hs & Hg). split; [by apply decode_key_u32|]. unfold u32 in Hu. apply decode_value_wire; (done || lia).
Qed.

Lemma recorded_fun g item p p' : recorded g item p -> recorded g item p' -> p = p'.
Proof. destruct p, p'. intros [H1 H2] [H3 H4]. cbn in *. congruence. Qed.

Lemma wpi_collect_items g items : forall c,
  wpi (collect_items geo g items) c
    (fun _ c' => exists records, c' = {| co_blocks := co_blocks c; co_records := co_records c ++ records |} /\ Forall2 (recorded g) items records)
    (fun _ _ => forall records, ~ Forall2 (recorded g) items records).
Proof.
  induction items as [|item items IH]; intros c; cbn [collect_items].
  { exists []. cbn. rewrite app_nil_r. split; [by destruct c|done]. }
  unfold wpi. unfold collect_item. pose proof (wp_not_panic _ _ _ (decode_key_spec (ti_key item))) as Hk.
  destruct (decode_key (ti_key item)) as [r|e|] eqn:Ek; cbn [obind]; [| |done].
  2: { intros records (p & ? & [Hp _] & _)%Forall2_cons_inv_l. congruence. }
  destruct (wp_of_ok _ _ _ _ (decode_key_spec (ti_key item)) Ek) as [Hu _]. unfold u32 in Hu.
  pose proof (decode_value_total geo r g (ti_value item) WF ltac:(lia)) as Hv.
  destruct (decode_value (ti_value item) geo r g) as [record|e|] eqn:Ev; cbn [obind]; [| |done].
  2: { intros records (p & ? & [Hp Hq] & _)%Forall2_cons_inv_l. rewrite Ek in Hp. injection Hp as Hp. rewrite <- Hp in Hq. congruence. }
  specialize (IH {| co_blocks := co_blocks c; co_records := co_records c ++ [(r, record)] |}). unfold wpi in IH.
  destruct (collect_items geo g items _) as [c' [[]|e|]]; [| |done].
  - destruct IH as (records & -> & HF). exists ((r, record) :: records). cbn. rewrite <- app_assoc. split; [done|]. by constructor.
  - intros records (p & rs & _ & Hrs & ->)%Forall2_cons_inv_l. by apply (IH rs).
Qed.

Lemma wpi_collect_nodes g nodes : forall c,
  wpi (ieach (visit_node (collect_node geo g)) nodes) c
    (fun _ c' => exists records, c' = {| co_blocks := co_blocks c ++ map fst nodes; co_records := co_records c ++ records |} /\
       Forall2 (recorded g) (leaf_items nodes) records)
    (fun _ _ => forall records, ~ Forall2 (recorded g) (leaf_items nodes) records).
Proof.
  induction nodes as [|[lba node] nodes IH]; intros c; cbn [ieach].
  { apply wpi_ret. exists []. cbn. rewrite !app_nil_r. split; [by destruct c|done]. }
  apply wpi_bind. unfold visit_node, collect_node. cbn [fst snd]. apply wpi_bind, wpi_modify.
  change (leaf_items ((lba, node) :: nodes)) with ((if is_leaf node then tn_items node else []) ++ leaf_items nodes).
  eapply (wpi_mono _ _ (fun _ c' => exists records, c' = {| co_blocks := co_blocks c ++ [lba]; co_records := co_records c ++ records |} /\
    Forall2 (recorded g) (if is_leaf node then tn_items node else []) records) _
    (fun _ _ => forall records, ~ Forall2 (recorded g) (if is_leaf node then tn_items node else []) records)).
  - destruct (is_leaf node); [apply (wpi_collect_items g (tn_items node) {| co_blocks := co_blocks c ++ [lba]; co_records := co_records c |})|]. apply wpi_ret. exists []. by rewrite app_nil_r.
  - intros _ c' (r1 & -> & H1). eapply wpi_mono; [apply IH| |]; cbn [co_blocks co_records]; cbn beta.
    + intros _ c' (r2 & -> & H2). exists (r1 ++ r2). cbn. rewrite <- !app_assoc. split; [done|]. by apply Forall2_app.
    + intros e _ Hn records (l1 & l2 & _ & Hl2 & ->)%Forall2_app_inv_l. by apply (Hn l2).
  - intros e _ Hn records (l1 & l2 & Hl1 & _ & ->)%Forall2_app_inv_l. by apply (Hn l1).
Qed.

(** Records in region order are the items of a tree of records. *)
Lemma ordered_records g items keyed :
  Forall2 (recorded g) items keyed -> zlen keyed = regions geo -> in_region_order keyed = true ->
  items = region_items (map snd keyed) /\ records_sound geo g (map snd keyed).
Proof.
  intros HF Hz Ho. assert (forall i p, keyed !! i = Some p -> fst p = Z.of_nat i) as Hkey.
  { intros i p Hi. unfold in_region_order in Ho. rewrite forallb_forall in Ho.
    assert ((Z.of_nat i, p) ∈ zip (seqZ 0 (zlen keyed)) keyed) as Hin.
    { apply list_elem_of_lookup. exists i. rewrite lookup_zip_with, Hi. cbn.
      rewrite (proj2 (lookup_seqZ 0 (zlen keyed) i (Z.of_nat i))); [done|]. apply lookup_lt_Some in Hi. unfold zlen. lia. }
    apply list_elem_of_In, Ho in Hin. cbn in Hin. lia. }
  assert (forall i item p, items !! i = Some item -> keyed !! i = Some p -> item = region_item (Z.of_nat i) (snd p) /\ record_sound geo (Z.of_nat i) g (snd p)) as Hrec.
  { intros i item p Hi Hp. destruct (Forall2_lookup_lr _ _ _ _ _ _ HF Hi Hp) as [H1 H2].
    destruct (proj1 (recorded_item g item p) (conj H1 H2)) as (_ & -> & Hs). by rewrite <- (Hkey i p Hp). }
  pose proof (Forall2_length _ _ _ HF) as Hlen. split.
  - apply list_eq. intros i. rewrite region_items_lookup, list_lookup_fmap. destruct (keyed !! i) as [p|] eqn:Hp; cbn.
    + destruct (lookup_lt_is_Some_2 items i) as [item Hi]; [apply lookup_lt_Some in Hp; lia|]. rewrite Hi. f_equal. by apply (Hrec i item p).
    + apply lookup_ge_None in Hp. apply lookup_ge_None. lia.
  - split; [by rewrite zlen_map|]. intros i record Hi. rewrite list_lookup_fmap in Hi. destruct (keyed !! i) as [p|] eqn:Hp; [|done]. injection Hi as <-.
    destruct (lookup_lt_is_Some_2 items i) as [item Hit]; [apply lookup_lt_Some in Hp; lia|]. by apply (Hrec i item p).
Qed.

Lemma sound_recorded g records :
  records_sound geo g records -> Forall2 (recorded g) (region_items records) (zip (seqZ 0 (zlen records)) records).
Proof.
  intros [Hz Hs]. pose proof (wf_regions (g := geo)). apply Forall2_same_length_lookup_2.
  { rewrite length_region_items, length_zip_with, length_seqZ. unfold zlen. lia. }
  intros i item p Hi Hp. rewrite region_items_lookup in Hi. destruct (records !! i) as [record|] eqn:Hr; [|done]. cbn in Hi. injection Hi as <-.
  pose proof (lookup_lt_Some _ _ _ Hr) as Hlt. unfold zlen in *.
  rewrite lookup_zip_with, Hr, (proj2 (lookup_seqZ 0 _ i (Z.of_nat i))) in Hp by lia. cbn in Hp. injection Hp as <-.
  apply recorded_item. cbn. split; [unfold u32; lia|]. split; [done|]. by apply Hs.
Qed.

Lemma zip_region_order (records : list RegionRecord) :
  in_region_order (zip (seqZ 0 (zlen records)) records) = true /\ zlen (zip (seqZ 0 (zlen records)) records) = zlen records /\
  map snd (zip (seqZ 0 (zlen records)) records) = records.
Proof.
  assert (length (seqZ 0 (zlen records)) = length records) as Hl by (rewrite length_seqZ; unfold zlen; lia).
  assert (zlen (zip (seqZ 0 (zlen records)) records) = zlen records) as Hz by (unfold zlen at 1; rewrite length_zip_with, Hl; unfold zlen; lia).
  split; [|split; [done|by apply snd_zip; lia]]. unfold in_region_order. rewrite Hz. apply forallb_forall. intros [k [r record]] Hin%list_elem_of_In. cbn.
  apply list_elem_of_lookup in Hin as [i Hi]. rewrite lookup_zip_with in Hi. destruct (seqZ 0 _ !! i) as [z|] eqn:Hs; [|done]. cbn in Hi.
  rewrite lookup_zip_with, Hs in Hi. cbn in Hi. destruct (records !! i); [|done]. cbn in Hi. injection Hi as <- <- <-. lia.
Qed.

(** The walk of the whole allocation root is exact. *)
Lemma wpi_load_allocation_root (d : D) g root :
  dev_ok (decodes := core_decodes) d -> u64 root ->
  wpi (load_allocation_root geo root g) d
    (fun r d' => reads d d' /\ exists nodes, allocation_root_at geo (content d) g root (la_records r) nodes /\ la_tree_blocks r = map fst nodes /\
       la_summary r = tree_summary (region_items (la_records r)) nodes)
    (fun e d' => reads d d' /\ forall records nodes, allocation_root_at geo (content d) g root records nodes -> only_io e).
Proof.
  intros Hd Hu. unfold wpi, load_allocation_root.
  assert (forall lba node c, snd (collect_node geo g lba node c) <> Panic) as Hnp.
  { intros lba node c H. pose proof (wpi_collect_nodes g [(lba, node)] c) as Hw. unfold wpi in Hw. cbn [ieach] in Hw. unfold visit_node, ibind in Hw. cbn [fst snd] in Hw.
    destruct (collect_node geo g lba node c) as [c' [[]|e|]]; cbn in *; done. }
  pose proof (wpi_visit_tree_nodes geo (allocation_spec g) (collect_node geo g) true root d {| co_blocks := []; co_records := [] |} WF Hnp Hd Hu) as H.
  unfold wpi in H. destruct (visit_tree_nodes _ _ _ _ _ _) as [[d' c] [summary|e|]]; cbn [fst snd obind] in *; [| |done].
  - destruct H as (Hr & items & nodes & Ht & -> & Hrun). pose proof (wpi_collect_nodes g nodes {| co_blocks := []; co_records := [] |}) as Hw.
    unfold wpi in Hw. rewrite Hrun in Hw. destruct Hw as (keyed & -> & HF). cbn [co_records co_blocks app].
    pose proof Ht as [_ [n Htn]]. rewrite (proj1 (tree_leaf_items _ _) _ _ _ _ _ _ _ Htn) in HF.
    rewrite region_count_eq by done. cbn [of_format obind]. destruct (negb (zlen keyed =? regions geo) || negb (in_region_order keyed)) eqn:Hc.
    + split; [done|]. intros records nodes' [[_ [n' Ht']] Hs]. exfalso. destruct (proj1 (tree_at_unique _ _ _) _ _ _ _ _ _ _ Htn _ _ _ Ht') as (_ & Hi & _). rewrite <- Hi in HF.
      pose proof (Forall2_fun _ (recorded_fun g) _ _ _ HF (sound_recorded g records Hs)) as ->. destruct (zip_region_order records) as (Ho & Hz & _).
      destruct Hs as [Hz' _]. rewrite Ho, Hz, Hz', Z.eqb_refl in Hc. done.
    + split; [done|]. apply orb_false_iff in Hc as [Hz Ho]. apply negb_false_iff in Hz, Ho. apply Z.eqb_eq in Hz.
      destruct (ordered_records g items keyed HF Hz Ho) as [-> Hs]. exists nodes. cbn. split; [by split|]. done.
  - destruct H as [Hr Hq]. split; [done|]. intros records nodes [Ht Hs]. destruct (Hq _ _ Ht) as [Hx|[? _]]; [|done]. exfalso.
    pose proof Ht as [_ [n Htn]]. pose proof (wpi_collect_nodes g nodes {| co_blocks := []; co_records := [] |}) as Hw. unfold wpi in Hw.
    rewrite Hx in Hw. rewrite (proj1 (tree_leaf_items _ _) _ _ _ _ _ _ _ Htn) in Hw. by eapply Hw, sound_recorded.
Qed.
End RootReaders.
