(* ===== verification/AllocBulk.v ===== *)
(** * The tree of a new volume (allocation_root.rs: bulk_build)

    The bulk construction always succeeds when the pool fits the volume, uses
    exactly the pool's first third, and its nodes are an allocation root of
    the given records. *)

From S2P Require Import Prelude Crc32c Format Header Codec TreeNode Geometry Checkpoint Device Core Tree TreeSpec TreeReaders TreeVerify Cache.
From S2P Require Import CowTree CowStore CowNodes AllocRoot AllocPlace AllocRootSpec.

(** ** Groups *)

Definition sum_groups (groups : list Z) : Z := foldr Z.add 0 groups.

Lemma sum_groups_app a b : sum_groups (a ++ b) = sum_groups a + sum_groups b.
Proof. unfold sum_groups in *. induction a as [|x a IH]; cbn [app foldr]; lia. Qed.

Lemma sum_groups_steps base rem a n :
  0 <= n -> sum_groups (map (fun index => base + (if index <? rem then 1 else 0)) (seqZ a n)) = n * base + Z.max 0 (Z.min n (rem - a)).
Proof.
  intros Hn. revert a. pattern n. apply natlike_ind; [intros a; change (sum_groups _) with 0; lia| |done]. clear n Hn. intros n Hn IH a.
  rewrite seqZ_cons by lia. replace (Z.pred (Z.succ n)) with n by lia. cbn [map sum_groups foldr]. fold (sum_groups (map (fun index => base + (if index <? rem then 1 else 0)) (seqZ (Z.succ a) n))).
  rewrite IH. destruct (a <? rem) eqn:?; lia.
Qed.

Lemma wp_balanced_groups total maximum :
  0 < total -> 3 <= maximum ->
  wp (balanced_groups total maximum)
    (fun groups => zlen groups = div_ceil total maximum /\ sum_groups groups = total /\ Forall (fun g => 1 <= g <= maximum) groups /\
       (1 < total -> Forall (fun g => 2 <= g) groups)) no_error.
Proof.
  intros Ht Hm. unfold balanced_groups. apply wp_if_false; [lia|]. cbn zeta.
  pose proof (div_ceil_bounds total maximum ltac:(lia) ltac:(lia)) as Hb. pose proof (div_ceil_pos total maximum ltac:(lia) ltac:(lia)) as Hp.
  set (groups := div_ceil total maximum) in *. pose proof (Z.div_mod total groups ltac:(lia)) as Hdm. pose proof (Z.mod_pos_bound total groups ltac:(lia)) as Hmod.
  assert (total / groups * groups <= total) as Hbase by lia.
  assert (total / groups + (if 0 <? total mod groups then 1 else 0) <= maximum) as Hup .
  { set (q := total / groups) in *. assert (q < maximum + 1) by (apply Z.nle_gt; intros ?; assert ((maximum + 1) * groups <= q * groups) by (apply Z.mul_le_mono_nonneg_r; lia); lia).
    destruct (0 <? total mod groups) eqn:?; [|lia]. assert (q <> maximum) by (intros ->; lia). lia. }
  assert (1 < total -> 2 <= total / groups) as Htwo.
  { intros H1. destruct (decide (groups = 1)) as [->|Hne]; [rewrite Z.div_1_r; lia|].
    assert (3 * (groups - 1) <= maximum * (groups - 1)) by (apply Z.mul_le_mono_nonneg_r; lia). apply Z.div_le_lower_bound; lia. }
  assert (1 <= total / groups) as Hone by (apply Z.div_le_lower_bound; [lia|nia]).
  apply wp_if_false; [destruct (1 <? groups) eqn:?; [|done]; cbn; apply Z.ltb_ge; apply Htwo; nia|].
  apply wp_ok. split; [rewrite zlen_map; unfold zlen; rewrite length_seqZ; lia|]. split; [rewrite sum_groups_steps by lia; lia|].
  split; [|intros H1; specialize (Htwo H1)]; apply Forall_map, Forall_forall; intros i Hi%elem_of_seqZ; destruct (i <? total mod groups) eqn:?;
    destruct (0 <? total mod groups) eqn:?; lia.
Qed.

(** ** One level *)

Section Bulk.
Context (geo : Geometry) {WF : WfGeometry geo} (g : Z).
Hypothesis generation_ok : u64 g /\ 0 < g.

Abbreviation spec := (allocation_spec g).

Definition child_desc (c : BulkChild) : ChildDesc :=
  {| ch_min_key := Some (bc_min_key c); ch_reference := {| cr_lba := bc_lba c; cr_subtree_items := bc_items c |} |}.

Definition stored (nd : Z -> result (TreeNode * Z)) (nodes : list (Z * TreeNode)) : Prop := forall p, p ∈ nodes -> nd (fst p) = Ok (snd p, g).

Definition encodable (node : TreeNode) : Prop := valid_node node g /\ exists block, TreeNode_encode node (block_size geo) g = Ok block.

Lemma small_encodable node :
  valid_node node g -> Forall (fun item => zlen (ti_key item) = 4 /\ zlen (ti_value item) = 16) (tn_items node) -> zlen (tn_items node) <= 144 -> encodable node.
Proof.
  intros [Ht Hv] HF Hn. split; [done|]. rewrite (wf_block_size (g := geo)). pose proof (TreeNode_encode_spec node 4096 g Ht ltac:(lia)) as H.
  assert (TreeNode_adm node 4096 g) as Hadm.
  { split; [lia|]. split; [done|]. split; [eapply Forall_impl; [exact HF|]; unfold small_item; cbn; lia|]. rewrite zlen_TreeNode_wire.
    enough (zlen (wires item_wire (tn_items node)) = 28 * zlen (tn_items node)) by lia. clear -HF.
    induction HF as [|item items [Hk Hv] _ IH]; [done|]. rewrite zlen_wires_cons, zlen_item_wire, zlen_cons, IH. lia. }
  destruct (TreeNode_encode node 4096 g) as [b|e|]; [by exists b|done|done].
Qed.

Lemma record_item_eq region record : record_sound geo region g record -> record_item region record = Ok (region_item region record).
Proof.
  intros (Ht & _ & Hs & Hn). unfold record_item. pose proof (wp_record_value record Ht) as H.
  destruct (record_value record) as [v|e|]; [by destruct H as [-> _]|by destruct H|done].
Qed.

Definition items_from (off : Z) (records : list RegionRecord) : list TreeItem := zip_with region_item (seqZ off (zlen records)) records.

Lemma items_from_cons off record records : items_from off (record :: records) = region_item off record :: items_from (off + 1) records.
Proof. unfold items_from. rewrite zlen_cons, seqZ_cons by (pose proof (zlen_nonneg records); lia). cbn. do 3 f_equal; lia. Qed.

Lemma items_from_app off a b : items_from off (a ++ b) = items_from off a ++ items_from (off + zlen a) b.
Proof.
  revert off. induction a as [|x a IH]; intros off; cbn [app]; [change (zlen (@nil RegionRecord)) with 0; by rewrite Z.add_0_r|].
  rewrite !items_from_cons, IH, zlen_cons. cbn. do 3 f_equal. lia.
Qed.

Lemma zlen_items_from off records : zlen (items_from off records) = zlen records.
Proof. unfold items_from, zlen at 1. rewrite length_zip_with, length_seqZ. unfold zlen. lia. Qed.

(** The records of consecutive regions. *)
Definition run_sound (off : Z) (records : list RegionRecord) : Prop :=
  0 <= off /\ off + zlen records <= regions geo /\ forall i record, records !! i = Some record -> record_sound geo (off + Z.of_nat i) g record.

Lemma run_sound_cons off record records : run_sound off (record :: records) -> record_sound geo off g record /\ run_sound (off + 1) records.
Proof.
  intros (H0 & Hz & Hs). rewrite zlen_cons in Hz. split; [specialize (Hs 0%nat record eq_refl); by rewrite Z.add_0_r in Hs|].
  split; [lia|]. split; [lia|]. intros i r Hi. specialize (Hs (S i) r Hi). by replace (off + 1 + Z.of_nat i) with (off + Z.of_nat (S i)) by lia.
Qed.

Lemma run_sound_app off a b : run_sound off (a ++ b) -> run_sound off a /\ run_sound (off + zlen a) b.
Proof.
  intros (H0 & Hz & Hs). rewrite zlen_app in Hz. pose proof (zlen_nonneg a). pose proof (zlen_nonneg b). split; (split; [lia|split; [lia|]]); intros i r Hi.
  - apply Hs. by apply lookup_app_l_Some.
  - replace (off + zlen a + Z.of_nat i) with (off + Z.of_nat (length a + i)) by (unfold zlen; lia). apply Hs. rewrite lookup_app_r by lia.
    by replace (length a + i - length a)%nat with i by lia.
Qed.

Lemma group_items records : forall off acc,
  run_sound off records ->
  ofoldi (fun items region record => let* item := record_item (as_u32 region) record in Ok (items ++ [item])) acc off records = Ok (acc ++ items_from off records).
Proof.
  pose proof (wf_regions (g := geo)). induction records as [|record records IH]; intros off acc Hs; [cbn; by rewrite app_nil_r|].
  pose proof Hs as (H0 & Hz & _). rewrite zlen_cons in Hz. pose proof (zlen_nonneg records). destruct (run_sound_cons _ _ _ Hs) as [Hr Hs'].
  cbn [ofoldi]. rewrite as_u32_small by (unfold u32; lia). rewrite record_item_eq by done. cbn [obind]. rewrite IH by done.
  by rewrite items_from_cons, <- app_assoc.
Qed.

Lemma items_from_facts off records :
  run_sound off records ->
  sorted (items_from off records) /\ Forall item_ok (items_from off records) /\
  Forall (fun item => zlen (ti_key item) = 4 /\ zlen (ti_value item) = 16) (items_from off records) /\
  Forall (fun item => exists r, ti_key item = key_u32 r /\ off <= r < off + zlen records) (items_from off records).
Proof.
  pose proof (wf_regions (g := geo)). revert off. induction records as [|record records IH]; intros off Hs; [repeat constructor|].
  pose proof Hs as (H0 & Hz & _). rewrite zlen_cons in Hz |- *. pose proof (zlen_nonneg records). destruct (run_sound_cons _ _ _ Hs) as [Hr Hs'].
  destruct (IH _ Hs') as (I1 & I2 & I3 & I4). rewrite items_from_cons.
  assert (zlen (key_u32 off) = 4) as Hk by (unfold key_u32, zlen; by rewrite length_rev, length_le_split).
  pose proof (zlen_record_wire record) as Hw. split_and!.
  - constructor; [done|]. eapply Forall_impl; [exact I4|]. cbn beta. intros item (r & Hik & Hlt). unfold key_lt, bytes_ltb. rewrite Hik.
    cbn [region_item ti_key]. rewrite key_u32_cmp by (unfold u32; lia). by rewrite (proj2 (Z.compare_lt_iff off r)) by lia.
  - constructor; [|done]. unfold item_ok, region_item, MAX_TREE_KEY_BYTES. cbn [ti_key ti_value]. lia.
  - constructor; done.
  - constructor; [exists off; split; [done|lia]|]. eapply Forall_impl; [exact I4|]. cbn. intros item (r & ? & ?). exists r. split; [done|lia].
Qed.

Definition record_leaf (items : list TreeItem) : TreeNode :=
  {| tn_kind := AllocationRoot; tn_owner := 0; tn_level := 0; tn_subtree_items := zlen items; tn_leftmost_child := 0; tn_leftmost_items := 0; tn_items := items |}.

Definition lower_at (off : Z) (lower : option bytes) : Prop := lower = None \/ lower = Some (key_u32 off).
Definition upper_after (off : Z) (upper : option bytes) : Prop := match upper with None => True | Some u => exists k, u = key_u32 k /\ off <= k < 2 ^ 32 end.

Lemma key_u32_order a b : u32 a -> u32 b -> bytes_leb (key_u32 a) (key_u32 b) = (a <=? b) /\ bytes_ltb (key_u32 a) (key_u32 b) = (a <? b).
Proof.
  intros Ha Hb. unfold bytes_leb, bytes_ltb. rewrite !key_u32_cmp by done. unfold Z.leb, Z.ltb. by rewrite ?(Z.compare_antisym a b); destruct (a ?= b).
Qed.

Lemma record_leaf_valid off group : run_sound off group -> group <> [] -> zlen group <= 144 ->
  valid_node (record_leaf (items_from off group)) g /\ encodable (record_leaf (items_from off group)).
Proof.
  intros Hs Hne Hn. destruct (items_from_facts off group Hs) as (H1 & H2 & H3 & _). pose proof (zlen_items_from off group) as Hz.
  assert (valid_node (record_leaf (items_from off group)) g) as Hv by (apply valid_leaf; [done|apply generation_ok|lia|done|done]).
  split; [done|]. apply small_encodable; [done|done|cbn; lia].
Qed.

Lemma leaf_desc nd lba off group lower upper :
  run_sound off group -> group <> [] -> u64 lba -> check_tree_lba geo lba = Ok tt -> nd lba = Ok (record_leaf (items_from off group), g) ->
  lower_at off lower -> upper_after (off + zlen group) upper ->
  desc_tree geo spec nd 0 lower upper (child_desc {| bc_lba := lba; bc_min_key := key_u32 off; bc_items := zlen group |}) (items_from off group)
    [(lba, record_leaf (items_from off group))].
Proof.
  intros Hs Hne Hu Hc Hd Hlo Hup. destruct (items_from_facts off group Hs) as (_ & _ & _ & Hkeys). pose proof Hs as (H0 & Hz & _).
  pose proof (wf_regions (g := geo)). split; [|cbn; split; [apply zlen_items_from|done]]. change (items_from off group) with (tn_items (record_leaf (items_from off group))) at 1.
  apply leaf_at; [|done]. exists g. split; [done|]. split.
  - unfold validate_node_identity. rewrite bool_decide_eq_true_2 by done. cbn [negb orb record_leaf tn_owner ts_owner allocation_spec ts_max_generation].
    rewrite Z.eqb_refl. cbn [negb]. by replace ((g =? 0) || (g <? g)) with false by lia.
  - apply range_intro; cbn [tn_items record_leaf].
    + intros _ Hnil. apply (f_equal zlen) in Hnil. rewrite zlen_items_from in Hnil. by apply zlen_zero_nil in Hnil.
    + unfold within. eapply Forall_impl; [exact Hkeys|]. cbn beta. intros item (r & -> & Hr). split.
      * destruct Hlo as [->| ->]; [done|]. cbn. rewrite (proj1 (key_u32_order off r ltac:(unfold u32; lia) ltac:(unfold u32; lia))). lia.
      * destruct upper as [u|]; [|done]. destruct Hup as (k & -> & Hk). cbn. rewrite (proj2 (key_u32_order r k ltac:(unfold u32; lia) ltac:(unfold u32; lia))). lia.
    + intros _ l first Hl Hf. destruct Hlo as [->| ->]; [done|]. injection Hl as <-. destruct group as [|x group]; [done|]. rewrite items_from_cons in Hf.
      cbn in Hf. injection Hf as <-. done.
Qed.

(** The pool blocks a step used, the children and the nodes it added. *)
Definition grown (b b' : Bulk) (used : list Z) (level : list BulkChild) (nodes : list (Z * TreeNode)) : Prop :=
  bk_lbas b = used ++ bk_lbas b' /\ bk_level b' = bk_level b ++ level /\ bk_nodes b' = bk_nodes b ++ nodes /\
  map fst nodes = used /\ map bc_lba level = used /\ Forall (fun p => encodable (snd p)) nodes.

Lemma grown_trans a b c u1 u2 l1 l2 n1 n2 : grown a b u1 l1 n1 -> grown b c u2 l2 n2 -> grown a c (u1 ++ u2) (l1 ++ l2) (n1 ++ n2).
Proof.
  intros (H1 & H2 & H3 & H4 & H5 & H6) (K1 & K2 & K3 & K4 & K5 & K6). unfold grown. rewrite H1, K1, K2, H2, K3, H3, !map_app, H4, K4, H5, K5, <- !app_assoc.
  do 5 (split; [done|]). by apply Forall_app.
Qed.

Definition places (lbas : list Z) : Prop := Forall (fun lba => u64 lba /\ check_tree_lba geo lba = Ok tt) lbas.

Definition leaf_child (lba off : Z) (group : list RegionRecord) : BulkChild := {| bc_lba := lba; bc_min_key := key_u32 off; bc_items := zlen group |}.

(** Children that cover consecutive regions from [off]. *)
Fixpoint spaced (off : Z) (level : list BulkChild) : Prop :=
  match level with
  | [] => True
  | c :: level => bc_min_key c = key_u32 off /\ ref_ok (ch_reference (child_desc c)) /\ spaced (off + bc_items c) level
  end.

Definition covered (level : list BulkChild) : Z := total_of (map child_desc level).

Lemma covered_cons c level : covered (c :: level) = bc_items c + covered level.
Proof. done. Qed.

Lemma covered_app a b : covered (a ++ b) = covered a + covered b.
Proof. induction a as [|c a IH]; [done|]. cbn [app]. rewrite !covered_cons. lia. Qed.

Lemma spaced_app off a b : spaced off (a ++ b) <-> spaced off a /\ spaced (off + covered a) b.
Proof.
  revert off. induction a as [|c a IH]; intros off; [cbn; rewrite Z.add_0_r; tauto|]. cbn [app spaced]. rewrite IH, covered_cons.
  rewrite Z.add_assoc. tauto.
Qed.

Lemma spaced_covered off level : spaced off level -> zlen level <= covered level.
Proof.
  revert off. induction level as [|c level IH]; intros off; [done|]. intros (_ & (_ & _ & ?) & Hs). apply IH in Hs. rewrite covered_cons, zlen_cons. cbn in *. lia.
Qed.

Lemma bulk_leaf_step records b lba lbas group rest :
  bk_lbas b = lba :: lbas -> 0 <= bk_offset b -> drop (Z.to_nat (bk_offset b)) records = group ++ rest -> run_sound (bk_offset b) group -> group <> [] ->
  zlen group <= 144 ->
  exists b', bulk_leaf records b (zlen group) = Ok b' /\ bk_lbas b' = lbas /\ bk_offset b' = bk_offset b + zlen group /\
    grown b b' [lba] [leaf_child lba (bk_offset b) group] [(lba, record_leaf (items_from (bk_offset b) group))].
Proof.
  intros Hl H0 Hd Hs Hne Hn. unfold bulk_leaf. rewrite Hl. cbn [pool_next obind].
  assert (sub records (bk_offset b) (bk_offset b + zlen group) = group) as ->.
  { unfold sub. rewrite Hd. replace (Z.to_nat _) with (length group) by (unfold zlen; lia). by rewrite take_app_length. }
  rewrite group_items by done. cbn [obind app]. pose proof (zlen_items_from (bk_offset b) group) as Hz.
  pose proof (record_leaf_valid _ _ Hs Hne Hn) as [_ He]. destruct group as [|record group]; [done|].
  pose proof (items_from_cons (bk_offset b) record group) as Hc. destruct (items_from (bk_offset b) (record :: group)) as [|item items]; [done|]. injection Hc as -> _.
  eexists. split; [reflexivity|]. split; [done|]. split; [done|]. unfold grown, leaf_child. cbn [bk_lbas bk_level bk_nodes]. rewrite Hl, Hz.
  do 2 (split; [done|]). split; [unfold record_leaf; by rewrite Hz|]. do 2 (split; [done|]). by constructor.
Qed.

Lemma wp_bulk_leaves records gs : forall b rest,
  gs <> [] -> Forall (fun n => 1 <= n <= 144) gs -> 0 <= bk_offset b -> drop (Z.to_nat (bk_offset b)) records = rest -> sum_groups gs = zlen rest ->
  run_sound (bk_offset b) rest -> zlen gs <= zlen (bk_lbas b) -> places (bk_lbas b) ->
  exists b' used level nodes, ofold (bulk_leaf records) b gs = Ok b' /\ grown b b' used level nodes /\ zlen level = zlen gs /\
    spaced (bk_offset b) level /\ covered level = zlen rest /\
    forall nd, stored nd nodes -> forall lower, lower_at (bk_offset b) lower ->
      descs_at geo spec nd 0 lower None (map child_desc level) (items_from (bk_offset b) rest) nodes.
Proof.
  induction gs as [|n gs IH]; intros b rest Hne HF H0 Hd Hsum Hs Hl Hp; [done|]. clear Hne. apply Forall_cons in HF as [Hn HF].
  unfold sum_groups in Hsum. cbn [foldr] in Hsum. fold (sum_groups gs) in Hsum.
  assert (0 <= sum_groups gs) as Hpos by (clear -HF; unfold sum_groups; induction HF; cbn [foldr]; lia).
  set (group := take (Z.to_nat n) rest). assert (zlen group = n) as Hg by (unfold group, zlen in *; rewrite length_take; lia).
  assert (rest = group ++ drop (Z.to_nat n) rest) as Hrest by (unfold group; by rewrite take_drop). rewrite Hrest in Hs.
  destruct (run_sound_app _ _ _ Hs) as [Hsg Hsr]. assert (group <> []) as Hgne by (intros E; rewrite E in Hg; change (zlen (@nil RegionRecord)) with 0 in Hg; lia).
  destruct (bk_lbas b) as [|lba lbas] eqn:Hlb; [rewrite zlen_cons in Hl; pose proof (zlen_nonneg gs); change (zlen (@nil Z)) with 0 in Hl; lia|].
  rewrite !zlen_cons in Hl. apply Forall_cons in Hp as [[Hu Hc] Hp].
  assert (ref_ok {| cr_lba := lba; cr_subtree_items := zlen group |}) as Hro.
  { split; [done|]. split; [by apply (nonzero_lba geo); [apply Hu|]|]. cbn. rewrite Hg. lia. }
  destruct (bulk_leaf_step records b lba lbas group (drop (Z.to_nat n) rest)) as (b1 & Hb1 & Hl1 & Ho1 & Hg1); [done|done|by rewrite Hd|done|done|lia|].
  cbn [ofold]. rewrite Hg in Hb1, Ho1. rewrite Hb1. cbn [obind]. rewrite Hg in Hsr. clear Hb1. destruct gs as [|n2 gs].
  - assert (drop (Z.to_nat n) rest = []) as Hdr by (apply zlen_zero_nil; unfold zlen; rewrite length_drop; unfold zlen in Hsum; cbn in Hsum; lia).
    exists b1, [lba], [leaf_child lba (bk_offset b) group], [(lba, record_leaf (items_from (bk_offset b) group))].
    do 3 (split; [done|]). split; [done|]. split; [rewrite covered_cons; cbn; unfold sum_groups in Hsum; cbn in Hsum; lia|].
    intros nd Hst lower Hlo. rewrite Hrest, Hdr, app_nil_r. apply one_desc.
    apply leaf_desc; [done|done|done|done|apply (Hst (lba, _)); by left|done|done].
  - destruct (IH b1 (drop (Z.to_nat n) rest)) as (b' & used & level & nodes & Hrun & Hgr & Hzl & Hsp & Hcov & Hds);
      [done|done|lia| |unfold zlen in *; rewrite length_drop; lia|by rewrite Ho1|rewrite Hl1; lia|by rewrite Hl1|].
    { rewrite Ho1, <- Hd, drop_drop. f_equal. lia. }
    destruct level as [|c level]; [done|]. pose proof (proj1 Hsp) as Hmin.
    exists b', ([lba] ++ used), ([leaf_child lba (bk_offset b) group] ++ c :: level), ([(lba, record_leaf (items_from (bk_offset b) group))] ++ nodes).
    split; [done|]. split; [by eapply grown_trans|]. split; [cbn [app]; rewrite !zlen_cons in *; lia|].
    split; [cbn [app]; split; [done|]; split; [done|]; cbn [leaf_child bc_items]; by rewrite Hg, <- Ho1|].
    split; [cbn [app]; rewrite covered_cons, Hcov; cbn [leaf_child bc_items]; unfold zlen in *; rewrite length_drop; lia|].
    intros nd Hst lower Hlo. rewrite Hrest, items_from_app, Hg, <- Ho1. rewrite map_app. cbn [map]. change ([?x] ++ ?y :: ?l) with (x :: y :: l).
    apply (more_descs _ _ _ _ _ _ _ _ _ (key_u32 (bk_offset b1))); [cbn; by rewrite Hmin| |].
    + apply leaf_desc; [done|done|done|done|apply (Hst (lba, _)), elem_of_app; left; by left|done|]. cbn. exists (bk_offset b1). split; [done|]. rewrite Ho1, Hg.
      destruct Hsr as (_ & Hb & _). pose proof (wf_regions (g := geo)). pose proof (zlen_nonneg (drop (Z.to_nat n) rest)). lia.
    + apply Hds; [|by right]. intros p Hpn. apply Hst, elem_of_app. by right.
Qed.
(** ** Internal levels *)

Lemma covered_nonneg off level : spaced off level -> 0 <= covered level.
Proof. intros H%spaced_covered. pose proof (zlen_nonneg level). lia. Qed.

Lemma bulk_separators rest : forall off total acc,
  spaced off rest -> 0 <= total -> total + covered rest < 2 ^ 64 ->
  exists seps, ofold bulk_separator (total, acc) rest = Ok (total + covered rest, acc ++ seps) /\ Forall2 child_item (map child_desc rest) seps.
Proof.
  induction rest as [|c rest IH]; intros off total acc Hs Ht Hlt.
  - exists []. cbn. rewrite Z.add_0_r, app_nil_r. by split; [|constructor].
  - destruct Hs as (Hk & Hr & Hs). pose proof (covered_nonneg _ _ Hs). rewrite covered_cons in Hlt |- *. pose proof Hr as (Hu & _ & Hc). cbn in Hc.
    destruct (child_value_ok _ Hr) as (v & Hv & _). cbn [child_desc ch_reference] in Hv.
    assert (bulk_separator (total, acc) c = Ok (total + bc_items c, acc ++ [ {| ti_key := bc_min_key c; ti_value := v |} ])) as Hstep.
    { unfold bulk_separator, checked_add. cbn [fst snd]. rewrite (proj2 (Z.ltb_lt (total + bc_items c) (2 ^ 64))) by lia. cbn [ok_or obind]. by rewrite Hv. }
    cbn [ofold]. rewrite Hstep. cbn [obind].
    destruct (IH (off + bc_items c) (total + bc_items c) (acc ++ [ {| ti_key := bc_min_key c; ti_value := v |} ])) as (seps & -> & HF); [done|lia|lia|].
    exists ({| ti_key := bc_min_key c; ti_value := v |} :: seps). rewrite <- app_assoc, Z.add_assoc. split; [done|]. constructor; [|done].
    split; [done|]. apply (child_ref_child_value _ _ Hu); [cbn; unfold u64; lia|done].
Qed.

Lemma separators_shape rest seps : forall off,
  0 <= off -> spaced off rest -> off + covered rest < 2 ^ 32 -> Forall2 child_item (map child_desc rest) seps ->
  sorted seps /\ Forall item_ok seps /\ Forall (fun item => zlen (ti_key item) = 4 /\ zlen (ti_value item) = 16) seps /\
  Forall (fun item => exists r, ti_key item = key_u32 r /\ off <= r < 2 ^ 32) seps.
Proof.
  revert seps. induction rest as [|c rest IH]; intros seps off H0 Hs Hlt HF; [apply Forall2_nil_inv_l in HF as ->; repeat constructor|].
  cbn [map] in HF. apply Forall2_cons_inv_l in HF as (sep & seps' & [Hk Hr] & HF & ->). destruct Hs as (Hm & (_ & _ & Hc) & Hs). cbn in Hc.
  pose proof (covered_nonneg _ _ Hs). rewrite covered_cons in Hlt. destruct (IH seps' (off + bc_items c)) as (I1 & I2 & I3 & I4); [lia|done|lia|done|].
  cbn in Hk. injection Hk as Hk. rewrite Hm in Hk. destruct (child_ref_ok _ _ Hr) as [_ Hv].
  assert (zlen (key_u32 off) = 4) as Hz by (unfold key_u32, zlen; by rewrite length_rev, length_le_split). split_and!.
  - constructor; [done|]. eapply Forall_impl; [exact I4|]. cbn beta. intros item (r & Hik & Hr'). unfold key_lt. rewrite Hik, <- Hk.
    rewrite (proj2 (key_u32_order off r ltac:(unfold u32; lia) ltac:(unfold u32; lia))). lia.
  - constructor; [|done]. unfold item_ok, MAX_TREE_KEY_BYTES. rewrite <- Hk, Hv, Hz. lia.
  - constructor; [|done]. by rewrite <- Hk.
  - constructor; [exists off; split; [done|lia]|]. eapply Forall_impl; [exact I4|]. cbn. intros item (r & ? & ?). exists r. split; [done|lia].
Qed.

Definition branch_of (m : nat) (first : BulkChild) (rest : list BulkChild) (seps : list TreeItem) : TreeNode :=
  {| tn_kind := AllocationRoot; tn_owner := 0; tn_level := Z.of_nat (S m); tn_subtree_items := covered (first :: rest);
     tn_leftmost_child := bc_lba first; tn_leftmost_items := bc_items first; tn_items := seps |}.

Lemma branch_encodable m off first rest seps :
  0 <= off -> spaced off (first :: rest) -> off + covered (first :: rest) < 2 ^ 32 -> rest <> [] -> zlen rest <= 144 -> Z.of_nat (S m) <= MAX_TREE_LEVEL ->
  Forall2 child_item (map child_desc rest) seps -> encodable (branch_of m first rest seps).
Proof.
  intros H0 Hs Hlt Hne Hz Hm HF. destruct Hs as (_ & Hr & Hs). pose proof Hr as (_ & _ & Hc). cbn in Hc. rewrite covered_cons in Hlt.
  pose proof (covered_nonneg _ _ Hs). destruct (separators_shape rest seps (off + bc_items first)) as (S1 & S2 & S3 & _); [lia|done|lia|done|].
  pose proof (Forall2_length _ _ _ HF) as Hlen. rewrite length_map in Hlen.
  apply small_encodable; [|done|cbn; unfold zlen in *; lia].
  apply valid_branch; [done|apply generation_ok|lia|rewrite covered_cons; unfold u64; lia|done| |done|done|].
  - intros ->. destruct rest; [done|]. cbn in Hlen. lia.
  - rewrite covered_cons. apply ofold_total; [done|lia|]. fold (covered rest). lia.
Qed.

Lemma branch_desc nd {valid : ValidNodes nd} m lba first rest seps lower upper items kids :
  descs_at geo spec nd m lower upper (map child_desc (first :: rest)) items kids -> Forall2 child_item (map child_desc rest) seps -> rest <> [] ->
  covered (first :: rest) < 2 ^ 64 -> Z.of_nat (S m) <= MAX_TREE_LEVEL -> u64 lba -> check_tree_lba geo lba = Ok tt ->
  nd lba = Ok (branch_of m first rest seps, g) ->
  desc_tree geo spec nd (S m) lower upper (child_desc {| bc_lba := lba; bc_min_key := bc_min_key first; bc_items := covered (first :: rest) |}) items
    ((lba, branch_of m first rest seps) :: kids).
Proof.
  intros Hds HF Hne Hlt Hm Hu Hc Hd. cbn [map] in Hds. assert (u64 g /\ 0 < g <= ts_max_generation spec) as Hg by (cbn; destruct generation_ok; split; [done|lia]).
  destruct (descs_facts geo spec nd _ _ _ _ _ _ Hds) as (_ & _ & _ & _ & _ & _ & Hsum).
  destruct (built_ready geo spec g Hg ltac:(done) nd m lower upper false (branch_of m first rest seps) (child_desc first) (map child_desc rest) seps items kids)
    as (Hr & _ & _); [done|done|by destruct rest|done|done|done|].
  split; [|split; [exact Hsum|done]]. by apply (ready_tree geo spec g Hg nd).
Qed.

Lemma bulk_internal_step m below b lba lbas first rest tail off :
  bk_lbas b = lba :: lbas -> 0 <= bk_offset b -> drop (Z.to_nat (bk_offset b)) below = (first :: rest) ++ tail ->
  0 <= off -> spaced off (first :: rest) -> off + covered (first :: rest) < 2 ^ 32 -> rest <> [] -> zlen rest <= 144 -> Z.of_nat (S m) <= MAX_TREE_LEVEL ->
  exists b' seps, bulk_internal (Z.of_nat (S m)) below b (zlen (first :: rest)) = Ok b' /\ bk_lbas b' = lbas /\
    bk_offset b' = bk_offset b + zlen (first :: rest) /\ Forall2 child_item (map child_desc rest) seps /\
    grown b b' [lba] [ {| bc_lba := lba; bc_min_key := bc_min_key first; bc_items := covered (first :: rest) |} ] [(lba, branch_of m first rest seps)].
Proof.
  intros Hl H0 Hd Hoff Hs Hlt Hne Hz Hm. unfold bulk_internal. pose proof (zlen_nonneg (first :: rest)).
  assert (sub below (bk_offset b) (bk_offset b + zlen (first :: rest)) = first :: rest) as Hsub.
  { unfold sub. rewrite Hd. replace (Z.to_nat _) with (length (first :: rest)) by (unfold zlen; lia). by rewrite take_app_length. }
  assert (bk_offset b + zlen (first :: rest) <= zlen below) as Hle.
  { apply (f_equal length) in Hd. rewrite length_app, length_drop in Hd. unfold zlen in *. cbn [length] in *. lia. }
  unfold slice. rewrite (proj2 (Z.leb_le 0 (bk_offset b))), (proj2 (Z.leb_le (bk_offset b) _)), (proj2 (Z.leb_le _ (zlen below))) by lia.
  cbn [andb]. rewrite Hsub. cbn [obind]. rewrite Hl. cbn [pool_next obind]. pose proof Hs as (_ & (_ & _ & Hc) & Hs'). cbn in Hc.
  rewrite covered_cons in Hlt. pose proof (covered_nonneg _ _ Hs').
  destruct (bulk_separators rest (off + bc_items first) (bc_items first) []) as (seps & -> & HF); [done|lia|lia|]. cbn [obind app].
  eexists _, seps. split; [reflexivity|]. split; [done|]. split; [done|]. split; [done|]. unfold grown. cbn [bk_lbas bk_level bk_nodes]. rewrite Hl.
  do 5 (split; [done|]). constructor; [|done]. cbn [snd]. by apply (branch_encodable m off); [done|done|rewrite covered_cons; lia|..].
Qed.

Definition lifts (m : nat) (below level : list BulkChild) (nodes : list (Z * TreeNode)) : Prop :=
  forall nd, ValidNodes nd -> stored nd nodes -> forall lower upper items pre, descs_at geo spec nd m lower upper (map child_desc below) items pre ->
    exists pre', pre' ≡ₚ nodes ++ pre /\ descs_at geo spec nd (S m) lower upper (map child_desc level) items pre'.

Lemma lifts_cons m lba off first rest seps below level nodes :
  Forall2 child_item (map child_desc rest) seps -> rest <> [] -> covered (first :: rest) < 2 ^ 64 -> Z.of_nat (S m) <= MAX_TREE_LEVEL -> u64 lba ->
  check_tree_lba geo lba = Ok tt -> spaced off below -> spaced off level -> below <> [] -> level <> [] -> lifts m below level nodes ->
  lifts m ((first :: rest) ++ below) ({| bc_lba := lba; bc_min_key := bc_min_key first; bc_items := covered (first :: rest) |} :: level)
    ((lba, branch_of m first rest seps) :: nodes).
Proof.
  intros HF Hne Hlt Hm Hu Hc Hsb Hsl Hb Hlv IH nd Hnd Hst lower upper items pre Hds. rewrite map_app in Hds.
  destruct (descs_split geo spec nd _ _ _ _ _ _ _ Hds) as (k & xs & ys & xn & yn & Hk & -> & -> & Hx & Hy); [done|by destruct below|].
  destruct (IH nd Hnd ltac:(intros p Hp; apply Hst; by right) _ _ _ _ Hy) as (pre' & Hperm & Hrest).
  destruct below as [|c below]; [done|]. destruct level as [|c' level]; [done|]. cbn in Hk. injection Hk as <-.
  exists (((lba, branch_of m first rest seps) :: xn) ++ pre'). split; [rewrite Hperm; cbn; solve_Permutation|]. cbn [map].
  apply (more_descs _ _ _ _ _ _ _ _ _ (bc_min_key c)); [cbn; by rewrite (proj1 Hsb), (proj1 Hsl)| |done].
  apply branch_desc; try done. apply (Hst (lba, _)). by left.
Qed.

Lemma bulk_level m below gs : forall b rest off,
  gs <> [] -> Forall (fun n => 2 <= n <= 145) gs -> 0 <= bk_offset b -> drop (Z.to_nat (bk_offset b)) below = rest -> sum_groups gs = zlen rest ->
  0 <= off -> spaced off rest -> off + covered rest < 2 ^ 32 -> zlen gs <= zlen (bk_lbas b) -> places (bk_lbas b) -> Z.of_nat (S m) <= MAX_TREE_LEVEL ->
  exists b' used level nodes, ofold (bulk_internal (Z.of_nat (S m)) below) b gs = Ok b' /\ grown b b' used level nodes /\ zlen level = zlen gs /\
    spaced off level /\ covered level = covered rest /\ lifts m rest level nodes.
Proof.
  induction gs as [|n gs IH]; intros b rest off Hne HF H0 Hd Hsum Hoff Hs Hlt Hl Hp Hm; [done|]. clear Hne. apply Forall_cons in HF as [Hn HF].
  unfold sum_groups in Hsum. cbn [foldr] in Hsum. fold (sum_groups gs) in Hsum.
  assert (0 <= sum_groups gs) as Hpos by (clear -HF; unfold sum_groups; induction HF; cbn [foldr]; lia).
  destruct rest as [|first rest]; [change (zlen (@nil BulkChild)) with 0 in Hsum; lia|]. set (group := take (Z.to_nat (n - 1)) rest).
  rewrite zlen_cons in Hsum. assert (zlen group = n - 1) as Hg by (unfold group, zlen in *; rewrite length_take; lia).
  set (tail := drop (Z.to_nat (n - 1)) rest). assert (zlen tail = sum_groups gs) as Ht by (unfold tail, zlen in *; rewrite length_drop; lia).
  assert (first :: rest = (first :: group) ++ tail) as Hrest by (cbn; unfold group, tail; by rewrite take_drop).
  assert (group <> []) as Hgne by (intros E; rewrite E in Hg; change (zlen (@nil BulkChild)) with 0 in Hg; lia).
  rewrite Hrest in Hs, Hd, Hlt |- *. apply spaced_app in Hs as [Hsg Hst]. rewrite covered_app in Hlt |- *. pose proof (covered_nonneg _ _ Hst). pose proof (covered_nonneg _ _ Hsg).
  destruct (bk_lbas b) as [|lba lbas] eqn:Hlb; [rewrite zlen_cons in Hl; pose proof (zlen_nonneg gs); change (zlen (@nil Z)) with 0 in Hl; lia|].
  rewrite !zlen_cons in Hl. apply Forall_cons in Hp as [[Hu Hc] Hp].
  destruct (bulk_internal_step m below b lba lbas first group tail off) as (b1 & seps & Hb1 & Hl1 & Ho1 & HFs & Hg1); [done|done|done|done|done|lia|done|lia|done|].
  cbn [ofold]. assert (zlen (first :: group) = n) as Hn1 by (rewrite zlen_cons; lia). rewrite Hn1 in Hb1, Ho1. rewrite Hb1. cbn [obind]. clear Hb1.
  assert (ref_ok {| cr_lba := lba; cr_subtree_items := covered (first :: group) |}) as Hro.
  { pose proof (spaced_covered _ _ Hsg) as Hsz. rewrite zlen_cons in Hsz. pose proof (zlen_nonneg group).
    split; [done|]. split; [by apply (nonzero_lba geo); [apply Hu|]|]. cbn [cr_subtree_items]. lia. }
  destruct gs as [|n2 gs].
  - apply zlen_zero_nil in Ht. rewrite Ht, app_nil_r. do 4 eexists. split; [reflexivity|]. split; [exact Hg1|]. split; [done|].
    split; [split; [apply (proj1 Hsg)|by split]|]. split; [done|].
    intros nd Hnd Hsto lower upper items pre Hds. exists ((lba, branch_of m first group seps) :: pre). split; [done|]. cbn [map app]. apply one_desc.
    apply branch_desc; try done; [lia|]. apply (Hsto (lba, _)). by left.
  - destruct (IH b1 tail (off + covered (first :: group))) as (b' & used & level & nodes & Hrun & Hgr & Hzl & Hsp & Hcov & Hds);
      [done|done|lia| |done|lia|done|lia|rewrite Hl1; lia|by rewrite Hl1|done|].
    { rewrite Ho1. replace (Z.to_nat (bk_offset b + n)) with (Z.to_nat (bk_offset b) + length (first :: group))%nat by (unfold zlen in Hg; cbn [length]; lia).
      by rewrite <- drop_drop, Hd, drop_app_length. }
    exists b'. do 3 eexists. split; [done|]. split; [by eapply grown_trans|]. split; [cbn [app]; rewrite !zlen_cons in *; lia|].
    split; [cbn [app]; split; [apply (proj1 Hsg)|by split]|]. split; [cbn [app]; rewrite covered_cons, Hcov; done|].
    cbn [app]. apply (lifts_cons m lba (off + covered (first :: group))); [done|done|lia|done|done|done|done|done| |by destruct level|done].
    intros E. rewrite E in Ht. unfold sum_groups in Ht. change (zlen (@nil BulkChild)) with 0 in Ht. apply Forall_cons in HF as [? HF]. cbn [foldr] in Ht.
    enough (0 <= foldr Z.add 0 gs) by lia. clear -HF. induction HF; cbn [foldr]; lia.
Qed.

(** ** All levels *)

Definition rooted (m : nat) (below : list BulkChild) (root : BulkChild) (nodes : list (Z * TreeNode)) : Prop :=
  forall nd, ValidNodes nd -> stored nd nodes -> forall items pre, descs_at geo spec nd m None None (map child_desc below) items pre ->
    exists n pre', pre' ≡ₚ nodes ++ pre /\ desc_tree geo spec nd n None None (child_desc root) items pre'.

Definition completed (b b' : Bulk) (root : BulkChild) (nodes : list (Z * TreeNode)) : Prop :=
  bk_lbas b' = [] /\ bk_level b' = [root] /\ bk_nodes b' = bk_nodes b ++ nodes /\ map fst nodes = bk_lbas b /\ Forall (fun p => encodable (snd p)) nodes.

Lemma no_more_levels fuel m b total cf :
  zlen (bk_level b) <= 1 -> bk_level b <> [] -> count_levels cf 145 (zlen (bk_level b)) total = Ok (total + zlen (bk_lbas b)) ->
  exists root, bulk_levels (S fuel) 145 (Z.of_nat m) b = Ok b /\ completed b b root [] /\ rooted m (bk_level b) root [].
Proof.
  intros H1 Hne Hcl. destruct (bk_level b) as [|root [|c level]] eqn:Hlv; [done| |rewrite !zlen_cons in H1; pose proof (zlen_nonneg level); lia].
  exists root. cbn [bulk_levels]. rewrite Hlv. split; [done|].
  assert (count_levels cf 145 (zlen [root]) total = Ok total) as Hc by by destruct cf. rewrite Hc in Hcl. apply Ok_inj in Hcl.
  assert (bk_lbas b = []) as Hl by (apply zlen_zero_nil; lia). split.
  - unfold completed. rewrite Hl, Hlv, app_nil_r. by repeat split.
  - intros nd _ _ items pre Hds. exists m, pre. split; [done|]. cbn [map] in Hds. by inversion Hds.
Qed.

Lemma wp_bulk_levels k : forall fuel cf m b total off,
  (k < fuel)%nat -> zlen (bk_level b) <= 2 ^ (6 * Z.of_nat k) -> Z.of_nat (m + k) <= MAX_TREE_LEVEL -> bk_level b <> [] ->
  0 <= total -> 0 <= off -> spaced off (bk_level b) -> off + covered (bk_level b) < 2 ^ 32 -> places (bk_lbas b) ->
  count_levels cf 145 (zlen (bk_level b)) total = Ok (total + zlen (bk_lbas b)) ->
  exists b' root nodes, bulk_levels fuel 145 (Z.of_nat m) b = Ok b' /\ completed b b' root nodes /\ rooted m (bk_level b) root nodes.
Proof.
  induction k as [|k IH]; intros fuel cf m b total off Hf Hz Hm Hne Ht Hoff Hs Hlt Hp Hcl; (destruct fuel as [|fuel]; [lia|]);
    (destruct (decide (zlen (bk_level b) <= 1)) as [H1|H1]; [destruct (no_more_levels fuel m b total cf) as (root & ? & ? & ?); [done|done|done|by exists b, root, []]|]);
    [cbn in Hz; lia|].
  destruct cf as [|cf]; cbn [count_levels] in Hcl; (replace (zlen (bk_level b) <=? 1) with false in Hcl by lia); [done|]. cbn [bulk_levels].
  replace (zlen (bk_level b) <=? 1) with false by lia. unfold MAX_TREE_LEVEL in *. unfold checked_add at 1. replace (Z.of_nat m + 1 <? 2 ^ 8) with true by lia.
  cbn [ok_or obind]. pose proof (wp_balanced_groups (zlen (bk_level b)) 145 ltac:(lia) ltac:(lia)) as Hg.
  destruct (balanced_groups _ _) as [gs|e|]; [|done|done]. destruct Hg as (Hzg & Hsum & HF & HF2). specialize (HF2 ltac:(lia)). cbn [obind].
  pose proof (div_ceil_pos (zlen (bk_level b)) 145 ltac:(lia) ltac:(lia)) as Hpos.
  pose proof (div_ceil_bounds (zlen (bk_level b)) 145 ltac:(lia) ltac:(lia)) as Hdb. rewrite <- Hzg in Hcl, Hpos, Hdb.
  unfold checked_add in Hcl. destruct (_ <? _); [|done]. cbn [ok_or obind] in Hcl.
  assert (zlen gs <= zlen (bk_lbas b)) as Hroom by (apply count_levels_grows in Hcl; lia).
  replace (Z.of_nat m + 1) with (Z.of_nat (S m)) by lia.
  destruct (bulk_level m (bk_level b) gs {| bk_lbas := bk_lbas b; bk_nodes := bk_nodes b; bk_level := []; bk_offset := 0 |} (bk_level b) off)
    as (b1 & used & level & nodes & Hrun & (G1 & G2 & G3 & G4 & G5 & G6) & Hzl & Hsp & Hcov & Hlift);
    [by intros ->|rewrite Forall_forall in HF, HF2 |- *; intros x Hx; specialize (HF x Hx); specialize (HF2 x Hx); lia|done|done|done|done|done|done|done|done|unfold MAX_TREE_LEVEL; lia|].
  rewrite Hrun. cbn [obind bk_lbas bk_level bk_nodes app] in *. rewrite <- Hzl, <- G2 in Hcl.
  assert (zlen (bk_lbas b) = zlen gs + zlen (bk_lbas b1)) as Hleft by (rewrite G1, zlen_app, <- G5, zlen_map; lia).
  destruct (IH fuel cf (S m) b1 (total + zlen (bk_level b1)) off) as (b' & root & nodes' & Hrun' & (C1 & C2 & C3 & C4 & C5) & Hroot);
    [lia| |lia|rewrite G2; intros ->; change (zlen (@nil BulkChild)) with 0 in Hzl; lia|rewrite G2; lia|done|by rewrite G2|rewrite G2; lia| | |].
  - rewrite G2, Hzl. replace (6 * Z.of_nat (S k)) with (6 * Z.of_nat k + 6) in Hz by lia. rewrite Z.pow_add_r in Hz by lia. lia.
  - unfold places in Hp. rewrite G1 in Hp. by apply Forall_app in Hp as [_ ?].
  - rewrite Hcl, G2. f_equal. lia.
  - exists b', root, (nodes ++ nodes'). split; [done|]. split.
    + unfold completed. rewrite C1, C2, C3, G3, map_app, G4, C4, G1, <- app_assoc. do 4 (split; [done|]). by apply Forall_app.
    + intros nd Hnd Hst items pre Hds. destruct (Hlift nd Hnd ltac:(intros p Hpn; apply Hst, elem_of_app; by left) _ _ _ _ Hds) as (pre1 & P1 & Hds1).
      rewrite <- G2 in Hds1. destruct (Hroot nd Hnd ltac:(intros p Hpn; apply Hst, elem_of_app; by right) _ _ Hds1) as (n & pre2 & P2 & Ht2).
      exists n, pre2. split; [rewrite P2, P1; solve_Permutation|done].
Qed.

(** ** The whole construction *)

Lemma pool_lbas_shape pool :
  allocation_root_pool_lbas geo = Ok pool ->
  exists n, allocation_root_logical_nodes geo = Ok n /\ 0 < n /\ zlen pool = 3 * n /\ NoDup pool /\ places pool.
Proof.
  unfold allocation_root_pool_lbas. pose proof (wp_logical_nodes geo WF) as Hn. destruct (allocation_root_logical_nodes geo) as [n|e|]; [|done|done].
  cbn [obind]. cbn in Hn. unfold checked_mul. destruct (_ <? _); [|done]. cbn [ok_or obind]. intros Hr. exists n.
  apply reserved_run_Ok in Hr as [-> Hz]; [|done|done|lia]. split; [done|]. split; [done|]. split; [lia|].
  pose proof (sublist_take (drop (Z.to_nat BOOTSTRAP_METADATA_BLOCKS) (allocatable_blocks geo)) (Z.to_nat (n * 3))) as Hsub.
  assert (sublist (take (Z.to_nat (n * 3)) (drop (Z.to_nat BOOTSTRAP_METADATA_BLOCKS) (allocatable_blocks geo))) (allocatable_blocks geo)) as Hs
    by (etrans; [exact Hsub|apply sublist_drop]).
  split; [eapply sublist_NoDup; [apply allocatable_blocks_NoDup|exact Hs]|]. apply Forall_forall. intros x Hx.
  assert (x ∈ allocatable_blocks geo) as Ha by by eapply elem_of_sublist. pose proof (allocatable_blocks_elem geo x WF Ha) as He.
  split; [|unfold check_tree_lba; by rewrite He]. unfold allocatable_blocks, allocatable_from in Ha. apply list_elem_of_In, filter_In in Ha as [Ha _].
  apply list_elem_of_In, elem_of_seqZ in Ha. pose proof (wf_regions_pos geo). pose proof (wf_head_bounds geo 0 ltac:(lia)). pose proof (wf_total (g := geo)). unfold u64. lia.
Qed.

Lemma capacities : leaf_capacity (block_size geo) = Ok 144 /\ internal_fanout (block_size geo) = Ok 145.
Proof. unfold leaf_capacity, internal_fanout. by rewrite (wf_block_size (g := geo)). Qed.

Lemma stored_images nodes v :
  Forall (fun p => encodable (snd p)) nodes -> (forall lba node, (lba, node) ∈ nodes -> TreeNode_encode node (block_size geo) g = Ok (v lba)) ->
  stored (decoded v) nodes.
Proof.
  intros HF Hv [lba node] Hp. rewrite Forall_forall in HF. destruct (HF _ Hp) as [[Ht _] _].
  unfold decoded. cbn [fst snd] in *. pose proof (Hv _ _ Hp) as He.
  assert (0 <= block_size geo < 2 ^ 32) by (rewrite wf_block_size; lia). by eapply (decode_encode (encode := TreeNode_encode)).
Qed.

(** What the construction returns: the first third of the pool, filled with
    nodes that encode to blocks holding the records' tree. *)
Definition built_for (records : list RegionRecord) (pool : list Z) (built : BuiltAllocationRoot) : Prop :=
  br_pool_lbas built = pool /\ zlen pool = 3 * zlen (br_nodes built) /\ NoDup pool /\
  map fst (br_nodes built) = take (length (br_nodes built)) pool /\ Forall (fun p => encodable (snd p)) (br_nodes built) /\
  forall v, (forall lba node, (lba, node) ∈ br_nodes built -> TreeNode_encode node (block_size geo) g = Ok (v lba)) ->
    exists nodes, nodes ≡ₚ br_nodes built /\ allocation_root_at geo v g (br_root_lba built) records nodes.

Lemma reserved_pool_total : reserved_pool_lbas geo <> Panic.
Proof.
  unfold reserved_pool_lbas, placement_error, allocation_root_pool_lbas. pose proof (wp_logical_nodes geo WF) as Hn.
  destruct (allocation_root_logical_nodes geo) as [n|e|]; [|by destruct e|done]. cbn in Hn. cbn [obind].
  unfold checked_mul. destruct (_ <? _); [|done]. cbn [ok_or obind]. rewrite reserved_run_eq by (done || lia). cbn zeta. by destruct (_ <=? _).
Qed.

Lemma reserved_pool_Ok pool : reserved_pool_lbas geo = Ok pool -> allocation_root_pool_lbas geo = Ok pool.
Proof. unfold reserved_pool_lbas, placement_error. destruct (allocation_root_pool_lbas geo) as [|[]|]; naive_solver. Qed.

Lemma built_nodes records n pool gs :
  records_sound geo g records -> allocation_root_logical_nodes geo = Ok n -> 0 < n -> zlen pool = 3 * n -> places pool ->
  zlen gs = div_ceil (zlen records) 144 -> sum_groups gs = zlen records -> Forall (fun g => 1 <= g <= 144) gs ->
  exists b1 b root nodes,
    ofold (bulk_leaf records) {| bk_lbas := sub pool 0 n; bk_nodes := []; bk_level := []; bk_offset := 0 |} gs = Ok b1 /\
    bulk_levels 256 145 0 b1 = Ok b /\ bk_lbas b = [] /\ bk_level b = [root] /\ bk_nodes b = nodes /\ map fst nodes = take (Z.to_nat n) pool /\
    Forall (fun p => encodable (snd p)) nodes /\
    forall nd, ValidNodes nd -> stored nd nodes -> exists m pre, pre ≡ₚ nodes /\ desc_tree geo spec nd m None None (child_desc root) (items_from 0 records) pre.
Proof.
  intros [Hz Hs] Hn Hpos Hpz Hpl Hzg Hsum HF. pose proof (wf_regions_pos geo). pose proof (wf_regions (g := geo)).
  apply (logical_nodes_count geo) in Hn. rewrite <- Hz, <- Hzg in Hn. pose proof (count_levels_grows _ _ _ _ Hn) as Hge.
  pose proof (div_ceil_pos (zlen records) 144 ltac:(lia) ltac:(lia)) as Hgp. pose proof (div_ceil_bounds (zlen records) 144 ltac:(lia) ltac:(lia)) as Hgb. rewrite <- Hzg in Hgp, Hgb.
  assert (sub pool 0 n = take (Z.to_nat n) pool) as Hsub by (unfold sub; cbn; by rewrite drop_0, Z.sub_0_r). rewrite Hsub.
  assert (zlen (take (Z.to_nat n) pool) = n) as Htz by (unfold zlen in *; rewrite length_take; lia).
  destruct (wp_bulk_leaves records gs {| bk_lbas := take (Z.to_nat n) pool; bk_nodes := []; bk_level := []; bk_offset := 0 |} records)
    as (b1 & used & level & nodes & Hrun & (G1 & G2 & G3 & G4 & G5 & G6) & Hzl & Hsp & Hcov & Hds);
    [by intros ->|done|done|done|done|split; [done|split; [cbn; lia|intros i r Hi; by apply Hs]]|cbn [bk_lbas]; lia|by apply Forall_take|].
  cbn [bk_lbas bk_level bk_nodes bk_offset app] in *.
  assert (n = zlen gs + zlen (bk_lbas b1)) as Hleft by (rewrite <- Htz, G1, zlen_app, <- G5, zlen_map; lia).
  destruct (wp_bulk_levels 5 256 64 0 b1 (zlen gs) 0) as (b & root & nodes' & Hrun' & (C1 & C2 & C3 & C4 & C5) & Hroot);
    [lia|rewrite G2; lia|unfold MAX_TREE_LEVEL; lia|rewrite G2; intros ->; change (zlen (@nil BulkChild)) with 0 in Hzl; lia|lia|lia|by rewrite G2|rewrite G2; lia| | |].
  - assert (places (take (Z.to_nat n) pool)) as Hpt by by apply Forall_take. unfold places in *. rewrite G1 in Hpt. by apply Forall_app in Hpt as [_ ?].
  - rewrite G2, Hzl, <- Hleft. exact Hn.
  - exists b1, b, root, (nodes ++ nodes'). split; [done|]. split; [exact Hrun'|]. split; [done|]. split; [done|]. split; [by rewrite C3, G3|].
    split; [by rewrite map_app, G4, C4, G1|]. split; [by apply Forall_app|]. intros nd Hnd Hst.
    assert (stored nd nodes /\ stored nd nodes') as [Hst1 Hst2] by (split; intros p Hp; apply Hst, elem_of_app; [by left|by right]).
    specialize (Hds nd Hst1 None ltac:(by left)). rewrite <- G2 in Hds. destruct (Hroot nd Hnd Hst2 _ _ Hds) as (m & pre & Hp & Ht).
    exists m, pre. split; [rewrite Hp; solve_Permutation|done].
Qed.

Lemma wp_bulk_build records :
  records_sound geo g records ->
  wp (bulk_build geo records) (fun built => exists pool, reserved_pool_lbas geo = Ok pool /\ built_for records pool built) (fun e => reserved_pool_lbas geo = Err e).
Proof.
  intros Hrs. pose proof Hrs as [Hz Hs]. pose proof (wf_regions_pos geo). destruct capacities as [Hcap Hfan]. unfold bulk_build. rewrite region_count_eq by done. cbn [of_format obind].
  apply wp_if_false; [lia|]. rewrite Hcap, Hfan. cbn [obind]. pose proof (wp_balanced_groups (zlen records) 144 ltac:(lia) ltac:(lia)) as Hg.
  destruct (balanced_groups _ _) as [gs|e|]; [|done|done]. destruct Hg as (Hzg & Hsum & HF & _). cbn [obind].
  pose proof reserved_pool_total as Hnp. destruct (reserved_pool_lbas geo) as [pool|e|] eqn:Hpool; cbn [obind]; [|done|done].
  destruct (pool_lbas_shape pool) as (n & Hn & Hpos & Hpz & Hnd & Hpl); [by apply reserved_pool_Ok|].
  assert (zlen pool / 3 = n) as Hdiv by (rewrite Hpz, Z.mul_comm; by apply Z.div_mul). cbn zeta. rewrite Hdiv.
  destruct (built_nodes records n pool gs) as (b1 & b & root & nodes & Hrun & Hlv & C1 & C2 & C3 & Hfst & Henc & Htree); [done..|].
  rewrite Hrun. cbn [obind]. rewrite Hlv. cbn [obind]. rewrite C1, C3.
  assert (zlen nodes = n) as Hnn. { rewrite <- (zlen_map fst nodes), Hfst. unfold zlen in *. rewrite length_take. lia. }
  apply wp_if_false; [lia|]. rewrite C2. apply wp_ok. exists pool. split; [done|]. unfold built_for. cbn [br_pool_lbas br_nodes br_root_lba].
  split; [done|]. split; [lia|]. split; [done|]. split; [by replace (length nodes) with (Z.to_nat n) by (unfold zlen in Hnn; lia)|]. split; [done|].
  intros v Hv. destruct (Htree (decoded v) _ (stored_images _ _ Henc Hv)) as (m & pre & Hp & Ht & _ & Hc & _). exists pre. split; [done|]. split; [|done].
  split; [exact Hc|]. exists m. eapply (proj1 (tree_weaken geo spec (decoded v))); [exact Ht|by left|done|done].
Qed.
End Bulk.

(** C14: given one sound record per region, the construction of a new volume's
    allocation root fails only when the reserved pool does not fit the volume,
    and then with the pool's error. Otherwise it fills exactly the first third
    of the pool, every node encodes to a block, and any volume that stores
    those blocks holds a well-formed allocation root with exactly those
    records under the returned root. *)
Theorem allocation_root_built geo g records :
  WfGeometry geo -> u64 g -> 0 < g -> records_sound geo g records ->
  wp (bulk_build geo records) (fun built => exists pool, reserved_pool_lbas geo = Ok pool /\ built_for geo g records pool built)
    (fun e => reserved_pool_lbas geo = Err e).
Proof. intros WF Hu Hg. by apply wp_bulk_build. Qed.

Definition sample_region_records : list RegionRecord :=
  map (fun free => {| rr_descriptor_slot := 0; rr_free_blocks := free; rr_descriptor_generation := 1 |}) [3; 10; 10; 6].

Lemma sample_records_sound : records_sound small_geometry 1 sample_region_records.
Proof.
  split; [by vm_compute|]. intros i record Hi. do 4 (destruct i as [|i]; [injection Hi as <-; by vm_compute|]). by destruct i.
Qed.

Lemma allocation_root_built_witness :
  wp (bulk_build small_geometry sample_region_records)
    (fun built => exists pool, reserved_pool_lbas small_geometry = Ok pool /\ built_for small_geometry 1 sample_region_records pool built)
    (fun e => reserved_pool_lbas small_geometry = Err e).
Proof. by apply (allocation_root_built small_geometry 1 sample_region_records); [apply small_geometry_wf|..|apply sample_records_sound]. Defined.

(** C26: whatever blocks the device holds, loading the allocation root under
    [root] either returns the one list of records stored there, with the blocks
    of the tree and its summary, or reports an error; reading one region
    returns its record. On a well-formed allocation root both fail only when
    the device does, and neither changes a block. *)
Theorem allocation_root_reads {D : Type} {device : BlockDevice Decoded D} {contract : DeviceContract Decoded D core_decodes}
    (geo : Geometry) (d : D) (g root : Z) :
  WfGeometry geo -> dev_ok (decodes := core_decodes) d -> u64 root ->
  wpi (load_allocation_root geo root g) d
    (fun r d' => reads d d' /\ exists nodes, allocation_root_at geo (view (decodes := core_decodes) d) g root (la_records r) nodes /\
       la_tree_blocks r = map fst nodes /\ la_summary r = tree_summary (region_items (la_records r)) nodes)
    (fun e d' => reads d d' /\ forall records nodes, allocation_root_at geo (view (decodes := core_decodes) d) g root records nodes -> only_io e) /\
  forall region, 0 <= region ->
    wpi (lookup_record geo root g region) d
      (fun r d' => reads d d' /\ forall records nodes, allocation_root_at geo (view (decodes := core_decodes) d) g root records nodes -> r = records !! Z.to_nat region)
      (fun e d' => reads d d' /\ forall records nodes, allocation_root_at geo (view (decodes := core_decodes) d) g root records nodes ->
         region < regions geo -> only_io e).
Proof. intros WF Hd Hu. split; [by apply wpi_load_allocation_root|]. intros region Hr. by apply wpi_lookup_record. Qed.

(** The sample records in a volume: one leaf at the first block of the pool. *)
Definition sample_root_block : bytes :=
  match bulk_build small_geometry sample_region_records with
  | Ok {| br_nodes := [(13, leaf)] |} => match TreeNode_encode leaf 4096 1 with Ok block => block | _ => [] end
  | _ => []
  end.

Definition sample_root_volume : MemoryBackend :=
  {| mb_block_size := 4096; mb_total_blocks := 60; mb_blocks := <[13 := sample_root_block]> ∅ |}.

Lemma sample_root_volume_ok : memory_ok sample_root_volume.
Proof.
  split; [by vm_compute|]. split; [by vm_compute|]. cbn [mb_blocks sample_root_volume]. apply map_Forall_insert_2; [vm_compute; reflexivity|apply map_Forall_empty].
Qed.

Lemma allocation_root_reads_witness :
  match snd (load_allocation_root small_geometry 13 1 (cached_volume sample_root_volume)) with
  | Ok r => la_records r = sample_region_records /\ la_tree_blocks r = [13]
  | _ => False
  end /\
  wpi (lookup_record small_geometry 13 1 2) (cached_volume sample_root_volume)
    (fun r d' => reads (cached_volume sample_root_volume) d' /\ forall records nodes,
       allocation_root_at small_geometry (view (decodes := core_decodes) (cached_volume sample_root_volume)) 1 13 records nodes -> r = records !! Z.to_nat 2)
    (fun e d' => reads (cached_volume sample_root_volume) d' /\ forall records nodes,
       allocation_root_at small_geometry (view (decodes := core_decodes) (cached_volume sample_root_volume)) 1 13 records nodes ->
         2 < regions small_geometry -> only_io e).
Proof.
  split; [vm_compute; by split|].
  refine (proj2 (allocation_root_reads small_geometry (cached_volume sample_root_volume) 1 13 small_geometry_wf _ _) 2 _);
    [apply (cached_volume_ok _ sample_root_volume_ok)|done|done].
Defined.
