(* ===== verification/Reclaim.v ===== *)
(** * The reclaim queue (crates/afsplus-core/src/reclaim.rs)

    Retired runs wait in a queue of blocks on the volume until no retained
    checkpoint can reach them.  A transaction consumes a bounded batch from
    the head, appends what it retires, and rebuilds the queue from immutable
    segment and table blocks under a new root.  The file has the code of the
    engine; what it does to the queue as a list of blocks is in
    ReclaimQueue.v. *)

From S2P Require Import Prelude Crc32c Format Header Codec Geometry ReclaimCodec Device Core Tree.

Definition DEFAULT_RECLAIM_BATCH_BLOCKS : Z := 4096.

Record ReclaimStats := {
  rs_blocked_by_checkpoint : bool;
  rs_entries_appended : Z;
  rs_segments_sealed : Z;
  rs_tables_sealed : Z;
  rs_structure_blocks_written : Z;
  rs_structure_blocks_retired : Z;
  rs_pending_blocks_after : Z;
}.

Definition ReclaimStats_default : ReclaimStats :=
  {| rs_blocked_by_checkpoint := false; rs_entries_appended := 0; rs_segments_sealed := 0; rs_tables_sealed := 0;
     rs_structure_blocks_written := 0; rs_structure_blocks_retired := 0; rs_pending_blocks_after := 0 |}.

(** A run whose blocks leave quarantine in this transaction. *)
Record PromotedRun := { pr_start : Z; pr_blocks : Z; pr_retire_generation : Z }.

Record ReclaimBuild := {
  rb_root_lba : Z;
  rb_writes : list (Z * bytes);
  rb_pending_blocks : Z;
  rb_stats : ReclaimStats;
}.

(** The flight observer of the source is left out: it only records events. *)
Record ReclaimTx := {
  rx_oldest_protected_generation : Z;
  rx_committed_root_lba : Z;
  rx_new_generation : Z;
  rx_root : ReclaimRoot;
  rx_appends : list ReclaimEntry;
  rx_promoted : list PromotedRun;
  rx_consumed_structure : list Z;
  rx_reclaimed_blocks : Z;
  rx_planned_allocations : option Z;
  rx_stats : ReclaimStats;
}.

(** ** Assignments to fields *)

Definition set_rx_root (root : ReclaimRoot) (tx : ReclaimTx) : ReclaimTx :=
  {| rx_oldest_protected_generation := rx_oldest_protected_generation tx; rx_committed_root_lba := rx_committed_root_lba tx;
     rx_new_generation := rx_new_generation tx; rx_root := root; rx_appends := rx_appends tx; rx_promoted := rx_promoted tx;
     rx_consumed_structure := rx_consumed_structure tx; rx_reclaimed_blocks := rx_reclaimed_blocks tx;
     rx_planned_allocations := rx_planned_allocations tx; rx_stats := rx_stats tx |}.
Definition set_rx_appends (appends : list ReclaimEntry) (tx : ReclaimTx) : ReclaimTx :=
  {| rx_oldest_protected_generation := rx_oldest_protected_generation tx; rx_committed_root_lba := rx_committed_root_lba tx;
     rx_new_generation := rx_new_generation tx; rx_root := rx_root tx; rx_appends := appends; rx_promoted := rx_promoted tx;
     rx_consumed_structure := rx_consumed_structure tx; rx_reclaimed_blocks := rx_reclaimed_blocks tx;
     rx_planned_allocations := rx_planned_allocations tx; rx_stats := rx_stats tx |}.
Definition set_rx_promoted (promoted : list PromotedRun) (reclaimed : Z) (tx : ReclaimTx) : ReclaimTx :=
  {| rx_oldest_protected_generation := rx_oldest_protected_generation tx; rx_committed_root_lba := rx_committed_root_lba tx;
     rx_new_generation := rx_new_generation tx; rx_root := rx_root tx; rx_appends := rx_appends tx; rx_promoted := promoted;
     rx_consumed_structure := rx_consumed_structure tx; rx_reclaimed_blocks := reclaimed;
     rx_planned_allocations := rx_planned_allocations tx; rx_stats := rx_stats tx |}.
Definition set_rx_consumed (consumed : list Z) (tx : ReclaimTx) : ReclaimTx :=
  {| rx_oldest_protected_generation := rx_oldest_protected_generation tx; rx_committed_root_lba := rx_committed_root_lba tx;
     rx_new_generation := rx_new_generation tx; rx_root := rx_root tx; rx_appends := rx_appends tx; rx_promoted := rx_promoted tx;
     rx_consumed_structure := consumed; rx_reclaimed_blocks := rx_reclaimed_blocks tx;
     rx_planned_allocations := rx_planned_allocations tx; rx_stats := rx_stats tx |}.
Definition set_rx_planned (planned : option Z) (tx : ReclaimTx) : ReclaimTx :=
  {| rx_oldest_protected_generation := rx_oldest_protected_generation tx; rx_committed_root_lba := rx_committed_root_lba tx;
     rx_new_generation := rx_new_generation tx; rx_root := rx_root tx; rx_appends := rx_appends tx; rx_promoted := rx_promoted tx;
     rx_consumed_structure := rx_consumed_structure tx; rx_reclaimed_blocks := rx_reclaimed_blocks tx;
     rx_planned_allocations := planned; rx_stats := rx_stats tx |}.
Definition set_rx_stats (stats : ReclaimStats) (tx : ReclaimTx) : ReclaimTx :=
  {| rx_oldest_protected_generation := rx_oldest_protected_generation tx; rx_committed_root_lba := rx_committed_root_lba tx;
     rx_new_generation := rx_new_generation tx; rx_root := rx_root tx; rx_appends := rx_appends tx; rx_promoted := rx_promoted tx;
     rx_consumed_structure := rx_consumed_structure tx; rx_reclaimed_blocks := rx_reclaimed_blocks tx;
     rx_planned_allocations := rx_planned_allocations tx; rx_stats := stats |}.

Definition set_cursor (segment entry block : Z) (r : ReclaimRoot) : ReclaimRoot :=
  {| rt_pending_blocks := rt_pending_blocks r; rt_appended_blocks_total := rt_appended_blocks_total r;
     rt_reclaimed_blocks_total := rt_reclaimed_blocks_total r; rt_head_segment_offset := segment;
     rt_head_entry_offset := entry; rt_head_block_offset := block; rt_caps := rt_caps r;
     rt_table_refs := rt_table_refs r; rt_segment_refs := rt_segment_refs r; rt_inline_entries := rt_inline_entries r |}.
Definition set_areas (tables : list TableRef) (segments : list SegmentRef) (inline : list ReclaimEntry) (r : ReclaimRoot) : ReclaimRoot :=
  {| rt_pending_blocks := rt_pending_blocks r; rt_appended_blocks_total := rt_appended_blocks_total r;
     rt_reclaimed_blocks_total := rt_reclaimed_blocks_total r; rt_head_segment_offset := rt_head_segment_offset r;
     rt_head_entry_offset := rt_head_entry_offset r; rt_head_block_offset := rt_head_block_offset r; rt_caps := rt_caps r;
     rt_table_refs := tables; rt_segment_refs := segments; rt_inline_entries := inline |}.
Definition set_totals (pending appended reclaimed : Z) (r : ReclaimRoot) : ReclaimRoot :=
  {| rt_pending_blocks := pending; rt_appended_blocks_total := appended;
     rt_reclaimed_blocks_total := reclaimed; rt_head_segment_offset := rt_head_segment_offset r;
     rt_head_entry_offset := rt_head_entry_offset r; rt_head_block_offset := rt_head_block_offset r; rt_caps := rt_caps r;
     rt_table_refs := rt_table_refs r; rt_segment_refs := rt_segment_refs r; rt_inline_entries := rt_inline_entries r |}.

Definition set_blocked (s : ReclaimStats) : ReclaimStats :=
  {| rs_blocked_by_checkpoint := true; rs_entries_appended := rs_entries_appended s; rs_segments_sealed := rs_segments_sealed s;
     rs_tables_sealed := rs_tables_sealed s; rs_structure_blocks_written := rs_structure_blocks_written s;
     rs_structure_blocks_retired := rs_structure_blocks_retired s; rs_pending_blocks_after := rs_pending_blocks_after s |}.
Definition set_folded (appended retired : Z) (s : ReclaimStats) : ReclaimStats :=
  {| rs_blocked_by_checkpoint := rs_blocked_by_checkpoint s; rs_entries_appended := appended; rs_segments_sealed := rs_segments_sealed s;
     rs_tables_sealed := rs_tables_sealed s; rs_structure_blocks_written := rs_structure_blocks_written s;
     rs_structure_blocks_retired := retired; rs_pending_blocks_after := rs_pending_blocks_after s |}.
Definition set_sealed (segments tables : Z) (s : ReclaimStats) : ReclaimStats :=
  {| rs_blocked_by_checkpoint := rs_blocked_by_checkpoint s; rs_entries_appended := rs_entries_appended s; rs_segments_sealed := segments;
     rs_tables_sealed := tables; rs_structure_blocks_written := rs_structure_blocks_written s;
     rs_structure_blocks_retired := rs_structure_blocks_retired s; rs_pending_blocks_after := rs_pending_blocks_after s |}.
Definition set_written (written pending : Z) (s : ReclaimStats) : ReclaimStats :=
  {| rs_blocked_by_checkpoint := rs_blocked_by_checkpoint s; rs_entries_appended := rs_entries_appended s; rs_segments_sealed := rs_segments_sealed s;
     rs_tables_sealed := rs_tables_sealed s; rs_structure_blocks_written := written;
     rs_structure_blocks_retired := rs_structure_blocks_retired s; rs_pending_blocks_after := pending |}.

(** ** Runs and the blocks of the queue *)

Definition validate_run (geo : Geometry) (entry : ReclaimEntry) : outcome CoreError unit :=
  let* e := of_format (ReclaimEntry_end entry) in
  let* ok := if total_blocks geo <? e then Ok false else of_format (is_allocatable geo (re_start entry)) in
  if negb ok then Err (Corrupt "reclaim run outside allocatable bounds") else
  let* first := of_format (region_of geo (re_start entry)) in
  let* last := sub_w e 1 in
  let* last := of_format (region_of geo last) in
  if negb (first =? last) then Err (Corrupt "reclaim run crosses a region boundary") else
  Ok tt.

Definition check_entry (geo : Geometry) (committed_generation : Z) (_ : unit) (entry : ReclaimEntry) : outcome CoreError unit :=
  do* validate_run geo entry in
  if committed_generation <? re_retire_generation entry then Err (Corrupt "reclaim entry generation is from the future") else
  Ok tt.

Definition check_structure (geo : Geometry) (what : string) (_ : unit) (lba : Z) : outcome CoreError unit :=
  let* ok := of_format (is_allocatable geo lba) in
  if negb ok then Err (Corrupt what) else Ok tt.

Section Engine.
Context {D : Type} {device : BlockDevice Decoded D}.

Definition read_root (geo : Geometry) (root_lba committed_generation : Z) : io D CoreError ReclaimRoot :=
  let! ok := ilift (of_format (is_allocatable geo root_lba)) in
  if negb ok then ierr (Corrupt "reclaim root block outside allocatable bounds") else
  let! '(root, generation) := read_decoded "reclaim root" ReclaimRoot_decode root_lba (block_size geo) in
  if committed_generation <? generation then ierr (Corrupt "reclaim root generation is from the future") else
  do! ilift (ofold (check_entry geo committed_generation) tt (rt_inline_entries root)) in
  do! ilift (ofold (check_structure geo "reclaim structure block outside allocatable bounds") tt
               (map tb_lba (rt_table_refs root) ++ map sg_lba (rt_segment_refs root))) in
  iret root.

Definition read_segment (geo : Geometry) (reference : SegmentRef) (committed_generation : Z) : io D CoreError (list ReclaimEntry) :=
  let! '(entries, generation) := read_decoded "reclaim segment" ReclaimSegment_decode (sg_lba reference) (block_size geo) in
  if (committed_generation <? generation) || negb (zlen entries =? sg_entry_count reference) then
    ierr (Corrupt "reclaim segment does not match its reference") else
  do! ilift (ofold (check_entry geo committed_generation) tt entries) in
  iret entries.

Definition read_table (geo : Geometry) (reference : TableRef) (committed_generation : Z) : io D CoreError (list SegmentRef) :=
  let! '(refs, generation) := read_decoded "reclaim table" ReclaimTable_decode (tb_lba reference) (block_size geo) in
  if (committed_generation <? generation) || negb (zlen refs =? tb_ref_count reference) then
    ierr (Corrupt "reclaim table does not match its reference") else
  do! ilift (ofold (check_structure geo "reclaim segment block outside allocatable bounds") tt (map sg_lba refs)) in
  iret refs.

(** ** Consuming the head *)

Definition with_dev {A} (m : io D CoreError A) : io (D * ReclaimTx) CoreError A := izoom fst (fun d s => (d, snd s)) m.
Definition with_tx {A} (m : io ReclaimTx CoreError A) : io (D * ReclaimTx) CoreError A := izoom snd (fun t s => (fst s, t)) m.

Definition promote (start blocks retire_generation : Z) : io ReclaimTx CoreError unit :=
  let! tx := iget id in
  let! reclaimed := ilift (add_w 64 (rx_reclaimed_blocks tx) blocks) in
  imodify (set_rx_promoted
    (rx_promoted tx ++ [{| pr_start := start; pr_blocks := blocks; pr_retire_generation := retire_generation |}]) reclaimed).

Definition on_root (f : ReclaimRoot -> ReclaimRoot) : io ReclaimTx CoreError unit :=
  imodify (fun tx => set_rx_root (f (rx_root tx)) tx).

(** The loop of [consume_segment] over the entries from the cursor on.  An
    entry that is not used up used up the budget instead. *)
Fixpoint consume_entries (entries : list ReclaimEntry) (budget : Z) : io ReclaimTx CoreError Z :=
  match entries with
  | [] => iret budget
  | entry :: entries =>
      if budget =? 0 then iret budget else
      let! tx := iget id in
      let root := rx_root tx in
      if re_blocks entry <=? rt_head_block_offset root then ierr (Corrupt "reclaim cursor beyond the head run") else
      if rx_oldest_protected_generation tx <? re_retire_generation entry then
        do! imodify (fun tx => set_rx_stats (set_blocked (rx_stats tx)) tx) in iret budget
      else
      let take := as_u32 (Z.min (re_blocks entry - rt_head_block_offset root) budget) in
      let! start := ilift (add_w 64 (re_start entry) (rt_head_block_offset root)) in
      do! promote start take (re_retire_generation entry) in
      let budget := budget - take in
      let! offset := ilift (add_w 32 (rt_head_block_offset root) take) in
      if offset =? re_blocks entry then
        do! on_root (set_cursor (rt_head_segment_offset root) (rt_head_entry_offset root + 1) 0) in
        consume_entries entries budget
      else
        do! on_root (set_cursor (rt_head_segment_offset root) (rt_head_entry_offset root) offset) in
        iret budget
  end.

Definition consume_segment (geo : Geometry) (segment_ref : SegmentRef) (committed_generation budget : Z) :
    io (D * ReclaimTx) CoreError (bool * Z) :=
  let! entries := with_dev (read_segment geo segment_ref committed_generation) in
  let! root := iget (fun s => rx_root (snd s)) in
  if zlen entries <=? rt_head_entry_offset root then ierr (Corrupt "reclaim cursor beyond the head segment") else
  let! budget := with_tx (consume_entries (drop (Z.to_nat (rt_head_entry_offset root)) entries) budget) in
  let! root := iget (fun s => rx_root (snd s)) in
  iret (rt_head_entry_offset root =? zlen entries, budget).

Definition finish_segment (lba segment : Z) : io ReclaimTx CoreError unit :=
  imodify (fun tx => set_rx_root (set_cursor segment 0 0 (rx_root tx)) (set_rx_consumed (rx_consumed_structure tx ++ [lba]) tx)).

Definition finish_table (lba : Z) : io ReclaimTx CoreError unit :=
  imodify (fun tx =>
    let root := rx_root tx in
    set_rx_root (set_cursor 0 (rt_head_entry_offset root) (rt_head_block_offset root)
      (set_areas (drop 1 (rt_table_refs root)) (rt_segment_refs root) (rt_inline_entries root) root))
      (set_rx_consumed (rx_consumed_structure tx ++ [lba]) tx)).

Definition drop_segment : io ReclaimTx CoreError unit :=
  on_root (fun root => set_areas (rt_table_refs root) (drop 1 (rt_segment_refs root)) (rt_inline_entries root) root).

Definition consume_inline (entry : ReclaimEntry) (inline : list ReclaimEntry) (budget : Z) : io ReclaimTx CoreError Z :=
  let take := as_u32 (Z.min (re_blocks entry) budget) in
  do! promote (re_start entry) take (re_retire_generation entry) in
  let! start := ilift (add_w 64 (re_start entry) take) in
  let rest := if re_blocks entry - take =? 0 then inline else
    {| re_start := start; re_blocks := re_blocks entry - take; re_retire_generation := re_retire_generation entry |} :: inline in
  do! on_root (fun root => set_areas (rt_table_refs root) (rt_segment_refs root) rest root) in
  iret (budget - take).

(** Every turn that goes on uses up one segment or one inline entry. *)
Fixpoint consume (fuel : nat) (geo : Geometry) (committed_generation budget : Z) : io (D * ReclaimTx) CoreError unit :=
  match fuel with
  | O => ilift Panic
  | S fuel =>
      if budget =? 0 then iret tt else
      let! tx := iget snd in
      let root := rx_root tx in
      match rt_table_refs root, rt_segment_refs root, rt_inline_entries root with
      | table_ref :: _, _, _ =>
          let! refs := with_dev (read_table geo table_ref committed_generation) in
          match refs !! Z.to_nat (rt_head_segment_offset root) with
          | None => ilift Panic
          | Some segment_ref =>
              let! '(finished, budget) := consume_segment geo segment_ref committed_generation budget in
              if (finished : bool) then
                let! segment := ilift (add_w 32 (rt_head_segment_offset root) 1) in
                do! with_tx (finish_segment (sg_lba segment_ref) segment) in
                do! (if segment =? zlen refs then with_tx (finish_table (tb_lba table_ref)) else iret tt) in
                consume fuel geo committed_generation budget
              else iret tt
          end
      | [], segment_ref :: _, _ =>
          let! '(finished, budget) := consume_segment geo segment_ref committed_generation budget in
          if (finished : bool) then
            do! with_tx (finish_segment (sg_lba segment_ref) (rt_head_segment_offset root)) in
            do! with_tx drop_segment in
            consume fuel geo committed_generation budget
          else iret tt
      | [], [], entry :: inline =>
          if rx_oldest_protected_generation tx <? re_retire_generation entry then
            with_tx (imodify (fun tx => set_rx_stats (set_blocked (rx_stats tx)) tx))
          else
            let! budget := with_tx (consume_inline entry inline budget) in
            consume fuel geo committed_generation budget
      | [], [], [] => iret tt
      end
  end.

Definition consume_fuel (root : ReclaimRoot) : nat :=
  S (Z.to_nat (foldr (fun t n => tb_ref_count t + n) 0 (rt_table_refs root) + zlen (rt_segment_refs root) + zlen (rt_inline_entries root))).

(** [ReclaimTx::begin_inner]. *)
Definition ReclaimTx_begin (geo : Geometry) (committed_root_lba committed_generation new_generation oldest_protected_generation batch_blocks : Z) :
    io D CoreError ReclaimTx :=
  if (oldest_protected_generation =? 0) || (committed_generation <? oldest_protected_generation) then
    ierr (Corrupt "invalid protected checkpoint generation") else
  let! root := read_root geo committed_root_lba committed_generation in
  let tx :=
    {| rx_oldest_protected_generation := oldest_protected_generation; rx_committed_root_lba := committed_root_lba;
       rx_new_generation := new_generation; rx_root := root; rx_appends := []; rx_promoted := [];
       rx_consumed_structure := []; rx_reclaimed_blocks := 0; rx_planned_allocations := None;
       rx_stats := ReclaimStats_default |} in
  fun d =>
    match consume (consume_fuel root) geo committed_generation batch_blocks (d, tx) with
    | (s, Ok _) => (fst s, Ok (snd s))
    | (s, Err e) => (fst s, Err e)
    | (s, Panic) => (fst s, Panic)
    end.
End Engine.

(** ** Appending *)

Definition append_run (geo : Geometry) (start blocks : Z) : io ReclaimTx CoreError unit :=
  let! tx := iget id in
  let entry := {| re_start := start; re_blocks := blocks; re_retire_generation := rx_new_generation tx |} in
  do! ilift (validate_run geo entry) in
  imodify (set_rx_appends (rx_appends tx ++ [entry])).

(** [while len > cap { len -= chunk.min(len); sealed += 1 }]. *)
Fixpoint sealings (fuel : nat) (cap chunk len sealed : Z) : Z * Z :=
  match fuel with
  | O => (len, sealed)
  | S fuel => if cap <? len then sealings fuel cap chunk (len - Z.min chunk len) (sealed + 1) else (len, sealed)
  end.

(** [ReclaimTx::plan_inner]. *)
Definition plan : io ReclaimTx CoreError Z :=
  let! tx := iget id in
  match rx_planned_allocations tx with
  | Some _ => ierr (Corrupt "reclaim rebuild planned twice")
  | None =>
      let retired := rx_consumed_structure tx ++ [rx_committed_root_lba tx] in
      let appends := rx_appends tx ++
        map (fun lba => {| re_start := lba; re_blocks := 1; re_retire_generation := rx_new_generation tx |}) retired in
      do! imodify (fun tx => set_rx_consumed [] (set_rx_appends appends
                     (set_rx_stats (set_folded (zlen appends) (zlen retired) (rx_stats tx)) tx))) in
      let root := rx_root tx in
      let caps := rt_caps root in
      let inline_len := zlen (rt_inline_entries root) + zlen appends in
      let '(_, segments_sealed) := sealings (Z.to_nat inline_len) (rc_inline_entries caps) SEGMENT_ENTRY_CAP inline_len 0 in
      let refs_len := zlen (rt_segment_refs root) + segments_sealed in
      let '(_, tables_sealed) := sealings (Z.to_nat refs_len) (rc_segment_refs caps) TABLE_REF_CAP refs_len 0 in
      if rc_table_refs caps <? zlen (rt_table_refs root) + tables_sealed then
        ierr (PrototypeLimit "reclaim backlog exceeds prototype capacity") else
      let allocations := segments_sealed + tables_sealed + 1 in
      do! imodify (set_rx_planned (Some allocations)) in
      iret allocations
  end.

(** ** Rebuilding *)

Definition next_lba (lbas : list Z) : outcome CoreError (Z * list Z) :=
  match lbas with lba :: lbas => Ok (lba, lbas) | [] => Panic end.

(** What the sealing loops thread: the items not sealed yet, the blocks left,
    the references to sealed blocks and the writes. *)
Record Sealing (X Y : Type) := { se_items : list X; se_lbas : list Z; se_refs : list Y; se_writes : list (Z * bytes) }.
Arguments Build_Sealing {X Y}.
Arguments se_items {X Y}.
Arguments se_lbas {X Y}.
Arguments se_refs {X Y}.
Arguments se_writes {X Y}.

(** [while items.len() > cap { seal the first chunk }]; both loops of [build_inner]. *)
Fixpoint seal_chunks {X Y} (fuel : nat) (cap chunk : Z) (encode : list X -> result bytes) (reference : Z -> list X -> Y)
    (st : Sealing X Y) : outcome CoreError (Sealing X Y) :=
  match fuel with
  | O => Ok st
  | S fuel =>
      if cap <? zlen (se_items st) then
        let take := Z.min chunk (zlen (se_items st)) in
        let items := sub (se_items st) 0 take in
        let* '(lba, lbas) := next_lba (se_lbas st) in
        let* block := of_format (encode items) in
        seal_chunks fuel cap chunk encode reference
          {| se_items := sub (se_items st) take (zlen (se_items st)); se_lbas := lbas;
             se_refs := se_refs st ++ [reference lba items]; se_writes := se_writes st ++ [(lba, block)] |}
      else Ok st
  end.

Definition segment_reference (lba : Z) (entries : list ReclaimEntry) : SegmentRef :=
  {| sg_lba := lba; sg_entry_count := as_u32 (zlen entries) |}.
Definition table_reference (lba : Z) (refs : list SegmentRef) : TableRef :=
  {| tb_lba := lba; tb_ref_count := as_u32 (zlen refs) |}.

Definition sum_blocks (sum : Z) (entry : ReclaimEntry) : outcome CoreError Z :=
  ok_or (checked_add 64 sum (re_blocks entry)) (Corrupt "reclaim append total overflows").

(** [ReclaimTx::build_inner]. *)
Definition build (geo : Geometry) (tx : ReclaimTx) (lbas : list Z) : outcome CoreError ReclaimBuild :=
  let* planned := ok_or (rx_planned_allocations tx) (Corrupt "reclaim rebuild was not planned") in
  if negb (zlen lbas =? planned) then Err (Corrupt "reclaim rebuild allocation count mismatch") else
  let root := rx_root tx in
  let caps := rt_caps root in
  let* appended_blocks := ofold sum_blocks 0 (rx_appends tx) in
  let combined := rt_inline_entries root ++ rx_appends tx in
  let encode_segment entries := ReclaimSegment_encode entries (block_size geo) (rx_new_generation tx) in
  let* s := seal_chunks (length combined) (rc_inline_entries caps) SEGMENT_ENTRY_CAP encode_segment segment_reference
    {| se_items := combined; se_lbas := lbas; se_refs := rt_segment_refs root; se_writes := [] |} in
  let encode_table refs := ReclaimTable_encode refs (block_size geo) (rx_new_generation tx) in
  let* t := seal_chunks (length (se_refs s)) (rc_segment_refs caps) TABLE_REF_CAP encode_table table_reference
    {| se_items := se_refs s; se_lbas := se_lbas s; se_refs := rt_table_refs root; se_writes := se_writes s |} in
  let* appended_total := ok_or (checked_add 64 (rt_appended_blocks_total root) appended_blocks)
    (Corrupt "reclaim appended total overflows") in
  let* reclaimed_total := ok_or (checked_add 64 (rt_reclaimed_blocks_total root) (rx_reclaimed_blocks tx))
    (Corrupt "reclaim reclaimed total overflows") in
  let* pending := ok_or (checked_sub appended_total reclaimed_total) (Corrupt "reclaimed more blocks than appended") in
  let root := set_totals pending appended_total reclaimed_total (set_areas (se_refs t) (se_items t) (se_items s) root) in
  let* '(root_lba, _) := next_lba (se_lbas t) in
  let* block := of_format (ReclaimRoot_encode root (block_size geo) (rx_new_generation tx)) in
  let writes := se_writes t ++ [(root_lba, block)] in
  let stats := rx_stats tx in
  let stats := set_sealed (rs_segments_sealed stats + zlen (se_writes s)) (rs_tables_sealed stats + (zlen (se_writes t) - zlen (se_writes s))) stats in
  Ok {| rb_root_lba := root_lba; rb_writes := writes; rb_pending_blocks := pending;
        rb_stats := set_written (zlen writes) pending stats |}.

(** ** The exhaustive walk *)

Record LoadedReclaim := { lr_runs : list ReclaimEntry; lr_structure_blocks : list Z; lr_pending_blocks : Z }.

(** The entries of a segment from the cursor on. *)
Definition entries_from (entries : list ReclaimEntry) (entry_offset block_offset : Z) : outcome CoreError (list ReclaimEntry) :=
  if (zlen entries <? entry_offset) || ((entry_offset =? zlen entries) && negb (block_offset =? 0)) then
    Err (Corrupt "reclaim cursor beyond the head segment") else
  match drop (Z.to_nat entry_offset) entries with
  | [] => Ok []
  | entry :: entries =>
      if block_offset =? 0 then Ok (entry :: entries) else
      if re_blocks entry <=? block_offset then Err (Corrupt "reclaim cursor beyond the head run") else
      let* start := add_w 64 (re_start entry) block_offset in
      Ok ({| re_start := start; re_blocks := re_blocks entry - block_offset; re_retire_generation := re_retire_generation entry |} :: entries)
  end.

Definition count_blocks (sum : Z) (run : ReclaimEntry) : outcome CoreError Z :=
  ok_or (checked_add 64 sum (re_blocks run)) (Corrupt "reclaim pending total overflows").

Section Walk.
Context {D : Type} {device : BlockDevice Decoded D}.

Definition push_segment (geo : Geometry) (committed_generation : Z) (acc : list ReclaimEntry * list Z) (reference : SegmentRef)
    (entry_offset block_offset : Z) : io D CoreError (list ReclaimEntry * list Z) :=
  let! entries := read_segment geo reference committed_generation in
  let! entries := ilift (entries_from entries entry_offset block_offset) in
  iret (fst acc ++ entries, snd acc ++ [sg_lba reference]).

(** The cursor applies to the first segment only. *)
Fixpoint push_segments (geo : Geometry) (committed_generation : Z) (acc : list ReclaimEntry * list Z) (refs : list SegmentRef)
    (entry_offset block_offset : Z) : io D CoreError (list ReclaimEntry * list Z) :=
  match refs with
  | [] => iret acc
  | reference :: refs =>
      let! acc := push_segment geo committed_generation acc reference entry_offset block_offset in
      push_segments geo committed_generation acc refs 0 0
  end.

Fixpoint push_tables (geo : Geometry) (committed_generation : Z) (acc : list ReclaimEntry * list Z) (tables : list TableRef)
    (segment_offset entry_offset block_offset : Z) : io D CoreError (list ReclaimEntry * list Z) :=
  match tables with
  | [] => iret acc
  | table_ref :: tables =>
      let! refs := read_table geo table_ref committed_generation in
      let! acc := push_segments geo committed_generation (fst acc, snd acc ++ [tb_lba table_ref])
                    (drop (Z.to_nat segment_offset) refs) entry_offset block_offset in
      push_tables geo committed_generation acc tables 0 0 0
  end.

(** [load_all]. *)
Definition load_queue (geo : Geometry) (root_lba committed_generation : Z) : io D CoreError LoadedReclaim :=
  let! root := read_root geo root_lba committed_generation in
  let! acc := push_tables geo committed_generation ([], [root_lba]) (rt_table_refs root)
                (rt_head_segment_offset root) (rt_head_entry_offset root) (rt_head_block_offset root) in
  let '(entry_offset, block_offset) :=
    match rt_table_refs root with [] => (rt_head_entry_offset root, rt_head_block_offset root) | _ => (0, 0) end in
  let! acc := push_segments geo committed_generation acc (rt_segment_refs root) entry_offset block_offset in
  let runs := fst acc ++ rt_inline_entries root in
  let! counted := ilift (ofold count_blocks 0 runs) in
  if negb (counted =? rt_pending_blocks root) then ierr (Corrupt "reclaim root pending count differs from the queue") else
  iret {| lr_runs := runs; lr_structure_blocks := snd acc; lr_pending_blocks := rt_pending_blocks root |}.

Fixpoint covers (runs : list ReclaimEntry) (lba : Z) : outcome CoreError bool :=
  match runs with
  | [] => Ok false
  | run :: runs =>
      if lba <? re_start run then covers runs lba else
      let* e := of_format (ReclaimEntry_end run) in
      if lba <? e then Ok true else covers runs lba
  end.

(** [contains]. *)
Definition queue_contains (geo : Geometry) (root_lba committed_generation lba : Z) : io D CoreError bool :=
  let! loaded := load_queue geo root_lba committed_generation in
  ilift (covers (lr_runs loaded) lba).
End Walk.
