(* ===== verification/ReclaimQueue.v ===== *)
(** * The reclaim queue as a list of blocks (crates/afsplus-core/src/reclaim.rs)

    What the engine of Reclaim.v does to the queue it reads and rebuilds.
    The queue is a list of retired blocks, each with the generation that
    retired it: a batch takes the longest prefix the budget and the retained
    checkpoints allow, and a rebuild appends at the end. *)

From S2P Require Import Prelude Crc32c Format Header Codec Geometry ReclaimCodec Device Cache Core Tree TreeReaders Reclaim.

(** ** Blocks of runs *)

Definition run_blocks (e : ReclaimEntry) : list (Z * Z) := map (fun b => (b, re_retire_generation e)) (seqZ (re_start e) (re_blocks e)).
Definition queue_blocks (runs : list ReclaimEntry) : list (Z * Z) := concat (map run_blocks runs).
Definition promoted_entry (p : PromotedRun) : ReclaimEntry :=
  {| re_start := pr_start p; re_blocks := pr_blocks p; re_retire_generation := pr_retire_generation p |}.
Definition promoted_blocks (promoted : list PromotedRun) : list (Z * Z) := queue_blocks (map promoted_entry promoted).

Lemma queue_blocks_cons e runs : queue_blocks (e :: runs) = run_blocks e ++ queue_blocks runs.
Proof. done. Qed.

Lemma queue_blocks_app a b : queue_blocks (a ++ b) = queue_blocks a ++ queue_blocks b.
Proof. unfold queue_blocks. by rewrite map_app, concat_app. Qed.

Lemma promoted_blocks_app a b : promoted_blocks (a ++ b) = promoted_blocks a ++ promoted_blocks b.
Proof. unfold promoted_blocks. by rewrite map_app, queue_blocks_app. Qed.

Lemma zlen_run_blocks e : 0 <= re_blocks e -> zlen (run_blocks e) = re_blocks e.
Proof. intros. unfold run_blocks. rewrite zlen_map. unfold zlen. rewrite length_seqZ. lia. Qed.

(** A run from its [o]-th block on. *)
Lemma drop_run_blocks o e :
  0 <= o <= re_blocks e ->
  drop (Z.to_nat o) (run_blocks e) =
  run_blocks {| re_start := re_start e + o; re_blocks := re_blocks e - o; re_retire_generation := re_retire_generation e |}.
Proof.
  intros. unfold run_blocks; cbn [re_start re_blocks re_retire_generation]. rewrite skipn_map. f_equal.
  replace (re_blocks e) with (o + (re_blocks e - o)) at 1 by lia. rewrite seqZ_app by lia.
  by rewrite drop_app_length' by (rewrite length_seqZ; lia).
Qed.

Lemma split_run_blocks o n e :
  0 <= o -> 0 <= n -> o + n <= re_blocks e ->
  drop (Z.to_nat o) (run_blocks e) =
  run_blocks {| re_start := re_start e + o; re_blocks := n; re_retire_generation := re_retire_generation e |} ++
  drop (Z.to_nat (o + n)) (run_blocks e).
Proof.
  intros. rewrite !drop_run_blocks by lia. unfold run_blocks; cbn [re_start re_blocks re_retire_generation].
  rewrite <- map_app. f_equal. replace (re_start e + (o + n)) with (re_start e + o + n) by lia.
  rewrite <- seqZ_app by lia. f_equal. lia.
Qed.

(** Every run of a list has a block. *)
Definition runs_full (runs : list ReclaimEntry) : Prop := Forall (fun e => 0 < re_blocks e) runs.

Lemma queue_blocks_nil runs : runs_full runs -> queue_blocks runs = [] -> runs = [].
Proof.
  destruct runs as [|e runs]; [done|]. intros [He _]%Forall_cons_1 H. rewrite queue_blocks_cons in H.
  apply app_eq_nil in H as [H _]. apply (f_equal zlen) in H. rewrite zlen_run_blocks, zlen_nil in H; lia.
Qed.

(** ** What the blocks of a volume hold *)

Section Queue.
Context (geo : Geometry) {WF : WfGeometry geo}.

Lemma allocatable_pos lba : 0 <= lba -> allocatable geo lba = true -> 0 < lba < total_blocks geo.
Proof.
  intros H0 [Hlt Hh]%andb_prop. apply Z.ltb_lt in Hlt. split; [|done].
  destruct (decide (lba = 0)) as [E|]; [|lia]. rewrite E, Zmod_0_l in Hh. apply Z.leb_le in Hh.
  pose proof (head_bounds geo (wf_region (g := geo)) (wf_total (g := geo)) (0 / region_size geo)
    ltac:(rewrite Zdiv_0_l; pose proof (regions_pos geo (wf_region (g := geo)) (wf_total (g := geo))); lia)). lia.
Qed.

(** A run the readers accept in a state of generation [g]. *)
Definition run_ok (g : Z) (e : ReclaimEntry) : Prop := check_entry geo g tt e = Ok tt.

Lemma wp_validate_run e (Q : unit -> Prop) (R : CoreError -> Prop) :
  0 <= re_start e -> 0 <= re_blocks e ->
  (allocatable geo (re_start e) = true -> re_start e + re_blocks e <= total_blocks geo ->
   re_start e / region_size geo = (re_start e + re_blocks e - 1) / region_size geo -> Q tt) ->
  (forall what, R (Corrupt what)) -> (forall f, R (CFormat f)) -> wp (validate_run geo e) Q R.
Proof.
  intros Hs Hb HQ HR HF. unfold validate_run, ReclaimEntry_end.
  apply wp_bind, wp_of_format, wp_checked_add; [intros Hfit|by intros].
  apply wp_bind. destruct (total_blocks geo <? re_start e + re_blocks e) eqn:Ht; [apply wp_ok, wp_err, HR|].
  rewrite (is_allocatable_eq geo) by done. cbn [of_format wp]. destruct (allocatable geo (re_start e)) eqn:Ha; cbn [negb]; [|apply wp_err, HR].
  pose proof (allocatable_pos _ Hs Ha) as Hin.
  rewrite (region_of_eq geo (re_start e)) by lia. cbn [of_format obind]. apply wp_bind, wp_sub_w; [lia|].
  apply Z.ltb_ge in Ht. rewrite (region_of_eq geo (re_start e + re_blocks e - 1)) by lia. cbn [of_format obind].
  apply wp_if; intros Hr; [apply wp_err, HR|]. apply wp_ok, HQ; [done|done|lia].
Qed.

Lemma check_entry_total g e : 0 <= re_start e -> 0 <= re_blocks e -> check_entry geo g tt e <> Panic.
Proof.
  intros. refine (wp_not_panic _ (fun _ => True) any_error _). unfold check_entry.
  apply wp_bind, wp_validate_run; [done|done| |done|done]. intros. by apply wp_if.
Qed.

(** What the acceptance of a run says of it. *)
Lemma run_ok_inv g e :
  entry_typed e -> run_ok g e ->
  allocatable geo (re_start e) = true /\ re_start e + re_blocks e <= total_blocks geo /\
  re_start e / region_size geo = (re_start e + re_blocks e - 1) / region_size geo /\ re_retire_generation e <= g.
Proof.
  unfold entry_typed, u64, u32. intros (Hs & Hb & _) Hok. refine (wp_of_ok (check_entry geo g tt e) tt (fun _ => _) any_error _ Hok).
  unfold check_entry. apply wp_bind, wp_validate_run; [lia|lia| |done|done]. intros. apply wp_if; [done|]. intros. apply wp_ok. split_and!; [done..|lia].
Qed.

Lemma run_ok_intro g e :
  0 <= re_start e -> 0 <= re_blocks e -> allocatable geo (re_start e) = true -> re_start e + re_blocks e <= total_blocks geo ->
  re_start e / region_size geo = (re_start e + re_blocks e - 1) / region_size geo -> re_retire_generation e <= g -> run_ok g e.
Proof.
  intros Hs Hb Ha Hend Hreg Hg. pose proof (wf_total (g := geo)) as Htb. unfold run_ok, check_entry, validate_run, ReclaimEntry_end, checked_add.
  replace (_ <? 2 ^ 64) with true by lia. cbn [ok_or of_format obind]. replace (total_blocks geo <? _) with false by lia.
  rewrite (is_allocatable_eq geo) by done. rewrite Ha. cbn [of_format obind negb]. pose proof (allocatable_pos _ Hs Ha).
  rewrite (region_of_eq geo (re_start e)) by lia. cbn [of_format obind]. unfold sub_w. replace (1 <=? _) with true by lia. cbn [obind].
  rewrite (region_of_eq geo (re_start e + re_blocks e - 1)) by lia. cbn [of_format obind]. rewrite Hreg, Z.eqb_refl. cbn [negb obind].
  by replace (g <? _) with false by lia.
Qed.

Lemma same_region a b x : a <= x -> x <= b -> a / region_size geo = b / region_size geo -> x / region_size geo = a / region_size geo.
Proof.
  intros Ha Hb He. pose proof (wf_region (g := geo)). pose proof (Z.div_le_mono a x (region_size geo) ltac:(lia) Ha).
  pose proof (Z.div_le_mono x b (region_size geo) ltac:(lia) Hb). lia.
Qed.

Lemma allocatable_shift a b :
  allocatable geo a = true -> a <= b < total_blocks geo -> b / region_size geo = a / region_size geo -> allocatable geo b = true.
Proof.
  unfold allocatable. intros [_ Hh]%andb_prop Hb Hd. rewrite Hd. pose proof (wf_region (g := geo)).
  pose proof (Z.div_mod a (region_size geo) ltac:(lia)). pose proof (Z.div_mod b (region_size geo) ltac:(lia)).
  apply andb_true_intro. split; [lia|]. apply Z.leb_le in Hh. apply Z.leb_le. rewrite Hd in *. lia.
Qed.

Lemma wp_each {E X} (f : unit -> X -> outcome E unit) (l : list X) (Q : unit -> Prop) (R : E -> Prop) :
  Forall (fun x => f tt x <> Panic) l ->
  (Forall (fun x => f tt x = Ok tt) l -> Q tt) -> (~ Forall (fun x => f tt x = Ok tt) l -> forall e, R e) ->
  wp (ofold f tt l) Q R.
Proof.
  revert Q R. induction l as [|x l IH]; intros Q R Hp HQ HR; [by apply wp_ok, HQ|]. apply Forall_cons in Hp as [Hx Hp]. cbn [ofold].
  apply wp_bind. destruct (f tt x) as [[]|e|] eqn:Hf; [|apply wp_err, HR; intros H%Forall_inv; congruence|done].
  apply wp_ok, IH; [done| |].
  - intros HF. apply HQ. by constructor.
  - intros HF. apply HR. intros H%Forall_inv_tail. done.
Qed.

Section Volume.
Context (v : Z -> bytes) (g : Z).

Definition table_at (t : TableRef) (refs : list SegmentRef) : Prop :=
  (exists gen, ReclaimTable_decode (v (tb_lba t)) = Ok (refs, gen) /\ gen <= g) /\ zlen refs = tb_ref_count t /\
  Forall (fun lba => check_structure geo "reclaim segment block outside allocatable bounds" tt lba = Ok tt) (map sg_lba refs).

Definition segment_at (s : SegmentRef) (entries : list ReclaimEntry) : Prop :=
  (exists gen, ReclaimSegment_decode (v (sg_lba s)) = Ok (entries, gen) /\ gen <= g) /\ zlen entries = sg_entry_count s /\
  Forall (run_ok g) entries.

Definition root_at (lba : Z) (root : ReclaimRoot) : Prop :=
  allocatable geo lba = true /\ (exists gen, ReclaimRoot_decode (v lba) = Ok (root, gen) /\ gen <= g /\ zlen (v lba) = block_size geo) /\
  Forall (run_ok g) (rt_inline_entries root) /\
  Forall (fun lba => check_structure geo "reclaim structure block outside allocatable bounds" tt lba = Ok tt)
    (map tb_lba (rt_table_refs root) ++ map sg_lba (rt_segment_refs root)).

Lemma table_at_fun t refs refs' : table_at t refs -> table_at t refs' -> refs = refs'.
Proof. intros [(? & H & _) _] [(? & H' & _) _]. congruence. Qed.

Lemma segment_at_fun s entries entries' : segment_at s entries -> segment_at s entries' -> entries = entries'.
Proof. intros [(? & H & _) _] [(? & H' & _) _]. congruence. Qed.

(** Sealed blocks hold typed, valid and not too many items. *)
Lemma segment_at_inv s entries :
  segment_at s entries ->
  Forall entry_typed entries /\ Forall (fun e => ReclaimEntry_validate e = Ok tt) entries /\ 1 <= zlen entries <= SEGMENT_ENTRY_CAP.
Proof.
  intros [(gen & Hd & _) _]. destruct (wp_of_ok _ _ _ _ (ReclaimSegment_decode_inv (v (sg_lba s))) Hd) as ([? _] & (? & ? & _) & _). done.
Qed.

Lemma table_at_inv t refs :
  table_at t refs -> Forall segment_typed refs /\ Forall segment_ref_ok refs /\ 1 <= zlen refs <= TABLE_REF_CAP.
Proof.
  intros [(gen & Hd & _) _]. destruct (wp_of_ok _ _ _ _ (ReclaimTable_decode_inv (v (tb_lba t))) Hd) as ([? _] & (? & ? & _) & _). done.
Qed.
End Volume.

(** ** Reading the queue *)

Section Reading.
Context {D : Type} {device : BlockDevice Decoded D} {contract : DeviceContract Decoded D core_decodes} (d0 : D) (g : Z).

Abbreviation content := (view (decodes := core_decodes)).

Lemma wpi_read_decoded {X} what (decode : bytes -> result X) d lba n :
  reads d0 d -> u64 lba -> (forall b, decode b <> Panic) ->
  wpi (read_decoded what decode lba n) d
    (fun x d' => reads d0 d' /\ zlen (content d0 lba) = n /\ decode (content d0 lba) = Ok x)
    (fun e d' => reads d0 d' /\ (only_io e \/ forall x, decode (content d0 lba) <> Ok x)).
Proof.
  intros Hr Hl Hd. unfold read_decoded. apply wpi_bind, wpi_of_block.
  eapply wpi_mono; [apply (read_contract (decodes := core_decodes)); [apply Hr|done]| |]; cbn beta.
  - intros b d' (Hi & -> & -> & Hr'). pose proof (reads_inside _ _ _ Hr Hi) as Hi0. assert (reads d0 d') as Hr2 by by eapply agree_trans.
    pose proof (ok_view d lba (proj1 Hr) Hi) as Hz. rewrite (reads_view _ _ _ Hr Hi0) in Hz |- *. apply wpi_lift. specialize (Hd (content d0 lba)).
    destruct (decode (content d0 lba)) as [x|f|]; [done| |done]. split; [done|]. by right.
  - intros e d' Hr'. split; [by eapply agree_trans|]. left. by exists e.
Qed.

Lemma check_structure_total what lba : 0 <= lba -> check_structure geo what tt lba <> Panic.
Proof. intros. unfold check_structure. rewrite (is_allocatable_eq geo) by done. cbn. by case_match. Qed.

Lemma wpi_read_segment d s :
  reads d0 d -> u64 (sg_lba s) ->
  wpi (read_segment geo s g) d
    (fun entries d' => reads d0 d' /\ segment_at (content d0) g s entries)
    (fun e d' => reads d0 d' /\ (only_io e \/ forall entries, ~ segment_at (content d0) g s entries)).
Proof.
  intros Hr Hl. unfold read_segment. apply wpi_bind.
  eapply wpi_mono; [apply wpi_read_decoded; [done|done|apply decode_total]| |]; cbn beta.
  - intros [entries gen] d1 (Hr1 & _ & Hd). apply wpi_if; intros Hc.
    { apply wpi_err. split; [done|]. right. intros es ((gen' & Hd' & Hg) & Hz & _). rewrite Hd in Hd'. injection Hd' as <- <-. lia. }
    destruct (wp_of_ok _ _ _ _ (ReclaimSegment_decode_inv _) Hd) as ([Ht _] & _).
    apply wpi_bind, wpi_lift, wp_each.
    + eapply Forall_impl; [exact Ht|]. unfold entry_typed, u64, u32. cbn beta. intros e He. apply check_entry_total; lia.
    + intros HF. apply wpi_ret. split; [done|]. split; [|split; [lia|done]]. exists gen. split; [done|lia].
    + intros HF e. split; [done|]. right. intros es ((gen' & Hd' & Hg) & Hz & HF'). rewrite Hd in Hd'. by injection Hd' as <- <-.
  - intros e d1 [? He]. split; [done|]. destruct He as [|He]; [by left|]. right. intros es ((gen & Hd & _) & _). by apply He in Hd.
Qed.

Lemma wpi_read_table d t :
  reads d0 d -> u64 (tb_lba t) ->
  wpi (read_table geo t g) d
    (fun refs d' => reads d0 d' /\ table_at (content d0) g t refs)
    (fun e d' => reads d0 d' /\ (only_io e \/ forall refs, ~ table_at (content d0) g t refs)).
Proof.
  intros Hr Hl. unfold read_table. apply wpi_bind.
  eapply wpi_mono; [apply wpi_read_decoded; [done|done|apply decode_total]| |]; cbn beta.
  - intros [refs gen] d1 (Hr1 & _ & Hd). apply wpi_if; intros Hc.
    { apply wpi_err. split; [done|]. right. intros rs ((gen' & Hd' & Hg) & Hz & _). rewrite Hd in Hd'. injection Hd' as <- <-. lia. }
    destruct (wp_of_ok _ _ _ _ (ReclaimTable_decode_inv _) Hd) as ([Ht _] & _).
    apply wpi_bind, wpi_lift, wp_each.
    + apply Forall_map. eapply Forall_impl; [exact Ht|]. unfold segment_typed, u64. cbn. intros s Hs. apply check_structure_total. lia.
    + intros HF. apply wpi_ret. split; [done|]. split; [|split; [lia|done]]. exists gen. split; [done|lia].
    + intros HF e. split; [done|]. right. intros rs ((gen' & Hd' & Hg) & Hz & HF'). rewrite Hd in Hd'. by injection Hd' as <- <-.
  - intros e d1 [? He]. split; [done|]. destruct He as [|He]; [by left|]. right. intros rs ((gen & Hd & _) & _). by apply He in Hd.
Qed.

Lemma wpi_read_root d lba :
  reads d0 d -> u64 lba ->
  wpi (read_root geo lba g) d
    (fun root d' => reads d0 d' /\ root_at (content d0) g lba root)
    (fun e d' => reads d0 d' /\ (only_io e \/ forall root, ~ root_at (content d0) g lba root)).
Proof.
  intros Hr Hl. unfold read_root. rewrite (is_allocatable_eq geo) by (unfold u64 in *; lia).
  apply wpi_bind, wpi_lift, wp_ok. apply wpi_if; intros Ha.
  { apply wpi_err. split; [done|]. right. intros root [Ha' _]. by rewrite Ha' in Ha. }
  apply negb_false_iff in Ha. apply wpi_bind.
  eapply wpi_mono; [apply wpi_read_decoded; [done|done|apply decode_total]| |]; cbn beta.
  - intros [root gen] d1 (Hr1 & Hsz & Hd). apply wpi_if; intros Hc.
    { apply wpi_err. split; [done|]. right. intros rs (_ & (gen' & Hd' & Hg & _) & _). rewrite Hd in Hd'. injection Hd' as <- <-. lia. }
    destruct (wp_of_ok _ _ _ _ (ReclaimRoot_decode_inv _) Hd) as ((_ & _ & _ & _ & _ & _ & _ & Htt & Hst & Het & _) & _).
    apply wpi_bind, wpi_lift, wp_each.
    { eapply Forall_impl; [exact Het|]. unfold entry_typed, u64, u32. cbn beta. intros e He. apply check_entry_total; lia. }
    2: { intros HF e. split; [done|]. right. intros rs (_ & (gen' & Hd' & Hg) & HF' & _). rewrite Hd in Hd'. by injection Hd' as <- <-. }
    intros HF. apply wpi_bind, wpi_lift, wp_each.
    { apply Forall_app. split; apply Forall_map.
      - eapply Forall_impl; [exact Htt|]. unfold table_typed, u64. cbn. intros s Hs. apply check_structure_total. lia.
      - eapply Forall_impl; [exact Hst|]. unfold segment_typed, u64. cbn. intros s Hs. apply check_structure_total. lia. }
    + intros HS. apply wpi_ret. split; [done|]. split; [done|]. split; [|done]. exists gen. split; [done|lia].
    + intros HS e. split; [done|]. right. intros rs (_ & (gen' & Hd' & Hg) & _ & HS'). rewrite Hd in Hd'. by injection Hd' as <- <-.
  - intros e d1 [? He]. split; [done|]. destruct He as [|He]; [by left|]. right. intros rs (_ & (gen & Hd & _) & _). by apply He in Hd.
Qed.
End Reading.

(** ** Consuming a batch *)

(** The cursor lies in the first run of a list. *)
Definition cursor_in (runs : list ReclaimEntry) (o : Z) : Prop :=
  match runs with [] => o = 0 | e :: _ => 0 <= o < re_blocks e end.

Definition run_valid (e : ReclaimEntry) : Prop := entry_typed e /\ ReclaimEntry_validate e = Ok tt.

Lemma run_valid_inv e : run_valid e -> 0 <= re_start e /\ 0 < re_blocks e < 2 ^ 32 /\ re_start e + re_blocks e < 2 ^ 64 /\ u64 (re_retire_generation e).
Proof.
  intros [(Hs & Hb & Hg) Hv]. unfold u64, u32 in *. unfold ReclaimEntry_validate, ReclaimEntry_end, checked_add in Hv.
  destruct (re_blocks e =? 0) eqn:?; [done|]. destruct (re_retire_generation e =? 0); [done|].
  destruct (_ <? _) eqn:?; [|done]. lia.
Qed.

Lemma run_valid_intro e : entry_typed e -> re_blocks e <> 0 -> re_retire_generation e <> 0 -> re_start e + re_blocks e < 2 ^ 64 -> run_valid e.
Proof.
  intros Ht ???. split; [done|]. unfold ReclaimEntry_validate, ReclaimEntry_end, checked_add.
  replace (re_blocks e =? 0) with false by lia. replace (re_retire_generation e =? 0) with false by lia.
  by replace (_ <? _) with true by lia.
Qed.

Lemma runs_valid_full runs : Forall run_valid runs -> runs_full runs.
Proof. intros H. eapply Forall_impl; [exact H|]. intros e He%run_valid_inv. lia. Qed.

Lemma cursor_in_start runs : Forall run_valid runs -> cursor_in runs 0.
Proof. destruct runs as [|e runs]; [done|]. intros [He%run_valid_inv _]%Forall_cons_1. cbn. lia. Qed.

(** What a batch leaves alone in the transaction and in the root. *)
Definition rx_same (tx tx' : ReclaimTx) : Prop :=
  rx_oldest_protected_generation tx' = rx_oldest_protected_generation tx /\ rx_committed_root_lba tx' = rx_committed_root_lba tx /\
  rx_new_generation tx' = rx_new_generation tx /\ rx_appends tx' = rx_appends tx /\
  rx_planned_allocations tx' = rx_planned_allocations tx.

Definition promoted_sound (p : PromotedRun) : Prop := 0 < pr_blocks p /\ 0 <= pr_start p /\ pr_start p + pr_blocks p < 2 ^ 64.

(** The cursor moved over [n] entries to offset [off], promoting the runs [new]. *)
Definition advanced (tx tx' : ReclaimTx) (n : nat) (off : Z) (new : list PromotedRun) : Prop :=
  rx_same tx tx' /\ rx_consumed_structure tx' = rx_consumed_structure tx /\
  rx_root tx' = set_cursor (rt_head_segment_offset (rx_root tx)) (rt_head_entry_offset (rx_root tx) + Z.of_nat n) off (rx_root tx) /\
  rx_promoted tx' = rx_promoted tx ++ new /\ rx_reclaimed_blocks tx' = rx_reclaimed_blocks tx + zlen (promoted_blocks new) /\ Forall promoted_sound new.

Definition allowed (oldest : Z) (blocks : list (Z * Z)) : Prop := Forall (fun b => snd b <= oldest) blocks.

(** Why a batch stopped: its budget is spent, or what is left is empty or protected. *)
Definition stopped_at (oldest budget : Z) (left : list (Z * Z)) : Prop :=
  budget = 0 \/ match left with [] => True | b :: _ => oldest < snd b end.

Lemma wpi_promote start blocks gen tx (Q : unit -> ReclaimTx -> Prop) R :
  rx_reclaimed_blocks tx + blocks < 2 ^ 64 ->
  Q tt (set_rx_promoted (rx_promoted tx ++ [{| pr_start := start; pr_blocks := blocks; pr_retire_generation := gen |}])
          (rx_reclaimed_blocks tx + blocks) tx) ->
  wpi (promote start blocks gen) tx Q R.
Proof. intros Hb HQ. unfold promote. apply wpi_bind, wpi_get, wpi_bind, wpi_lift, wp_add_w; done. Qed.

Lemma allowed_run oldest e n s : re_retire_generation e <= oldest ->
  allowed oldest (run_blocks {| re_start := s; re_blocks := n; re_retire_generation := re_retire_generation e |}).
Proof. intros H. unfold allowed, run_blocks. apply Forall_map, Forall_forall. done. Qed.

Lemma drop_head_run o e runs : 0 <= o <= re_blocks e ->
  drop (Z.to_nat o) (queue_blocks (e :: runs)) = drop (Z.to_nat o) (run_blocks e) ++ queue_blocks runs.
Proof. intros. rewrite queue_blocks_cons. apply drop_app_le. pose proof (zlen_run_blocks e ltac:(lia)). unfold zlen in *. lia. Qed.

(** One run of the list: all that the budget allows of it. *)
Lemma take_head_run o n e runs : 0 <= o -> 0 <= n -> o + n <= re_blocks e ->
  drop (Z.to_nat o) (queue_blocks (e :: runs)) =
  run_blocks {| re_start := re_start e + o; re_blocks := n; re_retire_generation := re_retire_generation e |} ++
  drop (Z.to_nat (o + n)) (queue_blocks (e :: runs)).
Proof.
  intros. rewrite !drop_head_run by lia. rewrite (split_run_blocks o n e) by lia. by rewrite <- app_assoc.
Qed.

Lemma used_head_run e runs : 0 <= re_blocks e -> drop (Z.to_nat (re_blocks e)) (queue_blocks (e :: runs)) = queue_blocks runs.
Proof.
  intros. rewrite drop_head_run by lia. rewrite drop_ge; [done|]. pose proof (zlen_run_blocks e ltac:(lia)). unfold zlen in *. lia.
Qed.

Definition consumed_entries (tx : ReclaimTx) (entries : list ReclaimEntry) (budget b : Z) (tx' : ReclaimTx) : Prop :=
  exists n off new, (n <= length entries)%nat /\ advanced tx tx' n off new /\ u32 off /\ 0 <= b /\
    zlen (promoted_blocks new) = budget - b /\ allowed (rx_oldest_protected_generation tx) (promoted_blocks new) /\
    (cursor_in entries (rt_head_block_offset (rx_root tx)) ->
       drop (Z.to_nat (rt_head_block_offset (rx_root tx))) (queue_blocks entries) =
         promoted_blocks new ++ drop (Z.to_nat off) (queue_blocks (drop n entries)) /\
       cursor_in (drop n entries) off /\
       stopped_at (rx_oldest_protected_generation tx) b (drop (Z.to_nat off) (queue_blocks (drop n entries)))).

Lemma advanced_step tx start take gen n off new tx' :
  promoted_sound {| pr_start := start; pr_blocks := take; pr_retire_generation := gen |} ->
  advanced (set_rx_root (set_cursor (rt_head_segment_offset (rx_root tx)) (rt_head_entry_offset (rx_root tx) + 1) 0 (rx_root tx))
    (set_rx_promoted (rx_promoted tx ++ [{| pr_start := start; pr_blocks := take; pr_retire_generation := gen |}])
       (rx_reclaimed_blocks tx + take) tx)) tx' n off new ->
  advanced tx tx' (S n) off ({| pr_start := start; pr_blocks := take; pr_retire_generation := gen |} :: new).
Proof.
  intros Ht (Hs & Hc & Hr & Hp & Hb & HF). pose proof Ht as (Htake & _). cbn in Htake. split; [exact Hs|]. split; [exact Hc|]. split; [|split; [|split; [|by constructor]]].
  - rewrite Hr. cbn. unfold set_cursor. f_equal. lia.
  - rewrite Hp. cbn. by rewrite <- app_assoc.
  - rewrite Hb. cbn [rx_reclaimed_blocks set_rx_promoted set_rx_root]. unfold promoted_blocks. cbn [map]. rewrite queue_blocks_cons, zlen_app, zlen_run_blocks by (cbn; lia). cbn. lia.
Qed.

Lemma advanced_none tx : advanced tx tx 0 (rt_head_block_offset (rx_root tx)) [].
Proof.
  split; [done|]. split; [done|]. split; [|split; [by rewrite app_nil_r|split; [by rewrite Z.add_0_r|constructor]]].
  rewrite Z.add_0_r. by destruct (rx_root tx).
Qed.

Lemma advanced_blocked tx tx' n off new :
  advanced tx tx' n off new -> advanced tx (set_rx_stats (set_blocked (rx_stats tx')) tx') n off new.
Proof. done. Qed.

Lemma consumed_none tx entries budget :
  0 <= budget -> u32 (rt_head_block_offset (rx_root tx)) ->
  (cursor_in entries (rt_head_block_offset (rx_root tx)) -> stopped_at (rx_oldest_protected_generation tx) budget
     (drop (Z.to_nat (rt_head_block_offset (rx_root tx))) (queue_blocks entries))) ->
  consumed_entries tx entries budget budget tx.
Proof.
  intros Hb Ho Hs. exists 0%nat, (rt_head_block_offset (rx_root tx)), []. split; [lia|]. split; [apply advanced_none|].
  split; [done|]. split; [done|]. split; [change (zlen (promoted_blocks [])) with 0; lia|]. split; [constructor|]. rewrite drop_0. auto.
Qed.

Lemma promoted_one start n gen :
  promoted_blocks [{| pr_start := start; pr_blocks := n; pr_retire_generation := gen |}] =
  run_blocks {| re_start := start; re_blocks := n; re_retire_generation := gen |}.
Proof. unfold promoted_blocks. cbn [map]. rewrite queue_blocks_cons. apply app_nil_r. Qed.

Lemma wpi_consume_entries entries : forall tx budget,
  Forall run_valid entries -> u32 (rt_head_block_offset (rx_root tx)) -> 0 <= budget ->
  rx_reclaimed_blocks tx + budget < 2 ^ 64 ->
  wpi (consume_entries entries budget) tx (consumed_entries tx entries budget)
    (fun _ _ => ~ cursor_in entries (rt_head_block_offset (rx_root tx))).
Proof.
  induction entries as [|e entries IH]; intros tx budget HF Ho Hb Hr; cbn [consume_entries].
  { apply wpi_ret, consumed_none; [done|done|]. intros ->. by right. }
  apply Forall_cons in HF as [He HF]. destruct (run_valid_inv e He) as (Hs0 & Hb0 & Hend & _).
  set (o := rt_head_block_offset (rx_root tx)) in *. unfold u32 in Ho.
  apply wpi_if; intros Hb1; [apply wpi_ret, consumed_none; [done|done|by left; lia]|].
  apply wpi_bind, wpi_get. cbn zeta. unfold id.
  apply wpi_if; intros Hc; [apply wpi_err; cbn; fold o in Hc; lia|]. fold o in Hc |- *.
  apply wpi_if; intros Hg.
  { apply wpi_bind, wpi_modify, wpi_ret. destruct (consumed_none tx (e :: entries) budget) as (n & off & new & ? & Ha & ?); [done|done| |].
    - intros _. right. fold o. rewrite drop_head_run, drop_run_blocks by lia. unfold run_blocks; cbn [re_start re_blocks re_retire_generation].
      rewrite seqZ_cons by lia. cbn. lia.
    - exists n, off, new. split; [done|]. split; [by apply advanced_blocked|done]. }
  rewrite as_u32_small by lia. set (k := Z.min (re_blocks e - o) budget).
  apply wpi_bind, wpi_lift, wp_add_w; [lia|]. apply wpi_bind, wpi_promote; [lia|].
  apply wpi_bind, wpi_lift, wp_add_w; [lia|].
  pose proof (take_head_run o k e entries ltac:(lia) ltac:(lia) ltac:(lia)) as Hsplit.
  apply wpi_if; intros Hfin; apply wpi_bind; unfold on_root; apply wpi_modify.
  - cbn [rx_root set_rx_promoted]. eapply wpi_mono; [apply IH; [done|by cbn|lia|cbn; lia]| |]; cbn beta.
    + intros b tx' (n & off & new & Hn & Ha & Hoff & Hb' & Hz & Hal & Hq).
      exists (S n), off, ({| pr_start := re_start e + o; pr_blocks := k; pr_retire_generation := re_retire_generation e |} :: new).
      split; [cbn; lia|]. split; [apply advanced_step; [unfold promoted_sound; cbn; lia|exact Ha]|]. split; [done|]. split; [done|].
      change (?x :: new) with ([x] ++ new). rewrite promoted_blocks_app, promoted_one, zlen_app, zlen_run_blocks by (cbn; lia).
      split; [cbn; lia|]. split; [apply Forall_app; split; [apply allowed_run; lia|exact Hal]|].
      intros _. fold o. rewrite Hsplit, <- app_assoc. replace (o + k) with (re_blocks e) by lia. rewrite used_head_run by lia.
      destruct (Hq (cursor_in_start _ HF)) as (Heq & Hci & Hst). cbn [rx_root rt_head_block_offset set_rx_root set_cursor] in Heq.
      rewrite Z2Nat.inj_0, drop_0 in Heq. rewrite Heq. done.
    + intros ? ? Hn. by destruct (Hn (cursor_in_start _ HF)).
  - apply wpi_ret. exists 0%nat, (o + k), [{| pr_start := re_start e + o; pr_blocks := k; pr_retire_generation := re_retire_generation e |}].
    rewrite promoted_one, zlen_run_blocks by (cbn; lia). split; [lia|]. split; [|split; [unfold u32; lia|]].
    { split; [done|]. split; [done|]. split; [cbn; unfold set_cursor; f_equal; lia|]. split; [done|].
      rewrite promoted_one, zlen_run_blocks by (cbn; lia). split; [done|]. constructor; [|constructor]. unfold promoted_sound; cbn; lia. }
    split; [lia|]. split; [cbn; lia|]. split; [apply allowed_run; lia|]. rewrite drop_0. fold o. intros _.
    split; [exact Hsplit|]. split; [cbn; lia|]. left. lia.
Qed.

Definition live_refs (root : ReclaimRoot) (tables : list (list SegmentRef)) : list SegmentRef :=
  drop (Z.to_nat (rt_head_segment_offset root)) (concat tables) ++ rt_segment_refs root.

Definition live_blocks (root : ReclaimRoot) (segs : list (list ReclaimEntry)) : list (Z * Z) :=
  drop (Z.to_nat (rt_head_block_offset root)) (queue_blocks (drop (Z.to_nat (rt_head_entry_offset root)) (concat segs))) ++
  queue_blocks (rt_inline_entries root).

(** The tables and segments the queue is made of, apart from its root. *)
Definition live_structure (root : ReclaimRoot) (tables : list (list SegmentRef)) : list Z :=
  map tb_lba (rt_table_refs root) ++ map sg_lba (live_refs root tables).

Definition head_cursor (root : ReclaimRoot) (segs : list (list ReclaimEntry)) : Prop :=
  match segs with
  | [] => rt_head_entry_offset root = 0 /\ rt_head_block_offset root = 0
  | es :: _ => rt_head_entry_offset root < zlen es /\
      cursor_in (drop (Z.to_nat (rt_head_entry_offset root)) es) (rt_head_block_offset root)
  end.

(** A root, with the content of the tables and segments it refers to. *)
Record live (v : Z -> bytes) (g : Z) (root : ReclaimRoot) (tables : list (list SegmentRef)) (segs : list (list ReclaimEntry)) : Prop := {
  lv_tables : Forall2 (table_at v g) (rt_table_refs root) tables;
  lv_segs : Forall2 (segment_at v g) (live_refs root tables) segs;
  lv_table_cursor : match tables with [] => rt_head_segment_offset root = 0 | refs :: _ => rt_head_segment_offset root < zlen refs end;
  lv_cursor : head_cursor root segs;
  lv_inline : Forall (run_ok g) (rt_inline_entries root);
  lv_places : Forall (fun lba => allocatable geo lba = true) (map tb_lba (rt_table_refs root) ++ map sg_lba (rt_segment_refs root));
}.

(** What holds of a root that decodes, and of the working root. *)
Record root_shape (root : ReclaimRoot) : Prop := {
  sh_cursor : u32 (rt_head_segment_offset root) /\ u32 (rt_head_entry_offset root) /\ u32 (rt_head_block_offset root);
  sh_tables : Forall table_typed (rt_table_refs root) /\ Forall (fun t => 1 <= tb_ref_count t) (rt_table_refs root);
  sh_segments : Forall segment_typed (rt_segment_refs root);
  sh_inline : Forall run_valid (rt_inline_entries root);
  sh_table_cursor : match rt_table_refs root with [] => rt_head_segment_offset root = 0 | t :: _ => rt_head_segment_offset root < tb_ref_count t end;
}.

Lemma live_blocks_head root es segs :
  0 <= rt_head_entry_offset root <= zlen es -> cursor_in (drop (Z.to_nat (rt_head_entry_offset root)) es) (rt_head_block_offset root) ->
  Forall run_valid es ->
  live_blocks root (es :: segs) =
  drop (Z.to_nat (rt_head_block_offset root)) (queue_blocks (drop (Z.to_nat (rt_head_entry_offset root)) es)) ++
  queue_blocks (concat segs) ++ queue_blocks (rt_inline_entries root).
Proof.
  intros Hh Hc HF. unfold live_blocks. cbn [concat]. rewrite drop_app_le by (unfold zlen in *; lia).
  rewrite queue_blocks_app, drop_app_le; [by rewrite app_assoc|].
  destruct (drop _ es) as [|e l] eqn:Hd; cbn [cursor_in] in Hc; [by rewrite Hc|].
  rewrite queue_blocks_cons, length_app. pose proof (zlen_run_blocks e ltac:(lia)). unfold zlen in *. lia.
Qed.

Lemma live_blocks_start root segs :
  rt_head_entry_offset root = 0 -> rt_head_block_offset root = 0 ->
  live_blocks root segs = queue_blocks (concat segs) ++ queue_blocks (rt_inline_entries root).
Proof. intros H1 H2. unfold live_blocks. by rewrite H1, H2, !drop_0. Qed.

Lemma head_cursor_start v g root refs segs :
  Forall2 (segment_at v g) refs segs -> rt_head_entry_offset root = 0 -> rt_head_block_offset root = 0 -> head_cursor root segs.
Proof.
  intros HF H1 H2. destruct HF as [|s es refs segs Hs HF]; [done|]. destruct (segment_at_inv v g s es Hs) as (Ht & Hv & Hn).
  cbn. rewrite H1, H2, drop_0. split; [lia|]. apply cursor_in_start. by apply Forall_and.
Qed.

Section Batch.
Context {D : Type} {device : BlockDevice Decoded D} {contract : DeviceContract Decoded D core_decodes} (d0 : D) (g : Z).

Abbreviation content := (view (decodes := core_decodes)).

Lemma wpi_consume_segment d tx s budget :
  reads d0 d -> u64 (sg_lba s) -> root_shape (rx_root tx) -> 0 <= budget -> rx_reclaimed_blocks tx + budget < 2 ^ 64 ->
  wpi (consume_segment geo s g budget) (d, tx)
    (fun r st => reads d0 (fst st) /\ exists es, segment_at (content d0) g s es /\ rt_head_entry_offset (rx_root tx) < zlen es /\
       consumed_entries tx (drop (Z.to_nat (rt_head_entry_offset (rx_root tx))) es) budget (snd r) (snd st) /\
       fst r = (rt_head_entry_offset (rx_root (snd st)) =? zlen es))
    (fun e st => reads d0 (fst st) /\ (only_io e \/ forall es, segment_at (content d0) g s es ->
       ~ head_cursor (rx_root tx) [es])).
Proof.
  intros Hr Hl Hsh Hb Hrb. unfold consume_segment. destruct (sh_cursor _ Hsh) as (_ & He & Ho). unfold u32 in He.
  apply wpi_bind, wpi_zoom. eapply wpi_mono; [by apply (wpi_read_segment d0)| |]; cbn beta.
  2: { intros e d1 [? Hn]. split; [done|]. destruct Hn as [|Hn]; [by left|]. right. intros es Hes. by destruct (Hn es). }
  intros es d1 [Hr1 Hes]. cbn [fst snd]. apply wpi_bind, wpi_get. cbn [snd]. apply wpi_if; intros Hc.
  { apply wpi_err. split; [done|]. right. intros es' Hes'. rewrite <- (segment_at_fun _ _ _ _ _ Hes Hes'). cbn. lia. }
  destruct (segment_at_inv _ _ _ _ Hes) as (Ht & Hv & _). assert (Forall run_valid es) as HF by by apply Forall_and.
  apply wpi_bind, wpi_zoom. cbn [snd fst]. eapply wpi_mono; [apply wpi_consume_entries; [by apply Forall_drop|done|done|done]| |]; cbn beta.
  - intros b tx1 Hce. apply wpi_bind, wpi_get, wpi_ret. cbn [snd fst]. split; [done|]. exists es. split; [done|]. split; [lia|]. done.
  - intros e tx1 Hn. split; [done|]. right. intros es' Hes'. rewrite <- (segment_at_fun _ _ _ _ _ Hes Hes'). by intros [_ ?].
Qed.
End Batch.

Definition totals_same (r r' : ReclaimRoot) : Prop :=
  rt_pending_blocks r' = rt_pending_blocks r /\ rt_appended_blocks_total r' = rt_appended_blocks_total r /\
  rt_reclaimed_blocks_total r' = rt_reclaimed_blocks_total r /\ rt_caps r' = rt_caps r.

(** From one state of a queue to a later one of the same transaction: the
    runs [new] were promoted, the structure blocks [cs] used up. *)
Record part (v : Z -> bytes) (g : Z) (tx : ReclaimTx) (tables : list (list SegmentRef)) (segs : list (list ReclaimEntry))
    (tx' : ReclaimTx) (tables' : list (list SegmentRef)) (segs' : list (list ReclaimEntry)) (new : list PromotedRun) (cs : list Z) : Prop := {
  pt_live : live v g (rx_root tx') tables' segs';
  pt_same : rx_same tx tx';
  pt_totals : totals_same (rx_root tx) (rx_root tx');
  pt_promoted : rx_promoted tx' = rx_promoted tx ++ new;
  pt_reclaimed : rx_reclaimed_blocks tx' = rx_reclaimed_blocks tx + zlen (promoted_blocks new);
  pt_runs : Forall promoted_sound new;
  pt_consumed : rx_consumed_structure tx' = rx_consumed_structure tx ++ cs;
  pt_blocks : live_blocks (rx_root tx) segs = promoted_blocks new ++ live_blocks (rx_root tx') segs';
  pt_allowed : allowed (rx_oldest_protected_generation tx) (promoted_blocks new);
  pt_structure : Permutation (live_structure (rx_root tx) tables) (cs ++ live_structure (rx_root tx') tables');
}.

Lemma part_refl v g tx tables segs : live v g (rx_root tx) tables segs -> part v g tx tables segs tx tables segs [] [].
Proof. intros H. constructor; try done; try (by rewrite app_nil_r); [by rewrite Z.add_0_r|constructor]. Qed.

Lemma part_trans v g tx tables segs tx1 tables1 segs1 new1 cs1 tx2 tables2 segs2 new2 cs2 :
  part v g tx tables segs tx1 tables1 segs1 new1 cs1 -> part v g tx1 tables1 segs1 tx2 tables2 segs2 new2 cs2 ->
  part v g tx tables segs tx2 tables2 segs2 (new1 ++ new2) (cs1 ++ cs2).
Proof.
  intros [L1 (S1 & S2 & S3 & S4 & S5) (T1 & T2 & T3 & T4) P1 R1 F1 C1 B1 A1 P1'] [L2 (S1' & S2' & S3' & S4' & S5') (T1' & T2' & T3' & T4') P2 R2 F2 C2 B2 A2 P2'].
  constructor.
  - done.
  - split_and!; congruence.
  - split_and!; congruence.
  - by rewrite P2, P1, app_assoc.
  - rewrite R2, R1, promoted_blocks_app, zlen_app. lia.
  - by apply Forall_app.
  - by rewrite C2, C1, app_assoc.
  - by rewrite B1, B2, promoted_blocks_app, app_assoc.
  - rewrite promoted_blocks_app. apply Forall_app. split; [done|]. by rewrite <- S1.
  - rewrite P1', P2'. by rewrite app_assoc.
Qed.

(** The batch: as much of the head as the budget and the retained checkpoints allow. *)
Definition batch (v : Z -> bytes) (g : Z) (tx : ReclaimTx) (tables : list (list SegmentRef)) (segs : list (list ReclaimEntry)) (budget : Z)
    (tx' : ReclaimTx) : Prop :=
  exists tables' segs' new cs, part v g tx tables segs tx' tables' segs' new cs /\ zlen (promoted_blocks new) <= budget /\
    stopped_at (rx_oldest_protected_generation tx) (budget - zlen (promoted_blocks new)) (live_blocks (rx_root tx') segs').

Lemma batch_step v g tx tables segs tx1 tables1 segs1 new cs budget b tx2 :
  part v g tx tables segs tx1 tables1 segs1 new cs -> zlen (promoted_blocks new) = budget - b ->
  batch v g tx1 tables1 segs1 b tx2 -> batch v g tx tables segs budget tx2.
Proof.
  intros H1 Hz (tables2 & segs2 & new2 & cs2 & H2 & Hle & Hst). exists tables2, segs2, (new ++ new2), (cs ++ cs2).
  split; [by eapply part_trans|]. rewrite promoted_blocks_app, zlen_app. split; [lia|].
  destruct (pt_same _ _ _ _ _ _ _ _ _ _ H1) as (Hs & _). rewrite <- Hs.
  by replace (budget - (zlen (promoted_blocks new) + zlen (promoted_blocks new2))) with (b - zlen (promoted_blocks new2)) by lia.
Qed.

Lemma batch_stop v g tx tables segs budget :
  live v g (rx_root tx) tables segs -> 0 <= budget -> stopped_at (rx_oldest_protected_generation tx) budget (live_blocks (rx_root tx) segs) ->
  batch v g tx tables segs budget tx.
Proof.
  intros Hl Hb Hs. exists tables, segs, [], []. split; [by apply part_refl|].
  change (zlen (promoted_blocks [])) with 0. split; [done|]. by rewrite Z.sub_0_r.
Qed.

(** A segment used up: the queue goes on with the next one. *)
Lemma part_finished v g tx tables s refs es segs budget b tx1 tx2 tables2 cs :
  live v g (rx_root tx) tables (es :: segs) -> root_shape (rx_root tx) -> live_refs (rx_root tx) tables = s :: refs -> segment_at v g s es ->
  consumed_entries tx (drop (Z.to_nat (rt_head_entry_offset (rx_root tx))) es) budget b tx1 ->
  rt_head_entry_offset (rx_root tx1) = zlen es ->
  rx_same tx1 tx2 -> totals_same (rx_root tx1) (rx_root tx2) -> rx_promoted tx2 = rx_promoted tx1 ->
  rx_reclaimed_blocks tx2 = rx_reclaimed_blocks tx1 -> rx_consumed_structure tx2 = rx_consumed_structure tx1 ++ cs ->
  rt_head_entry_offset (rx_root tx2) = 0 -> rt_head_block_offset (rx_root tx2) = 0 ->
  rt_inline_entries (rx_root tx2) = rt_inline_entries (rx_root tx1) -> live_refs (rx_root tx2) tables2 = refs ->
  Forall2 (table_at v g) (rt_table_refs (rx_root tx2)) tables2 ->
  match tables2 with [] => rt_head_segment_offset (rx_root tx2) = 0 | t :: _ => rt_head_segment_offset (rx_root tx2) < zlen t end ->
  Permutation (live_structure (rx_root tx) tables) (cs ++ live_structure (rx_root tx2) tables2) ->
  Forall (fun lba => allocatable geo lba = true) (map tb_lba (rt_table_refs (rx_root tx2)) ++ map sg_lba (rt_segment_refs (rx_root tx2))) ->
  exists new, part v g tx tables (es :: segs) tx2 tables2 segs new cs /\ zlen (promoted_blocks new) = budget - b /\ 0 <= b.
Proof.
  intros Hl Hsh Href Hes (n & off & new & Hn & (S1 & C1 & R1 & P1 & B1 & F1) & Ho & Hb & Hz & Hal & Hq) Hfin S2 T2 P2 B2 C2 He Hbo Hin Href2 Ht Htc Hperm Hpl.
  destruct (lv_cursor _ _ _ _ _ Hl) as [Hlt Hc]. destruct (segment_at_inv _ _ _ _ Hes) as (Hty & Hva & _).
  destruct (sh_cursor _ Hsh) as (_ & Hhe & _). unfold u32 in Hhe. destruct (Hq Hc) as (Heq & Hci & _).
  rewrite R1 in Hfin. cbn in Hfin. rewrite length_drop in Hn.
  assert (drop n (drop (Z.to_nat (rt_head_entry_offset (rx_root tx))) es) = []) as Hd.
  { apply drop_ge. rewrite length_drop. unfold zlen in *. lia. }
  rewrite Hd in Heq, Hci. cbn in Hci. subst off. rewrite drop_0 in Heq.
  assert (Forall2 (segment_at v g) refs segs) as HF.
  { pose proof (lv_segs _ _ _ _ _ Hl) as H. rewrite Href in H. by apply Forall2_cons in H as [_ H]. }
  exists new. split; [|done]. destruct S1 as (?&?&?&?&?), S2 as (?&?&?&?&?), T2 as (?&?&?&?). constructor.
  - constructor; [done|by rewrite Href2|done|by apply (head_cursor_start v g _ refs)| |done]. rewrite Hin, R1. apply (lv_inline _ _ _ _ _ Hl).
  - split_and!; congruence.
  - rewrite R1 in *. cbn in *. split_and!; congruence.
  - congruence.
  - congruence.
  - done.
  - congruence.
  - rewrite live_blocks_head; [|lia|done|by apply Forall_and]. rewrite live_blocks_start by done.
    rewrite Heq, Hin, R1. cbn. by rewrite app_nil_r.
  - done.
  - done.
Qed.

(** A segment that stays the head: the budget is spent or its next run is protected. *)
Lemma batch_unfinished v g tx tables s refs es segs budget b tx1 :
  live v g (rx_root tx) tables (es :: segs) -> root_shape (rx_root tx) -> live_refs (rx_root tx) tables = s :: refs -> segment_at v g s es ->
  consumed_entries tx (drop (Z.to_nat (rt_head_entry_offset (rx_root tx))) es) budget b tx1 ->
  rt_head_entry_offset (rx_root tx1) <> zlen es ->
  batch v g tx tables (es :: segs) budget tx1.
Proof.
  intros Hl Hsh Href Hes (n & off & new & Hn & (S1 & C1 & R1 & P1 & B1 & F1) & Ho & Hb & Hz & Hal & Hq) Hfin.
  destruct (lv_cursor _ _ _ _ _ Hl) as [Hlt Hc]. destruct (segment_at_inv _ _ _ _ Hes) as (Hty & Hva & _).
  assert (Forall run_valid es) as HF by by apply Forall_and.
  destruct (sh_cursor _ Hsh) as (_ & Hhe & _). unfold u32 in Hhe. destruct (Hq Hc) as (Heq & Hci & Hst).
  set (h := rt_head_entry_offset (rx_root tx)) in *. rewrite R1 in Hfin. cbn in Hfin. fold h in Hfin. rewrite length_drop in Hn.
  rewrite drop_drop in Heq, Hci, Hst. replace (Z.to_nat h + n)%nat with (Z.to_nat (h + Z.of_nat n)) in Heq, Hci, Hst by lia.
  assert (live_blocks (rx_root tx1) (es :: segs) = drop (Z.to_nat off) (queue_blocks (drop (Z.to_nat (h + Z.of_nat n)) es)) ++
    queue_blocks (concat segs) ++ queue_blocks (rt_inline_entries (rx_root tx))) as Hlb.
  { rewrite R1. rewrite live_blocks_head; cbn; [done|unfold zlen in *; lia|done|done]. }
  exists tables, (es :: segs), new, []. split; [|split; [lia|]].
  - constructor.
    + rewrite R1. constructor; [apply Hl|apply Hl|apply Hl| |apply Hl|apply Hl]. cbn. split; [unfold zlen in *; lia|done].
    + done.
    + by rewrite R1.
    + done.
    + done.
    + done.
    + by rewrite C1, app_nil_r.
    + rewrite live_blocks_head; [|lia|done|done]. fold h. by rewrite Heq, Hlb, <- app_assoc.
    + done.
    + by rewrite R1.
  - rewrite Hlb, Hz. replace (budget - (budget - b)) with b by lia. destruct Hst as [?|Hst]; [by left|]. right.
    destruct (drop (Z.to_nat (h + Z.of_nat n)) es) as [|e l] eqn:Hd.
    { apply (f_equal length) in Hd. rewrite length_drop in Hd. cbn in Hd. unfold zlen in *. lia. }
    cbn in Hci. rewrite drop_head_run, drop_run_blocks in Hst |- * by lia. unfold run_blocks at 1 in Hst. unfold run_blocks at 1.
    cbn [re_start re_blocks re_retire_generation] in *. rewrite seqZ_cons in Hst |- * by lia. done.
Qed.

(** The turn over a finished segment of the first table. *)
Definition turn_table (s : SegmentRef) (t : TableRef) (refs : list SegmentRef) (segment : Z) (tx : ReclaimTx) : ReclaimTx :=
  let tx := set_rx_root (set_cursor segment 0 0 (rx_root tx)) (set_rx_consumed (rx_consumed_structure tx ++ [sg_lba s]) tx) in
  if segment =? zlen refs then
    set_rx_root (set_cursor 0 (rt_head_entry_offset (rx_root tx)) (rt_head_block_offset (rx_root tx))
      (set_areas (drop 1 (rt_table_refs (rx_root tx))) (rt_segment_refs (rx_root tx)) (rt_inline_entries (rx_root tx)) (rx_root tx)))
      (set_rx_consumed (rx_consumed_structure tx ++ [tb_lba t]) tx)
  else tx.

Lemma part_turn_table v g tx t ts tables s es segs budget b tx1 refs :
  let segment := rt_head_segment_offset (rx_root tx) in
  live v g (rx_root tx) tables (es :: segs) -> root_shape (rx_root tx) -> rt_table_refs (rx_root tx) = t :: ts ->
  table_at v g t refs -> refs !! Z.to_nat segment = Some s -> segment_at v g s es ->
  consumed_entries tx (drop (Z.to_nat (rt_head_entry_offset (rx_root tx))) es) budget b tx1 ->
  rt_head_entry_offset (rx_root tx1) = zlen es ->
  exists tables2 new cs, part v g tx tables (es :: segs) (turn_table s t refs (segment + 1) tx1) tables2 segs new cs /\
    zlen (promoted_blocks new) = budget - b /\ 0 <= b.
Proof.
  intros segment Hl Hsh Ht Hta Hs Hes Hce Hfin. pose proof (lv_tables _ _ _ _ _ Hl) as HT. rewrite Ht in HT.
  apply Forall2_cons_inv_l in HT as (refs' & tbs & Hta' & HT & ->). rewrite <- (table_at_fun _ _ _ _ _ Hta Hta') in *. clear Hta'.
  destruct (sh_cursor _ Hsh) as (Hseg & _). fold segment in Hseg. unfold u32 in Hseg.
  pose proof (lookup_lt_Some _ _ _ Hs) as Hlt. pose proof Hce as (n & off & new & _ & (S1 & C1 & R1 & P1 & B1 & F1) & _).
  assert (live_refs (rx_root tx) (refs :: tbs) = s :: drop (Z.to_nat (segment + 1)) refs ++ concat tbs ++ rt_segment_refs (rx_root tx)) as Href.
  { unfold live_refs. fold segment. cbn [concat]. rewrite drop_app_le by lia. rewrite (drop_S _ _ _ Hs), <- app_assoc.
    by replace (S (Z.to_nat segment)) with (Z.to_nat (segment + 1)) by lia. }
  unfold turn_table. destruct (segment + 1 =? zlen refs) eqn:Hlast.
  - destruct (part_finished v g tx (refs :: tbs) s (concat tbs ++ rt_segment_refs (rx_root tx)) es segs budget b tx1
      (turn_table s t refs (segment + 1) tx1) tbs [sg_lba s; tb_lba t]) as (new' & Hp & Hz & Hb'); try done.
    + rewrite Href. rewrite drop_ge by (unfold zlen in *; lia). done.
    + unfold turn_table. rewrite Hlast. done.
    + unfold turn_table. rewrite Hlast. done.
    + unfold turn_table. by rewrite Hlast.
    + unfold turn_table. by rewrite Hlast.
    + unfold turn_table. rewrite Hlast. cbn. by rewrite <- app_assoc.
    + unfold turn_table. by rewrite Hlast.
    + unfold turn_table. by rewrite Hlast.
    + unfold turn_table. by rewrite Hlast.
    + unfold turn_table, live_refs. rewrite Hlast. cbn. by rewrite R1.
    + unfold turn_table. rewrite Hlast. cbn. by rewrite R1; cbn; rewrite Ht.
    + unfold turn_table. rewrite Hlast. cbn. destruct HT as [|? ? ? ? Ht2]; [done|]. pose proof (table_at_inv _ _ _ _ Ht2). lia.
    + unfold live_structure, turn_table. rewrite Hlast, Href, Ht. unfold live_refs. cbn. rewrite R1; cbn. rewrite Ht. cbn.
      rewrite (drop_ge refs) by (unfold zlen in *; lia). cbn. rewrite drop_0. rewrite <- Permutation_middle. apply Permutation_swap.
    + pose proof (lv_places _ _ _ _ _ Hl) as Hpl. unfold turn_table. rewrite Hlast. cbn. rewrite R1. cbn. rewrite Ht in Hpl |- *. cbn in *. by apply Forall_inv_tail in Hpl.
    + exists tbs, new', [sg_lba s; tb_lba t]. split; [|done]. unfold turn_table in Hp. by rewrite Hlast in Hp.
  - destruct (part_finished v g tx (refs :: tbs) s (drop (Z.to_nat (segment + 1)) refs ++ concat tbs ++ rt_segment_refs (rx_root tx)) es segs budget b tx1
      (turn_table s t refs (segment + 1) tx1) (refs :: tbs) [sg_lba s]) as (new' & Hp & Hz & Hb'); try done; unfold turn_table; rewrite ?Hlast; try done.
    + unfold live_refs. cbn. rewrite R1. cbn. rewrite drop_app_le by (unfold zlen in *; lia). by rewrite <- app_assoc.
    + cbn. rewrite R1. cbn. rewrite Ht. by constructor.
    + cbn. unfold zlen in *. lia.
    + unfold live_structure. rewrite Href. unfold live_refs. cbn. rewrite R1. cbn. rewrite Ht. cbn. rewrite drop_app_le by (unfold zlen in *; lia).
      rewrite <- app_assoc. rewrite <- (Permutation_middle (map tb_lba ts)). apply perm_swap.
    + cbn. rewrite R1. apply (lv_places _ _ _ _ _ Hl).
    + exists (refs :: tbs), new', [sg_lba s]. split; [|done]. unfold turn_table in Hp. by rewrite Hlast in Hp.
Qed.

(** The turn over a finished segment of the root. *)
Definition turn_segment (s : SegmentRef) (tx : ReclaimTx) : ReclaimTx :=
  let tx := set_rx_root (set_cursor (rt_head_segment_offset (rx_root tx)) 0 0 (rx_root tx)) (set_rx_consumed (rx_consumed_structure tx ++ [sg_lba s]) tx) in
  set_rx_root (set_areas (rt_table_refs (rx_root tx)) (drop 1 (rt_segment_refs (rx_root tx))) (rt_inline_entries (rx_root tx)) (rx_root tx)) tx.

Lemma part_turn_segment v g tx s refs tables es segs budget b tx1 :
  live v g (rx_root tx) tables (es :: segs) -> root_shape (rx_root tx) -> rt_table_refs (rx_root tx) = [] ->
  rt_segment_refs (rx_root tx) = s :: refs -> segment_at v g s es ->
  consumed_entries tx (drop (Z.to_nat (rt_head_entry_offset (rx_root tx))) es) budget b tx1 ->
  rt_head_entry_offset (rx_root tx1) = zlen es ->
  exists new cs, part v g tx tables (es :: segs) (turn_segment s tx1) tables segs new cs /\ zlen (promoted_blocks new) = budget - b /\ 0 <= b.
Proof.
  intros Hl Hsh Ht Hs Hes Hce Hfin. pose proof (lv_tables _ _ _ _ _ Hl) as HT. rewrite Ht in HT. apply Forall2_nil_inv_l in HT as ->.
  pose proof Hce as (n & off & new & _ & (S1 & C1 & R1 & P1 & B1 & F1) & _). pose proof (lv_table_cursor _ _ _ _ _ Hl) as Hz0. cbn in Hz0.
  assert (live_refs (rx_root tx) [] = s :: refs) as Href by (unfold live_refs; rewrite Hs, Hz0; done).
  destruct (part_finished v g tx [] s refs es segs budget b tx1 (turn_segment s tx1) [] [sg_lba s]) as (new' & Hp & Hz & Hb'); try done.
  - unfold live_refs. cbn. rewrite R1. cbn. by rewrite Hs, Hz0.
  - cbn. rewrite R1. cbn. by rewrite Ht.
  - cbn. by rewrite R1.
  - unfold live_structure. rewrite Href, Ht. unfold live_refs. cbn. rewrite R1. cbn. by rewrite Ht, Hs, Hz0.
  - pose proof (lv_places _ _ _ _ _ Hl) as Hpl. cbn. rewrite R1. cbn. rewrite Ht, Hs in *. cbn in *. by apply Forall_inv_tail in Hpl.
  - by exists new', [sg_lba s].
Qed.

(** What is left of the first inline run. *)
Definition inline_rest (entry : ReclaimEntry) (inline : list ReclaimEntry) (taken : Z) : list ReclaimEntry :=
  if re_blocks entry - taken =? 0 then inline else
  {| re_start := re_start entry + taken; re_blocks := re_blocks entry - taken; re_retire_generation := re_retire_generation entry |} :: inline.

Definition turn_inline (entry : ReclaimEntry) (inline : list ReclaimEntry) (taken : Z) (tx : ReclaimTx) : ReclaimTx :=
  set_rx_root (set_areas (rt_table_refs (rx_root tx)) (rt_segment_refs (rx_root tx)) (inline_rest entry inline taken) (rx_root tx))
    (set_rx_promoted (rx_promoted tx ++ [{| pr_start := re_start entry; pr_blocks := taken; pr_retire_generation := re_retire_generation entry |}])
       (rx_reclaimed_blocks tx + taken) tx).

Lemma inline_rest_blocks e inline taken : 0 <= taken <= re_blocks e ->
  queue_blocks (e :: inline) =
  run_blocks {| re_start := re_start e; re_blocks := taken; re_retire_generation := re_retire_generation e |} ++ queue_blocks (inline_rest e inline taken).
Proof.
  intros Ht. pose proof (split_run_blocks 0 taken e ltac:(lia) ltac:(lia) ltac:(lia)) as H. rewrite drop_0, Z.add_0_r, Z.add_0_l in H.
  rewrite queue_blocks_cons, H, <- app_assoc. f_equal. rewrite drop_run_blocks by lia. unfold inline_rest. destruct (_ =? 0) eqn:Hz; [|done].
  replace (re_blocks e - taken) with 0 by lia. done.
Qed.

(** The blocks of an accepted run are allocatable, so its rest is accepted too. *)
Lemma inline_rest_ok g e inline taken :
  entry_typed e -> 0 <= taken <= re_blocks e -> Forall (run_ok g) (e :: inline) -> Forall (run_ok g) (inline_rest e inline taken).
Proof.
  intros Hty Htk [He HF]%Forall_cons_1. unfold inline_rest. destruct (_ =? 0) eqn:Hz; [done|]. constructor; [|done].
  destruct (run_ok_inv g e Hty He) as (Ha & Hend & Hreg & Hg). unfold entry_typed, u64, u32 in Hty.
  assert ((re_start e + taken) / region_size geo = re_start e / region_size geo) as Hsame.
  { apply (same_region (re_start e) (re_start e + re_blocks e - 1)); [lia|lia|done]. }
  apply run_ok_intro; cbn; [lia|lia| | | |done].
  - apply (allocatable_shift (re_start e)); (done || lia).
  - lia.
  - rewrite Hsame, Hreg. f_equal. lia.
Qed.

Lemma part_turn_inline v g tx tables segs e inline taken :
  live v g (rx_root tx) tables segs -> rt_table_refs (rx_root tx) = [] -> rt_segment_refs (rx_root tx) = [] ->
  rt_inline_entries (rx_root tx) = e :: inline -> entry_typed e -> 0 < taken <= re_blocks e ->
  re_retire_generation e <= rx_oldest_protected_generation tx ->
  exists new, part v g tx tables segs (turn_inline e inline taken tx) tables segs new [] /\ zlen (promoted_blocks new) = taken.
Proof.
  intros Hl Ht Hs Hi Hty Htk Hg. pose proof (lv_tables _ _ _ _ _ Hl) as HT. rewrite Ht in HT. apply Forall2_nil_inv_l in HT as ->.
  pose proof (lv_inline _ _ _ _ _ Hl) as HI. rewrite Hi in HI. pose proof (lv_table_cursor _ _ _ _ _ Hl) as Hz0. cbn in Hz0. pose proof (lv_segs _ _ _ _ _ Hl) as HS. unfold live_refs in HS.
  rewrite Hz0, Hs in HS. apply Forall2_nil_inv_l in HS as ->. destruct (lv_cursor _ _ _ _ _ Hl) as [He Hb].
  exists [{| pr_start := re_start e; pr_blocks := taken; pr_retire_generation := re_retire_generation e |}].
  rewrite promoted_one, zlen_run_blocks by (cbn; lia). split; [|done].
  constructor; rewrite ?promoted_one, ?zlen_run_blocks by (cbn; lia); try done.
  - constructor; cbn; [by rewrite Ht|by unfold live_refs; cbn; rewrite Hz0, Hs; constructor|done|done|apply inline_rest_ok; [done|lia|done]|by rewrite Ht, Hs].
  - constructor; [|constructor]. apply Forall_cons in HI as [HI _]. destruct (run_ok_inv g e Hty HI) as (_ & Hend & _). pose proof (wf_total (g := geo)).
    unfold entry_typed, u64 in Hty. unfold promoted_sound; cbn. lia.
  - cbn. by rewrite app_nil_r.
  - unfold live_blocks. cbn. rewrite He, Hb, Hi. apply inline_rest_blocks. lia.
  - by apply allowed_run.
Qed.

(** Turns left: segments and inline runs not used up. *)
Definition refs_total (tables : list TableRef) : Z := foldr (fun t n => tb_ref_count t + n) 0 tables.
Definition weight (root : ReclaimRoot) : Z :=
  refs_total (rt_table_refs root) - rt_head_segment_offset root + zlen (rt_segment_refs root) + zlen (rt_inline_entries root).

Lemma shape_advanced tx es budget b tx1 :
  root_shape (rx_root tx) -> rt_head_entry_offset (rx_root tx) < zlen es -> zlen es <= SEGMENT_ENTRY_CAP ->
  consumed_entries tx (drop (Z.to_nat (rt_head_entry_offset (rx_root tx))) es) budget b tx1 ->
  root_shape (rx_root tx1) /\ weight (rx_root tx1) = weight (rx_root tx) /\ rx_reclaimed_blocks tx1 + b = rx_reclaimed_blocks tx + budget /\
  rt_table_refs (rx_root tx1) = rt_table_refs (rx_root tx) /\ rt_segment_refs (rx_root tx1) = rt_segment_refs (rx_root tx) /\
  rt_head_segment_offset (rx_root tx1) = rt_head_segment_offset (rx_root tx) /\ 0 <= b.
Proof.
  intros Hsh Hlt Hcap (n & off & new & Hn & (S1 & C1 & R1 & P1 & B1 & F1) & Ho & Hb & Hz & _). destruct (sh_cursor _ Hsh) as (? & He & ?).
  rewrite R1, length_drop in *. unfold SEGMENT_ENTRY_CAP in Hcap. split; [|cbn; split_and!; (done || lia)].
  constructor; cbn; try apply Hsh. split; [done|]. split; [|done]. unfold u32, zlen in *. lia.
Qed.

Lemma shape_turn_table s t ts refs tx :
  root_shape (rx_root tx) -> rt_table_refs (rx_root tx) = t :: ts -> zlen refs = tb_ref_count t ->
  root_shape (rx_root (turn_table s t refs (rt_head_segment_offset (rx_root tx) + 1) tx)) /\
  weight (rx_root (turn_table s t refs (rt_head_segment_offset (rx_root tx) + 1) tx)) = weight (rx_root tx) - 1.
Proof.
  intros [(Hc1 & Hc2 & Hc3) [Ht1 Ht2] Hs Hi Htc] Ht Hz. rewrite Ht in *. apply Forall_cons in Ht1 as [Hty Ht1], Ht2 as [Hn Ht2].
  unfold turn_table. destruct (_ =? _) eqn:Hlast.
  - split; [|unfold weight, refs_total; cbn; rewrite Ht; cbn; rewrite drop_0; lia].
    constructor; cbn; rewrite ?Ht; cbn; rewrite ?drop_0; try done. destruct ts as [|t' ts]; [done|]. apply Forall_cons in Ht2 as [? _]. lia.
  - split; [|unfold weight, refs_total; cbn; rewrite Ht; cbn; lia].
    constructor; cbn; rewrite ?Ht; try done; [|split; by constructor|lia]. split_and!; try done. unfold u32, table_typed, u32 in *. lia.
Qed.

Lemma shape_turn_segment s refs tx :
  root_shape (rx_root tx) -> rt_segment_refs (rx_root tx) = s :: refs ->
  root_shape (rx_root (turn_segment s tx)) /\ weight (rx_root (turn_segment s tx)) = weight (rx_root tx) - 1.
Proof.
  intros [(Hc1 & Hc2 & Hc3) [Ht1 Ht2] Hs Hi Htc] Hr. rewrite Hr in *. apply Forall_cons in Hs as [_ Hs].
  split; [constructor; cbn; rewrite ?Hr; cbn; by rewrite ?drop_0|].
  unfold weight, turn_segment. cbn [rx_root set_rx_root rt_segment_refs set_areas set_cursor rt_table_refs rt_head_segment_offset rt_inline_entries].
  rewrite Hr, zlen_cons. cbn [drop]. rewrite drop_0. lia.
Qed.

Lemma shape_turn_inline e inline taken tx :
  root_shape (rx_root tx) -> rt_inline_entries (rx_root tx) = e :: inline -> 0 <= taken <= re_blocks e ->
  root_shape (rx_root (turn_inline e inline taken tx)) /\
  weight (rx_root (turn_inline e inline taken tx)) = weight (rx_root tx) - (if taken =? re_blocks e then 1 else 0).
Proof.
  intros [(Hc1 & Hc2 & Hc3) [Ht1 Ht2] Hs Hi Htc] Hr Htk. rewrite Hr in *. apply Forall_cons in Hi as [He Hi].
  destruct (run_valid_inv e He) as (? & ? & ? & ?). destruct He as [(? & ? & ?) Hv]. split; [constructor; cbn; rewrite ?Hr; try done|].
  - unfold inline_rest. destruct (_ =? 0) eqn:Hz; [done|]. constructor; [|done]. unfold u64, u32 in *.
    apply run_valid_intro; cbn; [split; cbn; unfold u64, u32; lia|lia| |lia].
    intros Hg. unfold ReclaimEntry_validate in Hv. rewrite Hg in Hv. destruct (re_blocks e =? 0); done.
  - unfold weight, turn_inline. cbn [rx_root set_rx_root rt_segment_refs set_areas rt_table_refs rt_head_segment_offset rt_inline_entries].
    rewrite Hr. unfold inline_rest. destruct (taken =? re_blocks e) eqn:Hz.
    + replace (re_blocks e - taken =? 0) with true by lia. rewrite zlen_cons. lia.
    + replace (re_blocks e - taken =? 0) with false by lia. rewrite !zlen_cons. lia.
Qed.

Section Consume.
Context {D : Type} {device : BlockDevice Decoded D} {contract : DeviceContract Decoded D core_decodes} (d0 : D) (g : Z).

Abbreviation content := (view (decodes := core_decodes)).

(** What a batch establishes, over any content of the blocks. *)
Definition batch_post (tx : ReclaimTx) (budget : Z) (st : D * ReclaimTx) : Prop :=
  reads d0 (fst st) /\ root_shape (rx_root (snd st)) /\
  forall tables segs, live (content d0) g (rx_root tx) tables segs -> batch (content d0) g tx tables segs budget (snd st).
Definition batch_fail (tx : ReclaimTx) (e : CoreError) (st : D * ReclaimTx) : Prop :=
  reads d0 (fst st) /\ forall tables segs, live (content d0) g (rx_root tx) tables segs -> only_io e.

Definition turns (root : ReclaimRoot) (budget : Z) (fuel : nat) : Prop :=
  weight root < Z.of_nat fuel \/ budget = 0 /\ (0 < fuel)%nat.

(** A turn that did its part, then the rest of the batch. *)
Lemma batch_post_step tx tx1 budget b st :
  (forall tables segs, live (content d0) g (rx_root tx) tables segs -> exists tables1 segs1 new cs,
     part (content d0) g tx tables segs tx1 tables1 segs1 new cs /\ zlen (promoted_blocks new) = budget - b) ->
  batch_post tx1 b st -> batch_post tx budget st.
Proof.
  intros Hp (? & ? & Hb). split; [done|]. split; [done|]. intros tables segs Hl.
  destruct (Hp _ _ Hl) as (tables1 & segs1 & new & cs & Hpt & Hz). eapply batch_step; [done|done|]. apply Hb. apply Hpt.
Qed.

Lemma batch_fail_step tx tx1 budget b e st :
  (forall tables segs, live (content d0) g (rx_root tx) tables segs -> exists tables1 segs1 new cs,
     part (content d0) g tx tables segs tx1 tables1 segs1 new cs /\ zlen (promoted_blocks new) = budget - b) ->
  batch_fail tx1 e st -> batch_fail tx e st.
Proof.
  intros Hp (? & Hb). split; [done|]. intros tables segs Hl. destruct (Hp _ _ Hl) as (tables1 & segs1 & new & cs & Hpt & Hz).
  eapply Hb, Hpt.
Qed.

(** The head of a live queue is the segment the engine consumes. *)
Lemma live_head root tables segs s refs :
  live (content d0) g root tables segs -> live_refs root tables = s :: refs ->
  exists es segs1, segs = es :: segs1 /\ segment_at (content d0) g s es /\ head_cursor root [es].
Proof.
  intros Hl Href. pose proof (lv_segs _ _ _ _ _ Hl) as HS. rewrite Href in HS. apply Forall2_cons_inv_l in HS as (es & segs1 & Hs & _ & ->).
  exists es, segs1. split; [done|]. split; [done|]. exact (lv_cursor _ _ _ _ _ Hl).
Qed.

Lemma table_head root t ts tables refs s :
  Forall2 (table_at (content d0) g) (rt_table_refs root) tables ->
  rt_table_refs root = t :: ts -> table_at (content d0) g t refs -> refs !! Z.to_nat (rt_head_segment_offset root) = Some s ->
  exists rest, live_refs root tables = s :: rest.
Proof.
  intros HT Ht Hta Hs. rewrite Ht in HT. apply Forall2_cons_inv_l in HT as (refs' & tbs & Hta' & _ & ->).
  rewrite <- (table_at_fun _ _ _ _ _ Hta Hta'). unfold live_refs. cbn [concat]. pose proof (lookup_lt_Some _ _ _ Hs).
  rewrite drop_app_le by lia. rewrite (drop_S _ _ _ Hs). eauto.
Qed.

Lemma wpi_turn tx d s budget (rest : Z -> io (D * ReclaimTx) CoreError unit) (after : ReclaimTx -> ReclaimTx) :
  reads d0 d -> u64 (sg_lba s) -> root_shape (rx_root tx) -> 0 <= budget -> rx_reclaimed_blocks tx + budget < 2 ^ 64 ->
  (forall tables segs, live (content d0) g (rx_root tx) tables segs -> exists refs, live_refs (rx_root tx) tables = s :: refs) ->
  (forall tables es segs b tx1, live (content d0) g (rx_root tx) tables (es :: segs) -> segment_at (content d0) g s es ->
     consumed_entries tx (drop (Z.to_nat (rt_head_entry_offset (rx_root tx))) es) budget b tx1 ->
     rt_head_entry_offset (rx_root tx1) = zlen es ->
     exists tables2 new cs, part (content d0) g tx tables (es :: segs) (after tx1) tables2 segs new cs /\ zlen (promoted_blocks new) = budget - b) ->
  (forall d1 tx1 b, reads d0 d1 -> root_shape (rx_root tx1) -> weight (rx_root tx1) = weight (rx_root tx) ->
     rx_reclaimed_blocks tx1 + b = rx_reclaimed_blocks tx + budget -> rt_table_refs (rx_root tx1) = rt_table_refs (rx_root tx) ->
     rt_segment_refs (rx_root tx1) = rt_segment_refs (rx_root tx) ->
     rt_head_segment_offset (rx_root tx1) = rt_head_segment_offset (rx_root tx) -> 0 <= b ->
     wpi (rest b) (d1, tx1) (fun _ => batch_post (after tx1) b) (batch_fail (after tx1))) ->
  wpi (let! '(finished, b) := consume_segment geo s g budget in if (finished : bool) then rest b else iret tt) (d, tx)
    (fun _ => batch_post tx budget) (batch_fail tx).
Proof.
  intros Hr Hu Hsh Hb Hrb Hhead Hpart Hrest. apply wpi_bind. eapply wpi_mono; [by apply (wpi_consume_segment d0 g)| |]; cbn beta.
  2: { intros e st [? He]. split; [done|]. intros tables segs Hl. destruct He as [|He]; [done|].
       destruct (Hhead _ _ Hl) as (refs & Href). destruct (live_head _ _ _ _ _ Hl Href) as (es & segs1 & -> & Hes & Hc). by destruct (He es Hes). }
  intros [finished b] [d1 tx1] (Hr1 & es & Hes & Hlt & Hce & Hf). cbn [fst snd] in *. destruct (segment_at_inv _ _ _ _ Hes) as (_ & _ & _ & Hcap).
  destruct (shape_advanced tx es budget b tx1 Hsh Hlt Hcap Hce) as (Hsh1 & Hw1 & Hrb1 & Ht1 & Hs1 & Ho1 & Hb1).
  assert (forall tables segs, live (content d0) g (rx_root tx) tables segs -> exists refs segs1, live_refs (rx_root tx) tables = s :: refs /\ segs = es :: segs1) as Hes1.
  { intros tables segs Hl. destruct (Hhead _ _ Hl) as (refs & Href). destruct (live_head _ _ _ _ _ Hl Href) as (es' & segs1 & -> & Hes' & _).
    rewrite <- (segment_at_fun _ _ _ _ _ Hes Hes'). eauto. }
  destruct finished.
  - assert (forall tables segs, live (content d0) g (rx_root tx) tables segs -> exists tables1 segs1 new cs,
      part (content d0) g tx tables segs (after tx1) tables1 segs1 new cs /\ zlen (promoted_blocks new) = budget - b) as Hstep.
    { intros tables segs Hl. destruct (Hes1 _ _ Hl) as (refs & segs1 & Href & ->).
      destruct (Hpart tables es segs1 b tx1) as (tables2 & new & cs & ? & ?); [done|done|done|lia|]. by exists tables2, segs1, new, cs. }
    eapply wpi_mono; [by apply Hrest| |]; cbn beta.
    + intros _ st. by apply batch_post_step.
    + intros e st. by eapply batch_fail_step.
  - apply wpi_ret. split; [done|]. split; [done|]. intros tables segs Hl. destruct (Hes1 _ _ Hl) as (refs & segs1 & Href & ->).
    cbn [snd]. eapply batch_unfinished; [done..|]. lia.
Qed.

Lemma refs_total_nonneg tables : Forall (fun t => 1 <= tb_ref_count t) tables -> 0 <= refs_total tables.
Proof. induction 1; cbn; [lia|]. unfold refs_total in *. lia. Qed.

Lemma weight_nonneg root : root_shape root ->
  zlen (rt_segment_refs root) + zlen (rt_inline_entries root) + (match rt_table_refs root with [] => 0 | _ => 1 end) <= weight root.
Proof.
  intros Hsh. unfold weight. pose proof (sh_table_cursor _ Hsh) as Hc. destruct (sh_tables _ Hsh) as [_ Ht].
  destruct (rt_table_refs root) as [|t ts].
  - change (refs_total []) with 0. lia.
  - apply Forall_cons in Ht as [? Ht]. change (refs_total (t :: ts)) with (tb_ref_count t + refs_total ts).
    pose proof (refs_total_nonneg ts Ht). lia.
Qed.

Section Turns.
Context (rest : Z -> io (D * ReclaimTx) CoreError unit) (fuel : nat).
Hypothesis Hrest : forall d tx budget, reads d0 d -> root_shape (rx_root tx) -> 0 <= budget -> rx_reclaimed_blocks tx + budget < 2 ^ 64 ->
  turns (rx_root tx) budget fuel -> wpi (rest budget) (d, tx) (fun _ => batch_post tx budget) (batch_fail tx).
Context (d : D) (tx : ReclaimTx) (budget : Z).
Hypothesis Hr : reads d0 d.
Hypothesis Hsh : root_shape (rx_root tx).
Hypothesis Hb : 0 < budget.
Hypothesis Hrb : rx_reclaimed_blocks tx + budget < 2 ^ 64.
Hypothesis Hfuel : weight (rx_root tx) < Z.of_nat (S fuel).

Lemma turn_by_inline e inline :
  rt_table_refs (rx_root tx) = [] -> rt_segment_refs (rx_root tx) = [] -> rt_inline_entries (rx_root tx) = e :: inline ->
  wpi (if rx_oldest_protected_generation tx <? re_retire_generation e then
         with_tx (imodify (fun tx => set_rx_stats (set_blocked (rx_stats tx)) tx))
       else let! b := with_tx (consume_inline e inline budget) in rest b) (d, tx) (fun _ => batch_post tx budget) (batch_fail tx).
Proof.
  intros Ht Hs Hi. pose proof (sh_inline _ Hsh) as HI. rewrite Hi in HI. apply Forall_cons in HI as [He _].
  pose proof (proj1 He) as Hty. apply run_valid_inv in He.
  pose proof (weight_nonneg _ Hsh) as Hw. rewrite Ht, Hs, Hi, zlen_cons in Hw. change (zlen (@nil SegmentRef)) with 0 in Hw. pose proof (zlen_nonneg inline).
  apply wpi_if; intros Hg.
  { apply wpi_zoom, wpi_modify. split; [done|]. split; [done|]. intros tables segs Hl. cbn [snd].
    assert (stopped_at (rx_oldest_protected_generation tx) budget (live_blocks (rx_root tx) segs)) as Hst.
    { right. unfold live_blocks. rewrite Hi. pose proof (lv_tables _ _ _ _ _ Hl) as HT. rewrite Ht in HT. apply Forall2_nil_inv_l in HT as ->.
      pose proof (lv_segs _ _ _ _ _ Hl) as HS. unfold live_refs in HS. cbn in HS. rewrite drop_nil, Hs in HS. apply Forall2_nil_inv_l in HS as ->.
      cbn [concat]. rewrite !drop_nil. change (drop _ (queue_blocks [])) with (drop (Z.to_nat (rt_head_block_offset (rx_root tx))) (@nil (Z * Z))).
      rewrite drop_nil, queue_blocks_cons. unfold run_blocks. rewrite seqZ_cons by lia. cbn. lia. }
    destruct (batch_stop (content d0) g tx tables segs budget Hl ltac:(lia) Hst) as (tables' & segs' & new & cs & Hp & Hst').
    exists tables', segs', new, cs. split; [|done]. by destruct Hp. }
  set (taken := Z.min (re_blocks e) budget).
  apply wpi_bind, wpi_zoom. cbn [snd fst]. unfold consume_inline. rewrite as_u32_small by lia. fold taken.
  apply wpi_bind, wpi_promote; [lia|]. apply wpi_bind, wpi_lift, wp_add_w; [lia|]. cbn zeta. apply wpi_bind, wpi_modify, wpi_ret. cbn [fst].
  destruct (shape_turn_inline e inline taken tx Hsh Hi ltac:(lia)) as [Hsh2 Hw2].
  assert (forall tables segs, live (content d0) g (rx_root tx) tables segs -> exists tables1 segs1 new cs,
    part (content d0) g tx tables segs (turn_inline e inline taken tx) tables1 segs1 new cs /\ zlen (promoted_blocks new) = budget - (budget - taken)) as Hstep.
  { intros tables segs Hl. destruct (part_turn_inline (content d0) g tx tables segs e inline taken) as (new & Hp & Hz); [done..|lia|lia|].
    exists tables, segs, new, []. split; [done|lia]. }
  eapply wpi_mono; [apply (Hrest d (turn_inline e inline taken tx) (budget - taken)); [done|done|lia|cbn; lia|]| |]; cbn beta.
  - unfold turns. destruct (taken =? re_blocks e) eqn:?; [left; lia|right; lia].
  - intros _ st. by apply batch_post_step.
  - intros ? st. by eapply batch_fail_step.
Qed.

Lemma turn_by_segment s ss :
  rt_table_refs (rx_root tx) = [] -> rt_segment_refs (rx_root tx) = s :: ss ->
  wpi (let! '(finished, b) := consume_segment geo s g budget in
       if (finished : bool) then
         do! with_tx (finish_segment (sg_lba s) (rt_head_segment_offset (rx_root tx))) in
         do! with_tx drop_segment in
         rest b
       else iret tt) (d, tx) (fun _ => batch_post tx budget) (batch_fail tx).
Proof.
  intros Ht Hs. pose proof (sh_segments _ Hsh) as Hst. rewrite Hs in Hst. apply Forall_cons in Hst as [[Hu _] _].
  apply (wpi_turn tx d s budget _ (turn_segment s)); [done|done|done|lia|done| | |].
  - intros tables segs Hl. exists ss. pose proof (lv_tables _ _ _ _ _ Hl) as HT. rewrite Ht in HT. apply Forall2_nil_inv_l in HT as ->.
    unfold live_refs. rewrite Hs. cbn. by rewrite drop_nil.
  - intros tables es segs b tx1 Hl Hes Hce Hfin.
    destruct (part_turn_segment (content d0) g tx s ss tables es segs budget b tx1) as (new & cs & ? & ? & _); [done..|]. by exists tables, new, cs.
  - intros d1 tx1 b Hr1 Hsh1 Hw1 Hrb1 Ht1 Hs1 Ho1 Hb'. rewrite Hs in Hs1.
    destruct (shape_turn_segment s ss tx1 Hsh1 Hs1) as [Hsh2 Hw2].
    apply wpi_bind, wpi_zoom, wpi_modify. cbn [fst snd]. apply wpi_bind, wpi_zoom, wpi_modify. cbn [fst snd]. rewrite <- Ho1.
    apply (Hrest d1 (turn_segment s tx1) b); [done|done|done|cbn; lia|left; lia].
Qed.

Lemma turn_by_table t ts :
  rt_table_refs (rx_root tx) = t :: ts ->
  wpi (let! refs := with_dev (read_table geo t g) in
       match refs !! Z.to_nat (rt_head_segment_offset (rx_root tx)) with
       | None => ilift Panic
       | Some s =>
           let! '(finished, b) := consume_segment geo s g budget in
           if (finished : bool) then
             let! segment := ilift (add_w 32 (rt_head_segment_offset (rx_root tx)) 1) in
             do! with_tx (finish_segment (sg_lba s) segment) in
             do! (if segment =? zlen refs then with_tx (finish_table (tb_lba t)) else iret tt) in
             rest b
           else iret tt
       end) (d, tx) (fun _ => batch_post tx budget) (batch_fail tx).
Proof.
  intros Ht. destruct (sh_tables _ Hsh) as [Htt _]. pose proof (sh_table_cursor _ Hsh) as Htc. rewrite Ht in Htt, Htc.
  apply Forall_cons in Htt as [[Hu Hn] _]. destruct (sh_cursor _ Hsh) as (Ho & _). unfold u32 in Ho, Hn.
  apply wpi_bind, wpi_zoom. eapply wpi_mono; [by apply (wpi_read_table d0 g)| |]; cbn beta.
  2: { intros e d1 [? He]. split; [done|]. intros tables segs Hl. destruct He as [|He]; [done|]. pose proof (lv_tables _ _ _ _ _ Hl) as HT.
       rewrite Ht in HT. apply Forall2_cons_inv_l in HT as (refs & tbs & Hta & _). by destruct (He refs). }
  intros refs d1 [Hr1 Hta]. cbn [fst snd]. pose proof Hta as (_ & Hz & _). destruct (table_at_inv _ _ _ _ Hta) as (Hst & _ & _).
  destruct (lookup_lt_is_Some_2 refs (Z.to_nat (rt_head_segment_offset (rx_root tx)))) as [s Hs]; [unfold zlen in *; lia|]. rewrite Hs.
  rewrite Forall_lookup in Hst. destruct (Hst _ _ Hs) as [Hus _].
  apply (wpi_turn tx d1 s budget _ (turn_table s t refs (rt_head_segment_offset (rx_root tx) + 1))); [done|done|done|lia|done| | |].
  - intros tables segs Hl. eapply table_head; [apply Hl|done..].
  - intros tables es segs b tx1 Hl Hes Hce Hfin.
    destruct (part_turn_table (content d0) g tx t ts tables s es segs budget b tx1 refs) as (tables2 & new & cs & ? & ? & _); [done..|]. by exists tables2, new, cs.
  - intros d2 tx1 b Hr2 Hsh1 Hw1 Hrb1 Ht1 Hs1 Ho1 Hb'. rewrite Ht in Ht1.
    destruct (shape_turn_table s t ts refs tx1 Hsh1 Ht1 Hz) as [Hsh2 Hw2]. rewrite Ho1 in Hsh2, Hw2.
    apply wpi_bind, wpi_lift, wp_add_w; [lia|]. apply wpi_bind, wpi_zoom, wpi_modify. cbn [fst snd].
    assert (forall t2, t2 = turn_table s t refs (rt_head_segment_offset (rx_root tx) + 1) tx1 ->
      wpi (rest b) (d2, t2) (fun _ => batch_post (turn_table s t refs (rt_head_segment_offset (rx_root tx) + 1) tx1) b)
        (batch_fail (turn_table s t refs (rt_head_segment_offset (rx_root tx) + 1) tx1))) as Hgo.
    { intros t2 ->. apply Hrest; [done|done|done| |left; lia]. unfold turn_table. destruct (_ =? _); cbn; lia. }
    apply wpi_bind. unfold turn_table in Hgo |- *. destruct (_ =? zlen refs); [apply wpi_zoom, wpi_modify|apply wpi_ret]; by apply Hgo.
Qed.
End Turns.

Lemma wpi_consume fuel : forall d tx budget,
  reads d0 d -> root_shape (rx_root tx) -> 0 <= budget -> rx_reclaimed_blocks tx + budget < 2 ^ 64 -> turns (rx_root tx) budget fuel ->
  wpi (consume fuel geo g budget) (d, tx) (fun _ => batch_post tx budget) (batch_fail tx).
Proof.
  induction fuel as [|fuel IH]; intros d tx budget Hr Hsh Hb Hrb Hfuel; pose proof (weight_nonneg _ Hsh) as Hw;
    pose proof (zlen_nonneg (rt_segment_refs (rx_root tx))); pose proof (zlen_nonneg (rt_inline_entries (rx_root tx))).
  { exfalso. destruct Hfuel as [?|?]; [|lia]. destruct (rt_table_refs (rx_root tx)); lia. }
  cbn [consume]. apply wpi_if; intros Hb1.
  { apply wpi_ret. split; [done|]. split; [done|]. intros tables segs Hl. apply batch_stop; [done|done|]. left. lia. }
  destruct Hfuel as [Hfuel|[? _]]; [|lia]. apply wpi_bind, wpi_get. cbn [snd]. cbn zeta.
  destruct (rt_table_refs (rx_root tx)) as [|t ts] eqn:Ht; [destruct (rt_segment_refs (rx_root tx)) as [|s ss] eqn:Hs|].
  - destruct (rt_inline_entries (rx_root tx)) as [|e inline] eqn:Hi.
    + apply wpi_ret. split; [done|]. split; [done|]. intros tables segs Hl. apply batch_stop; [done|done|]. right.
      unfold live_blocks. cbn [snd]. rewrite Hi. pose proof (lv_tables _ _ _ _ _ Hl) as HT. rewrite Ht in HT. apply Forall2_nil_inv_l in HT as ->.
      pose proof (lv_segs _ _ _ _ _ Hl) as HS. unfold live_refs in HS. cbn in HS. rewrite drop_nil, Hs in HS. apply Forall2_nil_inv_l in HS as ->.
      cbn [concat]. rewrite drop_nil. cbn. by rewrite drop_nil.
    + apply (turn_by_inline _ fuel IH); (done || lia).
  - apply (turn_by_segment _ fuel IH) with (ss := ss); (done || lia).
  - apply (turn_by_table _ fuel IH) with (ts := ts); (done || lia).
Qed.
End Consume.

(** ** Starting a transaction *)

(** What validation of a root establishes besides its totals. *)
Lemma root_validate_shape r bs g :
  ReclaimRoot_typed r g -> ReclaimRoot_validate r bs = Ok tt ->
  Forall (fun t => 1 <= tb_ref_count t <= TABLE_REF_CAP) (rt_table_refs r) /\
  Forall (fun s => 1 <= sg_entry_count s <= SEGMENT_ENTRY_CAP) (rt_segment_refs r) /\
  (match rt_table_refs r with [] => rt_head_segment_offset r = 0 | t :: _ => rt_head_segment_offset r < tb_ref_count t end) /\
  0 < rc_inline_entries (rt_caps r) /\ 0 < rc_segment_refs (rt_caps r) /\ 0 < rc_table_refs (rt_caps r).
Proof.
  intros (_ & _ & _ & _ & _ & _ & Hc & Htt & Hst & _) H. refine (wp_of_ok (ReclaimRoot_validate r bs) tt (fun _ => _) any_error _ H). clear H.
  pose proof Hc as Hc'. unfold caps_typed, u16 in Hc'. unfold ReclaimRoot_validate, ReclaimCaps_validate. apply wp_bind. rx.
  apply wp_if; [done|intros _]. rewrite root_payload_len_eq by done. apply wp_bind, wp_ok. rx.
  apply wp_ok. rx. apply wp_bind, wp_each; [apply Forall_forall; intros t _; unfold check_table_ref; by case_match| |done]. intros HT.
  apply wp_bind, wp_each; [apply Forall_forall; intros t _; unfold check_segment_ref; by case_match| |done]. intros HS.
  apply wp_bind. apply (wp_mono _ (fun _ => match rt_table_refs r with [] => rt_head_segment_offset r = 0 | t :: _ => rt_head_segment_offset r < tb_ref_count t end)
    _ any_error); [|intros [] Htc; cbv beta|done].
  { destruct (rt_table_refs r); rx; apply wp_ok; lia. }
  apply wp_bind, (wp_mono _ (fun _ => True) _ any_error); [|intros ? _; cbv beta|done].
  { destruct (rt_table_refs r), (rt_segment_refs r); (done || by rx). }
  apply wp_bind, wp_checked_sub; [intros _|done]. rx. apply wp_ok. split_and!; [| |done|lia..].
  - eapply Forall_impl; [apply Forall_and; split; [exact HT|exact Htt]|]. intros t [Ht [_ Hu]]. unfold check_table_ref in Ht. unfold u32 in Hu.
    destruct (_ || _) eqn:?; [done|]. lia.
  - eapply Forall_impl; [apply Forall_and; split; [exact HS|exact Hst]|]. intros t [Ht [_ Hu]]. unfold check_segment_ref in Ht. unfold u32 in Hu.
    destruct (_ || _) eqn:?; [done|]. lia.
Qed.

(** A queue on a volume in a state of generation [g]. *)
Definition queue_at (v : Z -> bytes) (g lba : Z) (root : ReclaimRoot) (tables : list (list SegmentRef)) (segs : list (list ReclaimEntry)) : Prop :=
  root_at v g lba root /\ live v g root tables segs /\ rt_pending_blocks root = zlen (live_blocks root segs).

Lemma root_at_inv v g lba root :
  root_at v g lba root -> exists gen, ReclaimRoot_typed root gen /\ inline_valid root /\ ReclaimRoot_validate root (block_size geo) = Ok tt.
Proof.
  intros (_ & (gen & Hd & _ & Hz) & _). exists gen. rewrite <- Hz.
  destruct (wp_of_ok _ _ _ _ (ReclaimRoot_decode_inv (v lba)) Hd) as (? & ? & ? & _). done.
Qed.

Lemma root_at_shape v g lba root : root_at v g lba root -> root_shape root.
Proof.
  intros H. destruct (root_at_inv _ _ _ _ H) as (gen & Ht & Hi & Hv). destruct (root_validate_shape _ _ _ Ht Hv) as (HT & _ & Htc & _).
  destruct Ht as (_ & _ & _ & ? & ? & ? & _ & ? & ? & ? & _). constructor; [done|split; [done|]|done|by apply Forall_and|done].
  eapply Forall_impl; [exact HT|]. cbn. lia.
Qed.

Definition started (root : ReclaimRoot) (lba new_generation oldest : Z) : ReclaimTx :=
  {| rx_oldest_protected_generation := oldest; rx_committed_root_lba := lba; rx_new_generation := new_generation; rx_root := root;
     rx_appends := []; rx_promoted := []; rx_consumed_structure := []; rx_reclaimed_blocks := 0; rx_planned_allocations := None;
     rx_stats := ReclaimStats_default |}.

Section Begin.
Context {D : Type} {device : BlockDevice Decoded D} {contract : DeviceContract Decoded D core_decodes} (g : Z).

Abbreviation content := (view (decodes := core_decodes)).

Lemma wpi_begin (d : D) lba new_generation oldest batch_blocks :
  dev_ok (decodes := core_decodes) d -> u64 lba -> u64 batch_blocks ->
  wpi (ReclaimTx_begin geo lba g new_generation oldest batch_blocks) d
    (fun tx d' => reads d d' /\ root_shape (rx_root tx) /\ forall root tables segs, queue_at (content d) g lba root tables segs ->
       batch (content d) g (started root lba new_generation oldest) tables segs batch_blocks tx)
    (fun e d' => reads d d' /\ forall root tables segs, queue_at (content d) g lba root tables segs -> 0 < oldest <= g -> only_io e).
Proof.
  intros Hd Hl Hb. assert (reads d d) as Hr by by apply agree_refl. unfold ReclaimTx_begin.
  apply wpi_if; intros Ho; [apply wpi_err; split; [done|]; intros; lia|].
  apply wpi_bind. eapply wpi_mono; [by apply (wpi_read_root d g)| |]; cbn beta.
  2: { intros e d1 [? He]. split; [done|]. intros root tables segs [Hq _] _. destruct He as [|He]; [done|]. by destruct (He root). }
  intros root d1 [Hr1 Hroot]. pose proof (root_at_shape _ _ _ _ Hroot) as Hsh. fold (started root lba new_generation oldest).
  assert (forall root', root_at (content d) g lba root' -> root' = root) as Hfun.
  { intros root' (_ & (? & Hd' & _) & _). destruct Hroot as (_ & (? & Hd1 & _) & _). congruence. }
  assert (wpi (consume (consume_fuel root) geo g batch_blocks) (d1, started root lba new_generation oldest)
    (fun _ => batch_post d g (started root lba new_generation oldest) batch_blocks) (batch_fail d g (started root lba new_generation oldest))) as H.
  { unfold u64 in Hb. apply wpi_consume; [done|done|lia|cbn; lia|]. left. unfold weight, consume_fuel. cbn. fold (refs_total (rt_table_refs root)).
    destruct (sh_tables _ Hsh) as [_ HT%refs_total_nonneg]. destruct (sh_cursor _ Hsh) as (? & _). unfold u32 in *.
    pose proof (zlen_nonneg (rt_segment_refs root)). pose proof (zlen_nonneg (rt_inline_entries root)). lia. }
  unfold wpi in H |- *. destruct (consume _ _ _ _ _) as [[d2 tx2] [[]|e|]]; [| |done].
  - destruct H as (Hr2 & Hsh2 & Hq). split; [done|]. split; [done|]. intros root' tables segs (Hra & Hlive & _). rewrite (Hfun _ Hra) in *. by apply Hq.
  - destruct H as (Hr2 & Hq). split; [done|]. intros root' tables segs (Hra & Hlive & _) _. rewrite (Hfun _ Hra) in *. by eapply Hq.
Qed.
End Begin.

(** ** Rebuilding *)

Lemma sealings_shift fuel cap chunk len k j : sealings fuel cap chunk len (k + j) = (fst (sealings fuel cap chunk len k), snd (sealings fuel cap chunk len k) + j).
Proof.
  revert len k. induction fuel as [|fuel IH]; intros len k; [done|]. cbn. destruct (cap <? len); [|done].
  replace (k + j + 1) with (k + 1 + j) by lia. apply IH.
Qed.

Lemma sealings_nonneg fuel cap chunk len : 0 <= snd (sealings fuel cap chunk len 0).
Proof.
  revert len. induction fuel as [|fuel IH]; intros len; [done|]. cbn [sealings]. destruct (cap <? len); [|done].
  rewrite (sealings_shift fuel cap chunk _ 0 1). cbn [snd]. specialize (IH (len - Z.min chunk len)). lia.
Qed.

Definition sealed_by {X Y} (cap chunk : Z) (encode : list X -> result bytes) (reference : Z -> list X -> Y) (st st' : Sealing X Y)
    (chunks : list (list X)) (used : list Z) (blocks : list bytes) : Prop :=
  se_items st = concat chunks ++ se_items st' /\ se_lbas st = used ++ se_lbas st' /\
  se_refs st' = se_refs st ++ zip_with reference used chunks /\ se_writes st' = se_writes st ++ zip used blocks /\
  Forall2 (fun c b => encode c = Ok b) chunks blocks /\ length used = length chunks /\
  Forall (fun c => 1 <= zlen c <= chunk) chunks /\ zlen (se_items st') <= cap.

Lemma wp_seal_chunks {X Y} cap chunk (encode : list X -> result bytes) (reference : Z -> list X -> Y) (good : X -> Prop) fuel : forall st,
  0 <= cap -> 1 <= chunk -> zlen (se_items st) <= Z.of_nat fuel -> Forall good (se_items st) ->
  (forall c, Forall good c -> 1 <= zlen c <= chunk -> exists b, encode c = Ok b) ->
  snd (sealings fuel cap chunk (zlen (se_items st)) 0) <= zlen (se_lbas st) ->
  wp (seal_chunks fuel cap chunk encode reference st)
    (fun st' => exists chunks used blocks, sealed_by cap chunk encode reference st st' chunks used blocks /\
       zlen used = snd (sealings fuel cap chunk (zlen (se_items st)) 0)) no_error.
Proof.
  induction fuel as [|fuel IH]; intros st Hcap Hch Hf Hg He Hn; cbn [seal_chunks sealings].
  { apply wp_ok. exists [], [], []. split; [|done]. unfold sealed_by. cbn. rewrite !app_nil_r. split_and!; try done; lia. }
  cbn [sealings] in Hn. destruct (cap <? zlen (se_items st)) eqn:Hlt in |- *.
  2: { apply wp_ok. exists [], [], []. split; [|done]. unfold sealed_by. cbn. rewrite !app_nil_r. split_and!; try done; lia. }
  rewrite Hlt in Hn. rewrite (sealings_shift fuel cap chunk _ 0 1) in Hn |- *. cbn [snd] in Hn |- *.
  set (take := Z.min chunk (zlen (se_items st))) in *. set (c := sub (se_items st) 0 take).
  assert (zlen c = take) as Hc by (unfold c; rewrite zlen_sub; lia).
  assert (se_items st = c ++ sub (se_items st) take (zlen (se_items st))) as Hsplit.
  { unfold c. rewrite <- sub_split by lia. by rewrite sub_all. }
  assert (Forall good c /\ Forall good (sub (se_items st) take (zlen (se_items st)))) as [Hgc Hgr] by (rewrite Hsplit in Hg; by apply Forall_app in Hg).
  pose proof (sealings_nonneg fuel cap chunk (zlen (se_items st) - take)) as Hnn.
  destruct (se_lbas st) as [|lba lbas] eqn:Hl; [change (zlen (@nil Z)) with 0 in Hn; lia|]. rewrite zlen_cons in Hn. cbn [next_lba obind].
  destruct (He c Hgc ltac:(lia)) as [b Hb]. fold c. rewrite Hb. cbn [of_format obind].
  assert (zlen (sub (se_items st) take (zlen (se_items st))) = zlen (se_items st) - take) as Hz by (rewrite zlen_sub; lia).
  eapply wp_mono; [apply IH; cbn [se_items se_lbas]; rewrite ?Hz; (done || lia)| |done]; cbn beta.
  intros st' (chunks & used & blocks & (H1 & H2 & H3 & H4 & H5 & H6 & H7 & H8) & Hu). cbn [se_items se_lbas se_refs se_writes] in *.
  exists (c :: chunks), (lba :: used), (b :: blocks). split; [|rewrite zlen_cons, Hu, Hz; lia].
  unfold sealed_by. cbn [concat zip_with zip length]. split_and!.
  - rewrite <- app_assoc, <- H1. done.
  - by rewrite Hl, H2.
  - rewrite H3, <- app_assoc. done.
  - rewrite H4, <- app_assoc. done.
  - by constructor.
  - by rewrite H6.
  - constructor; [lia|done].
  - done.
Qed.

Definition retired_entry (gen lba : Z) : ReclaimEntry := {| re_start := lba; re_blocks := 1; re_retire_generation := gen |}.

(** How many segments and tables a rebuild of [tx] seals. *)
Definition segments_needed (tx : ReclaimTx) : Z :=
  let len := zlen (rt_inline_entries (rx_root tx)) + zlen (rx_appends tx) in
  snd (sealings (Z.to_nat len) (rc_inline_entries (rt_caps (rx_root tx))) SEGMENT_ENTRY_CAP len 0).
Definition tables_needed (tx : ReclaimTx) : Z :=
  let len := zlen (rt_segment_refs (rx_root tx)) + segments_needed tx in
  snd (sealings (Z.to_nat len) (rc_segment_refs (rt_caps (rx_root tx))) TABLE_REF_CAP len 0).

(** The state a plan leaves. *)
Definition planned (tx : ReclaimTx) (n : Z) (tx' : ReclaimTx) : Prop :=
  rx_root tx' = rx_root tx /\ rx_new_generation tx' = rx_new_generation tx /\ rx_reclaimed_blocks tx' = rx_reclaimed_blocks tx /\
  rx_appends tx' = rx_appends tx ++ map (retired_entry (rx_new_generation tx)) (rx_consumed_structure tx ++ [rx_committed_root_lba tx]) /\
  rx_planned_allocations tx' = Some n /\ n = segments_needed tx' + tables_needed tx' + 1 /\
  zlen (rt_table_refs (rx_root tx')) + tables_needed tx' <= rc_table_refs (rt_caps (rx_root tx')).

Lemma wpi_plan tx :
  wpi plan tx (planned tx)
    (fun e _ => rx_planned_allocations tx <> None \/ exists what, e = PrototypeLimit what).
Proof.
  unfold plan. apply wpi_bind, wpi_get. unfold id. destruct (rx_planned_allocations tx) as [n|] eqn:Hp; [apply wpi_err; by left|].
  apply wpi_bind, wpi_modify. cbn zeta. fold (retired_entry (rx_new_generation tx)).
  destruct (sealings _ (rc_inline_entries _) _ _ _) as [l1 n1] eqn:H1. destruct (sealings _ (rc_segment_refs _) _ _ _) as [l2 n2] eqn:H2.
  apply wpi_if; intros Hcap; [apply wpi_err; right; eauto|]. apply wpi_bind, wpi_modify, wpi_ret.
  assert (forall t, rx_root t = rx_root tx ->
    rx_appends t = rx_appends tx ++ map (retired_entry (rx_new_generation tx)) (rx_consumed_structure tx ++ [rx_committed_root_lba tx]) ->
    segments_needed t = n1 /\ tables_needed t = n2) as Hn.
  { intros t Hr Ha. assert (segments_needed t = n1) as Hs1. { unfold segments_needed. rewrite Hr, Ha. by rewrite H1. }
    split; [done|]. unfold tables_needed. rewrite Hs1, Hr. by rewrite H2. }
  unfold planned. match goal with |- context [set_rx_planned _ ?t] => destruct (Hn (set_rx_planned (Some (n1 + n2 + 1)) t)) as [-> ->]; [done|done|] end.
  split_and!; try done. cbn. lia.
Qed.

(** What a transaction must keep for its rebuild. *)
Record rebuildable (v : Z -> bytes) (g : Z) (tx : ReclaimTx) (tables : list (list SegmentRef)) (segs : list (list ReclaimEntry)) : Prop := {
  rb_live : live v g (rx_root tx) tables segs;
  rb_shape : root_shape (rx_root tx);
  rb_caps : caps_typed (rt_caps (rx_root tx)) /\ ReclaimCaps_validate (rt_caps (rx_root tx)) (block_size geo) = Ok tt;
  rb_totals : 0 <= rt_reclaimed_blocks_total (rx_root tx) /\ 0 <= rx_reclaimed_blocks tx /\
    rt_appended_blocks_total (rx_root tx) = rt_reclaimed_blocks_total (rx_root tx) + rx_reclaimed_blocks tx + zlen (live_blocks (rx_root tx) segs);
  rb_appends : Forall run_valid (rx_appends tx) /\ Forall (run_ok (rx_new_generation tx)) (rx_appends tx);
  rb_generation : u64 (rx_new_generation tx) /\ g <= rx_new_generation tx;
}.

Lemma encode_segment_ok gen c : u64 gen -> Forall run_valid c -> 1 <= zlen c <= SEGMENT_ENTRY_CAP ->
  exists b, ReclaimSegment_encode c (block_size geo) gen = Ok b.
Proof.
  intros Hg [Ht Hv]%Forall_and Hz. pose proof (wf_block_size (g := geo)) as Hbs.
  pose proof (ReclaimSegment_encode_spec c (block_size geo) gen (conj Ht Hg) ltac:(lia)) as H.
  destruct (ReclaimSegment_encode c (block_size geo) gen) as [b|e|]; [by exists b| |done]. destruct H. split; [done|]. split; [done|].
  rewrite zlen_segment_block_wire. unfold SEGMENT_ENTRY_CAP in Hz. lia.
Qed.

Lemma encode_table_ok gen c : u64 gen -> Forall (fun s => segment_typed s /\ segment_ref_ok s) c -> 1 <= zlen c <= TABLE_REF_CAP ->
  exists b, ReclaimTable_encode c (block_size geo) gen = Ok b.
Proof.
  intros Hg [Ht Hv]%Forall_and Hz. pose proof (wf_block_size (g := geo)) as Hbs.
  pose proof (ReclaimTable_encode_spec c (block_size geo) gen (conj Ht Hg) ltac:(lia)) as H.
  destruct (ReclaimTable_encode c (block_size geo) gen) as [b|e|]; [by exists b| |done]. destruct H. split; [done|]. split; [done|].
  rewrite zlen_table_block_wire. unfold TABLE_REF_CAP in Hz. lia.
Qed.

Lemma run_ok_mono g g' e : run_ok g e -> g <= g' -> run_ok g' e.
Proof.
  unfold run_ok, check_entry. intros H Hg. destruct (validate_run geo e) as [[]| |]; cbn in *; [|done|done].
  destruct (g <? _) eqn:?; [done|]. by replace (g' <? _) with false by lia.
Qed.

Lemma runs_ok_mono g g' l : Forall (run_ok g) l -> g <= g' -> Forall (run_ok g') l.
Proof. intros H Hg. eapply Forall_impl; [exact H|]. intros e He. by eapply run_ok_mono. Qed.

(** The same structure, read from a later state that kept its blocks. *)
Lemma live_later v g root tables segs v' g' :
  live v g root tables segs -> (forall a, a ∈ live_structure root tables -> v' a = v a) -> g <= g' -> live v' g' root tables segs.
Proof.
  intros [HT HS Htc Hc Hi Hp] Hv Hg. constructor; [| |done|done|by eapply runs_ok_mono|done].
  - apply Forall2_same_length_lookup. split; [by eapply Forall2_length|]. intros i t refs Ht Hr.
    destruct (Forall2_lookup_lr _ _ _ _ _ _ HT Ht Hr) as [(gen & Hd & Hgen) Hrest]. split; [|done]. exists gen. split; [|lia].
    rewrite Hv; [done|]. apply elem_of_app. left. apply list_elem_of_In, in_map, list_elem_of_In. by eapply list_elem_of_lookup_2.
  - apply Forall2_same_length_lookup. split; [by eapply Forall2_length|]. intros i s es Hs Hr.
    destruct (Forall2_lookup_lr _ _ _ _ _ _ HS Hs Hr) as [(gen & Hd & Hgen) [Hz HF]]. split; [|split; [done|by eapply runs_ok_mono]]. exists gen. split; [|lia].
    rewrite Hv; [done|]. apply elem_of_app. right. apply list_elem_of_In, in_map, list_elem_of_In. by eapply list_elem_of_lookup_2.
Qed.

Section Extend.
Context (v : Z -> bytes) (g : Z) (root root2 : ReclaimRoot) (tables : list (list SegmentRef)) (segs : list (list ReclaimEntry)).
Context (appends : list ReclaimEntry) (echunks : list (list ReclaimEntry)) (erefs : list SegmentRef) (tchunks : list (list SegmentRef)) (trefs : list TableRef).
Hypothesis Hlive : live v g root tables segs.
Hypothesis Hvalid : Forall run_valid (rt_inline_entries root ++ appends).
Hypothesis Hsegs : Forall2 (segment_at v g) erefs echunks.
Hypothesis Htabs : Forall2 (table_at v g) trefs tchunks.
Hypothesis Hcursor : rt_head_segment_offset root2 = rt_head_segment_offset root /\ rt_head_entry_offset root2 = rt_head_entry_offset root /\
  rt_head_block_offset root2 = rt_head_block_offset root.
Hypothesis Htables2 : rt_table_refs root2 = rt_table_refs root ++ trefs.
Hypothesis Hsegments2 : rt_segment_refs root ++ erefs = concat tchunks ++ rt_segment_refs root2.
Hypothesis Hinline2 : rt_inline_entries root ++ appends = concat echunks ++ rt_inline_entries root2.

Lemma table_cursor_fits : (Z.to_nat (rt_head_segment_offset root) <= length (concat tables))%nat.
Proof.
  pose proof (lv_table_cursor _ _ _ _ _ Hlive) as H. destruct tables as [|t ts]; [by rewrite H|]. cbn. rewrite length_app. unfold zlen in H. lia.
Qed.

Lemma extended_refs : live_refs root2 (tables ++ tchunks) = live_refs root tables ++ erefs.
Proof.
  destruct Hcursor as (Hc & _). unfold live_refs. rewrite Hc, concat_app, drop_app_le by apply table_cursor_fits.
  rewrite <- !app_assoc. f_equal. by rewrite Hsegments2.
Qed.

Lemma head_fits : (Z.to_nat (rt_head_entry_offset root) <= length (concat segs))%nat /\
  (Z.to_nat (rt_head_block_offset root) <= length (queue_blocks (drop (Z.to_nat (rt_head_entry_offset root)) (concat segs))))%nat.
Proof.
  pose proof (lv_cursor _ _ _ _ _ Hlive) as H. destruct segs as [|es rest]; cbn in H; [destruct H as [-> ->]; cbn; lia|]. destruct H as [Hlt Hc].
  cbn [concat]. rewrite drop_app_le by (unfold zlen in Hlt; lia). rewrite queue_blocks_app, !length_app. unfold zlen in Hlt. split; [lia|].
  destruct (drop _ es) as [|e l]; cbn [cursor_in] in Hc; [rewrite Hc; lia|]. rewrite queue_blocks_cons, length_app.
  pose proof (zlen_run_blocks e ltac:(lia)). unfold zlen in *. lia.
Qed.

Lemma extended_blocks : live_blocks root2 (segs ++ echunks) = live_blocks root segs ++ queue_blocks appends.
Proof.
  destruct Hcursor as (_ & He & Hb). destruct head_fits as [H1 H2]. unfold live_blocks. rewrite He, Hb, concat_app, drop_app_le by done.
  rewrite queue_blocks_app, drop_app_le by done. rewrite <- !app_assoc. f_equal. by rewrite <- !queue_blocks_app, Hinline2.
Qed.

Lemma extended_live :
  Forall (run_ok g) (rt_inline_entries root2) ->
  Forall (fun lba => allocatable geo lba = true) (map tb_lba (rt_table_refs root2) ++ map sg_lba (rt_segment_refs root2)) ->
  live v g root2 (tables ++ tchunks) (segs ++ echunks).
Proof.
  intros Hi Hp. destruct Hcursor as (Hc1 & Hc2 & Hc3). constructor; [| | | |done|done].
  - rewrite Htables2. apply Forall2_app; [apply Hlive|done].
  - rewrite extended_refs. apply Forall2_app; [apply Hlive|done].
  - rewrite Hc1. pose proof (lv_table_cursor _ _ _ _ _ Hlive) as H. destruct tables as [|t ts]; [|done]. rewrite H. cbn.
    destruct Htabs as [|t c ts cs Ht]; [done|]. pose proof (table_at_inv _ _ _ _ Ht). lia.
  - pose proof (lv_cursor _ _ _ _ _ Hlive) as H. destruct segs as [|es rest].
    + destruct H as [H1 H2]. cbn [app]. apply (head_cursor_start v g _ erefs); [done|congruence|congruence].
    + cbn in H |- *. by rewrite Hc2, Hc3.
Qed.
End Extend.

Lemma root_validate_intro r bs :
  ReclaimCaps_validate (rt_caps r) bs = Ok tt -> counts_fit r ->
  Forall (fun t => 1 <= tb_ref_count t <= TABLE_REF_CAP) (rt_table_refs r) ->
  Forall (fun s => 1 <= sg_entry_count s <= SEGMENT_ENTRY_CAP) (rt_segment_refs r) ->
  (match rt_table_refs r with [] => rt_head_segment_offset r = 0 | t :: _ => rt_head_segment_offset r < tb_ref_count t end) ->
  (match rt_table_refs r, rt_segment_refs r with
   | [], [] => rt_head_entry_offset r = 0 /\ rt_head_block_offset r = 0
   | [], s :: _ => rt_head_entry_offset r < sg_entry_count s
   | _ :: _, _ => True
   end) ->
  rt_reclaimed_blocks_total r <= rt_appended_blocks_total r ->
  rt_pending_blocks r = rt_appended_blocks_total r - rt_reclaimed_blocks_total r -> ReclaimRoot_validate r bs = Ok tt.
Proof.
  intros Hc (Hf1 & Hf2 & Hf3) HT HS Htc Hsc Hle Hp. apply wp_no_error. unfold ReclaimRoot_validate. rewrite Hc. apply wp_bind, wp_ok.
  apply wp_if_false; [lia|].
  assert (Forall (fun t => check_table_ref tt t = Ok tt) (rt_table_refs r)) as HT'.
  { eapply Forall_impl; [exact HT|]. cbn beta. intros t Ht. unfold check_table_ref. by replace (_ || _) with false by lia. }
  assert (Forall (fun s => check_segment_ref tt s = Ok tt) (rt_segment_refs r)) as HS'.
  { eapply Forall_impl; [exact HS|]. cbn beta. intros t Ht. unfold check_segment_ref. by replace (_ || _) with false by lia. }
  apply wp_bind, wp_each; [eapply Forall_impl; [exact HT'|]; congruence|intros _|done].
  apply wp_bind, wp_each; [eapply Forall_impl; [exact HS'|]; congruence|intros _|done].
  apply wp_bind, (wp_mono _ (fun _ => True) _ no_error); [|intros ? _; cbv beta|done].
  { destruct (rt_table_refs r); apply wp_if_false; (done || lia). }
  apply wp_bind, (wp_mono _ (fun _ => True) _ no_error); [|intros ? _; cbv beta|done].
  { destruct (rt_table_refs r), (rt_segment_refs r); try done; apply wp_if_false; (done || lia). }
  apply wp_bind, wp_checked_sub; [intros _|lia]. apply wp_if_false; [lia|]. by apply wp_ok.
Qed.

Lemma wp_sum_blocks l acc :
  Forall (fun e => 0 <= re_blocks e) l -> acc + zlen (queue_blocks l) < 2 ^ 64 ->
  ofold sum_blocks acc l = Ok (acc + zlen (queue_blocks l)).
Proof.
  revert acc. induction l as [|e l IH]; intros acc HF Hfit; cbn [ofold]; [f_equal; change (zlen (queue_blocks [])) with 0; lia|].
  apply Forall_cons in HF as [He HF]. rewrite queue_blocks_cons, zlen_app, zlen_run_blocks in * by done. pose proof (zlen_nonneg (queue_blocks l)).
  unfold sum_blocks at 1, checked_add. replace (_ <? _) with true by lia. cbn [ok_or obind]. rewrite IH by (done || lia). f_equal. lia.
Qed.

Lemma sealed_refs_typed used (chunks : list (list ReclaimEntry)) :
  Forall u64 used -> Forall (fun c => 1 <= zlen c <= SEGMENT_ENTRY_CAP) chunks -> length used = length chunks ->
  Forall (fun s => segment_typed s /\ segment_ref_ok s) (zip_with segment_reference used chunks).
Proof.
  intros Hu Hc. revert chunks Hc. induction Hu as [|lba used Hl Hu IH]; intros [|c chunks] Hc Hlen; cbn; try done.
  apply Forall_cons in Hc as [Hc HF]. injection Hlen as Hlen. unfold SEGMENT_ENTRY_CAP in *. constructor; [|by apply IH].
  unfold segment_typed, segment_ref_ok, SEGMENT_ENTRY_CAP. cbn. rewrite as_u32_small by lia. unfold u32. split; [split; [done|lia]|lia].
Qed.

Lemma sealed_tables_typed used (chunks : list (list SegmentRef)) :
  Forall u64 used -> Forall (fun c => 1 <= zlen c <= TABLE_REF_CAP) chunks -> length used = length chunks ->
  Forall (fun t => table_typed t /\ 1 <= tb_ref_count t <= TABLE_REF_CAP) (zip_with table_reference used chunks).
Proof.
  intros Hu Hc. revert chunks Hc. induction Hu as [|lba used Hl Hu IH]; intros [|c chunks] Hc Hlen; cbn; try done.
  apply Forall_cons in Hc as [Hc HF]. injection Hlen as Hlen. unfold TABLE_REF_CAP in *. constructor; [|by apply IH].
  unfold table_typed. cbn. rewrite as_u32_small by lia. unfold u32. split; [split; [done|lia]|lia].
Qed.

(** Sealed blocks hold what was sealed, wherever they are written. *)
Lemma sealed_segments_at v g used chunks blocks :
  u64 g -> length used = length chunks -> Forall2 (fun c b => ReclaimSegment_encode c (block_size geo) g = Ok b) chunks blocks ->
  Forall (fun c => 1 <= zlen c <= SEGMENT_ENTRY_CAP) chunks -> Forall run_valid (concat chunks) -> Forall (run_ok g) (concat chunks) ->
  (forall p, p ∈ zip used blocks -> v (fst p) = snd p) ->
  Forall2 (segment_at v g) (zip_with segment_reference used chunks) chunks.
Proof.
  intros Hg Hlen HF. revert used Hlen. pose proof (wf_block_size (g := geo)) as Hbs. induction HF as [|c b chunks blocks He HF IH]; intros [|lba used] Hlen Hc Hva Hok Hv; cbn; try done.
  apply Forall_cons in Hc as [Hc HF']. cbn in Hva, Hok. apply Forall_app in Hva as [Hva Hva'], Hok as [Hok Hok']. injection Hlen as Hlen.
  constructor; [|apply IH; try done; intros p Hp; apply Hv; cbn; by right]. unfold SEGMENT_ENTRY_CAP in Hc.
  split; [|split; [cbn; rewrite as_u32_small by lia; done|done]]. exists g. split; [|lia]. cbn.
  pose proof (Hv (lba, b) ltac:(cbn; by left)) as Hb. cbn in Hb. rewrite Hb. apply (decode_encode c (block_size geo) g); [|lia|done].
  split; [|done]. eapply Forall_impl; [exact Hva|]. by intros e [? _].
Qed.

Lemma sealed_tables_at v g used chunks blocks :
  u64 g -> length used = length chunks -> Forall2 (fun c b => ReclaimTable_encode c (block_size geo) g = Ok b) chunks blocks ->
  Forall (fun c => 1 <= zlen c <= TABLE_REF_CAP) chunks -> Forall segment_typed (concat chunks) ->
  Forall (fun s => allocatable geo (sg_lba s) = true) (concat chunks) ->
  (forall p, p ∈ zip used blocks -> v (fst p) = snd p) ->
  Forall2 (table_at v g) (zip_with table_reference used chunks) chunks.
Proof.
  intros Hg Hlen HF. revert used Hlen. pose proof (wf_block_size (g := geo)) as Hbs. induction HF as [|c b chunks blocks He HF IH]; intros [|lba used] Hlen Hc Hva Hok Hv; cbn; try done.
  apply Forall_cons in Hc as [Hc HF']. cbn in Hva, Hok. apply Forall_app in Hva as [Hva Hva'], Hok as [Hok Hok']. injection Hlen as Hlen.
  constructor; [|apply IH; try done; intros p Hp; apply Hv; cbn; by right]. unfold TABLE_REF_CAP in Hc.
  split; [|split; [cbn; rewrite as_u32_small by lia; done|]].
  - exists g. split; [|lia]. cbn. pose proof (Hv (lba, b) ltac:(cbn; by left)) as Hb. cbn in Hb. rewrite Hb. by apply (decode_encode c (block_size geo) g); [|lia|].
  - apply Forall_map. eapply Forall_impl; [apply Forall_and; split; [exact Hok|exact Hva]|]. intros s [Hs [Hu _]]. unfold check_structure, u64 in *.
    rewrite (is_allocatable_eq geo) by lia. by rewrite Hs.
Qed.

Lemma places_checked what l :
  Forall u64 l -> Forall (fun lba => allocatable geo lba = true) l -> Forall (fun lba => check_structure geo what tt lba = Ok tt) l.
Proof.
  intros Hu Ha. eapply Forall_impl; [apply Forall_and; split; [exact Hu|exact Ha]|]. intros lba [Hl Hal]. unfold check_structure, u64 in *.
  rewrite (is_allocatable_eq geo) by lia. by rewrite Hal.
Qed.

Lemma zip_with_lbas_seg used (chunks : list (list ReclaimEntry)) : length used = length chunks -> map sg_lba (zip_with segment_reference used chunks) = used.
Proof. revert chunks. induction used as [|a used IH]; intros [|c chunks] H; cbn; try done. injection H as H. by rewrite IH. Qed.

Lemma zip_with_lbas_tab used (chunks : list (list SegmentRef)) : length used = length chunks -> map tb_lba (zip_with table_reference used chunks) = used.
Proof. revert chunks. induction used as [|a used IH]; intros [|c chunks] H; cbn; try done. injection H as H. by rewrite IH. Qed.

(** What a rebuild gives: writes to exactly the blocks it was handed, and a
    queue with the new runs at the end on every later state that holds them. *)
Definition rebuilt (v : Z -> bytes) (tx : ReclaimTx) (tables : list (list SegmentRef)) (blocks : list (Z * Z)) (lbas : list Z) (b : ReclaimBuild) : Prop :=
  map fst (rb_writes b) = lbas /\ last lbas = Some (rb_root_lba b) /\ rb_pending_blocks b = zlen blocks /\
  forall v', (forall p, p ∈ rb_writes b -> v' (fst p) = snd p) -> (forall a, a ∈ live_structure (rx_root tx) tables -> v' a = v a) ->
    exists root' tables' segs', queue_at v' (rx_new_generation tx) (rb_root_lba b) root' tables' segs' /\ live_blocks root' segs' = blocks /\
      Permutation (live_structure root' tables' ++ [rb_root_lba b]) (live_structure (rx_root tx) tables ++ lbas).

Lemma zip_fst {X Y} (l : list X) (k : list Y) : length l = length k -> map fst (zip l k) = l.
Proof. revert k. induction l as [|x l IH]; intros [|y k] H; cbn; try done. injection H as H. by rewrite IH. Qed.

Section Rebuild.
Context (v : Z -> bytes) (g : Z) (tx : ReclaimTx) (tables : list (list SegmentRef)) (segs : list (list ReclaimEntry)).
Hypothesis Hrb : rebuildable v g tx tables segs.
Context (lbas : list Z) (root_lba : Z).
Hypothesis Hlbas : Forall (fun lba => u64 lba /\ allocatable geo lba = true) lbas.

Abbreviation root := (rx_root tx).
Abbreviation gen := (rx_new_generation tx).
Abbreviation caps := (rt_caps (rx_root tx)).

(** The two sealing loops have run. *)
Context (s : Sealing ReclaimEntry SegmentRef) (c1 : list (list ReclaimEntry)) (u1 : list Z) (b1 : list bytes).
Context (t : Sealing SegmentRef TableRef) (c2 : list (list SegmentRef)) (u2 : list Z) (b2 : list bytes).
Hypothesis Hs : sealed_by (rc_inline_entries caps) SEGMENT_ENTRY_CAP (fun es => ReclaimSegment_encode es (block_size geo) gen) segment_reference
  {| se_items := rt_inline_entries root ++ rx_appends tx; se_lbas := lbas; se_refs := rt_segment_refs root; se_writes := [] |} s c1 u1 b1.
Hypothesis Ht : sealed_by (rc_segment_refs caps) TABLE_REF_CAP (fun refs => ReclaimTable_encode refs (block_size geo) gen) table_reference
  {| se_items := se_refs s; se_lbas := se_lbas s; se_refs := rt_table_refs root; se_writes := se_writes s |} t c2 u2 b2.
Hypothesis Hleft : se_lbas t = [root_lba].
Hypothesis Hcap : zlen (se_refs t) <= rc_table_refs caps.
Hypothesis Hfit : rt_appended_blocks_total root + zlen (queue_blocks (rx_appends tx)) < 2 ^ 64.

Definition new_root : ReclaimRoot :=
  set_totals (rt_appended_blocks_total root + zlen (queue_blocks (rx_appends tx)) - (rt_reclaimed_blocks_total root + rx_reclaimed_blocks tx))
    (rt_appended_blocks_total root + zlen (queue_blocks (rx_appends tx))) (rt_reclaimed_blocks_total root + rx_reclaimed_blocks tx)
    (set_areas (se_refs t) (se_items t) (se_items s) root).

Lemma new_lbas : lbas = u1 ++ u2 ++ [root_lba] /\ Forall u64 u1 /\ Forall u64 u2 /\ u64 root_lba /\
  Forall (fun lba => allocatable geo lba = true) u1 /\ Forall (fun lba => allocatable geo lba = true) u2 /\ allocatable geo root_lba = true.
Proof.
  destruct Hs as (_ & H1 & _). destruct Ht as (_ & H2 & _). cbn in H1, H2. rewrite H2, Hleft in H1. split; [done|].
  rewrite H1 in Hlbas. apply Forall_app in Hlbas as [[? ?]%Forall_and Hu]. apply Forall_app in Hu as [[? ?]%Forall_and [[? ?] _]%Forall_cons_1]. done.
Qed.

(** The runs and references the rebuild rearranges are sound. *)
Lemma new_runs : Forall run_valid (concat c1) /\ Forall (run_ok gen) (concat c1) /\ Forall run_valid (se_items s) /\ Forall (run_ok gen) (se_items s).
Proof.
  destruct Hs as (H1 & _). cbn in H1. destruct (rb_appends _ _ _ _ _ Hrb) as [Hva Hok]. destruct (rb_generation _ _ _ _ _ Hrb) as [_ Hg].
  assert (Forall run_valid (concat c1 ++ se_items s)) as HA.
  { rewrite <- H1. apply Forall_app. split; [apply (rb_shape _ _ _ _ _ Hrb)|done]. }
  assert (Forall (run_ok gen) (concat c1 ++ se_items s)) as HB.
  { rewrite <- H1. apply Forall_app. split; [|done]. eapply runs_ok_mono; [apply (rb_live _ _ _ _ _ Hrb)|done]. }
  apply Forall_app in HA as [? ?], HB as [? ?]. done.
Qed.

Lemma root_refs_sound : Forall (fun s => segment_typed s /\ segment_ref_ok s) (rt_segment_refs root).
Proof.
  pose proof (lv_segs _ _ _ _ _ (rb_live _ _ _ _ _ Hrb)) as HS. unfold live_refs in HS. apply Forall2_app_inv_l in HS as (k1 & k2 & _ & HS & _).
  apply Forall_and. split; [apply (rb_shape _ _ _ _ _ Hrb)|]. apply Forall_lookup. intros i s' Hi.
  destruct (Forall2_lookup_l _ _ _ _ _ HS Hi) as (es & _ & Hes). destruct (segment_at_inv _ _ _ _ Hes) as (_ & _ & Hn). destruct Hes as (_ & Hz & _).
  unfold segment_ref_ok. lia.
Qed.

Lemma new_refs : Forall (fun s => segment_typed s /\ segment_ref_ok s) (concat c2) /\ Forall (fun s => segment_typed s /\ segment_ref_ok s) (se_items t) /\
  Forall (fun s => allocatable geo (sg_lba s) = true) (concat c2) /\ Forall (fun s => allocatable geo (sg_lba s) = true) (se_items t).
Proof.
  destruct new_lbas as (_ & Hu1 & _ & _ & Ha1 & _). destruct Hs as (_ & _ & Hr & _ & _ & Hlen & Hc & _). destruct Ht as (H2 & _). cbn in H2, Hr.
  assert (Forall (fun s => segment_typed s /\ segment_ref_ok s) (concat c2 ++ se_items t)) as HA.
  { rewrite <- H2, Hr. apply Forall_app. split; [apply root_refs_sound|by apply sealed_refs_typed]. }
  assert (Forall (fun s => allocatable geo (sg_lba s) = true) (concat c2 ++ se_items t)) as HB.
  { rewrite <- H2, Hr. apply Forall_app. split.
    - pose proof (lv_places _ _ _ _ _ (rb_live _ _ _ _ _ Hrb)) as Hp. apply Forall_app in Hp as [_ Hp]. by apply Forall_map in Hp.
    - rewrite <- (zip_with_lbas_seg u1 c1 Hlen) in Ha1. by apply Forall_map in Ha1. }
  apply Forall_app in HA as [? ?], HB as [? ?]. done.
Qed.

Lemma root_tables_sound : Forall (fun t => table_typed t /\ 1 <= tb_ref_count t <= TABLE_REF_CAP) (rt_table_refs root).
Proof.
  pose proof (lv_tables _ _ _ _ _ (rb_live _ _ _ _ _ Hrb)) as HT. destruct (sh_tables _ (rb_shape _ _ _ _ _ Hrb)) as [Hty _].
  apply Forall_and. split; [done|]. apply Forall_lookup. intros i t' Hi. destruct (Forall2_lookup_l _ _ _ _ _ HT Hi) as (refs & _ & Href).
  destruct (table_at_inv _ _ _ _ Href) as (_ & _ & Hn). destruct Href as (_ & Hz & _). lia.
Qed.

Lemma new_tables : Forall (fun t => table_typed t /\ 1 <= tb_ref_count t <= TABLE_REF_CAP) (se_refs t).
Proof.
  destruct new_lbas as (_ & _ & Hu2 & _). destruct Ht as (_ & _ & Hr & _ & _ & Hlen & Hc & _). rewrite Hr. cbn. apply Forall_app.
  split; [apply root_tables_sound|by apply sealed_tables_typed].
Qed.

Lemma new_root_typed : ReclaimRoot_typed new_root gen /\ inline_valid new_root.
Proof.
  destruct (rb_totals _ _ _ _ _ Hrb) as (H1 & H2 & H3). pose proof (zlen_nonneg (live_blocks root segs)). pose proof (zlen_nonneg (queue_blocks (rx_appends tx))).
  destruct new_runs as (_ & _ & [Hi1 Hi2]%Forall_and & _). destruct new_refs as (_ & [Hr1 _]%Forall_and & _). pose proof new_tables as [Ht1 _]%Forall_and.
  destruct (sh_cursor _ (rb_shape _ _ _ _ _ Hrb)) as (? & ? & ?). destruct (rb_generation _ _ _ _ _ Hrb) as [? _]. split; [|done].
  unfold ReclaimRoot_typed, new_root. cbn. destruct (rb_caps _ _ _ _ _ Hrb) as [? _]. unfold u64 in *. split_and!; (done || lia).
Qed.

Lemma new_cursor :
  (match se_refs t with [] => rt_head_segment_offset root = 0 | t :: _ => rt_head_segment_offset root < tb_ref_count t end) /\
  (match se_refs t, se_items t with
   | [], [] => rt_head_entry_offset root = 0 /\ rt_head_block_offset root = 0
   | [], s :: _ => rt_head_entry_offset root < sg_entry_count s
   | _ :: _, _ => True
   end).
Proof.
  pose proof (rb_live _ _ _ _ _ Hrb) as Hl. pose proof (sh_table_cursor _ (rb_shape _ _ _ _ _ Hrb)) as Htc. pose proof new_tables as HT.
  destruct Hs as (_ & _ & Hr1 & _ & _ & Hlen1 & Hc1 & _). destruct Ht as (Hi2 & _ & Hr2 & _ & _ & Hlen2 & _). cbn in Hr1, Hr2, Hi2.
  destruct (rt_table_refs root) as [|t0 ts] eqn:Ht0; [|rewrite Hr2; cbn; done]. cbn in Hr2. split.
  { rewrite Htc. destruct (se_refs t) as [|t1 ts1]; [done|]. apply Forall_cons in HT as [[_ ?] _]. lia. }
  destruct (se_refs t) as [|t1 ts1] eqn:Ht1; [|done].
  assert (c2 = []) as -> by (destruct u2, c2; done). cbn in Hi2. rewrite <- Hi2, Hr1.
  pose proof (lv_tables _ _ _ _ _ Hl) as HT0. rewrite Ht0 in HT0. apply Forall2_nil_inv_l in HT0 as ->. pose proof (lv_segs _ _ _ _ _ Hl) as HS.
  unfold live_refs in HS. cbn in HS. rewrite drop_nil in HS. cbn in HS. pose proof (lv_cursor _ _ _ _ _ Hl) as Hc.
  destruct HS as [|s0 es refs ess Hes HS].
  - destruct Hc as [-> ->]. cbn. destruct u1 as [|a u1'], c1 as [|c c1']; cbn; try done. apply Forall_cons in Hc1 as [? _].
    unfold SEGMENT_ENTRY_CAP in *. rewrite as_u32_small by lia. lia.
  - destruct Hc as [Hc _]. cbn. destruct Hes as (_ & Hz & _). lia.
Qed.

Lemma new_root_valid : ReclaimRoot_validate new_root (block_size geo) = Ok tt.
Proof.
  destruct (rb_totals _ _ _ _ _ Hrb) as (H1 & H2 & H3). pose proof (zlen_nonneg (live_blocks root segs)). pose proof (zlen_nonneg (queue_blocks (rx_appends tx))).
  destruct (rb_caps _ _ _ _ _ Hrb) as [_ Hcv]. destruct new_cursor as [Hc1 Hc2]. destruct new_refs as (_ & [_ Hr1]%Forall_and & _).
  pose proof new_tables as [_ Ht1]%Forall_and. apply root_validate_intro; cbn; try done; try lia.
  split; [exact Hcap|]. split; [apply Ht|apply Hs].
Qed.

Lemma new_writes : se_writes t = zip u1 b1 ++ zip u2 b2.
Proof. destruct Hs as (_ & _ & _ & H1 & _). destruct Ht as (_ & _ & _ & H2 & _). rewrite H2. cbn. by rewrite H1. Qed.

(** The rebuilt queue, on any later state that holds the new blocks and kept the old ones. *)
Lemma new_queue v' block :
  ReclaimRoot_encode new_root (block_size geo) gen = Ok block ->
  (forall p, p ∈ se_writes t ++ [(root_lba, block)] -> v' (fst p) = snd p) -> (forall a, a ∈ live_structure root tables -> v' a = v a) ->
  queue_at v' gen root_lba new_root (tables ++ c2) (segs ++ c1) /\
  live_blocks new_root (segs ++ c1) = live_blocks root segs ++ queue_blocks (rx_appends tx) /\
  Permutation (live_structure new_root (tables ++ c2) ++ [root_lba]) (live_structure root tables ++ lbas).
Proof.
  intros Henc Hw Hkeep. rewrite new_writes in Hw. destruct (rb_generation _ _ _ _ _ Hrb) as [Hgen Hg]. pose proof (wf_block_size (g := geo)) as Hbs.
  destruct new_runs as (Hv1 & Hk1 & Hv2 & Hk2). destruct new_refs as (Hr1 & Hr2 & Hp1 & Hp2). destruct new_lbas as (Hlb & Hu1 & Hu2 & Hu & Ha1 & Ha2 & Ha).
  pose proof Hs as (Hi1 & _ & Hrs & _ & He1 & Hl1 & Hn1 & _). pose proof Ht as (Hi2 & _ & Hrt & _ & He2 & Hl2 & Hn2 & _). cbn in Hi1, Hrs, Hi2, Hrt.
  pose proof (live_later _ _ _ _ _ v' gen (rb_live _ _ _ _ _ Hrb) Hkeep Hg) as Hlive.
  assert (Forall2 (segment_at v' gen) (zip_with segment_reference u1 c1) c1) as HS.
  { apply (sealed_segments_at v' gen u1 c1 b1); try done. intros p Hp. apply Hw. rewrite !elem_of_app. auto. }
  assert (Forall2 (table_at v' gen) (zip_with table_reference u2 c2) c2) as HT.
  { apply (sealed_tables_at v' gen u2 c2 b2); try done; [by apply Forall_and in Hr1 as [? _]|]. intros p Hp. apply Hw. rewrite !elem_of_app. auto. }
  assert (Forall (fun lba => allocatable geo lba = true) (map tb_lba (se_refs t) ++ map sg_lba (se_items t))) as Hplaces.
  { apply Forall_app. split; [|by apply Forall_map]. rewrite Hrt, map_app, zip_with_lbas_tab by done. apply Forall_app. split; [|done].
    pose proof (lv_places _ _ _ _ _ Hlive) as Hp. by apply Forall_app in Hp as [? _]. }
  assert (rt_segment_refs root ++ zip_with segment_reference u1 c1 = concat c2 ++ se_items t) as Hsplit by by rewrite <- Hi2.
  pose proof (extended_blocks v' gen root new_root tables segs (rx_appends tx) c1 Hlive ltac:(done) Hi1) as Hblocks.
  assert (live_refs new_root (tables ++ c2) = live_refs root tables ++ zip_with segment_reference u1 c1) as Hrefs
    by (by apply (extended_refs v' gen root new_root tables segs (zip_with segment_reference u1 c1) c2 Hlive)).
  assert (Permutation (live_structure new_root (tables ++ c2) ++ [root_lba]) (live_structure root tables ++ lbas)) as Hplace.
  { unfold live_structure. rewrite Hrefs, Hlb. cbn [new_root rt_table_refs set_totals set_areas]. rewrite Hrt, !map_app, zip_with_lbas_tab, zip_with_lbas_seg by done. solve_Permutation. }
  split; [|split; [exact Hblocks|exact Hplace]]. split; [|split].
  - split; [done|]. split; [exists gen|split; [exact Hk2|]].
    + pose proof (Hw (root_lba, block) ltac:(rewrite !elem_of_app; right; by left)) as Hb. cbn in Hb. rewrite Hb. destruct new_root_typed as [Hty Hin].
      pose proof (encode_size (ExactCodec := ReclaimRoot_exact) new_root (block_size geo) gen block (conj Hty Hin) ltac:(lia) Henc) as Hz.
      split; [|split; [lia|done]]. apply (decode_encode (ExactCodec0 := ReclaimRoot_exact) new_root (block_size geo) gen); [done|lia|done].
    + apply places_checked; [|exact Hplaces]. apply Forall_app. split; apply Forall_map.
      * eapply Forall_impl; [exact new_tables|]. by intros x [[? _] _].
      * eapply Forall_impl; [exact Hr2|]. by intros x [[? _] _].
  - apply (extended_live v' gen root new_root tables segs c1 (zip_with segment_reference u1 c1) c2 (zip_with table_reference u2 c2) Hlive); done.
  - rewrite Hblocks, zlen_app. destruct (rb_totals _ _ _ _ _ Hrb) as (_ & _ & H3). cbn. lia.
Qed.
Lemma wp_new_root (stats : bytes -> ReclaimStats) :
  wp (let* block := of_format (ReclaimRoot_encode new_root (block_size geo) gen) in
      Ok {| rb_root_lba := root_lba; rb_writes := se_writes t ++ [(root_lba, block)]; rb_pending_blocks := rt_pending_blocks new_root;
            rb_stats := stats block |})
    (rebuilt v tx tables (live_blocks root segs ++ queue_blocks (rx_appends tx)) lbas) no_error.
Proof.
  destruct new_root_typed as [Hty _]. pose proof new_root_valid as Hvalid. pose proof (wf_block_size (g := geo)) as Hbs.
  pose proof (ReclaimRoot_encode_spec new_root (block_size geo) gen Hty ltac:(lia)) as Henc.
  destruct (ReclaimRoot_encode new_root (block_size geo) gen) as [block|e|] eqn:Hb; [|done|done]. cbn [of_format obind]. apply wp_ok.
  destruct new_lbas as (Hl & _). pose proof Hs as (_ & _ & _ & _ & He1 & Hlen1 & _). pose proof Ht as (_ & _ & _ & _ & He2 & Hlen2 & _).
  apply Forall2_length in He1, He2. split; [|split; [|split]]; cbn [rb_writes rb_root_lba rb_pending_blocks].
  - rewrite new_writes, !map_app, !zip_fst by lia. rewrite Hl. cbn. by rewrite <- app_assoc.
  - rewrite Hl, app_assoc. apply last_snoc.
  - destruct (rb_totals _ _ _ _ _ Hrb) as (_ & _ & H3). rewrite zlen_app. cbn. lia.
  - intros v' Hw Hk. destruct (new_queue v' block Hb Hw Hk) as (Hq & Hlb & Hpl). by exists new_root, (tables ++ c2), (segs ++ c1).
Qed.
End Rebuild.

Lemma wp_bind2 {E A B C} (m : outcome E A) (n : A -> outcome E B) (k : A -> B -> outcome E C) Q R :
  wp (let* a := m in let* b := n a in Ok (a, b)) (fun p => wp (k (fst p) (snd p)) Q R) R -> wp (let* a := m in let* b := n a in k a b) Q R.
Proof. destruct m as [a| |]; cbn; [|done|done]. by destruct (n a). Qed.

(** The planned blocks are just enough for the sealing loops and the root. *)
Lemma wp_seals v g tx0 n tx tables segs lbas :
  rebuildable v g tx tables segs -> planned tx0 n tx -> zlen lbas = n -> Forall (fun lba => u64 lba /\ allocatable geo lba = true) lbas ->
  let caps := rt_caps (rx_root tx) in
  let combined := rt_inline_entries (rx_root tx) ++ rx_appends tx in
  let encode_segment entries := ReclaimSegment_encode entries (block_size geo) (rx_new_generation tx) in
  let encode_table refs := ReclaimTable_encode refs (block_size geo) (rx_new_generation tx) in
  let st1 := {| se_items := combined; se_lbas := lbas; se_refs := rt_segment_refs (rx_root tx); se_writes := [] |} in
  let st2 s := {| se_items := se_refs s; se_lbas := se_lbas s; se_refs := rt_table_refs (rx_root tx); se_writes := se_writes s |} in
  wp (let* s := seal_chunks (length combined) (rc_inline_entries caps) SEGMENT_ENTRY_CAP encode_segment segment_reference st1 in
      let* t := seal_chunks (length (se_refs s)) (rc_segment_refs caps) TABLE_REF_CAP encode_table table_reference (st2 s) in Ok (s, t))
    (fun '(s, t) => exists c1 u1 b1 c2 u2 b2 root_lba,
       sealed_by (rc_inline_entries caps) SEGMENT_ENTRY_CAP encode_segment segment_reference st1 s c1 u1 b1 /\
       sealed_by (rc_segment_refs caps) TABLE_REF_CAP encode_table table_reference (st2 s) t c2 u2 b2 /\
       se_lbas t = [root_lba] /\ zlen (se_refs t) <= rc_table_refs caps) no_error.
Proof.
  intros Hrb (_ & _ & _ & _ & Hp & Hn & Hcap) Hlen Hlbas caps combined encode_segment encode_table st1 st2.
  destruct (rb_appends _ _ _ _ _ Hrb) as [Hva _]. destruct (rb_generation _ _ _ _ _ Hrb) as [Hgen _].
  destruct (rb_caps _ _ _ _ _ Hrb) as [(Hc1 & Hc2 & Hc3) _]. unfold u16 in *. pose proof (rb_shape _ _ _ _ _ Hrb) as Hsh.
  pose proof (sealings_nonneg (Z.to_nat (zlen (rt_segment_refs (rx_root tx)) + segments_needed tx)) (rc_segment_refs (rt_caps (rx_root tx))) TABLE_REF_CAP
    (zlen (rt_segment_refs (rx_root tx)) + segments_needed tx)) as Hn2. fold (tables_needed tx) in Hn2.
  assert (length combined = Z.to_nat (zlen (rt_inline_entries (rx_root tx)) + zlen (rx_appends tx))) as Hf1 by (unfold combined; rewrite length_app; unfold zlen; lia).
  apply wp_bind. eapply wp_mono; [apply (wp_seal_chunks _ _ _ _ run_valid)|intros s (c1 & u1 & b1 & Hs & Hu1); cbv beta|done]; cbn [se_items se_lbas st1].
  { unfold caps. lia. } { done. } { unfold zlen. lia. } { apply Forall_app. split; [apply Hsh|done]. } { intros c HF Hz. by apply encode_segment_ok. }
  { rewrite Hf1. unfold combined, caps. rewrite zlen_app. fold (segments_needed tx). lia. }
  cbn [se_items se_lbas st1] in Hu1. rewrite Hf1 in Hu1. unfold combined, caps in Hu1. rewrite zlen_app in Hu1. fold (segments_needed tx) in Hu1.
  pose proof Hs as (_ & Hl1 & Hr1 & _ & _ & Hlen1 & Hch1 & _). cbn in Hl1, Hr1.
  assert (Forall u64 u1) as Hu64. { rewrite Hl1 in Hlbas. apply Forall_app in Hlbas as [[? _]%Forall_and _]. done. }
  assert (zlen (se_refs s) = zlen (rt_segment_refs (rx_root tx)) + segments_needed tx) as Hrefs.
  { rewrite Hr1, zlen_app. f_equal. rewrite <- Hu1. unfold zlen. rewrite length_zip_with. lia. }
  assert (length (se_refs s) = Z.to_nat (zlen (rt_segment_refs (rx_root tx)) + segments_needed tx)) as Hf2 by (rewrite <- Hrefs; unfold zlen; lia).
  assert (zlen lbas = zlen u1 + zlen (se_lbas s)) as Hl1' by (by rewrite Hl1, zlen_app).
  apply wp_bind. eapply wp_mono; [apply (wp_seal_chunks _ _ _ _ (fun s => segment_typed s /\ segment_ref_ok s))|
    intros t (c2 & u2 & b2 & Ht & Hu2); cbv beta|done]; cbn [se_items se_lbas st2].
  { unfold caps. lia. } { done. } { unfold zlen. lia. }
  { rewrite Hr1. apply Forall_app. split; [by apply (root_refs_sound v g tx tables segs)|by apply sealed_refs_typed]. }
  { intros c HF Hz. by apply encode_table_ok. } { rewrite Hf2, Hrefs. unfold caps. fold (tables_needed tx). lia. }
  rewrite Hf2 in Hu2. cbn [se_items se_lbas st2] in Hu2. rewrite Hrefs in Hu2. unfold caps in Hu2. fold (tables_needed tx) in Hu2. pose proof Ht as (_ & Hl2 & Hr2 & _ & _ & Hlen2 & _). cbn in Hl2, Hr2.
  assert (zlen (se_lbas s) = zlen u2 + zlen (se_lbas t)) as Hl2' by (by rewrite Hl2, zlen_app).
  apply wp_ok. destruct (se_lbas t) as [|root_lba rest] eqn:Hleft; [change (zlen (@nil Z)) with 0 in Hl2'; lia|].
  destruct rest as [|? rest]; [|rewrite !zlen_cons in Hl2'; pose proof (zlen_nonneg rest); lia].
  exists c1, u1, b1, c2, u2, b2, root_lba. split; [done|]. split; [done|]. split; [done|].
  rewrite Hr2, zlen_app. replace (zlen (zip_with _ _ _)) with (zlen u2); [unfold caps; lia|]. unfold zlen. rewrite length_zip_with. lia.
Qed.

Lemma wp_build v g tx0 n tx tables segs lbas :
  rebuildable v g tx tables segs -> planned tx0 n tx -> zlen lbas = n ->
  Forall (fun lba => u64 lba /\ allocatable geo lba = true) lbas ->
  rt_appended_blocks_total (rx_root tx) + zlen (queue_blocks (rx_appends tx)) < 2 ^ 64 ->
  wp (build geo tx lbas) (rebuilt v tx tables (live_blocks (rx_root tx) segs ++ queue_blocks (rx_appends tx)) lbas) no_error.
Proof.
  intros Hrb Hplan Hlen Hlbas Hfit. destruct (rb_totals _ _ _ _ _ Hrb) as (Ht1 & Ht2 & Ht3).
  pose proof (zlen_nonneg (live_blocks (rx_root tx) segs)). pose proof (zlen_nonneg (queue_blocks (rx_appends tx))).
  destruct (rb_appends _ _ _ _ _ Hrb) as [Hva _]. pose proof Hplan as (_ & _ & _ & _ & Hp & _).
  unfold build. rewrite Hp. cbn [ok_or obind]. apply wp_if_false; [lia|].
  rewrite wp_sum_blocks; [|eapply Forall_impl; [exact Hva|]; intros e He%run_valid_inv; lia|lia]. cbn [obind].
  apply wp_bind2. eapply wp_mono; [by apply (wp_seals v g tx0 n tx tables segs lbas)| |done].
  intros [s t] (c1 & u1 & b1 & c2 & u2 & b2 & root_lba & Hs & Ht & Hleft & Hcap'). cbn [fst snd].
  apply wp_bind, wp_checked_add; [intros _|lia]. apply wp_bind, wp_checked_add; [intros _|lia]. apply wp_bind, wp_checked_sub; [intros _|lia].
  rewrite Hleft. cbn [next_lba obind]. rewrite Z.add_0_l. fold (new_root tx s t).
  refine (wp_new_root v g tx tables segs Hrb lbas root_lba Hlbas s c1 u1 b1 t c2 u2 b2 Hs Ht Hleft Hcap' Hfit (fun block => _)).
Qed.

(** ** A transaction on the queue *)

(** Every structure block of a queue is an allocatable block. *)
Lemma live_structure_places v g root tables segs :
  root_shape root -> live v g root tables segs -> Forall (fun lba => u64 lba /\ allocatable geo lba = true) (live_structure root tables).
Proof.
  intros Hsh Hl. pose proof (lv_places _ _ _ _ _ Hl) as Hp. apply Forall_app in Hp as [Hp1 Hp2]. destruct (sh_tables _ Hsh) as [Htt _].
  unfold live_structure, live_refs. rewrite map_app. apply Forall_app. split; [|apply Forall_app; split].
  - apply Forall_map. apply Forall_map in Hp1. eapply Forall_impl; [apply Forall_and; split; [exact Htt|exact Hp1]|]. by intros t [[? _] ?].
  - apply Forall_map, Forall_drop. apply Forall_forall. intros s Hs. apply list_elem_of_In, in_concat in Hs as (refs & Hin & Hs).
    apply list_elem_of_In, list_elem_of_lookup in Hin as [i Hi]. destruct (Forall2_lookup_r _ _ _ _ _ (lv_tables _ _ _ _ _ Hl) Hi) as (t & _ & Hta).
    destruct (table_at_inv _ _ _ _ Hta) as (Hty & _). destruct Hta as (_ & _ & Hck). apply Forall_map in Hck. rewrite Forall_forall in Hty, Hck.
    apply list_elem_of_In in Hs. destruct (Hty s Hs) as [Hu _]. specialize (Hck s Hs). split; [done|]. unfold check_structure in Hck. unfold u64 in Hu.
    rewrite (is_allocatable_eq geo) in Hck by lia. cbn in Hck. by destruct (allocatable geo (sg_lba s)).
  - apply Forall_map. apply Forall_map in Hp2. eapply Forall_impl; [apply Forall_and; split; [apply Hsh|exact Hp2]|]. by intros s [[? _] ?].
Qed.

Definition retired_run (gen : Z) (run : Z * Z) : ReclaimEntry := {| re_start := fst run; re_blocks := snd run; re_retire_generation := gen |}.

Lemma retired_sound gen l : 0 < gen -> u64 gen -> Forall (fun lba => u64 lba /\ allocatable geo lba = true) l ->
  Forall run_valid (map (retired_entry gen) l) /\ Forall (run_ok gen) (map (retired_entry gen) l).
Proof.
  intros Hg Hu HF. pose proof (wf_total (g := geo)). split; apply Forall_map; (eapply Forall_impl; [exact HF|]); cbn beta; intros lba [Hl Ha];
    unfold u64 in *; pose proof (allocatable_pos lba ltac:(lia) Ha).
  - apply run_valid_intro; cbn; [split; cbn; unfold u64, u32; lia|lia..].
  - apply run_ok_intro; cbn; [lia|lia|done|lia| |lia]. f_equal. lia.
Qed.

Definition append_runs (runs : list (Z * Z)) : io ReclaimTx CoreError unit := ieach (fun run => append_run geo (fst run) (snd run)) runs.

Definition run_typed (run : Z * Z) : Prop := u64 (fst run) /\ 1 <= snd run < 2 ^ 32.

Lemma retired_run_sound gen run :
  run_typed run -> 0 < gen -> u64 gen -> validate_run geo (retired_run gen run) = Ok tt ->
  run_valid (retired_run gen run) /\ run_ok gen (retired_run gen run).
Proof.
  unfold run_typed, u64. intros [Hs Hb] Hg Hu Hv. pose proof (wf_total (g := geo)).
  assert (run_ok gen (retired_run gen run)) as Hrun by (unfold run_ok, check_entry; rewrite Hv; cbn; by rewrite Z.ltb_irrefl).
  assert (entry_typed (retired_run gen run)) as Hty by (split; cbn; unfold u64, u32; lia).
  destruct (run_ok_inv _ _ Hty Hrun) as (_ & Hend & _). cbn in Hend. split; [apply run_valid_intro; cbn; [done|lia..]|done].
Qed.

Lemma wpi_append_runs runs : forall tx,
  Forall run_typed runs -> 0 < rx_new_generation tx -> u64 (rx_new_generation tx) ->
  wpi (append_runs runs) tx
    (fun _ tx' => let entries := map (retired_run (rx_new_generation tx)) runs in
       tx' = set_rx_appends (rx_appends tx ++ entries) tx /\ Forall run_valid entries /\ Forall (run_ok (rx_new_generation tx)) entries)
    (fun e _ => exists run, run ∈ runs /\ validate_run geo (retired_run (rx_new_generation tx) run) = Err e).
Proof.
  induction runs as [|run runs IH]; intros tx HF Hg Hu.
  { apply wpi_ret. cbn. rewrite app_nil_r. split; [by destruct tx|done]. }
  apply Forall_cons in HF as [Hty HF]. apply wpi_bind. unfold append_run. apply wpi_bind, wpi_get. unfold id. cbn zeta.
  fold (retired_run (rx_new_generation tx) run). apply wpi_bind, wpi_lift.
  destruct (validate_run geo (retired_run (rx_new_generation tx) run)) as [[]|e|] eqn:Hv; [apply wp_ok|apply wp_err|].
  - destruct (retired_run_sound _ _ Hty Hg Hu Hv) as [Hva Hok]. apply wpi_modify. eapply wpi_mono; [by apply IH| |]; cbn beta zeta.
    + cbn [rx_new_generation set_rx_appends rx_appends map]. intros _ tx' (-> & Hvas & Hoks). split; [by rewrite <- app_assoc|]. split; by constructor.
    + intros e _ (r & Hin & Hr). exists r. split; [by right|done].
  - exists run. split; [by left|done].
  - exfalso. destruct Hty as [Hs Hb]. unfold u64 in Hs.
    refine (wp_not_panic (validate_run geo (retired_run (rx_new_generation tx) run)) (fun _ => True) any_error _ Hv).
    apply wp_validate_run; cbn; [lia|lia|done..].
Qed.

Definition commit_plan (runs : list (Z * Z)) : io ReclaimTx CoreError Z := do! append_runs runs in plan.

Lemma queue_totals v g lba root tables segs :
  queue_at v g lba root tables segs ->
  caps_typed (rt_caps root) /\ ReclaimCaps_validate (rt_caps root) (block_size geo) = Ok tt /\ 0 <= rt_reclaimed_blocks_total root /\
  rt_appended_blocks_total root = rt_reclaimed_blocks_total root + zlen (live_blocks root segs).
Proof.
  intros (Hr & _ & Hp). destruct (root_at_inv _ _ _ _ Hr) as (gen & Ht & _ & Hv).
  assert (caps_typed (rt_caps root)) as Hc by (unfold ReclaimRoot_typed in Ht; tauto).
  assert (u64 (rt_appended_blocks_total root) /\ u64 (rt_reclaimed_blocks_total root)) as [Ha Hc'] by (unfold ReclaimRoot_typed in Ht; tauto).
  unfold ReclaimRoot_validate in Hv. destruct (ReclaimCaps_validate _ _) as [[]| |] eqn:Hcaps; [|done|done]. cbn [obind] in Hv.
  destruct (_ || _); [done|]. destruct (ofold check_table_ref _ _); [|done|done]. cbn [obind] in Hv.
  destruct (ofold check_segment_ref _ _); [|done|done]. cbn [obind] in Hv.
  match type of Hv with obind ?m _ = _ => destruct m; [|done|done] end. cbn [obind] in Hv.
  match type of Hv with obind ?m _ = _ => destruct m; [|done|done] end. cbn [obind] in Hv.
  unfold checked_sub in Hv. destruct (_ <=? _) eqn:Hle in Hv; [|done]. cbn [ok_or obind] in Hv. destruct (_ =? _) eqn:He in Hv; [|done].
  unfold u64 in *. split_and!; [done|done|lia|lia].
Qed.

(** What one batch leaves can be rebuilt, once the retired runs and the consumed structure are appended. *)
Lemma batch_rebuildable v g lba root tables segs new_generation oldest tx tables' segs' new cs runs tx1 n tx2 :
  queue_at v g lba root tables segs -> u64 lba -> 0 < new_generation -> u64 new_generation -> g <= new_generation ->
  part v g (started root lba new_generation oldest) tables segs tx tables' segs' new cs -> root_shape (rx_root tx) ->
  tx1 = set_rx_appends (rx_appends tx ++ map (retired_run new_generation) runs) tx ->
  Forall run_valid (map (retired_run new_generation) runs) -> Forall (run_ok new_generation) (map (retired_run new_generation) runs) ->
  planned tx1 n tx2 ->
  rebuildable v g tx2 tables' segs' /\ rx_root tx2 = rx_root tx /\ rx_new_generation tx2 = new_generation /\
  rx_appends tx2 = map (retired_run new_generation) runs ++ map (retired_entry new_generation) (cs ++ [lba]).
Proof.
  intros Hq Hlba Hng Hu Hle Hp Hsh -> Hva Hok (Hroot & Hgen & Hrec & Hap & _). cbn [rx_root rx_new_generation rx_reclaimed_blocks rx_appends
    rx_consumed_structure rx_committed_root_lba set_rx_appends] in Hroot, Hgen, Hrec, Hap.
  destruct (pt_same _ _ _ _ _ _ _ _ _ _ Hp) as (_ & Hcr & Hng' & Happ & _). cbn [started rx_committed_root_lba rx_new_generation rx_appends] in Hcr, Hng', Happ.
  pose proof (pt_consumed _ _ _ _ _ _ _ _ _ _ Hp) as Hcs. cbn [started rx_consumed_structure] in Hcs.
  rewrite Happ, Hng', Hcs, Hcr in Hap. rewrite Hng' in Hgen. cbn [app] in Hap.
  pose proof Hq as ((Hla & _) & Hl & _). pose proof (root_at_shape _ _ _ _ (proj1 Hq)) as Hsh0.
  assert (Forall (fun a => u64 a /\ allocatable geo a = true) (cs ++ [lba])) as Hall.
  { apply Forall_app. split; [|constructor; [done|constructor]]. pose proof (live_structure_places _ _ _ _ _ Hsh0 Hl) as H.
    pose proof (pt_structure _ _ _ _ _ _ _ _ _ _ Hp) as Hperm. cbn [started rx_root] in Hperm. rewrite Hperm in H. by apply Forall_app in H as [? _]. }
  destruct (retired_sound new_generation _ Hng Hu Hall) as [Hva' Hok'].
  destruct (queue_totals _ _ _ _ _ _ Hq) as (Hct & Hcv & H0 & Htot).
  destruct (pt_totals _ _ _ _ _ _ _ _ _ _ Hp) as (_ & Hta & Htr & Htc). cbn [started rx_root] in Hta, Htr, Htc.
  pose proof (pt_reclaimed _ _ _ _ _ _ _ _ _ _ Hp) as Hre. cbn [started rx_reclaimed_blocks] in Hre.
  pose proof (f_equal zlen (pt_blocks _ _ _ _ _ _ _ _ _ _ Hp)) as Hbl. cbn [started rx_root] in Hbl. rewrite zlen_app in Hbl.
  split; [|done]. constructor; rewrite ?Hroot, ?Hgen, ?Hap, ?Hrec.
  - apply Hp.
  - done.
  - rewrite Htc. done.
  - rewrite Hta, Htr, Hre. pose proof (zlen_nonneg (promoted_blocks new)). lia.
  - split; apply Forall_app; done.
  - done.
Qed.

(** The queue a rebuild publishes: [blocks], at any later content that holds the writes and keeps the structure [kept]. *)
Definition republished (v : Z -> bytes) (gen : Z) (kept : list Z) (blocks : list (Z * Z)) (lbas : list Z) (b : ReclaimBuild) : Prop :=
  map fst (rb_writes b) = lbas /\ last lbas = Some (rb_root_lba b) /\ rb_pending_blocks b = zlen blocks /\
  forall v', (forall p, p ∈ rb_writes b -> v' (fst p) = snd p) -> (forall a, a ∈ kept -> v' a = v a) ->
    exists root tables segs, queue_at v' gen (rb_root_lba b) root tables segs /\ live_blocks root segs = blocks /\
      Permutation (live_structure root tables ++ [rb_root_lba b]) (kept ++ lbas).

Lemma queue_blocks_retired gen l : queue_blocks (map (retired_entry gen) l) = map (fun a => (a, gen)) l.
Proof. induction l as [|a l IH]; [done|]. cbn [map]. rewrite queue_blocks_cons, IH. unfold run_blocks. cbn [retired_entry re_retire_generation re_start re_blocks]. done. Qed.

Section Transaction.
Context {D : Type} {device : BlockDevice Decoded D} {contract : DeviceContract Decoded D core_decodes}.

Abbreviation content := (view (decodes := core_decodes)).

(** What a transaction on the queue does, as one statement. [used] is the structure the cursor passed, [kept] the rest of it. *)
Definition transaction_promise (v : Z -> bytes) (root : ReclaimRoot) tables segs (lba new_generation oldest batch_blocks : Z) (runs : list (Z * Z))
    (tx : ReclaimTx) : Prop :=
  exists rest used kept,
    live_blocks root segs = promoted_blocks (rx_promoted tx) ++ rest /\
    zlen (promoted_blocks (rx_promoted tx)) <= batch_blocks /\ allowed oldest (promoted_blocks (rx_promoted tx)) /\
    stopped_at oldest (batch_blocks - zlen (promoted_blocks (rx_promoted tx))) rest /\
    Permutation (live_structure root tables) (used ++ kept) /\
    let appended := queue_blocks (map (retired_run new_generation) runs) ++ map (fun a => (a, new_generation)) (used ++ [lba]) in
    wpi (commit_plan runs) tx
      (fun n tx' => forall lbas, zlen lbas = n -> Forall (fun a => u64 a /\ allocatable geo a = true) lbas ->
         rt_appended_blocks_total root + zlen appended < 2 ^ 64 ->
         wp (build geo tx' lbas) (republished v new_generation kept (rest ++ appended) lbas) no_error)
      (fun e _ => (exists run, run ∈ runs /\ validate_run geo (retired_run new_generation run) = Err e) \/ exists what, e = PrototypeLimit what).

Lemma batch_transaction v g lba root tables segs new_generation oldest batch_blocks runs tx :
  queue_at v g lba root tables segs -> u64 lba -> 0 < new_generation -> u64 new_generation -> g <= new_generation -> Forall run_typed runs ->
  root_shape (rx_root tx) -> batch v g (started root lba new_generation oldest) tables segs batch_blocks tx ->
  transaction_promise v root tables segs lba new_generation oldest batch_blocks runs tx.
Proof.
  intros Hq Hlba Hng Hu Hle Hruns Hsh (tables' & segs' & new & cs & Hp & Hb & Hst).
  pose proof (pt_promoted _ _ _ _ _ _ _ _ _ _ Hp) as Hpr. cbn [started rx_promoted app] in Hpr.
  pose proof (pt_same _ _ _ _ _ _ _ _ _ _ Hp) as (_ & _ & Hng' & _ & Hpl). cbn [started rx_new_generation rx_planned_allocations] in Hng', Hpl.
  exists (live_blocks (rx_root tx) segs'), cs, (live_structure (rx_root tx) tables'). rewrite Hpr.
  split_and!; [apply Hp|done|apply Hp|done|apply Hp|]. cbn zeta. unfold commit_plan. apply wpi_bind. rewrite <- Hng' in Hng, Hu.
  eapply wpi_mono; [by apply wpi_append_runs| |]; cbn beta zeta; [|rewrite Hng'; intros e _ H; by left]. rewrite Hng' in Hng, Hu |- *.
  intros _ tx1 (-> & Hva & Hok). eapply wpi_mono; [apply wpi_plan| |]; cbn beta.
  - intros n tx2 Hplan lbas Hn HF Hfit.
    destruct (batch_rebuildable _ _ _ _ _ _ _ _ _ _ _ _ _ _ _ _ _ Hq Hlba Hng Hu Hle Hp Hsh eq_refl Hva Hok Hplan) as (Hrb & Hroot & Hgen & Hap).
    destruct (pt_totals _ _ _ _ _ _ _ _ _ _ Hp) as (_ & Hta & _). cbn [started rx_root] in Hta.
    assert (queue_blocks (rx_appends tx2) = queue_blocks (map (retired_run new_generation) runs) ++ map (fun a => (a, new_generation)) (cs ++ [lba])) as Hqb
      by (by rewrite Hap, queue_blocks_app, queue_blocks_retired).
    eapply wp_mono; [apply (wp_build _ _ _ _ _ _ _ _ Hrb Hplan Hn HF)| |]; [|intros b Hbu; cbn beta in Hbu|done].
    + rewrite Hqb, Hroot, Hta. done.
    + unfold rebuilt in Hbu. rewrite Hqb, Hroot, Hgen in Hbu. exact Hbu.
  - intros e _ [H|H]; [|by right]. cbn [set_rx_appends rx_planned_allocations] in H. done.
Qed.

(** C8: the reclaim queue refines a first-in first-out queue of retired blocks. On a device whose committed root holds the queue, opening a
    transaction either reports a device error or promotes the longest prefix of the queue that the batch bound and the oldest protected generation
    allow, reads only, and leaves the rest; the runs the transaction then retires are accepted or refused one by one, and once a plan succeeds a
    build on exactly the planned number of allocatable blocks cannot fail: its images, with the structure the cursor did not pass left in place,
    hold the queue of the rest followed by the retired runs, the consumed structure blocks and the previous root. *)
Theorem reclaim_queue_refines (d : D) g lba root tables segs new_generation oldest batch_blocks runs :
  dev_ok (decodes := core_decodes) d -> u64 lba -> u64 batch_blocks -> 0 < oldest <= g -> g < new_generation -> u64 new_generation ->
  queue_at (content d) g lba root tables segs -> Forall run_typed runs ->
  wpi (ReclaimTx_begin geo lba g new_generation oldest batch_blocks) d
    (fun tx d' => reads d d' /\ transaction_promise (content d) root tables segs lba new_generation oldest batch_blocks runs tx)
    (fun e d' => reads d d' /\ only_io e).
Proof.
  intros Hd Hl Hb Ho Hg Hu Hq Hruns. eapply wpi_mono; [by apply (wpi_begin g d)| |]; cbn beta.
  - intros tx d' (Hr & Hsh & H). split; [done|]. eapply batch_transaction; [exact Hq|done|lia|done|lia|done|done|by apply H].
  - intros e d' [Hr H]. split; [done|]. by eapply H.
Qed.
End Transaction.

(** ** The walk of a whole queue *)

(** The blocks of [runs] from a cursor on, and the cursors that fall inside. *)
Definition tail_blocks (eo bo : Z) (runs : list ReclaimEntry) : list (Z * Z) := drop (Z.to_nat bo) (queue_blocks (drop (Z.to_nat eo) runs)).
Definition cursor_within (eo bo : Z) (runs : list ReclaimEntry) : Prop :=
  0 <= eo <= zlen runs /\ 0 <= bo <= zlen (queue_blocks (drop (Z.to_nat eo) runs)).

Lemma drop_within {X} n (a b : list X) : 0 <= n <= zlen a -> drop (Z.to_nat n) (a ++ b) = drop (Z.to_nat n) a ++ b.
Proof. unfold zlen. intros. apply drop_app_le. lia. Qed.

Lemma tail_blocks_app eo bo a b : cursor_within eo bo a -> tail_blocks eo bo (a ++ b) = tail_blocks eo bo a ++ queue_blocks b.
Proof. intros [He Hb]. unfold tail_blocks. rewrite drop_within by done. by rewrite queue_blocks_app, drop_within. Qed.

Lemma cursor_within_app eo bo a b : cursor_within eo bo a -> cursor_within eo bo (a ++ b).
Proof.
  intros [He Hb]. pose proof (zlen_nonneg b). split; [rewrite zlen_app; lia|]. rewrite drop_within by done. rewrite queue_blocks_app, zlen_app.
  pose proof (zlen_nonneg (queue_blocks b)). lia.
Qed.

Lemma tail_blocks_zero runs : tail_blocks 0 0 runs = queue_blocks runs.
Proof. done. Qed.

Lemma tail_blocks_nil eo bo : tail_blocks eo bo [] = [].
Proof. unfold tail_blocks. rewrite drop_nil. apply drop_nil. Qed.

(** A cursor the consumer accepts. *)
Definition strict_cursor (eo bo : Z) (segs : list (list ReclaimEntry)) : Prop :=
  match segs with [] => True | es :: _ => eo < zlen es /\ cursor_in (drop (Z.to_nat eo) es) bo end.

Lemma wp_entries_from es eo bo (R : CoreError -> Prop) :
  Forall run_valid es -> 0 <= eo -> 0 <= bo ->
  (~ strict_cursor eo bo [es] -> forall e, R e) ->
  wp (entries_from es eo bo)
    (fun new => queue_blocks new = tail_blocks eo bo es /\ cursor_within eo bo es /\ Forall (fun e => re_blocks e < 2 ^ 32 /\ 0 < re_blocks e) new) R.
Proof.
  intros HF He Hb HR. unfold entries_from. cbn [strict_cursor] in HR. apply wp_if; intros Hc; [apply wp_err, HR; unfold cursor_in; destruct (drop _ _); lia|].
  assert (0 <= eo <= zlen es) as Hin by lia. unfold tail_blocks, cursor_within.
  assert (Forall run_valid (drop (Z.to_nat eo) es)) as HF' by by apply Forall_drop.
  destruct (drop (Z.to_nat eo) es) as [|e rest] eqn:Hd.
  { apply wp_ok. change (queue_blocks []) with (@nil (Z * Z)). rewrite drop_nil. split; [done|]. split; [|done]. split; [done|]. change (zlen (@nil (Z * Z))) with 0.
    apply (f_equal zlen) in Hd. change (zlen (@nil ReclaimEntry)) with 0 in Hd. unfold zlen in Hd, Hc, Hin. rewrite length_drop in Hd. unfold zlen in Hc. lia. }
  apply Forall_cons in HF' as [He' HF']. destruct (run_valid_inv _ He') as (Hs & Hbl & Hend & _).
  assert (Forall (fun e => re_blocks e < 2 ^ 32 /\ 0 < re_blocks e) rest) as Hrest.
  { eapply Forall_impl; [exact HF'|]. intros r Hr%run_valid_inv. lia. }
  pose proof (zlen_nonneg (queue_blocks rest)). apply wp_if; intros Hz.
  { apply wp_ok. replace (Z.to_nat bo) with 0%nat by lia. rewrite drop_0, queue_blocks_cons, zlen_app, zlen_run_blocks by lia.
    split; [done|]. split; [lia|]. constructor; [lia|done]. }
  apply wp_if; intros Hle; [apply wp_err, HR; cbn; lia|]. apply wp_bind, wp_add_w; [lia|]. apply wp_ok.
  rewrite drop_head_run, drop_run_blocks by lia. split; [by rewrite queue_blocks_cons|]. rewrite queue_blocks_cons, zlen_app, zlen_run_blocks by lia.
  split; [lia|]. constructor; [cbn; lia|done].
Qed.

Section WalkQueue.
Context {D : Type} {device : BlockDevice Decoded D} {contract : DeviceContract Decoded D core_decodes} (d0 : D) (g : Z).

Abbreviation content := (view (decodes := core_decodes)).
Abbreviation segments_at := (Forall2 (segment_at (content d0) g)).
Abbreviation tables_at := (Forall2 (table_at (content d0) g)).
Abbreviation sized := (Forall (fun e => re_blocks e < 2 ^ 32 /\ 0 < re_blocks e)).

Lemma strict_zero refs segs : segments_at refs segs -> strict_cursor 0 0 segs.
Proof.
  intros [|s es refs' segs' Hs _]; [done|]. destruct (segment_at_inv _ _ _ _ Hs) as (Ht & Hv & Hz & _). cbn. split; [lia|].
  destruct es as [|e es]; [done|]. apply Forall_inv in Ht, Hv. change (0 <= 0 < re_blocks e). destruct (run_valid_inv e (conj Ht Hv)) as (_ & ? & _). lia.
Qed.

Lemma segment_runs s es : segment_at (content d0) g s es -> Forall run_valid es.
Proof. intros Hs. destruct (segment_at_inv _ _ _ _ Hs) as (Ht & Hv & _). by apply Forall_and. Qed.

(** What a walk over segments appends. *)
Definition pushed (acc acc' : list ReclaimEntry * list Z) (lbas : list Z) (blocks : list (Z * Z)) : Prop :=
  exists new, acc' = (fst acc ++ new, snd acc ++ lbas) /\ queue_blocks new = blocks /\ sized new.

Lemma pushed_trans a b c l1 l2 b1 b2 : pushed a b l1 b1 -> pushed b c l2 b2 -> pushed a c (l1 ++ l2) (b1 ++ b2).
Proof.
  intros (n1 & -> & <- & S1) (n2 & -> & <- & S2). exists (n1 ++ n2). cbn. rewrite !app_assoc, queue_blocks_app. split; [done|]. split; [done|].
  by apply Forall_app.
Qed.

Lemma wpi_push_segments refs : forall d acc eo bo,
  reads d0 d -> Forall (fun s => u64 (sg_lba s)) refs -> 0 <= eo -> 0 <= bo ->
  wpi (push_segments geo g acc refs eo bo) d
    (fun acc' d' => reads d0 d' /\ exists segs, segments_at refs segs /\ pushed acc acc' (map sg_lba refs) (tail_blocks eo bo (concat segs)) /\
       (refs <> [] -> cursor_within eo bo (concat segs)))
    (fun e d' => reads d0 d' /\ (only_io e \/ forall segs, segments_at refs segs -> ~ strict_cursor eo bo segs)).
Proof.
  induction refs as [|s refs IH]; intros d acc eo bo Hr HF He Hb; cbn [push_segments].
  { apply wpi_ret. split; [done|]. exists []. split; [done|]. split; [|done]. exists []. cbn. rewrite !app_nil_r, tail_blocks_nil. by destruct acc. }
  apply Forall_cons in HF as [Hu HF]. unfold push_segment. apply wpi_bind, wpi_bind. eapply wpi_mono; [by apply (wpi_read_segment d0)| |]; cbn beta.
  2: { intros e d1 [? H]. split; [done|]. destruct H as [|H]; [by left|]. right. intros segs (es & ? & ? & ? & ->)%Forall2_cons_inv_l. by destruct (H es). }
  intros es d1 [Hr1 Hs]. apply wpi_bind, wpi_lift. pose proof (segment_runs _ _ Hs) as Hrv.
  eapply wp_mono; [by apply (wp_entries_from es eo bo (fun _ => ~ strict_cursor eo bo [es]))| |]; cbn beta.
  2: { intros e Hn. split; [done|]. right. intros segs (es' & segs' & Hs' & _ & ->)%Forall2_cons_inv_l. by rewrite <- (segment_at_fun _ _ _ _ _ Hs Hs'). }
  intros new (Hq & Hin & Hsz). apply wpi_ret. eapply wpi_mono; [by apply IH| |]; cbn beta.
  - intros acc' d2 [Hr2 (segs & HS & Hp & _)]. split; [done|]. exists (es :: segs). split; [by constructor|]. cbn [concat map].
    split; [|intros _; by apply cursor_within_app]. rewrite tail_blocks_app by done. rewrite tail_blocks_zero in Hp.
    change (sg_lba s :: map sg_lba refs) with ([sg_lba s] ++ map sg_lba refs). eapply pushed_trans; [|exact Hp]. by exists new.
  - intros e d2 [Hr2 H]. split; [done|]. destruct H as [|H]; [by left|]. right. intros segs (es' & segs' & Hs' & HS & ->)%Forall2_cons_inv_l.
    by destruct (H segs' HS (strict_zero _ _ HS)).
Qed.

Lemma wpi_push_tables ts : forall d acc so eo bo,
  reads d0 d -> Forall table_typed ts -> Forall (fun t => 1 <= tb_ref_count t) ts -> 0 <= so -> 0 <= eo -> 0 <= bo ->
  match ts with [] => True | t :: _ => so < tb_ref_count t end ->
  wpi (push_tables geo g acc ts so eo bo) d
    (fun acc' d' => reads d0 d' /\ exists tables segs lbas, tables_at ts tables /\ segments_at (drop (Z.to_nat so) (concat tables)) segs /\
       pushed acc acc' lbas (tail_blocks eo bo (concat segs)) /\ (ts <> [] -> cursor_within eo bo (concat segs)) /\
       Permutation lbas (map tb_lba ts ++ map sg_lba (drop (Z.to_nat so) (concat tables))))
    (fun e d' => reads d0 d' /\ (only_io e \/ forall tables segs, tables_at ts tables ->
       segments_at (drop (Z.to_nat so) (concat tables)) segs -> ~ strict_cursor eo bo segs)).
Proof.
  induction ts as [|t ts IH]; intros d acc so eo bo Hr Hty Hn Hso He Hb Hin; cbn [push_tables].
  { apply wpi_ret. split; [done|]. exists [], [], []. cbn. rewrite drop_nil. split; [done|]. split; [done|]. split; [|done]. exists [].
    rewrite !app_nil_r, tail_blocks_nil. by destruct acc. }
  apply Forall_cons in Hty as [[Hu _] Hty], Hn as [Hn Hns]. apply wpi_bind. eapply wpi_mono; [by apply (wpi_read_table d0)| |]; cbn beta.
  2: { intros e d1 [? H]. split; [done|]. destruct H as [|H]; [by left|]. right. intros tables segs (rs & ? & ? & ? & ->)%Forall2_cons_inv_l. by destruct (H rs). }
  intros refs d1 [Hr1 Ht]. destruct (table_at_inv _ _ _ _ Ht) as (Hrt & _). pose proof Ht as (_ & Hz & _).
  assert (Forall (fun s => u64 (sg_lba s)) (drop (Z.to_nat so) refs)) as Hru.
  { apply Forall_drop. eapply Forall_impl; [exact Hrt|]. by intros s [? _]. }
  assert (forall rest, drop (Z.to_nat so) (refs ++ rest) = drop (Z.to_nat so) refs ++ rest) as Hdrop by (intros; apply drop_within; lia).
  apply wpi_bind. eapply wpi_mono; [by apply wpi_push_segments| |]; cbn beta.
  2: { intros e d2 [? H]. split; [done|]. destruct H as [|H]; [by left|]. right. intros tables segs (rs & tables' & Ht' & _ & ->)%Forall2_cons_inv_l.
       cbn [concat]. rewrite <- (table_at_fun _ _ _ _ _ Ht Ht'), Hdrop. intros (s1 & s2 & H1 & _ & ->)%Forall2_app_inv_l Hst. apply (H s1 H1).
       by destruct s1. }
  intros acc1 d2 [Hr2 (segs1 & HS1 & Hp1 & Hin1)].
  assert (drop (Z.to_nat so) refs <> []) as Hne by (intros Hnil; apply (f_equal length) in Hnil; rewrite length_drop in Hnil; unfold zlen in Hz; cbn in Hnil; lia).
  eapply wpi_mono; [apply (IH d2 acc1 0 0 0); [done|done|done|lia|lia|lia|]| |]; cbn beta.
  { destruct Hns; [done|lia]. }
  - intros acc2 d3 [Hr3 (tables & segs2 & lbas & HT & HS2 & Hp2 & _ & Hperm)]. split; [done|]. cbn in HS2, Hperm. rewrite drop_0 in HS2, Hperm.
    exists (refs :: tables), (segs1 ++ segs2), (tb_lba t :: map sg_lba (drop (Z.to_nat so) refs) ++ lbas). cbn [concat map]. rewrite Hdrop, concat_app.
    split; [by constructor|]. split; [by apply Forall2_app|]. split; [|split; [intros _; apply cursor_within_app; auto|]].
    + rewrite tail_blocks_app by auto. rewrite tail_blocks_zero in Hp2. eapply (pushed_trans _ _ _ (tb_lba t :: _)); [|exact Hp2].
      destruct Hp1 as (new & -> & Hq & Hsz). exists new. cbn. by rewrite <- app_assoc.
    + rewrite map_app. cbn [app]. apply Permutation_skip. rewrite Hperm. apply Permutation_app_swap_app.
  - intros e d3 [Hr3 H]. split; [done|]. destruct H as [|H]; [by left|]. right. intros tables segs (rs & tables' & Ht' & HT & ->)%Forall2_cons_inv_l.
    cbn [concat]. rewrite <- (table_at_fun _ _ _ _ _ Ht Ht'), Hdrop. intros (s1 & s2 & _ & H2 & ->)%Forall2_app_inv_l _.
    apply (H tables' s2 HT); [done|by eapply strict_zero].
Qed.

Lemma wp_count_blocks runs : forall sum,
  0 <= sum < 2 ^ 64 -> sized runs ->
  wp (ofold count_blocks sum runs) (fun n => n = sum + zlen (queue_blocks runs)) (fun _ => 2 ^ 64 <= sum + zlen (queue_blocks runs)).
Proof.
  induction runs as [|e runs IH]; intros sum Hs HF; [apply wp_ok; change (zlen _) with 0; lia|]. apply Forall_cons in HF as [He HF].
  rewrite queue_blocks_cons, zlen_app, zlen_run_blocks by lia. pose proof (zlen_nonneg (queue_blocks runs)). cbn [ofold]. apply wp_bind.
  unfold count_blocks, checked_add. destruct (_ <? _) eqn:Hlt; [apply wp_ok|apply wp_err; lia].
  eapply wp_mono; [apply IH; [lia|done]| |]; cbn beta; intros; lia.
Qed.

(** The content of a queue as the checker reads it: the cursor may also stand at the end of a segment a table names. *)
Definition walked (lba : Z) (root : ReclaimRoot) (tables : list (list SegmentRef)) (segs : list (list ReclaimEntry)) : Prop :=
  root_at (content d0) g lba root /\ tables_at (rt_table_refs root) tables /\ segments_at (live_refs root tables) segs /\
  rt_pending_blocks root = zlen (live_blocks root segs).

Lemma queue_walked lba root tables segs : queue_at (content d0) g lba root tables segs -> walked lba root tables segs.
Proof. intros (? & Hl & ?). split_and!; [done|apply Hl|apply Hl|done]. Qed.

Lemma queue_strict root tables segs : live (content d0) g root tables segs -> strict_cursor (rt_head_entry_offset root) (rt_head_block_offset root) segs.
Proof. intros Hl. pose proof (lv_cursor _ _ _ _ _ Hl) as H. by destruct segs. Qed.

Definition direct_cursor (root : ReclaimRoot) : Z * Z :=
  match rt_table_refs root with [] => (rt_head_entry_offset root, rt_head_block_offset root) | _ => (0, 0) end.

(** The runs of the tables, then those of the segments the root names. *)
Lemma walked_blocks root segs1 segs2 :
  (rt_table_refs root = [] -> segs1 = []) -> (rt_table_refs root <> [] -> cursor_within (rt_head_entry_offset root) (rt_head_block_offset root) (concat segs1)) ->
  tail_blocks (rt_head_entry_offset root) (rt_head_block_offset root) (concat segs1) ++
    tail_blocks (fst (direct_cursor root)) (snd (direct_cursor root)) (concat segs2) ++ queue_blocks (rt_inline_entries root) = live_blocks root (segs1 ++ segs2).
Proof.
  intros Hnil Hin. unfold live_blocks, direct_cursor. rewrite concat_app. fold (tail_blocks (rt_head_entry_offset root) (rt_head_block_offset root) (concat segs1 ++ concat segs2)).
  destruct (rt_table_refs root) as [|t ts]; cbn [fst snd].
  - rewrite Hnil by done. cbn [concat app]. by rewrite tail_blocks_nil.
  - rewrite tail_blocks_app by (by apply Hin). rewrite tail_blocks_zero. by rewrite <- app_assoc.
Qed.

Lemma strict_direct root tables refs segs1 segs2 :
  (rt_table_refs root = [] -> segs1 = []) -> segments_at refs segs2 -> live (content d0) g root tables (segs1 ++ segs2) ->
  strict_cursor (fst (direct_cursor root)) (snd (direct_cursor root)) segs2.
Proof.
  intros Hnil HS Hl%queue_strict. unfold direct_cursor. destruct (rt_table_refs root); cbn [fst snd]; [|by eapply strict_zero].
  by rewrite Hnil in Hl by done.
Qed.

Lemma direct_cursor_nonneg root : root_shape root -> 0 <= fst (direct_cursor root) /\ 0 <= snd (direct_cursor root).
Proof. intros H. destruct (sh_cursor _ H) as (_ & ? & ?). unfold direct_cursor, u32 in *. destruct (rt_table_refs root); cbn; lia. Qed.

Lemma sized_valid l : Forall run_valid l -> sized l.
Proof. intros H. eapply Forall_impl; [exact H|]. intros e He%run_valid_inv. lia. Qed.

Definition loaded_as (lba : Z) (root : ReclaimRoot) (tables : list (list SegmentRef)) (segs : list (list ReclaimEntry)) (r : LoadedReclaim) : Prop :=
  queue_blocks (lr_runs r) = live_blocks root segs /\ lr_pending_blocks r = zlen (live_blocks root segs) /\
  Permutation (lr_structure_blocks r) (lba :: live_structure root tables).

Lemma wpi_load_tail lba root tables segs1 lbas1 acc (d : D) :
  reads d0 d -> root_at (content d0) g lba root -> tables_at (rt_table_refs root) tables ->
  segments_at (drop (Z.to_nat (rt_head_segment_offset root)) (concat tables)) segs1 ->
  pushed ([], [lba]) acc lbas1 (tail_blocks (rt_head_entry_offset root) (rt_head_block_offset root) (concat segs1)) ->
  (rt_table_refs root <> [] -> cursor_within (rt_head_entry_offset root) (rt_head_block_offset root) (concat segs1)) ->
  Permutation lbas1 (map tb_lba (rt_table_refs root) ++ map sg_lba (drop (Z.to_nat (rt_head_segment_offset root)) (concat tables))) ->
  wpi (let! acc := push_segments geo g acc (rt_segment_refs root) (fst (direct_cursor root)) (snd (direct_cursor root)) in
       let runs := fst acc ++ rt_inline_entries root in
       let! counted := ilift (ofold count_blocks 0 runs) in
       if negb (counted =? rt_pending_blocks root) then ierr (Corrupt "reclaim root pending count differs from the queue") else
       iret {| lr_runs := runs; lr_structure_blocks := snd acc; lr_pending_blocks := rt_pending_blocks root |}) d
    (fun r d' => reads d0 d' /\ exists segs, walked lba root tables segs /\ loaded_as lba root tables segs r)
    (fun e d' => reads d0 d' /\ (only_io e \/ forall tables' segs, ~ queue_at (content d0) g lba root tables' segs)).
Proof.
  intros Hr Hroot HT HS1 Hp1 Hin Hperm1. pose proof (root_at_shape _ _ _ _ Hroot) as Hsh. destruct (direct_cursor_nonneg _ Hsh) as [He Hb].
  assert (Forall (fun s => u64 (sg_lba s)) (rt_segment_refs root)) as Hu by (eapply Forall_impl; [apply Hsh|]; by intros s [? _]).
  assert (rt_table_refs root = [] -> segs1 = []) as Hnil.
  { intros Ht. rewrite Ht in HT. apply Forall2_nil_inv_l in HT as ->. cbn in HS1. rewrite drop_nil in HS1. by apply Forall2_nil_inv_l in HS1. }
  assert (forall tables' segs, live (content d0) g root tables' segs -> tables' = tables /\ exists segs2, segs = segs1 ++ segs2 /\ segments_at (rt_segment_refs root) segs2) as Hfun.
  { intros tables' segs Hl. pose proof (Forall2_fun _ (table_at_fun _ _) _ _ _ (lv_tables _ _ _ _ _ Hl) HT) as ->. split; [done|].
    pose proof (lv_segs _ _ _ _ _ Hl) as (s1 & s2 & H1 & H2 & ->)%Forall2_app_inv_l.
    rewrite (Forall2_fun _ (segment_at_fun _ _) _ _ _ H1 HS1). by exists s2. }
  apply wpi_bind. eapply wpi_mono; [by apply wpi_push_segments| |]; cbn beta.
  2: { intros e d1 [? H]. split; [done|]. destruct H as [|H]; [by left|]. right. intros tables' segs (_ & Hl & _).
       destruct (Hfun _ _ Hl) as (-> & s2 & -> & H2). apply (H s2 H2). by eapply strict_direct. }
  intros acc2 d1 [Hr1 (segs2 & HS2 & Hp2 & _)]. cbn zeta. destruct (pushed_trans _ _ _ _ _ _ _ Hp1 Hp2) as (new & -> & Hq & Hsz). cbn [fst snd app].
  assert (queue_blocks (new ++ rt_inline_entries root) = live_blocks root (segs1 ++ segs2)) as Hblocks.
  { rewrite queue_blocks_app, Hq, <- app_assoc. by apply walked_blocks. }
  apply wpi_bind, wpi_lift. eapply wp_mono; [apply wp_count_blocks; [lia|apply Forall_app; split; [done|apply sized_valid, Hsh]]| |]; cbn beta.
  - intros n ->. rewrite Hblocks. apply wpi_if; intros Hc.
    { apply wpi_err. split; [done|]. right. intros tables' segs (_ & Hl & Hpend). destruct (Hfun _ _ Hl) as (-> & s2 & -> & H2).
      rewrite (Forall2_fun _ (segment_at_fun _ _) _ _ _ HS2 H2) in Hc. lia. }
    apply wpi_ret. split; [done|]. exists (segs1 ++ segs2). split.
    + split_and!; [done|done|by apply Forall2_app|lia].
    + split_and!; [done|cbn; lia|]. cbn. apply Permutation_skip. unfold live_structure, live_refs. rewrite map_app, app_assoc. by apply Permutation_app_tail.
  - intros e Hov. split; [done|]. right. intros tables' segs (_ & Hl & Hpend). destruct (Hfun _ _ Hl) as (-> & s2 & -> & H2).
    rewrite Hblocks, (Forall2_fun _ (segment_at_fun _ _) _ _ _ HS2 H2) in Hov. destruct (root_at_inv _ _ _ _ Hroot) as (gen & [Hpu _] & _). unfold u64 in Hpu. lia.
Qed.

(** C25: the walk of the whole queue (what the checker loads) is exact. It never panics; it reads only; when it succeeds the blocks of the runs it
    returns are, in order, exactly the pending blocks of the queue at the root, its structure blocks are the root, the tables and the segments the
    queue still needs, and its count is their number; on a device that holds a queue it fails only with an error of the device. *)
Theorem reclaim_walk_exact lba :
  dev_ok (decodes := core_decodes) d0 -> u64 lba ->
  wpi (load_queue geo lba g) d0
    (fun r d' => reads d0 d' /\ exists root tables segs, walked lba root tables segs /\ loaded_as lba root tables segs r)
    (fun e d' => reads d0 d' /\ (only_io e \/ forall root tables segs, ~ queue_at (content d0) g lba root tables segs)).
Proof.
  intros Hd Hl. assert (reads d0 d0) as Hr by by apply agree_refl. unfold load_queue.
  apply wpi_bind. eapply wpi_mono; [by apply (wpi_read_root d0 g)| |]; cbn beta.
  2: { intros e d1 [? He]. split; [done|]. destruct He as [|He]; [by left|]. right. intros root tables segs [Hq _]. by destruct (He root). }
  intros root d1 [Hr1 Hroot]. pose proof (root_at_shape _ _ _ _ Hroot) as Hsh. destruct (sh_cursor _ Hsh) as (? & ? & ?). unfold u32 in *.
  assert (forall root', root_at (content d0) g lba root' -> root' = root) as Hfun.
  { intros root' (_ & (? & Hd' & _) & _). destruct Hroot as (_ & (? & Hd1 & _) & _). congruence. }
  apply wpi_bind. eapply wpi_mono; [apply wpi_push_tables; [done|apply Hsh|apply Hsh|lia|lia|lia|]| |]; cbn beta.
  - pose proof (sh_table_cursor _ Hsh). by destruct (rt_table_refs root).
  - intros acc d2 [Hr2 (tables & segs & lbas & HT & HS & Hp & Hin & Hperm)]. fold (direct_cursor root). rewrite (surjective_pairing (direct_cursor root)).
    eapply wpi_mono; [by apply (wpi_load_tail lba root tables segs lbas)| |]; cbn beta.
    + intros r d3 [? (segs' & Hw & Hr')]. split; [done|]. by exists root, tables, segs'.
    + intros e d3 [? H']. split; [done|]. destruct H' as [|H']; [by left|]. right. intros root' tables' segs' Hq. rewrite (Hfun root' (proj1 Hq)) in Hq.
      by apply (H' tables' segs').
  - intros e d2 [? H']. split; [done|]. destruct H' as [|H']; [by left|]. right. intros root' tables' segs' (Hra & Hlive & _). rewrite (Hfun _ Hra) in *.
    pose proof (lv_segs _ _ _ _ _ Hlive) as (s1 & s2 & HS1 & HS2 & ->)%Forall2_app_inv_l. apply (H' tables' s1 (lv_tables _ _ _ _ _ Hlive) HS1).
    pose proof (queue_strict _ _ _ Hlive). by destruct s1.
Qed.
End WalkQueue.
End Queue.

(** ** A concrete queue: a sealed segment half consumed, and one run in the root *)

Definition queue_entries : list ReclaimEntry :=
  [ {| re_start := 54; re_blocks := 2; re_retire_generation := 3 |}; {| re_start := 56; re_blocks := 1; re_retire_generation := 5 |} ].

Definition queue_root : ReclaimRoot :=
  {| rt_pending_blocks := 3; rt_appended_blocks_total := 10; rt_reclaimed_blocks_total := 7;
     rt_head_segment_offset := 0; rt_head_entry_offset := 0; rt_head_block_offset := 1;
     rt_caps := {| rc_inline_entries := 2; rc_segment_refs := 2; rc_table_refs := 1 |};
     rt_table_refs := []; rt_segment_refs := [ {| sg_lba := 45; sg_entry_count := 2 |} ];
     rt_inline_entries := [ {| re_start := 57; re_blocks := 1; re_retire_generation := 8 |} ] |}.

Definition queue_volume : MemoryBackend :=
  {| mb_block_size := 4096; mb_total_blocks := 60;
     mb_blocks := <[44 := match ReclaimRoot_encode queue_root 4096 9 with Ok b => b | _ => zeros 4096 end]>
       (<[45 := match ReclaimSegment_encode queue_entries 4096 7 with Ok b => b | _ => zeros 4096 end]> ∅) |}.

Lemma queue_volume_ok : memory_ok queue_volume.
Proof.
  split; [by vm_compute|]. split; [by vm_compute|]. cbn [mb_blocks queue_volume].
  repeat (apply map_Forall_insert_2; [vm_compute; reflexivity|]). apply map_Forall_empty.
Qed.

Lemma queue_volume_at : queue_at small_geometry (peek queue_volume) 9 44 queue_root [] [queue_entries].
Proof.
  split; [|split; [constructor|reflexivity]].
  - split; [by vm_compute|]. split; [exists 9; split_and!; [vm_compute; reflexivity|lia|vm_compute; reflexivity]|].
    split; repeat constructor; vm_compute; reflexivity.
  - constructor.
  - repeat constructor; try (vm_compute; reflexivity). exists 7. split; [vm_compute; reflexivity|lia].
  - reflexivity.
  - by vm_compute.
  - repeat constructor; vm_compute; reflexivity.
  - repeat constructor; vm_compute; reflexivity.
Qed.

Definition queue_device : CachedDevice Decoded MemoryBackend := cached_volume queue_volume.

Lemma queue_device_ok : dev_ok (decodes := core_decodes) queue_device /\ cd_inner queue_device = queue_volume.
Proof. apply cached_volume_ok, queue_volume_ok. Qed.

Lemma queue_device_at : queue_at small_geometry (view (decodes := core_decodes) queue_device) 9 44 queue_root [] [queue_entries].
Proof.
  change (view (decodes := core_decodes) queue_device) with (peek (cd_inner queue_device)). rewrite (proj2 queue_device_ok). exact queue_volume_at.
Qed.

Definition sample_begin := ReclaimTx_begin small_geometry 44 9 10 5 64 queue_device.

Lemma reclaim_queue_refines_witness :
  exists tx, snd sample_begin = Ok tx /\ promoted_blocks (rx_promoted tx) = [(55, 3); (56, 5)] /\
    transaction_promise small_geometry (view (decodes := core_decodes) queue_device) queue_root [] [queue_entries] 44 10 5 64 [(58, 1)] tx.
Proof.
  pose proof (reclaim_queue_refines small_geometry queue_device 9 44 queue_root [] [queue_entries] 10 5 64 [(58, 1)]
    (proj1 queue_device_ok) ltac:(by vm_compute) ltac:(by vm_compute) ltac:(by vm_compute) ltac:(by vm_compute) ltac:(by vm_compute) queue_device_at
    ltac:(repeat constructor; by vm_compute)) as H.
  assert (match snd sample_begin with Ok tx => promoted_blocks (rx_promoted tx) | _ => [] end = [(55, 3); (56, 5)]) as E by (vm_compute; reflexivity).
  unfold wpi in H. fold sample_begin in H. revert H E. destruct sample_begin as [s [tx|e|]]; intros H E; [|discriminate E..].
  exists tx. split; [reflexivity|]. split; [exact E|apply H].
Defined.

Definition sample_walk := load_queue small_geometry 44 9 queue_device.

Lemma reclaim_walk_exact_witness :
  exists r root tables segs, snd sample_walk = Ok r /\ queue_blocks (lr_runs r) = [(55, 3); (56, 5); (57, 8)] /\
    walked small_geometry queue_device 9 44 root tables segs /\ loaded_as 44 root tables segs r.
Proof.
  pose proof (reclaim_walk_exact small_geometry queue_device 9 44 (proj1 queue_device_ok) ltac:(by vm_compute)) as H.
  assert (match snd sample_walk with Ok r => queue_blocks (lr_runs r) | _ => [] end = [(55, 3); (56, 5); (57, 8)]) as E by (vm_compute; reflexivity).
  unfold wpi in H. fold sample_walk in H. revert H E. destruct sample_walk as [s [r|e|]]; intros H E; [|discriminate E..].
  destruct H as (_ & root & tables & segs & Hw & Hl). exists r, root, tables, segs. split; [reflexivity|]. split; [exact E|]. split; [exact Hw|exact Hl].
Defined.
