(* ===== verification/RunSet.v ===== *)
(** * Sets of block runs (crates/afsplus-core/src/alloc.rs, RunSet)

    The interval set in which a transaction keeps its own allocations and
    retirements.  It implements a finite set of blocks; a merging set keeps
    no two runs that touch. *)

From S2P Require Import Prelude Format Core.

(** ** The code *)

(** Start to exclusive end, in a [BTreeMap]. *)
Record RunSet := { rs_runs : gmap Z Z; rs_merge_adjacent : bool }.

Definition RunSet_default : RunSet := {| rs_runs := ∅; rs_merge_adjacent := false |}.
Definition RunSet_merging : RunSet := {| rs_runs := ∅; rs_merge_adjacent := true |}.

Definition set_runs (runs : gmap Z Z) (rs : RunSet) : RunSet := {| rs_runs := runs; rs_merge_adjacent := rs_merge_adjacent rs |}.

(** [BTreeMap::range(..=k).next_back()]. *)
Definition later_run (k : Z) (p : Z * Z) (best : option (Z * Z)) : option (Z * Z) :=
  if fst p <=? k then match best with Some b => if fst b <? fst p then Some p else best | None => Some p end else best.
Definition last_at_most (m : gmap Z Z) (k : Z) : option (Z * Z) := foldr (later_run k) None (map_to_list m).

(** [BTreeMap::range(start..end)] panics when the bounds are inverted. *)
Definition starts_within {E} (m : gmap Z Z) (first bound : Z) : outcome E bool :=
  if bound <? first then Panic else Ok (existsb (fun p => (first <=? fst p) && (fst p <? bound)) (map_to_list m)).

Definition RunSet_overlaps {E} (rs : RunSet) (first bound : Z) : outcome E bool :=
  match last_at_most (rs_runs rs) first with
  | Some (_, prev_end) => if first <? prev_end then Ok true else starts_within (rs_runs rs) first bound
  | None => starts_within (rs_runs rs) first bound
  end.

(** The run grown to the left, then to the right, with the joined runs removed. *)
Definition join_left (runs : gmap Z Z) (first : Z) : gmap Z Z * Z :=
  match last_at_most runs (first - 1) with
  | Some (previous_start, previous_end) => if previous_end =? first then (delete previous_start runs, previous_start) else (runs, first)
  | None => (runs, first)
  end.
Definition join_right (runs : gmap Z Z) (bound : Z) : gmap Z Z * Z :=
  match runs !! bound with Some next_end => (delete bound runs, next_end) | None => (runs, bound) end.

Definition RunSet_insert {E} (rs : RunSet) (first bound : Z) : outcome E (RunSet * bool) :=
  if negb (first <? bound) then Panic else
  let* taken := RunSet_overlaps rs first bound in
  if (taken : bool) then Ok (rs, false) else
  let '(runs, first) := if rs_merge_adjacent rs then join_left (rs_runs rs) first else (rs_runs rs, first) in
  let '(runs, bound) := if rs_merge_adjacent rs then join_right runs bound else (runs, bound) in
  Ok (set_runs (<[first := bound]> runs) rs, true).

Definition RunSet_remove_block (rs : RunSet) (lba : Z) : RunSet * bool :=
  match last_at_most (rs_runs rs) lba with
  | None => (rs, false)
  | Some (first, bound) =>
      if bound <=? lba then (rs, false) else
      let runs := delete first (rs_runs rs) in
      let runs := if first <? lba then <[first := lba]> runs else runs in
      let runs := if lba + 1 <? bound then <[lba + 1 := bound]> runs else runs in
      (set_runs runs rs, true)
  end.

(** ** The set it implements *)

Definition run_blocks (first bound : Z) : gset Z := list_to_set (seqZ first (bound - first)).
Definition blocks_of (rs : RunSet) : gset Z := ⋃ ((fun p => run_blocks (fst p) (snd p)) <$> map_to_list (rs_runs rs)).

Definition run_at (rs : RunSet) (x first bound : Z) : Prop := rs_runs rs !! first = Some bound /\ first <= x < bound.

Lemma elem_of_run_blocks x first bound : x ∈ run_blocks first bound <-> first <= x < bound.
Proof. unfold run_blocks. rewrite elem_of_list_to_set, elem_of_seqZ. lia. Qed.

Lemma elem_of_blocks_of rs x : x ∈ blocks_of rs <-> exists first bound, run_at rs x first bound.
Proof.
  unfold blocks_of, run_at. rewrite elem_of_union_list. split.
  - intros (s & ([a b] & -> & Hp)%list_elem_of_fmap & Hx). apply elem_of_map_to_list in Hp. apply elem_of_run_blocks in Hx. by exists a, b.
  - intros (a & b & Hp & Hx). exists (run_blocks a b). split; [|by apply elem_of_run_blocks]. apply list_elem_of_fmap. exists (a, b).
    split; [done|]. by apply elem_of_map_to_list.
Qed.

(** Runs are not empty and do not overlap; in a merging set no two touch. *)
Record run_set_ok (rs : RunSet) : Prop := {
  rs_nonempty : forall a b, rs_runs rs !! a = Some b -> a < b;
  rs_disjoint : forall a b a' b', rs_runs rs !! a = Some b -> rs_runs rs !! a' = Some b' -> a < a' -> b <= a';
  rs_maximal : rs_merge_adjacent rs = true -> forall a b, rs_runs rs !! a = Some b -> rs_runs rs !! b = None;
}.

Lemma run_set_default_ok : run_set_ok RunSet_default.
Proof. constructor; by intros. Qed.

Lemma run_set_merging_ok : run_set_ok RunSet_merging.
Proof. constructor; by intros. Qed.

Lemma last_at_most_spec m k :
  match last_at_most m k with
  | Some (a, b) => m !! a = Some b /\ a <= k /\ forall a' b', m !! a' = Some b' -> a' <= k -> a' <= a
  | None => forall a b, m !! a = Some b -> k < a
  end.
Proof.
  unfold last_at_most.
  assert (forall l, match foldr (later_run k) None l with
    | Some (a, b) => (a, b) ∈ l /\ a <= k /\ forall a' b', (a', b') ∈ l -> a' <= k -> a' <= a
    | None => forall a b, (a, b) ∈ l -> k < a end) as H.
  { induction l as [|[a b] l IH]; [by intros ? ? ?%not_elem_of_nil|]. cbn [foldr]. unfold later_run at 1. cbn [fst].
    destruct (foldr (later_run k) None l) as [[a1 b1]|]; destruct (a <=? k) eqn:Ha; cbn [fst]; [destruct (a1 <? a) eqn:Hlt| | |].
    1-3: destruct IH as (I1 & I2 & I3).
    - split; [by left|]. split; [lia|]. intros a' b' [[= -> ->]|Hin]%elem_of_cons Hk; [lia|]. specialize (I3 _ _ Hin Hk). lia.
    - split; [by right|]. split; [lia|]. intros a' b' [[= -> ->]|Hin]%elem_of_cons Hk; [lia|]. by eapply I3.
    - split; [by right|]. split; [lia|]. intros a' b' [[= -> ->]|Hin]%elem_of_cons Hk; [lia|]. by eapply I3.
    - split; [by left|]. split; [lia|]. intros a' b' [[= -> ->]|Hin]%elem_of_cons Hk; [lia|]. specialize (IH _ _ Hin). lia.
    - intros a' b' [[= -> ->]|Hin]%elem_of_cons; [lia|]. by eapply IH. }
  specialize (H (map_to_list m)). destruct (foldr _ None _) as [[a b]|].
  - destruct H as (H1 & H2 & H3). apply elem_of_map_to_list in H1. split; [done|]. split; [done|]. intros a' b' Hl. by apply (H3 a' b'), elem_of_map_to_list.
  - intros a b Hl. by apply (H a b), elem_of_map_to_list.
Qed.

Lemma starts_within_spec {E} m first bound : first <= bound ->
  exists b, @starts_within E m first bound = Ok b /\ (b = true <-> exists a e, m !! a = Some e /\ first <= a < bound).
Proof.
  intros Hle. unfold starts_within. replace (bound <? first) with false by lia. eexists. split; [done|]. rewrite existsb_exists. split.
  - intros ([a e] & Hin & Hc). apply list_elem_of_In, elem_of_map_to_list in Hin. exists a, e. cbn in Hc. split; [done|lia].
  - intros (a & e & Hm & Ha). exists (a, e). split; [by apply list_elem_of_In, elem_of_map_to_list|cbn; lia].
Qed.

(** ** The operations *)

Lemma run_unique rs x a b a' b' : run_set_ok rs -> run_at rs x a b -> run_at rs x a' b' -> a = a' /\ b = b'.
Proof.
  intros [_ Hd _] [H1 ?] [H2 ?]. destruct (Z.lt_trichotomy a a') as [Hlt|[<-|Hlt]].
  - specialize (Hd _ _ _ _ H1 H2 Hlt). lia.
  - rewrite H1 in H2. by injection H2 as <-.
  - specialize (Hd _ _ _ _ H2 H1 Hlt). lia.
Qed.

(** The run that holds a block is the last one starting at or before it. *)
Lemma last_at_most_run rs x : run_set_ok rs ->
  match last_at_most (rs_runs rs) x with
  | Some (a, b) => rs_runs rs !! a = Some b /\ a <= x /\ (x ∈ blocks_of rs <-> x < b)
  | None => x ∉ blocks_of rs
  end.
Proof.
  intros Hok. pose proof (last_at_most_spec (rs_runs rs) x) as H. destruct (last_at_most (rs_runs rs) x) as [[a b]|].
  - destruct H as (Hm & Ha & Hmax). split; [done|]. split; [done|]. rewrite elem_of_blocks_of. split; [|intros Hb; by exists a, b].
    intros (a' & b' & Hm' & Hx). destruct (decide (a' = a)) as [->|Hne]; [rewrite Hm in Hm'; injection Hm' as <-; lia|].
    specialize (Hmax _ _ Hm' ltac:(lia)). pose proof (rs_disjoint rs Hok _ _ _ _ Hm' Hm ltac:(lia)). lia.
  - intros (a & b & Hm & Hx)%elem_of_blocks_of. specialize (H _ _ Hm). lia.
Qed.

Lemma overlaps_spec {E} rs first bound : run_set_ok rs -> first < bound ->
  exists b, @RunSet_overlaps E rs first bound = Ok b /\ (b = false <-> blocks_of rs ## run_blocks first bound).
Proof.
  intros Hok Hlt. unfold RunSet_overlaps. pose proof (last_at_most_run rs first Hok) as H.
  assert (forall b, (b = true <-> exists a e, rs_runs rs !! a = Some e /\ first <= a < bound) -> first ∉ blocks_of rs ->
    b = false <-> blocks_of rs ## run_blocks first bound) as Hstart.
  { intros b Hb Hn. split.
    - intros -> x Hx Hr. apply elem_of_run_blocks in Hr. apply elem_of_blocks_of in Hx as (a & e & Hm & Hx).
      assert (first <= a) as Ha by (apply Z.nlt_ge; intros Ha; apply Hn, elem_of_blocks_of; exists a, e; split; [done|lia]).
      assert (false = true) by (apply Hb; exists a, e; split; [done|lia]). done.
    - intros Hd. destruct b; [|done]. destruct (proj1 Hb eq_refl) as (a & e & Hm & Ha). exfalso. apply (Hd a); [|by apply elem_of_run_blocks].
      apply elem_of_blocks_of. exists a, e. split; [done|]. pose proof (rs_nonempty rs Hok _ _ Hm). lia. }
  destruct (last_at_most (rs_runs rs) first) as [[a b]|].
  - destruct H as (Hm & Ha & Hin). destruct (first <? b) eqn:Hb.
    + exists true. split; [done|]. split; [done|]. intros Hd. exfalso. apply (Hd first); [apply Hin; lia|apply elem_of_run_blocks; lia].
    + destruct (starts_within_spec (E := E) (rs_runs rs) first bound ltac:(lia)) as (c & -> & Hc). exists c. split; [done|]. apply Hstart; [done|]. rewrite Hin. lia.
  - destruct (starts_within_spec (E := E) (rs_runs rs) first bound ltac:(lia)) as (c & -> & Hc). exists c. split; [done|]. by apply Hstart.
Qed.

Lemma join_left_spec rs first runs first' : run_set_ok rs -> first ∉ blocks_of rs -> join_left (rs_runs rs) first = (runs, first') ->
  first' <= first /\ (first' = first \/ rs_runs rs !! first' = Some first) /\
  (forall a b, runs !! a = Some b <-> rs_runs rs !! a = Some b /\ ~ (first' <= a < first)) /\
  (forall a, runs !! a = Some first -> False).
Proof.
  intros Hok Hn. unfold join_left. pose proof (last_at_most_spec (rs_runs rs) (first - 1)) as H.
  destruct (last_at_most (rs_runs rs) (first - 1)) as [[ps pe]|].
  - destruct H as (Hm & Hp & Hmax).
    assert (forall a, rs_runs rs !! a = Some first -> a = ps /\ pe = first) as Hlast.
    { intros a Ha. pose proof (rs_nonempty rs Hok _ _ Ha). pose proof (Hmax _ _ Ha ltac:(lia)). pose proof (rs_nonempty rs Hok _ _ Hm).
      destruct (decide (a = ps)) as [->|]; [rewrite Hm in Ha; injection Ha as ->; done|].
      pose proof (rs_disjoint rs Hok _ _ _ _ Ha Hm ltac:(lia)). lia. }
    destruct (pe =? first) eqn:He; intros [= <- <-].
    + apply Z.eqb_eq in He. subst pe. split; [lia|]. split; [by right|]. split.
      * intros a b. rewrite lookup_delete_Some. split.
        -- intros [Hne Ha]. split; [done|]. intros Hr. pose proof (rs_disjoint rs Hok _ _ _ _ Hm Ha ltac:(lia)). lia.
        -- intros [Ha Hr]. split; [|done]. intros ->. lia.
      * intros a. rewrite lookup_delete_Some. intros [Hne Ha]. by destruct (Hlast _ Ha).
    + apply Z.eqb_neq in He. split; [lia|]. split; [by left|]. split; [intros a b; split; [intros ?; split; [done|lia]|by intros [? _]]|].
      intros a Ha. by destruct (Hlast _ Ha).
  - intros [= <- <-]. split; [lia|]. split; [by left|]. split; [intros a b; split; [intros ?; split; [done|lia]|by intros [? _]]|].
    intros a Ha. pose proof (rs_nonempty rs Hok _ _ Ha). specialize (H _ _ Ha). lia.
Qed.

Lemma join_right_spec rs runs bound runs' bound' (first first' : Z) : run_set_ok rs -> first' <= first < bound ->
  (forall a b, runs !! a = Some b <-> rs_runs rs !! a = Some b /\ ~ (first' <= a < first)) -> join_right runs bound = (runs', bound') ->
  bound <= bound' /\ (bound' = bound \/ rs_runs rs !! bound = Some bound') /\
  (forall a b, runs' !! a = Some b <-> rs_runs rs !! a = Some b /\ ~ (first' <= a < first) /\ ~ (bound <= a < bound')) /\
  (bound' = bound -> rs_runs rs !! bound = None).
Proof.
  intros Hok Hf Hruns. unfold join_right. destruct (runs !! bound) as [next|] eqn:Hb; intros [= <- <-].
  - apply Hruns in Hb as [Hb _]. pose proof (rs_nonempty rs Hok _ _ Hb). split; [lia|]. split; [by right|]. split; [|lia].
    intros a b. rewrite lookup_delete_Some, Hruns. split.
    + intros (Hne & Ha & Hr). split; [done|]. split; [done|]. intros Hr'. pose proof (rs_disjoint rs Hok _ _ _ _ Hb Ha ltac:(lia)). lia.
    + intros (Ha & Hr & Hr'). split; [intros ->; lia|]. done.
  - split; [lia|]. split; [by left|]. split.
    + intros a b. rewrite Hruns. split; [intros [? ?]; split; [done|]; split; [done|lia]|by intros (? & ? & _)].
    + intros _. destruct (rs_runs rs !! bound) as [e|] eqn:He; [|done]. assert (runs !! bound = Some e) as Hx by (apply Hruns; split; [done|lia]). by rewrite Hb in Hx.
Qed.

(** A run added to a set it is disjoint from, with the runs it joined taken out. *)
Lemma insert_joined rs runs first bound first' bound' :
  run_set_ok rs -> first < bound -> blocks_of rs ## run_blocks first bound ->
  first' <= first -> bound <= bound' -> (first' = first \/ rs_runs rs !! first' = Some first) -> (bound' = bound \/ rs_runs rs !! bound = Some bound') ->
  (forall a b, runs !! a = Some b <-> rs_runs rs !! a = Some b /\ ~ (first' <= a < first) /\ ~ (bound <= a < bound')) ->
  (rs_merge_adjacent rs = true -> (forall a, rs_runs rs !! a = Some first' -> False) /\ rs_runs rs !! bound' = None) ->
  run_set_ok (set_runs (<[first' := bound']> runs) rs) /\ blocks_of (set_runs (<[first' := bound']> runs) rs) = run_blocks first bound ∪ blocks_of rs.
Proof.
  intros Hok Hlt Hdis Hf Hb Hl Hr Hruns Hmax.
  assert (forall a b, rs_runs rs !! a = Some b -> ~ (first <= a < bound) /\ (a < first -> b <= first)) as Hout.
  { intros a b Ha. pose proof (rs_nonempty rs Hok _ _ Ha). split.
    - intros Hin. apply (Hdis a); [apply elem_of_blocks_of; exists a, b; split; [done|lia]|apply elem_of_run_blocks; lia].
    - intros Hbe. apply Z.nlt_ge. intros Hgt. apply (Hdis first); [apply elem_of_blocks_of; exists a, b; split; [done|lia]|apply elem_of_run_blocks; lia]. }
  assert (forall a b, runs !! a = Some b -> rs_runs rs !! a = Some b /\ (b <= first' \/ bound' <= a)) as Hrest.
  { intros a b Ha. apply Hruns in Ha as (Ha & H1 & H2). split; [done|]. destruct (Hout _ _ Ha) as [Ho1 Ho2].
    destruct (decide (a < first')) as [Hlt'|]; [left|right; lia]. destruct Hl as [->|Hl]; [by apply Ho2|].
    pose proof (rs_disjoint rs Hok _ _ _ _ Ha Hl Hlt'). lia. }
  split; [constructor; cbn [set_runs rs_runs rs_merge_adjacent]|].
  - intros a b. rewrite lookup_insert_Some. intros [[<- <-]|[_ Ha]]; [lia|]. by apply (rs_nonempty rs Hok), Hrest.
  - intros a b a' b'. rewrite !lookup_insert_Some. intros [[<- <-]|[Hn Ha]] [[<- <-]|[Hn' Ha']] Hltb; [lia| | |].
    + apply Hrest in Ha' as [Ha' [?|?]]; [|done]. pose proof (rs_nonempty rs Hok _ _ Ha'). lia.
    + apply Hrest in Ha as [Ha [?|?]]; [done|lia].
    + apply Hrest in Ha as [Ha _]. apply Hrest in Ha' as [Ha' _]. by eapply (rs_disjoint rs Hok).
  - intros Hmg a b. destruct (Hmax Hmg) as [Hm1 Hm2]. rewrite lookup_insert_Some. intros [[<- <-]|[Hn Ha]].
    + rewrite lookup_insert_None. split; [|lia]. destruct (runs !! bound') as [e|] eqn:He; [|done]. apply Hrest in He as [He _]. by rewrite Hm2 in He.
    + apply Hrest in Ha as [Ha _]. rewrite lookup_insert_None. split.
      * destruct (runs !! b) as [e|] eqn:He; [|done]. apply Hrest in He as [He _]. by rewrite (rs_maximal rs Hok Hmg _ _ Ha) in He.
      * intros <-. by eapply Hm1.
  - apply set_eq. intros x. rewrite elem_of_union, elem_of_run_blocks, !elem_of_blocks_of. unfold run_at. cbn [set_runs rs_runs]. split.
    + intros (a & b & Ha & Hx). rewrite lookup_insert_Some in Ha. destruct Ha as [[<- <-]|[_ Ha]].
      * destruct (decide (x < first)); [right; destruct Hl as [->|Hl]; [lia|exists first', first; split; [done|lia]]|].
        destruct (decide (bound <= x)); [right; destruct Hr as [->|Hr]; [lia|exists bound, bound'; split; [done|lia]]|]. left. lia.
      * right. apply Hrest in Ha as [Ha _]. by exists a, b.
    + intros [Hx|(a & b & Ha & Hx)]; [exists first', bound'; split; [apply lookup_insert_eq|lia]|].
      destruct (decide (first' <= a < first \/ bound <= a < bound')) as [Hin|Hnot].
      * exists first', bound'. split; [apply lookup_insert_eq|]. destruct (Hout _ _ Ha) as [Ho1 Ho2]. destruct Hin as [Hin|Hin]; [lia|].
        destruct Hr as [->|Hr]; [lia|]. destruct (decide (a = bound)) as [->|]; [rewrite Hr in Ha; injection Ha as <-; lia|].
        pose proof (rs_disjoint rs Hok _ _ _ _ Hr Ha ltac:(lia)). lia.
      * exists a, b. split; [|done]. rewrite lookup_insert_ne; [apply Hruns; split; [done|]; lia|]. intros <-. destruct (Hout _ _ Ha). lia.
Qed.

Lemma insert_spec {E} rs first bound : run_set_ok rs -> first < bound ->
  (blocks_of rs ## run_blocks first bound /\ exists rs', @RunSet_insert E rs first bound = Ok (rs', true) /\ run_set_ok rs' /\
     blocks_of rs' = run_blocks first bound ∪ blocks_of rs /\ rs_merge_adjacent rs' = rs_merge_adjacent rs) \/
  (~ (blocks_of rs ## run_blocks first bound) /\ @RunSet_insert E rs first bound = Ok (rs, false)).
Proof.
  intros Hok Hlt. unfold RunSet_insert. rewrite (proj2 (Z.ltb_lt first bound)) by done. cbn [negb].
  destruct (overlaps_spec (E := E) rs first bound Hok Hlt) as (b & -> & Hb). cbn [obind]. destruct b; [right; split; [|done]; intros Hd; by apply Hb in Hd|].
  left. assert (blocks_of rs ## run_blocks first bound) as Hdis by by apply Hb. split; [done|]. clear Hb.
  assert (first ∉ blocks_of rs) as Hn by (intros Hx; apply (Hdis first Hx), elem_of_run_blocks; lia).
  destruct (rs_merge_adjacent rs) eqn:Hm.
  - destruct (join_left (rs_runs rs) first) as [runs1 first'] eqn:Hl. destruct (join_left_spec rs first runs1 first' Hok Hn Hl) as (L1 & L2 & L3 & L4).
    destruct (join_right runs1 bound) as [runs2 bound'] eqn:Hr. destruct (join_right_spec rs runs1 bound runs2 bound' first first' Hok ltac:(lia) L3 Hr) as (R1 & R2 & R3 & R4).
    destruct (insert_joined rs runs2 first bound first' bound') as [I1 I2]; [done..| |eexists; split; [done|]; split; [done|]; split; [done|done]].
    intros _. split.
    + intros a Ha. destruct L2 as [->|L2]; [eapply L4, L3; split; [exact Ha|]; pose proof (rs_nonempty rs Hok _ _ Ha); lia|].
      pose proof (rs_maximal rs Hok Hm _ _ Ha) as Hc. by rewrite L2 in Hc.
    + destruct R2 as [->|R2]; [by apply R4|]. by apply (rs_maximal rs Hok Hm _ _ R2).
  - destruct (insert_joined rs (rs_runs rs) first bound first bound) as [I1 I2]; [done|done|done|lia|lia|by left|by left| |by rewrite Hm|].
    + intros a b. split; [intros ?; split; [done|lia]|by intros [? _]].
    + eexists. split; [done|]. split; [done|]. split; [done|done].
Qed.

(** The runs that are left when one block of a run goes. *)
Lemma split_lookup (m : gmap Z Z) a b lba x y : m !! a = Some b -> a <= lba < b ->
  (let runs := delete a m in
   let runs := if a <? lba then <[a := lba]> runs else runs in
   if lba + 1 <? b then <[lba + 1 := b]> runs else runs) !! x = Some y ->
  (m !! x = Some y /\ x <> a) \/ (x = a /\ y = lba /\ a < lba) \/ (x = lba + 1 /\ y = b /\ lba + 1 < b).
Proof.
  intros Ha Hl. cbn zeta. destruct (lba + 1 <? b) eqn:H1; destruct (a <? lba) eqn:H2; rewrite ?lookup_insert_Some, ?lookup_delete_Some; intuition lia.
Qed.

Lemma remove_block_spec rs lba : run_set_ok rs ->
  (lba ∈ blocks_of rs /\ exists rs', RunSet_remove_block rs lba = (rs', true) /\ run_set_ok rs' /\ blocks_of rs' = blocks_of rs ∖ {[lba]} /\
     rs_merge_adjacent rs' = rs_merge_adjacent rs) \/
  ((lba ∉ blocks_of rs) /\ RunSet_remove_block rs lba = (rs, false)).
Proof.
  intros Hok. unfold RunSet_remove_block. pose proof (last_at_most_run rs lba Hok) as H. destruct (last_at_most (rs_runs rs) lba) as [[a b]|]; [|by right].
  destruct H as (Hm & Ha & Hin). destruct (b <=? lba) eqn:Hb; [right; split; [rewrite Hin; lia|done]|]. left. split; [apply Hin; lia|].
  eexists. split; [reflexivity|]. set (runs := if lba + 1 <? b then _ else _).
  assert (forall x y, runs !! x = Some y -> (rs_runs rs !! x = Some y /\ x <> a) \/ (x = a /\ y = lba /\ a < lba) \/ (x = lba + 1 /\ y = b /\ lba + 1 < b)) as Hsub
    by (intros x y; apply (split_lookup (rs_runs rs) a b lba x y Hm); lia).
  assert (forall x y, rs_runs rs !! x = Some y -> x <> a -> y <= a \/ b <= x) as Hfar.
  { intros x y Hx Hne. destruct (decide (x < a)); [left; by eapply (rs_disjoint rs Hok)|right; eapply (rs_disjoint rs Hok); [exact Hm|exact Hx|lia]]. }
  assert (forall x y, rs_runs rs !! x = Some y -> x <> a -> runs !! x = Some y) as Hkeep.
  { intros x y Hx Hne. destruct (Hfar _ _ Hx Hne); pose proof (rs_nonempty rs Hok _ _ Hx); subst runs; destruct (lba + 1 <? b) eqn:H1; destruct (a <? lba) eqn:H2;
      rewrite ?lookup_insert_ne, ?lookup_delete_ne by lia; done. }
  split; [constructor; cbn [set_runs rs_runs rs_merge_adjacent]|split; [|done]].
  - intros x y [[Hx _]|[?|?]]%Hsub; [by apply (rs_nonempty rs Hok)|lia|lia].
  - intros x y x' y' Hx Hx' Hlt. apply Hsub in Hx, Hx'. destruct Hx as [[Hx Hne]|Hx]; destruct Hx' as [[Hx' Hne']|Hx'];
      [by eapply (rs_disjoint rs Hok)|destruct (Hfar _ _ Hx Hne); pose proof (rs_nonempty rs Hok _ _ Hx); lia|
       destruct (Hfar _ _ Hx' Hne'); pose proof (rs_nonempty rs Hok _ _ Hx'); lia|lia].
  - intros Hmg x y Hx. destruct (runs !! y) as [z|] eqn:Hy; [exfalso|done]. apply Hsub in Hx, Hy.
    destruct Hx as [[Hx Hne]|[(-> & -> & ?)|(-> & -> & ?)]].
    + pose proof (rs_maximal rs Hok Hmg _ _ Hx) as Hc. destruct Hy as [[Hy _]|[(-> & _)|(-> & _ & ?)]]; [by rewrite Hc in Hy|by rewrite Hc in Hm|].
      destruct (Hfar _ _ Hx Hne); pose proof (rs_nonempty rs Hok _ _ Hx); lia.
    + destruct Hy as [[Hy Hne']|?]; [|lia]. destruct (Hfar _ _ Hy Hne'); pose proof (rs_nonempty rs Hok _ _ Hy); lia.
    + pose proof (rs_maximal rs Hok Hmg _ _ Hm) as Hc. destruct Hy as [[Hy _]|?]; [by rewrite Hc in Hy|lia].
  - apply set_eq. intros x. rewrite elem_of_difference, elem_of_singleton, !elem_of_blocks_of. unfold run_at. cbn [set_runs rs_runs]. split.
    + intros (s & e & Hs & Hx). apply Hsub in Hs as [[Hs Hne]|[(-> & -> & ?)|(-> & -> & ?)]].
      * split; [by exists s, e|]. intros ->. destruct (Hfar _ _ Hs Hne); lia.
      * split; [exists a, b; split; [done|lia]|lia].
      * split; [exists a, b; split; [done|lia]|lia].
    + intros [(s & e & Hs & Hx) Hne]. destruct (decide (s = a)) as [->|Hsa]; [|exists s, e; split; [by apply Hkeep|done]].
      rewrite Hm in Hs. injection Hs as <-. destruct (decide (x < lba)).
      * exists a, lba. split; [|lia]. subst runs. destruct (lba + 1 <? b); [rewrite lookup_insert_ne by lia|]; replace (a <? lba) with true by lia; apply lookup_insert_eq.
      * exists (lba + 1), b. split; [|lia]. subst runs. replace (lba + 1 <? b) with true by lia. apply lookup_insert_eq.
Qed.

(** C22: the interval set of the allocator implements a finite set of blocks.
    On every set reached by its operations, a nonempty run is reported as
    overlapping exactly when it meets the set; it is inserted exactly when it
    does not, and refused without a change otherwise; a block is removed
    exactly when it is a member. Runs stay disjoint, and in a merging set no
    two runs touch, so a sequential fill keeps one entry. *)
Theorem run_set_implements_set rs first bound lba :
  run_set_ok rs -> first < bound ->
  (exists taken, RunSet_overlaps (E := CoreError) rs first bound = Ok taken /\ (taken = false <-> blocks_of rs ## run_blocks first bound)) /\
  (exists rs' fresh, RunSet_insert (E := CoreError) rs first bound = Ok (rs', fresh) /\ run_set_ok rs' /\
     (fresh = true <-> blocks_of rs ## run_blocks first bound) /\
     (if fresh then blocks_of rs' = run_blocks first bound ∪ blocks_of rs /\ rs_merge_adjacent rs' = rs_merge_adjacent rs else rs' = rs)) /\
  (exists rs' present, RunSet_remove_block rs lba = (rs', present) /\ run_set_ok rs' /\ present = bool_decide (lba ∈ blocks_of rs) /\
     blocks_of rs' = blocks_of rs ∖ {[lba]} /\ rs_merge_adjacent rs' = rs_merge_adjacent rs) /\
  (rs_merge_adjacent rs = true -> forall a b, rs_runs rs !! a = Some b -> rs_runs rs !! b = None).
Proof.
  intros Hok Hlt. split; [|split; [|split]].
  - destruct (overlaps_spec (E := CoreError) rs first bound Hok Hlt) as (b & Hb & Hs). by exists b.
  - destruct (insert_spec (E := CoreError) rs first bound Hok Hlt) as [(Hd & rs' & Hi & Hok' & Hb & Hm)|(Hd & Hi)].
    + exists rs', true. split; [exact Hi|]. split; [done|]. split; [by split|by split].
    + exists rs, false. split; [exact Hi|]. split; [done|]. split; [by split|done].
  - destruct (remove_block_spec rs lba Hok) as [(Hin & rs' & Hr & Hok' & Hb & Hm)|(Hn & Hr)].
    + exists rs', true. rewrite bool_decide_eq_true_2 by done. by split_and!.
    + exists rs, false. rewrite bool_decide_eq_false_2 by done. split_and!; [done|done|done|set_solver|done].
  - by apply rs_maximal.
Qed.

Lemma run_set_implements_set_witness :
  (exists rs' fresh, RunSet_insert (E := CoreError) RunSet_merging 5 8 = Ok (rs', fresh) /\ run_set_ok rs' /\
     (fresh = true <-> blocks_of RunSet_merging ## run_blocks 5 8) /\
     (if fresh then blocks_of rs' = run_blocks 5 8 ∪ blocks_of RunSet_merging /\ rs_merge_adjacent rs' = rs_merge_adjacent RunSet_merging else rs' = RunSet_merging)).
Proof. apply (run_set_implements_set RunSet_merging 5 8 6 run_set_merging_ok). lia. Defined.
