(* ===== verification/Alloc.v ===== *)
(** * The region allocator of a transaction (crates/afsplus-core/src/alloc.rs)

    The code that loads bitmap pages, hands out and takes back blocks, and
    emits the new allocation state of a commit.  What it does to the set of
    allocated blocks is the subject of AllocSpec.v and the files after it.

    Counters of [AllocStats] are unbounded.  The observers of the flight
    recorder and the allocation trace are left out: nothing reads them back.
    The preparation of snapshot lifetimes ([seal_snapshot_lifetimes]) is not
    translated; the phases around it are. *)

From stdpp Require Import sorting.
From S2P Require Import Prelude Format Header Codec TreeNode Geometry Bitmap Region Checkpoint Leaf ReclaimCodec Device Core Tree CowTree AllocRoot Reclaim RunSet.

(** ** Loading committed state *)

Section Load.
Context {D : Type} {device : BlockDevice Decoded D}.

Definition checkpoint_records (geo : Geometry) (checkpoint : Checkpoint) : io D CoreError (list RegionRecord) :=
  let! root := load_allocation_root geo (cp_allocation_root_block checkpoint) (cp_generation checkpoint) in
  iret (la_records root).

Definition checkpoint_record (geo : Geometry) (checkpoint : Checkpoint) (region : Z) : io D CoreError RegionRecord :=
  let! record := lookup_record geo (cp_allocation_root_block checkpoint) (cp_generation checkpoint) region in
  ilift (ok_or record (Corrupt "allocation root missing region")).

Definition load_region_descriptor (geo : Geometry) (region : Z) (record : RegionRecord) : io D CoreError RegionDescriptor :=
  let! lba := ilift (of_format (descriptor_slot_lba geo region (rr_descriptor_slot record))) in
  let! '(descriptor, generation) := read_decoded "region descriptor" RegionDescriptor_decode lba (block_size geo) in
  if negb (generation =? rr_descriptor_generation record) then
    ierr (Corrupt "region descriptor generation does not match checkpoint record") else
  do! ilift (or_corrupt "region descriptor" (RegionDescriptor_validate descriptor geo region generation)) in
  if negb (rd_free_blocks descriptor =? rr_free_blocks record) then ierr (Corrupt "region free count mismatch") else
  iret descriptor.

(** The comparison of a page with its place, with the short-circuit of [||]. *)
Definition misplaced (geo : Geometry) (region page_index : Z) (page : BitmapPage) : outcome CoreError bool :=
  if negb (bp_region page =? region) then Ok true else
  if negb (bp_page_index page =? page_index) then Ok true else
  let* valid := of_format (bitmap_page_valid_blocks geo region page_index) in
  Ok (negb (bp_valid_blocks page =? valid)).

Definition load_bitmap_page (geo : Geometry) (region page_index : Z) (descriptor : RegionDescriptor) : io D CoreError BitmapPage :=
  let! binding := ilift (ok_or (rd_pages descriptor !! Z.to_nat page_index) (Corrupt "region missing bitmap page")) in
  let! lba := ilift (of_format (bitmap_slot_lba geo region page_index (bb_slot binding))) in
  let! '(page, generation) := read_decoded "region bitmap page" BitmapPage_decode lba (block_size geo) in
  let! bad := ilift (misplaced geo region page_index page) in
  if (bad : bool) then ierr (Corrupt "region bitmap page geometry mismatch") else
  if negb (generation =? bb_generation binding) then ierr (Corrupt "region bitmap page generation does not match descriptor binding") else
  let! free := ilift (of_format (free_blocks page)) in
  if negb (free =? bb_free_blocks binding) then ierr (Corrupt "region bitmap page free count mismatch") else
  iret page.

(** ** The checker's view of all bitmaps *)

Record Bitmaps := { bm_geo : Geometry; bm_pages : list (list BitmapPage) }.

Fixpoint load_pages (geo : Geometry) (region : Z) (descriptor : RegionDescriptor) (indices : list Z) : io D CoreError (list BitmapPage) :=
  match indices with
  | [] => iret []
  | page_index :: indices =>
      let! page := load_bitmap_page geo region page_index descriptor in
      let! pages := load_pages geo region descriptor indices in
      iret (page :: pages)
  end.

Fixpoint load_regions (geo : Geometry) (region : Z) (records : list RegionRecord) : io D CoreError (list (list BitmapPage)) :=
  match records with
  | [] => iret []
  | record :: records =>
      let! descriptor := load_region_descriptor geo (as_u32 region) record in
      let! pages := load_pages geo (as_u32 region) descriptor (seqZ 0 (as_u32 (zlen (rd_pages descriptor)))) in
      let! regions := load_regions geo (region + 1) records in
      iret (pages :: regions)
  end.

Definition Bitmaps_load (geo : Geometry) (checkpoint : Checkpoint) : io D CoreError Bitmaps :=
  let! records := checkpoint_records geo checkpoint in
  let! regions := load_regions geo 0 records in
  iret {| bm_geo := geo; bm_pages := regions |}.
End Load.

(** The page of a block and its index there. *)
Definition locate (geo : Geometry) (lba : Z) : outcome CoreError (Z * Z * Z) :=
  let* region := of_format (region_of geo lba) in
  let* rel := sub_w lba (region_base geo region) in
  let '(page_index, local_index) := bitmap_page_for_index (as_u32 rel) in
  Ok (region, page_index, local_index).

(** Indexing a vector outside it panics. *)
Definition Bitmaps_is_allocated (b : Bitmaps) (lba : Z) : outcome CoreError bool :=
  let* '(region, page_index, local_index) := locate (bm_geo b) lba in
  match bm_pages b !! Z.to_nat region with
  | None => Panic
  | Some pages =>
      match pages !! Z.to_nat page_index with
      | None => Panic
      | Some page => of_format (is_allocated page local_index)
      end
  end.

Definition Bitmaps_free_blocks_total (b : Bitmaps) : outcome CoreError Z :=
  ofold (fun sum page => let* free := of_format (free_blocks page) in add_w 64 sum free) 0 (concat (bm_pages b)).

Definition Bitmaps_ram_bytes (b : Bitmaps) : Z := foldr (fun page sum => zlen (bp_bits page) + sum) 0 (concat (bm_pages b)).

(** ** The transaction *)

Inductive AllocStat : Type :=
| allocation_searches | bitmap_bits_examined | blocks_allocated | blocks_retired | blocks_promoted | blocks_released
| reclaim_latency_generations | bitmap_pages_dirty | region_descriptors_dirty | allocation_records_loaded | allocator_ram_bytes.

#[export] Instance AllocStat_eq_dec : EqDecision AllocStat.
Proof. solve_decision. Defined.

Record AllocStats := { as_count : AllocStat -> Z; as_reclaim : ReclaimStats }.

Definition AllocStats_default : AllocStats := {| as_count := fun _ => 0; as_reclaim := ReclaimStats_default |}.

Definition count_update (field : AllocStat) (f : Z -> Z) (s : AllocStats) : AllocStats :=
  {| as_count := fun g => if decide (g = field) then f (as_count s g) else as_count s g; as_reclaim := as_reclaim s |}.

Inductive SnapshotPhase : Type := PhaseNamespace | PhaseHousekeeping | PhasePreparing | PhaseSealed | PhaseFinalizing | PhaseFailed.

#[export] Instance SnapshotPhase_eq_dec : EqDecision SnapshotPhase.
Proof. solve_decision. Defined.

(** snapshot/edit.rs. *)
Record LifetimeMutation := {
  lm_tree : TreeMutation;
  lm_state : LedgerState;
  lm_quarantine : list (Z * Z);
  lm_reads : TreeLookupStats;
  lm_loaded_records : Z;
}.

Record SnapshotAccounting := {
  sa_phase : SnapshotPhase;
  sa_registry_root : Z;
  sa_allocations : RunSet;
  sa_retirements : RunSet;
  sa_mutation : option LifetimeMutation;
}.

Definition set_phase (phase : SnapshotPhase) (s : SnapshotAccounting) : SnapshotAccounting :=
  {| sa_phase := phase; sa_registry_root := sa_registry_root s; sa_allocations := sa_allocations s; sa_retirements := sa_retirements s; sa_mutation := sa_mutation s |}.
Definition set_registry_root (root : Z) (s : SnapshotAccounting) : SnapshotAccounting :=
  {| sa_phase := sa_phase s; sa_registry_root := root; sa_allocations := sa_allocations s; sa_retirements := sa_retirements s; sa_mutation := sa_mutation s |}.
Definition set_allocations (runs : RunSet) (s : SnapshotAccounting) : SnapshotAccounting :=
  {| sa_phase := sa_phase s; sa_registry_root := sa_registry_root s; sa_allocations := runs; sa_retirements := sa_retirements s; sa_mutation := sa_mutation s |}.
Definition set_retirements (runs : RunSet) (s : SnapshotAccounting) : SnapshotAccounting :=
  {| sa_phase := sa_phase s; sa_registry_root := sa_registry_root s; sa_allocations := sa_allocations s; sa_retirements := runs; sa_mutation := sa_mutation s |}.

Record TxAllocator := {
  ta_tree_cache_pages : Z;
  ta_tree_mutations : TreeMutationStats;
  ta_geo : Geometry;
  ta_current_checkpoint : Checkpoint;
  ta_other_checkpoint : option Checkpoint;
  ta_current_records : gmap Z RegionRecord;
  ta_other_records : gmap Z RegionRecord;
  ta_current_free_blocks_total : Z;
  ta_descriptors : gmap Z RegionDescriptor;
  ta_other_descriptors : gmap Z RegionDescriptor;
  ta_pages : gmap (Z * Z) BitmapPage;
  ta_new_generation : Z;
  ta_dirty_pages : gset (Z * Z);
  ta_dirty_regions : gset Z;
  ta_reclaim : option ReclaimTx;
  ta_allocated_this_tx : RunSet;
  ta_retired_this_tx : RunSet;
  ta_snapshot : option SnapshotAccounting;
  ta_rover_region : Z;
  ta_rover_index : Z;
  ta_free_block_floor : Z;
  ta_stats : AllocStats;
}.

(** ** Assignments to fields *)

Definition set_tree_cache_pages (pages : Z) (tx : TxAllocator) : TxAllocator :=
  {| ta_tree_cache_pages := pages; ta_tree_mutations := ta_tree_mutations tx; ta_geo := ta_geo tx;
     ta_current_checkpoint := ta_current_checkpoint tx; ta_other_checkpoint := ta_other_checkpoint tx;
     ta_current_records := ta_current_records tx; ta_other_records := ta_other_records tx;
     ta_current_free_blocks_total := ta_current_free_blocks_total tx; ta_descriptors := ta_descriptors tx;
     ta_other_descriptors := ta_other_descriptors tx; ta_pages := ta_pages tx; ta_new_generation := ta_new_generation tx;
     ta_dirty_pages := ta_dirty_pages tx; ta_dirty_regions := ta_dirty_regions tx; ta_reclaim := ta_reclaim tx;
     ta_allocated_this_tx := ta_allocated_this_tx tx; ta_retired_this_tx := ta_retired_this_tx tx;
     ta_snapshot := ta_snapshot tx; ta_rover_region := ta_rover_region tx; ta_rover_index := ta_rover_index tx;
     ta_free_block_floor := ta_free_block_floor tx; ta_stats := ta_stats tx |}.
Definition set_tree_mutations (stats : TreeMutationStats) (tx : TxAllocator) : TxAllocator :=
  {| ta_tree_cache_pages := ta_tree_cache_pages tx; ta_tree_mutations := stats; ta_geo := ta_geo tx;
     ta_current_checkpoint := ta_current_checkpoint tx; ta_other_checkpoint := ta_other_checkpoint tx;
     ta_current_records := ta_current_records tx; ta_other_records := ta_other_records tx;
     ta_current_free_blocks_total := ta_current_free_blocks_total tx; ta_descriptors := ta_descriptors tx;
     ta_other_descriptors := ta_other_descriptors tx; ta_pages := ta_pages tx; ta_new_generation := ta_new_generation tx;
     ta_dirty_pages := ta_dirty_pages tx; ta_dirty_regions := ta_dirty_regions tx; ta_reclaim := ta_reclaim tx;
     ta_allocated_this_tx := ta_allocated_this_tx tx; ta_retired_this_tx := ta_retired_this_tx tx;
     ta_snapshot := ta_snapshot tx; ta_rover_region := ta_rover_region tx; ta_rover_index := ta_rover_index tx;
     ta_free_block_floor := ta_free_block_floor tx; ta_stats := ta_stats tx |}.
Definition set_current_records (records : gmap Z RegionRecord) (tx : TxAllocator) : TxAllocator :=
  {| ta_tree_cache_pages := ta_tree_cache_pages tx; ta_tree_mutations := ta_tree_mutations tx; ta_geo := ta_geo tx;
     ta_current_checkpoint := ta_current_checkpoint tx; ta_other_checkpoint := ta_other_checkpoint tx;
     ta_current_records := records; ta_other_records := ta_other_records tx;
     ta_current_free_blocks_total := ta_current_free_blocks_total tx; ta_descriptors := ta_descriptors tx;
     ta_other_descriptors := ta_other_descriptors tx; ta_pages := ta_pages tx; ta_new_generation := ta_new_generation tx;
     ta_dirty_pages := ta_dirty_pages tx; ta_dirty_regions := ta_dirty_regions tx; ta_reclaim := ta_reclaim tx;
     ta_allocated_this_tx := ta_allocated_this_tx tx; ta_retired_this_tx := ta_retired_this_tx tx;
     ta_snapshot := ta_snapshot tx; ta_rover_region := ta_rover_region tx; ta_rover_index := ta_rover_index tx;
     ta_free_block_floor := ta_free_block_floor tx; ta_stats := ta_stats tx |}.
Definition set_other_records (records : gmap Z RegionRecord) (tx : TxAllocator) : TxAllocator :=
  {| ta_tree_cache_pages := ta_tree_cache_pages tx; ta_tree_mutations := ta_tree_mutations tx; ta_geo := ta_geo tx;
     ta_current_checkpoint := ta_current_checkpoint tx; ta_other_checkpoint := ta_other_checkpoint tx;
     ta_current_records := ta_current_records tx; ta_other_records := records;
     ta_current_free_blocks_total := ta_current_free_blocks_total tx; ta_descriptors := ta_descriptors tx;
     ta_other_descriptors := ta_other_descriptors tx; ta_pages := ta_pages tx; ta_new_generation := ta_new_generation tx;
     ta_dirty_pages := ta_dirty_pages tx; ta_dirty_regions := ta_dirty_regions tx; ta_reclaim := ta_reclaim tx;
     ta_allocated_this_tx := ta_allocated_this_tx tx; ta_retired_this_tx := ta_retired_this_tx tx;
     ta_snapshot := ta_snapshot tx; ta_rover_region := ta_rover_region tx; ta_rover_index := ta_rover_index tx;
     ta_free_block_floor := ta_free_block_floor tx; ta_stats := ta_stats tx |}.
Definition set_descriptors (descriptors : gmap Z RegionDescriptor) (tx : TxAllocator) : TxAllocator :=
  {| ta_tree_cache_pages := ta_tree_cache_pages tx; ta_tree_mutations := ta_tree_mutations tx; ta_geo := ta_geo tx;
     ta_current_checkpoint := ta_current_checkpoint tx; ta_other_checkpoint := ta_other_checkpoint tx;
     ta_current_records := ta_current_records tx; ta_other_records := ta_other_records tx;
     ta_current_free_blocks_total := ta_current_free_blocks_total tx; ta_descriptors := descriptors;
     ta_other_descriptors := ta_other_descriptors tx; ta_pages := ta_pages tx; ta_new_generation := ta_new_generation tx;
     ta_dirty_pages := ta_dirty_pages tx; ta_dirty_regions := ta_dirty_regions tx; ta_reclaim := ta_reclaim tx;
     ta_allocated_this_tx := ta_allocated_this_tx tx; ta_retired_this_tx := ta_retired_this_tx tx;
     ta_snapshot := ta_snapshot tx; ta_rover_region := ta_rover_region tx; ta_rover_index := ta_rover_index tx;
     ta_free_block_floor := ta_free_block_floor tx; ta_stats := ta_stats tx |}.
Definition set_other_descriptors (descriptors : gmap Z RegionDescriptor) (tx : TxAllocator) : TxAllocator :=
  {| ta_tree_cache_pages := ta_tree_cache_pages tx; ta_tree_mutations := ta_tree_mutations tx; ta_geo := ta_geo tx;
     ta_current_checkpoint := ta_current_checkpoint tx; ta_other_checkpoint := ta_other_checkpoint tx;
     ta_current_records := ta_current_records tx; ta_other_records := ta_other_records tx;
     ta_current_free_blocks_total := ta_current_free_blocks_total tx; ta_descriptors := ta_descriptors tx;
     ta_other_descriptors := descriptors; ta_pages := ta_pages tx; ta_new_generation := ta_new_generation tx;
     ta_dirty_pages := ta_dirty_pages tx; ta_dirty_regions := ta_dirty_regions tx; ta_reclaim := ta_reclaim tx;
     ta_allocated_this_tx := ta_allocated_this_tx tx; ta_retired_this_tx := ta_retired_this_tx tx;
     ta_snapshot := ta_snapshot tx; ta_rover_region := ta_rover_region tx; ta_rover_index := ta_rover_index tx;
     ta_free_block_floor := ta_free_block_floor tx; ta_stats := ta_stats tx |}.
Definition set_pages (pages : gmap (Z * Z) BitmapPage) (tx : TxAllocator) : TxAllocator :=
  {| ta_tree_cache_pages := ta_tree_cache_pages tx; ta_tree_mutations := ta_tree_mutations tx; ta_geo := ta_geo tx;
     ta_current_checkpoint := ta_current_checkpoint tx; ta_other_checkpoint := ta_other_checkpoint tx;
     ta_current_records := ta_current_records tx; ta_other_records := ta_other_records tx;
     ta_current_free_blocks_total := ta_current_free_blocks_total tx; ta_descriptors := ta_descriptors tx;
     ta_other_descriptors := ta_other_descriptors tx; ta_pages := pages; ta_new_generation := ta_new_generation tx;
     ta_dirty_pages := ta_dirty_pages tx; ta_dirty_regions := ta_dirty_regions tx; ta_reclaim := ta_reclaim tx;
     ta_allocated_this_tx := ta_allocated_this_tx tx; ta_retired_this_tx := ta_retired_this_tx tx;
     ta_snapshot := ta_snapshot tx; ta_rover_region := ta_rover_region tx; ta_rover_index := ta_rover_index tx;
     ta_free_block_floor := ta_free_block_floor tx; ta_stats := ta_stats tx |}.
Definition set_dirty (pages : gset (Z * Z)) (regions : gset Z) (tx : TxAllocator) : TxAllocator :=
  {| ta_tree_cache_pages := ta_tree_cache_pages tx; ta_tree_mutations := ta_tree_mutations tx; ta_geo := ta_geo tx;
     ta_current_checkpoint := ta_current_checkpoint tx; ta_other_checkpoint := ta_other_checkpoint tx;
     ta_current_records := ta_current_records tx; ta_other_records := ta_other_records tx;
     ta_current_free_blocks_total := ta_current_free_blocks_total tx; ta_descriptors := ta_descriptors tx;
     ta_other_descriptors := ta_other_descriptors tx; ta_pages := ta_pages tx; ta_new_generation := ta_new_generation tx;
     ta_dirty_pages := pages; ta_dirty_regions := regions; ta_reclaim := ta_reclaim tx;
     ta_allocated_this_tx := ta_allocated_this_tx tx; ta_retired_this_tx := ta_retired_this_tx tx;
     ta_snapshot := ta_snapshot tx; ta_rover_region := ta_rover_region tx; ta_rover_index := ta_rover_index tx;
     ta_free_block_floor := ta_free_block_floor tx; ta_stats := ta_stats tx |}.
Definition set_reclaim (reclaim : option ReclaimTx) (tx : TxAllocator) : TxAllocator :=
  {| ta_tree_cache_pages := ta_tree_cache_pages tx; ta_tree_mutations := ta_tree_mutations tx; ta_geo := ta_geo tx;
     ta_current_checkpoint := ta_current_checkpoint tx; ta_other_checkpoint := ta_other_checkpoint tx;
     ta_current_records := ta_current_records tx; ta_other_records := ta_other_records tx;
     ta_current_free_blocks_total := ta_current_free_blocks_total tx; ta_descriptors := ta_descriptors tx;
     ta_other_descriptors := ta_other_descriptors tx; ta_pages := ta_pages tx; ta_new_generation := ta_new_generation tx;
     ta_dirty_pages := ta_dirty_pages tx; ta_dirty_regions := ta_dirty_regions tx; ta_reclaim := reclaim;
     ta_allocated_this_tx := ta_allocated_this_tx tx; ta_retired_this_tx := ta_retired_this_tx tx;
     ta_snapshot := ta_snapshot tx; ta_rover_region := ta_rover_region tx; ta_rover_index := ta_rover_index tx;
     ta_free_block_floor := ta_free_block_floor tx; ta_stats := ta_stats tx |}.
Definition set_allocated_runs (runs : RunSet) (tx : TxAllocator) : TxAllocator :=
  {| ta_tree_cache_pages := ta_tree_cache_pages tx; ta_tree_mutations := ta_tree_mutations tx; ta_geo := ta_geo tx;
     ta_current_checkpoint := ta_current_checkpoint tx; ta_other_checkpoint := ta_other_checkpoint tx;
     ta_current_records := ta_current_records tx; ta_other_records := ta_other_records tx;
     ta_current_free_blocks_total := ta_current_free_blocks_total tx; ta_descriptors := ta_descriptors tx;
     ta_other_descriptors := ta_other_descriptors tx; ta_pages := ta_pages tx; ta_new_generation := ta_new_generation tx;
     ta_dirty_pages := ta_dirty_pages tx; ta_dirty_regions := ta_dirty_regions tx; ta_reclaim := ta_reclaim tx;
     ta_allocated_this_tx := runs; ta_retired_this_tx := ta_retired_this_tx tx; ta_snapshot := ta_snapshot tx;
     ta_rover_region := ta_rover_region tx; ta_rover_index := ta_rover_index tx;
     ta_free_block_floor := ta_free_block_floor tx; ta_stats := ta_stats tx |}.
Definition set_retired_runs (runs : RunSet) (tx : TxAllocator) : TxAllocator :=
  {| ta_tree_cache_pages := ta_tree_cache_pages tx; ta_tree_mutations := ta_tree_mutations tx; ta_geo := ta_geo tx;
     ta_current_checkpoint := ta_current_checkpoint tx; ta_other_checkpoint := ta_other_checkpoint tx;
     ta_current_records := ta_current_records tx; ta_other_records := ta_other_records tx;
     ta_current_free_blocks_total := ta_current_free_blocks_total tx; ta_descriptors := ta_descriptors tx;
     ta_other_descriptors := ta_other_descriptors tx; ta_pages := ta_pages tx; ta_new_generation := ta_new_generation tx;
     ta_dirty_pages := ta_dirty_pages tx; ta_dirty_regions := ta_dirty_regions tx; ta_reclaim := ta_reclaim tx;
     ta_allocated_this_tx := ta_allocated_this_tx tx; ta_retired_this_tx := runs; ta_snapshot := ta_snapshot tx;
     ta_rover_region := ta_rover_region tx; ta_rover_index := ta_rover_index tx;
     ta_free_block_floor := ta_free_block_floor tx; ta_stats := ta_stats tx |}.
Definition set_snapshot (snapshot : option SnapshotAccounting) (tx : TxAllocator) : TxAllocator :=
  {| ta_tree_cache_pages := ta_tree_cache_pages tx; ta_tree_mutations := ta_tree_mutations tx; ta_geo := ta_geo tx;
     ta_current_checkpoint := ta_current_checkpoint tx; ta_other_checkpoint := ta_other_checkpoint tx;
     ta_current_records := ta_current_records tx; ta_other_records := ta_other_records tx;
     ta_current_free_blocks_total := ta_current_free_blocks_total tx; ta_descriptors := ta_descriptors tx;
     ta_other_descriptors := ta_other_descriptors tx; ta_pages := ta_pages tx; ta_new_generation := ta_new_generation tx;
     ta_dirty_pages := ta_dirty_pages tx; ta_dirty_regions := ta_dirty_regions tx; ta_reclaim := ta_reclaim tx;
     ta_allocated_this_tx := ta_allocated_this_tx tx; ta_retired_this_tx := ta_retired_this_tx tx; ta_snapshot := snapshot;
     ta_rover_region := ta_rover_region tx; ta_rover_index := ta_rover_index tx;
     ta_free_block_floor := ta_free_block_floor tx; ta_stats := ta_stats tx |}.
Definition set_rover (region : Z) (index : Z) (tx : TxAllocator) : TxAllocator :=
  {| ta_tree_cache_pages := ta_tree_cache_pages tx; ta_tree_mutations := ta_tree_mutations tx; ta_geo := ta_geo tx;
     ta_current_checkpoint := ta_current_checkpoint tx; ta_other_checkpoint := ta_other_checkpoint tx;
     ta_current_records := ta_current_records tx; ta_other_records := ta_other_records tx;
     ta_current_free_blocks_total := ta_current_free_blocks_total tx; ta_descriptors := ta_descriptors tx;
     ta_other_descriptors := ta_other_descriptors tx; ta_pages := ta_pages tx; ta_new_generation := ta_new_generation tx;
     ta_dirty_pages := ta_dirty_pages tx; ta_dirty_regions := ta_dirty_regions tx; ta_reclaim := ta_reclaim tx;
     ta_allocated_this_tx := ta_allocated_this_tx tx; ta_retired_this_tx := ta_retired_this_tx tx;
     ta_snapshot := ta_snapshot tx; ta_rover_region := region; ta_rover_index := index;
     ta_free_block_floor := ta_free_block_floor tx; ta_stats := ta_stats tx |}.
Definition set_floor (blocks : Z) (tx : TxAllocator) : TxAllocator :=
  {| ta_tree_cache_pages := ta_tree_cache_pages tx; ta_tree_mutations := ta_tree_mutations tx; ta_geo := ta_geo tx;
     ta_current_checkpoint := ta_current_checkpoint tx; ta_other_checkpoint := ta_other_checkpoint tx;
     ta_current_records := ta_current_records tx; ta_other_records := ta_other_records tx;
     ta_current_free_blocks_total := ta_current_free_blocks_total tx; ta_descriptors := ta_descriptors tx;
     ta_other_descriptors := ta_other_descriptors tx; ta_pages := ta_pages tx; ta_new_generation := ta_new_generation tx;
     ta_dirty_pages := ta_dirty_pages tx; ta_dirty_regions := ta_dirty_regions tx; ta_reclaim := ta_reclaim tx;
     ta_allocated_this_tx := ta_allocated_this_tx tx; ta_retired_this_tx := ta_retired_this_tx tx;
     ta_snapshot := ta_snapshot tx; ta_rover_region := ta_rover_region tx; ta_rover_index := ta_rover_index tx;
     ta_free_block_floor := blocks; ta_stats := ta_stats tx |}.
Definition set_stats (stats : AllocStats) (tx : TxAllocator) : TxAllocator :=
  {| ta_tree_cache_pages := ta_tree_cache_pages tx; ta_tree_mutations := ta_tree_mutations tx; ta_geo := ta_geo tx;
     ta_current_checkpoint := ta_current_checkpoint tx; ta_other_checkpoint := ta_other_checkpoint tx;
     ta_current_records := ta_current_records tx; ta_other_records := ta_other_records tx;
     ta_current_free_blocks_total := ta_current_free_blocks_total tx; ta_descriptors := ta_descriptors tx;
     ta_other_descriptors := ta_other_descriptors tx; ta_pages := ta_pages tx; ta_new_generation := ta_new_generation tx;
     ta_dirty_pages := ta_dirty_pages tx; ta_dirty_regions := ta_dirty_regions tx; ta_reclaim := ta_reclaim tx;
     ta_allocated_this_tx := ta_allocated_this_tx tx; ta_retired_this_tx := ta_retired_this_tx tx;
     ta_snapshot := ta_snapshot tx; ta_rover_region := ta_rover_region tx; ta_rover_index := ta_rover_index tx;
     ta_free_block_floor := ta_free_block_floor tx; ta_stats := stats |}.

Definition tally_alloc (field : AllocStat) (f : Z -> Z) (tx : TxAllocator) : TxAllocator := set_stats (count_update field f (ta_stats tx)) tx.
Definition alloc_count (tx : TxAllocator) (field : AllocStat) : Z := as_count (ta_stats tx) field.

Definition mark_dirty (region page_index : Z) (tx : TxAllocator) : TxAllocator :=
  set_dirty ({[(region, page_index)]} ∪ ta_dirty_pages tx) ({[region]} ∪ ta_dirty_regions tx) tx.

(** ** Snapshot phases *)

Definition in_phase (phase : SnapshotPhase) (tx : TxAllocator) : bool :=
  match ta_snapshot tx with Some s => bool_decide (sa_phase s = phase) | None => false end.

Definition check_snapshot_health (tx : TxAllocator) : outcome CoreError unit :=
  if in_phase PhaseFailed tx then Err (Corrupt "snapshot accounting failed; discard transaction") else Ok tt.

Definition check_snapshot_writable (tx : TxAllocator) : outcome CoreError unit :=
  do* check_snapshot_health tx in
  if in_phase PhaseSealed tx then Err (Corrupt "allocator mutation after lifetime seal") else Ok tt.

Definition check_snapshot_release (first bound : Z) (tx : TxAllocator) : outcome CoreError unit :=
  match ta_snapshot tx with
  | Some s =>
      if bool_decide (sa_phase s = PhasePreparing) || bool_decide (sa_phase s = PhaseSealed) then
        let* taken := RunSet_overlaps (sa_allocations s) first bound in
        if (taken : bool) then Err (Corrupt "namespace release after lifetime preparation") else Ok tt
      else Ok tt
  | None => Ok tt
  end.

Definition set_free_block_floor (blocks : Z) (tx : TxAllocator) : TxAllocator := set_floor blocks tx.

Definition free_blocks_remaining (tx : TxAllocator) : Z :=
  let made_available := saturating_add 64 (ta_current_free_blocks_total tx) (alloc_count tx blocks_promoted) in
  let live_allocations := saturating_sub (alloc_count tx blocks_allocated) (alloc_count tx blocks_released) in
  saturating_sub made_available live_allocations.

Definition above_floor (blocks : Z) (tx : TxAllocator) : bool := ta_free_block_floor tx <=? saturating_sub (free_blocks_remaining tx) blocks.

Definition ensure_above_floor (blocks : Z) (tx : TxAllocator) : outcome CoreError unit := if above_floor blocks tx then Ok tt else Err NoSpace.

Section Transaction.
Context {D : Type} {device : BlockDevice Decoded D}.

Abbreviation tio := (io (D * TxAllocator) CoreError).

Definition on_dev {A} (m : io D CoreError A) : tio A := izoom fst (fun d s => (d, snd s)) m.
Definition on_tx {A} (f : TxAllocator -> outcome CoreError A) : tio A := let! tx := iget snd in ilift (f tx).
Definition change (f : TxAllocator -> TxAllocator) : tio unit := imodify (fun s => (fst s, f (snd s))).

Definition track_snapshot_allocation (first bound : Z) : tio unit :=
  let! snapshot := iget (fun s => ta_snapshot (snd s)) in
  match snapshot with
  | Some s =>
      if bool_decide (sa_phase s = PhaseNamespace) then
        let! '(runs, fresh) := ilift (RunSet_insert (sa_allocations s) first bound) in
        do! change (set_snapshot (Some (set_allocations runs s))) in
        if (fresh : bool) then iret tt else ierr (Corrupt "snapshot allocations overlap")
      else iret tt
  | None => iret tt
  end.

Definition begin_snapshot_housekeeping : tio unit :=
  do! on_tx check_snapshot_health in
  let! snapshot := iget (fun s => ta_snapshot (snd s)) in
  match snapshot with
  | Some s =>
      if negb (bool_decide (sa_phase s = PhaseNamespace)) then ierr (Corrupt "snapshot housekeeping entered twice") else
      change (set_snapshot (Some (set_phase PhaseHousekeeping s)))
  | None => iret tt
  end.

Definition set_snapshot_registry_root (root : Z) : tio unit :=
  do! on_tx check_snapshot_health in
  let! tx := iget snd in
  match ta_snapshot tx with
  | None => ierr (FeatureDisabled "persistent snapshots")
  | Some s =>
      let! bad :=
        if negb (bool_decide (sa_phase s = PhaseHousekeeping)) then iret true else
        let! ok := ilift (of_format (is_allocatable (ta_geo tx) root)) in
        if negb ok then iret true else
        iret match cp_snapshot_roots (ta_current_checkpoint tx) with Some roots => sr_lifetimes roots =? root | None => false end in
      if (bad : bool) then ierr (Corrupt "invalid snapshot registry publication") else
      change (set_snapshot (Some (set_registry_root root s)))
  end.

(** ** Loading pages *)

Definition current_record (region : Z) : tio RegionRecord :=
  let! tx := iget snd in
  match ta_current_records tx !! region with
  | Some record => iret record
  | None =>
      let! record := on_dev (checkpoint_record (ta_geo tx) (ta_current_checkpoint tx) region) in
      do! change (fun tx => tally_alloc allocation_records_loaded (Z.add 1) (set_current_records (<[region := record]> (ta_current_records tx)) tx)) in
      iret record
  end.

Definition ensure_other_descriptor (region : Z) : tio unit :=
  let! tx := iget snd in
  match ta_other_checkpoint tx with
  | None => iret tt
  | Some other_checkpoint =>
      let! other_record := on_dev (checkpoint_record (ta_geo tx) other_checkpoint region) in
      do! change (fun tx => tally_alloc allocation_records_loaded (Z.add 1) (set_other_records (<[region := other_record]> (ta_other_records tx)) tx)) in
      let! other := on_dev (load_region_descriptor (ta_geo tx) region other_record) in
      change (fun tx => set_other_descriptors (<[region := other]> (ta_other_descriptors tx)) tx)
  end.

Definition ensure_descriptors (region : Z) : tio unit :=
  let! tx := iget snd in
  match ta_descriptors tx !! region with
  | Some _ => iret tt
  | None =>
      let! record := current_record region in
      let! descriptor := on_dev (load_region_descriptor (ta_geo tx) region record) in
      do! change (fun tx => set_descriptors (<[region := descriptor]> (ta_descriptors tx)) tx) in
      ensure_other_descriptor region
  end.

Definition resident_bytes (pages : gmap (Z * Z) BitmapPage) : Z := map_fold (fun _ page sum => zlen (bp_bits page) + sum) 0 pages.

(** [page_mut] makes the page resident; [with_page] is the use of the reference it returns. *)
Definition page_mut (region page_index : Z) : tio unit :=
  let! tx := iget snd in
  match ta_pages tx !! (region, page_index) with
  | Some _ => iret tt
  | None =>
      do! ensure_descriptors region in
      let! tx := iget snd in
      match ta_descriptors tx !! region with
      | None => ilift Panic
      | Some descriptor =>
          let! page := on_dev (load_bitmap_page (ta_geo tx) region page_index descriptor) in
          change (fun tx =>
            let pages := <[(region, page_index) := page]> (ta_pages tx) in
            tally_alloc allocator_ram_bytes (Z.max (resident_bytes pages)) (set_pages pages tx))
      end
  end.

Definition with_page {A} (region page_index : Z) (f : BitmapPage -> result (BitmapPage * A)) : tio A :=
  do! page_mut region page_index in
  let! tx := iget snd in
  match ta_pages tx !! (region, page_index) with
  | None => ilift Panic
  | Some page =>
      let! '(page, a) := ilift (of_format (f page)) in
      do! change (fun tx => set_pages (<[(region, page_index) := page]> (ta_pages tx)) tx) in
      iret a
  end.

Definition page_is_allocated (region page_index local_index : Z) : tio bool :=
  with_page region page_index (fun page => let* b := is_allocated page local_index in Ok (page, b)).
Definition page_set_allocated (region page_index local_index : Z) (allocated : bool) : tio bool :=
  with_page region page_index (fun page => set_allocated page local_index allocated).

(** Drop a page that is not dirty. *)
Definition evict (key : Z * Z) (tx : TxAllocator) : TxAllocator :=
  if bool_decide (key ∈ ta_dirty_pages tx) then tx else set_pages (delete key (ta_pages tx)) tx.

(** ** Starting a transaction *)

Definition clear_promoted (lba : Z) : io (D * TxAllocator) CoreError unit :=
  let! '(region, page_index, local_index) := on_tx (fun tx => locate (ta_geo tx) lba) in
  let! changed := page_set_allocated region page_index local_index false in
  if negb changed then ierr (Corrupt "quarantined block was not marked allocated") else
  change (mark_dirty region page_index).

Definition promote_run (new_generation : Z) (run : PromotedRun) : io (D * TxAllocator) CoreError unit :=
  let! bound := ilift (add_w 64 (pr_start run) (pr_blocks run)) in
  do! ieach clear_promoted (seqZ (pr_start run) (bound - pr_start run)) in
  change (fun tx =>
    tally_alloc reclaim_latency_generations (Z.add (saturating_mul 64 (pr_blocks run) (saturating_sub new_generation (pr_retire_generation run))))
      (tally_alloc blocks_promoted (Z.add (pr_blocks run)) tx)).

Definition new_tx (geo : Geometry) (current : Checkpoint) (other : option Checkpoint) (new_generation rover_region : Z) (reclaim : ReclaimTx) : TxAllocator :=
  {| ta_tree_cache_pages := 2 ^ 64 - 1; ta_tree_mutations := no_stats; ta_geo := geo; ta_current_checkpoint := current;
     ta_other_checkpoint := other; ta_current_records := ∅; ta_other_records := ∅;
     ta_current_free_blocks_total := cp_free_blocks_total current; ta_descriptors := ∅; ta_other_descriptors := ∅; ta_pages := ∅;
     ta_new_generation := new_generation; ta_dirty_pages := ∅; ta_dirty_regions := ∅; ta_reclaim := Some reclaim;
     ta_allocated_this_tx := RunSet_merging; ta_retired_this_tx := RunSet_merging;
     ta_snapshot := (fun roots => {| sa_phase := PhaseNamespace; sa_registry_root := sr_registry roots; sa_allocations := RunSet_default;
                                     sa_retirements := RunSet_default; sa_mutation := None |}) <$> cp_snapshot_roots current;
     ta_rover_region := rover_region; ta_rover_index := 0; ta_free_block_floor := 0; ta_stats := AllocStats_default |}.

(** The result of a sub-transaction whose state is dropped on failure. *)
Definition keep_tx {A T} (r : (D * T) * outcome CoreError A) : D * outcome CoreError T :=
  (fst (fst r), let* _ := snd r in Ok (snd (fst r))).

Definition TxAllocator_begin (geo : Geometry) (current : Checkpoint) (other : option Checkpoint) (new_generation batch_blocks rover_region : Z)
    : io D CoreError TxAllocator :=
  let oldest := match other with Some older => Z.min (cp_generation older) (cp_generation current) | None => cp_generation current end in
  let! reclaim := ReclaimTx_begin geo (cp_reclaim_root_block current) (cp_generation current) new_generation oldest batch_blocks in
  let! count := ilift (of_format (region_count geo)) in
  fun d => keep_tx (ieach (promote_run new_generation) (rx_promoted reclaim)
                      (d, new_tx geo current other new_generation (rover_region mod Z.max count 1) reclaim)).

(** ** Searching a region *)

(** The loop over the bits of one page; each turn moves on by at least one bit. *)
Record Scan := { sn_run_start : Z; sn_run_len : Z; sn_found : option Z; sn_examined : Z }.

Fixpoint scan_page (fuel : nat) (page : BitmapPage) (first_block len stop local_index : Z) (s : Scan) : outcome CoreError Scan :=
  if stop <=? local_index then Ok s else
  match fuel with
  | O => Panic
  | S fuel =>
      let* full :=
        if (local_index mod 8 =? 0) && (8 <=? stop - local_index) then
          let* b := index (bp_bits page) (local_index / 8) in Ok (b =? 255)
        else Ok false in
      if (full : bool) then
        scan_page fuel page first_block len stop (local_index + 8)
          {| sn_run_start := sn_run_start s; sn_run_len := 0; sn_found := None; sn_examined := sn_examined s + 8 |}
      else
        let* taken := of_format (is_allocated page local_index) in
        if (taken : bool) then
          scan_page fuel page first_block len stop (local_index + 1)
            {| sn_run_start := sn_run_start s; sn_run_len := 0; sn_found := None; sn_examined := sn_examined s + 1 |}
        else
          let* start := if sn_run_len s =? 0 then add_w 32 first_block local_index else Ok (sn_run_start s) in
          let run_len := sn_run_len s + 1 in
          if run_len =? len then
            Ok {| sn_run_start := start; sn_run_len := run_len; sn_found := Some start; sn_examined := sn_examined s + 1 |}
          else
            scan_page fuel page first_block len stop (local_index + 1)
              {| sn_run_start := start; sn_run_len := run_len; sn_found := None; sn_examined := sn_examined s + 1 |}
  end.

Definition scan_one (region len begin until page_index : Z) (s : Scan) : io (D * TxAllocator) CoreError Scan :=
  let! first_block := ilift (mul_w 32 page_index BITMAP_PAGE_BLOCKS) in
  do! page_mut region page_index in
  let! tx := iget snd in
  match ta_pages tx !! (region, page_index) with
  | None => ilift Panic
  | Some page =>
      let! rest := ilift (sub_w until first_block) in
      let stop := Z.min rest (bp_valid_blocks page) in
      let local_index := saturating_sub begin first_block in
      let! s := ilift (scan_page (Z.to_nat (stop - local_index)) page first_block len stop local_index s) in
      do! change (evict (region, page_index)) in
      iret s
  end.

Fixpoint scan_pages (region len begin until : Z) (pages : list Z) (s : Scan) : io (D * TxAllocator) CoreError Scan :=
  match pages with
  | [] => iret s
  | page_index :: pages =>
      let! s := scan_one region len begin until page_index s in
      match sn_found s with
      | Some _ => iret s
      | None => scan_pages region len begin until pages s
      end
  end.

Definition reserved_head (geo : Geometry) (region : Z) : outcome CoreError Z :=
  let* head := of_format (if region =? 0 then region0_reserved_blocks geo else region_reserved_blocks geo region) in
  Ok (as_u32 head).

(** The closing debug assertion is part of the code. *)
Definition scan_region (region len from until examined : Z) : io (D * TxAllocator) CoreError (option Z * Z) :=
  let! geo := iget (fun s => ta_geo (snd s)) in
  let! head := ilift (reserved_head geo region) in
  let begin := Z.max from head in
  if until <=? begin then iret (None, examined) else
  let first := begin / BITMAP_PAGE_BLOCKS in
  let last := (until - 1) / BITMAP_PAGE_BLOCKS in
  let! s := scan_pages region len begin until (seqZ first (last - first + 1))
              {| sn_run_start := 0; sn_run_len := 0; sn_found := None; sn_examined := examined |} in
  match sn_found s with
  | None => iret (None, sn_examined s)
  | Some start =>
      let! lba := ilift (add_w 64 (region_base geo region) start) in
      let! ok := ilift (of_format (is_allocatable geo lba)) in
      let! bound := ilift (add_w 64 lba len) in
      let! last_lba := ilift (sub_w bound 1) in
      let! ok_end := ilift (of_format (is_allocatable geo last_lba)) in
      if ok && ok_end then iret (Some start, sn_examined s) else ilift Panic
  end.

(** ** Allocating *)

Definition claim_index (region region_index : Z) : tio unit :=
  let '(page_index, local_index) := bitmap_page_for_index region_index in
  do! page_set_allocated region page_index local_index true in
  change (mark_dirty region page_index).

(** [if !set.insert(..) { return Err(..) }] on the allocations of the transaction. *)
Definition insert_allocated (first bound : Z) (what : string) : tio unit :=
  let! '(runs, fresh) := on_tx (fun tx => RunSet_insert (ta_allocated_this_tx tx) first bound) in
  do! change (set_allocated_runs runs) in
  if (fresh : bool) then iret tt else ierr (Corrupt what).

(** The body of the loop over the regions: the run allocated there, if any. *)
Definition allocate_in (len region : Z) (first_step : bool) : tio (option Z) :=
  let! tx := iget snd in
  let geo := ta_geo tx in
  let! skip :=
    if bool_decide (region ∈ ta_dirty_regions tx) then iret false else
    let! record := current_record region in
    iret (rr_free_blocks record <? len) in
  if (skip : bool) then iret None else
  let base := region_base geo region in
  let! valid := ilift (of_format (region_valid_blocks geo region)) in
  let resume := if first_step then Z.min (ta_rover_index tx) valid else 0 in
  let! '(found, examined) := scan_region region len resume valid 0 in
  let! '(found, examined) :=
    match found with
    | Some _ => iret (found, examined)
    | None =>
        if 0 <? resume then scan_region region len 0 (Z.min (saturating_add 32 resume (as_u32 (len - 1))) valid) examined
        else iret (found, examined)
    end in
  do! change (tally_alloc bitmap_bits_examined (Z.add examined)) in
  match found with
  | None => iret None
  | Some start =>
      let! bound := ilift (add_w 32 start (as_u32 len)) in
      do! ieach (claim_index region) (seqZ start (bound - start)) in
      let! lba := ilift (add_w 64 base start) in
      let! lba_end := ilift (add_w 64 lba len) in
      do! insert_allocated lba lba_end "allocator returned overlapping run" in
      do! track_snapshot_allocation lba lba_end in
      do! change (fun tx => tally_alloc blocks_allocated (Z.add len) (set_rover region (Z.min (saturating_add 32 start (as_u32 len)) valid) tx)) in
      iret (Some lba)
  end.

(** [for step in 0..region_count]. *)
Fixpoint allocate_steps (len region_count rover : Z) (steps : list Z) : tio Z :=
  match steps with
  | [] => ierr NoSpace
  | step :: steps =>
      let! sum := ilift (add_w 32 rover step) in
      let! found := allocate_in len (sum mod region_count) (step =? 0) in
      match found with
      | Some lba => iret lba
      | None => allocate_steps len region_count rover steps
      end
  end.

Definition allocate_run (len : Z) : tio Z :=
  do! on_tx check_snapshot_writable in
  do! change (tally_alloc allocation_searches (Z.add 1)) in
  if negb (0 <? len) then ilift Panic else
  let! tx := iget snd in
  if region_size (ta_geo tx) <? len then ierr NoSpace else
  do! on_tx (ensure_above_floor len) in
  let! count := ilift (of_format (region_count (ta_geo tx))) in
  allocate_steps len count (ta_rover_region tx) (seqZ 0 count).

Definition allocate : tio Z := allocate_run 1.

(** The body of the loop of [allocate_exact_run_inner]. *)
Definition claim_exact (lba : Z) : tio unit :=
  let! geo := iget (fun s => ta_geo (snd s)) in
  let! ok := ilift (of_format (is_allocatable geo lba)) in
  if negb ok then ierr (Corrupt "claimed block is not allocatable") else
  let! '(region, page_index, local_index) := ilift (locate geo lba) in
  let! taken := page_is_allocated region page_index local_index in
  if (taken : bool) then ierr (Corrupt "claimed block is already allocated") else
  do! page_set_allocated region page_index local_index true in
  change (mark_dirty region page_index).

Definition allocate_exact_run (start blocks : Z) : tio unit :=
  do! on_tx check_snapshot_writable in
  if blocks =? 0 then ierr (Corrupt "claiming an empty run") else
  do! on_tx (ensure_above_floor blocks) in
  let! bound := ilift (ok_or (checked_add 64 start blocks) (Corrupt "claimed run end overflows")) in
  do! ieach claim_exact (seqZ start (bound - start)) in
  do! insert_allocated start bound "claimed run overlaps this transaction" in
  do! track_snapshot_allocation start bound in
  change (tally_alloc blocks_allocated (Z.add blocks)).

(** Whether every block of the run is free; the loop of [try_extend_run] returns at the first that is not. *)
Fixpoint all_free_in (geo : Geometry) (region : Z) (lbas : list Z) : tio bool :=
  match lbas with
  | [] => iret true
  | lba :: lbas =>
      let! ok := ilift (of_format (is_allocatable geo lba)) in
      if negb ok then iret false else
      let! rel := ilift (sub_w lba (region_base geo region)) in
      let '(page_index, local_index) := bitmap_page_for_index (as_u32 rel) in
      let! taken := page_is_allocated region page_index local_index in
      if (taken : bool) then iret false else all_free_in geo region lbas
  end.

Definition try_extend_run (run_start run_blocks blocks : Z) : tio bool :=
  do! on_tx check_snapshot_writable in
  if blocks =? 0 then iret true else
  let! start := ilift (ok_or (checked_add 64 run_start run_blocks) (Corrupt "extended run start overflows")) in
  let! bound := ilift (ok_or (checked_add 64 start blocks) (Corrupt "extended run end overflows")) in
  let! tx := iget snd in
  let geo := ta_geo tx in
  if total_blocks geo <? bound then iret false else
  if negb (above_floor blocks tx) then iret false else
  let! region := ilift (of_format (region_of geo run_start)) in
  let! last := ilift (sub_w bound 1) in
  let! last_region := ilift (of_format (region_of geo last)) in
  if negb (last_region =? region) then iret false else
  let! free := all_free_in geo region (seqZ start (bound - start)) in
  if negb free then iret false else
  do! allocate_exact_run start blocks in
  iret true.

(** ** Giving blocks back *)

Definition insert_retired (first bound : Z) (what : string) : tio unit :=
  let! '(runs, fresh) := on_tx (fun tx => RunSet_insert (ta_retired_this_tx tx) first bound) in
  do! change (set_retired_runs runs) in
  if (fresh : bool) then iret tt else ierr (Corrupt what).

(** The body of the check of [retire_run_inner], with the pages it touched. *)
Fixpoint check_live (geo : Geometry) (lbas : list Z) (touched : gset (Z * Z)) : tio (gset (Z * Z)) :=
  match lbas with
  | [] => iret touched
  | lba :: lbas =>
      let! ok := ilift (of_format (is_allocatable geo lba)) in
      if negb ok then ierr (Corrupt "retiring block that is not live") else
      let! '(region, page_index, local_index) := ilift (locate geo lba) in
      let! live := page_is_allocated region page_index local_index in
      if negb live then ierr (Corrupt "retiring block that is not live") else
      check_live geo lbas ({[(region, page_index)]} ∪ touched)
  end.

Definition append_reclaim (start blocks : Z) : tio unit := fun s =>
  match ta_reclaim (snd s) with
  | None => (s, Panic)
  | Some reclaim =>
      let '(reclaim, r) := append_run (ta_geo (snd s)) start blocks reclaim in
      ((fst s, set_reclaim (Some reclaim) (snd s)), r)
  end.

Definition retire_run (start blocks : Z) : tio unit :=
  do! on_tx check_snapshot_writable in
  if (blocks =? 0) || (2 ^ 32 - 1 <? blocks) then ierr (Corrupt "retiring invalid run length") else
  let! bound := ilift (ok_or (checked_add 64 start blocks) (Corrupt "retired run end overflows")) in
  let! own := on_tx (fun tx => RunSet_overlaps (ta_allocated_this_tx tx) start bound) in
  if (own : bool) then ierr (Corrupt "retiring run allocated by this transaction; release it instead") else
  do! insert_retired start bound "run retired twice" in
  let! geo := iget (fun s => ta_geo (snd s)) in
  let! touched := check_live geo (seqZ start (bound - start)) ∅ in
  do! change (fun tx => set_fold evict tx touched) in
  let! snapshot := iget (fun s => ta_snapshot (snd s)) in
  do! match snapshot with
      | Some s =>
          if bool_decide (sa_phase s = PhaseNamespace) then
            let! '(runs, fresh) := ilift (RunSet_insert (sa_retirements s) start bound) in
            do! change (set_snapshot (Some (set_retirements runs s))) in
            if (fresh : bool) then iret tt else ierr (Corrupt "snapshot run retired twice")
          else append_reclaim start (as_u32 blocks)
      | None => append_reclaim start (as_u32 blocks)
      end in
  change (tally_alloc blocks_retired (Z.add blocks)).

Definition retire (lba : Z) : tio unit := retire_run lba 1.

Definition abandon_block (lba : Z) : tio unit :=
  let! runs := iget (fun s => ta_allocated_this_tx (snd s)) in
  let '(runs, present) := RunSet_remove_block runs lba in
  do! change (set_allocated_runs runs) in
  if (present : bool) then iret tt else ierr (Corrupt "abandoning block that this transaction did not allocate").

(** [snapshot.allocations.remove_block(lba)], when there is accounting. *)
Definition forget_allocation (lba : Z) (tx : TxAllocator) : TxAllocator :=
  match ta_snapshot tx with
  | Some s => set_snapshot (Some (set_allocations (fst (RunSet_remove_block (sa_allocations s) lba)) s)) tx
  | None => tx
  end.

Definition abandon_uncommitted_run (start blocks : Z) : tio unit :=
  do! on_tx check_snapshot_writable in
  if (blocks =? 0) || (2 ^ 32 - 1 <? blocks) then ierr (Corrupt "abandoning invalid run") else
  let! bound := ilift (ok_or (checked_add 64 start blocks) (Corrupt "abandoned run end overflows")) in
  do! on_tx (check_snapshot_release start bound) in
  do! ieach abandon_block (seqZ start (bound - start)) in
  do! change (fun tx => foldl (fun tx lba => forget_allocation lba tx) tx (seqZ start (bound - start))) in
  do! insert_retired start bound "run abandoned twice" in
  do! append_reclaim start (as_u32 blocks) in
  change (tally_alloc blocks_retired (Z.add blocks)).

Definition release_uncommitted (lba : Z) : tio unit :=
  do! on_tx check_snapshot_writable in
  let! bound := ilift (ok_or (checked_add 64 lba 1) (Corrupt "release block overflows")) in
  do! on_tx (check_snapshot_release lba bound) in
  let! runs := iget (fun s => ta_allocated_this_tx (snd s)) in
  let '(runs, present) := RunSet_remove_block runs lba in
  do! change (set_allocated_runs runs) in
  if negb present then ierr (Corrupt "releasing block that this transaction did not allocate") else
  let! '(region, page_index, local_index) := on_tx (fun tx => locate (ta_geo tx) lba) in
  let! changed := page_set_allocated region page_index local_index false in
  if negb changed then ierr (Corrupt "released block was not marked allocated") else
  do! change (forget_allocation lba) in
  do! change (mark_dirty region page_index) in
  change (tally_alloc blocks_released (Z.add 1)).

(** ** Finishing *)

(** [(0..slot_count).find(..).expect(..)]. *)
Definition choose_slot (slot_count current : Z) (other : option Z) : outcome CoreError Z :=
  match List.find (fun slot => negb (slot =? current) && negb (bool_decide (Some slot = other))) (seqZ 0 slot_count) with
  | Some slot => Ok slot
  | None => Panic
  end.

Record FinishedAlloc := {
  fa_tree_mutations : TreeMutationStats;
  fa_snapshot_roots : option SnapshotRoots;
  fa_snapshot_lifetimes : option LifetimeMutation;
  fa_bitmap_writes : list (Z * bytes);
  fa_descriptor_writes : list (Z * bytes);
  fa_dirty_records : list (Z * RegionRecord);
  fa_free_blocks_total : Z;
  fa_reclaim_root_lba : Z;
  fa_reclaim_writes : list (Z * bytes);
  fa_reclaim_pending_blocks : Z;
  fa_rover_region : Z;
  fa_stats : AllocStats;
}.

Fixpoint allocate_blocks (n : nat) : tio (list Z) :=
  match n with
  | O => iret []
  | S n => let! lba := allocate in let! lbas := allocate_blocks n in iret (lba :: lbas)
  end.

(** One turn of the loop over the pages of a dirty region. *)
Definition emit_page (tx : TxAllocator) (region : Z) (st : RegionDescriptor * list (Z * bytes)) (page_index : Z)
    : outcome CoreError (RegionDescriptor * list (Z * bytes)) :=
  let '(descriptor, writes) := st in
  if negb (bool_decide ((region, page_index) ∈ ta_dirty_pages tx)) then Ok st else
  match rd_pages descriptor !! Z.to_nat page_index with
  | None => Panic
  | Some current_binding =>
      let older_slot := match ta_other_descriptors tx !! region with Some older => bb_slot <$> rd_pages older !! Z.to_nat page_index | None => None end in
      let* slot := choose_slot BITMAP_SLOTS (bb_slot current_binding) older_slot in
      let* page := ok_or (ta_pages tx !! (region, page_index)) (Corrupt "dirty region bitmap page is not resident") in
      let* lba := of_format (bitmap_slot_lba (ta_geo tx) region page_index slot) in
      let* block := of_format (BitmapPage_encode page (block_size (ta_geo tx)) (ta_new_generation tx)) in
      let* free := of_format (free_blocks page) in
      let binding := {| bb_slot := slot; bb_free_blocks := free; bb_generation := ta_new_generation tx |} in
      Ok ({| rd_region := rd_region descriptor; rd_valid_blocks := rd_valid_blocks descriptor; rd_free_blocks := rd_free_blocks descriptor;
             rd_pages := <[Z.to_nat page_index := binding]> (rd_pages descriptor) |}, writes ++ [(lba, block)])
  end.

(** What the loop over the dirty regions threads. *)
Record Emitted := {
  em_bitmap_writes : list (Z * bytes);
  em_descriptor_writes : list (Z * bytes);
  em_dirty_records : list (Z * RegionRecord);
  em_free_blocks_total : Z;
}.

Definition new_total (total old_free new_free : Z) : outcome CoreError Z :=
  if old_free <=? new_free then ok_or (checked_add 64 total (new_free - old_free)) (Corrupt "free block total overflows")
  else ok_or (checked_sub total (old_free - new_free)) (Corrupt "free block total underflows").

Definition emit_region (tx : TxAllocator) (e : Emitted) (region : Z) : outcome CoreError Emitted :=
  let* current_record := ok_or (ta_current_records tx !! region) (Corrupt "dirty region has no root record") in
  let* descriptor := ok_or (ta_descriptors tx !! region) (Corrupt "dirty region has no descriptor") in
  let* '(descriptor, bitmap_writes) := ofold (emit_page tx region) (descriptor, em_bitmap_writes e) (seqZ 0 (as_u32 (zlen (rd_pages descriptor)))) in
  let* free := ofold (fun sum binding => add_w 32 sum (bb_free_blocks binding)) 0 (rd_pages descriptor) in
  let descriptor := {| rd_region := rd_region descriptor; rd_valid_blocks := rd_valid_blocks descriptor; rd_free_blocks := free; rd_pages := rd_pages descriptor |} in
  let older_descriptor_slot := rr_descriptor_slot <$> ta_other_records tx !! region in
  let* descriptor_slot := choose_slot DESCRIPTOR_SLOTS (rr_descriptor_slot current_record) older_descriptor_slot in
  let* lba := of_format (descriptor_slot_lba (ta_geo tx) region descriptor_slot) in
  let* block := of_format (RegionDescriptor_encode descriptor (block_size (ta_geo tx)) (ta_new_generation tx)) in
  let new_record := {| rr_descriptor_slot := descriptor_slot; rr_free_blocks := free; rr_descriptor_generation := ta_new_generation tx |} in
  let* total := new_total (em_free_blocks_total e) (rr_free_blocks current_record) free in
  Ok {| em_bitmap_writes := bitmap_writes; em_descriptor_writes := em_descriptor_writes e ++ [(lba, block)];
        em_dirty_records := em_dirty_records e ++ [(region, new_record)]; em_free_blocks_total := total |}.

(** A [BTreeSet] iterates in order. *)
Definition in_order (s : gset Z) : list Z := merge_sort Z.le (elements s).

Definition emit_regions (tx : TxAllocator) : outcome CoreError Emitted :=
  ofold (emit_region tx) {| em_bitmap_writes := []; em_descriptor_writes := []; em_dirty_records := []; em_free_blocks_total := ta_current_free_blocks_total tx |}
    (in_order (ta_dirty_regions tx)).

(** The roots of a finished transaction: [expect] on a sealed mutation. *)
Definition finished_roots (tx : TxAllocator) : outcome CoreError (option SnapshotRoots * option LifetimeMutation) :=
  let lifetimes := match ta_snapshot tx with Some s => sa_mutation s | None => None end in
  match cp_snapshot_roots (ta_current_checkpoint tx) with
  | None => Ok (None, lifetimes)
  | Some _ =>
      match ta_snapshot tx, lifetimes with
      | Some s, Some mutation => Ok (Some {| sr_registry := sa_registry_root s; sr_lifetimes := tm_root_lba (lm_tree mutation) |}, lifetimes)
      | _, _ => Panic
      end
  end.

Definition not_sealed (tx : TxAllocator) : bool :=
  match ta_snapshot tx with Some s => negb (bool_decide (sa_phase s = PhaseSealed)) | None => false end.

(** The reclaim queue is rebuilt first; its blocks are ordinary allocations. *)
Definition rebuild_reclaim : tio ReclaimBuild :=
  let! taken := iget (fun s => ta_reclaim (snd s)) in
  match taken with
  | None => ilift Panic
  | Some reclaim =>
      do! change (set_reclaim None) in
      let '(reclaim, needed) := plan reclaim in
      let! needed := ilift needed in
      let! structure_lbas := allocate_blocks (Z.to_nat needed) in
      let! geo := iget (fun s => ta_geo (snd s)) in
      ilift (build geo reclaim structure_lbas)
  end.

Definition finish_alloc : tio FinishedAlloc :=
  do! on_tx check_snapshot_health in
  let! unsealed := iget (fun s => not_sealed (snd s)) in
  if (unsealed : bool) then ierr (Corrupt "snapshot lifetime accounting must be sealed before allocator finish") else
  do! change (fun tx => set_snapshot (set_phase PhaseFinalizing <$> ta_snapshot tx) tx) in
  let! rebuilt := rebuild_reclaim in
  do! change (fun tx => set_stats {| as_count := as_count (ta_stats tx); as_reclaim := rb_stats rebuilt |} tx) in
  let! emitted := on_tx emit_regions in
  do! change (fun tx =>
    tally_alloc allocator_ram_bytes (Z.max (resident_bytes (ta_pages tx)))
      (tally_alloc region_descriptors_dirty (fun _ => zlen (em_descriptor_writes emitted))
        (tally_alloc bitmap_pages_dirty (fun _ => zlen (em_bitmap_writes emitted)) tx))) in
  let! '(roots, lifetimes) := on_tx finished_roots in
  let! tx := iget snd in
  iret {| fa_tree_mutations := ta_tree_mutations tx; fa_snapshot_roots := roots; fa_snapshot_lifetimes := lifetimes;
          fa_bitmap_writes := em_bitmap_writes emitted; fa_descriptor_writes := em_descriptor_writes emitted;
          fa_dirty_records := em_dirty_records emitted; fa_free_blocks_total := em_free_blocks_total emitted;
          fa_reclaim_root_lba := rb_root_lba rebuilt; fa_reclaim_writes := rb_writes rebuilt;
          fa_reclaim_pending_blocks := rb_pending_blocks rebuilt; fa_rover_region := ta_rover_region tx; fa_stats := ta_stats tx |}.

(** ** The allocator of the trees (cow_tree.rs) *)

#[export] Instance tx_tree_allocator : TreeAllocator D TxAllocator := {
  tree_cache_pages := ta_tree_cache_pages;
  record_tree_mutation stats tx := set_tree_mutations (stats_include (ta_tree_mutations tx) stats) tx;
  allocate_tree_block := allocate;
  retire_tree_block := retire;
  release_tree_block := release_uncommitted;
}.
End Transaction.
