(* ===== verification/AllocSpec.v ===== *)
(** * The allocation state a checkpoint names (crates/afsplus-core/src/alloc.rs)

    What blocks a checkpoint marks as allocated, read through its region
    records, descriptors and bitmap pages; the loads of Alloc.v return exactly
    that state. *)

From S2P Require Import Prelude Crc32c Format Header Codec TreeNode Geometry Bitmap Region Checkpoint Device Core Tree TreeSpec TreeReaders TreeVerify.
From S2P Require Import CowTree CowStore CowNodes AllocRoot AllocPlace AllocRootSpec Reclaim ReclaimQueue RunSet Alloc.

(** ** Committed state *)

(** The descriptor a record names. *)
Definition descriptor_in (geo : Geometry) (v : Z -> bytes) (region : Z) (record : RegionRecord) (descriptor : RegionDescriptor) : Prop :=
  exists lba, descriptor_slot_lba geo region (rr_descriptor_slot record) = Ok lba /\
    RegionDescriptor_decode (v lba) = Ok (descriptor, rr_descriptor_generation record) /\
    RegionDescriptor_validate descriptor geo region (rr_descriptor_generation record) = Ok tt /\ rd_free_blocks descriptor = rr_free_blocks record.

(** A page of the right place and size. *)
Definition page_fits (geo : Geometry) (region page_index : Z) (page : BitmapPage) : Prop :=
  BitmapPage_wf page /\ bp_region page = region /\ bp_page_index page = page_index /\
  bp_first_block page = page_index * BITMAP_PAGE_BLOCKS /\ bp_valid_blocks page = page_valid geo region page_index.

(** The bitmap page a descriptor names. *)
Definition page_in (geo : Geometry) (v : Z -> bytes) (region page_index : Z) (descriptor : RegionDescriptor) (page : BitmapPage) : Prop :=
  exists binding lba, rd_pages descriptor !! Z.to_nat page_index = Some binding /\ bitmap_slot_lba geo region page_index (bb_slot binding) = Ok lba /\
    BitmapPage_decode (v lba) = Ok (page, bb_generation binding) /\ page_fits geo region page_index page /\
    free_blocks page = Ok (bb_free_blocks binding).

Lemma descriptor_in_unique geo v region record a b : descriptor_in geo v region record a -> descriptor_in geo v region record b -> a = b.
Proof. intros (l & Hl & Ha & _) (l' & Hl' & Hb & _). rewrite Hl in Hl'. apply Ok_inj in Hl' as <-. rewrite Ha in Hb. by injection Hb. Qed.

Lemma page_in_unique geo v region i descriptor a b : page_in geo v region i descriptor a -> page_in geo v region i descriptor b -> a = b.
Proof.
  intros (x & l & Hx & Hl & Ha & _) (x' & l' & Hx' & Hl' & Hb & _). rewrite Hx in Hx'. injection Hx' as <-. rewrite Hl in Hl'. apply Ok_inj in Hl' as <-.
  rewrite Ha in Hb. by injection Hb.
Qed.

(** One record, descriptor and page for every place of the volume. *)
Record Committed := { cs_records : list RegionRecord; cs_descriptor : Z -> RegionDescriptor; cs_page : Z -> Z -> BitmapPage }.

Definition allocation_in (geo : Geometry) (v : Z -> bytes) (checkpoint : Checkpoint) (c : Committed) (nodes : list (Z * TreeNode)) : Prop :=
  allocation_root_at geo v (cp_generation checkpoint) (cp_allocation_root_block checkpoint) (cs_records c) nodes /\
  forall r, 0 <= r < regions geo -> exists record, cs_records c !! Z.to_nat r = Some record /\ descriptor_in geo v r record (cs_descriptor c r) /\
    forall i, 0 <= i < pages geo r -> page_in geo v r i (cs_descriptor c r) (cs_page c r i).

Section Loads.
Context {D : Type} {device : BlockDevice Decoded D} {contract : DeviceContract Decoded D core_decodes}.
Context (geo : Geometry) {WF : WfGeometry geo} (d0 : D).

Abbreviation content := (view (decodes := core_decodes)).

Lemma slot_address x : slot_valid geo x -> exists lba, slot_lba geo x = Ok lba /\ u64 lba /\ lba < total_blocks geo /\ allocatable geo lba = false.
Proof.
  intros Hx. rewrite (slot_lba_eq geo x Hx). eexists. split; [done|]. pose proof (slot_offset_head geo x Hx) as Ho. set (lba := slot_region x * region_size geo + slot_offset x).
  assert (0 <= slot_region x < regions geo) as Hr by (pose proof (wf_regions_pos geo); destruct x; cbn in *; lia).
  pose proof (wf_has_room geo _ WF Hr) as Hroom. pose proof (wf_valid_bounds geo _ Hr). pose proof (wf_total (g := geo)). pose proof (wf_region (g := geo)).
  assert (lba < total_blocks geo) as Hlt by (unfold valid in *; lia). assert (0 <= lba) by lia. split; [unfold u64; lia|]. split; [done|].
  destruct (region_quotient geo (slot_region x) (slot_offset x)) as [Hq Hm]; [lia|]. unfold allocatable. fold lba in Hq, Hm. rewrite Hq, Hm. lia.
Qed.

Lemma wpi_load_region_descriptor (d : D) region record :
  reads d0 d -> 0 <= region < regions geo -> 0 <= rr_descriptor_slot record < DESCRIPTOR_SLOTS ->
  wpi (load_region_descriptor geo region record) d
    (fun descriptor d' => reads d0 d' /\ descriptor_in geo (content d0) region record descriptor)
    (fun e d' => reads d0 d' /\ (only_io e \/ forall descriptor, ~ descriptor_in geo (content d0) region record descriptor)).
Proof.
  intros Hr Hreg Hs. destruct (slot_address (Geometry.DescriptorSlot region (rr_descriptor_slot record))) as (lba & Hl & Hu & _); [cbn; unfold DESCRIPTOR_SLOTS in *; lia|]. cbn in Hl.
  unfold load_region_descriptor. apply wpi_bind, wpi_lift, wp_of_format. rewrite Hl. apply wp_ok, wpi_bind.
  eapply wpi_mono; [apply (wpi_read_decoded d0); [done|done|intros b; eapply wp_not_panic, RegionDescriptor_decode_inv]| |]; cbn beta.
  2: { intros e d1 [? He]. split; [done|]. destruct He as [|He]; [by left|right]. intros descriptor (l & Hl' & Hd & _). rewrite Hl in Hl'. apply Ok_inj in Hl' as <-. by apply He in Hd. }
  intros [descriptor generation] d1 (Hr1 & _ & Hd).
  assert (forall x, descriptor_in geo (content d0) region record x -> x = descriptor /\ generation = rr_descriptor_generation record) as Hx.
  { intros x (l & Hl' & Hx & _). rewrite Hl in Hl'. apply Ok_inj in Hl' as <-. rewrite Hd in Hx. by injection Hx. }
  apply wpi_if; intros Hg; [apply wpi_err; split; [done|right; intros x [_ ?]%Hx; lia]|]. apply negb_false_iff, Z.eqb_eq in Hg.
  apply wpi_bind, wpi_lift. pose proof (wp_of_ok _ _ _ _ (RegionDescriptor_decode_inv _) Hd) as [Ht _].
  pose proof (wp_RegionDescriptor_validate descriptor geo region generation (fun _ => True) any_error WF Hreg Ht ltac:(done) ltac:(done)) as Hv.
  destruct (RegionDescriptor_validate descriptor geo region generation) as [[]|e|] eqn:Hval; [|apply wp_err; split; [done|right]|done].
  2: { intros x Hin. destruct (Hx _ Hin) as [-> Hg']. destruct Hin as (_ & _ & _ & Hv' & _). rewrite Hg', Hv' in Hval. done. }
  apply wp_ok. rewrite Hg in Hd, Hval. apply wpi_if; intros Hf.
  - apply wpi_err. split; [done|right]. intros x Hin. destruct (Hx _ Hin) as [-> _]. destruct Hin as (_ & _ & _ & _ & Hf'). lia.
  - apply wpi_ret. split; [done|]. exists lba. split; [done|]. split; [done|]. split; [done|]. lia.
Qed.

(** What a valid descriptor says of its pages. *)
Lemma descriptor_in_inv v region record descriptor :
  0 <= region < regions geo -> descriptor_in geo v region record descriptor ->
  RegionDescriptor_typed descriptor (rr_descriptor_generation record) /\ rd_region descriptor = region /\ rd_valid_blocks descriptor = valid geo region /\
  zlen (rd_pages descriptor) = pages geo region /\ rd_free_blocks descriptor = free_sum (rd_pages descriptor) /\
  rd_free_blocks descriptor = rr_free_blocks record /\
  forall k binding, rd_pages descriptor !! k = Some binding -> BitmapBinding_typed binding /\ binding_ok geo region (rr_descriptor_generation record) (Z.of_nat k) binding.
Proof.
  intros Hr (lba & _ & Hd & Hv & Hf). pose proof (wp_of_ok _ _ _ _ (RegionDescriptor_decode_inv _) Hd) as [Ht _].
  pose proof (wp_RegionDescriptor_validate descriptor geo region (rr_descriptor_generation record)
    (fun _ => rd_region descriptor = region /\ rd_valid_blocks descriptor = valid geo region /\ zlen (rd_pages descriptor) = pages geo region /\
      rd_free_blocks descriptor = free_sum (rd_pages descriptor) /\
      forall k b, rd_pages descriptor !! k = Some b -> binding_ok geo region (rr_descriptor_generation record) (Z.of_nat k) b) any_error WF Hr Ht) as Hw.
  rewrite Hv in Hw. destruct Hw as (? & ? & ? & ? & Hb); [done|done|]. split; [done|]. split; [done|]. split; [done|]. split; [done|]. split; [done|]. split; [done|].
  intros k b Hk. split; [|by apply Hb]. destruct Ht as (_ & _ & _ & HF & _). by eapply Forall_lookup_1.
Qed.

Lemma wp_misplaced region page_index page :
  0 <= region < regions geo -> 0 <= page_index < 16 ->
  wp (misplaced geo region page_index page)
    (fun bad => bad = false <-> bp_region page = region /\ bp_page_index page = page_index /\ bp_valid_blocks page = page_valid geo region page_index) no_error.
Proof.
  intros Hr Hi. unfold misplaced. apply wp_if; intros H1; [apply wp_ok; split; [done|intros; exfalso; lia]|].
  apply wp_if; intros H2; [apply wp_ok; split; [done|intros; exfalso; lia]|].
  apply wp_bind, wp_of_format, wp_page_valid; [done|done|done|]. apply wp_ok. split; lia.
Qed.

Lemma wpi_load_bitmap_page (d : D) region page_index record descriptor :
  reads d0 d -> 0 <= region < regions geo -> 0 <= page_index < pages geo region -> descriptor_in geo (content d0) region record descriptor ->
  wpi (load_bitmap_page geo region page_index descriptor) d
    (fun page d' => reads d0 d' /\ page_in geo (content d0) region page_index descriptor page)
    (fun e d' => reads d0 d' /\ (only_io e \/ forall page, ~ page_in geo (content d0) region page_index descriptor page)).
Proof.
  intros Hr Hreg Hi Hdesc. destruct (descriptor_in_inv _ _ _ _ Hreg Hdesc) as (_ & _ & _ & Hz & _ & _ & Hb). pose proof (wf_pages_bounds geo region Hreg).
  destruct (lookup_lt_is_Some_2 (rd_pages descriptor) (Z.to_nat page_index)) as [binding Hl]; [unfold zlen in Hz; lia|].
  destruct (Hb _ _ Hl) as [(Hs & _) (Hs' & _)]. unfold load_bitmap_page. rewrite Hl. cbn [ok_or]. apply wpi_bind, wpi_lift, wp_ok.
  destruct (slot_address (BitmapSlot region page_index (bb_slot binding))) as (lba & Ha & Hu & _); [cbn; unfold BITMAP_SLOTS, u8, u16, u32 in *; lia|]. cbn in Ha.
  rewrite Ha. apply wpi_bind, wpi_lift, wp_ok, wpi_bind.
  eapply wpi_mono; [apply (wpi_read_decoded d0); [done|done|intros b; eapply wp_not_panic, BitmapPage_decode_inv]| |]; cbn beta.
  2: { intros e d1 [? He]. split; [done|]. destruct He as [|He]; [by left|right]. intros page (x & l & Hx & Hl' & Hd & _). rewrite Hl in Hx. injection Hx as <-.
       rewrite Ha in Hl'. apply Ok_inj in Hl' as <-. by apply He in Hd. }
  intros [page generation] d1 (Hr1 & _ & Hd).
  assert (forall x, page_in geo (content d0) region page_index descriptor x -> x = page /\ generation = bb_generation binding /\
    page_fits geo region page_index page /\ free_blocks page = Ok (bb_free_blocks binding)) as Hx.
  { intros x (b & l & Hx & Hl' & Hx' & Hfits & Hfree). rewrite Hl in Hx. injection Hx as <-. rewrite Ha in Hl'. apply Ok_inj in Hl' as <-. rewrite Hd in Hx'. by injection Hx' as <- <-. }
  pose proof (wp_of_ok _ _ _ _ (BitmapPage_decode_inv _) Hd) as (Ht & Hadm & _).
  apply wpi_bind, wpi_lift. eapply wp_mono; [apply wp_misplaced; [done|lia]| |done]; cbn beta. intros bad Hbad.
  apply wpi_if; intros Hc; [apply wpi_err; split; [done|right; intros x (_ & _ & Hfit & _)%Hx]|].
  { destruct Hfit as (_ & ? & ? & _ & ?). assert (bad = false) by by apply Hbad. congruence. }
  apply Hbad in Hc as (? & ? & ?). apply wpi_if; intros Hg; [apply wpi_err; split; [done|right; intros x (_ & ? & _)%Hx; lia]|].
  assert (page_fits geo region page_index page) as Hfits.
  { destruct Ht as (? & ? & ? & ? & ? & _). destruct Hadm as (? & ? & ? & ? & _). unfold page_fits, BitmapPage_wf, u32 in *.
    change BITMAP_PAGE_BLOCKS with 32384 in *. split_and!; try done; lia. }
  apply wpi_bind, wpi_lift, wp_of_format. pose proof (free_blocks_spec page (proj1 Hfits)) as Hfree. rewrite Hfree. apply wp_ok.
  apply wpi_if; intros Hf; [apply wpi_err; split; [done|right; intros x (_ & _ & _ & Hf')%Hx]|].
  { rewrite Hfree in Hf'. apply Ok_inj in Hf'. lia. }
  apply wpi_ret. split; [done|]. exists binding, lba. split; [done|]. split; [done|]. split; [rewrite Hd; do 2 f_equal; lia|]. split; [done|]. rewrite Hfree. f_equal. lia.
Qed.
End Loads.

(** ** Blocks and bits *)

(** The bit of block [x] of a region in a family of pages. *)
Definition mark (page : Z -> Z -> BitmapPage) (region x : Z) : bool :=
  bit_at (bp_bits (page region (x / BITMAP_PAGE_BLOCKS))) (x mod BITMAP_PAGE_BLOCKS).
Definition marked (geo : Geometry) (page : Z -> Z -> BitmapPage) (lba : Z) : bool :=
  mark page (lba / region_size geo) (lba mod region_size geo).

Definition all_fit (geo : Geometry) (page : Z -> Z -> BitmapPage) : Prop :=
  forall r i, 0 <= r < regions geo -> 0 <= i < pages geo r -> page_fits geo r i (page r i).

Section Places.
Context (geo : Geometry) {WF : WfGeometry geo}.

Lemma index_place r x :
  0 <= r < regions geo -> 0 <= x < valid geo r ->
  0 <= x / BITMAP_PAGE_BLOCKS < pages geo r /\ 0 <= x mod BITMAP_PAGE_BLOCKS < page_valid geo r (x / BITMAP_PAGE_BLOCKS) /\
  x = x / BITMAP_PAGE_BLOCKS * BITMAP_PAGE_BLOCKS + x mod BITMAP_PAGE_BLOCKS.
Proof.
  intros Hr Hx. pose proof (wf_valid_bounds geo r Hr). unfold pages, page_valid. change BITMAP_PAGE_BLOCKS with 32384.
  pose proof (div_ceil_bounds (valid geo r) 32384 ltac:(lia) ltac:(lia)).
  pose proof (Z.div_mod x 32384 ltac:(lia)). pose proof (Z.mod_pos_bound x 32384 ltac:(lia)). lia.
Qed.

Lemma lba_of_index r x :
  0 <= r < regions geo -> 0 <= x < valid geo r ->
  (r * region_size geo + x) / region_size geo = r /\ (r * region_size geo + x) mod region_size geo = x /\ 0 <= r * region_size geo + x < total_blocks geo.
Proof.
  intros Hr Hx. destruct (region_quotient geo r x) as [Hq Hm]; [pose proof (wf_valid_bounds geo r Hr); lia|].
  split; [done|]. split; [done|]. unfold valid in Hx. pose proof (wf_region (g := geo)). nia.
Qed.

Lemma marked_index page r x : 0 <= r < regions geo -> 0 <= x < valid geo r -> marked geo page (r * region_size geo + x) = mark page r x.
Proof. intros Hr Hx. destruct (lba_of_index r x Hr Hx) as (Hq & Hm & _). unfold marked. by rewrite Hq, Hm. Qed.

Lemma locate_eq lba :
  0 <= lba < total_blocks geo ->
  locate geo lba = Ok (lba / region_size geo, (lba mod region_size geo) / BITMAP_PAGE_BLOCKS, (lba mod region_size geo) mod BITMAP_PAGE_BLOCKS).
Proof.
  intros Hl. unfold locate. rewrite region_of_eq by done. cbn [of_format obind]. destruct (lba_offset geo lba Hl) as [_ Hu].
  destruct (lba_region geo lba Hl) as (_ & He & Hm). unfold sub_w, region_base. replace (_ <=? _) with true by lia. cbn [obind].
  replace (lba - lba / region_size geo * region_size geo) with (lba mod region_size geo) by lia. by rewrite Hu.
Qed.

Lemma bit_is_allocated p k : BitmapPage_wf p -> 0 <= k < bp_valid_blocks p -> is_allocated p k = Ok (bit_at (bp_bits p) k).
Proof.
  intros Hp Hk. rewrite is_allocated_spec by done. f_equal. apply eq_true_iff_eq. rewrite bool_decide_eq_true, elem_of_allocated. tauto.
Qed.

Lemma mark_is_allocated page r x :
  all_fit geo page -> 0 <= r < regions geo -> 0 <= x < valid geo r ->
  is_allocated (page r (x / BITMAP_PAGE_BLOCKS)) (x mod BITMAP_PAGE_BLOCKS) = Ok (mark page r x).
Proof.
  intros Hf Hr Hx. destruct (index_place r x Hr Hx) as (Hi & Hk & _). destruct (Hf r _ Hr Hi) as (Hp & _ & _ & _ & Hv).
  apply bit_is_allocated; [done|]. by rewrite Hv.
Qed.
End Places.

(** ** The checker's view *)

Section Checker.
Context {D : Type} {device : BlockDevice Decoded D} {contract : DeviceContract Decoded D core_decodes}.
Context (geo : Geometry) {WF : WfGeometry geo} (d0 : D).

Abbreviation content := (view (decodes := core_decodes)).

Lemma wpi_load_pages region record descriptor indices : forall d : D,
  reads d0 d -> 0 <= region < regions geo -> Forall (fun i => 0 <= i < pages geo region) indices -> descriptor_in geo (content d0) region record descriptor ->
  wpi (load_pages geo region descriptor indices) d
    (fun ps d' => reads d0 d' /\ Forall2 (fun i page => page_in geo (content d0) region i descriptor page) indices ps)
    (fun e d' => reads d0 d' /\ (only_io e \/ exists i, i ∈ indices /\ forall page, ~ page_in geo (content d0) region i descriptor page)).
Proof.
  induction indices as [|i indices IH]; intros d Hr Hreg HF Hdesc; [by apply wpi_ret|]. apply Forall_cons in HF as [Hi HF]. cbn [load_pages]. apply wpi_bind.
  eapply wpi_mono; [by apply (wpi_load_bitmap_page geo d0 d region i record)| |]; cbn beta.
  2: { intros e d1 [? He]. split; [done|]. destruct He as [|He]; [by left|right]. exists i. split; [left|done]. }
  intros page d1 [Hr1 Hp]. apply wpi_bind. eapply wpi_mono; [by apply IH| |]; cbn beta.
  - intros ps d2 [? ?]. apply wpi_ret. split; [done|]. by constructor.
  - intros e d2 [? He]. split; [done|]. destruct He as [|(j & ? & ?)]; [by left|right]. exists j. split; [by right|done].
Qed.

(** The loaded pages of region [region + j]. *)
Definition region_loaded (region : Z) (record : RegionRecord) (descriptor : RegionDescriptor) (ps : list BitmapPage) : Prop :=
  descriptor_in geo (content d0) region record descriptor /\
  Forall2 (fun i page => page_in geo (content d0) region i descriptor page) (seqZ 0 (pages geo region)) ps.

Definition region_unreadable (region : Z) (record : RegionRecord) : Prop := forall descriptor, descriptor_in geo (content d0) region record descriptor ->
  exists i, 0 <= i < pages geo region /\ forall page, ~ page_in geo (content d0) region i descriptor page.

Lemma wpi_load_regions records : forall (d : D) region,
  reads d0 d -> 0 <= region -> region + zlen records <= regions geo -> Forall (fun record => 0 <= rr_descriptor_slot record < DESCRIPTOR_SLOTS) records ->
  wpi (load_regions geo region records) d
    (fun pss d' => reads d0 d' /\ exists descriptors, length descriptors = length records /\ length pss = length records /\
       forall j record, records !! j = Some record -> exists descriptor ps, descriptors !! j = Some descriptor /\ pss !! j = Some ps /\
         region_loaded (region + Z.of_nat j) record descriptor ps)
    (fun e d' => reads d0 d' /\ (only_io e \/ exists j record, records !! j = Some record /\ region_unreadable (region + Z.of_nat j) record)).
Proof.
  induction records as [|record records IH]; intros d region Hr H0 Hz HF; [apply wpi_ret; split; [done|]; by exists []|].
  apply Forall_cons in HF as [Hs HF]. rewrite zlen_cons in Hz. pose proof (zlen_nonneg records). assert (0 <= region < regions geo) as Hreg by lia.
  cbn [load_regions]. pose proof (wf_regions (g := geo)). rewrite as_u32_small by (unfold u32; lia). apply wpi_bind.
  eapply wpi_mono; [by apply (wpi_load_region_descriptor geo d0)| |]; cbn beta.
  2: { intros e d1 [? He]. split; [done|]. destruct He as [|He]; [by left|right]. exists 0%nat, record. rewrite Z.add_0_r. split; [done|]. intros x Hx. by apply He in Hx. }
  intros descriptor d1 [Hr1 Hd]. destruct (descriptor_in_inv geo _ _ _ _ Hreg Hd) as (_ & _ & _ & Hp & _). pose proof (wf_pages_bounds geo region Hreg).
  rewrite Hp, as_u32_small by (unfold u32; lia). apply wpi_bind. eapply wpi_mono; [apply (wpi_load_pages region record); [done|done| |done]| |]; cbn beta.
  { apply Forall_forall. intros i Hi%elem_of_seqZ. lia. }
  2: { intros e d2 [? He]. split; [done|]. destruct He as [|(i & Hi%elem_of_seqZ & Hn)]; [by left|right]. exists 0%nat, record. rewrite Z.add_0_r. split; [done|].
       intros x Hx. rewrite (descriptor_in_unique _ _ _ _ _ _ Hx Hd). exists i. split; [lia|done]. }
  intros ps d2 [Hr2 Hps]. apply wpi_bind. eapply wpi_mono; [apply IH; [done|lia|lia|done]| |]; cbn beta.
  - intros pss d3 (Hr3 & descriptors & Hl & Hl' & HH). apply wpi_ret. split; [done|]. exists (descriptor :: descriptors). cbn [length]. split; [lia|]. split; [lia|].
    intros [|j] r Hj; cbn in Hj |- *.
    + injection Hj as <-. exists descriptor, ps. rewrite Z.add_0_r. done.
    + destruct (HH j r Hj) as (x & y & ? & ? & Hx). exists x, y. split; [done|]. split; [done|]. replace (region + Z.of_nat (S j)) with (region + 1 + Z.of_nat j) by lia. done.
  - intros e d3 [? He]. split; [done|]. destruct He as [|(j & r & Hj & Hx)]; [by left|right]. exists (S j), r. split; [done|].
    replace (region + Z.of_nat (S j)) with (region + 1 + Z.of_nat j) by lia. done.
Qed.
End Checker.

(** ** Counting free blocks *)

Definition page_free (p : BitmapPage) : Z := bp_valid_blocks p - Z.of_nat (size (allocated_set p)).

(** The sum of [f] over [0, n). *)
Definition total (f : Z -> Z) (n : Z) : Z := foldr (fun i sum => f i + sum) 0 (seqZ 0 n).

Lemma total_snoc f n : 0 <= n -> total f (n + 1) = total f n + f n.
Proof.
  intros Hn. unfold total. rewrite seqZ_app by lia. rewrite foldr_app. change (seqZ (0 + n) 1) with [0 + n]. cbn.
  generalize (seqZ 0 n) as l. rewrite Z.add_0_l. intros l. induction l as [|x l IH]; cbn; [lia|]. rewrite IH. lia.
Qed.

Lemma total_ext f g n : (forall i, 0 <= i < n -> f i = g i) -> total f n = total g n.
Proof.
  intros H. unfold total. assert (forall i, i ∈ seqZ 0 n -> f i = g i) as Hs by (intros i Hi%elem_of_seqZ; apply H; lia).
  induction (seqZ 0 n) as [|x l IH]; cbn; [done|]. rewrite Hs, IH; [done| |left]. intros i Hi. apply Hs. by right.
Qed.

Lemma count_ext f g a n : (forall i, a <= i < a + n -> f i = g i) -> count f a n = count g a n.
Proof. intros H. unfold count. by rewrite (filter_ext_seqZ f g). Qed.

Lemma count_negb f a n : 0 <= n -> count (fun i => negb (f i)) a n = n - count f a n.
Proof.
  intros Hn. unfold count, zlen. rewrite <- (Z2Nat.id n) by done. generalize (Z.to_nat n) as m. clear Hn. intros m. revert a.
  induction m as [|m IH]; intros a; [done|]. rewrite seqZ_S. cbn [List.filter]. specialize (IH (a + 1)). destruct (f a); cbn [negb length]; lia.
Qed.

Section Counting.
Context (geo : Geometry) {WF : WfGeometry geo} (page : Z -> Z -> BitmapPage) (Hfit : all_fit geo page).

Definition free_in_region (r : Z) : Z := count (fun x => negb (mark page r x)) 0 (valid geo r).
Definition free_total : Z := count (fun lba => negb (marked geo page lba)) 0 (total_blocks geo).

Lemma count_page r i : 0 <= r < regions geo -> 0 <= i < pages geo r ->
  count (fun x => negb (mark page r x)) (i * BITMAP_PAGE_BLOCKS) (page_valid geo r i) = page_free (page r i).
Proof.
  intros Hr Hi. destruct (Hfit r i Hr Hi) as ((Hv & _) & _ & _ & _ & Hpv). unfold page_free. rewrite size_allocated, Hpv, <- count_negb by (unfold page_valid; change BITMAP_PAGE_BLOCKS with 32384; lia).
  rewrite <- (Z.add_0_r (i * BITMAP_PAGE_BLOCKS)), count_shift. apply count_ext. intros k Hk. unfold mark, page_valid in *. change BITMAP_PAGE_BLOCKS with 32384 in *.
  rewrite Z.add_comm, Z.div_add, Z.mod_add, Z.div_small, Z.mod_small by lia. done.
Qed.

Lemma free_in_region_pages r : 0 <= r < regions geo -> free_in_region r = total (fun i => page_free (page r i)) (pages geo r).
Proof.
  intros Hr. pose proof (wf_valid_bounds geo r Hr). pose proof (wf_pages_bounds geo r Hr).
  assert (forall k, (Z.of_nat k <= pages geo r) -> count (fun x => negb (mark page r x)) 0 (Z.min (valid geo r) (Z.of_nat k * BITMAP_PAGE_BLOCKS)) =
    total (fun i => page_free (page r i)) (Z.of_nat k)) as Hk.
  { induction k as [|k IH]; intros Hk; [rewrite Z.mul_0_l, Z.min_r by lia; done|].
    replace (Z.of_nat (S k)) with (Z.of_nat k + 1) by lia. rewrite total_snoc, <- IH, <- count_page by lia.
    assert (Z.of_nat k * BITMAP_PAGE_BLOCKS <= valid geo r).
    { unfold pages in *. pose proof (div_ceil_bounds (valid geo r) BITMAP_PAGE_BLOCKS). change BITMAP_PAGE_BLOCKS with 32384 in *. lia. }
    unfold page_valid. change BITMAP_PAGE_BLOCKS with 32384 in *.
    replace (Z.min (valid geo r) ((Z.of_nat k + 1) * 32384)) with (Z.min (valid geo r) (Z.of_nat k * 32384) + Z.min (Z.max 0 (valid geo r - Z.of_nat k * 32384)) 32384) by lia.
    rewrite count_split by lia. f_equal. f_equal. lia. }
  unfold free_in_region. rewrite <- (Z2Nat.id (pages geo r)), <- Hk by lia. f_equal. rewrite Z2Nat.id by lia.
  pose proof (div_ceil_bounds (valid geo r) BITMAP_PAGE_BLOCKS). unfold pages. change BITMAP_PAGE_BLOCKS with 32384 in *. lia.
Qed.

Lemma free_total_regions : free_total = total free_in_region (regions geo).
Proof.
  pose proof (wf_regions_pos geo). pose proof (wf_region (g := geo)). pose proof (wf_total (g := geo)).
  pose proof (div_ceil_bounds (total_blocks geo) (region_size geo) ltac:(lia) ltac:(lia)) as Hc. fold (regions geo) in Hc.
  assert (forall k, (Z.of_nat k <= regions geo) -> count (fun lba => negb (marked geo page lba)) 0 (Z.min (total_blocks geo) (Z.of_nat k * region_size geo)) =
    total free_in_region (Z.of_nat k)) as Hk.
  { induction k as [|k IH]; intros Hk; [rewrite Z.mul_0_l, Z.min_r by lia; done|].
    replace (Z.of_nat (S k)) with (Z.of_nat k + 1) by lia. rewrite total_snoc, <- IH by lia. assert (0 <= Z.of_nat k < regions geo) as Hr by lia.
    pose proof (wf_valid_bounds geo _ Hr) as Hv. pose proof (region_in_range geo ltac:(lia) ltac:(lia) _ Hr).
    replace (Z.min (total_blocks geo) ((Z.of_nat k + 1) * region_size geo)) with (Z.of_nat k * region_size geo + valid geo (Z.of_nat k)) by (unfold valid; lia).
    rewrite Z.min_r by lia. rewrite count_split by lia. f_equal. rewrite Z.add_0_l. unfold free_in_region. rewrite <- (Z.add_0_r (Z.of_nat k * region_size geo)) at 1. rewrite count_shift.
    apply count_ext. intros x Hx. f_equal. apply marked_index; [done|done|lia]. }
  unfold free_total. rewrite <- (Z2Nat.id (regions geo)), <- Hk by lia. f_equal. rewrite Z2Nat.id by lia. lia.
Qed.
End Counting.

Lemma foldr_total {X} (f : X -> Z) (g : Z -> Z) (l : list X) :
  (forall i x, l !! i = Some x -> g (Z.of_nat i) = f x) -> foldr (fun x sum => f x + sum) 0 l = total g (zlen l).
Proof.
  induction l as [|x l IH] using rev_ind; intros H; [done|]. rewrite zlen_app, zlen_one, total_snoc by apply zlen_nonneg.
  rewrite <- IH by (intros i y Hi; apply H; by apply lookup_app_l_Some). unfold zlen. rewrite (H (length l) x) by (apply list_lookup_middle; done).
  rewrite foldr_app. cbn. clear. induction l as [|y l IH]; cbn; [lia|]. rewrite IH. lia.
Qed.

Section State.
Context (geo : Geometry) {WF : WfGeometry geo} (v : Z -> bytes) (checkpoint : Checkpoint) (c : Committed) (nodes : list (Z * TreeNode)).
Hypothesis Hin : allocation_in geo v checkpoint c nodes.

Lemma committed_region r : 0 <= r < regions geo -> exists record, cs_records c !! Z.to_nat r = Some record /\ record_sound geo r (cp_generation checkpoint) record /\
  descriptor_in geo v r record (cs_descriptor c r) /\ forall i, 0 <= i < pages geo r -> page_in geo v r i (cs_descriptor c r) (cs_page c r i).
Proof.
  intros Hr. destruct Hin as [[_ [_ Hs]] HH]. destruct (HH r Hr) as (record & Hl & Hd & Hp). exists record. split; [done|]. split; [|done].
  specialize (Hs _ _ Hl). by rewrite Z2Nat.id in Hs by lia.
Qed.

Lemma committed_fits : all_fit geo (cs_page c).
Proof. intros r i Hr Hi. destruct (committed_region r Hr) as (record & _ & _ & _ & Hp). destruct (Hp i Hi) as (_ & _ & _ & _ & _ & Hf & _). done. Qed.

(** The free count of a region's record is the number of its unmarked blocks. *)
Lemma record_free_exact r record : 0 <= r < regions geo -> cs_records c !! Z.to_nat r = Some record -> rr_free_blocks record = free_in_region geo (cs_page c) r.
Proof.
  intros Hr Hl. destruct (committed_region r Hr) as (record' & Hl' & _ & Hd & Hp). rewrite Hl in Hl'. injection Hl' as <-.
  destruct (descriptor_in_inv geo v r record _ Hr Hd) as (_ & _ & _ & Hz & Hsum & Hfree & _). rewrite <- Hfree, Hsum, free_in_region_pages by (done || apply committed_fits).
  rewrite <- Hz. apply foldr_total. intros i binding Hi. assert (0 <= Z.of_nat i < pages geo r) as Hr' by (apply lookup_lt_Some in Hi; unfold zlen in Hz; lia).
  destruct (Hp (Z.of_nat i) Hr') as (b & _ & Hb & _ & _ & [Hwf _] & Hf). rewrite Nat2Z.id, Hi in Hb. injection Hb as <-.
  rewrite free_blocks_spec in Hf by done. by apply Ok_inj in Hf.
Qed.

Lemma free_region_bound page r : all_fit geo page -> 0 <= r < regions geo -> 0 <= free_in_region geo page r <= valid geo r.
Proof. intros _ Hr. pose proof (wf_valid_bounds geo r Hr). split; [apply count_nonneg|apply count_le; lia]. Qed.
End State.

Definition sum_free (ps : list BitmapPage) : Z := foldr (fun p sum => page_free p + sum) 0 ps.

Lemma page_free_nonneg p : BitmapPage_wf p -> 0 <= page_free p.
Proof. intros (Hv & _). unfold page_free. rewrite size_allocated. pose proof (count_le (bit_at (bp_bits p)) 0 (bp_valid_blocks p)). lia. Qed.

Lemma sum_pages_eq ps : forall sum, 0 <= sum -> Forall BitmapPage_wf ps -> sum + sum_free ps < 2 ^ 64 ->
  ofold (fun sum page => let* free := of_format (free_blocks page) in add_w 64 sum free) sum ps = Ok (sum + sum_free ps).
Proof.
  induction ps as [|p ps IH]; intros sum H0 HF Hb; [cbn; f_equal; lia|]. apply Forall_cons in HF as [Hp HF]. cbn in Hb |- *.
  rewrite free_blocks_spec by done. cbn [of_format obind]. fold (page_free p). pose proof (page_free_nonneg p Hp).
  assert (0 <= sum_free ps) by (clear -HF; induction HF as [|q ps Hq HF IH]; cbn; [lia|]; pose proof (page_free_nonneg q Hq); unfold sum_free in IH; lia).
  fold (sum_free ps) in *. unfold add_w. replace (_ <? _) with true by lia. cbn [obind]. rewrite IH by (done || lia). f_equal. lia.
Qed.

Lemma sum_free_app a b : sum_free (a ++ b) = sum_free a + sum_free b.
Proof. induction a as [|p a IH]; cbn; [done|]. fold (sum_free (a ++ b)) (sum_free a). rewrite IH. lia. Qed.

Lemma sum_free_concat pss : sum_free (concat pss) = foldr (fun ps sum => sum_free ps + sum) 0 pss.
Proof. induction pss as [|ps pss IH]; cbn; [done|]. by rewrite sum_free_app, IH. Qed.

(** The pages of a family, region by region. *)
Definition holds_pages (geo : Geometry) (page : Z -> Z -> BitmapPage) (pss : list (list BitmapPage)) : Prop :=
  zlen pss = regions geo /\
  forall r ps, pss !! r = Some ps -> zlen ps = pages geo (Z.of_nat r) /\ forall i p, ps !! i = Some p -> p = page (Z.of_nat r) (Z.of_nat i).

Section Held.
Context (geo : Geometry) {WF : WfGeometry geo} (page : Z -> Z -> BitmapPage) (pss : list (list BitmapPage)).
Hypotheses (Hfit : all_fit geo page) (Hheld : holds_pages geo page pss).

Lemma held_is_allocated lba : 0 <= lba < total_blocks geo -> Bitmaps_is_allocated {| bm_geo := geo; bm_pages := pss |} lba = Ok (marked geo page lba).
Proof.
  intros Hl. destruct (lba_region geo lba Hl) as (Hr & _ & Hm). unfold Bitmaps_is_allocated. cbn [bm_geo bm_pages]. rewrite locate_eq by done. cbn [obind].
  destruct Hheld as [Hz HH]. destruct (lookup_lt_is_Some_2 pss (Z.to_nat (lba / region_size geo))) as [ps Hps]; [unfold zlen in Hz; lia|]. rewrite Hps.
  destruct (HH _ _ Hps) as [Hzp Hp]. rewrite Z2Nat.id in Hzp, Hp by lia. destruct (index_place geo _ _ Hr Hm) as (Hi & Hk & _).
  destruct (lookup_lt_is_Some_2 ps (Z.to_nat ((lba mod region_size geo) / BITMAP_PAGE_BLOCKS))) as [p Hpl]; [unfold zlen in Hzp; lia|]. rewrite Hpl.
  rewrite (Hp _ _ Hpl), Z2Nat.id by lia. rewrite (mark_is_allocated geo page) by done. done.
Qed.

Lemma held_free_total : Bitmaps_free_blocks_total {| bm_geo := geo; bm_pages := pss |} = Ok (free_total geo page).
Proof.
  destruct Hheld as [Hz HH]. assert (sum_free (concat pss) = free_total geo page) as Hs.
  { rewrite sum_free_concat, (free_total_regions geo), <- Hz. apply foldr_total. intros r ps Hr. destruct (HH r ps Hr) as [Hzp Hp].
    assert (0 <= Z.of_nat r < regions geo) as Hrr by (apply lookup_lt_Some in Hr; unfold zlen in Hz; lia).
    rewrite (free_in_region_pages geo) by done. rewrite <- Hzp. symmetry. apply foldr_total. intros i p Hi. by rewrite <- (Hp i p Hi). }
  unfold Bitmaps_free_blocks_total. cbn [bm_pages]. rewrite sum_pages_eq; [by rewrite Hs|lia| |].
  - apply Forall_concat, Forall_forall. intros ps [r Hr]%list_elem_of_lookup. destruct (HH r ps Hr) as [Hzp Hp]. apply Forall_forall. intros p [i Hi]%list_elem_of_lookup.
    rewrite (Hp i p Hi). apply Hfit; [apply lookup_lt_Some in Hr|apply lookup_lt_Some in Hi]; unfold zlen in *; lia.
  - rewrite Hs. pose proof (wf_total (g := geo)). pose proof (count_le (fun lba => negb (marked geo page lba)) 0 (total_blocks geo)). unfold free_total. lia.
Qed.
End Held.

(** The state that lists of descriptors and pages describe. *)
Definition committed_of (records : list RegionRecord) (descriptors : list RegionDescriptor) (pss : list (list BitmapPage)) : Committed :=
  {| cs_records := records;
     cs_descriptor r := default {| rd_region := 0; rd_valid_blocks := 0; rd_free_blocks := 0; rd_pages := [] |} (descriptors !! Z.to_nat r);
     cs_page r i := default {| bp_region := 0; bp_page_index := 0; bp_first_block := 0; bp_valid_blocks := 0; bp_bits := [] |}
                      (ps ← pss !! Z.to_nat r; ps !! Z.to_nat i) |}.

(** The blocks determine the records. *)
Lemma allocation_root_unique geo {WF : WfGeometry geo} v g root records nodes records' nodes' :
  allocation_root_at geo v g root records nodes -> allocation_root_at geo v g root records' nodes' -> records' = records /\ nodes' = nodes.
Proof.
  intros [[_ [n Ht]] Hs] [[_ [n' Ht']] Hs']. destruct (proj1 (tree_at_unique _ _ _) _ _ _ _ _ _ _ Ht _ _ _ Ht') as (_ & Hi & Hn). split; [|done].
  pose proof (sound_recorded geo g records Hs) as HF. pose proof (sound_recorded geo g records' Hs') as HF'. rewrite Hi in HF'.
  pose proof (Forall2_fun _ (recorded_fun geo g) _ _ _ HF HF') as Heq. destruct (zip_region_order records) as (_ & _ & <-). destruct (zip_region_order records') as (_ & _ & <-). congruence.
Qed.

Section Exact.
Context {D : Type} {device : BlockDevice Decoded D} {contract : DeviceContract Decoded D core_decodes}.
Context (geo : Geometry) {WF : WfGeometry geo}.

Abbreviation content := (view (decodes := core_decodes)).

Lemma loaded_allocation_in (d : D) checkpoint records nodes descriptors pss :
  allocation_root_at geo (content d) (cp_generation checkpoint) (cp_allocation_root_block checkpoint) records nodes -> length pss = length records ->
  (forall j record, records !! j = Some record -> exists descriptor ps, descriptors !! j = Some descriptor /\ pss !! j = Some ps /\
     region_loaded geo d (Z.of_nat j) record descriptor ps) ->
  allocation_in geo (content d) checkpoint (committed_of records descriptors pss) nodes /\ holds_pages geo (cs_page (committed_of records descriptors pss)) pss.
Proof.
  intros Hroot Hlen HH. pose proof Hroot as [_ [Hz _]]. split; [split; [done|]|split; [unfold zlen in *; lia|]].
  - intros r Hr. destruct (lookup_lt_is_Some_2 records (Z.to_nat r)) as [record Hl]; [unfold zlen in Hz; lia|]. destruct (HH _ _ Hl) as (x & ps & Hx & Hps & Hd & Hp).
    rewrite Z2Nat.id in Hd, Hp by lia. exists record. split; [done|]. cbn [cs_descriptor cs_page committed_of]. rewrite Hx. split; [done|]. intros i Hi.
    rewrite Hps. cbn. destruct (Forall2_lookup_l _ _ _ (Z.to_nat i) i Hp) as (p & Hpi & Hin); [apply lookup_seqZ; lia|]. by rewrite Hpi.
  - intros r ps Hps. destruct (lookup_lt_is_Some_2 records r) as [record Hl]; [apply lookup_lt_Some in Hps; lia|]. destruct (HH _ _ Hl) as (x & ps' & _ & Hps' & _ & Hp).
    rewrite Hps in Hps'. injection Hps' as <-. split.
    + apply Forall2_length in Hp. rewrite length_seqZ in Hp. unfold zlen.
      assert (0 <= Z.of_nat r < regions geo) as Hr by (apply lookup_lt_Some in Hl; unfold zlen in Hz; lia). pose proof (wf_pages_bounds geo _ Hr). lia.
    + intros i p Hi. cbn [cs_page committed_of]. rewrite !Nat2Z.id, Hps. cbn. by rewrite Hi.
Qed.

Lemma wpi_Bitmaps_load (d : D) checkpoint :
  dev_ok (decodes := core_decodes) d -> u64 (cp_allocation_root_block checkpoint) ->
  wpi (Bitmaps_load geo checkpoint) d
    (fun b d' => reads d d' /\ exists c nodes, allocation_in geo (content d) checkpoint c nodes /\ bm_geo b = geo /\ holds_pages geo (cs_page c) (bm_pages b))
    (fun e d' => reads d d' /\ forall c nodes, allocation_in geo (content d) checkpoint c nodes -> only_io e).
Proof.
  intros Hd Hu. unfold Bitmaps_load, checkpoint_records. apply wpi_bind, wpi_bind. eapply wpi_mono; [by apply (wpi_load_allocation_root geo)| |]; cbn beta.
  2: { intros e d1 [? He]. split; [done|]. intros c nodes [Hc _]. by eapply He. }
  intros root d1 (Hr1 & nodes & Hroot & _). apply wpi_ret, wpi_bind. pose proof Hroot as [_ [Hz Hs]].
  eapply wpi_mono; [apply (wpi_load_regions geo d); [done|lia|lia|]| |]; cbn beta.
  { apply Forall_lookup_2. intros i record Hi. destruct (Hs _ _ Hi) as ((Ht & _) & _ & Hslot & _). unfold u8, u16, u32, u64 in *. lia. }
  - intros pss d2 (Hr2 & descriptors & _ & Hl & HH). apply wpi_ret. split; [done|]. cbn [bm_geo bm_pages].
    destruct (loaded_allocation_in d checkpoint (la_records root) nodes descriptors pss Hroot Hl HH) as [? ?]. eauto.
  - intros e d2 [Hr2 He]. split; [done|]. intros c nodes' Hc. destruct He as [|(j & record & Hj & Hun)]; [done|]. exfalso.
    assert (cs_records c = la_records root) as Heq.
    { destruct Hc as [Hc _]. by destruct (allocation_root_unique geo _ _ _ _ _ _ _ Hroot Hc). }
    assert (0 <= Z.of_nat j < regions geo) as Hrr by (apply lookup_lt_Some in Hj; unfold zlen in Hz; lia).
    destruct (committed_region geo (content d) checkpoint c nodes' Hc _ Hrr) as (record' & Hl' & _ & Hdesc & Hp). rewrite Heq, Nat2Z.id, Hj in Hl'. injection Hl' as <-.
    destruct (Hun _ Hdesc) as (i & Hi & Hno). by eapply Hno, Hp.
Qed.
End Exact.

(** ** What a committed state depends on *)

Lemma allocation_in_frame geo {WF : WfGeometry geo} v v' checkpoint c nodes :
  0 <= cp_allocation_root_block checkpoint -> allocation_in geo v checkpoint c nodes ->
  (forall lba, 0 <= lba < total_blocks geo -> allocatable geo lba = false \/ lba ∈ map fst nodes -> v' lba = v lba) ->
  allocation_in geo v' checkpoint c nodes.
Proof.
  intros H0 Hin Heq. pose proof Hin as [[[Hg [n Ht]] Hs] _]. split.
  - split; [|done]. split; [done|]. exists n. eapply (proj1 (tree_frame geo _ (decoded v) (decoded v'))); [exact Ht|]. intros [lba node] Hp.
    pose proof (proj1 (tree_at_volume _ _ _) _ _ _ _ _ _ _ Ht H0 Hg) as HV. pose proof (proj1 (Forall_forall _ _) HV _ Hp) as Hv. unfold in_volume in Hv. cbn in Hv |- *.
    unfold decoded. rewrite Heq; [done|done|]. right. apply list_elem_of_fmap. by exists (lba, node).
  - intros r Hr. destruct (committed_region geo v checkpoint c nodes Hin r Hr) as (record & Hl & ((Hu & _) & _ & Hslot & _) & Hd & Hp). exists record. split; [done|].
    assert (forall x lba, slot_valid geo x -> slot_lba geo x = Ok lba -> v' lba = v lba) as Hsl.
    { intros x lba Hx Hlba. destruct (slot_address geo x Hx) as (lba' & Hl' & Hu' & Hlt & Ha). rewrite Hlba in Hl'. apply Ok_inj in Hl' as <-.
      apply Heq; [unfold u64 in Hu'; lia|by left]. }
    destruct (descriptor_in_inv geo v r record _ Hr Hd) as (_ & _ & _ & _ & _ & _ & Hb). split.
    + destruct Hd as (lba & Hlba & Hdec & Hrest). exists lba. split; [done|]. rewrite (Hsl (Geometry.DescriptorSlot r (rr_descriptor_slot record)) lba); [done| |done].
      cbn. unfold DESCRIPTOR_SLOTS, u8, u16, u32, u64 in *. lia.
    + intros i Hi. destruct (Hp i Hi) as (binding & lba & Hbi & Hlba & Hrest). exists binding, lba. split; [done|]. split; [done|].
      rewrite (Hsl (BitmapSlot r i (bb_slot binding)) lba); [done| |done]. cbn. destruct (Hb _ _ Hbi) as [(Hbs & _) (Hbs' & _)].
      unfold BITMAP_SLOTS, u8, u16, u32, u64 in *. lia.
Qed.

(** ** The marked blocks as a set *)

Definition marked_set (geo : Geometry) (page : Z -> Z -> BitmapPage) : gset Z := list_to_set (List.filter (marked geo page) (seqZ 0 (total_blocks geo))).

Lemma elem_of_marked_set geo page lba : lba ∈ marked_set geo page <-> 0 <= lba < total_blocks geo /\ marked geo page lba = true.
Proof. unfold marked_set. rewrite elem_of_list_to_set, list_elem_of_In, filter_In, <- list_elem_of_In, elem_of_seqZ. split; intros [? ?]; split; (done || lia). Qed.

Lemma free_total_size geo page : 0 <= total_blocks geo -> free_total geo page = total_blocks geo - Z.of_nat (size (marked_set geo page)).
Proof.
  intros H. unfold free_total. rewrite count_negb by done. f_equal. unfold marked_set, count, zlen. f_equal. symmetry.
  apply size_list_to_set, NoDup_ListNoDup, List.NoDup_filter, NoDup_ListNoDup, NoDup_seqZ.
Qed.

Lemma mark_elem geo {WF : WfGeometry geo} page r x : 0 <= r < regions geo -> 0 <= x < valid geo r -> mark page r x = true <-> r * region_size geo + x ∈ marked_set geo page.
Proof. intros Hr Hx. rewrite elem_of_marked_set, (marked_index geo) by done. pose proof (lba_of_index geo r x Hr Hx) as (_ & _ & ?). tauto. Qed.

(** Marking or clearing one block of a region. *)
Lemma marked_set_update geo {WF : WfGeometry geo} page page' r x b :
  0 <= r < regions geo -> 0 <= x < valid geo r ->
  (forall r' x', 0 <= r' < regions geo -> 0 <= x' < valid geo r' -> mark page' r' x' = if decide (r' = r /\ x' = x) then b else mark page r' x') ->
  marked_set geo page' = if b then {[r * region_size geo + x]} ∪ marked_set geo page else marked_set geo page ∖ {[r * region_size geo + x]}.
Proof.
  intros Hr Hx H. destruct (lba_of_index geo r x Hr Hx) as (Hq & Hm & Ht). apply set_eq. intros lba. rewrite elem_of_marked_set.
  destruct (decide (0 <= lba < total_blocks geo)) as [Hl|Hl].
  - destruct (lba_region geo lba Hl) as (Hr' & He & Hx'). unfold marked. rewrite H by done.
    assert ((lba / region_size geo = r /\ lba mod region_size geo = x) <-> lba = r * region_size geo + x) as Hiff.
    { split; [intros [<- <-]; done|intros ->; done]. }
    destruct b; rewrite ?elem_of_union, ?elem_of_difference, elem_of_singleton, elem_of_marked_set; unfold marked; case_decide; tauto || (intuition congruence).
  - destruct b; rewrite ?elem_of_union, ?elem_of_difference, elem_of_singleton, elem_of_marked_set; intuition lia.
Qed.
