(* ===== verification/AllocTx.v ===== *)
(** * The state of an allocator transaction (crates/afsplus-core/src/alloc.rs)

    The pages, descriptors and records a transaction holds are those of the
    committed state, changed only in dirty pages.  Loading and dropping pages
    does not change which blocks are marked. *)

From S2P Require Import Prelude Crc32c Format Header Codec TreeNode Geometry Bitmap Region Checkpoint Device Core Tree TreeSpec TreeReaders TreeVerify.
From S2P Require Import CowTree CowStore AllocRoot AllocRootSpec Reclaim RunSet Alloc AllocSpec.

Section Tx.
Context {D : Type} {device : BlockDevice Decoded D} {contract : DeviceContract Decoded D core_decodes}.
Context (geo : Geometry) {WF : WfGeometry geo}.
(** The checkpoint the transaction builds on, the other retained one, and their allocation states. *)
Context (current : Checkpoint) (other : option Checkpoint) (c : Committed) (nodes : list (Z * TreeNode)) (oc : Committed) (onodes : list (Z * TreeNode)).

Abbreviation content := (view (decodes := core_decodes)).
Abbreviation tio := (io (D * TxAllocator) CoreError).

(** Both retained checkpoints can be read. *)
Definition volume_ok (d : D) : Prop :=
  dev_ok (decodes := core_decodes) d /\ total_blocks geo <= dev_total_blocks d /\ allocation_in geo (content d) current c nodes /\ u64 (cp_allocation_root_block current) /\
  match other with Some older => allocation_in geo (content d) older oc onodes /\ u64 (cp_allocation_root_block older) | None => True end.

(** The page a transaction works with. *)
Definition now (tx : TxAllocator) (r i : Z) : BitmapPage := default (cs_page c r i) (ta_pages tx !! (r, i)).

Definition in_range (r i : Z) : Prop := 0 <= r < regions geo /\ 0 <= i < pages geo r.

(** The older checkpoint's side of a region, loaded with the newer one's. *)
Definition other_loaded (tx : TxAllocator) (r : Z) : Prop :=
  match other with
  | Some _ => ta_other_records tx !! r = cs_records oc !! Z.to_nat r /\ ta_other_descriptors tx !! r = Some (cs_descriptor oc r)
  | None => ta_other_records tx !! r = None /\ ta_other_descriptors tx !! r = None
  end.

Record caches_ok (tx : TxAllocator) : Prop := {
  ca_geo : ta_geo tx = geo;
  ca_current : ta_current_checkpoint tx = current;
  ca_other : ta_other_checkpoint tx = other;
  ca_alone : other = None -> ta_other_records tx = ∅ /\ ta_other_descriptors tx = ∅;
  ca_records r record : ta_current_records tx !! r = Some record -> 0 <= r < regions geo /\ cs_records c !! Z.to_nat r = Some record;
  ca_descriptors r x : ta_descriptors tx !! r = Some x ->
    0 <= r < regions geo /\ x = cs_descriptor c r /\ is_Some (ta_current_records tx !! r) /\ other_loaded tx r;
  ca_pages r i p : ta_pages tx !! (r, i) = Some p ->
    in_range r i /\ page_fits geo r i p /\ is_Some (ta_descriptors tx !! r) /\ ((r, i) ∉ ta_dirty_pages tx -> p = cs_page c r i);
  ca_dirty r i : (r, i) ∈ ta_dirty_pages tx -> is_Some (ta_pages tx !! (r, i)) /\ r ∈ ta_dirty_regions tx;
  ca_regions r : r ∈ ta_dirty_regions tx -> exists i, (r, i) ∈ ta_dirty_pages tx;
}.

(** What loading and dropping pages leaves alone. *)
Definition ledger (tx : TxAllocator) :=
  (ta_allocated_this_tx tx, ta_retired_this_tx tx, ta_snapshot tx, (ta_rover_region tx, ta_rover_index tx),
   (ta_free_block_floor tx, ta_current_free_blocks_total tx, ta_new_generation tx, ta_reclaim tx),
   (alloc_count tx blocks_allocated, alloc_count tx blocks_promoted, alloc_count tx blocks_released)).

Definition accounts (tx : TxAllocator) := (ledger tx, (ta_dirty_pages tx, ta_dirty_regions tx)).

Lemma accounts_split tx tx' : accounts tx' = accounts tx -> ledger tx' = ledger tx /\ ta_dirty_pages tx' = ta_dirty_pages tx /\ ta_dirty_regions tx' = ta_dirty_regions tx.
Proof. intros H. unfold accounts in H. apply pair_equal_spec in H as [H1 H2]. apply pair_equal_spec in H2. done. Qed.

Definition quiet (tx tx' : TxAllocator) : Prop := accounts tx' = accounts tx /\ forall r i, in_range r i -> now tx' r i = now tx r i.

Lemma quiet_refl tx : quiet tx tx.
Proof. done. Qed.

Lemma quiet_trans tx1 tx2 tx3 : quiet tx1 tx2 -> quiet tx2 tx3 -> quiet tx1 tx3.
Proof. intros [Ha Hb] [Ha' Hb']. split; [congruence|]. intros r i Hr. rewrite Hb' by done. by apply Hb. Qed.

Lemma now_resident tx r i p : ta_pages tx !! (r, i) = Some p -> now tx r i = p.
Proof. unfold now. by intros ->. Qed.

Section Reading.
Context (d0 : D) (Hvol : volume_ok d0).

Lemma now_fits tx r i : caches_ok tx -> in_range r i -> page_fits geo r i (now tx r i).
Proof.
  intros Hc Hr. unfold now. destruct (ta_pages tx !! (r, i)) as [p|] eqn:Hp; cbn.
  - by apply (ca_pages tx Hc r i p) in Hp as (_ & ? & _).
  - destruct Hr. destruct Hvol as (_ & _ & Hin & _). by apply (committed_fits geo _ _ _ _ Hin).
Qed.

Lemma now_all_fit tx : caches_ok tx -> all_fit geo (now tx).
Proof. intros Hc r i Hr Hi. by apply now_fits. Qed.

Lemma reads_allocation d checkpoint state tree :
  reads d0 d -> allocation_in geo (content d0) checkpoint state tree -> u64 (cp_allocation_root_block checkpoint) -> allocation_in geo (content d) checkpoint state tree.
Proof.
  intros Hr Hin Hu. unfold u64 in Hu. eapply (allocation_in_frame geo); [lia|exact Hin|]. intros lba Hl _. apply (reads_view d0 d lba Hr).
  destruct Hvol as (_ & Ht & _). unfold inside. lia.
Qed.

Lemma wpi_checkpoint_record d checkpoint state tree r :
  reads d0 d -> allocation_in geo (content d0) checkpoint state tree -> u64 (cp_allocation_root_block checkpoint) -> 0 <= r < regions geo ->
  wpi (checkpoint_record geo checkpoint r) d
    (fun record d' => reads d0 d' /\ cs_records state !! Z.to_nat r = Some record) (fun e d' => reads d0 d' /\ only_io e).
Proof.
  intros Hr Hin Hu Hreg. destruct (reads_allocation d checkpoint state tree Hr Hin Hu) as [Hroot' _]. destruct Hin as [Hroot _]. pose proof Hr as (Hd & _ & _).
  unfold checkpoint_record. apply wpi_bind. eapply wpi_mono; [apply (wpi_lookup_record geo); [done|done|lia]| |]; cbn beta.
  - intros record d' [Hr' Hrec]. rewrite (Hrec _ _ Hroot'). destruct Hroot as [_ [Hz _]].
    destruct (lookup_lt_is_Some_2 (cs_records state) (Z.to_nat r)) as [x Hx]; [unfold zlen in Hz; lia|]. rewrite Hx. apply wpi_lift, wp_ok. split; [by eapply agree_trans|done].
  - intros e d' [Hr' He]. split; [by eapply agree_trans|]. eapply He; [done|lia].
Qed.

(** The other fields after an assignment to a cache. *)
Ltac fields :=
  cbn [ta_tree_cache_pages ta_tree_mutations ta_geo ta_current_checkpoint ta_other_checkpoint ta_current_records ta_other_records ta_current_free_blocks_total
    ta_descriptors ta_other_descriptors ta_pages ta_new_generation ta_dirty_pages ta_dirty_regions ta_reclaim ta_allocated_this_tx ta_retired_this_tx
    ta_snapshot ta_rover_region ta_rover_index ta_free_block_floor ta_stats
    tally_alloc set_stats set_current_records set_other_records set_descriptors set_other_descriptors set_pages fst snd] in *.

Lemma wpi_current_record d tx r :
  reads d0 d -> caches_ok tx -> 0 <= r < regions geo ->
  wpi (current_record r) (d, tx)
    (fun record s => reads d0 (fst s) /\ caches_ok (snd s) /\ quiet tx (snd s) /\ cs_records c !! Z.to_nat r = Some record /\
       is_Some (ta_current_records (snd s) !! r) /\ ta_descriptors (snd s) = ta_descriptors tx /\ ta_pages (snd s) = ta_pages tx)
    (fun e s => reads d0 (fst s) /\ only_io e).
Proof.
  intros Hr Hc Hreg. unfold current_record. apply wpi_bind, wpi_get. cbn [snd]. destruct (ta_current_records tx !! r) as [record|] eqn:Hl.
  - apply wpi_ret. split; [done|]. split; [done|]. split; [done|]. split; [by apply (ca_records tx Hc)|]. cbn. by rewrite Hl.
  - rewrite (ca_geo tx Hc), (ca_current tx Hc). apply wpi_bind, wpi_zoom. cbn [fst]. destruct Hvol as (_ & _ & Hin & Hu & _).
    eapply wpi_mono; [by apply (wpi_checkpoint_record d current c nodes)| |]; cbn beta; [|done]. intros record d1 [Hr1 Hrec]. apply wpi_bind, wpi_modify, wpi_ret. fields.
    split; [done|]. split; [|split; [done|]; split; [done|]; split; [by rewrite lookup_insert_eq|done]]. destruct Hc. split; fields; try done.
    + intros x y. rewrite lookup_insert_Some. intros [[<- <-]|[_ Hxy]]; [done|by eauto].
    + intros x y Hxy. destruct (ca_descriptors0 x y Hxy) as (? & ? & Hs & ?). split; [done|]. split; [done|]. split; [|done].
      apply lookup_insert_is_Some'. by right.
Qed.

Lemma slot_of_record checkpoint state tree r record :
  allocation_in geo (content d0) checkpoint state tree -> 0 <= r < regions geo -> cs_records state !! Z.to_nat r = Some record ->
  0 <= rr_descriptor_slot record < DESCRIPTOR_SLOTS /\ descriptor_in geo (content d0) r record (cs_descriptor state r).
Proof.
  intros Hin Hr Hl. destruct (committed_region geo _ _ _ _ Hin r Hr) as (record' & Hl' & ((Hu & _) & _ & Hs & _) & Hd & _). rewrite Hl in Hl'. injection Hl' as <-.
  split; [|done]. unfold u8, u16, u32, u64 in Hu. lia.
Qed.

Lemma wpi_ensure_other_descriptor d tx r :
  reads d0 d -> ta_geo tx = geo -> ta_other_checkpoint tx = other -> (other = None -> ta_other_records tx = ∅ /\ ta_other_descriptors tx = ∅) -> 0 <= r < regions geo ->
  wpi (ensure_other_descriptor r) (d, tx)
    (fun _ s => reads d0 (fst s) /\ exists records descriptors stats, snd s = set_other_descriptors descriptors (set_other_records records (set_stats stats tx)) /\
       other_loaded (snd s) r /\ (forall x, x <> r -> records !! x = ta_other_records tx !! x /\ descriptors !! x = ta_other_descriptors tx !! x) /\
       (other = None -> records = ∅ /\ descriptors = ∅) /\ accounts (snd s) = accounts tx)
    (fun e s => reads d0 (fst s) /\ only_io e).
Proof.
  intros Hr Hgeo Hother Halone Hreg. unfold ensure_other_descriptor. apply wpi_bind, wpi_get. cbn [snd]. rewrite Hgeo, Hother.
  destruct Hvol as (_ & _ & _ & _ & Hold). unfold other_loaded. destruct other as [older|] eqn:Eo.
  - destruct Hold as [Hin Hu]. apply wpi_bind, wpi_zoom. eapply wpi_mono; [by apply (wpi_checkpoint_record d older oc onodes)| |]; cbn beta; [|done].
    intros record d1 [Hr1 Hrec]. apply wpi_bind, wpi_modify. fields. apply wpi_bind, wpi_zoom. fields. destruct (slot_of_record older oc onodes r record Hin Hreg Hrec) as [Hs Hd].
    eapply wpi_mono; [by apply (wpi_load_region_descriptor geo d0)| |]; cbn beta.
    + intros x d2 [Hr2 Hx]. rewrite (descriptor_in_unique _ _ _ _ _ _ Hx Hd). apply wpi_modify. fields. split; [done|].
      eexists (<[r := record]> (ta_other_records tx)), (<[r := cs_descriptor oc r]> (ta_other_descriptors tx)), _.
      split; [reflexivity|]. fields. rewrite !lookup_insert_eq, Hrec. split; [done|]. split; [|done]. intros y Hy. by rewrite !lookup_insert_ne.
    + intros e d2 [Hr2 He]. split; [done|]. destruct He as [|He]; [done|]. by apply He in Hd.
  - apply wpi_ret. destruct (Halone eq_refl) as [Ha Hb]. split; [done|]. exists (ta_other_records tx), (ta_other_descriptors tx), (ta_stats tx).
    fields. rewrite Ha, Hb. split; [rewrite <- Ha, <- Hb at 1; by destruct tx|]. done.
Qed.

Lemma wpi_ensure_descriptors d tx r :
  reads d0 d -> caches_ok tx -> 0 <= r < regions geo ->
  wpi (ensure_descriptors r) (d, tx)
    (fun _ s => reads d0 (fst s) /\ caches_ok (snd s) /\ quiet tx (snd s) /\ ta_descriptors (snd s) !! r = Some (cs_descriptor c r) /\ ta_pages (snd s) = ta_pages tx)
    (fun e s => reads d0 (fst s) /\ only_io e).
Proof.
  intros Hr Hc Hreg. unfold ensure_descriptors. apply wpi_bind, wpi_get. cbn [snd]. destruct (ta_descriptors tx !! r) as [x|] eqn:Hx.
  { apply wpi_ret. destruct (ca_descriptors tx Hc r x Hx) as (_ & -> & _). done. }
  apply wpi_bind. eapply wpi_mono; [by apply wpi_current_record| |]; cbn beta; [|done]. intros record [d1 tx1] (Hr1 & Hc1 & Hq1 & Hrec & Hl & Hds & Hps). cbn [fst snd] in *.
  rewrite (ca_geo tx Hc). apply wpi_bind, wpi_zoom. cbn [fst]. destruct Hvol as (_ & _ & Hin & _). destruct (slot_of_record current c nodes r record Hin Hreg Hrec) as [Hs Hd].
  eapply wpi_mono; [by apply (wpi_load_region_descriptor geo d0)| |]; cbn beta.
  2: { intros e d2 [Hr2 He]. split; [done|]. destruct He as [|He]; [done|]. by apply He in Hd. }
  intros x d2 [Hr2 Hin']. rewrite (descriptor_in_unique _ _ _ _ _ _ Hin' Hd). apply wpi_bind, wpi_modify. cbn [fst snd].
  eapply wpi_mono; [apply wpi_ensure_other_descriptor; [done|apply Hc1|apply Hc1|apply Hc1|done]| |]; cbn beta; [|done].
  intros _ [d3 tx3] (Hr3 & records & descriptors & stats & -> & Hloaded & Hothers & Hnone & Hacc). cbn [fst snd] in *. split; [done|].
  split; [|split; [split; [rewrite Hacc; apply Hq1|]|]].
  - destruct Hc1. split; fields; try done.
    + intros y z. rewrite lookup_insert_Some. intros [[<- <-]|[Hne Hyz]]; [done|]. destruct (ca_descriptors0 y z Hyz) as (? & ? & ? & Ho). split; [done|]. split; [done|].
      split; [done|]. destruct (Hothers y) as [Hoa Hob]; [done|]. unfold other_loaded in *. fields. by rewrite Hoa, Hob.
    + intros y i p Hp. destruct (ca_pages0 y i p Hp) as (? & ? & Hsome & ?). split; [done|]. split; [done|]. split; [|done]. apply lookup_insert_is_Some'. by right.
  - intros y i Hyi. rewrite <- (proj2 Hq1 y i Hyi). done.
  - fields. by rewrite lookup_insert_eq.
Qed.

Lemma wpi_page_mut d tx r i :
  reads d0 d -> caches_ok tx -> in_range r i ->
  wpi (page_mut r i) (d, tx)
    (fun _ s => reads d0 (fst s) /\ caches_ok (snd s) /\ quiet tx (snd s) /\ ta_pages (snd s) !! (r, i) = Some (now tx r i))
    (fun e s => reads d0 (fst s) /\ only_io e).
Proof.
  intros Hr Hc [Hreg Hi]. unfold page_mut. apply wpi_bind, wpi_get. cbn [snd]. destruct (ta_pages tx !! (r, i)) as [p|] eqn:Hp.
  { apply wpi_ret. rewrite (now_resident _ _ _ _ Hp). done. }
  apply wpi_bind. eapply wpi_mono; [by apply wpi_ensure_descriptors| |]; cbn beta; [|done]. intros _ [d1 tx1] (Hr1 & Hc1 & Hq1 & Hx & Hps). cbn [fst snd] in *.
  apply wpi_bind, wpi_get. cbn [snd]. rewrite Hx, (ca_geo tx1 Hc1). apply wpi_bind, wpi_zoom. cbn [fst]. destruct Hvol as (_ & _ & Hin & _).
  destruct (committed_region geo _ _ _ _ Hin r Hreg) as (record & _ & _ & Hd & Hpages). specialize (Hpages i Hi).
  eapply wpi_mono; [by apply (wpi_load_bitmap_page geo d0 d1 r i record)| |]; cbn beta.
  2: { intros e d2 [Hr2 He]. split; [done|]. destruct He as [|He]; [done|]. by apply He in Hpages. }
  intros p d2 [Hr2 Hp2]. rewrite (page_in_unique _ _ _ _ _ _ _ Hp2 Hpages). apply wpi_modify. cbn [fst snd]. split; [done|].
  assert (now tx r i = cs_page c r i) as Hnow by (unfold now; by rewrite Hp). split; [|split; [split; [rewrite <- (proj1 Hq1); done|]|]].
  - destruct Hc1. split; fields; try done.
    + intros y j q. rewrite lookup_insert_Some. intros [[[= <- <-] <-]|[_ Hq]]; [|by eauto]. split; [done|]. split; [by apply (committed_fits geo _ _ _ _ Hin)|]. by rewrite Hx.
    + intros y j Hy. destruct (ca_dirty0 y j Hy) as [? ?]. split; [|done]. apply lookup_insert_is_Some'. by right.
  - intros y j Hyj. rewrite <- (proj2 Hq1 y j Hyj). unfold now. fields. rewrite Hps. destruct (decide ((y, j) = (r, i))) as [[= -> ->]|Hne].
    + by rewrite lookup_insert_eq, Hp.
    + by rewrite lookup_insert_ne.
  - fields. by rewrite lookup_insert_eq, Hnow.
Qed.

(** Dropping a page that is not dirty. *)
Lemma evict_ok key tx : caches_ok tx -> caches_ok (evict key tx) /\ quiet tx (evict key tx).
Proof.
  intros Hc. unfold evict. case_bool_decide as Hk; [done|]. split.
  - destruct Hc. split; fields; try done.
    + intros r i p. rewrite lookup_delete_Some. intros [_ Hp]. by eauto.
    + intros r i Hd. destruct (ca_dirty0 r i Hd) as [? ?]. split; [|done]. rewrite lookup_delete_ne; [done|]. intros ->. done.
  - split; [done|]. intros r i Hr. unfold now. fields. destruct (decide (key = (r, i))) as [->|Hne]; [|by rewrite lookup_delete_ne].
    rewrite lookup_delete_eq. destruct (ta_pages tx !! (r, i)) as [p|] eqn:Hp; [|done]. destruct (ca_pages tx Hc r i p Hp) as (_ & _ & _ & Hclean). cbn. symmetry. by apply Hclean.
Qed.

(** Whether block [x] of a region is marked. *)
Lemma wpi_page_is_allocated d tx r x :
  reads d0 d -> caches_ok tx -> 0 <= r < regions geo -> 0 <= x < valid geo r ->
  wpi (page_is_allocated r (x / BITMAP_PAGE_BLOCKS) (x mod BITMAP_PAGE_BLOCKS)) (d, tx)
    (fun b s => reads d0 (fst s) /\ caches_ok (snd s) /\ quiet tx (snd s) /\ b = mark (now tx) r x)
    (fun e s => reads d0 (fst s) /\ only_io e).
Proof.
  intros Hr Hc Hreg Hx. destruct (index_place geo r x Hreg Hx) as (Hi & _). unfold page_is_allocated, with_page. apply wpi_bind.
  eapply wpi_mono; [by apply wpi_page_mut| |]; cbn beta; [|done]. intros _ [d1 tx1] (Hr1 & Hc1 & Hq1 & Hp). cbn [fst snd] in *.
  apply wpi_bind, wpi_get. cbn [snd]. rewrite Hp. rewrite (mark_is_allocated geo (now tx)) by (done || by apply now_all_fit). cbn [of_format obind].
  apply wpi_bind, wpi_lift, wp_ok, wpi_bind, wpi_modify, wpi_ret. cbn [fst snd]. rewrite insert_id by done.
  replace (set_pages (ta_pages tx1) tx1) with tx1 by by destruct tx1. done.
Qed.

(** Changing the mark of one block, with the page made dirty. *)
Definition remark (tx tx' : TxAllocator) (r x : Z) (b : bool) : Prop :=
  accounts tx' = accounts (mark_dirty r (x / BITMAP_PAGE_BLOCKS) tx) /\
  forall r' x', 0 <= r' < regions geo -> 0 <= x' < valid geo r' -> mark (now tx') r' x' = if decide (r' = r /\ x' = x) then b else mark (now tx) r' x'.

Lemma wpi_page_set_allocated d tx r x b :
  reads d0 d -> caches_ok tx -> 0 <= r < regions geo -> 0 <= x < valid geo r ->
  wpi (page_set_allocated r (x / BITMAP_PAGE_BLOCKS) (x mod BITMAP_PAGE_BLOCKS) b) (d, tx)
    (fun changed s => reads d0 (fst s) /\ changed = negb (Bool.eqb (mark (now tx) r x) b) /\
       caches_ok (mark_dirty r (x / BITMAP_PAGE_BLOCKS) (snd s)) /\ remark tx (mark_dirty r (x / BITMAP_PAGE_BLOCKS) (snd s)) r x b /\ accounts (snd s) = accounts tx)
    (fun e s => reads d0 (fst s) /\ only_io e).
Proof.
  intros Hr Hc Hreg Hx. destruct (index_place geo r x Hreg Hx) as (Hi & Hk & _). set (i := x / BITMAP_PAGE_BLOCKS) in *. set (k := x mod BITMAP_PAGE_BLOCKS) in *.
  unfold page_set_allocated, with_page. apply wpi_bind. eapply wpi_mono; [by apply wpi_page_mut| |]; cbn beta; [|done].
  intros _ [d1 tx1] (Hr1 & Hc1 & Hq1 & Hp). cbn [fst snd] in *. apply wpi_bind, wpi_get. cbn [snd]. rewrite Hp.
  destruct (now_fits tx r i Hc ltac:(done)) as (Hwf & Hpr & Hpi & Hpf & Hpv). destruct (set_allocated_bits (now tx r i) k b Hwf ltac:(lia)) as (bits & -> & Hz & Hb).
  cbn [of_format obind]. apply wpi_bind, wpi_lift, wp_ok, wpi_bind, wpi_modify, wpi_ret. cbn [fst snd].
  destruct (with_bits_wf (now tx r i) bits k b Hwf ltac:(lia) Hz Hb) as [Hwf' _]. split; [done|]. split; [done|]. split; [|split; [split|]].
  - destruct Hc1. unfold mark_dirty, set_dirty. split; fields; try done.
    + intros y j q. rewrite lookup_insert_Some. intros [[[= <- <-] <-]|[Hne Hq]].
      * split; [done|]. split; [done|]. split; [by apply (ca_pages0 r i _ Hp)|]. set_solver.
      * destruct (ca_pages0 y j q Hq) as (? & ? & ? & Hclean). split; [done|]. split; [done|]. split; [done|]. intros Hn. apply Hclean. set_solver.
    + intros y j. rewrite elem_of_union, elem_of_singleton. intros [[= -> ->]|Hy].
      * rewrite lookup_insert_eq. split; [done|set_solver].
      * destruct (ca_dirty0 y j Hy). split; [apply lookup_insert_is_Some'; by right|set_solver].
    + intros y. rewrite elem_of_union, elem_of_singleton. intros [->|Hy]; [exists i; set_solver|]. destruct (ca_regions0 y Hy) as [j Hj]. exists j. set_solver.
  - destruct Hq1 as [Ha _]. destruct (accounts_split _ _ Ha) as (Hl & Hdp & Hdr). unfold accounts. unfold mark_dirty, set_dirty in *. fields. rewrite Hdp, Hdr. apply (f_equal2 pair); [exact Hl|done].
  - intros r' x' Hr' Hx'. destruct (index_place geo r' x' Hr' Hx') as (Hi' & _ & Hx2). destruct (index_place geo r x Hreg Hx) as (_ & _ & Hx1). fold i k in Hx1. unfold mark, now at 1. unfold mark_dirty, set_dirty. fields.
    destruct (decide ((r', x' / BITMAP_PAGE_BLOCKS) = (r, i))) as [[= -> He]|Hne].
    + rewrite He, lookup_insert_eq. cbn. assert (0 <= x' mod BITMAP_PAGE_BLOCKS) by (apply Z.mod_pos_bound; by vm_compute). rewrite Hb by done.
      case_decide as Hd; [destruct Hd as [_ ->]; by rewrite Z.eqb_refl|]. destruct (_ =? k) eqn:E; [|done]. exfalso. apply Hd. split; [done|]. apply Z.eqb_eq in E. rewrite Hx1, Hx2, He, E. done.
    + rewrite lookup_insert_ne by done. rewrite decide_False by (intros [-> ->]; done). unfold mark. fold (now tx1 r' (x' / BITMAP_PAGE_BLOCKS)). by rewrite (proj2 Hq1).
  - exact (proj1 Hq1).
Qed.
End Reading.
End Tx.
