(* ===== verification/AllocScan.v ===== *)
(** * The search for free runs (crates/afsplus-core/src/alloc.rs: scan_region)

    The search finds the first run of free blocks of the wanted length, or
    shows that there is none, and ends. *)

From S2P Require Import Prelude Crc32c Format Header Codec TreeNode Geometry Bitmap Region Checkpoint Device Core Tree TreeSpec TreeReaders TreeVerify.
From S2P Require Import CowTree CowStore AllocRoot AllocRootSpec Reclaim RunSet Alloc AllocSpec AllocTx.

(** ** Runs of a bitmap *)

Section Runs.
Context (f : Z -> bool) (begin len : Z).

(** No run of [len] free blocks lies in [[begin, x)]. *)
Definition no_run (x : Z) : Prop := forall y, begin <= y -> y + len <= x -> exists z, y <= z < y + len /\ f z = true.

Definition free_run (start : Z) : Prop := forall z, start <= z < start + len -> f z = false.

(** The first free run, below [until]. *)
Definition first_run (until start : Z) : Prop := begin <= start /\ start + len <= until /\ free_run start /\ no_run (start + len - 1).

(** The search before block [x]: the free blocks just before it are counted. *)
Record scanned (x : Z) (s : Scan) : Prop := {
  sc_found : sn_found s = None;
  sc_len : 0 <= sn_run_len s < len;
  sc_begin : begin <= x - sn_run_len s;
  sc_start : 0 < sn_run_len s -> sn_run_start s = x - sn_run_len s;
  sc_free z : x - sn_run_len s <= z < x -> f z = false;
  sc_maximal : begin < x - sn_run_len s -> f (x - sn_run_len s - 1) = true;
  sc_none : no_run x;
}.

Lemma scanned_initial examined x : 0 < len -> begin <= x -> x <= begin -> scanned x {| sn_run_start := 0; sn_run_len := 0; sn_found := None; sn_examined := examined |}.
Proof. intros Hl H1 H2. split; cbn; try lia; try done. intros y Hy Hyl. lia. Qed.

Lemma scanned_marked n x s start examined :
  0 < n -> scanned x s -> (forall z, x <= z < x + n -> f z = true) ->
  scanned (x + n) {| sn_run_start := start; sn_run_len := 0; sn_found := None; sn_examined := examined |}.
Proof.
  intros Hn [? ? ? ? ? ? Hno] Hm. split; cbn; try lia; try done.
  - intros _. apply Hm. lia.
  - intros y Hy Hyl. destruct (decide (y + len <= x)) as [|Hgt]; [by apply Hno|]. exists (Z.max x y). split; [lia|]. apply Hm. lia.
Qed.

(** One more free block. *)
Lemma scanned_free x s :
  scanned x s -> f x = false ->
  let start := if sn_run_len s =? 0 then x else sn_run_start s in
  (sn_run_len s + 1 = len -> first_run (x + 1) start) /\
  (sn_run_len s + 1 <> len -> forall examined, scanned (x + 1) {| sn_run_start := start; sn_run_len := sn_run_len s + 1; sn_found := None; sn_examined := examined |}).
Proof.
  intros [Hf Hl Hb Hs Hfree Hmax Hno] Hx. assert ((if sn_run_len s =? 0 then x else sn_run_start s) = x - sn_run_len s) as Hst.
  { destruct (sn_run_len s =? 0) eqn:E; [lia|]. apply Hs. lia. }
  cbn zeta. rewrite Hst. split.
  - intros Heq. split; [lia|]. split; [lia|]. split; [|by replace (x - sn_run_len s + len - 1) with x by lia]. intros z Hz. destruct (decide (z = x)) as [->|]; [done|]. apply Hfree. lia.
  - intros Hne examined. split; cbn; try lia.
    + done.
    + intros z Hz. destruct (decide (z = x)) as [->|]; [done|]. apply Hfree. lia.
    + intros H. replace (x + 1 - (sn_run_len s + 1) - 1) with (x - sn_run_len s - 1) by lia. apply Hmax. lia.
    + intros y Hy Hyl. destruct (decide (y + len <= x)) as [|Hgt]; [by apply Hno|]. exists (x - sn_run_len s - 1). split; [lia|]. apply Hmax. lia.
Qed.

Lemma first_run_until until until' start : until <= until' -> first_run until start -> first_run until' start.
Proof. intros Hle (? & ? & ? & ?). split; [done|]. split; [lia|done]. Qed.
End Runs.

(** ** One page *)

Lemma full_byte (bits : bytes) k : 0 <= k -> k mod 8 = 0 -> byte.unsigned (nth (Z.to_nat (k / 8)) bits Byte.x00) = 255 -> forall j, k <= j < k + 8 -> bit_at bits j = true.
Proof.
  intros H0 Hm Hb j Hj. unfold bit_at. pose proof (Z.div_mod k 8 ltac:(lia)).
  assert (j / 8 = k / 8) as -> by (symmetry; apply Z.div_unique with (j - k); lia). rewrite Hb. change 255 with (Z.ones 8). apply Z.ones_spec_low.
  pose proof (Z.mod_pos_bound j 8). lia.
Qed.

Lemma scan_page_spec page first_block begin len stop fuel : forall local_index s,
  BitmapPage_wf page -> 0 < len -> 0 <= first_block -> first_block + stop < 2 ^ 32 -> stop <= bp_valid_blocks page -> 0 <= local_index -> stop - local_index <= Z.of_nat fuel ->
  let f := fun x => bit_at (bp_bits page) (x - first_block) in
  forall g, (forall x, first_block <= x < first_block + stop -> g x = f x) -> scanned g begin len (first_block + local_index) s ->
  wp (scan_page fuel page first_block len stop local_index s)
    (fun s' => sn_examined s <= sn_examined s' <= sn_examined s + Z.max 0 (stop - local_index) /\
       match sn_found s' with
       | Some start => first_run g begin len (first_block + stop) start
       | None => scanned g begin len (first_block + Z.max local_index stop) s'
       end) no_error.
Proof.
  induction fuel as [|fuel IH]; intros k s Hwf Hlen H0 Hmax Hstop Hk Hfuel f g Hg Hs; cbn [scan_page].
  { replace (stop <=? k) with true by lia. apply wp_ok. rewrite (sc_found _ _ _ _ _ Hs). replace (Z.max k stop) with k by lia. split; [lia|done]. }
  destruct (stop <=? k) eqn:Hend. { apply wp_ok. rewrite (sc_found _ _ _ _ _ Hs). replace (Z.max k stop) with k by lia. split; [lia|done]. }
  pose proof Hwf as (Hv & Hz & _). pose proof (div_ceil_8 (bp_valid_blocks page)).
  apply wp_bind. eapply (wp_mono _ (fun full : bool => full = true -> 8 <= stop - k /\ forall j, k <= j < k + 8 -> bit_at (bp_bits page) j = true) _ no_error); [|intros full Hfull|done].
  { apply wp_if; [intros Hc|intros _; by apply wp_ok]. apply andb_true_iff in Hc as [Hm H8]. apply wp_bind, wp_index; [apply byte_index_range; lia|]. apply wp_ok.
    intros Hb. split; [lia|]. apply full_byte; lia. }
  apply wp_if; intros Hc.
  - destruct (Hfull Hc) as [H8 Hbits]. eapply wp_mono; [apply (IH (k + 8)) with (g := g); [done|done|done|done|done|lia|lia|done|]| |done]; cbn beta.
    + rewrite Z.add_assoc. eapply scanned_marked; [lia|exact Hs|]. intros z Hz'. rewrite Hg by lia. apply Hbits. lia.
    + cbn [sn_examined]. intros s' [He Hs']. split; [lia|]. destruct (sn_found s'); [done|]. by replace (Z.max k stop) with (Z.max (k + 8) stop) by lia.
  - clear Hfull. rewrite bit_is_allocated by (done || lia). cbn [of_format obind]. assert (g (first_block + k) = bit_at (bp_bits page) k) as Hgk.
    { rewrite Hg by lia. unfold f. f_equal. lia. }
    rewrite <- Hgk. destruct (g (first_block + k)) eqn:Hbit.
    + eapply wp_mono; [apply (IH (k + 1)) with (g := g); [done|done|done|done|done|lia|lia|done|]| |done]; cbn beta.
      * rewrite Z.add_assoc. eapply scanned_marked; [lia|exact Hs|]. intros z Hz'. by replace z with (first_block + k) by lia.
      * cbn [sn_examined]. intros s' [He Hs']. split; [lia|]. destruct (sn_found s'); [done|]. by replace (Z.max k stop) with (Z.max (k + 1) stop) by lia.
    + destruct (scanned_free g begin len (first_block + k) s Hs Hbit) as [Hhit Hmiss]. cbn zeta in Hhit, Hmiss.
      apply wp_bind. eapply (wp_mono _ (fun start => start = if sn_run_len s =? 0 then first_block + k else sn_run_start s) _ no_error); [|intros start ->|done].
      { apply wp_if; intros E; rewrite E; [apply wp_add_w; [lia|done]|by apply wp_ok]. }
      apply wp_if; intros Hl.
      * apply wp_ok. cbn [sn_found sn_examined]. split; [lia|]. eapply first_run_until; [|apply Hhit; lia]. lia.
      * eapply wp_mono; [apply (IH (k + 1)) with (g := g); [done|done|done|done|done|lia|lia|done|]| |done]; cbn beta.
        -- rewrite Z.add_assoc. apply Hmiss. lia.
        -- cbn [sn_examined]. intros s' [He Hs']. split; [lia|]. destruct (sn_found s'); [done|]. by replace (Z.max k stop) with (Z.max (k + 1) stop) by lia.
Qed.

(** ** One region *)

Section Region.
Context {D : Type} {device : BlockDevice Decoded D} {contract : DeviceContract Decoded D core_decodes}.
Context (geo : Geometry) {WF : WfGeometry geo}.
Context (current : Checkpoint) (other : option Checkpoint) (c : Committed) (nodes : list (Z * TreeNode)) (oc : Committed) (onodes : list (Z * TreeNode)).
Context (d0 : D) (Hvol : volume_ok geo current other c nodes oc onodes d0).

Abbreviation caches := (caches_ok geo current other c oc).
Abbreviation still := (quiet geo c).
Abbreviation page_now := (now c).

Lemma quiet_mark tx tx' r x : still tx tx' -> 0 <= r < regions geo -> 0 <= x < valid geo r -> mark (page_now tx') r x = mark (page_now tx) r x.
Proof. intros [_ H] Hr Hx. unfold mark. rewrite H; [done|]. destruct (index_place geo r x Hr Hx) as (? & _). done. Qed.

Lemma wpi_scan_one d tx0 tx r len begin until i s :
  reads d0 d -> caches tx -> still tx0 tx -> 0 <= r < regions geo -> 0 < len -> 0 <= begin < until -> until <= valid geo r ->
  begin / BITMAP_PAGE_BLOCKS <= i <= (until - 1) / BITMAP_PAGE_BLOCKS ->
  scanned (mark (page_now tx0) r) begin len (Z.max begin (i * BITMAP_PAGE_BLOCKS)) s ->
  wpi (scan_one r len begin until i s) (d, tx)
    (fun s' st => reads d0 (fst st) /\ caches (snd st) /\ still tx0 (snd st) /\ sn_examined s <= sn_examined s' /\
       match sn_found s' with
       | Some start => first_run (mark (page_now tx0) r) begin len until start
       | None => scanned (mark (page_now tx0) r) begin len (Z.min until ((i + 1) * BITMAP_PAGE_BLOCKS)) s'
       end)
    (fun e st => reads d0 (fst st) /\ only_io e).
Proof.
  intros Hr Hc Hq Hreg Hlen Hbu Huv Hi Hs. pose proof (wf_valid_bounds geo r Hreg) as Hv. pose proof (wf_region (g := geo)) as Hrs.
  assert (0 <= i < pages geo r) as Hir.
  { unfold pages. change BITMAP_PAGE_BLOCKS with 32384 in *. pose proof (div_ceil_bounds (valid geo r) 32384 ltac:(lia) ltac:(lia)).
    pose proof (Z.div_mod (until - 1) 32384 ltac:(lia)). pose proof (Z.mod_pos_bound (until - 1) 32384 ltac:(lia)). pose proof (Z.div_pos begin 32384). lia. }
  assert (i * 32384 <= until - 1 /\ begin < (i + 1) * 32384) as [Hi1 Hi2].
  { change BITMAP_PAGE_BLOCKS with 32384 in *. pose proof (Z.div_mod (until - 1) 32384 ltac:(lia)). pose proof (Z.mod_pos_bound (until - 1) 32384 ltac:(lia)).
    pose proof (Z.div_mod begin 32384 ltac:(lia)). pose proof (Z.mod_pos_bound begin 32384 ltac:(lia)). lia. }
  unfold scan_one. apply wpi_bind, wpi_lift, wp_mul_w; [change BITMAP_PAGE_BLOCKS with 32384; lia|]. apply wpi_bind.
  eapply wpi_mono; [by apply (wpi_page_mut geo current other c nodes oc onodes d0)| |]; cbn beta; [|done].
  intros _ [d1 tx1] (Hr1 & Hc1 & Hq1 & Hp). cbn [fst snd] in *. apply wpi_bind, wpi_get. cbn [snd]. rewrite Hp.
  assert (page_now tx r i = page_now tx0 r i) as Hnow by (by apply (proj2 Hq)). rewrite Hnow.
  assert (page_fits geo r i (page_now tx0 r i)) as (Hwf & _ & _ & _ & Hpv) by (rewrite <- Hnow; by eapply now_fits).
  apply wpi_bind, wpi_lift, wp_sub_w; [change BITMAP_PAGE_BLOCKS with 32384; lia|]. rewrite Hpv.
  change BITMAP_PAGE_BLOCKS with 32384 in *. assert (page_valid geo r i = Z.min (valid geo r - i * 32384) 32384) as Hpv2 by (unfold page_valid; change BITMAP_PAGE_BLOCKS with 32384; lia).
  set (stop := Z.min (until - i * 32384) (page_valid geo r i)). assert (stop = Z.min (until - i * 32384) 32384) as Hst by (subst stop; lia).
  assert (saturating_sub begin (i * 32384) = Z.max 0 (begin - i * 32384)) as -> by (unfold saturating_sub; lia).
  apply wpi_bind, wpi_lift. eapply wp_mono; [apply (scan_page_spec (page_now tx0 r i) (i * 32384) begin len stop) with (g := mark (page_now tx0) r)| |done]; cbn beta.
  1-7: lia || done.
  - intros x Hx. unfold mark. change BITMAP_PAGE_BLOCKS with 32384. assert (x / 32384 = i) as -> by (symmetry; apply Z.div_unique with (x - i * 32384); lia).
    f_equal. symmetry. apply Z.mod_unique with i; lia.
  - by replace (i * 32384 + Z.max 0 (begin - i * 32384)) with (Z.max begin (i * 32384)) by lia.
  - intros s' [He Hs']. apply wpi_bind, wpi_modify, wpi_ret. cbn [fst snd]. destruct (evict_ok geo current other c oc (r, i) tx1 Hc1) as [Hc2 Hq2].
    split; [done|]. split; [done|]. split; [by eapply quiet_trans; [exact Hq|eapply quiet_trans]|]. split; [lia|]. destruct (sn_found s').
    + eapply first_run_until; [|exact Hs']. lia.
    + by replace (Z.min until ((i + 1) * 32384)) with (i * 32384 + Z.max (Z.max 0 (begin - i * 32384)) stop) by lia.
Qed.

Lemma wpi_scan_pages tx0 r len begin until n : forall d tx i s,
  reads d0 d -> caches tx -> still tx0 tx -> 0 <= r < regions geo -> 0 < len -> 0 <= begin < until -> until <= valid geo r ->
  begin / BITMAP_PAGE_BLOCKS <= i -> i + Z.of_nat n = (until - 1) / BITMAP_PAGE_BLOCKS + 1 ->
  scanned (mark (page_now tx0) r) begin len (Z.min until (Z.max begin (i * BITMAP_PAGE_BLOCKS))) s ->
  wpi (scan_pages r len begin until (seqZ i (Z.of_nat n)) s) (d, tx)
    (fun s' st => reads d0 (fst st) /\ caches (snd st) /\ still tx0 (snd st) /\ sn_examined s <= sn_examined s' /\
       match sn_found s' with
       | Some start => first_run (mark (page_now tx0) r) begin len until start
       | None => no_run (mark (page_now tx0) r) begin len until
       end)
    (fun e st => reads d0 (fst st) /\ only_io e).
Proof.
  assert (0 < 32384) as Hpos by lia.
  induction n as [|n IH]; intros d tx i s Hr Hc Hq Hreg Hlen Hbu Huv Hi Hn Hs.
  - cbn. apply wpi_ret. split; [done|]. split; [done|]. split; [done|]. split; [lia|]. rewrite (sc_found _ _ _ _ _ Hs). pose proof (sc_none _ _ _ _ _ Hs) as Hno.
    change BITMAP_PAGE_BLOCKS with 32384 in *. pose proof (Z.div_mod (until - 1) 32384 ltac:(lia)). pose proof (Z.mod_pos_bound (until - 1) 32384 ltac:(lia)).
    by replace (Z.min until (Z.max begin (i * 32384))) with until in Hno by lia.
  - rewrite seqZ_S. cbn [scan_pages]. apply wpi_bind.
    assert (i * BITMAP_PAGE_BLOCKS <= until - 1) as Hil.
    { change BITMAP_PAGE_BLOCKS with 32384 in *. pose proof (Z.div_mod (until - 1) 32384 ltac:(lia)). pose proof (Z.mod_pos_bound (until - 1) 32384 ltac:(lia)). lia. }
    rewrite Z.min_r in Hs by lia. eapply wpi_mono; [apply (wpi_scan_one d tx0 tx r len begin until i s); try done; lia| |]; cbn beta; [|done].
    intros s' [d1 tx1] (Hr1 & Hc1 & Hq1 & He & Hs'). cbn [fst snd] in *. destruct (sn_found s') as [start|] eqn:Hf.
    + apply wpi_ret. rewrite Hf. cbn [fst snd]. split; [done|]. split; [done|]. split; [done|]. split; [lia|done].
    + eapply wpi_mono; [apply IH; try done; try lia| |]; cbn beta.
      * assert (begin < (i + 1) * BITMAP_PAGE_BLOCKS) as Hb.
        { change BITMAP_PAGE_BLOCKS with 32384 in *. pose proof (Z.div_mod begin 32384 ltac:(lia)). pose proof (Z.mod_pos_bound begin 32384 ltac:(lia)). lia. }
        by rewrite (Z.max_r begin) by lia.
      * intros s2 [d2 tx2] (? & ? & ? & ? & ?). split; [done|]. split; [done|]. split; [done|]. split; [lia|done].
      * done.
Qed.

(** The search of a region: the first free run between the reserved head and [until]. *)
Lemma wpi_scan_region d tx r len from until examined :
  reads d0 d -> caches tx -> 0 <= r < regions geo -> 0 < len < 2 ^ 32 -> 0 <= from -> until <= valid geo r ->
  wpi (scan_region r len from until examined) (d, tx)
    (fun '(found, e) st => reads d0 (fst st) /\ caches (snd st) /\ still tx (snd st) /\ examined <= e /\
       match found with
       | Some start => first_run (mark (page_now tx) r) (Z.max from (head geo r)) len until start
       | None => no_run (mark (page_now tx) r) (Z.max from (head geo r)) len until
       end)
    (fun e st => reads d0 (fst st) /\ only_io e).
Proof.
  intros Hr Hc Hreg Hlen Hfrom Huv. pose proof (wf_head_bounds geo r Hreg) as Hh. pose proof (wf_valid_bounds geo r Hreg) as Hv.
  unfold scan_region. apply wpi_bind, wpi_get. cbn [snd]. rewrite (ca_geo _ _ _ _ _ _ Hc). apply wpi_bind, wpi_lift.
  assert (reserved_head geo r = Ok (head geo r)) as ->.
  { unfold reserved_head. destruct (r =? 0) eqn:E.
    - apply Z.eqb_eq in E as ->. rewrite region0_reserved_eq by done. cbn. rewrite as_u32_small by (unfold u32; lia). done.
    - rewrite wf_reserved_blocks_eq by done. cbn. unfold head, boot in *. rewrite E in *. rewrite as_u32_small by (unfold u32; lia). f_equal. lia. }
  apply wp_ok. set (begin := Z.max from (head geo r)) in *. apply wpi_if; intros Hend.
  { apply wpi_ret. split; [done|]. split; [done|]. split; [done|]. split; [lia|]. intros y Hy Hyl. lia. }
  cbn zeta. set (first := begin / BITMAP_PAGE_BLOCKS). set (last := (until - 1) / BITMAP_PAGE_BLOCKS).
  assert (first <= last) as Hfl by (apply Z.div_le_mono; [by vm_compute|lia]). rewrite <- (Z2Nat.id (last - first + 1)) by lia. apply wpi_bind.
  eapply wpi_mono; [apply (wpi_scan_pages tx r len begin until); try done; try lia| |]; cbn beta; [| |done].
  { replace (Z.min until _) with begin; [apply scanned_initial; lia|]. subst first. change BITMAP_PAGE_BLOCKS with 32384 in *.
    pose proof (Z.div_mod begin 32384 ltac:(lia)). pose proof (Z.mod_pos_bound begin 32384 ltac:(lia)). lia. }
  intros s' [d1 tx1] (Hr1 & Hc1 & Hq1 & He & Hs'). cbn [fst snd] in *. destruct (sn_found s') as [start|] eqn:Hf.
  2: { apply wpi_ret. split; [done|]. split; [done|]. split; [done|]. split; [cbn in He; lia|done]. }
  pose proof Hs' as (Hb & Hu & _). destruct (lba_of_index geo r start Hreg ltac:(lia)) as (Hq & Hm & Ht). destruct (lba_of_index geo r (start + (len - 1)) Hreg ltac:(lia)) as (Hq' & Hm' & Ht').
  pose proof (wf_total (g := geo)). apply wpi_bind, wpi_lift, wp_add_w; [unfold region_base; lia|]. rewrite (is_allocatable_eq geo) by (unfold region_base; lia).
  apply wpi_bind, wpi_lift, wp_ok, wpi_bind, wpi_lift, wp_add_w; [unfold region_base; lia|]. apply wpi_bind, wpi_lift, wp_sub_w; [unfold region_base; lia|].
  rewrite (is_allocatable_eq geo) by (unfold region_base; lia). apply wpi_bind, wpi_lift, wp_ok. unfold region_base.
  replace (r * region_size geo + start + len - 1) with (r * region_size geo + (start + (len - 1))) by lia. unfold allocatable. rewrite Hq, Hm, Hq', Hm'.
  apply wpi_if; intros Hall; [|exfalso; lia]. apply wpi_ret. split; [done|]. split; [done|]. split; [done|]. split; [cbn in He; lia|done].
Qed.
End Region.
