(* ===== verification/AllocOps.v ===== *)
(** * What the operations of a transaction do (crates/afsplus-core/src/alloc.rs)

    The blocks marked in a transaction are the committed ones that were not
    promoted, those the transaction allocated and those it quarantined.
    Every operation is specified by what it does to these sets. *)

From S2P Require Import Prelude Crc32c Format Header Codec TreeNode Geometry Bitmap Region Checkpoint Device Core Tree TreeSpec TreeReaders TreeVerify.
From S2P Require Import CowTree CowStore AllocRoot AllocRootSpec ReclaimCodec Reclaim ReclaimQueue RunSet Alloc AllocSpec AllocTx AllocScan.

Section Ops.
Context {D : Type} {device : BlockDevice Decoded D} {contract : DeviceContract Decoded D core_decodes}.
Context (geo : Geometry) {WF : WfGeometry geo}.
Context (current : Checkpoint) (other : option Checkpoint) (c : Committed) (nodes : list (Z * TreeNode)) (oc : Committed) (onodes : list (Z * TreeNode)).
(** The blocks promoted when the transaction began. *)
Context (promoted : gset Z).

Abbreviation caches := (caches_ok geo current other c oc).
Abbreviation still := (quiet geo c).
Abbreviation page_now := (now c).

(** The blocks marked now. *)
Definition marks (tx : TxAllocator) : gset Z := marked_set geo (now c tx).

Definition base : gset Z := marked_set geo (cs_page c) ∖ promoted.
Definition mine (tx : TxAllocator) : gset Z := blocks_of (ta_allocated_this_tx tx).
Definition gone (tx : TxAllocator) : gset Z := blocks_of (ta_retired_this_tx tx).

Definition snapshot_ok (tx : TxAllocator) : Prop :=
  match ta_snapshot tx with
  | Some s => run_set_ok (sa_allocations s) /\ run_set_ok (sa_retirements s) /\ blocks_of (sa_allocations s) ⊆ mine tx /\ blocks_of (sa_retirements s) ⊆ gone tx
  | None => True
  end.

(** Blocks allocated and not released. *)
Definition live (tx : TxAllocator) : Z := alloc_count tx blocks_allocated - alloc_count tx blocks_released.
Definition supply (tx : TxAllocator) : Z := ta_current_free_blocks_total tx + alloc_count tx blocks_promoted.

(** What opening fixes for the whole transaction. *)
Definition constants (tx : TxAllocator) := (ta_current_free_blocks_total tx, ta_new_generation tx, alloc_count tx blocks_promoted).

Lemma constants_supply tx tx' : constants tx' = constants tx -> supply tx' = supply tx.
Proof. unfold constants, supply. intros [= -> _ ->]. done. Qed.

Record tx_inv (tx : TxAllocator) : Prop := {
  ti_caches : caches tx;
  ti_mine_ok : run_set_ok (ta_allocated_this_tx tx);
  ti_gone_ok : run_set_ok (ta_retired_this_tx tx);
  ti_allocatable lba : lba ∈ mine tx ∪ gone tx -> 0 <= lba /\ allocatable geo lba = true;
  ti_fresh : mine tx ## base ∪ gone tx;
  ti_marks : marks tx = base ∪ mine tx ∪ gone tx;
  ti_rover : 0 <= ta_rover_region tx < regions geo /\ 0 <= ta_rover_index tx;
  ti_snapshot : snapshot_ok tx;
  ti_live : 0 <= alloc_count tx blocks_released /\ Z.of_nat (size (mine tx)) <= live tx;
  ti_supply : 0 <= supply tx < 2 ^ 64;
  ti_free : free_total geo (page_now tx) = supply tx - live tx;
  ti_begun : ta_current_free_blocks_total tx = free_total geo (cs_page c) /\ cp_generation current < ta_new_generation tx /\ u64 (ta_new_generation tx);
}.

Lemma begun_constants tx tx' : tx_inv tx -> constants tx' = constants tx ->
  ta_current_free_blocks_total tx' = free_total geo (cs_page c) /\ cp_generation current < ta_new_generation tx' /\ u64 (ta_new_generation tx').
Proof. intros Hinv. unfold constants. intros [= -> -> _]. apply Hinv. Qed.

(** The count the floor is compared with is the number of unmarked blocks. *)
Lemma free_blocks_remaining_eq tx : tx_inv tx -> free_blocks_remaining tx = free_total geo (page_now tx).
Proof.
  intros [? ? ? ? ? ? ? ? [H0 Hlive] Hsup Hfree ?]. pose proof (count_nonneg (fun lba => negb (marked geo (page_now tx) lba)) 0 (total_blocks geo)) as Hn.
  unfold free_total in *. unfold free_blocks_remaining, saturating_add, saturating_sub, supply, live in *. lia.
Qed.

Lemma ledger_fields tx tx' : ledger tx' = ledger tx ->
  ta_allocated_this_tx tx' = ta_allocated_this_tx tx /\ ta_retired_this_tx tx' = ta_retired_this_tx tx /\ ta_snapshot tx' = ta_snapshot tx /\
  ta_rover_region tx' = ta_rover_region tx /\ ta_rover_index tx' = ta_rover_index tx /\ ta_free_block_floor tx' = ta_free_block_floor tx /\
  ta_reclaim tx' = ta_reclaim tx /\ ta_new_generation tx' = ta_new_generation tx /\ constants tx' = constants tx /\ live tx' = live tx /\ alloc_count tx' blocks_released = alloc_count tx blocks_released.
Proof. unfold ledger, constants, live. intros [= -> -> -> -> -> -> -> -> -> -> -> ->]. done. Qed.

Lemma quiet_marks tx tx' : still tx tx' -> marks tx' = marks tx.
Proof.
  intros [_ H]. apply set_eq. intros lba. unfold marks. rewrite !elem_of_marked_set. destruct (decide (0 <= lba < total_blocks geo)) as [Hl|Hl]; [|tauto].
  destruct (lba_region geo lba Hl) as (Hr & _ & Hx). unfold marked, mark. destruct (index_place geo _ _ Hr Hx) as (Hi & _). by rewrite H.
Qed.

(** Loading and dropping pages keeps the invariant. *)
Lemma quiet_inv tx tx' : tx_inv tx -> caches tx' -> still tx tx' -> tx_inv tx'.
Proof.
  intros Hinv Hc Hq. destruct (accounts_split _ _ (proj1 Hq)) as [Hl _]. apply ledger_fields in Hl as (Ha & Hb & Hs & Hr & Hi & _ & _ & _ & Hcon & Hlive & Hrel).
  pose proof (begun_constants _ _ Hinv Hcon). pose proof (constants_supply _ _ Hcon) as Hsup. destruct Hinv as [? ? ? ? ? ? ? Hsn ? ? Hfree ?].
  pose proof (wf_total (g := geo)). assert (mine tx' = mine tx) as Hm by (unfold mine; by rewrite Ha). assert (gone tx' = gone tx) as Hg by (unfold gone; by rewrite Hb).
  split; unfold snapshot_ok in *; rewrite ?Hm, ?Hg, ?Ha, ?Hb, ?Hs, ?Hr, ?Hi, ?Hsup, ?Hlive, ?Hrel, ?(quiet_marks tx tx' Hq); try done.
  rewrite free_total_size in Hfree |- * by lia. fold (marks tx) in Hfree. fold (marks tx'). by rewrite (quiet_marks tx tx' Hq).
Qed.

Section Reading.
Context (d0 : D) (Hvol : volume_ok geo current other c nodes oc onodes d0).

(** Marking the blocks of a run. *)
Lemma wpi_claim_run r n : forall d tx start,
  reads d0 d -> caches tx -> 0 <= r < regions geo -> 0 <= start -> start + Z.of_nat n <= valid geo r ->
  wpi (ieach (claim_index r) (seqZ start (Z.of_nat n))) (d, tx)
    (fun _ s => reads d0 (fst s) /\ caches (snd s) /\ ledger (snd s) = ledger tx /\
       marks (snd s) = run_blocks (r * region_size geo + start) (r * region_size geo + start + Z.of_nat n) ∪ marks tx)
    (fun e s => reads d0 (fst s) /\ only_io e).
Proof.
  induction n as [|n IH]; intros d tx start Hr Hc Hreg H0 Hn.
  - cbn. apply wpi_ret. split; [done|]. split; [done|]. split; [done|]. apply set_eq. intros x. rewrite elem_of_union, elem_of_run_blocks. cbn. intuition lia.
  - rewrite seqZ_S. cbn [ieach]. apply wpi_bind. unfold claim_index at 1, bitmap_page_for_index. apply wpi_bind.
    eapply wpi_mono; [apply (wpi_page_set_allocated geo current other c nodes oc onodes d0 Hvol); [done|done|done|lia]| |]; cbn beta; [|done].
    intros _ [d1 tx1] (Hr1 & _ & Hc1 & [Hacc Hm] & _). cbn [fst snd] in *. apply wpi_modify. cbn [fst snd].
    eapply wpi_mono; [apply IH; [done|done|done|lia|lia]| |]; cbn beta; [|done]. intros _ [d2 tx2] (Hr2 & Hc2 & Hl & Hms). cbn [fst snd] in *.
    split; [done|]. split; [done|]. split; [rewrite Hl; by apply accounts_split in Hacc as [-> _]|]. rewrite Hms. unfold marks.
    rewrite (marked_set_update geo (page_now tx) _ r start true Hreg ltac:(lia) Hm). apply set_eq. intros x. rewrite !elem_of_union, elem_of_singleton, !elem_of_run_blocks. intuition lia.
Qed.

(** ** Taking blocks *)

Lemma size_run_blocks a b : a <= b -> Z.of_nat (size (run_blocks a b)) = b - a.
Proof. intros H. unfold run_blocks. rewrite size_list_to_set by apply NoDup_seqZ. rewrite length_seqZ. lia. Qed.

Lemma wpi_insert_allocated (d : D) tx first bound what :
  run_set_ok (ta_allocated_this_tx tx) -> first < bound -> mine tx ## run_blocks first bound ->
  wpi (insert_allocated first bound what) (d, tx)
    (fun _ s => exists runs, s = (d, set_allocated_runs runs tx) /\ run_set_ok runs /\ blocks_of runs = run_blocks first bound ∪ mine tx) (fun _ _ => False).
Proof.
  intros Hok Hlt Hdis. unfold insert_allocated, on_tx. apply wpi_bind, wpi_bind, wpi_get. cbn [snd]. apply wpi_lift.
  destruct (insert_spec (E := CoreError) (ta_allocated_this_tx tx) first bound Hok Hlt) as [(_ & runs & -> & Hok' & Hb & _)|[Hn _]]; [|done].
  apply wp_ok, wpi_bind, wpi_modify, wpi_ret. exists runs. done.
Qed.

(** The snapshot accounting after an allocation of the blocks [R]. *)
Definition tracked (R : gset Z) (s s' : option SnapshotAccounting) : Prop :=
  match s, s' with
  | None, None => True
  | Some s, Some s' => sa_phase s' = sa_phase s /\ sa_retirements s' = sa_retirements s /\ run_set_ok (sa_allocations s') /\ blocks_of (sa_allocations s') ⊆ R ∪ blocks_of (sa_allocations s)
  | _, _ => False
  end.

Lemma wpi_track_snapshot (d : D) tx first bound :
  match ta_snapshot tx with Some s => run_set_ok (sa_allocations s) /\ blocks_of (sa_allocations s) ## run_blocks first bound | None => True end -> first < bound ->
  wpi (track_snapshot_allocation first bound) (d, tx)
    (fun _ s => exists snapshot, s = (d, set_snapshot snapshot tx) /\ tracked (run_blocks first bound) (ta_snapshot tx) snapshot) (fun _ _ => False).
Proof.
  intros Hs Hlt. unfold track_snapshot_allocation. apply wpi_bind, wpi_get. cbn [snd]. destruct (ta_snapshot tx) as [s|] eqn:Es.
  - destruct Hs as [Hok Hdis]. apply wpi_if; intros Hp.
    + apply wpi_bind, wpi_lift. destruct (insert_spec (E := CoreError) (sa_allocations s) first bound Hok Hlt) as [(_ & runs & -> & Hok' & Hb & _)|[Hn _]]; [|done].
      apply wp_ok, wpi_bind, wpi_modify, wpi_ret. eexists. split; [reflexivity|]. cbn. rewrite Hb. done.
    + apply wpi_ret. exists (Some s). split; [rewrite <- Es; by destruct tx|]. cbn. split; [done|]. split; [done|]. split; [done|]. set_solver.
  - apply wpi_ret. exists None. split; [rewrite <- Es; by destruct tx|done].
Qed.

(** Taking free blocks keeps the invariant. *)
Lemma taken_inv tx tx' R :
  tx_inv tx -> caches tx' -> R ## marks tx -> (forall lba, lba ∈ R -> 0 <= lba /\ allocatable geo lba = true) ->
  marks tx' = R ∪ marks tx -> run_set_ok (ta_allocated_this_tx tx') -> mine tx' = R ∪ mine tx -> ta_retired_this_tx tx' = ta_retired_this_tx tx ->
  tracked R (ta_snapshot tx) (ta_snapshot tx') -> 0 <= ta_rover_region tx' < regions geo /\ 0 <= ta_rover_index tx' ->
  live tx' = live tx + Z.of_nat (size R) -> alloc_count tx' blocks_released = alloc_count tx blocks_released -> constants tx' = constants tx -> tx_inv tx'.
Proof.
  intros Hinv Hc Hdis HR Hm Hok Hmine Hret Htr Hrov Hlive Hrel Hcon. pose proof (wf_total (g := geo)). pose proof (begun_constants _ _ Hinv Hcon). pose proof (constants_supply _ _ Hcon) as Hsup.
  destruct Hinv as [? ? ? Hall Hfresh Hmarks ? Hsn [Hl0 Hl1] ? Hfree ?].
  assert (gone tx' = gone tx) as Hg by (unfold gone; by rewrite Hret). assert (Z.of_nat (size (R ∪ marks tx)) = Z.of_nat (size R) + Z.of_nat (size (marks tx))) as Hsz by (rewrite size_union; [lia|done]).
  split; rewrite ?Hg, ?Hmine, ?Hret, ?Hlive, ?Hrel, ?Hsup; try done.
  - intros lba Hlba. destruct (decide (lba ∈ R)) as [|Hn]; [by apply HR|]. apply Hall. set_solver.
  - rewrite Hmarks in Hdis. set_solver.
  - rewrite Hm, Hmarks. set_solver.
  - unfold snapshot_ok, tracked in *. rewrite Hmine, Hg. destruct (ta_snapshot tx) as [s|], (ta_snapshot tx') as [s'|]; try done.
    destruct Hsn as (? & ? & ? & ?), Htr as (_ & Hre & ? & ?). rewrite Hre. split; [done|]. split; [done|]. split; [set_solver|done].
  - split; [done|]. rewrite size_union by (rewrite Hmarks in Hdis; set_solver). lia.
  - rewrite free_total_size in Hfree |- * by lia. fold (marks tx) in Hfree. fold (marks tx'). rewrite Hm, Hsz. lia.
Qed.

(** ** Searching the regions *)

Lemma run_or_marked f len y : free_run f len y \/ exists z, y <= z < y + len /\ f z = true.
Proof.
  destruct (decide (Forall (fun z => f z = false) (seqZ y len))) as [HF|HF].
  - left. intros z Hz. eapply Forall_forall in HF; [exact HF|]. apply elem_of_seqZ. lia.
  - right. apply not_Forall_Exists in HF; [|apply _]. apply Exists_exists in HF as (z & Hz%elem_of_seqZ & Hf). exists z. split; [lia|]. apply not_false_iff_true, Hf.
Qed.

(** A region with fewer free blocks than the run is long holds none. *)
Lemma too_few_free f begin len n : 0 <= begin -> 0 <= len -> count (fun x => negb (f x)) 0 n < len -> no_run f begin len n.
Proof.
  intros Hb Hl Hc y Hy Hyl. destruct (run_or_marked f len y) as [Hrun|]; [|done]. exfalso.
  replace n with (y + (len + (n - y - len))) in Hc by lia. rewrite !count_split in Hc by lia. rewrite Z.add_0_l in Hc.
  pose proof (count_nonneg (fun x => negb (f x)) 0 y). pose proof (count_nonneg (fun x => negb (f x)) (y + len) (n - y - len)).
  rewrite (count_all _ y len) in Hc; [lia|lia|]. intros i Hi. by rewrite Hrun.
Qed.

(** The second search starts over and overlaps the first. *)
Lemma no_run_joined f head resume len until n :
  no_run f (Z.max resume head) len n -> (0 < resume -> no_run f (Z.max 0 head) len (Z.min until n)) -> resume + (len - 1) <= until -> 0 <= head -> 0 <= resume -> 0 < len ->
  no_run f head len n.
Proof. intros H1 H2 Hu Hh Hr Hl y Hy Hyl. destruct (decide (resume <= y)); [apply H1; lia|]. apply H2; lia. Qed.

Lemma no_run_ext f g begin len n : 0 <= begin -> (forall x, 0 <= x < n -> f x = g x) -> no_run f begin len n -> no_run g begin len n.
Proof. intros Hb He H y Hy Hyl. destruct (H y Hy Hyl) as (z & Hz & Hf). exists z. split; [done|]. rewrite <- He; [done|lia]. Qed.

(** A transaction took the blocks [R]. *)
Definition took (tx tx' : TxAllocator) (R : gset Z) : Prop :=
  tx_inv tx' /\ R ## marks tx /\ marks tx' = R ∪ marks tx /\ mine tx' = R ∪ mine tx /\ ta_retired_this_tx tx' = ta_retired_this_tx tx /\
  ta_reclaim tx' = ta_reclaim tx /\ ta_new_generation tx' = ta_new_generation tx /\ ta_free_block_floor tx' = ta_free_block_floor tx /\
  tracked R (ta_snapshot tx) (ta_snapshot tx').

(** The run [start, start + len) of a region is free. *)
Definition free_at (tx : TxAllocator) (r len start : Z) : Prop :=
  0 <= r < regions geo /\ head geo r <= start /\ start + len <= valid geo r /\ free_run (mark (page_now tx) r) len start.

Lemma free_at_run tx r len start : free_at tx r len start ->
  let lba := r * region_size geo + start in
  0 < lba /\ lba + len <= total_blocks geo /\ run_blocks lba (lba + len) ## marks tx /\ forall x, x ∈ run_blocks lba (lba + len) -> 0 <= x /\ allocatable geo x = true.
Proof.
  intros (Hr & Hh & Hv & Hf) lba. pose proof (wf_head_bounds geo r Hr). pose proof (wf_region (g := geo)).
  assert (forall x, x ∈ run_blocks lba (lba + len) -> exists y, x = r * region_size geo + y /\ start <= y < start + len) as Hx.
  { intros x Hx%elem_of_run_blocks. exists (x - r * region_size geo). subst lba. lia. }
  split; [subst lba; nia|]. split; [subst lba; unfold valid in Hv; lia|]. split.
  - apply elem_of_disjoint. intros x (y & -> & Hy)%Hx Hm. apply mark_elem in Hm; [|done|done|lia]. rewrite Hf in Hm; [done|lia].
  - intros x (y & -> & Hy)%Hx. destruct (lba_of_index geo r y Hr ltac:(lia)) as (Hq & Hm & Ht). split; [lia|]. unfold allocatable. rewrite Hq, Hm. lia.
Qed.

(** A region without dirty pages holds the committed marks. *)
Lemma clean_region_marks tx r x : caches tx -> r ∉ ta_dirty_regions tx -> 0 <= r < regions geo -> 0 <= x < valid geo r -> mark (page_now tx) r x = mark (cs_page c) r x.
Proof.
  intros Hc Hr Hreg Hx. unfold mark, now. destruct (ta_pages tx !! (r, x / BITMAP_PAGE_BLOCKS)) as [p|] eqn:Hp; [|done]. cbn.
  destruct (ca_pages _ _ _ _ _ _ Hc _ _ _ Hp) as (_ & _ & _ & Hclean). rewrite Hclean; [done|]. intros Hd. by apply (ca_dirty _ _ _ _ _ _ Hc) in Hd as [_ ?].
Qed.

Lemma wpi_skip_region d tx r len :
  reads d0 d -> tx_inv tx -> 0 <= r < regions geo -> 0 < len ->
  wpi (if bool_decide (r ∈ ta_dirty_regions tx) then iret false else let! record := current_record r in iret (rr_free_blocks record <? len)) (d, tx)
    (fun skip s => reads d0 (fst s) /\ tx_inv (snd s) /\ still tx (snd s) /\ (skip = true -> no_run (mark (page_now tx) r) (head geo r) len (valid geo r)))
    (fun e s => reads d0 (fst s) /\ only_io e).
Proof.
  intros Hr Hinv Hreg Hlen. pose proof (ti_caches _ Hinv) as Hc. apply wpi_if; intros Hd; [by apply wpi_ret|]. apply bool_decide_eq_false in Hd. apply wpi_bind.
  eapply wpi_mono; [by apply (wpi_current_record geo current other c nodes oc onodes d0)| |]; cbn beta; [|done].
  intros record [d1 tx1] (Hr1 & Hc1 & Hq1 & Hrec & _). cbn [fst snd] in *. apply wpi_ret. split; [done|]. split; [by eapply quiet_inv|]. split; [done|]. intros Hlt.
  destruct Hvol as (_ & _ & Hin & _). rewrite (record_free_exact geo _ _ _ _ Hin r record Hreg Hrec) in Hlt. pose proof (wf_head_bounds geo r Hreg).
  eapply no_run_ext; [lia| |apply (too_few_free (mark (cs_page c) r)); [lia|lia|]]; [|unfold free_in_region in Hlt; cbn beta in *; lia].
  intros x Hx. symmetry. by apply clean_region_marks.
Qed.

(** The two searches of a region. *)
Lemma wpi_search_region d tx r len resume :
  reads d0 d -> tx_inv tx -> 0 <= r < regions geo -> 0 < len <= region_size geo -> 0 <= resume <= valid geo r ->
  wpi (let! '(found, examined) := scan_region r len resume (valid geo r) 0 in
       match found with
       | Some _ => iret (found, examined)
       | None => if 0 <? resume then scan_region r len 0 (Z.min (saturating_add 32 resume (as_u32 (len - 1))) (valid geo r)) examined else iret (found, examined)
       end) (d, tx)
    (fun '(found, _) s => reads d0 (fst s) /\ tx_inv (snd s) /\ still tx (snd s) /\
       match found with Some start => free_at tx r len start | None => no_run (mark (page_now tx) r) (head geo r) len (valid geo r) end)
    (fun e s => reads d0 (fst s) /\ only_io e).
Proof.
  intros Hr Hinv Hreg Hlen Hres. pose proof (wf_region (g := geo)) as Hrs. pose proof (wf_head_bounds geo r Hreg) as Hh. pose proof (wf_valid_bounds geo r Hreg) as Hv.
  apply wpi_bind. eapply wpi_mono; [apply (wpi_scan_region geo current other c nodes oc onodes d0); [done|done|by apply ti_caches|done|lia|lia|lia]| |]; cbn beta; [|done].
  intros [found e] [d1 tx1] (Hr1 & Hc1 & Hq1 & _ & Hf). cbn [fst snd] in *. pose proof (quiet_inv tx tx1 Hinv Hc1 Hq1) as Hinv1. destruct found as [start|].
  { apply wpi_ret. cbn [fst snd]. split; [done|]. split; [done|]. split; [done|]. destruct Hf as (? & ? & ? & _). split; [done|]. split; [lia|done]. }
  assert (saturating_add 32 resume (as_u32 (len - 1)) = resume + (len - 1)) as -> by (rewrite as_u32_small by (unfold u32; lia); unfold saturating_add; lia).
  apply wpi_if; intros Hpos.
  - eapply wpi_mono; [apply (wpi_scan_region geo current other c nodes oc onodes d0); [done|done|done|done|lia|lia|lia]| |]; cbn beta; [|done].
    intros [found e'] [d2 tx2] (Hr2 & Hc2 & Hq2 & _ & Hf2). cbn [fst snd] in *. pose proof (quiet_inv tx1 tx2 Hinv1 Hc2 Hq2) as Hinv2.
    split; [done|]. split; [done|]. split; [by eapply quiet_trans|].
    assert (forall x, 0 <= x < valid geo r -> mark (page_now tx1) r x = mark (page_now tx) r x) as Hsame by (intros x Hx; by apply (quiet_mark geo c)).
    destruct found as [start|].
    + destruct Hf2 as (? & ? & Hfree & _). split; [done|]. split; [lia|]. split; [lia|]. intros z Hz. rewrite <- Hsame by lia. by apply Hfree.
    + eapply (no_run_joined _ _ resume len (resume + (len - 1))); [exact Hf| |lia..]. intros _. eapply no_run_ext; [|intros x Hx; apply Hsame|exact Hf2]; lia.
  - apply wpi_ret. split; [done|]. split; [done|]. split; [done|]. assert (resume = 0) as -> by lia. by replace (Z.max 0 (head geo r)) with (head geo r) in Hf by lia.
Qed.

Lemma wpi_bind_pair {S E A B C X} (m : io S E (A * B)) (k : A -> B -> io S E C) (h : C -> io S E X) s Q R :
  wpi (let! y := (let! '(a, b) := m in k a b) in h y) s Q R -> wpi (let! '(a, b) := m in let! y := k a b in h y) s Q R.
Proof. unfold wpi, ibind. by destruct (m s) as [s' [[a b]|e|]]. Qed.

Lemma wpi_allocate_in d tx len r first_step :
  reads d0 d -> tx_inv tx -> 0 <= r < regions geo -> 0 < len <= region_size geo ->
  wpi (allocate_in len r first_step) (d, tx)
    (fun found s => reads d0 (fst s) /\
       match found with
       | Some lba => took tx (snd s) (run_blocks lba (lba + len)) /\ exists start, lba = r * region_size geo + start /\ free_at tx r len start
       | None => tx_inv (snd s) /\ still tx (snd s) /\ no_run (mark (page_now tx) r) (head geo r) len (valid geo r)
       end)
    (fun e s => reads d0 (fst s) /\ only_io e).
Proof.
  intros Hr Hinv Hreg Hlen. pose proof (wf_region (g := geo)) as Hrs. pose proof (wf_head_bounds geo r Hreg) as Hh. pose proof (wf_valid_bounds geo r Hreg) as Hv. pose proof (wf_total (g := geo)) as Ht.
  unfold allocate_in. apply wpi_bind, wpi_get. cbn [snd]. cbn zeta. apply wpi_bind. eapply wpi_mono; [by apply (wpi_skip_region d tx r len); [..|lia]| |]; cbn beta; [|done].
  intros skip [d1 tx1] (Hr1 & Hinv1 & Hq1 & Hskip). cbn [fst snd] in *. apply wpi_if; intros Hs; [apply wpi_ret; split; [done|]; split; [done|]; split; [done|by apply Hskip]|].
  rewrite (ca_geo _ _ _ _ _ _ (ti_caches _ Hinv)), wf_valid_blocks_eq by done. apply wpi_bind, wpi_lift, wp_ok.
  set (resume := if first_step then _ else 0). assert (0 <= resume <= valid geo r) as Hres.
  { pose proof (ti_rover _ Hinv) as [_ ?]. subst resume. destruct first_step; lia. }
  apply wpi_bind_pair, wpi_bind. eapply wpi_mono; [by apply (wpi_search_region d1 tx1 r len resume)| |]; cbn beta; [|done].
  intros [found examined] [d2 tx2] (Hr2 & Hinv2 & Hq2 & Hf). cbn [fst snd] in *. apply wpi_bind, wpi_modify. cbn [fst snd].
  set (tx3 := tally_alloc bitmap_bits_examined (Z.add examined) tx2). assert (still tx2 tx3) as Hq3 by done. assert (caches tx3) as Hc3 by by destruct (ti_caches _ Hinv2).
  assert (still tx tx3) as Hq by (eapply quiet_trans; [exact Hq1|]; by eapply quiet_trans). pose proof (quiet_inv tx tx3 Hinv Hc3 Hq) as Hinv3.
  assert (forall x, 0 <= x < valid geo r -> mark (page_now tx1) r x = mark (page_now tx) r x) as Hsame by (intros x Hx; by apply (quiet_mark geo c)).
  destruct found as [start|].
  2: { apply wpi_ret. split; [done|]. split; [done|]. split; [done|]. eapply no_run_ext; [|exact Hsame|exact Hf]. lia. }
  assert (free_at tx r len start) as Hfree.
  { destruct Hf as (? & ? & ? & Hrun). split; [done|]. split; [done|]. split; [done|]. intros z Hz. rewrite <- Hsame by lia. by apply Hrun. }
  clear Hf Hsame Hq3. destruct (free_at_run tx r len start Hfree) as (Hl0 & Hlt & Hdis & Hall). pose proof Hfree as (_ & Hst & Hend & _). set (lba := r * region_size geo + start) in *.
  apply wpi_bind, wpi_lift. rewrite as_u32_small by (unfold u32; lia). apply wp_add_w; [lia|]. replace (start + len - start) with (Z.of_nat (Z.to_nat len)) by lia.
  apply wpi_bind. eapply wpi_mono; [apply (wpi_claim_run r (Z.to_nat len)); [done|done|done|lia|lia]| |]; cbn beta; [|done].
  intros _ [d4 tx4] (Hr4 & Hc4 & Hl4 & Hm4). cbn [fst snd] in *. fold lba in Hm4. rewrite Z2Nat.id in Hm4 by lia. unfold region_base. fold lba.
  apply wpi_bind, wpi_lift, wp_add_w; [lia|]. apply wpi_bind, wpi_lift, wp_add_w; [lia|]. pose proof (quiet_marks tx tx3 Hq) as Hm3.
  destruct (ledger_fields _ _ Hl4) as (Ha4 & Hb4 & Hs4 & Hrr4 & Hri4 & Hfl4 & Hrc4 & Hg4 & Hsup4 & Hlv4 & Hrel4).
  destruct (ledger_fields _ _ (proj1 (accounts_split _ _ (proj1 Hq)))) as (Ha3 & Hb3 & Hs3 & Hrr3 & Hri3 & Hfl3 & Hrc3 & Hg3 & Hsup3 & Hlv3 & Hrel3).
  assert (mine tx4 = mine tx) as Hmine by (unfold mine; by rewrite Ha4, Ha3).
  assert (mine tx ⊆ marks tx) as Hsub by (rewrite (ti_marks _ Hinv); set_solver).
  apply wpi_bind. eapply wpi_mono; [apply wpi_insert_allocated; [rewrite Ha4; apply Hinv3|lia|rewrite Hmine; set_solver]| |]; cbn beta; [|done].
  intros _ s5 (runs & -> & Hruns & Hblocks). apply wpi_bind. eapply wpi_mono; [apply wpi_track_snapshot; [|lia]| |]; cbn beta; [|intros _ s6 (snapshot & -> & Htr)|done].
  { cbn [ta_snapshot set_allocated_runs]. rewrite Hs4, Hs3. pose proof (ti_snapshot _ Hinv) as Hsn. unfold snapshot_ok in Hsn. destruct (ta_snapshot tx) as [s|]; [|done].
    destruct Hsn as (? & _ & ? & _). split; [done|]. set_solver. }
  cbn [ta_snapshot set_allocated_runs] in Htr. rewrite Hs4, Hs3 in Htr. apply wpi_bind, wpi_modify, wpi_ret. cbn [fst snd]. split; [done|]. split; [|by exists start].
  set (tx7 := tally_alloc _ _ _). assert (marks tx7 = run_blocks lba (lba + len) ∪ marks tx) as Hm7.
  { change (marks tx7) with (marks tx4). by rewrite Hm4, Hm3. }
  assert (mine tx7 = run_blocks lba (lba + len) ∪ mine tx) as Hmine7 by (unfold mine at 1; cbn; by rewrite Hblocks, Hmine).
  assert (ta_retired_this_tx tx7 = ta_retired_this_tx tx) as Hret7 by (cbn; by rewrite Hb4, Hb3).
  assert (saturating_add 32 start len = start + len) as Hsat by (unfold saturating_add; lia).
  assert (tx_inv tx7) as Hinv7.
  { apply (taken_inv tx tx7 (run_blocks lba (lba + len))); try done.
    - subst tx7. destruct Hc4. by split.
    - subst tx7. cbn [ta_rover_region ta_rover_index tally_alloc set_stats set_rover]. rewrite Hsat. lia.
    - rewrite size_run_blocks by lia. transitivity (live tx4 + len); [|rewrite Hlv4, Hlv3; lia].
      change (live tx7) with (len + alloc_count tx4 blocks_allocated - alloc_count tx4 blocks_released). unfold live. lia.
    - transitivity (alloc_count tx4 blocks_released); [done|]. by rewrite Hrel4.
    - transitivity (constants tx4); [done|]. by rewrite Hsup4. }
  split; [done|]. split; [done|]. split; [done|]. split; [done|]. split; [done|]. cbn. rewrite Hrc4, Hg4, Hfl4, Hrc3, Hg3, Hfl3. done.
Qed.

Lemma quiet_tracked tx tx' R s : still tx tx' -> tracked R (ta_snapshot tx') s -> tracked R (ta_snapshot tx) s.
Proof. intros Hq. destruct (ledger_fields _ _ (proj1 (accounts_split _ _ (proj1 Hq)))) as (_ & _ & -> & _). done. Qed.

Lemma took_quiet tx0 tx tx' R : still tx0 tx -> took tx tx' R -> took tx0 tx' R.
Proof.
  intros Hq (? & ? & ? & Hm & Hre & Hrc & Hg & Hf & Htr). rewrite (quiet_marks tx0 tx Hq) in *.
  destruct (ledger_fields _ _ (proj1 (accounts_split _ _ (proj1 Hq)))) as (Ha & Hb & _ & _ & _ & Hfl & Hc & Hge & _). unfold took. unfold mine at 2.
  rewrite Hre, Hrc, Hg, Hf, Hb, Hc, Hge, Hfl. unfold mine at 2 in Hm. rewrite Ha in Hm. do 8 (split; [done|]). by eapply quiet_tracked.
Qed.

Lemma free_at_quiet tx0 tx r len start : still tx0 tx -> free_at tx r len start -> free_at tx0 r len start.
Proof.
  intros Hq (Hr & Hh & Hv & Hf). split; [done|]. split; [done|]. split; [done|]. intros z Hz. pose proof (wf_head_bounds geo r Hr).
  rewrite <- (quiet_mark geo c tx0 tx r z Hq Hr) by lia. by apply Hf.
Qed.

(** The regions are tried once each, from the rover on. *)
Lemma wpi_allocate_steps tx0 len rover n : forall d tx k,
  reads d0 d -> tx_inv tx -> still tx0 tx -> 0 < len <= region_size geo -> 0 <= rover < regions geo -> 2 * regions geo <= 2 ^ 32 -> 0 <= k -> k + Z.of_nat n = regions geo ->
  (forall j, 0 <= j < k -> let r := (rover + j) mod regions geo in no_run (mark (page_now tx0) r) (head geo r) len (valid geo r)) ->
  wpi (allocate_steps len (regions geo) rover (seqZ k (Z.of_nat n))) (d, tx)
    (fun lba s => reads d0 (fst s) /\ took tx0 (snd s) (run_blocks lba (lba + len)) /\ exists r start, lba = r * region_size geo + start /\ free_at tx0 r len start)
    (fun e s => reads d0 (fst s) /\ (only_io e \/ e = NoSpace /\ tx_inv (snd s) /\ still tx0 (snd s) /\ forall r start, ~ free_at tx0 r len start)).
Proof.
  induction n as [|n IH]; intros d tx k Hr Hinv Hq Hlen Hrov Hsmall Hk Hn Hno.
  - cbn. apply wpi_err. split; [done|]. right. split; [done|]. split; [done|]. split; [done|]. intros r start (Hreg & Hh & Hv & Hf).
    set (j := (r - rover) mod regions geo). assert (0 <= j < regions geo) as Hj by (apply Z.mod_pos_bound; lia). specialize (Hno j ltac:(lia)). cbn zeta in Hno.
    assert ((rover + j) mod regions geo = r) as Hrj.
    { subst j. rewrite Z.add_mod_idemp_r by lia. replace (rover + (r - rover)) with r by lia. apply Z.mod_small. lia. }
    rewrite Hrj in Hno. destruct (Hno start Hh Hv) as (z & Hz & Hm). rewrite Hf in Hm; [done|lia].
  - rewrite seqZ_S. cbn [allocate_steps]. apply wpi_bind, wpi_lift, wp_add_w; [lia|]. assert (0 <= (rover + k) mod regions geo < regions geo) as Hreg by (apply Z.mod_pos_bound; lia).
    apply wpi_bind. eapply wpi_mono; [by apply wpi_allocate_in| |]; cbn beta.
    2: { intros e s [? ?]. split; [done|]. by left. }
    intros found [d1 tx1] [Hr1 Hf]. cbn [fst snd] in *. destruct found as [lba|].
    + destruct Hf as (Ht & start & -> & Hfree). apply wpi_ret. split; [done|]. split; [by eapply took_quiet|]. exists ((rover + k) mod regions geo), start. split; [done|]. by eapply free_at_quiet.
    + destruct Hf as (Hinv1 & Hq1 & Hnone). apply IH; [done|done|by eapply quiet_trans|done|done|done|lia|lia|]. intros j Hj. destruct (decide (j = k)) as [->|]; [|apply Hno; lia].
      cbn zeta. pose proof (wf_head_bounds geo _ Hreg). eapply no_run_ext; [lia| |exact Hnone]. intros x Hx. by apply (quiet_mark geo c).
Qed.

Lemma free_total_nonneg page : 0 <= free_total geo page.
Proof. apply count_nonneg. Qed.

Lemma took_free tx tx' R : took tx tx' R -> free_total geo (page_now tx') = free_total geo (page_now tx) - Z.of_nat (size R).
Proof.
  intros (_ & Hd & Hm & _). pose proof (wf_total (g := geo)). rewrite !free_total_size by lia. fold (marks tx) (marks tx'). rewrite Hm, size_union by done. lia.
Qed.

(** Why a run could not be allocated. *)
Definition no_space (tx : TxAllocator) (len : Z) : Prop :=
  region_size geo < len \/ Z.max 0 (free_total geo (page_now tx) - len) < ta_free_block_floor tx \/ forall r start, ~ free_at tx r len start.

Lemma check_writable_total tx : check_snapshot_writable tx = Ok tt \/ exists what, check_snapshot_writable tx = Err (Corrupt what).
Proof. unfold check_snapshot_writable, check_snapshot_health. destruct (in_phase PhaseFailed tx); cbn; [by right; eexists|]. destruct (in_phase PhaseSealed tx); [by right; eexists|by left]. Qed.

Lemma wpi_allocate_run d tx len :
  reads d0 d -> tx_inv tx -> 0 < len -> 2 * regions geo <= 2 ^ 32 ->
  wpi (allocate_run len) (d, tx)
    (fun lba s => reads d0 (fst s) /\ took tx (snd s) (run_blocks lba (lba + len)) /\ (exists r start, lba = r * region_size geo + start /\ free_at tx r len start) /\
       ta_free_block_floor tx <= free_total geo (page_now (snd s)))
    (fun e s => reads d0 (fst s) /\
       (only_io e \/ e = NoSpace /\ tx_inv (snd s) /\ still tx (snd s) /\ no_space tx len \/ check_snapshot_writable tx = Err e)).
Proof.
  intros Hr Hinv Hlen Hsmall. unfold allocate_run. apply wpi_bind. unfold on_tx at 1. apply wpi_bind, wpi_get. cbn [snd]. apply wpi_lift.
  destruct (check_writable_total tx) as [Hw|[what Hw]]; rewrite Hw; [apply wp_ok|apply wp_err; split; [done|by right; right]].
  apply wpi_bind, wpi_modify. cbn [fst snd]. set (tx1 := tally_alloc allocation_searches (Z.add 1) tx). assert (still tx tx1) as Hq1 by done.
  assert (tx_inv tx1) as Hinv1 by (apply (quiet_inv tx); [done| |done]; by destruct (ti_caches _ Hinv)). replace (negb (0 <? len)) with false by lia.
  apply wpi_bind, wpi_get. cbn [snd]. rewrite (ca_geo _ _ _ _ _ _ (ti_caches _ Hinv1)). apply wpi_if; intros Hbig.
  { apply wpi_err. split; [done|]. right; left. split; [done|]. split; [done|]. split; [done|]. left. lia. }
  apply wpi_bind. unfold on_tx. apply wpi_bind, wpi_get. cbn [snd]. apply wpi_lift. unfold ensure_above_floor. apply wp_if; intros Hfl.
  2: { apply wp_err. split; [done|]. right; left. split; [done|]. split; [done|]. split; [done|]. right; left. unfold above_floor in Hfl. rewrite (free_blocks_remaining_eq tx1 Hinv1) in Hfl.
       unfold saturating_sub in Hfl. change (page_now tx1) with (page_now tx) in Hfl. change (ta_free_block_floor tx1) with (ta_free_block_floor tx) in Hfl. lia. }
  apply wp_ok. rewrite region_count_eq by done. apply wpi_bind, wpi_lift, wp_ok. pose proof (wf_regions_pos geo). pose proof (ti_rover _ Hinv1) as [Hrov _].
  rewrite <- (Z2Nat.id (regions geo)) at 2 by lia.
  eapply wpi_mono; [apply (wpi_allocate_steps tx len (ta_rover_region tx1) (Z.to_nat (regions geo)) d tx1 0); [done|done|done|lia|done|lia|lia|lia|]| |]; cbn beta; [intros j Hj; lia| |].
  { intros lba s (Hr2 & Htook & Hat). split; [done|]. split; [done|]. split; [done|]. pose proof (took_free _ _ _ Htook) as Hf. rewrite size_run_blocks in Hf by lia.
    pose proof (free_total_nonneg (page_now (snd s))). unfold above_floor in Hfl. rewrite (free_blocks_remaining_eq tx1 Hinv1) in Hfl. unfold saturating_sub in Hfl.
    change (page_now tx1) with (page_now tx) in Hfl. change (ta_free_block_floor tx1) with (ta_free_block_floor tx) in Hfl. lia. }
  intros e s [? He]. split; [done|]. destruct He as [|(-> & ? & ? & ?)]; [by left|]. right; left. split; [done|]. split; [done|]. split; [done|]. by right; right.
Qed.

(** ** Quarantining blocks *)

(** Blocks that change hands while the marks stay. *)
Lemma regroup_inv tx tx' :
  tx_inv tx -> caches tx' -> marks tx' = marks tx -> run_set_ok (ta_allocated_this_tx tx') -> run_set_ok (ta_retired_this_tx tx') ->
  mine tx' ⊆ mine tx -> mine tx' ## gone tx' -> base ∪ mine tx' ∪ gone tx' = base ∪ mine tx ∪ gone tx ->
  (forall lba, lba ∈ gone tx' -> 0 <= lba /\ allocatable geo lba = true) -> snapshot_ok tx' ->
  (ta_rover_region tx', ta_rover_index tx') = (ta_rover_region tx, ta_rover_index tx) -> live tx' = live tx -> alloc_count tx' blocks_released = alloc_count tx blocks_released ->
  constants tx' = constants tx -> tx_inv tx'.
Proof.
  intros Hinv Hc Hm Ha Hb Hsub Hdis Heq Hg Hsn [= Hr Hi] Hl Hrel Hcon. pose proof (wf_total (g := geo)). pose proof (begun_constants _ _ Hinv Hcon). pose proof (constants_supply _ _ Hcon) as Hsup.
  destruct Hinv as [? ? ? Hall Hfresh Hmarks ? ? [? Hsz] ? Hfree ?].
  split; rewrite ?Hr, ?Hi, ?Hrel, ?Hl, ?Hsup, ?Hm; try done.
  - intros lba [Hlba|Hlba]%elem_of_union; [apply Hall; set_solver|by apply Hg].
  - set_solver.
  - by rewrite Hmarks.
  - split; [done|]. pose proof (subseteq_size _ _ Hsub). lia.
  - rewrite free_total_size in Hfree |- * by lia. fold (marks tx) in Hfree. fold (marks tx'). by rewrite Hm.
Qed.

Lemma wpi_insert_retired (d : D) tx first bound what :
  run_set_ok (ta_retired_this_tx tx) -> first < bound ->
  wpi (insert_retired first bound what) (d, tx)
    (fun _ s => gone tx ## run_blocks first bound /\ exists runs, s = (d, set_retired_runs runs tx) /\ run_set_ok runs /\ blocks_of runs = run_blocks first bound ∪ gone tx)
    (fun e s => fst s = d /\ ~ (gone tx ## run_blocks first bound)).
Proof.
  intros Hok Hlt. unfold insert_retired, on_tx. apply wpi_bind, wpi_bind, wpi_get. cbn [snd]. apply wpi_lift.
  destruct (insert_spec (E := CoreError) (ta_retired_this_tx tx) first bound Hok Hlt) as [(Hd & runs & -> & Hok' & Hb & _)|[Hn ->]].
  - apply wp_ok, wpi_bind, wpi_modify, wpi_ret. split; [done|]. exists runs. done.
  - apply wp_ok, wpi_bind, wpi_modify, wpi_err. done.
Qed.

Definition allocatable_mark (tx : TxAllocator) (lba : Z) : Prop := allocatable geo lba = true /\ lba ∈ marks tx.

Lemma wpi_check_live tx0 lbas : forall d tx touched,
  reads d0 d -> caches tx -> still tx0 tx -> Forall (fun lba => 0 <= lba) lbas ->
  wpi (check_live geo lbas touched) (d, tx)
    (fun _ s => reads d0 (fst s) /\ caches (snd s) /\ still tx0 (snd s) /\ Forall (allocatable_mark tx0) lbas)
    (fun e s => reads d0 (fst s) /\ (only_io e \/ exists lba, lba ∈ lbas /\ ~ allocatable_mark tx0 lba)).
Proof.
  induction lbas as [|lba lbas IH]; intros d tx touched Hr Hc Hq HF; [by apply wpi_ret|]. apply Forall_cons in HF as [H0 HF]. cbn [check_live].
  rewrite (is_allocatable_eq geo) by done. apply wpi_bind, wpi_lift, wp_ok. apply wpi_if; intros Ha.
  { apply wpi_err. split; [done|]. right. exists lba. split; [left|]. intros [Ha' _]. by rewrite Ha' in Ha. }
  apply negb_false_iff in Ha. assert (0 <= lba < total_blocks geo) as Hl by (unfold allocatable in Ha; lia).
  destruct (lba_region geo lba Hl) as (Hreg & He & Hx). rewrite locate_eq by done. apply wpi_bind, wpi_lift, wp_ok, wpi_bind.
  eapply wpi_mono; [by apply (wpi_page_is_allocated geo current other c nodes oc onodes d0)| |]; cbn beta.
  2: { intros e s [? ?]. split; [done|]. by left. }
  intros b [d1 tx1] (Hr1 & Hc1 & Hq1 & ->). cbn [fst snd] in *. rewrite (quiet_mark geo c tx0 tx) by done.
  assert (mark (page_now tx0) (lba / region_size geo) (lba mod region_size geo) = true <-> lba ∈ marks tx0) as Hmk.
  { unfold marks. rewrite elem_of_marked_set. unfold marked. tauto. }
  apply wpi_if; intros Hm.
  - apply wpi_err. split; [done|]. right. exists lba. split; [left|]. intros [_ Hin]. apply Hmk in Hin. by rewrite Hin in Hm.
  - apply negb_false_iff, Hmk in Hm. eapply wpi_mono; [apply IH; [done|done|by eapply quiet_trans|done]| |]; cbn beta.
    + intros _ s (? & ? & ? & ?). split; [done|]. split; [done|]. split; [done|]. by constructor.
    + intros e s [? Hx']. split; [done|]. destruct Hx' as [|(y & ? & ?)]; [by left|right]. exists y. split; [by right|done].
Qed.

Lemma evict_all_ok (touched : gset (Z * Z)) tx : caches tx -> caches (set_fold evict tx touched) /\ still tx (set_fold evict tx touched).
Proof.
  intros Hc. apply (set_fold_ind_L (fun tx' _ => caches tx' /\ still tx tx')); [done|]. intros key X tx' _ [Hc' Hq']. destruct (evict_ok geo current other c oc key tx' Hc') as [? ?].
  split; [done|]. by eapply quiet_trans.
Qed.

(** A queue with one more retired run. *)
Definition with_run (reclaim : ReclaimTx) (run : Z * Z) : ReclaimTx :=
  set_rx_appends (rx_appends reclaim ++ [retired_run (rx_new_generation reclaim) run]) reclaim.

Lemma append_reclaim_spec (d : D) tx start blocks :
  is_Some (ta_reclaim tx) -> ta_geo tx = geo -> 0 <= start -> 0 < blocks < 2 ^ 32 ->
  wpi (append_reclaim start blocks) (d, tx)
    (fun _ s => exists reclaim, ta_reclaim tx = Some reclaim /\ validate_run geo (retired_run (rx_new_generation reclaim) (start, blocks)) = Ok tt /\
       s = (d, set_reclaim (Some (with_run reclaim (start, blocks))) tx))
    (fun e s => fst s = d /\ forall reclaim, ta_reclaim tx = Some reclaim ->
       validate_run geo {| re_start := start; re_blocks := blocks; re_retire_generation := rx_new_generation reclaim |} <> Ok tt).
Proof.
  intros [reclaim Hr] Hg H0 Hb. unfold wpi, append_reclaim. cbn [snd fst]. rewrite Hr, Hg. unfold append_run, ibind, iget, ilift, imodify, id.
  set (entry := {| re_start := start; re_blocks := blocks; re_retire_generation := rx_new_generation reclaim |}).
  assert (validate_run geo entry <> Panic) as Hnp by (eapply (wp_not_panic _ (fun _ => True) any_error), wp_validate_run; cbn; (done || lia)).
  destruct (validate_run geo entry) as [[]|e|] eqn:Hv; cbn; [by exists reclaim| |done]. split; [done|]. intros x [= <-]. fold entry. by rewrite Hv.
Qed.

(** A run of allocatable blocks lies in one region. *)
Lemma allocatable_run_region start bound :
  0 <= start < bound -> (forall lba, start <= lba < bound -> allocatable geo lba = true) -> start / region_size geo = (bound - 1) / region_size geo.
Proof.
  intros Hs Hall. pose proof (wf_region (g := geo)) as Hr. pose proof (Z.div_le_mono start (bound - 1) (region_size geo) ltac:(lia) ltac:(lia)) as Hle.
  destruct (decide (start / region_size geo = (bound - 1) / region_size geo)) as [|Hne]; [done|]. exfalso.
  set (q := (bound - 1) / region_size geo) in *. pose proof (Z.div_mod (bound - 1) (region_size geo) ltac:(lia)) as Hb. pose proof (Z.mod_pos_bound (bound - 1) (region_size geo) ltac:(lia)).
  pose proof (Z.div_mod start (region_size geo) ltac:(lia)). pose proof (Z.mod_pos_bound start (region_size geo) ltac:(lia)). fold q in Hb.
  assert (start <= q * region_size geo < bound) as Hin by nia. specialize (Hall _ Hin). unfold allocatable in Hall. apply andb_true_iff in Hall as [Ht Hh].
  rewrite Z.mod_mul, Z.div_mul in Hh by lia. assert (0 <= q < regions geo) as Hq.
  { assert (0 <= q) by (apply Z.div_pos; lia). pose proof (lba_region geo (q * region_size geo) ltac:(lia)) as (Hq & _). by rewrite Z.div_mul in Hq by lia. }
  pose proof (wf_head_bounds geo q Hq). lia.
Qed.

Lemma validate_allocatable_run start blocks generation :
  0 <= start -> 0 < blocks -> (forall lba, start <= lba < start + blocks -> allocatable geo lba = true) ->
  validate_run geo {| re_start := start; re_blocks := blocks; re_retire_generation := generation |} = Ok tt.
Proof.
  intros H0 Hb Hall. set (e := {| re_start := start; re_blocks := blocks; re_retire_generation := generation |}).
  assert (run_ok geo generation e) as Hok.
  { apply run_ok_intro; cbn; [done|lia|lia|apply Hall; lia| | |lia].
    - pose proof (Hall (start + blocks - 1) ltac:(lia)) as Ha. unfold allocatable in Ha. lia.
    - by apply (allocatable_run_region start (start + blocks)); [lia|]. }
  unfold run_ok, check_entry in Hok. by destruct (validate_run geo e) as [[]|?|].
Qed.

Lemma caches_ext tx tx' :
  caches tx ->
  (ta_geo tx', ta_current_checkpoint tx', ta_other_checkpoint tx', (ta_current_records tx', ta_other_records tx'), (ta_descriptors tx', ta_other_descriptors tx'), ta_pages tx', (ta_dirty_pages tx', ta_dirty_regions tx')) =
  (ta_geo tx, ta_current_checkpoint tx, ta_other_checkpoint tx, (ta_current_records tx, ta_other_records tx), (ta_descriptors tx, ta_other_descriptors tx), ta_pages tx, (ta_dirty_pages tx, ta_dirty_regions tx)) ->
  caches tx'.
Proof.
  intros [Hgeo Hcur Hoth Halone Hrec Hdesc Hpages Hdirty Hreg] [= E1 E2 E3 E4 E5 E6 E7 E8 E9 E10]. unfold other_loaded in Hdesc.
  split; unfold other_loaded; rewrite ?E1, ?E2, ?E3, ?E4, ?E5, ?E6, ?E7, ?E8, ?E9, ?E10; assumption.
Qed.

(** The blocks a run may be retired from. *)
Definition retirable (tx : TxAllocator) (start blocks : Z) : Prop :=
  check_snapshot_writable tx = Ok tt /\ 0 < blocks < 2 ^ 32 /\ 0 <= start /\ run_blocks start (start + blocks) ⊆ base ∖ gone tx /\
  forall lba, start <= lba < start + blocks -> allocatable geo lba = true.


(** Without snapshots a retired run joins the queue. *)
Definition enqueued (tx : TxAllocator) (reclaim' : ReclaimTx) (start blocks : Z) : Prop :=
  ta_snapshot tx = None -> exists reclaim, ta_reclaim tx = Some reclaim /\ validate_run geo (retired_run (rx_new_generation reclaim) (start, blocks)) = Ok tt /\
    reclaim' = with_run reclaim (start, blocks).

Definition retired_to (tx tx' : TxAllocator) (start blocks : Z) : Prop :=
  let R := run_blocks start (start + blocks) in
  0 < blocks < 2 ^ 32 /\ tx_inv tx' /\ R ⊆ base ∖ gone tx /\ marks tx' = marks tx /\ mine tx' = mine tx /\ gone tx' = R ∪ gone tx /\
  ta_new_generation tx' = ta_new_generation tx /\ (ta_snapshot tx = None -> ta_snapshot tx' = None) /\
  exists reclaim, ta_reclaim tx' = Some reclaim /\ enqueued tx reclaim start blocks.

(** The last step of a retirement: the run joins the snapshot's or the queue's. *)
Lemma wpi_record_retirement (d : D) tx start blocks :
  is_Some (ta_reclaim tx) -> ta_geo tx = geo -> 0 <= start -> 0 < blocks < 2 ^ 32 -> (forall lba, start <= lba < start + blocks -> allocatable geo lba = true) ->
  match ta_snapshot tx with Some s => run_set_ok (sa_retirements s) /\ blocks_of (sa_retirements s) ## run_blocks start (start + blocks) | None => True end ->
  wpi (match ta_snapshot tx with
       | Some s =>
           if bool_decide (sa_phase s = PhaseNamespace) then
             let! '(runs, fresh) := ilift (RunSet_insert (sa_retirements s) start (start + blocks)) in
             do! change (set_snapshot (Some (set_retirements runs s))) in
             if (fresh : bool) then iret tt else ierr (Corrupt "snapshot run retired twice")
           else append_reclaim start (as_u32 blocks)
       | None => append_reclaim start (as_u32 blocks)
       end) (d, tx)
    (fun _ s => exists snapshot reclaim, s = (d, set_reclaim (Some reclaim) (set_snapshot snapshot tx)) /\ enqueued tx reclaim start blocks /\
       match ta_snapshot tx, snapshot with
       | Some a, Some b => sa_allocations b = sa_allocations a /\ run_set_ok (sa_retirements b) /\ blocks_of (sa_retirements b) ⊆ run_blocks start (start + blocks) ∪ blocks_of (sa_retirements a)
       | None, None => True
       | _, _ => False
       end)
    (fun _ _ => False).
Proof.
  intros Hrec Hgeo H0 Hb Hall Hsn. rewrite as_u32_small by (unfold u32; lia).
  assert (wpi (append_reclaim start blocks) (d, tx) (fun _ s => exists reclaim, s = (d, set_reclaim (Some reclaim) tx) /\ enqueued tx reclaim start blocks) (fun _ _ => False)) as Happ.
  { eapply wpi_mono; [by apply append_reclaim_spec| |]; cbn beta; [intros _ s (x & Hx & Hv & ->); eexists; split; [done|by exists x]|]. intros e s [_ He]. destruct Hrec as [x Hx]. apply (He x Hx). by apply validate_allocatable_run; [|lia|]. }
  destruct (ta_snapshot tx) as [s|] eqn:Es.
  - destruct Hsn as [Hok Hdis]. apply wpi_if; intros _.
    + apply wpi_bind, wpi_lift. destruct (insert_spec (E := CoreError) (sa_retirements s) start (start + blocks) Hok ltac:(lia)) as [(_ & runs & -> & Hok' & Hbl & _)|[Hn _]]; [|done].
      apply wp_ok, wpi_bind, wpi_modify, wpi_ret. destruct Hrec as [x Hx]. exists (Some (set_retirements runs s)), x. split; [cbn; rewrite <- Hx; by destruct tx|]. cbn. rewrite Hbl. split; [intros Hn; by rewrite Es in Hn|done].
    + eapply wpi_mono; [exact Happ| |done]. intros _ s' (x & -> & He). exists (Some s), x. split; [rewrite <- Es; by destruct tx|]. split; [done|]. split; [done|]. split; [done|]. set_solver.
  - eapply wpi_mono; [exact Happ| |done]. intros _ s' (x & -> & He). exists None, x. split; [rewrite <- Es; by destruct tx|done].
Qed.

Lemma base_inside lba : lba ∈ base -> 0 <= lba < total_blocks geo.
Proof. unfold base. rewrite elem_of_difference, elem_of_marked_set. tauto. Qed.

Lemma retirable_end tx start blocks : retirable tx start blocks -> start + blocks <= total_blocks geo.
Proof.
  intros (_ & Hb & H0 & Hsub & _). assert (start + blocks - 1 ∈ base) as Hin.
  { assert (start + blocks - 1 ∈ run_blocks start (start + blocks)) as Hx by (apply elem_of_run_blocks; lia). set_solver. }
  apply base_inside in Hin. lia.
Qed.

Lemma wpi_retire_run d tx start blocks :
  reads d0 d -> tx_inv tx -> is_Some (ta_reclaim tx) -> 0 <= start -> 0 <= blocks ->
  wpi (retire_run start blocks) (d, tx)
    (fun _ s => reads d0 (fst s) /\ retired_to tx (snd s) start blocks)
    (fun e s => reads d0 (fst s) /\ (only_io e \/ ~ retirable tx start blocks)).
Proof.
  intros Hr Hinv Hrec H0 Hb0. pose proof (wf_total (g := geo)) as Ht. unfold retire_run. apply wpi_bind. unfold on_tx at 1. apply wpi_bind, wpi_get. cbn [snd]. apply wpi_lift.
  destruct (check_writable_total tx) as [Hw|[what Hw]]; rewrite Hw; [apply wp_ok|apply wp_err; split; [done|right; intros (? & _); congruence]].
  apply wpi_if; intros Hbad; [apply wpi_err; split; [done|right; intros (_ & ? & _); lia]|]. assert (0 < blocks < 2 ^ 32) as Hb by lia.
  unfold checked_add. destruct (start + blocks <? 2 ^ 64) eqn:Hov; cbn [ok_or].
  2: { apply wpi_bind, wpi_lift, wp_err. split; [done|]. right. intros Hx%retirable_end. lia. }
  set (R := run_blocks start (start + blocks)). apply wpi_bind, wpi_lift, wp_ok, wpi_bind. unfold on_tx. apply wpi_bind, wpi_get. cbn [snd]. apply wpi_lift.
  destruct (overlaps_spec (E := CoreError) (ta_allocated_this_tx tx) start (start + blocks) (ti_mine_ok _ Hinv) ltac:(lia)) as (own & -> & Hown). apply wp_ok. fold R in Hown.
  apply wpi_if; intros Ho.
  { apply wpi_err. split; [done|]. right. intros (_ & _ & _ & Hsub & _). assert (own = false); [|congruence]. apply Hown. pose proof (ti_fresh _ Hinv). fold R in Hsub. unfold mine in *. set_solver. }
  pose proof (proj1 Hown Ho) as Hdis. clear Hown. fold (mine tx) in Hdis.
  apply wpi_bind. eapply wpi_mono; [apply wpi_insert_retired; [apply Hinv|lia]| |]; cbn beta.
  2: { intros e s [-> Hn]. split; [done|]. right. intros (_ & _ & _ & Hsub & _). apply Hn. set_solver. }
  intros _ s (Hdg & runs & -> & Hruns & Hblocks). set (tx1 := set_retired_runs runs tx). assert (caches tx1) as Hc1 by by apply (caches_ext tx); [apply Hinv|].
  apply wpi_bind, wpi_get. cbn [snd]. rewrite (ca_geo _ _ _ _ _ _ Hc1). replace (start + blocks - start) with blocks by lia.
  apply wpi_bind. eapply wpi_mono; [apply (wpi_check_live tx1); [done|done|done|]| |]; cbn beta.
  { apply Forall_forall. intros x Hx%elem_of_seqZ. lia. }
  2: { intros e s [? He]. split; [done|]. destruct He as [|(lba & Hlba%elem_of_seqZ & Hn)]; [by left|right]. intros (_ & _ & _ & Hsub & Hall). apply Hn. split; [apply Hall; lia|].
       change (marks tx1) with (marks tx). rewrite (ti_marks _ Hinv). assert (lba ∈ R) by (apply elem_of_run_blocks; lia). set_solver. }
  intros touched [d2 tx2] (Hr2 & Hc2 & Hq2 & HF). cbn [fst snd] in *. apply wpi_bind, wpi_modify. cbn [fst snd]. destruct (evict_all_ok touched tx2 Hc2) as [Hc3 Hq3].
  set (tx3 := set_fold evict tx2 touched) in *. assert (still tx1 tx3) as Hq by by eapply quiet_trans.
  assert (forall lba, start <= lba < start + blocks -> allocatable geo lba = true /\ lba ∈ marks tx) as Hlive.
  { intros lba Hl. eapply Forall_forall in HF; [exact HF|]. apply elem_of_seqZ. lia. }
  destruct (ledger_fields _ _ (proj1 (accounts_split _ _ (proj1 Hq)))) as (Ha & Hb3 & Hs3 & Hrr & Hri & _ & Hrc & Hng & Hsup & Hlv & Hrel).
  pose proof (ti_snapshot _ Hinv) as Hsn. unfold snapshot_ok in Hsn.
  apply wpi_bind, wpi_get. cbn [snd]. apply wpi_bind. eapply wpi_mono; [apply wpi_record_retirement; [by rewrite Hrc|apply (ca_geo _ _ _ _ _ _ Hc3)|done|done|intros; by apply Hlive|]| |]; cbn beta; [| |done].
  { rewrite Hs3. change (ta_snapshot tx1) with (ta_snapshot tx). destruct (ta_snapshot tx) as [s|]; [|done]. destruct Hsn as (_ & ? & _ & ?). split; [done|]. set_solver. }
  intros _ s (snapshot & reclaim & -> & Henq & Hsnap). apply wpi_modify. cbn [fst snd]. split; [done|]. set (tx4 := tally_alloc _ _ _).
  assert (mine tx4 = mine tx) as Hmine by (unfold mine; cbn; by rewrite Ha). assert (gone tx4 = R ∪ gone tx) as Hgone by (unfold gone at 1; cbn; rewrite Hb3; exact Hblocks).
  assert (marks tx4 = marks tx) as Hmarks by (transitivity (marks tx3); [done|]; by rewrite (quiet_marks tx1 tx3 Hq)).
  assert (R ⊆ base ∖ gone tx) as HR.
  { intros lba Hl. pose proof Hl as [_ Hm]%elem_of_run_blocks%Hlive. rewrite (ti_marks _ Hinv) in Hm. set_solver. }
  assert (ta_snapshot tx = None -> snapshot = None) as Hnone.
  { intros Hn. rewrite Hs3 in Hsnap. change (ta_snapshot tx1) with (ta_snapshot tx) in Hsnap. rewrite Hn in Hsnap. by destruct snapshot. }
  assert (enqueued tx reclaim start blocks) as Henq'.
  { intros Hn. destruct Henq as (x & Hx & ?); [by rewrite Hs3|]. exists x. split; [by rewrite Hrc in Hx|done]. }
  split; [done|]. split; [|split; [done|split; [done|split; [done|split; [done|split; [done|split; [done|by exists reclaim]]]]]]]. apply (regroup_inv tx); try done.
  - by apply (caches_ext tx3).
  - cbn. rewrite Ha. apply Hinv.
  - cbn. by rewrite Hb3.
  - set_solver.
  - rewrite Hmine, Hgone. pose proof (ti_fresh _ Hinv). set_solver.
  - rewrite Hmine, Hgone. set_solver.
  - intros lba. rewrite Hgone, elem_of_union. intros [Hl%elem_of_run_blocks|Hl]; [split; [lia|by apply Hlive]|]. apply (ti_allocatable _ Hinv). set_solver.
  - unfold snapshot_ok. rewrite Hmine, Hgone. cbn [ta_snapshot tx4 tally_alloc set_stats set_reclaim set_snapshot]. rewrite Hs3 in Hsnap. change (ta_snapshot tx1) with (ta_snapshot tx) in Hsnap.
    destruct (ta_snapshot tx) as [a|], snapshot as [b|]; try done. destruct Hsn as (? & ? & ? & ?), Hsnap as (He & ? & ?). rewrite He. split; [done|]. split; [done|]. split; [done|]. set_solver.
  - cbn. by rewrite Hrr, Hri.
Qed.
End Reading.
End Ops.
