(* ===== verification/AllocBack.v ===== *)
(** * Giving back what a transaction allocated (crates/afsplus-core/src/alloc.rs)

    Releasing a block of the transaction makes it free again. *)

From S2P Require Import Prelude Crc32c Format Header Codec TreeNode Geometry Bitmap Region Checkpoint Device Core Tree TreeSpec TreeReaders TreeVerify.
From S2P Require Import CowTree CowStore AllocRoot AllocRootSpec ReclaimCodec Reclaim ReclaimQueue RunSet Alloc AllocSpec AllocTx AllocScan AllocOps.

Section Back.
Context {D : Type} {device : BlockDevice Decoded D} {contract : DeviceContract Decoded D core_decodes}.
Context (geo : Geometry) {WF : WfGeometry geo}.
Context (current : Checkpoint) (other : option Checkpoint) (c : Committed) (nodes : list (Z * TreeNode)) (oc : Committed) (onodes : list (Z * TreeNode)).
Context (promoted : gset Z).

Abbreviation caches := (caches_ok geo current other c oc).
Abbreviation still := (quiet geo c).
Abbreviation page_now := (now c).
Abbreviation marks := (AllocOps.marks geo c).
Abbreviation base := (AllocOps.base geo c promoted).
Abbreviation inv := (tx_inv geo current other c oc promoted).

(** ** Releasing one block *)

Lemma forget_allocation_eq lba tx :
  match ta_snapshot tx with Some s => run_set_ok (sa_allocations s) | None => True end ->
  exists snapshot, forget_allocation lba tx = set_snapshot snapshot tx /\
    match ta_snapshot tx, snapshot with
    | Some a, Some b => sa_phase b = sa_phase a /\ sa_retirements b = sa_retirements a /\ run_set_ok (sa_allocations b) /\ blocks_of (sa_allocations b) = blocks_of (sa_allocations a) ∖ {[lba]}
    | None, None => True
    | _, _ => False
    end.
Proof.
  intros Hs. unfold forget_allocation. destruct (ta_snapshot tx) as [s|] eqn:Es.
  - eexists. split; [reflexivity|]. cbn. destruct (remove_block_spec (sa_allocations s) lba Hs) as [(Hin & runs & -> & Hok & Hb & _)|[Hn ->]]; cbn; [done|].
    split; [done|]. split; [done|]. split; [done|]. set_solver.
  - exists None. split; [rewrite <- Es; by destruct tx|done].
Qed.

Lemma snapshot_runs_ok tx : snapshot_ok tx -> match ta_snapshot tx with Some s => run_set_ok (sa_allocations s) | None => True end.
Proof. unfold snapshot_ok. destruct (ta_snapshot tx); [|done]. by intros (? & _). Qed.

Lemma check_release_total tx first bound : snapshot_ok tx -> first < bound -> check_snapshot_release first bound tx <> Panic.
Proof.
  intros Hs%snapshot_runs_ok Hlt. unfold check_snapshot_release. destruct (ta_snapshot tx) as [s|]; [|done]. destruct (_ || _); [|done].
  destruct (overlaps_spec (E := CoreError) (sa_allocations s) first bound Hs Hlt) as (b & -> & _). cbn. by destruct b.
Qed.

(** Freeing a block of the transaction keeps the invariant. *)
Lemma released_inv tx tx' lba :
  inv tx -> caches tx' -> lba ∈ mine tx -> marks tx' = marks tx ∖ {[lba]} -> run_set_ok (ta_allocated_this_tx tx') -> mine tx' = mine tx ∖ {[lba]} ->
  ta_retired_this_tx tx' = ta_retired_this_tx tx -> snapshot_ok tx' ->
  (ta_rover_region tx', ta_rover_index tx') = (ta_rover_region tx, ta_rover_index tx) -> live tx' = live tx - 1 ->
  alloc_count tx' blocks_released = alloc_count tx blocks_released + 1 -> constants tx' = constants tx -> inv tx'.
Proof.
  intros Hinv Hc Hin Hm Ha Hmine Hret Hsn [= Hr Hi] Hl Hrel Hcon. pose proof (wf_total (g := geo)). pose proof (begun_constants _ _ _ _ _ _ _ _ Hinv Hcon). pose proof (constants_supply _ _ Hcon) as Hsup.
  destruct Hinv as [? ? ? Hall Hfresh Hmarks ? ? [? Hsz] ? Hfree ?].
  assert (gone tx' = gone tx) as Hg by (unfold gone; by rewrite Hret).
  assert (lba ∈ marks tx) as Hinm by (rewrite Hmarks; set_solver).
  assert (forall s : gset Z, lba ∈ s -> Z.of_nat (size (s ∖ {[lba]})) = Z.of_nat (size s) - 1) as Hsize.
  { intros s Hs. rewrite size_difference by set_solver. rewrite size_singleton. assert (size s <> 0%nat) by (intros Hz%size_empty_inv; set_solver). lia. }
  split; rewrite ?Hg, ?Hmine, ?Hret, ?Hr, ?Hi, ?Hrel, ?Hl, ?Hsup, ?Hm; try done.
  - intros x Hx. apply Hall. set_solver.
  - set_solver.
  - rewrite Hmarks. set_solver.
  - split; [lia|]. rewrite Hsize by done. lia.
  - rewrite free_total_size in Hfree |- * by lia. fold (marks tx) in Hfree. fold (marks tx'). rewrite Hm, Hsize by done. lia.
Qed.

Definition released_to (tx tx' : TxAllocator) (lba : Z) : Prop :=
  inv tx' /\ lba ∈ mine tx /\ marks tx' = marks tx ∖ {[lba]} /\ mine tx' = mine tx ∖ {[lba]} /\ gone tx' = gone tx /\ ta_reclaim tx' = ta_reclaim tx /\
  ta_new_generation tx' = ta_new_generation tx /\ (ta_snapshot tx = None -> ta_snapshot tx' = None).

Section Reading.
Context (d0 : D) (Hvol : volume_ok geo current other c nodes oc onodes d0).

Lemma wpi_release_uncommitted d tx lba :
  reads d0 d -> inv tx -> u64 lba ->
  wpi (release_uncommitted lba) (d, tx)
    (fun _ s => reads d0 (fst s) /\ released_to tx (snd s) lba)
    (fun e s => reads d0 (fst s) /\ (only_io e \/ ~ (check_snapshot_writable tx = Ok tt /\ lba ∈ mine tx /\ check_snapshot_release lba (lba + 1) tx = Ok tt))).
Proof.
  intros Hr Hinv Hu. pose proof (wf_total (g := geo)) as Ht. unfold release_uncommitted. apply wpi_bind. unfold on_tx at 1. apply wpi_bind, wpi_get. cbn [snd]. apply wpi_lift.
  destruct (check_writable_total tx) as [Hw|[what Hw]]; rewrite Hw; [apply wp_ok|apply wp_err; split; [done|right; intros (? & _); congruence]].
  pose proof (ti_allocatable _ _ _ _ _ _ _ Hinv lba) as Hal. apply wpi_bind, wpi_lift. unfold checked_add. destruct (lba + 1 <? 2 ^ 64) eqn:Hov; cbn [ok_or].
  2: { apply wp_err. split; [done|]. right. intros (_ & Hin & _). destruct Hal as [_ Ha]; [set_solver|]. unfold allocatable in Ha. unfold u64 in Hu. lia. }
  apply wp_ok, wpi_bind. unfold on_tx at 1. apply wpi_bind, wpi_get. cbn [snd]. apply wpi_lift. pose proof (check_release_total tx lba (lba + 1) (ti_snapshot _ _ _ _ _ _ _ Hinv) ltac:(lia)) as Hnp.
  destruct (check_snapshot_release lba (lba + 1) tx) as [[]|e|]; [apply wp_ok|apply wp_err; split; [done|right; intros (_ & _ & ?); congruence]|done]. clear Hnp.
  apply wpi_bind, wpi_get. cbn [snd]. destruct (remove_block_spec (ta_allocated_this_tx tx) lba (ti_mine_ok _ _ _ _ _ _ _ Hinv)) as [(Hin & runs & -> & Hok & Hb & _)|[Hn ->]].
  2: { apply wpi_bind, wpi_modify, wpi_err. split; [done|]. right. intros (_ & ? & _). done. }
  apply wpi_bind, wpi_modify. cbn [fst snd negb]. fold (mine tx) in Hin, Hb. destruct Hal as [H0 Ha]; [set_solver|]. assert (0 <= lba < total_blocks geo) as Hl by (unfold allocatable in Ha; lia).
  set (tx1 := set_allocated_runs runs tx). assert (caches tx1) as Hc1 by by apply (caches_ext geo current other c oc tx); [apply Hinv|].
  apply wpi_bind. unfold on_tx. apply wpi_bind, wpi_get. cbn [snd]. rewrite (ca_geo _ _ _ _ _ _ Hc1), locate_eq by done. apply wpi_lift, wp_ok.
  destruct (lba_region geo lba Hl) as (Hreg & He & Hx). set (r := lba / region_size geo) in *. set (x := lba mod region_size geo) in *.
  apply wpi_bind. eapply wpi_mono; [by apply (wpi_page_set_allocated geo current other c nodes oc onodes d0 Hvol d tx1 r x false)| |]; cbn beta.
  2: { intros e s [? ?]. split; [done|]. by left. }
  intros changed [d2 tx2] (Hr2 & -> & Hc2 & [Hacc Hm] & Hacc2). cbn [fst snd] in *.
  assert (mark (page_now tx1) r x = true) as Hmk.
  { apply (mark_elem geo); [done|done|]. rewrite <- He. change (lba ∈ marks tx). rewrite (ti_marks _ _ _ _ _ _ _ Hinv). set_solver. }
  rewrite Hmk. cbn [Bool.eqb negb]. apply wpi_bind, wpi_modify. cbn [fst snd].
  destruct (ledger_fields _ _ (proj1 (accounts_split _ _ Hacc2))) as (Ha2 & Hb2 & Hs2 & Hrr & Hri & _ & Hrc & Hng & Hsup & Hlv & Hrel).
  pose proof (ti_snapshot _ _ _ _ _ _ _ Hinv) as Hsn. destruct (forget_allocation_eq lba tx2) as (snapshot & -> & Hsnap).
  { rewrite Hs2. apply (snapshot_runs_ok tx Hsn). }
  apply wpi_bind, wpi_modify. cbn [fst snd]. apply wpi_modify. cbn [fst snd]. split; [done|]. set (tx4 := tally_alloc _ _ _).
  assert (marks tx4 = marks tx ∖ {[lba]}) as Hmarks.
  { change (marks tx4) with (marks (mark_dirty r (x / BITMAP_PAGE_BLOCKS) tx2)). unfold AllocOps.marks. rewrite (marked_set_update geo (page_now tx1) _ r x false Hreg Hx Hm), <- He. done. }
  assert (mine tx4 = mine tx ∖ {[lba]}) as Hmine by (unfold mine at 1; cbn; rewrite Ha2; exact Hb).
  assert (ta_retired_this_tx tx4 = ta_retired_this_tx tx) as Hret by (cbn; by rewrite Hb2). assert (gone tx4 = gone tx) as Hgone by (unfold gone; by rewrite Hret).
  assert (ta_snapshot tx = None -> ta_snapshot tx4 = None) as Hnone.
  { intros Hn. cbn. rewrite Hs2 in Hsnap. change (ta_snapshot tx1) with (ta_snapshot tx) in Hsnap. rewrite Hn in Hsnap. by destruct snapshot. }
  split; [|split; [done|split; [done|split; [done|split; [done|cbn; by rewrite Hrc, Hng]]]]]. apply (released_inv tx tx4 lba); try done.
  - by apply (caches_ext geo current other c oc (mark_dirty r (x / BITMAP_PAGE_BLOCKS) tx2)).
  - cbn. by rewrite Ha2.
  - unfold snapshot_ok in *. rewrite Hmine, Hgone. cbn [ta_snapshot tx4 tally_alloc set_stats mark_dirty set_dirty set_snapshot]. rewrite Hs2 in Hsnap. change (ta_snapshot tx1) with (ta_snapshot tx) in Hsnap.
    destruct (ta_snapshot tx) as [a|], snapshot as [b|]; try done. destruct Hsn as (? & ? & ? & ?), Hsnap as (_ & Hre & ? & Hbl). rewrite Hre, Hbl. split; [done|]. split; [done|]. split; [set_solver|done].
  - cbn. by rewrite Hrr, Hri.
  - change (live tx4) with (alloc_count tx2 blocks_allocated - (1 + alloc_count tx2 blocks_released)). change (live tx1) with (live tx) in Hlv. unfold live in *. lia.
  - change (alloc_count tx4 blocks_released) with (1 + alloc_count tx2 blocks_released). change (alloc_count tx1 blocks_released) with (alloc_count tx blocks_released) in Hrel. lia.
Qed.
End Reading.
End Back.
