(* ===== verification/AllocClaim.v ===== *)
(** * Claiming, extending and abandoning runs (crates/afsplus-core/src/alloc.rs)

    Claiming takes a run that is named; extending claims the blocks behind a
    run when they are free; abandoning hands a run the transaction allocated
    to the quarantine. *)

From S2P Require Import Prelude Crc32c Format Header Codec TreeNode Geometry Bitmap Region Checkpoint Device Core Tree TreeSpec TreeReaders TreeVerify.
From S2P Require Import CowTree CowStore AllocRoot AllocPlace AllocRootSpec ReclaimCodec Reclaim ReclaimQueue RunSet Alloc AllocSpec AllocTx AllocScan AllocOps AllocBack.

Section Claim.
Context {D : Type} {device : BlockDevice Decoded D} {contract : DeviceContract Decoded D core_decodes}.
Context (geo : Geometry) {WF : WfGeometry geo}.
Context (current : Checkpoint) (other : option Checkpoint) (c : Committed) (nodes : list (Z * TreeNode)) (oc : Committed) (onodes : list (Z * TreeNode)).
Context (promoted : gset Z).

Abbreviation caches := (caches_ok geo current other c oc).
Abbreviation still := (quiet geo c).
Abbreviation page_now := (now c).
Abbreviation marks := (AllocOps.marks geo c).
Abbreviation base := (AllocOps.base geo c promoted).
Abbreviation inv := (tx_inv geo current other c oc promoted).
Abbreviation took := (AllocOps.took geo current other c oc promoted).

(** Allocatable blocks that are free. *)
Definition claimable (tx : TxAllocator) (R : gset Z) : Prop := (forall x, x ∈ R -> 0 <= x /\ allocatable geo x = true) /\ R ## marks tx.

Lemma claimable_mark tx lba : 0 <= lba < total_blocks geo -> mark (page_now tx) (lba / region_size geo) (lba mod region_size geo) = true <-> lba ∈ marks tx.
Proof. intros Hl. unfold AllocOps.marks. rewrite elem_of_marked_set. unfold marked. tauto. Qed.

(** What claiming a run needs. *)
Definition claim_ok (tx : TxAllocator) (start blocks : Z) : Prop :=
  check_snapshot_writable tx = Ok tt /\ 0 < blocks /\ ta_free_block_floor tx <= Z.max 0 (free_total geo (page_now tx) - blocks) /\ claimable tx (run_blocks start (start + blocks)).

Lemma claim_ok_quiet tx tx' start blocks : still tx tx' -> claim_ok tx start blocks -> claim_ok tx' start blocks.
Proof.
  intros Hq (Hw & Hb & Hf & Ha & Hd). pose proof (wf_total (g := geo)). destruct (ledger_fields _ _ (proj1 (accounts_split _ _ (proj1 Hq)))) as (_ & _ & Hs & _ & _ & Hfl & _).
  pose proof (quiet_marks geo c tx tx' Hq) as Hm. unfold claim_ok, claimable. rewrite Hm, Hfl. rewrite free_total_size in Hf |- * by lia. fold (marks tx) in Hf. fold (marks tx'). rewrite Hm.
  split; [|done]. unfold check_snapshot_writable, check_snapshot_health, in_phase in *. by rewrite Hs.
Qed.

Lemma claimable_end tx start blocks : 0 < blocks -> claimable tx (run_blocks start (start + blocks)) -> start + blocks <= total_blocks geo.
Proof. intros Hb [Ha _]. destruct (Ha (start + blocks - 1)) as [_ Hx]; [apply elem_of_run_blocks; lia|]. unfold allocatable in Hx. lia. Qed.

Section Reading.
Context (d0 : D) (Hvol : volume_ok geo current other c nodes oc onodes d0).

Lemma wpi_claim_exact d tx lba :
  reads d0 d -> caches tx -> 0 <= lba ->
  wpi (claim_exact lba) (d, tx)
    (fun _ s => reads d0 (fst s) /\ caches (snd s) /\ ledger (snd s) = ledger tx /\ claimable tx {[lba]} /\ marks (snd s) = {[lba]} ∪ marks tx)
    (fun e s => reads d0 (fst s) /\ (only_io e \/ ~ claimable tx {[lba]})).
Proof.
  intros Hr Hc H0. unfold claim_exact. apply wpi_bind, wpi_get. cbn [snd]. rewrite (ca_geo _ _ _ _ _ _ Hc), (is_allocatable_eq geo) by done. apply wpi_bind, wpi_lift, wp_ok.
  apply wpi_if; intros Ha. { apply wpi_err. split; [done|]. right. intros [Hx _]. destruct (Hx lba) as [_ Hy]; [set_solver|]. by rewrite Hy in Ha. }
  apply negb_false_iff in Ha. assert (0 <= lba < total_blocks geo) as Hl by (unfold allocatable in Ha; lia). destruct (lba_region geo lba Hl) as (Hreg & He & Hx).
  rewrite locate_eq by done. apply wpi_bind, wpi_lift, wp_ok, wpi_bind.
  eapply wpi_mono; [by apply (wpi_page_is_allocated geo current other c nodes oc onodes d0)| |]; cbn beta; [|intros e s [? ?]; split; [done|by left]].
  intros b [d1 tx1] (Hr1 & Hc1 & Hq1 & ->). cbn [fst snd] in *. apply wpi_if; intros Hm.
  { apply wpi_err. split; [done|]. right. intros [_ Hd]. apply claimable_mark in Hm; [|done]. set_solver. }
  assert (lba ∉ marks tx) as Hn by (intros Hin; apply claimable_mark in Hin; [congruence|done]).
  apply wpi_bind. eapply wpi_mono; [by apply (wpi_page_set_allocated geo current other c nodes oc onodes d0 Hvol d1 tx1 _ _ true)| |]; cbn beta; [|intros e s [? ?]; split; [done|by left]].
  intros _ [d2 tx2] (Hr2 & _ & Hc2 & [Hacc Hrm] & _). cbn [fst snd] in *. apply wpi_modify. cbn [fst snd]. split; [done|]. split; [done|].
  split; [apply accounts_split in Hacc as [-> _]; by apply (accounts_split _ _ (proj1 Hq1))|]. split; [split; [intros x ->%elem_of_singleton; done|set_solver]|].
  unfold AllocOps.marks at 1. rewrite (marked_set_update geo (page_now tx1) _ _ _ true Hreg Hx Hrm), <- He. fold (marks tx1). by rewrite (quiet_marks geo c tx tx1 Hq1).
Qed.

Lemma wpi_claim_exacts n : forall d tx start,
  reads d0 d -> caches tx -> 0 <= start ->
  wpi (ieach claim_exact (seqZ start (Z.of_nat n))) (d, tx)
    (fun _ s => reads d0 (fst s) /\ caches (snd s) /\ ledger (snd s) = ledger tx /\ claimable tx (run_blocks start (start + Z.of_nat n)) /\
       marks (snd s) = run_blocks start (start + Z.of_nat n) ∪ marks tx)
    (fun e s => reads d0 (fst s) /\ (only_io e \/ ~ claimable tx (run_blocks start (start + Z.of_nat n)))).
Proof.
  induction n as [|n IH]; intros d tx start Hr Hc H0.
  - assert (run_blocks start (start + Z.of_nat 0) = ∅) as -> by (apply set_eq; intros x; rewrite elem_of_run_blocks; set_solver by lia). cbn. apply wpi_ret.
    split; [done|]. split; [done|]. split; [done|]. split; [split; set_solver|]. set_solver.
  - assert (run_blocks start (start + Z.of_nat (S n)) = {[start]} ∪ run_blocks (start + 1) (start + 1 + Z.of_nat n)) as ->.
    { apply set_eq. intros x. rewrite elem_of_union, elem_of_singleton, !elem_of_run_blocks. lia. }
    rewrite seqZ_S. cbn [ieach]. apply wpi_bind. eapply wpi_mono; [by apply wpi_claim_exact| |]; cbn beta.
    2: { intros e s [? He]. split; [done|]. destruct He as [|He]; [by left|right]. intros [Ha Hd]. apply He. split; [intros x Hx; apply Ha; set_solver|set_solver]. }
    intros _ [d1 tx1] (Hr1 & Hc1 & Hl1 & [Ha1 Hd1] & Hm1). cbn [fst snd] in *. eapply wpi_mono; [apply IH; [done|done|lia]| |]; cbn beta.
    + intros _ s (Hr2 & Hc2 & Hl2 & [Ha2 Hd2] & Hm2). rewrite Hm1 in Hd2, Hm2. split; [done|]. split; [done|]. split; [by rewrite Hl2|].
      split; [split; [intros x [Hx|Hx]%elem_of_union; [by apply Ha1|by apply Ha2]|set_solver]|]. rewrite Hm2. set_solver.
    + intros e s [? He]. split; [done|]. destruct He as [|He]; [by left|right]. intros [Ha Hd]. apply He. split; [intros x Hx; apply Ha; set_solver|]. rewrite Hm1.
      assert ({[start]} ## run_blocks (start + 1) (start + 1 + Z.of_nat n)) by (apply elem_of_disjoint; intros x ->%elem_of_singleton Hx%elem_of_run_blocks; lia). set_solver.
Qed.

Lemma wpi_allocate_exact_run d tx start blocks :
  reads d0 d -> inv tx -> 0 <= start -> 0 <= blocks ->
  wpi (allocate_exact_run start blocks) (d, tx)
    (fun _ s => reads d0 (fst s) /\ claim_ok tx start blocks /\ took tx (snd s) (run_blocks start (start + blocks)))
    (fun e s => reads d0 (fst s) /\ (only_io e \/ ~ claim_ok tx start blocks)).
Proof.
  intros Hr Hinv H0 Hb0. pose proof (wf_total (g := geo)) as Ht. unfold allocate_exact_run. apply wpi_bind. unfold on_tx at 1. apply wpi_bind, wpi_get. cbn [snd]. apply wpi_lift.
  destruct (check_writable_total tx) as [Hw|[what Hw]]; rewrite Hw; [apply wp_ok|apply wp_err; split; [done|right; intros (? & _); congruence]].
  apply wpi_if; intros Hz; [apply wpi_err; split; [done|right; intros (_ & ? & _); lia]|]. assert (0 < blocks) as Hb by lia.
  apply wpi_bind. unfold on_tx at 1. apply wpi_bind, wpi_get. cbn [snd]. apply wpi_lift. unfold ensure_above_floor, above_floor. rewrite (free_blocks_remaining_eq geo _ _ _ _ _ _ Hinv). unfold saturating_sub.
  apply wp_if; intros Hfl; [|apply wp_err; split; [done|right; intros (_ & _ & ? & _); lia]]. apply wp_ok.
  unfold checked_add. destruct (start + blocks <? 2 ^ 64) eqn:Hov; cbn [ok_or]; apply wpi_bind, wpi_lift; [apply wp_ok|apply wp_err; split; [done|right; intros (_ & _ & _ & Hx%claimable_end); lia]].
  replace (start + blocks - start) with (Z.of_nat (Z.to_nat blocks)) by lia. apply wpi_bind.
  eapply wpi_mono; [apply wpi_claim_exacts; [done|apply Hinv|done]| |]; cbn beta; rewrite (Z2Nat.id blocks) by lia.
  2: { intros e s [? He]. split; [done|]. destruct He as [|He]; [by left|right]. by intros (_ & _ & _ & ?). }
  set (R := run_blocks start (start + blocks)). intros _ [d1 tx1] (Hr1 & Hc1 & Hl1 & Hcl & Hm1). cbn [fst snd] in *. pose proof Hcl as [Hall Hdis].
  destruct (ledger_fields _ _ Hl1) as (Ha1 & Hb1 & Hs1 & Hrr & Hri & Hfl1 & Hrc & Hg & Hsup & Hlv & Hrel). assert (mine tx1 = mine tx) as Hmine by (unfold mine; by rewrite Ha1).
  assert (mine tx ## R) as Hmd by (pose proof (ti_marks _ _ _ _ _ _ _ Hinv) as Hm; rewrite Hm in Hdis; set_solver).
  apply wpi_bind. eapply wpi_mono; [apply wpi_insert_allocated; [rewrite Ha1; apply Hinv|lia|by rewrite Hmine]| |]; cbn beta; [|done].
  intros _ s (runs & -> & Hruns & Hblocks). apply wpi_bind. eapply wpi_mono; [apply (wpi_track_snapshot geo current other c nodes oc onodes d0 Hvol); [|lia]| |]; cbn beta; [|intros _ s (snapshot & -> & Htr)|done].
  { cbn [ta_snapshot set_allocated_runs]. rewrite Hs1. pose proof (ti_snapshot _ _ _ _ _ _ _ Hinv) as Hsn. unfold snapshot_ok in Hsn. destruct (ta_snapshot tx) as [s|]; [|done].
    destruct Hsn as (? & _ & ? & _). split; [done|]. fold R. set_solver. }
  cbn [ta_snapshot set_allocated_runs] in Htr. rewrite Hs1 in Htr. apply wpi_modify. cbn [fst snd]. split; [done|]. split; [unfold claim_ok; split; [done|]; split; [done|]; split; [lia|done]|].
  set (tx3 := tally_alloc _ _ _). assert (marks tx3 = R ∪ marks tx) as Hm3 by exact Hm1. assert (mine tx3 = R ∪ mine tx) as Hmine3 by (unfold mine at 1; cbn; by rewrite Hblocks, Hmine).
  assert (inv tx3) as Hinv3.
  { apply (taken_inv geo current other c nodes oc onodes promoted d0 Hvol tx tx3 R); try done.
    - by apply (caches_ext geo current other c oc tx1).
    - cbn. rewrite Hrr, Hri. apply Hinv.
    - unfold R. rewrite size_run_blocks by lia. change (live tx3) with (blocks + alloc_count tx1 blocks_allocated - alloc_count tx1 blocks_released). unfold live in *. lia. }
  split; [done|]. split; [done|]. split; [done|]. split; [done|]. split; [done|]. cbn. rewrite Hrc, Hg, Hfl1. done.
Qed.
(** ** Extending a run *)

Lemma wpi_all_free_in tx0 r n : forall d tx start,
  reads d0 d -> caches tx -> still tx0 tx -> 0 <= r < regions geo -> r * region_size geo <= start -> start + Z.of_nat n <= (r + 1) * region_size geo -> start + Z.of_nat n <= total_blocks geo ->
  wpi (all_free_in geo r (seqZ start (Z.of_nat n))) (d, tx)
    (fun b s => reads d0 (fst s) /\ caches (snd s) /\ still tx0 (snd s) /\ (b = true <-> claimable tx0 (run_blocks start (start + Z.of_nat n))))
    (fun e s => reads d0 (fst s) /\ only_io e).
Proof.
  pose proof (wf_region (g := geo)) as Hrs. induction n as [|n IH]; intros d tx start Hr Hc Hq Hreg Hs He Ht.
  - cbn. apply wpi_ret. split; [done|]. split; [done|]. split; [done|]. split; [|done]. intros _. split; [intros x Hx%elem_of_run_blocks; lia|apply elem_of_disjoint; intros x Hx%elem_of_run_blocks; lia].
  - assert (run_blocks start (start + Z.of_nat (S n)) = {[start]} ∪ run_blocks (start + 1) (start + 1 + Z.of_nat n)) as ->.
    { apply set_eq. intros x. rewrite elem_of_union, elem_of_singleton, !elem_of_run_blocks. lia. }
    assert (0 <= start < total_blocks geo) as Hl by nia. destruct (region_quotient geo r (start - r * region_size geo) ltac:(lia)) as [Hdiv Hmod].
    replace (r * region_size geo + (start - r * region_size geo)) with start in Hdiv, Hmod by lia. destruct (lba_region geo start Hl) as (_ & _ & Hx). rewrite Hdiv, Hmod in Hx.
    rewrite seqZ_S. cbn [all_free_in]. rewrite (is_allocatable_eq geo) by lia. apply wpi_bind, wpi_lift, wp_ok. apply wpi_if; intros Ha.
    { apply wpi_ret. split; [done|]. split; [done|]. split; [done|]. split; [done|]. intros [Hall _]. destruct (Hall start) as [_ Hy]; [set_solver|]. by rewrite Hy in Ha. }
    apply negb_false_iff in Ha. unfold sub_w, region_base. replace (_ <=? _) with true by lia. apply wpi_bind, wpi_lift, wp_ok. rewrite as_u32_small by (unfold u32; lia). unfold bitmap_page_for_index.
    apply wpi_bind. eapply wpi_mono; [by apply (wpi_page_is_allocated geo current other c nodes oc onodes d0)| |]; cbn beta; [|done].
    intros b [d1 tx1] (Hr1 & Hc1 & Hq1 & ->). cbn [fst snd] in *. rewrite (quiet_mark geo c tx0 tx) by done.
    pose proof (claimable_mark tx0 start Hl) as Hmk. rewrite Hdiv, Hmod in Hmk. apply wpi_if; intros Hm.
    { apply wpi_ret. split; [done|]. split; [done|]. split; [by eapply quiet_trans|]. split; [done|]. intros [_ Hd]. apply Hmk in Hm. set_solver. }
    assert (start ∉ marks tx0) as Hn by (intros Hin; apply Hmk in Hin; congruence).
    eapply wpi_mono; [apply IH; [done|done|by eapply quiet_trans|done|lia|lia|lia]| |]; cbn beta; [|done].
    intros b s (? & ? & ? & Hb). split; [done|]. split; [done|]. split; [done|]. rewrite Hb. split; intros [Hall Hd]; (split; [|set_solver]); intros x Hin.
    + apply elem_of_union in Hin as [->%elem_of_singleton|Hin]; [split; [lia|done]|by apply Hall].
    + apply Hall. set_solver.
Qed.

(** The blocks behind the run [run_start, start) can be added to it. *)
Definition extendable (tx : TxAllocator) (run_start start blocks : Z) : Prop :=
  claim_ok tx start blocks /\ run_start / region_size geo = (start + blocks - 1) / region_size geo.

Lemma wpi_try_extend_run d tx run_start run_blocks' blocks :
  reads d0 d -> inv tx -> 0 <= run_start -> 0 <= run_blocks' -> 0 <= blocks ->
  let start := run_start + run_blocks' in
  wpi (try_extend_run run_start run_blocks' blocks) (d, tx)
    (fun b s => reads d0 (fst s) /\
       if (b : bool) then blocks = 0 /\ s = (d, tx) \/ extendable tx run_start start blocks /\ took tx (snd s) (run_blocks start (start + blocks))
       else inv (snd s) /\ still tx (snd s) /\ ~ extendable tx run_start start blocks)
    (fun e s => reads d0 (fst s) /\ (only_io e \/ check_snapshot_writable tx = Err e \/ 2 ^ 64 <= start + blocks)).
Proof.
  intros Hr Hinv H0 H1 H2 start. pose proof (wf_total (g := geo)) as Ht. pose proof (wf_region (g := geo)) as Hrs. unfold try_extend_run. apply wpi_bind. unfold on_tx at 1. apply wpi_bind, wpi_get. cbn [snd]. apply wpi_lift.
  destruct (check_writable_total tx) as [Hw|[what Hw]]; rewrite Hw; [apply wp_ok|apply wp_err; split; [done|by right; left]].
  apply wpi_if; intros Hz; [apply wpi_ret; split; [done|left; split; [lia|done]]|].
  unfold checked_add. fold start. destruct (start <? 2 ^ 64) eqn:Hov; cbn [ok_or]; apply wpi_bind, wpi_lift; [apply wp_ok|apply wp_err; split; [done|right; right; lia]].
  destruct (start + blocks <? 2 ^ 64) eqn:Hov2; cbn [ok_or]; apply wpi_bind, wpi_lift; [apply wp_ok|apply wp_err; split; [done|right; right; lia]].
  apply wpi_bind, wpi_get. cbn [snd]. rewrite (ca_geo _ _ _ _ _ _ (ti_caches _ _ _ _ _ _ _ Hinv)).
  assert (still tx tx) as Hqq by done. apply wpi_if; intros Hend.
  { apply wpi_ret. split; [done|]. split; [done|]. split; [done|]. intros [(_ & _ & _ & Hx%claimable_end) _]; lia. }
  unfold above_floor. rewrite (free_blocks_remaining_eq geo _ _ _ _ _ _ Hinv). unfold saturating_sub. apply wpi_if; intros Hfl.
  { apply wpi_ret. split; [done|]. split; [done|]. split; [done|]. intros [(_ & _ & ? & _) _]. lia. }
  rewrite (region_of_eq geo) by lia. apply wpi_bind, wpi_lift, wp_ok. unfold sub_w. replace (1 <=? start + blocks) with true by lia. apply wpi_bind, wpi_lift, wp_ok.
  rewrite (region_of_eq geo) by lia. apply wpi_bind, wpi_lift, wp_ok. apply wpi_if; intros Hreg.
  { apply wpi_ret. split; [done|]. split; [done|]. split; [done|]. intros [_ ?]. lia. }
  destruct (lba_region geo run_start ltac:(lia)) as (Hrr & _ & _). set (r := run_start / region_size geo) in *. assert ((start + blocks - 1) / region_size geo = r) as Hlast by lia.
  pose proof (Z.div_mod run_start (region_size geo) ltac:(lia)). pose proof (Z.mod_pos_bound run_start (region_size geo) ltac:(lia)). fold r in H.
  pose proof (Z.div_mod (start + blocks - 1) (region_size geo) ltac:(lia)) as Hdl. pose proof (Z.mod_pos_bound (start + blocks - 1) (region_size geo) ltac:(lia)). rewrite Hlast in Hdl.
  replace (start + blocks - start) with (Z.of_nat (Z.to_nat blocks)) by lia. apply wpi_bind.
  eapply wpi_mono; [apply (wpi_all_free_in tx r (Z.to_nat blocks) d tx start); [done|apply Hinv|done|done|lia|lia|lia]| |]; cbn beta; [rewrite (Z2Nat.id blocks) by lia|intros e s [? ?]; split; [done|by left]].
  intros b [d1 tx1] (Hr1 & Hc1 & Hq1 & Hb). cbn [fst snd] in *. assert (inv tx1) as Hinv1 by by eapply (quiet_inv geo current other c oc promoted tx). apply wpi_if; intros Hfree.
  { apply wpi_ret. split; [done|]. split; [done|]. split; [done|]. intros [(_ & _ & _ & Hcl) _]. apply Hb in Hcl. by rewrite Hcl in Hfree. }
  apply negb_false_iff, Hb in Hfree. assert (claim_ok tx start blocks) as Hok by (split; [done|]; split; [lia|]; split; [lia|done]).
  assert (claim_ok tx1 start blocks) as Hok1 by by apply (claim_ok_quiet tx). apply wpi_bind.
  eapply wpi_mono; [apply wpi_allocate_exact_run; [done|done|lia|lia]| |]; cbn beta; [|intros e s [? [?|?]]; [split; [done|by left]|done]].
  intros _ s (Hr2 & _ & Htook). apply wpi_ret. split; [done|]. right. split; [done|]. by eapply took_quiet.
Qed.
(** ** Abandoning a run *)

Lemma wpi_abandon_blocks n : forall (d : D) tx start,
  run_set_ok (ta_allocated_this_tx tx) ->
  wpi (ieach abandon_block (seqZ start (Z.of_nat n))) (d, tx)
    (fun _ s => run_blocks start (start + Z.of_nat n) ⊆ mine tx /\ exists runs, s = (d, set_allocated_runs runs tx) /\ run_set_ok runs /\
       blocks_of runs = mine tx ∖ run_blocks start (start + Z.of_nat n))
    (fun e s => fst s = d /\ ~ (run_blocks start (start + Z.of_nat n) ⊆ mine tx)).
Proof.
  induction n as [|n IH]; intros d tx start Hok.
  - assert (run_blocks start (start + Z.of_nat 0) = ∅) as -> by (apply set_eq; intros x; rewrite elem_of_run_blocks; set_solver by lia). cbn. apply wpi_ret. split; [set_solver|].
    exists (ta_allocated_this_tx tx). split; [by destruct tx|]. split; [done|]. unfold mine. set_solver.
  - assert (run_blocks start (start + Z.of_nat (S n)) = {[start]} ∪ run_blocks (start + 1) (start + 1 + Z.of_nat n)) as ->.
    { apply set_eq. intros x. rewrite elem_of_union, elem_of_singleton, !elem_of_run_blocks. lia. }
    rewrite seqZ_S. cbn [ieach]. apply wpi_bind. unfold abandon_block at 1. apply wpi_bind, wpi_get. cbn [snd].
    destruct (remove_block_spec (ta_allocated_this_tx tx) start Hok) as [(Hin & runs & -> & Hok' & Hb & _)|[Hn ->]]; [|apply wpi_bind, wpi_modify, wpi_err; split; [done|]; fold (mine tx) in Hn; set_solver].
    fold (mine tx) in Hin, Hb. apply wpi_bind, wpi_modify, wpi_ret. cbn [fst snd]. assert ({[start]} ## run_blocks (start + 1) (start + 1 + Z.of_nat n)) as Hne
      by (apply elem_of_disjoint; intros x ->%elem_of_singleton Hx%elem_of_run_blocks; lia).
    eapply wpi_mono; [by apply IH| |]; cbn beta; change (mine (set_allocated_runs runs tx)) with (blocks_of runs); rewrite Hb.
    + intros _ s (Hsub & runs' & -> & Hok2 & Hb2). split; [set_solver|]. exists runs'. split; [done|]. split; [done|]. rewrite Hb2. set_solver.
    + intros e s [? Hn]. split; [done|]. set_solver.
Qed.

Lemma forget_allocations_eq n : forall start tx,
  match ta_snapshot tx with Some s => run_set_ok (sa_allocations s) | None => True end ->
  exists snapshot, foldl (fun tx lba => forget_allocation lba tx) tx (seqZ start (Z.of_nat n)) = set_snapshot snapshot tx /\
    match ta_snapshot tx, snapshot with
    | Some a, Some b => sa_retirements b = sa_retirements a /\ run_set_ok (sa_allocations b) /\ blocks_of (sa_allocations b) = blocks_of (sa_allocations a) ∖ run_blocks start (start + Z.of_nat n)
    | None, None => True
    | _, _ => False
    end.
Proof.
  induction n as [|n IH]; intros start tx Hs.
  - exists (ta_snapshot tx). split; [by destruct tx|]. destruct (ta_snapshot tx) as [a|]; [|done]. split; [done|]. split; [done|]. apply set_eq. intros x. rewrite elem_of_difference, elem_of_run_blocks. intuition lia.
  - rewrite seqZ_S. cbn [foldl]. destruct (forget_allocation_eq geo start tx Hs) as (s1 & -> & H1).
    destruct (IH (start + 1) (set_snapshot s1 tx)) as (s2 & -> & H2); cbn [ta_snapshot set_snapshot] in *; [destruct (ta_snapshot tx), s1; (done || by destruct H1 as (_ & _ & ? & _))|].
    exists s2. split; [done|]. destruct (ta_snapshot tx) as [a|], s1 as [b|]; try done. destruct s2 as [b'|]; [|done]. destruct H1 as (_ & Hr1 & _ & Hb1), H2 as (Hr2 & Hok & Hb2).
    split; [congruence|]. split; [done|]. rewrite Hb2, Hb1. apply set_eq. intros x. rewrite !elem_of_difference, elem_of_singleton, !elem_of_run_blocks. intuition lia.
Qed.

Definition abandonable (tx : TxAllocator) (start blocks : Z) : Prop :=
  check_snapshot_writable tx = Ok tt /\ 0 < blocks < 2 ^ 32 /\ check_snapshot_release start (start + blocks) tx = Ok tt /\ run_blocks start (start + blocks) ⊆ mine tx.

Definition abandoned_to (tx tx' : TxAllocator) (start blocks : Z) : Prop :=
  let R := run_blocks start (start + blocks) in
  0 < blocks < 2 ^ 32 /\ inv tx' /\ R ⊆ mine tx /\ marks tx' = marks tx /\ mine tx' = mine tx ∖ R /\ gone tx' = R ∪ gone tx /\
  ta_new_generation tx' = ta_new_generation tx /\ (ta_snapshot tx = None -> ta_snapshot tx' = None) /\
  exists reclaim, ta_reclaim tx = Some reclaim /\ validate_run geo (retired_run (rx_new_generation reclaim) (start, blocks)) = Ok tt /\ ta_reclaim tx' = Some (with_run reclaim (start, blocks)).

Lemma mine_run tx start blocks : inv tx -> run_blocks start (start + blocks) ⊆ mine tx -> 0 < blocks ->
  start + blocks <= total_blocks geo /\ forall lba, start <= lba < start + blocks -> allocatable geo lba = true.
Proof.
  intros Hinv Hsub Hb. assert (forall lba, start <= lba < start + blocks -> allocatable geo lba = true) as Hall.
  { intros lba Hl. destruct (ti_allocatable _ _ _ _ _ _ _ Hinv lba) as [_ Ha]; [|done]. assert (lba ∈ run_blocks start (start + blocks)) by (apply elem_of_run_blocks; lia). set_solver. }
  split; [|done]. pose proof (Hall (start + blocks - 1) ltac:(lia)) as Ha. unfold allocatable in Ha. lia.
Qed.

Lemma wpi_abandon_uncommitted_run (d : D) tx start blocks :
  inv tx -> is_Some (ta_reclaim tx) -> 0 <= start -> 0 <= blocks ->
  wpi (abandon_uncommitted_run start blocks) (d, tx)
    (fun _ s => fst s = d /\ abandoned_to tx (snd s) start blocks)
    (fun e s => fst s = d /\ ~ abandonable tx start blocks).
Proof.
  intros Hinv Hrec H0 Hb0. pose proof (wf_total (g := geo)) as Ht. unfold abandon_uncommitted_run. apply wpi_bind. unfold on_tx at 1. apply wpi_bind, wpi_get. cbn [snd]. apply wpi_lift.
  destruct (check_writable_total tx) as [Hw|[what Hw]]; rewrite Hw; [apply wp_ok|apply wp_err; split; [done|intros (? & _); congruence]].
  apply wpi_if; intros Hbad; [apply wpi_err; split; [done|intros (_ & ? & _); lia]|]. assert (0 < blocks < 2 ^ 32) as Hb by lia.
  unfold checked_add. destruct (start + blocks <? 2 ^ 64) eqn:Hov; cbn [ok_or]; apply wpi_bind, wpi_lift; [apply wp_ok|].
  2: { apply wp_err. split; [done|]. intros (_ & _ & _ & Hsub). destruct (mine_run tx start blocks Hinv Hsub ltac:(lia)). lia. }
  apply wpi_bind. unfold on_tx at 1. apply wpi_bind, wpi_get. cbn [snd]. apply wpi_lift. pose proof (check_release_total tx start (start + blocks) (ti_snapshot _ _ _ _ _ _ _ Hinv) ltac:(lia)) as Hnp.
  destruct (check_snapshot_release start (start + blocks) tx) as [[]|e|] eqn:Hrel; [apply wp_ok|apply wp_err; split; [done|intros (_ & _ & ? & _); congruence]|done].
  replace (start + blocks - start) with (Z.of_nat (Z.to_nat blocks)) by lia. set (R := run_blocks start (start + blocks)). apply wpi_bind.
  eapply wpi_mono; [apply wpi_abandon_blocks, Hinv| |]; cbn beta; rewrite (Z2Nat.id blocks) by lia; [|intros e s [? Hn]; split; [done|by intros (_ & _ & _ & ?)]].
  intros _ s (Hsub & runs & -> & Hruns & Hblocks). destruct (mine_run tx start blocks Hinv Hsub ltac:(lia)) as [Hend Hall]. fold R in Hsub, Hblocks. apply wpi_bind, wpi_modify. cbn [fst snd].
  destruct (forget_allocations_eq (Z.to_nat blocks) start (set_allocated_runs runs tx)) as (snapshot & Hfold & Hsnap); [apply (snapshot_runs_ok tx), (ti_snapshot _ _ _ _ _ _ _ Hinv)|].
  rewrite (Z2Nat.id blocks) in Hfold, Hsnap by lia. rewrite Hfold. cbn [ta_snapshot set_allocated_runs] in Hsnap. clear Hfold. set (tx1 := set_snapshot snapshot (set_allocated_runs runs tx)).
  apply wpi_bind. eapply wpi_mono; [apply (wpi_insert_retired d tx1); [apply Hinv|lia]| |]; cbn beta.
  2: { intros e s [_ Hn]. exfalso. apply Hn. change (gone tx1) with (gone tx). pose proof (ti_fresh _ _ _ _ _ _ _ Hinv). fold R. set_solver. }
  intros _ s (_ & runs' & -> & Hruns' & Hblocks'). fold R in Hblocks'. change (gone tx1) with (gone tx) in Hblocks'. rewrite as_u32_small by (unfold u32; lia). apply wpi_bind.
  eapply wpi_mono; [apply (append_reclaim_spec geo d); [done|apply (ca_geo _ _ _ _ _ _ (ti_caches _ _ _ _ _ _ _ Hinv))|done|done]| |]; cbn beta.
  2: { intros e s [_ Hn]. exfalso. destruct Hrec as [x Hx]. apply (Hn x Hx). by apply (validate_allocatable_run geo); [|lia|]. }
  intros _ s (reclaim & Hrc & Hval & ->). apply wpi_modify. cbn [fst snd]. split; [done|]. set (tx2 := tally_alloc _ _ _).
  assert (mine tx2 = mine tx ∖ R) as Hmine by exact Hblocks. assert (gone tx2 = R ∪ gone tx) as Hgone by exact Hblocks'. pose proof (ti_fresh _ _ _ _ _ _ _ Hinv) as Hfr. pose proof (ti_snapshot _ _ _ _ _ _ _ Hinv) as Hsn. unfold snapshot_ok in Hsn.
  assert (ta_snapshot tx = None -> snapshot = None) as Hnone by (intros Hx; rewrite Hx in Hsnap; by destruct snapshot).
  split; [done|]. split; [|split; [done|split; [done|split; [done|split; [done|split; [done|split; [done|by exists reclaim]]]]]]]. apply (regroup_inv geo current other c nodes oc onodes promoted d0 Hvol tx); try done.
  - by apply (caches_ext geo current other c oc tx); [apply Hinv|].
  - rewrite Hmine. set_solver.
  - rewrite Hmine, Hgone. set_solver.
  - rewrite Hmine, Hgone. apply set_eq. intros x. rewrite !elem_of_union, elem_of_difference. destruct (decide (x ∈ R)) as [Hx|Hx]; [|tauto]. pose proof (Hsub x Hx). tauto.
  - intros lba. rewrite Hgone, elem_of_union. intros [Hl%elem_of_run_blocks|Hl]; [split; [lia|by apply Hall]|]. apply (ti_allocatable _ _ _ _ _ _ _ Hinv). set_solver.
  - unfold snapshot_ok. rewrite Hmine, Hgone. cbn [ta_snapshot tx2 tx1 tally_alloc set_stats set_reclaim set_retired_runs set_snapshot set_allocated_runs].
    destruct (ta_snapshot tx) as [a|], snapshot as [b|]; try done. destruct Hsn as (? & ? & ? & ?), Hsnap as (Hre & ? & Hbl). fold R in Hbl. rewrite Hre, Hbl. split; [done|]. split; [done|]. split; set_solver.
Qed.
End Reading.
End Claim.
