(* ===== verification/AllocBegin.v ===== *)
(** * Opening a transaction (crates/afsplus-core/src/alloc.rs: begin_inner)

    The blocks the reclaim queue promotes are cleared in the bitmaps; the
    transaction that results satisfies the invariant of AllocOps.v. *)

From S2P Require Import Prelude Crc32c Format Header Codec TreeNode Geometry Bitmap Region Checkpoint Leaf Device Core Tree TreeSpec TreeReaders TreeVerify.
From S2P Require Import CowTree CowStore AllocRoot AllocRootSpec ReclaimCodec Reclaim ReclaimQueue RunSet Alloc AllocSpec AllocTx AllocScan AllocOps AllocBack.

(** ** The blocks of a queue *)

Lemma run_blocks_allocatable geo {WF : WfGeometry geo} g e b gen :
  entry_typed e -> run_ok geo g e -> (b, gen) ∈ ReclaimQueue.run_blocks e -> 0 <= b /\ allocatable geo b = true.
Proof.
  intros Hty Hok Hin. destruct (run_ok_inv geo g e Hty Hok) as (Ha & Hend & Hreg & _). unfold ReclaimQueue.run_blocks in Hin.
  apply list_elem_of_fmap in Hin as (x & [= -> _] & Hx%elem_of_seqZ). unfold entry_typed, u64 in Hty. split; [lia|].
  apply (allocatable_shift geo (re_start e)); [done|lia|]. apply (same_region geo _ (re_start e + re_blocks e - 1)); (done || lia).
Qed.

Lemma queue_blocks_allocatable geo {WF : WfGeometry geo} g entries b gen :
  Forall entry_typed entries -> Forall (run_ok geo g) entries -> (b, gen) ∈ queue_blocks entries -> 0 <= b /\ allocatable geo b = true.
Proof.
  intros Ht Hok Hin. unfold queue_blocks in Hin. apply list_elem_of_In, in_concat in Hin as (l & Hl & Hb). apply in_map_iff in Hl as (e & <- & He).
  apply list_elem_of_In in He, Hb. rewrite Forall_forall in Ht, Hok. exact (run_blocks_allocatable geo g e b gen (Ht e He) (Hok e He) Hb).
Qed.

Lemma live_blocks_allocatable geo {WF : WfGeometry geo} v g lba root tables segs b gen :
  queue_at geo v g lba root tables segs -> (b, gen) ∈ live_blocks root segs -> 0 <= b /\ allocatable geo b = true.
Proof.
  intros (Hroot & Hlive & _) Hin. unfold live_blocks in Hin. apply elem_of_app in Hin as [Hin|Hin].
  - assert (Forall entry_typed (concat segs) /\ Forall (run_ok geo g) (concat segs)) as [Ht Hok].
    { assert (Forall (fun es => Forall entry_typed es /\ Forall (run_ok geo g) es) segs) as HF.
      { pose proof (lv_segs _ _ _ _ _ _ Hlive) as HS. eapply Forall2_Forall_r; [exact HS|]. apply Forall_forall. intros s _ es Hes.
        destruct (segment_at_inv _ _ _ _ _ Hes) as (? & _). split; [done|]. apply Hes. }
      split; apply Forall_concat; eapply Forall_impl; [exact HF| |exact HF|]; by intros es [? ?]. }
    eapply (queue_blocks_allocatable geo); [by apply Forall_drop, Ht|by apply Forall_drop, Hok|].
    apply list_elem_of_lookup in Hin as [i Hi]. rewrite lookup_drop in Hi. by apply list_elem_of_lookup_2 in Hi.
  - eapply (queue_blocks_allocatable geo); [|apply (lv_inline _ _ _ _ _ _ Hlive)|exact Hin].
    eapply Forall_impl; [apply (sh_inline _ (root_at_shape _ _ _ _ _ Hroot))|]. by intros y [? _].
Qed.

(** ** Clearing promoted blocks *)

Section Begin.
Context {D : Type} {device : BlockDevice Decoded D} {contract : DeviceContract Decoded D core_decodes}.
Context (geo : Geometry) {WF : WfGeometry geo}.
Context (current : Checkpoint) (other : option Checkpoint) (c : Committed) (nodes : list (Z * TreeNode)) (oc : Committed) (onodes : list (Z * TreeNode)).
Context (d0 : D) (Hvol : volume_ok geo current other c nodes oc onodes d0).

Abbreviation caches := (caches_ok geo current other c oc).
Abbreviation page_now := (now c).
Abbreviation marks := (AllocOps.marks geo c).
Abbreviation content := (view (decodes := core_decodes)).

Lemma wpi_clear_promoted d tx lba :
  reads d0 d -> caches tx -> 0 <= lba < total_blocks geo ->
  wpi (clear_promoted lba) (d, tx)
    (fun _ s => reads d0 (fst s) /\ caches (snd s) /\ ledger (snd s) = ledger tx /\ lba ∈ marks tx /\ marks (snd s) = marks tx ∖ {[lba]})
    (fun e s => reads d0 (fst s) /\ (only_io e \/ lba ∉ marks tx)).
Proof.
  intros Hr Hc Hl. unfold clear_promoted. apply wpi_bind. unfold on_tx. apply wpi_bind, wpi_get. cbn [snd]. rewrite (ca_geo _ _ _ _ _ _ Hc), locate_eq by done.
  apply wpi_lift, wp_ok. destruct (lba_region geo lba Hl) as (Hreg & He & Hx). set (r := lba / region_size geo) in *. set (x := lba mod region_size geo) in *.
  apply wpi_bind. eapply wpi_mono; [by apply (wpi_page_set_allocated geo current other c nodes oc onodes d0 Hvol d tx r x false)| |]; cbn beta.
  2: { intros e s [? ?]. split; [done|]. by left. }
  intros changed [d1 tx1] (Hr1 & -> & Hc1 & [Hacc Hm] & _). cbn [fst snd] in *. pose proof (mark_elem geo (page_now tx) r x Hreg Hx) as Hmk. rewrite <- He in Hmk.
  destruct (mark (page_now tx) r x); cbn [Bool.eqb negb].
  - apply wpi_modify. cbn [fst snd]. split; [done|]. split; [done|]. split; [by apply accounts_split in Hacc as [-> _]|]. split; [by apply Hmk|].
    unfold AllocOps.marks. by rewrite (marked_set_update geo (page_now tx) _ r x false Hreg Hx Hm), <- He.
  - apply wpi_err. split; [done|]. right. intros Hin. by apply Hmk in Hin.
Qed.

Lemma wpi_clear_run n : forall d tx start,
  reads d0 d -> caches tx -> 0 <= start -> start + Z.of_nat n <= total_blocks geo ->
  wpi (ieach clear_promoted (seqZ start (Z.of_nat n))) (d, tx)
    (fun _ s => reads d0 (fst s) /\ caches (snd s) /\ ledger (snd s) = ledger tx /\ run_blocks start (start + Z.of_nat n) ⊆ marks tx /\
       marks (snd s) = marks tx ∖ run_blocks start (start + Z.of_nat n))
    (fun e s => reads d0 (fst s) /\ (only_io e \/ ~ (run_blocks start (start + Z.of_nat n) ⊆ marks tx))).
Proof.
  induction n as [|n IH]; intros d tx start Hr Hc H0 Hn.
  - assert (run_blocks start (start + Z.of_nat 0) = ∅) as -> by (apply set_eq; intros x; rewrite elem_of_run_blocks, elem_of_empty; lia).
    change (seqZ start (Z.of_nat 0)) with (@nil Z). apply wpi_ret. split; [done|]. split; [done|]. split; [done|]. set_solver.
  - rewrite seqZ_S. cbn [ieach]. assert (run_blocks start (start + Z.of_nat (S n)) = {[start]} ∪ run_blocks (start + 1) (start + 1 + Z.of_nat n)) as Hrun.
    { apply set_eq. intros x. rewrite elem_of_union, elem_of_singleton, !elem_of_run_blocks. lia. }
    assert (start ∉ run_blocks (start + 1) (start + 1 + Z.of_nat n)) as Hnin by (rewrite elem_of_run_blocks; lia). rewrite Hrun. clear Hrun.
    apply wpi_bind. eapply wpi_mono; [apply (wpi_clear_promoted d tx start); [done|done|lia]| |]; cbn beta.
    2: { intros e s [? He]. split; [done|]. destruct He as [|Hn']; [by left|right]. set_solver. }
    intros _ [d1 tx1] (Hr1 & Hc1 & Hl1 & Hin & Hm1). cbn [fst snd] in *. eapply wpi_mono; [apply IH; [done|done|lia|lia]| |]; cbn beta.
    + intros _ s (? & ? & Hl & Hsub & Hm). split; [done|]. split; [done|]. split; [by rewrite Hl|]. rewrite Hm1 in *. split; [set_solver|]. rewrite Hm. set_solver.
    + intros e s [? He]. split; [done|]. destruct He as [|Hn']; [by left|right]. intros Hsub. apply Hn'. rewrite Hm1. set_solver.
Qed.

(** ** The transaction after its promotions *)

Context (tx0 : TxAllocator).

Record fresh (P : gset Z) (tx : TxAllocator) : Prop := {
  fr_caches : caches tx;
  fr_marks : marks tx = marked_set geo (cs_page c) ∖ P;
  fr_sub : P ⊆ marked_set geo (cs_page c);
  fr_ledger : ledger tx = ledger (tally_alloc blocks_promoted (fun _ => Z.of_nat (size P)) tx0);
}.

Definition run_of (run : PromotedRun) : gset Z := run_blocks (pr_start run) (pr_start run + pr_blocks run).

Lemma wpi_promote_run d tx P new_generation run :
  reads d0 d -> fresh P tx -> promoted_sound run -> (forall lba, lba ∈ run_of run -> allocatable geo lba = true) ->
  wpi (promote_run new_generation run) (d, tx)
    (fun _ s => reads d0 (fst s) /\ fresh (run_of run ∪ P) (snd s) /\ run_of run ## P)
    (fun e s => reads d0 (fst s) /\ (only_io e \/ ~ (run_of run ⊆ marked_set geo (cs_page c) ∖ P))).
Proof.
  intros Hr [Hc Hm Hs Hl] (Hb & H0 & Hend) Hall. unfold promote_run. apply wpi_bind, wpi_lift, wp_add_w; [done|].
  replace (pr_start run + pr_blocks run - pr_start run) with (Z.of_nat (Z.to_nat (pr_blocks run))) by lia.
  assert (pr_start run + pr_blocks run <= total_blocks geo) as Htot.
  { assert (pr_start run + pr_blocks run - 1 ∈ run_of run) as Hin by (apply elem_of_run_blocks; lia). apply Hall in Hin. unfold allocatable in Hin. lia. }
  apply wpi_bind. eapply wpi_mono; [apply wpi_clear_run; [done|done|done|lia]| |]; cbn beta; rewrite Z2Nat.id by lia; fold (run_of run).
  2: { intros e s [? He]. split; [done|]. by rewrite Hm in He. }
  intros _ [d1 tx1] (Hr1 & Hc1 & Hl1 & Hsub & Hm1). cbn [fst snd] in *. rewrite Hm in *. apply wpi_modify. cbn [fst snd]. split; [done|]. split; [|set_solver]. split.
  - by apply (caches_ext geo current other c oc tx1).
  - transitivity (marks tx1); [done|]. rewrite Hm1. set_solver.
  - set_solver.
  - rewrite size_union by set_solver. assert (Z.of_nat (size (run_of run)) = pr_blocks run) as Hz by (unfold run_of; rewrite size_run_blocks; lia).
    rewrite Hl in Hl1. unfold ledger, alloc_count in *. cbn in Hl1 |- *. injection Hl1 as -> -> -> -> -> -> -> -> -> -> -> ->. rewrite Nat2Z.inj_add, Hz. done.
Qed.

Definition promoted_set (runs : list PromotedRun) : gset Z := list_to_set (map fst (promoted_blocks runs)).

Lemma promoted_fst_cons run runs : map fst (promoted_blocks (run :: runs)) = seqZ (pr_start run) (pr_blocks run) ++ map fst (promoted_blocks runs).
Proof.
  change (run :: runs) with ([run] ++ runs). rewrite promoted_blocks_app, map_app. f_equal. destruct run as [start n gen]. rewrite promoted_one. unfold ReclaimQueue.run_blocks.
  rewrite map_map. cbn. apply map_id.
Qed.

Lemma promoted_set_cons run runs : promoted_set (run :: runs) = run_of run ∪ promoted_set runs.
Proof.
  unfold promoted_set. rewrite promoted_fst_cons, list_to_set_app_L. f_equal. apply set_eq. intros x. unfold run_of. rewrite elem_of_list_to_set, elem_of_seqZ, elem_of_run_blocks. done.
Qed.

(** Promoted blocks are distinct and were marked. *)
Definition promotable (P : gset Z) (runs : list PromotedRun) : Prop :=
  NoDup (map fst (promoted_blocks runs)) /\ promoted_set runs ⊆ marked_set geo (cs_page c) ∖ P.

Lemma promotable_cons P run runs : promotable P (run :: runs) <-> run_of run ⊆ marked_set geo (cs_page c) ∖ P /\ promotable (run_of run ∪ P) runs.
Proof.
  unfold promotable. rewrite promoted_set_cons, promoted_fst_cons, NoDup_app.
  assert (forall x, x ∈ seqZ (pr_start run) (pr_blocks run) <-> x ∈ run_of run) as Hr by (intros x; unfold run_of; rewrite elem_of_seqZ, elem_of_run_blocks; done).
  assert (forall x, x ∈ map fst (promoted_blocks runs) <-> x ∈ promoted_set runs) as Hp by (intros x; unfold promoted_set; by rewrite elem_of_list_to_set).
  split.
  - intros [(_ & Hd & Hn) Hsub]. split; [set_solver|]. split; [done|]. intros x Hx. apply elem_of_difference. split; [set_solver|]. intros [Hx'|?]%elem_of_union; [|set_solver].
    apply Hr, Hd in Hx'. apply Hx'. by apply Hp.
  - intros [Hsub [Hn Hsub']]. split; [|set_solver]. split; [apply NoDup_seqZ|]. split; [|done]. intros x Hx%Hr Hx'%Hp. set_solver.
Qed.

Lemma wpi_promote_runs new_generation runs : forall d tx P,
  reads d0 d -> fresh P tx -> Forall promoted_sound runs -> (forall lba, lba ∈ promoted_set runs -> allocatable geo lba = true) ->
  wpi (ieach (promote_run new_generation) runs) (d, tx)
    (fun _ s => reads d0 (fst s) /\ fresh (promoted_set runs ∪ P) (snd s) /\ promotable P runs)
    (fun e s => reads d0 (fst s) /\ (only_io e \/ ~ promotable P runs)).
Proof.
  induction runs as [|run runs IH]; intros d tx P Hr Hf HF Hall.
  - apply wpi_ret. cbn [fst snd]. change (promoted_set []) with (∅ : gset Z). rewrite (left_id_L ∅ (∪)). split; [done|]. split; [done|]. split; [constructor|].
    change (promoted_set []) with (∅ : gset Z). set_solver.
  - apply Forall_cons in HF as [Hs HF]. rewrite promoted_set_cons in Hall. cbn [ieach]. apply wpi_bind.
    eapply wpi_mono; [apply (wpi_promote_run d tx P); [done|done|done|set_solver]| |]; cbn beta.
    2: { intros e s [? He]. split; [done|]. destruct He as [|He]; [by left|right]. by intros [? _]%promotable_cons. }
    intros _ [d1 tx1] (Hr1 & Hf1 & Hdis). cbn [fst snd] in *. eapply wpi_mono; [apply IH; [done|exact Hf1|done|set_solver]| |]; cbn beta.
    + intros _ s (? & Hfr & Hp). split; [done|]. rewrite promoted_set_cons. rewrite (assoc_L (∪)), (comm_L (∪) (promoted_set runs)) in Hfr. split; [done|].
      apply promotable_cons. split; [|done]. pose proof (fr_sub _ _ Hf1). set_solver.
    + intros e s [? He]. split; [done|]. destruct He as [|He]; [by left|right]. by intros [_ ?]%promotable_cons.
Qed.
End Begin.

Section Open.
Context {D : Type} {device : BlockDevice Decoded D} {contract : DeviceContract Decoded D core_decodes}.
Context (geo : Geometry) {WF : WfGeometry geo}.
Context (current : Checkpoint) (other : option Checkpoint) (c : Committed) (nodes : list (Z * TreeNode)) (oc : Committed) (onodes : list (Z * TreeNode)).

Abbreviation content := (view (decodes := core_decodes)).

Lemma blocks_of_merging : blocks_of RunSet_merging = ∅.
Proof. done. Qed.

Lemma new_tx_fresh new_generation rover reclaim :
  fresh geo current other c oc (new_tx geo current other new_generation rover reclaim) ∅ (new_tx geo current other new_generation rover reclaim).
Proof.
  split.
  - split; cbn; try done.
  - rewrite difference_empty_L. unfold marks. f_equal.
  - set_solver.
  - done.
Qed.

Lemma fresh_inv P new_generation rover reclaim tx :
  fresh geo current other c oc (new_tx geo current other new_generation rover reclaim) P tx -> 0 <= rover < regions geo ->
  cp_free_blocks_total current = free_total geo (cs_page c) -> cp_generation current < new_generation -> u64 new_generation ->
  tx_inv geo current other c oc P tx /\ mine tx = ∅ /\ gone tx = ∅ /\ ta_reclaim tx = Some reclaim /\ ta_new_generation tx = new_generation /\
  ta_free_block_floor tx = 0 /\ free_blocks_remaining tx = free_total geo (cs_page c) + Z.of_nat (size P) /\ (cp_snapshot_roots current = None -> ta_snapshot tx = None).
Proof.
  intros [Hc Hm Hs Hl] Hrov Hfree Hnew Hnu. pose proof (wf_total (g := geo)) as Ht. unfold ledger, alloc_count in Hl. cbn in Hl. injection Hl as Ha Hb Hsn Hr Hi Hfl Hcur Hng Hrc Hca Hcp Hcr.
  assert (mine tx = ∅) as Hmine by (unfold mine; by rewrite Ha). assert (gone tx = ∅) as Hgone by (unfold gone; by rewrite Hb).
  assert (supply tx = free_total geo (cs_page c) + Z.of_nat (size P)) as Hsup by (unfold supply, alloc_count; rewrite Hcur, Hcp, Hfree; done).
  assert (live tx = 0) as Hlive by (unfold live, alloc_count; rewrite Hca, Hcr; done).
  assert (free_total geo (now c tx) = free_total geo (cs_page c) + Z.of_nat (size P)) as Htot.
  { rewrite !free_total_size by lia. fold (marks geo c tx). rewrite Hm, size_difference by done. pose proof (subseteq_size _ _ Hs). lia. }
  assert (tx_inv geo current other c oc P tx) as Hinv.
  { split; rewrite ?Hmine, ?Hgone, ?Ha, ?Hb, ?Hr, ?Hi, ?Hlive, ?Hsup; try done.
    - rewrite Hm. unfold base. set_solver.
    - unfold snapshot_ok. rewrite Hsn. destruct (cp_snapshot_roots current); cbn [fmap option_fmap option_map sa_allocations sa_retirements]; [|done].
      split; [apply run_set_default_ok|]. split; [apply run_set_default_ok|]. change (blocks_of RunSet_default) with (∅ : gset Z). set_solver.
    - unfold alloc_count. rewrite Hcr. rewrite size_empty. lia.
    - rewrite <- Htot. unfold free_total. pose proof (count_nonneg (fun lba => negb (marked geo (now c tx) lba)) 0 (total_blocks geo)).
      pose proof (count_le (fun lba => negb (marked geo (now c tx) lba)) 0 (total_blocks geo)). lia.
    - rewrite Htot. lia.
    - rewrite Hcur, Hng. done. }
  split; [done|]. split; [done|]. split; [done|]. split; [done|]. split; [done|]. split; [done|]. split; [by rewrite (free_blocks_remaining_eq geo _ _ _ _ _ _ Hinv)|]. intros Hn. by rewrite Hsn, Hn.
Qed.

(** The oldest checkpoint that is retained. *)
Definition oldest_retained : Z := match other with Some older => Z.min (cp_generation older) (cp_generation current) | None => cp_generation current end.

(** The transaction that opening gives: the promoted blocks are a prefix of the queue, and they are free. *)
Definition opened (v : Z -> bytes) (root : ReclaimRoot) (tables : list (list SegmentRef)) (segs : list (list ReclaimEntry)) (new_generation batch_blocks : Z) (tx : TxAllocator) : Prop :=
  exists reclaim rest, let P := promoted_set (rx_promoted reclaim) in
    ta_reclaim tx = Some reclaim /\ live_blocks root segs = promoted_blocks (rx_promoted reclaim) ++ rest /\ zlen (promoted_blocks (rx_promoted reclaim)) <= batch_blocks /\
    allowed oldest_retained (promoted_blocks (rx_promoted reclaim)) /\ stopped_at oldest_retained (batch_blocks - zlen (promoted_blocks (rx_promoted reclaim))) rest /\
    tx_inv geo current other c oc P tx /\ mine tx = ∅ /\ gone tx = ∅ /\ ta_new_generation tx = new_generation /\ ta_free_block_floor tx = 0 /\
    free_blocks_remaining tx = free_total geo (cs_page c) + zlen (promoted_blocks (rx_promoted reclaim)) /\
    batch geo v (cp_generation current) (started root (cp_reclaim_root_block current) new_generation oldest_retained) tables segs batch_blocks reclaim /\
    root_shape (rx_root reclaim) /\ (cp_snapshot_roots current = None -> ta_snapshot tx = None).

Lemma size_promoted runs P : promotable geo c P runs -> Z.of_nat (size (promoted_set runs)) = zlen (promoted_blocks runs).
Proof. intros [Hn _]. unfold promoted_set. rewrite size_list_to_set by done. by rewrite length_map. Qed.

Lemma wpi_begin_tx (d : D) root tables segs new_generation batch_blocks rover :
  volume_ok geo current other c nodes oc onodes d -> queue_at geo (content d) (cp_generation current) (cp_reclaim_root_block current) root tables segs ->
  u64 (cp_reclaim_root_block current) -> u64 batch_blocks -> 0 < oldest_retained -> 0 <= rover -> cp_free_blocks_total current = free_total geo (cs_page c) ->
  cp_generation current < new_generation -> u64 new_generation ->
  wpi (TxAllocator_begin geo current other new_generation batch_blocks rover) d
    (fun tx d' => reads d d' /\ opened (content d) root tables segs new_generation batch_blocks tx)
    (fun e d' => reads d d' /\ (only_io e \/ ~ (NoDup (map fst (live_blocks root segs)) /\ forall b, b ∈ live_blocks root segs -> fst b ∈ marked_set geo (cs_page c)))).
Proof.
  intros Hvol Hq Hu Hb Hold Hrov Hfree Hnew Hnu. pose proof Hvol as (Hd & _). unfold TxAllocator_begin. fold oldest_retained. cbn zeta. apply wpi_bind.
  eapply wpi_mono; [by apply (wpi_begin geo (cp_generation current) d)| |]; cbn beta.
  2: { intros e d1 [? He]. split; [done|]. left. eapply He; [exact Hq|]. unfold oldest_retained in *. destruct other; lia. }
  intros reclaim d1 (Hr1 & Hsh & Hbatch). specialize (Hbatch _ _ _ Hq). pose proof Hbatch as Hbat. destruct Hbatch as (tables' & segs' & new & cs & Hp & Hlen & Hstop).
  pose proof (pt_promoted _ _ _ _ _ _ _ _ _ _ _ Hp) as Hpr. cbn in Hpr. pose proof (pt_blocks _ _ _ _ _ _ _ _ _ _ _ Hp) as Hbl. cbn in Hbl.
  pose proof (pt_allowed _ _ _ _ _ _ _ _ _ _ _ Hp) as Hal. pose proof (pt_runs _ _ _ _ _ _ _ _ _ _ _ Hp) as Hruns. cbn in Hal, Hstop. rewrite <- Hpr in *. clear Hp Hpr new.
  rewrite region_count_eq by done. apply wpi_bind, wpi_lift, wp_ok. pose proof (wf_regions_pos geo) as Hpos. rewrite Z.max_l by lia. set (rover' := rover mod regions geo).
  assert (0 <= rover' < regions geo) as Hrov' by (apply Z.mod_pos_bound; lia).
  assert (forall lba, lba ∈ promoted_set (rx_promoted reclaim) -> allocatable geo lba = true) as Hall.
  { intros lba Hl. unfold promoted_set in Hl. apply elem_of_list_to_set, list_elem_of_fmap in Hl as ([b gen] & -> & Hin). cbn.
    eapply (live_blocks_allocatable geo); [exact Hq|]. rewrite Hbl. apply elem_of_app. by left. }
  pose proof (wpi_promote_runs geo current other c nodes oc onodes d Hvol _ new_generation (rx_promoted reclaim) d1 _ ∅ Hr1 (new_tx_fresh new_generation rover' reclaim) Hruns Hall) as H.
  unfold wpi, keep_tx in *. destruct (ieach _ _ _) as [[d2 tx2] [[]|e|]]; cbn [fst snd obind] in *; [| |done].
  - destruct H as (Hr2 & Hf & Hprom). split; [done|]. rewrite (right_id_L ∅ (∪)) in Hf.
    destruct (fresh_inv _ _ _ _ _ Hf Hrov' Hfree Hnew Hnu) as (Hinv & Hmine & Hgone & Hrc & Hng & Hfl & Hrem & Hnone). exists reclaim, (live_blocks (rx_root reclaim) segs'). cbn zeta.
    rewrite (size_promoted _ _ Hprom) in Hrem. done.
  - destruct H as [Hr2 He]. split; [done|]. destruct He as [|He]; [by left|right]. intros [Hnd Hin]. apply He. rewrite Hbl in Hnd, Hin. rewrite map_app, NoDup_app in Hnd. split; [apply Hnd|].
    intros x Hx. rewrite difference_empty_L. unfold promoted_set in Hx. apply elem_of_list_to_set, list_elem_of_fmap in Hx as (b & -> & Hb'). apply Hin, elem_of_app. by left.
Qed.
End Open.
