(* ===== verification/AllocQueue.v ===== *)
(** * The reclaim queue of a transaction (crates/afsplus-core/src/alloc.rs: retire_run, finish_alloc)

    Without snapshots, the runs a transaction hands to the reclaim queue are
    exactly the blocks it retired; the queue that finishing builds holds them
    behind the part that was not promoted. *)

From S2P Require Import Prelude Crc32c Format Header Codec TreeNode Geometry Bitmap Region Checkpoint Leaf Device Core Tree TreeSpec TreeReaders TreeVerify.
From S2P Require Import CowTree CowStore AllocRoot AllocRootSpec ReclaimCodec Reclaim ReclaimQueue RunSet Alloc AllocSpec AllocTx AllocScan AllocOps AllocBack AllocClaim AllocBegin.

(** The blocks of retired runs. *)
Definition retired_blocks (gen : Z) (runs : list (Z * Z)) : list (Z * Z) := queue_blocks (map (retired_run gen) runs).

Lemma retired_blocks_snoc gen runs start blocks :
  map fst (retired_blocks gen (runs ++ [(start, blocks)])) = map fst (retired_blocks gen runs) ++ seqZ start blocks.
Proof.
  unfold retired_blocks. rewrite map_app, queue_blocks_app, map_app. f_equal. unfold queue_blocks. cbn. rewrite app_nil_r. unfold ReclaimQueue.run_blocks. cbn.
  rewrite map_map. cbn. apply map_id.
Qed.

Lemma append_runs_eq geo runs : forall reclaim,
  Forall (fun run => validate_run geo (retired_run (rx_new_generation reclaim) run) = Ok tt) runs ->
  append_runs geo runs reclaim = (set_rx_appends (rx_appends reclaim ++ map (retired_run (rx_new_generation reclaim)) runs) reclaim, Ok tt).
Proof.
  induction runs as [|run runs IH]; intros reclaim HF; [cbn; rewrite app_nil_r; by destruct reclaim|]. apply Forall_cons in HF as [Hv HF]. unfold append_runs in *. cbn [ieach].
  unfold ibind at 1. unfold append_run, ibind, iget, id, ilift, imodify. fold (retired_run (rx_new_generation reclaim) run). rewrite Hv. cbn [obind].
  rewrite IH by done. cbn [map rx_new_generation set_rx_appends rx_appends]. by rewrite <- app_assoc.
Qed.

Lemma plan_nonneg reclaim : match plan reclaim with (_, Ok n) => 0 <= n | _ => True end.
Proof.
  pose proof (wpi_plan reclaim) as H. unfold wpi in H. destruct (plan reclaim) as [reclaim' [n|e|]]; [|done|done]. destruct H as (_ & _ & _ & _ & _ & -> & _).
  unfold segments_needed, tables_needed. match goal with |- 0 <= snd (sealings ?f ?c ?k ?l 0) + snd (sealings ?f' ?c' ?k' ?l' 0) + 1 => pose proof (sealings_nonneg f c k l); pose proof (sealings_nonneg f' c' k' l'); lia end.
Qed.

Section Queue.
Context {D : Type} {device : BlockDevice Decoded D} {contract : DeviceContract Decoded D core_decodes}.
Context (geo : Geometry) {WF : WfGeometry geo}.
Context (current : Checkpoint) (other : option Checkpoint) (c : Committed) (nodes : list (Z * TreeNode)) (oc : Committed) (onodes : list (Z * TreeNode)) (promoted : gset Z).
(** The queue of the checkpoint the transaction builds on, and the batch it promoted. *)
Context (v : Z -> bytes) (root : ReclaimRoot) (tables : list (list SegmentRef)) (segs : list (list ReclaimEntry)) (budget : Z) (reclaim0 : ReclaimTx).

Abbreviation content := (view (decodes := core_decodes)).
Abbreviation inv := (tx_inv geo current other c oc promoted).
Abbreviation base := (AllocOps.base geo c promoted).
Abbreviation marks := (AllocOps.marks geo c).

(** The queue a transaction will write: the batch, with [runs] appended. *)
Record queue_open (runs : list (Z * Z)) (tx : TxAllocator) : Prop := {
  qo_batch : batch geo v (cp_generation current) (started root (cp_reclaim_root_block current) (ta_new_generation tx) (oldest_retained current other)) tables segs budget reclaim0;
  qo_shape : root_shape (rx_root reclaim0);
  qo_snapshot : ta_snapshot tx = None;
  qo_generation : rx_new_generation reclaim0 = ta_new_generation tx;
  qo_reclaim : ta_reclaim tx = Some (set_rx_appends (rx_appends reclaim0 ++ map (retired_run (ta_new_generation tx)) runs) reclaim0);
  qo_typed : Forall run_typed runs;
  qo_valid : Forall (fun run => validate_run geo (retired_run (ta_new_generation tx) run) = Ok tt) runs;
  qo_nodup : NoDup (map fst (retired_blocks (ta_new_generation tx) runs));
  qo_gone : list_to_set (map fst (retired_blocks (ta_new_generation tx) runs)) = gone tx;
}.

Lemma queue_open_opened tx new_generation :
  opened geo current other c oc v root tables segs new_generation budget tx -> cp_snapshot_roots current = None ->
  ta_reclaim tx = Some reclaim0 -> queue_open [] tx.
Proof.
  intros (reclaim & rest & Hr & _ & _ & _ & _ & _ & _ & Hg & Hng & _ & _ & Hb & Hsh & Hnone) Hsn Hr0. rewrite Hr in Hr0. injection Hr0 as ->. subst new_generation.
  pose proof Hb as (? & ? & ? & ? & Hp & _). destruct (pt_same _ _ _ _ _ _ _ _ _ _ _ Hp) as (_ & _ & Hgen & _). cbn in Hgen.
  split; [done|done|by apply Hnone|done| |done|done|constructor|by rewrite Hg]. rewrite Hr, app_nil_r. by destruct reclaim0.
Qed.

(** Allocating and giving back do not touch the queue. *)
Lemma queue_open_took runs tx tx' R : took geo current other c oc promoted tx tx' R -> queue_open runs tx -> queue_open runs tx'.
Proof.
  intros (_ & _ & _ & _ & Hret & Hrc & Hng & _ & Htr) [? ? Hs ? Hr ? ? ? Hg]. rewrite Hs in Htr. cbn in Htr. destruct (ta_snapshot tx') as [|] eqn:Hs'; [done|].
  split; rewrite ?Hng, ?Hrc; try done. unfold gone. by rewrite Hret.
Qed.

Lemma queue_open_released runs tx tx' lba : released_to geo current other c oc promoted tx tx' lba -> queue_open runs tx -> queue_open runs tx'.
Proof.
  intros (_ & _ & _ & _ & Hgo & Hrc & Hng & Hsn) [? ? Hs ? Hr ? ? ? Hg]. split; rewrite ?Hng, ?Hrc, ?Hgo; try done. by apply Hsn.
Qed.

(** A run that joins the quarantine joins the queue. *)
Lemma queue_open_appended runs tx tx' start blocks reclaim :
  0 < blocks < 2 ^ 32 -> 0 <= start -> start + blocks <= total_blocks geo -> run_blocks start (start + blocks) ## gone tx -> gone tx' = run_blocks start (start + blocks) ∪ gone tx ->
  ta_new_generation tx' = ta_new_generation tx -> ta_snapshot tx' = None -> ta_reclaim tx = Some reclaim ->
  validate_run geo (retired_run (rx_new_generation reclaim) (start, blocks)) = Ok tt -> ta_reclaim tx' = Some (with_run reclaim (start, blocks)) ->
  queue_open runs tx -> queue_open (runs ++ [(start, blocks)]) tx'.
Proof.
  intros Hb H0 Hend HR Hgo Hng Hs' Hr1 Hval Hrc [Hbat ? Hs Hgen Hr Hty Hv Hnd Hg]. pose proof (wf_total (g := geo)).
  rewrite Hr in Hr1. injection Hr1 as <-. unfold with_run in Hrc. cbn [rx_new_generation set_rx_appends rx_appends] in Hval, Hrc. rewrite Hgen in Hval, Hrc.
  assert (forall x, x ∈ seqZ start blocks <-> x ∈ run_blocks start (start + blocks)) as Hin by (intros x; rewrite elem_of_seqZ, elem_of_run_blocks; lia).
  split; rewrite ?Hng, ?retired_blocks_snoc; try done.
  - rewrite Hrc. f_equal. rewrite map_app, app_assoc. by destruct reclaim0.
  - apply Forall_app. split; [done|]. apply Forall_singleton. unfold run_typed, u64. cbn. lia.
  - apply Forall_app. split; [done|]. by apply Forall_singleton.
  - apply NoDup_app. split; [done|]. split; [|apply NoDup_seqZ]. intros x Hx Hx'%Hin. assert (x ∈ gone tx) by (rewrite <- Hg; by apply elem_of_list_to_set). set_solver.
  - rewrite list_to_set_app_L, Hg, Hgo. apply set_eq. intros x. rewrite !elem_of_union, elem_of_list_to_set, Hin. tauto.
Qed.

(** Retiring and abandoning append their run. *)
Lemma queue_open_retired runs tx tx' start blocks :
  retired_to geo current other c oc promoted tx tx' start blocks -> 0 <= start -> queue_open runs tx -> queue_open (runs ++ [(start, blocks)]) tx'.
Proof.
  intros (Hb & Hinv & HR & _ & _ & Hgo & Hng & Hsn & reclaim & Hrc & Henq) H0 Hq. pose proof (qo_snapshot _ _ Hq) as Hs. destruct (Henq Hs) as (reclaim1 & Hr1 & Hval & ->).
  assert (start + blocks - 1 ∈ base) as Hlast%base_inside by (assert (start + blocks - 1 ∈ run_blocks start (start + blocks)) by (apply elem_of_run_blocks; lia); set_solver).
  apply (queue_open_appended runs tx tx' start blocks reclaim1); try done; [lia|set_solver|by apply Hsn].
Qed.

Lemma queue_open_abandoned runs tx tx' start blocks :
  abandoned_to geo current other c oc promoted tx tx' start blocks -> inv tx -> 0 <= start -> queue_open runs tx -> queue_open (runs ++ [(start, blocks)]) tx'.
Proof.
  intros (Hb & _ & HR & _ & _ & Hgo & Hng & Hsn & reclaim & Hrc & Hval & Hrc') Hinv H0 Hq. pose proof (ti_fresh _ _ _ _ _ _ _ Hinv).
  destruct (ti_allocatable _ _ _ _ _ _ _ Hinv (start + blocks - 1)) as [_ Ha].
  { assert (start + blocks - 1 ∈ run_blocks start (start + blocks)) by (apply elem_of_run_blocks; lia). set_solver. }
  apply (queue_open_appended runs tx tx' start blocks reclaim); try done; [unfold allocatable in Ha; lia|set_solver|apply Hsn, Hq].
Qed.

(** ** Several allocations *)

Lemma took_empty tx : inv tx -> ta_snapshot tx = None -> took geo current other c oc promoted tx tx ∅.
Proof. intros Hinv Hs. unfold took. rewrite Hs. split; [done|]. split; [set_solver|]. split; [set_solver|]. split; [set_solver|]. done. Qed.

Lemma took_trans tx tx1 tx2 R1 R2 :
  ta_snapshot tx = None -> took geo current other c oc promoted tx tx1 R1 -> took geo current other c oc promoted tx1 tx2 R2 -> took geo current other c oc promoted tx tx2 (R2 ∪ R1).
Proof.
  intros Hs (_ & Hd1 & Hm1 & Hi1 & Hr1 & Hc1 & Hg1 & Hf1 & Ht1) (Hinv & Hd2 & Hm2 & Hi2 & Hr2 & Hc2 & Hg2 & Hf2 & Ht2). rewrite Hs in Ht1. cbn in Ht1.
  destruct (ta_snapshot tx1) as [|] eqn:Hs1; [done|]. cbn in Ht2. unfold took. rewrite Hs. split; [done|]. split; [set_solver|]. split; [set_solver|]. split; [set_solver|].
  split; [congruence|]. split; [congruence|]. split; [congruence|]. split; [congruence|]. done.
Qed.

Lemma took_snapshot tx tx' R : ta_snapshot tx = None -> took geo current other c oc promoted tx tx' R -> ta_snapshot tx' = None.
Proof. intros Hs (_ & _ & _ & _ & _ & _ & _ & _ & Ht). rewrite Hs in Ht. cbn in Ht. by destruct (ta_snapshot tx'). Qed.

Section Reading.
Context (d0 : D) (Hvol : volume_ok geo current other c nodes oc onodes d0) (Hsmall : 2 * regions geo <= 2 ^ 32).

(** The planned structure is placed in distinct free blocks. *)
Lemma wpi_allocate_structure n : forall (d : D) tx, reads d0 d -> inv tx -> ta_snapshot tx = None ->
  wpi (allocate_blocks n) (d, tx)
    (fun lbas s => reads d0 (fst s) /\ length lbas = n /\ NoDup lbas /\ Forall (fun a => u64 a /\ allocatable geo a = true) lbas /\
       took geo current other c oc promoted tx (snd s) (list_to_set lbas))
    (fun e s => reads d0 (fst s) /\ (only_io e \/ e = NoSpace)).
Proof.
  pose proof (wf_total (g := geo)) as Ht. induction n as [|n IH]; intros d tx Hr Hinv Hs; cbn [allocate_blocks].
  { apply wpi_ret. split; [done|]. split; [done|]. split; [constructor|]. split; [constructor|]. by apply took_empty. }
  apply wpi_bind. eapply wpi_mono; [by apply (wpi_allocate_run geo current other c nodes oc onodes promoted d0 Hvol)| |]; cbn beta.
  2: { intros e s (Hr1 & He). split; [done|]. destruct He as [|[(-> & _)|He]]; [by left|by right|]. unfold check_snapshot_writable, check_snapshot_health, in_phase in He. by rewrite Hs in He. }
  intros lba [d1 tx1] (Hr1 & Hk & (r & start & Hlba & Hfree) & _). cbn [fst snd] in *. destruct (free_at_run geo c tx r 1 start Hfree) as (Hpos & Hend & _ & Hall). rewrite <- Hlba in Hpos, Hend, Hall.
  assert (run_blocks lba (lba + 1) = {[lba]}) as Hone by (apply set_eq; intros x; rewrite elem_of_run_blocks, elem_of_singleton; lia). rewrite Hone in Hk, Hall.
  apply wpi_bind. eapply wpi_mono; [apply (IH d1 tx1 Hr1 (proj1 Hk)); by eapply took_snapshot| |]; cbn beta; [|done].
  intros lbas [d2 tx2] (Hr2 & Hlen & Hnd & HF & Hk2). cbn [fst snd] in *. apply wpi_ret. cbn [fst snd]. split; [done|]. split; [cbn; by rewrite Hlen|].
  split; [constructor; [|done]; intros Hin; destruct Hk2 as (_ & Hd & _), Hk as (_ & _ & Hm & _); rewrite Hm in Hd; assert (lba ∈ (list_to_set lbas : gset Z)) by (by apply elem_of_list_to_set); set_solver|].
  split; [constructor; [split; [unfold u64; lia|apply Hall; set_solver]|done]|].
  replace (list_to_set (lba :: lbas) : gset Z) with (list_to_set lbas ∪ {[lba]} : gset Z) by (cbn; set_solver). by eapply took_trans.
Qed.

Lemma inv_set_reclaim r tx : inv tx -> inv (set_reclaim r tx).
Proof. intros [Hc ? ? ? ? ? ? ? ? ? ? ?]. split; try done. destruct Hc. by split. Qed.

(** Rebuilding writes the queue of the blocks not promoted, the blocks retired, the structure passed and the old root. *)
Definition requeued (runs : list (Z * Z)) (tx tx' : TxAllocator) (b : ReclaimBuild) : Prop :=
  exists rest used kept, let gen := ta_new_generation tx in
    live_blocks root segs = promoted_blocks (rx_promoted reclaim0) ++ rest /\ Permutation (live_structure root tables) (used ++ kept) /\
    NoDup (map fst (rb_writes b)) /\ Forall (fun a => u64 a /\ allocatable geo a = true) (map fst (rb_writes b)) /\
    took geo current other c oc promoted (set_reclaim None tx) tx' (list_to_set (map fst (rb_writes b))) /\
    republished geo v gen kept (rest ++ retired_blocks gen runs ++ map (fun a => (a, gen)) (used ++ [cp_reclaim_root_block current])) (map fst (rb_writes b)) b.

Lemma zlen_retired runs tx : queue_open runs tx -> zlen (retired_blocks (ta_new_generation tx) runs) = Z.of_nat (size (gone tx)).
Proof. intros Hq. rewrite <- (qo_gone _ _ Hq), size_list_to_set by apply (qo_nodup _ _ Hq). unfold zlen. by rewrite length_map. Qed.

Lemma wpi_rebuild_reclaim (d : D) runs tx :
  reads d0 d -> inv tx -> queue_open runs tx -> queue_at geo v (cp_generation current) (cp_reclaim_root_block current) root tables segs ->
  0 < cp_generation current -> u64 (cp_reclaim_root_block current) ->
  rt_appended_blocks_total root + Z.of_nat (size (gone tx)) + zlen (live_structure root tables) + 1 < 2 ^ 64 ->
  wpi rebuild_reclaim (d, tx) (fun b s => reads d0 (fst s) /\ requeued runs tx (snd s) b)
    (fun e s => reads d0 (fst s) /\ (only_io e \/ e = NoSpace \/ exists what, e = PrototypeLimit what)).
Proof.
  intros Hr Hinv Hqo Hq Hcur Hu Hroom. pose proof (ti_begun _ _ _ _ _ _ _ Hinv) as (_ & Hnew & Hnu). set (gen := ta_new_generation tx) in *.
  destruct (batch_transaction geo v _ _ root tables segs gen (oldest_retained current other) budget runs reclaim0 Hq Hu ltac:(lia) Hnu ltac:(lia) (qo_typed _ _ Hqo) (qo_shape _ _ Hqo) (qo_batch _ _ Hqo))
    as (rest & used & kept & Hlive & _ & _ & _ & Hperm & Hplan). cbn zeta in Hplan. unfold wpi, commit_plan, ibind in Hplan.
  rewrite append_runs_eq in Hplan by (rewrite (qo_generation _ _ Hqo); apply Hqo). rewrite (qo_generation _ _ Hqo) in Hplan. fold gen in Hplan.
  unfold rebuild_reclaim. apply wpi_bind, wpi_get. cbn [snd]. rewrite (qo_reclaim _ _ Hqo). fold gen. apply wpi_bind, wpi_modify. cbn [fst snd].
  pose proof (plan_nonneg (set_rx_appends (rx_appends reclaim0 ++ map (retired_run gen) runs) reclaim0)) as Hn. destruct (plan _) as [reclaim2 needed]. destruct needed as [n|e|]; [|apply wpi_bind, wpi_lift, wp_err; cbn [fst]|done].
  2: { split; [done|]. destruct Hplan as [(run & Hin & He)|He]; [|by right; right]. pose proof (qo_valid _ _ Hqo) as HF. rewrite Forall_forall in HF. specialize (HF run Hin). fold gen in HF. congruence. }
  apply wpi_bind, wpi_lift, wp_ok. pose proof (inv_set_reclaim None tx Hinv) as Hinv1. apply wpi_bind.
  eapply wpi_mono; [apply (wpi_allocate_structure (Z.to_nat n) d _ Hr Hinv1), Hqo| |]; cbn beta; [|intros e s [? [?|?]]; tauto].
  intros lbas [d1 tx1] (Hr1 & Hlen & Hnd & HF & Hk). cbn [fst snd] in *. apply wpi_bind, wpi_get. cbn [snd]. rewrite (ca_geo _ _ _ _ _ _ (ti_caches _ _ _ _ _ _ _ (proj1 Hk))).
  apply wpi_lift. eapply wp_mono; [apply (Hplan lbas)| |]; cbn beta.
  - unfold zlen. lia.
  - done.
  - rewrite zlen_app. fold (retired_blocks gen runs). unfold gen at 1. rewrite (zlen_retired runs tx Hqo). apply Permutation_length in Hperm. unfold zlen in *. rewrite !length_map, !length_app in *. cbn. lia.
  - intros b Hb. pose proof Hb as (Hf & _). cbn [fst snd]. split; [done|]. exists rest, used, kept. cbn zeta. fold gen. rewrite Hf. done.
  - done.
Qed.
End Reading.
End Queue.
