(* ===== verification/AllocFinish.v ===== *)
(** * Emitting the new allocation state (crates/afsplus-core/src/alloc.rs: finish_alloc)

    A commit writes its dirty pages and descriptors into slots that neither
    retained checkpoint names, so both stay readable, and the new records
    name exactly the marks of the transaction. *)

From stdpp Require Import sorting.
From S2P Require Import Prelude Crc32c Format Header Codec TreeNode Geometry Bitmap Region Checkpoint Leaf Device Core Tree TreeSpec TreeReaders TreeVerify.
From S2P Require Import CowTree CowStore CowNodes CowEdit CowMutate AllocRoot AllocRootSpec ReclaimCodec Reclaim ReclaimQueue RunSet Alloc AllocSpec AllocTx AllocScan AllocOps AllocBack AllocBegin.

(** ** Choosing a slot *)

(** The first of three slots that neither retained checkpoint uses. *)
Definition free_slot (current : Z) (other : option Z) : Z :=
  default 0 (List.find (fun slot => negb (slot =? current) && negb (bool_decide (Some slot = other))) [0; 1; 2]).

Lemma choose_slot_eq current other :
  choose_slot 3 current other = Ok (free_slot current other) /\ 0 <= free_slot current other < 3 /\ free_slot current other <> current /\ Some (free_slot current other) <> other.
Proof.
  unfold choose_slot, free_slot. change (seqZ 0 3) with [0; 1; 2]. destruct (List.find _ _) as [s|] eqn:Hf; cbn [default from_option id].
  - apply find_some in Hf as [Hin Hs]. apply andb_true_iff in Hs as [H1 H2]. apply negb_true_iff in H1, H2. apply bool_decide_eq_false in H2. split; [done|].
    split; [|split; [lia|done]]. destruct Hin as [<-|[<-|[<-|[]]]]; lia.
  - exfalso. assert (forall x, In x [0; 1; 2] -> x = current \/ Some x = other) as Hall.
    { intros x Hx. pose proof (List.find_none _ _ Hf x Hx) as Hn. cbn beta in Hn. apply andb_false_iff in Hn as [Hn|Hn]; apply negb_false_iff in Hn; [left; lia|right; by apply bool_decide_eq_true in Hn]. }
    destruct (Hall 0 ltac:(by left)) as [H0|H0], (Hall 1 ltac:(right; by left)) as [H1|H1], (Hall 2 ltac:(right; right; by left)) as [H2|H2]; (lia || congruence).
Qed.

Lemma seqZ_snoc n : 0 <= n -> seqZ 0 (n + 1) = seqZ 0 n ++ [n].
Proof. intros H. rewrite seqZ_app by lia. done. Qed.

(** ** What a commit emits *)

Section Emit.
Context {D : Type} {device : BlockDevice Decoded D} {contract : DeviceContract Decoded D core_decodes}.
Context (geo : Geometry) {WF : WfGeometry geo}.
Context (current : Checkpoint) (other : option Checkpoint) (c : Committed) (nodes : list (Z * TreeNode)) (oc : Committed) (onodes : list (Z * TreeNode)).
Context (d0 : D) (Hvol : volume_ok geo current other c nodes oc onodes d0).
Context (tx : TxAllocator) (Hc : caches_ok geo current other c oc tx).

Abbreviation content := (view (decodes := core_decodes)).
Abbreviation page_now := (now c tx).
Abbreviation generation := (ta_new_generation tx).

(** Newer than every retained checkpoint. *)
Hypothesis generation_typed : u64 generation.
Hypothesis newer : cp_generation current < generation.

Definition is_dirty (r i : Z) : bool := bool_decide ((r, i) ∈ ta_dirty_pages tx).

Definition binding_of (state : Committed) (r i : Z) : BitmapBinding :=
  default {| bb_slot := 0; bb_free_blocks := 0; bb_generation := 0 |} (rd_pages (cs_descriptor state r) !! Z.to_nat i).
Definition record_of (state : Committed) (r : Z) : RegionRecord :=
  default {| rr_descriptor_slot := 0; rr_free_blocks := 0; rr_descriptor_generation := 0 |} (cs_records state !! Z.to_nat r).

Definition page_slot (r i : Z) : Z :=
  free_slot (bb_slot (binding_of c r i)) (match other with Some _ => Some (bb_slot (binding_of oc r i)) | None => None end).
Definition descriptor_slot (r : Z) : Z :=
  free_slot (rr_descriptor_slot (record_of c r)) (match other with Some _ => Some (rr_descriptor_slot (record_of oc r)) | None => None end).

Definition binding_after (r i : Z) : BitmapBinding :=
  if is_dirty r i then {| bb_slot := page_slot r i; bb_free_blocks := page_free (page_now r i); bb_generation := generation |} else binding_of c r i.
Definition descriptor_after (r : Z) : RegionDescriptor :=
  {| rd_region := r; rd_valid_blocks := valid geo r; rd_free_blocks := free_in_region geo page_now r; rd_pages := map (binding_after r) (seqZ 0 (pages geo r)) |}.
Definition record_after (r : Z) : RegionRecord :=
  {| rr_descriptor_slot := descriptor_slot r; rr_free_blocks := free_in_region geo page_now r; rr_descriptor_generation := generation |}.

Definition page_lba (r i s : Z) : Z := r * region_size geo + (boot r + 3 + 3 * i + s).
Definition descriptor_lba (r s : Z) : Z := r * region_size geo + (boot r + s).

Definition page_write (r i : Z) : Z * bytes := (page_lba r i (page_slot r i), image BitmapPage_header BitmapPage_wire (page_now r i) (block_size geo) generation).
Definition page_writes (r : Z) : list (Z * bytes) := map (page_write r) (List.filter (is_dirty r) (seqZ 0 (pages geo r))).
Definition descriptor_write (r : Z) : Z * bytes :=
  (descriptor_lba r (descriptor_slot r), image RegionDescriptor_header RegionDescriptor_wire (descriptor_after r) (block_size geo) generation).

Lemma state_bindings checkpoint state tree r :
  allocation_in geo (content d0) checkpoint state tree -> 0 <= r < regions geo ->
  rd_region (cs_descriptor state r) = r /\ rd_valid_blocks (cs_descriptor state r) = valid geo r /\ zlen (rd_pages (cs_descriptor state r)) = pages geo r /\
  cs_records state !! Z.to_nat r = Some (record_of state r) /\ record_sound geo r (cp_generation checkpoint) (record_of state r) /\
  forall i, 0 <= i < pages geo r -> rd_pages (cs_descriptor state r) !! Z.to_nat i = Some (binding_of state r i) /\ BitmapBinding_typed (binding_of state r i) /\
    binding_ok geo r (rr_descriptor_generation (record_of state r)) i (binding_of state r i) /\ bb_free_blocks (binding_of state r i) = page_free (cs_page state r i).
Proof.
  intros Hin Hr. destruct (committed_region geo _ _ _ _ Hin r Hr) as (record & Hl & Hs & Hd & Hp). unfold record_of. rewrite Hl. cbn [default].
  destruct (descriptor_in_inv geo _ _ _ _ Hr Hd) as (_ & ? & ? & Hz & _ & _ & Hb). split; [done|]. split; [done|]. split; [done|]. split; [done|]. split; [done|].
  intros i Hi. destruct (Hp i Hi) as (binding & lba & Hbi & _ & _ & [Hwf _] & Hf). unfold binding_of. rewrite Hbi. cbn [default]. destruct (Hb _ _ Hbi) as [Ht Hok].
  rewrite Z2Nat.id in Hok by lia. rewrite free_blocks_spec in Hf by done. apply Ok_inj in Hf. done.
Qed.

(** What the transaction holds of a dirty region. *)
Lemma dirty_region_loaded r :
  r ∈ ta_dirty_regions tx ->
  0 <= r < regions geo /\ ta_current_records tx !! r = Some (record_of c r) /\ ta_descriptors tx !! r = Some (cs_descriptor c r) /\
  rr_descriptor_slot <$> ta_other_records tx !! r = (match other with Some _ => Some (rr_descriptor_slot (record_of oc r)) | None => None end) /\
  forall i, 0 <= i < pages geo r -> match ta_other_descriptors tx !! r with Some older => bb_slot <$> rd_pages older !! Z.to_nat i | None => None end =
    (match other with Some _ => Some (bb_slot (binding_of oc r i)) | None => None end).
Proof.
  intros Hd. destruct (ca_regions _ _ _ _ _ _ Hc r Hd) as [i Hi]. destruct (ca_dirty _ _ _ _ _ _ Hc r i Hi) as [[p Hp] _].
  destruct (ca_pages _ _ _ _ _ _ Hc r i p Hp) as ([Hr _] & _ & [x Hx] & _). destruct (ca_descriptors _ _ _ _ _ _ Hc r x Hx) as (_ & -> & [record Hrec] & Hol).
  destruct (ca_records _ _ _ _ _ _ Hc r record Hrec) as [_ Hcs]. split; [done|]. split; [unfold record_of; by rewrite Hcs|]. split; [done|]. unfold other_loaded in Hol.
  destruct Hvol as (_ & _ & _ & _ & Hold). destruct other as [older|].
  - destruct Hold as [Hin _], Hol as [-> ->]. destruct (state_bindings older oc onodes r Hin Hr) as (_ & _ & _ & Hl & _ & Hb). rewrite Hl. split; [done|].
    intros j Hj. by destruct (Hb j Hj) as [-> _].
  - destruct Hol as [-> ->]. done.
Qed.

Lemma page_lba_eq r i s : 0 <= r < regions geo -> 0 <= i < pages geo r -> 0 <= s < 3 -> bitmap_slot_lba geo r i s = Ok (page_lba r i s).
Proof. intros Hr Hi Hs. apply (slot_lba_eq geo (BitmapSlot r i s)). by cbn. Qed.

Lemma descriptor_lba_eq r s : 0 <= r < regions geo -> 0 <= s < 3 -> descriptor_slot_lba geo r s = Ok (descriptor_lba r s).
Proof. intros Hr Hs. apply (slot_lba_eq geo (Geometry.DescriptorSlot r s)). by cbn. Qed.

Lemma page_fits_encodes r i page : 0 <= r < regions geo -> 0 <= i < pages geo r -> page_fits geo r i page ->
  BitmapPage_typed page generation /\ BitmapPage_adm page (block_size geo) generation /\
  BitmapPage_encode page (block_size geo) generation = Ok (image BitmapPage_header BitmapPage_wire page (block_size geo) generation).
Proof.
  intros Hr Hi ((Hv & Hz & Hs) & Hreg & Hidx & Hfirst & Hval). pose proof (wf_block_size (g := geo)) as Hbs. pose proof (wf_regions (g := geo)). pose proof (wf_pages_bounds geo r Hr).
  pose proof (wf_valid_bounds geo r Hr) as Hvb. pose proof (div_ceil_bounds (valid geo r) 32384 ltac:(lia) ltac:(lia)) as Hdc. pose proof (div_ceil_8 (bp_valid_blocks page)) as H8.
  assert (BitmapPage_typed page generation) as Ht.
  { unfold BitmapPage_typed, u32. rewrite Hreg, Hidx, Hfirst. change BITMAP_PAGE_BLOCKS with 32384. split_and!; try done; lia. }
  assert (BitmapPage_adm page (block_size geo) generation) as Hadm.
  { unfold BitmapPage_adm. rewrite zlen_BitmapPage_wire, Hbs, Hidx. change BITMAP_PAGE_BLOCKS with 32384 in *.
    assert (0 < bp_valid_blocks page <= 32384) by (rewrite Hval; unfold page_valid, pages in *; change BITMAP_PAGE_BLOCKS with 32384 in *; lia).
    split_and!; try done; lia. }
  split; [done|]. split; [done|]. pose proof (BitmapPage_encode_spec page (block_size geo) generation Ht ltac:(lia)) as He.
  destruct (BitmapPage_encode page (block_size geo) generation) as [b|e|]; [|by destruct He|done]. destruct He as [_ ->]. done.
Qed.

(** One page. *)
Lemma emit_page_eq r i descriptor writes :
  0 <= r < regions geo -> r ∈ ta_dirty_regions tx -> 0 <= i < pages geo r -> rd_pages descriptor !! Z.to_nat i = Some (binding_of c r i) ->
  emit_page tx r (descriptor, writes) i =
    Ok ({| rd_region := rd_region descriptor; rd_valid_blocks := rd_valid_blocks descriptor; rd_free_blocks := rd_free_blocks descriptor;
           rd_pages := <[Z.to_nat i := binding_after r i]> (rd_pages descriptor) |}, writes ++ map (page_write r) (List.filter (is_dirty r) [i])).
Proof.
  intros Hr Hd Hi Hb. unfold emit_page, binding_after. cbn [List.filter]. unfold is_dirty. case_bool_decide as Hdi; cbn [negb].
  2: { rewrite list_insert_id by done. cbn. rewrite app_nil_r. by destruct descriptor. }
  rewrite Hb. destruct (dirty_region_loaded r Hd) as (_ & _ & _ & _ & Hold). rewrite (Hold i Hi).
  destruct (choose_slot_eq (bb_slot (binding_of c r i)) (match other with Some _ => Some (bb_slot (binding_of oc r i)) | None => None end)) as (Hch & Hrange & _).
  change BITMAP_SLOTS with 3. rewrite Hch. cbn [obind]. fold (page_slot r i) in Hrange |- *.
  destruct (ca_dirty _ _ _ _ _ _ Hc r i Hdi) as [[p Hp] _]. rewrite Hp. cbn [ok_or obind]. rewrite (ca_geo _ _ _ _ _ _ Hc), page_lba_eq by done. cbn [of_format obind].
  destruct (ca_pages _ _ _ _ _ _ Hc r i p Hp) as (_ & Hfit & _). rewrite (now_resident c tx r i p Hp). destruct (page_fits_encodes r i p Hr Hi Hfit) as (_ & _ & ->). cbn [of_format obind].
  rewrite (free_blocks_spec p (proj1 Hfit)). cbn [of_format obind map]. unfold page_write. by rewrite (now_resident c tx r i p Hp).
Qed.

Lemma emit_pages_eq r writes :
  0 <= r < regions geo -> r ∈ ta_dirty_regions tx ->
  ofold (emit_page tx r) (cs_descriptor c r, writes) (seqZ 0 (pages geo r)) =
    Ok ({| rd_region := r; rd_valid_blocks := valid geo r; rd_free_blocks := rd_free_blocks (cs_descriptor c r); rd_pages := map (binding_after r) (seqZ 0 (pages geo r)) |},
        writes ++ page_writes r).
Proof.
  intros Hr Hd. pose proof Hvol as (_ & _ & Hin & _). destruct (state_bindings current c nodes r Hin Hr) as (Hreg & Hval & Hz & _ & _ & Hb).
  pose proof (wf_pages_bounds geo r Hr) as Hpb. apply wp_no_error.
  apply (wp_ofold _ (fun st rest => exists k, (Z.of_nat k <= pages geo r) /\ rest = seqZ (Z.of_nat k) (pages geo r - Z.of_nat k) /\
    st = ({| rd_region := r; rd_valid_blocks := valid geo r; rd_free_blocks := rd_free_blocks (cs_descriptor c r);
             rd_pages := map (binding_after r) (seqZ 0 (Z.of_nat k)) ++ drop k (rd_pages (cs_descriptor c r)) |},
          writes ++ map (page_write r) (List.filter (is_dirty r) (seqZ 0 (Z.of_nat k)))))).
  - exists 0%nat. split; [lia|]. split; [f_equal; lia|]. cbn. rewrite drop_0, app_nil_r, <- Hreg at 1. rewrite <- Hval. rewrite Hreg. by destruct (cs_descriptor c r); cbn in *; subst.
  - intros st i rest (k & Hk & Hrest & ->). assert (Z.of_nat k < pages geo r) as Hlt by (apply (f_equal length) in Hrest; rewrite length_seqZ in Hrest; cbn in Hrest; lia).
    rewrite seqZ_cons in Hrest by lia. injection Hrest as -> ->.
    destruct (Hb (Z.of_nat k) ltac:(lia)) as [Hl _]. rewrite Nat2Z.id in Hl.
    assert (length (map (binding_after r) (seqZ 0 (Z.of_nat k))) = k) as Hlen by (rewrite length_map, length_seqZ; lia).
    rewrite emit_page_eq; [|done|done|lia|cbn; rewrite Nat2Z.id, lookup_app_r, Hlen, Nat.sub_diag, lookup_drop, Nat.add_0_r by lia; done].
    cbn [rd_region rd_valid_blocks rd_free_blocks rd_pages]. apply wp_ok. exists (S k). split; [lia|]. split; [f_equal; lia|]. rewrite Nat2Z.inj_succ, <- Z.add_1_r, seqZ_snoc by lia.
    rewrite map_app, List.filter_app, map_app, Nat2Z.id. f_equal; [|by rewrite app_assoc]. f_equal. rewrite insert_app_r_alt by lia. rewrite Hlen, Nat.sub_diag, (drop_S _ _ _ Hl). cbn. by rewrite <- app_assoc.
  - intros st (k & Hk & Hrest & ->). assert (Z.of_nat k = pages geo r) as Heq by (apply (f_equal length) in Hrest; rewrite length_seqZ in Hrest; cbn in Hrest; lia).
    rewrite Heq, drop_ge, app_nil_r by (unfold zlen in Hz; lia). done.
Qed.

Lemma clean_page r i : 0 <= r < regions geo -> is_dirty r i = false -> page_now r i = cs_page c r i.
Proof.
  intros Hr Hd. unfold is_dirty in Hd. apply bool_decide_eq_false in Hd. unfold now. destruct (ta_pages tx !! (r, i)) as [p|] eqn:Hp; [|done].
  destruct (ca_pages _ _ _ _ _ _ Hc r i p Hp) as (_ & _ & _ & Hclean). cbn. by apply Hclean.
Qed.

Lemma binding_after_free r i : 0 <= r < regions geo -> 0 <= i < pages geo r -> bb_free_blocks (binding_after r i) = page_free (page_now r i).
Proof.
  intros Hr Hi. unfold binding_after. destruct (is_dirty r i) eqn:Hd; [done|]. rewrite (clean_page r i Hr Hd). pose proof Hvol as (_ & _ & Hin & _).
  destruct (state_bindings current c nodes r Hin Hr) as (_ & _ & _ & _ & _ & Hb). by destruct (Hb i Hi) as (_ & _ & _ & ?).
Qed.

Lemma page_now_fits r i : 0 <= r < regions geo -> 0 <= i < pages geo r -> page_fits geo r i (page_now r i).
Proof. intros Hr Hi. by apply (now_fits geo current other c nodes oc onodes d0 Hvol). Qed.

Lemma page_free_bound r i : 0 <= r < regions geo -> 0 <= i < pages geo r -> 0 <= page_free (page_now r i) <= page_valid geo r i.
Proof.
  intros Hr Hi. destruct (page_now_fits r i Hr Hi) as ((Hv & _) & _ & _ & _ & Hval). unfold page_free. rewrite size_allocated, Hval.
  assert (0 <= page_valid geo r i) by (unfold page_valid; change BITMAP_PAGE_BLOCKS with 32384; lia).
  pose proof (count_nonneg (bit_at (bp_bits (page_now r i))) 0 (page_valid geo r i)). pose proof (count_le (bit_at (bp_bits (page_now r i))) 0 (page_valid geo r i)). lia.
Qed.

(** The counts of the bindings are the counts of the pages. *)
Lemma bindings_free_sum r : 0 <= r < regions geo -> free_sum (map (binding_after r) (seqZ 0 (pages geo r))) = free_in_region geo page_now r.
Proof.
  intros Hr. pose proof (wf_pages_bounds geo r Hr). rewrite (free_in_region_pages geo page_now) by (done || intros a b ? ?; by apply page_now_fits).
  unfold free_sum. rewrite (foldr_total bb_free_blocks (fun i => page_free (page_now r i))); [unfold zlen; rewrite length_map, length_seqZ; f_equal; lia|].
  intros i b Hi. rewrite list_lookup_fmap in Hi. destruct (seqZ 0 (pages geo r) !! i) as [j|] eqn:Hj; [|done]. apply lookup_seqZ in Hj as [-> Hlt]. cbn in Hi. injection Hi as <-.
  symmetry. rewrite Z.add_0_l. apply binding_after_free; [done|lia].
Qed.

Lemma sum_bindings l : forall sum, Forall (fun b => 0 <= bb_free_blocks b) l -> 0 <= sum -> sum + free_sum l < 2 ^ 32 ->
  ofold (fun sum binding => @add_w CoreError 32 sum (bb_free_blocks binding)) sum l = Ok (sum + free_sum l).
Proof.
  induction l as [|b l IH]; intros sum HF H0 Hs; cbn; [f_equal; lia|]. apply Forall_cons in HF as [Hb HF]. cbn in Hs. fold (free_sum l) in *.
  assert (0 <= free_sum l) by (clear -HF; induction HF as [|x l Hx HF IH]; cbn; [lia|]; fold (free_sum l); lia).
  unfold add_w. replace (_ <? _) with true by lia. cbn [obind]. rewrite IH by (done || lia). f_equal. lia.
Qed.

Lemma binding_after_ok r i : 0 <= r < regions geo -> 0 <= i < pages geo r -> BitmapBinding_typed (binding_after r i) /\ binding_ok geo r generation i (binding_after r i).
Proof.
  intros Hr Hi. pose proof Hvol as (_ & _ & Hin & _). destruct (state_bindings current c nodes r Hin Hr) as (_ & _ & _ & _ & (Ht & (_ & _ & Hg) & _) & Hb).
  destruct (Hb i Hi) as (_ & Hbt & (Hs & Hgen & Hf) & _). pose proof (page_free_bound r i Hr Hi) as Hpf. unfold binding_after. destruct (is_dirty r i).
  - unfold page_slot. destruct (choose_slot_eq (bb_slot (binding_of c r i)) (match other with Some _ => Some (bb_slot (binding_of oc r i)) | None => None end)) as (_ & Hrange & _).
    assert (page_valid geo r i <= 32384) by (unfold page_valid; change BITMAP_PAGE_BLOCKS with 32384; lia).
    pose proof Ht as (_ & _ & Hu). unfold BitmapBinding_typed, binding_ok, u8, u32, u64, BITMAP_SLOTS in *. cbn [bb_slot bb_free_blocks bb_generation]. lia.
  - split; [done|]. unfold binding_ok. lia.
Qed.

Lemma free_region_u32 r : 0 <= r < regions geo -> 0 <= free_in_region geo page_now r <= valid geo r /\ valid geo r <= 262144.
Proof.
  intros Hr. pose proof (wf_valid_bounds geo r Hr). pose proof (wf_region (g := geo)). split; [|lia]. unfold free_in_region.
  pose proof (count_nonneg (fun x => negb (mark page_now r x)) 0 (valid geo r)). pose proof (count_le (fun x => negb (mark page_now r x)) 0 (valid geo r)). lia.
Qed.

Lemma descriptor_after_ok r : 0 <= r < regions geo ->
  RegionDescriptor_typed (descriptor_after r) generation /\ zlen (RegionDescriptor_wire (descriptor_after r)) <= block_size geo - 32 /\
  RegionDescriptor_validate (descriptor_after r) geo r generation = Ok tt /\
  RegionDescriptor_encode (descriptor_after r) (block_size geo) generation = Ok (image RegionDescriptor_header RegionDescriptor_wire (descriptor_after r) (block_size geo) generation).
Proof.
  intros Hr. pose proof (wf_block_size (g := geo)) as Hbs. pose proof (wf_regions (g := geo)). pose proof (wf_pages_bounds geo r Hr) as Hpb. destruct (free_region_u32 r Hr) as [Hf Hv].
  assert (forall k b, rd_pages (descriptor_after r) !! k = Some b -> exists i, 0 <= i < pages geo r /\ Z.of_nat k = i /\ b = binding_after r i) as Hlk.
  { intros k b Hk. cbn in Hk. rewrite list_lookup_fmap in Hk. destruct (seqZ 0 (pages geo r) !! k) as [j|] eqn:Hj; [|done]. apply lookup_seqZ in Hj as [-> Hlt]. cbn in Hk. injection Hk as <-.
    exists (Z.of_nat k). split; [lia|]. split; [done|]. by rewrite Z.add_0_l. }
  assert (zlen (rd_pages (descriptor_after r)) = pages geo r) as Hz by (unfold zlen; cbn; rewrite length_map, length_seqZ; lia).
  assert (RegionDescriptor_typed (descriptor_after r) generation) as Ht.
  { unfold RegionDescriptor_typed, u32. split; [cbn; lia|]. split; [cbn; lia|]. split; [cbn; lia|]. split; [|done].
    apply Forall_lookup_2. intros k b Hk. destruct (Hlk k b Hk) as (i & Hi & _ & ->). by apply binding_after_ok. }
  assert (zlen (RegionDescriptor_wire (descriptor_after r)) <= block_size geo - 32) as Hfit by (rewrite zlen_RegionDescriptor_wire, Hz, Hbs; lia).
  assert (rd_free_blocks (descriptor_after r) = free_sum (rd_pages (descriptor_after r))) as Hsum by (cbn; by rewrite bindings_free_sum).
  split; [done|]. split; [done|]. split.
  - apply (RegionDescriptor_validates geo); try done. intros k b Hk. destruct (Hlk k b Hk) as (i & Hi & -> & ->). by apply binding_after_ok.
  - apply RegionDescriptor_encodes; try done; [lia|]. apply Forall_lookup_2. intros k b Hk. destruct (Hlk k b Hk) as (i & Hi & _ & ->).
    destruct (binding_after_ok r i Hr Hi) as (_ & ? & ? & _). done.
Qed.

(** ** The free count *)

Lemma total_update (f g : Z -> Z) k n : 0 <= k < n -> (forall i, 0 <= i < n -> i <> k -> g i = f i) -> total g n = total f n - f k + g k.
Proof.
  intros Hk Hs. assert (forall m, Z.of_nat m <= n -> total g (Z.of_nat m) = total f (Z.of_nat m) + (if k <? Z.of_nat m then g k - f k else 0)) as H.
  { induction m as [|m IH]; intros Hm; [destruct (Z.ltb_spec k (Z.of_nat 0)); [lia|done]|]. rewrite Nat2Z.inj_succ, <- Z.add_1_r, !total_snoc, IH by lia.
    destruct (decide (Z.of_nat m = k)) as [->|Hne]; [replace (k <? k) with false by lia; replace (k <? k + 1) with true by lia; lia|]. rewrite (Hs (Z.of_nat m)) by lia.
    destruct (k <? Z.of_nat m) eqn:?; [replace (k <? Z.of_nat m + 1) with true by lia|replace (k <? Z.of_nat m + 1) with false by lia]; lia. }
  specialize (H (Z.to_nat n) ltac:(lia)). rewrite Z2Nat.id in H by lia. replace (k <? n) with true in H by lia. lia.
Qed.

(** The pages once the regions of [P] are emitted. *)
Definition mixed (P : list Z) (r i : Z) : BitmapPage := if decide (r ∈ P) then page_now r i else cs_page c r i.

Lemma free_region_ext (p q : Z -> Z -> BitmapPage) r : (forall i, p r i = q r i) -> free_in_region geo p r = free_in_region geo q r.
Proof. intros H. unfold free_in_region. apply count_ext. intros x _. unfold mark. by rewrite H. Qed.

Lemma mixed_step P r : 0 <= r < regions geo -> r ∉ P ->
  free_total geo (mixed (P ++ [r])) = free_total geo (mixed P) - rr_free_blocks (record_of c r) + free_in_region geo page_now r.
Proof.
  intros Hr Hn. pose proof Hvol as (_ & _ & Hin & _). destruct (state_bindings current c nodes r Hin Hr) as (_ & _ & _ & Hl & _).
  rewrite (record_free_exact geo _ _ _ _ Hin r _ Hr Hl), !(free_total_regions geo).
  rewrite (total_update (free_in_region geo (mixed P)) (free_in_region geo (mixed (P ++ [r]))) r (regions geo) Hr).
  - f_equal; [f_equal|]; apply free_region_ext; intros i; unfold mixed; [by rewrite decide_False|rewrite decide_True; [done|set_solver]].
  - intros k _ Hk. apply free_region_ext. intros i. unfold mixed. destruct (decide (k ∈ P)); [rewrite decide_True by set_solver|rewrite decide_False by set_solver]; done.
Qed.

Lemma mixed_bound P : 0 <= free_total geo (mixed P) < 2 ^ 64.
Proof.
  pose proof (wf_total (g := geo)). unfold free_total. pose proof (count_nonneg (fun lba => negb (marked geo (mixed P) lba)) 0 (total_blocks geo)).
  pose proof (count_le (fun lba => negb (marked geo (mixed P) lba)) 0 (total_blocks geo)). lia.
Qed.

(** ** The regions *)

Definition emitted (P : list Z) : Emitted :=
  {| em_bitmap_writes := flat_map page_writes P; em_descriptor_writes := map descriptor_write P; em_dirty_records := map (fun r => (r, record_after r)) P;
     em_free_blocks_total := free_total geo (mixed P) |}.

Lemma new_total_eq total old_free new_free : 0 <= total < 2 ^ 64 -> 0 <= total - old_free + new_free < 2 ^ 64 -> new_total total old_free new_free = Ok (total - old_free + new_free).
Proof.
  intros Ht Hn. unfold new_total, checked_add, checked_sub. destruct (old_free <=? new_free) eqn:He.
  - replace (_ <? _) with true by lia. cbn. f_equal. lia.
  - replace (_ <=? _) with true by lia. cbn. f_equal. lia.
Qed.

Lemma emit_region_eq P r : r ∈ ta_dirty_regions tx -> r ∉ P -> emit_region tx (emitted P) r = Ok (emitted (P ++ [r])).
Proof.
  intros Hd Hn. destruct (dirty_region_loaded r Hd) as (Hr & Hrec & Hdesc & Hslot & _). pose proof Hvol as (_ & _ & Hin & _).
  destruct (state_bindings current c nodes r Hin Hr) as (_ & _ & Hz & _ & _ & _). pose proof (wf_pages_bounds geo r Hr) as Hpb. destruct (free_region_u32 r Hr) as [Hf Hv].
  unfold emit_region. rewrite Hrec, Hdesc. cbn [ok_or obind]. rewrite Hz, as_u32_small by (unfold u32; lia). cbn [em_bitmap_writes emitted]. rewrite emit_pages_eq by done. cbn [obind rd_pages rd_region rd_valid_blocks].
  rewrite sum_bindings.
  2: { apply Forall_lookup_2. intros k b Hk. rewrite list_lookup_fmap in Hk. destruct (seqZ 0 (pages geo r) !! k) as [j|] eqn:Hj; [|done]. apply lookup_seqZ in Hj as [-> Hlt]. cbn in Hk. injection Hk as <-.
       rewrite binding_after_free by lia. pose proof (page_free_bound r (0 + Z.of_nat k) Hr ltac:(lia)). lia. }
  2: lia.
  2: rewrite bindings_free_sum by done; lia.
  rewrite bindings_free_sum, Z.add_0_l by done. cbn [obind]. rewrite Hslot.
  destruct (choose_slot_eq (rr_descriptor_slot (record_of c r)) (match other with Some _ => Some (rr_descriptor_slot (record_of oc r)) | None => None end)) as (Hch & Hrange & _).
  change DESCRIPTOR_SLOTS with 3. rewrite Hch. cbn [obind]. fold (descriptor_slot r) in Hrange |- *. rewrite (ca_geo _ _ _ _ _ _ Hc), descriptor_lba_eq by done. cbn [of_format obind].
  fold (descriptor_after r). destruct (descriptor_after_ok r Hr) as (_ & _ & _ & ->). cbn [of_format obind em_free_blocks_total emitted].
  pose proof (mixed_step P r Hr Hn) as Hms. rewrite new_total_eq; [|apply mixed_bound|rewrite <- Hms; apply mixed_bound]. cbn [obind em_descriptor_writes em_dirty_records].
  rewrite <- Hms. unfold emitted. rewrite flat_map_app, !map_app. cbn [flat_map map]. by rewrite app_nil_r.
Qed.

Lemma in_order_spec (s : gset Z) : NoDup (in_order s) /\ forall x, x ∈ in_order s <-> x ∈ s.
Proof.
  unfold in_order. pose proof (merge_sort_Permutation Z.le (elements s)) as Hp. split; [rewrite Hp; apply NoDup_elements|]. intros x. by rewrite Hp, elem_of_elements.
Qed.

Lemma emit_regions_eq :
  ta_current_free_blocks_total tx = free_total geo (cs_page c) ->
  emit_regions tx = Ok (emitted (in_order (ta_dirty_regions tx))) /\ em_free_blocks_total (emitted (in_order (ta_dirty_regions tx))) = free_total geo page_now.
Proof.
  intros Hcur. destruct (in_order_spec (ta_dirty_regions tx)) as [Hnd Hel]. split.
  - unfold emit_regions. rewrite Hcur. apply wp_no_error.
    apply (wp_ofold _ (fun e rest => exists done, in_order (ta_dirty_regions tx) = done ++ rest /\ e = emitted done)).
    + exists []. split; [done|]. unfold emitted. by f_equal.
    + intros e r rest (P & Heq & ->). rewrite emit_region_eq.
      * apply wp_ok. exists (P ++ [r]). by rewrite <- app_assoc.
      * apply Hel. rewrite Heq. set_solver.
      * rewrite Heq in Hnd. apply NoDup_app in Hnd as (_ & Hdis & _). intros Hin. apply (Hdis r Hin). by left.
    + intros e (P & Heq & ->). rewrite app_nil_r in Heq. by rewrite Heq.
  - cbn. unfold free_total. apply count_ext. intros lba Hl. f_equal. unfold marked, mark, mixed. destruct (lba_region geo lba ltac:(lia)) as (Hr & _ & Hx).
    set (r := lba / region_size geo) in *. destruct (decide (r ∈ in_order (ta_dirty_regions tx))) as [|Hn]; [done|]. rewrite (clean_page r); [done|done|].
    unfold is_dirty. apply bool_decide_eq_false. intros Hd. apply Hn, Hel. by apply (ca_dirty _ _ _ _ _ _ Hc) in Hd as [_ ?].
Qed.

(** ** The blocks a commit writes *)

Lemma slot_lba_inj x y lba : slot_valid geo x -> slot_valid geo y -> slot_lba geo x = Ok lba -> slot_lba geo y = Ok lba -> x = y.
Proof.
  intros Hx Hy. rewrite !(slot_lba_eq geo) by done. intros H1 H2. rewrite <- H1 in H2. apply Ok_inj in H2. pose proof (wf_regions_pos geo). pose proof (wf_region (g := geo)).
  assert (forall z, slot_valid geo z -> 0 <= slot_region z /\ 0 <= slot_offset z < region_size geo) as Hb.
  { intros z Hz. pose proof (slot_offset_head geo z Hz) as Ho. assert (0 <= slot_region z < regions geo) as Hr by (destruct z; cbn in *; lia).
    pose proof (wf_has_room geo _ WF Hr). pose proof (wf_valid_bounds geo _ Hr). lia. }
  destruct (Hb x Hx) as [? ?], (Hb y Hy) as [? ?]. assert (slot_region x = slot_region y) as Hreg by nia. eapply slot_inj; [done..|]. rewrite Hreg in H2. lia.
Qed.

Abbreviation regions_in_order := (in_order (ta_dirty_regions tx)).

(** Every block of a commit's bitmap state goes to a slot of its own. *)
Definition slot_written (x : slot) (block : bytes) : Prop :=
  (exists r i, 0 <= r < regions geo /\ 0 <= i < pages geo r /\ is_dirty r i = true /\ x = BitmapSlot r i (page_slot r i) /\ block = snd (page_write r i)) \/
  (exists r, r ∈ ta_dirty_regions tx /\ 0 <= r < regions geo /\ x = Geometry.DescriptorSlot r (descriptor_slot r) /\ block = snd (descriptor_write r)).

Lemma page_slot_range r i : 0 <= page_slot r i < 3 /\ page_slot r i <> bb_slot (binding_of c r i) /\ (other <> None -> page_slot r i <> bb_slot (binding_of oc r i)).
Proof.
  clear - c other oc.
  destruct (choose_slot_eq (bb_slot (binding_of c r i)) (match other with Some _ => Some (bb_slot (binding_of oc r i)) | None => None end)) as (_ & H & Hn & Ho).
  split; [done|]. split; [done|]. intros Hother Heq. apply Ho. fold (page_slot r i). rewrite Heq. by destruct other.
Qed.

Lemma descriptor_slot_range r :
  0 <= descriptor_slot r < 3 /\ descriptor_slot r <> rr_descriptor_slot (record_of c r) /\ (other <> None -> descriptor_slot r <> rr_descriptor_slot (record_of oc r)).
Proof.
  clear - c other oc.
  destruct (choose_slot_eq (rr_descriptor_slot (record_of c r)) (match other with Some _ => Some (rr_descriptor_slot (record_of oc r)) | None => None end)) as (_ & H & Hn & Ho).
  split; [done|]. split; [done|]. intros Hother Heq. apply Ho. fold (descriptor_slot r). rewrite Heq. by destruct other.
Qed.

Lemma slot_written_valid x block : slot_written x block -> slot_valid geo x.
Proof.
  intros [(r & i & Hr & Hi & _ & -> & _)|(r & _ & Hr & -> & _)]; cbn.
  - by destruct (page_slot_range r i).
  - by destruct (descriptor_slot_range r).
Qed.

Lemma slot_written_unique x block block' : slot_written x block -> slot_written x block' -> block = block'.
Proof. intros [(r & i & _ & _ & _ & -> & ->)|(r & _ & _ & -> & ->)] [(r' & i' & _ & _ & _ & Hx & ->)|(r' & _ & _ & Hx & ->)]; try done; injection Hx as <-; by subst. Qed.

Lemma elem_of_flat_map {X Y} (f : X -> list Y) l y : y ∈ flat_map f l <-> exists x, x ∈ l /\ y ∈ f x.
Proof. rewrite list_elem_of_In, in_flat_map. by setoid_rewrite list_elem_of_In. Qed.

Abbreviation writes := (flat_map page_writes regions_in_order ++ map descriptor_write regions_in_order).

Lemma writes_slots lba block : (lba, block) ∈ writes <-> exists x, slot_written x block /\ slot_lba geo x = Ok lba.
Proof.
  destruct (in_order_spec (ta_dirty_regions tx)) as [_ Hel]. rewrite elem_of_app, elem_of_flat_map. split.
  - intros [(r & Hr & Hin)|Hin].
    + apply Hel in Hr. destruct (dirty_region_loaded r Hr) as [Hrr _]. unfold page_writes in Hin. apply list_elem_of_fmap in Hin as (i & Heq & Hi). unfold page_write in Heq.
      apply pair_equal_spec in Heq as [-> ->]. apply list_elem_of_In, filter_In in Hi as [Hi Hd]. apply list_elem_of_In, elem_of_seqZ in Hi.
      exists (BitmapSlot r i (page_slot r i)). split; [left; exists r, i; split_and!; (done || lia)|]. destruct (page_slot_range r i). apply page_lba_eq; (done || lia).
    + apply list_elem_of_fmap in Hin as (r & Heq & Hr). apply Hel in Hr. destruct (dirty_region_loaded r Hr) as [Hrr _]. unfold descriptor_write in Heq. apply pair_equal_spec in Heq as [-> ->].
      exists (Geometry.DescriptorSlot r (descriptor_slot r)). split; [right; by exists r|]. destruct (descriptor_slot_range r). by apply descriptor_lba_eq.
  - intros (x & [(r & i & Hr & Hi & Hd & -> & ->)|(r & Hd & Hr & -> & ->)] & Hl).
    + left. assert ((r, i) ∈ ta_dirty_pages tx) as Hdp by (by apply bool_decide_eq_true in Hd). destruct (ca_dirty _ _ _ _ _ _ Hc r i Hdp) as [_ Hdr]. exists r. split; [by apply Hel|].
      apply list_elem_of_fmap. exists i. destruct (page_slot_range r i) as [Hs _]. cbn [slot_lba] in Hl. rewrite page_lba_eq in Hl by done. apply Ok_inj in Hl as <-. split; [done|].
      apply list_elem_of_In, filter_In. split; [|done]. apply list_elem_of_In, elem_of_seqZ. lia.
    + right. apply list_elem_of_fmap. exists r. destruct (descriptor_slot_range r) as [Hs _]. cbn [slot_lba] in Hl. rewrite descriptor_lba_eq in Hl by done. apply Ok_inj in Hl as <-. split; [done|by apply Hel].
Qed.

(** The volume once they are written, with other blocks written only outside the slots. *)
Definition emits (v : Z -> bytes) : Prop := forall x lba, slot_valid geo x -> slot_lba geo x = Ok lba -> v lba = written (content d0) writes lba.

Lemma written_slot v x block lba : emits v -> slot_written x block -> slot_lba geo x = Ok lba -> v lba = block.
Proof.
  intros Hv Hx Hl. rewrite (Hv x lba (slot_written_valid x block Hx) Hl). assert ((lba, block) ∈ writes) as Hin by (apply writes_slots; eauto). unfold written. destruct (list_to_map writes !! lba) as [b|] eqn:Hb.
  - apply elem_of_list_to_map_2, writes_slots in Hb as (y & Hy & Hly). assert (x = y) as -> by (eapply slot_lba_inj; eauto using slot_written_valid). by eapply slot_written_unique.
  - apply not_elem_of_list_to_map_2 in Hb. exfalso. apply Hb, list_elem_of_fmap. by exists (lba, block).
Qed.

Lemma unwritten_slot v x lba : emits v -> slot_valid geo x -> slot_lba geo x = Ok lba -> (forall block, ~ slot_written x block) -> v lba = content d0 lba.
Proof.
  intros Hv Hx Hl Hn. rewrite (Hv x lba Hx Hl). unfold written. destruct (list_to_map writes !! lba) as [b|] eqn:Hb; [|done]. exfalso. apply elem_of_list_to_map_2, writes_slots in Hb as (y & Hy & Hly).
  assert (x = y) as -> by (eapply slot_lba_inj; eauto using slot_written_valid). by eapply Hn.
Qed.

(** ** The allocation state after a commit *)

(** The descriptors and pages of a state are where its records say. *)
Definition slots_in (v : Z -> bytes) (state : Committed) : Prop :=
  forall r, 0 <= r < regions geo -> exists record, cs_records state !! Z.to_nat r = Some record /\ descriptor_in geo v r record (cs_descriptor state r) /\
    forall i, 0 <= i < pages geo r -> page_in geo v r i (cs_descriptor state r) (cs_page state r i).

(** A retained state stays in place when its slots are not among those written. *)
Lemma retained_slots v checkpoint state tree :
  emits v -> allocation_in geo (content d0) checkpoint state tree ->
  (forall r i, page_slot r i <> bb_slot (binding_of state r i)) -> (forall r, descriptor_slot r <> rr_descriptor_slot (record_of state r)) ->
  slots_in v state.
Proof.
  intros Hv Hin Hps Hds r Hr. destruct (state_bindings checkpoint state tree r Hin Hr) as (_ & _ & _ & Hl & ((Hu & _) & _ & Hslot & _) & Hb). destruct (proj2 Hin r Hr) as (record & Hl' & Hd & Hp).
  exists (record_of state r). split; [done|]. rewrite Hl in Hl'. injection Hl' as <-. split.
  - destruct Hd as (lba & Hlba & Hrest). exists lba. split; [done|]. unfold u8, DESCRIPTOR_SLOTS in *.
    rewrite (unwritten_slot _ (Geometry.DescriptorSlot r (rr_descriptor_slot (record_of state r))) lba); [done|done|cbn; lia|done|].
    intros block [(r' & i' & _ & _ & _ & Hx & _)|(r' & _ & _ & Hx & _)]; [done|]. injection Hx as -> Hx. by apply (Hds r').
  - intros i Hi. destruct (Hp i Hi) as (binding & lba & Hbi & Hlba & Hrest). destruct (Hb i Hi) as (Hbl & (Hub & _) & (Hs & _) & _). rewrite Hbl in Hbi. injection Hbi as <-. unfold u8, BITMAP_SLOTS in *.
    exists (binding_of state r i), lba. split; [done|]. split; [done|].
    rewrite (unwritten_slot _ (BitmapSlot r i (bb_slot (binding_of state r i))) lba); [done|done|cbn; lia|done|].
    intros block [(r' & i' & _ & _ & _ & Hx & _)|(r' & _ & _ & Hx & _)]; [|done]. injection Hx as -> -> Hx. by apply (Hps r' i').
Qed.

(** The records with those of the dirty regions replaced. *)
Definition patched (records : list RegionRecord) (dirty : list (Z * RegionRecord)) : list RegionRecord :=
  foldl (fun l p => <[Z.to_nat (fst p) := snd p]> l) records dirty.

Lemma patched_lookup (f : Z -> RegionRecord) P : forall records r,
  Forall (fun k => 0 <= k < zlen records) P -> 0 <= r ->
  patched records (map (fun k => (k, f k)) P) !! Z.to_nat r = if decide (r ∈ P) then Some (f r) else records !! Z.to_nat r.
Proof.
  unfold patched. induction P as [|k P IH] using rev_ind; intros records r HF Hr; [by rewrite decide_False by set_solver|].
  apply Forall_app in HF as [HF Hk]. rewrite Forall_singleton in Hk. rewrite map_app, foldl_app. cbn [foldl map fst snd].
  destruct (decide (r = k)) as [->|Hne].
  - rewrite decide_True by set_solver. rewrite list_lookup_insert_eq; [done|].
    assert (forall l, length (foldl (fun l p => <[Z.to_nat (fst p) := snd p]> l) l (map (fun k => (k, f k)) P)) = length l) as Hlen.
    { clear. induction P as [|x P IHP]; intros l; [done|]. cbn. by rewrite IHP, length_insert. }
    rewrite Hlen. unfold zlen in Hk. lia.
  - rewrite list_lookup_insert_ne by lia. rewrite IH by done. destruct (decide (r ∈ P)); [by rewrite decide_True by set_solver|by rewrite decide_False by set_solver].
Qed.

Definition state_after : Committed :=
  {| cs_records := patched (cs_records c) (map (fun r => (r, record_after r)) regions_in_order);
     cs_descriptor r := if decide (r ∈ ta_dirty_regions tx) then descriptor_after r else cs_descriptor c r; cs_page := page_now |}.

Lemma record_after_sound r : 0 <= r < regions geo -> record_sound geo r generation (record_after r).
Proof.
  intros Hr. destruct (free_region_u32 r Hr) as [Hf Hv]. destruct (descriptor_slot_range r) as [Hs _]. pose proof Hvol as (_ & _ & Hin & _).
  destruct (state_bindings current c nodes r Hin Hr) as (_ & _ & _ & _ & ((_ & _ & Hu) & (_ & _ & Hg) & _) & _). pose proof generation_typed as Hgt. pose proof newer as Hnew. unfold u64 in *.
  unfold record_sound, record_typed, record_fits, u8, u32, u64, DESCRIPTOR_SLOTS. cbn [record_after rr_descriptor_slot rr_free_blocks rr_descriptor_generation]. lia.
Qed.

Lemma records_after_lookup r : 0 <= r < regions geo ->
  cs_records state_after !! Z.to_nat r = Some (if decide (r ∈ ta_dirty_regions tx) then record_after r else record_of c r).
Proof.
  intros Hr. pose proof Hvol as (_ & _ & Hin & _). destruct (in_order_spec (ta_dirty_regions tx)) as [_ Hel]. pose proof (proj1 (proj2 (proj1 Hin))) as Hz.
  cbn [cs_records state_after]. rewrite patched_lookup; [|apply Forall_forall; intros k Hk%Hel; destruct (dirty_region_loaded k Hk) as [Hkr _]; by rewrite Hz|lia].
  destruct (decide (r ∈ regions_in_order)) as [Hi|Hi]; rewrite Hel in Hi; [by rewrite decide_True|rewrite decide_False by done].
  by destruct (state_bindings current c nodes r Hin Hr) as (_ & _ & _ & ? & _).
Qed.

Lemma descriptor_after_in v r : emits v -> r ∈ ta_dirty_regions tx -> 0 <= r < regions geo -> descriptor_in geo v r (record_after r) (descriptor_after r).
Proof.
  intros Hv Hd Hr. destruct (descriptor_slot_range r) as [Hs _]. destruct (descriptor_after_ok r Hr) as (Ht & Hz & Hval & _). pose proof (wf_block_size (g := geo)).
  exists (descriptor_lba r (descriptor_slot r)). split; [by apply descriptor_lba_eq|].
  rewrite (written_slot _ (Geometry.DescriptorSlot r (descriptor_slot r)) (snd (descriptor_write r))); [|done|right; by exists r|by apply descriptor_lba_eq].
  split; [|split; done]. apply RegionDescriptor_decode_image; [done|done|lia].
Qed.

(** A page named by a descriptor with the bindings of the commit. *)
Lemma page_after_in v r i : emits v -> r ∈ ta_dirty_regions tx -> 0 <= r < regions geo -> 0 <= i < pages geo r ->
  page_in geo v r i (descriptor_after r) (page_now r i).
Proof.
  intros Hv Hd Hr Hi. pose proof (wf_pages_bounds geo r Hr). pose proof (page_now_fits r i Hr Hi) as Hfit. pose proof (wf_block_size (g := geo)).
  assert (rd_pages (descriptor_after r) !! Z.to_nat i = Some (binding_after r i)) as Hl.
  { cbn. rewrite list_lookup_fmap. rewrite (proj2 (lookup_seqZ 0 (pages geo r) (Z.to_nat i) i)) by lia. done. }
  pose proof (free_blocks_spec (page_now r i) (proj1 Hfit)) as Hfree. pose proof (binding_after_free r i Hr Hi) as Hbf. unfold binding_after in *. destruct (is_dirty r i) eqn:Hdi.
  - destruct (page_slot_range r i) as [Hs _]. destruct (page_fits_encodes r i _ Hr Hi Hfit) as (Ht & Hadm & _). eexists _, (page_lba r i (page_slot r i)). split; [exact Hl|].
    cbn [bb_slot bb_free_blocks bb_generation]. split; [by apply page_lba_eq|].
    rewrite (written_slot _ (BitmapSlot r i (page_slot r i)) (snd (page_write r i))); [|done|left; exists r, i; by do 3 (split; [done|])|by apply page_lba_eq].
    split; [apply BitmapPage_decode_image; [done|lia|done]|done].
  - pose proof Hvol as (_ & _ & Hin & _). destruct (proj2 Hin r Hr) as (record & _ & _ & Hp). destruct (Hp i Hi) as (b & lba & Hb & Hlba & Hdec & _).
    destruct (state_bindings current c nodes r Hin Hr) as (_ & _ & _ & _ & _ & Hbs). destruct (Hbs i Hi) as (Hbl & (Hu & _) & (Hs & _) & _). rewrite Hb in Hbl. injection Hbl as ->. unfold u8, BITMAP_SLOTS in *.
    exists (binding_of c r i), lba. split; [done|]. split; [done|].
    rewrite (unwritten_slot _ (BitmapSlot r i (bb_slot (binding_of c r i))) lba); [|done|cbn; lia|done|].
    + rewrite (clean_page r i Hr Hdi) in Hfit, Hfree, Hbf |- *. split; [done|]. split; [done|]. by rewrite Hfree, Hbf.
    + intros block [(r' & i' & _ & _ & Hd' & Hx & _)|(r' & _ & _ & Hx & _)]; [|done]. injection Hx as -> -> _. by rewrite Hd' in Hdi.
Qed.

Lemma state_after_in v : emits v -> slots_in v state_after /\ records_sound geo generation (cs_records state_after).
Proof.
  intros Hv. pose proof Hvol as (_ & _ & Hin & _). split.
  - intros r Hr. exists (if decide (r ∈ ta_dirty_regions tx) then record_after r else record_of c r). split; [by apply records_after_lookup|]. cbn [cs_descriptor cs_page state_after].
    destruct (decide (r ∈ ta_dirty_regions tx)) as [Hd|Hd]; [split; [by apply descriptor_after_in|intros i Hi; by apply page_after_in]|].
    assert (forall i, is_dirty r i = false) as Hcl. { intros i. apply bool_decide_eq_false. intros Hx. apply Hd. by apply (ca_dirty _ _ _ _ _ _ Hc) in Hx as [_ ?]. }
    destruct (retained_slots v current c nodes Hv Hin ltac:(intros a b; by apply page_slot_range) ltac:(intros a; by apply descriptor_slot_range) r Hr) as (record & Hl & Hdi & Hp).
    destruct (state_bindings current c nodes r Hin Hr) as (_ & _ & _ & Hl' & _). rewrite Hl' in Hl. injection Hl as <-. split; [done|]. intros i Hi. rewrite (clean_page r i Hr (Hcl i)). by apply Hp.
  - pose proof (proj2 (proj1 Hin)) as [Hz Hs].
    assert (zlen (cs_records state_after) = regions geo) as Hz'.
    { rewrite <- Hz. unfold zlen. f_equal. cbn [cs_records state_after]. unfold patched. clear. generalize (cs_records c). induction regions_in_order as [|x P IHP]; intros l; [done|]. cbn. by rewrite IHP, length_insert. }
    split; [done|]. intros i record Hi. apply lookup_lt_Some in Hi as Hlt. assert (0 <= Z.of_nat i < regions geo) as Hr by (unfold zlen in Hz'; lia).
    pose proof (records_after_lookup (Z.of_nat i) Hr) as Hl. rewrite Nat2Z.id, Hi in Hl. injection Hl as ->. destruct (decide _); [by apply record_after_sound|].
    destruct (state_bindings current c nodes _ Hin Hr) as (_ & _ & _ & _ & (Ht & (? & ? & ?) & ?) & _). split; [done|]. split; [|done]. unfold record_fits. lia.
Qed.
End Emit.
