(* ===== verification/AllocTree.v ===== *)
(** * The allocator under the trees (alloc.rs as the TreeAllocator of cow_tree.rs)

    The allocator of a transaction keeps what the mutation of trees relies
    on, so a batch of edits that runs on it leaves every block of the
    committed state alone and accounts for each block it takes or drops. *)

From S2P Require Import Prelude Crc32c Format Header Codec TreeNode Geometry Bitmap Region Checkpoint Device Core Tree TreeSpec TreeReaders TreeVerify.
From S2P Require Import CowTree CowStore CowNodes CowEdit CowMutate CowBatch AllocRoot AllocRootSpec ReclaimCodec Reclaim ReclaimQueue RunSet Alloc AllocSpec AllocTx AllocScan AllocOps AllocBack AllocClaim AllocBegin AllocQueue.

Section Tree.
Context {D : Type} {device : BlockDevice Decoded D} {contract : DeviceContract Decoded D core_decodes}.
Context (geo : Geometry) {WF : WfGeometry geo}.
Context (current : Checkpoint) (other : option Checkpoint) (c : Committed) (nodes : list (Z * TreeNode)) (oc : Committed) (onodes : list (Z * TreeNode)).
Context (v : Z -> bytes) (root : ReclaimRoot) (tables : list (list SegmentRef)) (segs : list (list ReclaimEntry)) (budget : Z) (reclaim0 : ReclaimTx).

Abbreviation content := (view (decodes := core_decodes)).
Abbreviation promoted := (promoted_set (rx_promoted reclaim0)).
Abbreviation base := (AllocOps.base geo c promoted).
Abbreviation inv := (tx_inv geo current other c oc promoted).

(** The trees of both retained allocation states lie in blocks that stay marked. *)
Definition trees_held : Prop :=
  (forall lba, lba ∈ map fst nodes -> lba ∈ base) /\ match other with Some _ => forall lba, lba ∈ map fst onodes -> lba ∈ base | None => True end.

(** On a volume without snapshots the queue of the committed checkpoint is in place, and the transaction's queue is that one without its batch, with the runs
    retired so far behind it. *)
Definition queue_held (d : D) : Prop :=
  queue_at geo v (cp_generation current) (cp_reclaim_root_block current) root tables segs /\ u64 (cp_reclaim_root_block current) /\
  forall a, a ∈ live_structure root tables ++ [cp_reclaim_root_block current] -> a ∈ base /\ content d a = v a.

Definition queueing (d : D) (tx : TxAllocator) : Prop :=
  cp_snapshot_roots current = None -> queue_held d /\ exists runs, queue_open geo current other v root tables segs budget reclaim0 runs tx.

(** A transaction that is open on a device. *)
Definition open_tx (d : D) (tx : TxAllocator) : Prop :=
  volume_ok geo current other c nodes oc onodes d /\ inv tx /\ is_Some (ta_reclaim tx) /\ trees_held /\ 2 * regions geo <= 2 ^ 32 /\ queueing d tx.

Lemma queue_held_frame (d d' : D) (moved : Z -> Prop) :
  volume_ok geo current other c nodes oc onodes d -> (forall b, moved b -> b ∉ base) ->
  agree_off (dev_ok (decodes := core_decodes)) content moved d d' -> queue_held d -> queue_held d'.
Proof.
  intros (_ & Ht & _) Hm (_ & _ & Hv) (Hq & Hu & Ha). split; [done|]. split; [done|]. intros a Hin. destruct (Ha a Hin) as [Hb Hc]. split; [done|].
  rewrite <- Hc. pose proof (base_inside geo c promoted a Hb). apply Hv; [unfold inside; lia|]. intros Hx. by apply (Hm a).
Qed.

Lemma queueing_step (d d' : D) (moved : Z -> Prop) tx tx' :
  volume_ok geo current other c nodes oc onodes d -> (forall b, moved b -> b ∉ base) -> agree_off (dev_ok (decodes := core_decodes)) content moved d d' ->
  (forall runs, queue_open geo current other v root tables segs budget reclaim0 runs tx -> exists runs', queue_open geo current other v root tables segs budget reclaim0 runs' tx') ->
  queueing d tx -> queueing d' tx'.
Proof. intros Hvol Hm Hag Hstep Hq Hs. destruct (Hq Hs) as [Hh [runs Hr]]. split; [by eapply queue_held_frame|]. by apply (Hstep runs). Qed.

(** Changes of the transaction's own blocks do not touch what it reads. *)
Lemma volume_frame (d d' : D) tx :
  volume_ok geo current other c nodes oc onodes d -> inv tx -> trees_held ->
  agree_off (dev_ok (decodes := core_decodes)) content (fun b => b ∈ mine tx) d d' -> volume_ok geo current other c nodes oc onodes d'.
Proof.
  intros (Hd & Ht & Hin & Hu & Hold) Hinv [Hn Hon] (Hd' & [_ Htot] & Hv). unfold u64 in *.
  assert (forall lba (l : list (Z * TreeNode)), (forall x, x ∈ map fst l -> x ∈ base) -> 0 <= lba < total_blocks geo -> allocatable geo lba = false \/ lba ∈ map fst l ->
    content d' lba = content d lba) as Hsame.
  { intros lba l Hl Hlba Hcase. apply Hv; [unfold inside; lia|]. intros Hm. destruct Hcase as [Ha|Hin'].
    - destruct (ti_allocatable _ _ _ _ _ _ _ Hinv lba) as [_ Ha']; [set_solver|]. congruence.
    - pose proof (ti_fresh _ _ _ _ _ _ _ Hinv). specialize (Hl _ Hin'). set_solver. }
  split; [done|]. split; [lia|]. split; [eapply (allocation_in_frame geo); [lia|exact Hin|]; intros lba; by apply Hsame|]. split; [done|].
  destruct other as [older|]; [|done]. destruct Hold as [Hino Huo]. split; [|done]. eapply (allocation_in_frame geo); [lia|exact Hino|]. intros lba. by apply Hsame.
Qed.

Lemma volume_reads (d d' : D) : volume_ok geo current other c nodes oc onodes d -> reads d d' -> volume_ok geo current other c nodes oc onodes d'.
Proof.
  intros (Hd & Ht & Hin & Hu & Hold) (Hd' & [_ Htot] & Hv). unfold u64 in *.
  split; [done|]. split; [lia|]. split; [eapply (allocation_in_frame geo); [lia|exact Hin|]; intros lba Hlba _; apply Hv; [unfold inside; lia|by intros []]|]. split; [done|].
  destruct other as [older|]; [|done]. destruct Hold as [Hino Huo]. split; [|done]. eapply (allocation_in_frame geo); [lia|exact Hino|].
  intros lba Hlba _. apply Hv; [unfold inside; lia|by intros []].
Qed.

(** ** Operations keep a transaction open *)

Lemma open_step (d d' : D) tx tx' :
  open_tx d tx -> reads d d' -> inv tx' -> is_Some (ta_reclaim tx') ->
  (forall runs, queue_open geo current other v root tables segs budget reclaim0 runs tx -> exists runs', queue_open geo current other v root tables segs budget reclaim0 runs' tx') ->
  open_tx d' tx'.
Proof.
  intros (Hvol & _ & _ & Hheld & Hsmall & Hqu) Hr Hinv Hrec Hq. split; [by eapply volume_reads|]. split; [done|]. split; [done|]. split; [done|]. split; [done|].
  eapply queueing_step; [exact Hvol| |exact Hr|exact Hq|exact Hqu]. done.
Qed.

Lemma open_took (d d' : D) tx tx' R : open_tx d tx -> reads d d' -> took geo current other c oc promoted tx tx' R -> open_tx d' tx'.
Proof.
  intros Ho Hr Ht. pose proof Ht as (Hinv & _ & _ & _ & _ & Hrc & _). pose proof Ho as (_ & _ & Hrec & _). apply (open_step d d' tx tx'); [done|done|done|by rewrite Hrc|].
  intros runs Hq. exists runs. by eapply queue_open_took.
Qed.

Lemma open_retired (d d' : D) tx tx' start blocks : open_tx d tx -> reads d d' -> 0 <= start -> retired_to geo current other c oc promoted tx tx' start blocks -> open_tx d' tx'.
Proof.
  intros Ho Hr H0 Ht. pose proof Ht as (_ & Hinv & _ & _ & _ & _ & _ & _ & reclaim & Hrc & _). apply (open_step d d' tx tx'); [done|done|done|by exists reclaim|].
  intros runs Hq. exists (runs ++ [(start, blocks)]). by eapply queue_open_retired.
Qed.

Lemma open_released (d d' : D) tx tx' lba : open_tx d tx -> reads d d' -> released_to geo current other c oc promoted tx tx' lba -> open_tx d' tx'.
Proof.
  intros Ho Hr Ht. pose proof Ht as (Hinv & _ & _ & _ & _ & Hrc & _). pose proof Ho as (_ & _ & Hrec & _). apply (open_step d d' tx tx'); [done|done|done|by rewrite Hrc|].
  intros runs Hq. exists runs. by eapply queue_open_released.
Qed.

Lemma open_abandoned (d : D) tx tx' start blocks : open_tx d tx -> 0 <= start -> abandoned_to geo current other c oc promoted tx tx' start blocks -> open_tx d tx'.
Proof.
  intros Ho H0 Ht. pose proof Ht as (_ & Hinv & _ & _ & _ & _ & _ & _ & reclaim & _ & _ & Hrc). pose proof Ho as ((Hd & _) & Hinv0 & _).
  apply (open_step d d tx tx'); [done|by apply agree_refl|done|by eexists|]. intros runs Hq. exists (runs ++ [(start, blocks)]). by eapply queue_open_abandoned.
Qed.

Lemma open_quiet (d d' : D) tx tx' : open_tx d tx -> reads d d' -> inv tx' -> quiet geo c tx tx' -> open_tx d' tx'.
Proof.
  intros Ho Hr Hinv Hq. pose proof Ho as (_ & _ & Hrec & _). destruct (ledger_fields _ _ (proj1 (accounts_split _ _ (proj1 Hq)))) as (_ & Hb & Hs & _ & _ & _ & Hrc & Hng & _).
  apply (open_step d d' tx tx'); [done|done|done|by rewrite Hrc|]. intros runs [? ? ? ? ? ? ? ? Hg]. exists runs. split; rewrite ?Hng, ?Hs, ?Hrc; try done. unfold gone. by rewrite Hb.
Qed.

Lemma run_blocks_one lba : run_blocks lba (lba + 1) = {[lba]}.
Proof. apply set_eq. intros x. rewrite elem_of_run_blocks, elem_of_singleton. lia. Qed.

Definition tx_contract : AllocatorContract D TxAllocator geo.
Proof.
  refine {| tx_ok := open_tx; committed _ lba := lba ∈ base; owned := mine; quarantined := gone |}.
  - intros d tx lba (_ & Hinv & _) Hm. destruct (ti_allocatable _ _ _ _ _ _ _ Hinv lba) as [H0 Ha]; [set_solver|]. pose proof (ti_fresh _ _ _ _ _ _ _ Hinv) as Hf.
    pose proof (wf_total (g := geo)). split; [set_solver|]. split; [unfold u64, allocatable in *; lia|]. unfold check_tree_lba. rewrite (is_allocatable_eq geo) by done. cbn. by rewrite Ha.
  - intros d d' tx (Hvol & Hinv & Hrec & Hheld & Hsmall & Hqu) Hag. split; [by eapply volume_frame|]. split; [done|]. split; [done|]. split; [done|]. split; [done|].
    eapply queueing_step; [exact Hvol| |exact Hag|intros runs Hr; by exists runs|done]. cbn beta. intros b Hb. pose proof (ti_fresh _ _ _ _ _ _ _ Hinv). set_solver.
  - intros d tx Hd Ho. pose proof Ho as (Hvol & Hinv & _ & _ & Hsmall & _). cbn [allocate_tree_block tx_tree_allocator]. unfold allocate.
    eapply wpi_mono; [apply (wpi_allocate_run geo current other c nodes oc onodes promoted d Hvol d tx 1); [by apply agree_refl|done|lia|done]| |]; cbn beta; [|by intros e s [? _]].
    intros lba [d1 tx1] (Hr & Htook & _). cbn [fst snd] in *. pose proof (open_took _ _ _ _ _ Ho Hr Htook) as Ho1. destruct Htook as (_ & Hdis & _ & Hmine & Hret & _). rewrite run_blocks_one in *.
    split; [done|]. split; [done|]. split; [|split; [done|split; [done|by unfold gone; rewrite Hret]]]. intros Hin. rewrite (ti_marks _ _ _ _ _ _ _ Hinv) in Hdis. set_solver.
  - intros d tx lba Hd Ho Hb. pose proof Ho as (Hvol & Hinv & Hrec & _). cbn [retire_tree_block tx_tree_allocator]. unfold retire. pose proof (base_inside geo c promoted lba Hb) as Hins.
    eapply wpi_mono; [apply (wpi_retire_run geo current other c nodes oc onodes promoted d Hvol d tx lba 1); [by apply agree_refl|done|done|lia|lia]| |]; cbn beta; [|by intros e s [? _]].
    intros _ [d1 tx1] (Hr & Hret). cbn [fst snd] in *. pose proof (open_retired _ _ _ _ _ _ Ho Hr (proj1 Hins) Hret) as Ho1. destruct Hret as (_ & _ & _ & _ & Hmine & Hgone & _).
    rewrite run_blocks_one in *. done.
  - intros d tx lba Hd Ho Hm. pose proof Ho as (Hvol & Hinv & _). cbn [release_tree_block tx_tree_allocator]. pose proof (wf_total (g := geo)).
    destruct (ti_allocatable _ _ _ _ _ _ _ Hinv lba) as [H0 Ha]; [set_solver|].
    eapply wpi_mono; [apply (wpi_release_uncommitted geo current other c nodes oc onodes promoted d Hvol d tx lba); [by apply agree_refl|done|unfold u64, allocatable in *; lia]| |]; cbn beta; [|by intros e s [? _]].
    intros _ [d1 tx1] (Hr & Hrel). cbn [fst snd] in *. pose proof (open_released _ _ _ _ _ Ho Hr Hrel) as Ho1. destruct Hrel as (_ & _ & _ & Hmine & Hgone & _). done.
  - intros d tx stats Ho. split; [|done]. pose proof Ho as ((Hd & _) & Hinv & _). apply (open_quiet d d tx); [done|by apply agree_refl| |done].
    eapply quiet_inv; [done|exact Hinv| |done]. by apply (caches_ext geo current other c oc tx); [apply Hinv|].
Defined.
End Tree.
