(* ===== verification/AllocCommit.v ===== *)
(** * Finishing a transaction (crates/afsplus-core/src/alloc.rs: finish_alloc)

    The writes a finished transaction returns leave the allocation state of
    both retained checkpoints in place and add the one the transaction
    worked on: bitmaps, descriptors, records, free count and reclaim queue
    describe the same set of blocks. *)

From S2P Require Import Prelude Crc32c Format Header Codec TreeNode Geometry Bitmap Region Checkpoint Leaf Device Core Tree TreeSpec TreeReaders TreeVerify.
From S2P Require Import CowTree CowStore CowNodes CowEdit CowMutate AllocRoot AllocRootSpec ReclaimCodec Reclaim ReclaimQueue RunSet Alloc AllocSpec AllocTx AllocScan AllocOps AllocBack AllocBegin.
From S2P Require Import AllocQueue AllocTree AllocFinish.

(** ** Writes *)

Lemma written_app v a b x : written v (a ++ b) x = written (written v b) a x.
Proof.
  unfold written. rewrite list_to_map_app. destruct ((list_to_map a : gmap Z bytes) !! x) as [block|] eqn:Ha; [by rewrite (lookup_union_Some_l _ _ _ _ Ha)|].
  by rewrite (lookup_union_r _ _ _ Ha).
Qed.

Lemma written_off v writes x : x ∉ map fst writes -> written v writes x = v x.
Proof. intros Hn. unfold written. by rewrite (not_elem_of_list_to_map_1 writes x Hn). Qed.

Lemma written_in v writes p : NoDup (map fst writes) -> p ∈ writes -> written v writes (fst p) = snd p.
Proof. intros Hnd Hp. unfold written. destruct p as [lba block]. by rewrite (elem_of_list_to_map_1 writes lba block Hnd Hp). Qed.

(** ** The blocks of a queue *)

(** The blocks that wait in a queue and the blocks it is stored in. *)
Definition queue_places (root : ReclaimRoot) (tables : list (list SegmentRef)) (segs : list (list ReclaimEntry)) (lba : Z) : list Z :=
  map fst (live_blocks root segs) ++ live_structure root tables ++ [lba].

Section Commit.
Context {D : Type} {device : BlockDevice Decoded D} {contract : DeviceContract Decoded D core_decodes}.
Context (geo : Geometry) {WF : WfGeometry geo}.
Context (current : Checkpoint) (other : option Checkpoint) (c : Committed) (nodes : list (Z * TreeNode)) (oc : Committed) (onodes : list (Z * TreeNode)).
Context (v : Z -> bytes) (root : ReclaimRoot) (tables : list (list SegmentRef)) (segs : list (list ReclaimEntry)) (budget : Z) (reclaim0 : ReclaimTx).

Abbreviation content := (view (decodes := core_decodes)).
Abbreviation promoted := (promoted_set (rx_promoted reclaim0)).
Abbreviation base := (AllocOps.base geo c promoted).
Abbreviation inv := (tx_inv geo current other c oc promoted).
Abbreviation lba := (cp_reclaim_root_block current).
Abbreviation places := (queue_places root tables segs lba).

(** The queue conserves blocks: what it holds afterwards is what it held, without the promoted blocks, with the retired ones and its new structure. *)
Definition queue_moved (tx : TxAllocator) (fresh : gset Z) (root' : ReclaimRoot) (tables' : list (list SegmentRef)) (segs' : list (list ReclaimEntry)) (lba' : Z) : Prop :=
  NoDup places -> list_to_set places ⊆ marked_set geo (cs_page c) -> gone tx ## list_to_set places ->
  NoDup (queue_places root' tables' segs' lba') /\ list_to_set (queue_places root' tables' segs' lba') = (list_to_set places ∖ promoted) ∪ gone tx ∪ fresh.

Lemma moved_places rest used kept retired gen (fresh : list Z) root' tables' segs' lba' (tx : TxAllocator) :
  live_blocks root segs = promoted_blocks (rx_promoted reclaim0) ++ rest -> Permutation (live_structure root tables) (used ++ kept) -> NoDup fresh ->
  live_blocks root' segs' = rest ++ retired ++ map (fun a => (a, gen)) (used ++ [lba]) -> Permutation (live_structure root' tables' ++ [lba']) (kept ++ fresh) ->
  NoDup (map fst retired) -> list_to_set (map fst retired) = gone tx -> (list_to_set fresh : gset Z) ## base ∪ gone tx -> queue_moved tx (list_to_set fresh) root' tables' segs' lba'.
Proof.
  intros Hlive Hperm Hnf Hlive' Hperm' Hnr Hgone Hdf Hnd Hmk Hdg.
  assert (Permutation places (map fst (promoted_blocks (rx_promoted reclaim0)) ++ (map fst rest ++ used ++ kept ++ [lba]))) as Hpl.
  { unfold queue_places. rewrite Hlive, Hperm, map_app. solve_Permutation. }
  assert (Permutation (queue_places root' tables' segs' lba') ((map fst rest ++ used ++ kept ++ [lba]) ++ map fst retired ++ fresh)) as Hpl'.
  { unfold queue_places. rewrite Hlive', Hperm', !map_app, map_map. cbn [map fst]. rewrite map_id. solve_Permutation. }
  rewrite Hpl in Hnd. apply NoDup_app in Hnd as (Hnp & Hpd & Hns). set (stay := map fst rest ++ used ++ kept ++ [lba]) in *.
  assert (forall x, x ∈ (list_to_set places : gset Z) <-> x ∈ map fst (promoted_blocks (rx_promoted reclaim0)) \/ x ∈ stay) as Hin by (intros x; by rewrite elem_of_list_to_set, Hpl, elem_of_app).
  assert (forall x, x ∈ stay -> x ∈ base) as Hst.
  { intros x Hx. unfold AllocOps.base, promoted_set. apply elem_of_difference. split; [apply Hmk, Hin; by right|]. rewrite elem_of_list_to_set. intros Hp. by apply (Hpd x). }
  assert (forall x, x ∈ map fst retired <-> x ∈ gone tx) as Hret by (intros x; by rewrite <- Hgone, elem_of_list_to_set). split.
  - rewrite Hpl'. apply NoDup_app. split; [done|]. split.
    + intros x Hx [Hr|Hf]%elem_of_app; [apply Hret in Hr; assert (x ∈ (list_to_set places : gset Z)) by (apply Hin; by right); set_solver|].
      assert (x ∈ (list_to_set fresh : gset Z)) by (by apply elem_of_list_to_set). apply Hst in Hx. set_solver.
    + apply NoDup_app. split; [done|]. split; [|done]. intros x Hr%Hret Hf. assert (x ∈ (list_to_set fresh : gset Z)) by (by apply elem_of_list_to_set). set_solver.
  - apply set_eq. intros x. rewrite !elem_of_union, elem_of_difference, Hin, !elem_of_list_to_set, Hpl', !elem_of_app, Hret. unfold promoted_set. rewrite elem_of_list_to_set.
    specialize (Hpd x). destruct (decide (x ∈ stay)) as [Hs|Hs]; [|tauto]. assert (x ∉ map fst (promoted_blocks (rx_promoted reclaim0))) by tauto. tauto.
Qed.

(** ** What finishing returns *)

Definition finished (d : D) (tx : TxAllocator) (f : FinishedAlloc) : Prop :=
  exists c' rest appended root' tables' segs',
    let gen := ta_new_generation tx in
    let v' := written (content d) (fa_reclaim_writes f ++ fa_bitmap_writes f ++ fa_descriptor_writes f) in
    let fresh : gset Z := list_to_set (map fst (fa_reclaim_writes f)) in
    (slots_in geo v' c /\ match other with Some _ => slots_in geo v' oc | None => True end) /\
    (slots_in geo v' c' /\ cs_records c' = patched (cs_records c) (fa_dirty_records f) /\ records_sound geo gen (cs_records c')) /\
    fa_free_blocks_total f = free_total geo (cs_page c') /\ fresh ## base ∪ mine tx ∪ gone tx /\ marked_set geo (cs_page c') = base ∪ mine tx ∪ gone tx ∪ fresh /\
    queue_at geo v' gen (fa_reclaim_root_lba f) root' tables' segs' /\
    live_blocks root segs = promoted_blocks (rx_promoted reclaim0) ++ rest /\ live_blocks root' segs' = rest ++ appended /\ Forall (fun b => snd b = gen) appended /\
    fa_reclaim_pending_blocks f = zlen (live_blocks root' segs') /\ queue_moved tx fresh root' tables' segs' (fa_reclaim_root_lba f).

(** The slots of a commit are not among the blocks of the queue. *)
Lemma slot_writes_reserved (d : D) tx x :
  volume_ok geo current other c nodes oc onodes d -> inv tx ->
  x ∈ map fst (flat_map (page_writes geo other c oc tx) (in_order (ta_dirty_regions tx)) ++ map (descriptor_write geo other c oc tx) (in_order (ta_dirty_regions tx))) ->
  allocatable geo x = false.
Proof.
  intros Hvol Hinv Hx. apply list_elem_of_fmap in Hx as ([a block] & -> & Hin).
  apply (writes_slots geo current other c nodes oc onodes d Hvol tx (ti_caches _ _ _ _ _ _ _ Hinv)) in Hin as (y & Hy & Hl). cbn.
  apply (slot_written_valid geo other c oc tx) in Hy. destruct (slot_address geo y Hy) as (a' & Hl' & _ & _ & Ha). rewrite Hl in Hl'. apply Ok_inj in Hl' as <-. done.
Qed.

Lemma retired_generation gen runs : Forall (fun b => snd b = gen) (retired_blocks gen runs).
Proof.
  apply Forall_forall. intros [a g] Hin. unfold retired_blocks, queue_blocks in Hin. apply list_elem_of_In, in_concat in Hin as (l & Hl & Hb). apply in_map_iff in Hl as (e & <- & He).
  apply in_map_iff in He as (run & <- & _). unfold ReclaimQueue.run_blocks in Hb. apply in_map_iff in Hb as (y & [= <- <-] & _). done.
Qed.

(** The bitmap side, for any content that differs from the emitted writes outside the slots only. *)
Lemma emission (d : D) tx :
  volume_ok geo current other c nodes oc onodes d -> inv tx ->
  exists e c', emit_regions tx = Ok e /\ (forall x, x ∈ map fst (em_bitmap_writes e ++ em_descriptor_writes e) -> allocatable geo x = false) /\
    em_free_blocks_total e = free_total geo (cs_page c') /\ cs_page c' = now c tx /\ cs_records c' = patched (cs_records c) (em_dirty_records e) /\
    forall v', (forall x, allocatable geo x = false -> v' x = written (content d) (em_bitmap_writes e ++ em_descriptor_writes e) x) ->
      (slots_in geo v' c /\ match other with Some _ => slots_in geo v' oc | None => True end) /\
      slots_in geo v' c' /\ records_sound geo (ta_new_generation tx) (cs_records c').
Proof.
  intros Hvol Hinv. pose proof (ti_caches _ _ _ _ _ _ _ Hinv) as Hc. destruct (ti_begun _ _ _ _ _ _ _ Hinv) as (Hcur & Hnew & Hu).
  destruct (emit_regions_eq geo current other c nodes oc onodes d Hvol tx Hc Hu Hnew Hcur) as [He Hfree].
  exists (emitted geo other c oc tx (in_order (ta_dirty_regions tx))), (state_after geo other c oc tx). split; [done|]. split; [intros x Hx; by eapply slot_writes_reserved|].
  split; [done|]. split; [done|]. split; [done|]. intros v' Hv.
  assert (emits geo other c oc d tx v') as Hem.
  { intros x a Hx Ha. destruct (slot_address geo x Hx) as (a' & Ha' & _ & _ & Hal). rewrite Ha in Ha'. apply Ok_inj in Ha' as <-. by apply Hv. }
  pose proof Hvol as (_ & _ & Hin & _ & Hold). split; [split|].
  - apply (retained_slots geo current other c nodes oc onodes d Hvol tx Hc v' current c nodes Hem Hin); [intros r i; by apply page_slot_range|intros r; by apply descriptor_slot_range].
  - destruct other as [older|] eqn:Ho; [|done]. destruct Hold as [Hino _]. rewrite <- Ho in *.
    apply (retained_slots geo current other c nodes oc onodes d Hvol tx Hc v' older oc onodes Hem Hino); [intros r i; apply page_slot_range; by rewrite Ho|intros r; apply descriptor_slot_range; by rewrite Ho].
  - by apply (state_after_in geo current other c nodes oc onodes d Hvol tx Hc).
Qed.

(** ** Finishing *)

Lemma inv_set_stats stats tx : as_count stats = as_count (ta_stats tx) -> inv tx -> inv (set_stats stats tx).
Proof.
  intros Hs Hinv. eapply quiet_inv; [done|exact Hinv| |].
  - by apply (caches_ext geo current other c oc tx); [apply Hinv|].
  - unfold quiet, accounts, ledger, alloc_count. cbn [ta_stats set_stats]. by rewrite Hs.
Qed.

Lemma structure_reserved a : queue_at geo v (cp_generation current) lba root tables segs -> a ∈ live_structure root tables -> allocatable geo a = true.
Proof.
  intros (Hroot & Hlive & _) Hin. pose proof (live_structure_places geo _ _ _ _ _ (root_at_shape geo _ _ _ _ Hroot) Hlive) as HF. rewrite Forall_forall in HF. by apply HF.
Qed.

(** The new queue, with the slots written as well. *)
Lemma requeued_at (d : D) runs tx tx' b slots :
  queue_held geo current c v root tables segs reclaim0 d -> inv tx -> queue_open geo current other v root tables segs budget reclaim0 runs tx ->
  requeued geo current other c oc promoted v root tables segs reclaim0 runs tx tx' b -> (forall x, x ∈ map fst slots -> allocatable geo x = false) ->
  exists rest appended root' tables' segs', queue_at geo (written (content d) (rb_writes b ++ slots)) (ta_new_generation tx) (rb_root_lba b) root' tables' segs' /\
    live_blocks root segs = promoted_blocks (rx_promoted reclaim0) ++ rest /\ live_blocks root' segs' = rest ++ appended /\ Forall (fun p => snd p = ta_new_generation tx) appended /\
    rb_pending_blocks b = zlen (live_blocks root' segs') /\ queue_moved tx (list_to_set (map fst (rb_writes b))) root' tables' segs' (rb_root_lba b).
Proof.
  intros (Hq & _ & Hheld) Hinv Hqo (rest & used & kept & Hlive & Hperm & Hnd & HF & Htook & _ & _ & Hpend & Hpub) Hslots. cbn zeta in *.
  destruct Htook as (_ & Hfresh & _). change (AllocOps.marks geo c (set_reclaim None tx)) with (AllocOps.marks geo c tx) in Hfresh. rewrite (ti_marks _ _ _ _ _ _ _ Hinv) in Hfresh.
  destruct (Hpub (written (content d) (rb_writes b ++ slots))) as (root' & tables' & segs' & Hq' & Hlive' & Hperm').
  - intros p Hp. rewrite written_app. by apply written_in.
  - intros a Ha. assert (a ∈ live_structure root tables) as Hin by (rewrite Hperm; set_solver). destruct (Hheld a ltac:(set_solver)) as [Hb Hc].
    rewrite written_app, !written_off; [done| |].
    + intros Hx%Hslots. by rewrite (structure_reserved a Hq Hin) in Hx.
    + intros Hx. assert (a ∈ (list_to_set (map fst (rb_writes b)) : gset Z)) by (by apply elem_of_list_to_set). set_solver.
  - eexists rest, _, root', tables', segs'. split; [done|]. split; [done|]. split; [done|]. split; [|split; [by rewrite Hlive'|]].
    + apply Forall_app. split; [apply retired_generation|]. apply Forall_map, Forall_forall. done.
    + eapply moved_places; try done; [apply Hqo|apply Hqo|]. set_solver.
Qed.

Lemma wpi_finish_alloc (d : D) tx :
  open_tx geo current other c nodes oc onodes v root tables segs budget reclaim0 d tx -> cp_snapshot_roots current = None -> 0 < cp_generation current ->
  rt_appended_blocks_total root + Z.of_nat (size (gone tx)) + zlen (live_structure root tables) + 1 < 2 ^ 64 ->
  wpi finish_alloc (d, tx) (fun f s => reads d (fst s) /\ finished d tx f)
    (fun e s => reads d (fst s) /\ (only_io e \/ e = NoSpace \/ exists what, e = PrototypeLimit what)).
Proof.
  intros (Hvol & Hinv & _ & _ & Hsmall & Hqu) Hroots Hg Hroom. destruct (Hqu Hroots) as (Hheld & runs & Hqo). pose proof Hheld as (Hq & Hu & _).
  pose proof (qo_snapshot _ _ _ _ _ _ _ _ _ _ _ Hqo) as Hsn. pose proof Hvol as (Hd & _). unfold finish_alloc.
  apply wpi_bind. unfold on_tx at 1. apply wpi_bind, wpi_get. cbn [snd]. apply wpi_lift. unfold check_snapshot_health at 1, in_phase. rewrite Hsn. apply wp_ok.
  apply wpi_bind, wpi_get. cbn [snd]. unfold not_sealed. rewrite Hsn. apply wpi_bind, wpi_modify. cbn [fst snd]. rewrite Hsn. cbn [fmap option_fmap option_map].
  replace (set_snapshot None tx) with tx by (rewrite <- Hsn; by destruct tx).
  apply wpi_bind. eapply wpi_mono; [by apply (wpi_rebuild_reclaim geo current other c nodes oc onodes promoted v root tables segs budget reclaim0 d Hvol Hsmall d runs tx); [apply agree_refl|..]| |]; cbn beta; [|done].
  intros b [d1 tx1] (Hr1 & Hreq). cbn [fst snd] in *. apply wpi_bind, wpi_modify. cbn [fst snd]. set (tx2 := set_stats _ tx1).
  pose proof Hreq as (_ & _ & _ & _ & _ & _ & _ & (Hinv1 & Hfresh & Hmarks & _ & _ & _ & Hgen & _ & Htr) & _). cbn [ta_snapshot set_reclaim tracked] in Htr. rewrite Hsn in Htr. cbn in Htr.
  assert (inv tx2) as Hinv2 by by apply inv_set_stats. destruct (emission d tx2 Hvol Hinv2) as (e & c' & He & Hres & Htotal & Hpage & Hrec & Hslots).
  apply wpi_bind. unfold on_tx at 1. apply wpi_bind, wpi_get. cbn [snd]. rewrite He. apply wpi_lift, wp_ok. apply wpi_bind, wpi_modify. cbn [fst snd].
  apply wpi_bind. unfold on_tx. apply wpi_bind, wpi_get. cbn [snd]. set (tx3 := tally_alloc _ _ _). assert (finished_roots tx3 = Ok (None, None)) as ->.
  { unfold finished_roots. change (ta_current_checkpoint tx3) with (ta_current_checkpoint tx1). change (ta_snapshot tx3) with (ta_snapshot tx1). rewrite (ca_current _ _ _ _ _ _ (ti_caches _ _ _ _ _ _ _ Hinv1)), Hroots.
    by destruct (ta_snapshot tx1). }
  apply wpi_lift, wp_ok. apply wpi_bind, wpi_get. cbn [snd]. apply wpi_ret. cbn [fst snd]. split; [done|].
  destruct (requeued_at d runs tx tx1 b _ Hheld Hinv Hqo Hreq Hres) as (rest & appended & root' & tables' & segs' & Hq' & Hl & Hl' & Happ & Hpend & Hmov).
  change (AllocOps.marks geo c (set_reclaim None tx)) with (AllocOps.marks geo c tx) in Hfresh, Hmarks. change (ta_new_generation (set_reclaim None tx)) with (ta_new_generation tx) in Hgen.
  rewrite (ti_marks _ _ _ _ _ _ _ Hinv) in Hfresh, Hmarks. change (ta_new_generation tx2) with (ta_new_generation tx1) in Hslots. rewrite Hgen in Hslots.
  exists c', rest, appended, root', tables', segs'. cbn zeta. cbn [fa_reclaim_writes fa_bitmap_writes fa_descriptor_writes fa_dirty_records fa_free_blocks_total fa_reclaim_root_lba fa_reclaim_pending_blocks].
  destruct (Hslots (written (content d) (rb_writes b ++ em_bitmap_writes e ++ em_descriptor_writes e))) as (Hkeep & Hnew & Hsound).
  { intros x Hx. rewrite written_app. apply written_off. intros Hin. destruct Hreq as (_ & _ & _ & _ & _ & _ & HF & _). rewrite Forall_forall in HF. destruct (HF x Hin) as [_ Ha]. congruence. }
  split; [done|]. split; [done|]. split; [done|]. split; [set_solver|]. split; [|done]. rewrite Hpage. transitivity (AllocOps.marks geo c tx1); [done|]. rewrite Hmarks. set_solver.
Qed.
End Commit.

(** ** Consistent volumes *)

Section Consistent.
Context {D : Type} {device : BlockDevice Decoded D} {contract : DeviceContract Decoded D core_decodes}.
Context (geo : Geometry) {WF : WfGeometry geo}.
Context (current : Checkpoint) (other : option Checkpoint) (c : Committed) (nodes : list (Z * TreeNode)) (oc : Committed) (onodes : list (Z * TreeNode)).

Abbreviation content := (view (decodes := core_decodes)).

(** Both retained checkpoints can be read; the blocks that wait for reclamation, the queue itself and the allocation roots are marked and apart from each other. *)
Record consistent (d : D) (root : ReclaimRoot) (tables : list (list SegmentRef)) (segs : list (list ReclaimEntry)) : Prop := {
  vc_volume : volume_ok geo current other c nodes oc onodes d;
  vc_queue : queue_at geo (content d) (cp_generation current) (cp_reclaim_root_block current) root tables segs;
  vc_root : u64 (cp_reclaim_root_block current);
  vc_free : cp_free_blocks_total current = free_total geo (cs_page c);
  vc_generations : 0 < oldest_retained current other;
  vc_apart : NoDup (queue_places root tables segs (cp_reclaim_root_block current));
  vc_marked : list_to_set (queue_places root tables segs (cp_reclaim_root_block current)) ⊆ marked_set geo (cs_page c);
  vc_trees lba : lba ∈ map fst nodes ++ (match other with Some _ => map fst onodes | None => [] end) -> lba ∈ marked_set geo (cs_page c) /\ lba ∉ map fst (live_blocks root segs);
  vc_regions : 2 * regions geo <= 2 ^ 32;
}.

(** The promoted blocks come from the queue. *)
Lemma consistent_base (d : D) root tables segs reclaim rest lba :
  consistent d root tables segs -> live_blocks root segs = promoted_blocks (rx_promoted reclaim) ++ rest ->
  lba ∈ marked_set geo (cs_page c) -> lba ∉ map fst (live_blocks root segs) -> lba ∈ AllocOps.base geo c (promoted_set (rx_promoted reclaim)).
Proof.
  intros Hc Hl Hm Hn. unfold AllocOps.base, promoted_set. apply elem_of_difference. split; [done|]. rewrite elem_of_list_to_set. intros Hp. apply Hn. rewrite Hl, map_app. apply elem_of_app. by left.
Qed.

Lemma consistent_open (d d' : D) root tables segs new_generation batch_blocks tx :
  consistent d root tables segs -> reads d d' -> opened geo current other c oc (content d) root tables segs new_generation batch_blocks tx ->
  exists reclaim, ta_reclaim tx = Some reclaim /\ open_tx geo current other c nodes oc onodes (content d) root tables segs batch_blocks reclaim d' tx.
Proof.
  intros Hc Hr Ho. pose proof Ho as (reclaim & rest & Hrc & Hl & _ & _ & _ & Hinv & _). pose proof (vc_volume _ _ _ _ Hc) as Hvol. exists reclaim. split; [done|].
  pose proof (fun lba => consistent_base d root tables segs reclaim rest lba Hc Hl) as Hbase. split; [by eapply volume_reads|]. split; [done|]. split; [by exists reclaim|]. split.
  { split; [intros lba Hn; destruct (vc_trees _ _ _ _ Hc lba) as [? ?]; [set_solver|by apply Hbase]|].
    pose proof (vc_trees _ _ _ _ Hc) as Ht. destruct other; [|done]. intros lba Hn. destruct (Ht lba) as [? ?]; [set_solver|by apply Hbase]. }
  split; [apply Hc|]. intros Hs. split; [|exists []; by eapply queue_open_opened]. split; [apply Hc|]. split; [apply Hc|]. intros a Ha.
  assert (a ∈ AllocOps.base geo c (promoted_set (rx_promoted reclaim))) as Hb.
  { apply Hbase; [apply (vc_marked _ _ _ _ Hc), elem_of_list_to_set; unfold queue_places; set_solver|]. pose proof (vc_apart _ _ _ _ Hc) as Hnd. unfold queue_places in Hnd.
    apply NoDup_app in Hnd as (_ & Hdis & _). intros Hx. by apply (Hdis a). }
  split; [done|]. apply (reads_view _ _ _ Hr). pose proof (base_inside geo c _ a Hb). destruct Hvol as (_ & Ht & _). unfold inside. lia.
Qed.
End Consistent.
