(* ===== verification/AllocSample.v ===== *)
(** * A sample volume (for the allocator of crates/afsplus-core/src/alloc.rs)

    Sixty blocks in four regions, with bitmaps, descriptors, an allocation
    root, a reclaim queue and a tree, under two retained checkpoints. *)

From S2P Require Import Prelude Crc32c Format Header Codec TreeNode Geometry Bitmap Region Checkpoint Leaf Device Cache Core Tree TreeSpec TreeReaders TreeVerify.
From S2P Require Import CowTree CowStore CowNodes CowEdit CowMutate CowBatch AllocRoot AllocRootSpec AllocBulk ReclaimCodec Reclaim ReclaimQueue RunSet Alloc AllocSpec AllocTx AllocScan AllocOps AllocBack AllocClaim AllocBegin.
From S2P Require Import AllocQueue AllocTree AllocFinish AllocCommit.

(** The blocks in use besides the reserved heads. *)
Definition sample_used : list Z := [9; 10; 11; 13; 14; 15; 44; 45; 46; 55; 56; 57].

Definition sample_bitmap (region : Z) : BitmapPage :=
  let marked := List.filter (fun i => bool_decide (region * 16 + i ∈ sample_used) || (i <? head small_geometry region)) (seqZ 0 (valid small_geometry region)) in
  match all_free region 0 0 (valid small_geometry region) with
  | Ok page => foldl (fun page i => match set_allocated page i true with Ok (page, _) => page | _ => page end) page marked
  | _ => {| bp_region := 0; bp_page_index := 0; bp_first_block := 0; bp_valid_blocks := 0; bp_bits := [] |}
  end.

Definition sample_free (region : Z) : Z := match free_blocks (sample_bitmap region) with Ok n => n | _ => 0 end.

Definition sample_descriptor_of (region : Z) : RegionDescriptor :=
  {| rd_region := region; rd_valid_blocks := valid small_geometry region; rd_free_blocks := sample_free region;
     rd_pages := [ {| bb_slot := 0; bb_free_blocks := sample_free region; bb_generation := 1 |} ] |}.

Definition sample_records : list RegionRecord :=
  map (fun region => {| rr_descriptor_slot := 0; rr_free_blocks := sample_free region; rr_descriptor_generation := 1 |}) [0; 1; 2; 3].

Definition block_or_zeros {E} (r : outcome E bytes) : bytes := match r with Ok b => b | _ => zeros 4096 end.

Definition sample_region_blocks (region : Z) (blocks : gmap Z bytes) : gmap Z bytes :=
  <[region * 16 + boot region := block_or_zeros (RegionDescriptor_encode (sample_descriptor_of region) 4096 1)]>
    (<[region * 16 + boot region + 3 := block_or_zeros (BitmapPage_encode (sample_bitmap region) 4096 1)]> blocks).

Definition sample_alloc_root : bytes :=
  match bulk_build small_geometry sample_records with
  | Ok {| br_nodes := [(13, leaf)] |} => block_or_zeros (TreeNode_encode leaf 4096 1)
  | _ => zeros 4096
  end.

Definition allocated_volume : MemoryBackend :=
  {| mb_block_size := 4096; mb_total_blocks := 60;
     mb_blocks := sample_region_blocks 0 (sample_region_blocks 1 (sample_region_blocks 2 (sample_region_blocks 3
       (<[13 := sample_alloc_root]> (<[46 := node_block left_leaf]> (mb_blocks queue_volume)))))) |}.

Definition sample_current : Checkpoint :=
  {| cp_uuid := zeros 16; cp_generation := 9; cp_root_object_id := 1; cp_object_map_block := 10; cp_allocation_root_block := 13; cp_reclaim_root_block := 44;
     cp_next_object_id := 17; cp_committed_tx_id := 9; cp_free_blocks_total := 21; cp_flags := 0; cp_shared_extent_root_block := 0; cp_label := []; cp_snapshot_roots := None |}.
Definition sample_older : Checkpoint :=
  {| cp_uuid := zeros 16; cp_generation := 6; cp_root_object_id := 1; cp_object_map_block := 10; cp_allocation_root_block := 13; cp_reclaim_root_block := 44;
     cp_next_object_id := 17; cp_committed_tx_id := 6; cp_free_blocks_total := 21; cp_flags := 0; cp_shared_extent_root_block := 0; cp_label := []; cp_snapshot_roots := None |}.

Definition sample_device : CachedDevice Decoded MemoryBackend := cached_volume allocated_volume.
Definition sample_bitmaps := Bitmaps_load small_geometry sample_current sample_device.
Definition sample_opening := TxAllocator_begin small_geometry sample_current (Some sample_older) 10 64 0 sample_device.

Abbreviation content := (view (decodes := core_decodes)).

Lemma allocated_volume_ok : memory_ok allocated_volume.
Proof.
  split; [by vm_compute|]. split; [by vm_compute|]. cbn [mb_blocks allocated_volume queue_volume]. unfold sample_region_blocks.
  repeat (apply map_Forall_insert_2; [vm_compute; reflexivity|]). apply map_Forall_empty.
Qed.

Lemma sample_device_ok : dev_ok (decodes := core_decodes) sample_device /\ cd_inner sample_device = allocated_volume.
Proof. apply cached_volume_ok, allocated_volume_ok. Qed.

Lemma sample_size : dev_total_blocks sample_device = 60.
Proof.
  assert (forall x : CachedDevice Decoded MemoryBackend, dev_total_blocks x = mb_total_blocks (cd_inner x)) as H by done. rewrite H, (proj2 sample_device_ok). done.
Qed.

Lemma sample_queue_at : queue_at small_geometry (content sample_device) 9 44 queue_root [] [queue_entries].
Proof.
  change (content sample_device) with (peek (cd_inner sample_device)). rewrite (proj2 sample_device_ok). split; [|split; [constructor|reflexivity]].
  - split; [by vm_compute|]. split; [exists 9; split_and!; [vm_compute; reflexivity|lia|vm_compute; reflexivity]|]. split; repeat constructor; vm_compute; reflexivity.
  - constructor.
  - repeat constructor; try (vm_compute; reflexivity). exists 7. split; [vm_compute; reflexivity|lia].
  - reflexivity.
  - by vm_compute.
  - repeat constructor; vm_compute; reflexivity.
  - repeat constructor; vm_compute; reflexivity.
Qed.

(** ** The allocation state of the two checkpoints *)

Definition sample_marked (lba : Z) : bool := bool_decide (lba ∈ sample_used) || negb (allocatable small_geometry lba).

Definition sample_bitmaps_exact (b : Bitmaps) : bool :=
  forallb (fun lba => match Bitmaps_is_allocated b lba with Ok x => Bool.eqb x (sample_marked lba) | _ => false end) (seqZ 0 60) &&
  match Bitmaps_free_blocks_total b with Ok n => n =? 21 | _ => false end.

Lemma sample_state ck :
  u64 (cp_allocation_root_block ck) ->
  match snd (Bitmaps_load small_geometry ck sample_device) with Ok b => sample_bitmaps_exact b | _ => false end = true ->
  match snd (load_allocation_root small_geometry (cp_allocation_root_block ck) (cp_generation ck) sample_device) with Ok r => la_tree_blocks r | _ => [] end = [13] ->
  exists c nodes, allocation_in small_geometry (content sample_device) ck c nodes /\ map fst nodes = [13] /\
    (forall lba, 0 <= lba < 60 -> marked small_geometry (cs_page c) lba = sample_marked lba) /\ free_total small_geometry (cs_page c) = 21.
Proof.
  intros Hu E1 E2. pose proof (wpi_Bitmaps_load small_geometry sample_device ck (proj1 sample_device_ok) Hu) as H1.
  pose proof (wpi_load_allocation_root small_geometry sample_device (cp_generation ck) _ (proj1 sample_device_ok) Hu) as H2. unfold wpi in H1, H2.
  destruct (Bitmaps_load _ _ _) as [d1 [b|e|]]; [|discriminate E1..]. destruct (load_allocation_root _ _ _ _) as [d2 [r|e|]]; [|discriminate E2..]. cbn [snd] in E1, E2.
  destruct H1 as (_ & c & nodes & Hin & Hgeo & Hheld), H2 as (_ & nodes' & Hroot & Hblocks & _). destruct (allocation_root_unique small_geometry _ _ _ _ _ _ _ (proj1 Hin) Hroot) as [_ Hn].
  exists c, nodes. split; [done|]. split; [congruence|]. destruct b as [g pss]. cbn in Hgeo, Hheld. subst g. pose proof (committed_fits small_geometry _ _ _ _ Hin) as Hfit.
  unfold sample_bitmaps_exact in E1. apply andb_true_iff in E1 as [Hall Htot]. split.
  - intros lba Hl. rewrite forallb_forall in Hall. specialize (Hall lba). rewrite (held_is_allocated small_geometry _ _ Hfit Hheld lba ltac:(done)) in Hall.
    apply eqb_prop, Hall, list_elem_of_In, elem_of_seqZ. lia.
  - rewrite (held_free_total small_geometry _ _ Hfit Hheld) in Htot. by apply Z.eqb_eq.
Qed.

Lemma sample_current_state : exists c nodes, allocation_in small_geometry (content sample_device) sample_current c nodes /\ map fst nodes = [13] /\
  (forall lba, 0 <= lba < 60 -> marked small_geometry (cs_page c) lba = sample_marked lba) /\ free_total small_geometry (cs_page c) = 21.
Proof. apply sample_state; [by vm_compute|vm_compute; reflexivity|vm_compute; reflexivity]. Qed.

Lemma sample_older_state : exists c nodes, allocation_in small_geometry (content sample_device) sample_older c nodes /\ map fst nodes = [13].
Proof. destruct (sample_state sample_older) as (c & nodes & ? & ? & _); [by vm_compute|vm_compute; reflexivity|vm_compute; reflexivity|]. by exists c, nodes. Qed.

(** ** A transaction on it *)

Lemma sample_root_u64 : u64 13.
Proof. by vm_compute. Qed.

Lemma sample_generations : u64 44 /\ u64 64 /\ 0 < oldest_retained sample_current (Some sample_older) /\ cp_generation sample_current < 10 /\ u64 10.
Proof. by vm_compute. Qed.

Lemma sample_regions : 2 * regions small_geometry <= 2 ^ 32.
Proof. by vm_compute. Qed.

Lemma sample_places : queue_places queue_root [] [queue_entries] 44 = [55; 56; 57; 45; 44] /\ map fst (live_blocks queue_root [queue_entries]) = [55; 56; 57].
Proof. split; vm_compute; reflexivity. Qed.

Definition sample_consistent_for (c : Committed) nodes (oc : Committed) onodes : Prop :=
  consistent small_geometry sample_current (Some sample_older) c nodes oc onodes sample_device queue_root [] [queue_entries] /\ map fst nodes = [13] /\
  (forall lba, 0 <= lba < 60 -> marked small_geometry (cs_page c) lba = sample_marked lba).

Lemma sample_elem c lba : (forall lba, 0 <= lba < 60 -> marked small_geometry (cs_page c) lba = sample_marked lba) ->
  (0 <=? lba) && (lba <? 60) && sample_marked lba = true -> lba ∈ marked_set small_geometry (cs_page c).
Proof.
  intros Hm Hl. apply andb_true_iff in Hl as [Hl Hs]. assert (0 <= lba < 60) as Hb by lia. apply elem_of_marked_set. split; [exact Hb|]. rewrite Hm by exact Hb. exact Hs.
Qed.

Lemma sample_consistent : exists c nodes oc onodes, sample_consistent_for c nodes oc onodes.
Proof.
  destruct sample_current_state as (c & nodes & Hin & Hn & Hm & Hf), sample_older_state as (oc & onodes & Hino & Hno). destruct sample_generations as (Hu44 & _ & Hold & _).
  exists c, nodes, oc, onodes. split; [|split; [exact Hn|exact Hm]]. destruct sample_places as [Hp Hl]. split.
  - split; [exact (proj1 sample_device_ok)|]. split; [by rewrite sample_size|]. split; [exact Hin|]. split; [exact sample_root_u64|]. split; [exact Hino|exact sample_root_u64].
  - exact sample_queue_at.
  - exact Hu44.
  - symmetry. exact Hf.
  - exact Hold.
  - change (cp_reclaim_root_block sample_current) with 44. rewrite Hp. repeat constructor; set_solver.
  - change (cp_reclaim_root_block sample_current) with 44. rewrite Hp. intros lba Hin'%elem_of_list_to_set%list_elem_of_In. apply (sample_elem c lba Hm).
    repeat (destruct Hin' as [<-|Hin']; [vm_compute; reflexivity|]). destruct Hin'.
  - intros lba. rewrite Hn, Hno, Hl. intros Hlba. assert (lba = 13) as -> by set_solver. split; [|set_solver]. apply (sample_elem c 13 Hm). vm_compute. reflexivity.
  - exact sample_regions.
Qed.

(** The transaction that opens on it, with the blocks of the queue that become free. *)
Lemma sample_opened : exists c nodes oc onodes reclaim d tx,
  sample_consistent_for c nodes oc onodes /\ sample_opening = (d, Ok tx) /\ reads sample_device d /\
  open_tx small_geometry sample_current (Some sample_older) c nodes oc onodes (content sample_device) queue_root [] [queue_entries] 64 reclaim d tx /\
  promoted_set (rx_promoted reclaim) = {[55; 56]} /\ mine tx = ∅ /\ gone tx = ∅.
Proof.
  destruct sample_consistent as (c & nodes & oc & onodes & Hc & Hn & Hm). destruct sample_generations as (_ & Hu64 & _ & Hnew & Hu10).
  pose proof (wpi_begin_tx small_geometry sample_current (Some sample_older) c nodes oc onodes sample_device queue_root [] [queue_entries] 10 64 0
    (vc_volume _ _ _ _ _ _ _ _ _ _ _ Hc) sample_queue_at (vc_root _ _ _ _ _ _ _ _ _ _ _ Hc) Hu64 (vc_generations _ _ _ _ _ _ _ _ _ _ _ Hc) (Z.le_refl 0) (vc_free _ _ _ _ _ _ _ _ _ _ _ Hc) Hnew Hu10) as H.
  assert (match snd sample_opening with Ok tx => match ta_reclaim tx with Some r => map fst (promoted_blocks (rx_promoted r)) | None => [] end | _ => [] end = [55; 56]) as E by (vm_compute; reflexivity).
  unfold wpi in H. fold sample_opening in H. destruct sample_opening as [d [tx|e|]]; [|discriminate E..]. cbn [snd] in E. destruct H as (Hr & Ho).
  destruct (consistent_open small_geometry _ _ _ _ _ _ _ _ _ _ _ _ _ _ Hc Hr Ho) as (reclaim & Hrc & Hopen). destruct Ho as (_ & _ & _ & _ & _ & _ & _ & _ & Hmine & Hgone & _). rewrite Hrc in E.
  exists c, nodes, oc, onodes, reclaim, d, tx. split; [split; [exact Hc|split; [exact Hn|exact Hm]]|]. split; [reflexivity|]. split; [exact Hr|]. split; [exact Hopen|].
  split; [unfold promoted_set; rewrite E; cbn; set_solver|]. split; [exact Hmine|exact Hgone].
Qed.
