(* ===== verification/AllocPromise.v ===== *)
(** * What the allocator promises (crates/afsplus-core/src/alloc.rs)

    The theorems about a transaction as its callers see it: opening it on a
    consistent volume, the operations in any order, and finishing it. *)

From S2P Require Import Prelude Crc32c Format Header Codec TreeNode Geometry Bitmap Region Checkpoint Leaf Device Cache Core Tree TreeSpec TreeReaders TreeVerify.
From S2P Require Import CowTree CowStore CowNodes CowEdit CowMutate CowBatch AllocRoot AllocRootSpec ReclaimCodec Reclaim ReclaimQueue RunSet Alloc AllocSpec AllocTx AllocScan AllocOps AllocBack AllocClaim AllocBegin.
From S2P Require Import AllocQueue AllocTree AllocFinish AllocCommit AllocSample.

(** ** Operations in any order *)

Inductive AllocOp :=
| OpAllocate (len : Z)
| OpClaim (start blocks : Z)
| OpExtend (run_start run_blocks blocks : Z)
| OpRetire (start blocks : Z)
| OpRelease (lba : Z)
| OpAbandon (start blocks : Z)
| OpFloor (blocks : Z)
| OpHousekeeping
| OpRegistry (root : Z).

Section Promise.
Context {D : Type} {device : BlockDevice Decoded D} {contract : DeviceContract Decoded D core_decodes}.
Context (geo : Geometry) {WF : WfGeometry geo}.
Context (current : Checkpoint) (other : option Checkpoint) (c : Committed) (nodes : list (Z * TreeNode)) (oc : Committed) (onodes : list (Z * TreeNode)).

Abbreviation content := (view (decodes := core_decodes)).
Abbreviation consistent := (AllocCommit.consistent geo current other c nodes oc onodes).

Definition run_op (op : AllocOp) : io (D * TxAllocator) CoreError unit :=
  match op with
  | OpAllocate len => let! _ := allocate_run len in iret tt
  | OpClaim start blocks => allocate_exact_run start blocks
  | OpExtend run_start run_blocks blocks => let! _ := try_extend_run run_start run_blocks blocks in iret tt
  | OpRetire start blocks => retire_run start blocks
  | OpRelease lba => release_uncommitted lba
  | OpAbandon start blocks => abandon_uncommitted_run start blocks
  | OpFloor blocks => imodify (fun s => (fst s, set_free_block_floor blocks (snd s)))
  | OpHousekeeping => begin_snapshot_housekeeping
  | OpRegistry root => set_snapshot_registry_root root
  end.

(** The arguments are [u64]s; an allocation of no blocks is a debug assertion. *)
Definition op_typed (op : AllocOp) : Prop :=
  match op with
  | OpAllocate len => 0 < len
  | OpClaim start blocks | OpRetire start blocks | OpAbandon start blocks => u64 start /\ u64 blocks
  | OpExtend run_start run_blocks blocks => u64 run_start /\ u64 run_blocks /\ u64 blocks
  | OpRelease lba => u64 lba
  | OpFloor _ | OpHousekeeping => True
  | OpRegistry root => u64 root
  end.

(** A transaction that was opened on [d0] and has run operations; one that found no space goes on. *)
Inductive reachable (new_generation batch_blocks rover : Z) (d0 : D) : D * TxAllocator -> Prop :=
| reach_open d tx : TxAllocator_begin geo current other new_generation batch_blocks rover d0 = (d, Ok tx) -> reachable new_generation batch_blocks rover d0 (d, tx)
| reach_op op s s' : reachable new_generation batch_blocks rover d0 s -> op_typed op -> run_op op s = (s', Ok tt) -> reachable new_generation batch_blocks rover d0 s'
| reach_full len s s' : reachable new_generation batch_blocks rover d0 s -> 0 < len -> allocate_run len s = (s', Err NoSpace) -> reachable new_generation batch_blocks rover d0 s'.

(** ** Every operation keeps the transaction open *)

Section Open.
Context (v : Z -> bytes) (root : ReclaimRoot) (tables : list (list SegmentRef)) (segs : list (list ReclaimEntry)) (batch_blocks : Z) (reclaim0 : ReclaimTx).

Abbreviation promoted := (promoted_set (rx_promoted reclaim0)).
Abbreviation is_open := (open_tx geo current other c nodes oc onodes v root tables segs batch_blocks reclaim0).
Abbreviation inv := (tx_inv geo current other c oc promoted).
Abbreviation marks := (AllocOps.marks geo c).

(** The fields the invariant does not speak of. *)
Lemma open_relabel (d : D) tx floor snapshot :
  is_open d tx ->
  match ta_snapshot tx, snapshot with
  | Some a, Some b => sa_allocations b = sa_allocations a /\ sa_retirements b = sa_retirements a
  | None, None => True
  | _, _ => False
  end -> is_open d (set_floor floor (set_snapshot snapshot tx)).
Proof.
  intros Ho Hs. pose proof Ho as ((Hd & _) & Hinv & Hrec & _). apply (open_step geo current other c nodes oc onodes v root tables segs batch_blocks reclaim0 d d tx); [done|by apply agree_refl| |done|].
  - destruct Hinv as [Hc ? ? ? ? ? ? Hsn ? ? ? ?]. split; try done; [by apply (caches_ext geo current other c oc tx)|]. unfold snapshot_ok in *. cbn [ta_snapshot set_floor set_snapshot].
    destruct (ta_snapshot tx) as [a|], snapshot as [b|]; try done. destruct Hs as [-> ->]. done.
  - intros runs [? ? Hn ? ? ? ? ? ?]. exists runs. split; try done. cbn. rewrite Hn in Hs. by destruct snapshot.
Qed.

Lemma set_floor_id tx : set_floor (ta_free_block_floor tx) (set_snapshot (ta_snapshot tx) tx) = tx.
Proof. by destruct tx. Qed.

Lemma open_housekeeping op (s s' : D * TxAllocator) :
  is_open (fst s) (snd s) -> op_typed op -> match op with OpFloor _ | OpHousekeeping | OpRegistry _ => True | _ => False end -> run_op op s = (s', Ok tt) -> is_open (fst s') (snd s').
Proof.
  intros Ho Hty Hop Hr. destruct s as [d tx]. cbn [fst snd] in Ho.
  assert (forall snapshot, match ta_snapshot tx, snapshot with Some a, Some b => sa_allocations b = sa_allocations a /\ sa_retirements b = sa_retirements a | None, None => True | _, _ => False end ->
    is_open d (set_snapshot snapshot tx)) as Hre.
  { intros snapshot Hs. pose proof (open_relabel d tx (ta_free_block_floor tx) snapshot Ho Hs) as H. replace (set_snapshot snapshot tx) with (set_floor (ta_free_block_floor tx) (set_snapshot snapshot tx)); [done|by destruct tx]. }
  destruct op as [| | | | | |floor| |reg]; try done; cbn [run_op] in Hr.
  - injection Hr as <-. cbn. unfold set_free_block_floor. replace (set_floor floor tx) with (set_floor floor (set_snapshot (ta_snapshot tx) tx)) by by destruct tx.
    apply open_relabel; [done|]. by destruct (ta_snapshot tx).
  - assert (wpi begin_snapshot_housekeeping (d, tx) (fun _ s => is_open (fst s) (snd s)) (fun _ _ => True)) as H; [|unfold wpi in H; by rewrite Hr in H].
    unfold begin_snapshot_housekeeping, on_tx, check_snapshot_health. apply wpi_bind, wpi_bind, wpi_get, wpi_lift. apply wp_if; intros _; [done|]. apply wp_ok, wpi_bind, wpi_get. cbn [snd].
    destruct (ta_snapshot tx) as [a|] eqn:Hs; [|by apply wpi_ret]. apply wpi_if; intros _; [done|]. apply wpi_modify. cbn [fst snd]. by apply Hre.
  - assert (wpi (set_snapshot_registry_root reg) (d, tx) (fun _ s => is_open (fst s) (snd s)) (fun _ _ => True)) as H; [|unfold wpi in H; by rewrite Hr in H].
    unfold set_snapshot_registry_root, on_tx, check_snapshot_health. apply wpi_bind, wpi_bind, wpi_get, wpi_lift. apply wp_if; intros _; [done|]. apply wp_ok, wpi_bind, wpi_get. cbn [snd].
    destruct (ta_snapshot tx) as [a|] eqn:Hs; [|done]. apply wpi_bind. eapply (wpi_mono _ _ (fun _ s => s = (d, tx)) _ (fun _ _ => True)); [| |done].
    + apply wpi_if; intros _; [by apply wpi_ret|]. pose proof Ho as (_ & Hinv & _). rewrite (ca_geo _ _ _ _ _ _ (ti_caches _ _ _ _ _ _ _ Hinv)), (is_allocatable_eq geo) by (cbn in Hty; unfold u64 in Hty; lia). apply wpi_bind, wpi_lift, wp_ok. apply wpi_if; intros _; by apply wpi_ret.
    + intros bad s ->. apply wpi_if; intros _; [done|]. apply wpi_modify. cbn [fst snd]. by apply Hre.
Qed.

Lemma open_op op (s s' : D * TxAllocator) : is_open (fst s) (snd s) -> op_typed op -> run_op op s = (s', Ok tt) -> is_open (fst s') (snd s').
Proof.
  intros Ho Hty Hr. destruct s as [d tx]. cbn [fst snd] in Ho. pose proof Ho as (Hvol & Hinv & Hrec & _ & Hsmall & _). pose proof Hvol as (Hd & _).
  assert (reads d d) as Hrd by by apply agree_refl.
  destruct op as [len|start blocks|rs rb blocks|start blocks|lba|start blocks|floor| |reg]; [..|by eapply (open_housekeeping (OpFloor floor) (d, tx))|by eapply (open_housekeeping OpHousekeeping (d, tx))|by eapply (open_housekeeping (OpRegistry reg) (d, tx))];
    cbn [run_op op_typed] in Hr, Hty; unfold u64 in Hty.
  - assert (wpi (let! _ := allocate_run len in iret tt) (d, tx) (fun _ s => is_open (fst s) (snd s)) (fun _ _ => True)) as H; [|unfold wpi in H; by rewrite Hr in H]. apply wpi_bind.
    eapply wpi_mono; [by apply (wpi_allocate_run geo current other c nodes oc onodes promoted d Hvol d tx len)| |done]; cbn beta. intros lba s (Hr1 & Ht & _). apply wpi_ret. by eapply open_took.
  - assert (wpi (allocate_exact_run start blocks) (d, tx) (fun _ s => is_open (fst s) (snd s)) (fun _ _ => True)) as H; [|unfold wpi in H; by rewrite Hr in H].
    eapply wpi_mono; [apply (wpi_allocate_exact_run geo current other c nodes oc onodes promoted d Hvol d tx); [done|done|lia|lia]| |done]; cbn beta. intros _ s (Hr1 & _ & Ht). by eapply open_took.
  - assert (wpi (let! _ := try_extend_run rs rb blocks in iret tt) (d, tx) (fun _ s => is_open (fst s) (snd s)) (fun _ _ => True)) as H; [|unfold wpi in H; by rewrite Hr in H]. apply wpi_bind.
    eapply wpi_mono; [apply (wpi_try_extend_run geo current other c nodes oc onodes promoted d Hvol d tx rs rb blocks Hrd Hinv); lia| |done]; cbn beta. intros b s (Hr1 & Ht). apply wpi_ret.
    destruct b; [destruct Ht as [[_ ->]|[_ Ht]]; [done|by eapply open_took]|]. destruct Ht as (Hi & Hq & _). by eapply open_quiet.
  - assert (wpi (retire_run start blocks) (d, tx) (fun _ s => is_open (fst s) (snd s)) (fun _ _ => True)) as H; [|unfold wpi in H; by rewrite Hr in H].
    eapply wpi_mono; [apply (wpi_retire_run geo current other c nodes oc onodes promoted d Hvol d tx); [done|done|done|lia|lia]| |done]; cbn beta. intros _ s (Hr1 & Ht). apply (open_retired geo current other c nodes oc onodes v root tables segs batch_blocks reclaim0 d (fst s) tx (snd s) start blocks Ho Hr1); [lia|done].
  - assert (wpi (release_uncommitted lba) (d, tx) (fun _ s => is_open (fst s) (snd s)) (fun _ _ => True)) as H; [|unfold wpi in H; by rewrite Hr in H].
    eapply wpi_mono; [by apply (wpi_release_uncommitted geo current other c nodes oc onodes promoted d Hvol d tx)| |done]; cbn beta. intros _ s (Hr1 & Ht). by eapply open_released.
  - assert (wpi (abandon_uncommitted_run start blocks) (d, tx) (fun _ s => is_open (fst s) (snd s)) (fun _ _ => True)) as H; [|unfold wpi in H; by rewrite Hr in H].
    eapply wpi_mono; [apply (wpi_abandon_uncommitted_run geo current other c nodes oc onodes promoted d Hvol d tx); [done|done|lia|lia]| |done]; cbn beta. intros _ s (-> & Ht). apply (open_abandoned geo current other c nodes oc onodes v root tables segs batch_blocks reclaim0 d tx (snd s) start blocks Ho); [lia|done].
Qed.

Lemma open_full len (s s' : D * TxAllocator) : is_open (fst s) (snd s) -> 0 < len -> allocate_run len s = (s', Err NoSpace) -> is_open (fst s') (snd s').
Proof.
  intros Ho Hlen Hr. destruct s as [d tx]. cbn [fst snd] in Ho. pose proof Ho as (Hvol & Hinv & Hrec & _ & Hsmall & _). pose proof Hvol as (Hd & _).
  pose proof (wpi_allocate_run geo current other c nodes oc onodes promoted d Hvol d tx len ltac:(by apply agree_refl) Hinv Hlen Hsmall) as H. unfold wpi in H. rewrite Hr in H.
  destruct H as (Hr1 & [He|[(_ & Hi & Hq & _)|He]]); [by destruct He as [b ?]|by eapply open_quiet|]. destruct (check_writable_total tx) as [Hw|[what Hw]]; rewrite Hw in He; done.
Qed.

(** ** The operations *)

(** C5: allocation is complete and sound.  In an open transaction a run of
    blocks is found whenever one of that length is free in some region, the
    floor on free blocks allows it and the snapshot accounting is writable:
    then only the device can fail.  The run that is returned was free and
    allocatable, lies in one region and belongs to the transaction
    afterwards; nothing else changes, and the free count does not fall below
    the floor.  When there is no space the transaction goes on as before. *)
Theorem allocation_finds_space (d : D) tx len :
  is_open d tx -> 0 < len ->
  wpi (allocate_run len) (d, tx)
    (fun lba s => let R := run_blocks lba (lba + len) in reads d (fst s) /\ is_open (fst s) (snd s) /\ R ## marks tx /\
       (forall x, x ∈ R -> allocatable geo x = true /\ x / region_size geo = lba / region_size geo) /\
       marks (snd s) = R ∪ marks tx /\ mine (snd s) = R ∪ mine tx /\ gone (snd s) = gone tx /\ ta_free_block_floor tx <= free_blocks_remaining (snd s))
    (fun e s => reads d (fst s) /\
       (only_io e \/ e = NoSpace /\ is_open (fst s) (snd s) /\ marks (snd s) = marks tx /\ no_space geo c tx len \/ check_snapshot_writable tx = Err e)).
Proof.
  intros Ho Hlen. pose proof Ho as (Hvol & Hinv & _ & _ & Hsmall & _). pose proof Hvol as (Hd & _).
  eapply wpi_mono; [apply (wpi_allocate_run geo current other c nodes oc onodes promoted d Hvol d tx len); [by apply agree_refl|done|done|done]| |]; cbn beta.
  - intros lba s (Hr & Ht & (r & start & Hlba & Hfree) & Hfl). pose proof (open_took geo _ _ _ _ _ _ _ _ _ _ _ _ _ _ _ _ _ Ho Hr Ht) as Ho'. pose proof Ht as (Hinv' & Hdis & Hm & Hmine & Hret & _).
    split; [done|]. split; [done|]. split; [done|]. destruct (free_at_run geo c tx r len start Hfree) as (_ & _ & _ & Hall). rewrite <- Hlba in Hall.
    split; [|split; [done|split; [done|split; [by unfold gone; rewrite Hret|by rewrite (free_blocks_remaining_eq geo _ _ _ _ _ _ Hinv')]]]].
    intros x Hx. split; [by apply Hall|]. apply elem_of_run_blocks in Hx. destruct Hfree as (Hreg & Hh & Hv & _). pose proof (wf_valid_bounds geo r Hreg). pose proof (wf_head_bounds geo r Hreg).
    destruct (lba_of_index geo r (x - r * region_size geo) Hreg ltac:(lia)) as [Hq _], (lba_of_index geo r start Hreg ltac:(lia)) as [Hq' _].
    replace (r * region_size geo + (x - r * region_size geo)) with x in Hq by lia. rewrite <- Hlba in Hq'. congruence.
  - intros e s (Hr & He). split; [done|]. destruct He as [|[(-> & Hi & Hq & Hn)|]]; [by left| |by right; right]. right; left. split; [done|]. split; [by eapply open_quiet|].
    split; [by apply quiet_marks|done].
Qed.

(** C15: claiming is exact.  A named run is claimed when, and apart from device
    errors only when, it is not empty, its blocks are allocatable and free
    and the floor holds; a run is extended exactly when the blocks behind it
    can be claimed and end in its region, and a refusal changes nothing. *)
Theorem claims_exact (d : D) tx :
  is_open d tx ->
  (forall start blocks, u64 start -> u64 blocks ->
     wpi (allocate_exact_run start blocks) (d, tx)
       (fun _ s => let R := run_blocks start (start + blocks) in reads d (fst s) /\ is_open (fst s) (snd s) /\ claim_ok geo c tx start blocks /\
          marks (snd s) = R ∪ marks tx /\ mine (snd s) = R ∪ mine tx /\ gone (snd s) = gone tx)
       (fun e s => reads d (fst s) /\ (only_io e \/ ~ claim_ok geo c tx start blocks))) /\
  (forall run_start run_len blocks, u64 run_start -> u64 run_len -> u64 blocks ->
     let start := run_start + run_len in
     wpi (try_extend_run run_start run_len blocks) (d, tx)
       (fun b s => let R := run_blocks start (start + blocks) in reads d (fst s) /\ is_open (fst s) (snd s) /\ (0 < blocks -> b = true <-> extendable geo c tx run_start start blocks) /\
          marks (snd s) = (if (b : bool) then R ∪ marks tx else marks tx) /\ mine (snd s) = (if b then R ∪ mine tx else mine tx) /\ gone (snd s) = gone tx)
       (fun e s => reads d (fst s) /\ (only_io e \/ check_snapshot_writable tx = Err e \/ 2 ^ 64 <= start + blocks))).
Proof.
  intros Ho. pose proof Ho as (Hvol & Hinv & _). pose proof Hvol as (Hd & _). assert (reads d d) as Hrd by by apply agree_refl. split.
  - intros start blocks Hu Hb. unfold u64 in *. eapply wpi_mono; [apply (wpi_allocate_exact_run geo current other c nodes oc onodes promoted d Hvol d tx start blocks Hrd Hinv); lia| |done]; cbn beta zeta.
    intros _ s (Hr & Hok & Ht). pose proof (open_took geo _ _ _ _ _ _ _ _ _ _ _ _ _ _ _ _ _ Ho Hr Ht) as Ho'. destruct Ht as (_ & _ & Hm & Hmine & Hret & _).
    split; [done|]. split; [done|]. split; [done|]. split; [done|]. split; [done|]. unfold gone. by rewrite Hret.
  - intros rs rl blocks Hu1 Hu2 Hb. unfold u64 in *. cbn zeta. eapply wpi_mono; [apply (wpi_try_extend_run geo current other c nodes oc onodes promoted d Hvol d tx rs rl blocks Hrd Hinv); lia| |done]; cbn beta zeta.
    intros b s (Hr & Hb'). split; [done|]. destruct b.
    + destruct Hb' as [[Hz ->]|[Hx Ht]]; cbn [fst snd].
      * split; [done|]. split; [lia|]. assert (run_blocks (rs + rl) (rs + rl + blocks) = ∅) as -> by (apply set_eq; intros x; rewrite elem_of_run_blocks; set_solver by lia). split; [set_solver|]. split; [set_solver|done].
      * pose proof (open_took geo _ _ _ _ _ _ _ _ _ _ _ _ _ _ _ _ _ Ho Hr Ht) as Ho'. destruct Ht as (_ & _ & Hm & Hmine & Hret & _). split; [done|]. split; [done|]. split; [done|]. split; [done|]. unfold gone. by rewrite Hret.
    + destruct Hb' as (Hi & Hq & Hn). split; [by eapply open_quiet|]. split; [done|]. destruct (ledger_fields _ _ (proj1 (accounts_split _ _ (proj1 Hq)))) as (Ha & Hg & _).
      split; [by apply quiet_marks|]. unfold mine, gone. by rewrite Ha, Hg.
Qed.

(** C11: blocks are given back exactly.  Retiring accepts the blocks of the
    committed state that are still in use and quarantines them; releasing
    frees a block that the transaction allocated; abandoning moves a run of
    the transaction to the quarantine.  Each of them refuses anything else,
    fails on these only when the device does, and keeps the transaction
    open: no block is both owned and quarantined, and quarantined blocks
    stay marked. *)
Theorem blocks_given_back (d : D) tx start blocks lba :
  is_open d tx -> u64 start -> u64 blocks -> u64 lba ->
  let R := run_blocks start (start + blocks) in
  wpi (retire_run start blocks) (d, tx)
    (fun _ s => reads d (fst s) /\ is_open (fst s) (snd s) /\ R ⊆ AllocOps.base geo c promoted ∖ gone tx /\ marks (snd s) = marks tx /\ mine (snd s) = mine tx /\ gone (snd s) = R ∪ gone tx)
    (fun e s => reads d (fst s) /\ (only_io e \/ ~ retirable geo c promoted tx start blocks)) /\
  wpi (release_uncommitted lba) (d, tx)
    (fun _ s => reads d (fst s) /\ is_open (fst s) (snd s) /\ lba ∈ mine tx /\ marks (snd s) = marks tx ∖ {[lba]} /\ mine (snd s) = mine tx ∖ {[lba]} /\ gone (snd s) = gone tx)
    (fun e s => reads d (fst s) /\ (only_io e \/ ~ (check_snapshot_writable tx = Ok tt /\ lba ∈ mine tx /\ check_snapshot_release lba (lba + 1) tx = Ok tt))) /\
  wpi (abandon_uncommitted_run start blocks) (d, tx)
    (fun _ s => fst s = d /\ is_open (fst s) (snd s) /\ R ⊆ mine tx /\ marks (snd s) = marks tx /\ mine (snd s) = mine tx ∖ R /\ gone (snd s) = R ∪ gone tx)
    (fun e s => fst s = d /\ ~ abandonable tx start blocks).
Proof.
  intros Ho Hs Hb Hl R. pose proof Ho as (Hvol & Hinv & Hrec & _). pose proof Hvol as (Hd & _). assert (reads d d) as Hrd by by apply agree_refl. assert (0 <= start /\ 0 <= blocks) as [Hs0 Hb0] by (unfold u64 in *; lia).
  split; [|split].
  - eapply wpi_mono; [by apply (wpi_retire_run geo current other c nodes oc onodes promoted d Hvol d tx start blocks)| |done]; cbn beta. intros _ s (Hr & Ht).
    pose proof (open_retired geo _ _ _ _ _ _ _ _ _ _ _ _ _ _ _ _ _ _ Ho Hr Hs0 Ht) as Ho'. by destruct Ht as (_ & _ & HR & Hm & Hmine & Hg & _).
  - eapply wpi_mono; [by apply (wpi_release_uncommitted geo current other c nodes oc onodes promoted d Hvol d tx lba)| |done]; cbn beta. intros _ s (Hr & Ht).
    pose proof (open_released geo _ _ _ _ _ _ _ _ _ _ _ _ _ _ _ _ _ Ho Hr Ht) as Ho'. by destruct Ht as (_ & Hin & Hm & Hmine & Hg & _).
  - eapply wpi_mono; [by apply (wpi_abandon_uncommitted_run geo current other c nodes oc onodes promoted d Hvol d tx start blocks)| |done]; cbn beta. intros _ s (-> & Ht).
    pose proof (open_abandoned geo _ _ _ _ _ _ _ _ _ _ _ _ _ _ _ _ _ Ho Hs0 Ht) as Ho'. by destruct Ht as (_ & _ & HR & Hm & Hmine & Hg & _).
Qed.



(** C4: finishing publishes the transaction's state beside the retained ones.
    On a volume without snapshots it never panics and reads only.  When it
    succeeds, writing the returned blocks leaves the bitmaps and descriptors
    of both retained checkpoints in place; the new records, descriptors and
    bitmaps mark exactly the committed blocks that were not promoted, those
    the transaction owns, those in quarantine and the new blocks of the
    queue, which were free; the free count is theirs; and the reclaim queue
    on the volume is the old one without the promoted prefix, followed by
    blocks of this generation.  If the blocks of the old queue were apart,
    marked and not retired again, the new queue holds each of them once. *)
Theorem finish_publishes (d : D) tx :
  is_open d tx -> cp_snapshot_roots current = None -> 0 < cp_generation current ->
  rt_appended_blocks_total root + Z.of_nat (size (gone tx)) + zlen (live_structure root tables) + 1 < 2 ^ 64 ->
  wpi finish_alloc (d, tx) (fun f s => reads d (fst s) /\ finished geo current other c oc root tables segs reclaim0 d tx f)
    (fun e s => reads d (fst s) /\ (only_io e \/ e = NoSpace \/ exists what, e = PrototypeLimit what)).
Proof. intros Ho Hs Hg Hroom. by apply (wpi_finish_alloc geo current other c nodes oc onodes v root tables segs batch_blocks reclaim0). Qed.
End Open.

(** ** Opening *)


(** C9: every transaction that can be reached from a consistent volume, by
    opening it and running allocations, claims, extensions, retirements,
    releases, abandonments and housekeeping in any order, is open: the
    bitmaps it holds mark the committed blocks that were not promoted, the
    blocks it owns and those in quarantine; the last two are disjoint; and
    the free count is exact. *)
Theorem reachable_transactions_sound (d : D) root tables segs new_generation batch_blocks rover s :
  consistent d root tables segs -> cp_generation current < new_generation -> u64 new_generation -> u64 batch_blocks -> 0 <= rover ->
  reachable new_generation batch_blocks rover d s ->
  exists reclaim, open_tx geo current other c nodes oc onodes (content d) root tables segs batch_blocks reclaim (fst s) (snd s) /\
    AllocOps.marks geo c (snd s) = AllocOps.base geo c (promoted_set (rx_promoted reclaim)) ∪ mine (snd s) ∪ gone (snd s) /\
    mine (snd s) ## AllocOps.base geo c (promoted_set (rx_promoted reclaim)) ∪ gone (snd s) /\
    free_blocks_remaining (snd s) = total_blocks geo - Z.of_nat (size (AllocOps.marks geo c (snd s))).
Proof.
  intros Hc Hnew Hu Hb Hrov Hreach. assert (exists reclaim, open_tx geo current other c nodes oc onodes (content d) root tables segs batch_blocks reclaim (fst s) (snd s)) as [reclaim Ho].
  { induction Hreach as [d1 tx Hbegin|op s s' Hs IH Hty Hrun|len s s' Hs IH Hlen Hrun].
    - pose proof (wpi_begin_tx geo current other c nodes oc onodes d root tables segs new_generation batch_blocks rover (vc_volume _ _ _ _ _ _ _ _ _ _ _ Hc) (vc_queue _ _ _ _ _ _ _ _ _ _ _ Hc) (vc_root _ _ _ _ _ _ _ _ _ _ _ Hc) Hb
        (vc_generations _ _ _ _ _ _ _ _ _ _ _ Hc) Hrov (vc_free _ _ _ _ _ _ _ _ _ _ _ Hc) Hnew Hu) as H. unfold wpi in H. rewrite Hbegin in H. destruct H as [Hr Hopen].
      destruct (consistent_open geo _ _ _ _ _ _ _ _ _ _ _ _ _ _ Hc Hr Hopen) as (reclaim & _ & Ho). by exists reclaim.
    - destruct IH as [reclaim Ho]. exists reclaim. by eapply open_op.
    - destruct IH as [reclaim Ho]. exists reclaim. by eapply open_full. }
  exists reclaim. split; [done|]. pose proof Ho as (_ & Hinv & _). split; [apply Hinv|]. split; [apply Hinv|]. pose proof (wf_total (g := geo)).
  rewrite (free_blocks_remaining_eq geo _ _ _ _ _ _ Hinv), free_total_size by lia. done.
Qed.
End Promise.

(** ** Edits of a tree *)

(** C6: a batch of edits on a tree runs on the allocator of a transaction.  It
    never panics; no block that the committed state marks changes, whatever
    happens.  When it succeeds the returned writes give the tree of exactly
    the edited items; its new nodes are in blocks that were free and now
    belong to the transaction; the nodes that left it, and only they, join
    the quarantine; and the allocator's bitmaps, run sets and free counts
    agree again. *)
Theorem tree_batch_on_allocator {D : Type} {device : BlockDevice Decoded D} {contract : DeviceContract Decoded D core_decodes}
    (geo : Geometry) current other c nodes oc onodes v queue tables segs budget reclaim0 spec new_generation operations root items tree_nodes (d : D) (tx : TxAllocator) :
  let promoted := promoted_set (rx_promoted reclaim0) in
  WfGeometry geo -> open_tx geo current other c nodes oc onodes v queue tables segs budget reclaim0 d tx ->
  u64 root -> u64 new_generation -> 0 <= ts_max_generation spec -> 0 <= ta_tree_cache_pages tx ->
  tree_of geo spec (decoded (view (decodes := core_decodes) d)) root items tree_nodes -> blocks tree_nodes ⊆ AllocOps.base geo c promoted ->
  wpi (mutate_many geo root spec new_generation operations) (d, tx)
    (fun m s => exists items' nodes', edits operations items = Some items' /\
       tree_of geo (grown spec new_generation) (decoded (written (view (decodes := core_decodes) (fst s)) (tm_writes m))) (tm_root_lba m) items' nodes' /\
       blocks nodes' ⊆ AllocOps.base geo c promoted ∪ mine (snd s) /\ gone (snd s) = gone tx ∪ (blocks tree_nodes ∖ blocks nodes') /\
       (forall lba block, (lba, block) ∈ tm_writes m -> lba ∈ blocks nodes' ∩ mine (snd s)) /\
       agree_off (dev_ok (decodes := core_decodes)) (view (decodes := core_decodes)) (fun b => b ∉ AllocOps.base geo c promoted) d (fst s) /\
       open_tx geo current other c nodes oc onodes v queue tables segs budget reclaim0 (fst s) (snd s))
    (fun _ s => agree_off (dev_ok (decodes := core_decodes)) (view (decodes := core_decodes)) (fun b => b ∉ AllocOps.base geo c promoted) d (fst s)).
Proof.
  intros promoted WF Hopen Hr Hg Hm Hp Ht Hb. pose proof (tree_owner _ _ _ _ _ _ Ht) as Ho. pose proof Hopen as (Hvol & _). pose proof Hvol as (Hd & Hfit & _).
  set (tc := tx_contract (D := D) geo current other c nodes oc onodes v queue tables segs budget reclaim0). unfold mutate_many, wpi at 1. destruct (new_generation <=? ts_max_generation spec) eqn:Hn.
  - unfold mutate_many_with_cache_limit, mutate_many_inner. rewrite Hn. destruct (_ =? 0); by apply agree_refl.
  - pose proof (wpi_on_committed (alloc_contract := tc) geo spec new_generation (tree_cache_pages (D := D) tx) operations d tx Hg Hm Hp Hfit Ho ltac:(lia) root items tree_nodes Hd Hopen Hr Ht Hb) as H.
    eapply wpi_mono; [exact H| |]; cbn beta; [|done].
    intros m s (items' & nodes' & He & Ht' & Hq & Hpl & Hw & Hun & Hopen' & _). exists items', nodes'. split; [done|]. split; [done|].
    split; [intros x Hx; by apply elem_of_union, Hpl|]. split; [|split; [intros lba block Hx; by apply elem_of_intersection, (Hw lba block)|done]].
    apply set_eq. intros x. rewrite elem_of_union, elem_of_difference. cbn in Hq. rewrite Hq. specialize (Hb x). clear -Hb. tauto.
Qed.

(** ** Reading a checkpoint's bitmaps *)

(** C18: loading the bitmaps of a checkpoint is exact.  Whatever the device
    holds, the load reads only and never panics.  When it succeeds the
    checkpoint names a complete allocation state, every block is reported
    allocated exactly when that state marks it, and the reported free count
    is the number of unmarked blocks; on a checkpoint that names one it fails
    only when the device does. *)
Theorem committed_bitmaps_exact {D : Type} {device : BlockDevice Decoded D} {contract : DeviceContract Decoded D core_decodes} (geo : Geometry) (d : D) checkpoint :
  WfGeometry geo -> dev_ok (decodes := core_decodes) d -> u64 (cp_allocation_root_block checkpoint) ->
  wpi (Bitmaps_load geo checkpoint) d
    (fun b d' => reads d d' /\ exists c nodes, allocation_in geo (view (decodes := core_decodes) d) checkpoint c nodes /\
       (forall lba, 0 <= lba < total_blocks geo -> Bitmaps_is_allocated b lba = Ok (marked geo (cs_page c) lba)) /\
       Bitmaps_free_blocks_total b = Ok (total_blocks geo - Z.of_nat (size (marked_set geo (cs_page c)))))
    (fun e d' => reads d d' /\ forall c nodes, allocation_in geo (view (decodes := core_decodes) d) checkpoint c nodes -> only_io e).
Proof.
  intros WF Hd Hu. eapply wpi_mono; [by apply (wpi_Bitmaps_load geo)| |done]; cbn beta. intros [g pss] d' (Hr & c & nodes & Hin & Hg & Hh). cbn in Hg, Hh. subst g.
  pose proof (committed_fits geo _ _ _ _ Hin) as Hfit. pose proof (wf_total (g := geo)). split; [done|]. exists c, nodes. split; [done|]. split.
  - intros lba Hl. by apply held_is_allocated.
  - rewrite (held_free_total geo _ _ Hfit Hh), free_total_size by lia. done.
Qed.

Lemma committed_bitmaps_exact_witness :
  exists b c nodes, snd sample_bitmaps = Ok b /\ Bitmaps_is_allocated b 44 = Ok true /\ Bitmaps_is_allocated b 47 = Ok false /\ Bitmaps_free_blocks_total b = Ok 21 /\
    allocation_in small_geometry (view (decodes := core_decodes) sample_device) sample_current c nodes /\ marked small_geometry (cs_page c) 44 = true.
Proof.
  pose proof (committed_bitmaps_exact small_geometry sample_device sample_current small_geometry_wf (proj1 sample_device_ok) sample_root_u64) as H.
  assert (match snd sample_bitmaps with Ok b => (Bitmaps_is_allocated b 44, Bitmaps_is_allocated b 47, Bitmaps_free_blocks_total b) | _ => (Panic, Panic, Panic) end = (Ok true, Ok false, Ok 21)) as E
    by (vm_compute; reflexivity).
  unfold wpi in H. fold sample_bitmaps in H. destruct sample_bitmaps as [d' [b|e|]]; [|discriminate E..]. cbn [snd] in E. destruct H as (_ & c & nodes & Hin & Hb & _). injection E as E1 E2 E3.
  exists b, c, nodes. split; [reflexivity|]. split; [exact E1|]. split; [exact E2|]. split; [exact E3|]. split; [exact Hin|].
  pose proof (Hb 44 ltac:(by vm_compute)) as Hx. rewrite E1 in Hx. apply Ok_inj in Hx. by symmetry.
Defined.

(** ** On the sample volume *)

Lemma in_range_of a b n : (a <=? b) && (b <? n) = true -> a <= b < n.
Proof. lia. Qed.

Lemma between_of a b n : (a <? b) && (b <? n) = true -> a < b < n.
Proof. lia. Qed.

Lemma at_most_of a b : (a <=? b) = true -> a <= b.
Proof. lia. Qed.

Abbreviation sample_tx := (open_tx small_geometry sample_current (Some sample_older)).


(** The result of an operation on the opened transaction. *)
Definition run_on {A} (opening : CachedDevice Decoded MemoryBackend * outcome CoreError TxAllocator)
    (op : io (CachedDevice Decoded MemoryBackend * TxAllocator) CoreError A) : option ((CachedDevice Decoded MemoryBackend * TxAllocator) * outcome CoreError A) :=
  match opening with (d, Ok tx) => Some (op (d, tx)) | _ => None end.

Definition result_on {A} (opening : CachedDevice Decoded MemoryBackend * outcome CoreError TxAllocator)
    (op : io (CachedDevice Decoded MemoryBackend * TxAllocator) CoreError A) : outcome CoreError A :=
  match run_on opening op with Some (_, r) => r | None => Panic end.

Lemma reachable_transactions_sound_witness :
  exists c nodes oc onodes reclaim d tx, sample_opening = (d, Ok tx) /\ let s := fst (run_op (OpAllocate 3) (d, tx)) in
    sample_tx c nodes oc onodes (content sample_device) queue_root [] [queue_entries] 64 reclaim (fst s) (snd s) /\
    free_blocks_remaining (snd s) = 60 - Z.of_nat (size (AllocOps.marks small_geometry c (snd s))).
Proof.
  destruct sample_consistent as (c & nodes & oc & onodes & Hc & _). destruct sample_generations as (_ & Hu64 & _ & Hnew & Hu10).
  assert (result_on sample_opening (run_op (OpAllocate 3)) = Ok tt) as E by (vm_compute; reflexivity).
  pose proof (fun d tx => reach_open small_geometry sample_current (Some sample_older) 10 64 0 sample_device d tx) as Hopen. fold sample_opening in Hopen.
  destruct sample_opening as [d [tx|e|]]; [|discriminate E..]. change (snd (run_op (OpAllocate 3) (d, tx)) = Ok tt) in E.
  destruct (reachable_transactions_sound small_geometry sample_current (Some sample_older) c nodes oc onodes sample_device queue_root [] [queue_entries] 10 64 0
    (fst (run_op (OpAllocate 3) (d, tx))) Hc Hnew Hu10 Hu64 (Z.le_refl 0)) as (reclaim & Ho & _ & _ & Hf).
  - refine (reach_op _ _ _ _ _ _ _ (OpAllocate 3) (d, tx) _ (Hopen d tx eq_refl) eq_refl _). destruct (run_op (OpAllocate 3) (d, tx)) as [s r]. cbn [fst snd] in E |- *. rewrite E. reflexivity.
  - exists c, nodes, oc, onodes, reclaim, d, tx. split; [reflexivity|]. split; [exact Ho|exact Hf].
Defined.

Lemma allocation_finds_space_witness :
  exists c nodes oc onodes reclaim d tx, sample_opening = (d, Ok tx) /\ snd (allocate_run 3 (d, tx)) = Ok 22 /\ let s := fst (allocate_run 3 (d, tx)) in
    sample_tx c nodes oc onodes (content sample_device) queue_root [] [queue_entries] 64 reclaim (fst s) (snd s) /\ run_blocks 22 25 ## AllocOps.marks small_geometry c tx.
Proof.
  assert (result_on sample_opening (allocate_run 3) = Ok 22) as E by (vm_compute; reflexivity).
  destruct sample_opened as (c & nodes & oc & onodes & reclaim & d & tx & _ & Heq & _ & Hopen & _). rewrite Heq in E. change (snd ((allocate_run 3) (d, tx)) = Ok 22) in E.
  pose proof (allocation_finds_space small_geometry sample_current (Some sample_older) c nodes oc onodes (content sample_device) queue_root [] [queue_entries] 64 reclaim d tx 3 Hopen eq_refl) as H.
  exists c, nodes, oc, onodes, reclaim, d, tx. split; [exact Heq|]. split; [exact E|]. unfold wpi in H. destruct (allocate_run 3 (d, tx)) as [s [lba|e|]]; [|discriminate E..].
  cbn in E. apply Ok_inj in E as ->. destruct H as (_ & Ho & Hd & _). split; [exact Ho|exact Hd].
Defined.

Lemma claims_exact_witness :
  exists c nodes oc onodes reclaim d tx, sample_opening = (d, Ok tx) /\ snd (try_extend_run 46 1 1 (d, tx)) = Ok true /\
    AllocOps.marks small_geometry c (snd (fst (try_extend_run 46 1 1 (d, tx)))) = run_blocks 47 48 ∪ AllocOps.marks small_geometry c tx /\
    sample_tx c nodes oc onodes (content sample_device) queue_root [] [queue_entries] 64 reclaim (fst (fst (try_extend_run 46 1 1 (d, tx)))) (snd (fst (try_extend_run 46 1 1 (d, tx)))).
Proof.
  assert (result_on sample_opening (try_extend_run 46 1 1) = Ok true) as E by (vm_compute; reflexivity).
  destruct sample_opened as (c & nodes & oc & onodes & reclaim & d & tx & _ & Heq & _ & Hopen & _). rewrite Heq in E. change (snd ((try_extend_run 46 1 1) (d, tx)) = Ok true) in E.
  pose proof (proj2 (claims_exact small_geometry sample_current (Some sample_older) c nodes oc onodes (content sample_device) queue_root [] [queue_entries] 64 reclaim d tx Hopen)
    46 1 1 (in_range_of 0 46 (2 ^ 64) eq_refl) (in_range_of 0 1 (2 ^ 64) eq_refl) (in_range_of 0 1 (2 ^ 64) eq_refl)) as H.
  exists c, nodes, oc, onodes, reclaim, d, tx. split; [exact Heq|]. split; [exact E|]. cbn zeta in H. unfold wpi in H. destruct (try_extend_run 46 1 1 (d, tx)) as [s [b|e|]]; [|discriminate E..].
  cbn [snd] in E. apply Ok_inj in E as ->. destruct H as (_ & Ho & _ & Hm & _). split; [exact Hm|exact Ho].
Defined.

Lemma blocks_given_back_witness :
  exists c nodes oc onodes reclaim d tx, sample_opening = (d, Ok tx) /\ snd (retire_run 46 1 (d, tx)) = Ok tt /\ let s := fst (retire_run 46 1 (d, tx)) in
    sample_tx c nodes oc onodes (content sample_device) queue_root [] [queue_entries] 64 reclaim (fst s) (snd s) /\ gone (snd s) = run_blocks 46 47 ∪ gone tx.
Proof.
  assert (result_on sample_opening (retire_run 46 1) = Ok tt) as E by (vm_compute; reflexivity).
  destruct sample_opened as (c & nodes & oc & onodes & reclaim & d & tx & _ & Heq & _ & Hopen & _). rewrite Heq in E. change (snd ((retire_run 46 1) (d, tx)) = Ok tt) in E.
  pose proof (proj1 (blocks_given_back small_geometry sample_current (Some sample_older) c nodes oc onodes (content sample_device) queue_root [] [queue_entries] 64 reclaim d tx 46 1 47 Hopen
    (in_range_of 0 46 (2 ^ 64) eq_refl) (in_range_of 0 1 (2 ^ 64) eq_refl) (in_range_of 0 47 (2 ^ 64) eq_refl))) as H.
  exists c, nodes, oc, onodes, reclaim, d, tx. split; [exact Heq|]. split; [exact E|]. unfold wpi in H. destruct (retire_run 46 1 (d, tx)) as [s [u|e|]]; [|discriminate E..].
  destruct H as (_ & Ho & _ & _ & _ & Hg). split; [exact Ho|exact Hg].
Defined.



Lemma finish_publishes_witness :
  exists c oc reclaim d tx f, sample_opening = (d, Ok tx) /\ snd (finish_alloc (d, tx)) = Ok f /\ fa_free_blocks_total f = 21 /\ fa_reclaim_pending_blocks f = 3 /\
    finished small_geometry sample_current (Some sample_older) c oc queue_root [] [queue_entries] reclaim d tx f.
Proof.
  assert (match result_on sample_opening finish_alloc with Ok f => (fa_free_blocks_total f, fa_reclaim_pending_blocks f) | _ => (0, 0) end = (21, 3)) as E by (vm_compute; reflexivity).
  destruct sample_opened as (c & nodes & oc & onodes & reclaim & d & tx & _ & Heq & _ & Hopen & _ & _ & Hg). rewrite Heq in E. unfold result_on, run_on in E.
  pose proof (finish_publishes small_geometry sample_current (Some sample_older) c nodes oc onodes (content sample_device) queue_root [] [queue_entries] 64 reclaim d tx Hopen eq_refl eq_refl
    ltac:(rewrite Hg, size_empty; vm_compute; reflexivity)) as H.
  unfold wpi in H. destruct (finish_alloc (d, tx)) as [s [f|e|]] eqn:Hf; [|discriminate E..]. cbn [snd] in E. injection E as E1 E2.
  exists c, oc, reclaim, d, tx, f. split; [exact Heq|]. split; [by rewrite Hf|]. split; [exact E1|]. split; [exact E2|]. exact (proj2 H).
Defined.

(** A tree of one leaf on the opened device. *)
Definition collecting (lba : Z) (_ : TreeNode) : io (list Z) CoreError unit := fun l => (l ++ [lba], Ok tt).

Lemma collected tree_nodes l l' : ieach (visit_node collecting) tree_nodes l = (l', Ok tt) -> l' = l ++ tree_nodes.*1.
Proof.
  revert l. induction tree_nodes as [|[lba node] tree_nodes IH]; cbn; intros l H; [injection H as <-; by rewrite app_nil_r|].
  apply IH in H. by rewrite H, <- app_assoc.
Qed.

Lemma leaf_tree d tx : dev_ok (decodes := core_decodes) d -> sample_opening = (d, Ok tx) ->
  exists items nodes, tree_of small_geometry sample_spec (decoded (content d)) 46 items nodes /\ blocks nodes = {[46]}.
Proof.
  intros Hd Heq. assert (let r := visit_tree_nodes small_geometry sample_spec collecting false 46 (fst sample_opening, []) in
    match snd r with Ok _ => snd (fst r) | _ => [] end = [46]) as E by (vm_compute; reflexivity).
  rewrite Heq in E. cbn [fst] in E.
  pose proof (wpi_visit_tree_nodes small_geometry sample_spec collecting false 46 d [] small_geometry_wf ltac:(discriminate) Hd (in_range_of 0 46 (2 ^ 64) eq_refl)) as H.
  unfold wpi in H. cbn zeta in E. destruct (visit_tree_nodes _ _ _ _ _ _) as [s [r|e|]]; [|discriminate E..]. cbn [fst snd] in E. destruct H as (_ & items & nodes & Ht & _ & Hv).
  apply collected in Hv. exists items, nodes. split; [exact Ht|]. unfold blocks. cbn in Hv. rewrite <- Hv, E. set_solver.
Qed.

Lemma leaf_kept c (leaf : list (Z * TreeNode)) promoted :
  46 ∈ marked_set small_geometry (cs_page c) -> blocks leaf = {[46]} -> promoted = {[55; 56]} -> blocks leaf ⊆ AllocOps.base small_geometry c promoted.
Proof. intros H -> ->. apply singleton_subseteq_l, elem_of_difference. split; [exact H|]. rewrite elem_of_union, !elem_of_singleton. lia. Qed.

Definition leaf_batch : io (CachedDevice Decoded MemoryBackend * TxAllocator) CoreError TreeMutation :=
  mutate_many (D := CachedDevice Decoded MemoryBackend) (A := TxAllocator) small_geometry 46 sample_spec 10 [Upsert (key_u64 4) (le_split 2 44)].

Lemma tree_batch_on_allocator_witness :
  exists c nodes oc onodes reclaim d tx items' tree' m, sample_opening = (d, Ok tx) /\ let r := leaf_batch (d, tx) in
    snd r = Ok m /\ tree_of small_geometry (grown sample_spec 10) (decoded (written (content (fst (fst r))) (tm_writes m))) (tm_root_lba m) items' tree' /\
    gone (snd (fst r)) = gone tx ∪ ({[46]} ∖ blocks tree') /\
    sample_tx c nodes oc onodes (content sample_device) queue_root [] [queue_entries] 64 reclaim (fst (fst r)) (snd (fst r)).
Proof.
  assert (match result_on sample_opening leaf_batch with Ok _ => true | _ => false end = true) as E by (vm_compute; reflexivity).
  assert (match snd sample_opening with Ok tx => 0 <=? ta_tree_cache_pages tx | _ => false end = true) as Ep by (vm_compute; reflexivity).
  destruct sample_opened as (c & nodes & oc & onodes & reclaim & d & tx & (_ & _ & Hm) & Heq & Hr & Hopen & Hpr & _). destruct (leaf_tree d tx (proj1 Hr) Heq) as (items & leaf & Ht & Hb).
  rewrite Heq in E, Ep. unfold result_on, run_on in E. cbn [snd] in Ep. pose proof (leaf_kept c leaf _ (sample_elem c 46 Hm eq_refl) Hb Hpr) as Hsub.
  pose proof (tree_batch_on_allocator small_geometry sample_current (Some sample_older) c nodes oc onodes (content sample_device) queue_root [] [queue_entries] 64 reclaim sample_spec 10
    [Upsert (key_u64 4) (le_split 2 44)] 46 items leaf d tx small_geometry_wf Hopen (in_range_of 0 46 (2 ^ 64) eq_refl) (in_range_of 0 10 (2 ^ 64) eq_refl) (at_most_of 0 9 eq_refl) (at_most_of _ _ Ep) Ht Hsub) as H.
  unfold wpi in H. fold leaf_batch in H. destruct (leaf_batch (d, tx)) as [s [m|e|]] eqn:Hl; [|discriminate E..]. destruct H as (items' & tree' & _ & Ht' & _ & Hg & _ & _ & Ho).
  rewrite Hb in Hg. exists c, nodes, oc, onodes, reclaim, d, tx, items', tree', m. split; [exact Heq|]. rewrite Hl. split; [reflexivity|]. split; [exact Ht'|]. split; [exact Hg|exact Ho].
Defined.
